(* ===== verification/_CoqProject ===== *)
-Q . S2P
Prelude.v
Json.v
Types.v
TaskRegistry.v
RuntimeLedger.v
LedgerFacts.v
LedgerAdmission.v
Identity.v
WorkflowTypes.v
WorkflowValidation.v
WorkflowGraph.v
WorkflowFacts.v
WorkflowReferences.v
Registries.v
LedgerInterface.v
MessageBus.v
BusFacts.v
BusGuarantees.v
ResourceTypes.v
ResourceManager.v
ResourceFacts.v
ResourceRates.v
ResourceUpdates.v
ResourceRecovery.v
Scheduler.v
ResourceExamples.v
CollaborationTypes.v
CollaborationRuntime.v
CollaborationTasks.v
CollaborationSpawn.v
CollaborationRestore.v
CollaborationHistory.v
CollaborationReplay.v
CollaborationReplayTasks.v
CollaborationReplayBatch.v
CollaborationReplayTeams.v
CollaborationRecovery.v
CollaborationErrors.v
WorkflowRuns.v
WorkflowInputs.v
WorkflowController.v
WorkflowRegistration.v
WorkflowCompletion.v
WorkflowNodes.v
CollaborationSafety.v
CollaborationExamples.v
WorkflowExecution.v
WorkflowRestore.v
WorkflowCheckpoints.v
WorkflowFrames.v
WorkflowMoves.v
WorkflowRegistry.v
WorkflowSafety.v
WorkflowInterleaving.v
WorkflowHistory.v
WorkflowProjection.v
WorkflowTermination.v
WorkflowRecovery.v
WorkflowProgress.v
WorkflowExamples.v
Paths.v
NetworkDomains.v
PermissionTypes.v
PermissionEngine.v
ProtectedPaths.v
PermissionContext.v
PermissionFacts.v
PermissionLeases.v
PermissionHistory.v
PermissionExamples.v
EffectAudit.v
EffectAuditFacts.v
EffectTypes.v
EffectEnvironment.v
EffectJournal.v
EffectFacts.v
EffectExamples.v
EffectAuthorization.v
AuthorizationFacts.v
LedgerRedaction.v
