(* ===== verification/Prelude.v ===== *)
(** * Solaris Mesh: a verification library

    Solaris Mesh runs a tree of cooperating Agents.  Its coordination core, in
    crates/solaris-agent/src with the data types of crates/solaris-types/src,
    keeps its state in registries behind locks and writes every change that
    must survive a restart to a ledger before it becomes visible.  This library
    models that core as Rocq functions and proves what the rest of the program
    relies on.

    ** How the code is modelled

    An operation that owns a lock is a function from the state it locks to the
    state it unlocks and its [result]; a failing call returns the state it
    leaves behind.  Asynchronous callers are sequences of such operations in
    any order, given by step relations ([ledger_event], [live_step],
    [bus_step], [rm_step], [life_step], [sched_step], [run_step], [in_flight],
    [ctl_step], [loop_step], [changes], [journal_step]).
    Machine integers are [Z] with the saturating, checked or wrapping operation
    the code uses; an
    [f64] is an IEEE binary64 value with the operations of Stdlib's SpecFloat.
    The clock, generated identifiers and the iteration order of hash maps are
    arguments, so the theorems hold for all of them.  SHA-256 and the byte
    rendering of JSON are parameters.

    ** The files

    - Prelude: results and the state-and-error monad, machine integers, [f64],
      strings, and lemmas on lists and maps shared by the components.
    - Json: [serde_json::Value] with its order-insensitive equality, and the
      class [Serde] of derived conversions with their round trips.
    - Types: identifiers, task, Agent and team records (solaris-types).
    - TaskRegistry: task_registry.rs, the compare-and-swap registry of tasks.
    - RuntimeLedger: the in-memory ledger of runtime_ledger.rs with logical
      appends, Workflow leases and task admission; LedgerFacts and
      LedgerAdmission prove its guarantees; LedgerInterface is the part of the
      [RuntimeLedger] trait its clients use, as a class with laws, and the
      instance of the in-memory ledger.
    - Identity: ids of child Agents and relationship_store.rs.
    - WorkflowTypes, WorkflowValidation: Workflow definitions and
      workflow_validation.rs; WorkflowGraph and WorkflowFacts give the
      declarative specification and prove that validation decides it.
    - WorkflowReferences: the search for circular references between
      definitions (workflow_controller/validation.rs).
    - Registries: Agents, teams, team state, roles and strategy planners.
    - MessageBus: message_bus.rs over any ledger; BusFacts and BusGuarantees
      prove recovery, bounds, idempotence and exclusive claims.
    - ResourceTypes, ResourceManager: resource_manager.rs with its persistence;
      ResourceFacts (permits and admission), ResourceRates (an abstract machine
      of the provider rate window and the refinement), ResourceUpdates
      (transactions, failures, usage counted once), ResourceRecovery (deltas,
      checkpoints, restarts) and ResourceExamples (concrete runs).
    - Scheduler: resource_policy.rs and scheduler.rs.
    - CollaborationTypes, CollaborationRuntime, CollaborationTasks,
      CollaborationSpawn, CollaborationRestore: collaboration_runtime.rs and
      its submodules, the component that owns the registries and the ledger of
      a process and changes them together (Teams and messages, tasks, child
      Agents and outcomes, recovery).
    - CollaborationHistory: its operations as one type, what each does, the
      histories of a Run ([run_step]) and the invariant between registries and
      records; CollaborationReplay, CollaborationReplayTasks,
      CollaborationReplayBatch, CollaborationReplayTeams:
      for each operation, that its records replay what it did;
      CollaborationRecovery (memberships along a history, and recovery),
      CollaborationErrors, CollaborationSafety (which also has the admissions in
      flight): the theorems; CollaborationExamples: concrete histories, two of
      which a recovery does not bring back, and two admissions that overlap.
    - The Workflow controller, workflow_controller.rs and its submodules:
      WorkflowRuns (snapshots of Runs and the attempts of nodes, with their
      JSON forms; failure summaries), WorkflowInputs (conditions, bindings,
      schema_validation.rs, checkpoints), WorkflowController (the state of the
      controller, the state-and-error monad of its methods, the guard of a Run
      and [mutate_projection], projection.rs), WorkflowRegistration
      (definitions, owners, the start of Runs), WorkflowCompletion
      (completion_source.rs and workflow_supervisor_turn_chain.rs),
      WorkflowNodes (node_state.rs: beginning, completing, failing and skipping
      nodes), WorkflowExecution (deferred terminal writes, settling,
      cancellation, the execution loop with sub-Workflows and time limits) and
      WorkflowRestore (restore.rs).
    - Its theorems: WorkflowCheckpoints (the checkpoints of a restored Run, and what
      a parent sees of a failed child), WorkflowFrames
      (which call writes what, and calls that keep their lease),
      WorkflowMoves (an abstract machine of one Run, and the refinement of every
      method to its moves), WorkflowHistory (the records of
      each change, and what their replay gives), WorkflowRegistry (the registry
      of definitions and the step relation [ctl_step] of the controller),
      WorkflowSafety (invariants of Runs), WorkflowInterleaving (any number of
      execution loops at once, [loop_step]: nodes run in order and final states
      are final), WorkflowProjection (projections that
      are behind the ledger), WorkflowTermination and WorkflowProgress (the
      execution loop ends, takes allowed steps only and leaves settled Runs),
      WorkflowRecovery (a Run is restored from its records), WorkflowExamples (a
      concrete Workflow, the witnesses, and three runs that do not do what they
      should).
    - Permissions: Paths (bytes of strings, [std::path] on Unix and the
      resolution of paths), NetworkDomains (network_proxy.rs of solaris-process),
      PermissionTypes (effects, rules, leases, boundaries), PermissionEngine
      (permission_engine.rs and evaluation.rs: rules, presets, leases, boundaries),
      ProtectedPaths (protected_paths.rs and boundary_identity.rs) and
      PermissionContext (contexts as bundles of shared cells, with every operation
      that changes one).  The file system is an argument, another one at every
      step.
    - Its theorems: PermissionFacts (protection only grows, and what is allowed),
      PermissionLeases (the durable use of leases), PermissionHistory
      (the step relation [changes] of all contexts) and PermissionExamples.
    - Effects: EffectAudit (the audit projection of effect.rs), EffectTypes (the
      JSON forms of effects and environments), EffectEnvironment (environment.rs
      and the normalisation of descriptors), EffectJournal (recovery.rs and
      output_store.rs: intents, outcomes, output files and what a later execution
      does).  The directory of outputs is the class [Directory] with laws.
      EffectAuthorization (execution_context.rs and process_authorization.rs:
      approved requests, the checks before an execution, and the authorization
      that creates a process).
    - Its theorems: EffectAuditFacts (what a digest of an effect identifies),
      EffectFacts (the step relation [journal_step] of all contexts; effects are
      started once, and their outcomes reused), EffectExamples and
      AuthorizationFacts (processes are created as they were approved).
    - LedgerRedaction (redaction.rs: what a Host gets of a durable payload, with
      its theorem and example).  Its fuel is the depth of the payload.

    ** What the theorems show

    Tasks follow their life cycle, live tasks have owners, no update is lost,
    a repeated operation is answered from its first application, and the
    durable history rebuilds the registry.  Ledger sequences are unique and
    increasing, histories are append-only, an overtaken lease is fenced off for
    ever, logical appends bind one record, admission is atomic and within its
    quota.  Validation accepts exactly the well-formed acyclic definitions.
    Child identities are unambiguous up to a hash collision.  The bus is
    bounded, its errors leave no trace, sends are idempotent, a message is
    claimed once, and replay rebuilds the mailbox.  Permits are accounted and
    issued within every limit, the rate window is kept, usage is counted once,
    a failed write is final, accounts stay in their machine types, and a
    restart restores them.  In the collaboration runtime, the composition of
    these components, a recovery gives back every registry after a history of
    calls, a failing call changes nothing, tasks are changed by entitled callers
    one revision at a time, Agents follow their life cycle, the tasks of a Team
    stay in order, and outcomes are read back as they were reported.

    In the Workflow controller the registered definitions stay valid, closed
    and free of circles; nodes run in the order of the graph, on the inputs
    their digest names and at most as often as their retry policy allows; final
    states are final; a change of a Run whose projection does not know all
    records is refused without a trace; executing a Run is a sequence of allowed
    steps, ends, and leaves a settled Run; a parent retries a sub-Workflow
    exactly when all its failures may be retried; the checkpoints of a restored
    Run are valid together; and a Run that was not cancelled, left no change for
    later and has no Supervisor is restored as it was, the attempts that were
    running waiting to be resumed.  The reachable
    controllers of these theorems start with any content of the ledger and of
    the task registry and with no Run in memory, and take any sequence of the
    controller's calls but a recovery: they speak of Runs this controller has
    started, and a recovery is the subject of [workflow_recovery] and
    [restored_checkpoints_valid].  In [ctl_step] a call that begins or skips a
    node does so for a node that is ready (or has a false condition) at that
    moment, which is the caller's part and is proved of one execution loop
    ([execution_takes_allowed_steps]).  [nodes_run_in_order] and
    [final_states_final] do not rest on it: there any number of loops run the
    Runs at once, each begins or skips what it found ready or skippable at some
    earlier moment ([loop_step]), and the calls check what they check.  A loop
    whose node was cancelled meanwhile may still mark it skipped.  Executors
    are any functions that may let such steps happen while they work.

    An effect is allowed exactly when the specification of the permission engine
    says so, and a rule that denies wins in every mode; a child Agent never gets
    more than the ceiling and the boundary it was given; protected runtime state
    stays protected; leases are not used beyond their limit and every use is
    recorded; paths and network permissions mean what they name.  An effect that
    was started is not started again, unless it only reads; it has one outcome,
    and a later execution gets the recorded output; its audit shows digests only,
    which identify the effect up to a hash collision.  A process is created at most
    once per authorization, and only as it was approved and is still allowed.
    What a Host gets of a durable payload is redacted under
    the names that stand for commands, arguments, credentials and effects.

    ** The histories of the collaboration runtime

    A history is of one Run and starts before its first record.  Its calls do not
    overlap: a call is made when the one before it has returned.  Every call that
    changes the Run holds its mutation line while it does, and what it reads
    before it takes the line belongs to the same step - but for the admission of
    tasks ([admit_collaboration_tasks], which [create_collaboration_task] ends
    with), which takes no line at all.  [admission_step] has its accesses one by
    one, each under the lock of the registry or of the ledger; the whole call
    ([admit_runtime_tasks]) runs them to the end, which [admission_alone] gives
    in closed form.  [task_changes_authorized] speaks of both: of calls in any
    state, and of admissions between whose accesses anything may happen; the
    example [overlapping_admissions_lose_assignment] shows what such an overlap
    can do.  The theorems on recovery, errors and the tasks of a Team are about
    histories without overlap.

    The histories leave out the successful calls that move an Agent from one
    Team to another (a join, or a batch of handles) or take a member out of its
    Team (the cancellation or the abort of its spawn): [keeps_teams], a condition
    on the call and the state before it; that the Teams and the Agents agree
    along a history is then proved ([run_op_agrees]).  The examples
    [cancelled_owner_blocks_recovery] and [repeated_batch_not_restored] show that
    without the condition recovery can fail.  [op_ok] holds what the argument
    types guarantee, that message identifiers are not used twice, and that
    records of other components have other types.  The tasks that the Workflow
    controller registers or restores are put into the same registry by it; they
    are the subject of its own theorems.

    ** Bounds and fuel

    Fuel appears where the code loops or recurses without a structural bound.
    The acyclicity check of a definition and the search for circular references
    are given the number of nodes and of definitions, and proved to need no more
    ([validate_definition_decides], [reference_cycles_decided]).  Skipping nodes
    has as many rounds as nodes, cancelling a Run with its children as many
    levels as Runs: both are proved enough in [execution_ends], which also gives
    a number of rounds that is enough for executing any Run.  The rounds of the
    checkpoint validation are bounded by the number of nodes ([checkpoint_fuel]),
    proved enough in [restored_checkpoints_valid].  The loops that wait for the lease of
    another process, and the one that repeats a recovery that was overtaken, take
    a number of tries as an argument: they wait for other processes.  All other
    recursion is structural.

    ** Not modelled

    The SQLite implementation of the ledger (SQL text executed by a library),
    ledger export and migration (file I/O), the spawner, the Agent engine and
    the node executors of Workflows (asynchronous provider calls; an executor is
    an argument of the controller), the sandboxes and the handles of
    workspace roots (operating-system state), providers, MCP,
    tools, sessions, configuration and the command line.  Live events to
    subscribers are left out of every model: they read state and change none. *)
From stdpp Require Export base gmap strings list fin_maps sorting.
From Stdlib Require Export ZArith Lia SpecFloat.

Declare Scope mesh_scope.
Delimit Scope mesh_scope with mesh.
Open Scope mesh_scope.

(** ** Results

    [Result<A, E>] of Rust.  Fallible code that cannot change state returns a
    [result]; code that owns mutable state returns the pair of the state it
    leaves behind and the result, so that what a failing call has already
    written stays visible. *)
Inductive result (A E : Type) : Type :=
  | Ok (a : A)
  | Err (e : E).
Arguments Ok {A E} a.
Arguments Err {A E} e.

Definition rbind {A B E} (r : result A E) (k : A → result B E) : result B E :=
  match r with
  | Ok a => k a
  | Err e => Err e
  end.

Definition rmap {A B E} (f : A → B) (r : result A E) : result B E :=
  rbind r (λ a, Ok (f a)).

Definition ok_or {A E} (o : option A) (e : E) : result A E :=
  match o with
  | Some a => Ok a
  | None => Err e
  end.

Definition is_ok {A E} (r : result A E) : bool :=
  match r with Ok _ => true | Err _ => false end.

(** [ensure b e] is the early return [if !b { return Err(e) }]. *)
Definition ensure {E} (b : bool) (e : E) : result unit E :=
  if b then Ok tt else Err e.

Notation "'let?' x ':=' r 'in' k" := (rbind r (λ x, k))
  (at level 10, x name, r at level 100, k at level 200) : mesh_scope.
Notation "'let?' ' p ':=' r 'in' k" := (rbind r (λ x, match x with p => k end))
  (at level 10, p pattern, r at level 100, k at level 200) : mesh_scope.
Notation "r ';;?' k" := (rbind r (λ _, k))
  (at level 100, k at level 200, right associativity) : mesh_scope.

(** The [?] operator on code that threads a state: the state the callee left
    behind is kept on the error path. *)
Definition sbind {S A B E} (c : S * result A E) (k : S → A → S * result B E) :
    S * result B E :=
  match c with
  | (s, Ok a) => k s a
  | (s, Err e) => (s, Err e)
  end.

(** A fallible pure step inside stateful code. *)
Definition slift {S A B E} (s : S) (r : result A E) (k : A → S * result B E) :
    S * result B E :=
  match r with
  | Ok a => k a
  | Err e => (s, Err e)
  end.

(** [for x in xs { f(x)? }]: an accumulating loop that stops at the first
    error. *)
Fixpoint fold_result {A B E} (f : B → A → result B E) (b : B) (xs : list A) :
    result B E :=
  match xs with
  | [] => Ok b
  | x :: xs => let? b' := f b x in fold_result f b' xs
  end.

Definition for_each {A E} (f : A → result unit E) (xs : list A) : result unit E :=
  fold_result (λ _ x, f x) tt xs.

(** [iter().map(f).collect::<Result<Vec<_>, _>>()]. *)
Fixpoint map_result {A B E} (f : A → result B E) (xs : list A) : result (list B) E :=
  match xs with
  | [] => Ok []
  | x :: xs => let? y := f x in let? ys := map_result f xs in Ok (y :: ys)
  end.

Lemma rbind_ok {A B E} (r : result A E) (k : A → result B E) b :
  rbind r k = Ok b ↔ ∃ a, r = Ok a ∧ k a = Ok b.
Proof. destruct r; simpl; naive_solver. Qed.

Lemma rmap_ok {A B E} (f : A → B) (r : result A E) b :
  rmap f r = Ok b ↔ ∃ a, r = Ok a ∧ f a = b.
Proof. unfold rmap. rewrite rbind_ok. naive_solver. Qed.

Lemma ensure_ok {E} b (e : E) u : ensure b e = Ok u ↔ b = true.
Proof. destruct b, u; simpl; naive_solver. Qed.

Lemma ok_or_ok {A E} (o : option A) (e : E) a : ok_or o e = Ok a ↔ o = Some a.
Proof. destruct o; simpl; naive_solver. Qed.

Lemma sbind_ok {S A B E} (c : S * result A E) (k : S → A → S * result B E) s b :
  sbind c k = (s, Ok b) ↔ ∃ s' a, c = (s', Ok a) ∧ k s' a = (s, Ok b).
Proof. destruct c as [s' [a|e]]; simpl; naive_solver. Qed.

Lemma slift_ok {S A B E} (s0 : S) (r : result A E) (k : A → S * result B E) s b :
  slift s0 r k = (s, Ok b) ↔ ∃ a, r = Ok a ∧ k a = (s, Ok b).
Proof. destruct r; simpl; naive_solver. Qed.

Lemma fold_result_app {A B E} (f : B → A → result B E) b xs ys :
  fold_result f b (xs ++ ys) = (let? b' := fold_result f b xs in fold_result f b' ys).
Proof.
  revert b. induction xs as [|x xs IH]; intros b; simpl; [done|].
  destruct (f b x); simpl; [apply IH|done].
Qed.

Lemma for_each_ok {A E} (f : A → result unit E) xs u :
  for_each f xs = Ok u ↔ Forall (λ x, f x = Ok tt) xs.
Proof.
  unfold for_each. destruct u.
  induction xs as [|x xs IH]; simpl; [split; [constructor|done]|].
  rewrite rbind_ok, Forall_cons. split.
  - intros ([] & Hx & Hxs). by apply IH in Hxs.
  - intros [Hx Hxs]. exists tt. split; [done|]. by apply IH.
Qed.

Lemma map_result_ok {A B E} (f : A → result B E) xs ys :
  map_result f xs = Ok ys ↔ Forall2 (λ x y, f x = Ok y) xs ys.
Proof.
  revert ys. induction xs as [|x xs IH]; intros ys; simpl.
  - split; [intros [= <-]; constructor|by inversion 1].
  - rewrite rbind_ok. setoid_rewrite rbind_ok. split.
    + intros (y & Hx & ys' & Hxs & [= <-]). constructor; [done|]. by apply IH.
    + inversion 1; subst. eexists; split; [done|]. eexists; split; [by apply IH|done].
Qed.

(** An invariant of the accumulator survives a loop whose body keeps it. *)
Lemma fold_result_inv {A B E} (P : B → Prop) (f : B → A → result B E) b xs b' :
  P b → (∀ b x b', x ∈ xs → P b → f b x = Ok b' → P b') →
  fold_result f b xs = Ok b' → P b'.
Proof.
  revert b. induction xs as [|x xs IH]; intros b Hb Hf; simpl.
  - by intros [= <-].
  - rewrite rbind_ok. intros (b1 & Hx & Hxs).
    apply (IH b1); [|set_solver|done].
    apply (Hf b x); [set_solver|done..].
Qed.

(** ** Machine integers

    An integer of the code is a [Z] in the range of its type.  The target is
    64-bit, so [usize] has the range of [u64]. *)
Definition u32_max : Z := 4294967295.
Definition u64_max : Z := 18446744073709551615.
Definition usize_max : Z := u64_max.
Definition i64_max : Z := 9223372036854775807.
Definition i64_min : Z := -9223372036854775808.

Definition is_u64 (z : Z) : Prop := (0 ≤ z ≤ u64_max)%Z.
Definition is_i64 (z : Z) : Prop := (i64_min ≤ z ≤ i64_max)%Z.

(** [u64::checked_add], [u64::saturating_add], [u64::saturating_sub] (also
    for [usize]) and [i64::saturating_add], [i64::saturating_sub]. *)
Definition checked_add (a b : Z) : option Z :=
  if decide (a + b ≤ u64_max)%Z then Some (a + b)%Z else None.
Definition saturating_add (a b : Z) : Z := Z.min u64_max (a + b).
Definition saturating_sub (a b : Z) : Z := Z.max 0 (a - b).
Definition i64_saturating (z : Z) : Z := Z.max i64_min (Z.min i64_max z).
Definition i64_saturating_add (a b : Z) : Z := i64_saturating (a + b).
Definition i64_saturating_sub (a b : Z) : Z := i64_saturating (a - b).

Lemma checked_add_Some a b c :
  checked_add a b = Some c ↔ (c = a + b ∧ a + b ≤ u64_max)%Z.
Proof. unfold checked_add. case_decide; naive_solver. Qed.

Lemma checked_add_None a b : checked_add a b = None ↔ (u64_max < a + b)%Z.
Proof. unfold checked_add. case_decide; naive_solver lia. Qed.

Lemma saturating_add_u64 a b : is_u64 a → is_u64 b → is_u64 (saturating_add a b).
Proof. unfold is_u64, saturating_add, u64_max. lia. Qed.

Lemma saturating_sub_u64 a b : is_u64 a → is_u64 b → is_u64 (saturating_sub a b).
Proof. unfold is_u64, saturating_sub, u64_max. lia. Qed.

Lemma saturating_add_small a b :
  (a + b ≤ u64_max)%Z → saturating_add a b = (a + b)%Z.
Proof. unfold saturating_add. lia. Qed.

(** ** Floating point

    A Rust [f64] is an IEEE 754 binary64 value of the Standard Library's
    [spec_float], with its arithmetic (precision 53, largest exponent 1024,
    rounding to nearest even). *)
Definition f64 : Type := spec_float.
Definition f64_add (a b : f64) : f64 := SFadd 53 1024 a b.
Definition f64_mul (a b : f64) : f64 := SFmul 53 1024 a b.
Definition f64_div (a b : f64) : f64 := SFdiv 53 1024 a b.
Definition f64_abs (a : f64) : f64 := SFabs a.
Definition f64_eqb (a b : f64) : bool := SFeqb a b.
Definition f64_ltb (a b : f64) : bool := SFltb a b.
Definition f64_leb (a b : f64) : bool := SFleb a b.
Definition f64_zero : f64 := S754_zero false.

(** [n as f64] for an integer [n]. *)
Definition f64_of_Z (n : Z) : f64 := binary_normalize 53 1024 n 0 false.

#[export] Instance f64_eq_dec : EqDecision f64.
Proof. solve_decision. Defined.

Definition f64_is_nan (a : f64) : bool := match a with S754_nan => true | _ => false end.
Definition f64_is_finite (a : f64) : bool :=
  match a with S754_nan | S754_infinity _ => false | _ => true end.

(** [f64::max]: a NaN operand is ignored. *)
Definition f64_max (a b : f64) : f64 :=
  if f64_is_nan a then b else if f64_is_nan b then a else if f64_ltb a b then b else a.

Definition f64_is_zero (a : f64) : bool := match a with S754_zero _ => true | _ => false end.

(** [==] identifies the two zeros and nothing else, NaN excepted. *)
Lemma f64_eqb_spec a b :
  f64_eqb a b = true ↔
  (f64_is_zero a = true ∧ f64_is_zero b = true) ∨ (a = b ∧ f64_is_nan a = false).
Proof.
  destruct a as [?|[]| |[] m e], b as [?|[]| |[] m' e']; unfold f64_eqb, SFeqb; simpl;
    try solve [intuition congruence].
  all: destruct (e ?= e')%Z eqn:He; [apply Z.compare_eq in He as ->| |];
    [|split; [done|]; intros [[? _]|[[= _ ->] _]]; [done|by rewrite Z.compare_refl in He]..].
  all: rewrite ?Pos.compare_cont_spec; destruct (m ?= m')%positive eqn:Hm; simpl;
    [apply Pos.compare_eq in Hm as ->; naive_solver|
     split; [done|]; intros [[? _]|[[= ->] _]]; [done|by rewrite Pos.compare_refl in Hm]..].
Qed.

Lemma f64_eqb_refl a : f64_is_nan a = false → f64_eqb a a = true.
Proof. intros. apply f64_eqb_spec. by right. Qed.

Lemma f64_eqb_sym a b : f64_eqb a b = true → f64_eqb b a = true.
Proof. rewrite !f64_eqb_spec. intros [[? ?]|[-> ?]]; tauto. Qed.

Lemma f64_eqb_trans a b c : f64_eqb a b = true → f64_eqb b c = true → f64_eqb a c = true.
Proof. rewrite !f64_eqb_spec. intros [[? ?]|[-> ?]] [[? ?]|[<- ?]]; tauto. Qed.

(** ** Strings

    A Rust [String] is its UTF-8 bytes, a [string] of [ascii]; [len] is the
    byte length. *)
Definition byte_len (s : string) : Z := Z.of_nat (String.length s).

Definition byte_of (c : Ascii.ascii) : N := Ascii.N_of_ascii c.

(** The number of leading bytes that encode one character with the Unicode
    White_Space property, which is what [str::trim] strips; [0] when the
    string does not start with one. *)
Definition whitespace_prefix (s : string) : nat :=
  match s with
  | String a s1 =>
      let a := byte_of a in
      if decide (9 ≤ a ≤ 13 ∨ a = 32)%N then 1 else
      match s1 with
      | String b s2 =>
          let b := byte_of b in
          if decide (a = 194 ∧ (b = 133 ∨ b = 160))%N then 2 else
          match s2 with
          | String c _ =>
              let c := byte_of c in
              if decide ((a = 225 ∧ b = 154 ∧ c = 128) ∨
                         (a = 226 ∧ b = 128 ∧
                            (128 ≤ c ≤ 138 ∨ c = 168 ∨ c = 169 ∨ c = 175)) ∨
                         (a = 226 ∧ b = 129 ∧ c = 159) ∨
                         (a = 227 ∧ b = 128 ∧ c = 128))%N
              then 3 else 0
          | EmptyString => 0
          end
      | EmptyString => 0
      end
  | EmptyString => 0
  end.

(** [s.trim().is_empty()]: the string is made of white space only.  The fuel
    is the byte length, and each round strips at least one byte. *)
Fixpoint all_whitespace (fuel : nat) (s : string) : bool :=
  match s, fuel with
  | EmptyString, _ => true
  | _, O => false
  | _, S fuel =>
      match whitespace_prefix s with
      | O => false
      | n => all_whitespace fuel (String.substring n (String.length s - n) s)
      end
  end.

Definition trim_is_empty (s : string) : bool := all_whitespace (String.length s) s.

Example trim_is_empty_space : trim_is_empty (" " +:+ "  ") = true.
Proof. reflexivity. Qed.
Example trim_is_empty_word : trim_is_empty "  a " = false.
Proof. reflexivity. Qed.

(** [s.starts_with(p)]. *)
Definition starts_with (s p : string) : bool := String.prefix p s.

(** [u64::to_string]: decimal digits, most significant first. *)
Definition digit (n : Z) : Ascii.ascii := Ascii.ascii_of_N (Z.to_N (48 + n)).

Fixpoint decimal_aux (fuel : nat) (n : Z) (acc : string) : string :=
  match fuel with
  | O => acc
  | S fuel =>
      let acc := String (digit (n mod 10)) acc in
      if decide (n < 10)%Z then acc else decimal_aux fuel (n / 10) acc
  end.

(** Twenty digits hold every [u64]. *)
Definition decimal (n : Z) : string := decimal_aux 20 n "".

Example decimal_zero : decimal 0 = "0".
Proof. reflexivity. Qed.
Example decimal_u64_max : decimal u64_max = "18446744073709551615".
Proof. reflexivity. Qed.
