(* ===== verification/Json.v ===== *)
(** * JSON values

    The data of [serde_json::Value] that the runtime stores in its ledger and
    compares.  The workspace builds serde_json with the [preserve_order]
    feature (workspace-hack/Cargo.toml), so an object keeps its entries in
    insertion order while [==] ignores that order; both facts are visible
    here.  The file also holds the conversions between Rust structs and values
    that serde derives ([to_value] and [from_value] with the field attributes
    the structs use), as a class with its round-trip law. *)
From S2P Require Import Prelude.

(** A JSON number ([serde_json::Number]) with its [==]. *)
Inductive Number : Type :=
  | PosInt (n : Z)
  | NegInt (n : Z)
  | Float (f : f64).

Definition number_eqb (a b : Number) : bool :=
  match a, b with
  | PosInt x, PosInt y | NegInt x, NegInt y => bool_decide (x = y)
  | Float x, Float y => f64_eqb x y
  | _, _ => false
  end.

(** A number never holds an infinity or a NaN ([Number::from_f64]). *)
Definition number_wf (n : Number) : Prop :=
  match n with Float f => f64_is_finite f = true | _ => True end.

Inductive Value : Type :=
  | VNull
  | VBool (b : bool)
  | VNumber (n : Number)
  | VString (s : string)
  | VArray (l : list Value)
  | VObject (l : list (string * Value)).

#[export] Instance Number_eq_dec : EqDecision Number.
Proof. solve_decision. Defined.

Lemma number_eqb_refl n : number_wf n → number_eqb n n = true.
Proof.
  destruct n; simpl; [by rewrite bool_decide_eq_true..|]. intros Hf. apply f64_eqb_refl.
  by destruct f.
Qed.

Lemma number_eqb_sym a b : number_eqb a b = true → number_eqb b a = true.
Proof. destruct a, b; simpl; rewrite ?bool_decide_eq_true; auto using f64_eqb_sym. Qed.

Lemma number_eqb_trans a b c :
  number_eqb a b = true → number_eqb b c = true → number_eqb a c = true.
Proof.
  destruct a, b, c; simpl; rewrite ?bool_decide_eq_true; try congruence. apply f64_eqb_trans.
Qed.

Section value_ind.
Variable P : Value → Prop.
Hypothesis HNull : P VNull.
Hypothesis HBool : ∀ b, P (VBool b).
Hypothesis HNumber : ∀ n, P (VNumber n).
Hypothesis HString : ∀ s, P (VString s).
Hypothesis HArray : ∀ l, Forall P l → P (VArray l).
Hypothesis HObject : ∀ l, Forall (λ kv, P kv.2) l → P (VObject l).

(** Induction through the arrays and the objects. *)
Fixpoint value_ind' (v : Value) : P v :=
  match v with
  | VNull => HNull
  | VBool b => HBool b
  | VNumber n => HNumber n
  | VString s => HString s
  | VArray l =>
      HArray l ((fix go (l : list Value) : Forall P l :=
        match l with
        | [] => Forall_nil_2 P
        | x :: l => Forall_cons_2 P x l (value_ind' x) (go l)
        end) l)
  | VObject l =>
      HObject l ((fix go (l : list (string * Value)) : Forall (λ kv, P kv.2) l :=
        match l with
        | [] => Forall_nil_2 _
        | kv :: l => Forall_cons_2 _ kv l (value_ind' kv.2) (go l)
        end) l)
  end.
End value_ind.

(** [Map::get]. *)
Fixpoint assoc {A} (k : string) (l : list (string * A)) : option A :=
  match l with
  | [] => None
  | (k', v) :: l => if decide (k = k') then Some v else assoc k l
  end.

(** [Map::insert]: an existing entry keeps its place. *)
Fixpoint obj_insert {A} (k : string) (v : A) (l : list (string * A)) : list (string * A) :=
  match l with
  | [] => [(k, v)]
  | (k', v') :: l => if decide (k = k') then (k', v) :: l else (k', v') :: obj_insert k v l
  end.

(** [Value::get] on a string key, [as_str], [as_array], [as_i64], ... *)
Definition get (k : string) (v : Value) : option Value :=
  match v with VObject l => assoc k l | _ => None end.
Definition as_str (v : Value) : option string :=
  match v with VString s => Some s | _ => None end.
Definition as_array (v : Value) : option (list Value) :=
  match v with VArray l => Some l | _ => None end.
Definition as_object (v : Value) : option (list (string * Value)) :=
  match v with VObject l => Some l | _ => None end.
Definition as_i64 (v : Value) : option Z :=
  match v with
  | VNumber (PosInt n) => if decide (n ≤ i64_max)%Z then Some n else None
  | VNumber (NegInt n) => Some n
  | _ => None
  end.
Definition is_boolean (v : Value) : bool :=
  match v with VBool _ => true | _ => false end.
Definition get_str (k : string) (v : Value) : option string :=
  match get k v with Some w => as_str w | None => None end.

(** [==] on values: arrays compare in order, objects as maps. *)
Fixpoint value_eqb (a b : Value) {struct a} : bool :=
  match a, b with
  | VNull, VNull => true
  | VBool x, VBool y => Bool.eqb x y
  | VNumber x, VNumber y => number_eqb x y
  | VString x, VString y => bool_decide (x = y)
  | VArray xs, VArray ys =>
      (fix go (xs ys : list Value) {struct xs} : bool :=
        match xs, ys with
        | [], [] => true
        | x :: xs, y :: ys => value_eqb x y && go xs ys
        | _, _ => false
        end) xs ys
  | VObject xs, VObject ys =>
      bool_decide (length xs = length ys) &&
      (fix go (xs : list (string * Value)) : bool :=
        match xs with
        | [] => true
        | (k, x) :: xs =>
            match assoc k ys with
            | Some y => value_eqb x y && go xs
            | None => false
            end
        end) xs
  | _, _ => false
  end.

(** A value the code can build: the keys of every object are distinct, and
    its floats are finite. *)
Fixpoint value_wf (v : Value) : Prop :=
  match v with
  | VNumber n => number_wf n
  | VArray l => (fix go l := match l with [] => True | x :: l => value_wf x ∧ go l end) l
  | VObject l =>
      NoDup l.*1 ∧
      (fix go (l : list (string * Value)) :=
        match l with [] => True | kv :: l => value_wf kv.2 ∧ go l end) l
  | _ => True
  end.

Lemma value_wf_array l : value_wf (VArray l) ↔ Forall value_wf l.
Proof. simpl. induction l as [|x l IH]; [by rewrite Forall_nil|]. by rewrite Forall_cons, IH. Qed.

Lemma value_wf_object l :
  value_wf (VObject l) ↔ NoDup l.*1 ∧ Forall (λ kv, value_wf kv.2) l.
Proof.
  simpl. apply and_iff_compat_l.
  induction l as [|x l IH]; [by rewrite Forall_nil|]. by rewrite Forall_cons, IH.
Qed.

Lemma value_eqb_array xs ys :
  value_eqb (VArray xs) (VArray ys) = true ↔ Forall2 (λ x y, value_eqb x y = true) xs ys.
Proof.
  simpl. revert ys. induction xs as [|x xs IH]; intros [|y ys].
  - split; [constructor|done].
  - split; [done|inversion 1].
  - split; [done|inversion 1].
  - rewrite andb_true_iff, IH, Forall2_cons. done.
Qed.

Lemma value_eqb_object xs ys :
  value_eqb (VObject xs) (VObject ys) = true ↔
  length xs = length ys ∧
  Forall (λ kv, ∃ y, assoc kv.1 ys = Some y ∧ value_eqb kv.2 y = true) xs.
Proof.
  simpl. rewrite andb_true_iff, bool_decide_eq_true. apply and_iff_compat_l.
  induction xs as [|[k x] xs IH]; [by rewrite Forall_nil|].
  rewrite Forall_cons, <-IH. simpl. destruct (assoc k ys) as [y|].
  - rewrite andb_true_iff. naive_solver.
  - naive_solver.
Qed.

Lemma assoc_elem_of {A} k (l : list (string * A)) v :
  assoc k l = Some v → (k, v) ∈ l.
Proof.
  induction l as [|[k' v'] l IH]; simpl; [done|]. case_decide; [intros; simplify_eq|]; set_solver.
Qed.

Lemma elem_of_assoc {A} k (l : list (string * A)) v :
  NoDup l.*1 → (k, v) ∈ l → assoc k l = Some v.
Proof.
  induction l as [|[k' v'] l IH]; simpl; [set_solver|].
  rewrite NoDup_cons. intros [Hk' Hl] [?|Hin]%elem_of_cons; simplify_eq.
  - by rewrite decide_True.
  - rewrite decide_False; [by apply IH|]. intros ->. apply Hk'.
    apply list_elem_of_fmap. by exists (k', v).
Qed.

Lemma assoc_is_Some {A} k (l : list (string * A)) : is_Some (assoc k l) ↔ k ∈ l.*1.
Proof.
  induction l as [|[k' v'] l IH]; simpl.
  - split; [by intros [? [=]]|set_solver].
  - case_decide as Hk; [subst|].
    + split; [set_solver|by eexists].
    + rewrite IH. set_solver.
Qed.

Lemma value_eqb_refl v : value_wf v → value_eqb v v = true.
Proof.
  induction v as [| | | |l IH|l IH] using value_ind'.
  - done.
  - by destruct b.
  - apply number_eqb_refl.
  - intros _. simpl. by apply bool_decide_eq_true.
  - rewrite value_wf_array, value_eqb_array. intros Hwf.
    induction l as [|x l IHl]; [constructor|]. rewrite Forall_cons in Hwf, IH.
    constructor; naive_solver.
  - rewrite value_wf_object, value_eqb_object. intros [Hnd Hwf]. split; [done|].
    rewrite Forall_forall in Hwf, IH |- *. intros [k x] Hin. exists x.
    split; [by apply elem_of_assoc|]. by apply IH, Hwf.
Qed.

(** Two objects of one length whose keys are distinct have the same keys as
    soon as one's are among the other's. *)
Lemma keys_incl_sym (ks ks' : list string) :
  NoDup ks → length ks = length ks' → ks ⊆ ks' → ks' ⊆ ks.
Proof.
  intros Hnd Hlen Hincl. assert (ks ≡ₚ ks') as Hp.
  { apply submseteq_length_Permutation; [|lia].
    apply NoDup_submseteq; [done|]. intros x Hx. by apply Hincl. }
  intros x Hx. by rewrite Hp.
Qed.

Lemma value_eqb_sym a b :
  value_wf a → value_wf b → value_eqb a b = true → value_eqb b a = true.
Proof.
  revert b. induction a as [| | | |xs IH|xs IH] using value_ind'; intros c; destruct c; try done.
  - simpl. by intros _ _ ->%eqb_prop; apply eqb_reflx.
  - intros _ _. apply number_eqb_sym.
  - simpl. rewrite !bool_decide_eq_true. naive_solver.
  - rewrite !value_wf_array, !value_eqb_array. intros Hx Hy Heq.
    apply Forall2_flip. induction Heq as [|x y xs ys Hxy Hrest IHl]; [constructor|].
    rewrite Forall_cons in Hx, Hy, IH. constructor; naive_solver.
  - rewrite !value_wf_object, !value_eqb_object.
    intros [Hndx Hx] [Hndy Hy] [Hlen Heq]. split; [done|].
    rewrite Forall_forall in Hx, Hy, Heq, IH |- *. intros [k y] Hin. simpl.
    assert (k ∈ xs.*1) as Hk.
    { apply (keys_incl_sym xs.*1 l.*1); [done|by rewrite !length_fmap| |].
      - intros k' ([k'' x] & -> & Hin')%list_elem_of_fmap. apply Heq in Hin' as (y' & Hy' & _).
        apply assoc_is_Some. by exists y'.
      - apply list_elem_of_fmap. by exists (k, y). }
    apply list_elem_of_fmap in Hk as ([k' x] & Hk & Hin'). simpl in Hk. subst k'.
    exists x. split; [by apply elem_of_assoc|].
    destruct (Heq _ Hin') as (y' & Hy' & Hxy). simpl in *.
    assert (y' = y) as -> by (pose proof (elem_of_assoc k l y Hndy Hin); congruence).
    apply (IH (k, x) Hin'); [by apply (Hx (k, x))|by apply (Hy (k, y))|done].
Qed.

Lemma value_eqb_trans a b c :
  value_eqb a b = true → value_eqb b c = true → value_eqb a c = true.
Proof.
  revert b c. induction a as [| | | |xs IH|xs IH] using value_ind'; intros v w; destruct v, w; try done.
  - simpl. by intros ->%eqb_prop ->%eqb_prop; apply eqb_reflx.
  - apply number_eqb_trans.
  - simpl. rewrite !bool_decide_eq_true. naive_solver.
  - rewrite !value_eqb_array. intros Hxy. revert l0. induction Hxy as [|x y xs ys Hxy Hrest IHl].
    + intros zs Hz. inversion Hz. constructor.
    + intros zs Hz. inversion Hz; subst. rewrite Forall_cons in IH.
      constructor; [naive_solver|]. apply IHl; naive_solver.
  - rewrite !value_eqb_object. intros [Hlen Hxy] [Hlen' Hyz]. split; [congruence|].
    rewrite Forall_forall in Hxy, Hyz, IH |- *. intros [k x] Hin. simpl.
    destruct (Hxy _ Hin) as (y & Hy & Hxy'). simpl in *.
    destruct (Hyz _ (assoc_elem_of _ _ _ Hy)) as (z & Hz & Hyz'). simpl in *.
    exists z. split; [done|]. by apply (IH (k, x) Hin y z).
Qed.

(** Entry order does not matter to [==]. *)
Lemma value_eqb_perm l l' :
  value_wf (VObject l) → l ≡ₚ l' → value_eqb (VObject l) (VObject l') = true.
Proof.
  intros Hwf Hp. rewrite value_wf_object in Hwf. destruct Hwf as [Hnd Hwf].
  apply value_eqb_object. split; [by rewrite Hp|].
  rewrite Forall_forall in Hwf |- *. intros [k v] Hin. exists v. split.
  - apply elem_of_assoc; [by rewrite <-Hp|by rewrite <-Hp].
  - by apply value_eqb_refl, (Hwf (k, v)).
Qed.

(** ** Conversions that serde derives *)

(** [serde_json::to_value] and [serde_json::from_value] at a type.  A failed
    conversion is [None]; the callers only wrap its message.  [serde_ok] is
    what a Rust value of the type satisfies by construction (the range of its
    integers, distinct keys in its JSON members). *)
Class Serde (A : Type) := {
  to_value : A → Value;
  from_value : Value → option A;
  serde_ok : A → Prop;
  from_to_value : ∀ a, serde_ok a → from_value (to_value a) = Some a;
  to_value_wf : ∀ a, serde_ok a → value_wf (to_value a);
}.

#[export] Program Instance serde_value : Serde Value := {|
  to_value := id;
  from_value := Some;
  serde_ok := value_wf;
|}.
Solve Obligations with done.

#[export] Program Instance serde_string : Serde string := {|
  to_value := VString;
  from_value := as_str;
  serde_ok := λ _, True;
|}.
Solve Obligations with done.

Definition as_bool (v : Value) : option bool :=
  match v with VBool b => Some b | _ => None end.

#[export] Program Instance serde_bool : Serde bool := {|
  to_value := VBool;
  from_value := as_bool;
  serde_ok := λ _, True;
|}.
Solve Obligations with done.

(** Integers of type [u8], [u32] and [u64], by their maximum, and [i64]. *)
Definition uint_to_value (n : Z) : Value := VNumber (PosInt n).
Definition uint_from_value (max : Z) (v : Value) : option Z :=
  match v with
  | VNumber (PosInt n) => if decide (0 ≤ n ≤ max)%Z then Some n else None
  | _ => None
  end.
Definition i64_to_value (n : Z) : Value :=
  if decide (0 ≤ n)%Z then VNumber (PosInt n) else VNumber (NegInt n).

Lemma uint_roundtrip max n : (0 ≤ n ≤ max)%Z → uint_from_value max (uint_to_value n) = Some n.
Proof. intros. simpl. by rewrite decide_True. Qed.

Lemma i64_roundtrip n : is_i64 n → as_i64 (i64_to_value n) = Some n.
Proof.
  unfold is_i64, i64_to_value. intros. case_decide; simpl; [|done]. rewrite decide_True; [done|lia].
Qed.

Definition list_from_value {A} (dec : Value → option A) (v : Value) : option (list A) :=
  match v with VArray l => mapM dec l | _ => None end.

Definition pair_from_value {A B} (decA : Value → option A) (decB : Value → option B)
    (v : Value) : option (A * B) :=
  match v with
  | VArray [a; b] =>
      match decA a, decB b with Some a, Some b => Some (a, b) | _, _ => None end
  | _ => None
  end.

#[export] Program Instance serde_list `{Serde A} : Serde (list A) := {|
  to_value l := VArray (to_value <$> l);
  from_value := list_from_value from_value;
  serde_ok := Forall serde_ok;
|}.
Next Obligation.
  intros A ? l Hl. apply mapM_Some, Forall2_fmap_l. induction Hl; constructor; [|done].
  by apply from_to_value.
Qed.
Next Obligation.
  intros A ? l Hl. apply value_wf_array, Forall_fmap.
  eapply Forall_impl; [done|]. apply to_value_wf.
Qed.

#[export] Program Instance serde_pair `{Serde A, Serde B} : Serde (A * B) := {|
  to_value p := VArray [to_value p.1; to_value p.2];
  from_value := pair_from_value from_value from_value;
  serde_ok p := serde_ok p.1 ∧ serde_ok p.2;
|}.
Next Obligation. intros A ? B ? [a b] [Ha Hb]. simpl in *. by rewrite !from_to_value. Qed.
Next Obligation. intros A ? B ? [a b] [Ha Hb]. simpl in *. eauto using to_value_wf. Qed.

(** The entries of a struct: each field is written ([Some]) or left out
    ([None]) as its [skip_serializing_if] decides. *)
Definition fields_of (l : list (string * option Value)) : list (string * Value) :=
  omap (λ kv, (λ v, (kv.1, v)) <$> kv.2) l.
Definition field_if (b : bool) (v : Value) : option Value := if b then Some v else None.
Definition field_opt `{Serde A} (o : option A) : option Value := to_value <$> o.

(** A required field; a field with [#[serde(default)]]; an [Option] field,
    for which a missing entry and [null] both read as [None]. *)
Definition read {A} (dec : Value → option A) (k : string) (l : list (string * Value)) : option A :=
  match assoc k l with Some v => dec v | None => None end.
Definition read_default {A} (dec : Value → option A) (d : A) (k : string)
    (l : list (string * Value)) : option A :=
  match assoc k l with Some v => dec v | None => Some d end.
Definition read_opt {A} (dec : Value → option A) (k : string)
    (l : list (string * Value)) : option (option A) :=
  match assoc k l with
  | None | Some VNull => Some None
  | Some v => Some <$> dec v
  end.

Lemma fields_of_keys l k : k ∈ (fields_of l).*1 → k ∈ l.*1.
Proof.
  induction l as [|[k' [v|]] l IH]; csimpl; [done| |].
  - rewrite !elem_of_cons. naive_solver.
  - intros. apply elem_of_cons. naive_solver.
Qed.

Lemma fields_of_NoDup l : NoDup l.*1 → NoDup (fields_of l).*1.
Proof.
  induction l as [|[k' [v|]] l IH]; csimpl; [done| |]; rewrite ?NoDup_cons.
  - intros [Hk Hl]. split; [|by apply IH]. intros ?%fields_of_keys. done.
  - intros [Hk Hl]. by apply IH.
Qed.

Lemma assoc_fields_of k l :
  NoDup l.*1 → assoc k (fields_of l) = default None (assoc k l).
Proof.
  induction l as [|[k' v] l IH]; csimpl; [done|]. rewrite NoDup_cons. intros [Hk' Hl].
  destruct v as [v|]; csimpl; case_decide; simplify_eq; [done|by apply IH| |by apply IH].
  destruct (assoc k' (fields_of l)) as [w|] eqn:E; [|done].
  destruct Hk'. apply fields_of_keys, assoc_is_Some. by exists w.
Qed.

Lemma fields_of_wf l :
  NoDup l.*1 → Forall (λ kv, ∀ v, kv.2 = Some v → value_wf v) l → value_wf (VObject (fields_of l)).
Proof.
  intros Hnd Hl. apply value_wf_object. split; [by apply fields_of_NoDup|].
  clear Hnd. induction Hl as [|[k [v|]] l Hv Hl IH]; csimpl; [constructor| |done].
  constructor; [by apply Hv|done].
Qed.

(** Reading back the fields some struct wrote: the keys are distinct, the
    entry that a key selects is found by computation, and each member has its
    own round trip. *)
Section read_fields.
Context (l : list (string * option Value)) (Hnd : NoDup l.*1).

Lemma read_fields {A} (dec : Value → option A) k v a :
  assoc k l = Some (Some v) → dec v = Some a → read dec k (fields_of l) = Some a.
Proof. intros Hk Hv. unfold read. by rewrite assoc_fields_of, Hk. Qed.

Lemma read_default_fields {A} (dec : Value → option A) d k b v a :
  assoc k l = Some (field_if b v) →
  (b = true → dec v = Some a) → (b = false → d = a) →
  read_default dec d k (fields_of l) = Some a.
Proof.
  intros Hk Ht Hf. unfold read_default. rewrite assoc_fields_of, Hk by done.
  destruct b; simpl; [by apply Ht|by rewrite Hf].
Qed.

Lemma read_default_fields_always {A} (dec : Value → option A) d k v a :
  assoc k l = Some (Some v) → dec v = Some a → read_default dec d k (fields_of l) = Some a.
Proof. intros Hk Hv. unfold read_default. by rewrite assoc_fields_of, Hk. Qed.

Lemma read_opt_fields `{Serde A} k (o : option A) :
  assoc k l = Some (field_opt o) →
  match o with Some a => serde_ok a ∧ to_value a ≠ VNull | None => True end →
  read_opt from_value k (fields_of l) = Some o.
Proof.
  intros Hk Ho. unfold read_opt. rewrite assoc_fields_of, Hk by done.
  destruct o as [a|]; [|done]. destruct Ho as [Hok Hn]. simpl.
  pose proof (from_to_value a Hok) as Hrt. destruct (to_value a); [done|by rewrite Hrt..].
Qed.
End read_fields.

Lemma bind_Some_intro {A B} (o : option A) (f : A → option B) a r :
  o = Some a → f a = r → (o ≫= f) = r.
Proof. by intros -> <-. Qed.

Ltac serde_keys := clear; apply NoDup_ListNoDup; repeat constructor; simpl; intuition discriminate.

(** One field at a time; the side conditions that do not hold by computation
    are left to the caller. *)
Ltac serde_member :=
  lazymatch goal with
  | |- read _ _ _ = Some _ => eapply read_fields; [assumption|reflexivity|]
  | |- read_default _ _ _ _ = Some _ =>
      first [eapply read_default_fields; [assumption|reflexivity| |]
            |eapply read_default_fields_always; [assumption|reflexivity|]]
  | |- read_opt _ _ _ = Some _ => eapply read_opt_fields; [assumption|reflexivity|]
  end.
Ltac serde_solve :=
  lazymatch goal with
  | |- from_value _ = Some _ =>
      try (eapply from_to_value; first [exact I|done|by apply Forall_true])
  | |- match ?o with _ => _ end =>
      try (destruct o; [split; [exact I|simpl; discriminate]|exact I])
  | |- _ => idtac
  end.
Ltac serde_step := eapply bind_Some_intro; [serde_member; serde_solve|cbv beta].

(** Well-formedness of the object: each written member is well formed. *)
Lemma field_opt_wf `{Serde A} (o : option A) v :
  (∀ a, o = Some a → serde_ok a) → field_opt o = Some v → value_wf v.
Proof. destruct o; simpl; [|done]. intros Hok [= <-]. by apply to_value_wf, Hok. Qed.

Lemma field_if_wf b w v : value_wf w → field_if b w = Some v → value_wf v.
Proof. destruct b; simpl; naive_solver. Qed.

Ltac serde_wf_member :=
  let v := fresh "v" in let H := fresh "H" in
  intros v H; cbn [snd] in H;
  lazymatch type of H with
  | field_opt _ = _ => refine (field_opt_wf _ _ _ H); try (intros ? _; exact I)
  | field_if _ _ = _ =>
      eapply field_if_wf; [|exact H]; try solve [done|apply to_value_wf; by apply Forall_true]
  | _ => apply (inj Some) in H; rewrite <-H; clear H;
      try solve [exact I|by apply to_value_wf|apply to_value_wf; by apply Forall_true]
  end.
Ltac serde_wf :=
  apply fields_of_wf; [serde_keys|];
  repeat (apply Forall_cons_2; [serde_wf_member|]); try apply Forall_nil_2.

Create HintDb mesh.
#[export] Hint Resolve from_to_value to_value_wf value_eqb_refl : mesh.
