(* ===== verification/Types.v ===== *)
(** * Shared records of the runtime

    The identifiers, state enumerations and records of
    crates/solaris-types/src/{identity,runtime,workflow,effect}.rs that the
    registries and the ledger exchange, and the team record of
    crates/solaris-agent/src/team_registry.rs, each with the JSON form its
    serde attributes give it and the proof that the form reads back. *)
From S2P Require Import Prelude Json.

(** The newtypes of [string_id!] are transparent wrappers of a string. *)
Abbreviation RunId := string (only parsing).
Abbreviation TeamId := string (only parsing).
Abbreviation AgentId := string (only parsing).
Abbreviation TaskId := string (only parsing).
Abbreviation OperationId := string (only parsing).
Abbreviation AttemptId := string (only parsing).

Inductive AgentLifecycleState : Type :=
  | AgReserved | AgInitializing | AgActive | AgIdle | AgCompleted | AgFailed | AgCancelled.

Inductive TaskState : Type :=
  | Created | Queued | Assigned | Running | Completed | Failed | Skipped | Cancelled.

Inductive TaskFailureClass : Type :=
  | Retryable | NonRetryable | PermissionDenied | MaxTurns | NonConvergent
  | FCancelled | OutcomeUnknown | ReconciliationRequired | SideEffectUnknown.

Inductive DurabilityClass : Type :=
  | SyncCritical | AsyncDurable | Ephemeral.

Inductive CollaborationStrategy : Type :=
  | Single | Supervisor | Team | Fanout | IndependentReviewer.

#[export] Instance AgentLifecycleState_eq_dec : EqDecision AgentLifecycleState.
Proof. solve_decision. Defined.
#[export] Instance TaskState_eq_dec : EqDecision TaskState.
Proof. solve_decision. Defined.
#[export] Instance TaskFailureClass_eq_dec : EqDecision TaskFailureClass.
Proof. solve_decision. Defined.
#[export] Instance DurabilityClass_eq_dec : EqDecision DurabilityClass.
Proof. solve_decision. Defined.
#[export] Instance CollaborationStrategy_eq_dec : EqDecision CollaborationStrategy.
Proof. solve_decision. Defined.

Definition is_retryable (c : TaskFailureClass) : bool :=
  match c with Retryable => true | _ => false end.

(** The snake_case names of the variants in JSON. *)
Definition task_state_str (s : TaskState) : string :=
  match s with
  | Created => "created" | Queued => "queued" | Assigned => "assigned"
  | Running => "running" | Completed => "completed" | Failed => "failed"
  | Skipped => "skipped" | Cancelled => "cancelled"
  end.

Definition failure_class_str (c : TaskFailureClass) : string :=
  match c with
  | Retryable => "retryable" | NonRetryable => "non_retryable"
  | PermissionDenied => "permission_denied" | MaxTurns => "max_turns"
  | NonConvergent => "non_convergent" | FCancelled => "cancelled"
  | OutcomeUnknown => "outcome_unknown"
  | ReconciliationRequired => "reconciliation_required"
  | SideEffectUnknown => "side_effect_unknown"
  end.

Definition strategy_as_str (s : CollaborationStrategy) : string :=
  match s with
  | Single => "single" | Supervisor => "supervisor" | Team => "team"
  | Fanout => "fanout" | IndependentReviewer => "independent_reviewer"
  end.

(** Reading a variant back: the one of [all] whose name is the string. *)
Definition enum_from_value {A} (str : A → string) (all : list A) (v : Value) : option A :=
  match v with
  | VString s => find (λ a, bool_decide (str a = s)) all
  | _ => None
  end.

Definition all_task_states : list TaskState :=
  [Created; Queued; Assigned; Running; Completed; Failed; Skipped; Cancelled].
Definition all_failure_classes : list TaskFailureClass :=
  [Retryable; NonRetryable; PermissionDenied; MaxTurns; NonConvergent; FCancelled;
   OutcomeUnknown; ReconciliationRequired; SideEffectUnknown].
Definition all_strategies : list CollaborationStrategy :=
  [Single; Supervisor; Team; Fanout; IndependentReviewer].

#[export] Program Instance serde_task_state : Serde TaskState := {|
  to_value s := VString (task_state_str s);
  from_value := enum_from_value task_state_str all_task_states;
  serde_ok _ := True;
|}.
Next Obligation. by intros []. Qed.
Next Obligation. done. Qed.

#[export] Program Instance serde_failure_class : Serde TaskFailureClass := {|
  to_value s := VString (failure_class_str s);
  from_value := enum_from_value failure_class_str all_failure_classes;
  serde_ok _ := True;
|}.
Next Obligation. by intros []. Qed.
Next Obligation. done. Qed.

#[export] Program Instance serde_strategy : Serde CollaborationStrategy := {|
  to_value s := VString (strategy_as_str s);
  from_value := enum_from_value strategy_as_str all_strategies;
  serde_ok _ := True;
|}.
Next Obligation. by intros []. Qed.
Next Obligation. done. Qed.

Record AgentRecord : Type := {
  ar_run_id : RunId;
  ar_agent_id : AgentId;
  ar_team_id : option TeamId;
  ar_parent_agent_id : option AgentId;
  ar_state : AgentLifecycleState;
}.

#[export] Instance AgentRecord_eq_dec : EqDecision AgentRecord.
Proof. solve_decision. Defined.

Record TaskRecord : Type := {
  tr_run_id : RunId;
  tr_task_id : TaskId;
  tr_revision : Z;
  tr_task_key : option string;
  tr_team_id : option TeamId;
  tr_workflow_id : option string;
  tr_node_id : option string;
  tr_role : option string;
  tr_depends_on : list TaskId;
  tr_content : option Value;
  tr_expected_write_scope : list string;
  tr_owner_agent_id : option AgentId;
  tr_state : TaskState;
  tr_outcome_ref : option string;
  tr_failure_class : option TaskFailureClass;
}.

(** [==] on tasks: member by member, JSON content up to entry order. *)
Definition option_eqb {A} (eqb : A → A → bool) (a b : option A) : bool :=
  match a, b with
  | None, None => true
  | Some a, Some b => eqb a b
  | _, _ => false
  end.

Definition task_record_eqb (a b : TaskRecord) : bool :=
  bool_decide (tr_run_id a = tr_run_id b) &&
  bool_decide (tr_task_id a = tr_task_id b) &&
  bool_decide (tr_revision a = tr_revision b) &&
  bool_decide (tr_task_key a = tr_task_key b) &&
  bool_decide (tr_team_id a = tr_team_id b) &&
  bool_decide (tr_workflow_id a = tr_workflow_id b) &&
  bool_decide (tr_node_id a = tr_node_id b) &&
  bool_decide (tr_role a = tr_role b) &&
  bool_decide (tr_depends_on a = tr_depends_on b) &&
  option_eqb value_eqb (tr_content a) (tr_content b) &&
  bool_decide (tr_expected_write_scope a = tr_expected_write_scope b) &&
  bool_decide (tr_owner_agent_id a = tr_owner_agent_id b) &&
  bool_decide (tr_state a = tr_state b) &&
  bool_decide (tr_outcome_ref a = tr_outcome_ref b) &&
  bool_decide (tr_failure_class a = tr_failure_class b).

(** What holds of every task record the program builds. *)
Definition task_record_ok (t : TaskRecord) : Prop :=
  is_u64 (tr_revision t) ∧
  match tr_content t with Some v => value_wf v ∧ v ≠ VNull | None => True end.

Lemma task_record_eqb_refl t : task_record_ok t → task_record_eqb t t = true.
Proof.
  intros [_ Hc]. unfold task_record_eqb.
  rewrite !bool_decide_eq_true_2 by done. destruct (tr_content t); simpl; [|done].
  rewrite value_eqb_refl; naive_solver.
Qed.

Definition task_record_fields (t : TaskRecord) : list (string * option Value) :=
  [("run_id", Some (to_value (tr_run_id t)));
   ("task_id", Some (to_value (tr_task_id t)));
   ("revision", field_if (bool_decide (tr_revision t ≠ 0%Z)) (uint_to_value (tr_revision t)));
   ("task_key", field_opt (tr_task_key t));
   ("team_id", field_opt (tr_team_id t));
   ("workflow_id", field_opt (tr_workflow_id t));
   ("node_id", field_opt (tr_node_id t));
   ("role", field_opt (tr_role t));
   ("depends_on", Some (to_value (tr_depends_on t)));
   ("content", field_opt (tr_content t));
   ("expected_write_scope",
      field_if (bool_decide (tr_expected_write_scope t ≠ []))
        (to_value (tr_expected_write_scope t)));
   ("owner_agent_id", field_opt (tr_owner_agent_id t));
   ("state", Some (to_value (tr_state t)));
   ("outcome_ref", field_opt (tr_outcome_ref t));
   ("failure_class", field_opt (tr_failure_class t))].

Definition task_record_from (v : Value) : option TaskRecord :=
  l ← as_object v;
  run_id ← read from_value "run_id" l;
  task_id ← read from_value "task_id" l;
  revision ← read_default (uint_from_value u64_max) 0%Z "revision" l;
  task_key ← read_opt from_value "task_key" l;
  team_id ← read_opt from_value "team_id" l;
  workflow_id ← read_opt from_value "workflow_id" l;
  node_id ← read_opt from_value "node_id" l;
  role ← read_opt from_value "role" l;
  depends_on ← read_default from_value [] "depends_on" l;
  content ← read_opt from_value "content" l;
  expected_write_scope ← read_default from_value [] "expected_write_scope" l;
  owner_agent_id ← read_opt from_value "owner_agent_id" l;
  state ← read from_value "state" l;
  outcome_ref ← read_opt from_value "outcome_ref" l;
  failure_class ← read_opt from_value "failure_class" l;
  Some {|
    tr_run_id := run_id; tr_task_id := task_id; tr_revision := revision;
    tr_task_key := task_key; tr_team_id := team_id; tr_workflow_id := workflow_id;
    tr_node_id := node_id; tr_role := role; tr_depends_on := depends_on;
    tr_content := content; tr_expected_write_scope := expected_write_scope;
    tr_owner_agent_id := owner_agent_id; tr_state := state;
    tr_outcome_ref := outcome_ref; tr_failure_class := failure_class |}.

#[export] Program Instance serde_task_record : Serde TaskRecord := {|
  to_value t := VObject (fields_of (task_record_fields t));
  from_value := task_record_from;
  serde_ok := task_record_ok;
|}.
Next Obligation.
  intros t [Hr Hc].
  assert (NoDup (task_record_fields t).*1) as Hnd by serde_keys.
  eapply bind_Some_intro; [reflexivity|].
  repeat serde_step.
  - intros _. by apply uint_roundtrip.
  - intros Hz%bool_decide_eq_false. symmetry. by destruct (decide (tr_revision t = 0%Z)).
  - destruct (tr_content t); naive_solver.
  - intros _. apply from_to_value. by apply Forall_true.
  - intros Hz%bool_decide_eq_false. symmetry. by destruct (decide (tr_expected_write_scope t = [])).
  - by destruct t.
Qed.
Next Obligation.
  intros t [Hr Hc].
  serde_wf. intros w Hw. rewrite Hw in Hc. by destruct Hc.
Qed.

(** ** Teams (team_registry.rs) *)

Definition DEFAULT_MAX_PENDING_MESSAGES : Z := 64.
Definition DEFAULT_MAX_MESSAGE_BYTES : Z := 65536.

Record TeamRecord : Type := {
  tm_run_id : RunId;
  tm_team_id : TeamId;
  tm_name : string;
  tm_strategy : CollaborationStrategy;
  tm_coordinator : option AgentId;
  tm_direct_peer_messaging : bool;
  tm_max_pending_messages : Z;
  tm_max_message_bytes : Z;
  tm_members : gset AgentId;
}.

#[export] Instance TeamRecord_eq_dec : EqDecision TeamRecord.
Proof. solve_decision. Defined.

Definition team_record_ok (t : TeamRecord) : Prop :=
  (0 ≤ tm_max_pending_messages t ≤ u32_max ∧ 0 ≤ tm_max_message_bytes t ≤ u32_max)%Z.

(** A [HashSet] is written in the order its iterator has; [elements] stands
    for that order, and reading the array back does not depend on it. *)
Definition team_record_fields (t : TeamRecord) : list (string * option Value) :=
  [("run_id", Some (to_value (tm_run_id t)));
   ("team_id", Some (to_value (tm_team_id t)));
   ("name", Some (to_value (tm_name t)));
   ("strategy", Some (to_value (tm_strategy t)));
   ("coordinator", field_opt (tm_coordinator t));
   ("direct_peer_messaging", Some (to_value (tm_direct_peer_messaging t)));
   ("max_pending_messages", Some (uint_to_value (tm_max_pending_messages t)));
   ("max_message_bytes", Some (uint_to_value (tm_max_message_bytes t)));
   ("members", Some (to_value (elements (tm_members t))))].

Definition team_record_from (v : Value) : option TeamRecord :=
  l ← as_object v;
  run_id ← read from_value "run_id" l;
  team_id ← read from_value "team_id" l;
  name ← read from_value "name" l;
  strategy ← read from_value "strategy" l;
  coordinator ← read_opt from_value "coordinator" l;
  direct ← read_default from_value false "direct_peer_messaging" l;
  pending ← read_default (uint_from_value u32_max) DEFAULT_MAX_PENDING_MESSAGES
              "max_pending_messages" l;
  bytes ← read_default (uint_from_value u32_max) DEFAULT_MAX_MESSAGE_BYTES
            "max_message_bytes" l;
  members ← read_default from_value ([] : list AgentId) "members" l;
  Some {|
    tm_run_id := run_id; tm_team_id := team_id; tm_name := name;
    tm_strategy := strategy; tm_coordinator := coordinator;
    tm_direct_peer_messaging := direct; tm_max_pending_messages := pending;
    tm_max_message_bytes := bytes; tm_members := list_to_set members |}.

#[export] Program Instance serde_team_record : Serde TeamRecord := {|
  to_value t := VObject (fields_of (team_record_fields t));
  from_value := team_record_from;
  serde_ok := team_record_ok;
|}.
Next Obligation.
  intros t [Hp Hb].
  assert (NoDup (team_record_fields t).*1) as Hnd by serde_keys.
  eapply bind_Some_intro; [reflexivity|].
  repeat serde_step; [by apply uint_roundtrip..|].
  rewrite list_to_set_elements_L. by destruct t.
Qed.
Next Obligation. intros t [Hp Hb]. serde_wf. Qed.

Inductive TeamLimitError : Type :=
  | PendingMessagesOutOfRange (team_id : TeamId)
  | MessageBytesOutOfRange (team_id : TeamId).

Definition validate_message_limits (t : TeamRecord) : result unit TeamLimitError :=
  if decide (tm_max_pending_messages t = 0 ∨
             DEFAULT_MAX_PENDING_MESSAGES < tm_max_pending_messages t)%Z
  then Err (PendingMessagesOutOfRange (tm_team_id t))
  else if decide (tm_max_message_bytes t = 0 ∨
                  DEFAULT_MAX_MESSAGE_BYTES < tm_max_message_bytes t)%Z
  then Err (MessageBytesOutOfRange (tm_team_id t))
  else Ok tt.

Lemma validate_message_limits_ok t u :
  validate_message_limits t = Ok u →
  (tm_max_pending_messages t ≤ DEFAULT_MAX_PENDING_MESSAGES ∧
   tm_max_message_bytes t ≤ DEFAULT_MAX_MESSAGE_BYTES)%Z.
Proof. unfold validate_message_limits. repeat case_decide; [done..|lia]. Qed.
