(* ===== verification/TaskRegistry.v ===== *)
(** * The task registry

    crates/solaris-agent/src/task_registry.rs: the compare-and-swap registry
    through which every state change of a collaboration task goes.  A change
    names the revision it expects and the operation that asks for it; it is
    persisted before it becomes visible, and an operation that was already
    applied is answered from the record of its first application. *)
From S2P Require Import Prelude Json Types.

Inductive TaskCasMutation : Type :=
  | Assign (owner : AgentId)
  | MarkRunning (owner : AgentId)
  | Handoff (from to : AgentId)
  | Settle (owner : AgentId) (state : TaskState) (outcome_ref : option string)
      (failure_class : option TaskFailureClass)
  | Skip (reason : option string)
  | SupervisorRetry (reason : option string)
  | WorkflowState (state : TaskState) (clear_owner : bool) (outcome_ref : option string)
      (failure_class : option TaskFailureClass).

#[export] Instance TaskCasMutation_eq_dec : EqDecision TaskCasMutation.
Proof. solve_decision. Defined.

Definition mutation_name (m : TaskCasMutation) : string :=
  match m with
  | Assign _ => "assign"
  | MarkRunning _ => "mark_running"
  | Handoff _ _ => "handoff"
  | Settle _ _ _ _ => "settle"
  | Skip _ => "skip"
  | SupervisorRetry _ => "supervisor_retry"
  | WorkflowState _ _ _ _ => "workflow_state"
  end.

(** One constructor per error the registry reports, with the values its
    message shows. *)
Inductive TaskError : Type :=
  | AssignRequiresQueued
  | MarkRunningRequiresOwner
  | HandoffRequiresOwner
  | SettleStateNotTerminal
  | SettleRequiresOwner
  | SkipRequiresQueued
  | RetryRequiresFailedOwned
  | WorkflowStateRequiresWorkflow
  | IllegalWorkflowTransition (from to : TaskState)
  | OperationBound (op : OperationId)
  | UnknownTask (task_id : TaskId)
  | RevisionOverflow
  | StaleRevision (expected found : Z)
  | InvalidRevisionPair
  | ConflictingResults (op : OperationId)
  | ConflictingProjection (revision : Z)
  | PersistFailed (message : string).

(** Functional update of the members a mutation writes. *)
Definition task_with (t : TaskRecord) (owner : option AgentId) (state : TaskState)
    (outcome_ref : option string) (failure_class : option TaskFailureClass)
    (revision : Z) : TaskRecord := {|
  tr_run_id := tr_run_id t; tr_task_id := tr_task_id t; tr_revision := revision;
  tr_task_key := tr_task_key t; tr_team_id := tr_team_id t;
  tr_workflow_id := tr_workflow_id t; tr_node_id := tr_node_id t;
  tr_role := tr_role t; tr_depends_on := tr_depends_on t;
  tr_content := tr_content t; tr_expected_write_scope := tr_expected_write_scope t;
  tr_owner_agent_id := owner; tr_state := state;
  tr_outcome_ref := outcome_ref; tr_failure_class := failure_class |}.

Definition is_assigned_or_running (s : TaskState) : bool :=
  match s with Assigned | Running => true | _ => false end.

Definition is_settled (s : TaskState) : bool :=
  match s with Completed | Failed | Cancelled => true | _ => false end.

(** The pairs [(current, next)] a workflow projection may take. *)
Definition workflow_transition_allowed (cur next : TaskState) : bool :=
  match cur, next with
  | Queued, (Completed | Failed | Skipped | Cancelled) => true
  | (Assigned | Running), (Completed | Failed | Cancelled) => true
  | Failed, Queued => true
  | _, _ => false
  end.

(** [TaskCasMutation::apply]. *)
Definition apply (m : TaskCasMutation) (cur : TaskRecord) (new_revision : Z) :
    result TaskRecord TaskError :=
  let owner := tr_owner_agent_id cur in
  let outcome := tr_outcome_ref cur in
  let failure := tr_failure_class cur in
  match m with
  | Assign o =>
      if decide (tr_state cur ≠ Queued ∨ owner ≠ None)
      then Err AssignRequiresQueued
      else Ok (task_with cur (Some o) Assigned outcome failure new_revision)
  | MarkRunning o =>
      if decide (tr_state cur ≠ Assigned ∨ owner ≠ Some o)
      then Err MarkRunningRequiresOwner
      else Ok (task_with cur owner Running outcome failure new_revision)
  | Handoff from to =>
      if decide (is_assigned_or_running (tr_state cur) = false ∨ owner ≠ Some from)
      then Err HandoffRequiresOwner
      else Ok (task_with cur (Some to) Assigned outcome failure new_revision)
  | Settle o state outcome_ref failure_class =>
      if negb (is_settled state) then Err SettleStateNotTerminal
      else if decide (is_assigned_or_running (tr_state cur) = false ∨ owner ≠ Some o)
      then Err SettleRequiresOwner
      else Ok (task_with cur owner state outcome_ref failure_class new_revision)
  | Skip reason =>
      if decide (tr_state cur ≠ Queued ∨ owner ≠ None)
      then Err SkipRequiresQueued
      else Ok (task_with cur owner Skipped reason (Some NonRetryable) new_revision)
  | SupervisorRetry reason =>
      if decide (tr_workflow_id cur ≠ None ∨ tr_state cur ≠ Failed ∨
                 failure ≠ Some Retryable ∨ owner = None)
      then Err RetryRequiresFailedOwned
      else Ok (task_with cur None Queued reason None new_revision)
  | WorkflowState state clear_owner outcome_ref failure_class =>
      if decide (tr_workflow_id cur = None) then Err WorkflowStateRequiresWorkflow
      else if negb (workflow_transition_allowed (tr_state cur) state) ||
              (bool_decide (tr_state cur = Failed) && negb clear_owner)
      then Err (IllegalWorkflowTransition (tr_state cur) state)
      else Ok (task_with cur (if clear_owner then None else owner) state
                 outcome_ref failure_class new_revision)
  end.

Record AppliedTaskCas : Type := {
  ap_task_id : TaskId;
  ap_mutation_digest : string;
  ap_expected_revision : Z;
  ap_new_revision : Z;
  ap_result : TaskRecord;
}.

Definition applied_eqb (a b : AppliedTaskCas) : bool :=
  bool_decide (ap_task_id a = ap_task_id b) &&
  bool_decide (ap_mutation_digest a = ap_mutation_digest b) &&
  bool_decide (ap_expected_revision a = ap_expected_revision b) &&
  bool_decide (ap_new_revision a = ap_new_revision b) &&
  task_record_eqb (ap_result a) (ap_result b).

Record TaskRegistryState : Type := {
  rg_tasks : gmap TaskId TaskRecord;
  rg_applied : gmap OperationId AppliedTaskCas;
}.

Definition registry_default : TaskRegistryState := {| rg_tasks := ∅; rg_applied := ∅ |}.

Definition upsert (s : TaskRegistryState) (t : TaskRecord) : TaskRegistryState :=
  {| rg_tasks := <[tr_task_id t := t]> (rg_tasks s); rg_applied := rg_applied s |}.

Definition get_task (s : TaskRegistryState) (id : TaskId) : option TaskRecord := rg_tasks s !! id.

Definition snapshot (s : TaskRegistryState) : list TaskRecord := (map_to_list (rg_tasks s)).*2.

(** [cas_durable].  [persist] is the closure that makes the new record durable;
    it runs on a store [W] of its own, under the write lock. *)
Section cas.
Context {W : Type} (persist : W → TaskRecord → W * result unit TaskError).

Definition cas_durable (ws : W * TaskRegistryState) (task_id : TaskId) (expected : Z)
    (op : OperationId) (digest : string) (m : TaskCasMutation) :
    (W * TaskRegistryState) * result TaskRecord TaskError :=
  let '(w, s) := ws in
  match rg_applied s !! op with
  | Some a =>
      if decide (ap_task_id a = task_id ∧ ap_mutation_digest a = digest ∧
                 ap_expected_revision a = expected ∧
                 checked_add expected 1 = Some (ap_new_revision a))
      then (ws, Ok (ap_result a))
      else (ws, Err (OperationBound op))
  | None =>
      slift ws (ok_or (rg_tasks s !! task_id) (UnknownTask task_id)) (λ cur,
      slift ws (ok_or (checked_add expected 1) RevisionOverflow) (λ new_revision,
      if decide (tr_revision cur ≠ expected)
      then (ws, Err (StaleRevision expected (tr_revision cur)))
      else
      slift ws (apply m cur new_revision) (λ next,
      match persist w next with
      | (w', Err e) => ((w', s), Err e)
      | (w', Ok tt) =>
          ((w', {| rg_tasks := <[task_id := next]> (rg_tasks s);
                   rg_applied := <[op := {| ap_task_id := task_id;
                                            ap_mutation_digest := digest;
                                            ap_expected_revision := expected;
                                            ap_new_revision := new_revision;
                                            ap_result := next |}]> (rg_applied s) |}),
           Ok next)
      end)))
  end.
End cas.

(** [restore_cas]: replay of one durable change. *)
Definition restore_cas (s : TaskRegistryState) (r : TaskRecord) (op : OperationId)
    (digest : string) (expected new_revision : Z) : TaskRegistryState * result unit TaskError :=
  if decide (tr_revision r ≠ new_revision ∨ checked_add expected 1 ≠ Some new_revision)
  then (s, Err InvalidRevisionPair)
  else
    let a := {| ap_task_id := tr_task_id r; ap_mutation_digest := digest;
                ap_expected_revision := expected; ap_new_revision := new_revision;
                ap_result := r |} in
    let insert_task (s : TaskRegistryState) :=
      match rg_tasks s !! tr_task_id r with
      | Some cur =>
          if decide (tr_revision r < tr_revision cur)%Z then (s, Ok tt)
          else if decide (tr_revision cur = tr_revision r)
          then if task_record_eqb cur r then (s, Ok tt)
               else (s, Err (ConflictingProjection (tr_revision r)))
          else (upsert s r, Ok tt)
      | None => (upsert s r, Ok tt)
      end in
    match rg_applied s !! op with
    | Some existing =>
        if applied_eqb existing a then insert_task s else (s, Err (ConflictingResults op))
    | None =>
        insert_task {| rg_tasks := rg_tasks s; rg_applied := <[op := a]> (rg_applied s) |}
    end.

Definition restore_legacy_assign (s : TaskRegistryState) (id : TaskId) (owner : AgentId) :
    TaskRegistryState :=
  {| rg_tasks := alter (λ t, task_with t (Some owner) Assigned (tr_outcome_ref t)
                               (tr_failure_class t) (tr_revision t)) id (rg_tasks s);
     rg_applied := rg_applied s |}.

Definition restore_legacy_state (s : TaskRegistryState) (id : TaskId) (st : TaskState) :
    TaskRegistryState :=
  {| rg_tasks := alter (λ t, task_with t (tr_owner_agent_id t) st (tr_outcome_ref t)
                               (tr_failure_class t) (tr_revision t)) id (rg_tasks s);
     rg_applied := rg_applied s |}.

(** ** The life of a task *)

(** The transitions of a task, whoever asks for them. *)
Inductive task_step : TaskState → TaskState → Prop :=
  | step_assign : task_step Queued Assigned
  | step_run : task_step Assigned Running
  | step_handoff s : is_assigned_or_running s = true → task_step s Assigned
  | step_settle s s' : is_assigned_or_running s = true → is_settled s' = true → task_step s s'
  | step_queued_end s' : is_settled s' = true ∨ s' = Skipped → task_step Queued s'
  | step_retry : task_step Failed Queued.

(** The members no mutation may change. *)
Definition same_identity (a b : TaskRecord) : Prop :=
  tr_run_id a = tr_run_id b ∧ tr_task_id a = tr_task_id b ∧
  tr_task_key a = tr_task_key b ∧ tr_team_id a = tr_team_id b ∧
  tr_workflow_id a = tr_workflow_id b ∧ tr_node_id a = tr_node_id b ∧
  tr_role a = tr_role b ∧ tr_depends_on a = tr_depends_on b ∧
  tr_content a = tr_content b ∧ tr_expected_write_scope a = tr_expected_write_scope b.

(** Ownership: a queued task has no owner, an assigned or running one has. *)
Definition ownership_ok (t : TaskRecord) : Prop :=
  (tr_state t = Queued → tr_owner_agent_id t = None) ∧
  (is_assigned_or_running (tr_state t) = true → is_Some (tr_owner_agent_id t)).

Ltac apply_cases :=
  repeat match goal with
  | H : (if decide ?P then _ else _) = Ok _ |- _ => destruct (decide P); [discriminate H|]
  | H : (if ?b then _ else _) = Ok _ |- _ => destruct b eqn:?; [discriminate H|]
  | H : Ok _ = Ok _ |- _ => injection H as <-
  | H : ¬ (_ ∨ _) |- _ => apply Decidable.not_or in H as [? ?]
  | H : ¬ (?a ≠ ?b) |- _ => apply dec_stable in H
  end.

Lemma apply_ok m cur rev next :
  apply m cur rev = Ok next →
  ∃ owner state outcome failure, next = task_with cur owner state outcome failure rev.
Proof. destruct m; simpl; intros; apply_cases; eauto. Qed.

Lemma apply_identity m cur rev next :
  apply m cur rev = Ok next → same_identity cur next ∧ tr_revision next = rev.
Proof. intros (? & ? & ? & ? & ->)%apply_ok. done. Qed.

Lemma task_with_ok t o s out f rev :
  task_record_ok t → is_u64 rev → task_record_ok (task_with t o s out f rev).
Proof. by intros [_ Hc] Hrev. Qed.

Lemma apply_step m cur rev next :
  apply m cur rev = Ok next → task_step (tr_state cur) (tr_state next).
Proof.
  destruct m; simpl; intros; apply_cases; simpl.
  - replace (tr_state cur) with Queued by done. constructor.
  - replace (tr_state cur) with Assigned by done. constructor.
  - apply step_handoff. by destruct (is_assigned_or_running _).
  - apply step_settle; [by destruct (is_assigned_or_running _)|]. by apply negb_false_iff.
  - replace (tr_state cur) with Queued by done. apply step_queued_end. by right.
  - replace (tr_state cur) with Failed by done. apply step_retry.
  - match goal with H : _ || _ = false |- _ => apply orb_false_iff in H as [Ht _] end.
    apply negb_false_iff in Ht.
    destruct (tr_state cur), state; try done;
      first [by apply step_retry|by apply step_queued_end; auto|by apply step_settle].
Qed.

Lemma apply_ownership m cur rev next :
  ownership_ok cur → apply m cur rev = Ok next → ownership_ok next.
Proof.
  unfold ownership_ok. intros [Hq Ha]. destruct m; simpl; intros; apply_cases; simpl.
  - split; [done|by eauto].
  - split; [done|]. intros _. eexists. done.
  - split; [done|by eauto].
  - split; [intros ->; done|]. by destruct state.
  - split; done.
  - split; done.
  - match goal with H : _ || _ = false |- _ => apply orb_false_iff in H as [Ht Hf] end.
    apply negb_false_iff in Ht. destruct (tr_state cur), state; try done;
      simpl in *; destruct clear_owner; try done; split; naive_solver.
Qed.

(** ** Compare-and-swap *)

Section cas_facts.
Context {W : Type} (persist : W → TaskRecord → W * result unit TaskError).

(** The two ways a call succeeds: a replay, which touches nothing, or a
    fresh application at the expected revision. *)
Lemma cas_durable_ok w s id expected op digest m w' s' next :
  cas_durable persist (w, s) id expected op digest m = ((w', s'), Ok next) →
  (∃ a, rg_applied s !! op = Some a ∧ w' = w ∧ s' = s ∧ next = ap_result a ∧
     ap_task_id a = id ∧ ap_mutation_digest a = digest ∧ ap_expected_revision a = expected ∧
     checked_add expected 1 = Some (ap_new_revision a)) ∨
  (∃ cur, rg_applied s !! op = None ∧ rg_tasks s !! id = Some cur ∧
     tr_revision cur = expected ∧ checked_add expected 1 = Some (expected + 1)%Z ∧
     apply m cur (expected + 1)%Z = Ok next ∧ persist w next = (w', Ok tt) ∧
     s' = {| rg_tasks := <[id := next]> (rg_tasks s);
             rg_applied := <[op := {| ap_task_id := id; ap_mutation_digest := digest;
                                      ap_expected_revision := expected;
                                      ap_new_revision := (expected + 1)%Z;
                                      ap_result := next |}]> (rg_applied s) |}).
Proof.
  unfold cas_durable. destruct (rg_applied s !! op) as [a|] eqn:Hop.
  - case_decide; [|done]. intros [= <- <- <-]. left. exists a. naive_solver.
  - rewrite !slift_ok. intros (cur & Hcur%ok_or_ok & Hk).
    apply slift_ok in Hk as (rev & Hrev%ok_or_ok & Hk).
    pose proof (proj1 (checked_add_Some _ _ _) Hrev) as [-> _].
    case_decide as Hst; [done|].
    apply slift_ok in Hk as (n & Hn & Hk).
    destruct (persist w n) as [w1 [[]|e]] eqn:Hp; [|done].
    injection Hk as <- <- <-. right. exists cur. naive_solver.
Qed.

(** A call that fails leaves the registry as it was; only the store behind
    [persist] may have been touched, and only by [persist] itself. *)
Lemma cas_durable_err w s id expected op digest m w' s' e :
  cas_durable persist (w, s) id expected op digest m = ((w', s'), Err e) →
  s' = s ∧ (w' = w ∨ ∃ next, persist w next = (w', Err e)).
Proof.
  unfold cas_durable. destruct (rg_applied s !! op).
  - case_decide; intros [= <- <- _]; auto.
  - destruct (rg_tasks s !! id); simpl; [|intros [= <- <- _]; by auto].
    destruct (checked_add expected 1); simpl; [|intros [= <- <- _]; by auto].
    case_decide; [intros [= <- <- _]; by auto|].
    destruct (apply m _ _) as [next|]; simpl; [|intros [= <- <- _]; by auto].
    destruct (persist w next) as [? [[]|]] eqn:Hp; [done|]. intros [= <- <- <-]. eauto.
Qed.
End cas_facts.

(** ** Durable history and recovery *)

(** What the store holds: the tasks that were created and the changes that
    were applied, in order. *)
Inductive DurableTask : Type :=
  | DCreated (t : TaskRecord)
  | DCas (t : TaskRecord) (op : OperationId) (digest : string) (expected new_revision : Z).

(** The closure of a live call: it appends one entry or fails without
    writing. *)
Definition log_persist (op : OperationId) (digest : string) (expected : Z) (available : bool)
    (log : list DurableTask) (next : TaskRecord) : list DurableTask * result unit TaskError :=
  if available
  then (log ++ [DCas next op digest expected (tr_revision next)], Ok tt)
  else (log, Err (PersistFailed "ledger unavailable")).

Definition live_cas (ls : list DurableTask * TaskRegistryState) (available : bool) (id : TaskId)
    (expected : Z) (op : OperationId) (digest : string) (m : TaskCasMutation) :=
  cas_durable (log_persist op digest expected available) ls id expected op digest m.

(** The live registry: fresh tasks are registered, calls succeed or fail. *)
Inductive live_step :
    list DurableTask * TaskRegistryState → list DurableTask * TaskRegistryState → Prop :=
  | live_create log s t :
      task_record_ok t → rg_tasks s !! tr_task_id t = None →
      live_step (log, s) (log ++ [DCreated t], upsert s t)
  | live_call ls available id expected op digest m ls' r :
      live_cas ls available id expected op digest m = (ls', r) → live_step ls ls'.

Definition live (log : list DurableTask) (s : TaskRegistryState) : Prop :=
  rtc live_step ([], registry_default) (log, s).

(** Recovery replays the durable entries, in order, into an empty registry and
    stops at the first error. *)
Definition restore_entry (s : TaskRegistryState) (e : DurableTask) :
    result TaskRegistryState TaskError :=
  match e with
  | DCreated t => Ok (upsert s t)
  | DCas t op digest expected new_revision =>
      match restore_cas s t op digest expected new_revision with
      | (s', Ok tt) => Ok s'
      | (_, Err e) => Err e
      end
  end.

Definition restore_log (log : list DurableTask) : result TaskRegistryState TaskError :=
  fold_result restore_entry registry_default log.

(** The invariant of the live registry. *)
Record registry_inv (s : TaskRegistryState) : Prop := {
  inv_keyed : ∀ id t, rg_tasks s !! id = Some t → tr_task_id t = id ∧ task_record_ok t;
  inv_applied : ∀ op a, rg_applied s !! op = Some a →
    ap_new_revision a = (ap_expected_revision a + 1)%Z ∧
    tr_revision (ap_result a) = ap_new_revision a ∧
    tr_task_id (ap_result a) = ap_task_id a ∧
    ∃ t, rg_tasks s !! ap_task_id a = Some t ∧ (ap_new_revision a ≤ tr_revision t)%Z;
  inv_once : ∀ op op' a a', rg_applied s !! op = Some a → rg_applied s !! op' = Some a' →
    ap_task_id a = ap_task_id a' → ap_expected_revision a = ap_expected_revision a' → op = op';
}.

Lemma registry_inv_create s t :
  registry_inv s → task_record_ok t → rg_tasks s !! tr_task_id t = None →
  registry_inv (upsert s t).
Proof.
  intros [Hk Ha Ho] Ht Hnone. split; simpl.
  - intros id t'. rewrite lookup_insert_Some. intros [[<- <-]|[_ Hid]]; [done|by eauto].
  - intros op a Hop. destruct (Ha op a Hop) as (H1 & H2 & H3 & t' & Ht' & Hle).
    split_and!; [done..|]. exists t'. split; [|done].
    rewrite lookup_insert_ne; [done|]. intros Heq. by rewrite <-Heq, Hnone in Ht'.
  - done.
Qed.

Lemma registry_inv_cas s id cur expected op digest m next :
  registry_inv s → rg_applied s !! op = None → rg_tasks s !! id = Some cur →
  tr_revision cur = expected → (expected + 1 ≤ u64_max)%Z →
  apply m cur (expected + 1)%Z = Ok next →
  registry_inv {| rg_tasks := <[id := next]> (rg_tasks s);
                  rg_applied := <[op := {| ap_task_id := id; ap_mutation_digest := digest;
                                           ap_expected_revision := expected;
                                           ap_new_revision := (expected + 1)%Z;
                                           ap_result := next |}]> (rg_applied s) |}.
Proof.
  intros [Hk Ha Ho] Hop Hid Hrev Hmax Hap. destruct (Hk id cur Hid) as [Hcid Hcok].
  pose proof (apply_identity _ _ _ _ Hap) as [Hsame Hnrev].
  assert (tr_task_id next = id) as Hnid by (destruct Hsame as (_ & <- & _); done).
  assert (task_record_ok next) as Hnok.
  { apply apply_ok in Hap as (? & ? & ? & ? & ->). apply task_with_ok; [done|].
    destruct Hcok as [[] _]. unfold is_u64 in *. lia. }
  assert (∀ op' a', rg_applied s !! op' = Some a' → ap_task_id a' = id →
            (ap_expected_revision a' < expected)%Z) as Hold.
  { intros op' a' Hop' Hid'. destruct (Ha op' a' Hop') as (H1 & _ & _ & t & Ht & Hle).
    rewrite Hid' in Ht. simplify_eq. lia. }
  split; simpl.
  - intros id' t'. rewrite lookup_insert_Some. intros [[<- <-]|[_ Hid']]; [done|by eauto].
  - intros op' a'. rewrite lookup_insert_Some. intros [[<- <-]|[Hne Hop']]; simpl.
    + split_and!; [done..|]. exists next. rewrite lookup_insert_eq. split; [done|lia].
    + destruct (Ha op' a' Hop') as (H1 & H2 & H3 & t & Ht & Hle). split_and!; [done..|].
      destruct (decide (ap_task_id a' = id)) as [Heq|Hne'].
      * exists next. rewrite Heq, lookup_insert_eq. split; [done|].
        rewrite Heq in Ht. simplify_eq. lia.
      * exists t. by rewrite lookup_insert_ne.
  - intros op1 op2 a1 a2. rewrite !lookup_insert_Some.
    intros [[<- <-]|[Hne1 H1]] [[<- <-]|[Hne2 H2]] Hid' Hexp; simpl in *; [done|..|by eauto].
    + specialize (Hold op2 a2 H2 ltac:(done)). lia.
    + specialize (Hold op1 a1 H1 ltac:(done)). lia.
Qed.

Lemma live_step_inv log s log' s' :
  registry_inv s → live_step (log, s) (log', s') → registry_inv s'.
Proof.
  intros Hinv Hstep. inversion Hstep as [|? av id exp op dig m ? r Hcall]; subst.
  - by apply registry_inv_create.
  - unfold live_cas in Hcall. destruct r as [next|e].
    + apply cas_durable_ok in Hcall as [(a & _ & _ & -> & _)|(cur & Hop & Hid & Hrev & Hmax & Hap & _ & ->)];
        [done|].
      apply checked_add_Some in Hmax as [_ Hmax]. by eapply registry_inv_cas.
    + by apply cas_durable_err in Hcall as [-> _].
Qed.

(** Induction along a live history. *)
Lemma live_ind (P : list DurableTask → TaskRegistryState → Prop) :
  P [] registry_default →
  (∀ log s log' s', registry_inv s → P log s → live_step (log, s) (log', s') → P log' s') →
  ∀ log s, live log s → registry_inv s ∧ P log s.
Proof.
  intros H0 Hs log s Hl.
  apply (rtc_ind_r (λ ls, registry_inv ls.2 ∧ P ls.1 ls.2) ([], registry_default)) in Hl; [done| |].
  - split; [split; intros; simplify_map_eq|done].
  - intros [log1 s1] [log2 s2] _ Hstep [Hinv HP].
    split; [by eapply live_step_inv|by eapply Hs].
Qed.

Lemma live_inv log s : live log s → registry_inv s.
Proof. intros Hl. by apply (live_ind (λ _ _, True)) in Hl as [? _]. Qed.

Lemma restore_cas_fresh s next op digest expected :
  rg_applied s !! op = None →
  tr_revision next = (expected + 1)%Z → (expected + 1 ≤ u64_max)%Z →
  (∀ cur, rg_tasks s !! tr_task_id next = Some cur → (tr_revision cur ≤ expected)%Z) →
  restore_cas s next op digest expected (tr_revision next) =
  ({| rg_tasks := <[tr_task_id next := next]> (rg_tasks s);
      rg_applied := <[op := {| ap_task_id := tr_task_id next; ap_mutation_digest := digest;
                               ap_expected_revision := expected;
                               ap_new_revision := tr_revision next;
                               ap_result := next |}]> (rg_applied s) |}, Ok tt).
Proof.
  intros Hop Hrev Hmax Hcur. unfold restore_cas.
  rewrite decide_False.
  - rewrite Hop. simpl. destruct (rg_tasks s !! tr_task_id next) as [cur|]; [|done].
    specialize (Hcur cur eq_refl). rewrite !decide_False by lia. done.
  - intros [?|Hne]; [done|]. apply Hne. apply checked_add_Some. lia.
Qed.

Lemma live_restore_step log s log' s' :
  registry_inv s → restore_log log = Ok s → live_step (log, s) (log', s') →
  restore_log log' = Ok s'.
Proof.
  unfold restore_log. intros [Hk _ _] IH Hstep.
  inversion Hstep as [|? av id exp op dig m ? r Hcall]; subst.
  { by rewrite fold_result_app, IH. }
  unfold live_cas in Hcall. destruct r as [next|e].
  - apply cas_durable_ok in Hcall as
      [(a & _ & -> & -> & _)|(cur & Hop & Hid & Hrev & Hmax & Hap & Hp & ->)]; [done|].
    unfold log_persist in Hp. destruct av; [|done]. injection Hp as <-.
    rewrite fold_result_app, IH. cbn [rbind fold_result restore_entry].
    apply checked_add_Some in Hmax as [_ Hmax].
    pose proof (apply_identity _ _ _ _ Hap) as [Hsame Hnrev].
    destruct (Hk id cur Hid) as [Hcid _].
    assert (tr_task_id next = id) as Hnid by (destruct Hsame as (_ & <- & _); done).
    rewrite restore_cas_fresh; [| done..|]; simpl.
    + by rewrite Hnid, Hnrev.
    + rewrite Hnid. intros cur' Hcur'. simplify_eq. lia.
  - apply cas_durable_err in Hcall as [-> [->|(next & Hp)]]; [done|].
    unfold log_persist in Hp. destruct av; [done|]. by injection Hp as <-.
Qed.

Lemma live_step_applied log s log' s' op a :
  live_step (log, s) (log', s') → rg_applied s !! op = Some a → rg_applied s' !! op = Some a.
Proof.
  intros Hstep Hop. inversion Hstep as [|? av id exp op' dig m ? r Hcall]; subst; [done|].
  unfold live_cas in Hcall. destruct r as [next|e].
  - apply cas_durable_ok in Hcall as [(? & _ & _ & -> & _)|(cur & Hop' & _ & _ & _ & _ & _ & ->)];
      [done|]. simpl. rewrite lookup_insert_ne; [done|]. congruence.
  - by apply cas_durable_err in Hcall as [-> _].
Qed.

Lemma live_steps_applied ls ls' op a :
  rtc live_step ls ls' → rg_applied ls.2 !! op = Some a → rg_applied ls'.2 !! op = Some a.
Proof.
  induction 1 as [|[l1 s1] [l2 s2] [l3 s3] Hstep _ IH]; [done|]. intros Hop.
  eapply IH, live_step_applied; done.
Qed.

(** ** Properties *)

(** whatever mutation is applied, a change that is accepted follows one of
    the transitions of the task life cycle, changes none of the members that
    identify the task, and carries the revision it was given. *)
Theorem mutation_sound m cur rev next :
  apply m cur rev = Ok next →
  task_step (tr_state cur) (tr_state next) ∧ same_identity cur next ∧ tr_revision next = rev.
Proof. intros H. split; [by eapply apply_step|by eapply apply_identity]. Qed.

(** A queued task handed to an owner, run and settled. *)
Definition sample_task : TaskRecord := {|
  tr_run_id := "run"; tr_task_id := "t1"; tr_revision := 0; tr_task_key := None;
  tr_team_id := None; tr_workflow_id := None; tr_node_id := None; tr_role := None;
  tr_depends_on := []; tr_content := None; tr_expected_write_scope := [];
  tr_owner_agent_id := None; tr_state := Queued; tr_outcome_ref := None;
  tr_failure_class := None |}.

Definition sample_assigned : TaskRecord := task_with sample_task (Some "a") Assigned None None 1.

Lemma mutation_sound_witness :
  apply (Assign "a") sample_task 1 = Ok sample_assigned ∧
  task_step (tr_state sample_task) (tr_state sample_assigned) ∧
  same_identity sample_task sample_assigned ∧ tr_revision sample_assigned = 1%Z.
Proof. split; [reflexivity|]. apply (mutation_sound (Assign "a")). reflexivity. Defined.

Definition is_final (s : TaskState) : bool :=
  match s with Completed | Skipped | Cancelled => true | _ => false end.

(** completed, skipped and cancelled are final: no mutation is accepted on
    such a task, so a settled result is never overwritten. *)
Theorem final_states_absorbing m cur rev :
  is_final (tr_state cur) = true → is_ok (apply m cur rev) = false.
Proof.
  intros Hst. destruct (apply m cur rev) as [next|] eqn:Hap; [|done].
  apply apply_step in Hap. destruct (tr_state cur); try done; inversion Hap; done.
Qed.

Definition sample_done : TaskRecord := task_with sample_task (Some "a") Completed None None 3.

Lemma final_states_absorbing_witness :
  is_ok (apply (Handoff "a" "b") sample_done 4) = false.
Proof. apply (final_states_absorbing (Handoff "a" "b")). reflexivity. Defined.

(** ownership is an invariant: when every created task is unowned or
    properly owned, no history of calls reaches a queued task with an owner or
    an assigned or running task without one. *)
Theorem live_ownership log s :
  live log s → (∀ t, DCreated t ∈ log → ownership_ok t) →
  ∀ id t, rg_tasks s !! id = Some t → ownership_ok t.
Proof.
  intros Hl. eapply (live_ind (λ log s, (∀ t, DCreated t ∈ log → ownership_ok t) →
    ∀ id t, rg_tasks s !! id = Some t → ownership_ok t)) in Hl as [_ Hl]; [done| |].
  { intros _ id t Hid. simplify_map_eq. }
  clear log s Hl. intros log s log' s' _ IH Hstep Hc.
  inversion Hstep as [? ? t0 Hok Hnone|? av id0 exp op dig m ? r Hcall]; subst.
  - intros id t. simpl. rewrite lookup_insert_Some.
    intros [[_ <-]|[_ Hid]]; [apply Hc; set_solver|]. eapply IH; [|done]. set_solver.
  - unfold live_cas in Hcall. destruct r as [next|e].
    + apply cas_durable_ok in Hcall as
        [(a & _ & -> & -> & _)|(cur & Hop & Hid & Hrev & Hmax & Hap & Hp & ->)]; [by apply IH|].
      unfold log_persist in Hp. destruct av; [|done]. injection Hp as <-.
      assert (∀ id t, rg_tasks s !! id = Some t → ownership_ok t) as Hold by (apply IH; set_solver).
      intros id t. simpl. rewrite lookup_insert_Some.
      intros [[_ <-]|[_ Hid']]; [|by eauto]. eapply apply_ownership; [|done]. by eauto.
    + apply cas_durable_err in Hcall as [-> [->|(next & Hp)]]; [by apply IH|].
      unfold log_persist in Hp. destruct av; [done|]. injection Hp as <-. by apply IH.
Qed.

(** The history of [sample_task]: created, then assigned to agent [a]. *)
Definition sample_log : list DurableTask :=
  [DCreated sample_task; DCas sample_assigned "op1" "d1" 0 1].
Definition sample_created : TaskRegistryState := upsert registry_default sample_task.
Definition sample_registry : TaskRegistryState :=
  (live_cas ([DCreated sample_task], sample_created) true "t1" 0 "op1" "d1" (Assign "a")).1.2.

Lemma sample_live : live sample_log sample_registry.
Proof.
  eapply rtc_l.
  - apply (live_create [] registry_default sample_task); [|reflexivity].
    split; [unfold is_u64, u64_max; simpl; lia|done].
  - apply rtc_once.
    by apply (live_call ([DCreated sample_task], sample_created) true "t1" 0 "op1" "d1"
                (Assign "a") _ (Ok sample_assigned)).
Defined.

Lemma live_ownership_witness : ownership_ok sample_assigned.
Proof.
  apply (live_ownership sample_log sample_registry sample_live) with (id := "t1").
  - intros t Ht. unfold sample_log in Ht. set_unfold in Ht.
    destruct Ht as [Ht|[Ht|[]]]; [|discriminate Ht]. injection Ht as ->. split; done.
  - vm_compute. reflexivity.
Defined.

(** C29: exactly once: after a call has succeeded, the same call, made again
    after any number of further calls, returns the first result and changes
    neither the registry nor the store, even when the store is unavailable. *)
Theorem cas_exactly_once ls ls' ls'' available available' id expected op digest m next :
  live_cas ls available id expected op digest m = (ls', Ok next) →
  rtc live_step ls' ls'' →
  live_cas ls'' available' id expected op digest m = (ls'', Ok next).
Proof.
  intros Hcall Hsteps. destruct ls as [log s], ls' as [log' s'], ls'' as [log'' s''].
  assert (∃ a, rg_applied s' !! op = Some a ∧ next = ap_result a ∧
       ap_task_id a = id ∧ ap_mutation_digest a = digest ∧ ap_expected_revision a = expected ∧
       checked_add expected 1 = Some (ap_new_revision a)) as (a & Hop & -> & Ha).
  { unfold live_cas in Hcall. apply cas_durable_ok in Hcall as
      [(a & Hop & _ & -> & H)|(cur & _ & _ & _ & Hmax & _ & _ & ->)]; [by exists a|].
    eexists. simpl. rewrite lookup_insert_eq. by split. }
  apply (live_steps_applied _ _ _ _ Hsteps) in Hop. simpl in Hop.
  unfold live_cas, cas_durable. rewrite Hop. by rewrite decide_True.
Qed.

Lemma cas_exactly_once_witness :
  live_cas (sample_log, sample_registry) false "t1" 0 "op1" "d1" (Assign "a") =
  ((sample_log, sample_registry), Ok sample_assigned).
Proof.
  apply (cas_exactly_once ([DCreated sample_task], sample_created) (sample_log, sample_registry)
           (sample_log, sample_registry) true); [reflexivity|reflexivity].
Defined.

(** no lost update: in every live registry, two different operations that
    were applied to one task were applied at different revisions, and the task
    has moved past both. *)
Theorem no_lost_update log s op op' a a' :
  live log s → rg_applied s !! op = Some a → rg_applied s !! op' = Some a' →
  op ≠ op' → ap_task_id a = ap_task_id a' →
  ap_expected_revision a ≠ ap_expected_revision a' ∧
  ∃ t, rg_tasks s !! ap_task_id a = Some t ∧
       (ap_expected_revision a < tr_revision t ∧ ap_expected_revision a' < tr_revision t)%Z.
Proof.
  intros [_ Ha Ho]%live_inv Hop Hop' Hne Hid. split; [by intros Heq; eapply Hne, Ho|].
  destruct (Ha _ _ Hop) as (H1 & _ & _ & t & Ht & Hle).
  destruct (Ha _ _ Hop') as (H1' & _ & _ & t' & Ht' & Hle').
  rewrite <-Hid in Ht'. simplify_eq. exists t. split; [done|lia].
Qed.

Definition sample_running : list DurableTask * TaskRegistryState :=
  (live_cas (sample_log, sample_registry) true "t1" 1 "op2" "d2" (MarkRunning "a")).1.

Lemma no_lost_update_witness :
  let s := sample_running.2 in
  ∃ a a', rg_applied s !! "op1" = Some a ∧ rg_applied s !! "op2" = Some a' ∧
    ap_expected_revision a ≠ ap_expected_revision a'.
Proof.
  eexists _, _. split; [vm_compute; reflexivity|]. split; [vm_compute; reflexivity|].
  refine (proj1 (no_lost_update sample_running.1 sample_running.2 "op1" "op2" _ _ _ _ _ _ _)).
  - eapply rtc_r; [exact sample_live|].
    eapply (live_call _ true "t1" 1 "op2" "d2" (MarkRunning "a") _ (Ok _)). reflexivity.
  - vm_compute. reflexivity.
  - vm_compute. reflexivity.
  - discriminate.
  - reflexivity.
Defined.

(** recovery: replaying the durable history of any live registry into an
    empty one succeeds and yields exactly the live registry, task records and
    applied operations alike. *)
Theorem recovery_reproduces_registry log s : live log s → restore_log log = Ok s.
Proof.
  intros Hl. apply (live_ind (λ log s, restore_log log = Ok s)) in Hl as [_ ?]; [done..|].
  intros. by eapply live_restore_step.
Qed.

Lemma recovery_reproduces_registry_witness : restore_log sample_log = Ok sample_registry.
Proof. apply (recovery_reproduces_registry sample_log). exact sample_live. Defined.

(** a call that fails, for whatever reason and with whatever persistence
    closure, leaves every task record and every applied operation as it was. *)
Theorem cas_error_leaves_registry {W} (persist : W → TaskRecord → W * result unit TaskError)
    w s id expected op digest m :
  is_ok (cas_durable persist (w, s) id expected op digest m).2 = false →
  (cas_durable persist (w, s) id expected op digest m).1.2 = s.
Proof.
  destruct (cas_durable persist (w, s) id expected op digest m) as [[w' s'] [next|e]] eqn:E;
    [done|]. intros _. by apply cas_durable_err in E as [-> _].
Qed.

Lemma cas_error_leaves_registry_witness :
  (cas_durable (log_persist "op3" "d" 0 true) (sample_log, sample_registry)
     "t1" 0 "op3" "d" (Skip None)).1.2 = sample_registry.
Proof. apply cas_error_leaves_registry. vm_compute. reflexivity. Defined.
