(* ===== verification/RuntimeLedger.v ===== *)
(** * The runtime ledger

    The in-memory implementation of the [RuntimeLedger] trait
    (crates/solaris-agent/src/runtime_ledger.rs) with the three files that hold
    its operations: logical appends (runtime_ledger_unique.rs), Workflow
    mutation leases (runtime_ledger_workflow_lease.rs) and task admission
    (runtime_ledger_task_admission.rs).  The ledger is one value behind one
    mutex, so each operation is a function from the state it locks to the state
    it unlocks and its result.  The clock is an argument. *)
From S2P Require Import Prelude Json Types.

Definition LEDGER_SCHEMA_VERSION : Z := 1.

Record LedgerRecord : Type := {
  lr_schema_version : Z;
  lr_seq : Z;
  lr_run_id : RunId;
  lr_timestamp_unix_ms : Z;
  lr_durability : DurabilityClass;
  lr_record_type : string;
  lr_payload : Value;
}.

Record WorkflowMutationLease : Type := {
  wl_run_id : RunId;
  wl_owner_id : string;
  wl_epoch : Z;
  wl_expires_at_unix_ms : Z;
  wl_observed_sequence : Z;
}.

Inductive WorkflowRestoreCommit : Type :=
  | CommitCurrent
  | CommitStale (current_sequence : Z).

Record InMemoryWorkflowMutationLease : Type := {
  il_owner_id : option string;
  il_epoch : Z;
  il_heartbeat_at_unix_ms : Z;
  il_expires_at_unix_ms : Z;
  il_observed_sequence : Z;
  il_committed_sequence : Z;
}.

Record InMemoryLedgerState : Type := {
  ls_records : gmap RunId (list LedgerRecord);
  ls_next_sequence : Z;
  ls_leases : gmap RunId InMemoryWorkflowMutationLease;
}.

Definition ledger_default : InMemoryLedgerState :=
  {| ls_records := ∅; ls_next_sequence := 0; ls_leases := ∅ |}.

(** The errors of the ledger; [error_kind] is the [std::io::ErrorKind] each is
    raised with. *)
Inductive LedgerError : Type :=
  | SequenceExhausted
  | EpochExhausted
  | OwnerEmpty
  | LeaseContended (run_id : RunId)
  | LeaseLost (run_id : RunId)
  | ClockRollback
  | EphemeralWorkflowRecord
  | EphemeralLogicalRecord
  | IdentityEmpty
  | IdentityDuplicateField
  | IdentityPayloadNotObject
  | IdentityFieldMissing (field : string)
  | IdentityBoundMultiple (record_type : string)
  | IdentityBoundDifferent (record_type : string)
  | DecodeTaskCreated
  | DecodeBatch (part : string)
  | DecodeTeamCreated
  | TeamLimits (e : TeamLimitError)
  | TeamMetadataDiffers (team_id : TeamId)
  | TeamOfOtherRun
  | MemberJoinedMissing (part : string)
  | TaskTeamNotDurable (task_id : TaskId) (team_id : TeamId)
  | TaskTeamNoCoordinator (task_id : TaskId) (team_id : TeamId)
  | CoordinatorNotMember (task_id : TaskId) (coordinator : AgentId) (team_id : TeamId)
  | TeamTaskCreatedState (task_id : TaskId)
  | QueuedTaskHasOwner (task_id : TaskId)
  | ActiveTaskNoOwner (task_id : TaskId) (state : TaskState)
  | OwnerNotMember (task_id : TaskId) (owner : AgentId) (team_id : TeamId)
  | HistoricalOwnerNotMember (task_id : TaskId) (owner : AgentId) (team_id : TeamId)
  | BatchTasksMismatch
  | MembershipUnknownTeam (agent_id : AgentId) (team_id : TeamId)
  | TaskMetadataDiffers (task_id : TaskId)
  | BatchDuplicateTask (task_id : TaskId)
  | TaskQuotaExceeded (max_tasks : Z)
  | BatchTooLarge.

Inductive ErrorKind : Type :=
  | KOther | KInvalidInput | KInvalidData | KWouldBlock | KPermissionDenied | KAlreadyExists.

Definition error_kind (e : LedgerError) : ErrorKind :=
  match e with
  | LeaseContended _ => KWouldBlock
  | LeaseLost _ => KPermissionDenied
  | ClockRollback => KInvalidData
  | OwnerEmpty | EphemeralWorkflowRecord | EphemeralLogicalRecord
  | IdentityEmpty | IdentityDuplicateField | IdentityPayloadNotObject => KInvalidInput
  | IdentityFieldMissing _ | IdentityBoundMultiple _ => KInvalidData
  | IdentityBoundDifferent _ => KAlreadyExists
  | _ => KOther
  end.

(** ** Plain records *)

Definition run_records (s : InMemoryLedgerState) (run_id : RunId) : list LedgerRecord :=
  default [] (ls_records s !! run_id).

Definition records_for_run (s : InMemoryLedgerState) (run_id : RunId) :
    result (list LedgerRecord) LedgerError := Ok (run_records s run_id).

Definition last_seq (l : list LedgerRecord) : Z :=
  match last l with Some r => lr_seq r | None => 0 end.

Definition last_sequence (s : InMemoryLedgerState) (run_id : RunId) : result Z LedgerError :=
  Ok (last_seq (run_records s run_id)).

(** [Iterator::take] and [Vec::truncate] at a [usize]. *)
Definition take_limit {A} (limit : Z) (l : list A) : list A :=
  take (Z.to_nat (Z.min limit (Z.of_nat (length l)))) l.

Definition seq_le (a b : LedgerRecord) : Prop := (lr_seq a ≤ lr_seq b)%Z.

#[export] Instance seq_le_dec : RelDecision seq_le.
Proof. intros a b. unfold seq_le. apply _. Defined.

Definition records_after (s : InMemoryLedgerState) (run_id : RunId) (after : Z) (limit : Z) :
    result (list LedgerRecord) LedgerError :=
  Ok (take_limit limit (filter (λ r, after < lr_seq r)%Z (run_records s run_id))).

Definition run_ids (s : InMemoryLedgerState) : result (list RunId) LedgerError :=
  Ok (merge_sort String.le (map_to_list (ls_records s)).*1).

(** A Run belongs to the tree of [root] when it is [root] or its id extends
    [root] by a colon. *)
Definition in_tree (root run_id : RunId) : bool :=
  bool_decide (run_id = root) || starts_with run_id (root +:+ ":").

Definition records_after_tree (s : InMemoryLedgerState) (root : RunId) (after : Z) (limit : Z) :
    result (list LedgerRecord) LedgerError :=
  let? ids := run_ids s in
  let? found := fold_result (λ acc run_id,
      if in_tree root run_id
      then let? l := records_for_run s run_id in
           Ok (acc ++ filter (λ r, after < lr_seq r)%Z l)
      else Ok acc) [] ids in
  Ok (take_limit limit (merge_sort seq_le found)).

Definition last_sequence_tree (s : InMemoryLedgerState) (root : RunId) : result Z LedgerError :=
  let? l := records_after_tree s root 0 usize_max in Ok (last_seq l).

(** [state.records.entry(run).or_default().push(record)] with the sequence
    counter the record carries. *)
Definition push_record (s : InMemoryLedgerState) (r : LedgerRecord) : InMemoryLedgerState :=
  {| ls_records := <[lr_run_id r := run_records s (lr_run_id r) ++ [r]]> (ls_records s);
     ls_next_sequence := lr_seq r;
     ls_leases := ls_leases s |}.

Definition make_record (seq : Z) (run_id : RunId) (now : Z) (durability : DurabilityClass)
    (record_type : string) (payload : Value) : LedgerRecord :=
  {| lr_schema_version := LEDGER_SCHEMA_VERSION; lr_seq := seq; lr_run_id := run_id;
     lr_timestamp_unix_ms := now; lr_durability := durability;
     lr_record_type := record_type; lr_payload := payload |}.

Definition append (s : InMemoryLedgerState) (now : Z) (run_id : RunId)
    (durability : DurabilityClass) (record_type : string) (payload : Value) :
    InMemoryLedgerState * result LedgerRecord LedgerError :=
  let r := make_record (saturating_add (ls_next_sequence s) 1) run_id now durability
             record_type payload in
  if decide (durability ≠ Ephemeral) then (push_record s r, Ok r) else (s, Ok r).

Definition delete_run_exact (s : InMemoryLedgerState) (run_id : RunId) :
    InMemoryLedgerState * result Z LedgerError :=
  ({| ls_records := delete run_id (ls_records s); ls_next_sequence := ls_next_sequence s;
      ls_leases := ls_leases s |},
   Ok (match ls_records s !! run_id with Some l => Z.of_nat (length l) | None => 0%Z end)).

(** ** Logical appends (runtime_ledger_unique.rs) *)

Definition require_durable (durability : DurabilityClass) : result unit LedgerError :=
  if decide (durability = Ephemeral) then Err EphemeralLogicalRecord else Ok tt.

Section logical.
Context (to_vec : Value → string).

(** The identity of a payload: the bytes of the object that holds the identity
    fields, in sorted order. *)
Definition canonical_identity (payload : Value) (identity_fields : list string) :
    result string LedgerError :=
  match identity_fields with
  | [] => Err IdentityEmpty
  | _ =>
      if decide (NoDup identity_fields) then
        let? object := ok_or (as_object payload) IdentityPayloadNotObject in
        let? identity := fold_result (λ acc field,
            let? v := ok_or (assoc field object) (IdentityFieldMissing field) in
            Ok (obj_insert field v acc)) [] (merge_sort String.le identity_fields) in
        Ok (to_vec (VObject identity))
      else Err IdentityDuplicateField
  end.

Definition require_same_payload (record_type : string) (r : LedgerRecord) (payload : Value) :
    result LedgerRecord LedgerError :=
  if value_eqb (lr_payload r) payload then Ok r else Err (IdentityBoundDifferent record_type).

(** The loop that collects the records bound to the identity. *)
Definition matching_records (record_type : string) (identity_fields : list string)
    (identity : string) (l : list LedgerRecord) : result (list LedgerRecord) LedgerError :=
  fold_result (λ acc r,
    if decide (lr_record_type r ≠ record_type) then Ok acc
    else
      let? i := canonical_identity (lr_payload r) identity_fields in
      Ok (if decide (i = identity) then acc ++ [r] else acc)) [] l.

Definition compare_and_append (s : InMemoryLedgerState) (now : Z) (run_id : RunId)
    (durability : DurabilityClass) (record_type : string) (identity_fields : list string)
    (payload : Value) : InMemoryLedgerState * result LedgerRecord LedgerError :=
  slift s (require_durable durability) (λ _,
  slift s (canonical_identity payload identity_fields) (λ identity,
  slift s (matching_records record_type identity_fields identity (run_records s run_id)) (λ matching,
  match matching with
  | _ :: _ :: _ => (s, Err (IdentityBoundMultiple record_type))
  | [r] => (s, require_same_payload record_type r payload)
  | [] =>
      slift s (ok_or (checked_add (ls_next_sequence s) 1) SequenceExhausted) (λ seq,
      let r := make_record seq run_id now durability record_type payload in
      (push_record s r, Ok r))
  end))).
End logical.

(** ** Workflow mutation leases (runtime_ledger_workflow_lease.rs) *)

Definition DEFAULT_LEASE_SECONDS : Z := 90.
Definition WORKFLOW_MUTATION_LEASE_MILLIS : Z := DEFAULT_LEASE_SECONDS * 1000.

Definition lease_expiry (now : Z) : Z := i64_saturating_add now WORKFLOW_MUTATION_LEASE_MILLIS.

Definition require_owner (owner_id : string) : result unit LedgerError :=
  if decide (owner_id = "") then Err OwnerEmpty else Ok tt.

Definition require_durable_workflow_record (durability : DurabilityClass) :
    result unit LedgerError :=
  if decide (durability = Ephemeral) then Err EphemeralWorkflowRecord else Ok tt.

Definition reject_clock_rollback (previous now : Z) : result unit LedgerError :=
  if decide (now < previous)%Z then Err ClockRollback else Ok tt.

Definition require_current (cur : InMemoryWorkflowMutationLease) (lease : WorkflowMutationLease)
    (now : Z) : result unit LedgerError :=
  reject_clock_rollback (il_heartbeat_at_unix_ms cur) now ;;?
  if decide (il_owner_id cur ≠ Some (wl_owner_id lease) ∨ il_epoch cur ≠ wl_epoch lease ∨
             il_expires_at_unix_ms cur ≤ now)%Z
  then Err (LeaseLost (wl_run_id lease)) else Ok tt.

(** [state.workflow_mutation_leases.get(run)?] followed by [require_current]. *)
Definition validate_lease (s : InMemoryLedgerState) (lease : WorkflowMutationLease) (now : Z) :
    result InMemoryWorkflowMutationLease LedgerError :=
  let? cur := ok_or (ls_leases s !! wl_run_id lease) (LeaseLost (wl_run_id lease)) in
  require_current cur lease now ;;? Ok cur.

Definition set_lease (s : InMemoryLedgerState) (run_id : RunId)
    (l : InMemoryWorkflowMutationLease) : InMemoryLedgerState :=
  {| ls_records := ls_records s; ls_next_sequence := ls_next_sequence s;
     ls_leases := <[run_id := l]> (ls_leases s) |}.

(** [owner_id.as_deref().is_some_and(|owner| owner != owner_id)]. *)
Definition other_owner (e : InMemoryWorkflowMutationLease) (owner_id : string) : bool :=
  match il_owner_id e with Some o => bool_decide (o ≠ owner_id) | None => false end.

Definition acquire_lease (s : InMemoryLedgerState) (run_id : RunId) (owner_id : string) (now : Z) :
    InMemoryLedgerState * result WorkflowMutationLease LedgerError :=
  slift s (require_owner owner_id) (λ _,
  let observed := last_seq (run_records s run_id) in
  let existing := ls_leases s !! run_id in
  slift s
    (match existing with
     | Some e =>
         if decide (other_owner e owner_id = true ∧ now < il_expires_at_unix_ms e)%Z
         then Err (LeaseContended run_id)
         else reject_clock_rollback (il_heartbeat_at_unix_ms e) now
     | None => Ok tt
     end) (λ _,
  slift s
    (ok_or (checked_add (match existing with Some e => il_epoch e | None => 0%Z end) 1)
       EpochExhausted) (λ epoch,
  let expires := lease_expiry now in
  (set_lease s run_id
     {| il_owner_id := Some owner_id; il_epoch := epoch; il_heartbeat_at_unix_ms := now;
        il_expires_at_unix_ms := expires; il_observed_sequence := observed;
        il_committed_sequence :=
          match existing with Some e => il_committed_sequence e | None => 0 end |},
   Ok {| wl_run_id := run_id; wl_owner_id := owner_id; wl_epoch := epoch;
         wl_expires_at_unix_ms := expires; wl_observed_sequence := observed |})))).

Definition renew_lease (s : InMemoryLedgerState) (lease : WorkflowMutationLease) (now : Z) :
    InMemoryLedgerState * result WorkflowMutationLease LedgerError :=
  slift s (validate_lease s lease now) (λ cur,
  let expires := lease_expiry now in
  (set_lease s (wl_run_id lease)
     {| il_owner_id := il_owner_id cur; il_epoch := il_epoch cur;
        il_heartbeat_at_unix_ms := now; il_expires_at_unix_ms := expires;
        il_observed_sequence := il_observed_sequence cur;
        il_committed_sequence := il_committed_sequence cur |},
   Ok {| wl_run_id := wl_run_id lease; wl_owner_id := wl_owner_id lease;
         wl_epoch := wl_epoch lease; wl_expires_at_unix_ms := expires;
         wl_observed_sequence := il_observed_sequence cur |})).

Definition commit_workflow_restore (s : InMemoryLedgerState) (lease : WorkflowMutationLease)
    (expected now : Z) : InMemoryLedgerState * result WorkflowRestoreCommit LedgerError :=
  let current_sequence := last_seq (run_records s (wl_run_id lease)) in
  slift s (validate_lease s lease now) (λ cur,
  let touched committed :=
    set_lease s (wl_run_id lease)
      {| il_owner_id := il_owner_id cur; il_epoch := il_epoch cur;
         il_heartbeat_at_unix_ms := now; il_expires_at_unix_ms := lease_expiry now;
         il_observed_sequence := current_sequence; il_committed_sequence := committed |} in
  if decide (current_sequence ≠ expected)
  then (touched (il_committed_sequence cur), Ok (CommitStale current_sequence))
  else (touched expected, Ok CommitCurrent)).

Definition release_lease (s : InMemoryLedgerState) (lease : WorkflowMutationLease) :
    InMemoryLedgerState * result unit LedgerError :=
  slift s (ok_or (ls_leases s !! wl_run_id lease) (LeaseLost (wl_run_id lease))) (λ cur,
  if decide (il_owner_id cur ≠ Some (wl_owner_id lease) ∨ il_epoch cur ≠ wl_epoch lease)
  then (s, Err (LeaseLost (wl_run_id lease)))
  else (set_lease s (wl_run_id lease)
          {| il_owner_id := None; il_epoch := il_epoch cur; il_heartbeat_at_unix_ms := 0;
             il_expires_at_unix_ms := 0; il_observed_sequence := il_observed_sequence cur;
             il_committed_sequence := il_committed_sequence cur |}, Ok tt)).

(** [get_mut(run).observed_sequence = seq]. *)
Definition observe_lease (s : InMemoryLedgerState) (run_id : RunId) (observed : Z) :
    InMemoryLedgerState :=
  {| ls_records := ls_records s; ls_next_sequence := ls_next_sequence s;
     ls_leases := alter (λ l,
       {| il_owner_id := il_owner_id l; il_epoch := il_epoch l;
          il_heartbeat_at_unix_ms := il_heartbeat_at_unix_ms l;
          il_expires_at_unix_ms := il_expires_at_unix_ms l;
          il_observed_sequence := observed;
          il_committed_sequence := il_committed_sequence l |}) run_id (ls_leases s) |}.

Definition append_under_lease (s : InMemoryLedgerState) (lease : WorkflowMutationLease) (now : Z)
    (durability : DurabilityClass) (record_type : string) (payload : Value) :
    InMemoryLedgerState * result LedgerRecord LedgerError :=
  slift s (require_durable_workflow_record durability) (λ _,
  slift s (validate_lease s lease now) (λ _,
  slift s (ok_or (checked_add (ls_next_sequence s) 1) SequenceExhausted) (λ seq,
  let r := make_record seq (wl_run_id lease) now durability record_type payload in
  (observe_lease (push_record s r) (wl_run_id lease) seq, Ok r)))).

(** The record of a logical append carries the wall clock [clock]; the lease is
    checked at [now]. *)
Definition compare_and_append_under_lease (to_vec : Value → string) (s : InMemoryLedgerState)
    (lease : WorkflowMutationLease) (now clock : Z) (durability : DurabilityClass)
    (record_type : string) (identity_fields : list string) (payload : Value) :
    InMemoryLedgerState * result LedgerRecord LedgerError :=
  slift s (validate_lease s lease now) (λ _,
  sbind (compare_and_append to_vec s clock (wl_run_id lease) durability record_type
           identity_fields payload) (λ s' r,
  (observe_lease s' (wl_run_id lease) (last_seq (run_records s' (wl_run_id lease))), Ok r))).

Definition advance_lease (s : InMemoryLedgerState) (lease : WorkflowMutationLease)
    (now observed : Z) : InMemoryLedgerState :=
  {| ls_records := ls_records s; ls_next_sequence := ls_next_sequence s;
     ls_leases := alter (λ l,
       {| il_owner_id := il_owner_id l; il_epoch := il_epoch l;
          il_heartbeat_at_unix_ms := now; il_expires_at_unix_ms := lease_expiry now;
          il_observed_sequence := observed;
          il_committed_sequence := il_committed_sequence l |}) (wl_run_id lease) (ls_leases s) |}.

(** ** Task admission (runtime_ledger_task_admission.rs) *)

Definition CollaborationBatchPayload : Type :=
  list TeamRecord * list (TeamId * AgentId) * list TaskRecord.

Definition decode_part {A} `{Serde A} (payload : Value) (part : string) :
    result (list A) LedgerError :=
  ok_or (list_from_value from_value (default (VArray []) (get part payload))) (DecodeBatch part).

Definition decode_collaboration_batch (payload : Value) :
    result CollaborationBatchPayload LedgerError :=
  let? teams := decode_part payload "teams" in
  let? memberships := decode_part payload "memberships" in
  let? tasks := decode_part payload "tasks" in
  Ok (teams, memberships, tasks).

Definition same_team_metadata (a b : TeamRecord) : bool :=
  bool_decide (tm_run_id a = tm_run_id b) &&
  bool_decide (tm_team_id a = tm_team_id b) &&
  bool_decide (tm_name a = tm_name b) &&
  bool_decide (tm_strategy a = tm_strategy b) &&
  bool_decide (tm_coordinator a = tm_coordinator b) &&
  bool_decide (tm_direct_peer_messaging a = tm_direct_peer_messaging b) &&
  bool_decide (tm_max_pending_messages a = tm_max_pending_messages b) &&
  bool_decide (tm_max_message_bytes a = tm_max_message_bytes b).

Definition register_team_metadata (teams : gmap TeamId TeamRecord) (team : TeamRecord) :
    result (gmap TeamId TeamRecord) LedgerError :=
  match validate_message_limits team with
  | Err e => Err (TeamLimits e)
  | Ok _ =>
      match teams !! tm_team_id team with
      | Some existing =>
          if same_team_metadata existing team then Ok teams
          else Err (TeamMetadataDiffers (tm_team_id team))
      | None => Ok (<[tm_team_id team := team]> teams)
      end
  end.

(** One Team of a batch or of a [team_created] record. *)
Definition register_run_team (run_id : RunId) (teams : gmap TeamId TeamRecord)
    (team : TeamRecord) : result (gmap TeamId TeamRecord) LedgerError :=
  if decide (tm_run_id team ≠ run_id) then Err TeamOfOtherRun
  else register_team_metadata teams team.

Definition DurableCollaborationMetadata : Type :=
  gmap TeamId TeamRecord * gset (TeamId * AgentId).

Definition metadata_from_record (run_id : RunId) (acc : DurableCollaborationMetadata)
    (rec : string * Value) : result DurableCollaborationMetadata LedgerError :=
  let '(teams, memberships) := acc in
  let '(record_type, payload) := rec in
  if decide (record_type = "team_created") then
    let? team := ok_or (from_value payload) DecodeTeamCreated in
    let? teams := register_run_team run_id teams team in
    Ok (teams, memberships)
  else if decide (record_type = "collaboration_team_prepared" ∨
                  record_type = "collaboration_batch_prepared") then
    let? '(batch_teams, batch_memberships, _) := decode_collaboration_batch payload in
    let? teams := fold_result (register_run_team run_id) teams batch_teams in
    Ok (teams, memberships ∪ list_to_set batch_memberships)
  else if decide (record_type = "team_member_joined") then
    let? team_id := ok_or (get_str "team_id" payload) (MemberJoinedMissing "team_id") in
    let? agent_id := ok_or (get_str "agent_id" payload) (MemberJoinedMissing "agent_id") in
    Ok (teams, {[(team_id, agent_id)]} ∪ memberships)
  else Ok acc.

Definition collaboration_metadata_from_records (run_id : RunId) (records : list (string * Value)) :
    result DurableCollaborationMetadata LedgerError :=
  fold_result (metadata_from_record run_id) (∅, ∅) records.

Definition validate_team_task_admission (teams : gmap TeamId TeamRecord)
    (memberships : gset (TeamId * AgentId)) (task : TaskRecord) : result unit LedgerError :=
  match tr_team_id task with
  | None => Ok tt
  | Some team_id =>
      let id := tr_task_id task in
      let? team := ok_or (teams !! team_id) (TaskTeamNotDurable id team_id) in
      let? coordinator := ok_or (tm_coordinator team) (TaskTeamNoCoordinator id team_id) in
      if decide ((team_id, coordinator) ∉ memberships)
      then Err (CoordinatorNotMember id coordinator team_id)
      else
      match tr_state task with
      | Created => Err (TeamTaskCreatedState id)
      | Queued =>
          if decide (tr_owner_agent_id task ≠ None) then Err (QueuedTaskHasOwner id) else Ok tt
      | Assigned | Running =>
          let? owner := ok_or (tr_owner_agent_id task) (ActiveTaskNoOwner id (tr_state task)) in
          if decide ((team_id, owner) ∉ memberships)
          then Err (OwnerNotMember id owner team_id) else Ok tt
      | Completed | Failed | Cancelled | Skipped =>
          match tr_owner_agent_id task with
          | Some owner =>
              if decide ((team_id, owner) ∉ memberships)
              then Err (HistoricalOwnerNotMember id owner team_id) else Ok tt
          | None => Ok tt
          end
      end
  end.

Definition PendingRecord : Type := DurabilityClass * string * Value.

(** [Vec<TaskRecord> == Vec<TaskRecord>]. *)
Fixpoint tasks_eqb (a b : list TaskRecord) : bool :=
  match a, b with
  | [], [] => true
  | x :: a, y :: b => task_record_eqb x y && tasks_eqb a b
  | _, _ => false
  end.

(** One [collaboration_batch_prepared] marker among the records to append. *)
Definition register_batch_marker (run_id : RunId) (tasks : list TaskRecord)
    (acc : DurableCollaborationMetadata) (rec : PendingRecord) :
    result DurableCollaborationMetadata LedgerError :=
  let '(_, record_type, payload) := rec in
  if decide (record_type ≠ "collaboration_batch_prepared") then Ok acc
  else
    let? '(batch_teams, batch_memberships, batch_tasks) := decode_collaboration_batch payload in
    if negb (tasks_eqb batch_tasks tasks) then Err BatchTasksMismatch
    else
      let? teams := fold_result (register_run_team run_id) acc.1 batch_teams in
      let? memberships := fold_result (λ ms m,
          if decide (teams !! m.1 = None) then Err (MembershipUnknownTeam m.2 m.1)
          else Ok ({[m]} ∪ ms)) acc.2 batch_memberships in
      Ok (teams, memberships).

Definition is_batch_marker (rec : PendingRecord) : bool :=
  bool_decide (rec.1.2 = "collaboration_batch_prepared").

Definition already_recorded (existing : list (string * Value)) (rec : PendingRecord) : bool :=
  existsb (λ e, bool_decide (e.1 = rec.1.2) && value_eqb e.2 rec.2) existing.

Definition prepare_additional_records (run_id : RunId) (existing : list (string * Value))
    (tasks : list TaskRecord) (additional : list PendingRecord) :
    result (list PendingRecord) LedgerError :=
  if negb (existsb is_batch_marker additional)
  then Ok (List.filter (λ rec, negb (bool_decide (rec.1.1 = Ephemeral))) additional)
  else
    let? acc := collaboration_metadata_from_records run_id existing in
    let? '(teams, memberships) := fold_result (register_batch_marker run_id tasks) acc additional in
    for_each (validate_team_task_admission teams memberships) tasks ;;?
    Ok (List.filter (λ rec, negb (bool_decide (rec.1.1 = Ephemeral)) &&
                            negb (is_batch_marker rec && already_recorded existing rec)) additional).

Definition existing_metadata (s : InMemoryLedgerState) (run_id : RunId) : list (string * Value) :=
  (λ r, (lr_record_type r, lr_payload r)) <$> run_records s run_id.

(** The loop of [validate_collaboration_batch]: replays are skipped, new tasks
    collected. *)
Definition admit_task (existing : gmap TaskId TaskRecord)
    (acc : gset TaskId * list TaskRecord) (task : TaskRecord) :
    result (gset TaskId * list TaskRecord) LedgerError :=
  match existing !! tr_task_id task with
  | Some previous =>
      if task_record_eqb previous task then Ok acc
      else Err (TaskMetadataDiffers (tr_task_id task))
  | None =>
      if decide (tr_task_id task ∈ acc.1) then Err (BatchDuplicateTask (tr_task_id task))
      else Ok ({[tr_task_id task]} ∪ acc.1, acc.2 ++ [task])
  end.

Definition validate_collaboration_batch (existing : gmap TaskId TaskRecord) (max_tasks : Z)
    (tasks : list TaskRecord) : result (list TaskRecord) LedgerError :=
  let? '(_, admitted) := fold_result (admit_task existing) (∅, []) tasks in
  if decide (max_tasks <
             saturating_add (Z.of_nat (size existing)) (Z.of_nat (length admitted)))%Z
  then Err (TaskQuotaExceeded max_tasks) else Ok admitted.

(** Every [task_created] record of the tree of [root].  The code iterates over
    a [HashMap]; [map_to_list] stands for its order. *)
Definition root_task_records (s : InMemoryLedgerState) (root : RunId) : list LedgerRecord :=
  List.filter (λ r, bool_decide (lr_record_type r = "task_created"))
    (concat (List.filter (λ kv, in_tree root kv.1) (map_to_list (ls_records s))).*2).

Definition existing_root_tasks (s : InMemoryLedgerState) (root : RunId) :
    result (gmap TaskId TaskRecord) LedgerError :=
  fold_result (λ acc r,
    let? t := ok_or (from_value (lr_payload r)) DecodeTaskCreated in
    Ok (<[tr_task_id t := t]> acc)) ∅ (root_task_records s root).

(** The final loop: number, push and collect the pending records. *)
Fixpoint push_pending (s : InMemoryLedgerState) (run_id : RunId) (now : Z)
    (pending : list PendingRecord) : InMemoryLedgerState * list LedgerRecord :=
  match pending with
  | [] => (s, [])
  | (durability, record_type, payload) :: pending =>
      let r := make_record (ls_next_sequence s + 1) run_id now durability record_type payload in
      let '(s', rs) := push_pending (push_record s r) run_id now pending in (s', r :: rs)
  end.

Definition admit_inner (s : InMemoryLedgerState) (clock : Z) (root run_id : RunId) (max_tasks : Z)
    (tasks : list TaskRecord) (additional : list PendingRecord)
    (workflow_lease : option (WorkflowMutationLease * Z)) :
    InMemoryLedgerState * result (list LedgerRecord) LedgerError :=
  slift s
    (match workflow_lease with
     | Some (lease, now) => rmap (λ _, tt) (validate_lease s lease now)
     | None => Ok tt
     end) (λ _,
  slift s (existing_root_tasks s root) (λ existing,
  slift s (validate_collaboration_batch existing max_tasks tasks) (λ admitted,
  slift s (prepare_additional_records run_id (existing_metadata s run_id) tasks additional)
    (λ additional,
  let pending :=
    ((λ t : TaskRecord, (SyncCritical, "task_created", to_value t)) <$> admitted) ++ additional in
  slift s (ensure (bool_decide (Z.of_nat (length pending) ≤ u64_max)%Z) BatchTooLarge) (λ _,
  slift s (ok_or (checked_add (ls_next_sequence s) (Z.of_nat (length pending)))
             SequenceExhausted) (λ _,
  let now := match workflow_lease with Some (_, now) => now | None => clock end in
  let '(s', records) := push_pending s run_id now pending in
  match workflow_lease with
  | Some (lease, now) =>
      let observed :=
        match last (run_records s' run_id) with
        | Some r => lr_seq r
        | None => wl_observed_sequence lease
        end in
      (advance_lease s' lease now observed, Ok records)
  | None => (s', Ok records)
  end)))))).

Definition admit_tasks_and_append (s : InMemoryLedgerState) (clock : Z) (root run_id : RunId)
    (max_tasks : Z) (tasks : list TaskRecord) (additional : list PendingRecord) :=
  admit_inner s clock root run_id max_tasks tasks additional None.

Definition admit_collaboration_tasks (s : InMemoryLedgerState) (clock : Z) (root run_id : RunId)
    (max_tasks : Z) (tasks : list TaskRecord) :=
  admit_tasks_and_append s clock root run_id max_tasks tasks [].

Definition admit_tasks_and_append_under_lease (s : InMemoryLedgerState)
    (lease : WorkflowMutationLease) (now : Z) (root : RunId) (max_tasks : Z)
    (tasks : list TaskRecord) (additional : list PendingRecord) :=
  admit_inner s now root (wl_run_id lease) max_tasks tasks additional (Some (lease, now)).
