(* ===== verification/LedgerFacts.v ===== *)
(** * Properties of the runtime ledger

    Sequence numbers, append-only histories, leases as fencing tokens, logical
    appends and task admission, for the operations of RuntimeLedger.v. *)
From S2P Require Import Prelude Json Types RuntimeLedger.

(** ** Histories *)

(** One operation that writes to the ledger, deletion of a Run apart; the state
    it leaves does not depend on whether it succeeded.  [append] saturates its counter, so a step requires
    it to be below [u64::MAX]; the other operations check this themselves. *)
Inductive ledger_step : InMemoryLedgerState → InMemoryLedgerState → Prop :=
  | st_append s now run d ty p :
      (ls_next_sequence s < u64_max)%Z →
      ledger_step s (append s now run d ty p).1
  | st_compare to_vec s now run d ty fields p :
      ledger_step s (compare_and_append to_vec s now run d ty fields p).1
  | st_acquire s run owner now : ledger_step s (acquire_lease s run owner now).1
  | st_renew s lease now : ledger_step s (renew_lease s lease now).1
  | st_commit s lease expected now : ledger_step s (commit_workflow_restore s lease expected now).1
  | st_release s lease : ledger_step s (release_lease s lease).1
  | st_append_lease s lease now d ty p : ledger_step s (append_under_lease s lease now d ty p).1
  | st_compare_lease to_vec s lease now clock d ty fields p :
      ledger_step s (compare_and_append_under_lease to_vec s lease now clock d ty fields p).1
  | st_admit s clock root run max tasks additional :
      ledger_step s (admit_tasks_and_append s clock root run max tasks additional).1
  | st_admit_lease s lease now root max tasks additional :
      ledger_step s (admit_tasks_and_append_under_lease s lease now root max tasks additional).1.

(** What an operation can do to the records: push records of one Run, numbered
    above the counter. *)
Inductive pushes : InMemoryLedgerState → InMemoryLedgerState → Prop :=
  | pushes_none s s' :
      ls_records s' = ls_records s → ls_next_sequence s' = ls_next_sequence s → pushes s s'
  | pushes_one s s1 s' r :
      lr_schema_version r = LEDGER_SCHEMA_VERSION → lr_durability r ≠ Ephemeral →
      (ls_next_sequence s < lr_seq r ≤ u64_max)%Z →
      ls_records s1 = ls_records (push_record s r) → ls_next_sequence s1 = lr_seq r →
      pushes s1 s' → pushes s s'.

(** What an operation can do to the lease of a Run. *)
Definition lease_evolves (o o' : option InMemoryWorkflowMutationLease) : Prop :=
  match o, o' with
  | None, _ => True
  | Some _, None => False
  | Some c, Some c' =>
      (il_epoch c < il_epoch c')%Z ∨
      (il_epoch c = il_epoch c' ∧ (il_owner_id c' = il_owner_id c ∨ il_owner_id c' = None))
  end.

Definition leases_evolve (s s' : InMemoryLedgerState) : Prop :=
  ∀ run, lease_evolves (ls_leases s !! run) (ls_leases s' !! run).

Lemma lease_evolves_refl o : lease_evolves o o.
Proof. destruct o; simpl; auto. Qed.
#[export] Hint Resolve lease_evolves_refl : mesh.

Lemma lease_evolves_trans o1 o2 o3 :
  lease_evolves o1 o2 → lease_evolves o2 o3 → lease_evolves o1 o3.
Proof.
  destruct o1 as [c1|], o2 as [c2|], o3 as [c3|]; simpl; try done.
  intros [H1|[H1 [H1'|H1']]] [H2|[H2 [H2'|H2']]]; try (left; lia); right; (split; [lia|]).
  - left. congruence.
  - by right.
  - right. congruence.
  - by right.
Qed.

Lemma leases_evolve_same s s' : ls_leases s' = ls_leases s → leases_evolve s s'.
Proof. intros H run. rewrite H. auto with mesh. Qed.

Lemma leases_evolve_set s s0 run c :
  ls_leases s0 = ls_leases s → lease_evolves (ls_leases s !! run) (Some c) →
  leases_evolve s (set_lease s0 run c).
Proof.
  intros Hs0 Hc run'. simpl. rewrite Hs0, lookup_insert. case_decide; subst; auto with mesh.
Qed.

(** Altering a lease without touching its epoch and owner. *)
Lemma leases_evolve_alter s f run :
  (∀ c, il_epoch (f c) = il_epoch c ∧ il_owner_id (f c) = il_owner_id c) →
  ∀ s', ls_leases s' = alter f run (ls_leases s) → leases_evolve s s'.
Proof.
  intros Hf s' H run'. rewrite H, lookup_alter. case_decide; subst; [|by auto with mesh].
  destruct (ls_leases s !! run') as [c|]; simpl; [|done]. destruct (Hf c) as [-> ->]. by right; auto.
Qed.

Lemma pushes_leases s s1 s' : pushes s s1 → ls_records s' = ls_records s1 →
  ls_next_sequence s' = ls_next_sequence s1 → pushes s s'.
Proof.
  induction 1 as [s s1 H1 H2|s s0 s1 r H1 H2 H3 H4 H5 Hp IH]; intros E1 E2.
  - apply pushes_none; congruence.
  - eapply pushes_one; eauto.
Qed.

Lemma pushes_push s r s' :
  lr_schema_version r = LEDGER_SCHEMA_VERSION → lr_durability r ≠ Ephemeral →
  (ls_next_sequence s < lr_seq r ≤ u64_max)%Z →
  ls_records s' = ls_records (push_record s r) → ls_next_sequence s' = lr_seq r → pushes s s'.
Proof. intros. eapply pushes_one; [done..|]. by apply pushes_none. Qed.

(** Splitting a [slift] chain whose error branch keeps the state. *)
Lemma slift_cases {S A B E} (s : S) (r : result A E) (k : A → S * result B E) (P : S → Prop) :
  P s → (∀ a, r = Ok a → P (k a).1) → P (slift s r k).1.
Proof. destruct r; simpl; auto. Qed.

Lemma require_durable_ok d u : require_durable d = Ok u → d ≠ Ephemeral.
Proof. unfold require_durable. by case_decide. Qed.

Lemma require_durable_workflow_ok d u : require_durable_workflow_record d = Ok u → d ≠ Ephemeral.
Proof. unfold require_durable_workflow_record. by case_decide. Qed.

(** The shape of a step: records pushed, leases evolved. *)
Definition step_shape (s s' : InMemoryLedgerState) : Prop :=
  pushes s s' ∧ leases_evolve s s'.

Lemma step_shape_refl s : step_shape s s.
Proof. split; [by apply pushes_none|by apply leases_evolve_same]. Qed.
#[export] Hint Resolve step_shape_refl : mesh.

Lemma compare_and_append_shape to_vec s now run d ty fields p :
  (compare_and_append to_vec s now run d ty fields p).1 = s ∨
  ∃ r, d ≠ Ephemeral ∧ checked_add (ls_next_sequence s) 1 = Some (lr_seq r) ∧
       r = make_record (lr_seq r) run now d ty p ∧
       compare_and_append to_vec s now run d ty fields p = (push_record s r, Ok r).
Proof.
  unfold compare_and_append.
  destruct (require_durable d) as [u|] eqn:Hd; simpl; [|by left].
  destruct (canonical_identity to_vec p fields); simpl; [|by left].
  destruct (matching_records _ _ _ _ _) as [[|r [|]]|]; simpl; try by left.
  destruct (checked_add _ _) as [seq|] eqn:Hseq; simpl; [|by left].
  right. exists (make_record seq run now d ty p). split; [by eapply require_durable_ok|done].
Qed.

Lemma set_lease_shape s run c :
  lease_evolves (ls_leases s !! run) (Some c) → step_shape s (set_lease s run c).
Proof. intros H. split; [by apply pushes_none|by apply leases_evolve_set]. Qed.

Lemma validate_lease_ok s lease now cur :
  validate_lease s lease now = Ok cur ↔
  ls_leases s !! wl_run_id lease = Some cur ∧ (il_heartbeat_at_unix_ms cur ≤ now)%Z ∧
  il_owner_id cur = Some (wl_owner_id lease) ∧ il_epoch cur = wl_epoch lease ∧
  (now < il_expires_at_unix_ms cur)%Z.
Proof.
  unfold validate_lease. rewrite rbind_ok. setoid_rewrite ok_or_ok.
  setoid_rewrite rbind_ok. unfold require_current, reject_clock_rollback. split.
  - intros (c & Hc & u & Hr & [= <-]). case_decide; [done|]. simpl in Hr.
    case_decide as Hn; [done|]. apply Decidable.not_or in Hn as [H1 H2].
    apply Decidable.not_or in H2 as [H2 H3]. apply dec_stable in H1, H2. split_and!; [done|lia|done|done|lia].
  - intros (Hc & Hh & Ho & He & Hx). exists cur. split; [done|]. exists tt.
    rewrite decide_False by lia. simpl. rewrite decide_False; [done|].
    intros [?|[?|?]]; [done..|lia].
Qed.

Lemma push_pending_shape s run now pending s' rs :
  (∀ p, p ∈ pending → p.1.1 ≠ Ephemeral) →
  (ls_next_sequence s + Z.of_nat (length pending) ≤ u64_max)%Z →
  push_pending s run now pending = (s', rs) →
  pushes s s' ∧ ls_leases s' = ls_leases s ∧ run_records s' run = run_records s run ++ rs ∧
  (∀ run', run' ≠ run → ls_records s' !! run' = ls_records s !! run') ∧
  Forall2 (λ p r, lr_durability r = p.1.1 ∧ lr_record_type r = p.1.2 ∧ lr_payload r = p.2 ∧
                  lr_run_id r = run) pending rs.
Proof.
  revert s s' rs. induction pending as [|[[d ty] p] pending IH]; intros s s' rs Hd Hmax; simpl.
  - intros [= <- <-]. split_and!; [by apply pushes_none|done| |done|constructor].
    by rewrite app_nil_r.
  - destruct (push_pending _ _ _ _) as [s1 rs1] eqn:E. intros [= <- <-].
    apply IH in E as (Hp & Hl & Hr & Ho & Hf); [|set_solver|simpl in *; lia].
    split_and!; [|done| | |by constructor].
    + eapply pushes_one; [| | |done..|exact Hp]; [done|by apply (Hd (d, ty, p)); left|simpl in *; lia].
    + rewrite Hr. unfold run_records at 1. simpl. rewrite lookup_insert_eq. simpl.
      by rewrite <-(assoc_L (++)).
    + intros run' Hne. rewrite Ho by done. simpl. by rewrite lookup_insert_ne.
Qed.

Lemma filter_durable_spec (f : PendingRecord → bool) l p :
  (∀ q, f q = true → q.1.1 ≠ Ephemeral) → p ∈ List.filter f l → p.1.1 ≠ Ephemeral.
Proof. intros Hf. rewrite list_elem_of_In, filter_In. intros [_ H]. by apply Hf. Qed.

Lemma prepare_additional_durable run existing tasks additional l p :
  prepare_additional_records run existing tasks additional = Ok l → p ∈ l → p.1.1 ≠ Ephemeral.
Proof.
  unfold prepare_additional_records. case_match.
  - intros [= <-]. apply filter_durable_spec. intros q Hq%negb_true_iff.
    by apply bool_decide_eq_false in Hq.
  - rewrite rbind_ok. intros (acc & _ & H1). apply rbind_ok in H1 as ([teams ms] & _ & H1).
    apply rbind_ok in H1 as (? & _ & [= <-]). apply filter_durable_spec.
    intros q [Hq%negb_true_iff _]%andb_true_iff. by apply bool_decide_eq_false in Hq.
Qed.

(** The successful branch of an admission, spelled out. *)
Lemma admit_inner_cases s clock root run max tasks additional wl :
  (∃ e, admit_inner s clock root run max tasks additional wl = (s, Err e)) ∨
  ∃ existing admitted extra s1 records,
    (match wl with Some (lease, now) => is_ok (validate_lease s lease now) = true | None => True end) ∧
    existing_root_tasks s root = Ok existing ∧
    validate_collaboration_batch existing max tasks = Ok admitted ∧
    prepare_additional_records run (existing_metadata s run) tasks additional = Ok extra ∧
    let pending := ((λ t : TaskRecord, (SyncCritical, "task_created", to_value t)) <$> admitted) ++ extra in
    (ls_next_sequence s + Z.of_nat (length pending) ≤ u64_max)%Z ∧
    push_pending s run (match wl with Some (_, now) => now | None => clock end) pending = (s1, records) ∧
    admit_inner s clock root run max tasks additional wl =
      (match wl with
       | Some (lease, now) =>
           advance_lease s1 lease now
             (match last (run_records s1 run) with
              | Some r => lr_seq r | None => wl_observed_sequence lease end)
       | None => s1
       end, Ok records).
Proof.
  unfold admit_inner.
  destruct (match wl with Some (lease, now) => rmap (λ _, tt) (validate_lease s lease now) | None => Ok tt end)
    as [u|] eqn:Hl; cbn [slift]; [|left; eexists; reflexivity].
  destruct (existing_root_tasks s root) as [existing|] eqn:He; cbn [slift]; [|left; eexists; reflexivity].
  destruct (validate_collaboration_batch existing max tasks) as [admitted|] eqn:Hv;
    cbn [slift]; [|left; eexists; reflexivity].
  destruct (prepare_additional_records _ _ _ _) as [extra|] eqn:Hx; cbn [slift]; [|left; eexists; reflexivity].
  cbv zeta. set (pending := _ ++ extra).
  destruct (ensure _ _); cbn [slift]; [|left; eexists; reflexivity].
  destruct (checked_add _ _) as [seq|] eqn:Hseq; cbn [ok_or slift]; [|left; eexists; reflexivity].
  right. apply checked_add_Some in Hseq as [_ Hseq].
  destruct (push_pending s run _ pending) as [s1 records] eqn:Hp.
  exists existing, admitted, extra, s1, records. fold pending.
  split; [|destruct wl as [[lease now]|]; repeat split; assumption].
  destruct wl as [[lease now]|]; [|exact I]. by destruct (validate_lease s lease now).
Qed.

Lemma admitted_durable admitted run existing tasks additional extra p :
  prepare_additional_records run existing tasks additional = Ok extra →
  p ∈ ((λ t : TaskRecord, (SyncCritical, "task_created", to_value t)) <$> admitted) ++ extra →
  p.1.1 ≠ Ephemeral.
Proof.
  intros Hx [(t & -> & _)%list_elem_of_fmap|Hp]%elem_of_app; [done|].
  by eapply prepare_additional_durable.
Qed.

Lemma advance_lease_evolves s s1 lease now observed :
  ls_leases s1 = ls_leases s → leases_evolve s (advance_lease s1 lease now observed).
Proof.
  intros H. eapply leases_evolve_alter; [|simpl; by rewrite H]. by intros c.
Qed.

Lemma observe_lease_evolves s s1 run observed :
  ls_leases s1 = ls_leases s → leases_evolve s (observe_lease s1 run observed).
Proof. intros H. eapply leases_evolve_alter; [|simpl; by rewrite H]. by intros c. Qed.

Lemma admit_inner_shape s clock root run max tasks additional wl :
  step_shape s (admit_inner s clock root run max tasks additional wl).1.
Proof.
  destruct (admit_inner_cases s clock root run max tasks additional wl)
    as [[e ->]|(existing & admitted & extra & s1 & records & _ & _ & _ & Hx & Hmax & Hp & ->)];
    [by auto with mesh|].
  apply push_pending_shape in Hp as (Hp & Hl & _); [|intros p; by eapply admitted_durable|done].
  destruct wl as [[lease now]|]; simpl; split; try done.
  - by eapply pushes_leases.
  - by apply advance_lease_evolves.
  - by apply leases_evolve_same.
Qed.

Lemma ledger_step_shape s s' : ledger_step s s' → step_shape s s'.
Proof.
  intros Hstep. destruct Hstep.
  - unfold append. case_decide; simpl; [|by auto with mesh]. split; [|by apply leases_evolve_same].
    apply (pushes_push _ (make_record (saturating_add (ls_next_sequence s) 1) run now d ty p)); try done.
    simpl. rewrite saturating_add_small by lia. lia.
  - destruct (compare_and_append_shape to_vec s now run d ty fields p)
      as [->|(r & Hd & Hseq & Hr & ->)]; [by auto with mesh|].
    apply checked_add_Some in Hseq. split; [|by apply leases_evolve_same].
    apply (pushes_push _ r); try done; [by rewrite Hr|by rewrite Hr|lia].
  - unfold acquire_lease. apply slift_cases; [by auto with mesh|]. intros _ _.
    apply slift_cases; [by auto with mesh|]. intros _ _.
    apply slift_cases; [by auto with mesh|]. intros epoch [-> _]%ok_or_ok%checked_add_Some.
    apply set_lease_shape. destruct (ls_leases s !! run); simpl; [left; lia|done].
  - unfold renew_lease. apply slift_cases; [by auto with mesh|].
    intros cur (Hc & _)%validate_lease_ok. apply set_lease_shape. rewrite Hc. simpl. by right; auto.
  - unfold commit_workflow_restore. apply slift_cases; [by auto with mesh|].
    intros cur (Hc & _)%validate_lease_ok.
    case_decide; apply set_lease_shape; rewrite Hc; simpl; by right; auto.
  - unfold release_lease. apply slift_cases; [by auto with mesh|].
    intros cur Hc%ok_or_ok. case_decide; simpl; [by auto with mesh|].
    apply set_lease_shape. rewrite Hc. simpl. by right; auto.
  - unfold append_under_lease. apply slift_cases; [by auto with mesh|].
    intros ? Hd%require_durable_workflow_ok. apply slift_cases; [by auto with mesh|]. intros _ _.
    apply slift_cases; [by auto with mesh|]. intros seq [-> Hmax]%ok_or_ok%checked_add_Some.
    split; [|by apply observe_lease_evolves].
    apply (pushes_push _ (make_record (ls_next_sequence s + 1) (wl_run_id lease) now d ty p));
      try done. simpl. lia.
  - unfold compare_and_append_under_lease. apply slift_cases; [by auto with mesh|]. intros _ _.
    destruct (compare_and_append_shape to_vec s clock (wl_run_id lease) d ty fields p)
      as [H|(r & Hd & Hseq & Hr & ->)].
    + destruct (compare_and_append _ _ _ _ _ _ _ _) as [s1 [r|e]]; simpl in *; subst; [|by auto with mesh].
      split; [by apply pushes_none|by apply observe_lease_evolves].
    + simpl. apply checked_add_Some in Hseq. split; [|by apply observe_lease_evolves].
      apply (pushes_push _ r); try done; [by rewrite Hr|by rewrite Hr|lia].
  - apply admit_inner_shape.
  - apply admit_inner_shape.
Qed.

(** ** Sequence numbers *)

(** The records of a Run are strictly ordered by sequence number, carry their
    Run, are durable and lie below the counter; no number is used twice, in
    any two Runs. *)
Record ledger_inv (s : InMemoryLedgerState) : Prop := {
  li_counter : is_u64 (ls_next_sequence s);
  li_sorted : ∀ run, StronglySorted (λ a b, lr_seq a < lr_seq b)%Z (run_records s run);
  li_records : ∀ run r, r ∈ run_records s run →
    lr_run_id r = run ∧ (0 < lr_seq r ≤ ls_next_sequence s)%Z ∧
    lr_durability r ≠ Ephemeral ∧ lr_schema_version r = LEDGER_SCHEMA_VERSION;
  li_unique : ∀ run run' r r', r ∈ run_records s run → r' ∈ run_records s run' →
    lr_seq r = lr_seq r' → r = r';
}.

Lemma run_records_push s r run :
  run_records (push_record s r) run =
  if decide (run = lr_run_id r) then run_records s run ++ [r] else run_records s run.
Proof.
  unfold run_records at 1. simpl. rewrite lookup_insert. by repeat case_decide; subst.
Qed.

Lemma run_records_eq s s' run : ls_records s = ls_records s' → run_records s run = run_records s' run.
Proof. unfold run_records. by intros ->. Qed.

Lemma StronglySorted_snoc {A} (R : A → A → Prop) l x :
  StronglySorted R l → Forall (λ y, R y x) l → StronglySorted R (l ++ [x]).
Proof.
  induction 1 as [|y l Hs IH Hy]; intros Hx; simpl; [by repeat constructor|].
  inversion Hx; subst. constructor; [by apply IH|]. apply Forall_app. split; [done|by constructor].
Qed.

Lemma ledger_inv_push s r :
  ledger_inv s → lr_schema_version r = LEDGER_SCHEMA_VERSION → lr_durability r ≠ Ephemeral →
  (ls_next_sequence s < lr_seq r ≤ u64_max)%Z → ledger_inv (push_record s r).
Proof.
  intros [Hc Hs Hr Hu] Hv Hd Hseq.
  assert (∀ run r', r' ∈ run_records (push_record s r) run →
            r' ∈ run_records s run ∨ (r' = r ∧ run = lr_run_id r)) as Hin.
  { intros run r'. rewrite run_records_push. case_decide; [|by left].
    rewrite elem_of_app, list_elem_of_singleton. naive_solver. }
  split; simpl.
  - unfold is_u64 in *. lia.
  - intros run. rewrite run_records_push. case_decide; [|done].
    apply StronglySorted_snoc; [done|]. apply Forall_forall. intros y Hy.
    destruct (Hr run y Hy) as (_ & Hb & _). lia.
  - intros run r' [Hr'| [-> ->]]%Hin.
    + destruct (Hr run r' Hr') as (H1 & H2 & H3 & H4). split_and!; [done|lia|lia|done|done].
    + unfold is_u64 in Hc. split_and!; [done|lia|lia|done|done].
  - intros run run' r1 r2 [H1|[-> ->]]%Hin [H2|[-> ->]]%Hin Heq; [by eauto|..|done].
    + destruct (Hr run r1 H1) as (_ & Hb & _). lia.
    + destruct (Hr run' r2 H2) as (_ & Hb & _). lia.
Qed.

Lemma ledger_inv_ext s s' :
  ls_records s' = ls_records s → ls_next_sequence s' = ls_next_sequence s →
  ledger_inv s → ledger_inv s'.
Proof.
  intros Er En [Hc Hs Hr Hu]. pose proof (λ run, run_records_eq s' s run Er) as E. split.
  - by rewrite En.
  - intros run. by rewrite E.
  - intros run r. rewrite E, En. apply Hr.
  - intros run run' r r'. rewrite !E. apply Hu.
Qed.

Lemma pushes_inv s s' : pushes s s' → ledger_inv s → ledger_inv s'.
Proof.
  induction 1 as [s s' H1 H2|s s1 s' r H1 H2 H3 H4 H5 Hp IH]; intros Hi.
  - by eapply ledger_inv_ext.
  - apply IH. eapply (ledger_inv_ext (push_record s r)); [done|done|]. by apply ledger_inv_push.
Qed.

Lemma pushes_prefix s s' run : pushes s s' → run_records s run `prefix_of` run_records s' run.
Proof.
  induction 1 as [s s' H1 H2|s s1 s' r H1 H2 H3 H4 H5 Hp IH].
  - by rewrite (run_records_eq s' s run).
  - etrans; [|exact IH]. rewrite (run_records_eq s1 (push_record s r)) by done.
    rewrite run_records_push. case_decide; [|done]. by eexists.
Qed.

Lemma pushes_counter s s' : pushes s s' → (ls_next_sequence s ≤ ls_next_sequence s')%Z.
Proof. induction 1; lia. Qed.

(** Every operation of the ledger, the deletion of a Run included. *)
Inductive ledger_event : InMemoryLedgerState → InMemoryLedgerState → Prop :=
  | ev_step s s' : ledger_step s s' → ledger_event s s'
  | ev_delete s run : ledger_event s (delete_run_exact s run).1.

Lemma run_records_delete s run run' :
  run_records (delete_run_exact s run).1 run' =
  if decide (run' = run) then [] else run_records s run'.
Proof.
  unfold run_records at 1. simpl. rewrite lookup_delete. by repeat case_decide; subst.
Qed.

Lemma ledger_inv_delete s run : ledger_inv s → ledger_inv (delete_run_exact s run).1.
Proof.
  intros [Hc Hs Hr Hu]. split; [done|..].
  - intros run'. rewrite run_records_delete. case_decide; [constructor|done].
  - intros run' r. rewrite run_records_delete. case_decide; [by intros ?%elem_of_nil|by apply Hr].
  - intros run1 run2 r1 r2. rewrite !run_records_delete.
    repeat case_decide; try (by intros ?%elem_of_nil); [by intros _ ?%elem_of_nil|by apply Hu].
Qed.

Lemma ledger_inv_default : ledger_inv ledger_default.
Proof.
  split; [split; unfold u64_max; simpl; lia|..]; unfold run_records; simpl; intros run;
    rewrite lookup_empty; simpl; [constructor|set_solver..].
Qed.

Lemma ledger_inv_event s s' : ledger_event s s' → ledger_inv s → ledger_inv s'.
Proof.
  intros [? ? [Hp _]%ledger_step_shape|? run] Hi; [by eapply pushes_inv|].
  by apply ledger_inv_delete.
Qed.

(** C30: on every history of ledger operations, deletions of Runs included,
    sequence numbers stay strictly increasing within a Run and unique across
    all Runs, and every stored record is durable, carries its own Run and is
    numbered at most the counter.  A plain append saturates at [u64::MAX], so a
    history uses it only below that value. *)
Theorem ledger_sequence_invariant s :
  rtc ledger_event ledger_default s → ledger_inv s.
Proof.
  apply (rtc_ind_r ledger_inv ledger_default); [apply ledger_inv_default|].
  intros s1 s2 _. apply ledger_inv_event.
Qed.

Definition sample_ledger : InMemoryLedgerState :=
  (append ledger_default 10 "run" SyncCritical "note" VNull).1.

Lemma sample_ledger_reachable : rtc ledger_step ledger_default sample_ledger.
Proof. apply rtc_once, st_append. reflexivity. Defined.

Lemma ledger_sequence_invariant_witness :
  ledger_inv (append (delete_run_exact sample_ledger "run").1 11 "run" SyncCritical "note" VNull).1.
Proof.
  apply ledger_sequence_invariant. eapply rtc_l; [apply ev_step, (st_append _ 10 "run" SyncCritical "note" VNull); reflexivity|].
  eapply rtc_l; [apply (ev_delete _ "run")|]. apply rtc_once, ev_step, st_append. reflexivity.
Defined.

(** the ledger is append-only: whatever operations other than a deletion
    follow, the records of a Run at any moment remain a prefix of its records
    later, and the counter never goes back. *)
Theorem ledger_append_only s s' run :
  rtc ledger_step s s' →
  run_records s run `prefix_of` run_records s' run ∧
  (ls_next_sequence s ≤ ls_next_sequence s')%Z.
Proof.
  induction 1 as [s|s1 s2 s3 Hstep _ [IH1 IH2]]; [done|].
  apply ledger_step_shape in Hstep as [Hp _]. split.
  - etrans; [by eapply pushes_prefix|done].
  - apply pushes_counter in Hp. lia.
Qed.

Lemma ledger_append_only_witness :
  run_records ledger_default "run" `prefix_of` run_records sample_ledger "run" ∧
  (ls_next_sequence ledger_default ≤ ls_next_sequence sample_ledger)%Z.
Proof. apply (ledger_append_only ledger_default). exact sample_ledger_reachable. Defined.

(** ** Leases as fencing tokens *)

(** A lease handle that can never be used again: the Run has moved to a later
    epoch, or the handle's epoch was given up. *)
Definition dead (s : InMemoryLedgerState) (lease : WorkflowMutationLease) : Prop :=
  ∃ cur, ls_leases s !! wl_run_id lease = Some cur ∧
    ((wl_epoch lease < il_epoch cur)%Z ∨
     (il_epoch cur = wl_epoch lease ∧ il_owner_id cur ≠ Some (wl_owner_id lease))).

Lemma dead_step s s' lease : leases_evolve s s' → dead s lease → dead s' lease.
Proof.
  intros Hev (cur & Hcur & Hd). specialize (Hev (wl_run_id lease)). rewrite Hcur in Hev.
  destruct (ls_leases s' !! wl_run_id lease) as [cur'|] eqn:E; [|done].
  exists cur'. split; [done|]. simpl in Hev.
  destruct Hev as [?|[He [Ho|Ho]]], Hd as [?|[??]]; try (left; lia).
  - right. split; congruence.
  - right. split; congruence.
Qed.

Lemma dead_steps s s' lease : rtc ledger_step s s' → dead s lease → dead s' lease.
Proof.
  induction 1 as [|s1 s2 s3 [_ Hev]%ledger_step_shape _ IH]; [done|]. intros Hd.
  by apply IH, (dead_step s1).
Qed.

Lemma dead_invalid s lease now : dead s lease → ∃ e, validate_lease s lease now = Err e.
Proof.
  intros (cur & Hcur & Hd). destruct (validate_lease s lease now) as [c|e] eqn:E; [|by exists e].
  apply validate_lease_ok in E as (Hc & _ & Ho & He & _). simplify_eq.
  destruct Hd as [?|[??]]; [lia|done].
Qed.

(** Every operation that presents a lease handle. *)
Definition all_calls_fail (to_vec : Value → string) (s : InMemoryLedgerState)
    (lease : WorkflowMutationLease) : Prop :=
  (∀ now, ∃ e, renew_lease s lease now = (s, Err e)) ∧
  (∀ expected now, ∃ e, commit_workflow_restore s lease expected now = (s, Err e)) ∧
  (∃ e, release_lease s lease = (s, Err e)) ∧
  (∀ now d ty p, ∃ e, append_under_lease s lease now d ty p = (s, Err e)) ∧
  (∀ now clock d ty fields p, ∃ e,
      compare_and_append_under_lease to_vec s lease now clock d ty fields p = (s, Err e)) ∧
  (∀ now root max tasks additional, ∃ e,
      admit_tasks_and_append_under_lease s lease now root max tasks additional = (s, Err e)).

Lemma dead_calls_fail to_vec s lease : dead s lease → all_calls_fail to_vec s lease.
Proof.
  intros Hd. pose proof (λ now, dead_invalid s lease now Hd) as Hv.
  split_and!.
  - intros now. destruct (Hv now) as [e He]. exists e. unfold renew_lease. by rewrite He.
  - intros expected now. destruct (Hv now) as [e He]. exists e.
    unfold commit_workflow_restore. by rewrite He.
  - destruct Hd as (cur & Hcur & Hd). eexists. unfold release_lease. rewrite Hcur. simpl.
    rewrite decide_True; [done|]. destruct Hd as [?|[??]]; [right; lia|by left].
  - intros now d ty p. unfold append_under_lease. destruct (require_durable_workflow_record d); simpl.
    + destruct (Hv now) as [e He]. exists e. by rewrite He.
    + by eexists.
  - intros now clock d ty fields p. destruct (Hv now) as [e He]. exists e.
    unfold compare_and_append_under_lease. by rewrite He.
  - intros now root max tasks additional. destruct (Hv now) as [e He]. exists e.
    unfold admit_tasks_and_append_under_lease, admit_inner. by rewrite He.
Qed.

Lemma acquire_lease_ok s run owner now s' lease :
  acquire_lease s run owner now = (s', Ok lease) →
  wl_run_id lease = run ∧ wl_owner_id lease = owner ∧
  wl_epoch lease = (match ls_leases s !! run with Some e => il_epoch e | None => 0 end + 1)%Z ∧
  wl_expires_at_unix_ms lease = lease_expiry now ∧
  ∃ cur, ls_leases s' !! run = Some cur ∧ il_owner_id cur = Some owner ∧
    il_epoch cur = wl_epoch lease ∧ il_heartbeat_at_unix_ms cur = now ∧
    il_expires_at_unix_ms cur = lease_expiry now.
Proof.
  unfold acquire_lease. rewrite slift_ok. intros (? & _ & H).
  apply slift_ok in H as (? & _ & H). apply slift_ok in H as (epoch & Hep%ok_or_ok & [= <- <-]).
  apply checked_add_Some in Hep as [-> _]. simpl. split_and!; [done..|].
  eexists. rewrite lookup_insert_eq. by split_and!.
Qed.

(** C31: fencing: once the lease of a Run has been acquired again, by any
    owner, no handle issued before can ever act on the Run: in every later
    state each operation that presents it fails and changes nothing. *)
Theorem lease_fencing to_vec s old cur owner now s' lease s'' :
  ls_leases s !! wl_run_id old = Some cur → (wl_epoch old ≤ il_epoch cur)%Z →
  acquire_lease s (wl_run_id old) owner now = (s', Ok lease) →
  rtc ledger_step s' s'' →
  all_calls_fail to_vec s'' old.
Proof.
  intros Hcur Hep Hacq Hsteps. apply dead_calls_fail, (dead_steps s' s''); [done|].
  apply acquire_lease_ok in Hacq as (_ & _ & He & _ & c & Hc & _ & Hce & _).
  exists c. split; [done|]. left. rewrite Hcur in He. lia.
Qed.

(** Owner [a] holds the lease of [run] from time 1000; [b] takes it over once
    it has expired. *)
Definition sample_leased := acquire_lease sample_ledger "run" "a" 1000.
Definition sample_lease_a : WorkflowMutationLease :=
  {| wl_run_id := "run"; wl_owner_id := "a"; wl_epoch := 1;
     wl_expires_at_unix_ms := 91000; wl_observed_sequence := 1 |}.
Definition sample_taken := acquire_lease sample_leased.1 "run" "b" 91000.

Lemma lease_fencing_witness :
  sample_leased.2 = Ok sample_lease_a ∧
  ∃ e, append_under_lease sample_taken.1 sample_lease_a 91001 SyncCritical "note" VNull =
       (sample_taken.1, Err e).
Proof.
  split; [vm_compute; reflexivity|].
  refine (proj1 (proj2 (proj2 (proj2
    (lease_fencing (λ _, "") sample_leased.1 sample_lease_a _ "b" 91000 sample_taken.1
       _ sample_taken.1 _ _ _ _)))) 91001%Z SyncCritical "note" VNull).
  - vm_compute. reflexivity.
  - vm_compute. discriminate.
  - vm_compute. reflexivity.
  - apply rtc_refl.
Defined.

(** mutual exclusion: while some handle is valid for a Run at a time, every
    other valid handle has the same owner and epoch, and an acquisition by any
    other owner is refused as contended without changing the ledger. *)
Theorem lease_exclusion s lease now cur :
  validate_lease s lease now = Ok cur →
  (∀ other cur', wl_run_id other = wl_run_id lease → validate_lease s other now = Ok cur' →
     wl_owner_id other = wl_owner_id lease ∧ wl_epoch other = wl_epoch lease) ∧
  (∀ owner, owner ≠ wl_owner_id lease → owner ≠ "" →
     acquire_lease s (wl_run_id lease) owner now = (s, Err (LeaseContended (wl_run_id lease)))).
Proof.
  intros (Hc & Hh & Ho & He & Hx)%validate_lease_ok. split.
  - intros other cur' Hrun (Hc' & _ & Ho' & He' & _)%validate_lease_ok.
    rewrite Hrun in Hc'. simplify_eq. split; congruence.
  - intros owner Hne Hemp. unfold acquire_lease, require_owner. rewrite decide_False by done. simpl.
    rewrite Hc. rewrite decide_True; [done|]. split; [|done]. unfold other_owner. rewrite Ho.
    apply bool_decide_eq_true. congruence.
Qed.

Lemma lease_exclusion_witness :
  acquire_lease sample_leased.1 "run" "b" 2000 = (sample_leased.1, Err (LeaseContended "run")).
Proof.
  refine (proj2 (lease_exclusion sample_leased.1 sample_lease_a 2000 _ _) "b" _ _).
  - vm_compute. reflexivity.
  - discriminate.
  - discriminate.
Defined.

(** a lease that has expired, or was released, does not block the Run: any
    owner whose clock has not gone back acquires it, with the next epoch and a
    full lease period, and the new handle is valid at once. *)
Theorem lease_takeover s run owner now :
  owner ≠ "" → is_i64 now → (now < i64_max)%Z →
  (match ls_leases s !! run with
   | Some c => (il_owner_id c = None ∨ il_expires_at_unix_ms c ≤ now) ∧
               il_heartbeat_at_unix_ms c ≤ now ∧ il_epoch c < u64_max
   | None => True
   end)%Z →
  ∃ s' lease, acquire_lease s run owner now = (s', Ok lease) ∧
    wl_epoch lease = (match ls_leases s !! run with Some c => il_epoch c | None => 0 end + 1)%Z ∧
    is_ok (validate_lease s' lease now) = true.
Proof.
  intros Hne Hnow Hmax Hfree.
  destruct (acquire_lease s run owner now) as [s' r] eqn:E.
  assert (∃ lease, r = Ok lease) as [lease ->].
  { revert E. unfold acquire_lease, require_owner. rewrite decide_False by done. simpl.
    destruct (ls_leases s !! run) as [c|].
    - destruct Hfree as (Hx & Hh & Hep). rewrite decide_False.
      + unfold reject_clock_rollback. rewrite decide_False by lia. simpl.
        destruct (checked_add _ _) eqn:Ha; simpl; [|apply checked_add_None in Ha; lia].
        intros [= _ <-]. by eexists.
      + intros [Hoth Hlt]. unfold other_owner in Hoth. destruct Hx as [Hx|Hx]; [by rewrite Hx in Hoth|lia].
    - simpl. intros [= _ <-]. by eexists. }
  exists s', lease. split; [done|].
  apply acquire_lease_ok in E as (Hr & Ho & He & _ & cur & Hc & Hco & Hce & Hch & Hcx).
  split; [done|]. enough (validate_lease s' lease now = Ok cur) as -> by done.
  apply validate_lease_ok. rewrite Hr, Ho. split_and!; [done|lia|done|done|].
  rewrite Hcx. unfold lease_expiry, i64_saturating_add, i64_saturating, is_i64,
    WORKFLOW_MUTATION_LEASE_MILLIS, DEFAULT_LEASE_SECONDS, i64_max, i64_min in *. lia.
Qed.

Lemma lease_takeover_witness :
  ∃ s' lease, acquire_lease sample_leased.1 "run" "b" 91000 = (s', Ok lease) ∧
    wl_epoch lease = 2%Z ∧ is_ok (validate_lease s' lease 91000) = true.
Proof.
  apply (lease_takeover sample_leased.1 "run" "b" 91000).
  - discriminate.
  - vm_compute. split; discriminate.
  - reflexivity.
  - vm_compute. split; [right; discriminate|]. split; [discriminate|reflexivity].
Defined.
