(* ===== verification/LedgerAdmission.v ===== *)
(** * Logical appends and task admission

    The two all-or-nothing operations of the ledger: [compare_and_append],
    which binds a logical identity to one payload, and the admission of
    collaboration tasks against the quota of a Run tree. *)
From S2P Require Import Prelude Json Types RuntimeLedger LedgerFacts.

(** ** Logical appends *)

Section logical_facts.
Context (to_vec : Value → string).

(** The records of a list that are bound to an identity. *)
Definition bound_records (ty : string) (fields : list string) (identity : string)
    (l : list LedgerRecord) : list LedgerRecord :=
  List.filter (λ r, bool_decide (lr_record_type r = ty) &&
    match canonical_identity to_vec (lr_payload r) fields with
    | Ok i => bool_decide (i = identity)
    | Err _ => false
    end) l.

(** The loop over the records of a Run computes them, when it succeeds. *)
Lemma matching_records_acc ty fields identity l acc ms :
  fold_result (λ acc r,
    if decide (lr_record_type r ≠ ty) then Ok acc
    else
      let? i := canonical_identity to_vec (lr_payload r) fields in
      Ok (if decide (i = identity) then acc ++ [r] else acc)) acc l = Ok ms →
  ms = acc ++ bound_records ty fields identity l.
Proof.
  revert acc. induction l as [|r l IH]; intros acc; simpl.
  - intros [= <-]. by rewrite app_nil_r.
  - case_decide as Hty; simpl.
    + rewrite bool_decide_eq_false_2 by done. simpl. apply IH.
    + rewrite bool_decide_eq_true_2 by done. simpl.
      destruct (canonical_identity to_vec (lr_payload r) fields) as [i|]; simpl; [|done].
      intros H%IH. case_decide.
      * rewrite bool_decide_eq_true_2 by done. simpl. by rewrite H, <-(assoc_L (++)).
      * by rewrite bool_decide_eq_false_2.
Qed.

Lemma matching_records_ok ty fields identity l ms :
  matching_records to_vec ty fields identity l = Ok ms → ms = bound_records ty fields identity l.
Proof. apply matching_records_acc. Qed.

(** The loop over one more record, which is bound to the identity itself. *)
Lemma matching_records_snoc ty fields identity l r ms :
  matching_records to_vec ty fields identity l = Ok ms →
  lr_record_type r = ty → canonical_identity to_vec (lr_payload r) fields = Ok identity →
  matching_records to_vec ty fields identity (l ++ [r]) = Ok (ms ++ [r]).
Proof.
  unfold matching_records. intros Hl Hty Hid. rewrite fold_result_app, Hl. simpl.
  rewrite decide_False by naive_solver. rewrite Hid. simpl. by rewrite decide_True.
Qed.

Lemma compare_and_append_ok s now run d ty fields p s' r :
  compare_and_append to_vec s now run d ty fields p = (s', Ok r) →
  ∃ identity ms, d ≠ Ephemeral ∧ canonical_identity to_vec p fields = Ok identity ∧
    matching_records to_vec ty fields identity (run_records s run) = Ok ms ∧
    ((ms = [r] ∧ s' = s ∧ value_eqb (lr_payload r) p = true) ∨
     (ms = [] ∧ ∃ seq, checked_add (ls_next_sequence s) 1 = Some seq ∧
        r = make_record seq run now d ty p ∧ s' = push_record s r)).
Proof.
  unfold compare_and_append. rewrite slift_ok. intros (u & Hd%require_durable_ok & H).
  apply slift_ok in H as (identity & Hid & H). apply slift_ok in H as (ms & Hms & H).
  exists identity, ms. split_and!; [done..|].
  destruct ms as [|r1 [|r2 ms]]; [| |done].
  - right. split; [done|]. apply slift_ok in H as (seq & Hseq%ok_or_ok & [= <- <-]). by exists seq.
  - left. unfold require_same_payload in H. destruct (value_eqb (lr_payload r1) p) eqn:E; [|done].
    by injection H as <- <-.
Qed.
End logical_facts.

(** a logical append that succeeds leaves exactly one record bound to the
    identity in the Run, the one it returns, and that record holds the given
    payload (up to the order of object entries). *)
Theorem logical_append_binds to_vec s now run d ty fields p s' r :
  value_wf p →
  compare_and_append to_vec s now run d ty fields p = (s', Ok r) →
  ∃ identity, canonical_identity to_vec p fields = Ok identity ∧
    bound_records to_vec ty fields identity (run_records s' run) = [r] ∧
    value_eqb (lr_payload r) p = true.
Proof.
  intros Hwf (identity & ms & _ & Hid & Hms & [(-> & -> & Heq)|(-> & seq & _ & -> & ->)])
    %compare_and_append_ok; exists identity; split; try done.
  - apply matching_records_ok in Hms. by rewrite Heq.
  - rewrite run_records_push, decide_True by done.
    apply (matching_records_snoc to_vec _ _ _ _ (make_record seq run now d ty p)) in Hms; [|done..].
    apply matching_records_ok in Hms.
    rewrite <-Hms. simpl. split; [done|]. by apply value_eqb_refl.
Qed.

Definition sample_payload : Value := VObject [("id", VString "x"); ("v", VBool true)].
Definition sample_to_vec (v : Value) : string :=
  match v with VObject [("id", VString s)] => s | _ => "" end.

Lemma logical_append_binds_witness :
  ∃ identity, canonical_identity sample_to_vec sample_payload ["id"] = Ok identity ∧
    bound_records sample_to_vec "note" ["id"] identity
      (run_records (compare_and_append sample_to_vec ledger_default 5 "run" SyncCritical "note"
                      ["id"] sample_payload).1 "run") =
    [make_record 1 "run" 5 SyncCritical "note" sample_payload] ∧
    value_eqb sample_payload sample_payload = true.
Proof.
  apply (logical_append_binds sample_to_vec ledger_default 5 "run" SyncCritical "note" ["id"]
           sample_payload _ (make_record 1 "run" 5 SyncCritical "note" sample_payload)).
  - apply value_wf_object. split; [serde_keys|by repeat constructor].
  - vm_compute. reflexivity.
Defined.

(** a logical append is idempotent: repeating it, at any later time and
    with any durable class, returns the record of the first call and changes
    nothing; the same identity with a different payload is refused as already
    bound, and changes nothing either. *)
Theorem logical_append_idempotent to_vec s now run d ty fields p s' r :
  value_wf p →
  compare_and_append to_vec s now run d ty fields p = (s', Ok r) →
  (∀ now' d', d' ≠ Ephemeral →
     compare_and_append to_vec s' now' run d' ty fields p = (s', Ok r)) ∧
  (∀ now' d' p', d' ≠ Ephemeral →
     canonical_identity to_vec p' fields = canonical_identity to_vec p fields →
     value_eqb (lr_payload r) p' = false →
     compare_and_append to_vec s' now' run d' ty fields p' =
     (s', Err (IdentityBoundDifferent ty))).
Proof.
  intros Hwf (identity & ms & _ & Hid & Hms & Hcase)%compare_and_append_ok.
  assert (matching_records to_vec ty fields identity (run_records s' run) = Ok [r] ∧
          value_eqb (lr_payload r) p = true) as [Hms' Heq].
  { destruct Hcase as [(-> & -> & Heq)|(-> & seq & _ & -> & ->)]; [done|].
    rewrite run_records_push, decide_True by done. split; [|by apply value_eqb_refl].
    by apply (matching_records_snoc to_vec _ _ _ _ (make_record seq run now d ty p)) in Hms. }
  split.
  - intros now' d' Hd'. unfold compare_and_append, require_durable.
    rewrite decide_False by done. simpl. rewrite Hid. simpl. rewrite Hms'. simpl.
    unfold require_same_payload. by rewrite Heq.
  - intros now' d' p' Hd' Hid' Hne. unfold compare_and_append, require_durable.
    rewrite decide_False by done. simpl. rewrite Hid', Hid. simpl. rewrite Hms'. simpl.
    unfold require_same_payload. by rewrite Hne.
Qed.

Lemma logical_append_idempotent_witness :
  let s' := (compare_and_append sample_to_vec ledger_default 5 "run" SyncCritical "note"
               ["id"] sample_payload).1 in
  compare_and_append sample_to_vec s' 9 "run" AsyncDurable "note" ["id"] sample_payload =
  (s', Ok (make_record 1 "run" 5 SyncCritical "note" sample_payload)).
Proof.
  refine (proj1 (logical_append_idempotent sample_to_vec ledger_default 5 "run" SyncCritical "note"
           ["id"] sample_payload _ _ _ _) 9%Z AsyncDurable _).
  - apply value_wf_object. split; [serde_keys|by repeat constructor].
  - vm_compute. reflexivity.
  - discriminate.
Defined.

(** ** Task admission *)

(** admission is all or nothing: a rejected batch, with or without a
    Workflow lease, leaves the whole ledger untouched. *)
Theorem admission_atomic s clock root run max tasks additional wl :
  is_ok (admit_inner s clock root run max tasks additional wl).2 = false →
  (admit_inner s clock root run max tasks additional wl).1 = s.
Proof.
  destruct (admit_inner_cases s clock root run max tasks additional wl)
    as [[e ->]|(? & ? & ? & ? & ? & _ & _ & _ & _ & _ & _ & ->)]; done.
Qed.

Definition sample_admitted (id : string) : TaskRecord := {|
  tr_run_id := "run"; tr_task_id := id; tr_revision := 0; tr_task_key := None;
  tr_team_id := None; tr_workflow_id := None; tr_node_id := None; tr_role := None;
  tr_depends_on := []; tr_content := None; tr_expected_write_scope := [];
  tr_owner_agent_id := None; tr_state := Queued; tr_outcome_ref := None;
  tr_failure_class := None |}.

Lemma admission_atomic_witness :
  (admit_tasks_and_append sample_ledger 7 "run" "run" 1
     [sample_admitted "t1"; sample_admitted "t2"] []).1 = sample_ledger.
Proof. apply admission_atomic. vm_compute. reflexivity. Defined.

(** The tasks a batch admits: new identities only, each once. *)
Lemma admit_fold existing tasks ids acc ids' acc' :
  fold_result (admit_task existing) (ids, acc) tasks = Ok (ids', acc') →
  ids = list_to_set (tr_task_id <$> acc) → NoDup (tr_task_id <$> acc) →
  (∀ t, t ∈ acc → existing !! tr_task_id t = None) →
  NoDup (tr_task_id <$> acc') ∧ (∀ t, t ∈ acc' → existing !! tr_task_id t = None) ∧
  (∀ t, t ∈ acc' → t ∈ acc ∨ t ∈ tasks) ∧
  (∀ t, t ∈ acc → t ∈ acc') ∧
  (∀ t, t ∈ tasks →
     (∃ t', existing !! tr_task_id t = Some t' ∧ task_record_eqb t' t = true) ∨ t ∈ acc').
Proof.
  revert ids acc. induction tasks as [|t tasks IH]; intros ids acc; simpl.
  - intros [= <- <-] Hids Hnd Hn. split_and!; [done|done|by left|done|set_solver].
  - unfold admit_task at 1. destruct (existing !! tr_task_id t) as [t'|] eqn:Ht; simpl.
    + destruct (task_record_eqb t' t) eqn:Heq; simpl; [|done]. intros H Hids Hnd Hn.
      apply IH in H as (H1 & H2 & H3 & H4 & H5); [|done..]. split_and!; [done|done| |done|].
      * intros x Hx. apply H3 in Hx as [?|?]; set_solver.
      * intros x [->|Hx]%elem_of_cons; [by left; exists t'|by apply H5].
    + case_decide as Hin; simpl; [done|]. intros H Hids Hnd Hn.
      apply IH in H as (H1 & H2 & H3 & H4 & H5).
      * split_and!; [done|done| | |].
        -- intros x Hx. apply H3 in Hx as [?|?]; set_solver.
        -- set_solver.
        -- intros x [->|Hx]%elem_of_cons; [right; set_solver|by apply H5].
      * rewrite fmap_app, list_to_set_app_L, Hids. set_solver.
      * rewrite fmap_app. apply NoDup_app. split_and!; [done| |apply NoDup_singleton].
        intros x Hx Hx'%list_elem_of_singleton. subst x. apply Hin. rewrite Hids. by apply elem_of_list_to_set.
      * intros x [Hx|Hx%list_elem_of_singleton]%elem_of_app; [by apply Hn|by subst].
Qed.

Lemma validate_batch_ok existing max tasks admitted :
  validate_collaboration_batch existing max tasks = Ok admitted →
  NoDup (tr_task_id <$> admitted) ∧ (∀ t, t ∈ admitted → existing !! tr_task_id t = None) ∧
  (∀ t, t ∈ admitted → t ∈ tasks) ∧
  (∀ t, t ∈ tasks →
     (∃ t', existing !! tr_task_id t = Some t' ∧ task_record_eqb t' t = true) ∨ t ∈ admitted) ∧
  (saturating_add (Z.of_nat (size existing)) (Z.of_nat (length admitted)) ≤ max)%Z.
Proof.
  unfold validate_collaboration_batch. rewrite rbind_ok. intros ([ids acc] & Hf & H).
  case_decide; [done|]. injection H as <-.
  apply admit_fold in Hf as (H1 & H2 & H3 & _ & H5); [|set_solver|constructor|set_solver].
  split_and!; [done|done| |done|lia]. intros t Ht. apply H3 in Ht as [?|?]; set_solver.
Qed.

Lemma elem_of_root_task_records s root r :
  r ∈ root_task_records s root ↔
  lr_record_type r = "task_created" ∧
  ∃ run, in_tree root run = true ∧ r ∈ run_records s run.
Proof.
  unfold root_task_records. rewrite list_elem_of_In, filter_In, bool_decide_eq_true, in_concat.
  split.
  - intros [(l & Hl & Hr) Hty]. split; [done|]. apply list_elem_of_In, list_elem_of_fmap in Hl as ([run l'] & -> & Hl).
    apply list_elem_of_In, filter_In in Hl as [Hl Ht]. exists run. split; [done|].
    apply list_elem_of_In, elem_of_map_to_list in Hl. unfold run_records. rewrite Hl.
    by apply list_elem_of_In.
  - intros [Hty (run & Ht & Hr)]. split; [|done]. unfold run_records in Hr.
    destruct (ls_records s !! run) as [l|] eqn:E; simpl in Hr; [|set_solver].
    exists l. split; [|by apply list_elem_of_In].
    apply list_elem_of_In, list_elem_of_fmap. exists (run, l). split; [done|].
    apply list_elem_of_In, filter_In. split; [|done].
    by apply list_elem_of_In, elem_of_map_to_list.
Qed.

(** The map of existing tasks holds, for each identity, one of the decoded
    records, and it exists exactly when every record decodes. *)
Definition decodes (l : list LedgerRecord) (t : TaskRecord) : Prop :=
  ∃ r, r ∈ l ∧ from_value (lr_payload r) = Some t.

Lemma existing_fold l acc :
  (∀ r, r ∈ l → is_Some (from_value (A := TaskRecord) (lr_payload r))) →
  ∃ m : gmap TaskId TaskRecord,
    fold_result (λ (acc : gmap TaskId TaskRecord) r,
      let? t := ok_or (from_value (lr_payload r)) DecodeTaskCreated in
      Ok (<[tr_task_id t := t]> acc)) acc l = Ok m ∧
    (∀ id t, m !! id = Some t → acc !! id = Some t ∨ (decodes l t ∧ tr_task_id t = id)) ∧
    (∀ t, decodes l t → is_Some (m !! tr_task_id t)) ∧
    (∀ id, is_Some (acc !! id) → is_Some (m !! id)).
Proof.
  revert acc. induction l as [|r l IH]; intros acc Hdec; cbn [fold_result].
  - exists acc. split_and!; [done|by left|by intros t (r & ? & _); set_solver|done].
  - destruct (Hdec r) as [t Ht]; [set_solver|]. rewrite Ht. cbn [ok_or rbind].
    destruct (IH (<[tr_task_id t := t]> acc)) as (m & Hm & H1 & H2 & H3); [set_solver|].
    exists m. split_and!; [done| | |].
    + intros id t' Hid. apply H1 in Hid as [Hid|[(r' & Hr' & Hd) Hid]].
      * apply lookup_insert_Some in Hid as [[<- <-]|[_ Hid]]; [|by left].
        right. split; [|done]. exists r. split; [set_solver|done].
      * right. split; [|done]. exists r'. split; [set_solver|done].
    + intros t' (r' & [->|Hr']%elem_of_cons & Hd); [|by apply H2; exists r'].
      rewrite Ht in Hd. simplify_eq. apply H3. rewrite lookup_insert_eq. by eexists.
    + intros id Hid. apply H3. rewrite lookup_insert. case_decide; [by eexists|done].
Qed.

Lemma existing_root_tasks_all s root m :
  existing_root_tasks s root = Ok m →
  ∀ r, r ∈ root_task_records s root → is_Some (from_value (A := TaskRecord) (lr_payload r)).
Proof.
  unfold existing_root_tasks. generalize (∅ : gmap TaskId TaskRecord).
  induction (root_task_records s root) as [|r l IH]; intros acc; cbn [fold_result]; [set_solver|].
  rewrite rbind_ok. intros (m' & Hr & Hl). apply rbind_ok in Hr as (t & Ht%ok_or_ok & _).
  intros r' [->|Hr']%elem_of_cons; [by eexists|by eapply IH].
Qed.

(** The tasks a tree of Runs has, however the records are ordered. *)
Lemma existing_root_tasks_spec s root :
  (∀ r, r ∈ root_task_records s root → is_Some (from_value (A := TaskRecord) (lr_payload r))) →
  ∃ m, existing_root_tasks s root = Ok m ∧
    (∀ id t, m !! id = Some t → decodes (root_task_records s root) t ∧ tr_task_id t = id) ∧
    (∀ t, decodes (root_task_records s root) t → is_Some (m !! tr_task_id t)).
Proof.
  intros Hdec. destruct (existing_fold (root_task_records s root) ∅ Hdec) as (m & Hm & H1 & H2 & _).
  exists m. split_and!; [done| |done]. intros id t Hid.
  apply H1 in Hid as [Hid|?]; [by rewrite lookup_empty in Hid|done].
Qed.

Lemma prepare_additional_incl run existing tasks additional l p :
  prepare_additional_records run existing tasks additional = Ok l → p ∈ l → p ∈ additional.
Proof.
  assert (∀ f : PendingRecord → bool, p ∈ List.filter f additional → p ∈ additional) as Hf.
  { intros f Hp%list_elem_of_In. apply filter_In in Hp as [Hp _]. by apply list_elem_of_In. }
  unfold prepare_additional_records. case_match.
  - intros [= <-]. apply Hf.
  - rewrite rbind_ok. intros (acc & _ & H1). apply rbind_ok in H1 as ([teams ms] & _ & H1).
    apply rbind_ok in H1 as (? & _ & [= <-]). apply Hf.
Qed.

(** What a successful admission adds: one [task_created] record per admitted
    task, and the caller's own records, all under [run]. *)
Lemma admit_inner_records s clock root run max tasks additional wl s' records :
  admit_inner s clock root run max tasks additional wl = (s', Ok records) →
  (∀ p, p ∈ additional → p.1.2 ≠ "task_created") →
  in_tree root run = true →
  ∃ existing admitted, existing_root_tasks s root = Ok existing ∧
    validate_collaboration_batch existing max tasks = Ok admitted ∧
    (∀ r, r ∈ root_task_records s' root ↔
      r ∈ root_task_records s root ∨
      (r ∈ records ∧ ∃ t, t ∈ admitted ∧ lr_record_type r = "task_created" ∧ lr_payload r = to_value t)) ∧
    (∀ t, t ∈ admitted → ∃ r, r ∈ records ∧ lr_record_type r = "task_created" ∧ lr_payload r = to_value t).
Proof.
  intros Had Hadd Htree.
  destruct (admit_inner_cases s clock root run max tasks additional wl)
    as [[e He]|(existing & admitted & extra & s1 & records' & _ & He & Hv & Hx & Hmax & Hp & Heq)].
  { rewrite He in Had. done. }
  rewrite Heq in Had. injection Had as Hs' <-. exists existing, admitted.
  apply push_pending_shape in Hp as (_ & _ & Hrun & Hother & Hf);
    [|intros p; by eapply admitted_durable|done].
  assert (∀ run', run_records s' run' = run_records s1 run') as Es'.
  { intros run'. subst s'. by destruct wl as [[]|]. }
  assert (∀ r, r ∈ records' → lr_record_type r = "task_created" →
            ∃ t, t ∈ admitted ∧ lr_payload r = to_value t) as Hnew.
  { intros r Hr Hty. apply list_elem_of_lookup in Hr as [i Hi].
    eapply Forall2_lookup_r in Hf as (p & Hpi & _ & Hpt & Hpp & _); [|done].
    apply list_elem_of_lookup_2, elem_of_app in Hpi as [(t & -> & Ht)%list_elem_of_fmap|Hpi].
    - by exists t.
    - exfalso. pose proof (prepare_additional_incl _ _ _ _ _ _ Hx Hpi) as Hpa.
      apply (Hadd p Hpa). congruence. }
  split_and!; [done..| |].
  2:{ intros t Ht. apply list_elem_of_lookup in Ht as [i Hi].
      eapply Forall2_lookup_l in Hf as (r & Hr & _ & Hrt & Hrp & _).
      2:{ apply lookup_app_l_Some. rewrite list_lookup_fmap, Hi. reflexivity. }
      exists r. split; [by eapply list_elem_of_lookup_2|done]. }
  intros r. rewrite !elem_of_root_task_records. setoid_rewrite Es'. split.
  - intros (Hty & run' & Ht & Hr). destruct (decide (run' = run)) as [->|Hne].
    + rewrite Hrun in Hr. apply elem_of_app in Hr as [Hr|Hr]; [left; eauto|].
      right. split; [done|]. destruct (Hnew r Hr Hty) as (t & ? & ?). eauto.
    + left. split; [done|]. exists run'. split; [done|].
      unfold run_records in Hr |- *. by rewrite Hother in Hr.
  - intros [(Hty & run' & Ht & Hr)|(Hr & t & _ & Hty & _)]; (split; [done|]).
    + exists run'. split; [done|]. destruct (decide (run' = run)) as [->|Hne].
      * rewrite Hrun. apply elem_of_app. by left.
      * unfold run_records in Hr |- *. by rewrite Hother.
    + exists run. split; [done|]. rewrite Hrun. apply elem_of_app. by right.
Qed.

(** The records of an admission under which the task records of the tree
    decode, and what they decode to. *)
Lemma admit_inner_decodes s clock root run max tasks additional wl s' records :
  admit_inner s clock root run max tasks additional wl = (s', Ok records) →
  (∀ p, p ∈ additional → p.1.2 ≠ "task_created") →
  in_tree root run = true → Forall task_record_ok tasks →
  ∃ existing admitted, existing_root_tasks s root = Ok existing ∧
    validate_collaboration_batch existing max tasks = Ok admitted ∧
    (∀ r, r ∈ root_task_records s' root → is_Some (from_value (A := TaskRecord) (lr_payload r))) ∧
    (∀ t, decodes (root_task_records s' root) t →
       decodes (root_task_records s root) t ∨ t ∈ admitted) ∧
    (∀ t, decodes (root_task_records s root) t ∨ t ∈ admitted →
       decodes (root_task_records s' root) t).
Proof.
  intros Had Hadd Htree Hok. rewrite Forall_forall in Hok.
  destruct (admit_inner_records _ _ _ _ _ _ _ _ _ _ Had Hadd Htree)
    as (existing & admitted & He & Hv & Hiff & Hall).
  exists existing, admitted. split_and!; [done..| | |].
  - intros r [Hr|(_ & t & Ht & _ & Hp)]%Hiff; [by eapply existing_root_tasks_all|].
    rewrite Hp, from_to_value; [by eexists|]. apply Hok.
    by apply validate_batch_ok in Hv as (_ & _ & Hin & _); apply Hin.
  - intros t (r & Hr & Hd). apply Hiff in Hr as [Hr|(_ & t' & Ht & _ & Hp)]; [left; by exists r|].
    right. rewrite Hp, from_to_value in Hd; [by simplify_eq|]. apply Hok.
    by apply validate_batch_ok in Hv as (_ & _ & Hin & _); apply Hin.
  - intros t [(r & Hr & Hd)|Ht].
    + exists r. split; [|done]. apply Hiff. by left.
    + destruct (Hall t Ht) as (r & Hr & Hty & Hp). exists r. split; [apply Hiff; by eauto 6|].
      rewrite Hp, from_to_value; [done|]. apply Hok.
      by apply validate_batch_ok in Hv as (_ & _ & Hin & _); apply Hin.
Qed.

Lemma size_le_existing (existing m : gmap TaskId TaskRecord) (admitted : list TaskRecord) :
  NoDup (tr_task_id <$> admitted) →
  (∀ id t, m !! id = Some t → is_Some (existing !! id) ∨ id ∈ tr_task_id <$> admitted) →
  (size m ≤ size existing + length admitted)%nat.
Proof.
  intros Hnd Hm. rewrite <-(size_dom m), <-(size_dom existing).
  assert (dom m ⊆ dom existing ∪ list_to_set (tr_task_id <$> admitted)) as Hsub.
  { intros id [t Ht]%elem_of_dom. apply elem_of_union. destruct (Hm id t Ht) as [H|H].
    - left. by apply elem_of_dom.
    - right. by apply elem_of_list_to_set. }
  apply subseteq_size in Hsub. etrans; [exact Hsub|].
  rewrite size_union_alt. apply Nat.add_le_mono_l.
  etrans; [apply (subseteq_size _ (list_to_set (tr_task_id <$> admitted) : gset TaskId)); set_solver|].
  by rewrite size_list_to_set, length_fmap.
Qed.

Lemma admitted_within_quota s clock root run max tasks additional wl s' records :
  admit_inner s clock root run max tasks additional wl = (s', Ok records) →
  (∀ p, p ∈ additional → p.1.2 ≠ "task_created") →
  in_tree root run = true → Forall task_record_ok tasks → (max < u64_max)%Z →
  ∃ m, existing_root_tasks s' root = Ok m ∧ (Z.of_nat (size m) ≤ max)%Z ∧
    ∀ t, t ∈ tasks → is_Some (m !! tr_task_id t).
Proof.
  intros Had Hadd Htree Hok Hmax.
  destruct (admit_inner_decodes _ _ _ _ _ _ _ _ _ _ Had Hadd Htree Hok)
    as (existing & admitted & He & Hv & Hall & Hnew & Hold).
  destruct (existing_root_tasks_spec s' root Hall) as (m & Hm & Hm1 & Hm2).
  pose proof (existing_root_tasks_all s root existing He) as Hall0.
  destruct (existing_root_tasks_spec s root Hall0) as (m0 & Hm0 & Hm01 & Hm02).
  rewrite He in Hm0; injection Hm0 as <-.
  pose proof (validate_batch_ok _ _ _ _ Hv) as (Hnd & Hnone & _ & Hcov & Hsat).
  exists m. split_and!; [done| |].
  - assert (size m ≤ size existing + length admitted)%nat as Hsz.
    { apply size_le_existing; [done|]. intros id t Ht. apply Hm1 in Ht as [Hd <-].
      apply Hnew in Hd as [Hd|Hd]; [left; by apply Hm02|right; by apply list_elem_of_fmap; exists t]. }
    unfold saturating_add in Hsat. lia.
  - intros t Ht. destruct (Hcov t Ht) as [(t' & Ht' & _)|Hadm].
    + apply Hm01 in Ht' as [Hd Hid]. rewrite <-Hid. apply Hm2, Hold. by left.
    + apply Hm2, Hold. by right.
Qed.

(** the quota: after a successful admission into the tree of [root], the
    tree holds at most [max] tasks, counting every [task_created] record of
    [root] and of all its descendant Runs, and every task of the batch is among
    them. *)
Theorem admission_quota s clock root run max tasks additional wl s' records :
  admit_inner s clock root run max tasks additional wl = (s', Ok records) →
  (∀ p, p ∈ additional → p.1.2 ≠ "task_created") →
  in_tree root run = true → Forall task_record_ok tasks → (max < u64_max)%Z →
  ∃ m, existing_root_tasks s' root = Ok m ∧ (Z.of_nat (size m) ≤ max)%Z ∧
    ∀ t, t ∈ tasks → is_Some (m !! tr_task_id t).
Proof. apply admitted_within_quota. Qed.

Lemma sample_admitted_ok id : task_record_ok (sample_admitted id).
Proof. split; [unfold is_u64, u64_max; simpl; lia|done]. Qed.

Definition sample_admission :=
  admit_collaboration_tasks sample_ledger 7 "run" "run:child" 2
    [sample_admitted "t1"; sample_admitted "t2"].

Lemma admission_quota_witness :
  ∃ m, existing_root_tasks sample_admission.1 "run" = Ok m ∧ (Z.of_nat (size m) ≤ 2)%Z ∧
    ∀ t, t ∈ [sample_admitted "t1"; sample_admitted "t2"] → is_Some (m !! tr_task_id t).
Proof.
  eapply (admission_quota sample_ledger 7 "run" "run:child" 2
            [sample_admitted "t1"; sample_admitted "t2"] [] None).
  - vm_compute. reflexivity.
  - intros p Hp. apply elem_of_nil in Hp. destruct Hp.
  - reflexivity.
  - constructor; [apply sample_admitted_ok|]. constructor; [apply sample_admitted_ok|constructor].
  - reflexivity.
Defined.

(** No identity of the tree of [root] is bound to two different tasks. *)
Definition tasks_consistent (s : InMemoryLedgerState) (root : RunId) : Prop :=
  ∀ t t', decodes (root_task_records s root) t → decodes (root_task_records s root) t' →
    tr_task_id t = tr_task_id t' → t = t'.

Lemma admit_replays existing tasks :
  (∀ t, t ∈ tasks → ∃ t', existing !! tr_task_id t = Some t' ∧ task_record_eqb t' t = true) →
  fold_result (admit_task existing) (∅, []) tasks = Ok (∅, []).
Proof.
  induction tasks as [|t tasks IH]; intros H; simpl; [done|].
  unfold admit_task at 1. destruct (H t) as (t' & -> & ->); [set_solver|]. simpl.
  apply IH. set_solver.
Qed.

(** admission is idempotent: admitting the same tasks again, whatever the
    clock and the Run of the tree that repeats it, succeeds, writes no record
    and leaves the ledger as it is. *)
Theorem admission_replay s clock root run max tasks additional wl s' records :
  admit_inner s clock root run max tasks additional wl = (s', Ok records) →
  (∀ p, p ∈ additional → p.1.2 ≠ "task_created") →
  in_tree root run = true → Forall task_record_ok tasks → (max < u64_max)%Z →
  tasks_consistent s root → (ls_next_sequence s' ≤ u64_max)%Z →
  ∀ clock' run', admit_collaboration_tasks s' clock' root run' max tasks = (s', Ok []).
Proof.
  intros Had Hadd Htree Hok Hmax Hcons Hseq clock' run'.
  pose proof (admitted_within_quota _ _ _ _ _ _ _ _ _ _ Had Hadd Htree Hok Hmax) as (m & Hm & Hsz & _).
  destruct (admit_inner_decodes _ _ _ _ _ _ _ _ _ _ Had Hadd Htree Hok)
    as (existing & admitted & He & Hv & Hall & Hnew & Hold).
  destruct (existing_root_tasks_spec s' root Hall) as (m1 & Hm1 & Hd1 & Hs1).
  rewrite Hm in Hm1; injection Hm1 as <-.
  pose proof (existing_root_tasks_all s root existing He) as Hall0.
  destruct (existing_root_tasks_spec s root Hall0) as (m0 & Hm0 & Hm01 & Hm02).
  rewrite He in Hm0; injection Hm0 as <-.
  pose proof (validate_batch_ok _ _ _ _ Hv) as (Hnd & Hnone & Hin & Hcov & _).
  rewrite Forall_forall in Hok.
  assert (∀ t, t ∈ tasks → ∃ t', m !! tr_task_id t = Some t' ∧ task_record_eqb t' t = true) as Hrep.
  { intros t Ht. destruct (Hcov t Ht) as [(t' & Ht' & Heq)|Hadm].
    - apply Hm01 in Ht' as [Hdt Hid]. destruct (Hs1 t') as [t1 Ht1]; [apply Hold; by left|].
      exists t1. rewrite <-Hid. split; [done|]. enough (t1 = t') as -> by done.
      apply Hd1 in Ht1 as [Hdt1 Hid1]. apply Hnew in Hdt1 as [Hdt1|Hadm1]; [by apply Hcons|].
      exfalso. apply Hnone in Hadm1. rewrite Hid1 in Hadm1.
      destruct (Hm02 t' Hdt) as [? Hs]. congruence.
    - destruct (Hs1 t) as [t1 Ht1]; [apply Hold; by right|]. exists t1. split; [done|].
      enough (t1 = t) as -> by (by apply task_record_eqb_refl, Hok).
      apply Hd1 in Ht1 as [Hdt1 Hid1]. apply Hnew in Hdt1 as [Hdt1|Hadm1].
      + exfalso. apply Hnone in Hadm. apply Hm02 in Hdt1. rewrite Hid1, Hadm in Hdt1. by destruct Hdt1.
      + apply list_elem_of_lookup in Hadm as [i Hi], Hadm1 as [j Hj].
        assert (i = j) as ->; [|by simplify_eq].
        eapply (NoDup_lookup (tr_task_id <$> admitted)); [done|..]; rewrite list_lookup_fmap.
        * by rewrite Hi.
        * rewrite Hj. simpl. by rewrite Hid1. }
  unfold admit_collaboration_tasks, admit_tasks_and_append, admit_inner. simpl. rewrite Hm. simpl.
  unfold validate_collaboration_batch. rewrite admit_replays by done. simpl.
  rewrite decide_False by (unfold saturating_add; lia). simpl.
  destruct (checked_add _ _) eqn:Ha; simpl; [done|]. apply checked_add_None in Ha. lia.
Qed.

Lemma admission_replay_witness :
  admit_collaboration_tasks sample_admission.1 8 "run" "run" 2
    [sample_admitted "t1"; sample_admitted "t2"] = (sample_admission.1, Ok []).
Proof.
  eapply (admission_replay sample_ledger 7 "run" "run:child" 2
            [sample_admitted "t1"; sample_admitted "t2"] [] None).
  - vm_compute. reflexivity.
  - intros p Hp. apply elem_of_nil in Hp. destruct Hp.
  - reflexivity.
  - constructor; [apply sample_admitted_ok|]. constructor; [apply sample_admitted_ok|constructor].
  - reflexivity.
  - intros t t' (r & Hr & _). vm_compute in Hr. apply elem_of_nil in Hr. destruct Hr.
  - vm_compute. discriminate.
Defined.
