(* ===== verification/Identity.v ===== *)
(** * Identities of child Agents

    [ChildAgentKey] of crates/solaris-types/src/identity.rs: the versioned
    encoding of the logical identity of a child, the ids derived from it, and
    the in-memory relationship store keyed by it
    (crates/solaris-agent/src/relationship_store.rs).  SHA-256 is a parameter;
    its lower-case hexadecimal rendering is not. *)
From Stdlib Require Import Ascii.
From S2P Require Import Prelude Json Types.

(** ** Decimal and hexadecimal digits *)

(** The value of a string of decimal digits read after [acc]. *)
Fixpoint decimal_value (acc : Z) (s : string) : Z :=
  match s with
  | EmptyString => acc
  | String c s => decimal_value (10 * acc + (Z.of_N (Ascii.N_of_ascii c) - 48)) s
  end.

Fixpoint string_forall (P : Ascii.ascii → bool) (s : string) : bool :=
  match s with
  | EmptyString => true
  | String c s => P c && string_forall P s
  end.

Definition not_colon (c : Ascii.ascii) : bool := negb (Ascii.eqb c ":"%char).

Lemma digit_cases (P : Z → Prop) :
  P 0%Z → P 1%Z → P 2%Z → P 3%Z → P 4%Z → P 5%Z → P 6%Z → P 7%Z → P 8%Z → P 9%Z →
  ∀ n, (0 ≤ n < 10)%Z → P n.
Proof.
  intros. assert (n = 0 ∨ n = 1 ∨ n = 2 ∨ n = 3 ∨ n = 4 ∨ n = 5 ∨ n = 6 ∨ n = 7 ∨ n = 8 ∨ n = 9)%Z
    as Hn by lia.
  repeat (destruct Hn as [->|Hn]; [done|]). by subst.
Qed.

Lemma digit_value n : (0 ≤ n < 10)%Z → (Z.of_N (Ascii.N_of_ascii (digit n)) - 48 = n)%Z.
Proof. revert n. by apply digit_cases. Qed.

Lemma digit_not_colon n : (0 ≤ n < 10)%Z → not_colon (digit n) = true.
Proof. revert n. by apply digit_cases. Qed.

Lemma decimal_aux_value fuel n acc :
  (0 ≤ n < 10 ^ Z.of_nat fuel)%Z →
  decimal_value 0 (decimal_aux fuel n acc) = decimal_value n acc.
Proof.
  revert n acc. induction fuel as [|fuel IH]; intros n acc Hn.
  - simpl. assert (n = 0)%Z as -> by (simpl in Hn; lia). done.
  - rewrite Nat2Z.inj_succ, Z.pow_succ_r in Hn by lia. cbn [decimal_aux].
    pose proof (Z.mod_pos_bound n 10). pose proof (Z.div_mod n 10).
    case_decide as Hlt.
    + simpl. rewrite digit_value by lia. rewrite Z.mod_small by lia. done.
    + rewrite IH by (split; [apply Z.div_pos; lia|apply Z.div_lt_upper_bound; lia]). simpl.
      rewrite digit_value by lia. f_equal. lia.
Qed.

Lemma decimal_inj a b : is_u64 a → is_u64 b → decimal a = decimal b → a = b.
Proof.
  unfold is_u64, u64_max. intros Ha Hb H.
  assert (∀ n, (0 ≤ n ≤ 18446744073709551615)%Z → decimal_value 0 (decimal n) = n) as Hv.
  { intros n Hn. unfold decimal. rewrite decimal_aux_value; [done|]. simpl. lia. }
  rewrite <-(Hv a), <-(Hv b) by done. by rewrite H.
Qed.

Lemma decimal_aux_no_colon fuel n acc :
  (0 ≤ n)%Z → string_forall not_colon acc = true →
  string_forall not_colon (decimal_aux fuel n acc) = true.
Proof.
  revert n acc. induction fuel as [|fuel IH]; intros n acc Hn Hacc; [done|]. cbn [decimal_aux].
  assert (string_forall not_colon (String (digit (n mod 10)) acc) = true) as Hd.
  { simpl. rewrite digit_not_colon, Hacc; [done|]. apply Z.mod_pos_bound. lia. }
  case_decide; [done|]. apply IH; [apply Z.div_pos; lia|done].
Qed.

Definition hex_digit (n : N) : Ascii.ascii :=
  Ascii.ascii_of_N (if decide (n < 10)%N then 48 + n else 87 + n).

(** [format!("{:x}", digest)] of an array of bytes: two lower-case digits each. *)
Fixpoint lower_hex (l : list Byte.byte) : string :=
  match l with
  | [] => EmptyString
  | b :: l =>
      let n := Byte.to_N b in
      String (hex_digit (n / 16)%N) (String (hex_digit (n mod 16)%N) (lower_hex l))
  end.

(** [format!("{n:016x}")] of a [u64]. *)
Fixpoint hex_fixed (digits : nat) (n : Z) (acc : string) : string :=
  match digits with
  | O => acc
  | S digits => hex_fixed digits (n / 16) (String (hex_digit (Z.to_N (n mod 16))) acc)
  end.

(** ** The key *)

Record ChildAgentKey : Type := {
  ck_run_id : RunId;
  ck_parent_agent_id : AgentId;
  ck_role_key : string;
  ck_stable_task_key : string;
  ck_spawn_operation_id : OperationId;
}.

(** [PartialEq] and [Hash] of the key skip the spawn operation: the logical
    identity is these four parts. *)
Definition LogicalKey : Type := RunId * AgentId * string * string.

Definition logical_key (k : ChildAgentKey) : LogicalKey :=
  (ck_run_id k, ck_parent_agent_id k, ck_role_key k, ck_stable_task_key k).

Definition child_key_eqb (a b : ChildAgentKey) : bool :=
  bool_decide (ck_run_id a = ck_run_id b) &&
  bool_decide (ck_parent_agent_id a = ck_parent_agent_id b) &&
  bool_decide (ck_role_key a = ck_role_key b) &&
  bool_decide (ck_stable_task_key a = ck_stable_task_key b).

Definition CURRENT_IDENTITY_VERSION : Z := 2.
Definition LEGACY_IDENTITY_VERSION : Z := 1.

(** One round of the loop of [stable_string]. *)
Definition push_part (encoded value : string) : string :=
  encoded +:+ ":" +:+ decimal (byte_len value) +:+ ":" +:+ value.

Definition stable_string (k : ChildAgentKey) : string :=
  fold_left push_part
    [ck_run_id k; ck_parent_agent_id k; ck_role_key k; ck_stable_task_key k] "v2".

Definition legacy_stable_string (k : ChildAgentKey) : string :=
  ck_run_id k +:+ ":" +:+ ck_parent_agent_id k +:+ ":" +:+ ck_role_key k +:+ ":" +:+
  ck_stable_task_key k.

Definition legacy_agent_id (k : ChildAgentKey) : AgentId := "child:" +:+ legacy_stable_string k.

Definition FNV_OFFSET_BASIS : Z := 0xcbf29ce484222325.
Definition FNV_PRIME : Z := 0x100000001b3.

Definition fnv_step (hash : Z) (byte : N) : Z :=
  Z.land (Z.lxor hash (Z.of_N byte) * FNV_PRIME) u64_max.

Fixpoint fnv_hash (hash : Z) (s : string) : Z :=
  match s with
  | EmptyString => hash
  | String c s => fnv_hash (fnv_step hash (byte_of c)) s
  end.

Definition legacy_session_id (k : ChildAgentKey) : string :=
  "mesh-child-" +:+ hex_fixed 16 (fnv_hash FNV_OFFSET_BASIS (legacy_stable_string k)) "".

Section ids.
Context (sha256 : string → list Byte.byte).

Definition stable_digest (k : ChildAgentKey) : string := lower_hex (sha256 (stable_string k)).

Definition agent_id (k : ChildAgentKey) : AgentId := "child:v2:" +:+ stable_digest k.

Definition session_id (k : ChildAgentKey) : string := "mesh-child-v2-" +:+ stable_digest k.

Definition identity_version_for_agent_id (k : ChildAgentKey) (id : AgentId) : option Z :=
  if decide (id = agent_id k) then Some CURRENT_IDENTITY_VERSION
  else if decide (id = legacy_agent_id k) then Some LEGACY_IDENTITY_VERSION
  else None.

Definition session_id_for_agent_id (k : ChildAgentKey) (id : AgentId) : option string :=
  match identity_version_for_agent_id k id with
  | Some v =>
      if decide (v = CURRENT_IDENTITY_VERSION) then Some (session_id k)
      else if decide (v = LEGACY_IDENTITY_VERSION) then Some (legacy_session_id k)
      else None
  | None => None
  end.
End ids.

(** ** The relationship store *)

Record AgentRelationship : Type := {
  rl_run_id : RunId;
  rl_parent_agent_id : AgentId;
  rl_child_agent_id : AgentId;
  rl_child_identity_version : Z;
  rl_role_key : string;
  rl_stable_task_key : string;
  rl_spawn_operation_id : OperationId;
}.

(** [HashMap<ChildAgentKey, AgentRelationship>] with the equality of the key. *)
Definition RelationshipStore : Type := gmap LogicalKey AgentRelationship.

Definition relationship_key (r : AgentRelationship) : ChildAgentKey :=
  {| ck_run_id := rl_run_id r; ck_parent_agent_id := rl_parent_agent_id r;
     ck_role_key := rl_role_key r; ck_stable_task_key := rl_stable_task_key r;
     ck_spawn_operation_id := rl_spawn_operation_id r |}.

Definition put (m : RelationshipStore) (r : AgentRelationship) : RelationshipStore :=
  <[logical_key (relationship_key r) := r]> m.

Definition relationship_for_key (m : RelationshipStore) (k : ChildAgentKey) :
    option AgentRelationship := m !! logical_key k.

Definition child_for_key (m : RelationshipStore) (k : ChildAgentKey) : option AgentId :=
  rl_child_agent_id <$> relationship_for_key m k.

Definition relationships (m : RelationshipStore) : list AgentRelationship := (map_to_list m).*2.

Definition children_of (m : RelationshipStore) (parent : AgentId) : list AgentRelationship :=
  filter (λ r, rl_parent_agent_id r = parent) (relationships m).

(** ** Properties *)

Lemma string_cons_app c s t : String c s +:+ t = String c (s +:+ t).
Proof. done. Qed.

Lemma string_app_inj_length a b c d :
  String.length a = String.length b → a +:+ c = b +:+ d → a = b ∧ c = d.
Proof.
  revert b. induction a as [|x a IH]; intros [|y b] Hlen H; try done.
  rewrite !string_cons_app in H. injection H as -> H. injection Hlen as Hlen.
  destruct (IH b Hlen H) as [-> ->]. done.
Qed.

(** Up to its first colon a string has one reading. *)
Lemma split_at_colon a b c d :
  string_forall not_colon a = true → string_forall not_colon b = true →
  a +:+ String ":" c = b +:+ String ":" d → a = b ∧ c = d.
Proof.
  revert b. induction a as [|x a IH]; intros [|y b] Ha Hb; cbn [string_forall] in *;
    rewrite ?string_cons_app; intros H.
  - by injection H as ->.
  - injection H as <- _. discriminate Hb.
  - injection H as -> _. discriminate Ha.
  - apply andb_true_iff in Ha as [_ Ha], Hb as [_ Hb]. injection H as -> H.
    destruct (IH b Ha Hb H) as [-> ->]. done.
Qed.

Definition part (value : string) : string :=
  ":" +:+ decimal (byte_len value) +:+ ":" +:+ value.

Lemma string_app_assoc a b c : (a +:+ b) +:+ c = a +:+ (b +:+ c).
Proof. induction a as [|x a IH]; [done|]. by rewrite !string_cons_app, IH. Qed.

Lemma stable_string_parts k :
  stable_string k =
  "v2" +:+ (part (ck_run_id k) +:+ (part (ck_parent_agent_id k) +:+
    (part (ck_role_key k) +:+ part (ck_stable_task_key k)))).
Proof.
  unfold stable_string, part, push_part. cbn [fold_left]. by rewrite !string_app_assoc.
Qed.

(** The length prefix makes a part self-delimiting. *)
Lemma part_inj v w r r' :
  is_u64 (byte_len v) → is_u64 (byte_len w) →
  part v +:+ r = part w +:+ r' → v = w ∧ r = r'.
Proof.
  intros Hv Hw H. unfold part in H. rewrite !string_app_assoc in H.
  cbn [String.append] in H. change (String.append "" ?x) with x in H. injection H as H.
  assert (∀ z, is_u64 z → string_forall not_colon (decimal z) = true) as Hd.
  { intros z Hz. apply decimal_aux_no_colon; [apply Hz|done]. }
  apply split_at_colon in H as [Hl H]; [|by apply Hd..].
  apply decimal_inj in Hl; [|done..]. unfold byte_len in Hl. apply Nat2Z.inj in Hl.
  by apply string_app_inj_length.
Qed.

(** Every part of a key is a Rust string, so its length is a [usize]. *)
Definition key_ok (k : ChildAgentKey) : Prop :=
  is_u64 (byte_len (ck_run_id k)) ∧ is_u64 (byte_len (ck_parent_agent_id k)) ∧
  is_u64 (byte_len (ck_role_key k)) ∧ is_u64 (byte_len (ck_stable_task_key k)).

Lemma stable_string_inj k k' :
  key_ok k → key_ok k' → stable_string k = stable_string k' → logical_key k = logical_key k'.
Proof.
  intros (H1 & H2 & H3 & H4) (H1' & H2' & H3' & H4'). rewrite !stable_string_parts. intros H.
  apply string_app_inj_length in H as [_ H]; [|done].
  apply part_inj in H as [E1 H]; [|done..]. apply part_inj in H as [E2 H]; [|done..].
  apply part_inj in H as [E3 H]; [|done..].
  apply (f_equal (λ s, s +:+ "")) in H. apply part_inj in H as [E4 _]; [|done..].
  unfold logical_key. congruence.
Qed.

Lemma hex_digit_cases (P : N → Prop) :
  P 0%N → P 1%N → P 2%N → P 3%N → P 4%N → P 5%N → P 6%N → P 7%N → P 8%N → P 9%N →
  P 10%N → P 11%N → P 12%N → P 13%N → P 14%N → P 15%N → ∀ n, (n < 16)%N → P n.
Proof.
  intros.
  assert (n = 0 ∨ n = 1 ∨ n = 2 ∨ n = 3 ∨ n = 4 ∨ n = 5 ∨ n = 6 ∨ n = 7 ∨ n = 8 ∨ n = 9 ∨
          n = 10 ∨ n = 11 ∨ n = 12 ∨ n = 13 ∨ n = 14 ∨ n = 15)%N as Hn by lia.
  repeat (destruct Hn as [->|Hn]; [done|]). by subst.
Qed.

Definition hex_value (c : Ascii.ascii) : N :=
  let n := Ascii.N_of_ascii c in if decide (n < 58)%N then (n - 48)%N else (n - 87)%N.

Lemma hex_digit_value n : (n < 16)%N → hex_value (hex_digit n) = n.
Proof. revert n. by apply hex_digit_cases. Qed.

Lemma hex_digit_not_colon n : (n < 16)%N → not_colon (hex_digit n) = true.
Proof. revert n. by apply hex_digit_cases. Qed.

Lemma byte_halves (b : Byte.byte) : (Byte.to_N b / 16 < 16)%N ∧ (Byte.to_N b mod 16 < 16)%N.
Proof.
  pose proof (Byte.to_N_bounded b). split; [apply N.Div0.div_lt_upper_bound; lia|].
  apply N.mod_lt. lia.
Qed.

Lemma lower_hex_no_colon l : string_forall not_colon (lower_hex l) = true.
Proof.
  induction l as [|b l IH]; [done|]. cbn [lower_hex string_forall].
  destruct (byte_halves b). by rewrite !hex_digit_not_colon, IH.
Qed.

Lemma lower_hex_inj l l' : lower_hex l = lower_hex l' → l = l'.
Proof.
  revert l'. induction l as [|b l IH]; intros [|b' l'] H; try done.
  cbn [lower_hex] in H. injection H as Hh Hl H.
  apply (f_equal hex_value) in Hh, Hl.
  destruct (byte_halves b), (byte_halves b'). rewrite !hex_digit_value in Hh, Hl by done.
  rewrite (IH l') by done. f_equal.
  assert (Byte.to_N b = Byte.to_N b') as Hb.
  { rewrite (N.Div0.div_mod (Byte.to_N b) 16), (N.Div0.div_mod (Byte.to_N b') 16). congruence. }
  apply (f_equal Byte.of_N) in Hb. rewrite !Byte.of_to_N in Hb. congruence.
Qed.

Fixpoint colons (s : string) : nat :=
  match s with
  | EmptyString => 0
  | String c s => (if not_colon c then 0 else 1) + colons s
  end.

Lemma colons_app s t : colons (s +:+ t) = colons s + colons t.
Proof. induction s as [|c s IH]; [done|]. rewrite string_cons_app. simpl. lia. Qed.

Lemma colons_none s : string_forall not_colon s = true → colons s = 0.
Proof.
  induction s as [|c s IH]; [done|]. simpl. intros [-> Hs]%andb_true_iff. by apply IH.
Qed.

Lemma child_key_eqb_logical a b : child_key_eqb a b = true ↔ logical_key a = logical_key b.
Proof.
  unfold child_key_eqb, logical_key. rewrite !andb_true_iff, !bool_decide_eq_true.
  split; [intros [[[-> ->] ->] ->]; done|intros [= -> -> -> ->]; done].
Qed.

Section id_facts.
Context (sha256 : string → list Byte.byte).

Lemma agent_id_not_legacy k k' : agent_id sha256 k ≠ legacy_agent_id k'.
Proof.
  unfold agent_id, legacy_agent_id, legacy_stable_string, stable_digest. intros H.
  apply (f_equal colons) in H. rewrite !colons_app in H.
  rewrite (colons_none (lower_hex _)) in H by apply lower_hex_no_colon.
  change (colons "child:v2:") with 2 in H. change (colons "child:") with 1 in H.
  change (colons ":") with 1 in H. lia.
Qed.

(** two keys name the same child (the spawn operation does not count) when
    their public Agent ids agree and conversely, unless the two encodings are
    a collision of SHA-256; session ids agree exactly when Agent ids do. *)
Theorem child_identity_unambiguous k k' :
  key_ok k → key_ok k' →
  (child_key_eqb k k' = true → agent_id sha256 k = agent_id sha256 k') ∧
  (agent_id sha256 k = agent_id sha256 k' →
     child_key_eqb k k' = true ∨
     (stable_string k ≠ stable_string k' ∧
      sha256 (stable_string k) = sha256 (stable_string k'))) ∧
  (session_id sha256 k = session_id sha256 k' ↔ agent_id sha256 k = agent_id sha256 k').
Proof.
  intros Hk Hk'. unfold agent_id, session_id. split_and!.
  - intros E%child_key_eqb_logical. unfold stable_digest. do 2 f_equal.
    unfold logical_key in E. injection E as E1 E2 E3 E4. unfold stable_string.
    by rewrite E1, E2, E3, E4.
  - intros [_ H]%string_app_inj_length; [|done]. apply lower_hex_inj in H.
    destruct (decide (stable_string k = stable_string k')) as [E|E]; [left|by right].
    by apply child_key_eqb_logical, stable_string_inj.
  - by split; intros [_ ->]%string_app_inj_length.
Qed.

(** the two generations of Agent ids never overlap, so the version of an id
    is the one it was made with: an id is recognised as current exactly when it
    is the key's current id, as legacy exactly when it is its legacy id, and
    the session directory follows the generation. *)
Theorem identity_versions_disjoint k id :
  (identity_version_for_agent_id sha256 k id = Some CURRENT_IDENTITY_VERSION ↔
     id = agent_id sha256 k) ∧
  (identity_version_for_agent_id sha256 k id = Some LEGACY_IDENTITY_VERSION ↔
     id = legacy_agent_id k) ∧
  session_id_for_agent_id sha256 k (agent_id sha256 k) = Some (session_id sha256 k) ∧
  session_id_for_agent_id sha256 k (legacy_agent_id k) = Some (legacy_session_id k) ∧
  (∀ s, session_id_for_agent_id sha256 k id = Some s →
     id = agent_id sha256 k ∨ id = legacy_agent_id k).
Proof.
  pose proof (agent_id_not_legacy k k) as Hne.
  unfold session_id_for_agent_id, identity_version_for_agent_id.
  rewrite (decide_True (P := agent_id sha256 k = agent_id sha256 k)) by done.
  rewrite (decide_False (P := legacy_agent_id k = agent_id sha256 k)) by congruence.
  rewrite (decide_True (P := legacy_agent_id k = legacy_agent_id k)) by done.
  split_and!; [..|done|done|]; repeat case_decide; naive_solver.
Qed.
End id_facts.

Definition sample_key (op : string) : ChildAgentKey :=
  {| ck_run_id := "run"; ck_parent_agent_id := "root"; ck_role_key := "reviewer";
     ck_stable_task_key := "t:1"; ck_spawn_operation_id := op |}.

(** A stand-in digest for concrete evaluations. *)
Definition sample_sha256 (s : string) : list Byte.byte :=
  match Byte.of_N (N.of_nat (String.length s) mod 256)%N with Some b => [b] | None => [] end.

Lemma child_identity_unambiguous_witness :
  agent_id sample_sha256 (sample_key "op-1") = agent_id sample_sha256 (sample_key "op-2").
Proof.
  apply (child_identity_unambiguous sample_sha256 (sample_key "op-1") (sample_key "op-2"));
    [repeat split; discriminate..|reflexivity].
Defined.

(** The defect of the first generation that the second repairs: distinct
    children with one legacy id. *)
Example legacy_ids_ambiguous :
  let a := {| ck_run_id := "r"; ck_parent_agent_id := "p:x"; ck_role_key := "y";
              ck_stable_task_key := "t"; ck_spawn_operation_id := "o" |} in
  let b := {| ck_run_id := "r"; ck_parent_agent_id := "p"; ck_role_key := "x:y";
              ck_stable_task_key := "t"; ck_spawn_operation_id := "o" |} in
  legacy_agent_id a = legacy_agent_id b ∧ child_key_eqb a b = false ∧
  stable_string a ≠ stable_string b.
Proof. vm_compute. split_and!; [done|done|discriminate]. Qed.

(** The relationship that a lookup by [k] finds after a sequence of puts. *)
Definition last_for (k : ChildAgentKey) (rs : list AgentRelationship) : option AgentRelationship :=
  last (filter (λ r, logical_key (relationship_key r) = logical_key k) rs).

Lemma relationship_put m r k :
  relationship_for_key (put m r) k =
  if decide (logical_key (relationship_key r) = logical_key k) then Some r
  else relationship_for_key m k.
Proof. unfold relationship_for_key, put. apply lookup_insert. Qed.

Lemma relationship_puts m rs k :
  relationship_for_key (fold_left put rs m) k =
  match last_for k rs with Some r => Some r | None => relationship_for_key m k end.
Proof.
  induction rs as [|r rs IH] using rev_ind; [done|].
  rewrite fold_left_app. cbn [fold_left]. rewrite relationship_put. unfold last_for.
  rewrite filter_app, filter_cons, filter_nil.
  case_decide as E; [by rewrite last_snoc|]. rewrite app_nil_r. apply IH.
Qed.

Lemma store_keyed rs k r :
  fold_left put rs ∅ !! k = Some r → logical_key (relationship_key r) = k.
Proof.
  revert k r. induction rs as [|r' rs IH] using rev_ind; intros k r; [done|].
  rewrite fold_left_app. cbn [fold_left]. change (put ?m ?x) with (<[logical_key (relationship_key x) := x]> m).
  intros [[<- <-]|[_ H]]%lookup_insert_Some; [done|].
  by apply IH.
Qed.

(** the relationship store refines its log: after any sequence of puts a
    key, whatever its spawn operation, finds the last relationship put for its
    logical identity, and the children of a parent are exactly the surviving
    relationships that name it, each once. *)
Theorem relationship_store_refines rs k parent :
  let m := fold_left put rs (∅ : RelationshipStore) in
  relationship_for_key m k = last_for k rs ∧
  child_for_key m k = rl_child_agent_id <$> last_for k rs ∧
  (∀ r, r ∈ children_of m parent ↔
     rl_parent_agent_id r = parent ∧ last_for (relationship_key r) rs = Some r) ∧
  NoDup (children_of m parent).
Proof.
  intros m. assert (∀ k, relationship_for_key m k = last_for k rs) as Hm.
  { intros k'. unfold m. rewrite relationship_puts. by destruct (last_for k' rs). }
  split_and!; [done|by unfold child_for_key; rewrite Hm|..].
  - intros r. unfold children_of, relationships. rewrite list_elem_of_filter, list_elem_of_fmap.
    rewrite <-Hm. unfold relationship_for_key. split.
    + intros [Hp ([k' r'] & -> & Hin%elem_of_map_to_list)]. split; [done|].
      simpl. by rewrite (store_keyed rs k' r' Hin).
    + intros [Hp Hin]. split; [done|]. eexists (_, r). split; [done|]. by apply elem_of_map_to_list.
  - apply NoDup_filter. unfold relationships. apply NoDup_fmap_2_strong, NoDup_map_to_list.
    intros [k1 r1] [k2 r2] H1%elem_of_map_to_list H2%elem_of_map_to_list E. simpl in E. subst r2.
    apply store_keyed in H1, H2. congruence.
Qed.
