(* ===== verification/WorkflowTypes.v ===== *)
(** * Workflow definitions

    The data of crates/solaris-types/src/{workflow,resource,permission}.rs that
    a Workflow author writes: nodes, roles, collaboration settings, permission
    ceilings and resource budgets.  A Rust [f64] is [f64] of the prelude. *)
From S2P Require Import Prelude Json Types.

(** ** Permissions and budgets *)

Inductive EffectClass : Type :=
  | ReadOnly | AgentLifecycle | MeshStateMutation | WorkspaceMutation | Process | Network
  | ExternalSideEffect.

#[export] Instance EffectClass_eq_dec : EqDecision EffectClass.
Proof. solve_decision. Defined.

Record PermissionCeiling : Type := {
  pc_agent_lifecycle : bool;
  pc_mesh_state_mutation : bool;
  pc_workspace_mutation : bool;
  pc_process : bool;
  pc_network : bool;
  pc_external_side_effect : bool;
}.

#[export] Instance PermissionCeiling_eq_dec : EqDecision PermissionCeiling.
Proof. solve_decision. Defined.

Definition ceiling_plan : PermissionCeiling :=
  {| pc_agent_lifecycle := true; pc_mesh_state_mutation := true; pc_workspace_mutation := false;
     pc_process := false; pc_network := true; pc_external_side_effect := false |}.

Definition ceiling_unrestricted : PermissionCeiling :=
  {| pc_agent_lifecycle := true; pc_mesh_state_mutation := true; pc_workspace_mutation := true;
     pc_process := true; pc_network := true; pc_external_side_effect := true |}.

Definition ceiling_allows (c : PermissionCeiling) (class : EffectClass) : bool :=
  match class with
  | ReadOnly => true
  | AgentLifecycle => pc_agent_lifecycle c
  | MeshStateMutation => pc_mesh_state_mutation c
  | WorkspaceMutation => pc_workspace_mutation c
  | Process => pc_process c
  | Network => pc_network c
  | ExternalSideEffect => pc_external_side_effect c
  end.

Definition ceiling_intersect (a b : PermissionCeiling) : PermissionCeiling :=
  {| pc_agent_lifecycle := pc_agent_lifecycle a && pc_agent_lifecycle b;
     pc_mesh_state_mutation := pc_mesh_state_mutation a && pc_mesh_state_mutation b;
     pc_workspace_mutation := pc_workspace_mutation a && pc_workspace_mutation b;
     pc_process := pc_process a && pc_process b;
     pc_network := pc_network a && pc_network b;
     pc_external_side_effect := pc_external_side_effect a && pc_external_side_effect b |}.

Record ResourceBudget : Type := {
  rb_max_active_agents : option Z;
  rb_max_concurrent_effects : option Z;
  rb_max_spawn_depth : option Z;
  rb_max_total_descendants_per_run : option Z;
  rb_max_turns : option Z;
  rb_max_tokens : option Z;
  rb_max_wall_time_ms : option Z;
  rb_max_cost : option f64;
  rb_max_process_output_bytes : option Z;
}.

Definition budget_default : ResourceBudget :=
  {| rb_max_active_agents := None; rb_max_concurrent_effects := None; rb_max_spawn_depth := None;
     rb_max_total_descendants_per_run := None; rb_max_turns := None; rb_max_tokens := None;
     rb_max_wall_time_ms := None; rb_max_cost := None; rb_max_process_output_bytes := None |}.

(** Derived [==]: member by member, costs as [f64]. *)
Definition budget_eqb (a b : ResourceBudget) : bool :=
  bool_decide (rb_max_active_agents a = rb_max_active_agents b) &&
  bool_decide (rb_max_concurrent_effects a = rb_max_concurrent_effects b) &&
  bool_decide (rb_max_spawn_depth a = rb_max_spawn_depth b) &&
  bool_decide (rb_max_total_descendants_per_run a = rb_max_total_descendants_per_run b) &&
  bool_decide (rb_max_turns a = rb_max_turns b) &&
  bool_decide (rb_max_tokens a = rb_max_tokens b) &&
  bool_decide (rb_max_wall_time_ms a = rb_max_wall_time_ms b) &&
  option_eqb f64_eqb (rb_max_cost a) (rb_max_cost b) &&
  bool_decide (rb_max_process_output_bytes a = rb_max_process_output_bytes b).

(** ** Roles, nodes, definitions *)

Record ModelPolicy : Type := {
  mp_model : option string;
  mp_reasoning_effort : option string;
}.

#[export] Instance ModelPolicy_eq_dec : EqDecision ModelPolicy.
Proof. solve_decision. Defined.

Record AgentRoleDefinition : Type := {
  rd_id : string;
  rd_description : string;
  rd_input_schema : option Value;
  rd_output_schema : option Value;
  rd_model_policy : ModelPolicy;
  rd_capability_scope : list string;
  rd_permission_ceiling : PermissionCeiling;
  rd_context_policy : option string;
  rd_recursion_policy : option string;
  rd_budget : ResourceBudget;
}.

Definition role_eqb (a b : AgentRoleDefinition) : bool :=
  bool_decide (rd_id a = rd_id b) &&
  bool_decide (rd_description a = rd_description b) &&
  option_eqb value_eqb (rd_input_schema a) (rd_input_schema b) &&
  option_eqb value_eqb (rd_output_schema a) (rd_output_schema b) &&
  bool_decide (rd_model_policy a = rd_model_policy b) &&
  bool_decide (rd_capability_scope a = rd_capability_scope b) &&
  bool_decide (rd_permission_ceiling a = rd_permission_ceiling b) &&
  bool_decide (rd_context_policy a = rd_context_policy b) &&
  bool_decide (rd_recursion_policy a = rd_recursion_policy b) &&
  budget_eqb (rd_budget a) (rd_budget b).

Record WorkerRolePolicy : Type := {
  wp_role : string;
  wp_max_concurrent : Z;
  wp_max_total : Z;
}.

Record CollaborationRuntimeConfig : Type := {
  cc_strategy : CollaborationStrategy;
  cc_worker_roles : list WorkerRolePolicy;
  cc_max_concurrent_workers : Z;
  cc_max_tasks : Z;
  cc_max_coordinator_rounds : Z;
  cc_max_pending_messages : Z;
  cc_max_message_bytes : Z;
  cc_primary_role : option string;
  cc_reviewer_role : option string;
}.

Inductive CollaborationSelection : Type :=
  | Auto
  | Fixed (strategy : CollaborationStrategy)
  | Configured (config : CollaborationRuntimeConfig)
  | Inherit.

Record OutputBinding : Type := {
  ob_from : string;
  ob_to : string;
}.

Record WorkflowNode : Type := {
  wn_id : string;
  wn_depends_on : list string;
  wn_when : option Value;
  wn_role : option string;
  wn_collaboration : CollaborationSelection;
  wn_model_policy : ModelPolicy;
  wn_capability_scope : list string;
  wn_permission_ceiling : PermissionCeiling;
  wn_retry_max_attempts : Z;
  wn_timeout_ms : option Z;
  wn_output_bindings : list OutputBinding;
  wn_workflow_ref : option string;
}.

(** [outputs] is a [BTreeMap]: a list in key order. *)
Record WorkflowDefinition : Type := {
  wd_id : string;
  wd_schema_version : Z;
  wd_version : string;
  wd_description : string;
  wd_roles : list AgentRoleDefinition;
  wd_parameters_schema : option Value;
  wd_nodes : list WorkflowNode;
  wd_outputs : list (string * string);
}.
