(* ===== verification/WorkflowValidation.v ===== *)
(** * Validation of Workflow definitions

    crates/solaris-agent/src/workflow_validation.rs: what a definition has to
    satisfy before it is registered.  The acyclicity check is Kahn's algorithm
    over hash maps; the order in which a [HashMap] is iterated is a parameter,
    any enumeration of the entries. *)
From S2P Require Import Prelude Json Types WorkflowTypes.

Definition MAX_WORKER_ROLES : Z := 32.
Definition MAX_CONCURRENT_WORKERS : Z := 64.
Definition MAX_SUPERVISOR_TASKS : Z := 32.
Definition MAX_MULTI_AGENT_TASKS : Z := 256.
Definition MAX_COORDINATOR_ROUNDS : Z := 8.

Inductive ValidationError : Type :=
  | EmptyWorkflowId
  | UnsupportedSchemaVersion (version : Z)
  | EmptyVersion
  | EmptyDescription
  | DuplicateNodeIds
  | EmptyNodeId
  | EmptyWorkflowRef (node : string)
  | ConfiguredInSchema1 (node : string)
  | FixedInSchema2 (node : string) (strategy : CollaborationStrategy)
  | UnknownDependency (node dependency : string)
  | SelfDependency (node : string)
  | EmptyBindingDestination (node : string)
  | EmptyBindingSource (node : string)
  | BindingSourceNotDependency (node source : string)
  | UnknownOutputNode (output node : string)
  | DependencyCycle
  | LimitOutOfRange (node field : string) (max : Z)
  | TooManyWorkerRoles (node : string)
  | EmptyWorkerRole (node : string)
  | DuplicateWorkerRole (node role : string)
  | ZeroMaxConcurrent (node role : string)
  | ZeroMaxTotal (node role : string)
  | ConcurrentExceedsTotal (node role : string)
  | TotalExceedsTasks (node role : string)
  | ReviewerRolesMisplaced (node : string)
  | TotalSumExceedsTasks (node : string)
  | SingleHasWorkers (node : string)
  | TooFewWorkerRoles (node : string) (min : Z)
  | CoordinatorRoleMissing (node : string)
  | ReviewerRolesMissing (node : string)
  | ReviewerIsPrimary (node : string)
  | ReviewerWorkerRoles (node : string)
  | ReviewerNodeRole (node reviewer : string)
  | ConditionNotObject (node : string)
  | ConditionOperatorCount (node : string)
  | ConditionAlwaysNotBool (node : string)
  | ConditionNotArray (node operator : string)
  | ConditionRuleNotObject (node operator : string)
  | ConditionRuleFields (node operator : string) (fields : list string)
  | ConditionFieldEmpty (node operator field : string)
  | ConditionSourceNotDependency (node source : string)
  | ConditionUnsupported (node operator : string)
  | UnknownRole (node role : string)
  | UnknownWorkerRole (node role : string)
  | UnknownPrimaryRole (node role : string)
  | UnknownReviewerRole (node role : string)
  | EmptyRoleId
  | EmptyRoleDescription (role : string)
  | UnsupportedContextPolicy (role policy : string)
  | UnsupportedRecursionPolicy (role policy : string).

Abbreviation check := (result unit ValidationError) (only parsing).

(** [return Err(e)] when [b]. *)
Definition reject (b : bool) (e : ValidationError) : check := ensure (negb b) e.

(** ** Conditions *)

(** [filter(|value| !value.trim().is_empty())] on an [Option<&str>]. *)
Definition non_empty (o : option string) : option string :=
  match o with
  | Some s => if trim_is_empty s then None else Some s
  | None => None
  end.

Definition required_non_empty_string (node operator : string) (rule : list (string * Value))
    (field : string) : result string ValidationError :=
  ok_or (non_empty (match assoc field rule with Some v => as_str v | None => None end))
    (ConditionFieldEmpty node operator field).

Definition validate_comparison_rule (node operator : string) (rule : Value)
    (expected_fields : list string) : result (list (string * Value)) ValidationError :=
  let? rule := ok_or (as_object rule) (ConditionRuleNotObject node operator) in
  reject (bool_decide (length rule ≠ length expected_fields) ||
          existsb (λ f, match assoc f rule with None => true | Some _ => false end)
            expected_fields)
    (ConditionRuleFields node operator expected_fields) ;;?
  required_non_empty_string node operator rule "field" ;;?
  Ok rule.

Fixpoint validate_condition (node : WorkflowNode) (condition : Value) : check :=
  let id := wn_id node in
  match condition with
  | VObject [(operator, rule)] =>
      if decide (operator = "always") then
        ensure (is_boolean rule) (ConditionAlwaysNotBool id)
      else if decide (operator = "all" ∨ operator = "any") then
        match rule with
        | VArray children =>
            (fix go (l : list Value) : check :=
               match l with
               | [] => Ok tt
               | child :: l => validate_condition node child ;;? go l
               end) children
        | _ => Err (ConditionNotArray id operator)
        end
      else if decide (operator = "parameter_equals" ∨ operator = "parameter_not_equals") then
        validate_comparison_rule id operator rule ["field"; "value"] ;;? Ok tt
      else if decide (operator = "node_output_equals") then
        let? rule := validate_comparison_rule id operator rule ["node"; "field"; "value"] in
        let? referenced := required_non_empty_string id operator rule "node" in
        ensure (bool_decide (referenced ∈ wn_depends_on node))
          (ConditionSourceNotDependency id referenced)
      else Err (ConditionUnsupported id operator)
  | VObject _ => Err (ConditionOperatorCount id)
  | _ => Err (ConditionNotObject id)
  end.

(** ** Collaboration settings *)

Definition validate_limit (node : WorkflowNode) (field : string) (value max : Z) : check :=
  reject (bool_decide (value = 0 ∨ max < value)%Z) (LimitOutOfRange (wn_id node) field max).

Definition validate_independent_reviewer (node : WorkflowNode)
    (config : CollaborationRuntimeConfig) (worker_role_ids : gset string) : check :=
  let id := wn_id node in
  match non_empty (cc_primary_role config), non_empty (cc_reviewer_role config) with
  | Some primary, Some reviewer =>
      reject (bool_decide (primary = reviewer)) (ReviewerIsPrimary id) ;;?
      reject (bool_decide (size worker_role_ids ≠ 2 ∨ primary ∉ worker_role_ids ∨
                           reviewer ∉ worker_role_ids)) (ReviewerWorkerRoles id) ;;?
      match wn_role node with
      | Some role => reject (bool_decide (role ≠ reviewer)) (ReviewerNodeRole id reviewer)
      | None => Ok tt
      end
  | _, _ => Err (ReviewerRolesMissing id)
  end.

(** One round of the loop over the worker roles. *)
Definition validate_worker_role (node : WorkflowNode) (config : CollaborationRuntimeConfig)
    (ids : gset string) (policy : WorkerRolePolicy) : result (gset string) ValidationError :=
  let id := wn_id node in let role := wp_role policy in
  reject (trim_is_empty role) (EmptyWorkerRole id) ;;?
  reject (bool_decide (role ∈ ids)) (DuplicateWorkerRole id role) ;;?
  reject (bool_decide (wp_max_concurrent policy = 0%Z)) (ZeroMaxConcurrent id role) ;;?
  reject (bool_decide (wp_max_total policy = 0%Z)) (ZeroMaxTotal id role) ;;?
  reject (bool_decide (wp_max_total policy < wp_max_concurrent policy)%Z)
    (ConcurrentExceedsTotal id role) ;;?
  reject (bool_decide (cc_max_tasks config < wp_max_total policy)%Z) (TotalExceedsTasks id role) ;;?
  Ok ({[role]} ∪ ids).

(** The sum of at most [MAX_WORKER_ROLES] values of 32 bits, which a [u64]
    holds. *)
Definition total_workers (config : CollaborationRuntimeConfig) : Z :=
  foldr (λ p, Z.add (wp_max_total p)) 0%Z (cc_worker_roles config).

Definition coordinator_role (node : WorkflowNode) : check :=
  ok_or (non_empty (wn_role node)) (CoordinatorRoleMissing (wn_id node)) ;;? Ok tt.

Definition validate_runtime_config (node : WorkflowNode) (config : CollaborationRuntimeConfig) :
    check :=
  let id := wn_id node in
  let workers := Z.of_nat (length (cc_worker_roles config)) in
  validate_limit node "max_concurrent_workers" (cc_max_concurrent_workers config)
    MAX_CONCURRENT_WORKERS ;;?
  validate_limit node "max_tasks" (cc_max_tasks config)
    (if decide (cc_strategy config = Supervisor) then MAX_SUPERVISOR_TASKS
     else MAX_MULTI_AGENT_TASKS) ;;?
  validate_limit node "max_coordinator_rounds" (cc_max_coordinator_rounds config)
    MAX_COORDINATOR_ROUNDS ;;?
  validate_limit node "max_pending_messages" (cc_max_pending_messages config)
    DEFAULT_MAX_PENDING_MESSAGES ;;?
  validate_limit node "max_message_bytes" (cc_max_message_bytes config)
    DEFAULT_MAX_MESSAGE_BYTES ;;?
  reject (bool_decide (MAX_WORKER_ROLES < workers)%Z) (TooManyWorkerRoles id) ;;?
  let? worker_role_ids :=
    fold_result (validate_worker_role node config) ∅ (cc_worker_roles config) in
  reject (bool_decide (cc_strategy config ≠ IndependentReviewer ∧
                       (cc_primary_role config ≠ None ∨ cc_reviewer_role config ≠ None)))
    (ReviewerRolesMisplaced id) ;;?
  reject (bool_decide ((cc_strategy config = Team ∨ cc_strategy config = Fanout ∨
                        cc_strategy config = IndependentReviewer) ∧
                       (cc_max_tasks config < total_workers config)%Z))
    (TotalSumExceedsTasks id) ;;?
  match cc_strategy config with
  | Single => reject (bool_decide (workers ≠ 0%Z)) (SingleHasWorkers id)
  | Supervisor =>
      reject (bool_decide (workers = 0%Z)) (TooFewWorkerRoles id 1) ;;? coordinator_role node
  | Team | Fanout =>
      reject (bool_decide (workers < 2)%Z) (TooFewWorkerRoles id 2) ;;? coordinator_role node
  | IndependentReviewer => validate_independent_reviewer node config worker_role_ids
  end.

(** The last arm of the code is unreachable: the version was checked. *)
Definition validate_collaboration (schema_version : Z) (node : WorkflowNode) : check :=
  if decide (schema_version = 1%Z) then
    match wn_collaboration node with
    | Configured _ => Err (ConfiguredInSchema1 (wn_id node))
    | _ => Ok tt
    end
  else
    match wn_collaboration node with
    | Fixed Single | Auto | Inherit => Ok tt
    | Fixed strategy => Err (FixedInSchema2 (wn_id node) strategy)
    | Configured config => validate_runtime_config node config
    end.

(** ** Nodes *)

(** [str::split('.')]. *)
Fixpoint split_dot (s : string) : list string :=
  match s with
  | EmptyString => [EmptyString]
  | String c s =>
      if decide (byte_of c = 46%N) then EmptyString :: split_dot s
      else match split_dot s with
           | [] => [String c EmptyString]
           | p :: ps => String c p :: ps
           end
  end.

Definition is_empty_string (s : string) : bool := bool_decide (s = "").

Definition binding_source (b : OutputBinding) : option string :=
  match head (split_dot (ob_from b)) with
  | Some s => if is_empty_string s then None else Some s
  | None => None
  end.

Definition validate_binding (node : WorkflowNode) (b : OutputBinding) : check :=
  reject (forallb is_empty_string (split_dot (ob_to b))) (EmptyBindingDestination (wn_id node)) ;;?
  let? source := ok_or (binding_source b) (EmptyBindingSource (wn_id node)) in
  ensure (bool_decide (source ∈ wn_depends_on node))
    (BindingSourceNotDependency (wn_id node) source).

Definition validate_dependency (ids : gset string) (node : WorkflowNode) (dependency : string) :
    check :=
  ensure (bool_decide (dependency ∈ ids)) (UnknownDependency (wn_id node) dependency) ;;?
  reject (bool_decide (dependency = wn_id node)) (SelfDependency (wn_id node)).

Definition validate_node (schema_version : Z) (ids : gset string) (node : WorkflowNode) : check :=
  reject (trim_is_empty (wn_id node)) EmptyNodeId ;;?
  match wn_workflow_ref node with
  | Some r => reject (trim_is_empty r) (EmptyWorkflowRef (wn_id node))
  | None => Ok tt
  end ;;?
  validate_collaboration schema_version node ;;?
  for_each (validate_dependency ids node) (wn_depends_on node) ;;?
  match wn_when node with Some c => validate_condition node c | None => Ok tt end ;;?
  for_each (validate_binding node) (wn_output_bindings node).

(** ** Acyclicity *)

Definition indegrees (nodes : list WorkflowNode) : gmap string Z :=
  fold_left (λ m n, <[wn_id n := Z.of_nat (length (wn_depends_on n))]> m) nodes ∅.

(** [children.entry(dependency).or_default().push(node)]. *)
Definition push_child (child : string) (m : gmap string (list string)) (dependency : string) :
    gmap string (list string) :=
  <[dependency := default [] (m !! dependency) ++ [child]]> m.

Definition children_map (nodes : list WorkflowNode) : gmap string (list string) :=
  fold_left (λ m n, fold_left (push_child (wn_id n)) (wn_depends_on n) m) nodes ∅.

(** The body of the inner loop: the stack of ready nodes has its top first. *)
Definition release_child (acc : list string * gmap string Z) (child : string) :
    list string * gmap string Z :=
  let '(ready, indegree) := acc in
  let degree := saturating_sub (default 0%Z (indegree !! child)) 1 in
  (if decide (degree = 0%Z) then child :: ready else ready, <[child := degree]> indegree).

(** [while let Some(node) = ready.pop()]; [None] when the fuel runs out. *)
Fixpoint kahn (fuel : nat) (children : gmap string (list string)) (ready : list string)
    (indegree : gmap string Z) (visited : Z) : option Z :=
  match ready with
  | [] => Some visited
  | node :: ready =>
      match fuel with
      | O => None
      | S fuel =>
          let '(ready, indegree) :=
            fold_left release_child (default [] (children !! node)) (ready, indegree) in
          kahn fuel children ready indegree (visited + 1)
      end
  end.

Section order.
(** [HashMap::iter]. *)
Context (hash_order : gmap string Z → list (string * Z)).

(** The entries are collected into a vector whose last element is popped
    first. *)
Definition initial_ready (indegree : gmap string Z) : list string :=
  reverse (filter (λ kv, kv.2 = 0%Z) (hash_order indegree)).*1.

(** Every node is pushed at most once, so one unit of fuel per node is enough. *)
Definition visited_nodes (nodes : list WorkflowNode) : option Z :=
  let indegree := indegrees nodes in
  kahn (length nodes) (children_map nodes) (initial_ready indegree) indegree 0.

Definition validate_definition (d : WorkflowDefinition) : check :=
  reject (trim_is_empty (wd_id d)) EmptyWorkflowId ;;?
  ensure (bool_decide (wd_schema_version d = 1 ∨ wd_schema_version d = 2)%Z)
    (UnsupportedSchemaVersion (wd_schema_version d)) ;;?
  reject (trim_is_empty (wd_version d)) EmptyVersion ;;?
  reject (trim_is_empty (wd_description d)) EmptyDescription ;;?
  let ids : gset string := list_to_set (wn_id <$> wd_nodes d) in
  reject (bool_decide (size ids ≠ length (wd_nodes d))) DuplicateNodeIds ;;?
  for_each (validate_node (wd_schema_version d) ids) (wd_nodes d) ;;?
  for_each (λ o, reject (trim_is_empty o.1 || bool_decide (o.2 ∉ ids))
                   (UnknownOutputNode o.1 o.2)) (wd_outputs d) ;;?
  ensure (bool_decide (visited_nodes (wd_nodes d) = Some (Z.of_nat (length (wd_nodes d)))))
    DependencyCycle.
End order.

(** ** Role references and roles *)

Definition validate_node_roles (role_exists : string → bool) (node : WorkflowNode) : check :=
  let optional e o :=
    match o with Some r => ensure (role_exists r) (e (wn_id node) r) | None => Ok tt end in
  optional UnknownRole (wn_role node) ;;?
  match wn_collaboration node with
  | Configured config =>
      for_each (λ p, ensure (role_exists (wp_role p)) (UnknownWorkerRole (wn_id node) (wp_role p)))
        (cc_worker_roles config) ;;?
      optional UnknownPrimaryRole (cc_primary_role config) ;;?
      optional UnknownReviewerRole (cc_reviewer_role config)
  | _ => Ok tt
  end.

Definition validate_definition_role_references (role_exists : string → bool)
    (d : WorkflowDefinition) : check :=
  for_each (validate_node_roles role_exists) (wd_nodes d).

Definition validate_role (role : AgentRoleDefinition) : check :=
  reject (trim_is_empty (rd_id role)) EmptyRoleId ;;?
  reject (trim_is_empty (rd_description role)) (EmptyRoleDescription (rd_id role)) ;;?
  match rd_context_policy role with
  | Some p => ensure (bool_decide (p = "isolated" ∨ p = "isolated_verification"))
                (UnsupportedContextPolicy (rd_id role) p)
  | None => Ok tt
  end ;;?
  match rd_recursion_policy role with
  | Some p => ensure (bool_decide (p = "none" ∨ p = "bounded"))
                (UnsupportedRecursionPolicy (rd_id role) p)
  | None => Ok tt
  end.
