(* ===== verification/WorkflowGraph.v ===== *)
(** * The dependency graph of a Workflow

    Correctness of the acyclicity check of WorkflowValidation.v: the loop
    visits every node exactly when the dependency relation has no cycle, for
    every iteration order of the hash maps. *)
From stdpp Require Import relations.
From S2P Require Import Prelude Json Types WorkflowTypes WorkflowValidation.

(** ** Specification *)

(** [a] lists [d] among its dependencies. *)
Definition depends (nodes : list WorkflowNode) (a d : string) : Prop :=
  ∃ n, n ∈ nodes ∧ wn_id n = a ∧ d ∈ wn_depends_on n.

Definition acyclic (nodes : list WorkflowNode) : Prop :=
  ∀ a, ¬ tc (depends nodes) a a.

(** What the checks before the loop establish. *)
Definition closed_graph (nodes : list WorkflowNode) : Prop :=
  NoDup (wn_id <$> nodes) ∧
  ∀ n d, n ∈ nodes → d ∈ wn_depends_on n → d ∈ wn_id <$> nodes.

(** ** Counting occurrences *)

Definition cnt (x : string) (l : list string) : nat := length (filter (λ y, y = x) l).

Lemma cnt_nil x : cnt x [] = 0.
Proof. done. Qed.

Lemma cnt_cons x y l : cnt x (y :: l) = (if decide (y = x) then 1 else 0) + cnt x l.
Proof. unfold cnt. rewrite filter_cons. by case_decide. Qed.

Lemma cnt_app x l k : cnt x (l ++ k) = cnt x l + cnt x k.
Proof. unfold cnt. by rewrite filter_app, length_app. Qed.

Lemma cnt_pos x l : x ∈ l ↔ 0 < cnt x l.
Proof.
  induction l as [|y l IH].
  - rewrite cnt_nil. split; [by intros ?%elem_of_nil|lia].
  - rewrite elem_of_cons, cnt_cons, IH. case_decide as E; [split; [lia|by left]|].
    split; [intros [->|Hx]; [done|lia]|right; lia].
Qed.

(** The dependencies that are not in [V]. *)
Definition pending (V l : list string) : nat := length (filter (λ d, d ∉ V) l).

Lemma pending_cons v V l : v ∉ V → pending V l = cnt v l + pending (v :: V) l.
Proof.
  intros Hv. induction l as [|d l IH]; [done|].
  unfold pending in *. rewrite cnt_cons, !filter_cons. destruct (decide (d = v)) as [->|Hd].
  - rewrite decide_True by done. rewrite decide_False by set_solver. simpl. lia.
  - destruct (decide (d ∉ V)) as [H|H].
    + rewrite decide_True by set_solver. simpl. lia.
    + rewrite decide_False by set_solver. lia.
Qed.

Lemma pending_nil l : pending [] l = length l.
Proof.
  unfold pending. induction l as [|d l IH]; [done|]. rewrite filter_cons, decide_True by set_solver.
  simpl. f_equal. exact IH.
Qed.

Lemma pending_zero V l : pending V l = 0 ↔ ∀ d, d ∈ l → d ∈ V.
Proof.
  unfold pending. split.
  - intros H%nil_length_inv d Hd. destruct (decide (d ∈ V)); [done|]. exfalso.
    assert (d ∈ filter (λ d, d ∉ V) l) as Hf by by apply list_elem_of_filter.
    rewrite H in Hf. by apply elem_of_nil in Hf.
  - intros H. destruct (filter _ l) as [|d k] eqn:E; [done|]. exfalso.
    assert (d ∈ filter (λ d, d ∉ V) l) as [Hd Hl]%list_elem_of_filter
      by (rewrite E; by left).
    by apply Hd, H.
Qed.

(** ** The maps the loop works on *)

Fixpoint deps_of (nodes : list WorkflowNode) (a : string) : list string :=
  match nodes with
  | [] => []
  | n :: nodes => if decide (wn_id n = a) then wn_depends_on n else deps_of nodes a
  end.

Lemma deps_of_node nodes n :
  NoDup (wn_id <$> nodes) → n ∈ nodes → deps_of nodes (wn_id n) = wn_depends_on n.
Proof.
  induction nodes as [|m nodes IH]; [by intros _ ?%elem_of_nil|].
  rewrite fmap_cons, NoDup_cons, elem_of_cons. intros [Hm Hnd] [->|Hn]; simpl.
  - by rewrite decide_True.
  - rewrite decide_False; [by apply IH|]. intros E. apply Hm. rewrite E. by apply list_elem_of_fmap_2.
Qed.

Lemma deps_of_other nodes a : a ∉ wn_id <$> nodes → deps_of nodes a = [].
Proof.
  induction nodes as [|m nodes IH]; [done|]. rewrite fmap_cons, not_elem_of_cons. intros [Hm Ha].
  simpl. rewrite decide_False by congruence. by apply IH.
Qed.

Lemma depends_deps nodes a d :
  NoDup (wn_id <$> nodes) → depends nodes a d ↔ d ∈ deps_of nodes a.
Proof.
  intros Hnd. split.
  - intros (n & Hn & <- & Hd). by rewrite deps_of_node.
  - intros Hd. destruct (decide (a ∈ wn_id <$> nodes)) as [Ha|Ha].
    + apply list_elem_of_fmap in Ha as (n & -> & Hn). exists n. by rewrite deps_of_node in Hd.
    + rewrite deps_of_other in Hd by done. by apply elem_of_nil in Hd.
Qed.

Definition degree (m : gmap string Z) (a : string) : Z := default 0%Z (m !! a).

Lemma indegrees_fold nodes (m : gmap string Z) a :
  NoDup (wn_id <$> nodes) →
  fold_left (λ m n, <[wn_id n := Z.of_nat (length (wn_depends_on n))]> m) nodes m !! a =
  if decide (a ∈ wn_id <$> nodes) then Some (Z.of_nat (length (deps_of nodes a))) else m !! a.
Proof.
  revert m. induction nodes as [|n nodes IH]; intros m Hnd.
  - by rewrite decide_False by apply not_elem_of_nil.
  - rewrite fmap_cons, NoDup_cons in Hnd. destruct Hnd as [Hn Hnd].
    cbn [fold_left deps_of]. rewrite IH by done. rewrite fmap_cons.
    destruct (decide (wn_id n = a)) as [<-|Hne].
    + rewrite decide_False by done. rewrite lookup_insert, !decide_True; [done|by left|done].
    + rewrite lookup_insert_ne by done.
      destruct (decide (a ∈ wn_id <$> nodes)) as [Ha|Ha].
      * by rewrite decide_True by by right.
      * rewrite decide_False; [done|]. by rewrite elem_of_cons; intros [->|?].
Qed.

Lemma indegrees_lookup nodes a :
  NoDup (wn_id <$> nodes) →
  indegrees nodes !! a =
  if decide (a ∈ wn_id <$> nodes) then Some (Z.of_nat (length (deps_of nodes a))) else None.
Proof. apply indegrees_fold. Qed.

Definition kids (m : gmap string (list string)) (d : string) : list string := default [] (m !! d).

Lemma kids_push_child i m d d' :
  kids (push_child i m d') d = if decide (d' = d) then kids m d ++ [i] else kids m d.
Proof. unfold kids, push_child. rewrite lookup_insert. case_decide; by subst. Qed.

Lemma kids_node i ds m c d :
  cnt c (kids (fold_left (push_child i) ds m) d) =
  cnt c (kids m d) + if decide (i = c) then cnt d ds else 0.
Proof.
  revert m. induction ds as [|d' ds IH]; intros m; cbn [fold_left].
  - rewrite cnt_nil. case_decide; lia.
  - rewrite IH, kids_push_child, cnt_cons. case_decide; case_decide; try done.
    + rewrite cnt_app, cnt_cons, cnt_nil, decide_True by done. lia.
    + rewrite cnt_app, cnt_cons, cnt_nil, decide_False by done. lia.
Qed.

Lemma kids_nodes nodes m c d :
  NoDup (wn_id <$> nodes) →
  cnt c (kids (fold_left (λ m n, fold_left (push_child (wn_id n)) (wn_depends_on n) m) nodes m) d) =
  cnt c (kids m d) + cnt d (deps_of nodes c).
Proof.
  revert m. induction nodes as [|n nodes IH]; intros m Hnd; cbn [fold_left deps_of].
  - rewrite cnt_nil. lia.
  - rewrite fmap_cons, NoDup_cons in Hnd. destruct Hnd as [Hn Hnd].
    rewrite IH by done. rewrite kids_node. case_decide as E.
    + subst c. rewrite deps_of_other by done. rewrite cnt_nil. lia.
    + lia.
Qed.

(** The edges are stored backwards, with their multiplicity. *)
Lemma children_cnt nodes c d :
  NoDup (wn_id <$> nodes) → cnt c (kids (children_map nodes) d) = cnt d (deps_of nodes c).
Proof. intros Hnd. unfold children_map. by rewrite kids_nodes. Qed.

(** ** The inner loop *)

Lemma degree_insert m c z a :
  degree (<[c := z]> m) a = if decide (c = a) then z else degree m a.
Proof. unfold degree. rewrite lookup_insert. by case_decide. Qed.

(** Releasing the children of a node lowers each degree by its number of edges
    and pushes, once, each child whose last edge went. *)
Lemma release_spec cs ready m :
  (∀ c, Z.of_nat (cnt c cs) ≤ degree m c)%Z →
  ∃ pushed m',
    fold_left release_child cs (ready, m) = (pushed ++ ready, m') ∧
    (∀ c, degree m' c = degree m c - Z.of_nat (cnt c cs))%Z ∧
    NoDup pushed ∧ ∀ c, c ∈ pushed ↔ c ∈ cs ∧ degree m' c = 0%Z.
Proof.
  revert ready m. induction cs as [|c0 cs IH]; intros ready m Hm.
  - exists [], m. split_and!; [done| |constructor|].
    + intros c. rewrite cnt_nil. lia.
    + intros c. split; [by intros ?%elem_of_nil|by intros [?%elem_of_nil _]].
  - cbn [fold_left release_child]. fold (degree m c0).
    pose proof (Hm c0) as H0. rewrite cnt_cons, decide_True in H0 by done.
    set (deg := saturating_sub (degree m c0) 1).
    assert (deg = degree m c0 - 1)%Z as Hdeg by (unfold deg, saturating_sub; lia).
    assert (∀ c, degree (<[c0 := deg]> m) c =
                 degree m c - Z.of_nat (if decide (c0 = c) then 1 else 0))%Z as Hd1.
    { intros c. rewrite degree_insert. case_decide; subst; lia. }
    destruct (IH (if decide (deg = 0%Z) then c0 :: ready else ready) (<[c0 := deg]> m))
      as (pushed & m' & Hf & Hm' & Hnd & Hp).
    { intros c. rewrite Hd1. specialize (Hm c). rewrite cnt_cons in Hm. case_decide; lia. }
    assert (∀ c, degree m' c = degree m c - Z.of_nat (cnt c (c0 :: cs)))%Z as Hm''.
    { intros c. rewrite Hm', Hd1, cnt_cons. case_decide; lia. }
    pose proof (Hm'' c0) as Hc0. rewrite cnt_cons, decide_True in Hc0 by done.
    destruct (decide (deg = 0%Z)) as [Hz|Hz].
    + assert (c0 ∉ cs) as Hn0 by (rewrite cnt_pos; lia).
      exists (pushed ++ [c0]), m'. rewrite Hf, <-app_assoc. split_and!; [done|done| |].
      * apply NoDup_app. split_and!; [done| |by apply NoDup_singleton].
        intros c [Hc _]%Hp ->%list_elem_of_singleton. done.
      * intros c. rewrite elem_of_app, Hp, list_elem_of_singleton, elem_of_cons. split.
        -- intros [[Hc Hz']| ->]; [by auto|]. split; [by left|].
           assert (cnt c0 cs = 0) by (destruct (cnt c0 cs) eqn:E; [done|]; exfalso; apply Hn0, cnt_pos; lia).
           lia.
        -- intros [[->|Hc] Hz']; [by right|by left].
    + exists pushed, m'. rewrite Hf. split_and!; [done|done|done|].
      intros c. rewrite Hp, elem_of_cons. split; [naive_solver|].
      intros [[->|Hc] Hz']; [|done]. split; [|done]. apply cnt_pos. lia.
Qed.

(** ** The outer loop *)

(** A list in which every node comes after (to the left of) its dependencies. *)
Inductive topological (nodes : list WorkflowNode) : list string → Prop :=
  | topo_nil : topological nodes []
  | topo_cons v V :
      (∀ d, d ∈ deps_of nodes v → d ∈ V) → topological nodes V → topological nodes (v :: V).

(** [V] is the list of visited nodes, most recent first. *)
Record kahn_inv (nodes : list WorkflowNode) (V ready : list string) (m : gmap string Z) : Prop := {
  ki_nodup : NoDup (V ++ ready);
  ki_nodes : ∀ c, c ∈ V ++ ready → c ∈ wn_id <$> nodes;
  ki_degree : ∀ c, degree m c = Z.of_nat (pending V (deps_of nodes c));
  ki_ready : ∀ c, c ∈ wn_id <$> nodes → degree m c = 0%Z ↔ c ∈ V ++ ready;
  ki_topo : topological nodes V;
}.

Section graph.
Context (nodes : list WorkflowNode) (Hclosed : closed_graph nodes).

Lemma kahn_round V v ready m :
  kahn_inv nodes V (v :: ready) m →
  ∃ ready' m',
    fold_left release_child (kids (children_map nodes) v) (ready, m) = (ready', m') ∧
    kahn_inv nodes (v :: V) ready' m'.
Proof.
  intros [Hnd Hin Hdeg Hready Htopo]. destruct Hclosed as [Hids _].
  assert (v ∉ V) as Hv.
  { apply NoDup_app in Hnd as (_ & Hd & _). intros HV. apply (Hd v HV). by left. }
  assert (v ∈ wn_id <$> nodes) as Hvn by (apply Hin; rewrite elem_of_app; right; by left).
  assert (∀ c, degree m c - Z.of_nat (cnt c (kids (children_map nodes) v)) =
               Z.of_nat (pending (v :: V) (deps_of nodes c)))%Z as Hstep.
  { intros c. rewrite Hdeg, children_cnt by done. rewrite (pending_cons v) by done. lia. }
  destruct (release_spec (kids (children_map nodes) v) ready m) as (pushed & m' & -> & Hm' & Hp & Hpin).
  { intros c. specialize (Hstep c). lia. }
  assert (∀ c, c ∈ pushed → c ∉ V ++ v :: ready ∧ c ∈ wn_id <$> nodes) as Hfresh.
  { intros c [Hc _]%Hpin. apply cnt_pos in Hc as Hpos. rewrite children_cnt in Hpos by done.
    assert (c ∈ wn_id <$> nodes) as Hcn.
    { destruct (decide (c ∈ wn_id <$> nodes)) as [|Hcn]; [done|].
      rewrite deps_of_other, cnt_nil in Hpos by done. lia. }
    split; [|done]. rewrite <-Hready by done. rewrite Hdeg, (pending_cons v) by done. lia. }
  exists (pushed ++ ready), m'. split; [done|]. split.
  - assert (NoDup (pushed ++ (V ++ v :: ready))) as Hall.
    { apply NoDup_app. split_and!; [done| |done]. intros c Hc. by apply Hfresh. }
    eapply NoDup_Permutation_proper; [|exact Hall].
    rewrite (Permutation_app_comm V (v :: ready)). simpl. rewrite <-Permutation_middle.
    rewrite (Permutation_app_comm V). by rewrite app_assoc.
  - intros c. rewrite elem_of_app, elem_of_cons, elem_of_app.
    intros [[->|Hc]|[Hc|Hc]]; [done| | |]; [apply Hin, elem_of_app; by left|by apply Hfresh|].
    apply Hin. rewrite elem_of_app, elem_of_cons. auto.
  - intros c. by rewrite Hm', Hstep.
  - intros c Hc. split.
    + intros Hz. destruct (decide (degree m c = 0%Z)) as [H0|H0].
      * apply Hready in H0; [|done]. revert H0. rewrite !elem_of_app, !elem_of_cons. tauto.
      * rewrite elem_of_app, elem_of_app. right. left. apply Hpin. split; [|done].
        apply cnt_pos. specialize (Hm' c). lia.
    + rewrite !elem_of_app, elem_of_cons. intros H.
      destruct (decide (c ∈ pushed)) as [Hcp|Hcp]; [by apply Hpin|].
      assert (degree m c = 0%Z) as H0 by (apply Hready; [done|]; rewrite elem_of_app, elem_of_cons; tauto).
      specialize (Hstep c). rewrite Hm'. lia.
  - constructor; [|done]. apply pending_zero.
    assert (degree m v = 0%Z) as H0 by (apply Hready; [done|]; rewrite elem_of_app; right; by left).
    rewrite Hdeg in H0. lia.
Qed.

Lemma kahn_total fuel V ready m :
  kahn_inv nodes V ready m → length nodes ≤ fuel + length V →
  ∃ V' m', kahn fuel (children_map nodes) ready m (Z.of_nat (length V)) =
             Some (Z.of_nat (length V')) ∧ kahn_inv nodes V' [] m'.
Proof.
  revert V ready m. induction fuel as [|fuel IH]; intros V [|v ready] m Hi Hfuel.
  - by exists V, m.
  - exfalso. assert (length (V ++ v :: ready) ≤ length (wn_id <$> nodes)) as Hlen.
    { apply submseteq_length, NoDup_submseteq; [apply Hi|]. intros c. apply (ki_nodes _ _ _ _ Hi). }
    rewrite length_app, length_fmap in Hlen. simpl in Hlen. lia.
  - by exists V, m.
  - destruct (kahn_round V v ready m Hi) as (ready' & m' & Hf & Hi').
    cbn [kahn]. fold (kids (children_map nodes) v). rewrite Hf.
    replace (Z.of_nat (length V) + 1)%Z with (Z.of_nat (length (v :: V))) by (simpl; lia).
    apply IH; [done|]. simpl. lia.
Qed.

Lemma topological_sound V :
  topological nodes V → ∀ a, a ∈ V → ¬ tc (depends nodes) a a.
Proof.
  intros Htopo.
  assert (∀ a, a ∈ V → Acc (flip (depends nodes)) a) as Hacc.
  { induction Htopo as [|v V Hv _ IH]; [by intros a ?%elem_of_nil|].
    intros a [->|Ha]%elem_of_cons; [|by apply IH]. constructor. intros d Hd.
    apply IH, Hv. by apply depends_deps; [apply Hclosed|]. }
  intros a Ha%Hacc. induction Ha as [a _ IH]. intros Hcyc.
  assert (∃ d, depends nodes a d ∧ tc (depends nodes) d d) as (d & Hd & Hdd).
  { inversion Hcyc as [? ? H|? d ? Hd Htc]; subst; [by exists a|]. exists d. split; [done|].
    eapply tc_transitive; [done|by apply tc_once]. }
  by apply (IH d Hd).
Qed.

Lemma depends_in_nodes a d : depends nodes a d → a ∈ wn_id <$> nodes ∧ d ∈ wn_id <$> nodes.
Proof.
  intros (n & Hn & <- & Hd). split; [by apply list_elem_of_fmap_2|]. by eapply Hclosed.
Qed.

Lemma acyclic_sn a : acyclic nodes → sn (depends nodes) a.
Proof.
  intros Hac. apply tc_finite_sn; [by intros x Hx; apply (Hac x)|].
  exists (wn_id <$> nodes). intros d Hd. induction Hd as [x y H|x y z H _ IH]; [|done].
  by apply depends_in_nodes in H as [].
Qed.

(** At the end of the loop the visited nodes are all of them exactly when the
    graph has no cycle. *)
Lemma kahn_complete V m :
  kahn_inv nodes V [] m → length V = length nodes ↔ acyclic nodes.
Proof.
  intros [Hnd Hin Hdeg Hready Htopo]. rewrite app_nil_r in *.
  assert (length V = length nodes ↔ ∀ c, c ∈ wn_id <$> nodes → c ∈ V) as ->.
  { rewrite <-(length_fmap wn_id nodes). split.
    - intros Hlen c Hc. assert (V ≡ₚ wn_id <$> nodes) as ->; [|done].
      apply submseteq_length_Permutation; [by apply NoDup_submseteq|lia].
    - intros H. apply Nat.le_antisymm; apply submseteq_length, NoDup_submseteq;
        [done|done|apply Hclosed|done]. }
  split.
  - intros Hall a Ha. assert (a ∈ wn_id <$> nodes) as Han.
    { inversion Ha as [? ? H|? ? ? H _]; subst; by apply depends_in_nodes in H as []. }
    by apply (topological_sound V Htopo a); [apply Hall|].
  - intros Hac c. induction (acyclic_sn c Hac) as [c _ IH]. intros Hc.
    apply Hready; [done|]. rewrite Hdeg.
    assert (pending V (deps_of nodes c) = 0) as ->; [|done].
    apply pending_zero. intros d Hd. apply depends_deps in Hd; [|apply Hclosed].
    apply IH; [done|]. by apply depends_in_nodes in Hd as [].
Qed.

Section order.
Context (hash_order : gmap string Z → list (string * Z)).
Hypothesis hash_order_entries : ∀ m, hash_order m ≡ₚ map_to_list m.

Lemma initial_inv : kahn_inv nodes [] (initial_ready hash_order (indegrees nodes)) (indegrees nodes).
Proof.
  destruct Hclosed as [Hids _].
  assert (∀ c, c ∈ initial_ready hash_order (indegrees nodes) ↔ indegrees nodes !! c = Some 0%Z) as Hin.
  { intros c. unfold initial_ready. rewrite elem_of_reverse, list_elem_of_fmap.
    setoid_rewrite list_elem_of_filter. setoid_rewrite hash_order_entries.
    split.
    - intros ([c' z] & -> & Hz & H). apply elem_of_map_to_list in H. simpl in *. by subst.
    - intros H. exists (c, 0%Z). split_and!; [done|done|]. by apply elem_of_map_to_list. }
  split; simpl.
  - unfold initial_ready. rewrite reverse_Permutation.
    assert (NoDup (hash_order (indegrees nodes)).*1) as Hnd.
    { rewrite hash_order_entries. apply NoDup_fst_map_to_list. }
    revert Hnd. generalize (hash_order (indegrees nodes)). intros l.
    intros Hnd. eapply sublist_NoDup; [exact Hnd|by apply fmap_sublist, sublist_filter].
  - intros c Hc. apply Hin in Hc. rewrite indegrees_lookup in Hc by done. by case_decide.
  - intros c. unfold degree. rewrite indegrees_lookup, pending_nil by done.
    case_decide; [done|]. by rewrite deps_of_other.
  - intros c Hc. rewrite Hin. unfold degree. rewrite indegrees_lookup, decide_True by done.
    simpl. split; [by intros ->|congruence].
  - constructor.
Qed.

Lemma visited_all_iff_acyclic :
  visited_nodes hash_order nodes = Some (Z.of_nat (length nodes)) ↔ acyclic nodes.
Proof.
  unfold visited_nodes.
  destruct (kahn_total (length nodes) [] _ _ initial_inv) as (V & m & Hk & Hi); [simpl; lia|].
  change (Z.of_nat (length (@nil string))) with 0%Z in Hk. rewrite Hk.
  rewrite <-(kahn_complete V m Hi). split; [intros [= H]; lia|by intros ->].
Qed.

Lemma visited_nodes_total : ∃ n, visited_nodes hash_order nodes = Some n.
Proof.
  unfold visited_nodes.
  destruct (kahn_total (length nodes) [] _ _ initial_inv) as (V & m & Hk & _); [simpl; lia|].
  by exists (Z.of_nat (length V)).
Qed.
End order.
End graph.
