(* ===== verification/WorkflowFacts.v ===== *)
(** * What an accepted Workflow definition guarantees

    A declarative specification of a well-formed definition, and the proof that
    [validate_definition] of WorkflowValidation.v decides it. *)
From stdpp Require Import relations.
From S2P Require Import Prelude Json Types WorkflowTypes WorkflowValidation WorkflowGraph.

(** ** Reading a check *)

Lemma reject_ok b e u : reject b e = Ok u ↔ b = false.
Proof. unfold reject. rewrite ensure_ok. apply negb_true_iff. Qed.

Lemma seq_ok {B} (r : check) (k : result B ValidationError) b :
  (r ;;? k) = Ok b ↔ r = Ok tt ∧ k = Ok b.
Proof.
  rewrite rbind_ok. split; [intros ([] & H1 & H2)|intros [H1 H2]; exists tt]; done.
Qed.

Lemma ok_unit (r : check) u : r = Ok u ↔ r = Ok tt.
Proof. by destruct u. Qed.

Lemma bool_decide_false (P : Prop) `{Decision P} : bool_decide P = false ↔ ¬ P.
Proof. apply bool_decide_eq_false. Qed.

Ltac read_check :=
  repeat first
    [ rewrite seq_ok | rewrite reject_ok | rewrite ensure_ok | rewrite bool_decide_eq_true
    | rewrite bool_decide_eq_false | rewrite orb_false_iff | rewrite andb_true_iff
    | rewrite negb_true_iff ].

(** ** Conditions *)

Definition text (rule : list (string * Value)) (field s : string) : Prop :=
  assoc field rule = Some (VString s) ∧ trim_is_empty s = false.

(** The rule has exactly the given fields and a non-blank [field]. *)
Definition comparison (rule : list (string * Value)) (fields : list string) : Prop :=
  length rule = length fields ∧ (∀ f, f ∈ fields → is_Some (assoc f rule)) ∧
  ∃ s, text rule "field" s.

Inductive condition_ok (node : WorkflowNode) : Value → Prop :=
  | cond_always b : condition_ok node (VObject [("always", VBool b)])
  | cond_children op l :
      op = "all" ∨ op = "any" → (∀ v, v ∈ l → condition_ok node v) →
      condition_ok node (VObject [(op, VArray l)])
  | cond_parameter op rule :
      op = "parameter_equals" ∨ op = "parameter_not_equals" →
      comparison rule ["field"; "value"] → condition_ok node (VObject [(op, VObject rule)])
  | cond_output rule source :
      comparison rule ["node"; "field"; "value"] → text rule "node" source →
      source ∈ wn_depends_on node →
      condition_ok node (VObject [("node_output_equals", VObject rule)]).

Lemma required_ok node op rule field s :
  required_non_empty_string node op rule field = Ok s ↔ text rule field s.
Proof.
  unfold required_non_empty_string, text, non_empty. rewrite ok_or_ok.
  destruct (assoc field rule) as [[| | |t| |]|]; simpl; try (split; [done|by intros []]).
  destruct (trim_is_empty t) eqn:E.
  - split; [done|]. intros [[= ->] H]. congruence.
  - split; [by intros [= ->]|by intros [[= ->] _]].
Qed.

Lemma existsb_false {A} (f : A → bool) l : existsb f l = false ↔ ∀ x, x ∈ l → f x = false.
Proof.
  induction l as [|y l IH]; simpl; [split; [by intros _ x ?%elem_of_nil|done]|].
  rewrite orb_false_iff, IH. setoid_rewrite elem_of_cons. naive_solver.
Qed.

Lemma comparison_ok node op rule fields r :
  validate_comparison_rule node op rule fields = Ok r ↔ rule = VObject r ∧ comparison r fields.
Proof.
  unfold validate_comparison_rule, comparison. rewrite rbind_ok. setoid_rewrite ok_or_ok.
  setoid_rewrite seq_ok. setoid_rewrite reject_ok. setoid_rewrite orb_false_iff.
  setoid_rewrite bool_decide_false. setoid_rewrite existsb_false.
  setoid_rewrite rbind_ok. setoid_rewrite required_ok.
  assert (∀ (l : list (string * Value)) f, (match assoc f l with None => true | Some _ => false end) = false
            ↔ is_Some (assoc f l)) as E.
  { intros l f. destruct (assoc f l); split; try done; by intros []. }
  setoid_rewrite E. split.
  - intros (l & Hl & [Hlen Hf] & s & Hs & [= <-]). destruct rule; try done. injection Hl as ->.
    split_and!; [done|lia|done|by exists s].
  - intros (-> & Hlen & Hf & s & Hs). exists r. split_and!; [done|lia|done|]. by exists s.
Qed.

Lemma validate_children node l :
  (fix go (l : list Value) : check :=
     match l with
     | [] => Ok tt
     | child :: l => validate_condition node child ;;? go l
     end) l = Ok tt ↔ Forall (λ v, validate_condition node v = Ok tt) l.
Proof.
  induction l as [|v l IH]; [by split|]. rewrite Forall_cons, <-IH. apply seq_ok.
Qed.

Lemma validate_condition_deep node v :
  (validate_condition node v = Ok tt ↔ condition_ok node v) ∧
  ∀ l, v = VArray l → ∀ x, x ∈ l → validate_condition node x = Ok tt ↔ condition_ok node x.
Proof.
  induction v as [| | | |l IH|l IH] using value_ind'; split; try done;
    try (split; [done|by inversion 1]).
  { intros l' [= <-] x Hx. rewrite Forall_forall in IH. by apply IH. }
  destruct l as [|[op rule] [|]]; [split; [done|by inversion 1]| |split; [done|by inversion 1]].
  inversion IH as [|? ? [_ Hrule] _]; subst. simpl in Hrule. cbn [validate_condition]. split.
  - repeat case_decide; subst; [| | | |done].
    + intros ?%ensure_ok. destruct rule; try done. constructor.
    + destruct rule as [| | | |l|]; try done. intros Hl%validate_children.
      rewrite Forall_forall in Hl. constructor; [done|]. intros x Hx. apply (Hrule l); auto.
    + intros (r & [-> Hr]%comparison_ok & _)%rbind_ok. by constructor.
    + intros (r & [-> Hr]%comparison_ok & Hn)%rbind_ok.
      apply rbind_ok in Hn as (s & Hs%required_ok & Hn).
      apply ensure_ok, bool_decide_eq_true in Hn. by econstructor.
  - inversion 1 as [b|? l Hop Hl|? r Hop Hr|r s Hr Hs Hd]; subst.
    + by rewrite decide_True.
    + rewrite decide_False by naive_solver. rewrite decide_True by done. apply validate_children.
      apply Forall_forall. intros x Hx. apply (Hrule l); auto.
    + rewrite decide_False by naive_solver. rewrite decide_False by naive_solver.
      rewrite decide_True by done. apply rbind_ok. exists r. by rewrite comparison_ok.
    + rewrite decide_False by naive_solver. rewrite decide_False by naive_solver.
      rewrite decide_False by naive_solver. rewrite decide_True by done.
      apply rbind_ok. exists r. split; [by apply comparison_ok|]. apply rbind_ok. exists s.
      split; [by apply required_ok|]. by apply ensure_ok, bool_decide_eq_true.
Qed.

Lemma validate_condition_ok node v : validate_condition node v = Ok tt ↔ condition_ok node v.
Proof. apply validate_condition_deep. Qed.

(** ** Collaboration settings *)

Definition within (max v : Z) : Prop := (v ≠ 0 ∧ v ≤ max)%Z.

Record worker_ok (config : CollaborationRuntimeConfig) (p : WorkerRolePolicy) : Prop := {
  wo_named : trim_is_empty (wp_role p) = false;
  wo_concurrent : wp_max_concurrent p ≠ 0%Z;
  wo_total : wp_max_total p ≠ 0%Z;
  wo_order : (wp_max_concurrent p ≤ wp_max_total p ≤ cc_max_tasks config)%Z;
}.

Definition has_text (o : option string) (s : string) : Prop :=
  o = Some s ∧ trim_is_empty s = false.

(** What each strategy asks for. *)
Definition staffing_ok (node : WorkflowNode) (config : CollaborationRuntimeConfig) : Prop :=
  let roles := wp_role <$> cc_worker_roles config in
  match cc_strategy config with
  | Single => roles = []
  | Supervisor => roles ≠ [] ∧ ∃ r, has_text (wn_role node) r
  | Team | Fanout =>
      2 ≤ length roles ∧ (total_workers config ≤ cc_max_tasks config)%Z ∧
      ∃ r, has_text (wn_role node) r
  | IndependentReviewer =>
      (total_workers config ≤ cc_max_tasks config)%Z ∧
      ∃ primary reviewer,
        has_text (cc_primary_role config) primary ∧ has_text (cc_reviewer_role config) reviewer ∧
        primary ≠ reviewer ∧ roles ≡ₚ [primary; reviewer] ∧
        (wn_role node = None ∨ wn_role node = Some reviewer)
  end.

Record config_ok (node : WorkflowNode) (config : CollaborationRuntimeConfig) : Prop := {
  co_concurrent : within MAX_CONCURRENT_WORKERS (cc_max_concurrent_workers config);
  co_tasks : within (if decide (cc_strategy config = Supervisor) then MAX_SUPERVISOR_TASKS
                     else MAX_MULTI_AGENT_TASKS) (cc_max_tasks config);
  co_rounds : within MAX_COORDINATOR_ROUNDS (cc_max_coordinator_rounds config);
  co_pending : within DEFAULT_MAX_PENDING_MESSAGES (cc_max_pending_messages config);
  co_bytes : within DEFAULT_MAX_MESSAGE_BYTES (cc_max_message_bytes config);
  co_roles : (Z.of_nat (length (cc_worker_roles config)) ≤ MAX_WORKER_ROLES)%Z;
  co_distinct : NoDup (wp_role <$> cc_worker_roles config);
  co_workers : ∀ p, p ∈ cc_worker_roles config → worker_ok config p;
  co_reviewer_only : cc_strategy config ≠ IndependentReviewer →
    cc_primary_role config = None ∧ cc_reviewer_role config = None;
  co_staffing : staffing_ok node config;
}.

Lemma limit_ok node field v max : validate_limit node field v max = Ok tt ↔ within max v.
Proof. unfold validate_limit, within. read_check. lia. Qed.

Lemma non_empty_some o s : non_empty o = Some s ↔ has_text o s.
Proof.
  unfold non_empty, has_text. destruct o as [s'|]; [|naive_solver].
  destruct (trim_is_empty s') eqn:E.
  - split; [done|]. intros [[= ->] H]. congruence.
  - split; [by intros [= ->]|by intros [[= ->] _]].
Qed.

Lemma coordinator_ok node : coordinator_role node = Ok tt ↔ ∃ r, has_text (wn_role node) r.
Proof.
  unfold coordinator_role. rewrite rbind_ok. setoid_rewrite ok_or_ok. setoid_rewrite non_empty_some.
  naive_solver.
Qed.

Lemma worker_step_ok node config ids p ids' :
  validate_worker_role node config ids p = Ok ids' ↔
  worker_ok config p ∧ wp_role p ∉ ids ∧ ids' = {[wp_role p]} ∪ ids.
Proof.
  unfold validate_worker_role. read_check. split.
  - intros (H1 & H2 & H3 & H4 & H5 & H6 & [= <-]). split; [|done]. split; [done..|lia].
  - intros ([H1 H2 H3 H4] & Hn & ->). split_and!; [done..|lia|lia|done].
Qed.

Lemma workers_ok node config ps ids ids' :
  fold_result (validate_worker_role node config) ids ps = Ok ids' ↔
  (∀ p, p ∈ ps → worker_ok config p) ∧ NoDup (wp_role <$> ps) ∧
  (∀ p, p ∈ ps → wp_role p ∉ ids) ∧ ids' = ids ∪ list_to_set (wp_role <$> ps).
Proof.
  revert ids. induction ps as [|p ps IH]; intros ids; cbn [fold_result].
  - split; [intros [= <-]|intros (_ & _ & _ & ->)].
    + split_and!; [by intros ? ?%elem_of_nil|constructor|by intros ? ?%elem_of_nil|].
      simpl. set_solver.
    + f_equal. simpl. set_solver.
  - rewrite rbind_ok. setoid_rewrite worker_step_ok. setoid_rewrite IH.
    rewrite fmap_cons, NoDup_cons. setoid_rewrite elem_of_cons. split.
    + intros (_ & (Hp & Hn & ->) & Hps & Hnd & Hfresh & ->). split_and!; [naive_solver| |done| |].
      * intros (q & E & Hq)%list_elem_of_fmap. apply (Hfresh q Hq). rewrite E. set_solver.
      * intros q [->|Hq]; [done|]. specialize (Hfresh q Hq). set_solver.
      * rewrite list_to_set_cons. set_solver.
    + intros (Hps & [Hp Hnd] & Hfresh & ->). eexists. split; [split_and!; [auto|auto|done]|].
      split_and!; [auto|done| |rewrite list_to_set_cons; set_solver].
      intros q Hq. specialize (Hfresh q (or_intror Hq)).
      assert (wp_role q ≠ wp_role p); [|set_solver]. intros E. apply Hp. rewrite <-E.
      by apply list_elem_of_fmap_2.
Qed.

Lemma roles_exactly (roles : list string) (a b : string) :
  NoDup roles → a ≠ b →
  (size (list_to_set roles : gset string) = 2 ∧ a ∈ roles ∧ b ∈ roles) ↔ roles ≡ₚ [a; b].
Proof.
  intros Hnd Hab. rewrite size_list_to_set by done. split.
  - intros (Hlen & Ha & Hb). symmetry. apply submseteq_length_Permutation; [|simpl; lia].
    apply NoDup_submseteq; [|set_solver]. repeat constructor; set_solver.
  - intros Hp. rewrite Hp. set_solver.
Qed.

Lemma reviewer_ok node config :
  NoDup (wp_role <$> cc_worker_roles config) →
  validate_independent_reviewer node config (list_to_set (wp_role <$> cc_worker_roles config)) = Ok tt ↔
  ∃ primary reviewer,
    has_text (cc_primary_role config) primary ∧ has_text (cc_reviewer_role config) reviewer ∧
    primary ≠ reviewer ∧ wp_role <$> cc_worker_roles config ≡ₚ [primary; reviewer] ∧
    (wn_role node = None ∨ wn_role node = Some reviewer).
Proof.
  intros Hnd. unfold validate_independent_reviewer.
  destruct (non_empty (cc_primary_role config)) as [a|] eqn:Ea;
    [|split; [done|]; intros (a & b & Ha%non_empty_some & _); congruence].
  destruct (non_empty (cc_reviewer_role config)) as [b|] eqn:Eb;
    [|split; [done|]; intros (a' & b & _ & Hb%non_empty_some & _); congruence].
  read_check. transitivity (a ≠ b ∧ wp_role <$> cc_worker_roles config ≡ₚ [a; b] ∧
                            (wn_role node = None ∨ wn_role node = Some b)).
  - destruct (decide (a = b)) as [->|Hab]; [by split; intros []|]. rewrite <-roles_exactly by done.
    rewrite !elem_of_list_to_set.
    assert (match wn_role node with
            | Some role => reject (bool_decide (role ≠ b)) (ReviewerNodeRole (wn_id node) b)
            | None => Ok tt end = Ok tt ↔ wn_role node = None ∨ wn_role node = Some b) as ->.
    { destruct (wn_role node) as [r|]; [|naive_solver]. rewrite reject_ok, bool_decide_false.
      destruct (decide (r = b)); naive_solver. }
    destruct (decide (size (list_to_set (wp_role <$> cc_worker_roles config) : gset string) = 2));
    destruct (decide (a ∈ wp_role <$> cc_worker_roles config));
    destruct (decide (b ∈ wp_role <$> cc_worker_roles config)); tauto.
  - apply non_empty_some in Ea, Eb. split; [intros (H1 & H2 & H3); by exists a, b|].
    intros (a' & b' & [Ea' _] & [Eb' _] & H). destruct Ea as [Ea _], Eb as [Eb _].
    rewrite Ea in Ea'. rewrite Eb in Eb'. by simplify_eq.
Qed.

Lemma length_zero {A B} (f : A → B) (l : list A) : Z.of_nat (length l) = 0%Z ↔ f <$> l = [].
Proof. destruct l; simpl; split; try done; lia. Qed.

Lemma runtime_config_ok node config :
  validate_runtime_config node config = Ok tt ↔ config_ok node config.
Proof.
  unfold validate_runtime_config. rewrite !seq_ok, !limit_ok, reject_ok, bool_decide_false.
  rewrite rbind_ok. setoid_rewrite workers_ok. setoid_rewrite seq_ok. setoid_rewrite seq_ok.
  setoid_rewrite reject_ok. setoid_rewrite bool_decide_false. split.
  - intros (H1 & H2 & H3 & H4 & H5 & H6 & ids & (Hw & Hnd & _ & ->) & Hrev & Hsum & Hst).
    rewrite union_empty_l_L in Hst.
    split; try done; [lia| |].
    + intros Hs. destruct (cc_primary_role config), (cc_reviewer_role config); naive_solver.
    + unfold staffing_ok. destruct (cc_strategy config).
      * apply reject_ok, bool_decide_false in Hst. apply (length_zero wp_role). lia.
      * apply seq_ok in Hst as [Hl%reject_ok%bool_decide_false Hc%coordinator_ok].
        split; [|done]. by rewrite <-length_zero.
      * apply seq_ok in Hst as [Hl%reject_ok%bool_decide_false Hc%coordinator_ok].
        rewrite length_fmap. split_and!; [lia| |done]. apply Z.nlt_ge. naive_solver.
      * apply seq_ok in Hst as [Hl%reject_ok%bool_decide_false Hc%coordinator_ok].
        rewrite length_fmap. split_and!; [lia| |done]. apply Z.nlt_ge. naive_solver.
      * apply reviewer_ok in Hst; [|done]. split; [apply Z.nlt_ge; naive_solver|done].
  - intros [H1 H2 H3 H4 H5 H6 Hnd Hw Hrev Hst]. split_and!; [done..|lia|].
    exists (list_to_set (wp_role <$> cc_worker_roles config)). split.
    { split_and!; [done..|set_solver|set_solver]. }
    unfold staffing_ok in Hst. split; [naive_solver|].
    destruct (cc_strategy config) eqn:Es; (split; [intros [Hor Hlt]|]).
    + destruct Hor as [|[|]]; done.
    + apply reject_ok, bool_decide_false. rewrite (length_zero wp_role). by intros ?.
    + destruct Hor as [|[|]]; done.
    + destruct Hst as [Hne Hc]. apply seq_ok. rewrite reject_ok, bool_decide_false, coordinator_ok.
      by rewrite (length_zero wp_role).
    + destruct Hst as (_ & Hsum & _). lia.
    + destruct Hst as (Hl & _ & Hc). rewrite length_fmap in Hl. apply seq_ok.
      rewrite reject_ok, bool_decide_false, coordinator_ok. split; [lia|done].
    + destruct Hst as (_ & Hsum & _). lia.
    + destruct Hst as (Hl & _ & Hc). rewrite length_fmap in Hl. apply seq_ok.
      rewrite reject_ok, bool_decide_false, coordinator_ok. split; [lia|done].
    + destruct Hst as (Hsum & _). lia.
    + apply reviewer_ok; [done|]. apply Hst.
Qed.

(** ** Nodes and definitions *)

Definition collaboration_ok (version : Z) (node : WorkflowNode) : Prop :=
  match wn_collaboration node with
  | Configured config => version ≠ 1%Z ∧ config_ok node config
  | Fixed strategy => version = 1%Z ∨ strategy = Single
  | Auto | Inherit => True
  end.

(** The destination has a non-empty segment; the first segment of the source
    names a dependency. *)
Definition binding_ok (node : WorkflowNode) (b : OutputBinding) : Prop :=
  (∃ part, part ∈ split_dot (ob_to b) ∧ part ≠ "") ∧
  ∃ source rest, split_dot (ob_from b) = source :: rest ∧ source ≠ "" ∧
    source ∈ wn_depends_on node.

Record node_ok (version : Z) (nodes : list WorkflowNode) (node : WorkflowNode) : Prop := {
  no_named : trim_is_empty (wn_id node) = false;
  no_ref : ∀ r, wn_workflow_ref node = Some r → trim_is_empty r = false;
  no_collaboration : collaboration_ok version node;
  no_known : ∀ d, d ∈ wn_depends_on node → d ∈ wn_id <$> nodes ∧ d ≠ wn_id node;
  no_condition : ∀ c, wn_when node = Some c → condition_ok node c;
  no_bindings : ∀ b, b ∈ wn_output_bindings node → binding_ok node b;
}.

Record definition_ok (d : WorkflowDefinition) : Prop := {
  do_named : trim_is_empty (wd_id d) = false ∧ trim_is_empty (wd_version d) = false ∧
             trim_is_empty (wd_description d) = false;
  do_version : (wd_schema_version d = 1 ∨ wd_schema_version d = 2)%Z;
  do_distinct : NoDup (wn_id <$> wd_nodes d);
  do_nodes : ∀ n, n ∈ wd_nodes d → node_ok (wd_schema_version d) (wd_nodes d) n;
  do_outputs : ∀ name id, (name, id) ∈ wd_outputs d →
    trim_is_empty name = false ∧ id ∈ wn_id <$> wd_nodes d;
  do_acyclic : acyclic (wd_nodes d);
}.

Lemma collaboration_check version node :
  validate_collaboration version node = Ok tt ↔ collaboration_ok version node.
Proof.
  unfold validate_collaboration, collaboration_ok. case_decide as E.
  - destruct (wn_collaboration node); split; try done; [by left|by intros [? _]].
  - destruct (wn_collaboration node) as [|[]|config|]; try done;
      try (split; [done|by intros []]); try (split; [by right|done]).
    rewrite runtime_config_ok. tauto.
Qed.

Lemma forallb_empty l : forallb is_empty_string l = false ↔ ∃ p, p ∈ l ∧ p ≠ "".
Proof.
  induction l as [|x l IH]; simpl; [split; [done|by intros (p & ?%elem_of_nil & _)]|].
  unfold is_empty_string at 1. rewrite andb_false_iff, IH, bool_decide_false.
  setoid_rewrite elem_of_cons. naive_solver.
Qed.

Lemma binding_check node b : validate_binding node b = Ok tt ↔ binding_ok node b.
Proof.
  unfold validate_binding, binding_ok, binding_source. rewrite seq_ok, reject_ok, forallb_empty.
  rewrite rbind_ok. setoid_rewrite ok_or_ok. setoid_rewrite ensure_ok.
  setoid_rewrite bool_decide_eq_true. apply Morphisms_Prop.and_iff_morphism; [done|].
  destruct (split_dot (ob_from b)) as [|s rest]; simpl; [naive_solver|].
  unfold is_empty_string. case_bool_decide; naive_solver.
Qed.

Lemma for_each_all {A} (f : A → check) (P : A → Prop) l :
  (∀ x, f x = Ok tt ↔ P x) → for_each f l = Ok tt ↔ ∀ x, x ∈ l → P x.
Proof.
  intros Hf. rewrite for_each_ok. split.
  - intros H x Hx. rewrite Forall_forall in H. by apply Hf, H.
  - intros H. apply Forall_forall. intros x Hx. by apply Hf, H.
Qed.

Lemma optional_check {A} (f : A → check) (P : A → Prop) o :
  (∀ x, f x = Ok tt ↔ P x) →
  match o with Some x => f x | None => Ok tt end = Ok tt ↔ ∀ x, o = Some x → P x.
Proof. intros Hf. destruct o as [x|]; [rewrite Hf|]; naive_solver. Qed.

Lemma node_check version nodes node :
  validate_node version (list_to_set (wn_id <$> nodes)) node = Ok tt ↔ node_ok version nodes node.
Proof.
  unfold validate_node. rewrite !seq_ok, reject_ok, collaboration_check.
  rewrite (optional_check _ (λ r, trim_is_empty r = false)) by (intros; apply reject_ok).
  rewrite (optional_check _ (condition_ok node)) by (intros; apply validate_condition_ok).
  rewrite (for_each_all _ (λ d, d ∈ wn_id <$> nodes ∧ d ≠ wn_id node)).
  2:{ intros d. unfold validate_dependency. read_check. by rewrite elem_of_list_to_set. }
  rewrite (for_each_all _ (binding_ok node)) by (intros; apply binding_check).
  split; [intros (H1 & H2 & H3 & H4 & H5 & H6); by split|].
  by intros [H1 H2 H3 H4 H5 H6].
Qed.

Lemma size_distinct (l : list string) : size (list_to_set l : gset string) = length l ↔ NoDup l.
Proof.
  split; [|apply size_list_to_set]. induction l as [|x l IH]; [constructor|].
  rewrite list_to_set_cons. intros H. simpl in H.
  assert (size (list_to_set l : gset string) ≤ length l) as Hle.
  { clear. induction l as [|y l IH]; [done|]. rewrite list_to_set_cons, size_union_alt, size_singleton.
    simpl. assert (size (list_to_set l ∖ {[y]} : gset string) ≤ size (list_to_set l : gset string))
      by (apply subseteq_size; set_solver). lia. }
  destruct (decide (x ∈ l)) as [Hx|Hx].
  - exfalso. replace ({[x]} ∪ list_to_set l : gset string) with (list_to_set l : gset string) in H by set_solver.
    lia.
  - constructor; [done|]. apply IH. rewrite size_union, size_singleton in H by set_solver. lia.
Qed.

Section order.
Context (hash_order : gmap string Z → list (string * Z)).
Hypothesis hash_order_entries : ∀ m, hash_order m ≡ₚ map_to_list m.

(** The checks before the loop, without the loop. *)
Definition before_loop (d : WorkflowDefinition) : Prop :=
  trim_is_empty (wd_id d) = false ∧ (wd_schema_version d = 1 ∨ wd_schema_version d = 2)%Z ∧
  trim_is_empty (wd_version d) = false ∧ trim_is_empty (wd_description d) = false ∧
  NoDup (wn_id <$> wd_nodes d) ∧
  (∀ n, n ∈ wd_nodes d → node_ok (wd_schema_version d) (wd_nodes d) n) ∧
  ∀ name id, (name, id) ∈ wd_outputs d → trim_is_empty name = false ∧ id ∈ wn_id <$> wd_nodes d.

Lemma before_loop_closed d : before_loop d → closed_graph (wd_nodes d).
Proof.
  intros (_ & _ & _ & _ & Hnd & Hn & _). split; [done|]. intros n x Hin Hx.
  by apply (no_known _ _ _ (Hn n Hin)).
Qed.

Lemma outputs_check (nodes : list WorkflowNode) outputs :
  for_each (λ o : string * string,
      reject (trim_is_empty o.1 || bool_decide (o.2 ∉ (list_to_set (wn_id <$> nodes) : gset string)))
        (UnknownOutputNode o.1 o.2)) outputs = Ok tt ↔
  ∀ name id, (name, id) ∈ outputs → trim_is_empty name = false ∧ id ∈ wn_id <$> nodes.
Proof.
  rewrite (for_each_all _ (λ o, trim_is_empty o.1 = false ∧ o.2 ∈ wn_id <$> nodes)).
  - split; [intros H name id Hin; apply (H (name, id) Hin)|intros H [name id] Hin; by apply H].
  - intros o. rewrite reject_ok, orb_false_iff, bool_decide_false, elem_of_list_to_set.
    destruct (decide (o.2 ∈ wn_id <$> nodes)); naive_solver.
Qed.

(** The whole function is the earlier checks followed by the loop. *)
Lemma validate_definition_split d :
  validate_definition hash_order d = Ok tt ↔
  before_loop d ∧ visited_nodes hash_order (wd_nodes d) = Some (Z.of_nat (length (wd_nodes d))).
Proof.
  unfold validate_definition, before_loop. rewrite !seq_ok, !reject_ok, !ensure_ok.
  rewrite !bool_decide_eq_true, bool_decide_false, outputs_check.
  rewrite (for_each_all _ (node_ok (wd_schema_version d) (wd_nodes d))) by (intros; apply node_check).
  rewrite <-(length_fmap wn_id (wd_nodes d)) at 1. rewrite <-size_distinct.
  destruct (decide (size (list_to_set (wn_id <$> wd_nodes d) : gset string) = length (wn_id <$> wd_nodes d)));
    tauto.
Qed.

Lemma validate_definition_ok d : validate_definition hash_order d = Ok tt ↔ definition_ok d.
Proof.
  rewrite validate_definition_split. split.
  - intros [Hb Hv]. pose proof (before_loop_closed d Hb) as Hc.
    apply visited_all_iff_acyclic in Hv; [|done..].
    destruct Hb as (H1 & H2 & H3 & H4 & H5 & H6 & H7). by split.
  - intros [(H1 & H2 & H3) H4 H5 H6 H7 H8]. assert (before_loop d) as Hb by done.
    split; [done|]. apply visited_all_iff_acyclic; [by apply before_loop_closed|done..].
Qed.

(** C33: [validate_definition] decides the specification: it accepts a
    definition exactly when the names, references, conditions, bindings and
    collaboration settings are well formed and no node depends on itself
    through any chain of dependencies, whatever the iteration order of the
    hash maps; and its loop terminates on every graph it is run on. *)
Theorem validate_definition_decides d :
  (validate_definition hash_order d = Ok tt ↔ definition_ok d) ∧
  (closed_graph (wd_nodes d) → ∃ n, visited_nodes hash_order (wd_nodes d) = Some n).
Proof.
  split; [apply validate_definition_ok|]. intros Hc. by apply visited_nodes_total.
Qed.

(** No check but the last reports a cycle. *)
Definition no_cycle_error {A} (r : result A ValidationError) : Prop := r ≠ Err DependencyCycle.

Lemma nce_ok {A} (a : A) : no_cycle_error (Ok a).
Proof. done. Qed.

Lemma nce_bind {A B} (r : result A ValidationError) (k : A → result B ValidationError) :
  no_cycle_error r → (∀ a, no_cycle_error (k a)) → no_cycle_error (let? a := r in k a).
Proof. unfold no_cycle_error. destruct r as [a|e]; simpl; [auto|congruence]. Qed.

Lemma nce_ensure b e : e ≠ DependencyCycle → no_cycle_error (ensure b e).
Proof. unfold no_cycle_error, ensure. destruct b; congruence. Qed.

Lemma nce_reject b e : e ≠ DependencyCycle → no_cycle_error (reject b e).
Proof. apply nce_ensure. Qed.

Lemma nce_ok_or {A} (o : option A) e : e ≠ DependencyCycle → no_cycle_error (ok_or o e).
Proof. unfold no_cycle_error, ok_or. destruct o; congruence. Qed.

Lemma nce_fold {A B} (f : B → A → result B ValidationError) b l :
  (∀ b x, no_cycle_error (f b x)) → no_cycle_error (fold_result f b l).
Proof.
  intros Hf. revert b. induction l as [|x l IH]; intros b; [apply nce_ok|]. cbn [fold_result].
  by apply nce_bind.
Qed.

Lemma nce_for_each {A} (f : A → check) l :
  (∀ x, no_cycle_error (f x)) → no_cycle_error (for_each f l).
Proof.
  intros Hf. apply nce_fold. auto.
Qed.

Ltac nce :=
  repeat first
    [ apply nce_ok | apply nce_reject | apply nce_ensure | apply nce_ok_or | apply nce_for_each
    | apply nce_fold | apply nce_bind | discriminate
    | match goal with |- ∀ _, _ => intros ? end
    | match goal with |- no_cycle_error (match ?x with _ => _ end) => destruct x end ].

Lemma condition_nce node v : no_cycle_error (validate_condition node v).
Proof.
  enough (no_cycle_error (validate_condition node v) ∧
          ∀ l, v = VArray l → Forall (λ x, no_cycle_error (validate_condition node x)) l) by tauto.
  induction v as [| | | |l IH|l IH] using value_ind'; split; try done.
  { intros l' [= <-]. eapply Forall_impl; [exact IH|]. simpl. tauto. }
  destruct l as [|[op rule] [|]]; [done| |done].
  inversion IH as [|? ? [_ Hrule] _]; subst. simpl in Hrule. cbn [validate_condition].
  case_decide; [nce|]. case_decide.
  { destruct rule as [| | | |l|]; try discriminate. specialize (Hrule l eq_refl).
    clear IH. induction Hrule; nce; assumption. }
  unfold validate_comparison_rule, required_non_empty_string. nce.
Qed.

Lemma node_nce version ids node : no_cycle_error (validate_node version ids node).
Proof.
  unfold validate_node, validate_collaboration, validate_runtime_config, validate_limit,
    validate_worker_role, coordinator_role, validate_independent_reviewer, validate_dependency,
    validate_binding.
  nce; apply condition_nce.
Qed.

(** the cycle error is reported exactly for a cycle: it is returned if and
    only if every other check passes and some node of the definition reaches
    itself along its dependencies. *)
Theorem cycle_error_exact d :
  validate_definition hash_order d = Err DependencyCycle ↔
  before_loop d ∧ ¬ acyclic (wd_nodes d).
Proof.
  assert (∀ (r k : check), no_cycle_error r →
    (r ;;? k) = Err DependencyCycle ↔ r = Ok tt ∧ k = Err DependencyCycle) as Hseq.
  { intros [[]|e] k Hr; simpl; [tauto|]. split; [by intros [= ->]|by intros []]. }
  unfold validate_definition. rewrite !Hseq by first [apply nce_for_each; intros; apply node_nce|nce].
  rewrite !reject_ok, !ensure_ok, !bool_decide_eq_true, bool_decide_false, outputs_check.
  rewrite (for_each_all _ (node_ok (wd_schema_version d) (wd_nodes d))) by (intros; apply node_check).
  rewrite <-(length_fmap wn_id (wd_nodes d)) at 1.
  assert (∀ P (HP : Decision P), ensure (bool_decide P) DependencyCycle = Err DependencyCycle ↔ ¬ P) as He.
  { intros P HP. case_bool_decide; simpl; naive_solver. }
  rewrite He.
  assert (before_loop d → (¬ visited_nodes hash_order (wd_nodes d) = Some (Z.of_nat (length (wd_nodes d)))) ↔
            ¬ acyclic (wd_nodes d)) as Hv.
  { intros Hb. by rewrite visited_all_iff_acyclic; [|apply before_loop_closed|]. }
  revert Hv. unfold before_loop. rewrite <-size_distinct.
  destruct (decide (size (list_to_set (wn_id <$> wd_nodes d) : gset string) = length (wn_id <$> wd_nodes d)));
    tauto.
Qed.
End order.

(** ** Concrete definitions *)

Definition no_model : ModelPolicy := {| mp_model := None; mp_reasoning_effort := None |}.

Definition sample_node (id : string) (deps : list string) (when : option Value)
    (role : option string) (c : CollaborationSelection) : WorkflowNode :=
  {| wn_id := id; wn_depends_on := deps; wn_when := when; wn_role := role; wn_collaboration := c;
     wn_model_policy := no_model; wn_capability_scope := [];
     wn_permission_ceiling := ceiling_unrestricted; wn_retry_max_attempts := 0;
     wn_timeout_ms := None; wn_output_bindings := []; wn_workflow_ref := None |}.

Definition sample_definition (nodes : list WorkflowNode) : WorkflowDefinition :=
  {| wd_id := "w"; wd_schema_version := 2; wd_version := "1"; wd_description := "demo";
     wd_roles := []; wd_parameters_schema := None; wd_nodes := nodes; wd_outputs := [("out", "b")] |}.

Definition sample_review : CollaborationRuntimeConfig :=
  {| cc_strategy := IndependentReviewer;
     cc_worker_roles := [{| wp_role := "dev"; wp_max_concurrent := 2; wp_max_total := 3 |};
                         {| wp_role := "rev"; wp_max_concurrent := 1; wp_max_total := 1 |}];
     cc_max_concurrent_workers := 4; cc_max_tasks := 32; cc_max_coordinator_rounds := 8;
     cc_max_pending_messages := 64; cc_max_message_bytes := 65536;
     cc_primary_role := Some "dev"; cc_reviewer_role := Some "rev" |}.

Definition sample_workflow : WorkflowDefinition :=
  sample_definition
    [sample_node "c" ["a"; "b"]
       (Some (VObject [("node_output_equals",
                        VObject [("node", VString "b"); ("field", VString "ok"); ("value", VBool true)])]))
       None Auto;
     sample_node "a" [] None None Inherit;
     sample_node "b" ["a"; "a"] None (Some "rev") (Configured sample_review)].

Definition sample_cycle : WorkflowDefinition :=
  sample_definition [sample_node "a" ["b"] None None Auto; sample_node "b" ["a"] None None Auto].

Lemma validate_definition_decides_witness : definition_ok sample_workflow.
Proof.
  apply (validate_definition_decides map_to_list (λ m, reflexivity _)). vm_compute. reflexivity.
Defined.

Lemma cycle_error_exact_witness : ¬ acyclic (wd_nodes sample_cycle).
Proof.
  apply (cycle_error_exact map_to_list (λ m, reflexivity _)). vm_compute. reflexivity.
Defined.

(** ** Staffing *)

Definition total_concurrent (config : CollaborationRuntimeConfig) : Z :=
  foldr (λ p, Z.add (wp_max_concurrent p)) 0%Z (cc_worker_roles config).

Lemma concurrent_le_total config :
  (∀ p, p ∈ cc_worker_roles config → worker_ok config p) →
  (total_concurrent config ≤ total_workers config)%Z.
Proof.
  unfold total_concurrent, total_workers. intros H. 
  induction (cc_worker_roles config) as [|p ps IH]; simpl; [lia|].
  destruct (H p) as [_ _ _ Ho]; [by left|]. specialize (IH (λ q Hq, H q ltac:(by right))). lia.
Qed.

Lemma total_le_bound config (b : Z) :
  (∀ p, p ∈ cc_worker_roles config → (wp_max_total p ≤ b)%Z) →
  (total_workers config ≤ b * Z.of_nat (length (cc_worker_roles config)))%Z.
Proof.
  unfold total_workers. intros H. induction (cc_worker_roles config) as [|p ps IH]; [simpl; lia|].
  pose proof (H p ltac:(by left)). specialize (IH (λ q Hq, H q ltac:(by right))).
  cbn [foldr length]. lia.
Qed.

(** the staffing an accepted definition can ask for is bounded: worker roles
    are distinct and never blank; a Team, a Fanout or an independent review
    cannot be configured for more workers, at once or in total, than its task
    limit, at most 256; no node at all can ask for more than 8192 workers; and
    an independent review has exactly two roles, the reviewer different from
    the author, with the node itself speaking for nobody but the reviewer. *)
Theorem accepted_staffing hash_order d n config :
  (∀ m, hash_order m ≡ₚ map_to_list m) →
  validate_definition hash_order d = Ok tt → n ∈ wd_nodes d →
  wn_collaboration n = Configured config →
  NoDup (wp_role <$> cc_worker_roles config) ∧
  (total_concurrent config ≤ total_workers config ≤ MAX_MULTI_AGENT_TASKS * MAX_WORKER_ROLES)%Z ∧
  (cc_strategy config ≠ Single → cc_strategy config ≠ Supervisor →
     total_workers config ≤ cc_max_tasks config ≤ MAX_MULTI_AGENT_TASKS)%Z ∧
  (cc_strategy config = IndependentReviewer →
     ∃ primary reviewer, primary ≠ reviewer ∧
       wp_role <$> cc_worker_roles config ≡ₚ [primary; reviewer] ∧
       cc_reviewer_role config = Some reviewer ∧
       (∀ r, wn_role n = Some r → r = reviewer)).
Proof.
  intros Ho Hd%(validate_definition_ok hash_order Ho) Hn Hc.
  pose proof (no_collaboration _ _ _ (do_nodes _ Hd n Hn)) as Hcol.
  unfold collaboration_ok in Hcol. rewrite Hc in Hcol.
  destruct Hcol as [_ [_ [_ Ht] _ _ _ Hr Hnd Hw _ Hst]].
  assert (cc_max_tasks config ≤ MAX_MULTI_AGENT_TASKS)%Z as Htasks.
  { unfold MAX_SUPERVISOR_TASKS, MAX_MULTI_AGENT_TASKS in *. case_decide; lia. }
  split_and!; [done|by apply concurrent_le_total| | |].
  - assert (total_workers config ≤ MAX_MULTI_AGENT_TASKS * Z.of_nat (length (cc_worker_roles config)))%Z.
    { apply total_le_bound. intros p Hp. destruct (Hw p Hp). lia. }
    unfold MAX_MULTI_AGENT_TASKS, MAX_WORKER_ROLES in *. lia.
  - unfold staffing_ok in Hst. destruct (cc_strategy config); intros; try done; intuition lia.
  - intros E. unfold staffing_ok in Hst. rewrite E in Hst.
    destruct Hst as (_ & a & b & _ & [Hb _] & Hab & Hroles & Hrole). exists a, b.
    split_and!; [done..|]. intros r Er. naive_solver.
Qed.

Lemma accepted_staffing_witness :
  (total_workers sample_review ≤ cc_max_tasks sample_review ≤ MAX_MULTI_AGENT_TASKS)%Z.
Proof.
  apply (accepted_staffing map_to_list sample_workflow
           (sample_node "b" ["a"; "a"] None (Some "rev") (Configured sample_review)) sample_review
           (λ m, reflexivity _)); [vm_compute; reflexivity| |reflexivity|discriminate|discriminate].
  right. right. left.
Defined.

(** ** Role references *)

(** Every role a node names. *)
Definition roles_named (node : WorkflowNode) : list string :=
  option_list (wn_role node) ++
  match wn_collaboration node with
  | Configured config =>
      (wp_role <$> cc_worker_roles config) ++ option_list (cc_primary_role config) ++
      option_list (cc_reviewer_role config)
  | _ => []
  end.

Lemma optional_role (role_exists : string → bool) (e : string → ValidationError) o :
  match o with Some r => ensure (role_exists r) (e r) | None => Ok tt end = Ok tt ↔
  ∀ r, r ∈ option_list o → role_exists r = true.
Proof.
  destruct o as [r|]; simpl.
  - rewrite ensure_ok. setoid_rewrite list_elem_of_singleton. naive_solver.
  - split; [by intros _ r ?%elem_of_nil|done].
Qed.

(** the reference check accepts a definition exactly when every role that
    any node names, as its own role, a worker role, a primary or a reviewer,
    is known. *)
Theorem role_references_exact role_exists d :
  validate_definition_role_references role_exists d = Ok tt ↔
  ∀ n r, n ∈ wd_nodes d → r ∈ roles_named n → role_exists r = true.
Proof.
  unfold validate_definition_role_references.
  rewrite (for_each_all _ (λ n, ∀ r, r ∈ roles_named n → role_exists r = true)); [naive_solver|].
  intros n. unfold validate_node_roles, roles_named. rewrite seq_ok.
  rewrite (optional_role role_exists (UnknownRole (wn_id n))).
  setoid_rewrite elem_of_app. destruct (wn_collaboration n) as [| |config|].
  1,2,4: setoid_rewrite elem_of_nil; naive_solver.
  rewrite !seq_ok, (optional_role role_exists (UnknownPrimaryRole (wn_id n))),
    (optional_role role_exists (UnknownReviewerRole (wn_id n))).
  rewrite (for_each_all _ (λ p, role_exists (wp_role p) = true)) by (intros; apply ensure_ok).
  repeat setoid_rewrite elem_of_app. setoid_rewrite list_elem_of_fmap. naive_solver.
Qed.
