(* ===== verification/WorkflowReferences.v ===== *)
(** * References between Workflow definitions

    crates/solaris-agent/src/workflow_controller/validation.rs,
    [validate_workflow_reference_graph]: a definition may run another one as a
    sub-Workflow, and the controller refuses a set of definitions that refer to
    each other in a circle.  The check is a depth-first search with a set of
    nodes being visited and a set of nodes done; here it is proved to decide
    acyclicity, for every order in which the hash map yields its keys. *)
From S2P Require Import Prelude.

(** The graph: the definitions and the ones they refer to. *)
Definition ReferenceGraph : Type := gmap string (list string).

Inductive VisitError : Type :=
  | ReferenceCycle (id : string)
  | VisitFuel.

(** The nodes being visited and the nodes done. *)
Abbreviation search := (gset string * gset string)%type (only parsing).

Fixpoint visit (fuel : nat) (graph : ReferenceGraph) (st : search) (id : string) :
    result search VisitError :=
  match fuel with
  | O => Err VisitFuel
  | S fuel =>
      if decide (id ∈ st.2) then Ok st
      else if decide (id ∈ st.1) then Err (ReferenceCycle id)
      else
        let? st' := fold_result (visit fuel graph) ({[id]} ∪ st.1, st.2) (default [] (graph !! id)) in
        Ok (st'.1 ∖ {[id]}, {[id]} ∪ st'.2)
  end.

(** Every frame of the recursion but the innermost visits another key. *)
Definition visit_fuel (graph : ReferenceGraph) : nat := S (size graph).

(** [keys] is the order of [graph.keys()]. *)
Definition validate_workflow_reference_graph (graph : ReferenceGraph) (keys : list string) :
    result unit VisitError :=
  rmap (λ _, tt) (fold_result (visit (visit_fuel graph) graph) (∅, ∅) keys).

(** ** The specification *)

Definition refers (graph : ReferenceGraph) (a b : string) : Prop :=
  ∃ l, graph !! a = Some l ∧ b ∈ l.

Definition acyclic_references (graph : ReferenceGraph) : Prop := ∀ a, ¬ tc (refers graph) a a.

Section references.
Context (graph : ReferenceGraph).

Abbreviation refers := (refers graph).

Lemma elem_successors a b : b ∈ default [] (graph !! a) ↔ refers a b.
Proof.
  unfold WorkflowReferences.refers. destruct (graph !! a) as [l|]; simpl; [naive_solver|].
  split; [by intros ?%elem_of_nil|naive_solver].
Qed.

(** What is done is closed under references and lies on no circle. *)
Definition settled (done : gset string) : Prop :=
  ∀ a, a ∈ done → (∀ b, refers a b → b ∈ done) ∧ ¬ tc refers a a.

Lemma settled_reach done a b : settled done → a ∈ done → tc refers a b → b ∈ done.
Proof.
  intros Hs Ha H. induction H as [a b H|a b c H _ IH]; [by eapply Hs|]. apply IH. by eapply Hs.
Qed.

Lemma settled_add done id :
  settled done → id ∉ done → (∀ b, refers id b → b ∈ done) → settled ({[id]} ∪ done).
Proof.
  intros Hs Hid Hsucc a [->%elem_of_singleton|Ha]%elem_of_union.
  - split; [set_solver|]. intros Hc. apply Hid.
    inversion Hc as [? ? Hr|? b ? Hr Ht]; subst; [by apply Hsucc|].
    eapply settled_reach; [done| |done]. by apply Hsucc.
  - split; [intros b Hb; apply elem_of_union_r; by apply (Hs a Ha)|by apply Hs].
Qed.

(** The nodes that are visited form a path: each leads to the current one. *)
Definition leads (visiting : gset string) (id : string) : Prop :=
  ∀ v, v ∈ visiting → tc refers v id.

Record search_ok (st : search) : Prop := {
  so_settled : settled st.2;
  so_disjoint : st.1 ## st.2;
}.

(** ** Soundness *)

Definition visited_to (st st' : search) : Prop :=
  search_ok st' ∧ st'.1 = st.1 ∧ st.2 ⊆ st'.2.

Lemma fold_visits (f : search → string → result search VisitError) (l : list string) st st' :
  (∀ st st' b, b ∈ l → search_ok st → f st b = Ok st' → visited_to st st' ∧ b ∈ st'.2) →
  search_ok st → fold_result f st l = Ok st' →
  visited_to st st' ∧ ∀ b, b ∈ l → b ∈ st'.2.
Proof.
  revert st. induction l as [|b l IH]; intros st Hf Hst; cbn [fold_result].
  - intros [= <-]. split; [done|by intros b ?%elem_of_nil].
  - rewrite rbind_ok. intros (st1 & H1 & H2).
    destruct (Hf _ _ b (list_elem_of_here _ _) Hst H1) as [(Hok1 & E1 & S1) Hb].
    destruct (IH st1) as [(Hok2 & E2 & S2) Hl]; [intros; eapply Hf; [by right|done..]|done|done|].
    split; [split_and!; [done|congruence|set_solver]|].
    intros x [->|Hx]%elem_of_cons; [by apply S2|by apply Hl].
Qed.

Lemma visit_sound fuel st id st' :
  search_ok st → visit fuel graph st id = Ok st' → visited_to st st' ∧ id ∈ st'.2.
Proof.
  revert st id st'. induction fuel as [|fuel IH]; intros st id st' Hok; cbn [visit]; [done|].
  case_decide as Hd; [intros [= <-]; by split_and!|]. case_decide as Hv; [done|].
  rewrite rbind_ok. intros (st1 & Hf & [= <-]). destruct Hok as [Hs Hdis].
  destruct (fold_visits (visit fuel graph) (default [] (graph !! id)) ({[id]} ∪ st.1, st.2) st1)
    as [([Hs1 Hd1] & E1 & S1) Hsucc]; [| |done|].
  - intros st2 st3 b _ Hok2 H. by apply IH.
  - split; [done|]. simpl in *. set_solver.
  - simpl in *. rewrite E1 in *. assert (id ∉ st1.2) as Hid by set_solver.
    split; [|set_solver]. split; [split|split]; simpl.
    + apply settled_add; [done|done|]. intros b Hb. by apply Hsucc, elem_successors.
    + set_solver.
    + apply set_eq. set_solver.
    + set_solver.
Qed.

(** ** Completeness and termination *)

(** An error of the fold is an error of one of the visits. *)
Lemma fold_visits_err (f : search → string → result search VisitError) (l : list string) st e :
  (∀ st st' b, b ∈ l → search_ok st → f st b = Ok st' → visited_to st st' ∧ b ∈ st'.2) →
  search_ok st → fold_result f st l = Err e →
  ∃ st1 b, b ∈ l ∧ visited_to st st1 ∧ f st1 b = Err e.
Proof.
  revert st. induction l as [|b l IH]; intros st Hf Hst; cbn [fold_result]; [done|].
  destruct (f st b) as [st1|e1] eqn:H1; simpl.
  - intros H. destruct (Hf _ _ b (list_elem_of_here _ _) Hst H1) as [(Hok1 & E1 & S1) _].
    destruct (IH st1) as (st2 & x & Hx & (Hok2 & E2 & S2) & H2);
      [intros; eapply Hf; [by right|done..]|done|done|].
    exists st2, x. split_and!; [by right| |done]. split_and!; [done|congruence|set_solver].
  - intros [= <-]. exists st, b. split_and!; [by left|by split_and!|done].
Qed.

Lemma size_unvisited (visiting : gset string) id :
  id ∈ dom graph → id ∉ visiting →
  size (dom graph ∖ ({[id]} ∪ visiting)) < size (dom graph ∖ visiting).
Proof. intros Hd Hv. apply subset_size. set_solver. Qed.

Lemma visit_error fuel st id e :
  search_ok st → leads st.1 id → size (dom graph ∖ st.1) < fuel →
  visit fuel graph st id = Err e →
  (∃ a, e = ReferenceCycle a ∧ tc refers a a).
Proof.
  revert st id. induction fuel as [|fuel IH]; intros st id Hok Hl Hfuel; cbn [visit]; [lia|].
  case_decide as Hd; [done|]. case_decide as Hv.
  { intros [= <-]. exists id. split; [done|by apply Hl]. }
  destruct (fold_result _ _ _) as [st1|e1] eqn:Hf; simpl; [done|]. intros [= ->].
  apply fold_visits_err in Hf as (st2 & b & Hb%elem_successors & (Hok2 & E2 & _) & He).
  - apply (IH st2 b); [done| | |done]; rewrite E2; simpl.
    + intros v [->%elem_of_singleton|Hin]%elem_of_union; [by apply tc_once|].
      eapply tc_r; [by apply Hl|done].
    + eapply Nat.lt_le_trans; [apply size_unvisited|lia]; [|done].
      destruct Hb as (l & Hg & _). by apply elem_of_dom_2 in Hg.
  - intros st3 st4 b _ Hok3 H. by eapply visit_sound.
  - destruct Hok as [Hs Hdis]. split; [done|]. simpl in *. set_solver.
Qed.

Lemma search_ok_empty : search_ok (∅, ∅).
Proof. split; [intros a ?; set_solver|set_solver]. Qed.

(** A node on a circle is a key of the graph. *)
Lemma circle_key a b : tc refers a b → a ∈ dom graph.
Proof. intros [x y (l & H & _)|x y z (l & H & _) _]; by apply elem_of_dom_2 in H. Qed.

Lemma all_visited keys st' :
  fold_result (visit (visit_fuel graph) graph) (∅, ∅) keys = Ok st' →
  (∀ a, a ∈ dom graph → a ∈ keys) → acyclic_references graph.
Proof.
  intros Hf Hk a Ha. destruct (fold_visits (visit (visit_fuel graph) graph) keys (∅, ∅) st')
    as [([Hs _] & _) Hin]; [|apply search_ok_empty|done|].
  - intros st1 st2 b _ Hok H. by eapply visit_sound.
  - destruct (Hs a) as [_ Hn]; [|done]. by eapply Hin, Hk, circle_key.
Qed.

Lemma circle_found keys e :
  fold_result (visit (visit_fuel graph) graph) (∅, ∅) keys = Err e →
  ∃ a, e = ReferenceCycle a ∧ tc refers a a.
Proof.
  intros Hf. apply fold_visits_err in Hf as (st2 & b & Hb & (Hok2 & E2 & _) & He).
  - eapply visit_error; [done| | |done]; rewrite E2; simpl; [intros v ?; set_solver|].
    unfold visit_fuel. rewrite difference_empty_L. apply Nat.lt_succ_r, Nat.eq_le_incl, (size_dom (M:=gmap string) (D:=gset string)).
  - intros st3 st4 b _ Hok3 H. by eapply visit_sound.
  - apply search_ok_empty.
Qed.
End references.

(** C10: the search for circular references of Workflow definitions decides
    acyclicity: for every order in which the hash map yields its keys it
    terminates, it accepts exactly the graphs in which no definition reaches
    itself, and when it refuses one the definition it names lies on a circle. *)
Theorem reference_cycles_decided (graph : ReferenceGraph) (keys : list string) :
  keys ≡ₚ (map_to_list graph).*1 →
  (validate_workflow_reference_graph graph keys = Ok tt ∧ acyclic_references graph) ∨
  (∃ id, validate_workflow_reference_graph graph keys = Err (ReferenceCycle id) ∧
         tc (refers graph) id id).
Proof.
  intros Hk. unfold validate_workflow_reference_graph.
  destruct (fold_result _ _ _) as [st|e] eqn:Hf; simpl.
  - left. split; [done|]. eapply all_visited; [done|]. intros a [l Ha]%elem_of_dom.
    rewrite Hk. apply list_elem_of_fmap. exists (a, l). split; [done|by apply elem_of_map_to_list].
  - right. apply circle_found in Hf as (a & -> & Ha). by exists a.
Qed.

Lemma reference_cycles_decided_witness :
  let graph : ReferenceGraph :=
    {["a" := ["b"; "c"]; "b" := ["c"; "unregistered"]; "c" := ["d"]; "d" := ["b"]]} in
  validate_workflow_reference_graph graph ["c"; "a"; "d"; "b"] = Err (ReferenceCycle "c") ∧
  tc (refers graph) "c" "c".
Proof.
  intros graph. destruct (reference_cycles_decided graph ["c"; "a"; "d"; "b"]) as [[H _]|(id & H & Hc)].
  - apply (bool_decide_unpack _). vm_compute. exact I.
  - vm_compute in H. discriminate H.
  - assert (validate_workflow_reference_graph graph ["c"; "a"; "d"; "b"] = Err (ReferenceCycle "c")) as E
      by (vm_compute; reflexivity).
    rewrite E in H. injection H as <-. split; [exact E|exact Hc].
Defined.
