(* ===== verification/Registries.v ===== *)
(** * The registries of a Run

    crates/solaris-agent/src/{agent_registry,team_registry,team_state,
    role_registry,collaboration_strategy}.rs.  Each registry is a map behind a
    lock; an operation is a function from the map it locks to the map it
    unlocks and its result.  The order in which a [HashMap] lists its values is
    a parameter where the code sorts afterwards. *)
From S2P Require Import Prelude Json Types WorkflowTypes.

(** ** Agents *)

Module Agents.

Definition AgentRegistry : Type := gmap AgentId AgentRecord.

Definition agent_upsert (m : AgentRegistry) (r : AgentRecord) : AgentRegistry :=
  <[ar_agent_id r := r]> m.

Definition agent_get (m : AgentRegistry) (id : AgentId) : option AgentRecord := m !! id.

Definition agent_set_team (m : AgentRegistry) (id : AgentId) (team : option TeamId) :
    AgentRegistry * bool :=
  match m !! id with
  | None => (m, false)
  | Some r =>
      (<[id := {| ar_run_id := ar_run_id r; ar_agent_id := ar_agent_id r; ar_team_id := team;
                  ar_parent_agent_id := ar_parent_agent_id r; ar_state := ar_state r |}]> m, true)
  end.

Definition agent_set_state (m : AgentRegistry) (id : AgentId) (st : AgentLifecycleState) :
    AgentRegistry * bool :=
  match m !! id with
  | None => (m, false)
  | Some r =>
      (<[id := {| ar_run_id := ar_run_id r; ar_agent_id := ar_agent_id r;
                  ar_team_id := ar_team_id r; ar_parent_agent_id := ar_parent_agent_id r;
                  ar_state := st |}]> m, true)
  end.

Definition agent_remove (m : AgentRegistry) (id : AgentId) : AgentRegistry * option AgentRecord :=
  (delete id m, m !! id).

End Agents.
Export Agents.

(** ** Teams *)

Module Teams.

Definition TeamRegistry : Type := gmap TeamId TeamRecord.

Definition team_create (m : TeamRegistry) (r : TeamRecord) : TeamRegistry * bool :=
  match m !! tm_team_id r with
  | Some _ => (m, false)
  | None => (<[tm_team_id r := r]> m, true)
  end.

Definition with_members (t : TeamRecord) (members : gset AgentId) : TeamRecord :=
  {| tm_run_id := tm_run_id t; tm_team_id := tm_team_id t; tm_name := tm_name t;
     tm_strategy := tm_strategy t; tm_coordinator := tm_coordinator t;
     tm_direct_peer_messaging := tm_direct_peer_messaging t;
     tm_max_pending_messages := tm_max_pending_messages t;
     tm_max_message_bytes := tm_max_message_bytes t; tm_members := members |}.

(** [HashSet::insert] and [remove] report whether the set changed. *)
Definition team_join (m : TeamRegistry) (id : TeamId) (agent : AgentId) : TeamRegistry * bool :=
  match m !! id with
  | None => (m, false)
  | Some t => (<[id := with_members t ({[agent]} ∪ tm_members t)]> m,
               bool_decide (agent ∉ tm_members t))
  end.

Definition team_leave (m : TeamRegistry) (id : TeamId) (agent : AgentId) : TeamRegistry * bool :=
  match m !! id with
  | None => (m, false)
  | Some t => (<[id := with_members t (tm_members t ∖ {[agent]})]> m,
               bool_decide (agent ∈ tm_members t))
  end.

Definition team_get (m : TeamRegistry) (id : TeamId) : option TeamRecord := m !! id.

End Teams.
Export Teams.

(** ** Facts and artifacts of a Team *)

Module TeamState.

Record TeamFact : Type := {
  tf_run_id : RunId;
  tf_team_id : TeamId;
  tf_key : string;
  tf_value : Value;
  tf_updated_by : AgentId;
  tf_updated_at_unix_ms : Z;
}.

Record ArtifactRef : Type := {
  af_artifact_id : string;
  af_run_id : RunId;
  af_team_id : option TeamId;
  af_agent_id : AgentId;
  af_uri : string;
  af_kind : string;
  af_metadata : Value;
  af_created_at_unix_ms : Z;
}.

Record TeamStateStore : Type := {
  ts_facts : gmap (TeamId * string) TeamFact;
  ts_artifacts : gmap string ArtifactRef;
}.

Definition team_state_default : TeamStateStore := {| ts_facts := ∅; ts_artifacts := ∅ |}.

Definition set_fact (s : TeamStateStore) (f : TeamFact) : TeamStateStore * option TeamFact :=
  ({| ts_facts := <[(tf_team_id f, tf_key f) := f]> (ts_facts s); ts_artifacts := ts_artifacts s |},
   ts_facts s !! (tf_team_id f, tf_key f)).

Definition put_artifact (s : TeamStateStore) (a : ArtifactRef) : TeamStateStore :=
  {| ts_facts := ts_facts s; ts_artifacts := <[af_artifact_id a := a]> (ts_artifacts s) |}.

(** [register_artifact] with the generated identifier and the clock as
    arguments. *)
Definition register_artifact (s : TeamStateStore) (uuid : string) (now : Z) (run_id : RunId)
    (team_id : option TeamId) (agent_id : AgentId) (uri kind : string) (metadata : Value) :
    TeamStateStore * ArtifactRef :=
  let a := {| af_artifact_id := "artifact-" +:+ uuid; af_run_id := run_id; af_team_id := team_id;
              af_agent_id := agent_id; af_uri := uri; af_kind := kind; af_metadata := metadata;
              af_created_at_unix_ms := now |} in
  (put_artifact s a, a).

(** The sort keys; [String::cmp] is the byte order. *)
Definition fact_le (a b : TeamFact) : Prop := String.le (tf_key a) (tf_key b).

Definition fact_team_le (a b : TeamFact) : Prop :=
  (tf_team_id a ≠ tf_team_id b ∧ String.le (tf_team_id a) (tf_team_id b)) ∨
  (tf_team_id a = tf_team_id b ∧ String.le (tf_key a) (tf_key b)).

Definition artifact_le (a b : ArtifactRef) : Prop :=
  (af_created_at_unix_ms a < af_created_at_unix_ms b)%Z ∨
  (af_created_at_unix_ms a = af_created_at_unix_ms b ∧
   String.le (af_artifact_id a) (af_artifact_id b)).

#[export] Instance fact_le_dec : RelDecision fact_le.
Proof. intros a b. unfold fact_le. apply _. Defined.
#[export] Instance fact_team_le_dec : RelDecision fact_team_le.
Proof. intros a b. unfold fact_team_le. apply _. Defined.
#[export] Instance artifact_le_dec : RelDecision artifact_le.
Proof. intros a b. unfold artifact_le. apply _. Defined.

Section order.
(** [HashMap::values]. *)
Context (fact_values : gmap (TeamId * string) TeamFact → list TeamFact).
Context (artifact_values : gmap string ArtifactRef → list ArtifactRef).

Definition facts (s : TeamStateStore) (team : TeamId) : list TeamFact :=
  merge_sort fact_le (filter (λ f, tf_team_id f = team) (fact_values (ts_facts s))).

Definition all_facts (s : TeamStateStore) : list TeamFact :=
  merge_sort fact_team_le (fact_values (ts_facts s)).

Definition artifacts (s : TeamStateStore) (team : option TeamId) (agent : option AgentId) :
    list ArtifactRef :=
  merge_sort artifact_le
    (filter (λ a, agent = None ∨ Some (af_agent_id a) = agent)
       (filter (λ a, team = None ∨ af_team_id a = team)
          (artifact_values (ts_artifacts s)))).
End order.

End TeamState.
Export TeamState.

(** ** Roles with their owners *)

Module Roles.

Record RoleRegistryState : Type := {
  rr_roles : gmap string AgentRoleDefinition;
  rr_owners : gmap string (gset string);
}.

Inductive RoleError : Type := RoleOwnerEmpty | RoleDiffers (role_id : string).

Definition role_registry_default : RoleRegistryState := {| rr_roles := ∅; rr_owners := ∅ |}.

Definition role_register_owned (s : RoleRegistryState) (owner : string)
    (role : AgentRoleDefinition) : RoleRegistryState * result unit RoleError :=
  if trim_is_empty owner then (s, Err RoleOwnerEmpty)
  else
    let id := rd_id role in
    let add :=
      ({| rr_roles := match rr_roles s !! id with
                      | Some _ => rr_roles s
                      | None => <[id := role]> (rr_roles s)
                      end;
          rr_owners := <[id := {[owner]} ∪ default ∅ (rr_owners s !! id)]> (rr_owners s) |},
       Ok tt) in
    match rr_roles s !! id with
    | Some existing => if role_eqb existing role then add else (s, Err (RoleDiffers id))
    | None => add
    end.

(** [register] drops the result. *)
Definition role_register (s : RoleRegistryState) (role : AgentRoleDefinition) : RoleRegistryState :=
  (role_register_owned s "core" role).1.

Definition role_unregister_owned (s : RoleRegistryState) (owner role_id : string) :
    RoleRegistryState * bool :=
  match rr_owners s !! role_id with
  | None => (s, false)
  | Some owners =>
      if decide (owner ∉ owners) then (s, false)
      else
        let owners := owners ∖ {[owner]} in
        if decide (owners = ∅)
        then ({| rr_roles := delete role_id (rr_roles s);
                 rr_owners := delete role_id (rr_owners s) |}, true)
        else ({| rr_roles := rr_roles s; rr_owners := <[role_id := owners]> (rr_owners s) |}, true)
  end.

Definition role_get (s : RoleRegistryState) (id : string) : option AgentRoleDefinition :=
  rr_roles s !! id.

End Roles.
Export Roles.

(** ** Collaboration plans *)

Module Strategy.

Record CollaborationPlan : Type := {
  cp_strategy : CollaborationStrategy;
  cp_members : list AgentId;
  cp_coordinator : option AgentId;
  cp_direct_peer_messaging : bool;
  cp_requires_synthesis : bool;
}.

(** The [StrategyPlanner] trait. *)
Class StrategyPlanner (P : Type) := {
  planner_strategy : P → CollaborationStrategy;
  planner_plan : P → AgentId → list AgentId → CollaborationPlan;
}.

Inductive SupervisorPlanner : Type := MkSupervisorPlanner.
Inductive TeamPlanner : Type := MkTeamPlanner.
Inductive FanoutPlanner : Type := MkFanoutPlanner.
Inductive IndependentReviewerPlanner : Type := MkIndependentReviewerPlanner.

#[export] Instance supervisor_planner : StrategyPlanner SupervisorPlanner := {|
  planner_strategy _ := Supervisor;
  planner_plan _ coordinator workers :=
    {| cp_strategy := Supervisor; cp_members := coordinator :: workers;
       cp_coordinator := Some coordinator; cp_direct_peer_messaging := false;
       cp_requires_synthesis := true |};
|}.

#[export] Instance team_planner : StrategyPlanner TeamPlanner := {|
  planner_strategy _ := Team;
  planner_plan _ coordinator workers :=
    {| cp_strategy := Team; cp_members := coordinator :: workers;
       cp_coordinator := Some coordinator; cp_direct_peer_messaging := true;
       cp_requires_synthesis := false |};
|}.

#[export] Instance fanout_planner : StrategyPlanner FanoutPlanner := {|
  planner_strategy _ := Fanout;
  planner_plan _ coordinator workers :=
    {| cp_strategy := Fanout; cp_members := workers; cp_coordinator := Some coordinator;
       cp_direct_peer_messaging := false; cp_requires_synthesis := true |};
|}.

#[export] Instance reviewer_planner : StrategyPlanner IndependentReviewerPlanner := {|
  planner_strategy _ := IndependentReviewer;
  planner_plan _ coordinator workers :=
    {| cp_strategy := IndependentReviewer; cp_members := workers;
       cp_coordinator := Some coordinator; cp_direct_peer_messaging := false;
       cp_requires_synthesis := false |};
|}.

Definition plan_collaboration (strategy : CollaborationStrategy) (coordinator : AgentId)
    (workers : list AgentId) : CollaborationPlan :=
  match strategy with
  | Single =>
      {| cp_strategy := strategy; cp_members := [coordinator]; cp_coordinator := Some coordinator;
         cp_direct_peer_messaging := false; cp_requires_synthesis := false |}
  | Supervisor => planner_plan MkSupervisorPlanner coordinator workers
  | Team => planner_plan MkTeamPlanner coordinator workers
  | Fanout => planner_plan MkFanoutPlanner coordinator workers
  | IndependentReviewer => planner_plan MkIndependentReviewerPlanner coordinator workers
  end.

End Strategy.
Export Strategy.

(** ** Role ownership *)

(** The role is registered exactly while somebody owns it, under its own id. *)
Record roles_inv (s : RoleRegistryState) : Prop := {
  ri_same : ∀ id, is_Some (rr_roles s !! id) ↔ is_Some (rr_owners s !! id);
  ri_owned : ∀ id owners, rr_owners s !! id = Some owners → owners ≠ ∅;
  ri_keyed : ∀ id r, rr_roles s !! id = Some r → rd_id r = id;
}.

(** [owner] holds role [id]. *)
Definition holds (s : RoleRegistryState) (owner id : string) : Prop :=
  ∃ owners, rr_owners s !! id = Some owners ∧ owner ∈ owners.

Inductive role_step : RoleRegistryState → RoleRegistryState → Prop :=
  | rs_register s owner role : role_step s (role_register_owned s owner role).1
  | rs_unregister s owner id : role_step s (role_unregister_owned s owner id).1.

Lemma register_owned_cases s owner role :
  (role_register_owned s owner role).1 = s ∧ is_ok (role_register_owned s owner role).2 = false ∨
  (∀ e, rr_roles s !! rd_id role = Some e → role_eqb e role = true) ∧
  role_register_owned s owner role =
    ({| rr_roles := match rr_roles s !! rd_id role with
                    | Some _ => rr_roles s
                    | None => <[rd_id role := role]> (rr_roles s)
                    end;
        rr_owners := <[rd_id role := {[owner]} ∪ default ∅ (rr_owners s !! rd_id role)]>
                       (rr_owners s) |}, Ok tt).
Proof.
  unfold role_register_owned. destruct (trim_is_empty owner); [by left|].
  destruct (rr_roles s !! rd_id role) as [e|] eqn:E.
  - destruct (role_eqb e role) eqn:Eq; [|by left]. right. split; [by intros ? [= <-]|done].
  - right. split; [done|done].
Qed.

Lemma roles_inv_step s s' : role_step s s' → roles_inv s → roles_inv s'.
Proof.
  intros [? owner role|? owner id] [Hs Ho Hk].
  - destruct (register_owned_cases s0 owner role) as [[-> _]|[_ ->]]; [done|]. split; simpl.
    + intros id. destruct (decide (id = rd_id role)) as [->|Hne].
      * rewrite lookup_insert_eq. split; [eauto|]. intros _.
        destruct (rr_roles s0 !! rd_id role) eqn:E; [by rewrite E|rewrite lookup_insert_eq; eauto].
      * rewrite (lookup_insert_ne (rr_owners s0)) by done. rewrite <-Hs.
        destruct (rr_roles s0 !! rd_id role); [done|by rewrite lookup_insert_ne].
    + intros id owners [[<- <-]|[_ H]]%lookup_insert_Some; [set_solver|by eapply Ho].
    + intros id r. destruct (rr_roles s0 !! rd_id role); [apply Hk|].
      intros [[<- <-]|[_ H]]%lookup_insert_Some; [done|by apply Hk].
  - unfold role_unregister_owned. destruct (rr_owners s0 !! id) as [owners|] eqn:E; [|done].
    case_decide; [done|]. case_decide as He; simpl; split; simpl.
    + intros id'. rewrite !lookup_delete. case_decide; [by split; intros []|apply Hs].
    + intros id' o [_ H']%lookup_delete_Some. by eapply Ho.
    + intros id' r [_ H']%lookup_delete_Some. by apply Hk.
    + intros id'. rewrite lookup_insert. case_decide; [subst|apply Hs].
      rewrite Hs, E. split; eauto.
    + intros id' o [[<- <-]|[_ H']]%lookup_insert_Some; [done|by eapply Ho].
    + done.
Qed.

(** on every history of registrations, a role is available exactly while
    some owner still holds it, under its own identifier; a registration that is
    refused, and an unregistration by somebody who does not hold the role,
    change nothing. *)
Theorem role_ownership s :
  rtc role_step role_registry_default s →
  (∀ id, is_Some (role_get s id) ↔ ∃ owner, holds s owner id) ∧
  (∀ id r, role_get s id = Some r → rd_id r = id) ∧
  (∀ owner role, is_ok (role_register_owned s owner role).2 = false →
     (role_register_owned s owner role).1 = s) ∧
  (∀ owner id, ¬ holds s owner id → role_unregister_owned s owner id = (s, false)).
Proof.
  intros Hr. assert (roles_inv s) as [Hs Ho Hk].
  { revert Hr. apply (rtc_ind_r roles_inv role_registry_default).
    - split; simpl; [by intros id; rewrite !lookup_empty; split; intros []|done|done].
    - intros s1 s2 _ Hstep. by apply roles_inv_step. }
  split_and!.
  - intros id. unfold role_get, holds. rewrite Hs. split.
    + intros [owners E]. pose proof (Ho id owners E) as Hne.
      apply set_choose_L in Hne as [x Hx]. eauto.
    + intros (_ & owners & -> & _). eauto.
  - apply Hk.
  - intros owner role Hf. destruct (register_owned_cases s owner role) as [[-> _]|[_ E]]; [done|].
    by rewrite E in Hf.
  - intros owner id Hn. unfold role_unregister_owned.
    destruct (rr_owners s !! id) as [owners|] eqn:E; [|done].
    rewrite decide_True; [done|]. intros Hin. apply Hn. by exists owners.
Qed.

Definition sample_role : AgentRoleDefinition :=
  {| rd_id := "rev"; rd_description := "reviews"; rd_input_schema := None; rd_output_schema := None;
     rd_model_policy := {| mp_model := None; mp_reasoning_effort := None |};
     rd_capability_scope := []; rd_permission_ceiling := ceiling_plan; rd_context_policy := None;
     rd_recursion_policy := None; rd_budget := budget_default |}.

Definition sample_roles : RoleRegistryState :=
  (role_register_owned (role_register_owned role_registry_default "core" sample_role).1
     "pack" sample_role).1.

Lemma role_ownership_witness :
  is_Some (role_get sample_roles "rev") ∧
  role_unregister_owned sample_roles "other" "rev" = (sample_roles, false).
Proof.
  assert (rtc role_step role_registry_default sample_roles) as Hr
    by (do 2 (eapply rtc_r; [|constructor]); constructor).
  split.
  - apply (role_ownership sample_roles Hr). exists "pack". eexists. split; [reflexivity|]. set_solver.
  - apply (role_ownership sample_roles Hr). intros (owners & E & Hin). vm_compute in E.
    injection E as <-. vm_compute in Hin. discriminate Hin.
Defined.

(** ** Listings *)

#[export] Instance fact_le_trans : Transitive fact_le.
Proof. intros a b c. unfold fact_le. apply transitivity. Qed.
#[export] Instance fact_le_total : Total fact_le.
Proof. intros a b. unfold fact_le. apply total; apply _. Qed.

#[export] Instance artifact_le_trans : Transitive artifact_le.
Proof.
  intros a b c. unfold artifact_le. intros [H1|[E1 H1]] [H2|[E2 H2]]; [left; lia..|].
  right. split; [lia|]. by etrans.
Qed.
#[export] Instance artifact_le_total : Total artifact_le.
Proof.
  intros a b. unfold artifact_le.
  destruct (Z.lt_trichotomy (af_created_at_unix_ms a) (af_created_at_unix_ms b)) as [H|[H|H]];
    [by left; left| |by right; left].
  destruct (total String.le (af_artifact_id a) (af_artifact_id b)); [left|right]; right; auto.
Qed.

Inductive team_state_step : TeamStateStore → TeamStateStore → Prop :=
  | tss_fact s f : team_state_step s (set_fact s f).1
  | tss_put s a : team_state_step s (put_artifact s a)
  | tss_register s uuid now run team agent uri kind metadata :
      team_state_step s (register_artifact s uuid now run team agent uri kind metadata).1.

(** Everything is stored under its own key. *)
Definition team_state_keyed (s : TeamStateStore) : Prop :=
  (∀ k f, ts_facts s !! k = Some f → k = (tf_team_id f, tf_key f)) ∧
  (∀ k a, ts_artifacts s !! k = Some a → k = af_artifact_id a).

Lemma team_state_keyed_step s s' : team_state_step s s' → team_state_keyed s → team_state_keyed s'.
Proof.
  intros Hstep [Hf Ha].
  destruct Hstep; split; simpl; try done; intros k x [[<- <-]|[_ H]]%lookup_insert_Some; auto.
Qed.

Lemma sorted_listing_unique {A} (R : A → A → Prop) `{!RelDecision R, !Transitive R, !Total R} l1 l2 :
  (∀ x y, x ∈ l1 → y ∈ l1 → R x y → R y x → x = y) → l1 ≡ₚ l2 →
  merge_sort R l1 = merge_sort R l2.
Proof.
  intros Hanti Hp. apply (StronglySorted_unique_strong R).
  - intros x y. rewrite !merge_sort_Permutation, <-Hp. apply Hanti.
  - by apply StronglySorted_merge_sort.
  - by apply StronglySorted_merge_sort.
  - by rewrite !merge_sort_Permutation.
Qed.

Definition enumerates {K A} `{Countable K} (values : gmap K A → list A) : Prop :=
  ∀ m, values m ≡ₚ (map_to_list m).*2.

Lemma enumerates_elem {K A} `{Countable K} (values : gmap K A → list A) m x :
  enumerates values → x ∈ values m ↔ ∃ k, m !! k = Some x.
Proof.
  intros Hv. rewrite (Hv m), list_elem_of_fmap. setoid_rewrite <-elem_of_map_to_list. split.
  - intros ([k y] & -> & Hx). by exists k.
  - intros [k Hx]. by exists (k, x).
Qed.

(** what the store lists does not depend on the hash order: on every
    history, the facts of a Team are its current facts in key order, the
    artifacts are the matching ones in order of creation, and any two
    enumerations of the maps give the same lists. *)
Theorem listings_deterministic s fv fv' av av' team tq aq :
  rtc team_state_step team_state_default s →
  enumerates fv → enumerates fv' → enumerates av → enumerates av' →
  facts fv s team = facts fv' s team ∧
  artifacts av s tq aq = artifacts av' s tq aq ∧
  StronglySorted fact_le (facts fv s team) ∧
  StronglySorted artifact_le (artifacts av s tq aq) ∧
  (∀ f, f ∈ facts fv s team ↔
     tf_team_id f = team ∧ ts_facts s !! (team, tf_key f) = Some f) ∧
  (∀ a, a ∈ artifacts av s tq aq ↔
     ts_artifacts s !! af_artifact_id a = Some a ∧
     (tq = None ∨ af_team_id a = tq) ∧ (aq = None ∨ Some (af_agent_id a) = aq)).
Proof.
  intros Hr Hfv Hfv' Hav Hav'.
  assert (team_state_keyed s) as [Hf Ha].
  { revert Hr. apply (rtc_ind_r team_state_keyed team_state_default); [by split|].
    intros s1 s2 _ Hstep. by apply team_state_keyed_step. }
  assert (∀ f, f ∈ fv (ts_facts s) ↔ ts_facts s !! (tf_team_id f, tf_key f) = Some f) as Hfin.
  { intros f. rewrite enumerates_elem by done. split; [|eauto].
    intros [k Hk]. by rewrite <-(Hf k f Hk). }
  assert (∀ a, a ∈ av (ts_artifacts s) ↔ ts_artifacts s !! af_artifact_id a = Some a) as Hain.
  { intros a. rewrite enumerates_elem by done. split; [|eauto].
    intros [k Hk]. by rewrite <-(Ha k a Hk). }
  split_and!.
  - unfold facts. apply sorted_listing_unique; [apply _..| |by rewrite (Hfv (ts_facts s)), (Hfv' (ts_facts s))].
    intros x y [<- Hx%Hfin]%list_elem_of_filter [E Hy%Hfin]%list_elem_of_filter Hxy Hyx.
    assert (tf_key x = tf_key y) as Ek by by apply (anti_symm String.le). congruence.
  - unfold artifacts. apply sorted_listing_unique; [apply _..| |].
    2:{ by rewrite (Hav (ts_artifacts s)), (Hav' (ts_artifacts s)). }
    intros x y [_ [_ Hx%Hain]%list_elem_of_filter]%list_elem_of_filter
      [_ [_ Hy%Hain]%list_elem_of_filter]%list_elem_of_filter Hxy Hyx.
    assert (af_artifact_id x = af_artifact_id y) as Ei.
    { destruct Hxy as [|[E1 H1]], Hyx as [|[E2 H2]]; try lia. by apply (anti_symm String.le). }
    congruence.
  - apply StronglySorted_merge_sort; apply _.
  - apply StronglySorted_merge_sort; apply _.
  - intros f. unfold facts. rewrite merge_sort_Permutation, list_elem_of_filter, Hfin.
    split; intros [<- H]; done.
  - intros a. unfold artifacts.
    rewrite merge_sort_Permutation, !list_elem_of_filter, Hain. tauto.
Qed.

Definition sample_fact (key : string) : TeamFact :=
  {| tf_run_id := "run"; tf_team_id := "team"; tf_key := key; tf_value := VNull;
     tf_updated_by := "a"; tf_updated_at_unix_ms := 1 |}.

Definition sample_team_state : TeamStateStore :=
  (set_fact (set_fact team_state_default (sample_fact "b")).1 (sample_fact "a")).1.

Lemma listings_deterministic_witness :
  facts (λ m, (map_to_list m).*2) sample_team_state "team" =
  facts (λ m, reverse (map_to_list m).*2) sample_team_state "team".
Proof.
  apply (listings_deterministic sample_team_state _ _ (λ m, (map_to_list m).*2)
           (λ m, (map_to_list m).*2) "team" None None).
  - eapply rtc_r; [eapply rtc_r; [constructor|apply (tss_fact _ (sample_fact "b"))]|apply tss_fact].
  - intros m. reflexivity.
  - intros m. apply reverse_Permutation.
  - intros m. reflexivity.
  - intros m. reflexivity.
Defined.
