(* ===== verification/LedgerInterface.v ===== *)
(** * The ledger as its clients see it

    The part of the [RuntimeLedger] trait (crates/solaris-agent/src/
    runtime_ledger.rs) that the message bus uses, as a class of operations with
    the laws a client relies on, and the instance of the in-memory ledger.  The
    clients' theorems are proved against the class. *)
From S2P Require Import Prelude Json Types RuntimeLedger LedgerFacts.

(** The operations; [lg_contents] is what is stored for a Run. *)
Class Ledger (L E : Type) := {
  lg_append : L → Z → RunId → DurabilityClass → string → Value → L * result LedgerRecord E;
  lg_records : L → RunId → result (list LedgerRecord) E;
  lg_contents : L → RunId → list LedgerRecord;
  lg_ready : L → Prop;
}.

(** A failed append stores nothing, nor does an ephemeral one.  A durable
    append stores exactly its record, numbered above every record of the Run
    while the ledger still has sequence numbers.  A read that succeeds returns
    what is stored. *)
Class LedgerLaws (L E : Type) `{!Ledger L E} : Prop := {
  lg_records_contents : ∀ (l : L) run rs, lg_records l run = Ok rs → rs = lg_contents l run;
  lg_append_err : ∀ (l l' : L) now run d ty p e,
    lg_append l now run d ty p = (l', Err e) →
    ∀ run', lg_contents l' run' = lg_contents l run';
  lg_append_stores : ∀ (l l' : L) now run d ty p r,
    d ≠ Ephemeral → lg_append l now run d ty p = (l', Ok r) →
    lg_contents l' run = lg_contents l run ++ [r] ∧
    lr_run_id r = run ∧ lr_record_type r = ty ∧ lr_payload r = p;
  lg_append_ephemeral : ∀ (l l' : L) now run ty p r,
    lg_append l now run Ephemeral ty p = (l', Ok r) → lg_contents l' run = lg_contents l run;
  lg_append_increasing : ∀ (l l' : L) now run d ty p r,
    lg_ready l → d ≠ Ephemeral → lg_append l now run d ty p = (l', Ok r) →
    ∀ r', r' ∈ lg_contents l run → (lr_seq r' < lr_seq r)%Z;
  lg_append_other : ∀ (l l' : L) now run d ty p r run',
    lg_append l now run d ty p = (l', Ok r) → run' ≠ run →
    lg_contents l' run' = lg_contents l run';
}.

#[export] Instance in_memory_ledger : Ledger InMemoryLedgerState LedgerError := {|
  lg_append := append;
  lg_records := records_for_run;
  lg_contents := run_records;
  lg_ready s := ledger_inv s ∧ (ls_next_sequence s < u64_max)%Z;
|}.

#[export] Instance in_memory_laws : LedgerLaws InMemoryLedgerState LedgerError.
Proof.
  split; simpl.
  - by intros l run rs [= <-].
  - unfold append. intros. case_decide; simplify_eq.
  - unfold append. intros l l' now run d ty p r Hd E. rewrite decide_True in E by done.
    injection E as <- <-. rewrite run_records_push. simpl. by rewrite decide_True by done.
  - unfold append. intros l l' now run ty p r E. rewrite decide_False in E by auto. by injection E as <- <-.
  - unfold append. intros l l' now run d ty p r [Hinv Hlt] Hd E r' Hr'.
    rewrite decide_True in E by done. injection E as <- <-.
    destruct (li_records l Hinv run r' Hr') as (_ & Hb & _).
    simpl. rewrite saturating_add_small by lia. lia.
  - unfold append. intros l l' now run d ty p r run' E Hne. case_decide; simplify_eq; [|done].
    rewrite run_records_push. simpl. by rewrite decide_False.
Qed.

Lemma lg_append_ok {L E} `{!Ledger L E, !LedgerLaws L E} (l l' : L) now run d ty p r :
  lg_ready l → d ≠ Ephemeral → lg_append l now run d ty p = (l', Ok r) →
  lg_contents l' run = lg_contents l run ++ [r] ∧
  lr_run_id r = run ∧ lr_record_type r = ty ∧ lr_payload r = p ∧
  (∀ r', r' ∈ lg_contents l run → (lr_seq r' < lr_seq r)%Z).
Proof.
  intros Hr Hd Ha. destruct (lg_append_stores _ _ _ _ _ _ _ _ Hd Ha) as (?&?&?&?).
  eauto 6 using lg_append_increasing.
Qed.
