(* ===== verification/MessageBus.v ===== *)
(** * The message bus

    crates/solaris-agent/src/message_bus.rs: direct messages and broadcasts
    between the Agents of a Run, with durable delivery, claims, acknowledgement
    and draining, and the functions that rebuild the bus from the ledger.  The
    bus is generic in the ledger it writes to.  The clock, the generated
    identifiers and the current contents of the Agent and Team registries are
    arguments of the operations. *)
From S2P Require Import Prelude Json Types RuntimeLedger LedgerInterface Registries.

Record AgentMessage : Type := {
  am_message_id : string;
  am_run_id : RunId;
  am_team_id : option TeamId;
  am_from : AgentId;
  am_to : AgentId;
  am_kind : string;
  am_body : Value;
  am_created_at_unix_ms : Z;
  am_acknowledged_at_unix_ms : option Z;
}.

Record DurableDirectMessage : Type := {
  dd_message : AgentMessage;
  dd_requested_team_id_known : bool;
  dd_requested_team_id : option TeamId;
}.

Record DurableBroadcast : Type := {
  db_broadcast_id : string;
  db_run_id : RunId;
  db_team_id : TeamId;
  db_from : AgentId;
  db_recipients : list AgentId;
  db_kind : string;
  db_body : Value;
  db_messages : list AgentMessage;
}.

(** ** JSON *)

#[export] Program Instance serde_i64 : Serde Z := {|
  to_value := i64_to_value;
  from_value := as_i64;
  serde_ok := is_i64;
|}.
Next Obligation. apply i64_roundtrip. Qed.
Next Obligation. intros z _. unfold i64_to_value. by case_decide. Qed.

Definition message_ok (m : AgentMessage) : Prop :=
  value_wf (am_body m) ∧ is_i64 (am_created_at_unix_ms m) ∧
  match am_acknowledged_at_unix_ms m with Some z => is_i64 z | None => True end.

Definition message_fields (m : AgentMessage) : list (string * option Value) :=
  [("message_id", Some (to_value (am_message_id m)));
   ("run_id", Some (to_value (am_run_id m)));
   ("team_id", field_opt (am_team_id m));
   ("from", Some (to_value (am_from m)));
   ("to", Some (to_value (am_to m)));
   ("kind", Some (to_value (am_kind m)));
   ("body", Some (to_value (am_body m)));
   ("created_at_unix_ms", Some (to_value (am_created_at_unix_ms m)));
   ("acknowledged_at_unix_ms", field_opt (am_acknowledged_at_unix_ms m))].

Definition message_from_fields (l : list (string * Value)) : option AgentMessage :=
  message_id ← read from_value "message_id" l;
  run_id ← read from_value "run_id" l;
  team_id ← read_opt from_value "team_id" l;
  from ← read from_value "from" l;
  to ← read from_value "to" l;
  kind ← read from_value "kind" l;
  body ← read from_value "body" l;
  created ← read from_value "created_at_unix_ms" l;
  acknowledged ← read_opt from_value "acknowledged_at_unix_ms" l;
  Some {| am_message_id := message_id; am_run_id := run_id; am_team_id := team_id; am_from := from;
          am_to := to; am_kind := kind; am_body := body; am_created_at_unix_ms := created;
          am_acknowledged_at_unix_ms := acknowledged |}.

Definition message_from (v : Value) : option AgentMessage :=
  l ← as_object v; message_from_fields l.

(** Reading the members of a message from an object that has them. *)
Lemma message_from_fields_ok l m :
  message_ok m → NoDup l.*1 → (∀ k v, (k, v) ∈ message_fields m → assoc k l = Some v) →
  message_from_fields (fields_of l) = Some m.
Proof.
  intros (Hb & Hc & Ha) Hnd Hl. unfold message_from_fields.
  assert (∀ k v, assoc k (message_fields m) = Some v → assoc k l = Some v) as Hk.
  { intros k v Hkv. apply Hl. by apply assoc_elem_of. }
  repeat (eapply bind_Some_intro;
    [first [eapply read_fields; [assumption|apply Hk; reflexivity|apply from_to_value; first [exact I|assumption]]
           |eapply read_opt_fields; [assumption|apply Hk; reflexivity|]]|cbv beta]).
  - destruct (am_team_id m); [split; [exact I|discriminate]|exact I].
  - destruct (am_acknowledged_at_unix_ms m) as [z|]; [split; [done|]|exact I].
    simpl. unfold i64_to_value. by case_decide.
  - by destruct m.
Qed.

#[export] Program Instance serde_message : Serde AgentMessage := {|
  to_value m := VObject (fields_of (message_fields m));
  from_value := message_from;
  serde_ok := message_ok;
|}.
Next Obligation.
  intros m Hm. assert (NoDup (message_fields m).*1) as Hnd by serde_keys.
  apply message_from_fields_ok; [done|done|]. intros k v. by apply elem_of_assoc.
Qed.
Next Obligation.
  intros m (Hb & Hc & Ha). serde_wf.
  intros z Hz. rewrite Hz in Ha. done.
Qed.

(** The flattened message comes first. *)
Definition direct_fields (d : DurableDirectMessage) : list (string * option Value) :=
  message_fields (dd_message d) ++
  [("requested_team_id_known", Some (to_value (dd_requested_team_id_known d)));
   ("requested_team_id", field_opt (dd_requested_team_id d))].

Definition direct_from (v : Value) : option DurableDirectMessage :=
  l ← as_object v;
  message ← message_from_fields l;
  known ← read_default from_value false "requested_team_id_known" l;
  requested ← read_opt from_value "requested_team_id" l;
  Some {| dd_message := message; dd_requested_team_id_known := known;
          dd_requested_team_id := requested |}.

#[export] Program Instance serde_direct : Serde DurableDirectMessage := {|
  to_value d := VObject (fields_of (direct_fields d));
  from_value := direct_from;
  serde_ok d := message_ok (dd_message d);
|}.
Next Obligation.
  intros d Hm. assert (NoDup (direct_fields d).*1) as Hnd by serde_keys.
  eapply bind_Some_intro; [reflexivity|].
  eapply bind_Some_intro.
  { apply (message_from_fields_ok _ (dd_message d)); [done|done|]. intros k v Hkv. apply elem_of_assoc; [done|].
    unfold direct_fields. apply elem_of_app. by left. }
  cbv beta. repeat serde_step. by destruct d.
Qed.
Next Obligation.
  intros d (Hb & Hc & Ha). unfold direct_fields, message_fields. cbn [app].
  serde_wf. intros z Hz. rewrite Hz in Ha. done.
Qed.

Definition broadcast_fields (b : DurableBroadcast) : list (string * option Value) :=
  [("broadcast_id", Some (to_value (db_broadcast_id b)));
   ("run_id", Some (to_value (db_run_id b)));
   ("team_id", Some (to_value (db_team_id b)));
   ("from", Some (to_value (db_from b)));
   ("recipients", Some (to_value (db_recipients b)));
   ("kind", Some (to_value (db_kind b)));
   ("body", Some (to_value (db_body b)));
   ("messages", Some (to_value (db_messages b)))].

Definition broadcast_from (v : Value) : option DurableBroadcast :=
  l ← as_object v;
  broadcast_id ← read from_value "broadcast_id" l;
  run_id ← read from_value "run_id" l;
  team_id ← read from_value "team_id" l;
  from ← read from_value "from" l;
  recipients ← read from_value "recipients" l;
  kind ← read from_value "kind" l;
  body ← read from_value "body" l;
  messages ← read from_value "messages" l;
  Some {| db_broadcast_id := broadcast_id; db_run_id := run_id; db_team_id := team_id;
          db_from := from; db_recipients := recipients; db_kind := kind; db_body := body;
          db_messages := messages |}.

#[export] Program Instance serde_broadcast : Serde DurableBroadcast := {|
  to_value b := VObject (fields_of (broadcast_fields b));
  from_value := broadcast_from;
  serde_ok b := value_wf (db_body b) ∧ Forall message_ok (db_messages b);
|}.
Next Obligation.
  intros b [Hb Hm]. assert (NoDup (broadcast_fields b).*1) as Hnd by serde_keys.
  eapply bind_Some_intro; [reflexivity|]. repeat serde_step. by destruct b.
Qed.
Next Obligation. intros b [Hb Hm]. serde_wf; by apply to_value_wf. Qed.

(** ** State and errors *)

Inductive BusError (E : Type) : Type :=
  | BusLedger (e : E)
  | RandomIdReused
  | UnknownMessageTeam (team_id : TeamId)
  | MessageTeamLimits (e : TeamLimitError)
  | MessageTeamMembers
  | BodyTooLarge (bytes max : Z)
  | InboxFull (to : AgentId) (max : Z)
  | BroadcastTeam
  | BroadcastRecipient
  | BroadcastInboxFull (to : AgentId) (max : Z)
  | InvalidDurableMessage
  | InvalidDurableBroadcast
  | MessageIdBound (message_id : string)
  | BroadcastIdBound (broadcast_id : string)
  | ProjectionConflict (message_id : string)
  | AcknowledgementForeign
  | UnknownMessageAgent (agent_id : AgentId)
  | MessageAgentRun.
Arguments BusLedger {E} e.
Arguments RandomIdReused {E}.
Arguments UnknownMessageTeam {E} team_id.
Arguments MessageTeamLimits {E} e.
Arguments MessageTeamMembers {E}.
Arguments BodyTooLarge {E} bytes max.
Arguments InboxFull {E} to max.
Arguments BroadcastTeam {E}.
Arguments BroadcastRecipient {E}.
Arguments BroadcastInboxFull {E} to max.
Arguments InvalidDurableMessage {E}.
Arguments InvalidDurableBroadcast {E}.
Arguments MessageIdBound {E} message_id.
Arguments BroadcastIdBound {E} broadcast_id.
Arguments ProjectionConflict {E} message_id.
Arguments AcknowledgementForeign {E}.
Arguments UnknownMessageAgent {E} agent_id.
Arguments MessageAgentRun {E}.

(** The inboxes and the claims are two maps behind two locks; every mutation
    runs inside the mutation line of its Run. *)
Record Mailbox : Type := {
  mb_inboxes : gmap AgentId (list AgentMessage);
  mb_claims : gmap string string;
}.

Record BusState (L : Type) : Type := { bs_box : Mailbox; bs_ledger : L }.
Arguments Build_BusState {L} _ _.
Arguments bs_box {L} _.
Arguments bs_ledger {L} _.

Definition mailbox_empty : Mailbox := {| mb_inboxes := ∅; mb_claims := ∅ |}.

(** What a mutation reads of the two registries. *)
Record Registry : Type := { rg_agents : AgentRegistry; rg_teams : TeamRegistry }.

Definition inbox_of (b : Mailbox) (a : AgentId) : list AgentMessage := default [] (mb_inboxes b !! a).

Definition is_pending (m : AgentMessage) : bool :=
  match am_acknowledged_at_unix_ms m with None => true | Some _ => false end.

Definition pending_count (l : list AgentMessage) : Z := Z.of_nat (length (List.filter is_pending l)).

Definition set_inboxes (b : Mailbox) (i : gmap AgentId (list AgentMessage)) : Mailbox :=
  {| mb_inboxes := i; mb_claims := mb_claims b |}.

(** [inboxes.entry(to).or_default().push(message)]. *)
Definition push_message (b : Mailbox) (m : AgentMessage) : Mailbox :=
  set_inboxes b (<[am_to m := inbox_of b (am_to m) ++ [m]]> (mb_inboxes b)).

Definition claim_message (claim_id : string) (b : Mailbox) (message_id : string) : Mailbox :=
  {| mb_inboxes := mb_inboxes b; mb_claims := <[message_id := claim_id]> (mb_claims b) |}.

(** [messages.retain(p)] and removal of the inbox when nothing is left. *)
Definition retain_inbox (b : Mailbox) (a : AgentId) (p : AgentMessage → bool) : Mailbox :=
  let l := List.filter p (inbox_of b a) in
  set_inboxes b (if decide (l = []) then delete a (mb_inboxes b) else <[a := l]> (mb_inboxes b)).

Definition with_ack (m : AgentMessage) (ack : option Z) : AgentMessage :=
  {| am_message_id := am_message_id m; am_run_id := am_run_id m; am_team_id := am_team_id m;
     am_from := am_from m; am_to := am_to m; am_kind := am_kind m; am_body := am_body m;
     am_created_at_unix_ms := am_created_at_unix_ms m; am_acknowledged_at_unix_ms := ack |}.

Definition has_id (id : string) (m : AgentMessage) : bool := bool_decide (am_message_id m = id).

(** [iter_mut().find(|m| m.message_id == id)] followed by a write to the
    acknowledgement. *)
Fixpoint ack_first (id : string) (ack : option Z) (l : list AgentMessage) : list AgentMessage :=
  match l with
  | [] => []
  | m :: l => if has_id id m then with_ack m ack :: l else m :: ack_first id ack l
  end.

Definition set_ack (b : Mailbox) (a : AgentId) (id : string) (ack : option Z) : Mailbox :=
  set_inboxes b (alter (ack_first id ack) a (mb_inboxes b)).

(** ** Reading the ledger *)

Definition payload_str (r : LedgerRecord) (k : string) : option string := get_str k (lr_payload r).

(** [as_array] of the member [message_ids], the strings of it. *)
Definition payload_ids (r : LedgerRecord) : list string :=
  match get "message_ids" (lr_payload r) with
  | Some v => match as_array v with Some l => omap as_str l | None => [] end
  | None => []
  end.

Definition record_contains_message_id (r : LedgerRecord) (id : string) : bool :=
  match get "message_ids" (lr_payload r) with
  | Some v =>
      match as_array v with
      | Some l => existsb (λ x, bool_decide (as_str x = Some id)) l
      | None => false
      end
  | None => false
  end.

Definition same_message_content (a b : AgentMessage) : bool :=
  bool_decide (am_message_id a = am_message_id b) && bool_decide (am_run_id a = am_run_id b) &&
  bool_decide (am_team_id a = am_team_id b) && bool_decide (am_from a = am_from b) &&
  bool_decide (am_to a = am_to b) && bool_decide (am_kind a = am_kind b) &&
  value_eqb (am_body a) (am_body b) &&
  bool_decide (am_created_at_unix_ms a = am_created_at_unix_ms b).

(** What the later records say of one message: its acknowledgement, its last
    claim, whether it was dequeued. *)
Record Projected : Type := {
  pj_ack : option Z;
  pj_claim : option string;
  pj_dequeued : bool;
}.

Definition project_record (id : string) (p : Projected) (r : LedgerRecord) : Projected :=
  if decide (lr_record_type r = "message_acknowledged" ∧ payload_str r "message_id" = Some id) then
    {| pj_ack := match get "acknowledged_at_unix_ms" (lr_payload r) with
                 | Some v => as_i64 v | None => None end;
       pj_claim := pj_claim p; pj_dequeued := pj_dequeued p |}
  else if decide (lr_record_type r = "messages_claimed" ∧ record_contains_message_id r id = true) then
    {| pj_ack := pj_ack p; pj_claim := payload_str r "claim_id"; pj_dequeued := pj_dequeued p |}
  else if decide (lr_record_type r = "messages_dequeued" ∧ record_contains_message_id r id = true) then
    {| pj_ack := pj_ack p; pj_claim := pj_claim p; pj_dequeued := true |}
  else p.

Definition project (m : AgentMessage) (delivered : Z) (records : list LedgerRecord) : Projected :=
  fold_left (project_record (am_message_id m))
    (filter (λ r, delivered < lr_seq r)%Z records)
    {| pj_ack := am_acknowledged_at_unix_ms m; pj_claim := None; pj_dequeued := false |}.

Section bus.
Context {L E : Type} `{!Ledger L E}.
(** [serde_json::to_vec]. *)
Context (to_vec : Value → string).

Abbreviation res A := (result A (BusError E)) (only parsing).

Definition lift_ledger {A} (r : result A E) : res A :=
  match r with Ok a => Ok a | Err e => Err (BusLedger e) end.

Definition bus_append (s : BusState L) (now : Z) (run : RunId) (ty : string) (payload : Value) :
    BusState L * res LedgerRecord :=
  let '(l, r) := lg_append (bs_ledger s) now run SyncCritical ty payload in
  ({| bs_box := bs_box s; bs_ledger := l |}, lift_ledger r).

Definition update_box (s : BusState L) (f : Mailbox → Mailbox) : BusState L :=
  {| bs_box := f (bs_box s); bs_ledger := bs_ledger s |}.

Definition validate_agent_run (g : Registry) (run : RunId) (a : AgentId) : res unit :=
  let? agent := ok_or (agent_get (rg_agents g) a) (UnknownMessageAgent a) in
  ensure (bool_decide (ar_run_id agent = run)) MessageAgentRun.

Definition validate_body_size (body : Value) (max : Z) : res unit :=
  let bytes := byte_len (to_vec body) in
  ensure (bool_decide (bytes ≤ max)%Z) (BodyTooLarge bytes max).

Definition team_limits (t : TeamRecord) : res unit :=
  match validate_message_limits t with Ok _ => Ok tt | Err e => Err (MessageTeamLimits e) end.

(** The body of the loop of [repair_durable_messages]. *)
Definition repair_message (records : list LedgerRecord) (delivered : Z) (b : Mailbox)
    (m : AgentMessage) : Mailbox * res unit :=
  let p := project m delivered records in
  let id := am_message_id m in
  let b := match pj_claim p with Some c => claim_message c b id | None => b end in
  if pj_dequeued p then (retain_inbox b (am_to m) (λ x, negb (has_id id x)), Ok tt)
  else
    let b := set_inboxes b (<[am_to m := inbox_of b (am_to m)]> (mb_inboxes b)) in
    match List.find (has_id id) (inbox_of b (am_to m)) with
    | Some existing =>
        if same_message_content existing m
        then (set_ack b (am_to m) id (pj_ack p), Ok tt)
        else (b, Err (ProjectionConflict id))
    | None => (push_message b (with_ack m (pj_ack p)), Ok tt)
    end.

Fixpoint repair_durable_messages (records : list LedgerRecord) (delivered : Z) (b : Mailbox)
    (ms : list AgentMessage) : Mailbox * res unit :=
  match ms with
  | [] => (b, Ok tt)
  | m :: ms =>
      sbind (repair_message records delivered b m)
        (λ b _, repair_durable_messages records delivered b ms)
  end.

Definition repair (s : BusState L) (records : list LedgerRecord) (delivered : Z)
    (ms : list AgentMessage) : BusState L * res unit :=
  let '(b, r) := repair_durable_messages records delivered (bs_box s) ms in
  ({| bs_box := b; bs_ledger := bs_ledger s |}, r).

(** [record_type == ty && payload[k] == id]. *)
Definition names (ty k id : string) (r : LedgerRecord) : bool :=
  bool_decide (lr_record_type r = ty) && bool_decide (payload_str r k = Some id).

Definition replay_send (s : BusState L) (message_id : string) (run : RunId)
    (requested : option TeamId) (from to : AgentId) (kind : string) (body : Value) :
    BusState L * res (option AgentMessage) :=
  slift s (lift_ledger (lg_records (bs_ledger s) run)) (λ records,
  match List.find (names "message_delivered" "message_id" message_id) records with
  | None => (s, Ok None)
  | Some record =>
      slift s (ok_or (from_value (lr_payload record)) InvalidDurableMessage)
        (λ durable : DurableDirectMessage,
      let existing := dd_message durable in
      if bool_decide (am_run_id existing ≠ run) ||
         (dd_requested_team_id_known durable &&
          bool_decide (dd_requested_team_id durable ≠ requested)) ||
         (negb (dd_requested_team_id_known durable) && bool_decide (requested ≠ None) &&
          bool_decide (am_team_id existing ≠ requested)) ||
         bool_decide (am_from existing ≠ from) || bool_decide (am_to existing ≠ to) ||
         bool_decide (am_kind existing ≠ kind) || negb (value_eqb (am_body existing) body)
      then (s, Err (MessageIdBound message_id))
      else sbind (repair s records (lr_seq record) [existing]) (λ s _, (s, Ok (Some existing))))
  end).

Definition replay_broadcast (s : BusState L) (broadcast_id : string) (run : RunId)
    (team_id : TeamId) (from : AgentId) (recipients : option (list AgentId)) (kind : string)
    (body : Value) : BusState L * res (option (list AgentMessage)) :=
  slift s (lift_ledger (lg_records (bs_ledger s) run)) (λ records,
  match List.find (names "messages_broadcast" "broadcast_id" broadcast_id) records with
  | None => (s, Ok None)
  | Some record =>
      slift s (ok_or (from_value (lr_payload record)) InvalidDurableBroadcast)
        (λ existing : DurableBroadcast,
      if bool_decide (db_run_id existing ≠ run) || bool_decide (db_team_id existing ≠ team_id) ||
         bool_decide (db_from existing ≠ from) ||
         match recipients with
         | Some rs => bool_decide (db_recipients existing ≠ rs)
         | None => false
         end ||
         bool_decide (db_kind existing ≠ kind) || negb (value_eqb (db_body existing) body)
      then (s, Err (BroadcastIdBound broadcast_id))
      else sbind (repair s records (lr_seq record) (db_messages existing))
             (λ s _, (s, Ok (Some (db_messages existing)))))
  end).

Definition replay_broadcast_with_id (s : BusState L) (broadcast_id : string) (run : RunId)
    (team_id : TeamId) (from : AgentId) (kind : string) (body : Value) :=
  replay_broadcast s broadcast_id run team_id from None kind body.

(** The limits that apply to a direct message. *)
Definition message_limits (g : Registry) (run : RunId) (team_id : option TeamId)
    (from to : AgentId) : res (Z * Z) :=
  match team_id with
  | Some id =>
      let? team := ok_or (team_get (rg_teams g) id) (UnknownMessageTeam id) in
      team_limits team ;;?
      ensure (bool_decide (tm_run_id team = run ∧ from ∈ tm_members team ∧ to ∈ tm_members team))
        MessageTeamMembers ;;?
      Ok (tm_max_pending_messages team, tm_max_message_bytes team)
  | None => Ok (DEFAULT_MAX_PENDING_MESSAGES, DEFAULT_MAX_MESSAGE_BYTES)
  end.

(** [send_with_requested_team_id_within_mutation]. *)
Definition send_with_requested_team_id (s : BusState L) (g : Registry) (now : Z)
    (message_id : string) (run : RunId) (requested effective : option TeamId) (from to : AgentId)
    (kind : string) (body : Value) : BusState L * res (AgentMessage * option LedgerRecord) :=
  sbind (replay_send s message_id run requested from to kind body) (λ s replayed,
  match replayed with
  | Some existing => (s, Ok (existing, None))
  | None =>
      slift s (validate_agent_run g run from) (λ _,
      slift s (validate_agent_run g run to) (λ _,
      slift s (message_limits g run effective from to) (λ '(max_pending, max_bytes),
      slift s (validate_body_size body max_bytes) (λ _,
      slift s (ensure (bool_decide (pending_count (inbox_of (bs_box s) to) < max_pending)%Z)
                 (InboxFull to max_pending)) (λ _,
      let message :=
        {| am_message_id := message_id; am_run_id := run; am_team_id := effective; am_from := from;
           am_to := to; am_kind := kind; am_body := body; am_created_at_unix_ms := now;
           am_acknowledged_at_unix_ms := None |} in
      sbind (bus_append s now run "message_delivered"
               (to_value {| dd_message := message; dd_requested_team_id_known := true;
                            dd_requested_team_id := requested |})) (λ s record,
      (update_box s (λ b, push_message b message), Ok (message, Some record))))))))
  end).

Definition send_with_id (s : BusState L) (g : Registry) (now : Z) (message_id : string)
    (run : RunId) (team_id : option TeamId) (from to : AgentId) (kind : string) (body : Value) :=
  send_with_requested_team_id s g now message_id run team_id team_id from to kind body.

(** [send_within_mutation] with the generated identifier as an argument. *)
Definition send (s : BusState L) (g : Registry) (now : Z) (uuid : string) (run : RunId)
    (team_id : option TeamId) (from to : AgentId) (kind : string) (body : Value) :
    BusState L * res (AgentMessage * LedgerRecord) :=
  sbind (send_with_id s g now ("msg-" +:+ uuid) run team_id from to kind body) (λ s '(m, record),
  slift s (ok_or record RandomIdReused) (λ record, (s, Ok (m, record)))).

(** [*additions.entry(recipient).or_default() += 1]. *)
Definition additions (recipients : list AgentId) : gmap AgentId Z :=
  fold_left (λ m r, <[r := default 0%Z (m !! r) + 1]>%Z m) recipients ∅.

Definition broadcast_message (broadcast_id : string) (run : RunId) (team_id : TeamId)
    (from : AgentId) (kind : string) (body : Value) (now : Z) (index : nat) (to : AgentId) :
    AgentMessage :=
  {| am_message_id := broadcast_id +:+ ":" +:+ decimal (Z.of_nat index); am_run_id := run;
     am_team_id := Some team_id; am_from := from; am_to := to; am_kind := kind; am_body := body;
     am_created_at_unix_ms := now; am_acknowledged_at_unix_ms := None |}.

(** [broadcast_with_id_within_mutation].  The iteration order of [additions]
    only decides which full inbox an error names. *)
Definition broadcast_with_id (s : BusState L) (g : Registry) (now : Z) (broadcast_id : string)
    (run : RunId) (team_id : TeamId) (from : AgentId) (recipients : list AgentId) (kind : string)
    (body : Value) : BusState L * res (list AgentMessage * option LedgerRecord) :=
  sbind (replay_broadcast s broadcast_id run team_id from (Some recipients) kind body)
    (λ s replayed,
  match replayed with
  | Some existing => (s, Ok (existing, None))
  | None =>
      slift s (validate_agent_run g run from) (λ _,
      slift s (ok_or (team_get (rg_teams g) team_id) (UnknownMessageTeam team_id)) (λ team,
      slift s (team_limits team) (λ _,
      slift s (ensure (bool_decide (tm_run_id team = run ∧ from ∈ tm_members team)) BroadcastTeam)
        (λ _,
      slift s (for_each (λ r, validate_agent_run g run r ;;?
                  ensure (bool_decide (r ∈ tm_members team)) BroadcastRecipient) recipients) (λ _,
      slift s (validate_body_size body (tm_max_message_bytes team)) (λ _,
      slift s (for_each (λ '(r, n),
                  ensure (bool_decide (saturating_add (pending_count (inbox_of (bs_box s) r)) n
                                       ≤ tm_max_pending_messages team)%Z)
                    (BroadcastInboxFull r (tm_max_pending_messages team)))
                 (map_to_list (additions recipients))) (λ _,
      let messages := imap (broadcast_message broadcast_id run team_id from kind body now) recipients in
      sbind (bus_append s now run "messages_broadcast"
               (to_value {| db_broadcast_id := broadcast_id; db_run_id := run; db_team_id := team_id;
                            db_from := from; db_recipients := recipients; db_kind := kind;
                            db_body := body; db_messages := messages |})) (λ s record,
      (update_box s (λ b, fold_left push_message messages b), Ok (messages, Some record)))))))))) 
  end).

Definition broadcast (s : BusState L) (g : Registry) (now : Z) (uuid : string) (run : RunId)
    (team_id : TeamId) (from : AgentId) (recipients : list AgentId) (kind : string) (body : Value) :
    BusState L * res (list AgentMessage * LedgerRecord) :=
  sbind (broadcast_with_id s g now ("broadcast-" +:+ uuid) run team_id from recipients kind body)
    (λ s '(ms, record), slift s (ok_or record RandomIdReused) (λ record, (s, Ok (ms, record)))).

Definition inbox (s : BusState L) (a : AgentId) : list AgentMessage :=
  List.filter is_pending (inbox_of (bs_box s) a).

Definition claim_payload (a : AgentId) (claim_id : string) (ids : list string) : Value :=
  VObject [("agent_id", VString a); ("claim_id", VString claim_id);
           ("message_ids", VArray (VString <$> ids))].

Definition claim (s : BusState L) (g : Registry) (now : Z) (run : RunId) (a : AgentId)
    (claim_id : string) : BusState L * res (list AgentMessage) :=
  slift s (validate_agent_run g run a) (λ _,
  slift s (lift_ledger (lg_records (bs_ledger s) run)) (λ records,
  match List.find (λ r, bool_decide (lr_record_type r = "messages_claimed") &&
                        bool_decide (payload_str r "claim_id" = Some claim_id) &&
                        bool_decide (payload_str r "agent_id" = Some a)) records with
  | Some record =>
      let ids := payload_ids record in
      (s, Ok (List.filter (λ m, is_pending m && bool_decide (am_message_id m ∈ ids))
                (inbox_of (bs_box s) a)))
  | None =>
      let messages :=
        List.filter (λ m, bool_decide (am_run_id m = run) && is_pending m &&
                          bool_decide (mb_claims (bs_box s) !! am_message_id m = None))
          (inbox_of (bs_box s) a) in
      if decide (messages = []) then (s, Ok [])
      else
        let ids := am_message_id <$> messages in
        sbind (bus_append s now run "messages_claimed" (claim_payload a claim_id ids)) (λ s _,
        (update_box s (λ b, fold_left (claim_message claim_id) ids b), Ok messages))
  end)).

Definition acknowledge_payload (a : AgentId) (id : string) (now : Z) : Value :=
  VObject [("message_id", VString id); ("agent_id", VString a);
           ("acknowledged_at_unix_ms", to_value now)].

(** [acknowledge] validates the Agent and runs this in the mutation line. *)
Definition acknowledge (s : BusState L) (g : Registry) (now : Z) (run : RunId) (a : AgentId)
    (id : string) : BusState L * res (bool * option LedgerRecord) :=
  slift s (validate_agent_run g run a) (λ _,
  match List.find (has_id id) (inbox_of (bs_box s) a) with
  | None => (s, Ok (false, None))
  | Some m =>
      if decide (am_run_id m ≠ run ∨ am_to m ≠ a) then (s, Err AcknowledgementForeign)
      else if negb (is_pending m) then (s, Ok (true, None))
      else
        sbind (bus_append s now run "message_acknowledged" (acknowledge_payload a id now)) (λ s r,
        (update_box s (λ b, set_ack b a id (Some now)), Ok (true, Some r)))
  end).

Definition dequeue_payload (a : AgentId) (ids : list string) : Value :=
  VObject [("agent_id", VString a); ("message_ids", VArray (VString <$> ids))].

Definition not_among (ids : list string) (m : AgentMessage) : bool :=
  bool_decide (am_message_id m ∉ ids).

Definition drain (s : BusState L) (g : Registry) (now : Z) (run : RunId) (a : AgentId) :
    BusState L * res (list AgentMessage * option LedgerRecord) :=
  slift s (validate_agent_run g run a) (λ _,
  let drained := List.filter (λ m, bool_decide (am_run_id m = run)) (inbox_of (bs_box s) a) in
  if decide (drained = []) then (s, Ok ([], None))
  else
    let ids := am_message_id <$> drained in
    sbind (bus_append s now run "messages_dequeued" (dequeue_payload a ids)) (λ s r,
    (update_box s (λ b, retain_inbox b a (not_among ids)), Ok (drained, Some r)))).

End bus.

(** ** Rebuilding the bus from the ledger *)

Definition restore_message (b : Mailbox) (m : AgentMessage) : Mailbox :=
  if existsb (has_id (am_message_id m)) (inbox_of b (am_to m))
  then set_inboxes b (<[am_to m := inbox_of b (am_to m)]> (mb_inboxes b))
  else push_message b m.

(** The legacy form of a broadcast is the bare array of its messages. *)
Definition restore_broadcast (b : Mailbox) (payload : Value) : option Mailbox :=
  match payload with
  | VArray _ =>
      messages ← from_value (A := list AgentMessage) payload;
      Some (fold_left restore_message messages b)
  | _ =>
      durable ← from_value (A := DurableBroadcast) payload;
      Some (fold_left restore_message (db_messages durable) b)
  end.

Definition restore_claim (b : Mailbox) (claim_id : string) (ids : list string) : Mailbox :=
  fold_left (claim_message claim_id) ids b.

Definition restore_acknowledgement (b : Mailbox) (a : AgentId) (id : string) (at_ms : Z) :
    Mailbox * bool :=
  (set_ack b a id (Some at_ms), existsb (has_id id) (inbox_of b a)).

Definition restore_dequeue (b : Mailbox) (a : AgentId) (ids : list string) : Mailbox * Z :=
  match mb_inboxes b !! a with
  | None => (b, 0%Z)
  | Some l =>
      (retain_inbox b a (not_among ids),
       saturating_sub (Z.of_nat (length l)) (Z.of_nat (length (List.filter (not_among ids) l))))
  end.

(** The arms for messages in the loop of [restore]
    (collaboration_runtime/restore.rs); [None] is a decoding error. *)
Definition restore_record (b : Mailbox) (r : LedgerRecord) : option Mailbox :=
  if decide (lr_record_type r = "message_delivered") then
    match from_value (A := AgentMessage) (lr_payload r) with
    | Some m => Some (restore_message b m)
    | None => Some b
    end
  else if decide (lr_record_type r = "messages_broadcast") then restore_broadcast b (lr_payload r)
  else if decide (lr_record_type r = "message_acknowledged") then
    match payload_str r "agent_id", payload_str r "message_id",
          (match get "acknowledged_at_unix_ms" (lr_payload r) with Some v => as_i64 v | None => None end)
    with
    | Some a, Some id, Some at_ms => Some (restore_acknowledgement b a id at_ms).1
    | _, _, _ => Some b
    end
  else if decide (lr_record_type r = "messages_claimed") then
    match payload_str r "claim_id" with
    | Some c => Some (restore_claim b c (payload_ids r))
    | None => Some b
    end
  else if decide (lr_record_type r = "messages_dequeued") then
    match payload_str r "agent_id" with
    | Some a => Some (restore_dequeue b a (payload_ids r)).1
    | None => Some b
    end
  else Some b.

Fixpoint restore_records (b : Mailbox) (rs : list LedgerRecord) : option Mailbox :=
  match rs with
  | [] => Some b
  | r :: rs => b ← restore_record b r; restore_records b rs
  end.
