(* ===== verification/BusFacts.v ===== *)
(** * Properties of the message bus

    The mailbox is a projection of the ledger: every mutation appends one
    record, and replaying the records of a Run rebuilds the mailbox.  Bounded
    inboxes, exclusive claims, idempotent sends and recovery follow. *)
From S2P Require Import Prelude Json Types RuntimeLedger LedgerFacts Identity.
From S2P Require Import LedgerInterface Registries MessageBus.

(** ** Mailbox updates *)

Lemma inbox_of_set b i a : inbox_of (set_inboxes b i) a = default [] (i !! a).
Proof. done. Qed.

Lemma inbox_of_push b m a :
  inbox_of (push_message b m) a =
  if decide (a = am_to m) then inbox_of b a ++ [m] else inbox_of b a.
Proof.
  unfold push_message. rewrite inbox_of_set, lookup_insert. repeat case_decide; by subst.
Qed.

Lemma inbox_of_ack b a id k a' :
  inbox_of (set_ack b a id k) a' =
  if decide (a' = a) then ack_first id k (inbox_of b a') else inbox_of b a'.
Proof.
  unfold set_ack. rewrite inbox_of_set. case_decide as E.
  - subst. rewrite lookup_alter_eq. unfold inbox_of. by destruct (mb_inboxes b !! a).
  - by rewrite lookup_alter_ne.
Qed.

Lemma inbox_of_retain b a p a' :
  inbox_of (retain_inbox b a p) a' =
  if decide (a' = a) then List.filter p (inbox_of b a') else inbox_of b a'.
Proof.
  unfold retain_inbox. rewrite inbox_of_set. case_decide as E; case_decide as E'.
  - rewrite lookup_delete. case_decide; [|done]. subst. by rewrite E.
  - rewrite lookup_delete. by case_decide; subst.
  - rewrite lookup_insert. case_decide; [|done]. by subst.
  - rewrite lookup_insert. by case_decide; subst.
Qed.

Lemma inbox_of_claim c b id a : inbox_of (claim_message c b id) a = inbox_of b a.
Proof. done. Qed.

Lemma claims_fold c b ids :
  mb_inboxes (fold_left (claim_message c) ids b) = mb_inboxes b ∧
  ∀ id, mb_claims (fold_left (claim_message c) ids b) !! id =
        if decide (id ∈ ids) then Some c else mb_claims b !! id.
Proof.
  revert b. induction ids as [|x ids IH]; intros b; cbn [fold_left].
  - split; [done|]. intros id. by rewrite decide_False by apply not_elem_of_nil.
  - destruct (IH (claim_message c b x)) as [E1 E2]. split; [done|]. intros id. rewrite E2. simpl.
    rewrite lookup_insert. repeat case_decide; try done; set_solver.
Qed.

Lemma claims_push_fold ms b : mb_claims (fold_left push_message ms b) = mb_claims b.
Proof. revert b. induction ms as [|m ms IH]; intros b; [done|]. cbn [fold_left]. by rewrite IH. Qed.

Lemma inbox_of_push_fold ms b a :
  inbox_of (fold_left push_message ms b) a = inbox_of b a ++ filter (λ m, am_to m = a) ms.
Proof.
  revert b. induction ms as [|m ms IH]; intros b; cbn [fold_left]; [by rewrite app_nil_r|].
  rewrite IH, inbox_of_push, filter_cons. repeat case_decide; try done; subst; try done.
  by rewrite <-app_assoc.
Qed.

Lemma elem_of_lfilter {A} (p : A → bool) l x : x ∈ List.filter p l ↔ x ∈ l ∧ p x = true.
Proof. rewrite !list_elem_of_In. apply filter_In. Qed.

Lemma lfilter_id {A} (p : A → bool) l : (∀ x, x ∈ l → p x = true) → List.filter p l = l.
Proof.
  induction l as [|x l IH]; intros H; [done|]. simpl. rewrite H by by left.
  f_equal. apply IH. intros y Hy. apply H. by right.
Qed.

Lemma lfilter_sublist {A} (p : A → bool) l : List.filter p l `sublist_of` l.
Proof. induction l as [|x l IH]; simpl; [done|]. destruct (p x); by constructor. Qed.

(** A message is found by its identifier when identifiers are distinct. *)
Lemma find_by_id l m :
  NoDup (am_message_id <$> l) → m ∈ l → List.find (has_id (am_message_id m)) l = Some m.
Proof.
  induction l as [|x l IH]; [by intros _ ?%elem_of_nil|].
  rewrite fmap_cons, NoDup_cons. intros [Hx Hnd] [->|Hm]%elem_of_cons; simpl; unfold has_id at 1.
  - by rewrite bool_decide_eq_true_2.
  - rewrite bool_decide_eq_false_2; [by apply IH|]. intros E. apply Hx. rewrite E.
    by apply list_elem_of_fmap_2.
Qed.

Lemma find_has_id id l m :
  List.find (has_id id) l = Some m → m ∈ l ∧ am_message_id m = id.
Proof.
  intros [H1 H2]%List.find_some. rewrite list_elem_of_In. split; [done|].
  by apply bool_decide_eq_true in H2.
Qed.

Lemma ack_first_ids id k l : am_message_id <$> ack_first id k l = am_message_id <$> l.
Proof.
  induction l as [|m l IH]; [done|]. simpl. destruct (has_id id m); [done|].
  rewrite !fmap_cons. by rewrite IH.
Qed.

(** Under distinct identifiers, [ack_first] changes exactly one message. *)
Lemma ack_first_elem id k l x :
  NoDup (am_message_id <$> l) →
  x ∈ ack_first id k l ↔
  (x ∈ l ∧ am_message_id x ≠ id) ∨ (∃ m, m ∈ l ∧ am_message_id m = id ∧ x = with_ack m k).
Proof.
  induction l as [|y l IH]; simpl.
  - intros _. split; [by intros ?%elem_of_nil|intros [[?%elem_of_nil _]|(m & ?%elem_of_nil & _)]; done].
  - rewrite NoDup_cons. intros [Hy Hnd]. unfold has_id. case_bool_decide as E.
    + assert (∀ m, m ∈ l → am_message_id m ≠ id) as Hne.
      { intros m Hm E'. apply Hy. rewrite E, <-E'. by apply list_elem_of_fmap_2. }
      setoid_rewrite elem_of_cons. split.
      * intros [->|Hx]; [right; exists y; auto|left; auto].
      * intros [[[->|Hx] Hn]|(m & [->|Hm] & Em & ->)]; [done|by right|by left|by apply Hne in Hm].
    + setoid_rewrite elem_of_cons. rewrite IH by done. split.
      * intros [->|[[Hx Hn]|(m & Hm & Em & ->)]]; [by left; auto|by left; auto|].
        right. exists m. auto.
      * intros [[[->|Hx] Hn]|(m & [->|Hm] & Em & ->)]; auto; [done|].
        right. right. exists m. auto.
Qed.

Lemma ack_first_pending id z l : (pending_count (ack_first id (Some z) l) ≤ pending_count l)%Z.
Proof.
  unfold pending_count. apply Nat2Z.inj_le. induction l as [|m l IH]; simpl; [lia|].
  destruct (has_id id m); simpl.
  - destruct (is_pending m); simpl; lia.
  - destruct (is_pending m); simpl; lia.
Qed.

Lemma pending_count_filter p l : (pending_count (List.filter p l) ≤ pending_count l)%Z.
Proof.
  unfold pending_count. apply Nat2Z.inj_le. induction l as [|m l IH]; simpl; [lia|].
  destruct (p m); simpl; destruct (is_pending m); simpl; lia.
Qed.

Lemma pending_count_app l k : pending_count (l ++ k) = (pending_count l + pending_count k)%Z.
Proof. unfold pending_count. rewrite List.filter_app, length_app. lia. Qed.

Lemma pending_count_le_length l : (pending_count l ≤ Z.of_nat (length l))%Z.
Proof.
  unfold pending_count. apply Nat2Z.inj_le. induction l as [|m l IH]; simpl; [lia|].
  destruct (is_pending m); simpl; lia.
Qed.

(** ** Events *)

Inductive event : Type :=
  | EvDirect (d : DurableDirectMessage)
  | EvBroadcast (b : DurableBroadcast)
  | EvAck (a : AgentId) (id : string) (at_ms : Z)
  | EvClaim (a : AgentId) (claim_id : string) (ids : list string)
  | EvDequeue (a : AgentId) (ids : list string)
  | EvOther.

Definition bus_types : list string :=
  ["message_delivered"; "messages_broadcast"; "message_acknowledged"; "messages_claimed";
   "messages_dequeued"].

Definition denotes (r : LedgerRecord) (e : event) : Prop :=
  match e with
  | EvDirect d => lr_record_type r = "message_delivered" ∧ lr_payload r = to_value d
  | EvBroadcast b => lr_record_type r = "messages_broadcast" ∧ lr_payload r = to_value b
  | EvAck a id z => lr_record_type r = "message_acknowledged" ∧ lr_payload r = acknowledge_payload a id z
  | EvClaim a c ids => lr_record_type r = "messages_claimed" ∧ lr_payload r = claim_payload a c ids
  | EvDequeue a ids => lr_record_type r = "messages_dequeued" ∧ lr_payload r = dequeue_payload a ids
  | EvOther => lr_record_type r ∉ bus_types
  end.

Definition ev_messages (e : event) : list AgentMessage :=
  match e with
  | EvDirect d => [dd_message d]
  | EvBroadcast b => db_messages b
  | _ => []
  end.

Definition apply_event (b : Mailbox) (e : event) : Mailbox :=
  match e with
  | EvDirect _ | EvBroadcast _ => fold_left push_message (ev_messages e) b
  | EvAck a id z => set_ack b a id (Some z)
  | EvClaim _ c ids => fold_left (claim_message c) ids b
  | EvDequeue a ids => retain_inbox b a (not_among ids)
  | EvOther => b
  end.

(** The identifiers of a list of messages. *)
Definition ids_of (l : list AgentMessage) : list string := am_message_id <$> l.

Definition ev_ok (b : Mailbox) (used : list string) (e : event) : Prop :=
  match e with
  | EvDirect _ | EvBroadcast _ =>
      let ms := ev_messages e in
      NoDup (ids_of ms) ∧ (∀ id, id ∈ ids_of ms → id ∉ used) ∧
      Forall (λ m, message_ok m ∧ am_acknowledged_at_unix_ms m = None) ms ∧
      (∀ a, pending_count (inbox_of (apply_event b e) a) ≤ DEFAULT_MAX_PENDING_MESSAGES)%Z ∧
      match e with EvBroadcast d => value_wf (db_body d) | _ => True end
  | EvAck a id z => is_i64 z ∧ id ∈ ids_of (inbox_of b a)
  | EvClaim a c ids => ∀ id, id ∈ ids → id ∈ ids_of (inbox_of b a) ∧ mb_claims b !! id = None
  | EvDequeue a ids => ids ≠ [] ∧ ∀ id, id ∈ ids → id ∈ ids_of (inbox_of b a)
  | EvOther => True
  end.

(** The histories a bus produces: the records, what they denote, the mailbox. *)
Inductive history : list LedgerRecord → list event → Mailbox → Prop :=
  | history_nil : history [] [] mailbox_empty
  | history_snoc rs es b r e :
      history rs es b → denotes r e → ev_ok b (ids_of (concat (ev_messages <$> es))) e →
      history (rs ++ [r]) (es ++ [e]) (apply_event b e).

Definition used_ids (es : list event) : list string := ids_of (concat (ev_messages <$> es)).

Lemma used_ids_snoc es e : used_ids (es ++ [e]) = used_ids es ++ ids_of (ev_messages e).
Proof.
  unfold used_ids, ids_of. rewrite fmap_app, concat_app, fmap_app. f_equal. simpl.
  by rewrite app_nil_r.
Qed.

Record box_ok (es : list event) (b : Mailbox) : Prop := {
  bo_to : ∀ a m, m ∈ inbox_of b a → am_to m = a;
  bo_distinct : ∀ a, NoDup (ids_of (inbox_of b a));
  bo_nonempty : ∀ a, mb_inboxes b !! a ≠ Some [];
  bo_used : ∀ a id, id ∈ ids_of (inbox_of b a) → id ∈ used_ids es;
  bo_claims : ∀ id, is_Some (mb_claims b !! id) → id ∈ used_ids es;
  bo_pending : ∀ a, (pending_count (inbox_of b a) ≤ DEFAULT_MAX_PENDING_MESSAGES)%Z;
}.

Lemma elem_of_ids id l : id ∈ ids_of l ↔ ∃ m, m ∈ l ∧ am_message_id m = id.
Proof. unfold ids_of. rewrite list_elem_of_fmap. naive_solver. Qed.

Lemma ids_of_app l k : ids_of (l ++ k) = ids_of l ++ ids_of k.
Proof. apply fmap_app. Qed.

Lemma push_fold_nonempty ms b :
  (∀ a, mb_inboxes b !! a ≠ Some []) → ∀ a, mb_inboxes (fold_left push_message ms b) !! a ≠ Some [].
Proof.
  revert b. induction ms as [|m ms IH]; intros b Hb; [done|]. cbn [fold_left]. apply IH.
  intros a. simpl. rewrite lookup_insert. case_decide; [|apply Hb].
  intros [= E]. by apply app_eq_nil in E as [_ ?].
Qed.

Lemma box_ok_deliver es b e :
  apply_event b e = fold_left push_message (ev_messages e) b →
  NoDup (ids_of (ev_messages e)) → (∀ id, id ∈ ids_of (ev_messages e) → id ∉ used_ids es) →
  (∀ a, pending_count (inbox_of (apply_event b e) a) ≤ DEFAULT_MAX_PENDING_MESSAGES)%Z →
  box_ok es b → box_ok (es ++ [e]) (apply_event b e).
Proof.
  intros Ea Hnd Hfresh Hbound [Ht Hd Hn Hu Hc Hp]. split; [..|done].
  - intros a m. rewrite Ea, inbox_of_push_fold, elem_of_app. intros [H|[<- _]%list_elem_of_filter]; [|done].
    by apply Ht.
  - intros a. rewrite Ea, inbox_of_push_fold, ids_of_app. apply NoDup_app. split_and!; [done| |].
    + intros id Hid%Hu Hid'. apply (Hfresh id); [|done]. apply elem_of_ids in Hid' as (m & Hm & <-).
      apply list_elem_of_filter in Hm as [_ Hm]. apply elem_of_ids. eauto.
    + eapply sublist_NoDup; [exact Hnd|]. by apply fmap_sublist, sublist_filter.
  - rewrite Ea. by apply push_fold_nonempty.
  - intros a id. rewrite Ea, inbox_of_push_fold, ids_of_app, used_ids_snoc, !elem_of_app.
    intros [H%Hu|(m & Hm & <-)%elem_of_ids]; [by left|right].
    apply list_elem_of_filter in Hm as [_ Hm]. apply elem_of_ids. eauto.
  - intros id. rewrite Ea, claims_push_fold, used_ids_snoc, elem_of_app. intros H%Hc. by left.
Qed.

Lemma box_ok_step es b e :
  box_ok es b → ev_ok b (used_ids es) e → box_ok (es ++ [e]) (apply_event b e).
Proof.
  intros Hbox Hok. destruct e as [d|d|a id z|a c ids|a ids|].
  - destruct Hok as (H1 & H2 & _ & H3 & _). by apply box_ok_deliver.
  - destruct Hok as (H1 & H2 & _ & H3 & _). by apply box_ok_deliver.
  - destruct Hbox as [Ht Hd Hn Hu Hc Hp]. cbn [apply_event].
    split; try (intros a'; rewrite inbox_of_ack; case_decide; subst; [|by auto]).
    + intros m. rewrite ack_first_elem by apply Hd. intros [[Hm _]|(x & Hx & _ & ->)]; auto.
      simpl. auto.
    + unfold ids_of. rewrite ack_first_ids. apply Hd.
    + intros a'. simpl. destruct (decide (a = a')) as [->|Hne].
      * rewrite lookup_alter_eq. destruct (mb_inboxes b !! a') as [[|m l]|] eqn:E; simpl; [by apply Hn in E| |done].
        by destruct (has_id id m).
      * rewrite lookup_alter_ne by done. apply Hn.
    + intros a' id' H. rewrite used_ids_snoc, elem_of_app. left. apply (Hu a').
      rewrite inbox_of_ack in H. case_decide; [|done]. unfold ids_of in *. by rewrite ack_first_ids in H.
    + intros id' H. rewrite used_ids_snoc, elem_of_app. left. by apply Hc.
    + etrans; [apply ack_first_pending|apply Hp].
  - destruct Hbox as [Ht Hd Hn Hu Hc Hp]. cbn [apply_event].
    destruct (claims_fold c b ids) as [E1 E2].
    assert (∀ a', inbox_of (fold_left (claim_message c) ids b) a' = inbox_of b a') as Ei
      by (intros a'; unfold inbox_of; by rewrite E1).
    split; try (intros a'; rewrite Ei); auto.
    + intros a'. rewrite E1. apply Hn.
    + intros id. rewrite used_ids_snoc, elem_of_app. intros H. left. eauto.
    + intros id. rewrite E2, used_ids_snoc, elem_of_app. intros H. left. case_decide; [|by apply Hc].
      by eapply Hu, Hok.
  - destruct Hbox as [Ht Hd Hn Hu Hc Hp]. cbn [apply_event].
    split; try (intros a'; rewrite inbox_of_retain; case_decide; subst; [|by auto]).
    + intros m [Hm _]%elem_of_lfilter. auto.
    + eapply sublist_NoDup; [apply Hd|]. by apply fmap_sublist, lfilter_sublist.
    + intros a'. unfold retain_inbox. simpl. case_decide as E.
      * rewrite lookup_delete. by case_decide.
      * rewrite lookup_insert. case_decide; [congruence|apply Hn].
    + intros a' id H. rewrite used_ids_snoc, elem_of_app. left. apply (Hu a').
      rewrite inbox_of_retain in H. case_decide; [|done].
      apply elem_of_ids in H as (m & [Hm _]%elem_of_lfilter & <-). apply elem_of_ids. eauto.
    + intros id H. rewrite used_ids_snoc, elem_of_app. left. by apply Hc.
    + etrans; [apply pending_count_filter|apply Hp].
  - destruct Hbox as [Ht Hd Hn Hu Hc Hp]. simpl. split; auto.
    + intros a id. rewrite used_ids_snoc, elem_of_app. intros H. left. eauto.
    + intros id. rewrite used_ids_snoc, elem_of_app. intros H. left. eauto.
Qed.

Lemma history_box rs es b : history rs es b → box_ok es b.
Proof.
  induction 1 as [|rs es b r e _ IH _ Hok]; [|by apply box_ok_step].
  split; unfold inbox_of; simpl; intros *; rewrite ?lookup_empty; simpl; try done.
  all: first [by intros ?%elem_of_nil|constructor].
Qed.

(** ** Recovery *)

Lemma find_none_existsb id l : existsb (has_id id) l = false ↔ id ∉ ids_of l.
Proof.
  induction l as [|m l IH]; simpl; [split; [by intros _ ?%elem_of_nil|done]|].
  rewrite orb_false_iff, IH, not_elem_of_cons. unfold has_id. rewrite bool_decide_eq_false.
  naive_solver.
Qed.

Lemma restore_fold ms b :
  NoDup (ids_of ms) → (∀ a id, id ∈ ids_of ms → id ∉ ids_of (inbox_of b a)) →
  fold_left restore_message ms b = fold_left push_message ms b.
Proof.
  revert b. induction ms as [|m ms IH]; intros b Hnd Hfresh; [done|]. cbn [fold_left].
  apply NoDup_cons in Hnd as [Hm Hnd].
  assert (restore_message b m = push_message b m) as ->.
  { unfold restore_message.
    assert (existsb (has_id (am_message_id m)) (inbox_of b (am_to m)) = false) as ->; [|done].
    apply find_none_existsb, Hfresh. by left. }
  apply IH; [done|]. intros a id Hid. rewrite inbox_of_push. case_decide; [|apply Hfresh; by right].
  rewrite ids_of_app, elem_of_app. intros [Hi|Hi].
  - eapply Hfresh; [by right|done].
  - apply list_elem_of_singleton in Hi as ->. done.
Qed.

Lemma omap_strings (ids : list string) : omap as_str (VString <$> ids) = ids.
Proof. induction ids as [|i ids IH]; [done|]. simpl. f_equal. exact IH. Qed.

Lemma claim_ids r a c ids : lr_payload r = claim_payload a c ids → payload_ids r = ids.
Proof. intros E. unfold payload_ids. rewrite E. apply omap_strings. Qed.

Lemma dequeue_ids r a ids : lr_payload r = dequeue_payload a ids → payload_ids r = ids.
Proof. intros E. unfold payload_ids. rewrite E. apply omap_strings. Qed.

Lemma direct_message_from d :
  message_ok (dd_message d) → from_value (A := AgentMessage) (to_value d) = Some (dd_message d).
Proof.
  intros Hm. assert (NoDup (direct_fields d).*1) as Hnd by serde_keys.
  apply (message_from_fields_ok (direct_fields d) (dd_message d) Hm Hnd).
  intros k v Hkv. apply elem_of_assoc; [done|]. unfold direct_fields. apply elem_of_app. by left.
Qed.

(** Restoring one record does what the operation that wrote it did. *)
Lemma restore_step es b r e :
  box_ok es b → denotes r e → ev_ok b (used_ids es) e → restore_record b r = Some (apply_event b e).
Proof.
  intros Hbox Hr Hok. unfold restore_record, payload_str.
  destruct e as [d|d|a id z|a c ids|a ids|]; cbn [denotes] in Hr;
    [destruct Hr as [-> Hp]; rewrite Hp..|]; try (repeat (rewrite decide_False by done); rewrite decide_True by done).
  - destruct Hok as (Hnd & Hfresh & Hm & _). inversion Hm as [|? ? [Hm' _] _]; subst.
    rewrite direct_message_from by done. f_equal. apply (restore_fold [dd_message d]); [done|].
    intros a id Hid Hin. apply (Hfresh id Hid). by eapply bo_used.
  - destruct Hok as (Hnd & Hfresh & Hm & _ & Hb).
    change (restore_broadcast b (to_value d)) with
      (durable ← from_value (A := DurableBroadcast) (to_value d);
       Some (fold_left restore_message (db_messages durable) b)).
    rewrite from_to_value.
    + simpl. f_equal. apply restore_fold; [done|]. intros a id Hid Hin.
      apply (Hfresh id Hid). by eapply bo_used.
    + split; [done|]. eapply Forall_impl; [exact Hm|]. simpl. tauto.
  - destruct Hok as [Hz _]. simpl. rewrite i64_roundtrip by done. done.
  - simpl. by rewrite (claim_ids r a c ids).
  - simpl. unfold restore_dequeue. rewrite (dequeue_ids r a ids) by done.
    destruct (mb_inboxes b !! a) as [l|] eqn:E; [done|]. exfalso.
    destruct Hok as [Hne Hin]. destruct ids as [|id ids]; [done|].
    specialize (Hin id ltac:(by left)). unfold inbox_of in Hin. rewrite E in Hin.
    by apply elem_of_nil in Hin.
  - unfold bus_types in Hr. rewrite !not_elem_of_cons in Hr.
    destruct Hr as (H1 & H2 & H3 & H4 & H5 & _). by rewrite !decide_False.
Qed.

Lemma restore_records_app b rs r :
  restore_records b (rs ++ [r]) = b' ← restore_records b rs; restore_record b' r.
Proof.
  revert b. induction rs as [|x rs IH]; intros b; simpl.
  - by destruct (restore_record b r).
  - destruct (restore_record b x); simpl; [apply IH|done].
Qed.

Lemma history_restores rs es b : history rs es b → restore_records mailbox_empty rs = Some b.
Proof.
  induction 1 as [|rs es b r e Hh IH Hr Hok]; [done|].
  rewrite restore_records_app, IH. simpl. eapply restore_step; [by eapply history_box|done|done].
Qed.

(** ** The projection of one message *)

Definition project_event (id : string) (p : Projected) (e : event) : Projected :=
  match e with
  | EvAck _ id' z =>
      if decide (id' = id)
      then {| pj_ack := Some z; pj_claim := pj_claim p; pj_dequeued := pj_dequeued p |} else p
  | EvClaim _ c ids =>
      if decide (id ∈ ids)
      then {| pj_ack := pj_ack p; pj_claim := Some c; pj_dequeued := pj_dequeued p |} else p
  | EvDequeue _ ids =>
      if decide (id ∈ ids)
      then {| pj_ack := pj_ack p; pj_claim := pj_claim p; pj_dequeued := true |} else p
  | _ => p
  end.

Definition projected_none : Projected := {| pj_ack := None; pj_claim := None; pj_dequeued := false |}.

Lemma contains_strings r l id ids :
  lr_payload r = VObject l → assoc "message_ids" l = Some (VArray (VString <$> ids)) →
  record_contains_message_id r id = bool_decide (id ∈ ids).
Proof.
  intros E Ha. unfold record_contains_message_id. rewrite E. simpl. rewrite Ha. simpl.
  clear. induction ids as [|i ids IH].
  - done.
  - rewrite fmap_cons. cbn [existsb]. rewrite IH. apply eq_true_iff_eq. cbn [as_str]. rewrite orb_true_iff, !bool_decide_eq_true, elem_of_cons.
    naive_solver.
Qed.

Lemma project_record_event b used id p r e :
  denotes r e → ev_ok b used e → project_record id p r = project_event id p e.
Proof.
  intros Hr Hok. unfold project_record, payload_str.
  destruct e as [d|d|a id' z|a c ids|a ids|]; cbn [denotes] in Hr;
    [destruct Hr as [Ht Hp]; rewrite Ht, Hp..|].
  - by rewrite !decide_False by (intros []; done).
  - by rewrite !decide_False by (intros []; done).
  - destruct Hok as [Hz _]. cbn [project_event]. destruct (decide (id' = id)) as [->|Hne].
    + rewrite decide_True by done.
      change (get "acknowledged_at_unix_ms" _) with (Some (i64_to_value z)). cbv beta iota. by rewrite i64_roundtrip.
    + rewrite decide_False by (intros [_ [= E]]; done). by rewrite !decide_False by (intros []; done).
  - rewrite (contains_strings r _ id ids Hp) by done. cbn [project_event].
    rewrite decide_False by (intros []; done). destruct (decide (id ∈ ids)).
    + rewrite bool_decide_eq_true_2 by done. by rewrite decide_True.
    + rewrite bool_decide_eq_false_2 by done. by rewrite !decide_False by (intros []; done).
  - rewrite (contains_strings r _ id ids Hp) by done. cbn [project_event].
    do 2 rewrite decide_False by (intros []; done). destruct (decide (id ∈ ids)).
    + rewrite bool_decide_eq_true_2 by done. by rewrite decide_True.
    + rewrite bool_decide_eq_false_2 by done. by rewrite decide_False by (intros []; done).
  - unfold bus_types in Hr. rewrite !not_elem_of_cons in Hr.
    destruct Hr as (H1 & H2 & H3 & H4 & H5 & _). by rewrite !decide_False by tauto.
Qed.

(** The mailbox agrees with the projection [p] of the delivered message [m]. *)
Record agrees (b : Mailbox) (m : AgentMessage) (p : Projected) : Prop := {
  ag_claim : mb_claims b !! am_message_id m = pj_claim p;
  ag_present : pj_dequeued p = false → with_ack m (pj_ack p) ∈ inbox_of b (am_to m);
  ag_gone : pj_dequeued p = true → ∀ a, am_message_id m ∉ ids_of (inbox_of b a);
  ag_elsewhere : ∀ a, a ≠ am_to m → am_message_id m ∉ ids_of (inbox_of b a);
}.

Lemma agrees_deliver b ms m p :
  am_message_id m ∉ ids_of ms → agrees b m p → agrees (fold_left push_message ms b) m p.
Proof.
  intros Hid [Hc Hp Hg He].
  assert (∀ a, am_message_id m ∉ ids_of (inbox_of b a) →
            am_message_id m ∉ ids_of (inbox_of (fold_left push_message ms b) a)) as Hpush.
  { intros a Ha. rewrite inbox_of_push_fold, ids_of_app, elem_of_app.
    intros [H|(x & [_ Hx]%list_elem_of_filter & E)%elem_of_ids]; [done|].
    apply Hid, elem_of_ids. eauto. }
  split; auto.
  - by rewrite claims_push_fold.
  - intros Hd. rewrite inbox_of_push_fold, elem_of_app. left. auto.
Qed.

Lemma agrees_ack es b m p a id z :
  box_ok es b → id ∈ ids_of (inbox_of b a) → agrees b m p →
  agrees (set_ack b a id (Some z)) m (project_event (am_message_id m) p (EvAck a id z)).
Proof.
  intros Hbox Hin [Hc Hp Hg He]. cbn [project_event].
  assert (∀ a', ids_of (inbox_of (set_ack b a id (Some z)) a') = ids_of (inbox_of b a')) as Hids.
  { intros a'. rewrite inbox_of_ack. case_decide; [apply ack_first_ids|done]. }
  case_decide as E.
  - subst id. assert (a = am_to m) as ->.
    { destruct (decide (a = am_to m)); [done|]. by destruct (He a). }
    split; simpl; [done| |intros Hd a'; rewrite Hids; auto|intros a' Ha'; rewrite Hids; auto].
    intros Hd. rewrite inbox_of_ack, decide_True by done.
    apply ack_first_elem; [apply (bo_distinct es b Hbox)|].
    right. exists (with_ack m (pj_ack p)). auto.
  - split; [done| |intros Hd a'; rewrite Hids; auto|intros a' Ha'; rewrite Hids; auto].
    intros Hd. rewrite inbox_of_ack. case_decide; [|auto].
    apply ack_first_elem; [apply (bo_distinct es b Hbox)|]. left. split; [auto|]. simpl. congruence.
Qed.

Lemma agrees_claim b m p a c ids :
  agrees b m p →
  agrees (fold_left (claim_message c) ids b) m (project_event (am_message_id m) p (EvClaim a c ids)).
Proof.
  intros [Hc Hp Hg He]. destruct (claims_fold c b ids) as [E1 E2]. cbn [project_event].
  assert (∀ a', inbox_of (fold_left (claim_message c) ids b) a' = inbox_of b a') as Ei
    by (intros a'; unfold inbox_of; by rewrite E1).
  case_decide as E; split; simpl; try (by rewrite Ei); try (intros * ?; rewrite Ei; by auto);
    try (intros ? a'; rewrite Ei; by auto); rewrite E2; [by rewrite decide_True|by rewrite decide_False].
Qed.

Lemma agrees_dequeue b m p a ids :
  (∀ id, id ∈ ids → id ∈ ids_of (inbox_of b a)) → agrees b m p →
  agrees (retain_inbox b a (not_among ids)) m (project_event (am_message_id m) p (EvDequeue a ids)).
Proof.
  intros Hin [Hc Hp Hg He]. cbn [project_event].
  assert (∀ a', am_message_id m ∈ ids_of (inbox_of (retain_inbox b a (not_among ids)) a') →
            am_message_id m ∈ ids_of (inbox_of b a') ∧ (a' = a → am_message_id m ∉ ids)) as Hret.
  { intros a'. rewrite inbox_of_retain. case_decide as E; [subst a'|done].
    intros (x & [Hx Hn]%elem_of_lfilter & Ex)%elem_of_ids. unfold not_among in Hn.
    apply bool_decide_eq_true in Hn. rewrite Ex in Hn. split; [|done]. apply elem_of_ids. eauto. }
  case_decide as E.
  - assert (a = am_to m) as ->.
    { destruct (decide (a = am_to m)); [done|]. destruct (He a); auto. }
    split; simpl; [done|done| |].
    + intros _ a' [H1 H2]%Hret. destruct (decide (a' = am_to m)) as [->|Hne]; [by apply H2|].
      by apply (He a').
    + intros a' Ha' [H1 _]%Hret. by apply (He a').
  - split; [done| | |].
    + intros Hd. rewrite inbox_of_retain. case_decide; [|auto]. apply elem_of_lfilter.
      split; [auto|]. by apply bool_decide_eq_true.
    + intros Hd a' [H1 _]%Hret. by apply (Hg Hd a').
    + intros a' Ha' [H1 _]%Hret. by apply (He a').
Qed.

Lemma agrees_step es b m p e :
  box_ok es b → ev_ok b (used_ids es) e → am_message_id m ∈ used_ids es → agrees b m p →
  agrees (apply_event b e) m (project_event (am_message_id m) p e).
Proof.
  intros Hbox Hok Hm Hag. destruct e as [d|d|a id z|a c ids|a ids|].
  - destruct Hok as (_ & Hfresh & _). apply agrees_deliver; [|done]. intros H. by apply (Hfresh _ H).
  - destruct Hok as (_ & Hfresh & _). apply agrees_deliver; [|done]. intros H. by apply (Hfresh _ H).
  - destruct Hok as [_ Hin]. by eapply agrees_ack.
  - by apply agrees_claim.
  - destruct Hok as [_ Hin]. by apply agrees_dequeue.
  - done.
Qed.

Lemma agrees_delivered es b e m :
  box_ok es b → ev_ok b (used_ids es) e → m ∈ ev_messages e →
  agrees (apply_event b e) m projected_none.
Proof.
  intros Hbox Hok Hm.
  assert (apply_event b e = fold_left push_message (ev_messages e) b ∧ NoDup (ids_of (ev_messages e)) ∧
          (∀ id, id ∈ ids_of (ev_messages e) → id ∉ used_ids es) ∧
          am_acknowledged_at_unix_ms m = None) as (-> & Hnd & Hfresh & Hack).
  { destruct e; try (by apply elem_of_nil in Hm); destruct Hok as (H1 & H2 & H3 & _);
      rewrite Forall_forall in H3; (split_and!; [done|done|done|by apply H3]). }
  assert (am_message_id m ∉ used_ids es) as Hnew by (apply Hfresh, elem_of_ids; eauto).
  split; simpl.
  - rewrite claims_push_fold. apply eq_None_not_Some. intros H%(bo_claims es b Hbox). done.
  - intros _. rewrite inbox_of_push_fold, elem_of_app. right. apply list_elem_of_filter.
    split; [done|]. destruct m; simpl in *. by rewrite <-Hack.
  - done.
  - intros a Ha. rewrite inbox_of_push_fold, ids_of_app, elem_of_app.
    intros [H%(bo_used es b Hbox)|H]; [done|].
    apply elem_of_ids in H as (x & [Hx1 Hx2]%list_elem_of_filter & Ex).
    apply Ha. assert (x = m) as <-; [|done].
    apply list_elem_of_lookup in Hm as [i Hi], Hx2 as [j Hj].
    assert (i = j) as ->; [|congruence].
    eapply (NoDup_lookup (ids_of (ev_messages e))); [done|..]; unfold ids_of; rewrite list_lookup_fmap.
    + by rewrite Hi.
    + rewrite Hj. simpl. by rewrite Ex.
Qed.

Lemma history_projection rs es b :
  history rs es b →
  ∀ epre e0 epost m, es = epre ++ e0 :: epost → m ∈ ev_messages e0 →
    agrees b m (fold_left (project_event (am_message_id m)) epost projected_none).
Proof.
  induction 1 as [|rs es b r e Hh IH Hr Hok]; intros epre e0 epost m Hes Hm.
  { by destruct epre. }
  pose proof (history_box _ _ _ Hh) as Hbox.
  destruct epost as [|e' epost] using rev_ind; [|clear IHepost].
  - apply app_inj_tail in Hes as [-> ->]. by eapply agrees_delivered.
  - rewrite app_comm_cons, app_assoc in Hes. apply app_inj_tail in Hes as [-> ->].
    rewrite fold_left_app. cbn [fold_left]. eapply agrees_step; [done|done| |by eapply IH].
    unfold used_ids. rewrite fmap_app, concat_app, ids_of_app, elem_of_app. right.
    rewrite fmap_cons. cbn [concat]. rewrite ids_of_app, elem_of_app. left. apply elem_of_ids. eauto.
Qed.

(** ** Replays change nothing *)

Lemma ack_first_same id k l m :
  NoDup (ids_of l) → m ∈ l → am_message_id m = id → am_acknowledged_at_unix_ms m = k →
  ack_first id k l = l.
Proof.
  induction l as [|x l IH]; [done|]. intros [Hx Hnd]%NoDup_cons Hm Hid Hk. simpl.
  unfold has_id. case_bool_decide as E.
  - f_equal. apply elem_of_cons in Hm as [<-|Hm]; [destruct m; simpl in *; by subst|].
    destruct Hx. rewrite E, <-Hid. by apply list_elem_of_fmap_2.
  - f_equal. apply elem_of_cons in Hm as [->|Hm]; [done|]. by apply IH.
Qed.

Lemma same_content_refl m k : value_wf (am_body m) → same_message_content (with_ack m k) m = true.
Proof.
  intros H. unfold same_message_content. simpl.
  by rewrite !bool_decide_eq_true_2, value_eqb_refl by done.
Qed.

Lemma mailbox_eta b i : i = mb_inboxes b → set_inboxes b i = b.
Proof. intros ->. by destruct b. Qed.

Lemma claim_noop c b id : mb_claims b !! id = Some c → claim_message c b id = b.
Proof. intros H. unfold claim_message. rewrite insert_id by done. by destruct b. Qed.

Lemma inbox_noop b a : inbox_of b a ≠ [] → <[a := inbox_of b a]> (mb_inboxes b) = mb_inboxes b.
Proof.
  unfold inbox_of. destruct (mb_inboxes b !! a) eqn:E; [|done]. intros _. by apply insert_id.
Qed.

Lemma retain_noop es b a p :
  box_ok es b → (∀ x, x ∈ inbox_of b a → p x = true) → retain_inbox b a p = b.
Proof.
  intros Hbox Hp. unfold retain_inbox. rewrite lfilter_id by done. apply mailbox_eta.
  case_decide as E; [|by apply inbox_noop]. apply delete_id.
  unfold inbox_of in E. destruct (mb_inboxes b !! a) as [l|] eqn:El; [|done].
  simpl in E. subst. by destruct (bo_nonempty es b Hbox a).
Qed.

Lemma repair_noop {E} es records delivered b m :
  box_ok es b → message_ok m → agrees b m (project m delivered records) →
  repair_message (E := E) records delivered b m = (b, Ok tt).
Proof.
  intros Hbox [Hwf _] [Hc Hp Hg He]. unfold repair_message.
  destruct (project m delivered records) as [ack claim dq]. simpl in *.
  assert (match claim with Some c => claim_message c b (am_message_id m) | None => b end = b) as ->.
  { destruct claim; [by apply claim_noop|done]. }
  destruct dq.
  - f_equal. eapply retain_noop; [done|]. intros x Hx. unfold has_id.
    rewrite bool_decide_eq_false_2; [done|]. intros Ex. apply (Hg eq_refl (am_to m)).
    apply elem_of_ids. eauto.
  - specialize (Hp eq_refl).
    assert (set_inboxes b (<[am_to m := inbox_of b (am_to m)]> (mb_inboxes b)) = b) as ->.
    { apply mailbox_eta, inbox_noop. intros E'. rewrite E' in Hp. by apply elem_of_nil in Hp. }
    rewrite (find_by_id _ (with_ack m ack)) by (try done; apply (bo_distinct es b Hbox)).
    rewrite same_content_refl by done. f_equal. apply mailbox_eta.
    apply map_eq. intros a. destruct (decide (a = am_to m)) as [->|Hne].
    + rewrite lookup_alter_eq. unfold inbox_of in Hp.
      pose proof (bo_distinct es b Hbox (am_to m)) as Hnd. unfold inbox_of in Hnd.
      destruct (mb_inboxes b !! am_to m) as [l|]; [|done]. simpl in *. f_equal.
      by apply (ack_first_same _ _ _ (with_ack m ack)).
    + by rewrite lookup_alter_ne.
Qed.

Lemma repair_all_noop {E} es records delivered b ms :
  box_ok es b →
  (∀ m, m ∈ ms → message_ok m ∧ agrees b m (project m delivered records)) →
  repair_durable_messages (E := E) records delivered b ms = (b, Ok tt).
Proof.
  intros Hbox. induction ms as [|m ms IH]; intros H; [done|]. cbn [repair_durable_messages].
  destruct (H m) as [Hm Ha]; [by left|]. rewrite (repair_noop es) by done. simpl.
  apply IH. intros x Hx. apply H. by right.
Qed.

(** The records after one whose numbers increase are its suffix. *)
Lemma later_records pre (r : LedgerRecord) post :
  StronglySorted (λ a b, lr_seq a < lr_seq b)%Z (pre ++ r :: post) →
  filter (λ x, lr_seq r < lr_seq x)%Z (pre ++ r :: post) = post.
Proof.
  intros H. assert (∀ l, (∀ x, x ∈ l → (lr_seq x ≤ lr_seq r)%Z) →
                    filter (λ x, lr_seq r < lr_seq x)%Z l = []) as Hnil.
  { intros l Hl. destruct (filter _ l) as [|x k] eqn:E; [done|]. exfalso.
    assert (x ∈ filter (λ x, lr_seq r < lr_seq x)%Z l) as [H1 H2%Hl]%list_elem_of_filter
      by (rewrite E; by left). lia. }
  induction pre as [|x pre IH]; simpl in H.
  - apply StronglySorted_inv in H as [_ Hall]. simpl. rewrite filter_cons, decide_False by lia.
    induction Hall as [|y l Hy _ IH]; [done|]. rewrite filter_cons, decide_True by done. by f_equal.
  - apply StronglySorted_inv in H as [Hs Hall]. simpl. rewrite filter_cons, decide_False; [by apply IH|].
    apply Forall_app in Hall as [_ Hall]. inversion Hall; subst. lia.
Qed.

(** What a history says of its events, one by one. *)
Record ev_good (r : LedgerRecord) (e : event) : Prop := {
  eg_denotes : denotes r e;
  eg_messages : Forall (λ m, message_ok m ∧ am_acknowledged_at_unix_ms m = None) (ev_messages e);
  eg_body : match e with EvBroadcast d => value_wf (db_body d) | _ => True end;
  eg_project : ∀ id p, project_record id p r = project_event id p e;
}.

Lemma history_good rs es b : history rs es b → Forall2 ev_good rs es.
Proof.
  induction 1 as [|rs es b r e Hh IH Hr Hok]; [constructor|]. apply Forall2_app; [done|].
  constructor; [|constructor]. split; [done|..].
  - destruct e; try constructor; destruct Hok as (_ & _ & Hm & _).
    + by inversion Hm.
    + constructor.
    + done.
  - destruct e; try done. by destruct Hok as (_ & _ & _ & _ & Hb).
  - intros id p. by eapply project_record_event.
Qed.

Lemma project_events es rs id p :
  Forall2 ev_good rs es → fold_left (project_record id) rs p = fold_left (project_event id) es p.
Proof.
  intros H. revert p. induction H as [|r e rs es He _ IH]; intros p; [done|]. cbn [fold_left].
  by rewrite (eg_project r e He), IH.
Qed.

Lemma history_agrees rs es b pre r post e epre epost m :
  history rs es b → StronglySorted (λ a b, lr_seq a < lr_seq b)%Z rs →
  rs = pre ++ r :: post → es = epre ++ e :: epost → Forall2 ev_good post epost →
  m ∈ ev_messages e → am_acknowledged_at_unix_ms m = None →
  agrees b m (project m (lr_seq r) rs).
Proof.
  intros Hh Hs -> -> Hpost Hm Hack. unfold project. rewrite later_records by done.
  rewrite (project_events epost) by done. rewrite Hack. by eapply history_projection.
Qed.

(** ** The live bus *)

Definition delivered_by (r : LedgerRecord) : list AgentMessage :=
  if decide (lr_record_type r = "message_delivered") then
    option_list (from_value (A := AgentMessage) (lr_payload r))
  else if decide (lr_record_type r = "messages_broadcast") then
    match from_value (A := DurableBroadcast) (lr_payload r) with
    | Some d => db_messages d
    | None => []
    end
  else [].

(** The identifiers of all messages the records deliver. *)
Definition delivered_ids (rs : list LedgerRecord) : list string :=
  ids_of (concat (delivered_by <$> rs)).

Lemma delivered_by_event r e : ev_good r e → delivered_by r = ev_messages e.
Proof.
  intros [Hr Hm Hb _]. unfold delivered_by.
  destruct e as [d|d|a id z|a c ids|a ids|]; cbn [denotes] in Hr; try (destruct Hr as [-> Hp]).
  - rewrite Hp, decide_True by done. inversion Hm as [|? ? [? _] _]. by rewrite direct_message_from.
  - rewrite Hp. rewrite decide_False, decide_True by done. rewrite from_to_value; [done|].
    split; [done|]. eapply Forall_impl; [exact Hm|]. simpl. tauto.
  - by rewrite !decide_False.
  - by rewrite !decide_False.
  - by rewrite !decide_False.
  - unfold bus_types in Hr. rewrite !not_elem_of_cons in Hr. destruct Hr as (H1 & H2 & _).
    by rewrite !decide_False.
Qed.

Lemma delivered_used rs es : Forall2 ev_good rs es → delivered_ids rs = used_ids es.
Proof.
  intros H. unfold delivered_ids, used_ids. f_equal. f_equal.
  induction H as [|r e rs es He _ IH]; [done|]. rewrite !fmap_cons. by rewrite IH, (delivered_by_event r e).
Qed.

Lemma find_split {A} (p : A → bool) l x :
  List.find p l = Some x → ∃ pre post, l = pre ++ x :: post ∧ p x = true.
Proof.
  intros H. apply List.find_some in H as [Hin Hp]. apply List.in_split in Hin as (pre & post & ->). eauto.
Qed.

Section live.
Context {L E : Type} `{!Ledger L E, !LedgerLaws L E}.
Context (to_vec : Value → string).
Context (run : RunId).

Definition contents (s : BusState L) : list LedgerRecord := lg_contents (bs_ledger s) run.

Definition increasing (rs : list LedgerRecord) : Prop :=
  StronglySorted (λ a b, lr_seq a < lr_seq b)%Z rs.

Definition coherent (s : BusState L) : Prop :=
  increasing (contents s) ∧ ∃ es, history (contents s) es (bs_box s).

(** The event behind a record of a coherent bus, and what replaying it does. *)
Lemma coherent_record s r :
  coherent s → r ∈ contents s →
  ∃ e, ev_good r e ∧ ∀ m, m ∈ ev_messages e →
    message_ok m ∧ agrees (bs_box s) m (project m (lr_seq r) (contents s)).
Proof.
  intros [Hs [es Hh]] Hr. pose proof (history_good _ _ _ Hh) as Hgood.
  apply list_elem_of_split in Hr as (pre & post & E'). rewrite E' in Hgood.
  apply Forall2_app_inv_l in Hgood as (epre & es' & Hpre & Hpost & ->).
  inversion Hpost as [|? e ? epost He Hpost']; subst. exists e. split; [done|].
  intros m Hm. destruct (proj1 (Forall_forall _ _) (eg_messages r e He) m Hm) as [Hok Hack].
  split; [done|]. by eapply (history_agrees _ _ _ pre r post e epre epost).
Qed.

Lemma coherent_repair s r ms :
  coherent s → r ∈ contents s → delivered_by r = ms →
  repair (E := E) s (contents s) (lr_seq r) ms = (s, Ok tt).
Proof.
  intros Hc Hr <-. destruct (coherent_record s r Hc Hr) as (e & He & Hag).
  destruct Hc as [_ [es Hh]]. unfold repair.
  rewrite (repair_all_noop es); [by destruct s|by eapply history_box|].
  intros m. rewrite (delivered_by_event r e) by done. apply Hag.
Qed.

Lemma named_direct s r id :
  coherent s → r ∈ contents s → names "message_delivered" "message_id" id r = true →
  ∃ d : DurableDirectMessage, from_value (lr_payload r) = Some d ∧ delivered_by r = [dd_message d] ∧
    am_message_id (dd_message d) = id ∧ message_ok (dd_message d).
Proof.
  intros Hc Hr. destruct (coherent_record s r Hc Hr) as (e & He & _). unfold names.
  rewrite andb_true_iff, !bool_decide_eq_true. intros [Ht Hid].
  pose proof (delivered_by_event r e He) as Hd. pose proof (eg_messages r e He) as Hm.
  pose proof (eg_denotes r e He) as Hden.
  destruct e as [d|d|a id' z|a c ids|a ids|]; cbn [denotes] in Hden;
    try (destruct Hden as [Ht' Hp]; rewrite Ht in Ht'; discriminate Ht').
  - destruct Hden as [_ Hp]. exists d. inversion Hm as [|? ? [Hok _] _]; subst.
    rewrite Hp. split_and!; [by apply from_to_value|done| |done].
    unfold payload_str in Hid. rewrite Hp in Hid. by injection Hid.
  - exfalso. apply Hden. rewrite Ht. left.
Qed.

Lemma named_broadcast s r id :
  coherent s → r ∈ contents s → names "messages_broadcast" "broadcast_id" id r = true →
  ∃ d : DurableBroadcast, from_value (lr_payload r) = Some d ∧ delivered_by r = db_messages d.
Proof.
  intros Hc Hr. destruct (coherent_record s r Hc Hr) as (e & He & _). unfold names.
  rewrite andb_true_iff, !bool_decide_eq_true. intros [Ht Hid].
  pose proof (delivered_by_event r e He) as Hd. pose proof (eg_messages r e He) as Hm.
  pose proof (eg_denotes r e He) as Hden. pose proof (eg_body r e He) as Hb.
  destruct e as [d|d|a id' z|a c ids|a ids|]; cbn [denotes] in Hden;
    try (destruct Hden as [Ht' Hp]; rewrite Ht in Ht'; discriminate Ht').
  - destruct Hden as [_ Hp]. exists d. rewrite Hp. split; [|done]. apply from_to_value.
    split; [done|]. eapply Forall_impl; [exact Hm|]. simpl. tauto.
  - exfalso. apply Hden. rewrite Ht. right. left.
Qed.

(** A replay never changes a coherent bus; when it finds nothing, no record of
    the Run names the identifier. *)
Lemma replay_send_spec s id requested from to kind body :
  coherent s →
  (replay_send s id run requested from to kind body).1 = s ∧
  ((replay_send s id run requested from to kind body).2 = Ok None →
     ∀ r, r ∈ contents s → names "message_delivered" "message_id" id r = false).
Proof.
  intros Hc. unfold replay_send.
  destruct (lg_records (bs_ledger s) run) as [rs|e] eqn:Hrs; cbn [slift lift_ledger]; [|by split].
  apply lg_records_contents in Hrs as ->. fold (contents s).
  destruct (List.find _ (contents s)) as [r|] eqn:Hf.
  - apply find_split in Hf as (pre & post & E' & Hn).
    assert (r ∈ contents s) as Hr by (rewrite E', elem_of_app; right; by left).
    destruct (named_direct s r id Hc Hr Hn) as (d & -> & Hd & _). simpl.
    case_match; simpl; [by split|]. by rewrite (coherent_repair s r).
  - split; [done|]. intros _ r Hr. apply (List.find_none _ _ Hf). by apply list_elem_of_In.
Qed.

Lemma replay_broadcast_spec s id team from recipients kind body :
  coherent s →
  (replay_broadcast s id run team from recipients kind body).1 = s.
Proof.
  intros Hc. unfold replay_broadcast.
  destruct (lg_records (bs_ledger s) run) as [rs|e] eqn:Hrs; cbn [slift lift_ledger]; [|done].
  apply lg_records_contents in Hrs as ->. fold (contents s).
  destruct (List.find _ (contents s)) as [r|] eqn:Hf; [|done].
  apply find_split in Hf as (pre & post & E' & Hn).
  assert (r ∈ contents s) as Hr by (rewrite E', elem_of_app; right; by left).
  destruct (named_broadcast s r id Hc Hr Hn) as (d & -> & Hd). simpl.
  case_match; simpl; [done|]. by rewrite (coherent_repair s r).
Qed.

(** The records only grow, and a claim once made stays. *)
Definition grows (s s' : BusState L) : Prop :=
  contents s `prefix_of` contents s' ∧
  ∀ id c, mb_claims (bs_box s) !! id = Some c → mb_claims (bs_box s') !! id = Some c.

Definition advances (s s' : BusState L) : Prop := coherent s' ∧ grows s s'.

Lemma grows_trans s1 s2 s3 : grows s1 s2 → grows s2 s3 → grows s1 s3.
Proof. intros [H1 H2] [H3 H4]. split; [by etrans|auto]. Qed.

Lemma advances_refl s : coherent s → advances s s.
Proof. intros H. split; [done|]. by split. Qed.

(** No event takes a claim back. *)
Lemma claims_kept b used e id c :
  ev_ok b used e → mb_claims b !! id = Some c → mb_claims (apply_event b e) !! id = Some c.
Proof.
  intros Hok Hc. destruct e as [d|d|a id' z|a c' ids|a ids|]; cbn [apply_event].
  - by rewrite claims_push_fold.
  - by rewrite claims_push_fold.
  - done.
  - destruct (claims_fold c' b ids) as [_ ->]. case_decide as Hin; [|done].
    destruct (Hok id Hin) as [_ Hn]. congruence.
  - done.
  - done.
Qed.

(** One durable record and the mailbox update it stands for. *)
Lemma coherent_append s now ty payload s1 r e es :
  increasing (contents s) → history (contents s) es (bs_box s) → lg_ready (bs_ledger s) →
  bus_append s now run ty payload = (s1, Ok r) →
  (∀ x, lr_record_type x = ty → lr_payload x = payload → denotes x e) →
  ev_ok (bs_box s) (delivered_ids (contents s)) e →
  advances s (update_box s1 (λ b, apply_event b e)).
Proof.
  intros Hs Hh Hready Ha Hden Hok. unfold bus_append in Ha.
  destruct (lg_append (bs_ledger s) now run SyncCritical ty payload) as [l [r'|e']] eqn:Hl; [|done].
  simplify_eq.
  assert (SyncCritical ≠ Ephemeral) as Hdur by done.
  destruct (lg_append_ok _ _ _ _ _ _ _ _ Hready Hdur Hl) as (Hcont & _ & Ht & Hp & Hseq).
  split; [|split; [unfold contents; simpl; rewrite Hcont; by eexists|]].
  2:{ intros id c. by eapply claims_kept. }
  split; unfold contents in *; simpl; rewrite Hcont.
  - apply StronglySorted_snoc; [done|]. apply Forall_forall. apply Hseq.
  - exists (es ++ [e]). constructor; [done|by apply Hden|].
    by rewrite (delivered_used _ es) in Hok by by eapply history_good.
Qed.

Lemma bus_append_err s now ty payload s1 e :
  bus_append (E := E) s now run ty payload = (s1, Err e) →
  bs_box s1 = bs_box s ∧ ∀ run', lg_contents (bs_ledger s1) run' = lg_contents (bs_ledger s) run'.
Proof.
  unfold bus_append. destruct (lg_append _ _ _ _ _ _) as [l [r'|e']] eqn:Hl; [done|].
  intros [= <- <-]. split; [done|]. simpl. intros run'. by eapply lg_append_err.
Qed.

Lemma coherent_err s s1 :
  bs_box s1 = bs_box s → (∀ run', lg_contents (bs_ledger s1) run' = lg_contents (bs_ledger s) run') →
  coherent s → advances s s1.
Proof.
  intros Hb Hc. unfold advances, grows, coherent, contents. by rewrite Hb, Hc.
Qed.

(** An operation that appends one record, or fails to. *)
Lemma coherent_mutation {A} s now ty payload e (a : LedgerRecord → A) :
  coherent s → lg_ready (bs_ledger s) →
  (∀ x, lr_record_type x = ty → lr_payload x = payload → denotes x e) →
  ev_ok (bs_box s) (delivered_ids (contents s)) e →
  advances s (sbind (bus_append (E := E) s now run ty payload) (λ s r,
              (update_box s (λ b, apply_event b e), Ok (a r)))).1.
Proof.
  intros Hc Hready Hden Hok. destruct (bus_append s now run ty payload) as [s1 [r|er]] eqn:Ha; simpl.
  - destruct Hc as [Hs [es Hh]]. by eapply coherent_append.
  - apply bus_append_err in Ha as [H1 H2]. by eapply coherent_err.
Qed.

(** ** Each operation keeps the bus coherent *)

Lemma coherent_box s : coherent s → ∃ es, box_ok es (bs_box s).
Proof. intros [_ [es Hh]]. exists es. by eapply history_box. Qed.

Lemma slift_state {S A B X} (Q : S → Prop) (s : S) (r : result A X) (k : A → S * result B X) :
  Q s → (∀ a, r = Ok a → Q (k a).1) → Q (slift s r k).1.
Proof. intros Hs Hk. destruct r as [a|x]; simpl; [by apply Hk|done]. Qed.

Lemma limits_bounded g r team from to max bytes :
  message_limits (E := E) g r team from to = Ok (max, bytes) → (max ≤ DEFAULT_MAX_PENDING_MESSAGES)%Z.
Proof.
  unfold message_limits. destruct team as [id|]; [|by intros [= <- _]].
  intros (t & _ & H)%rbind_ok. apply rbind_ok in H as (u & Hl & H).
  apply rbind_ok in H as (_ & _ & [= <- <-]). unfold team_limits in Hl.
  destruct (validate_message_limits t) eqn:Hv; [|done]. by apply validate_message_limits_ok in Hv as [].
Qed.

(** [id] is an earlier direct message, or no message has it. *)
Definition direct_id_ok (s : BusState L) (id : string) : Prop :=
  (∃ r, r ∈ contents s ∧ names "message_delivered" "message_id" id r = true) ∨
  id ∉ delivered_ids (contents s).

Lemma coherent_send s g now id requested effective from to kind body :
  coherent s → lg_ready (bs_ledger s) → is_i64 now → value_wf body → direct_id_ok s id →
  advances s (send_with_requested_team_id to_vec s g now id run requested effective from to kind body).1.
Proof.
  intros Hc Hready Hnow Hbody Hid. unfold send_with_requested_team_id.
  destruct (replay_send_spec s id requested from to kind body Hc) as [Hs Hnone].
  destruct (replay_send s id run requested from to kind body) as [s0 [[m|]|e]]; simpl in *;
    [by rewrite Hs; apply advances_refl| |by rewrite Hs; apply advances_refl]. subst s0. specialize (Hnone eq_refl).
  assert (id ∉ delivered_ids (contents s)) as Hfresh.
  { destruct Hid as [(r & Hr & Hn)|]; [|done]. by rewrite (Hnone r Hr) in Hn. }
  destruct (coherent_box s Hc) as [es Hbox].
  do 2 (apply slift_state; [by apply advances_refl|intros _ _]). apply slift_state; [by apply advances_refl|]. intros [max bytes] Hlim.
  apply limits_bounded in Hlim. apply slift_state; [by apply advances_refl|intros _ _]. apply slift_state; [by apply advances_refl|].
  intros _ Hroom%ensure_ok%bool_decide_eq_true.
  apply (coherent_mutation s now "message_delivered" _
           (EvDirect {| dd_message := _; dd_requested_team_id_known := true;
                        dd_requested_team_id := requested |}) (λ r, (_, Some r)));
    [done|done|done|].
  cbn [ev_ok ev_messages apply_event dd_message fold_left]. split_and!; [| | | |done].
  - by apply NoDup_singleton.
  - intros x ->%list_elem_of_singleton. done.
  - repeat constructor; simpl; [done|apply Hnow|apply Hnow].
  - intros a. rewrite inbox_of_push. simpl. case_decide; [|apply (bo_pending es _ Hbox)].
    subst a. rewrite pending_count_app. change (pending_count [_]) with 1%Z. lia.
Qed.

(** How often [a] occurs among the recipients. *)
Definition occurrences (a : AgentId) (recipients : list AgentId) : nat :=
  length (filter (λ r, r = a) recipients).

Lemma additions_fold recipients m a :
  default 0%Z (fold_left (λ m r, <[r := default 0%Z (m !! r) + 1]>%Z m) recipients m !! a) =
  (default 0%Z ((m : gmap AgentId Z) !! a) + Z.of_nat (occurrences a recipients))%Z.
Proof.
  revert m. unfold occurrences. induction recipients as [|r rs IH]; intros m; cbn [fold_left]; [simpl; lia|].
  rewrite IH, filter_cons, lookup_insert. repeat case_decide; try done; subst; simpl; lia.
Qed.

Lemma additions_is_Some recipients m a :
  a ∈ recipients ∨ is_Some ((m : gmap AgentId Z) !! a) →
  is_Some (fold_left (λ m r, <[r := default 0%Z (m !! r) + 1]>%Z m) recipients m !! a).
Proof.
  revert m. induction recipients as [|r rs IH]; intros m; cbn [fold_left].
  - by intros [?%elem_of_nil|].
  - rewrite elem_of_cons. intros H. apply IH. rewrite lookup_insert.
    case_decide; [by right; eauto|]. naive_solver.
Qed.

Lemma additions_lookup recipients a :
  a ∈ recipients → additions recipients !! a = Some (Z.of_nat (occurrences a recipients)).
Proof.
  intros Ha. destruct (additions_is_Some recipients ∅ a (or_introl Ha)) as [n Hn].
  pose proof (additions_fold recipients ∅ a) as Hf. rewrite Hn, lookup_empty in Hf. simpl in Hf.
  unfold additions. rewrite Hn. f_equal. lia.
Qed.

Lemma imap_to_length (f : nat → AgentId → AgentMessage) recipients a :
  (∀ i r, am_to (f i r) = r) →
  length (filter (λ m, am_to m = a) (imap f recipients)) = occurrences a recipients.
Proof.
  unfold occurrences. revert f. induction recipients as [|r rs IH]; intros f Hf; [done|].
  rewrite imap_cons, !filter_cons. rewrite Hf. case_decide; simpl; rewrite IH; try done;
    intros i x; apply Hf.
Qed.

Lemma broadcast_id_inj id (i j : nat) :
  is_u64 (Z.of_nat i) → is_u64 (Z.of_nat j) →
  id +:+ ":" +:+ decimal (Z.of_nat i) = id +:+ ":" +:+ decimal (Z.of_nat j) → i = j.
Proof.
  intros Hi Hj H. apply (inj (String.app id)), (inj (String.app ":")) in H.
  apply decimal_inj in H; [|done..]. lia.
Qed.

Lemma broadcast_ids_distinct id team from kind body now recipients :
  (Z.of_nat (length recipients) ≤ u64_max)%Z →
  NoDup (ids_of (imap (broadcast_message id run team from kind body now) recipients)).
Proof.
  intros Hlen. apply NoDup_alt. intros i j x. unfold ids_of. rewrite !list_lookup_fmap, !list_lookup_imap.
  destruct (recipients !! i) eqn:Ei; [|done]. destruct (recipients !! j) eqn:Ej; [|done]. simpl.
  intros [= <-] [= E']. apply lookup_lt_Some in Ei, Ej.
  eapply broadcast_id_inj; [..|by symmetry]; unfold is_u64; lia.
Qed.

(** [id] is an earlier broadcast, or none of its messages has a used identifier. *)
Definition broadcast_id_ok (s : BusState L) (id : string) (recipients : list AgentId) : Prop :=
  (∃ r, r ∈ contents s ∧ names "messages_broadcast" "broadcast_id" id r = true) ∨
  ∀ i : nat, i < length recipients →
    id +:+ ":" +:+ decimal (Z.of_nat i) ∉ delivered_ids (contents s).

Lemma replay_broadcast_none s id team from recipients kind body :
  (replay_broadcast s id run team from recipients kind body).2 = Ok None →
  ∀ r, r ∈ contents s → names "messages_broadcast" "broadcast_id" id r = false.
Proof.
  unfold replay_broadcast.
  destruct (lg_records (bs_ledger s) run) as [rs|e] eqn:Hrs; cbn [slift lift_ledger]; [|done].
  apply lg_records_contents in Hrs as ->. fold (contents s).
  destruct (List.find _ (contents s)) as [r|] eqn:Hf.
  - destruct (from_value (lr_payload r)); cbn [slift ok_or]; [|done]. case_match; [done|].
    destruct (repair s (contents s) (lr_seq r) (db_messages d)) as [s' [u|er]]; done.
  - intros _ r Hr. apply (List.find_none _ _ Hf). by apply list_elem_of_In.
Qed.

Lemma coherent_broadcast s g now id team from recipients kind body :
  coherent s → lg_ready (bs_ledger s) → is_i64 now → value_wf body →
  (Z.of_nat (length recipients) ≤ u64_max)%Z → broadcast_id_ok s id recipients →
  advances s (broadcast_with_id to_vec s g now id run team from recipients kind body).1.
Proof.
  intros Hc Hready Hnow Hbody Hlen Hid. unfold broadcast_with_id.
  pose proof (replay_broadcast_spec s id team from (Some recipients) kind body Hc) as Hs.
  pose proof (replay_broadcast_none s id team from (Some recipients) kind body) as Hnone.
  destruct (replay_broadcast s id run team from (Some recipients) kind body) as [s0 [[ms|]|e]];
    simpl in *; [by rewrite Hs; apply advances_refl| |by rewrite Hs; apply advances_refl]. subst s0. specialize (Hnone eq_refl).
  assert (∀ i : nat, i < length recipients →
            id +:+ ":" +:+ decimal (Z.of_nat i) ∉ delivered_ids (contents s)) as Hfresh.
  { destruct Hid as [(r & Hr & Hn)|]; [|done]. by rewrite (Hnone r Hr) in Hn. }
  destruct (coherent_box s Hc) as [es Hbox].
  apply slift_state; [by apply advances_refl|intros _ _]. apply slift_state; [by apply advances_refl|intros t _].
  apply slift_state; [by apply advances_refl|]. intros ul Hlim. do 3 (apply slift_state; [by apply advances_refl|intros [] _]).
  apply slift_state; [by apply advances_refl|]. intros ur Hroom%for_each_ok.
  apply (coherent_mutation s now "messages_broadcast" _
           (EvBroadcast {| db_broadcast_id := id; db_run_id := run; db_team_id := team;
              db_from := from; db_recipients := recipients; db_kind := kind; db_body := body;
              db_messages := imap (broadcast_message id run team from kind body now) recipients |})
           (λ r, (_, Some r))); [done|done|done|].
  cbn [ev_ok ev_messages apply_event db_messages db_body]. split_and!; [| | | |done].
  - by apply broadcast_ids_distinct.
  - intros x (m & Hm & <-)%elem_of_ids. apply elem_of_lookup_imap in Hm as (i & r & -> & Hi).
    apply Hfresh. by apply lookup_lt_Some in Hi.
  - apply Forall_forall. intros m (i & r & -> & Hi)%elem_of_lookup_imap.
    repeat split; simpl; [done|apply Hnow|apply Hnow].
  - intros a. rewrite inbox_of_push_fold, pending_count_app.
    pose proof (pending_count_le_length
      (filter (λ m, am_to m = a) (imap (broadcast_message id run team from kind body now) recipients))) as Hle.
    rewrite imap_to_length in Hle by done.
    destruct (decide (a ∈ recipients)) as [Ha|Ha].
    + rewrite Forall_forall in Hroom.
      specialize (Hroom (a, Z.of_nat (occurrences a recipients))). simpl in Hroom.
      specialize (Hroom ltac:(apply elem_of_map_to_list; by apply additions_lookup)).
      apply ensure_ok, bool_decide_eq_true in Hroom. unfold team_limits in Hlim.
      destruct (validate_message_limits t) eqn:Hv; [|done].
      apply validate_message_limits_ok in Hv as [Hv _].
      unfold saturating_add, DEFAULT_MAX_PENDING_MESSAGES, u64_max in *. lia.
    + assert (occurrences a recipients = 0) as Hz.
      { unfold occurrences. destruct (filter (λ r, r = a) recipients) as [|x l] eqn:Ef; [done|].
        exfalso. apply Ha. assert (x ∈ filter (λ r, r = a) recipients) as [-> ?]%list_elem_of_filter
          by (rewrite Ef; by left). done. }
      pose proof (bo_pending es _ Hbox a). lia.
Qed.

Lemma coherent_claim s g now a c :
  coherent s → lg_ready (bs_ledger s) → advances s (claim s g now run a c).1.
Proof.
  intros Hc Hready. unfold claim. do 2 (apply slift_state; [by apply advances_refl|intros ? _]).
  destruct (List.find _ _); [by apply advances_refl|]. case_decide as Hm; [by apply advances_refl|].
  apply (coherent_mutation s now "messages_claimed" _ (EvClaim a c _) (λ _, _)); [done|done|done|].
  intros id (m & [Hin Hp]%elem_of_lfilter & <-)%elem_of_ids.
  rewrite !andb_true_iff, !bool_decide_eq_true in Hp. split; [|tauto].
  apply elem_of_ids. eauto.
Qed.

Lemma coherent_acknowledge s g now a id :
  coherent s → lg_ready (bs_ledger s) → is_i64 now → advances s (acknowledge s g now run a id).1.
Proof.
  intros Hc Hready Hnow. unfold acknowledge. apply slift_state; [by apply advances_refl|intros _ _].
  destruct (List.find _ _) as [m|] eqn:Hf; [|by apply advances_refl]. apply find_has_id in Hf as [Hm Hid].
  case_decide; [by apply advances_refl|]. destruct (negb (is_pending m)); [by apply advances_refl|].
  apply (coherent_mutation s now "message_acknowledged" _ (EvAck a id now) (λ r, (true, Some r)));
    [done|done|done|].
  split; [done|]. apply elem_of_ids. eauto.
Qed.

Lemma coherent_drain s g now a :
  coherent s → lg_ready (bs_ledger s) → advances s (drain s g now run a).1.
Proof.
  intros Hc Hready. unfold drain. apply slift_state; [by apply advances_refl|intros _ _]. case_decide as Hm; [by apply advances_refl|].
  apply (coherent_mutation s now "messages_dequeued" _ (EvDequeue a _) (λ r, (_, Some r)));
    [done|done|done|]. split.
  - intros E'. by apply fmap_nil_inv in E'.
  - intros id (m & [Hin _]%elem_of_lfilter & <-)%elem_of_ids. apply elem_of_ids. eauto.
Qed.

(** ** Histories of the bus *)

(** One mutation of the traffic of [run], or a record another component writes
    to the ledger meanwhile.  The registries may differ at each step. *)
Inductive bus_step : BusState L → BusState L → Prop :=
  | bst_send s g now id requested effective from to kind body :
      lg_ready (bs_ledger s) → is_i64 now → value_wf body → direct_id_ok s id →
      bus_step s (send_with_requested_team_id to_vec s g now id run requested effective from to
                    kind body).1
  | bst_broadcast s g now id team from recipients kind body :
      lg_ready (bs_ledger s) → is_i64 now → value_wf body →
      (Z.of_nat (length recipients) ≤ u64_max)%Z → broadcast_id_ok s id recipients →
      bus_step s (broadcast_with_id to_vec s g now id run team from recipients kind body).1
  | bst_claim s g now a c : lg_ready (bs_ledger s) → bus_step s (claim s g now run a c).1
  | bst_acknowledge s g now a id :
      lg_ready (bs_ledger s) → is_i64 now → bus_step s (acknowledge s g now run a id).1
  | bst_drain s g now a : lg_ready (bs_ledger s) → bus_step s (drain s g now run a).1
  | bst_other s now d ty p :
      lg_ready (bs_ledger s) → d ≠ Ephemeral → ty ∉ bus_types →
      bus_step s {| bs_box := bs_box s; bs_ledger := (lg_append (bs_ledger s) now run d ty p).1 |}
  | bst_foreign s now run' d ty p :
      run' ≠ run →
      bus_step s {| bs_box := bs_box s; bs_ledger := (lg_append (bs_ledger s) now run' d ty p).1 |}.

Definition bus_initial (s : BusState L) : Prop := bs_box s = mailbox_empty ∧ contents s = [].

Definition bus_reachable (s : BusState L) : Prop := ∃ s0, bus_initial s0 ∧ rtc bus_step s0 s.

Lemma coherent_initial s : bus_initial s → coherent s.
Proof.
  intros [Hb Hc]. unfold coherent. rewrite Hb, Hc. split; [constructor|]. exists []. constructor.
Qed.

Lemma bus_step_advances s s' : bus_step s s' → coherent s → advances s s'.
Proof.
  intros Hstep Hc. destruct Hstep as [| | | | |s now d ty p Hr Hd Hty|s now run' d ty p Hne].
  - by apply coherent_send.
  - by apply coherent_broadcast.
  - by apply coherent_claim.
  - by apply coherent_acknowledge.
  - by apply coherent_drain.
  - destruct (lg_append (bs_ledger s) now run d ty p) as [l [r|e]] eqn:Hl; simpl.
    + destruct Hc as [Hs [es Hh]].
      destruct (lg_append_ok _ _ _ _ _ _ _ _ Hr Hd Hl) as (Hcont & _ & Ht & Hp & Hseq).
      split; [|split; [unfold contents; simpl; rewrite Hcont; by eexists|done]].
      split; unfold contents in *; simpl; rewrite Hcont.
      * apply StronglySorted_snoc; [done|]. by apply Forall_forall.
      * exists (es ++ [EvOther]). apply (history_snoc _ _ (bs_box s) r EvOther); [done| |done].
        simpl. by rewrite Ht.
    + eapply (coherent_err s); [done| |done]. simpl. by eapply lg_append_err.
  - assert (lg_contents (lg_append (bs_ledger s) now run' d ty p).1 run = lg_contents (bs_ledger s) run) as E'.
    { destruct (lg_append (bs_ledger s) now run' d ty p) as [l [r|e]] eqn:Hl; simpl.
      - by eapply lg_append_other.
      - by eapply lg_append_err. }
    unfold advances, grows, coherent, contents in *. simpl. by rewrite E'.
Qed.

Lemma bus_steps_advance s s' : rtc bus_step s s' → coherent s → advances s s'.
Proof.
  induction 1 as [s|s1 s2 s3 Hstep _ IH]; intros Hc; [by apply advances_refl|].
  destruct (bus_step_advances s1 s2 Hstep Hc) as [Hc2 Hg]. destruct (IH Hc2) as [Hc3 Hg'].
  split; [done|]. by eapply grows_trans.
Qed.

Lemma coherent_reachable s : bus_reachable s → coherent s.
Proof. intros (s0 & Hi & Hr). apply (bus_steps_advance s0 s Hr). by apply coherent_initial. Qed.

(** C32: recovery: at any point of any history of sends, broadcasts, claims,
    acknowledgements and drains, interleaved with the records of other
    components, replaying the records of the Run from an empty bus succeeds and
    rebuilds the live mailbox exactly: every inbox with its order and its
    acknowledgements, and every claim. *)
Theorem bus_recovery s :
  bus_reachable s → restore_records mailbox_empty (contents s) = Some (bs_box s).
Proof. intros [_ [es Hh]]%coherent_reachable. by eapply history_restores. Qed.

(** bounded inboxes: on every history no Agent has more than 64 messages
    waiting; identifiers are distinct within an inbox and a message sits only
    in the inbox of its recipient. *)
Theorem bus_bounded s a :
  bus_reachable s →
  (Z.of_nat (length (inbox s a)) ≤ DEFAULT_MAX_PENDING_MESSAGES)%Z ∧
  NoDup (ids_of (inbox s a)) ∧ (∀ m, m ∈ inbox s a → am_to m = a).
Proof.
  intros Hr%coherent_reachable. destruct (coherent_box s Hr) as [es Hbox]. unfold inbox. split_and!.
  - apply (bo_pending es _ Hbox).
  - eapply sublist_NoDup; [apply (bo_distinct es _ Hbox a)|]. by apply fmap_sublist, lfilter_sublist.
  - intros m [Hm _]%elem_of_lfilter. by apply (bo_to es _ Hbox).
Qed.
End live.
