(* ===== verification/BusGuarantees.v ===== *)
(** * Guarantees of the message bus to its callers

    Failed mutations leave no trace, sends and broadcasts are idempotent in
    their identifier, and a message is handed out under one claim only.  Proved
    against the ledger interface, then evaluated on the in-memory ledger. *)
From S2P Require Import Prelude Json Types RuntimeLedger LedgerFacts.
From S2P Require Import LedgerInterface Registries MessageBus BusFacts.

Section guarantees.
Context {L E : Type} `{!Ledger L E, !LedgerLaws L E}.
Context (to_vec : Value → string).
Context (run : RunId).

(** ** Errors *)

(** Nothing the bus or the ledger stores has changed. *)
Definition unchanged (s s' : BusState L) : Prop :=
  bs_box s' = bs_box s ∧ ∀ run', lg_contents (bs_ledger s') run' = lg_contents (bs_ledger s) run'.

Definition atomic {A} (s : BusState L) (c : BusState L * result A (BusError E)) : Prop :=
  is_ok c.2 = false → unchanged s c.1.

Lemma unchanged_refl s : unchanged s s.
Proof. done. Qed.

Lemma atomic_ok {A} s s' (a : A) : atomic s (s', Ok a).
Proof. done. Qed.

Lemma atomic_err {A} s (e : BusError E) : atomic (A := A) s (s, Err e).
Proof. done. Qed.

Lemma atomic_slift {A B} s (r : result A (BusError E)) (k : A → BusState L * result B (BusError E)) :
  (∀ a, atomic s (k a)) → atomic s (slift s r k).
Proof. intros Hk. destruct r as [a|e]; simpl; [apply Hk|done]. Qed.

Lemma atomic_append {B} s now ty p (k : BusState L → LedgerRecord → BusState L * B) :
  atomic s (sbind (bus_append (E := E) s now run ty p) (λ s r, ((k s r).1, Ok (k s r).2))).
Proof.
  intros He. destruct (bus_append s now run ty p) as [s1 [r|e]] eqn:Ha; [done|].
  by apply (bus_append_err (E := E) run) in Ha.
Qed.

Lemma atomic_send s g now id requested effective from to kind body :
  coherent run s →
  atomic s (send_with_requested_team_id to_vec s g now id run requested effective from to kind body).
Proof.
  intros Hc. unfold send_with_requested_team_id.
  destruct (replay_send_spec run s id requested from to kind body Hc) as [Hs _].
  destruct (replay_send s id run requested from to kind body) as [s0 [[m|]|e]]; cbn [sbind fst snd] in *;
    subst s0; [done| |done].
  do 2 (apply atomic_slift; intros ?). apply atomic_slift. intros [max bytes].
  do 2 (apply atomic_slift; intros ?). apply (atomic_append _ _ _ _ (λ s r, (_, (_, Some r)))).
Qed.

Lemma atomic_broadcast s g now id team from recipients kind body :
  coherent run s →
  atomic s (broadcast_with_id to_vec s g now id run team from recipients kind body).
Proof.
  intros Hc. unfold broadcast_with_id.
  pose proof (replay_broadcast_spec run s id team from (Some recipients) kind body Hc) as Hs.
  destruct (replay_broadcast s id run team from (Some recipients) kind body) as [s0 [[ms|]|e]];
    cbn [sbind fst snd] in *; subst s0; [done| |done].
  do 7 (apply atomic_slift; intros ?). apply (atomic_append _ _ _ _ (λ s r, (_, (_, Some r)))).
Qed.

Lemma atomic_claim s g now a c : atomic s (claim s g now run a c).
Proof.
  unfold claim. do 2 (apply atomic_slift; intros ?). destruct (List.find _ _); [done|].
  case_decide; [done|]. apply (atomic_append _ _ _ _ (λ s r, (_, _))).
Qed.

Lemma atomic_acknowledge s g now a id : atomic s (acknowledge s g now run a id).
Proof.
  unfold acknowledge. apply atomic_slift; intros ?. destruct (List.find _ _) as [m|]; [|done].
  case_decide; [done|]. destruct (negb (is_pending m)); [done|].
  apply (atomic_append _ _ _ _ (λ s r, (_, (true, Some r)))).
Qed.

Lemma atomic_drain s g now a : atomic s (drain s g now run a).
Proof.
  unfold drain. apply atomic_slift; intros ?. case_decide; [done|].
  apply (atomic_append _ _ _ _ (λ s r, (_, (_, Some r)))).
Qed.

(** errors leave no trace: on every history a send, broadcast, claim,
    acknowledgement or drain that returns an error, whether its own check
    failed or the ledger refused the record, has changed no inbox, no claim and
    no stored record of any Run. *)
Theorem bus_errors_atomic s g now :
  bus_reachable to_vec run s →
  (∀ id requested effective from to kind body,
     atomic s (send_with_requested_team_id to_vec s g now id run requested effective from to kind body)) ∧
  (∀ id team from recipients kind body,
     atomic s (broadcast_with_id to_vec s g now id run team from recipients kind body)) ∧
  (∀ a c, atomic s (claim s g now run a c)) ∧
  (∀ a id, atomic s (acknowledge s g now run a id)) ∧
  (∀ a, atomic s (drain s g now run a)).
Proof.
  intros Hc%coherent_reachable. split_and!.
  - intros *. by apply atomic_send.
  - intros *. by apply atomic_broadcast.
  - intros *. apply atomic_claim.
  - intros *. apply atomic_acknowledge.
  - intros *. apply atomic_drain.
Qed.

(** ** Idempotent sends *)

Lemma history_ids_distinct rs es b : history rs es b → NoDup (used_ids es).
Proof.
  induction 1 as [|rs es b r e _ IH _ Hok]; [constructor|]. rewrite used_ids_snoc.
  apply NoDup_app. split; [done|]. destruct e; try (split; [by intros ? _ ?%elem_of_nil|constructor]);
    destruct Hok as (Hnd & Hfresh & _); (split; [|done]); intros id H1 H2; by apply (Hfresh id).
Qed.

(** An identifier is delivered by one record only. *)
Lemma delivery_unique rs (r r' : LedgerRecord) m m' :
  NoDup (delivered_ids rs) → r ∈ rs → r' ∈ rs → m ∈ delivered_by r → m' ∈ delivered_by r' →
  am_message_id m = am_message_id m' → r = r'.
Proof.
  intros Hnd Hr Hr' Hm Hm' Hid. induction rs as [|x rs IH]; [by apply elem_of_nil in Hr|].
  unfold delivered_ids in Hnd. rewrite fmap_cons in Hnd. cbn [concat] in Hnd.
  rewrite ids_of_app in Hnd. apply NoDup_app in Hnd as (_ & Hdis & Hnd).
  assert (∀ y k, y ∈ rs → k ∈ delivered_by y → am_message_id k ∈ ids_of (concat (delivered_by <$> rs))) as Hin.
  { intros y k Hy Hk. apply elem_of_ids. exists k. split; [|done].
    apply list_elem_of_In, List.in_concat. exists (delivered_by y).
    split; apply list_elem_of_In; [by apply list_elem_of_fmap_2|done]. }
  assert (∀ k, k ∈ delivered_by x → am_message_id k ∈ ids_of (delivered_by x)) as Hx
    by (intros k Hk; apply elem_of_ids; eauto).
  apply elem_of_cons in Hr as [->|Hr], Hr' as [->|Hr']; [done| | |by apply IH].
  - destruct (Hdis (am_message_id m)); [by apply Hx|]. rewrite Hid. by eapply Hin.
  - destruct (Hdis (am_message_id m')); [by apply Hx|]. rewrite <-Hid. by eapply Hin.
Qed.

Lemma send_stores s g now id requested effective from to kind body s1 m r :
  coherent run s → lg_ready (bs_ledger s) →
  send_with_requested_team_id to_vec s g now id run requested effective from to kind body =
    (s1, Ok (m, Some r)) →
  r ∈ contents run s1 ∧ lr_record_type r = "message_delivered" ∧
  lr_payload r = to_value {| dd_message := m; dd_requested_team_id_known := true;
                             dd_requested_team_id := requested |} ∧
  am_message_id m = id ∧ am_run_id m = run ∧ am_from m = from ∧ am_to m = to ∧ am_kind m = kind ∧
  am_body m = body ∧ am_created_at_unix_ms m = now ∧ am_acknowledged_at_unix_ms m = None.
Proof.
  intros Hc Hready. unfold send_with_requested_team_id. rewrite sbind_ok.
  intros (s0 & [x|] & Hrep & H); [done|].
  destruct (replay_send_spec run s id requested from to kind body Hc) as [Hs _].
  rewrite Hrep in Hs. simpl in Hs. subst s0.
  do 2 apply slift_ok in H as (_ & _ & H). apply slift_ok in H as ([max bytes] & _ & H).
  do 2 apply slift_ok in H as (_ & _ & H). apply sbind_ok in H as (s2 & r2 & Ha & [= <- <- <-]).
  unfold bus_append in Ha. destruct (lg_append _ _ _ _ _ _) as [l [r'|e]] eqn:Hl; [|done].
  simpl in Ha. injection Ha as <- <-.
  assert (SyncCritical ≠ Ephemeral) as Hd by done.
  destruct (lg_append_ok _ _ _ _ _ _ _ _ Hready Hd Hl) as (Hcont & _ & Ht & Hp & _).
  split_and!; try done. unfold contents. simpl. rewrite Hcont, elem_of_app. right. by left.
Qed.

Lemma direct_delivered r m requested :
  lr_record_type r = "message_delivered" →
  lr_payload r = to_value {| dd_message := m; dd_requested_team_id_known := true;
                             dd_requested_team_id := requested |} →
  message_ok m → delivered_by r = [m].
Proof.
  intros Ht Hp Hm. unfold delivered_by. rewrite Ht, decide_True, Hp by done.
  by rewrite direct_message_from.
Qed.

(** The record of a send is the one a replay finds. *)
Lemma find_sent s r m requested :
  coherent run s → r ∈ contents run s → lr_record_type r = "message_delivered" →
  lr_payload r = to_value {| dd_message := m; dd_requested_team_id_known := true;
                             dd_requested_team_id := requested |} →
  message_ok m →
  List.find (names "message_delivered" "message_id" (am_message_id m)) (contents run s) = Some r.
Proof.
  intros Hc Hr Ht Hp Hm.
  assert (names "message_delivered" "message_id" (am_message_id m) r = true) as Hn.
  { unfold names, payload_str. rewrite Ht, Hp. by rewrite !bool_decide_eq_true_2. }
  pose proof (direct_delivered r m requested Ht Hp Hm) as Hdel.
  destruct (List.find _ _) as [r'|] eqn:Hf.
  - apply find_split in Hf as (pre & post & E' & Hn').
    assert (r' ∈ contents run s) as Hr' by (rewrite E', elem_of_app; right; by left).
    destruct (named_direct run s r' _ Hc Hr' Hn') as (d' & _ & Hdel' & Hid' & _).
    f_equal. symmetry. eapply (delivery_unique (contents run s) r r' m (dd_message d'));
      [|done|done|rewrite Hdel; by left|rewrite Hdel'; by left|congruence].
    destruct Hc as [_ [es Hh]]. rewrite (delivered_used _ es) by by eapply history_good.
    by eapply history_ids_distinct.
  - rewrite (List.find_none _ _ Hf) in Hn; [done|]. by apply list_elem_of_In.
Qed.

(** a send is idempotent in its identifier: once it has been delivered, the
    same send, at any later time, with any registries and even if the sender's
    Team has changed meanwhile, returns the original message, appends nothing
    and changes nothing; with other content it is refused, also without effect. *)
Theorem send_idempotent s g now id requested effective from to kind body s1 m r s2 rs :
  bus_reachable to_vec run s → lg_ready (bs_ledger s) → is_i64 now → value_wf body →
  direct_id_ok run s id →
  send_with_requested_team_id to_vec s g now id run requested effective from to kind body =
    (s1, Ok (m, Some r)) →
  rtc (bus_step to_vec run) s1 s2 → lg_records (bs_ledger s2) run = Ok rs →
  (∀ g' now' effective',
     send_with_requested_team_id to_vec s2 g' now' id run requested effective' from to kind body =
       (s2, Ok (m, None))) ∧
  (∀ g' now' requested' effective' from' to' kind' body',
     (requested', from', to', kind') ≠ (requested, from, to, kind) ∨ value_eqb body body' = false →
     send_with_requested_team_id to_vec s2 g' now' id run requested' effective' from' to' kind' body' =
       (s2, Err (MessageIdBound id))).
Proof.
  intros Hc%coherent_reachable Hready Hnow Hbody Hid Hsend Hsteps Hrs.
  destruct (send_stores _ _ _ _ _ _ _ _ _ _ _ _ _ Hc Hready Hsend)
    as (Hr & Ht & Hp & Em & Erun & Efrom & Eto & Ekind & Ebody & Enow & Eack).
  assert (coherent run s1) as Hc1.
  { pose proof (coherent_send to_vec run s g now id requested effective from to kind body
                  Hc Hready Hnow Hbody Hid) as [H _]. by rewrite Hsend in H. }
  destruct (bus_steps_advance to_vec run s1 s2 Hsteps Hc1) as [Hc2 [Hpre _]].
  assert (r ∈ contents run s2) as Hr2 by (destruct Hpre as [k ->]; rewrite elem_of_app; by left).
  assert (message_ok m) as Hm.
  { split_and!; [by rewrite Ebody|by rewrite Enow|by rewrite Eack]. }
  set (d := {| dd_message := m; dd_requested_team_id_known := true;
               dd_requested_team_id := requested |}) in *.
  assert (from_value (lr_payload r) = Some d) as Hdec by (rewrite Hp; by apply from_to_value).
  pose proof (find_sent s2 r m requested Hc2 Hr2 Ht Hp Hm) as Hfind. rewrite Em in Hfind.
  apply lg_records_contents in Hrs as Hrs'. fold (contents run s2) in Hrs'. subst rs.
  unfold send_with_requested_team_id, replay_send. rewrite Hrs. cbn [lift_ledger slift].
  rewrite Hfind, Hdec. cbn [slift ok_or dd_message dd_requested_team_id_known dd_requested_team_id d].
  rewrite Erun, Efrom, Eto, Ekind, Ebody. cbn [negb andb orb]. split.
  - intros *. rewrite !bool_decide_eq_false_2 by tauto. rewrite value_eqb_refl by done.
    cbn [negb orb andb]. rewrite (coherent_repair run s2 r); [done..|by eapply direct_delivered].
  - intros * Hdiff. rewrite (bool_decide_eq_false_2 (run ≠ run)) by tauto.
    assert (∀ b, b = true → (if b then (s2, Err (MessageIdBound id)) else
      sbind (repair (E := E) s2 (contents run s2) (lr_seq r) [m]) (λ s _, (s, Ok (Some m)))) =
      (s2, Err (MessageIdBound id))) as Hif by by intros b ->.
    cbn [orb andb]. rewrite Hif; [done|].
    destruct Hdiff as [Hne|Hne]; [|by rewrite Hne, orb_true_r].
    repeat (rewrite orb_true_iff || rewrite bool_decide_eq_true).
    destruct (decide (requested = requested')); [|tauto]. destruct (decide (from = from')); [|tauto].
    destruct (decide (to = to')); [|tauto]. destruct (decide (kind = kind')); [|tauto].
    exfalso. apply Hne. congruence.
Qed.

(** ** Claims *)

Lemma history_claims rs es b a c ids id :
  history rs es b → EvClaim a c ids ∈ es → id ∈ ids → mb_claims b !! id = Some c.
Proof.
  intros Hh Hin Hid. induction Hh as [|rs es b r e _ IH _ Hok]; [by apply elem_of_nil in Hin|].
  apply elem_of_app in Hin as [Hin|Hin]; [by eapply claims_kept; [|apply IH]|].
  apply list_elem_of_singleton in Hin as <-. cbn [apply_event].
  destruct (claims_fold c b ids) as [_ ->]. by rewrite decide_True.
Qed.

Lemma claimed_record s r a c ids id :
  coherent run s → r ∈ contents run s → lr_record_type r = "messages_claimed" →
  payload_str r "claim_id" = Some c → payload_str r "agent_id" = Some a → payload_ids r = ids →
  id ∈ ids → mb_claims (bs_box s) !! id = Some c.
Proof.
  intros [_ [es Hh]] Hr Ht Hcl Hag <- Hid. pose proof (history_good _ _ _ Hh) as Hgood.
  apply list_elem_of_lookup in Hr as [i Hi].
  destruct (Forall2_lookup_l _ _ _ _ _ Hgood Hi) as (e & He & Hg).
  pose proof (eg_denotes r e Hg) as Hden.
  destruct e as [d|d|a' id' z|a' c' ids'|a' ids'|]; cbn [denotes] in Hden;
    try (destruct Hden as [Ht' Hp]; rewrite Ht in Ht'; discriminate Ht').
  - destruct Hden as [_ Hp]. rewrite (claim_ids r a' c' ids' Hp) in Hid.
    unfold payload_str in Hcl. rewrite Hp in Hcl. injection Hcl as <-.
    eapply history_claims; [done| |done]. by apply list_elem_of_lookup; exists i.
  - exfalso. apply Hden. rewrite Ht. do 3 right. left.
Qed.

(** Everything a claim returns is held by it afterwards. *)
Lemma claim_holds s g now a c s1 ms id :
  coherent run s → claim s g now run a c = (s1, Ok ms) → id ∈ ids_of ms →
  mb_claims (bs_box s1) !! id = Some c.
Proof.
  intros Hc Hcl Hid. unfold claim in Hcl. apply slift_ok in Hcl as (u & _ & Hcl).
  apply slift_ok in Hcl as (rs & Hrs & Hcl).
  destruct (lg_records (bs_ledger s) run) as [rs'|] eqn:Hl; [|done].
  apply lg_records_contents in Hl as ->. injection Hrs as <-.
  destruct (List.find _ _) as [r|] eqn:Hf.
  - injection Hcl as <- <-. apply find_split in Hf as (pre & post & E' & Hn).
    rewrite !andb_true_iff, !bool_decide_eq_true in Hn. destruct Hn as [[Ht Hcid] Hag].
    apply elem_of_ids in Hid as (m & [_ Hm]%elem_of_lfilter & <-).
    apply andb_true_iff in Hm as [_ Hm%bool_decide_eq_true].
    eapply (claimed_record s r a c); [done| |done|done|done|done|done].
    unfold contents. rewrite E', elem_of_app. right. by left.
  - case_decide as Hne; [injection Hcl as <- <-; by apply elem_of_nil in Hid|].
    apply sbind_ok in Hcl as (s2 & r & _ & [= <- <-]). cbn [update_box bs_box].
    destruct (claims_fold c (bs_box s2) (am_message_id <$> List.filter
      (λ m, bool_decide (am_run_id m = run) && is_pending m &&
            bool_decide (mb_claims (bs_box s) !! am_message_id m = None)) (inbox_of (bs_box s) a)))
      as [_ ->]. by rewrite decide_True.
Qed.

(** C38: claims are exclusive: two successful claims with different claim
    identifiers, by any Agents and at any two moments of a history, never
    return the same message, whatever happens in between. *)
Theorem claims_exclusive s g now a c s1 ms s2 g' now' a' c' s3 ms' :
  bus_reachable to_vec run s → lg_ready (bs_ledger s) →
  claim s g now run a c = (s1, Ok ms) →
  rtc (bus_step to_vec run) s1 s2 → lg_ready (bs_ledger s2) →
  claim s2 g' now' run a' c' = (s3, Ok ms') → c ≠ c' →
  ∀ id, id ∈ ids_of ms → id ∈ ids_of ms' → False.
Proof.
  intros Hc%coherent_reachable Hready H1 Hsteps Hready2 H2 Hne id Hid Hid'.
  pose proof (claim_holds _ _ _ _ _ _ _ _ Hc H1 Hid) as Hk.
  destruct (coherent_claim run s g now a c Hc Hready) as [Hc1 _]. rewrite H1 in Hc1.
  destruct (bus_steps_advance to_vec run s1 s2 Hsteps Hc1) as [Hc2 [_ Hk2]].
  pose proof (claim_holds _ _ _ _ _ _ _ _ Hc2 H2 Hid') as Hk'.
  destruct (coherent_claim run s2 g' now' a' c' Hc2 Hready2) as [_ [_ Hk3]]. rewrite H2 in Hk3.
  apply Hk2, Hk3 in Hk. simpl in Hk. congruence.
Qed.
End guarantees.

(** ** The bus on the in-memory ledger *)

Definition sample_agent (id : string) : AgentRecord :=
  {| ar_run_id := "run"; ar_agent_id := id; ar_team_id := None; ar_parent_agent_id := None;
     ar_state := AgActive |}.

Definition sample_registry : Registry :=
  {| rg_agents := <["a" := sample_agent "a"]> {["b" := sample_agent "b"]}; rg_teams := ∅ |}.

Definition sample_body : Value := VObject [("text", VString "hello")].

Definition sample_json (v : Value) : string := "{}".

Definition bus0 : BusState InMemoryLedgerState :=
  {| bs_box := mailbox_empty; bs_ledger := ledger_default |}.

Definition sample_send (s : BusState InMemoryLedgerState) (id : string) (now : Z) :=
  send_with_requested_team_id sample_json s sample_registry now id "run" None None "a" "b" "note"
    sample_body.

Definition bus1 := (sample_send bus0 "m1" 1).1.
Definition bus2 := (claim bus1 sample_registry 2 "run" "b" "c1").1.
Definition bus3 := (sample_send bus2 "m2" 3).1.
Definition bus4 := (acknowledge bus3 sample_registry 4 "run" "b" "m1").1.

Lemma in_memory_append_inv l now run d ty p :
  ledger_inv l → (ls_next_sequence l < u64_max)%Z → ledger_inv (append l now run d ty p).1.
Proof. intros Hi Hl. eapply ledger_inv_event; [|exact Hi]. apply ev_step. by apply st_append. Qed.

Lemma bus1_ready : lg_ready (bs_ledger bus1).
Proof.
  split; [|reflexivity].
  exact (in_memory_append_inv ledger_default 1 "run" SyncCritical "message_delivered"
           _ ledger_inv_default eq_refl).
Qed.

Lemma bus2_ready : lg_ready (bs_ledger bus2).
Proof.
  split; [|reflexivity].
  exact (in_memory_append_inv (bs_ledger bus1) 2 "run" SyncCritical "messages_claimed"
           _ (proj1 bus1_ready) eq_refl).
Qed.

Lemma bus3_ready : lg_ready (bs_ledger bus3).
Proof.
  split; [|reflexivity].
  exact (in_memory_append_inv (bs_ledger bus2) 3 "run" SyncCritical "message_delivered"
           _ (proj1 bus2_ready) eq_refl).
Qed.

Lemma fresh_id (s : BusState InMemoryLedgerState) id :
  bool_decide (id ∉ delivered_ids (contents "run" s)) = true → direct_id_ok "run" s id.
Proof. intros H. right. by apply bool_decide_eq_true in H. Qed.

Lemma sample_body_wf : value_wf sample_body.
Proof. split; [|done]. apply NoDup_singleton. Qed.

Lemma bus01 : bus_step sample_json "run" bus0 bus1.
Proof.
  apply bst_send; [split; [apply ledger_inv_default|reflexivity]|split; discriminate|
    exact sample_body_wf|]. apply fresh_id. vm_compute. reflexivity.
Qed.

Lemma bus12 : bus_step sample_json "run" bus1 bus2.
Proof. apply bst_claim, bus1_ready. Qed.

Lemma bus23 : bus_step sample_json "run" bus2 bus3.
Proof.
  apply bst_send; [exact bus2_ready|split; discriminate|exact sample_body_wf|].
  apply fresh_id. vm_compute. reflexivity.
Qed.

Lemma bus34 : bus_step sample_json "run" bus3 bus4.
Proof. apply bst_acknowledge; [exact bus3_ready|split; discriminate]. Qed.

Lemma bus0_reachable : bus_reachable sample_json "run" bus0.
Proof. exists bus0. split; [split; reflexivity|constructor]. Qed.

Lemma bus1_reachable : bus_reachable sample_json "run" bus1.
Proof. exists bus0. split; [split; reflexivity|]. apply rtc_once, bus01. Qed.

Lemma bus4_reachable : bus_reachable sample_json "run" bus4.
Proof.
  exists bus0. split; [split; reflexivity|].
  eapply rtc_l; [apply bus01|]. eapply rtc_l; [apply bus12|]. eapply rtc_l; [apply bus23|].
  apply rtc_once, bus34.
Qed.

Lemma bus_recovery_witness :
  restore_records mailbox_empty (run_records (bs_ledger bus4) "run") = Some (bs_box bus4) ∧
  length (inbox_of (bs_box bus4) "b") = 2.
Proof. split; [exact (bus_recovery sample_json "run" bus4 bus4_reachable)|reflexivity]. Defined.

Lemma bus_bounded_witness : (Z.of_nat (length (inbox bus4 "b")) ≤ 64)%Z.
Proof. apply (bus_bounded sample_json "run" bus4 "b" bus4_reachable). Defined.

Lemma bus_errors_atomic_witness :
  is_ok (acknowledge bus4 sample_registry 9 "run" "zzz" "m1").2 = false ∧
  unchanged bus4 (acknowledge bus4 sample_registry 9 "run" "zzz" "m1").1.
Proof.
  split; [reflexivity|].
  apply (bus_errors_atomic sample_json "run" bus4 sample_registry 9 bus4_reachable). reflexivity.
Defined.

Definition sample_message : AgentMessage :=
  {| am_message_id := "m1"; am_run_id := "run"; am_team_id := None; am_from := "a"; am_to := "b";
     am_kind := "note"; am_body := sample_body; am_created_at_unix_ms := 1;
     am_acknowledged_at_unix_ms := None |}.

Lemma send_idempotent_witness : sample_send bus4 "m1" 77 = (bus4, Ok (sample_message, None)).
Proof.
  eapply (send_idempotent sample_json "run" bus0 sample_registry 1 "m1" None None "a" "b" "note"
            sample_body bus1 sample_message _ bus4).
  - exact bus0_reachable.
  - split; [apply ledger_inv_default|reflexivity].
  - split; discriminate.
  - exact sample_body_wf.
  - apply fresh_id. vm_compute. reflexivity.
  - vm_compute. reflexivity.
  - eapply rtc_l; [apply bus12|]. eapply rtc_l; [apply bus23|]. apply rtc_once, bus34.
  - reflexivity.
Defined.

Lemma claims_exclusive_witness :
  ids_of (default [] (match (claim bus1 sample_registry 2 "run" "b" "c1").2 with Ok l => Some l | Err _ => None end)) = ["m1"] ∧
  "m1" ∉ ids_of (default [] (match (claim bus3 sample_registry 5 "run" "b" "c2").2 with Ok l => Some l | Err _ => None end)).
Proof.
  split; [reflexivity|]. intros H.
  eapply (claims_exclusive sample_json "run" bus1 sample_registry 2 "b" "c1" bus2 [sample_message]
            bus3 sample_registry 5 "b" "c2" _ _ bus1_reachable bus1_ready).
  - vm_compute. reflexivity.
  - apply rtc_once, bus23.
  - exact bus3_ready.
  - vm_compute. reflexivity.
  - discriminate.
  - left.
  - exact H.
Defined.
