(* ===== verification/ResourceTypes.v ===== *)
(** * Resource accounting: data

    The data of crates/solaris-agent/src/resource_manager.rs and
    resource_manager/{usage,persistence}.rs: usage counters, the provider rate
    window, the snapshot of the manager's state, the delta between two
    snapshots and the JSON form of all of them; with the pricing of
    crates/solaris-types/src/provider_contract.rs and the status of a tool call
    of crates/solaris-types/src/tool.rs. *)
From S2P Require Import Prelude Json Types WorkflowTypes.

(** ** Tool calls and token usage *)

Inductive ToolResultStatus : Type :=
  | Executed | CacheHit | Noop | Denied | Failed | Aborted | Timeout | OutcomeUnknown.

Definition is_useful_call (s : ToolResultStatus) : bool :=
  match s with Executed | CacheHit => true | _ => false end.

Record ToolCallStat : Type := {
  tc_fingerprint : string;
  tc_status : ToolResultStatus;
}.

Record TokenUsage : Type := {
  tu_input_tokens : Z;
  tu_output_tokens : Z;
  tu_cache_creation_tokens : Z;
  tu_cache_read_tokens : Z;
}.

Definition token_usage_ok (u : TokenUsage) : Prop :=
  is_u64 (tu_input_tokens u) ∧ is_u64 (tu_output_tokens u) ∧
  is_u64 (tu_cache_creation_tokens u) ∧ is_u64 (tu_cache_read_tokens u).

(** ** Provider signals *)

Inductive CacheTokenAccounting : Type := IncludedInInput | SeparateFromInput.

#[export] Instance CacheTokenAccounting_eq_dec : EqDecision CacheTokenAccounting.
Proof. solve_decision. Defined.

Record CategorizedTokenUsage : Type := {
  ct_uncached_input_tokens : Z;
  ct_cache_read_tokens : Z;
  ct_cache_write_tokens : Z;
  ct_output_tokens : Z;
}.

Definition total_tokens (c : CategorizedTokenUsage) : Z :=
  saturating_add
    (saturating_add
       (saturating_add (ct_uncached_input_tokens c) (ct_cache_read_tokens c))
       (ct_cache_write_tokens c))
    (ct_output_tokens c).

Record ProviderSignals : Type := {
  ps_concurrency_hint : option Z;
  ps_requests_per_minute : option Z;
  ps_tokens_per_minute : option Z;
  ps_cache_token_accounting : option CacheTokenAccounting;
  ps_input_cost_per_million : option f64;
  ps_cache_read_cost_per_million : option f64;
  ps_cache_write_cost_per_million : option f64;
  ps_output_cost_per_million : option f64;
}.

Definition signals_default : ProviderSignals :=
  {| ps_concurrency_hint := None; ps_requests_per_minute := None; ps_tokens_per_minute := None;
     ps_cache_token_accounting := None; ps_input_cost_per_million := None;
     ps_cache_read_cost_per_million := None; ps_cache_write_cost_per_million := None;
     ps_output_cost_per_million := None |}.

Definition signals_eqb (a b : ProviderSignals) : bool :=
  bool_decide (ps_concurrency_hint a = ps_concurrency_hint b) &&
  bool_decide (ps_requests_per_minute a = ps_requests_per_minute b) &&
  bool_decide (ps_tokens_per_minute a = ps_tokens_per_minute b) &&
  bool_decide (ps_cache_token_accounting a = ps_cache_token_accounting b) &&
  option_eqb f64_eqb (ps_input_cost_per_million a) (ps_input_cost_per_million b) &&
  option_eqb f64_eqb (ps_cache_read_cost_per_million a) (ps_cache_read_cost_per_million b) &&
  option_eqb f64_eqb (ps_cache_write_cost_per_million a) (ps_cache_write_cost_per_million b) &&
  option_eqb f64_eqb (ps_output_cost_per_million a) (ps_output_cost_per_million b).

(** [overlay.x.or(base.x)] for every member. *)
Definition or_else {A} (a b : option A) : option A :=
  match a with Some _ => a | None => b end.
Definition signals_merge (base overlay : ProviderSignals) : ProviderSignals :=
  {| ps_concurrency_hint := or_else (ps_concurrency_hint overlay) (ps_concurrency_hint base);
     ps_requests_per_minute := or_else (ps_requests_per_minute overlay) (ps_requests_per_minute base);
     ps_tokens_per_minute := or_else (ps_tokens_per_minute overlay) (ps_tokens_per_minute base);
     ps_cache_token_accounting :=
       or_else (ps_cache_token_accounting overlay) (ps_cache_token_accounting base);
     ps_input_cost_per_million :=
       or_else (ps_input_cost_per_million overlay) (ps_input_cost_per_million base);
     ps_cache_read_cost_per_million :=
       or_else (ps_cache_read_cost_per_million overlay) (ps_cache_read_cost_per_million base);
     ps_cache_write_cost_per_million :=
       or_else (ps_cache_write_cost_per_million overlay) (ps_cache_write_cost_per_million base);
     ps_output_cost_per_million :=
       or_else (ps_output_cost_per_million overlay) (ps_output_cost_per_million base) |}.

Definition categorize_usage (s : ProviderSignals) (u : TokenUsage) : CategorizedTokenUsage :=
  let cached_input := saturating_add (tu_cache_read_tokens u) (tu_cache_creation_tokens u) in
  {| ct_uncached_input_tokens :=
       match default IncludedInInput (ps_cache_token_accounting s) with
       | IncludedInInput => saturating_sub (tu_input_tokens u) cached_input
       | SeparateFromInput => tu_input_tokens u
       end;
     ct_cache_read_tokens := tu_cache_read_tokens u;
     ct_cache_write_tokens := tu_cache_creation_tokens u;
     ct_output_tokens := tu_output_tokens u |}.

Definition priced_tokens (tokens : Z) (rate_per_million : option f64) : option f64 :=
  if decide (tokens = 0%Z) then Some f64_zero
  else (λ rate, f64_mul (f64_of_Z tokens) rate) <$> rate_per_million.

Definition usage_cost (s : ProviderSignals) (u : TokenUsage) : option f64 :=
  let c := categorize_usage s u in
  input ← priced_tokens (ct_uncached_input_tokens c) (ps_input_cost_per_million s);
  cache_read ← priced_tokens (ct_cache_read_tokens c) (ps_cache_read_cost_per_million s);
  cache_write ← priced_tokens (ct_cache_write_tokens c) (ps_cache_write_cost_per_million s);
  output ← priced_tokens (ct_output_tokens c) (ps_output_cost_per_million s);
  Some (f64_div (f64_add (f64_add (f64_add input cache_read) cache_write) output)
                (f64_of_Z 1000000)).

(** ** Usage and the rate window *)

Record ResourceUsage : Type := {
  ru_active_agents : Z;
  ru_concurrent_effects : Z;
  ru_total_descendants : Z;
  ru_turns : Z;
  ru_tokens : Z;
  ru_uncached_input_tokens : Z;
  ru_input_tokens : Z;
  ru_output_tokens : Z;
  ru_cache_creation_tokens : Z;
  ru_cache_read_tokens : Z;
  ru_tool_calls : Z;
  ru_useful_tool_calls : Z;
  ru_useful_call_rate : option f64;
  ru_duplicate_tool_calls : Z;
  ru_duplicate_call_rate : option f64;
  ru_seen_tool_call_fingerprints : gset string;
  ru_cost : f64;
  ru_cost_known : bool;
}.

Definition usage_default : ResourceUsage :=
  {| ru_active_agents := 0; ru_concurrent_effects := 0; ru_total_descendants := 0; ru_turns := 0;
     ru_tokens := 0; ru_uncached_input_tokens := 0; ru_input_tokens := 0; ru_output_tokens := 0;
     ru_cache_creation_tokens := 0; ru_cache_read_tokens := 0; ru_tool_calls := 0;
     ru_useful_tool_calls := 0; ru_useful_call_rate := None; ru_duplicate_tool_calls := 0;
     ru_duplicate_call_rate := None; ru_seen_tool_call_fingerprints := ∅; ru_cost := f64_zero;
     ru_cost_known := true |}.

(** The members the operations assign one by one. *)
Definition set_active_agents (n : Z) (u : ResourceUsage) : ResourceUsage :=
  {| ru_active_agents := n; ru_concurrent_effects := ru_concurrent_effects u;
     ru_total_descendants := ru_total_descendants u; ru_turns := ru_turns u;
     ru_tokens := ru_tokens u; ru_uncached_input_tokens := ru_uncached_input_tokens u;
     ru_input_tokens := ru_input_tokens u; ru_output_tokens := ru_output_tokens u;
     ru_cache_creation_tokens := ru_cache_creation_tokens u;
     ru_cache_read_tokens := ru_cache_read_tokens u; ru_tool_calls := ru_tool_calls u;
     ru_useful_tool_calls := ru_useful_tool_calls u; ru_useful_call_rate := ru_useful_call_rate u;
     ru_duplicate_tool_calls := ru_duplicate_tool_calls u;
     ru_duplicate_call_rate := ru_duplicate_call_rate u;
     ru_seen_tool_call_fingerprints := ru_seen_tool_call_fingerprints u;
     ru_cost := ru_cost u; ru_cost_known := ru_cost_known u |}.
Definition set_concurrent_effects (n : Z) (u : ResourceUsage) : ResourceUsage :=
  {| ru_active_agents := ru_active_agents u; ru_concurrent_effects := n;
     ru_total_descendants := ru_total_descendants u; ru_turns := ru_turns u;
     ru_tokens := ru_tokens u; ru_uncached_input_tokens := ru_uncached_input_tokens u;
     ru_input_tokens := ru_input_tokens u; ru_output_tokens := ru_output_tokens u;
     ru_cache_creation_tokens := ru_cache_creation_tokens u;
     ru_cache_read_tokens := ru_cache_read_tokens u; ru_tool_calls := ru_tool_calls u;
     ru_useful_tool_calls := ru_useful_tool_calls u; ru_useful_call_rate := ru_useful_call_rate u;
     ru_duplicate_tool_calls := ru_duplicate_tool_calls u;
     ru_duplicate_call_rate := ru_duplicate_call_rate u;
     ru_seen_tool_call_fingerprints := ru_seen_tool_call_fingerprints u;
     ru_cost := ru_cost u; ru_cost_known := ru_cost_known u |}.
Definition set_total_descendants (n : Z) (u : ResourceUsage) : ResourceUsage :=
  {| ru_active_agents := ru_active_agents u; ru_concurrent_effects := ru_concurrent_effects u;
     ru_total_descendants := n; ru_turns := ru_turns u;
     ru_tokens := ru_tokens u; ru_uncached_input_tokens := ru_uncached_input_tokens u;
     ru_input_tokens := ru_input_tokens u; ru_output_tokens := ru_output_tokens u;
     ru_cache_creation_tokens := ru_cache_creation_tokens u;
     ru_cache_read_tokens := ru_cache_read_tokens u; ru_tool_calls := ru_tool_calls u;
     ru_useful_tool_calls := ru_useful_tool_calls u; ru_useful_call_rate := ru_useful_call_rate u;
     ru_duplicate_tool_calls := ru_duplicate_tool_calls u;
     ru_duplicate_call_rate := ru_duplicate_call_rate u;
     ru_seen_tool_call_fingerprints := ru_seen_tool_call_fingerprints u;
     ru_cost := ru_cost u; ru_cost_known := ru_cost_known u |}.
Definition set_fingerprints (f : gset string) (u : ResourceUsage) : ResourceUsage :=
  {| ru_active_agents := ru_active_agents u; ru_concurrent_effects := ru_concurrent_effects u;
     ru_total_descendants := ru_total_descendants u; ru_turns := ru_turns u;
     ru_tokens := ru_tokens u; ru_uncached_input_tokens := ru_uncached_input_tokens u;
     ru_input_tokens := ru_input_tokens u; ru_output_tokens := ru_output_tokens u;
     ru_cache_creation_tokens := ru_cache_creation_tokens u;
     ru_cache_read_tokens := ru_cache_read_tokens u; ru_tool_calls := ru_tool_calls u;
     ru_useful_tool_calls := ru_useful_tool_calls u; ru_useful_call_rate := ru_useful_call_rate u;
     ru_duplicate_tool_calls := ru_duplicate_tool_calls u;
     ru_duplicate_call_rate := ru_duplicate_call_rate u;
     ru_seen_tool_call_fingerprints := f;
     ru_cost := ru_cost u; ru_cost_known := ru_cost_known u |}.

Definition call_rate (part whole : Z) : option f64 :=
  if decide (whole = 0%Z) then None else Some (f64_div (f64_of_Z part) (f64_of_Z whole)).

Definition set_rates (useful duplicate : option f64) (u : ResourceUsage) : ResourceUsage :=
  {| ru_active_agents := ru_active_agents u; ru_concurrent_effects := ru_concurrent_effects u;
     ru_total_descendants := ru_total_descendants u; ru_turns := ru_turns u;
     ru_tokens := ru_tokens u; ru_uncached_input_tokens := ru_uncached_input_tokens u;
     ru_input_tokens := ru_input_tokens u; ru_output_tokens := ru_output_tokens u;
     ru_cache_creation_tokens := ru_cache_creation_tokens u;
     ru_cache_read_tokens := ru_cache_read_tokens u; ru_tool_calls := ru_tool_calls u;
     ru_useful_tool_calls := ru_useful_tool_calls u; ru_useful_call_rate := useful;
     ru_duplicate_tool_calls := ru_duplicate_tool_calls u;
     ru_duplicate_call_rate := duplicate;
     ru_seen_tool_call_fingerprints := ru_seen_tool_call_fingerprints u;
     ru_cost := ru_cost u; ru_cost_known := ru_cost_known u |}.

Definition refresh_useful_call_rate (u : ResourceUsage) : ResourceUsage :=
  set_rates (call_rate (ru_useful_tool_calls u) (ru_tool_calls u)) (ru_duplicate_call_rate u) u.
Definition refresh_duplicate_call_rate (u : ResourceUsage) : ResourceUsage :=
  set_rates (ru_useful_call_rate u) (call_rate (ru_duplicate_tool_calls u) (ru_tool_calls u)) u.

Definition usage_eqb (a b : ResourceUsage) : bool :=
  bool_decide (ru_active_agents a = ru_active_agents b) &&
  bool_decide (ru_concurrent_effects a = ru_concurrent_effects b) &&
  bool_decide (ru_total_descendants a = ru_total_descendants b) &&
  bool_decide (ru_turns a = ru_turns b) &&
  bool_decide (ru_tokens a = ru_tokens b) &&
  bool_decide (ru_uncached_input_tokens a = ru_uncached_input_tokens b) &&
  bool_decide (ru_input_tokens a = ru_input_tokens b) &&
  bool_decide (ru_output_tokens a = ru_output_tokens b) &&
  bool_decide (ru_cache_creation_tokens a = ru_cache_creation_tokens b) &&
  bool_decide (ru_cache_read_tokens a = ru_cache_read_tokens b) &&
  bool_decide (ru_tool_calls a = ru_tool_calls b) &&
  bool_decide (ru_useful_tool_calls a = ru_useful_tool_calls b) &&
  option_eqb f64_eqb (ru_useful_call_rate a) (ru_useful_call_rate b) &&
  bool_decide (ru_duplicate_tool_calls a = ru_duplicate_tool_calls b) &&
  option_eqb f64_eqb (ru_duplicate_call_rate a) (ru_duplicate_call_rate b) &&
  bool_decide (ru_seen_tool_call_fingerprints a = ru_seen_tool_call_fingerprints b) &&
  f64_eqb (ru_cost a) (ru_cost b) &&
  Bool.eqb (ru_cost_known a) (ru_cost_known b).

Record ProviderRateWindow : Type := {
  pw_started_at_unix_ms : Z;
  pw_requests : Z;
  pw_reserved_requests : Z;
  pw_tokens : Z;
  pw_reserved_tokens : Z;
  pw_unstarted_reserved_tokens : Z;
}.

#[export] Instance ProviderRateWindow_eq_dec : EqDecision ProviderRateWindow.
Proof. solve_decision. Defined.

Definition window_at (now : Z) : ProviderRateWindow :=
  {| pw_started_at_unix_ms := now; pw_requests := 0; pw_reserved_requests := 0; pw_tokens := 0;
     pw_reserved_tokens := 0; pw_unstarted_reserved_tokens := 0 |}.
Definition window_default : ProviderRateWindow := window_at 0.

(** ** Snapshots and deltas *)

Record ResourceStateSnapshot : Type := {
  rs_budget : ResourceBudget;
  rs_provider_signals : ProviderSignals;
  rs_usage : ResourceUsage;
  rs_deadline_unix_ms : option Z;
  rs_provider_rate : ProviderRateWindow;
  rs_applied_usage_effects : gset string;
}.

Definition state_eqb (a b : ResourceStateSnapshot) : bool :=
  budget_eqb (rs_budget a) (rs_budget b) &&
  signals_eqb (rs_provider_signals a) (rs_provider_signals b) &&
  usage_eqb (rs_usage a) (rs_usage b) &&
  bool_decide (rs_deadline_unix_ms a = rs_deadline_unix_ms b) &&
  bool_decide (rs_provider_rate a = rs_provider_rate b) &&
  bool_decide (rs_applied_usage_effects a = rs_applied_usage_effects b).

Definition set_usage (u : ResourceUsage) (s : ResourceStateSnapshot) : ResourceStateSnapshot :=
  {| rs_budget := rs_budget s; rs_provider_signals := rs_provider_signals s; rs_usage := u;
     rs_deadline_unix_ms := rs_deadline_unix_ms s; rs_provider_rate := rs_provider_rate s;
     rs_applied_usage_effects := rs_applied_usage_effects s |}.
Definition set_rate (w : ProviderRateWindow) (s : ResourceStateSnapshot) : ResourceStateSnapshot :=
  {| rs_budget := rs_budget s; rs_provider_signals := rs_provider_signals s;
     rs_usage := rs_usage s;
     rs_deadline_unix_ms := rs_deadline_unix_ms s; rs_provider_rate := w;
     rs_applied_usage_effects := rs_applied_usage_effects s |}.
Definition set_applied (a : gset string) (s : ResourceStateSnapshot) : ResourceStateSnapshot :=
  {| rs_budget := rs_budget s; rs_provider_signals := rs_provider_signals s;
     rs_usage := rs_usage s;
     rs_deadline_unix_ms := rs_deadline_unix_ms s; rs_provider_rate := rs_provider_rate s;
     rs_applied_usage_effects := a |}.
Definition set_signals (p : ProviderSignals) (s : ResourceStateSnapshot) : ResourceStateSnapshot :=
  {| rs_budget := rs_budget s; rs_provider_signals := p; rs_usage := rs_usage s;
     rs_deadline_unix_ms := rs_deadline_unix_ms s; rs_provider_rate := rs_provider_rate s;
     rs_applied_usage_effects := rs_applied_usage_effects s |}.

Record OptionalDeadline : Type := { od_value : option Z }.

Record ResourceStateDelta : Type := {
  dl_schema_version : Z;
  dl_budget : option ResourceBudget;
  dl_provider_signals : option ProviderSignals;
  dl_usage : option ResourceUsage;
  dl_deadline_unix_ms : option OptionalDeadline;
  dl_provider_rate : option ProviderRateWindow;
  dl_applied_usage_effects_added : list string;
  dl_seen_tool_call_fingerprints_added : list string;
}.

Definition RESOURCE_SNAPSHOT_INTERVAL : Z := 64.
Definition RESOURCE_CHECKPOINT_SCHEMA_VERSION : Z := 1.
Definition RESOURCE_DELTA_SCHEMA_VERSION : Z := 1.
Definition LEGACY_DEFAULT_MAX_SPAWN_DEPTH : Z := 8.
Definition LEGACY_DEFAULT_MAX_TOTAL_DESCENDANTS_PER_RUN : Z := 256.

(** The strings of a set in byte order: the iteration order of a [BTreeSet],
    and a collected [HashSet] after [sort]. *)
Definition sorted_strings (s : gset string) : list string := merge_sort String.le (elements s).

Definition then_some {A} (b : bool) (a : A) : option A := if b then Some a else None.

(** [ResourceStateDelta::between]: [None] when one of the two sets lost an
    element. *)
Definition between (before after : ResourceStateSnapshot) : option ResourceStateDelta :=
  if negb (bool_decide (rs_applied_usage_effects before ⊆ rs_applied_usage_effects after)) ||
     negb (bool_decide (ru_seen_tool_call_fingerprints (rs_usage before) ⊆
                        ru_seen_tool_call_fingerprints (rs_usage after)))
  then None else
  Some {|
    dl_schema_version := RESOURCE_DELTA_SCHEMA_VERSION;
    dl_budget := then_some (negb (budget_eqb (rs_budget before) (rs_budget after)))
                           (rs_budget after);
    dl_provider_signals :=
      then_some (negb (signals_eqb (rs_provider_signals before) (rs_provider_signals after)))
                (rs_provider_signals after);
    dl_usage := then_some (negb (usage_eqb (rs_usage before) (rs_usage after)))
                          (set_fingerprints ∅ (rs_usage after));
    dl_deadline_unix_ms :=
      then_some (negb (bool_decide (rs_deadline_unix_ms before = rs_deadline_unix_ms after)))
                {| od_value := rs_deadline_unix_ms after |};
    dl_provider_rate :=
      then_some (negb (bool_decide (rs_provider_rate before = rs_provider_rate after)))
                (rs_provider_rate after);
    dl_applied_usage_effects_added :=
      sorted_strings (rs_applied_usage_effects after ∖ rs_applied_usage_effects before);
    dl_seen_tool_call_fingerprints_added :=
      sorted_strings (ru_seen_tool_call_fingerprints (rs_usage after) ∖
                      ru_seen_tool_call_fingerprints (rs_usage before)) |}.

(** [ResourceStateDelta::apply]; [None] is an unsupported schema version. *)
Definition delta_apply (d : ResourceStateDelta) (s : ResourceStateSnapshot) :
    option ResourceStateSnapshot :=
  if negb (bool_decide (dl_schema_version d = RESOURCE_DELTA_SCHEMA_VERSION)) then None else
  let seen := ru_seen_tool_call_fingerprints (rs_usage s) in
  let usage :=
    match dl_usage d with
    | Some value => set_fingerprints seen value
    | None => rs_usage s
    end in
  Some {|
    rs_budget := default (rs_budget s) (dl_budget d);
    rs_provider_signals := default (rs_provider_signals s) (dl_provider_signals d);
    rs_usage :=
      set_fingerprints
        (ru_seen_tool_call_fingerprints usage ∪
         list_to_set (dl_seen_tool_call_fingerprints_added d)) usage;
    rs_deadline_unix_ms :=
      match dl_deadline_unix_ms d with
      | Some value => od_value value
      | None => rs_deadline_unix_ms s
      end;
    rs_provider_rate := default (rs_provider_rate s) (dl_provider_rate d);
    rs_applied_usage_effects :=
      rs_applied_usage_effects s ∪ list_to_set (dl_applied_usage_effects_added d) |}.

(** ** JSON form *)

(** An [Option] without [skip_serializing_if] is written as [null]. *)
Definition nullable {A} (enc : A → Value) (o : option A) : Value :=
  match o with Some a => enc a | None => VNull end.

(** A finite [f64] is a number, any other is written as [null]; an integer is
    accepted where an [f64] is expected. *)
Definition f64_to_value (f : f64) : Value :=
  if f64_is_finite f then VNumber (Float f) else VNull.
Definition f64_from_value (v : Value) : option f64 :=
  match v with
  | VNumber (Float f) => Some f
  | VNumber (PosInt n) | VNumber (NegInt n) => Some (f64_of_Z n)
  | _ => None
  end.

Definition strings_to_value (s : gset string) : Value := to_value (sorted_strings s).
Definition strings_from_value (v : Value) : option (gset string) :=
  list_to_set <$> (from_value v : option (list string)).

Definition budget_fields (b : ResourceBudget) : list (string * option Value) :=
  [("max_active_agents", Some (nullable uint_to_value (rb_max_active_agents b)));
   ("max_concurrent_effects", Some (nullable uint_to_value (rb_max_concurrent_effects b)));
   ("max_spawn_depth", Some (nullable uint_to_value (rb_max_spawn_depth b)));
   ("max_total_descendants_per_run",
      Some (nullable uint_to_value (rb_max_total_descendants_per_run b)));
   ("max_turns", Some (nullable uint_to_value (rb_max_turns b)));
   ("max_tokens", Some (nullable uint_to_value (rb_max_tokens b)));
   ("max_wall_time_ms", Some (nullable uint_to_value (rb_max_wall_time_ms b)));
   ("max_cost", Some (nullable f64_to_value (rb_max_cost b)));
   ("max_process_output_bytes",
      Some (nullable uint_to_value (rb_max_process_output_bytes b)))].

Definition read_uint_opt (k : string) (l : list (string * Value)) : option (option Z) :=
  read_opt (uint_from_value u64_max) k l.

Definition budget_from (v : Value) : option ResourceBudget :=
  l ← as_object v;
  active ← read_uint_opt "max_active_agents" l;
  effects ← read_uint_opt "max_concurrent_effects" l;
  depth ← read_uint_opt "max_spawn_depth" l;
  descendants ← read_uint_opt "max_total_descendants_per_run" l;
  turns ← read_uint_opt "max_turns" l;
  tokens ← read_uint_opt "max_tokens" l;
  wall ← read_uint_opt "max_wall_time_ms" l;
  cost ← read_opt f64_from_value "max_cost" l;
  output ← read_uint_opt "max_process_output_bytes" l;
  Some {| rb_max_active_agents := active; rb_max_concurrent_effects := effects;
          rb_max_spawn_depth := depth; rb_max_total_descendants_per_run := descendants;
          rb_max_turns := turns; rb_max_tokens := tokens; rb_max_wall_time_ms := wall;
          rb_max_cost := cost; rb_max_process_output_bytes := output |}.

Definition opt_ok {A} (P : A → Prop) (o : option A) : Prop :=
  match o with Some a => P a | None => True end.
Definition f64_fin (f : f64) : Prop := f64_is_finite f = true.

Definition budget_ok (b : ResourceBudget) : Prop :=
  opt_ok is_u64 (rb_max_active_agents b) ∧ opt_ok is_u64 (rb_max_concurrent_effects b) ∧
  opt_ok is_u64 (rb_max_spawn_depth b) ∧ opt_ok is_u64 (rb_max_total_descendants_per_run b) ∧
  opt_ok is_u64 (rb_max_turns b) ∧ opt_ok is_u64 (rb_max_tokens b) ∧
  opt_ok is_u64 (rb_max_wall_time_ms b) ∧ opt_ok f64_fin (rb_max_cost b) ∧
  opt_ok is_u64 (rb_max_process_output_bytes b).

Definition accounting_to_value (a : CacheTokenAccounting) : Value :=
  VString match a with
          | IncludedInInput => "included_in_input"
          | SeparateFromInput => "separate_from_input"
          end.
Definition accounting_from_value (v : Value) : option CacheTokenAccounting :=
  s ← as_str v;
  if decide (s = "included_in_input") then Some IncludedInInput else
  if decide (s = "separate_from_input") then Some SeparateFromInput else None.

Definition signals_fields (s : ProviderSignals) : list (string * option Value) :=
  [("concurrency_hint", Some (nullable uint_to_value (ps_concurrency_hint s)));
   ("requests_per_minute", Some (nullable uint_to_value (ps_requests_per_minute s)));
   ("tokens_per_minute", Some (nullable uint_to_value (ps_tokens_per_minute s)));
   ("cache_token_accounting", Some (nullable accounting_to_value (ps_cache_token_accounting s)));
   ("input_cost_per_million", Some (nullable f64_to_value (ps_input_cost_per_million s)));
   ("cache_read_cost_per_million",
      Some (nullable f64_to_value (ps_cache_read_cost_per_million s)));
   ("cache_write_cost_per_million",
      Some (nullable f64_to_value (ps_cache_write_cost_per_million s)));
   ("output_cost_per_million", Some (nullable f64_to_value (ps_output_cost_per_million s)))].

Definition signals_from (v : Value) : option ProviderSignals :=
  l ← as_object v;
  hint ← read_uint_opt "concurrency_hint" l;
  rpm ← read_uint_opt "requests_per_minute" l;
  tpm ← read_uint_opt "tokens_per_minute" l;
  accounting ← read_opt accounting_from_value "cache_token_accounting" l;
  input ← read_opt f64_from_value "input_cost_per_million" l;
  cread ← read_opt f64_from_value "cache_read_cost_per_million" l;
  cwrite ← read_opt f64_from_value "cache_write_cost_per_million" l;
  output ← read_opt f64_from_value "output_cost_per_million" l;
  Some {| ps_concurrency_hint := hint; ps_requests_per_minute := rpm;
          ps_tokens_per_minute := tpm; ps_cache_token_accounting := accounting;
          ps_input_cost_per_million := input; ps_cache_read_cost_per_million := cread;
          ps_cache_write_cost_per_million := cwrite; ps_output_cost_per_million := output |}.

Definition signals_ok (s : ProviderSignals) : Prop :=
  opt_ok is_u64 (ps_concurrency_hint s) ∧ opt_ok is_u64 (ps_requests_per_minute s) ∧
  opt_ok is_u64 (ps_tokens_per_minute s) ∧ opt_ok f64_fin (ps_input_cost_per_million s) ∧
  opt_ok f64_fin (ps_cache_read_cost_per_million s) ∧
  opt_ok f64_fin (ps_cache_write_cost_per_million s) ∧
  opt_ok f64_fin (ps_output_cost_per_million s).

Definition usage_fields (u : ResourceUsage) : list (string * option Value) :=
  [("active_agents", Some (uint_to_value (ru_active_agents u)));
   ("concurrent_effects", Some (uint_to_value (ru_concurrent_effects u)));
   ("total_descendants", Some (uint_to_value (ru_total_descendants u)));
   ("turns", Some (uint_to_value (ru_turns u)));
   ("tokens", Some (uint_to_value (ru_tokens u)));
   ("uncached_input_tokens", Some (uint_to_value (ru_uncached_input_tokens u)));
   ("input_tokens", Some (uint_to_value (ru_input_tokens u)));
   ("output_tokens", Some (uint_to_value (ru_output_tokens u)));
   ("cache_creation_tokens", Some (uint_to_value (ru_cache_creation_tokens u)));
   ("cache_read_tokens", Some (uint_to_value (ru_cache_read_tokens u)));
   ("tool_calls", Some (uint_to_value (ru_tool_calls u)));
   ("useful_tool_calls", Some (uint_to_value (ru_useful_tool_calls u)));
   ("useful_call_rate", f64_to_value <$> ru_useful_call_rate u);
   ("duplicate_tool_calls", Some (uint_to_value (ru_duplicate_tool_calls u)));
   ("duplicate_call_rate", f64_to_value <$> ru_duplicate_call_rate u);
   ("seen_tool_call_fingerprints",
      field_if (negb (bool_decide (ru_seen_tool_call_fingerprints u = ∅)))
               (strings_to_value (ru_seen_tool_call_fingerprints u)));
   ("cost", Some (f64_to_value (ru_cost u)));
   ("cost_known", Some (to_value (ru_cost_known u)))].

Definition read_uint (k : string) (l : list (string * Value)) : option Z :=
  read_default (uint_from_value u64_max) 0%Z k l.

(** [#[serde(default)]] on the struct: a missing member has its value in
    [ResourceUsage::default()]. *)
Definition usage_from (v : Value) : option ResourceUsage :=
  l ← as_object v;
  active ← read_uint "active_agents" l;
  effects ← read_uint "concurrent_effects" l;
  descendants ← read_uint "total_descendants" l;
  turns ← read_uint "turns" l;
  tokens ← read_uint "tokens" l;
  uncached ← read_uint "uncached_input_tokens" l;
  input ← read_uint "input_tokens" l;
  output ← read_uint "output_tokens" l;
  creation ← read_uint "cache_creation_tokens" l;
  cread ← read_uint "cache_read_tokens" l;
  calls ← read_uint "tool_calls" l;
  useful ← read_uint "useful_tool_calls" l;
  useful_rate ← read_opt f64_from_value "useful_call_rate" l;
  duplicates ← read_uint "duplicate_tool_calls" l;
  duplicate_rate ← read_opt f64_from_value "duplicate_call_rate" l;
  seen ← read_default strings_from_value ∅ "seen_tool_call_fingerprints" l;
  cost ← read_default f64_from_value f64_zero "cost" l;
  cost_known ← read_default from_value true "cost_known" l;
  Some {| ru_active_agents := active; ru_concurrent_effects := effects;
          ru_total_descendants := descendants; ru_turns := turns; ru_tokens := tokens;
          ru_uncached_input_tokens := uncached; ru_input_tokens := input;
          ru_output_tokens := output; ru_cache_creation_tokens := creation;
          ru_cache_read_tokens := cread; ru_tool_calls := calls;
          ru_useful_tool_calls := useful; ru_useful_call_rate := useful_rate;
          ru_duplicate_tool_calls := duplicates; ru_duplicate_call_rate := duplicate_rate;
          ru_seen_tool_call_fingerprints := seen; ru_cost := cost;
          ru_cost_known := cost_known |}.

Definition usage_ok (u : ResourceUsage) : Prop :=
  Forall is_u64
    [ru_active_agents u; ru_concurrent_effects u; ru_total_descendants u; ru_turns u;
     ru_tokens u; ru_uncached_input_tokens u; ru_input_tokens u; ru_output_tokens u;
     ru_cache_creation_tokens u; ru_cache_read_tokens u; ru_tool_calls u;
     ru_useful_tool_calls u; ru_duplicate_tool_calls u] ∧
  f64_fin (ru_cost u).

Definition window_fields (w : ProviderRateWindow) : list (string * option Value) :=
  [("started_at_unix_ms", Some (i64_to_value (pw_started_at_unix_ms w)));
   ("requests", Some (uint_to_value (pw_requests w)));
   ("reserved_requests", Some (uint_to_value (pw_reserved_requests w)));
   ("tokens", Some (uint_to_value (pw_tokens w)));
   ("reserved_tokens", Some (uint_to_value (pw_reserved_tokens w)));
   ("unstarted_reserved_tokens", Some (uint_to_value (pw_unstarted_reserved_tokens w)))].

Definition window_from (v : Value) : option ProviderRateWindow :=
  l ← as_object v;
  started ← read_default as_i64 0%Z "started_at_unix_ms" l;
  requests ← read_uint "requests" l;
  reserved ← read_uint "reserved_requests" l;
  tokens ← read_uint "tokens" l;
  reserved_tokens ← read_uint "reserved_tokens" l;
  unstarted ← read_uint "unstarted_reserved_tokens" l;
  Some {| pw_started_at_unix_ms := started; pw_requests := requests;
          pw_reserved_requests := reserved; pw_tokens := tokens;
          pw_reserved_tokens := reserved_tokens;
          pw_unstarted_reserved_tokens := unstarted |}.

Definition window_ok (w : ProviderRateWindow) : Prop :=
  is_i64 (pw_started_at_unix_ms w) ∧
  Forall is_u64 [pw_requests w; pw_reserved_requests w; pw_tokens w; pw_reserved_tokens w;
                 pw_unstarted_reserved_tokens w].

Definition state_ok (s : ResourceStateSnapshot) : Prop :=
  budget_ok (rs_budget s) ∧ signals_ok (rs_provider_signals s) ∧ usage_ok (rs_usage s) ∧
  opt_ok is_i64 (rs_deadline_unix_ms s) ∧ window_ok (rs_provider_rate s).

Definition deadline_to_value (d : OptionalDeadline) : Value :=
  VObject [("value", nullable i64_to_value (od_value d))].
Definition deadline_from_value (v : Value) : option OptionalDeadline :=
  l ← as_object v; value ← read_opt as_i64 "value" l; Some {| od_value := value |}.

Definition budget_to_value (b : ResourceBudget) : Value := VObject (fields_of (budget_fields b)).
Definition signals_to_value (s : ProviderSignals) : Value := VObject (fields_of (signals_fields s)).
Definition usage_to_value (u : ResourceUsage) : Value := VObject (fields_of (usage_fields u)).
Definition window_to_value (w : ProviderRateWindow) : Value := VObject (fields_of (window_fields w)).

Definition delta_fields (d : ResourceStateDelta) : list (string * option Value) :=
  [("schema_version", Some (uint_to_value (dl_schema_version d)));
   ("budget", budget_to_value <$> dl_budget d);
   ("provider_signals", signals_to_value <$> dl_provider_signals d);
   ("usage", usage_to_value <$> dl_usage d);
   ("deadline_unix_ms", deadline_to_value <$> dl_deadline_unix_ms d);
   ("provider_rate", window_to_value <$> dl_provider_rate d);
   ("applied_usage_effects_added",
      field_if (negb (bool_decide (dl_applied_usage_effects_added d = [])))
               (to_value (dl_applied_usage_effects_added d)));
   ("seen_tool_call_fingerprints_added",
      field_if (negb (bool_decide (dl_seen_tool_call_fingerprints_added d = [])))
               (to_value (dl_seen_tool_call_fingerprints_added d)))].
Definition delta_to_value (d : ResourceStateDelta) : Value := VObject (fields_of (delta_fields d)).

Definition delta_from (v : Value) : option ResourceStateDelta :=
  l ← as_object v;
  version ← read (uint_from_value u32_max) "schema_version" l;
  budget ← read_opt budget_from "budget" l;
  signals ← read_opt signals_from "provider_signals" l;
  usage ← read_opt usage_from "usage" l;
  deadline ← read_opt deadline_from_value "deadline_unix_ms" l;
  rate ← read_opt window_from "provider_rate" l;
  applied ← read_default from_value [] "applied_usage_effects_added" l;
  seen ← read_default from_value [] "seen_tool_call_fingerprints_added" l;
  Some {| dl_schema_version := version; dl_budget := budget; dl_provider_signals := signals;
          dl_usage := usage; dl_deadline_unix_ms := deadline; dl_provider_rate := rate;
          dl_applied_usage_effects_added := applied;
          dl_seen_tool_call_fingerprints_added := seen |}.

Definition delta_ok (d : ResourceStateDelta) : Prop :=
  (0 ≤ dl_schema_version d ≤ u32_max)%Z ∧ opt_ok budget_ok (dl_budget d) ∧
  opt_ok signals_ok (dl_provider_signals d) ∧ opt_ok usage_ok (dl_usage d) ∧
  opt_ok (λ v, opt_ok is_i64 (od_value v)) (dl_deadline_unix_ms d) ∧
  opt_ok window_ok (dl_provider_rate d).

(** [migrate_legacy_resource_budget_fields]: an object gets the two limits
    that older versions left out. *)
Definition entry_or_insert (k : string) (v : Value) (l : list (string * Value)) :
    list (string * Value) :=
  match assoc k l with Some _ => l | None => obj_insert k v l end.
Definition migrate_legacy_resource_budget_fields (v : Value) : Value :=
  match v with
  | VObject l =>
      VObject (entry_or_insert "max_total_descendants_per_run"
                 (uint_to_value LEGACY_DEFAULT_MAX_TOTAL_DESCENDANTS_PER_RUN)
                 (entry_or_insert "max_spawn_depth"
                    (uint_to_value LEGACY_DEFAULT_MAX_SPAWN_DEPTH) l))
  | _ => v
  end.

(** [value.get_mut(k)] followed by an update in place. *)
Fixpoint assoc_update (k : string) (f : Value → Value) (l : list (string * Value)) :
    list (string * Value) :=
  match l with
  | [] => []
  | (k', v) :: l => if decide (k = k') then (k', f v) :: l else (k', v) :: assoc_update k f l
  end.

Definition resource_budget_from_checkpoint (v : Value) (schema_version : Z) :
    option ResourceBudget :=
  budget_from (if decide (schema_version = 0%Z) then migrate_legacy_resource_budget_fields v else v).

Definition resource_state_delta_from_record (v : Value) : option ResourceStateDelta :=
  delta_from
    match v with
    | VObject l => VObject (assoc_update "budget" migrate_legacy_resource_budget_fields l)
    | _ => v
    end.

(** ** Round trips *)

Section read_members.
Context (l : list (string * option Value)) (Hnd : NoDup l.*1).

Lemma read_nullable {A} (enc : A → Value) dec k (o : option A) :
  assoc k l = Some (Some (nullable enc o)) →
  opt_ok (λ a, dec (enc a) = Some a ∧ enc a ≠ VNull) o →
  read_opt dec k (fields_of l) = Some o.
Proof.
  intros Hk Ho. unfold read_opt. rewrite assoc_fields_of, Hk by done. simpl.
  destruct o as [a|]; [|done]. destruct Ho as [Hrt Hn]. simpl. by destruct (enc a); rewrite ?Hrt.
Qed.

Lemma read_skipped {A} (enc : A → Value) dec k (o : option A) :
  assoc k l = Some (enc <$> o) →
  opt_ok (λ a, dec (enc a) = Some a ∧ enc a ≠ VNull) o →
  read_opt dec k (fields_of l) = Some o.
Proof.
  intros Hk Ho. unfold read_opt. rewrite assoc_fields_of, Hk by done.
  destruct o as [a|]; [|done]. destruct Ho as [Hrt Hn]. simpl. by destruct (enc a); rewrite ?Hrt.
Qed.

Lemma read_uint_fields k n :
  assoc k l = Some (Some (uint_to_value n)) → is_u64 n → read_uint k (fields_of l) = Some n.
Proof.
  intros Hk Hn. unfold read_uint, read_default. rewrite assoc_fields_of, Hk by done.
  by apply uint_roundtrip.
Qed.
End read_members.

Lemma opt_ok_impl {A} (P Q : A → Prop) o : (∀ a, P a → Q a) → opt_ok P o → opt_ok Q o.
Proof. destruct o; simpl; auto. Qed.

Lemma opt_ok_all {A} (P : A → Prop) o : (∀ a, P a) → opt_ok P o.
Proof. destruct o; simpl; auto. Qed.

Lemma uint_member n : is_u64 n → uint_from_value u64_max (uint_to_value n) = Some n ∧ uint_to_value n ≠ VNull.
Proof. split; [by apply uint_roundtrip|done]. Qed.

Lemma f64_member f : f64_fin f → f64_from_value (f64_to_value f) = Some f ∧ f64_to_value f ≠ VNull.
Proof. unfold f64_fin, f64_to_value. by intros ->. Qed.

Lemma i64_member n : is_i64 n → as_i64 (i64_to_value n) = Some n ∧ i64_to_value n ≠ VNull.
Proof. split; [by apply i64_roundtrip|]. unfold i64_to_value. by case_decide. Qed.

Lemma accounting_member a :
  accounting_from_value (accounting_to_value a) = Some a ∧ accounting_to_value a ≠ VNull.
Proof. by destruct a. Qed.

#[local] Hint Resolve uint_member f64_member i64_member accounting_member : mesh.

(** One member of a resource record. *)
Ltac resource_member :=
  eapply bind_Some_intro;
    [first [eapply read_uint_fields; [assumption|reflexivity|]
           |eapply read_nullable; [assumption|reflexivity|eapply opt_ok_impl; [|eassumption]; solve [eauto with mesh]]
           |eapply read_nullable; [assumption|reflexivity|apply opt_ok_all; solve [eauto with mesh]]
           |eapply read_skipped; [assumption|reflexivity|eapply opt_ok_impl; [|eassumption]; solve [eauto with mesh]]
           |serde_member; serde_solve];
     try eassumption|cbv beta].

Lemma budget_roundtrip b : budget_ok b → budget_from (budget_to_value b) = Some b.
Proof.
  intros (?&?&?&?&?&?&?&?&?). assert (NoDup (budget_fields b).*1) as Hnd by serde_keys.
  eapply bind_Some_intro; [reflexivity|]. repeat resource_member. by destruct b.
Qed.

Lemma signals_roundtrip s : signals_ok s → signals_from (signals_to_value s) = Some s.
Proof.
  intros (?&?&?&?&?&?&?). assert (NoDup (signals_fields s).*1) as Hnd by serde_keys.
  eapply bind_Some_intro; [reflexivity|]. repeat resource_member. by destruct s.
Qed.

Lemma window_roundtrip w : window_ok w → window_from (window_to_value w) = Some w.
Proof.
  intros [? Hw]. rewrite !Forall_cons in Hw. destruct Hw as (?&?&?&?&?&_).
  assert (NoDup (window_fields w).*1) as Hnd by serde_keys.
  eapply bind_Some_intro; [reflexivity|]. eapply bind_Some_intro.
  { eapply read_default_fields_always; [assumption|reflexivity|by apply i64_member]. }
  cbv beta. repeat resource_member. by destruct w.
Qed.

Lemma sorted_strings_set s : list_to_set (sorted_strings s) = s.
Proof.
  unfold sorted_strings. apply set_eq. intros x.
  by rewrite elem_of_list_to_set, merge_sort_Permutation, elem_of_elements.
Qed.

Lemma sorted_strings_nil s : sorted_strings s = [] ↔ s = ∅.
Proof.
  rewrite <-leibniz_equiv_iff, <-elements_empty_iff. unfold sorted_strings. split.
  - intros Hs. apply Permutation_nil_r. by rewrite <-(merge_sort_Permutation String.le), Hs.
  - by intros ->.
Qed.

Lemma strings_roundtrip s : strings_from_value (strings_to_value s) = Some s.
Proof.
  unfold strings_from_value, strings_to_value. rewrite from_to_value by (by apply Forall_true).
  simpl. by rewrite sorted_strings_set.
Qed.

(** A rate that is not finite is lost; recovery computes the rates again. *)
Definition json_rate (o : option f64) : option f64 :=
  f ← o; if f64_is_finite f then Some f else None.

Lemma read_rate (l : list (string * option Value)) k o :
  NoDup l.*1 → assoc k l = Some (f64_to_value <$> o) →
  read_opt f64_from_value k (fields_of l) = Some (json_rate o).
Proof.
  intros Hnd Hk. unfold read_opt. rewrite assoc_fields_of, Hk by done.
  destruct o as [f|]; [|done]. simpl. unfold f64_to_value. by destruct (f64_is_finite f).
Qed.

Lemma usage_roundtrip u :
  usage_ok u →
  usage_from (usage_to_value u) =
  Some (set_rates (json_rate (ru_useful_call_rate u)) (json_rate (ru_duplicate_call_rate u)) u).
Proof.
  intros (Hz&Hc). rewrite !Forall_cons in Hz. destruct Hz as (?&?&?&?&?&?&?&?&?&?&?&?&?&_).
  assert (NoDup (usage_fields u).*1) as Hnd by serde_keys.
  eapply bind_Some_intro; [reflexivity|].
  do 12 resource_member. eapply bind_Some_intro; [by eapply read_rate|]. cbv beta.
  resource_member. eapply bind_Some_intro; [by eapply read_rate|]. cbv beta.
  repeat resource_member.
  - intros _. apply strings_roundtrip.
  - intros Hs%negb_false_iff%bool_decide_eq_true. by rewrite Hs.
  - apply f64_member, Hc.
  - by destruct u.
Qed.

Lemma deadline_roundtrip d :
  opt_ok is_i64 (od_value d) → deadline_from_value (deadline_to_value d) = Some d.
Proof.
  destruct d as [[n|]]; simpl; intros Hn; [|done].
  unfold deadline_from_value, deadline_to_value. simpl. unfold read_opt. simpl.
  destruct (i64_member n Hn) as [Hrt Hnn]. by destruct (i64_to_value n); rewrite ?Hrt.
Qed.

(** The delta as it is read back: the rates of its usage as above. *)
Definition json_usage (u : ResourceUsage) : ResourceUsage :=
  set_rates (json_rate (ru_useful_call_rate u)) (json_rate (ru_duplicate_call_rate u)) u.
Definition json_delta (d : ResourceStateDelta) : ResourceStateDelta :=
  {| dl_schema_version := dl_schema_version d; dl_budget := dl_budget d;
     dl_provider_signals := dl_provider_signals d; dl_usage := json_usage <$> dl_usage d;
     dl_deadline_unix_ms := dl_deadline_unix_ms d; dl_provider_rate := dl_provider_rate d;
     dl_applied_usage_effects_added := dl_applied_usage_effects_added d;
     dl_seen_tool_call_fingerprints_added := dl_seen_tool_call_fingerprints_added d |}.

Lemma read_skipped_as {A} (enc : A → Value) dec (f : A → A) (l : list (string * option Value)) k o :
  NoDup l.*1 → assoc k l = Some (enc <$> o) →
  opt_ok (λ a, dec (enc a) = Some (f a) ∧ enc a ≠ VNull) o →
  read_opt dec k (fields_of l) = Some (f <$> o).
Proof.
  intros Hnd Hk Ho. unfold read_opt. rewrite assoc_fields_of, Hk by done.
  destruct o as [a|]; [|done]. destruct Ho as [Hrt Hn]. simpl. by destruct (enc a); rewrite ?Hrt.
Qed.

Lemma assoc_update_id k f l : (∀ v, assoc k l = Some v → f v = v) → assoc_update k f l = l.
Proof.
  induction l as [|[k' v] l IH]; simpl; [done|]. intros Hf. case_decide.
  - by rewrite Hf.
  - by rewrite IH.
Qed.

Lemma delta_from_roundtrip d : delta_ok d → delta_from (delta_to_value d) = Some (json_delta d).
Proof.
  intros (?&?&?&?&?&?). assert (NoDup (delta_fields d).*1) as Hnd by serde_keys.
  eapply bind_Some_intro; [reflexivity|].
  eapply bind_Some_intro; [eapply read_fields; [done|reflexivity|by apply uint_roundtrip]|cbv beta].
  eapply bind_Some_intro; [eapply read_skipped; [done|reflexivity|]|cbv beta].
  { eapply opt_ok_impl; [|eassumption]. intros. split; [by apply budget_roundtrip|done]. }
  eapply bind_Some_intro; [eapply read_skipped; [done|reflexivity|]|cbv beta].
  { eapply opt_ok_impl; [|eassumption]. intros. split; [by apply signals_roundtrip|done]. }
  eapply bind_Some_intro; [eapply (read_skipped_as _ _ json_usage); [done|reflexivity|]|cbv beta].
  { eapply opt_ok_impl; [|eassumption]. intros. split; [by apply usage_roundtrip|done]. }
  eapply bind_Some_intro; [eapply read_skipped; [done|reflexivity|]|cbv beta].
  { eapply opt_ok_impl; [|eassumption]. intros. split; [by apply deadline_roundtrip|done]. }
  eapply bind_Some_intro; [eapply read_skipped; [done|reflexivity|]|cbv beta].
  { eapply opt_ok_impl; [|eassumption]. intros. split; [by apply window_roundtrip|done]. }
  do 2 (eapply bind_Some_intro; [eapply read_default_fields; [done|reflexivity| |]|cbv beta];
    [intros _; apply from_to_value; by apply Forall_true
    |by intros Hz%negb_false_iff%bool_decide_eq_true|]).
  done.
Qed.

Lemma migrate_budget_id b : migrate_legacy_resource_budget_fields (budget_to_value b) = budget_to_value b.
Proof. done. Qed.

(** A delta this version wrote is read back; the migration of older budgets
    leaves it alone. *)
Lemma delta_record_roundtrip d :
  delta_ok d → resource_state_delta_from_record (delta_to_value d) = Some (json_delta d).
Proof.
  intros Hd. rewrite <-delta_from_roundtrip by done. unfold resource_state_delta_from_record.
  f_equal. unfold delta_to_value. f_equal. apply assoc_update_id. intros v.
  assert (NoDup (delta_fields d).*1) as Hnd by serde_keys.
  rewrite assoc_fields_of by done. simpl. destruct (dl_budget d); simpl; [|done].
  intros [= <-]. apply migrate_budget_id.
Qed.
