(* ===== verification/ResourceManager.v ===== *)
(** * The resource manager

    crates/solaris-agent/src/resource_manager.rs with its persistence
    (resource_manager/persistence.rs): budgets, permits for Agents and effects,
    the provider rate window, usage accounting, and the deltas and checkpoints
    written to the ledger.

    The locks of the code make every operation one atomic step on the manager
    and the ledger, so an operation is a function on the pair of the two.  The
    ledger is any implementation of the [Ledger] interface.  The clock, the
    ledger's time stamp and the elapsed time are read at most once per
    operation and are members of [Env].  Waking waiters and emitting events to
    subscribers are not modelled: they read the state and do not change it. *)
From S2P Require Import Prelude Json Types WorkflowTypes RuntimeLedger LedgerInterface.
From S2P Require Import ResourceTypes.

Definition DEFAULT_MAX_ACTIVE_AGENTS : Z := 8.
Definition MIN_DEFAULT_ACTIVE_AGENTS : Z := 2.
Definition MIN_ACTIVE_AGENTS : Z := 1.
Definition MAX_ACTIVE_AGENTS : Z := 64.

Definition clamp (lo hi x : Z) : Z :=
  if decide (x < lo)%Z then lo else if decide (hi < x)%Z then hi else x.

Record Env : Type := {
  ev_now : Z;
  ev_ledger_now : Z;
  ev_elapsed_ms : Z;
}.

(** The messages of the code, by their format and arguments. *)
Inductive ResourceError (E : Type) : Type :=
  | LedgerFailure (e : E)
  | CheckpointPersistenceFailed (e : ResourceError E)
  | DeltaWithoutCheckpoint
  | SchemaVersionNotU32
  | UnsupportedCheckpointVersion (version : Z)
  | InvalidBudgetCheckpoint
  | InvalidSignalsCheckpoint
  | InvalidUsageCheckpoint
  | InvalidDeadlineCheckpoint
  | InvalidRateCheckpoint
  | InvalidDelta
  | UnsupportedDeltaVersion
  | RequestRateExhausted (used limit : Z)
  | TokenRateExhausted (used limit : Z)
  | RequestRateExhaustedStarting
  | TokenRateExhaustedStarting
  | ReservationInactive
  | StartInactive.
Arguments LedgerFailure {E}.
Arguments CheckpointPersistenceFailed {E}.
Arguments DeltaWithoutCheckpoint {E}.
Arguments SchemaVersionNotU32 {E}.
Arguments UnsupportedCheckpointVersion {E}.
Arguments InvalidBudgetCheckpoint {E}.
Arguments InvalidSignalsCheckpoint {E}.
Arguments InvalidUsageCheckpoint {E}.
Arguments InvalidDeadlineCheckpoint {E}.
Arguments InvalidRateCheckpoint {E}.
Arguments InvalidDelta {E}.
Arguments UnsupportedDeltaVersion {E}.
Arguments RequestRateExhausted {E}.
Arguments TokenRateExhausted {E}.
Arguments RequestRateExhaustedStarting {E}.
Arguments TokenRateExhaustedStarting {E}.
Arguments ReservationInactive {E}.
Arguments StartInactive {E}.

(** Why an Agent or an effect is refused for good. *)
Inductive BlockReason (E : Type) : Type :=
  | CheckpointFailed (e : ResourceError E)
  | TurnsExhausted (used limit : Z)
  | WallTimeExhausted (deadline : Z)
  | TokensExhausted (used limit : Z)
  | CostUnknown
  | CostExhausted (used limit : f64)
  | DescendantsExhausted (used limit : Z)
  | DescendantCounterExhausted
  | SpawnDepthExceeded (depth limit : Z).
Arguments CheckpointFailed {E}.
Arguments TurnsExhausted {E}.
Arguments WallTimeExhausted {E}.
Arguments TokensExhausted {E}.
Arguments CostUnknown {E}.
Arguments CostExhausted {E}.
Arguments DescendantsExhausted {E}.
Arguments DescendantCounterExhausted {E}.
Arguments SpawnDepthExceeded {E}.

(** The members of [ResourceManager] that [ResourceStateSnapshot] copies are
    [rm_state]; [rm_persistence] is the Run whose ledger is attached. *)
Record ResourceManager (E : Type) : Type := {
  rm_state : ResourceStateSnapshot;
  rm_system_parallelism_hint : Z;
  rm_persistence : option RunId;
  rm_persistence_error : option (ResourceError E);
  rm_resource_deltas_since_snapshot : Z;
}.
Arguments rm_state {E}.
Arguments rm_system_parallelism_hint {E}.
Arguments rm_persistence {E}.
Arguments rm_persistence_error {E}.
Arguments rm_resource_deltas_since_snapshot {E}.

Inductive ProviderRatePermitState : Type := Reserved | Started | Completed.

#[export] Instance ProviderRatePermitState_eq_dec : EqDecision ProviderRatePermitState.
Proof. solve_decision. Defined.

Record ProviderRatePermit : Type := {
  pp_reserved_tokens : Z;
  pp_window_started_at_unix_ms : Z;
  pp_state : ProviderRatePermitState;
}.

Section manager.
Context {L E : Type} `{!Ledger L E}.

Notation Manager := (ResourceManager E).
Notation RError := (ResourceError E).

Definition set_state (s : ResourceStateSnapshot) (m : Manager) : Manager :=
  {| rm_state := s; rm_system_parallelism_hint := rm_system_parallelism_hint m;
     rm_persistence := rm_persistence m; rm_persistence_error := rm_persistence_error m;
     rm_resource_deltas_since_snapshot := rm_resource_deltas_since_snapshot m |}.
Definition set_delta_count (n : Z) (m : Manager) : Manager :=
  {| rm_state := rm_state m; rm_system_parallelism_hint := rm_system_parallelism_hint m;
     rm_persistence := rm_persistence m; rm_persistence_error := rm_persistence_error m;
     rm_resource_deltas_since_snapshot := n |}.
Definition set_persistence (run : RunId) (m : Manager) : Manager :=
  {| rm_state := rm_state m; rm_system_parallelism_hint := rm_system_parallelism_hint m;
     rm_persistence := Some run; rm_persistence_error := rm_persistence_error m;
     rm_resource_deltas_since_snapshot := rm_resource_deltas_since_snapshot m |}.

(** Only the first error is kept. *)
Definition record_persistence_error (e : RError) (m : Manager) : Manager :=
  {| rm_state := rm_state m; rm_system_parallelism_hint := rm_system_parallelism_hint m;
     rm_persistence := rm_persistence m;
     rm_persistence_error :=
       match rm_persistence_error m with Some e' => Some e' | None => Some e end;
     rm_resource_deltas_since_snapshot := rm_resource_deltas_since_snapshot m |}.

Definition deadline_for (now : Z) (b : ResourceBudget) : option Z :=
  (λ limit, i64_saturating_add now (if decide (limit ≤ i64_max)%Z then limit else i64_max)) <$>
  rb_max_wall_time_ms b.

Definition new_with_clock_and_parallelism_hint (budget : ResourceBudget) (now hint : Z) : Manager :=
  {| rm_state :=
       {| rs_budget := budget; rs_provider_signals := signals_default; rs_usage := usage_default;
          rs_deadline_unix_ms := deadline_for now budget; rs_provider_rate := window_default;
          rs_applied_usage_effects := ∅ |};
     rm_system_parallelism_hint := Z.max hint 1;
     rm_persistence := None; rm_persistence_error := None;
     rm_resource_deltas_since_snapshot := 0 |}.

Definition effective_agent_limit (m : Manager) : Z :=
  match rb_max_active_agents (rs_budget (rm_state m)) with
  | None => clamp MIN_DEFAULT_ACTIVE_AGENTS DEFAULT_MAX_ACTIVE_AGENTS (rm_system_parallelism_hint m)
  | Some limit => clamp MIN_ACTIVE_AGENTS MAX_ACTIVE_AGENTS limit
  end.

Definition scheduling_parallelism_hint (m : Manager) : Z :=
  match ps_concurrency_hint (rs_provider_signals (rm_state m)) with
  | None => Z.max (rm_system_parallelism_hint m) 1
  | Some hint => Z.min (Z.max (rm_system_parallelism_hint m) 1) (Z.max hint 1)
  end.

(** ** Writing to the ledger *)

Definition append_record (env : Env) (run : RunId) (l : L) (record_type : string) (payload : Value) :
    L * result unit RError :=
  match lg_append l (ev_ledger_now env) run SyncCritical record_type payload with
  | (l, Ok _) => (l, Ok tt)
  | (l, Err e) => (l, Err (LedgerFailure e))
  end.

Definition snapshot_payload (env : Env) (m : Manager) : Value :=
  VObject
    [("schema_version", uint_to_value RESOURCE_CHECKPOINT_SCHEMA_VERSION);
     ("budget", budget_to_value (rs_budget (rm_state m)));
     ("usage", usage_to_value (rs_usage (rm_state m)));
     ("effective_agent_limit", uint_to_value (effective_agent_limit m));
     ("provider_signals", signals_to_value (rs_provider_signals (rm_state m)));
     ("elapsed_ms", uint_to_value (ev_elapsed_ms env));
     ("deadline_unix_ms", nullable i64_to_value (rs_deadline_unix_ms (rm_state m)));
     ("provider_rate", window_to_value (rs_provider_rate (rm_state m)))].

Definition append_snapshot (env : Env) (m : Manager) (run : RunId) (l : L) : L * result unit RError :=
  append_record env run l "resource_usage_checkpoint" (snapshot_payload env m).

(** The manager is already in the state [after]. *)
Definition persist_state_change_locked (env : Env) (m : Manager) (l : L)
    (before after : ResourceStateSnapshot) : Manager * L * result unit RError :=
  match rm_persistence m with
  | None => (m, l, Ok tt)
  | Some run =>
      if state_eqb before after then (m, l, Ok tt) else
      let next_count := saturating_add (rm_resource_deltas_since_snapshot m) 1 in
      let snapshot :=
        match append_snapshot env m run l with
        | (l, Ok _) => (set_delta_count 0 m, l, Ok tt)
        | (l, Err e) => (m, l, Err e)
        end in
      match between before after with
      | Some delta =>
          if decide (next_count < RESOURCE_SNAPSHOT_INTERVAL)%Z then
            match append_record env run l "resource_usage_delta" (delta_to_value delta) with
            | (l, Ok _) => (set_delta_count next_count m, l, Ok tt)
            | (l, Err e) => (m, l, Err e)
            end
          else snapshot
      | None => snapshot
      end
  end.

Definition persist_snapshot_locked (env : Env) (m : Manager) (l : L) : Manager * L * result unit RError :=
  match rm_persistence m with
  | None => (m, l, Ok tt)
  | Some run =>
      match append_snapshot env m run l with
      | (l, Ok _) => (set_delta_count 0 m, l, Ok tt)
      | (l, Err e) => (m, l, Err e)
      end
  end.

(** ** Transactions *)

Definition with_state_update {R} (env : Env) (m : Manager) (l : L)
    (update : ResourceStateSnapshot → ResourceStateSnapshot * (R * bool)) :
    Manager * L * result R RError :=
  let before := rm_state m in
  match update before with
  | (after, (r, changed)) =>
      let m' := set_state after m in
      if changed then
        match persist_state_change_locked env m' l before after with
        | (m', l, Ok _) => (m', l, Ok r)
        | (m', l, Err e) =>
            (record_persistence_error e (set_state before m'), l,
             Err (CheckpointPersistenceFailed e))
        end
      else (m', l, Ok r)
  end.

Definition set_budget (env : Env) (m : Manager) (l : L) (budget : ResourceBudget) :
    Manager * L * result unit RError :=
  with_state_update env m l (λ s,
    ({| rs_budget := budget; rs_provider_signals := rs_provider_signals s; rs_usage := rs_usage s;
        rs_deadline_unix_ms :=
          if decide (rb_max_wall_time_ms (rs_budget s) = rb_max_wall_time_ms budget)
          then rs_deadline_unix_ms s else deadline_for (ev_now env) budget;
        rs_provider_rate := rs_provider_rate s;
        rs_applied_usage_effects := rs_applied_usage_effects s |}, (tt, true))).

Definition set_provider_signals (env : Env) (m : Manager) (l : L) (signals : ProviderSignals) :
    Manager * L :=
  (with_state_update env m l (λ s, (set_signals signals s, (tt, true)))).1.

(** ** Admission *)

Definition is_some_and {A} (o : option A) (p : A → bool) : bool :=
  match o with Some a => p a | None => false end.
Definition is_none_or {A} (o : option A) (p : A → bool) : bool :=
  match o with Some a => p a | None => true end.

Definition hard_runtime_budget_reason (env : Env) (m : Manager) : option (BlockReason E) :=
  let budget := rs_budget (rm_state m) in
  let usage := rs_usage (rm_state m) in
  match rm_persistence_error m with Some e => Some (CheckpointFailed e) | None =>
  match rb_max_turns budget with
  | Some limit =>
      if decide (limit ≤ ru_turns usage)%Z then Some (TurnsExhausted (ru_turns usage) limit) else None
  | None => None
  end ∪
  match rs_deadline_unix_ms (rm_state m) with
  | Some deadline =>
      if decide (deadline ≤ ev_now env)%Z then Some (WallTimeExhausted deadline) else None
  | None => None
  end ∪
  match rb_max_tokens budget with
  | Some limit =>
      if decide (limit ≤ ru_tokens usage)%Z then Some (TokensExhausted (ru_tokens usage) limit) else None
  | None => None
  end ∪
  match rb_max_cost budget with
  | Some limit =>
      if negb (ru_cost_known usage) then Some CostUnknown
      else if f64_leb limit (ru_cost usage) then Some (CostExhausted (ru_cost usage) limit) else None
  | None => None
  end
  end.

Definition spawn_depth_block_reason (m : Manager) (depth : Z) : option (BlockReason E) :=
  match rb_max_spawn_depth (rs_budget (rm_state m)) with
  | Some limit => if decide (limit < depth)%Z then Some (SpawnDepthExceeded depth limit) else None
  | None => None
  end.

Definition hard_agent_block_reason (env : Env) (m : Manager) (depth : Z) : option (BlockReason E) :=
  let usage := rs_usage (rm_state m) in
  match spawn_depth_block_reason m depth with Some r => Some r | None =>
  match rb_max_total_descendants_per_run (rs_budget (rm_state m)) with
  | Some limit =>
      if decide (limit ≤ ru_total_descendants usage)%Z
      then Some (DescendantsExhausted (ru_total_descendants usage) limit) else None
  | None => None
  end ∪
  (if decide (ru_total_descendants usage = usize_max) then Some DescendantCounterExhausted
   else hard_runtime_budget_reason env m)
  end.

Definition hard_reattached_agent_block_reason (env : Env) (m : Manager) (depth : Z) :
    option (BlockReason E) :=
  spawn_depth_block_reason m depth ∪ hard_runtime_budget_reason env m.

(** An [AgentResourcePermit] is returned exactly when the boolean is true. *)
Definition try_acquire_agent (env : Env) (m : Manager) (l : L) (depth : Z) : Manager * L * bool :=
  match
    with_state_update env m l (λ s,
      let usage := rs_usage s in
      if bool_decide (is_Some (hard_agent_block_reason env m depth)) then (s, (false, false)) else
      if decide (effective_agent_limit m ≤ ru_active_agents usage)%Z then (s, (false, false)) else
      match checked_add (ru_total_descendants usage) 1 with
      | None => (s, (false, false))
      | Some total_descendants =>
          (set_usage (set_total_descendants total_descendants
                        (set_active_agents (ru_active_agents usage + 1)%Z usage)) s,
           (true, true))
      end)
  with
  | (m, l, Ok admitted) => (m, l, admitted)
  | (m, l, Err _) => (m, l, false)
  end.

Definition try_acquire_reattached_agent (env : Env) (m : Manager) (depth : Z) : Manager * bool :=
  let s := rm_state m in
  if bool_decide (is_Some (hard_reattached_agent_block_reason env m depth)) then (m, false) else
  if decide (effective_agent_limit m ≤ ru_active_agents (rs_usage s))%Z then (m, false) else
  (set_state (set_usage (set_active_agents (ru_active_agents (rs_usage s) + 1)%Z (rs_usage s)) s) m,
   true).

Definition try_acquire_effect (env : Env) (m : Manager) : Manager * bool :=
  let s := rm_state m in
  if bool_decide (is_Some (hard_runtime_budget_reason env m)) then (m, false) else
  if is_some_and (rb_max_concurrent_effects (rs_budget s))
       (λ limit, bool_decide (Z.max limit 1 ≤ ru_concurrent_effects (rs_usage s))%Z)
  then (m, false) else
  (set_state (set_usage (set_concurrent_effects (ru_concurrent_effects (rs_usage s) + 1)%Z
                           (rs_usage s)) s) m, true).

(** One round of the loop of [acquire_agent]: a permit, a refusal, or the
    caller waits.  The second reading of the clock is [env']. *)
Inductive Poll (E : Type) : Type :=
  | Granted
  | Refused (reason : BlockReason E)
  | Waiting.
Arguments Granted {E}.
Arguments Refused {E}.
Arguments Waiting {E}.

Definition acquire_agent (env env' : Env) (m : Manager) (l : L) (depth : Z) : Manager * L * Poll E :=
  match try_acquire_agent env m l depth with
  | (m, l, true) => (m, l, Granted)
  | (m, l, false) =>
      (m, l, match hard_agent_block_reason env' m depth with Some r => Refused r | None => Waiting end)
  end.

Definition acquire_reattached_agent (env env' : Env) (m : Manager) (depth : Z) : Manager * Poll E :=
  match try_acquire_reattached_agent env m depth with
  | (m, true) => (m, Granted)
  | (m, false) =>
      (m, match hard_reattached_agent_block_reason env' m depth with
          | Some r => Refused r | None => Waiting end)
  end.

Definition acquire_effect (env env' : Env) (m : Manager) : Manager * Poll E :=
  match try_acquire_effect env m with
  | (m, true) => (m, Granted)
  | (m, false) =>
      (m, match hard_runtime_budget_reason env' m with Some r => Refused r | None => Waiting end)
  end.

(** How long a round of [wait_for_change_or_deadline] waits at most. *)
Definition wait_for_change_or_deadline (env : Env) (m : Manager) : option Z :=
  (λ deadline, Z.min (Z.max (i64_saturating_sub deadline (ev_now env)) 0) 86400000) <$>
  rs_deadline_unix_ms (rm_state m).

Definition release_agent (m : Manager) : Manager :=
  let s := rm_state m in
  set_state (set_usage (set_active_agents (saturating_sub (ru_active_agents (rs_usage s)) 1)
                          (rs_usage s)) s) m.

Definition release_effect (m : Manager) : Manager :=
  let s := rm_state m in
  set_state (set_usage (set_concurrent_effects (saturating_sub (ru_concurrent_effects (rs_usage s)) 1)
                          (rs_usage s)) s) m.

(** ** The provider rate window *)

Definition window_expired (now : Z) (w : ProviderRateWindow) : bool :=
  bool_decide (pw_started_at_unix_ms w = 0%Z) ||
  bool_decide (60000 ≤ i64_saturating_sub now (pw_started_at_unix_ms w))%Z.

Definition request_limit_reached (signals : ProviderSignals) (w : ProviderRateWindow) : bool :=
  is_some_and (ps_requests_per_minute signals)
    (λ limit, bool_decide (limit ≤ saturating_add (pw_requests w) (pw_reserved_requests w))%Z).
Definition token_limit_exceeded (signals : ProviderSignals) (w : ProviderRateWindow) (tokens : Z) :
    bool :=
  is_some_and (ps_tokens_per_minute signals)
    (λ limit, bool_decide (limit < saturating_add (pw_tokens w) tokens)%Z).

(** [.and_then(|result| result)]. *)
Definition flatten {A} (c : Manager * L * result (result A RError) RError) :
    Manager * L * result A RError :=
  match c with
  | (m, l, Ok r) => (m, l, r)
  | (m, l, Err e) => (m, l, Err e)
  end.

Definition acquire_provider_request (env : Env) (m : Manager) (l : L) (estimated_tokens : Z) :
    Manager * L * result ProviderRatePermit RError :=
  match
    flatten (with_state_update env m l (λ s,
      let signals := rs_provider_signals s in
      let changed := window_expired (ev_now env) (rs_provider_rate s) in
      let w := if changed then window_at (ev_now env) else rs_provider_rate s in
      if request_limit_reached signals w then
        (set_rate w s,
         (Err (RequestRateExhausted (saturating_add (pw_requests w) (pw_reserved_requests w))
                 (default 0%Z (ps_requests_per_minute signals))), changed)) else
      if token_limit_exceeded signals w estimated_tokens then
        (set_rate w s,
         (Err (TokenRateExhausted (pw_tokens w) (default 0%Z (ps_tokens_per_minute signals))),
          changed)) else
      (set_rate
         {| pw_started_at_unix_ms := pw_started_at_unix_ms w; pw_requests := pw_requests w;
            pw_reserved_requests := saturating_add (pw_reserved_requests w) 1;
            pw_tokens := saturating_add (pw_tokens w) estimated_tokens;
            pw_reserved_tokens := saturating_add (pw_reserved_tokens w) estimated_tokens;
            pw_unstarted_reserved_tokens :=
              saturating_add (pw_unstarted_reserved_tokens w) estimated_tokens |} s,
       (Ok (pw_started_at_unix_ms w), true))))
  with
  | (m, l, Ok started) =>
      (m, l, Ok {| pp_reserved_tokens := estimated_tokens;
                   pp_window_started_at_unix_ms := started; pp_state := Reserved |})
  | (m, l, Err e) => (m, l, Err e)
  end.

Definition mark_provider_request_started (env : Env) (m : Manager) (l : L)
    (reserved_tokens reserved_window : Z) : Manager * L * result Z RError :=
  flatten (with_state_update env m l (λ s,
    let signals := rs_provider_signals s in
    let w := if window_expired (ev_now env) (rs_provider_rate s) then window_at (ev_now env)
             else rs_provider_rate s in
    if negb (bool_decide (pw_started_at_unix_ms w = reserved_window)) then
      if request_limit_reached signals w then
        (set_rate w s, (Err RequestRateExhaustedStarting, true)) else
      if token_limit_exceeded signals w reserved_tokens then
        (set_rate w s, (Err TokenRateExhaustedStarting, true)) else
      (set_rate
         {| pw_started_at_unix_ms := pw_started_at_unix_ms w;
            pw_requests := saturating_add (pw_requests w) 1;
            pw_reserved_requests := pw_reserved_requests w;
            pw_tokens := saturating_add (pw_tokens w) reserved_tokens;
            pw_reserved_tokens := saturating_add (pw_reserved_tokens w) reserved_tokens;
            pw_unstarted_reserved_tokens := pw_unstarted_reserved_tokens w |} s,
       (Ok (pw_started_at_unix_ms w), true))
    else
    if bool_decide (pw_reserved_requests w = 0%Z) ||
       bool_decide (pw_unstarted_reserved_tokens w < reserved_tokens)%Z
    then (set_rate w s, (Err ReservationInactive, false)) else
    (set_rate
       {| pw_started_at_unix_ms := pw_started_at_unix_ms w;
          pw_requests := saturating_add (pw_requests w) 1;
          pw_reserved_requests := (pw_reserved_requests w - 1)%Z;
          pw_tokens := pw_tokens w;
          pw_reserved_tokens := pw_reserved_tokens w;
          pw_unstarted_reserved_tokens := (pw_unstarted_reserved_tokens w - reserved_tokens)%Z |} s,
     (Ok (pw_started_at_unix_ms w), true)))).

Definition rollback_provider_request_start (env : Env) (m : Manager) (l : L)
    (reserved_tokens window_started : Z) : Manager * L * result unit RError :=
  flatten (with_state_update env m l (λ s,
    let w := rs_provider_rate s in
    if negb (bool_decide (pw_started_at_unix_ms w = window_started)) then (s, (Ok tt, false)) else
    if decide (pw_requests w = 0%Z) then (s, (Err StartInactive, false)) else
    (set_rate
       {| pw_started_at_unix_ms := pw_started_at_unix_ms w;
          pw_requests := (pw_requests w - 1)%Z;
          pw_reserved_requests := saturating_add (pw_reserved_requests w) 1;
          pw_tokens := pw_tokens w;
          pw_reserved_tokens := pw_reserved_tokens w;
          pw_unstarted_reserved_tokens :=
            saturating_add (pw_unstarted_reserved_tokens w) reserved_tokens |} s,
     (Ok tt, true)))).

Definition commit_provider_tokens (env : Env) (m : Manager) (l : L)
    (reserved_tokens actual_tokens window_started : Z) : Manager * L * result unit RError :=
  with_state_update env m l (λ s,
    let w := rs_provider_rate s in
    if negb (bool_decide (pw_started_at_unix_ms w = window_started)) then (s, (tt, false)) else
    (set_rate
       {| pw_started_at_unix_ms := pw_started_at_unix_ms w;
          pw_requests := pw_requests w;
          pw_reserved_requests := pw_reserved_requests w;
          pw_tokens := saturating_add (saturating_sub (pw_tokens w) reserved_tokens) actual_tokens;
          pw_reserved_tokens := saturating_sub (pw_reserved_tokens w) reserved_tokens;
          pw_unstarted_reserved_tokens := pw_unstarted_reserved_tokens w |} s,
     (tt, true))).

Definition release_provider_tokens (env : Env) (m : Manager) (l : L)
    (reserved_tokens window_started : Z) : Manager * L :=
  (with_state_update env m l (λ s,
    let w := rs_provider_rate s in
    if negb (bool_decide (pw_started_at_unix_ms w = window_started)) then (s, (tt, false)) else
    (set_rate
       {| pw_started_at_unix_ms := pw_started_at_unix_ms w;
          pw_requests := pw_requests w;
          pw_reserved_requests := pw_reserved_requests w;
          pw_tokens := saturating_sub (pw_tokens w) reserved_tokens;
          pw_reserved_tokens := saturating_sub (pw_reserved_tokens w) reserved_tokens;
          pw_unstarted_reserved_tokens := pw_unstarted_reserved_tokens w |} s,
     (tt, true)))).1.

Definition release_provider_reservation (env : Env) (m : Manager) (l : L)
    (reserved_tokens window_started : Z) : Manager * L :=
  (with_state_update env m l (λ s,
    let w := rs_provider_rate s in
    if negb (bool_decide (pw_started_at_unix_ms w = window_started)) then (s, (tt, false)) else
    (set_rate
       {| pw_started_at_unix_ms := pw_started_at_unix_ms w;
          pw_requests := pw_requests w;
          pw_reserved_requests := saturating_sub (pw_reserved_requests w) 1;
          pw_tokens := saturating_sub (pw_tokens w) reserved_tokens;
          pw_reserved_tokens := saturating_sub (pw_reserved_tokens w) reserved_tokens;
          pw_unstarted_reserved_tokens :=
            saturating_sub (pw_unstarted_reserved_tokens w) reserved_tokens |} s,
     (tt, true)))).1.

(** The methods of [ProviderRatePermit]. *)
Definition mark_started (env : Env) (m : Manager) (l : L) (p : ProviderRatePermit) :
    Manager * L * (ProviderRatePermit * result unit RError) :=
  match pp_state p with
  | Reserved =>
      match mark_provider_request_started env m l (pp_reserved_tokens p)
              (pp_window_started_at_unix_ms p) with
      | (m, l, Ok started) =>
          (m, l, ({| pp_reserved_tokens := pp_reserved_tokens p;
                     pp_window_started_at_unix_ms := started; pp_state := Started |}, Ok tt))
      | (m, l, Err e) => (m, l, (p, Err e))
      end
  | _ => (m, l, (p, Ok tt))
  end.

Definition rollback_start (env : Env) (m : Manager) (l : L) (p : ProviderRatePermit) :
    Manager * L * (ProviderRatePermit * result unit RError) :=
  match pp_state p with
  | Started =>
      match rollback_provider_request_start env m l (pp_reserved_tokens p)
              (pp_window_started_at_unix_ms p) with
      | (m, l, Ok _) =>
          (m, l, ({| pp_reserved_tokens := pp_reserved_tokens p;
                     pp_window_started_at_unix_ms := pp_window_started_at_unix_ms p;
                     pp_state := Reserved |}, Ok tt))
      | (m, l, Err e) => (m, l, (p, Err e))
      end
  | _ => (m, l, (p, Ok tt))
  end.

Definition drop_permit (env : Env) (m : Manager) (l : L) (p : ProviderRatePermit) : Manager * L :=
  match pp_state p with
  | Reserved => release_provider_reservation env m l (pp_reserved_tokens p)
                  (pp_window_started_at_unix_ms p)
  | Started => release_provider_tokens env m l (pp_reserved_tokens p)
                 (pp_window_started_at_unix_ms p)
  | Completed => (m, l)
  end.

(** [commit] consumes the permit: an early return drops it.  The clock is
    read by each of the up to three steps. *)
Definition commit (env1 env2 env3 : Env) (m : Manager) (l : L) (p : ProviderRatePermit)
    (actual_tokens : Z) : Manager * L * result unit RError :=
  match mark_started env1 m l p with
  | (m, l, (p, Err e)) => (drop_permit env3 m l p, Err e)
  | (m, l, (p, Ok _)) =>
      match commit_provider_tokens env2 m l (pp_reserved_tokens p) actual_tokens
              (pp_window_started_at_unix_ms p) with
      | (m, l, Err e) => (drop_permit env3 m l p, Err e)
      | (m, l, Ok _) => (m, l, Ok tt)
      end
  end.

(** ** Usage *)

(** [1e-12_f64]. *)
Definition f64_1e_12 : f64 := S754_finite false 4951760157141521 (-92).
Definition cost_epsilon (limit : f64) : f64 :=
  f64_max f64_1e_12 (f64_mul (f64_abs limit) f64_1e_12).

Definition add_model_usage (signals : ProviderSignals) (usage : TokenUsage) (count_turn : bool)
    (u : ResourceUsage) : ResourceUsage :=
  let categorized := categorize_usage signals usage in
  {| ru_active_agents := ru_active_agents u; ru_concurrent_effects := ru_concurrent_effects u;
     ru_total_descendants := ru_total_descendants u;
     ru_turns := if count_turn then saturating_add (ru_turns u) 1 else ru_turns u;
     ru_tokens := saturating_add (ru_tokens u) (total_tokens categorized);
     ru_uncached_input_tokens :=
       saturating_add (ru_uncached_input_tokens u) (ct_uncached_input_tokens categorized);
     ru_input_tokens := saturating_add (ru_input_tokens u) (tu_input_tokens usage);
     ru_output_tokens := saturating_add (ru_output_tokens u) (tu_output_tokens usage);
     ru_cache_creation_tokens :=
       saturating_add (ru_cache_creation_tokens u) (tu_cache_creation_tokens usage);
     ru_cache_read_tokens := saturating_add (ru_cache_read_tokens u) (tu_cache_read_tokens usage);
     ru_tool_calls := ru_tool_calls u; ru_useful_tool_calls := ru_useful_tool_calls u;
     ru_useful_call_rate := ru_useful_call_rate u;
     ru_duplicate_tool_calls := ru_duplicate_tool_calls u;
     ru_duplicate_call_rate := ru_duplicate_call_rate u;
     ru_seen_tool_call_fingerprints := ru_seen_tool_call_fingerprints u;
     ru_cost := match usage_cost signals usage with
                | Some cost => f64_add (ru_cost u) cost
                | None => ru_cost u
                end;
     ru_cost_known := match usage_cost signals usage with
                      | Some _ => ru_cost_known u
                      | None => false
                      end |}.

Definition apply_model_usage_state (usage : TokenUsage) (count_turn : bool)
    (s : ResourceStateSnapshot) : ResourceStateSnapshot * bool :=
  let budget := rs_budget s in
  let current := add_model_usage (rs_provider_signals s) usage count_turn (rs_usage s) in
  (set_usage current s,
   is_none_or (rb_max_turns budget) (λ limit, bool_decide (ru_turns current ≤ limit)%Z) &&
   is_none_or (rb_max_tokens budget) (λ limit, bool_decide (ru_tokens current ≤ limit)%Z) &&
   is_none_or (rb_max_cost budget) (λ limit,
     ru_cost_known current && f64_leb (ru_cost current) (f64_add limit (cost_epsilon limit)))).

Definition record_model_usage_checked (env : Env) (m : Manager) (l : L) (usage : TokenUsage) :
    Manager * L * result bool RError :=
  with_state_update env m l (λ s,
    let '(s', within) := apply_model_usage_state usage true s in (s', (within, true))).

Definition record_model_usage_once_checked (env : Env) (m : Manager) (l : L) (effect_id : string)
    (usage : TokenUsage) (count_turn : bool) : Manager * L * result bool RError :=
  with_state_update env m l (λ s,
    if decide (effect_id ∈ rs_applied_usage_effects s) then (s, (true, false)) else
    let s := set_applied ({[effect_id]} ∪ rs_applied_usage_effects s) s in
    let '(s', within) := apply_model_usage_state usage count_turn s in (s', (within, true))).

(** [seen.insert(fingerprint)] for each call, counting the refused inserts. *)
Definition count_duplicates (calls : list ToolCallStat) (seen : gset string) : gset string * Z :=
  foldl (λ '(seen, dups) call,
    if decide (tc_fingerprint call ∈ seen) then (seen, saturating_add dups 1)
    else ({[tc_fingerprint call]} ∪ seen, dups)) (seen, 0%Z) calls.

Definition add_tool_calls (calls : list ToolCallStat) (u : ResourceUsage) : ResourceUsage :=
  let round_calls := Z.min u64_max (Z.of_nat (length calls)) in
  let round_useful :=
    Z.min u64_max (Z.of_nat (length (filter (λ c, is_useful_call (tc_status c) = true) calls))) in
  let '(seen, round_duplicates) := count_duplicates calls (ru_seen_tool_call_fingerprints u) in
  refresh_duplicate_call_rate (refresh_useful_call_rate
    {| ru_active_agents := ru_active_agents u; ru_concurrent_effects := ru_concurrent_effects u;
       ru_total_descendants := ru_total_descendants u; ru_turns := ru_turns u;
       ru_tokens := ru_tokens u; ru_uncached_input_tokens := ru_uncached_input_tokens u;
       ru_input_tokens := ru_input_tokens u; ru_output_tokens := ru_output_tokens u;
       ru_cache_creation_tokens := ru_cache_creation_tokens u;
       ru_cache_read_tokens := ru_cache_read_tokens u;
       ru_tool_calls := saturating_add (ru_tool_calls u) round_calls;
       ru_useful_tool_calls := saturating_add (ru_useful_tool_calls u) round_useful;
       ru_useful_call_rate := ru_useful_call_rate u;
       ru_duplicate_tool_calls := saturating_add (ru_duplicate_tool_calls u) round_duplicates;
       ru_duplicate_call_rate := ru_duplicate_call_rate u;
       ru_seen_tool_call_fingerprints := seen;
       ru_cost := ru_cost u; ru_cost_known := ru_cost_known u |}).

Definition record_tool_calls_once_checked (env : Env) (m : Manager) (l : L) (round_call_id : string)
    (calls : list ToolCallStat) : Manager * L * result unit RError :=
  let applied_id := "tool-round:" +:+ round_call_id in
  with_state_update env m l (λ s,
    if decide (applied_id ∈ rs_applied_usage_effects s) then (s, (tt, false)) else
    let s := set_applied ({[applied_id]} ∪ rs_applied_usage_effects s) s in
    (set_usage (add_tool_calls calls (rs_usage s)) s, (tt, true))).

Definition record_tokens_and_cost (env : Env) (m : Manager) (l : L) (tokens : Z) (cost : f64) :
    Manager * L * bool :=
  match
    with_state_update env m l (λ s,
      let u := rs_usage s in
      let u' :=
        {| ru_active_agents := ru_active_agents u; ru_concurrent_effects := ru_concurrent_effects u;
           ru_total_descendants := ru_total_descendants u; ru_turns := ru_turns u;
           ru_tokens := saturating_add (ru_tokens u) tokens;
           ru_uncached_input_tokens := ru_uncached_input_tokens u;
           ru_input_tokens := ru_input_tokens u; ru_output_tokens := ru_output_tokens u;
           ru_cache_creation_tokens := ru_cache_creation_tokens u;
           ru_cache_read_tokens := ru_cache_read_tokens u; ru_tool_calls := ru_tool_calls u;
           ru_useful_tool_calls := ru_useful_tool_calls u;
           ru_useful_call_rate := ru_useful_call_rate u;
           ru_duplicate_tool_calls := ru_duplicate_tool_calls u;
           ru_duplicate_call_rate := ru_duplicate_call_rate u;
           ru_seen_tool_call_fingerprints := ru_seen_tool_call_fingerprints u;
           ru_cost := f64_add (ru_cost u) cost; ru_cost_known := ru_cost_known u |} in
      (set_usage u' s,
       (is_none_or (rb_max_tokens (rs_budget s)) (λ limit, bool_decide (ru_tokens u' ≤ limit)%Z) &&
        is_none_or (rb_max_cost (rs_budget s)) (λ limit,
          f64_leb (ru_cost u') (f64_add limit (cost_epsilon limit))), true)))
  with
  | (m, l, Ok within) => (m, l, within)
  | (m, l, Err _) => (m, l, false)
  end.

Definition remaining_wall_time_ms (env : Env) (m : Manager) : option Z :=
  (λ deadline, Z.max (i64_saturating_sub deadline (ev_now env)) 0) <$>
  rs_deadline_unix_ms (rm_state m).

(** ** Recovery *)

Definition checkpoint_schema_version (r : LedgerRecord) : result Z RError :=
  match get "schema_version" (lr_payload r) with
  | None => Ok 0%Z
  | Some v =>
      let? version := ok_or (uint_from_value u32_max v) SchemaVersionNotU32 in
      ensure (negb (bool_decide (RESOURCE_CHECKPOINT_SCHEMA_VERSION < version)%Z))
             (UnsupportedCheckpointVersion version) ;;?
      Ok version
  end.

(** [get(k).cloned().map(dec).transpose()?.unwrap_or_else(d)]. *)
Definition read_checkpoint {A} (k : string) (v : Value) (dec : Value → option A) (d : A)
    (e : RError) : result A RError :=
  match get k v with
  | None => Ok d
  | Some w => ok_or (dec w) e
  end.

(** [as_array().into_iter().flatten().filter_map(as_str)]. *)
Definition string_items (o : option Value) : gset string :=
  match o with
  | Some (VArray items) => list_to_set (omap as_str items)
  | _ => ∅
  end.

Definition checkpoint_state (m : Manager) (r : LedgerRecord) : result ResourceStateSnapshot RError :=
  let? schema_version := checkpoint_schema_version r in
  let? budget := read_checkpoint "budget" (lr_payload r)
                   (λ v, resource_budget_from_checkpoint v schema_version)
                   (rs_budget (rm_state m)) InvalidBudgetCheckpoint in
  let? signals := read_checkpoint "provider_signals" (lr_payload r) signals_from
                    (rs_provider_signals (rm_state m)) InvalidSignalsCheckpoint in
  let? usage := ok_or (usage_from (default VNull (get "usage" (lr_payload r))))
                  InvalidUsageCheckpoint in
  let? deadline := read_checkpoint "deadline_unix_ms" (lr_payload r)
                     (λ v, match v with VNull => Some None | _ => Some <$> as_i64 v end)
                     (rs_deadline_unix_ms (rm_state m)) InvalidDeadlineCheckpoint in
  let? rate := read_checkpoint "provider_rate" (lr_payload r) window_from window_default
                 InvalidRateCheckpoint in
  Ok {| rs_budget := budget; rs_provider_signals := signals; rs_usage := usage;
        rs_deadline_unix_ms := deadline; rs_provider_rate := rate;
        rs_applied_usage_effects := string_items (get "applied_usage_effects" (lr_payload r)) |}.

Definition is_checkpoint (r : LedgerRecord) : bool :=
  bool_decide (lr_record_type r = "resource_usage_checkpoint").
Definition is_delta (r : LedgerRecord) : bool :=
  bool_decide (lr_record_type r = "resource_usage_delta").

(** [rposition]: the last checkpoint and the records after it. *)
Fixpoint last_checkpoint (rs : list LedgerRecord) : option (LedgerRecord * list LedgerRecord) :=
  match rs with
  | [] => None
  | r :: rs =>
      match last_checkpoint rs with
      | Some found => Some found
      | None => if is_checkpoint r then Some (r, rs) else None
      end
  end.

Definition replay_delta (c : ResourceStateSnapshot * Z) (r : LedgerRecord) :
    result (ResourceStateSnapshot * Z) RError :=
  if negb (is_delta r) then Ok c else
  let? delta := ok_or (resource_state_delta_from_record (lr_payload r)) InvalidDelta in
  let? s := ok_or (delta_apply delta c.1) UnsupportedDeltaVersion in
  Ok (s, saturating_add c.2 1).

Definition restore_applied_usage_history (rs : list LedgerRecord) (s : ResourceStateSnapshot) :
    ResourceStateSnapshot :=
  foldl (λ s r,
    if is_checkpoint r then
      set_applied (rs_applied_usage_effects s ∪
                   string_items (get "applied_usage_effects" (lr_payload r))) s
    else if is_delta r then
      set_applied (rs_applied_usage_effects s ∪
                   string_items (get "applied_usage_effects_added" (lr_payload r))) s
    else s) s rs.

Definition normalize_recovered_state (env : Env) (s : ResourceStateSnapshot) :
    ResourceStateSnapshot :=
  let usage := refresh_duplicate_call_rate (refresh_useful_call_rate
                 (set_concurrent_effects 0 (set_active_agents 0 (rs_usage s)))) in
  let w := rs_provider_rate s in
  set_usage usage (set_rate
    (if negb (bool_decide (pw_started_at_unix_ms w = 0%Z)) &&
        bool_decide (60000 ≤ i64_saturating_sub (ev_now env) (pw_started_at_unix_ms w))%Z
     then window_default
     else {| pw_started_at_unix_ms := pw_started_at_unix_ms w;
             pw_requests := pw_requests w;
             pw_reserved_requests := 0;
             pw_tokens := saturating_sub (pw_tokens w) (pw_unstarted_reserved_tokens w);
             pw_reserved_tokens :=
               saturating_sub (pw_reserved_tokens w) (pw_unstarted_reserved_tokens w);
             pw_unstarted_reserved_tokens := 0 |}) s).

(** [restore_latest_state]: [has_durable_state] and [deltas_since_snapshot]. *)
Definition restore_latest_state (env : Env) (m : Manager) (rs : list LedgerRecord) :
    Manager * result (bool * Z) RError :=
  match last_checkpoint rs with
  | None =>
      if existsb is_delta rs then (m, Err DeltaWithoutCheckpoint) else (m, Ok (false, 0%Z))
  | Some (r, rest) =>
      match (let? s := checkpoint_state m r in fold_result replay_delta (s, 0%Z) rest) with
      | Err e => (m, Err e)
      | Ok (s, deltas) =>
          (set_state (normalize_recovered_state env (restore_applied_usage_history rs s)) m,
           Ok (true, deltas))
      end
  end.

(** [attach]: any error puts the manager back. *)
Definition attach (env : Env) (m : Manager) (run : RunId) (l : L) : Manager * L * result unit RError :=
  match lg_records l run with
  | Err e => (m, l, Err (LedgerFailure e))
  | Ok rs =>
      match restore_latest_state env m rs with
      | (_, Err e) => (m, l, Err e)
      | (m1, Ok (has_durable_state, deltas)) =>
          let m2 := set_persistence run (set_delta_count deltas m1) in
          if negb has_durable_state || bool_decide (RESOURCE_SNAPSHOT_INTERVAL ≤ deltas)%Z then
            match persist_snapshot_locked env m2 l with
            | (m3, l, Ok _) => (m3, l, Ok tt)
            | (_, l, Err e) => (m, l, Err (CheckpointPersistenceFailed e))
            end
          else (m2, l, Ok tt)
      end
  end.
End manager.

Arguments Granted {E}.
Arguments Refused {E}.
Arguments Waiting {E}.
