(* ===== verification/ResourceFacts.v ===== *)
(** * What the resource manager guarantees

    Histories of the manager as a step relation over the manager, its ledger
    and the permits that are held; admission, the accounting of permits and of
    the rate window, the effect of a failed write, and usage counted once. *)
From stdpp Require Import relations.
From S2P Require Import Prelude Json Types WorkflowTypes RuntimeLedger LedgerInterface.
From S2P Require Import ResourceTypes ResourceManager.

Lemma rtc_preserves {A} (R : relation A) (P : A → Prop) a b :
  (∀ x y, P x → R x y → P y) → P a → rtc R a b → P b.
Proof. intros HP Ha Hab. induction Hab; eauto. Qed.

Section facts.
Context {L E : Type} `{!Ledger L E, !LedgerLaws L E}.

Notation Manager := (ResourceManager E).
Notation RError := (ResourceError E).

(** ** Transactions *)

Definition same_contents (l l' : L) : Prop := ∀ run, lg_contents l' run = lg_contents l run.

Lemma append_record_err env run l ty v l' e :
  append_record env run l ty v = (l', Err e) → same_contents l l'.
Proof.
  unfold append_record. destruct (lg_append _ _ _ _ _ _) as [l1 [r|e']] eqn:Ha; [done|].
  intros [= <- _] run'. by eapply lg_append_err.
Qed.

(** What a persisted change leaves: the manager up to its delta count. *)
Definition count_only (m m' : Manager) : Prop :=
  m' = set_delta_count (rm_resource_deltas_since_snapshot m') m.

Lemma persist_cases env m l before after m' l' r :
  persist_state_change_locked env m l before after = (m', l', r) →
  (r = Ok tt ∧ count_only m m') ∨ (∃ e, r = Err e ∧ m' = m ∧ same_contents l l').
Proof.
  unfold persist_state_change_locked. destruct (rm_persistence m) as [run|] eqn:Hp; cycle 1.
  { intros [= <- <- <-]. left. split; [done|]. by destruct m. }
  destruct (state_eqb before after).
  { intros [= <- <- <-]. left. split; [done|]. by destruct m. }
  assert (∀ snap, snap = match append_snapshot env m run l with
            | (l, Ok _) => (set_delta_count 0 m, l, Ok tt)
            | (l, Err e) => (m, l, Err e) end →
    snap = (m', l', r) →
    (r = Ok tt ∧ count_only m m') ∨ (∃ e, r = Err e ∧ m' = m ∧ same_contents l l')) as Hsnap.
  { intros snap ->. unfold append_snapshot. destruct (append_record _ _ _ _ _) as [l1 [[]|e]] eqn:Ha;
      intros [= <- <- <-]; [by left|]. right. eauto using append_record_err. }
  destruct (between before after) as [d|]; [|by apply Hsnap].
  case_decide; [|by apply Hsnap].
  destruct (append_record _ _ _ _ _) as [l1 [[]|e]] eqn:Ha; intros [= <- <- <-]; [by left|].
  right. eauto using append_record_err.
Qed.

(** A transaction either installs the new state, or leaves the manager as it
    was except for the recorded error. *)
Lemma update_cases {R} env m l (upd : ResourceStateSnapshot → ResourceStateSnapshot * (R * bool)) m' l' r :
  with_state_update env m l upd = (m', l', r) →
  ∃ s' x changed, upd (rm_state m) = (s', (x, changed)) ∧
    ((r = Ok x ∧ count_only (set_state s' m) m' ∧ (changed = false → l' = l)) ∨
     (∃ e, r = Err (CheckpointPersistenceFailed e) ∧ changed = true ∧
           m' = record_persistence_error e m ∧ same_contents l l')).
Proof.
  unfold with_state_update. destruct (upd (rm_state m)) as [s' [x changed]] eqn:Hu.
  intros Heq. exists s', x, changed. split; [done|]. destruct changed.
  - destruct (persist_state_change_locked _ _ _ _ _) as [[m1 l1] r1] eqn:Hp.
    apply persist_cases in Hp as [[-> Hc]|(e & -> & -> & Hl)].
    + injection Heq as <- <- <-. by left.
    + injection Heq as <- <- <-. right. exists e. by split_and!.
  - injection Heq as <- <- <-. left. by destruct m.
Qed.

Lemma update_state {R} env m l (upd : ResourceStateSnapshot → ResourceStateSnapshot * (R * bool)) m' l' r :
  with_state_update env m l upd = (m', l', r) →
  (is_ok r = true ∧ rm_state m' = (upd (rm_state m)).1 ∧ r = Ok (upd (rm_state m)).2.1) ∨
  (is_ok r = false ∧ rm_state m' = rm_state m).
Proof.
  intros (s' & x & c & Hu & [(-> & Hm & _)|(e & -> & _ & -> & _)])%update_cases.
  - left. rewrite Hm, Hu. done.
  - by right.
Qed.

(** ** Histories *)

(** A manager with its ledger, the number of Agent and effect permits that are
    held, the provider permits that are held, and the last clock reading. *)
Record Sys : Type := {
  sy_manager : Manager;
  sy_ledger : L;
  sy_agents : Z;
  sy_effects : Z;
  sy_permits : list ProviderRatePermit;
  sy_clock : Z;
}.

(** The clock is a positive [i64] that does not run backwards. *)
Definition tick (clock : Z) (env : Env) : Prop :=
  (clock ≤ ev_now env)%Z ∧ (0 < ev_now env)%Z ∧ is_i64 (ev_now env).

(** Records that other components write to the same ledger. *)
Definition foreign (ty : string) : Prop :=
  ty ≠ "resource_usage_checkpoint" ∧ ty ≠ "resource_usage_delta".

Inductive rm_step : Sys → Sys → Prop :=
  | step_set_budget env b m l m' l' r a e ps c :
      tick c env → budget_ok b → set_budget env m l b = (m', l', r) →
      rm_step (Build_Sys m l a e ps c) (Build_Sys m' l' a e ps (ev_now env))
  | step_set_signals env p m l m' l' a e ps c :
      tick c env → signals_ok p → set_provider_signals env m l p = (m', l') →
      rm_step (Build_Sys m l a e ps c) (Build_Sys m' l' a e ps (ev_now env))
  | step_acquire_agent env depth m l m' l' (ok : bool) a e ps c :
      tick c env → try_acquire_agent env m l depth = (m', l', ok) →
      rm_step (Build_Sys m l a e ps c) (Build_Sys m' l' (if ok then a + 1 else a)%Z e ps (ev_now env))
  | step_reattach env depth m l m' (ok : bool) a e ps c :
      tick c env → try_acquire_reattached_agent env m depth = (m', ok) →
      rm_step (Build_Sys m l a e ps c) (Build_Sys m' l (if ok then a + 1 else a)%Z e ps (ev_now env))
  | step_acquire_effect env m l m' (ok : bool) a e ps c :
      tick c env → (e < usize_max)%Z → try_acquire_effect env m = (m', ok) →
      rm_step (Build_Sys m l a e ps c) (Build_Sys m' l a (if ok then e + 1 else e)%Z ps (ev_now env))
  | step_release_agent m l a e ps c :
      (0 < a)%Z → rm_step (Build_Sys m l a e ps c) (Build_Sys (release_agent m) l (a - 1)%Z e ps c)
  | step_release_effect m l a e ps c :
      (0 < e)%Z → rm_step (Build_Sys m l a e ps c) (Build_Sys (release_effect m) l a (e - 1)%Z ps c)
  | step_acquire_request env tokens m l m' l' r a e ps c :
      tick c env → is_u64 tokens → acquire_provider_request env m l tokens = (m', l', r) →
      rm_step (Build_Sys m l a e ps c)
        (Build_Sys m' l' a e (match r with Ok p => p :: ps | Err _ => ps end) (ev_now env))
  | step_mark_started env p p' ps1 ps2 m l m' l' r a e c :
      tick c env → mark_started env m l p = (m', l', (p', r)) →
      rm_step (Build_Sys m l a e (ps1 ++ p :: ps2) c)
        (Build_Sys m' l' a e (ps1 ++ p' :: ps2) (ev_now env))
  | step_rollback_start env p p' ps1 ps2 m l m' l' r a e c :
      tick c env → rollback_start env m l p = (m', l', (p', r)) →
      rm_step (Build_Sys m l a e (ps1 ++ p :: ps2) c)
        (Build_Sys m' l' a e (ps1 ++ p' :: ps2) (ev_now env))
  | step_commit env1 env2 env3 p actual ps1 ps2 m l m' l' r a e c :
      tick c env1 → tick (ev_now env1) env2 → tick (ev_now env2) env3 → is_u64 actual →
      commit env1 env2 env3 m l p actual = (m', l', r) →
      rm_step (Build_Sys m l a e (ps1 ++ p :: ps2) c) (Build_Sys m' l' a e (ps1 ++ ps2) (ev_now env3))
  | step_drop env p ps1 ps2 m l m' l' a e c :
      tick c env → drop_permit env m l p = (m', l') →
      rm_step (Build_Sys m l a e (ps1 ++ p :: ps2) c) (Build_Sys m' l' a e (ps1 ++ ps2) (ev_now env))
  | step_model_usage env u m l m' l' r a e ps c :
      tick c env → token_usage_ok u → record_model_usage_checked env m l u = (m', l', r) →
      rm_step (Build_Sys m l a e ps c) (Build_Sys m' l' a e ps (ev_now env))
  | step_model_usage_once env id u count_turn m l m' l' r a e ps c :
      tick c env → token_usage_ok u →
      record_model_usage_once_checked env m l id u count_turn = (m', l', r) →
      rm_step (Build_Sys m l a e ps c) (Build_Sys m' l' a e ps (ev_now env))
  | step_tool_calls env id calls m l m' l' r a e ps c :
      tick c env → record_tool_calls_once_checked env m l id calls = (m', l', r) →
      rm_step (Build_Sys m l a e ps c) (Build_Sys m' l' a e ps (ev_now env))
  | step_tokens_and_cost env tokens cost m l m' l' ok a e ps c :
      tick c env → is_u64 tokens → record_tokens_and_cost env m l tokens cost = (m', l', ok) →
      rm_step (Build_Sys m l a e ps c) (Build_Sys m' l' a e ps (ev_now env))
  | step_other_record now run d ty v m l l' r a e ps c :
      foreign ty → lg_append l now run d ty v = (l', r) →
      rm_step (Build_Sys m l a e ps c) (Build_Sys m l' a e ps c).

(** ** Admission *)

Lemma clamp_bounds lo hi x : (lo ≤ hi → lo ≤ clamp lo hi x ≤ hi)%Z.
Proof. unfold clamp. repeat case_decide; lia. Qed.

Lemma effective_agent_limit_bounds (m : Manager) : (1 ≤ effective_agent_limit m ≤ 64)%Z.
Proof.
  unfold effective_agent_limit, MIN_ACTIVE_AGENTS, MAX_ACTIVE_AGENTS, MIN_DEFAULT_ACTIVE_AGENTS,
    DEFAULT_MAX_ACTIVE_AGENTS.
  destruct (rb_max_active_agents _) as [x|]; [apply clamp_bounds; lia|].
  pose proof (clamp_bounds 2 8 (rm_system_parallelism_hint m)). lia.
Qed.

Lemma option_union_None {A} (x y : option A) : x ∪ y = None ↔ x = None ∧ y = None.
Proof. destruct x, y; naive_solver. Qed.

(** The budget as the code means it: no limit is reached. *)
Definition runtime_within_budget (env : Env) (m : Manager) : Prop :=
  let budget := rs_budget (rm_state m) in
  let usage := rs_usage (rm_state m) in
  rm_persistence_error m = None ∧
  opt_ok (λ limit, ru_turns usage < limit)%Z (rb_max_turns budget) ∧
  opt_ok (λ deadline, ev_now env < deadline)%Z (rs_deadline_unix_ms (rm_state m)) ∧
  opt_ok (λ limit, ru_tokens usage < limit)%Z (rb_max_tokens budget) ∧
  opt_ok (λ limit, ru_cost_known usage = true ∧ f64_leb limit (ru_cost usage) = false)
    (rb_max_cost budget).

Lemma runtime_reason_None env m :
  hard_runtime_budget_reason env m = None ↔ runtime_within_budget env m.
Proof.
  unfold hard_runtime_budget_reason, runtime_within_budget.
  destruct (rm_persistence_error m); [split; [done|by intros [? _]]|].
  rewrite !option_union_None. destruct (rb_max_turns _), (rs_deadline_unix_ms _),
    (rb_max_tokens _), (rb_max_cost _); simpl; repeat case_decide;
    destruct (ru_cost_known (rs_usage (rm_state m))); simpl; try destruct (f64_leb _ _);
    naive_solver lia.
Qed.

Definition agent_within_budget (env : Env) (m : Manager) (depth : Z) : Prop :=
  opt_ok (λ limit, depth ≤ limit)%Z (rb_max_spawn_depth (rs_budget (rm_state m))) ∧
  opt_ok (λ limit, ru_total_descendants (rs_usage (rm_state m)) < limit)%Z
    (rb_max_total_descendants_per_run (rs_budget (rm_state m))) ∧
  ru_total_descendants (rs_usage (rm_state m)) ≠ usize_max ∧
  runtime_within_budget env m.

Lemma agent_reason_None env m depth :
  hard_agent_block_reason env m depth = None ↔ agent_within_budget env m depth.
Proof.
  unfold hard_agent_block_reason, agent_within_budget, spawn_depth_block_reason.
  rewrite <-runtime_reason_None.
  destruct (rb_max_spawn_depth _) as [x|]; simpl; [case_decide; [naive_solver lia|]|].
  all: rewrite option_union_None; destruct (rb_max_total_descendants_per_run _); simpl;
    repeat case_decide; naive_solver lia.
Qed.

Lemma reattached_reason_None env m depth :
  hard_reattached_agent_block_reason env m depth = None ↔
  opt_ok (λ limit, depth ≤ limit)%Z (rb_max_spawn_depth (rs_budget (rm_state m))) ∧
  runtime_within_budget env m.
Proof.
  unfold hard_reattached_agent_block_reason, spawn_depth_block_reason.
  rewrite option_union_None, runtime_reason_None.
  destruct (rb_max_spawn_depth _) as [x|]; simpl; [case_decide; naive_solver lia|naive_solver].
Qed.

(** The state an admitted Agent leaves. *)
Definition agent_admitted (s : ResourceStateSnapshot) : ResourceStateSnapshot :=
  set_usage (set_total_descendants (ru_total_descendants (rs_usage s) + 1)
               (set_active_agents (ru_active_agents (rs_usage s) + 1) (rs_usage s))) s.

Lemma is_Some_None {A} (o : option A) : bool_decide (is_Some o) = false ↔ o = None.
Proof. rewrite bool_decide_eq_false, <-eq_None_not_Some. done. Qed.

(** [try_acquire_agent] without its closure: the guard, and the transaction
    that is run when it holds. *)
Lemma try_acquire_agent_cases env m l depth m' l' ok :
  (ru_total_descendants (rs_usage (rm_state m)) ≤ usize_max)%Z →
  try_acquire_agent env m l depth = (m', l', ok) →
  (ok = false ∧ m' = m ∧ l' = l ∧
   ¬ (agent_within_budget env m depth ∧
      (ru_active_agents (rs_usage (rm_state m)) < effective_agent_limit m)%Z)) ∨
  (agent_within_budget env m depth ∧
   (ru_active_agents (rs_usage (rm_state m)) < effective_agent_limit m)%Z ∧
   match with_state_update env m l (λ s, (agent_admitted s, (true, true))) with
   | (m1, l1, Ok _) => m' = m1 ∧ l' = l1 ∧ ok = true
   | (m1, l1, Err _) => m' = m1 ∧ l' = l1 ∧ ok = false
   end).
Proof.
  intros Hmax. unfold try_acquire_agent.
  set (upd := λ s : ResourceStateSnapshot, _).
  assert (∀ b, upd (rm_state m) = (rm_state m, (false, b)) → b = false →
    with_state_update env m l upd = (m, l, Ok false)) as Hno.
  { intros b Hu ->. unfold with_state_update. rewrite Hu. by destruct m. }
  assert (∃ b, bool_decide (is_Some (hard_agent_block_reason env m depth)) = b) as [[] Hr] by eauto.
  { rewrite (Hno false) by (done || (unfold upd; by rewrite Hr)). intros [= <- <- <-]. left.
    split_and!; try done. rewrite <-agent_reason_None, <-is_Some_None, Hr. by intros [? _]. }
  pose proof Hr as Hb. rewrite is_Some_None, agent_reason_None in Hb.
  destruct (decide (effective_agent_limit m ≤ ru_active_agents (rs_usage (rm_state m)))%Z) as [Hlim|Hlim].
  { rewrite (Hno false) by (done || (unfold upd; by rewrite Hr, decide_True)).
    intros [= <- <- <-]. left. split_and!; try done. intros [_ ?]. lia. }
  assert (upd (rm_state m) = (agent_admitted (rm_state m), (true, true))) as Hu.
  { unfold upd. rewrite Hr, decide_False by done. destruct Hb as (_ & _ & Hd & _).
    unfold checked_add. rewrite decide_True; [done|]. unfold usize_max in *. lia. }
  assert (with_state_update env m l upd =
          with_state_update env m l (λ s, (agent_admitted s, (true, true)))) as ->.
  { unfold with_state_update. by rewrite Hu. }
  clear Hno. destruct (with_state_update _ _ _ _) as [[m1 l1] r1] eqn:Hw.
  intros Heq. right. split; [done|]. split; [lia|].
  apply update_cases in Hw as (s1 & x & c & Hx & [(-> & _)|(e & -> & _)]);
    injection Heq as <- <- <-; [|done]. split_and!; try done. by injection Hx as <- <- <-.
Qed.

(** An Agent is admitted exactly when it fits every limit of the budget and
    a slot is free.  [try_acquire_agent] returns a permit only when the depth,
    the number of descendants, the turns, the deadline, the tokens and the cost
    are within budget, no checkpoint failed before, and fewer Agents are active
    than the effective limit; the permit counts one more active Agent and one
    more descendant.  Without a permit the accounts are as before, and unless
    writing the checkpoint failed one of these limits was reached. *)
Theorem agent_admission_exact env m l depth m' l' ok :
  (ru_total_descendants (rs_usage (rm_state m)) ≤ usize_max)%Z →
  try_acquire_agent env m l depth = (m', l', ok) →
  (ok = true →
   agent_within_budget env m depth ∧
   (ru_active_agents (rs_usage (rm_state m)) < effective_agent_limit m)%Z ∧
   rm_state m' = agent_admitted (rm_state m)) ∧
  (ok = false →
   rm_state m' = rm_state m ∧
   (is_Some (rm_persistence_error m') ∨
    ¬ (agent_within_budget env m depth ∧
       (ru_active_agents (rs_usage (rm_state m)) < effective_agent_limit m)%Z))).
Proof.
  intros Hmax Ht.
  apply try_acquire_agent_cases in Ht as [(-> & -> & -> & Hno)|(Hb & Hlim & Hw)]; [|..|done].
  - split; [done|]. auto.
  - destruct (with_state_update _ _ _ _) as [[m1 l1] r1] eqn:Hu.
    apply update_cases in Hu as (s1 & x & c & Hx & [(-> & Hm & _)|(e & -> & _ & -> & _)]).
    + destruct Hw as (-> & -> & ->). split; [|done]. intros _. rewrite Hm.
      by injection Hx as <- <- <-.
    + destruct Hw as (-> & -> & ->). split; [done|]. intros _. split; [done|]. left. simpl.
      destruct (rm_persistence_error m); eauto.
Qed.

(** A caller of [acquire_agent] is left waiting only for a free slot: a round
    of its loop that neither admits nor refuses leaves the manager and the
    ledger as they are, the request is within budget, and as many Agents are
    active as the effective limit allows.  Every other failure, a failed
    checkpoint included, is reported. *)
Theorem waits_only_for_capacity env env' m l depth m' l' :
  (ru_total_descendants (rs_usage (rm_state m)) ≤ usize_max)%Z →
  (ev_now env ≤ ev_now env')%Z →
  acquire_agent env env' m l depth = (m', l', Waiting) →
  m' = m ∧ l' = l ∧ agent_within_budget env' m depth ∧
  (effective_agent_limit m ≤ ru_active_agents (rs_usage (rm_state m)))%Z.
Proof.
  intros Hmax Hnow. unfold acquire_agent.
  destruct (try_acquire_agent env m l depth) as [[m1 l1] ok] eqn:Ht. destruct ok; [done|].
  destruct (hard_agent_block_reason env' m1 depth) eqn:Hr; [done|]. intros [= <- <-].
  rewrite agent_reason_None in Hr.
  apply try_acquire_agent_cases in Ht as [(_ & -> & -> & Hno)|(Hb & Hlim & Hw)]; [|..|done].
  - split_and!; try done. apply Z.nlt_ge. intros Hlt. apply Hno. split; [|done].
    destruct Hr as (?&?&?&?&?&Hd&?&?). repeat split; try done.
    destruct (rs_deadline_unix_ms _); simpl in *; [lia|done].
  - destruct (with_state_update _ _ _ _) as [[m2 l2] r2] eqn:Hu.
    apply update_cases in Hu as (s1 & x & c & Hx & [(-> & Hm & _)|(e & -> & _ & -> & _)]);
      destruct Hw as (-> & -> & ?); [done|].
    destruct Hr as (_ & _ & _ & He & _). simpl in He. by destruct (rm_persistence_error m).
Qed.

(** ** Permits *)

Lemma update_keeps {A R} (f : ResourceStateSnapshot → A) env m l
    (upd : ResourceStateSnapshot → ResourceStateSnapshot * (R * bool)) m' l' r :
  (∀ s, f (upd s).1 = f s) → with_state_update env m l upd = (m', l', r) →
  f (rm_state m') = f (rm_state m).
Proof. intros Hf [(_ & -> & _)|(_ & ->)]%update_state; [apply Hf|done]. Qed.

(** The operations of the rate window change nothing but the window. *)
Definition sans_rate (s : ResourceStateSnapshot) : ResourceStateSnapshot := set_rate window_default s.

Ltac keeps_rate :=
  let s := fresh "s" in
  intros s; cbv beta zeta; repeat (match goal with |- context [if ?b then _ else _] => destruct b end); reflexivity.

Lemma flatten_inv {A} (c : Manager * L * result (result A RError) RError) m' l' r :
  flatten c = (m', l', r) → ∃ r', c = (m', l', r') ∧ (r' = Ok r ∨ ∃ e, r' = Err e ∧ r = Err e).
Proof. destruct c as [[m1 l1] [r1|e]]; simpl; intros [= <- <- <-]; eauto 8. Qed.

Lemma acquire_request_keeps env m l t m' l' r :
  acquire_provider_request env m l t = (m', l', r) → sans_rate (rm_state m') = sans_rate (rm_state m).
Proof.
  unfold acquire_provider_request.
  destruct (flatten _) as [[m1 l1] r1] eqn:Hf. intros Heq.
  assert (m' = m1) as -> by (by destruct r1; injection Heq).
  apply flatten_inv in Hf as (r' & Hu & _). eapply update_keeps; [|exact Hu]. keeps_rate.
Qed.

Lemma mark_started_keeps env m l p m' l' p' r :
  mark_started env m l p = (m', l', (p', r)) → sans_rate (rm_state m') = sans_rate (rm_state m).
Proof.
  unfold mark_started. destruct (pp_state p); [|by intros [= <- <- _ _]..].
  destruct (mark_provider_request_started _ _ _ _ _) as [[m1 l1] r1] eqn:Hf. intros Heq.
  assert (m' = m1) as -> by (by destruct r1; injection Heq).
  apply flatten_inv in Hf as (r' & Hu & _). eapply update_keeps; [|exact Hu]. keeps_rate.
Qed.

Lemma rollback_start_keeps env m l p m' l' p' r :
  rollback_start env m l p = (m', l', (p', r)) → sans_rate (rm_state m') = sans_rate (rm_state m).
Proof.
  unfold rollback_start. destruct (pp_state p); [by intros [= <- <- _ _]| |by intros [= <- <- _ _]].
  destruct (rollback_provider_request_start _ _ _ _ _) as [[m1 l1] r1] eqn:Hf. intros Heq.
  assert (m' = m1) as -> by (by destruct r1; injection Heq).
  apply flatten_inv in Hf as (r' & Hu & _). eapply update_keeps; [|exact Hu]. keeps_rate.
Qed.

Lemma fst_update {R} env (m : Manager) (l : L) (upd : ResourceStateSnapshot → ResourceStateSnapshot * (R * bool)) c :
  (with_state_update env m l upd).1 = c → ∃ r, with_state_update env m l upd = (c, r).
Proof. destruct (with_state_update env m l upd) as [c' r]. simpl. intros ->. eauto. Qed.

Lemma drop_permit_keeps env m l p m' l' :
  drop_permit env m l p = (m', l') → sans_rate (rm_state m') = sans_rate (rm_state m).
Proof.
  unfold drop_permit. destruct (pp_state p); [..|by intros [= <- _]];
    intros [r Hu]%fst_update; (eapply update_keeps; [|exact Hu]); keeps_rate.
Qed.

Lemma commit_tokens_keeps env m l t a w m' l' r :
  commit_provider_tokens env m l t a w = (m', l', r) → sans_rate (rm_state m') = sans_rate (rm_state m).
Proof. intros Hu. eapply update_keeps; [|exact Hu]. keeps_rate. Qed.

(** [commit] is the two or three transactions it runs. *)
Lemma commit_inv env1 env2 env3 m l p actual m' l' r :
  commit env1 env2 env3 m l p actual = (m', l', r) →
  ∃ m1 l1 p1 r1, mark_started env1 m l p = (m1, l1, (p1, r1)) ∧
    ((∃ e, r1 = Err e ∧ r = Err e ∧ drop_permit env3 m1 l1 p1 = (m', l')) ∨
     (r1 = Ok tt ∧ ∃ m2 l2 r2,
        commit_provider_tokens env2 m1 l1 (pp_reserved_tokens p1) actual
          (pp_window_started_at_unix_ms p1) = (m2, l2, r2) ∧
        ((∃ e, r2 = Err e ∧ r = Err e ∧ drop_permit env3 m2 l2 p1 = (m', l')) ∨
         (r2 = Ok tt ∧ r = Ok tt ∧ m' = m2 ∧ l' = l2)))).
Proof.
  unfold commit. destruct (mark_started env1 m l p) as [[m1 l1] [p1 r1]]. intros Heq.
  exists m1, l1, p1, r1. split; [done|]. destruct r1 as [[]|e].
  - right. split; [done|].
    destruct (commit_provider_tokens _ _ _ _ _ _) as [[m2 l2] r2]. exists m2, l2, r2.
    split; [done|]. destruct r2 as [[]|e].
    + right. by injection Heq as <- <- <-.
    + left. exists e. split; [done|]. destruct (drop_permit _ _ _ _). by injection Heq as <- <- <-.
  - left. exists e. split; [done|]. destruct (drop_permit _ _ _ _). by injection Heq as <- <- <-.
Qed.

Lemma commit_keeps env1 env2 env3 m l p actual m' l' r :
  commit env1 env2 env3 m l p actual = (m', l', r) → sans_rate (rm_state m') = sans_rate (rm_state m).
Proof.
  intros (m1 & l1 & p1 & r1 & Hm%mark_started_keeps & [(e & _ & _ & Hd%drop_permit_keeps)|
    (_ & m2 & l2 & r2 & Hc%commit_tokens_keeps & [(e & _ & _ & Hd%drop_permit_keeps)|
      (_ & _ & -> & _)])])%commit_inv; congruence.
Qed.

Definition counts (s : ResourceStateSnapshot) : Z * Z :=
  (ru_active_agents (rs_usage s), ru_concurrent_effects (rs_usage s)).

Lemma counts_sans_rate s s' : sans_rate s' = sans_rate s → counts s' = counts s.
Proof. intros Hs. change (counts (sans_rate s') = counts (sans_rate s)). by rewrite Hs. Qed.

Lemma add_tool_calls_counts calls s : counts (set_usage (add_tool_calls calls (rs_usage s)) s) = counts s.
Proof. unfold add_tool_calls. by destruct (count_duplicates _ _). Qed.

Lemma set_budget_counts env m l b m' l' r :
  set_budget env m l b = (m', l', r) → counts (rm_state m') = counts (rm_state m).
Proof. intros Hu. by eapply update_keeps; [|exact Hu]. Qed.

Lemma set_signals_counts env m l p m' l' :
  set_provider_signals env m l p = (m', l') → counts (rm_state m') = counts (rm_state m).
Proof. intros [r Hu]%fst_update. by eapply update_keeps; [|exact Hu]. Qed.

Lemma model_usage_counts env m l u m' l' r :
  record_model_usage_checked env m l u = (m', l', r) → counts (rm_state m') = counts (rm_state m).
Proof. intros Hu. by eapply update_keeps; [|exact Hu]. Qed.

Lemma model_usage_once_counts env m l id u c m' l' r :
  record_model_usage_once_checked env m l id u c = (m', l', r) →
  counts (rm_state m') = counts (rm_state m).
Proof. intros Hu. eapply update_keeps; [|exact Hu]. intros s. cbv beta. by case_decide. Qed.

Lemma tool_calls_counts env m l id calls m' l' r :
  record_tool_calls_once_checked env m l id calls = (m', l', r) →
  counts (rm_state m') = counts (rm_state m).
Proof.
  intros Hu. eapply update_keeps; [|exact Hu]. intros s. cbv beta. case_decide; [done|].
  apply (add_tool_calls_counts calls (set_applied _ s)).
Qed.

Lemma tokens_and_cost_counts env m l t c m' l' ok :
  record_tokens_and_cost env m l t c = (m', l', ok) → counts (rm_state m') = counts (rm_state m).
Proof.
  unfold record_tokens_and_cost. destruct (with_state_update _ _ _ _) as [[m1 l1] r] eqn:Hu.
  intros Heq. assert (m' = m1) as -> by (by destruct r; injection Heq).
  by eapply update_keeps; [|exact Hu].
Qed.

(** An Agent permit is counted, and never more than the limit allows. *)
Lemma acquire_agent_counts env m l depth m' l' ok :
  try_acquire_agent env m l depth = (m', l', ok) →
  counts (rm_state m') =
    ((counts (rm_state m)).1 + (if ok then 1 else 0), (counts (rm_state m)).2)%Z ∧
  (ok = true → (ru_active_agents (rs_usage (rm_state m')) ≤ effective_agent_limit m)%Z).
Proof.
  unfold try_acquire_agent. destruct (with_state_update _ _ _ _) as [[m1 l1] r] eqn:Hu.
  apply update_state in Hu as [(Hok & Hs & Hr)|(Hok & Hs)]; destruct r as [b|]; try done; cycle 1.
  { intros [= <- <- <-]. rewrite Hs. split; [|done]. simpl. by rewrite Z.add_0_r. }
  intros [= <- <- <-]. injection Hr as Hr. revert Hs Hr.
  destruct (bool_decide _); [intros -> ->; by rewrite Z.add_0_r|].
  case_decide as Hlim; [intros -> ->; by rewrite Z.add_0_r|].
  destruct (checked_add _ _); simpl; [|intros -> ->; by rewrite Z.add_0_r].
  intros -> ->. simpl. split; [done|]. intros _. lia.
Qed.

Lemma reattach_counts env (m : Manager) depth m' ok :
  try_acquire_reattached_agent env m depth = (m', ok) →
  counts (rm_state m') =
    ((counts (rm_state m)).1 + (if ok then 1 else 0), (counts (rm_state m)).2)%Z ∧
  (ok = true → (ru_active_agents (rs_usage (rm_state m')) ≤ effective_agent_limit m)%Z).
Proof.
  unfold try_acquire_reattached_agent.
  destruct (bool_decide _); [intros [= <- <-]; by rewrite Z.add_0_r|].
  case_decide; intros [= <- <-]; [by rewrite Z.add_0_r|]. simpl. split; [done|]. intros _. lia.
Qed.

Lemma acquire_effect_counts env (m : Manager) m' ok :
  try_acquire_effect env m = (m', ok) →
  counts (rm_state m') =
    ((counts (rm_state m)).1, (counts (rm_state m)).2 + (if ok then 1 else 0))%Z ∧
  (ok = true → opt_ok (λ limit, ru_concurrent_effects (rs_usage (rm_state m')) ≤ Z.max limit 1)%Z
                 (rb_max_concurrent_effects (rs_budget (rm_state m)))).
Proof.
  unfold try_acquire_effect.
  destruct (bool_decide (is_Some _)); [intros [= <- <-]; by rewrite Z.add_0_r|].
  destruct (rb_max_concurrent_effects _) as [limit|] eqn:Hl; simpl.
  - case_bool_decide; intros [= <- <-]; [by rewrite Z.add_0_r|]. simpl. split; [done|]. intros _. lia.
  - by intros [= <- <-].
Qed.

(** The accounts agree with the permits that are held. *)
Record permits_counted (s : Sys) : Prop := {
  pc_counts : counts (rm_state (sy_manager s)) = (sy_agents s, sy_effects s);
  pc_agents : (0 ≤ sy_agents s ≤ MAX_ACTIVE_AGENTS)%Z;
  pc_effects : (0 ≤ sy_effects s ≤ usize_max)%Z;
}.

Lemma permits_counted_step s s' : permits_counted s → rm_step s s' → permits_counted s'.
Proof.
  intros [Hc Ha He] Hstep. inversion Hstep; subst; simpl in *.
  all: try (split; simpl; [|done..]).
  all: repeat match goal with
    | H : set_budget _ _ _ _ = _ |- _ => apply set_budget_counts in H; congruence
    | H : set_provider_signals _ _ _ _ = _ |- _ => apply set_signals_counts in H; congruence
    | H : record_model_usage_checked _ _ _ _ = _ |- _ => apply model_usage_counts in H; congruence
    | H : record_model_usage_once_checked _ _ _ _ _ _ = _ |- _ =>
        apply model_usage_once_counts in H; congruence
    | H : record_tool_calls_once_checked _ _ _ _ _ = _ |- _ =>
        apply tool_calls_counts in H; congruence
    | H : record_tokens_and_cost _ _ _ _ _ = _ |- _ => apply tokens_and_cost_counts in H; congruence
    | H : acquire_provider_request _ _ _ _ = _ |- _ =>
        apply acquire_request_keeps, counts_sans_rate in H; congruence
    | H : mark_started _ _ _ _ = _ |- _ => apply mark_started_keeps, counts_sans_rate in H; congruence
    | H : rollback_start _ _ _ _ = _ |- _ =>
        apply rollback_start_keeps, counts_sans_rate in H; congruence
    | H : drop_permit _ _ _ _ = _ |- _ => apply drop_permit_keeps, counts_sans_rate in H; congruence
    | H : commit _ _ _ _ _ _ _ = _ |- _ => apply commit_keeps, counts_sans_rate in H; congruence
    end.
  - match goal with H : try_acquire_agent _ _ _ _ = _ |- _ => apply acquire_agent_counts in H as [Hc' Hle] end.
    rewrite Hc in Hc'. simpl in Hc'. pose proof (effective_agent_limit_bounds m).
    split; simpl; [rewrite Hc'; destruct ok; f_equal; lia| |done].
    unfold MAX_ACTIVE_AGENTS in *. destruct ok; [|lia]. injection Hc' as Hc1 Hc2. specialize (Hle eq_refl). lia.
  - match goal with H : try_acquire_reattached_agent _ _ _ = _ |- _ => apply reattach_counts in H as [Hc' Hle] end.
    rewrite Hc in Hc'. simpl in Hc'. pose proof (effective_agent_limit_bounds m).
    split; simpl; [rewrite Hc'; destruct ok; f_equal; lia| |done].
    unfold MAX_ACTIVE_AGENTS in *. destruct ok; [|lia]. injection Hc' as Hc1 Hc2. specialize (Hle eq_refl). lia.
  - match goal with H : try_acquire_effect _ _ = _ |- _ => apply acquire_effect_counts in H as [Hc' _] end.
    rewrite Hc in Hc'. simpl in Hc'.
    split; simpl; [rewrite Hc'; destruct ok; f_equal; lia|done|destruct ok; lia].
  - injection Hc as Hc1 Hc2. split; simpl; [|lia..]. unfold counts. simpl. rewrite Hc1, Hc2.
    f_equal. unfold saturating_sub. lia.
  - injection Hc as Hc1 Hc2. split; simpl; [|lia..]. unfold counts. simpl. rewrite Hc1, Hc2.
    f_equal. unfold saturating_sub. lia.
  - exact Hc.
Qed.

(** C35: Permits are accounted for.  Along every history that starts with no
    permit held, the numbers of active Agents and of concurrent effects are the
    numbers of permits held; at most 64 Agents are ever active, whatever
    budgets are set on the way; and a step that issues an Agent permit or an
    effect permit ends within the limit the budget sets at that moment. *)
Theorem permits_accounted s0 s s' :
  counts (rm_state (sy_manager s0)) = (0, 0)%Z → sy_agents s0 = 0%Z → sy_effects s0 = 0%Z →
  rtc rm_step s0 s → rm_step s s' →
  counts (rm_state (sy_manager s')) = (sy_agents s', sy_effects s') ∧
  (0 ≤ sy_agents s' ≤ MAX_ACTIVE_AGENTS)%Z ∧
  ((sy_agents s < sy_agents s')%Z →
   (sy_agents s' ≤ effective_agent_limit (sy_manager s))%Z) ∧
  ((sy_effects s < sy_effects s')%Z →
   opt_ok (λ limit, sy_effects s' ≤ Z.max limit 1)%Z
     (rb_max_concurrent_effects (rs_budget (rm_state (sy_manager s))))).
Proof.
  intros Hc Ha He Hrtc Hstep.
  assert (permits_counted s) as Hs.
  { eapply rtc_preserves; [apply permits_counted_step| |done].
    split; [by rewrite Ha, He|unfold MAX_ACTIVE_AGENTS; lia|unfold usize_max, u64_max; lia]. }
  pose proof (permits_counted_step _ _ Hs Hstep) as [Hc' Ha' He'].
  split; [done|]. split; [done|]. split.
  - inversion Hstep; subst; simpl in *; try lia; destruct ok; try lia; intros _;
      injection Hc' as <- _.
    + by eapply acquire_agent_counts.
    + by eapply reattach_counts.
  - inversion Hstep; subst; simpl in *; try lia. destruct ok; try lia. intros _.
    injection Hc' as _ <-. by eapply acquire_effect_counts.
Qed.
End facts.
