(* ===== verification/ResourceRates.v ===== *)
(** * The provider rate window

    The abstract machine of a rate window and its permits, the proof that every
    history of the resource manager is one of its histories, and what follows:
    the request limit is kept and no reservation is lost. *)
From stdpp Require Import relations.
From S2P Require Import Prelude Json Types WorkflowTypes RuntimeLedger LedgerInterface.
From S2P Require Import ResourceTypes ResourceManager ResourceFacts.

(** ** The abstract machine *)

Record RateState : Type := {
  ra_window : ProviderRateWindow;
  ra_permits : list ProviderRatePermit;
  ra_clock : Z;
}.

Definition permit (tokens window : Z) (st : ProviderRatePermitState) : ProviderRatePermit :=
  {| pp_reserved_tokens := tokens; pp_window_started_at_unix_ms := window; pp_state := st |}.

Section window_ops.
Variables (t : Z) (w : ProviderRateWindow).

Definition w_reserve : ProviderRateWindow :=
  {| pw_started_at_unix_ms := pw_started_at_unix_ms w; pw_requests := pw_requests w;
     pw_reserved_requests := saturating_add (pw_reserved_requests w) 1;
     pw_tokens := saturating_add (pw_tokens w) t;
     pw_reserved_tokens := saturating_add (pw_reserved_tokens w) t;
     pw_unstarted_reserved_tokens := saturating_add (pw_unstarted_reserved_tokens w) t |}.
Definition w_start_new : ProviderRateWindow :=
  {| pw_started_at_unix_ms := pw_started_at_unix_ms w;
     pw_requests := saturating_add (pw_requests w) 1;
     pw_reserved_requests := pw_reserved_requests w;
     pw_tokens := saturating_add (pw_tokens w) t;
     pw_reserved_tokens := saturating_add (pw_reserved_tokens w) t;
     pw_unstarted_reserved_tokens := pw_unstarted_reserved_tokens w |}.
Definition w_start : ProviderRateWindow :=
  {| pw_started_at_unix_ms := pw_started_at_unix_ms w;
     pw_requests := saturating_add (pw_requests w) 1;
     pw_reserved_requests := (pw_reserved_requests w - 1)%Z;
     pw_tokens := pw_tokens w;
     pw_reserved_tokens := pw_reserved_tokens w;
     pw_unstarted_reserved_tokens := (pw_unstarted_reserved_tokens w - t)%Z |}.
Definition w_unstart : ProviderRateWindow :=
  {| pw_started_at_unix_ms := pw_started_at_unix_ms w;
     pw_requests := (pw_requests w - 1)%Z;
     pw_reserved_requests := saturating_add (pw_reserved_requests w) 1;
     pw_tokens := pw_tokens w;
     pw_reserved_tokens := pw_reserved_tokens w;
     pw_unstarted_reserved_tokens := saturating_add (pw_unstarted_reserved_tokens w) t |}.
Definition w_commit (actual : Z) : ProviderRateWindow :=
  {| pw_started_at_unix_ms := pw_started_at_unix_ms w;
     pw_requests := pw_requests w;
     pw_reserved_requests := pw_reserved_requests w;
     pw_tokens := saturating_add (saturating_sub (pw_tokens w) t) actual;
     pw_reserved_tokens := saturating_sub (pw_reserved_tokens w) t;
     pw_unstarted_reserved_tokens := pw_unstarted_reserved_tokens w |}.
Definition w_release_started : ProviderRateWindow :=
  {| pw_started_at_unix_ms := pw_started_at_unix_ms w;
     pw_requests := pw_requests w;
     pw_reserved_requests := pw_reserved_requests w;
     pw_tokens := saturating_sub (pw_tokens w) t;
     pw_reserved_tokens := saturating_sub (pw_reserved_tokens w) t;
     pw_unstarted_reserved_tokens := pw_unstarted_reserved_tokens w |}.
Definition w_release_reserved : ProviderRateWindow :=
  {| pw_started_at_unix_ms := pw_started_at_unix_ms w;
     pw_requests := pw_requests w;
     pw_reserved_requests := saturating_sub (pw_reserved_requests w) 1;
     pw_tokens := saturating_sub (pw_tokens w) t;
     pw_reserved_tokens := saturating_sub (pw_reserved_tokens w) t;
     pw_unstarted_reserved_tokens := saturating_sub (pw_unstarted_reserved_tokens w) t |}.
End window_ops.

(** What the machine may do under the limits of [signals].  A permit that is
    neither completed nor given back in its own window is forgotten. *)
Inductive rate_step (signals : ProviderSignals) : RateState → RateState → Prop :=
  | ra_tick w ps c c' :
      (c ≤ c')%Z → rate_step signals (Build_RateState w ps c) (Build_RateState w ps c')
  | ra_reset w ps c :
      (0 < c)%Z → is_i64 c → window_expired c w = true →
      rate_step signals (Build_RateState w ps c) (Build_RateState (window_at c) ps c)
  | ra_reserve t w ps c :
      is_u64 t → (0 < pw_started_at_unix_ms w)%Z →
      request_limit_reached signals w = false → token_limit_exceeded signals w t = false →
      rate_step signals (Build_RateState w ps c)
        (Build_RateState (w_reserve t w) (permit t (pw_started_at_unix_ms w) Reserved :: ps) c)
  | ra_start_new t v w ps1 ps2 c :
      v ≠ pw_started_at_unix_ms w → (0 < pw_started_at_unix_ms w)%Z →
      request_limit_reached signals w = false → token_limit_exceeded signals w t = false →
      rate_step signals (Build_RateState w (ps1 ++ permit t v Reserved :: ps2) c)
        (Build_RateState (w_start_new t w) (ps1 ++ permit t (pw_started_at_unix_ms w) Started :: ps2) c)
  | ra_start t v w ps1 ps2 c :
      v = pw_started_at_unix_ms w →
      rate_step signals (Build_RateState w (ps1 ++ permit t v Reserved :: ps2) c)
        (Build_RateState (w_start t w) (ps1 ++ permit t v Started :: ps2) c)
  | ra_unstart t v w ps1 ps2 c :
      v = pw_started_at_unix_ms w →
      rate_step signals (Build_RateState w (ps1 ++ permit t v Started :: ps2) c)
        (Build_RateState (w_unstart t w) (ps1 ++ permit t v Reserved :: ps2) c)
  | ra_unstart_old t v w ps1 ps2 c :
      v ≠ pw_started_at_unix_ms w →
      rate_step signals (Build_RateState w (ps1 ++ permit t v Started :: ps2) c)
        (Build_RateState w (ps1 ++ permit t v Reserved :: ps2) c)
  | ra_commit t v actual w ps1 ps2 c :
      v = pw_started_at_unix_ms w → is_u64 actual →
      rate_step signals (Build_RateState w (ps1 ++ permit t v Started :: ps2) c)
        (Build_RateState (w_commit t w actual) (ps1 ++ ps2) c)
  | ra_release_started t v w ps1 ps2 c :
      v = pw_started_at_unix_ms w →
      rate_step signals (Build_RateState w (ps1 ++ permit t v Started :: ps2) c)
        (Build_RateState (w_release_started t w) (ps1 ++ ps2) c)
  | ra_release_reserved t v w ps1 ps2 c :
      v = pw_started_at_unix_ms w →
      rate_step signals (Build_RateState w (ps1 ++ permit t v Reserved :: ps2) c)
        (Build_RateState (w_release_reserved t w) (ps1 ++ ps2) c)
  | ra_forget p w ps1 ps2 c :
      rate_step signals (Build_RateState w (ps1 ++ p :: ps2) c) (Build_RateState w (ps1 ++ ps2) c).

(** ** Permits belong to windows of the past

    A permit that is held is not completed: [commit] consumes it. *)

Record windows_ok (s : RateState) : Prop := {
  wo_start : (0 ≤ pw_started_at_unix_ms (ra_window s) ≤ ra_clock s)%Z;
  wo_permits :
    Forall (λ p, 0 < pp_window_started_at_unix_ms p ≤ pw_started_at_unix_ms (ra_window s) ∧
                 pp_state p ≠ Completed ∧ is_u64 (pp_reserved_tokens p))%Z (ra_permits s);
}.

Lemma window_expired_spec c w :
  (0 ≤ pw_started_at_unix_ms w ≤ c)%Z → is_i64 c →
  window_expired c w = true ↔
  (pw_started_at_unix_ms w = 0 ∨ pw_started_at_unix_ms w + 60000 ≤ c)%Z.
Proof.
  unfold is_i64, i64_min, i64_max, window_expired. intros Hw Hc.
  rewrite orb_true_iff, !bool_decide_eq_true. unfold i64_saturating_sub, i64_saturating, i64_min, i64_max.
  lia.
Qed.

Lemma windows_ok_step signals s s' : windows_ok s → rate_step signals s s' → windows_ok s'.
Proof.
  intros [Hs Hp] Hstep. inversion Hstep; subst; simpl in *; split; simpl; try done; try lia.
  { eapply Forall_impl; [done|]. simpl. intros p [Hpw ?]. split; [|done].
    match goal with He : window_expired _ _ = true |- _ =>
      apply window_expired_spec in He as [He|He]; try done; lia end. }
  { apply Forall_cons. simpl. split; [|done]. by split_and!; try lia. }
  all: rewrite !Forall_app, !Forall_cons in Hp; rewrite ?Forall_app, ?Forall_cons; simpl in *;
    split_and?; try tauto; try lia; done.
Qed.

(** ** Reservations *)

Definition psum (f : ProviderRatePermit → Z) (ps : list ProviderRatePermit) : Z :=
  foldr (λ p acc, f p + acc)%Z 0%Z ps.

Lemma psum_app f ps1 ps2 : psum f (ps1 ++ ps2) = (psum f ps1 + psum f ps2)%Z.
Proof. unfold psum. induction ps1 as [|p ps1 IH]; simpl; [done|]. rewrite IH. lia. Qed.

Lemma psum_cons f p ps : psum f (p :: ps) = (f p + psum f ps)%Z.
Proof. done. Qed.

(** The permits of window [v] in state [st], weighted. *)
Definition held (v : Z) (st : ProviderRatePermitState) (weight : ProviderRatePermit → Z)
    (p : ProviderRatePermit) : Z :=
  if decide (pp_window_started_at_unix_ms p = v ∧ pp_state p = st) then weight p else 0%Z.

Arguments held : simpl never.
Arguments psum : simpl never.

Definition one (_ : ProviderRatePermit) : Z := 1%Z.
Lemma one_eq p : one p = 1%Z.
Proof. done. Qed.

Lemma psum_held_nonneg v st weight ps :
  Forall (λ p, 0 ≤ weight p)%Z ps → (0 ≤ psum (held v st weight) ps)%Z.
Proof.
  induction 1; simpl; [done|]. rewrite ?psum_cons. unfold held at 1. case_decide; lia.
Qed.

Lemma psum_held_none v st weight ps :
  Forall (λ p, pp_window_started_at_unix_ms p < v)%Z ps → psum (held v st weight) ps = 0%Z.
Proof.
  induction 1 as [|p ps Hp Hps IH]; [done|]. rewrite psum_cons, IH. unfold held.
  rewrite decide_False; [done|]. lia.
Qed.

(** The window never forgets a permit: each open reservation and each started
    request of the window is part of its counters. *)
Record reservations_counted (rpm : Z) (s : RateState) : Prop := {
  rc_range : Forall is_u64 [pw_requests (ra_window s); pw_reserved_requests (ra_window s);
                            pw_tokens (ra_window s); pw_reserved_tokens (ra_window s);
                            pw_unstarted_reserved_tokens (ra_window s)];
  rc_permits : Forall (λ p, is_u64 (pp_reserved_tokens p)) (ra_permits s);
  rc_limit : (pw_requests (ra_window s) + pw_reserved_requests (ra_window s) ≤ rpm)%Z;
  rc_reserved : (psum (held (pw_started_at_unix_ms (ra_window s)) Reserved one) (ra_permits s) ≤
                 pw_reserved_requests (ra_window s))%Z;
  rc_started : (psum (held (pw_started_at_unix_ms (ra_window s)) Started one) (ra_permits s) ≤
                pw_requests (ra_window s))%Z;
  rc_unstarted : (psum (held (pw_started_at_unix_ms (ra_window s)) Reserved pp_reserved_tokens)
                    (ra_permits s) ≤ pw_unstarted_reserved_tokens (ra_window s))%Z;
  rc_tokens : (pw_unstarted_reserved_tokens (ra_window s) +
               psum (held (pw_started_at_unix_ms (ra_window s)) Started pp_reserved_tokens)
                 (ra_permits s) ≤ pw_reserved_tokens (ra_window s))%Z;
  rc_total : (pw_reserved_tokens (ra_window s) ≤ pw_tokens (ra_window s))%Z;
}.

Section accounting.
Context (signals : ProviderSignals) (rpm tpm : Z).
Hypothesis Hrpm : ps_requests_per_minute signals = Some rpm.
Hypothesis Htpm : ps_tokens_per_minute signals = Some tpm.
Hypothesis Hrpm_max : (0 ≤ rpm < u64_max)%Z.
Hypothesis Htpm_max : (0 ≤ tpm < u64_max)%Z.

Lemma request_limit_spec w :
  is_u64 (pw_requests w) → is_u64 (pw_reserved_requests w) →
  request_limit_reached signals w = false → (pw_requests w + pw_reserved_requests w < rpm)%Z.
Proof.
  unfold request_limit_reached. rewrite Hrpm. simpl. rewrite bool_decide_eq_false.
  unfold saturating_add. lia.
Qed.

Lemma token_limit_spec w t :
  token_limit_exceeded signals w t = false → (pw_tokens w + t ≤ tpm)%Z.
Proof.
  unfold token_limit_exceeded. rewrite Htpm. simpl. rewrite bool_decide_eq_false.
  unfold saturating_add. lia.
Qed.

(** The sums of the permits around the one a step is about. *)
Lemma held_here t v st w :
  held v st w (permit t v st) = w (permit t v st).
Proof. unfold held. by rewrite decide_True. Qed.
Lemma held_state t v st st' w : st ≠ st' → held v st w (permit t v st') = 0%Z.
Proof. intros. unfold held. rewrite decide_False; [done|]. simpl. naive_solver. Qed.
Lemma held_window t v v' st st' w : v' ≠ v → held v st w (permit t v' st') = 0%Z.
Proof. intros. unfold held. rewrite decide_False; [done|]. simpl. naive_solver. Qed.

Lemma held_pos v st w p : (0 ≤ w p → 0 ≤ held v st w p)%Z.
Proof. unfold held. case_decide; lia. Qed.

Lemma psum_tokens_nonneg v st ps :
  Forall (λ p, is_u64 (pp_reserved_tokens p)) ps →
  (0 ≤ psum (held v st pp_reserved_tokens) ps)%Z.
Proof. intros Hps. apply psum_held_nonneg. eapply Forall_impl; [done|]. unfold is_u64. naive_solver lia. Qed.

Lemma psum_one_nonneg v st ps : (0 ≤ psum (held v st one) ps)%Z.
Proof. apply psum_held_nonneg, Forall_true. unfold one. lia. Qed.

Ltac own_window H1 H2 H3 H4 :=
  rewrite ?held_here, ?held_state, ?one_eq in H1 by done;
  rewrite ?held_here, ?held_state, ?one_eq in H2 by done;
  rewrite ?held_here, ?held_state in H3 by done;
  rewrite ?held_here, ?held_state in H4 by done;
  simpl in *.

(** The arithmetic of one step around the permit it is about. *)
Ltac counted ps1 ps2 v :=
  pose proof (psum_one_nonneg v Reserved ps1); pose proof (psum_one_nonneg v Started ps1);
  pose proof (psum_one_nonneg v Reserved ps2); pose proof (psum_one_nonneg v Started ps2);
  pose proof (psum_tokens_nonneg v Reserved ps1 ltac:(first [apply Forall_nil_2|tauto]));
  pose proof (psum_tokens_nonneg v Started ps1 ltac:(first [apply Forall_nil_2|tauto]));
  pose proof (psum_tokens_nonneg v Reserved ps2 ltac:(tauto));
  pose proof (psum_tokens_nonneg v Started ps2 ltac:(tauto));
  split; simpl; rewrite ?psum_app, ?psum_cons, ?Forall_app, ?Forall_cons; simpl;
  rewrite ?held_here, ?held_state, ?held_window by done; simpl; try tauto;
  rewrite ?one_eq; split_and?; try apply Forall_nil_2;
  unfold saturating_add, saturating_sub, is_u64 in *; lia.

Lemma reservations_counted_step s s' :
  windows_ok s → reservations_counted rpm s → rate_step signals s s' → reservations_counted rpm s'.
Proof.
  intros Hwo [Hr Hps Hl H1 H2 H3 H4 H5] Hstep. rewrite !Forall_cons in Hr.
  destruct Hr as (Hr1 & Hr2 & Hr3 & Hr4 & Hr5 & _).
  inversion Hstep; subst; simpl in *;
    rewrite ?psum_app, ?psum_cons in H1; rewrite ?psum_app, ?psum_cons in H2;
    rewrite ?psum_app, ?psum_cons in H3; rewrite ?psum_app, ?psum_cons in H4;
    rewrite ?Forall_app, ?Forall_cons in Hps; simpl in *.
  - by split; simpl; rewrite ?Forall_cons.
  - destruct Hwo as [Hs Hp]; simpl in *.
    assert (Forall (λ p, pp_window_started_at_unix_ms p < c)%Z ps) as Hold.
    { eapply Forall_impl; [done|]. simpl. intros p [Hpw _].
      match goal with He : window_expired _ _ = true |- _ =>
        apply window_expired_spec in He as [He|He]; try done; lia end. }
    split; simpl; rewrite ?psum_held_none by done; try done; try lia.
    unfold is_u64, u64_max. repeat constructor; lia.
  - match goal with Hq : request_limit_reached _ _ = false, Ht : token_limit_exceeded _ _ _ = false |- _ =>
      apply request_limit_spec in Hq; [|done..]; apply token_limit_spec in Ht end.
    counted (@nil ProviderRatePermit) ps (pw_started_at_unix_ms w).
  - match goal with Hq : request_limit_reached _ _ = false, Ht : token_limit_exceeded _ _ _ = false |- _ =>
      apply request_limit_spec in Hq; [|done..]; apply token_limit_spec in Ht end.
    rewrite !held_window in H1, H2, H3, H4 by done.
    counted ps1 ps2 (pw_started_at_unix_ms w).
  - own_window H1 H2 H3 H4. counted ps1 ps2 (pw_started_at_unix_ms w).
  - own_window H1 H2 H3 H4. counted ps1 ps2 (pw_started_at_unix_ms w).
  - rewrite !held_window in H1, H2, H3, H4 by done.
    counted ps1 ps2 (pw_started_at_unix_ms w).
  - own_window H1 H2 H3 H4. counted ps1 ps2 (pw_started_at_unix_ms w).
  - own_window H1 H2 H3 H4. counted ps1 ps2 (pw_started_at_unix_ms w).
  - own_window H1 H2 H3 H4. counted ps1 ps2 (pw_started_at_unix_ms w).
  - assert (0 ≤ pp_reserved_tokens p)%Z by (unfold is_u64 in *; tauto).
    pose proof (held_pos (pw_started_at_unix_ms w) Reserved one p ltac:(done)).
    pose proof (held_pos (pw_started_at_unix_ms w) Started one p ltac:(done)).
    pose proof (held_pos (pw_started_at_unix_ms w) Reserved pp_reserved_tokens p ltac:(done)).
    pose proof (held_pos (pw_started_at_unix_ms w) Started pp_reserved_tokens p ltac:(done)).
    counted ps1 ps2 (pw_started_at_unix_ms w).
Qed.
End accounting.

(** ** The manager implements the machine *)

Section refinement.
Context {L E : Type} `{!Ledger L E, !LedgerLaws L E}.

Notation Manager := (ResourceManager E).

Definition rates (s : Sys (L := L) (E := E)) : RateState :=
  Build_RateState (rs_provider_rate (rm_state (sy_manager s))) (sy_permits s) (sy_clock s).

(** The window the code looks at: the stored one, or a new one when it has
    expired. *)
Definition current (env : Env) (w : ProviderRateWindow) : ProviderRateWindow :=
  if window_expired (ev_now env) w then window_at (ev_now env) else w.

Lemma current_steps signals env w ps c :
  tick c env → windows_ok (Build_RateState w ps c) →
  rtc (rate_step signals) (Build_RateState w ps c) (Build_RateState (current env w) ps (ev_now env)) ∧
  (0 < pw_started_at_unix_ms (current env w))%Z.
Proof.
  intros (Hle & Hpos & Hi) [Hw _]. simpl in Hw.
  assert (rate_step signals (Build_RateState w ps c) (Build_RateState w ps (ev_now env))) as Htick
    by by constructor.
  unfold current. destruct (window_expired (ev_now env) w) eqn:Hx.
  - split; [|done]. eapply rtc_l; [done|]. by apply rtc_once; constructor.
  - split; [by apply rtc_once|]. apply Bool.not_true_iff_false in Hx.
    rewrite window_expired_spec in Hx by (try done; lia). lia.
Qed.

Lemma tick_step signals env w ps c :
  tick c env → rtc (rate_step signals) (Build_RateState w ps c) (Build_RateState w ps (ev_now env)).
Proof. intros (Hle & _). by apply rtc_once; constructor. Qed.

Lemma acquire_request_steps env m l t c m' (l' : L) r ps :
  tick c env → is_u64 t → windows_ok (Build_RateState (rs_provider_rate (rm_state m)) ps c) →
  acquire_provider_request env m l t = (m', l', r) →
  rtc (rate_step (rs_provider_signals (rm_state m)))
    (Build_RateState (rs_provider_rate (rm_state m)) ps c)
    (Build_RateState (rs_provider_rate (rm_state m'))
       (match r with Ok p => p :: ps | Err _ => ps end) (ev_now env)).
Proof.
  intros Ht Htok Hwo. pose proof (current_steps (rs_provider_signals (rm_state m)) _ _ _ _ Ht Hwo) as [Hcur Hpos].
  unfold acquire_provider_request. destruct (flatten _) as [[m1 l1] r1] eqn:Hf.
  intros Heq. apply flatten_inv in Hf as (r' & Hu & Hr).
  assert (m' = m1) as -> by (by destruct r1; injection Heq).
  apply update_state in Hu as [(Hok & Hs & Hr')|(Hok & Hs)].
  - destruct Hr as [->|(e & -> & _)]; [|done]. injection Hr' as ->. rewrite Hs. clear Hs Hok.
    revert Heq. cbv beta zeta. fold (current env (rs_provider_rate (rm_state m))).
    destruct (request_limit_reached _ _) eqn:Hq; [by intros [= <- <-]|].
    destruct (token_limit_exceeded _ _ _) eqn:Hk; [by intros [= <- <-]|].
    simpl. intros [= <- <-]. eapply rtc_r; [exact Hcur|].
    by apply (ra_reserve _ t).
  - rewrite Hs. destruct Hr as [->|(e & -> & ->)]; [done|]. injection Heq as <- <-. by apply tick_step.
Qed.

Lemma mark_started_steps env m l c m' (l' : L) p p' r ps1 ps2 :
  tick c env → windows_ok (Build_RateState (rs_provider_rate (rm_state m)) (ps1 ++ p :: ps2) c) →
  mark_started env m l p = (m', l', (p', r)) →
  rtc (rate_step (rs_provider_signals (rm_state m)))
    (Build_RateState (rs_provider_rate (rm_state m)) (ps1 ++ p :: ps2) c)
    (Build_RateState (rs_provider_rate (rm_state m')) (ps1 ++ p' :: ps2) (ev_now env)).
Proof.
  intros Ht Hwo. pose proof (current_steps (rs_provider_signals (rm_state m)) _ _ _ _ Ht Hwo) as [Hcur Hpos].
  unfold mark_started. destruct (pp_state p) eqn:Hst; [|intros [= <- <- <- <-]; by apply tick_step..].
  destruct (mark_provider_request_started _ _ _ _ _) as [[m1 l1] r1] eqn:Hf.
  intros Heq. apply flatten_inv in Hf as (r' & Hu & Hr).
  assert (m' = m1) as -> by (by destruct r1; injection Heq).
  apply update_state in Hu as [(Hok & Hs & Hr')|(Hok & Hs)].
  - destruct Hr as [->|(e & -> & _)]; [|done]. injection Hr' as ->. rewrite Hs. clear Hs Hok.
    revert Heq. cbv beta zeta. fold (current env (rs_provider_rate (rm_state m))).
    destruct (bool_decide _) eqn:Hw; simpl.
    + apply bool_decide_eq_true in Hw.
      destruct (_ || _); [by intros [= <- <- <-]|]. simpl. intros [= <- <- <-].
      eapply rtc_r; [exact Hcur|].
      destruct p as [t v st]; simpl in *; subst. by apply ra_start.
    + apply bool_decide_eq_false in Hw.
      destruct (request_limit_reached _ _) eqn:Hq; [by intros [= <- <- <-]|].
      destruct (token_limit_exceeded _ _ _) eqn:Hk; [by intros [= <- <- <-]|].
      simpl. intros [= <- <- <-]. eapply rtc_r; [exact Hcur|].
      destruct p as [t v st]; simpl in *; subst. by apply ra_start_new.
  - rewrite Hs. destruct Hr as [->|(e & -> & ->)]; [done|]. injection Heq as <- <- <-. by apply tick_step.
Qed.

Lemma rollback_start_steps env m l c m' (l' : L) p p' r ps1 ps2 :
  tick c env → rollback_start env m l p = (m', l', (p', r)) →
  rtc (rate_step (rs_provider_signals (rm_state m)))
    (Build_RateState (rs_provider_rate (rm_state m)) (ps1 ++ p :: ps2) c)
    (Build_RateState (rs_provider_rate (rm_state m')) (ps1 ++ p' :: ps2) (ev_now env)).
Proof.
  intros Ht. pose proof (tick_step (rs_provider_signals (rm_state m)) _
    (rs_provider_rate (rm_state m)) (ps1 ++ p :: ps2) _ Ht) as Hcur.
  unfold rollback_start. destruct (pp_state p) eqn:Hst; [by intros [= <- <- <- <-]| |by intros [= <- <- <- <-]].
  destruct (rollback_provider_request_start _ _ _ _ _) as [[m1 l1] r1] eqn:Hf.
  intros Heq. apply flatten_inv in Hf as (r' & Hu & Hr).
  assert (m' = m1) as -> by (by destruct r1; injection Heq).
  apply update_state in Hu as [(Hok & Hs & Hr')|(Hok & Hs)].
  - destruct Hr as [->|(e & -> & _)]; [|done]. injection Hr' as ->. rewrite Hs. clear Hs Hok.
    revert Heq. cbv beta zeta. destruct (bool_decide _) eqn:Hw; simpl.
    + apply bool_decide_eq_true in Hw. case_decide; [by intros [= <- <- <-]|]. simpl.
      intros [= <- <- <-]. eapply rtc_r; [exact Hcur|].
      destruct p as [t v st]; simpl in *; subst. by apply ra_unstart.
    + apply bool_decide_eq_false in Hw. intros [= <- <- <-]. eapply rtc_r; [exact Hcur|].
      destruct p as [t v st]; simpl in *; subst. by apply ra_unstart_old.
  - rewrite Hs. destruct Hr as [->|(e & -> & ->)]; [done|]. by injection Heq as <- <- <-.
Qed.

Lemma drop_permit_steps env m l c m' (l' : L) p ps1 ps2 :
  tick c env → drop_permit env m l p = (m', l') →
  rtc (rate_step (rs_provider_signals (rm_state m)))
    (Build_RateState (rs_provider_rate (rm_state m)) (ps1 ++ p :: ps2) c)
    (Build_RateState (rs_provider_rate (rm_state m')) (ps1 ++ ps2) (ev_now env)).
Proof.
  intros Ht Hd. etrans; [by apply tick_step|].
  assert (rate_step (rs_provider_signals (rm_state m))
    (Build_RateState (rs_provider_rate (rm_state m)) (ps1 ++ p :: ps2) (ev_now env))
    (Build_RateState (rs_provider_rate (rm_state m)) (ps1 ++ ps2) (ev_now env))) as Hforget
    by constructor.
  unfold drop_permit in Hd. destruct (pp_state p) eqn:Hst.
  3: { injection Hd as <- _. by apply rtc_once. }
  all: apply fst_update in Hd as [r Hu]; apply update_state in Hu as [(Hok & Hs & _)|(Hok & Hs)];
    rewrite Hs; [|by apply rtc_once]; cbv beta zeta;
    destruct (bool_decide _) eqn:Hw; simpl; [|by apply rtc_once];
    apply bool_decide_eq_true in Hw; apply rtc_once; destruct p as [t v st]; simpl in *; subst;
    by first [apply ra_release_reserved|apply ra_release_started].
Qed.

Lemma mark_started_ok env m l m' (l' : L) p p' :
  mark_started env m l p = (m', l', (p', Ok tt)) → pp_state p' ≠ Reserved.
Proof.
  unfold mark_started. destruct (pp_state p) eqn:Hst; [|by intros [= <- <- <-]; rewrite Hst..].
  destruct (mark_provider_request_started _ _ _ _ _) as [[m1 l1] [v|e]]; by intros [= <- <- <-].
Qed.

Lemma commit_tokens_steps env m l c m' (l' : L) p actual ps1 ps2 :
  tick c env → is_u64 actual → pp_state p = Started →
  commit_provider_tokens env m l (pp_reserved_tokens p) actual (pp_window_started_at_unix_ms p) =
    (m', l', Ok tt) →
  rtc (rate_step (rs_provider_signals (rm_state m)))
    (Build_RateState (rs_provider_rate (rm_state m)) (ps1 ++ p :: ps2) c)
    (Build_RateState (rs_provider_rate (rm_state m')) (ps1 ++ ps2) (ev_now env)).
Proof.
  intros Ht Ha Hst Hu. etrans; [by apply tick_step|]. apply rtc_once.
  unfold commit_provider_tokens in Hu. apply update_state in Hu as [(_ & Hs & _)|(? & Hs)]; [|done]. rewrite Hs. cbv beta zeta.
  destruct (bool_decide _) eqn:Hw; simpl; [|by constructor].
  apply bool_decide_eq_true in Hw. destruct p as [t v st]; simpl in *; subst. by apply ra_commit.
Qed.

Lemma rates_invariant signals s s' : windows_ok s → rtc (rate_step signals) s s' → windows_ok s'.
Proof. intros Hs Hr. eapply rtc_preserves; [|exact Hs|exact Hr]. apply windows_ok_step. Qed.

Lemma signals_sans_rate s s' : sans_rate s' = sans_rate s → rs_provider_signals s' = rs_provider_signals s.
Proof.
  intros Hs. change (rs_provider_signals (sans_rate s') = rs_provider_signals (sans_rate s)).
  by rewrite Hs.
Qed.

Lemma commit_steps env1 env2 env3 m l c m' (l' : L) p actual r ps1 ps2 :
  tick c env1 → tick (ev_now env1) env2 → tick (ev_now env2) env3 → is_u64 actual →
  windows_ok (Build_RateState (rs_provider_rate (rm_state m)) (ps1 ++ p :: ps2) c) →
  commit env1 env2 env3 m l p actual = (m', l', r) →
  rtc (rate_step (rs_provider_signals (rm_state m)))
    (Build_RateState (rs_provider_rate (rm_state m)) (ps1 ++ p :: ps2) c)
    (Build_RateState (rs_provider_rate (rm_state m')) (ps1 ++ ps2) (ev_now env3)).
Proof.
  intros Ht1 Ht2 Ht3 Ha Hwo (m1 & l1 & p1 & r1 & Hm & Hrest)%commit_inv.
  pose proof (mark_started_steps _ _ _ _ _ _ _ _ _ _ _ Ht1 Hwo Hm) as Hsteps.
  pose proof (rates_invariant _ _ _ Hwo Hsteps) as [_ Hp]. simpl in Hp.
  rewrite Forall_app, Forall_cons in Hp. destruct Hp as (_ & (_ & Hnc & _) & _).
  pose proof (mark_started_keeps _ _ _ _ _ _ _ _ Hm) as Hsig1%signals_sans_rate.
  rewrite <-Hsig1 in Hsteps |- *. etrans; [exact Hsteps|].
  destruct Hrest as [(e & -> & -> & Hd)|(-> & m2 & l2 & r2 & Hc & [(e & -> & -> & Hd)|(-> & _ & -> & ->)])].
  - eapply drop_permit_steps; [|exact Hd]. destruct Ht2, Ht3. split; [lia|done].
  - pose proof (commit_tokens_keeps _ _ _ _ _ _ _ _ _ Hc) as Hsig2%signals_sans_rate.
    unfold commit_provider_tokens in Hc. apply update_state in Hc as [(? & _)|(_ & Hs)]; [done|].
    rewrite <-Hs. eapply drop_permit_steps; [|exact Hd]. destruct Ht2, Ht3. split; [lia|done].
  - assert (pp_state p1 = Started).
    { pose proof (mark_started_ok _ _ _ _ _ _ _ Hm). by destruct (pp_state p1). }
    etrans; [by eapply commit_tokens_steps|]. rewrite Hsig1. by apply tick_step.
Qed.

(** The operations that leave the window alone. *)
Lemma other_steps (signals : ProviderSignals) (m m' : Manager) ps c c' :
  (c ≤ c')%Z → rs_provider_rate (rm_state m') = rs_provider_rate (rm_state m) →
  rtc (rate_step signals) (Build_RateState (rs_provider_rate (rm_state m)) ps c)
    (Build_RateState (rs_provider_rate (rm_state m')) ps c').
Proof. intros Hc ->. by apply rtc_once; constructor. Qed.

Ltac window_kept :=
  match goal with
  | Hu : ?c = (?m', _, _) |- rs_provider_rate (rm_state ?m') = _ =>
      eapply (update_keeps rs_provider_rate); [|exact Hu]
  end.

Lemma step_refines s s' :
  windows_ok (rates s) → rm_step s s' →
  rtc (rate_step (rs_provider_signals (rm_state (sy_manager s)))) (rates s) (rates s').
Proof.
  unfold rates. intros Hwo Hstep. inversion Hstep; subst; simpl in *.
  all: repeat match goal with Ht : tick _ _ |- _ => pose proof (proj1 Ht); revert Ht end; intros.
  - apply other_steps; [done|]. by window_kept.
  - apply other_steps; [done|]. match goal with Hs : set_provider_signals _ _ _ _ = _ |- _ => apply fst_update in Hs as [r Hu] end.
    by eapply (update_keeps rs_provider_rate); [|exact Hu].
  - apply other_steps; [done|]. unfold try_acquire_agent in *.
    destruct (with_state_update _ _ _ _) as [[m1 l1] r1] eqn:Hu.
    assert (m' = m1) as -> by (by destruct r1; simplify_eq).
    eapply (update_keeps rs_provider_rate); [|exact Hu]. intros s.
    cbv beta zeta. by repeat (case_match || case_decide).
  - apply other_steps; [done|]. unfold try_acquire_reattached_agent in *.
    by repeat case_match; simplify_eq.
  - apply other_steps; [done|]. unfold try_acquire_effect in *. by repeat case_match; simplify_eq.
  - done.
  - done.
  - by eapply acquire_request_steps.
  - by eapply mark_started_steps.
  - by eapply rollback_start_steps.
  - by eapply commit_steps.
  - by eapply drop_permit_steps.
  - apply other_steps; [done|]. by window_kept.
  - apply other_steps; [done|]. window_kept.
    intros s. cbv beta. by case_decide.
  - apply other_steps; [done|]. window_kept.
    intros s. cbv beta. by case_decide.
  - apply other_steps; [done|]. unfold record_tokens_and_cost in *.
    destruct (with_state_update _ _ _ _) as [[m1 l1] r1] eqn:Hu.
    assert (m' = m1) as -> by (by destruct r1; simplify_eq).
    by eapply (update_keeps rs_provider_rate); [|exact Hu].
  - done.
Qed.

Lemma history_windows_ok s0 s : windows_ok (rates s0) → rtc rm_step s0 s → windows_ok (rates s).
Proof.
  intros H0 Hr. eapply (rtc_preserves _ (λ s, windows_ok (rates s))); [|exact H0|exact Hr].
  intros x y Hx Hxy. eapply rates_invariant; [exact Hx|by apply step_refines].
Qed.

(** Histories during which the provider keeps its limits. *)
Definition steady_step (s s' : Sys (L := L) (E := E)) : Prop :=
  rm_step s s' ∧
  rs_provider_signals (rm_state (sy_manager s')) = rs_provider_signals (rm_state (sy_manager s)).

Section limits.
Context (signals : ProviderSignals) (rpm tpm : Z).
Hypothesis Hrpm : ps_requests_per_minute signals = Some rpm.
Hypothesis Htpm : ps_tokens_per_minute signals = Some tpm.
Hypothesis Hrpm_max : (0 ≤ rpm < u64_max)%Z.
Hypothesis Htpm_max : (0 ≤ tpm < u64_max)%Z.

Lemma steady_counted s0 s :
  rs_provider_signals (rm_state (sy_manager s0)) = signals →
  windows_ok (rates s0) → reservations_counted rpm (rates s0) → rtc steady_step s0 s →
  rs_provider_signals (rm_state (sy_manager s)) = signals ∧
  windows_ok (rates s) ∧ reservations_counted rpm (rates s).
Proof.
  intros Hs Hw Hc Hr.
  eapply (rtc_preserves steady_step (λ s, rs_provider_signals (rm_state (sy_manager s)) = signals ∧
    windows_ok (rates s) ∧ reservations_counted rpm (rates s))); [|done|exact Hr].
  clear s0 s Hs Hw Hc Hr. intros s s' (Hs & Hw & Hc) [Hstep Hsame].
  split; [congruence|]. pose proof (step_refines _ _ Hw Hstep) as Hrates. rewrite Hs in Hrates.
  eapply (rtc_preserves (rate_step signals) (λ r, windows_ok r ∧ reservations_counted rpm r));
    [|done|exact Hrates].
  intros x y [Hx Hx'] Hxy. split; [by eapply windows_ok_step|].
  by eapply reservations_counted_step.
Qed.
End limits.

Lemma fresh_counted (s : Sys (L := L) (E := E)) rpm :
  (0 ≤ rpm)%Z → rs_provider_rate (rm_state (sy_manager s)) = window_default → sy_permits s = [] →
  (0 ≤ sy_clock s)%Z → windows_ok (rates s) ∧ reservations_counted rpm (rates s).
Proof.
  intros Hr Hw Hp Hc. unfold rates. rewrite Hw, Hp. split; split; simpl; try done.
  repeat constructor; unfold u64_max; lia.
Qed.

(** C39: The provider's rate limits are kept and no reservation is lost.  Along
    every history that starts with an empty window and during which the
    provider announces the limits [rpm] and [tpm], the requests of the current
    window, started or reserved, never exceed [rpm]; the window's counters
    cover every permit that is held in it: its reservations, its started
    requests and their tokens; so no saturating subtraction of the code ever
    loses a count. *)
Theorem rate_limits_kept (s0 s : Sys (L := L) (E := E)) rpm tpm :
  ps_requests_per_minute (rs_provider_signals (rm_state (sy_manager s0))) = Some rpm →
  ps_tokens_per_minute (rs_provider_signals (rm_state (sy_manager s0))) = Some tpm →
  (0 ≤ rpm < u64_max)%Z → (0 ≤ tpm < u64_max)%Z →
  rs_provider_rate (rm_state (sy_manager s0)) = window_default → sy_permits s0 = [] →
  (0 ≤ sy_clock s0)%Z →
  rtc steady_step s0 s →
  reservations_counted rpm (rates s).
Proof.
  intros Hr Ht Hrm Htm Hw Hp Hc Hrtc.
  destruct (fresh_counted s0 rpm) as [Hwo Hco]; [lia|done..|].
  by eapply steady_counted.
Qed.

(** A reservation can always be used.  In such a history, starting a request
    whose reservation belongs to the current window fails only when the
    checkpoint cannot be written; the permit of a failed start is unchanged. *)
Theorem reservation_usable (s0 s : Sys (L := L) (E := E)) rpm tpm env p m' l' p' e :
  ps_requests_per_minute (rs_provider_signals (rm_state (sy_manager s0))) = Some rpm →
  ps_tokens_per_minute (rs_provider_signals (rm_state (sy_manager s0))) = Some tpm →
  (0 ≤ rpm < u64_max)%Z → (0 ≤ tpm < u64_max)%Z →
  rs_provider_rate (rm_state (sy_manager s0)) = window_default → sy_permits s0 = [] →
  (0 ≤ sy_clock s0)%Z →
  rtc steady_step s0 s → p ∈ sy_permits s →
  window_expired (ev_now env) (rs_provider_rate (rm_state (sy_manager s))) = false →
  pp_window_started_at_unix_ms p =
    pw_started_at_unix_ms (rs_provider_rate (rm_state (sy_manager s))) →
  mark_started env (sy_manager s) (sy_ledger s) p = (m', l', (p', Err e)) →
  p' = p ∧ ∃ e', e = CheckpointPersistenceFailed e'.
Proof.
  intros Hr Ht Hrm Htm Hw0 Hp0 Hc0 Hrtc Hp Hx Hw.
  assert (reservations_counted rpm (rates s)) as Hco.
  { destruct (fresh_counted s0 rpm) as [Hwo Hco]; [lia|done..|]. by eapply steady_counted. }
  unfold mark_started. destruct (pp_state p) eqn:Hst; [|done..].
  destruct (mark_provider_request_started _ _ _ _ _) as [[m1 l1] r1] eqn:Hf.
  intros Heq. apply flatten_inv in Hf as (r' & Hu & Hr').
  apply update_cases in Hu as (s1 & x & c & Hup & [(-> & _)|(e1 & -> & _)]); cycle 1.
  { destruct Hr' as [?|(? & [= <-] & ->)]; [done|]. injection Heq as <- <- <- <-. eauto. }
  exfalso. revert Hup. cbv beta zeta. rewrite Hx.
  rewrite bool_decide_true by done. cbn [negb].
  destruct Hco as [_ Hpt _ H1 _ H3 _ _]. simpl in *.
  apply list_elem_of_split in Hp as (ps1 & ps2 & Hps). rewrite Hps in *.
  rewrite psum_app, psum_cons in H1, H3. rewrite Forall_app, Forall_cons in Hpt.
  rewrite <-Hw in H1, H3. destruct p as [t v st]; simpl in *; subst st.
  change (Build_ProviderRatePermit t v Reserved) with (permit t v Reserved) in *.
  rewrite held_here in H1, H3. simpl in H3. rewrite one_eq in H1.
  pose proof (psum_one_nonneg v Reserved ps1). pose proof (psum_one_nonneg v Reserved ps2).
  pose proof (psum_tokens_nonneg v Reserved ps1 ltac:(tauto)).
  pose proof (psum_tokens_nonneg v Reserved ps2 ltac:(tauto)).
  rewrite !bool_decide_false by lia. simpl. intros [= <- <- <-].
  destruct Hr' as [[= <-]|(? & ? & _)]; done.
Qed.
End refinement.
