(* ===== verification/ResourceUpdates.v ===== *)
(** * The transactions of the resource manager

    Every operation of the resource manager is a sequence of elementary steps:
    transactions whose new state is well formed, changes of the transient
    counters, and records of other components.  What holds along elementary
    steps holds along every history: failures are final, and usage is counted
    once. *)
From stdpp Require Import relations.
From S2P Require Import Prelude Json Types WorkflowTypes RuntimeLedger LedgerInterface.
From S2P Require Import ResourceTypes ResourceManager ResourceFacts ResourceRates.

Definition cost_fin (s : ResourceStateSnapshot) : Prop := f64_fin (ru_cost (rs_usage s)).

(** What a transaction may do to the state [s]. *)
Definition sound_at {R} (upd : ResourceStateSnapshot → ResourceStateSnapshot * (R * bool))
    (s : ResourceStateSnapshot) : Prop :=
  let '(s', (_, changed)) := upd s in
  (changed = false → s' = s) ∧
  rs_applied_usage_effects s ⊆ rs_applied_usage_effects s' ∧
  (cost_fin s' → cost_fin s) ∧ (state_ok s → cost_fin s' → state_ok s').

(** ** Machine-integer facts *)

Ltac forall_list := repeat apply Forall_cons_2; try apply Forall_nil_2.

Lemma f64_add_fin a b : f64_fin (f64_add a b) → f64_fin a.
Proof. destruct a, b; try done. by destruct s, s0. Qed.

Lemma sat_add_u64 a b : is_u64 a → is_u64 b → is_u64 (saturating_add a b).
Proof. apply saturating_add_u64. Qed.
Lemma sat_sub_u64 a b : is_u64 a → is_u64 b → is_u64 (saturating_sub a b).
Proof. apply saturating_sub_u64. Qed.
Lemma zero_u64 : is_u64 0.
Proof. unfold is_u64, u64_max. lia. Qed.
Lemma one_u64 : is_u64 1.
Proof. unfold is_u64, u64_max. lia. Qed.
#[local] Hint Resolve sat_add_u64 sat_sub_u64 zero_u64 one_u64 : mesh.

Lemma total_tokens_u64 signals u :
  token_usage_ok u → is_u64 (ct_uncached_input_tokens (categorize_usage signals u)) ∧
  is_u64 (total_tokens (categorize_usage signals u)).
Proof.
  intros (?&?&?&?). unfold total_tokens, categorize_usage. simpl.
  destruct (ps_cache_token_accounting signals) as [[]|]; simpl; auto 10 with mesh.
Qed.

Lemma min_u64 n : is_u64 (Z.min u64_max (Z.of_nat n)).
Proof. unfold is_u64, u64_max. lia. Qed.

Lemma deadline_for_ok now b : opt_ok is_i64 (deadline_for now b).
Proof.
  unfold deadline_for. destruct (rb_max_wall_time_ms b); [|done]. simpl.
  unfold i64_saturating_add, i64_saturating, is_i64, i64_min, i64_max. lia.
Qed.

Lemma add_model_usage_ok signals usage count_turn u :
  token_usage_ok usage → usage_ok u → f64_fin (ru_cost (add_model_usage signals usage count_turn u)) →
  usage_ok (add_model_usage signals usage count_turn u).
Proof.
  intros Htu [Hu _] Hc. split; [|done]. rewrite !Forall_cons in Hu.
  destruct (total_tokens_u64 signals usage Htu). destruct Htu as (?&?&?&?).
  destruct Hu as (?&?&?&?&?&?&?&?&?&?&?&?&?&_). simpl.
  forall_list; simpl; auto with mesh. destruct count_turn; auto with mesh.
Qed.

Lemma add_model_usage_fin signals usage count_turn u :
  f64_fin (ru_cost (add_model_usage signals usage count_turn u)) → f64_fin (ru_cost u).
Proof. simpl. destruct (usage_cost signals usage); [apply f64_add_fin|done]. Qed.

Lemma count_duplicates_range calls seen : is_u64 (count_duplicates calls seen).2.
Proof.
  unfold count_duplicates. assert (is_u64 (seen, 0%Z).2) as H0 by apply zero_u64.
  revert H0. generalize (seen, 0%Z).
  induction calls as [|call calls IH]; intros [sn d] Hd; [done|]. simpl. apply IH.
  case_decide; simpl in *; auto with mesh.
Qed.

Lemma add_tool_calls_ok calls u : usage_ok u → usage_ok (add_tool_calls calls u).
Proof.
  intros [Hu Hc]. pose proof (count_duplicates_range calls (ru_seen_tool_call_fingerprints u)).
  unfold add_tool_calls. destruct (count_duplicates _ _) as [seen d]. split; [|done].
  rewrite !Forall_cons in Hu. destruct Hu as (?&?&?&?&?&?&?&?&?&?&?&?&?&_).
  forall_list; simpl; auto using min_u64 with mesh.
Qed.

Lemma add_tool_calls_cost calls u : ru_cost (add_tool_calls calls u) = ru_cost u.
Proof. unfold add_tool_calls. by destruct (count_duplicates _ _). Qed.

(** ** Each transaction is sound *)

Section sound.
Context (env : Env) (s : ResourceStateSnapshot).

Lemma sound_rate {R} (upd : ResourceStateSnapshot → ResourceStateSnapshot * (R * bool)) w x changed :
  upd s = (set_rate w s, (x, changed)) → (changed = false → w = rs_provider_rate s) →
  (window_ok (rs_provider_rate s) → window_ok w) → sound_at upd s.
Proof.
  unfold sound_at. intros -> Hch Hw. split_and!; [|done|done|].
  - intros Hc. rewrite (Hch Hc). by destruct s.
  - intros (?&?&?&?&?) _. by split_and!; auto.
Qed.

Lemma sound_same {R} (upd : ResourceStateSnapshot → ResourceStateSnapshot * (R * bool)) x changed :
  upd s = (s, (x, changed)) → sound_at upd s.
Proof. unfold sound_at. by intros ->. Qed.

Lemma window_ok_intro w a b c d e :
  is_i64 (pw_started_at_unix_ms w) →
  is_u64 a → is_u64 b → is_u64 c → is_u64 d → is_u64 e →
  window_ok {| pw_started_at_unix_ms := pw_started_at_unix_ms w; pw_requests := a;
               pw_reserved_requests := b; pw_tokens := c; pw_reserved_tokens := d;
               pw_unstarted_reserved_tokens := e |}.
Proof. intros. split; [done|]. by forall_list. Qed.

Lemma window_at_ok now : is_i64 now → window_ok (window_at now).
Proof. intros. split; [done|]. forall_list; apply zero_u64. Qed.
End sound.

Lemma window_ok_inv w :
  window_ok w →
  is_i64 (pw_started_at_unix_ms w) ∧ is_u64 (pw_requests w) ∧ is_u64 (pw_reserved_requests w) ∧
  is_u64 (pw_tokens w) ∧ is_u64 (pw_reserved_tokens w) ∧ is_u64 (pw_unstarted_reserved_tokens w).
Proof. intros [? Hw]. rewrite !Forall_cons in Hw. tauto. Qed.

Lemma current_ok env w : is_i64 (ev_now env) → window_ok w → window_ok (current env w).
Proof. unfold current. intros. destruct (window_expired _ _); [by apply window_at_ok|done]. Qed.

Section steps.
Context {L E : Type} `{!Ledger L E, !LedgerLaws L E}.

Notation Manager := (ResourceManager E).

(** The counters that are not written to the ledger. *)
Definition set_transient (a e : Z) (s : ResourceStateSnapshot) : ResourceStateSnapshot :=
  set_usage (set_concurrent_effects e (set_active_agents a (rs_usage s))) s.

Inductive micro : Manager * L → Manager * L → Prop :=
  | micro_update R env (upd : ResourceStateSnapshot → ResourceStateSnapshot * (R * bool)) m l m' l' r :
      with_state_update env m l upd = (m', l', r) → sound_at upd (rm_state m) → micro (m, l) (m', l')
  | micro_transient a e m l :
      is_u64 a → is_u64 e → micro (m, l) (set_state (set_transient a e (rm_state m)) m, l)
  | micro_other now run d ty v m l l' r :
      foreign ty → lg_append l now run d ty v = (l', r) → micro (m, l) (m, l').

Lemma micro_once {R} env (upd : ResourceStateSnapshot → ResourceStateSnapshot * (R * bool)) m l m' l' r :
  with_state_update env m l upd = (m', l', r) → sound_at upd (rm_state m) → rtc micro (m, l) (m', l').
Proof. intros. by eapply rtc_once, micro_update. Qed.

Lemma acquire_request_micro env m l t m' l' r :
  is_i64 (ev_now env) → is_u64 t → acquire_provider_request env m l t = (m', l', r) →
  rtc micro (m, l) (m', l').
Proof.
  intros Hnow Ht. unfold acquire_provider_request.
  destruct (flatten _) as [[m1 l1] r1] eqn:Hf. intros Heq.
  assert (m' = m1 ∧ l' = l1) as [-> ->] by (by destruct r1; injection Heq).
  apply flatten_inv in Hf as (r' & Hu & _). eapply micro_once; [exact Hu|].
  set (s := rm_state m). set (w := rs_provider_rate s).
  destruct (request_limit_reached (rs_provider_signals s) (current env w)) eqn:Hq.
  { eapply (sound_rate s _ (current env w)).
    - cbv beta zeta. fold w. fold (current env w). by rewrite Hq.
    - unfold current. by intros ->.
    - by apply current_ok. }
  destruct (token_limit_exceeded (rs_provider_signals s) (current env w) t) eqn:Hk.
  { eapply (sound_rate s _ (current env w)).
    - cbv beta zeta. fold w. fold (current env w). by rewrite Hq, Hk.
    - unfold current. by intros ->.
    - by apply current_ok. }
  eapply (sound_rate s).
  - cbv beta zeta. fold w. fold (current env w). by rewrite Hq, Hk.
  - done.
  - intros (?&?&?&?&?&?)%(current_ok env)%window_ok_inv; [|done]. apply window_ok_intro; auto with mesh.
Qed.

(** The current window is the stored one when a permit that is held belongs
    to it. *)
Lemma current_of_permit env w ps c p :
  tick c env → windows_ok (Build_RateState w ps c) → p ∈ ps →
  pw_started_at_unix_ms (current env w) = pp_window_started_at_unix_ms p → current env w = w.
Proof.
  intros (Hle & Hpos & Hi) [Hw Hps] Hp. simpl in *. rewrite Forall_forall in Hps.
  destruct (Hps p Hp) as ([? ?] & _). unfold current.
  destruct (window_expired (ev_now env) w) eqn:Hx; [|done]. simpl. intros Heq.
  apply window_expired_spec in Hx as [?|?]; [lia..|done].
Qed.

Lemma mark_started_micro env m l c p p' ps m' l' r :
  tick c env → windows_ok (Build_RateState (rs_provider_rate (rm_state m)) ps c) → p ∈ ps →
  mark_started env m l p = (m', l', (p', r)) → rtc micro (m, l) (m', l').
Proof.
  intros Ht Hwo Hp. unfold mark_started. destruct (pp_state p); [|by intros [= <- <- _ _]..].
  assert (is_u64 (pp_reserved_tokens p)) as Hpt.
  { destruct Hwo as [_ Hps]. rewrite Forall_forall in Hps. by apply Hps. }
  destruct (mark_provider_request_started _ _ _ _ _) as [[m1 l1] r1] eqn:Hf. intros Heq.
  assert (m' = m1 ∧ l' = l1) as [-> ->] by (by destruct r1; injection Heq).
  apply flatten_inv in Hf as (r' & Hu & _). eapply micro_once; [exact Hu|].
  pose proof (current_of_permit _ _ _ _ _ Ht Hwo Hp) as Hcur.
  set (s := rm_state m) in *. set (w := rs_provider_rate s) in *. destruct Ht as (_ & _ & Hnow).
  destruct (bool_decide (pw_started_at_unix_ms (current env w) = pp_window_started_at_unix_ms p)) eqn:Hb.
  - pose proof Hb as Hb'. apply bool_decide_eq_true in Hb'. specialize (Hcur Hb').
    destruct (bool_decide (pw_reserved_requests (current env w) = 0%Z) ||
      bool_decide (pw_unstarted_reserved_tokens (current env w) < pp_reserved_tokens p)%Z) eqn:Hr.
    { eapply (sound_rate s _ (current env w)).
      - cbv beta zeta. fold w. fold (current env w). by rewrite Hb, Hr.
      - done.
      - by rewrite Hcur. }
    apply orb_false_iff in Hr as [Hr1 Hr2].
    eapply (sound_rate s).
    + cbv beta zeta. fold w. fold (current env w). by rewrite Hb, Hr1, Hr2.
    + done.
    + apply bool_decide_eq_false in Hr1, Hr2.
      intros (?&?&?&?&?&?)%(current_ok env)%window_ok_inv; [|done].
      apply window_ok_intro; auto with mesh; unfold is_u64 in *; subst w; lia.
  - destruct (request_limit_reached (rs_provider_signals s) (current env w)) eqn:Hq.
    { eapply (sound_rate s _ (current env w)).
      - cbv beta zeta. fold w. fold (current env w). by rewrite Hb, Hq.
      - done.
      - by apply current_ok. }
    destruct (token_limit_exceeded (rs_provider_signals s) (current env w) (pp_reserved_tokens p)) eqn:Hk.
    { eapply (sound_rate s _ (current env w)).
      - cbv beta zeta. fold w. fold (current env w). by rewrite Hb, Hq, Hk.
      - done.
      - by apply current_ok. }
    eapply (sound_rate s).
    + cbv beta zeta. fold w. fold (current env w). by rewrite Hb, Hq, Hk.
    + done.
    + intros (?&?&?&?&?&?)%(current_ok env)%window_ok_inv; [|done].
      apply window_ok_intro; auto with mesh.
Qed.

Lemma rollback_start_micro env m l p p' m' l' r :
  is_u64 (pp_reserved_tokens p) →
  rollback_start env m l p = (m', l', (p', r)) → rtc micro (m, l) (m', l').
Proof.
  intros Hpt. unfold rollback_start.
  destruct (pp_state p); [by intros [= <- <- _ _]| |by intros [= <- <- _ _]].
  destruct (rollback_provider_request_start _ _ _ _ _) as [[m1 l1] r1] eqn:Hf. intros Heq.
  assert (m' = m1 ∧ l' = l1) as [-> ->] by (by destruct r1; injection Heq).
  apply flatten_inv in Hf as (r' & Hu & _). eapply micro_once; [exact Hu|].
  set (s := rm_state m). set (w := rs_provider_rate s).
  destruct (bool_decide (pw_started_at_unix_ms w = pp_window_started_at_unix_ms p)) eqn:Hb.
  - destruct (decide (pw_requests w = 0%Z)) eqn:Hr.
    { eapply sound_same. cbv beta zeta. fold w. by rewrite Hb, Hr. }
    eapply (sound_rate s).
    + cbv beta zeta. fold w. by rewrite Hb, Hr.
    + done.
    + intros (?&?&?&?&?&?)%window_ok_inv.
      apply window_ok_intro; auto with mesh; unfold is_u64 in *; subst w; lia.
  - eapply sound_same. cbv beta zeta. fold w. by rewrite Hb.
Qed.

Lemma drop_permit_micro env m l p m' l' :
  is_u64 (pp_reserved_tokens p) → drop_permit env m l p = (m', l') → rtc micro (m, l) (m', l').
Proof.
  intros Hpt. unfold drop_permit. set (s := rm_state m). set (w := rs_provider_rate s).
  destruct (pp_state p); [..|by intros [= <- <-]]; intros [r Hu]%fst_update;
    (eapply micro_once; [exact Hu|]); fold s;
    destruct (bool_decide (pw_started_at_unix_ms w = pp_window_started_at_unix_ms p)) eqn:Hb;
    try (eapply sound_same; cbv beta zeta; fold w; by rewrite Hb);
    (eapply (sound_rate s); [cbv beta zeta; fold w; by rewrite Hb|done|]);
    intros (?&?&?&?&?&?)%window_ok_inv; apply window_ok_intro; auto with mesh.
Qed.

Lemma commit_tokens_micro env m l t actual v m' l' r :
  is_u64 t → is_u64 actual → commit_provider_tokens env m l t actual v = (m', l', r) →
  rtc micro (m, l) (m', l').
Proof.
  intros Ht Ha Hu. eapply micro_once; [exact Hu|]. set (s := rm_state m). set (w := rs_provider_rate s).
  destruct (bool_decide (pw_started_at_unix_ms w = v)) eqn:Hb.
  - eapply (sound_rate s); [cbv beta zeta; fold w; by rewrite Hb|done|].
    intros (?&?&?&?&?&?)%window_ok_inv. apply window_ok_intro; auto with mesh.
  - eapply sound_same. cbv beta zeta. fold w. by rewrite Hb.
Qed.

Lemma commit_micro env1 env2 env3 m l c p actual ps m' l' r :
  tick c env1 → is_u64 actual →
  windows_ok (Build_RateState (rs_provider_rate (rm_state m)) ps c) → p ∈ ps →
  commit env1 env2 env3 m l p actual = (m', l', r) → rtc micro (m, l) (m', l').
Proof.
  intros Ht Ha Hwo Hp (m1 & l1 & p1 & r1 & Hm & Hrest)%commit_inv.
  assert (is_u64 (pp_reserved_tokens p1)) as Hpt.
  { destruct Hwo as [_ Hps]. rewrite Forall_forall in Hps. destruct (Hps p Hp) as (_ & _ & ?).
    unfold mark_started in Hm. destruct (pp_state p); [|by injection Hm as _ _ <- _..].
    destruct (mark_provider_request_started _ _ _ _ _) as [[? ?] [?|?]]; by injection Hm as _ _ <- _. }
  etrans; [by eapply mark_started_micro|].
  destruct Hrest as [(e & -> & -> & Hd)|(-> & m2 & l2 & r2 & Hc & [(e & -> & -> & Hd)|(-> & _ & -> & ->)])].
  - by eapply drop_permit_micro.
  - etrans; [eapply commit_tokens_micro; [exact Hpt|exact Ha|exact Hc]|by eapply drop_permit_micro].
  - eapply commit_tokens_micro; [exact Hpt|exact Ha|exact Hc].
Qed.

Lemma micro_set_budget env b m l m' l' r :
  budget_ok b → set_budget env m l b = (m', l', r) → rtc micro (m, l) (m', l').
Proof.
  intros Hb Hu. eapply micro_once; [exact Hu|]. unfold sound_at. split_and!; try done.
  intros (?&?&?&?&?) _. split_and!; try done. simpl. case_decide; [done|]. apply deadline_for_ok.
Qed.

Lemma micro_set_signals env p m l m' l' :
  signals_ok p → set_provider_signals env m l p = (m', l') → rtc micro (m, l) (m', l').
Proof.
  intros Hp [r Hu]%fst_update. eapply micro_once; [exact Hu|]. unfold sound_at. split_and!; try done.
  intros (?&?&?&?&?) _. by split_and!.
Qed.

Lemma usage_ok_intro s u : state_ok s → usage_ok u → state_ok (set_usage u s).
Proof. intros (?&?&?&?&?) ?. by split_and!. Qed.

Lemma set_active_ok a u : is_u64 a → usage_ok u → usage_ok (set_active_agents a u).
Proof.
  intros Ha [Hu Hc]. split; [|done]. rewrite !Forall_cons in Hu. simpl. forall_list; tauto.
Qed.
Lemma set_effects_ok a u : is_u64 a → usage_ok u → usage_ok (set_concurrent_effects a u).
Proof.
  intros Ha [Hu Hc]. split; [|done]. rewrite !Forall_cons in Hu. simpl. forall_list; tauto.
Qed.
Lemma set_descendants_ok a u : is_u64 a → usage_ok u → usage_ok (set_total_descendants a u).
Proof.
  intros Ha [Hu Hc]. split; [|done]. rewrite !Forall_cons in Hu. simpl. forall_list; tauto.
Qed.

Lemma usage_active u : usage_ok u → is_u64 (ru_active_agents u) ∧ is_u64 (ru_concurrent_effects u) ∧
  is_u64 (ru_total_descendants u) ∧ is_u64 (ru_tokens u).
Proof. intros [Hu _]. rewrite !Forall_cons in Hu. tauto. Qed.

Lemma micro_acquire_agent env depth m l m' l' ok :
  try_acquire_agent env m l depth = (m', l', ok) → rtc micro (m, l) (m', l').
Proof.
  unfold try_acquire_agent. destruct (with_state_update _ _ _ _) as [[m1 l1] r1] eqn:Hu. intros Heq.
  assert (m' = m1 ∧ l' = l1) as [-> ->] by (by destruct r1; injection Heq).
  eapply micro_once; [exact Hu|]. unfold sound_at. destruct (bool_decide _); [done|].
  case_decide as Hlim; [done|]. destruct (checked_add _ _) as [n|] eqn:Hn; [|done].
  apply checked_add_Some in Hn as [-> Hn]. split_and!; try done.
  intros Hs _. apply usage_ok_intro; [done|]. destruct Hs as (_&_&Hu'&_).
  destruct (usage_active _ Hu') as (Ha&_&Hd&_). pose proof (effective_agent_limit_bounds m).
  apply set_descendants_ok; [unfold is_u64 in *; lia|]. apply set_active_ok; [|done].
  unfold is_u64, u64_max in *. lia.
Qed.

Lemma micro_model_usage env u m l m' l' r :
  token_usage_ok u → record_model_usage_checked env m l u = (m', l', r) → rtc micro (m, l) (m', l').
Proof.
  intros Htu Hu. eapply micro_once; [exact Hu|]. unfold sound_at. simpl. split_and!; try done.
  - apply add_model_usage_fin.
  - intros Hs Hc. apply usage_ok_intro; [done|]. destruct Hs as (_&_&?&_). by apply add_model_usage_ok.
Qed.

Lemma micro_model_usage_once env id u count_turn m l m' l' r :
  token_usage_ok u → record_model_usage_once_checked env m l id u count_turn = (m', l', r) →
  rtc micro (m, l) (m', l').
Proof.
  intros Htu Hu. eapply micro_once; [exact Hu|]. unfold sound_at. case_decide; [done|]. simpl.
  split_and!; [done|set_solver|apply add_model_usage_fin|].
  intros Hs Hc. apply usage_ok_intro; [by destruct Hs as (?&?&?&?&?); split_and!|].
  destruct Hs as (_&_&?&_). by apply add_model_usage_ok.
Qed.

Lemma micro_tool_calls env id calls m l m' l' r :
  record_tool_calls_once_checked env m l id calls = (m', l', r) → rtc micro (m, l) (m', l').
Proof.
  intros Hu. eapply micro_once; [exact Hu|]. unfold sound_at. case_decide; [done|]. simpl.
  split_and!; [done|set_solver| |].
  - unfold cost_fin. simpl. by rewrite add_tool_calls_cost.
  - intros Hs Hc. apply usage_ok_intro; [by destruct Hs as (?&?&?&?&?); split_and!|].
    destruct Hs as (_&_&?&_). by apply add_tool_calls_ok.
Qed.

Lemma micro_tokens_and_cost env t c m l m' l' ok :
  is_u64 t → record_tokens_and_cost env m l t c = (m', l', ok) → rtc micro (m, l) (m', l').
Proof.
  intros Ht. unfold record_tokens_and_cost.
  destruct (with_state_update _ _ _ _) as [[m1 l1] r1] eqn:Hu. intros Heq.
  assert (m' = m1 ∧ l' = l1) as [-> ->] by (by destruct r1; injection Heq).
  eapply micro_once; [exact Hu|]. unfold sound_at. split_and!; try done.
  - apply f64_add_fin.
  - intros Hs Hc. apply usage_ok_intro; [done|]. destruct Hs as (_&_&[Hu' _]&_). split; [|done].
    rewrite !Forall_cons in Hu'. destruct Hu' as (?&?&?&?&?&?&?&?&?&?&?&?&?&_). simpl.
    forall_list; auto with mesh.
Qed.

Lemma step_micro s s' :
  permits_counted s → windows_ok (rates s) → rm_step s s' →
  rtc micro (sy_manager s, sy_ledger s) (sy_manager s', sy_ledger s').
Proof.
  intros [Hc Ha He] Hwo Hstep. pose proof Hwo as [_ Hps].
  inversion Hstep; subst; simpl in *; try rewrite Forall_app, Forall_cons in Hps.
  - by eapply micro_set_budget.
  - by eapply micro_set_signals.
  - by eapply micro_acquire_agent.
  - unfold try_acquire_reattached_agent in *. repeat case_match; simplify_eq; try done.
    injection Hc as Hc1 Hc2. apply rtc_once.
    eapply (micro_transient (ru_active_agents (rs_usage (rm_state m)) + 1)
      (ru_concurrent_effects (rs_usage (rm_state m)))); [|by rewrite Hc2].
    pose proof (effective_agent_limit_bounds m). unfold is_u64, u64_max. lia.
  - unfold try_acquire_effect in *. injection Hc as Hc1 Hc2.
    repeat case_match; simplify_eq; try done; apply rtc_once.
    eapply (micro_transient (ru_active_agents (rs_usage (rm_state m)))
      (ru_concurrent_effects (rs_usage (rm_state m)) + 1)); unfold is_u64, MAX_ACTIVE_AGENTS, usize_max, u64_max in *; lia.
  - injection Hc as Hc1 Hc2. apply rtc_once.
    eapply (micro_transient (saturating_sub (ru_active_agents (rs_usage (rm_state m))) 1)
      (ru_concurrent_effects (rs_usage (rm_state m)))); unfold saturating_sub, is_u64, MAX_ACTIVE_AGENTS, usize_max, u64_max in *; lia.
  - injection Hc as Hc1 Hc2. apply rtc_once.
    eapply (micro_transient (ru_active_agents (rs_usage (rm_state m)))
      (saturating_sub (ru_concurrent_effects (rs_usage (rm_state m))) 1)); unfold saturating_sub, is_u64, MAX_ACTIVE_AGENTS, usize_max, u64_max in *; lia.
  - match goal with Ht : tick _ _ |- _ => destruct Ht as (_&_&?) end. by eapply acquire_request_micro.
  - eapply mark_started_micro; [done|exact Hwo| |done]. set_solver.
  - eapply rollback_start_micro; [|done]. tauto.
  - eapply (commit_micro env1); [done..|exact Hwo| |done]. set_solver.
  - eapply drop_permit_micro; [|done]. tauto.
  - by eapply micro_model_usage.
  - by eapply micro_model_usage_once.
  - by eapply micro_tool_calls.
  - by eapply micro_tokens_and_cost.
  - apply rtc_once. by eapply micro_other.
Qed.

(** ** Histories from a manager without permits *)

Record fresh_sys (s : Sys (L := L) (E := E)) : Prop := {
  fs_counts : counts (rm_state (sy_manager s)) = (0, 0)%Z;
  fs_agents : sy_agents s = 0%Z;
  fs_effects : sy_effects s = 0%Z;
  fs_permits : sy_permits s = [];
  fs_window : (0 ≤ pw_started_at_unix_ms (rs_provider_rate (rm_state (sy_manager s))) ≤ sy_clock s)%Z;
}.

Definition steps_ok (s : Sys (L := L) (E := E)) : Prop := permits_counted s ∧ windows_ok (rates s).

Lemma fresh_steps_ok s : fresh_sys s → steps_ok s.
Proof.
  intros [Hc Ha He Hp Hw]. split; split; rewrite ?Hc, ?Ha, ?He; simpl; rewrite ?Hp; try done.
Qed.

Lemma steps_ok_step s s' : steps_ok s → rm_step s s' → steps_ok s'.
Proof.
  intros [Hp Hw] Hs. split; [by eapply permits_counted_step|].
  eapply rates_invariant; [exact Hw|by apply step_refines].
Qed.

Lemma history_micro s s' :
  steps_ok s → rtc rm_step s s' →
  steps_ok s' ∧ rtc micro (sy_manager s, sy_ledger s) (sy_manager s', sy_ledger s').
Proof.
  intros Hs Hr. induction Hr as [s|s s1 s' H1 Hr IH]; [done|].
  destruct (IH (steps_ok_step _ _ Hs H1)) as [Hs' Hm]. split; [done|].
  destruct Hs as [Hp Hw]. etrans; [by apply step_micro|done].
Qed.

(** A manager stays attached, keeps its first error and forgets no applied
    identifier. *)
Record evolves (m m' : Manager) : Prop := {
  ev_persistence : rm_persistence m' = rm_persistence m;
  ev_hint : rm_system_parallelism_hint m' = rm_system_parallelism_hint m;
  ev_error : ∀ e, rm_persistence_error m = Some e → rm_persistence_error m' = Some e;
  ev_applied : rs_applied_usage_effects (rm_state m) ⊆ rs_applied_usage_effects (rm_state m');
}.

#[local] Instance evolves_preorder : PreOrder evolves.
Proof.
  split; [by split|]. intros m1 m2 m3 [H1 H2 H3 H4] [? ? ? ?]. split; [congruence..|auto|set_solver].
Qed.

Lemma micro_evolves c c' : micro c c' → evolves c.1 c'.1.
Proof.
  intros Hm. inversion Hm as [R env upd m l m' l' r Hu Hs|a e m l|now run d ty v m l l' r]; subst; simpl.
  - unfold sound_at in Hs.
    apply update_cases in Hu as (s' & x & ch & Hx & [(-> & Hm' & _)|(e & -> & _ & -> & _)]).
    + rewrite Hx in Hs. rewrite Hm'. split; simpl; try done. tauto.
    + split; simpl; try done. by intros e' ->.
  - by split.
  - done.
Qed.

Lemma history_evolves s s' : steps_ok s → rtc rm_step s s' → evolves (sy_manager s) (sy_manager s').
Proof.
  intros Hs Hr. destruct (history_micro _ _ Hs Hr) as [_ Hm]. clear Hs Hr.
  remember (sy_manager s, sy_ledger s) as c eqn:Hc. remember (sy_manager s', sy_ledger s') as c' eqn:Hc'.
  change (sy_manager s) with (sy_manager s, sy_ledger s).1. rewrite <-Hc.
  change (sy_manager s') with (sy_manager s', sy_ledger s').1. rewrite <-Hc'. clear Hc Hc'.
  induction Hm; [done|]. etrans; [by apply micro_evolves|done].
Qed.

(** Once a checkpoint has failed no permit is issued. *)
Lemma failed_issues_nothing s s' :
  is_Some (rm_persistence_error (sy_manager s)) → rm_step s s' →
  (sy_agents s' ≤ sy_agents s)%Z ∧ (sy_effects s' ≤ sy_effects s)%Z.
Proof.
  intros [e He] Hstep. inversion Hstep; subst; simpl in *; try lia.
  - match goal with Ht : try_acquire_agent _ _ _ _ = _ |- _ => revert Ht end. unfold try_acquire_agent.
    destruct (with_state_update _ _ _ _) as [[m1 l1] r1] eqn:Hu.
    apply update_state in Hu as [(_ & _ & Hr)|(? & _)]; [|destruct r1; [done|intros [= <- <- <-]; lia]].
    rewrite Hr. rewrite bool_decide_true; [simpl; intros [= <- <- <-]; lia|].
    apply not_eq_None_Some. rewrite agent_reason_None. intros (_ & _ & _ & Hp & _). congruence.
  - match goal with Ht : try_acquire_reattached_agent _ _ _ = _ |- _ => revert Ht end.
    unfold try_acquire_reattached_agent. rewrite bool_decide_true; [intros [= <- <-]; lia|].
    apply not_eq_None_Some. rewrite reattached_reason_None. intros (_ & Hp & _). congruence.
  - match goal with Ht : try_acquire_effect _ _ = _ |- _ => revert Ht end.
    unfold try_acquire_effect. rewrite bool_decide_true; [intros [= <- <-]; lia|].
    apply not_eq_None_Some. rewrite runtime_reason_None. intros (Hp & _). congruence.
Qed.

Lemma failed_history s s' :
  steps_ok s → is_Some (rm_persistence_error (sy_manager s)) → rtc rm_step s s' →
  (sy_agents s' ≤ sy_agents s)%Z ∧ (sy_effects s' ≤ sy_effects s)%Z.
Proof.
  intros Hs He Hr. induction Hr as [|s s1 s' H1 Hr IH]; [done|].
  destruct (failed_issues_nothing _ _ He H1) as [Ha Hf].
  destruct IH as [Ha' Hf']; [by eapply steps_ok_step| |lia].
  destruct He as [e He]. exists e. by apply (ev_error _ _ (history_evolves _ _ Hs (rtc_once _ _ H1))).
Qed.

(** A failed checkpoint is final.  A transaction whose record cannot be
    written leaves the accounts and the ledger's contents as they were and
    records the error; in every history that follows the error stays, and no
    further Agent or effect permit is ever issued. *)
Theorem persistence_failure_final {R} s0 s env
    (upd : ResourceStateSnapshot → ResourceStateSnapshot * (R * bool)) m1 l1 e s2 :
  fresh_sys s0 → rtc rm_step s0 s →
  with_state_update env (sy_manager s) (sy_ledger s) upd = (m1, l1, Err e) →
  rtc rm_step (Build_Sys m1 l1 (sy_agents s) (sy_effects s) (sy_permits s) (sy_clock s)) s2 →
  rm_state m1 = rm_state (sy_manager s) ∧ same_contents (sy_ledger s) l1 ∧
  is_Some (rm_persistence_error m1) ∧
  rm_persistence_error (sy_manager s2) = rm_persistence_error m1 ∧
  (sy_agents s2 ≤ sy_agents s)%Z ∧ (sy_effects s2 ≤ sy_effects s)%Z.
Proof.
  intros H0 Hr Hu Hr2.
  destruct (history_micro _ _ (fresh_steps_ok _ H0) Hr) as [Hs _].
  apply update_cases in Hu as (s' & x & ch & _ & [(? & _)|(e1 & _ & _ & -> & Hl)]); [done|].
  set (sf := Build_Sys _ _ _ _ _ _) in Hr2.
  assert (steps_ok sf) as Hsf by (destruct Hs as [[Hc Ha He] [Hw Hp]]; by split).
  assert (∃ e', rm_persistence_error (sy_manager sf) = Some e') as [e' He'].
  { simpl. destruct (rm_persistence_error (sy_manager s)); eauto. }
  split_and!; [done|done|by exists e'| |by apply (failed_history sf); eauto..].
  change (rm_persistence_error (sy_manager s2) = rm_persistence_error (sy_manager sf)).
  rewrite He'. by apply (ev_error _ _ (history_evolves _ _ Hsf Hr2)).
Qed.

(** ** Usage is counted once *)

Lemma once_applied env m l id u count_turn m1 l1 b :
  record_model_usage_once_checked env m l id u count_turn = (m1, l1, Ok b) →
  id ∈ rs_applied_usage_effects (rm_state m1) ∧ counts (rm_state m1) = counts (rm_state m) ∧
  rs_provider_rate (rm_state m1) = rs_provider_rate (rm_state m).
Proof.
  intros Hu. split; [|split; [by eapply model_usage_once_counts|]].
  - unfold record_model_usage_once_checked in Hu.
    apply update_state in Hu as [(_ & Hs & _)|(? & _)]; [|done]. rewrite Hs.
    case_decide; [done|]. simpl. set_solver.
  - eapply (update_keeps rs_provider_rate); [|exact Hu]. intros s. cbv beta. by case_decide.
Qed.

Lemma once_repeated env (m : Manager) l id u count_turn :
  id ∈ rs_applied_usage_effects (rm_state m) →
  record_model_usage_once_checked env m l id u count_turn = (m, l, Ok true).
Proof.
  intros Hin. unfold record_model_usage_once_checked, with_state_update.
  rewrite decide_True by done. by destruct m.
Qed.

Lemma tool_round_repeated env (m : Manager) l id calls :
  "tool-round:" +:+ id ∈ rs_applied_usage_effects (rm_state m) →
  record_tool_calls_once_checked env m l id calls = (m, l, Ok tt).
Proof.
  intros Hin. unfold record_tool_calls_once_checked, with_state_update.
  rewrite decide_True by done. by destruct m.
Qed.

(** Usage is recorded once.  After the usage of an effect has been recorded,
    recording it again, at any later point of any history of this manager and
    with any other figures, succeeds and changes neither the accounts nor the
    ledger. *)
Theorem usage_recorded_once s0 s env id u count_turn m1 l1 b s2 env' u' count_turn' :
  fresh_sys s0 → rtc rm_step s0 s →
  record_model_usage_once_checked env (sy_manager s) (sy_ledger s) id u count_turn = (m1, l1, Ok b) →
  rtc rm_step (Build_Sys m1 l1 (sy_agents s) (sy_effects s) (sy_permits s) (sy_clock s)) s2 →
  record_model_usage_once_checked env' (sy_manager s2) (sy_ledger s2) id u' count_turn' =
    (sy_manager s2, sy_ledger s2, Ok true).
Proof.
  intros H0 Hr Hu Hr2. apply once_repeated.
  destruct (history_micro _ _ (fresh_steps_ok _ H0) Hr) as [[[Hc Ha He] [Hw Hp]] _].
  apply once_applied in Hu as (Hin & Hc1 & Hw1).
  refine (ev_applied _ _ (history_evolves _ _ _ Hr2) _ _); [|done].
  unfold rates in *. simpl in *. split; split; simpl; rewrite ?Hc1, ?Hw1; done.
Qed.

(** The usages of a list that count: the first of each identifier that has not
    been applied before. *)
Fixpoint first_uses (seen : gset string) (cs : list (string * TokenUsage)) : list TokenUsage :=
  match cs with
  | [] => []
  | (id, u) :: cs =>
      if decide (id ∈ seen) then first_uses seen cs else u :: first_uses ({[id]} ∪ seen) cs
  end.

(** Recording a list of usages; [false] when some transaction failed. *)
Fixpoint record_all (env : Env) (m : Manager) (l : L) (cs : list (string * TokenUsage)) :
    Manager * L * bool :=
  match cs with
  | [] => (m, l, true)
  | (id, u) :: cs =>
      match record_model_usage_once_checked env m l id u true with
      | (m, l, Ok _) => record_all env m l cs
      | (m, l, Err _) => (m, l, false)
      end
  end.

(** The accounts are the sum over distinct effects.  Recording any list of
    usages, with repetitions, adds to the accounts exactly the first usage of
    each identifier not applied before, in order. *)
Theorem usage_totals env m l cs m' l' :
  record_all env m l cs = (m', l', true) →
  rs_usage (rm_state m') =
    foldl (λ acc u, add_model_usage (rs_provider_signals (rm_state m)) u true acc)
      (rs_usage (rm_state m)) (first_uses (rs_applied_usage_effects (rm_state m)) cs).
Proof.
  revert m l. induction cs as [|[id u] cs IH]; intros m l; simpl; [by intros [= <- <-]|].
  destruct (record_model_usage_once_checked _ _ _ _ _ _) as [[m1 l1] [b|]] eqn:Hu; [|done].
  intros Hall. specialize (IH _ _ Hall). unfold record_model_usage_once_checked in Hu.
  apply update_state in Hu as [(_ & Hs & _)|(? & _)]; [|done].
  case_decide; simpl in *; by rewrite IH, Hs.
Qed.
End steps.
