(* ===== verification/ResourceRecovery.v ===== *)
(** * Recovery of the resource accounts

    What the deltas and checkpoints in the ledger say about the accounts: a
    delta reproduces the change it was computed from, and attaching a new
    manager to the ledger of a Run, after any history and any number of
    restarts, restores the accounts. *)
From stdpp Require Import relations.
From S2P Require Import Prelude Json Types WorkflowTypes RuntimeLedger LedgerInterface.
From S2P Require Import ResourceTypes ResourceManager ResourceFacts ResourceRates ResourceUpdates.

(** ** Equality up to the sign of zero

    The code compares states with [==], which identifies the two zeros of
    [f64]; the form in which every zero is positive makes that an equation. *)
Definition f64_canon (f : f64) : f64 := if f64_is_zero f then f64_zero else f.

Lemma f64_eqb_canon a b : f64_eqb a b = true → f64_canon a = f64_canon b.
Proof. rewrite f64_eqb_spec. unfold f64_canon. intros [[-> ->]|[-> _]]; done. Qed.

Lemma option_eqb_canon a b : option_eqb f64_eqb a b = true → f64_canon <$> a = f64_canon <$> b.
Proof. destruct a, b; simpl; try done. intros ?%f64_eqb_canon. by f_equal. Qed.

Definition budget_canon (b : ResourceBudget) : ResourceBudget :=
  {| rb_max_active_agents := rb_max_active_agents b;
     rb_max_concurrent_effects := rb_max_concurrent_effects b;
     rb_max_spawn_depth := rb_max_spawn_depth b;
     rb_max_total_descendants_per_run := rb_max_total_descendants_per_run b;
     rb_max_turns := rb_max_turns b; rb_max_tokens := rb_max_tokens b;
     rb_max_wall_time_ms := rb_max_wall_time_ms b;
     rb_max_cost := f64_canon <$> rb_max_cost b;
     rb_max_process_output_bytes := rb_max_process_output_bytes b |}.

Definition signals_canon (s : ProviderSignals) : ProviderSignals :=
  {| ps_concurrency_hint := ps_concurrency_hint s;
     ps_requests_per_minute := ps_requests_per_minute s;
     ps_tokens_per_minute := ps_tokens_per_minute s;
     ps_cache_token_accounting := ps_cache_token_accounting s;
     ps_input_cost_per_million := f64_canon <$> ps_input_cost_per_million s;
     ps_cache_read_cost_per_million := f64_canon <$> ps_cache_read_cost_per_million s;
     ps_cache_write_cost_per_million := f64_canon <$> ps_cache_write_cost_per_million s;
     ps_output_cost_per_million := f64_canon <$> ps_output_cost_per_million s |}.

(** The state without its rates, which are computed from the counters, and,
    when [durable] is set, without the counters of permits, which end with the
    process, and the rate window, which a restart normalises. *)
Definition usage_view (durable : bool) (u : ResourceUsage) : ResourceUsage :=
  {| ru_active_agents := if durable then 0 else ru_active_agents u;
     ru_concurrent_effects := if durable then 0 else ru_concurrent_effects u;
     ru_total_descendants := ru_total_descendants u; ru_turns := ru_turns u;
     ru_tokens := ru_tokens u; ru_uncached_input_tokens := ru_uncached_input_tokens u;
     ru_input_tokens := ru_input_tokens u; ru_output_tokens := ru_output_tokens u;
     ru_cache_creation_tokens := ru_cache_creation_tokens u;
     ru_cache_read_tokens := ru_cache_read_tokens u; ru_tool_calls := ru_tool_calls u;
     ru_useful_tool_calls := ru_useful_tool_calls u; ru_useful_call_rate := None;
     ru_duplicate_tool_calls := ru_duplicate_tool_calls u; ru_duplicate_call_rate := None;
     ru_seen_tool_call_fingerprints := ru_seen_tool_call_fingerprints u;
     ru_cost := f64_canon (ru_cost u); ru_cost_known := ru_cost_known u |}.

Definition state_view (durable : bool) (s : ResourceStateSnapshot) : ResourceStateSnapshot :=
  {| rs_budget := budget_canon (rs_budget s);
     rs_provider_signals := signals_canon (rs_provider_signals s);
     rs_usage := usage_view durable (rs_usage s);
     rs_deadline_unix_ms := rs_deadline_unix_ms s;
     rs_provider_rate := if durable then window_default else rs_provider_rate s;
     rs_applied_usage_effects := ∅ |}.

Lemma andb_split a b : a && b = true → a = true ∧ b = true.
Proof. by destruct a, b. Qed.

Ltac split_andb H :=
  lazymatch type of H with
  | _ && _ = true =>
      let H1 := fresh H in let H2 := fresh H in
      destruct (andb_split _ _ H) as [H1 H2]; clear H; split_andb H1; split_andb H2
  | bool_decide _ = true => apply bool_decide_eq_true in H
  | option_eqb f64_eqb _ _ = true => apply option_eqb_canon in H
  | f64_eqb _ _ = true => apply f64_eqb_canon in H
  | Bool.eqb _ _ = true => apply eqb_prop in H
  | _ => idtac
  end.

Lemma budget_eqb_canon a b : budget_eqb a b = true → budget_canon a = budget_canon b.
Proof. unfold budget_eqb, budget_canon. intros H. split_andb H. f_equal; assumption. Qed.

Lemma signals_eqb_canon a b : signals_eqb a b = true → signals_canon a = signals_canon b.
Proof. unfold signals_eqb, signals_canon. intros H. split_andb H. f_equal; assumption. Qed.

Lemma usage_eqb_view t a b : usage_eqb a b = true → usage_view t a = usage_view t b.
Proof.
  unfold usage_eqb, usage_view. intros H. split_andb H. f_equal; try assumption; by destruct t.
Qed.

Lemma state_eqb_view t a b :
  state_eqb a b = true →
  state_view t a = state_view t b ∧ rs_applied_usage_effects a = rs_applied_usage_effects b.
Proof.
  unfold state_eqb. rewrite !andb_true_iff, !bool_decide_eq_true.
  intros (((((Hb & Hs) & Hu) & Hd) & Hr) & Ha). split; [|done]. unfold state_view.
  by rewrite (budget_eqb_canon _ _ Hb), (signals_eqb_canon _ _ Hs), (usage_eqb_view t _ _ Hu), Hd, Hr.
Qed.

Lemma state_view_inv t a b :
  state_view t a = state_view t b →
  budget_canon (rs_budget a) = budget_canon (rs_budget b) ∧
  signals_canon (rs_provider_signals a) = signals_canon (rs_provider_signals b) ∧
  usage_view t (rs_usage a) = usage_view t (rs_usage b) ∧
  rs_deadline_unix_ms a = rs_deadline_unix_ms b ∧
  (t = false → rs_provider_rate a = rs_provider_rate b).
Proof.
  intros H. split; [exact (f_equal rs_budget H)|]. split; [exact (f_equal rs_provider_signals H)|].
  split; [exact (f_equal rs_usage H)|]. split; [exact (f_equal rs_deadline_unix_ms H)|].
  intros ->. exact (f_equal rs_provider_rate H).
Qed.

(** ** Deltas *)

Lemma set_fingerprints_same u : set_fingerprints (ru_seen_tool_call_fingerprints u) u = u.
Proof. by destruct u. Qed.

(** The members of a delta. *)
Lemma between_inv b a d :
  between b a = Some d →
  rs_applied_usage_effects b ⊆ rs_applied_usage_effects a ∧
  ru_seen_tool_call_fingerprints (rs_usage b) ⊆ ru_seen_tool_call_fingerprints (rs_usage a) ∧
  dl_schema_version d = RESOURCE_DELTA_SCHEMA_VERSION ∧
  dl_budget d = then_some (negb (budget_eqb (rs_budget b) (rs_budget a))) (rs_budget a) ∧
  dl_provider_signals d =
    then_some (negb (signals_eqb (rs_provider_signals b) (rs_provider_signals a))) (rs_provider_signals a) ∧
  dl_usage d = then_some (negb (usage_eqb (rs_usage b) (rs_usage a))) (set_fingerprints ∅ (rs_usage a)) ∧
  dl_deadline_unix_ms d =
    then_some (negb (bool_decide (rs_deadline_unix_ms b = rs_deadline_unix_ms a)))
      {| od_value := rs_deadline_unix_ms a |} ∧
  dl_provider_rate d =
    then_some (negb (bool_decide (rs_provider_rate b = rs_provider_rate a))) (rs_provider_rate a) ∧
  dl_applied_usage_effects_added d =
    sorted_strings (rs_applied_usage_effects a ∖ rs_applied_usage_effects b) ∧
  dl_seen_tool_call_fingerprints_added d =
    sorted_strings (ru_seen_tool_call_fingerprints (rs_usage a) ∖
                    ru_seen_tool_call_fingerprints (rs_usage b)).
Proof.
  unfold between. destruct (bool_decide (_ ⊆ _)) eqn:H1; cbn [negb orb]; [|done].
  destruct (bool_decide (_ ⊆ _)) eqn:H2 at 1; cbn [negb]; [|done].
  apply bool_decide_eq_true in H1, H2. intros Hd. apply (inj Some) in Hd as <-. by split_and!.
Qed.

Lemma delta_ok_between b a d : between b a = Some d → state_ok a → delta_ok d.
Proof.
  intros (_ & _ & Hv & Hb & Hs & Hu & Hd & Hr & _)%between_inv (?&?&?&?&?).
  assert (∀ A (P : A → Prop) c x, P x → opt_ok P (then_some c x)) as Hts by (intros ? ? [] ? ?; done).
  unfold delta_ok. rewrite Hv, Hb, Hs, Hu, Hd, Hr. unfold RESOURCE_DELTA_SCHEMA_VERSION, u32_max.
  split_and!; try lia; by apply Hts.
Qed.

(** The members a delta leaves. *)
Lemma delta_apply_inv d s :
  dl_schema_version d = RESOURCE_DELTA_SCHEMA_VERSION →
  ∃ s', delta_apply d s = Some s' ∧
    rs_budget s' = default (rs_budget s) (dl_budget d) ∧
    rs_provider_signals s' = default (rs_provider_signals s) (dl_provider_signals d) ∧
    rs_usage s' = set_fingerprints
      (ru_seen_tool_call_fingerprints (rs_usage s) ∪ list_to_set (dl_seen_tool_call_fingerprints_added d))
      (default (rs_usage s) (dl_usage d)) ∧
    rs_deadline_unix_ms s' =
      match dl_deadline_unix_ms d with Some v => od_value v | None => rs_deadline_unix_ms s end ∧
    rs_provider_rate s' = default (rs_provider_rate s) (dl_provider_rate d) ∧
    rs_applied_usage_effects s' =
      rs_applied_usage_effects s ∪ list_to_set (dl_applied_usage_effects_added d).
Proof.
  intros Hv. unfold delta_apply. rewrite bool_decide_true by done. cbn [negb].
  eexists. split; [reflexivity|]. split_and!; try reflexivity. by destruct (dl_usage d).
Qed.

Lemma then_default {A B} (f : A → B) (c : bool) x y :
  (c = true → f y = f x) → f (default y (then_some (negb c) x)) = f x.
Proof. destruct c; simpl; auto. Qed.

(** Applying the delta between two states, as it is read back from the
    ledger, to a state that agrees with the first gives one that agrees with
    the second. *)
Lemma delta_reproduces t b a d s :
  between b a = Some d → state_ok a → state_view t s = state_view t b →
  ∃ d' s', resource_state_delta_from_record (delta_to_value d) = Some d' ∧
    delta_apply d' s = Some s' ∧ state_view t s' = state_view t a ∧
    rs_applied_usage_effects s' =
      rs_applied_usage_effects s ∪ (rs_applied_usage_effects a ∖ rs_applied_usage_effects b) ∧
    (rs_provider_rate s' = rs_provider_rate a ∨
     rs_provider_rate s' = rs_provider_rate s ∧ rs_provider_rate b = rs_provider_rate a).
Proof.
  intros Hd Ha Hs. pose proof (delta_record_roundtrip d (delta_ok_between _ _ _ Hd Ha)) as Hrt.
  apply between_inv in Hd as (Happ & Hseen & Hv & Hb & Hsi & Hu & Hde & Hr & Haa & Hsa).
  destruct (delta_apply_inv (json_delta d) s Hv) as (s' & Hap & Hb' & Hs' & Hu' & Hd' & Hr' & Ha').
  exists (json_delta d), s'. split; [exact Hrt|]. split; [exact Hap|]. clear Hrt Hap.
  cbn [json_delta dl_budget dl_provider_signals dl_usage dl_deadline_unix_ms dl_provider_rate
       dl_applied_usage_effects_added dl_seen_tool_call_fingerprints_added] in *.
  rewrite ?Hb, ?Hsi, ?Hu, ?Hde, ?Hr, ?Haa, ?Hsa, ?sorted_strings_set in *.
  assert (rs_provider_rate s' = rs_provider_rate a ∨
    rs_provider_rate s' = rs_provider_rate s ∧ rs_provider_rate b = rs_provider_rate a) as Hrate.
  { rewrite Hr'. destruct (decide (rs_provider_rate b = rs_provider_rate a)) as [He|He].
    - right. by rewrite bool_decide_true.
    - left. by rewrite bool_decide_false. }
  split; [|by split]. destruct (state_view_inv _ _ _ Hs) as (Hsb & Hss & Hsu & Hsd & Hsr).
  assert (ru_seen_tool_call_fingerprints (rs_usage s) = ru_seen_tool_call_fingerprints (rs_usage b)) as Hfp
    by exact (f_equal ru_seen_tool_call_fingerprints Hsu).
  unfold state_view. rewrite Hb', Hs', Hu', Hd', Hfp, <-(union_difference_L _ _ Hseen).
  rewrite (then_default budget_canon) by (intros ?%budget_eqb_canon; congruence).
  rewrite (then_default signals_canon) by (intros ?%signals_eqb_canon; congruence).
  clear Hb Hb' Hsi Hs' Hu Hu'. f_equal.
  - destruct (usage_eqb (rs_usage b) (rs_usage a)) eqn:Hb2.
    + change (set_fingerprints (ru_seen_tool_call_fingerprints (rs_usage a))
        (usage_view t (rs_usage s)) = usage_view t (rs_usage a)).
      rewrite Hsu, (usage_eqb_view t _ _ Hb2). apply (set_fingerprints_same (usage_view t (rs_usage a))).
    + apply (set_fingerprints_same (usage_view t (rs_usage a))).
  - clear Hde Hd' Hr Hr'. case_bool_decide; cbn [negb then_some od_value]; congruence.
  - destruct t; [done|]. specialize (Hsr eq_refl). destruct Hrate as [?|[? ?]]; congruence.
Qed.

(** A delta reproduces the change it records.  Whenever the code computes a
    delta between two states, writing it to JSON, reading it back (through the
    migration of older budgets) and applying it to the first state gives a
    state equal to the second: budget, signals, counters, fingerprints,
    deadline, rate window and applied identifiers, with costs compared as the
    code compares them. *)
Theorem delta_roundtrip before after d :
  between before after = Some d → state_ok after →
  ∃ d' s, resource_state_delta_from_record (delta_to_value d) = Some d' ∧
    delta_apply d' before = Some s ∧ state_view false s = state_view false after ∧
    rs_applied_usage_effects s = rs_applied_usage_effects after.
Proof.
  intros Hd Ha. destruct (delta_reproduces false _ _ _ before Hd Ha eq_refl) as (d' & s & ? & ? & ? & Hs & _).
  exists d', s. split; [done|]. split; [done|]. split; [done|]. rewrite Hs.
  apply between_inv in Hd as [Hsub _]. by rewrite <-union_difference_L.
Qed.

(** ** Checkpoints and replay *)

Section recovery.
Context {L E : Type} `{!Ledger L E, !LedgerLaws L E}.

Notation Manager := (ResourceManager E).
Notation RError := (ResourceError E).

(** A checkpoint is read back whatever manager reads it. *)
Definition json_state (s : ResourceStateSnapshot) : ResourceStateSnapshot :=
  set_applied ∅ (set_usage (json_usage (rs_usage s)) s).

Lemma checkpoint_roundtrip env (m m0 : Manager) r :
  state_ok (rm_state m) → lr_payload r = snapshot_payload env m →
  checkpoint_state m0 r = Ok (json_state (rm_state m)).
Proof.
  intros (Hb & Hs & Hu & Hd & Hw) Hp.
  assert (checkpoint_schema_version (E := E) r = Ok RESOURCE_CHECKPOINT_SCHEMA_VERSION) as Hv.
  { unfold checkpoint_schema_version. rewrite Hp. reflexivity. }
  assert (read_checkpoint "budget" (lr_payload r)
    (λ v, resource_budget_from_checkpoint v RESOURCE_CHECKPOINT_SCHEMA_VERSION)
    (rs_budget (rm_state m0)) (@InvalidBudgetCheckpoint E) = Ok (rs_budget (rm_state m))) as Hb'.
  { rewrite Hp. unfold read_checkpoint. change (get "budget" (snapshot_payload env m)) with
      (Some (budget_to_value (rs_budget (rm_state m)))). cbv iota beta.
    unfold resource_budget_from_checkpoint. rewrite decide_False by done. by rewrite budget_roundtrip. }
  assert (read_checkpoint "provider_signals" (lr_payload r) signals_from
    (rs_provider_signals (rm_state m0)) (@InvalidSignalsCheckpoint E) =
    Ok (rs_provider_signals (rm_state m))) as Hs'.
  { rewrite Hp. unfold read_checkpoint. change (get "provider_signals" (snapshot_payload env m)) with
      (Some (signals_to_value (rs_provider_signals (rm_state m)))). cbv iota beta.
    by rewrite signals_roundtrip. }
  assert (usage_from (default VNull (get "usage" (lr_payload r))) = Some (json_usage (rs_usage (rm_state m)))) as Hu'.
  { rewrite Hp. change (get "usage" (snapshot_payload env m)) with
      (Some (usage_to_value (rs_usage (rm_state m)))). by apply usage_roundtrip. }
  assert (read_checkpoint "deadline_unix_ms" (lr_payload r)
     (λ v, match v with VNull => Some None | _ => Some <$> as_i64 v end)
     (rs_deadline_unix_ms (rm_state m0)) (@InvalidDeadlineCheckpoint E) =
     Ok (rs_deadline_unix_ms (rm_state m))) as Hd'.
  { rewrite Hp. unfold read_checkpoint. change (get "deadline_unix_ms" (snapshot_payload env m)) with
      (Some (nullable i64_to_value (rs_deadline_unix_ms (rm_state m)))). cbv iota beta.
    destruct (rs_deadline_unix_ms (rm_state m)) as [d|]; [|done].
    unfold nullable. destruct (i64_member d Hd) as [Hrt Hn]. by destruct (i64_to_value d); rewrite ?Hrt. }
  assert (read_checkpoint "provider_rate" (lr_payload r) window_from window_default
    (@InvalidRateCheckpoint E) = Ok (rs_provider_rate (rm_state m))) as Hw'.
  { rewrite Hp. unfold read_checkpoint. change (get "provider_rate" (snapshot_payload env m)) with
      (Some (window_to_value (rs_provider_rate (rm_state m)))). cbv iota beta.
    by rewrite window_roundtrip. }
  assert (string_items (get "applied_usage_effects" (lr_payload r)) = ∅) as Ha'.
  { rewrite Hp. reflexivity. }
  unfold checkpoint_state. rewrite Hv. cbn [rbind]. rewrite Hb'. cbn [rbind]. rewrite Hs'. cbn [rbind].
  rewrite Hu'. cbn [rbind ok_or]. rewrite Hd'. cbn [rbind]. rewrite Hw'. cbn [rbind].
  by rewrite Ha'.
Qed.

Lemma last_checkpoint_app_checkpoint rs r :
  is_checkpoint r = true → last_checkpoint (rs ++ [r]) = Some (r, []).
Proof. intros Hr. induction rs as [|x rs IH]; simpl; [by rewrite Hr|by rewrite IH]. Qed.

Lemma last_checkpoint_app_other rs r c rest :
  is_checkpoint r = false → last_checkpoint rs = Some (c, rest) →
  last_checkpoint (rs ++ [r]) = Some (c, rest ++ [r]).
Proof.
  intros Hr. revert c rest. induction rs as [|x rs IH]; simpl; intros c rest; [done|].
  destruct (last_checkpoint rs) as [[c' rest']|] eqn:Hl.
  - intros [= <- <-]. by rewrite (IH _ _ eq_refl).
  - assert (last_checkpoint (rs ++ [r]) = None) as Hn.
    { clear IH. induction rs as [|y rs IH]; simpl in *; [by rewrite Hr|].
      destruct (last_checkpoint rs) as [[]|]; [done|]. destruct (is_checkpoint y); [done|].
      by rewrite IH. }
    rewrite Hn. destruct (is_checkpoint x); [|done]. by intros [= <- <-].
Qed.

(** The identifiers the records name, in the place each kind keeps them. *)
Definition record_ids (r : LedgerRecord) : gset string :=
  if is_checkpoint r then string_items (get "applied_usage_effects" (lr_payload r))
  else if is_delta r then string_items (get "applied_usage_effects_added" (lr_payload r))
  else ∅.
Definition history_ids (rs : list LedgerRecord) : gset string := ⋃ (record_ids <$> rs).

Lemma restore_history_spec rs s :
  restore_applied_usage_history rs s = set_applied (rs_applied_usage_effects s ∪ history_ids rs) s.
Proof.
  unfold restore_applied_usage_history, history_ids. revert s.
  induction rs as [|r rs IH]; intros s; cbn [foldl fmap list_fmap union_list].
  - unfold set_applied. destruct s; simpl; f_equal; set_solver.
  - rewrite IH. unfold record_ids. destruct (is_checkpoint r), (is_delta r);
      unfold set_applied; simpl; f_equal; set_solver.
Qed.

Lemma history_ids_app rs r : history_ids (rs ++ [r]) = history_ids rs ∪ record_ids r.
Proof.
  unfold history_ids. rewrite fmap_app, union_list_app_L. simpl. set_solver.
Qed.

(** What the last checkpoint and the deltas after it add up to, for whatever
    manager reads them. *)
Definition replays (rs : list LedgerRecord) (s : ResourceStateSnapshot) (n : Z) : Prop :=
  ∃ r rest, last_checkpoint rs = Some (r, rest) ∧
    ∀ m0 : Manager, (let? s := checkpoint_state m0 r in fold_result replay_delta (s, 0%Z) rest) = Ok (s, n).

Lemma replays_checkpoint env (m : Manager) rs r :
  state_ok (rm_state m) → is_checkpoint r = true → lr_payload r = snapshot_payload env m →
  replays (rs ++ [r]) (json_state (rm_state m)) 0 ∧ record_ids r = ∅.
Proof.
  intros Hok Hr Hp. split.
  - exists r, []. split; [by apply last_checkpoint_app_checkpoint|]. intros m0.
    by rewrite (checkpoint_roundtrip env m m0 r Hok Hp).
  - unfold record_ids. rewrite Hr, Hp. reflexivity.
Qed.

Lemma replays_other rs s n r :
  is_checkpoint r = false → is_delta r = false → replays rs s n →
  replays (rs ++ [r]) s n ∧ record_ids r = ∅.
Proof.
  intros Hc Hd (c & rest & Hl & Hs). split; [|unfold record_ids; by rewrite Hc, Hd].
  exists c, (rest ++ [r]). split; [by apply last_checkpoint_app_other|]. intros m0.
  specialize (Hs m0). destruct (checkpoint_state m0 c) as [s0|]; [|done]. simpl in *.
  rewrite fold_result_app, Hs. simpl. unfold replay_delta. by rewrite Hd.
Qed.

Lemma is_delta_not_checkpoint r : is_delta r = true → is_checkpoint r = false.
Proof.
  unfold is_delta, is_checkpoint. rewrite bool_decide_eq_true. intros ->. by apply bool_decide_eq_false.
Qed.

(** The identifiers a delta record names are those the delta added. *)
Lemma delta_record_ids d r :
  is_delta r = true → lr_payload r = delta_to_value d →
  record_ids r = list_to_set (dl_applied_usage_effects_added d).
Proof.
  intros Hr Hp. unfold record_ids. rewrite (is_delta_not_checkpoint _ Hr), Hr, Hp.
  unfold delta_to_value, get. assert (NoDup (delta_fields d).*1) as Hnd by serde_keys.
  rewrite assoc_fields_of by done.
  change (assoc "applied_usage_effects_added" (delta_fields d)) with
    (Some (field_if (negb (bool_decide (dl_applied_usage_effects_added d = [])))
      (to_value (dl_applied_usage_effects_added d)))).
  case_bool_decide as Hn; cbn [negb field_if default from_option id].
  - by rewrite Hn.
  - unfold string_items. cbn [to_value serde_list serde_string]. f_equal.
    generalize (dl_applied_usage_effects_added d). intros ids. induction ids as [|x ids IH]; [done|].
    simpl. by f_equal.
Qed.

Lemma replays_delta rs s n b a d r :
  is_delta r = true → lr_payload r = delta_to_value d → between b a = Some d → state_ok a →
  state_view true s = state_view true b → replays rs s n →
  ∃ s', replays (rs ++ [r]) s' (saturating_add n 1) ∧ state_view true s' = state_view true a ∧
    rs_applied_usage_effects s' =
      rs_applied_usage_effects s ∪ (rs_applied_usage_effects a ∖ rs_applied_usage_effects b) ∧
    record_ids r = rs_applied_usage_effects a ∖ rs_applied_usage_effects b ∧
    (rs_provider_rate s' = rs_provider_rate a ∨
     rs_provider_rate s' = rs_provider_rate s ∧ rs_provider_rate b = rs_provider_rate a).
Proof.
  intros Hr Hp Hd Ha Hv (c & rest & Hl & Hs).
  destruct (delta_reproduces true _ _ _ s Hd Ha Hv) as (d' & s' & Hd' & Hs' & Hv' & Ha' & Hrate).
  exists s'. split_and!; [|done|done| |done].
  - exists c, (rest ++ [r]). split.
    { apply last_checkpoint_app_other; [by apply is_delta_not_checkpoint|done]. }
    intros m0. specialize (Hs m0). destruct (checkpoint_state m0 c) as [s0|]; [|done]. cbn [rbind] in *.
    rewrite fold_result_app, Hs. cbn [rbind fold_result]. unfold replay_delta. rewrite Hr, Hp, Hd'.
    cbn [negb ok_or rbind fst snd]. by rewrite Hs'.
  - rewrite (delta_record_ids d) by done. apply between_inv in Hd as (_&_&_&_&_&_&_&_&Haa&_).
    by rewrite Haa, sorted_strings_set.
Qed.

(** ** The ledger always describes the accounts *)

(** The rate window as a restart at time [now] takes it over: nothing of a
    window that began more than a minute ago, otherwise the window without the
    reservations that were not started. *)
Definition normalize_window (now : Z) (w : ProviderRateWindow) : ProviderRateWindow :=
  if negb (bool_decide (pw_started_at_unix_ms w = 0%Z)) &&
     bool_decide (60000 ≤ i64_saturating_sub now (pw_started_at_unix_ms w))%Z
  then window_default
  else {| pw_started_at_unix_ms := pw_started_at_unix_ms w; pw_requests := pw_requests w;
          pw_reserved_requests := 0;
          pw_tokens := saturating_sub (pw_tokens w) (pw_unstarted_reserved_tokens w);
          pw_reserved_tokens := saturating_sub (pw_reserved_tokens w) (pw_unstarted_reserved_tokens w);
          pw_unstarted_reserved_tokens := 0 |}.

Lemma normalize_window_spec env s :
  rs_provider_rate (normalize_recovered_state env s) = normalize_window (ev_now env) (rs_provider_rate s).
Proof. done. Qed.

(** Normalising twice is normalising at the later time. *)
Lemma normalize_window_twice now now' w :
  (now ≤ now')%Z → normalize_window now' (normalize_window now w) = normalize_window now' w.
Proof.
  intros Hle. unfold normalize_window. destruct w as [st rq rr tk rt ur]. simpl.
  destruct (decide (st = 0)%Z) as [->|Hz].
  { simpl. f_equal; unfold saturating_sub; lia. }
  rewrite (bool_decide_false (st = 0%Z)) by done. simpl.
  destruct (decide (60000 ≤ i64_saturating_sub now st)%Z) as [Hx|Hx].
  - rewrite (bool_decide_true (60000 ≤ i64_saturating_sub now st)%Z) by done.
    rewrite (bool_decide_true (60000 ≤ i64_saturating_sub now' st)%Z); [done|].
    unfold i64_saturating_sub, i64_saturating in *. lia.
  - rewrite (bool_decide_false (60000 ≤ _)%Z) by done. simpl.
    rewrite (bool_decide_false (st = 0%Z)) by done. simpl.
    destruct (bool_decide _); [done|]. f_equal; unfold saturating_sub; lia.
Qed.

(** Two windows that every restart from time [c] on takes over alike. *)
Definition window_equiv (c : Z) (w w' : ProviderRateWindow) : Prop :=
  ∀ now, (c ≤ now)%Z → normalize_window now w = normalize_window now w'.

Definition recoverable (run : RunId) (c : Z) (m : Manager) (l : L) : Prop :=
  ∃ s n, replays (lg_contents l run) s n ∧
    state_view true s = state_view true (rm_state m) ∧
    window_equiv c (rs_provider_rate s) (rs_provider_rate (rm_state m)) ∧
    n = rm_resource_deltas_since_snapshot m ∧ (0 ≤ n < RESOURCE_SNAPSHOT_INTERVAL)%Z ∧
    rs_applied_usage_effects s ∪ history_ids (lg_contents l run) ⊆
      rs_applied_usage_effects (rm_state m).

Lemma append_record_ok env run l ty v l' :
  append_record (E := E) env run l ty v = (l', Ok tt) →
  ∃ r, lg_contents l' run = lg_contents l run ++ [r] ∧ lr_record_type r = ty ∧ lr_payload r = v.
Proof.
  unfold append_record. destruct (lg_append _ _ _ _ _ _) as [l1 [r|e]] eqn:Ha; [|done].
  intros [= <-]. exists r. apply lg_append_stores in Ha as (?&?&?&?); done.
Qed.

Lemma append_snapshot_recoverable env (m : Manager) run c l l' :
  state_ok (rm_state m) → append_snapshot env m run l = (l', Ok tt) →
  history_ids (lg_contents l run) ⊆ rs_applied_usage_effects (rm_state m) →
  recoverable run c (set_delta_count 0 m) l'.
Proof.
  intros Hok Ha Hh. apply append_record_ok in Ha as (r & Hc & Hty & Hp).
  assert (is_checkpoint r = true) as Hr by (unfold is_checkpoint; by rewrite Hty).
  destruct (replays_checkpoint env m (lg_contents l run) r Hok Hr Hp) as [Hrep Hids].
  exists (json_state (rm_state m)), 0%Z. rewrite Hc. split_and!; try done.
  rewrite history_ids_app, Hids. simpl. set_solver.
Qed.

Lemma persist_recoverable env (m : Manager) run c l before m' l' :
  rm_persistence m = Some run → state_ok (rm_state m) →
  rs_applied_usage_effects before ⊆ rs_applied_usage_effects (rm_state m) →
  recoverable run c (set_state before m) l →
  persist_state_change_locked env m l before (rm_state m) = (m', l', Ok tt) →
  recoverable run c m' l'.
Proof.
  intros Hrun Hok Happ (s & n & Hrep & Hv & Hwe & Hn & Hlt & Hids). simpl in *.
  unfold persist_state_change_locked. rewrite Hrun.
  destruct (state_eqb before (rm_state m)) eqn:Heq.
  { intros [= <- <-]. pose proof (state_eqb_view true _ _ Heq) as [Hv' _].
    apply (state_eqb_view false), proj1, state_view_inv in Heq as (_ & _ & _ & _ & Hw').
    specialize (Hw' eq_refl). exists s, n.
    split_and!; try done; try lia; [by rewrite Hv, Hv'|by rewrite <-Hw'|set_solver]. }
  assert (match append_snapshot env m run l with
          | (l0, Ok _) => (set_delta_count 0 m, l0, Ok tt)
          | (l0, Err e) => (m, l0, Err e) end = (m', l', Ok tt) → recoverable run c m' l') as Hsnap.
  { destruct (append_snapshot env m run l) as [l1 [[]|e]] eqn:Ha; [|done]. intros [= <- <-].
    eapply append_snapshot_recoverable; [done|exact Ha|set_solver]. }
  destruct (between before (rm_state m)) as [d|] eqn:Hd; [|exact Hsnap].
  case_decide as Hnext; [|exact Hsnap].
  destruct (append_record _ _ _ _ _) as [l1 [[]|e]] eqn:Ha; [|done]. intros [= <- <-].
  apply append_record_ok in Ha as (r & Hcon & Hty & Hp).
  assert (is_delta r = true) as Hr by (unfold is_delta; by rewrite Hty).
  destruct (replays_delta _ _ _ _ _ _ _ Hr Hp Hd Hok Hv Hrep) as (s' & Hrep' & Hv' & Ha' & Hids' & Hrate).
  exists s', (saturating_add n 1). rewrite Hcon. split_and!; try done.
  - destruct Hrate as [Hx|[Hx Hy]]; rewrite Hx; [done|].
    change (window_equiv c (rs_provider_rate s) (rs_provider_rate (rm_state m))). by rewrite <-Hy.
  - simpl. by rewrite Hn.
  - unfold saturating_add, u64_max. lia.
  - rewrite Hn. exact Hnext.
  - rewrite history_ids_app, Hids', Ha'. simpl. set_solver.
Qed.

Lemma micro_cost_fin c c' : micro (L := L) (E := E) c c' → cost_fin (rm_state c'.1) → cost_fin (rm_state c.1).
Proof.
  intros Hm. inversion Hm as [R env upd m l m' l' r Hu Hs|a e m l|now run d ty v m l l' r]; subst; simpl;
    [|done..].
  unfold sound_at in Hs.
  apply update_cases in Hu as (s' & x & ch & Hx & [(-> & Hm' & _)|(e & -> & _ & -> & _)]); [|done].
  rewrite Hx in Hs. rewrite Hm'. simpl. tauto.
Qed.

Lemma micro_recoverable run c m l m' l' :
  micro (m, l) (m', l') → rm_persistence m = Some run → cost_fin (rm_state m') →
  state_ok (rm_state m) → recoverable run c m l → state_ok (rm_state m') ∧ recoverable run c m' l'.
Proof.
  intros Hm Hrun Hfin Hok Hrec.
  inversion Hm as [R env upd m1 l1 m2 l2 r Hu Hs|a e m1 l1|now run' d ty v m1 l1 l2 r Hty Ha]; subst.
  - unfold sound_at in Hs. unfold with_state_update in Hu.
    destruct (upd (rm_state m)) as [s' [x ch]] eqn:Hx. destruct Hs as (Hch & Happ & Hfin' & Hok').
    destruct ch.
    + destruct (persist_state_change_locked _ _ _ _ _) as [[m3 l3] r3] eqn:Hp.
      pose proof Hp as [[-> Hc]|(e & -> & -> & Hl)]%persist_cases; injection Hu as <- <- <-.
      * assert (rm_state m3 = s') as Hs3 by (by rewrite Hc).
        rewrite Hs3 in Hfin |- *. split; [auto|].
        eapply (persist_recoverable env (set_state s' m) run c l (rm_state m));
          [done|simpl; auto|done| |exact Hp]. by destruct m.
      * split; [done|]. destruct Hrec as (s & n & Hrest). exists s, n. simpl. by rewrite (Hl run).
    + injection Hu as <- <- <-. rewrite (Hch eq_refl) in *. split; [done|]. by destruct m.
  - split; [|done].
    apply usage_ok_intro; [done|]. destruct Hok as (_&_&?&_). apply set_effects_ok; [done|].
    by apply set_active_ok.
  - split; [done|]. destruct Hrec as (s & n & Hrep & Hv & Hwe & Hn & Hlt & Hids). exists s, n.
    assert (lg_contents l' run = lg_contents l run ∨
      ∃ r', lg_contents l' run = lg_contents l run ++ [r'] ∧ lr_record_type r' = ty) as [->|(r' & -> & Hty')].
    { destruct r as [r|e]; [|left; by eapply lg_append_err].
      destruct (decide (run = run')) as [->|Hne]; [|left; by eapply lg_append_other].
      destruct (decide (d = Ephemeral)) as [->|Hd]; [left; by eapply lg_append_ephemeral|].
      right. exists r. by destruct (lg_append_stores _ _ _ _ _ _ _ _ Hd Ha) as (?&?&?&?). }
    { tauto. }
    destruct Hty as [Hty1 Hty2].
    destruct (replays_other (lg_contents l run) s n r') as [Hrep' Hids'];
      [by apply bool_decide_eq_false; rewrite Hty'..|done|].
    split_and!; try done; try lia. rewrite history_ids_app, Hids'. set_solver.
Qed.

Lemma micro_star_cost_fin c c' :
  rtc (micro (L := L) (E := E)) c c' → cost_fin (rm_state c'.1) → cost_fin (rm_state c.1).
Proof. induction 1; eauto using micro_cost_fin. Qed.

Lemma history_recoverable run c0 s s' :
  steps_ok s → rtc rm_step s s' → rm_persistence (sy_manager s) = Some run →
  cost_fin (rm_state (sy_manager s')) →
  state_ok (rm_state (sy_manager s)) → recoverable run c0 (sy_manager s) (sy_ledger s) →
  state_ok (rm_state (sy_manager s')) ∧ recoverable run c0 (sy_manager s') (sy_ledger s').
Proof.
  intros Hs Hr Hrun Hfin Hok Hrec. destruct (history_micro _ _ Hs Hr) as [_ Hm]. clear Hs Hr.
  remember (sy_manager s, sy_ledger s) as c eqn:Hc. remember (sy_manager s', sy_ledger s') as c' eqn:Hc'.
  assert (rm_persistence c.1 = Some run ∧ cost_fin (rm_state c'.1) ∧ state_ok (rm_state c.1) ∧
          recoverable run c0 c.1 c.2) as Hinv by (by subst).
  cut (state_ok (rm_state c'.1) ∧ recoverable run c0 c'.1 c'.2); [by subst|].
  clear s s' Hc Hc' Hrun Hfin Hok Hrec. induction Hm as [c|c c1 c' H1 Hm IH]; [tauto|].
  destruct Hinv as (Hrun & Hfin & Hok & Hrec). apply IH. split_and!.
  - rewrite <-Hrun. apply (ev_persistence _ _ (micro_evolves _ _ H1)).
  - done.
  - destruct c, c1. by eapply micro_recoverable; [exact H1|done|apply (micro_star_cost_fin _ _ Hm)|..].
  - destruct c, c1. by eapply micro_recoverable; [exact H1|done|apply (micro_star_cost_fin _ _ Hm)|..].
Qed.

(** ** Attaching *)

(** [rec] is the state [live] as a new process takes it over: the same budget,
    prices, counters, fingerprints, cost and deadline; no permit; the rates
    computed from the counters; the rate window as above; and no applied
    identifier that was not applied. *)
Record recovers (env : Env) (live rec : ResourceStateSnapshot) : Prop := {
  rv_state : state_view true rec = state_view true live;
  rv_counts : counts rec = (0, 0)%Z;
  rv_useful_rate : ru_useful_call_rate (rs_usage rec) =
    call_rate (ru_useful_tool_calls (rs_usage live)) (ru_tool_calls (rs_usage live));
  rv_duplicate_rate : ru_duplicate_call_rate (rs_usage rec) =
    call_rate (ru_duplicate_tool_calls (rs_usage live)) (ru_tool_calls (rs_usage live));
  rv_window : rs_provider_rate rec = normalize_window (ev_now env) (rs_provider_rate live);
  rv_applied : rs_applied_usage_effects rec ⊆ rs_applied_usage_effects live;
}.

Lemma normalize_recovers env s live :
  state_view true s = state_view true live →
  window_equiv (ev_now env) (rs_provider_rate s) (rs_provider_rate live) →
  rs_applied_usage_effects s ⊆ rs_applied_usage_effects live →
  recovers env live (normalize_recovered_state env s).
Proof.
  intros Hv Hw Ha. pose proof (state_view_inv _ _ _ Hv) as (Hb & Hs & Hu & Hd & _).
  assert (ru_tool_calls (rs_usage s) = ru_tool_calls (rs_usage live)) as Ht by exact (f_equal ru_tool_calls Hu).
  assert (ru_useful_tool_calls (rs_usage s) = ru_useful_tool_calls (rs_usage live)) as Hut
    by exact (f_equal ru_useful_tool_calls Hu).
  assert (ru_duplicate_tool_calls (rs_usage s) = ru_duplicate_tool_calls (rs_usage live)) as Hdt
    by exact (f_equal ru_duplicate_tool_calls Hu).
  split; [exact Hv|done|simpl; by rewrite Hut, Ht|simpl; by rewrite Hdt, Ht| |exact Ha].
  rewrite normalize_window_spec. by apply Hw.
Qed.

Lemma recoverable_attach env run c (m m0 : Manager) l rs :
  recoverable run c m l → (c ≤ ev_now env)%Z → lg_records l run = Ok rs →
  ∃ m', attach env m0 run l = (m', l, Ok tt) ∧ recovers env (rm_state m) (rm_state m') ∧
    rm_persistence m' = Some run ∧ rm_persistence_error m' = rm_persistence_error m0 ∧
    recoverable run (ev_now env) m' l.
Proof.
  intros (s & n & Hrep & Hv & Hwe & Hn & Hlt & Hids) Hc Hrs. pose proof Hrep as (r & rest & Hl & Hs).
  apply lg_records_contents in Hrs as Hrs'. subst rs.
  unfold attach. rewrite Hrs. unfold restore_latest_state. rewrite Hl, (Hs m0).
  cbn [negb orb]. rewrite bool_decide_false by lia. eexists. split; [reflexivity|].
  rewrite restore_history_spec. cbn [rm_state set_persistence set_delta_count set_state
    rm_persistence rm_persistence_error rm_resource_deltas_since_snapshot].
  set (s1 := set_applied _ s).
  assert (state_view true s1 = state_view true (rm_state m)) as Hv1 by exact Hv.
  assert (window_equiv (ev_now env) (rs_provider_rate s1) (rs_provider_rate (rm_state m))) as Hw1.
  { intros now Hnow. apply Hwe. lia. }
  split_and!; [by apply normalize_recovers|done..|]. exists s, n. split_and!; try done; try lia.
  - intros now Hnow. cbn [rm_state set_state set_persistence set_delta_count].
    rewrite normalize_window_spec. by rewrite normalize_window_twice.
Qed.

(** ** Well-formed states *)

Lemma new_state_ok budget now hint :
  budget_ok budget → state_ok (rm_state (new_with_clock_and_parallelism_hint (E := E) budget now hint)).
Proof.
  intros Hb. split_and!; try done.
  - split; [|done]. simpl. forall_list; apply zero_u64.
  - apply deadline_for_ok.
  - by apply window_at_ok.
Qed.

Lemma micro_state_ok c c' :
  micro (L := L) (E := E) c c' → cost_fin (rm_state c'.1) → state_ok (rm_state c.1) → state_ok (rm_state c'.1).
Proof.
  intros Hm Hfin Hok.
  inversion Hm as [R env upd m l m' l' r Hu Hs|a e m l|now run d ty v m l l' r]; subst; simpl in *.
  - unfold sound_at in Hs.
    apply update_cases in Hu as (s' & x & ch & Hx & [(-> & Hm' & _)|(e & -> & _ & -> & _)]); [|done].
    rewrite Hx in Hs. rewrite Hm' in Hfin |- *. simpl in *. tauto.
  - apply usage_ok_intro; [done|]. destruct Hok as (_&_&?&_). apply set_effects_ok; [done|].
    by apply set_active_ok.
  - done.
Qed.

(** C36: The accounts stay within their machine types.  From a new manager, along
    every history after which the accumulated cost is finite, every counter is
    a 64-bit unsigned integer, the rate window and the deadline are in range
    and every price and limit is a number: no addition wraps and no
    subtraction underflows. *)
Theorem accounts_well_typed s0 s :
  fresh_sys s0 → state_ok (rm_state (sy_manager s0)) → rtc rm_step s0 s →
  cost_fin (rm_state (sy_manager s)) → state_ok (rm_state (sy_manager s)).
Proof.
  intros H0 Hok Hr Hfin. destruct (history_micro _ _ (fresh_steps_ok _ H0) Hr) as [_ Hm].
  remember (sy_manager s0, sy_ledger s0) as c eqn:Hc. remember (sy_manager s, sy_ledger s) as c' eqn:Hc'.
  change (state_ok (rm_state (sy_manager s, sy_ledger s).1)). rewrite <-Hc'.
  assert (state_ok (rm_state c.1)) as Hokc by (by subst).
  assert (cost_fin (rm_state c'.1)) as Hfinc by (by subst).
  clear -Hm Hokc Hfinc LedgerLaws0. induction Hm as [|c c1 c' H1 Hm IH]; [done|]. apply IH; [|done].
  eapply micro_state_ok; [exact H1|by eapply micro_star_cost_fin|done].
Qed.

(** ** Lives of a Run *)

Lemma f64_fin_canon f : f64_fin (f64_canon f) ↔ f64_fin f.
Proof. by destruct f. Qed.

Lemma opt_fin_canon o : opt_ok f64_fin (f64_canon <$> o) ↔ opt_ok f64_fin o.
Proof. destruct o; simpl; [apply f64_fin_canon|done]. Qed.

(** Well-formedness only depends on the view, the permits and the window. *)
Lemma state_ok_view a :
  state_ok a ↔ state_ok (state_view true a) ∧ is_u64 (counts a).1 ∧ is_u64 (counts a).2 ∧
               window_ok (rs_provider_rate a).
Proof.
  assert (window_ok window_default) by by apply window_at_ok.
  unfold state_ok, budget_ok, signals_ok, usage_ok. simpl.
  rewrite !opt_fin_canon, f64_fin_canon, !Forall_cons. pose proof zero_u64. tauto.
Qed.

Lemma normalize_window_ok now w : window_ok w → window_ok (normalize_window now w).
Proof.
  intros Hw. unfold normalize_window. destruct (_ && _); [by apply window_at_ok|].
  apply window_ok_inv in Hw as (?&?&?&?&?&?).
  apply window_ok_intro; auto using zero_u64, sat_sub_u64.
Qed.

Lemma recovers_ok env live rec : recovers env live rec → state_ok live → state_ok rec.
Proof.
  intros [Hv Hc _ _ Hw _] Hok. apply state_ok_view. rewrite Hv, Hc, Hw.
  pose proof Hok as (_&_&_&_&Hwin). apply state_ok_view in Hok as (Hok & _).
  split_and!; [done|apply zero_u64..|by apply normalize_window_ok].
Qed.

Definition no_resource_records (rs : list LedgerRecord) : Prop :=
  Forall (λ r, foreign (lr_record_type r)) rs.

Lemma foreign_record r : foreign (lr_record_type r) → is_checkpoint r = false ∧ is_delta r = false.
Proof. intros [H1 H2]. split; by apply bool_decide_eq_false. Qed.

Lemma no_resource_records_spec rs :
  no_resource_records rs →
  last_checkpoint rs = None ∧ existsb is_delta rs = false ∧ history_ids rs = ∅.
Proof.
  induction 1 as [|r rs Hr Hrs (IH1 & IH2 & IH3)]; [done|].
  apply foreign_record in Hr as [Hc Hd]. simpl. rewrite IH1, IH2, Hc, Hd. split_and!; try done.
  change (record_ids r ∪ history_ids rs = ∅). rewrite IH3. unfold record_ids. rewrite Hc, Hd. set_solver.
Qed.

(** A manager attached to a ledger that has no resource records yet. *)
Lemma first_attach env (m0 : Manager) run l m1 l1 :
  no_resource_records (lg_contents l run) → state_ok (rm_state m0) →
  attach env m0 run l = (m1, l1, Ok tt) →
  rm_state m1 = rm_state m0 ∧ rm_persistence m1 = Some run ∧ recoverable run (ev_now env) m1 l1.
Proof.
  intros (Hl & Hx & Hh)%no_resource_records_spec Hok. unfold attach.
  destruct (lg_records l run) as [rs|] eqn:Hrs; [|done].
  apply lg_records_contents in Hrs as ->. unfold restore_latest_state. rewrite Hl, Hx. cbn [negb orb].
  unfold persist_snapshot_locked. cbn [rm_persistence set_persistence].
  set (m2 := set_persistence run (set_delta_count 0 m0)).
  destruct (append_snapshot env m2 run l) as [l2 [[]|e]] eqn:Ha; [|done]. intros [= <- <-].
  split_and!; try done. eapply append_snapshot_recoverable; [|exact Ha|]; [done|set_solver].
Qed.

(** The life of a Run's accounts: the operations of the manager that is
    running, and restarts, at which another manager takes over the ledger. *)
Inductive life_step (run : RunId) : Sys (L := L) (E := E) → Sys (L := L) (E := E) → Prop :=
  | life_op s s' :
      rm_step s s' → cost_fin (rm_state (sy_manager s')) → life_step run s s'
  | life_restart env m0 s m' l' :
      (sy_clock s ≤ ev_now env)%Z → attach env m0 run (sy_ledger s) = (m', l', Ok tt) →
      life_step run s (Build_Sys m' l' 0 0 [] (ev_now env)).

Record life_ok (run : RunId) (s : Sys (L := L) (E := E)) : Prop := {
  lo_steps : steps_ok s;
  lo_run : rm_persistence (sy_manager s) = Some run;
  lo_state : state_ok (rm_state (sy_manager s));
  lo_recoverable : ∃ c, (c ≤ sy_clock s)%Z ∧ recoverable run c (sy_manager s) (sy_ledger s);
}.

Lemma step_clock (s s' : Sys (L := L) (E := E)) : rm_step s s' → (sy_clock s ≤ sy_clock s')%Z.
Proof.
  intros Hs. inversion Hs; subst; simpl; repeat match goal with Ht : tick _ _ |- _ => destruct Ht as (? & _) end; lia.
Qed.

Lemma life_ok_step run s s' : life_ok run s → life_step run s s' → life_ok run s'.
Proof.
  intros [Hs Hrun Hok (c & Hc & Hrec)] Hl.
  inversion Hl as [s1 s2 Hstep Hfin|env m0 s1 m' l' Hnow Ha]; subst.
  - destruct (history_recoverable run c s s' Hs (rtc_once _ _ Hstep) Hrun Hfin Hok Hrec) as [Hok' Hrec'].
    split; [by eapply steps_ok_step| |done|].
    + rewrite <-Hrun. apply (ev_persistence _ _ (history_evolves _ _ Hs (rtc_once _ _ Hstep))).
    + exists c. split; [|done]. pose proof (step_clock _ _ Hstep). lia.
  - assert (∃ rs, lg_records (sy_ledger s) run = Ok rs) as [rs Hrs].
    { unfold attach in Ha. destruct (lg_records _ _); [eauto|done]. }
    destruct (recoverable_attach env run c (sy_manager s) m0 (sy_ledger s) rs Hrec ltac:(lia) Hrs)
      as (m2 & Ha2 & Hv & Hp & _ & Hrec2).
    rewrite Ha2 in Ha. injection Ha as <- <-.
    pose proof (recovers_ok _ _ _ Hv Hok) as Hok2. destruct Hv as [_ Hcounts _ _ Hw _].
    split; simpl; try done; [|exists (ev_now env); by split].
    apply fresh_steps_ok. split; simpl; try done. rewrite Hw. unfold normalize_window.
    destruct Hs as [_ [[Hw1 Hw2] _]]. simpl in *. destruct (_ && _); simpl; lia.
Qed.

(** C34: A restart restores the accounts.  A manager is attached to a ledger that
    holds no resource records; then any operations run, interleaved with the
    records of other components, failed writes and any number of restarts, as
    long as the accumulated cost is finite.  Whenever another manager attaches
    to the ledger, the attachment succeeds without writing, and the new manager
    has the budget, signals, counters, fingerprints, cost and deadline of the
    running one, no permit, and its rate window without the reservations that
    were not started (or an empty one when it has expired); every identifier it
    takes as applied was applied. *)
Theorem resource_recovery env0 m0 run l0 m1 l1 s env m rs :
  no_resource_records (lg_contents l0 run) → state_ok (rm_state m0) →
  counts (rm_state m0) = (0, 0)%Z →
  (0 ≤ pw_started_at_unix_ms (rs_provider_rate (rm_state m0)) ≤ ev_now env0)%Z →
  attach env0 m0 run l0 = (m1, l1, Ok tt) →
  rtc (life_step run) (Build_Sys m1 l1 0 0 [] (ev_now env0)) s →
  (sy_clock s ≤ ev_now env)%Z → lg_records (sy_ledger s) run = Ok rs →
  ∃ m', attach env m run (sy_ledger s) = (m', sy_ledger s, Ok tt) ∧
    recovers env (rm_state (sy_manager s)) (rm_state m') ∧ rm_persistence m' = Some run.
Proof.
  intros Hnone Hok Hcounts Hw Ha Hlife Hnow Hrs.
  destruct (first_attach _ _ _ _ _ _ Hnone Hok Ha) as (Hst & Hp & Hrec).
  assert (life_ok run s) as [_ _ _ (c & Hc & Hrec')].
  { eapply rtc_preserves; [apply life_ok_step| |exact Hlife].
    split; simpl; [|done|by rewrite Hst|exists (ev_now env0); by split].
    apply fresh_steps_ok. by split; simpl; rewrite ?Hst. }
  destruct (recoverable_attach env run c _ m _ _ Hrec' ltac:(lia) Hrs) as (m' & ? & ? & ? & _).
  by exists m'.
Qed.
End recovery.
