(* ===== verification/Scheduler.v ===== *)
(** * Schedulers

    crates/solaris-agent/src/resource_policy.rs and scheduler.rs: the slot
    counter, the FIFO scheduler built on it, and the scheduler that takes its
    slots from the resource manager. *)
From stdpp Require Import relations.
From S2P Require Import Prelude Json Types WorkflowTypes RuntimeLedger LedgerInterface.
From S2P Require Import ResourceTypes ResourceManager ResourceFacts.

Module Policy.

Record ResourcePolicy : Type := {
  rp_max_active : Z;
  rp_active : Z;
}.

Definition policy_new (max_active : Z) : ResourcePolicy :=
  {| rp_max_active := Z.max max_active 1; rp_active := 0 |}.

(** [available_parallelism()] is the argument [system]. *)
Definition from_system (system : option Z) (configured_max : option Z) : ResourcePolicy :=
  let system_capacity := Z.max (default 1%Z system) 1 in
  policy_new (Z.max (default system_capacity configured_max) 1).

Definition available_slots (p : ResourcePolicy) : Z := saturating_sub (rp_max_active p) (rp_active p).

Definition try_acquire (p : ResourcePolicy) : ResourcePolicy * bool :=
  if decide (0 < available_slots p)%Z
  then ({| rp_max_active := rp_max_active p; rp_active := (rp_active p + 1)%Z |}, true)
  else (p, false).

Definition policy_release (p : ResourcePolicy) : ResourcePolicy :=
  {| rp_max_active := rp_max_active p; rp_active := saturating_sub (rp_active p) 1 |}.

End Policy.
Export Policy.

Section scheduler.
Context {T : Type}.

Record ScheduledTask : Type := {
  st_id : string;
  st_payload : T;
}.

Record Scheduler : Type := {
  sc_queue : list ScheduledTask;
  sc_policy : ResourcePolicy;
}.

Definition scheduler_new (p : ResourcePolicy) : Scheduler := {| sc_queue := []; sc_policy := p |}.

Definition enqueue (s : Scheduler) (task : ScheduledTask) : Scheduler :=
  {| sc_queue := sc_queue s ++ [task]; sc_policy := sc_policy s |}.

(** The slot is only taken when the queue is not empty. *)
Definition acquire_next (s : Scheduler) : Scheduler * option ScheduledTask :=
  match sc_queue s with
  | [] => (s, None)
  | task :: queue =>
      match try_acquire (sc_policy s) with
      | (p, true) => ({| sc_queue := queue; sc_policy := p |}, Some task)
      | (p, false) => ({| sc_queue := sc_queue s; sc_policy := p |}, None)
      end
  end.

Definition scheduler_release (s : Scheduler) : Scheduler :=
  {| sc_queue := sc_queue s; sc_policy := policy_release (sc_policy s) |}.

(** [MeshScheduler]: the queue alone; the permits are the manager's. *)
Definition mesh_enqueue (queue : list ScheduledTask) (task : ScheduledTask) : list ScheduledTask :=
  queue ++ [task].

Definition mesh_acquire_next {L E} `{!Ledger L E} (env : Env) (queue : list ScheduledTask)
    (m : ResourceManager E) (l : L) (spawn_depth : Z) :
    list ScheduledTask * (ResourceManager E * L) * option ScheduledTask :=
  match queue with
  | [] => (queue, (m, l), None)
  | task :: rest =>
      match try_acquire_agent env m l spawn_depth with
      | (m, l, true) => (rest, (m, l), Some task)
      | (m, l, false) => (queue, (m, l), None)
      end
  end.

(** ** Histories *)

(** A scheduler with the tasks enqueued and handed out so far, and the number
    of slots that are held. *)
Record SchedHistory : Type := {
  sh_sched : Scheduler;
  sh_enqueued : list ScheduledTask;
  sh_started : list ScheduledTask;
  sh_running : Z;
}.

Inductive sched_step : SchedHistory → SchedHistory → Prop :=
  | sched_enqueue s es ss n task :
      sched_step (Build_SchedHistory s es ss n) (Build_SchedHistory (enqueue s task) (es ++ [task]) ss n)
  | sched_acquire s s' es ss n task :
      acquire_next s = (s', Some task) →
      sched_step (Build_SchedHistory s es ss n) (Build_SchedHistory s' es (ss ++ [task]) (n + 1))
  | sched_refused s s' es ss n :
      acquire_next s = (s', None) →
      sched_step (Build_SchedHistory s es ss n) (Build_SchedHistory s' es ss n)
  | sched_release s es ss n :
      (0 < n)%Z →
      sched_step (Build_SchedHistory s es ss n) (Build_SchedHistory (scheduler_release s) es ss (n - 1)).

Record sched_ok (max : Z) (h : SchedHistory) : Prop := {
  so_fifo : sh_enqueued h = sh_started h ++ sc_queue (sh_sched h);
  so_active : rp_active (sc_policy (sh_sched h)) = sh_running h;
  so_max : rp_max_active (sc_policy (sh_sched h)) = max;
  so_bound : (0 ≤ sh_running h ≤ max)%Z;
}.

Lemma acquire_next_spec s :
  match acquire_next s with
  | (s', Some task) =>
      (0 < available_slots (sc_policy s))%Z ∧ sc_queue s = task :: sc_queue s' ∧
      rp_active (sc_policy s') = (rp_active (sc_policy s) + 1)%Z ∧
      rp_max_active (sc_policy s') = rp_max_active (sc_policy s)
  | (s', None) => s' = s ∧ (sc_queue s = [] ∨ available_slots (sc_policy s) = 0%Z)
  end.
Proof.
  destruct s as [q p]. unfold acquire_next, try_acquire. simpl. destruct q as [|task q]; [by auto|].
  case_decide as Hs; simpl; [done|]. split; [done|]. right. unfold available_slots, saturating_sub in *. lia.
Qed.

Lemma sched_ok_step max h h' : (1 ≤ max)%Z → sched_ok max h → sched_step h h' → sched_ok max h'.
Proof.
  intros Hmax [Hf Ha Hm Hb] Hs. inversion Hs as [s es ss n task|s s' es ss n task Hn|s s' es ss n Hn|s es ss n Hn];
    subst; simpl in *; split; simpl; try done; try lia.
  - by rewrite Hf, <-app_assoc.
  - pose proof (acquire_next_spec s) as Hx. rewrite Hn in Hx. destruct Hx as (_ & Hq & _).
    rewrite Hf, Hq. by rewrite <-app_assoc.
  - pose proof (acquire_next_spec s) as Hx. rewrite Hn in Hx. lia.
  - pose proof (acquire_next_spec s) as Hx. rewrite Hn in Hx. naive_solver.
  - pose proof (acquire_next_spec s) as Hx. rewrite Hn in Hx.
    unfold available_slots, saturating_sub in Hx. lia.
  - pose proof (acquire_next_spec s) as Hx. rewrite Hn in Hx. naive_solver.
  - pose proof (acquire_next_spec s) as Hx. rewrite Hn in Hx. naive_solver.
  - pose proof (acquire_next_spec s) as Hx. rewrite Hn in Hx. naive_solver.
  - unfold saturating_sub. lia.
Qed.

(** The scheduler is first in, first out, within its slots, and never idle
    without cause.  Along every history the tasks handed out are a prefix of the
    tasks enqueued, in order, and the queue holds exactly the rest; the slots in
    use are those handed out and not released, at most the configured maximum
    (at least one); and a request is refused only when the queue is empty or
    every slot is in use. *)
Theorem scheduler_fifo max h :
  rtc sched_step (Build_SchedHistory (scheduler_new (policy_new max)) [] [] 0) h →
  sh_enqueued h = sh_started h ++ sc_queue (sh_sched h) ∧
  rp_active (sc_policy (sh_sched h)) = sh_running h ∧
  (0 ≤ sh_running h ≤ Z.max max 1)%Z ∧
  (∀ s', acquire_next (sh_sched h) = (s', None) →
     s' = sh_sched h ∧ (sc_queue (sh_sched h) = [] ∨ sh_running h = Z.max max 1)).
Proof.
  intros Hr.
  assert (sched_ok (Z.max max 1) h) as [Hf Ha Hm Hb].
  { eapply rtc_preserves; [|..|exact Hr]; [intros; eapply sched_ok_step; eauto; lia|].
    split; simpl; try done. lia. }
  split_and!; try done; try lia. intros s' Hn.
  pose proof (acquire_next_spec (sh_sched h)) as Hx. rewrite Hn in Hx. destruct Hx as [-> [?|Hx]]; [by auto|].
  split; [done|]. right. unfold available_slots, saturating_sub in Hx. lia.
Qed.

(** The Mesh scheduler hands out a task exactly with an Agent permit.  The
    task is the oldest one and it leaves the queue only together with a permit
    of the resource manager; without one the queue is as before; an empty queue
    leaves the manager and the ledger alone. *)
Theorem mesh_scheduler_permits {L E} `{!Ledger L E, !LedgerLaws L E} env queue
    (m : ResourceManager E) (l : L) depth queue' m' l' o :
  mesh_acquire_next env queue m l depth = (queue', (m', l'), o) →
  match o with
  | Some task =>
      queue = task :: queue' ∧ try_acquire_agent env m l depth = (m', l', true) ∧
      counts (rm_state m') = ((counts (rm_state m)).1 + 1, (counts (rm_state m)).2)%Z ∧
      (ru_active_agents (rs_usage (rm_state m')) ≤ effective_agent_limit m)%Z
  | None =>
      queue' = queue ∧ counts (rm_state m') = counts (rm_state m) ∧
      (queue = [] → m' = m ∧ l' = l)
  end.
Proof.
  unfold mesh_acquire_next. destruct queue as [|task rest]; [by intros [= <- <- <- <-]|].
  destruct (try_acquire_agent env m l depth) as [[m1 l1] []] eqn:Ht; intros [= <- <- <- <-];
    pose proof (acquire_agent_counts _ _ _ _ _ _ _ Ht) as [Hc Hle].
  - split_and!; try done. by apply Hle.
  - split_and!; try done. rewrite Hc. simpl. by rewrite Z.add_0_r.
Qed.
End scheduler.
Arguments ScheduledTask : clear implicits.
Arguments Scheduler : clear implicits.
