(* ===== verification/ResourceExamples.v ===== *)
(** * Concrete runs of the resource manager

    The theorems about the resource manager at concrete inputs, with the
    in-memory ledger, and the run in which a checkpoint forgets an applied
    effect. *)
From stdpp Require Import relations.
From S2P Require Import Prelude Json Types WorkflowTypes RuntimeLedger LedgerFacts LedgerInterface.
From S2P Require Import ResourceTypes ResourceManager ResourceFacts ResourceRates ResourceUpdates.
From S2P Require Import ResourceRecovery Scheduler.

Definition at_time (now : Z) : Env := {| ev_now := now; ev_ledger_now := now; ev_elapsed_ms := 0 |}.

Definition manager0 : ResourceManager LedgerError :=
  new_with_clock_and_parallelism_hint budget_default 1000 4.

Definition sys0 (m : ResourceManager LedgerError) (l : InMemoryLedgerState) : Sys :=
  Build_Sys m l 0 0 [] 1000.

Definition some_usage : TokenUsage :=
  {| tu_input_tokens := 7; tu_output_tokens := 3; tu_cache_creation_tokens := 0;
     tu_cache_read_tokens := 0 |}.

Lemma some_usage_ok : token_usage_ok some_usage.
Proof. unfold token_usage_ok, is_u64, u64_max. simpl. lia. Qed.

Lemma tick_ok c now : (c ≤ now ∧ 0 < now ≤ i64_max)%Z → tick c (at_time now).
Proof. unfold tick, is_i64, i64_min, i64_max. simpl. lia. Qed.

Lemma sys0_fresh l : fresh_sys (sys0 manager0 l).
Proof. split; try done. Qed.

(** One Agent of four slots. *)
Lemma agent_admission_exact_witness :
  agent_within_budget (at_time 1000) manager0 0 ∧
  rm_state (try_acquire_agent (at_time 1000) manager0 ledger_default 0).1.1 =
    agent_admitted (rm_state manager0).
Proof.
  destruct (agent_admission_exact (at_time 1000) manager0 ledger_default 0
    (try_acquire_agent (at_time 1000) manager0 ledger_default 0).1.1
    (try_acquire_agent (at_time 1000) manager0 ledger_default 0).1.2 true) as [Hok _].
  - vm_compute. discriminate.
  - vm_compute. reflexivity.
  - destruct (Hok eq_refl) as (Hb & _ & Hs). split; [exact Hb|exact Hs].
Defined.

(** With a limit of one the second Agent waits. *)
Definition one_slot : ResourceManager LedgerError :=
  new_with_clock_and_parallelism_hint
    {| rb_max_active_agents := Some 1%Z; rb_max_concurrent_effects := None; rb_max_spawn_depth := None;
       rb_max_total_descendants_per_run := None; rb_max_turns := None; rb_max_tokens := None;
       rb_max_wall_time_ms := None; rb_max_cost := None; rb_max_process_output_bytes := None |} 1000 4.
Definition one_running : ResourceManager LedgerError :=
  (try_acquire_agent (at_time 1000) one_slot ledger_default 0).1.1.

Lemma waits_only_for_capacity_witness :
  (effective_agent_limit one_running ≤ ru_active_agents (rs_usage (rm_state one_running)))%Z.
Proof.
  destruct (waits_only_for_capacity (at_time 1000) (at_time 1001) one_running ledger_default 0
    one_running ledger_default) as (_ & _ & _ & Hlim).
  - vm_compute. discriminate.
  - vm_compute. discriminate.
  - vm_compute. reflexivity.
  - exact Hlim.
Defined.

Definition after_agent : Sys :=
  Build_Sys (try_acquire_agent (at_time 1000) manager0 ledger_default 0).1.1
    (try_acquire_agent (at_time 1000) manager0 ledger_default 0).1.2 1 0 [] 1000.

Lemma after_agent_step : rm_step (sys0 manager0 ledger_default) after_agent.
Proof.
  apply (step_acquire_agent (at_time 1000) 0 manager0 ledger_default _ _ true 0 0 [] 1000).
  - apply tick_ok. unfold i64_max. lia.
  - vm_compute. reflexivity.
Qed.

Lemma permits_accounted_witness :
  counts (rm_state (sy_manager after_agent)) = (1, 0)%Z.
Proof.
  refine (proj1 (permits_accounted (sys0 manager0 ledger_default) (sys0 manager0 ledger_default)
    after_agent _ _ _ _ _)).
  - reflexivity.
  - reflexivity.
  - reflexivity.
  - apply rtc_refl.
  - apply after_agent_step.
Defined.

(** Two requests and a hundred tokens a minute. *)
Definition limits : ProviderSignals :=
  {| ps_concurrency_hint := None; ps_requests_per_minute := Some 2%Z;
     ps_tokens_per_minute := Some 100%Z; ps_cache_token_accounting := None;
     ps_input_cost_per_million := None; ps_cache_read_cost_per_million := None;
     ps_cache_write_cost_per_million := None; ps_output_cost_per_million := None |}.

Definition limited : ResourceManager LedgerError :=
  (set_provider_signals (at_time 1000) manager0 ledger_default limits).1.

Definition reserved :=
  acquire_provider_request (at_time 1000) limited ledger_default 40.

Definition after_reserve : Sys :=
  Build_Sys reserved.1.1 reserved.1.2 0 0 [permit 40 1000 Reserved] 1000.

Lemma rate_limits_kept_witness : reservations_counted 2 (rates after_reserve).
Proof.
  apply (rate_limits_kept (sys0 limited ledger_default) after_reserve 2 100).
  - reflexivity.
  - reflexivity.
  - unfold u64_max. lia.
  - unfold u64_max. lia.
  - reflexivity.
  - reflexivity.
  - simpl. lia.
  - apply rtc_once. split.
    + apply (step_acquire_request (at_time 1000) 40 limited ledger_default _ _
        (Ok (permit 40 1000 Reserved)) 0 0 [] 1000).
      * apply tick_ok. unfold i64_max. lia.
      * unfold is_u64, u64_max. lia.
      * vm_compute. reflexivity.
    + vm_compute. reflexivity.
Defined.

(** A ledger on a full disk. *)
#[local] Instance full_disk : Ledger unit unit := {|
  lg_append l _ _ _ _ _ := (l, Err tt);
  lg_records _ _ := Ok [];
  lg_contents _ _ := [];
  lg_ready _ := True;
|}.

#[local] Instance full_disk_laws : LedgerLaws unit unit.
Proof. split; simpl; try done. by intros ? ? ? [= <-]. Qed.

Definition attached : ResourceManager unit :=
  set_persistence "run" (new_with_clock_and_parallelism_hint budget_default 1000 4).

Definition failed :=
  with_state_update (at_time 1000) attached tt (λ s, (agent_admitted s, (true, true))).

Lemma persistence_failure_final_witness :
  rm_state failed.1.1 = rm_state attached ∧ is_Some (rm_persistence_error failed.1.1).
Proof.
  destruct (persistence_failure_final (Build_Sys attached tt 0 0 [] 1000)
    (Build_Sys attached tt 0 0 [] 1000) (at_time 1000) (λ s, (agent_admitted s, (true, true)))
    failed.1.1 failed.1.2 (CheckpointPersistenceFailed (LedgerFailure tt))
    (Build_Sys failed.1.1 failed.1.2 0 0 [] 1000)) as (Hs & _ & He & _).
  - split; vm_compute; repeat split; discriminate.
  - apply rtc_refl.
  - vm_compute. reflexivity.
  - apply rtc_refl.
  - split; [exact Hs|exact He].
Defined.

Definition once (m : ResourceManager LedgerError) (l : InMemoryLedgerState) (id : string) :=
  record_model_usage_once_checked (at_time 1000) m l id some_usage true.

Definition after_once : Sys :=
  Build_Sys (once manager0 ledger_default "effect").1.1 (once manager0 ledger_default "effect").1.2
    0 0 [] 1000.

Lemma usage_recorded_once_witness :
  once (sy_manager after_once) (sy_ledger after_once) "effect" =
    (sy_manager after_once, sy_ledger after_once, Ok true).
Proof.
  apply (usage_recorded_once (sys0 manager0 ledger_default) (sys0 manager0 ledger_default)
    (at_time 1000) "effect" some_usage true (sy_manager after_once) (sy_ledger after_once) true after_once).
  - apply sys0_fresh.
  - apply rtc_refl.
  - vm_compute. reflexivity.
  - apply rtc_refl.
Defined.

Definition two_uses := [("a", some_usage); ("b", some_usage); ("a", some_usage)].

Lemma usage_totals_witness :
  ru_tokens (rs_usage (rm_state (record_all (at_time 1000) manager0 ledger_default two_uses).1.1)) = 20%Z.
Proof.
  rewrite (usage_totals (at_time 1000) manager0 ledger_default two_uses
    (record_all (at_time 1000) manager0 ledger_default two_uses).1.1
    (record_all (at_time 1000) manager0 ledger_default two_uses).1.2); vm_compute; reflexivity.
Defined.

Definition turn_state : ResourceStateSnapshot := rm_state (once manager0 ledger_default "effect").1.1.

(** A concrete state is checked member by member. *)
Ltac concrete_ok :=
  repeat lazymatch goal with
  | |- _ ∧ _ => split
  | |- state_ok _ => unfold state_ok
  | |- budget_ok _ => unfold budget_ok
  | |- signals_ok _ => unfold signals_ok
  | |- usage_ok _ => unfold usage_ok
  | |- window_ok _ => unfold window_ok
  | |- Forall _ _ => forall_list
  | |- is_u64 _ => vm_compute
  | |- is_i64 _ => vm_compute
  | |- opt_ok _ _ => vm_compute
  | |- f64_fin _ => vm_compute
  | |- True => exact I
  | |- _ = _ => reflexivity
  | |- _ → False => discriminate
  | |- _ => progress simpl
  end.

Lemma turn_state_ok : state_ok turn_state.
Proof. concrete_ok. Qed.

Lemma delta_roundtrip_witness :
  ∃ d d' s, between (rm_state manager0) turn_state = Some d ∧
    resource_state_delta_from_record (delta_to_value d) = Some d' ∧
    delta_apply d' (rm_state manager0) = Some s ∧
    state_view false s = state_view false turn_state ∧
    rs_applied_usage_effects s = rs_applied_usage_effects turn_state.
Proof.
  destruct (between (rm_state manager0) turn_state) as [d|] eqn:Hd; [|vm_compute in Hd; discriminate].
  exists d. destruct (delta_roundtrip (rm_state manager0) turn_state d Hd turn_state_ok)
    as (d' & s & H1 & H2 & H3 & H4).
  exists d', s. repeat split; assumption.
Defined.

Lemma accounts_well_typed_witness : state_ok (rm_state (sy_manager after_once)).
Proof.
  apply (accounts_well_typed (sys0 manager0 ledger_default) after_once).
  - apply sys0_fresh.
  - apply new_state_ok. concrete_ok.
  - apply rtc_once. apply (step_model_usage_once (at_time 1000) "effect" some_usage true manager0
      ledger_default _ _ (Ok true) 0 0 [] 1000).
    + apply tick_ok. unfold i64_max. lia.
    + apply some_usage_ok.
    + vm_compute. reflexivity.
  - vm_compute. reflexivity.
Defined.

(** An attached manager records usage; the next process takes over. *)
Definition attach0 := attach (at_time 1000) manager0 "run" ledger_default.
Definition turn1 := once attach0.1.1 attach0.1.2 "effect".
Definition after_turn1 : Sys := Build_Sys turn1.1.1 turn1.1.2 0 0 [] 1000.

Lemma resource_recovery_witness :
  ∃ m', attach (at_time 2000) manager0 "run" turn1.1.2 = (m', turn1.1.2, Ok tt) ∧
    recovers (at_time 2000) (rm_state turn1.1.1) (rm_state m') ∧ rm_persistence m' = Some "run".
Proof.
  apply (resource_recovery (at_time 1000) manager0 "run" ledger_default attach0.1.1 attach0.1.2
    after_turn1 (at_time 2000) manager0 (lg_contents turn1.1.2 "run")).
  - vm_compute. constructor.
  - apply new_state_ok. concrete_ok.
  - reflexivity.
  - vm_compute. split; discriminate.
  - vm_compute. reflexivity.
  - apply rtc_once, life_op.
    + apply (step_model_usage_once (at_time 1000) "effect" some_usage true attach0.1.1
        attach0.1.2 _ _ (Ok true) 0 0 [] 1000).
      * apply tick_ok. unfold i64_max. lia.
      * apply some_usage_ok.
      * vm_compute. reflexivity.
    + vm_compute. reflexivity.
  - vm_compute. discriminate.
  - reflexivity.
Defined.

(** ** A checkpoint forgets the effect it follows *)

Definition effect_ids (n : nat) : list (string * TokenUsage) :=
  (λ i, (decimal (Z.of_nat i), some_usage)) <$> seq 1 n.

(** The process that recorded [n] effects, and the one that took over. *)
Definition before_restart (n : nat) := record_all (at_time 1000) attach0.1.1 attach0.1.2 (effect_ids n).
Definition after_restart (n : nat) :=
  attach (at_time 2000) manager0 "run" (before_restart n).1.2.
Definition repeated (n : nat) (id : string) : Z :=
  ru_tokens (rs_usage (rm_state
    (once (after_restart n).1.1 (after_restart n).1.2 id).1.1)).

(** After 63 effects every repetition is recognised by the next process; the
    64th effect is recorded by a checkpoint, which does not name it, and is
    counted twice. *)
Lemma checkpoint_forgets_effect :
  repeated 63 "63" = 630%Z ∧ repeated 64 "63" = 640%Z ∧ repeated 64 "64" = 650%Z.
Proof. vm_compute. repeat split. Qed.

(** ** Scheduling *)

Definition task (id : string) : ScheduledTask unit := Build_ScheduledTask id tt.

Definition sched1 : SchedHistory (T := unit) :=
  Build_SchedHistory (enqueue (scheduler_new (policy_new 0)) (task "a")) [task "a"] [] 0.

Lemma scheduler_fifo_witness :
  sh_enqueued sched1 = sh_started sched1 ++ sc_queue (sh_sched sched1) ∧
  rp_active (sc_policy (sh_sched sched1)) = sh_running sched1.
Proof.
  destruct (scheduler_fifo (T := unit) 0 sched1) as (Hf & Ha & _).
  - apply rtc_once, (sched_enqueue (scheduler_new (policy_new 0)) [] [] 0 (task "a")).
  - split; [exact Hf|exact Ha].
Defined.
