(* ===== verification/CollaborationTypes.v ===== *)
(** * Data of the collaboration runtime

    The records the collaboration runtime writes to the ledger, with their JSON
    forms: task mutations (crates/solaris-agent/src/task_registry.rs), Agent
    relationships (relationship_store.rs), facts and artifacts (team_state.rs),
    outcomes of child Agents (crates/solaris-types/src/spawner.rs and
    collaboration_runtime/spawn.rs); the digest of a JSON value
    (execution_context/redaction.rs); and the mutation line of a Run
    (runtime_ledger_mutation.rs). *)
From S2P Require Import ResourceTypes Prelude Json Types TaskRegistry WorkflowTypes Identity Registries.

(** ** Digests of JSON values *)

(** Objects are rebuilt with their keys in order, at every depth. *)
Fixpoint canonicalize_json_value (v : Value) : Value :=
  match v with
  | VObject l =>
      let entries := List.map (λ kv, match kv with (k, w) => (k, canonicalize_json_value w) end) l in
      VObject (fold_left (λ canonical k,
        match assoc k entries with Some w => obj_insert k w canonical | None => canonical end)
        (merge_sort String.le entries.*1) [])
  | VArray l => VArray (List.map canonicalize_json_value l)
  | _ => v
  end.

Section digest.
Context (sha256 : string → list Byte.byte) (to_vec : Value → string).

Definition stable_digest_bytes (bytes : string) : string := lower_hex (sha256 bytes).

Definition stable_digest_value (v : Value) : string :=
  stable_digest_bytes (to_vec (canonicalize_json_value v)).
End digest.

(** ** The mutation line of a Run

    [split_once(":workflow:")]: Runs that share the part before the first
    occurrence share one lock.  Two lines are the same lock exactly when their
    roots are equal. *)
Fixpoint split_before (sep s : string) : option string :=
  if starts_with s sep then Some EmptyString
  else match s with
       | EmptyString => None
       | String c s => String c <$> split_before sep s
       end.

Definition line_for (run_id : RunId) : RunId := default run_id (split_before ":workflow:" run_id).

Definition same_line (a b : RunId) : bool := bool_decide (line_for a = line_for b).

(** ** Names in messages and in JSON *)

Definition task_state_debug (s : TaskState) : string :=
  match s with
  | Created => "Created" | Queued => "Queued" | Assigned => "Assigned" | Running => "Running"
  | Completed => "Completed" | Failed => "Failed" | Skipped => "Skipped" | Cancelled => "Cancelled"
  end.

Definition agent_state_str (s : AgentLifecycleState) : string :=
  match s with
  | AgReserved => "reserved" | AgInitializing => "initializing" | AgActive => "active"
  | AgIdle => "idle" | AgCompleted => "completed" | AgFailed => "failed" | AgCancelled => "cancelled"
  end.

Definition agent_state_debug (s : AgentLifecycleState) : string :=
  match s with
  | AgReserved => "Reserved" | AgInitializing => "Initializing" | AgActive => "Active"
  | AgIdle => "Idle" | AgCompleted => "Completed" | AgFailed => "Failed" | AgCancelled => "Cancelled"
  end.

#[export] Program Instance serde_agent_state : Serde AgentLifecycleState := {|
  to_value s := VString (agent_state_str s);
  from_value := enum_from_value agent_state_str
    [AgReserved; AgInitializing; AgActive; AgIdle; AgCompleted; AgFailed; AgCancelled];
  serde_ok _ := True;
|}.
Next Obligation. by intros []. Qed.
Next Obligation. done. Qed.

(** An [Option] member without [skip_serializing_if]. *)
Definition opt_value `{Serde A} (o : option A) : Value :=
  match o with Some a => to_value a | None => VNull end.

(** ** Task mutations *)

Definition mutation_body_fields (m : TaskCasMutation) : list (string * Value) :=
  match m with
  | Assign owner | MarkRunning owner => [("owner", to_value owner)]
  | Handoff from to => [("from", to_value from); ("to", to_value to)]
  | Settle owner state outcome failure =>
      [("owner", to_value owner); ("state", to_value state); ("outcome_ref", opt_value outcome);
       ("failure_class", opt_value failure)]
  | Skip reason | SupervisorRetry reason => [("reason", opt_value reason)]
  | WorkflowState state clear outcome failure =>
      [("state", to_value state); ("clear_owner", to_value clear); ("outcome_ref", opt_value outcome);
       ("failure_class", opt_value failure)]
  end.

Definition mutation_from_body (name : string) (l : list (string * Value)) : option TaskCasMutation :=
  if decide (name = "assign") then owner ← read from_value "owner" l; Some (Assign owner)
  else if decide (name = "mark_running") then
    owner ← read from_value "owner" l; Some (MarkRunning owner)
  else if decide (name = "handoff") then
    from ← read from_value "from" l; to ← read from_value "to" l; Some (Handoff from to)
  else if decide (name = "settle") then
    owner ← read from_value "owner" l; state ← read from_value "state" l;
    outcome ← read_opt from_value "outcome_ref" l;
    failure ← read_opt from_value "failure_class" l;
    Some (Settle owner state outcome failure)
  else if decide (name = "skip") then reason ← read_opt from_value "reason" l; Some (Skip reason)
  else if decide (name = "supervisor_retry") then
    reason ← read_opt from_value "reason" l; Some (SupervisorRetry reason)
  else if decide (name = "workflow_state") then
    state ← read from_value "state" l; clear ← read from_value "clear_owner" l;
    outcome ← read_opt from_value "outcome_ref" l;
    failure ← read_opt from_value "failure_class" l;
    Some (WorkflowState state clear outcome failure)
  else None.

(** An externally tagged enum: one entry, the variant and its members. *)
Definition mutation_from_value (v : Value) : option TaskCasMutation :=
  match v with
  | VObject [(name, VObject l)] => mutation_from_body name l
  | _ => None
  end.

#[export] Program Instance serde_mutation : Serde TaskCasMutation := {|
  to_value m := VObject [(mutation_name m, VObject (mutation_body_fields m))];
  from_value := mutation_from_value;
  serde_ok _ := True;
|}.
Next Obligation.
  intros [ | | | ? [] [] [] |[]|[]|[] [] [] [] ] _;
    try match goal with f : TaskFailureClass |- _ => destruct f end; try done.
  all: by match goal with o : option TaskFailureClass |- _ => destruct o as [[]|] end.
Qed.
Next Obligation.
  intros m _. apply value_wf_object. split; [apply NoDup_singleton|]. constructor; [|constructor].
  apply value_wf_object.
  destruct m as [ | | | ? ? [] [] |[]|[]|? ? [] [] ]; (split; [simpl; serde_keys|]);
    repeat constructor.
Qed.

(** ** Relationships, facts and artifacts *)

Definition relationship_ok (r : AgentRelationship) : Prop :=
  (0 ≤ rl_child_identity_version r ≤ 255)%Z.

Definition relationship_fields (r : AgentRelationship) : list (string * option Value) :=
  [("run_id", Some (to_value (rl_run_id r)));
   ("parent_agent_id", Some (to_value (rl_parent_agent_id r)));
   ("child_agent_id", Some (to_value (rl_child_agent_id r)));
   ("child_identity_version", Some (uint_to_value (rl_child_identity_version r)));
   ("role_key", Some (to_value (rl_role_key r)));
   ("stable_task_key", Some (to_value (rl_stable_task_key r)));
   ("spawn_operation_id", Some (to_value (rl_spawn_operation_id r)))].

Definition relationship_from (v : Value) : option AgentRelationship :=
  l ← as_object v;
  run_id ← read from_value "run_id" l;
  parent ← read from_value "parent_agent_id" l;
  child ← read from_value "child_agent_id" l;
  version ← read_default (uint_from_value 255) 0%Z "child_identity_version" l;
  role ← read_default from_value "" "role_key" l;
  key ← read_default from_value "" "stable_task_key" l;
  op ← read from_value "spawn_operation_id" l;
  Some {| rl_run_id := run_id; rl_parent_agent_id := parent; rl_child_agent_id := child;
          rl_child_identity_version := version; rl_role_key := role; rl_stable_task_key := key;
          rl_spawn_operation_id := op |}.

#[export] Program Instance serde_relationship : Serde AgentRelationship := {|
  to_value r := VObject (fields_of (relationship_fields r));
  from_value := relationship_from;
  serde_ok := relationship_ok;
|}.
Next Obligation.
  intros r Hr. assert (NoDup (relationship_fields r).*1) as Hnd by serde_keys.
  eapply bind_Some_intro; [reflexivity|].
  repeat serde_step; [by apply uint_roundtrip|]. by destruct r.
Qed.
Next Obligation. intros r Hr. serde_wf. Qed.

Definition fact_ok (f : TeamFact) : Prop :=
  value_wf (tf_value f) ∧ is_i64 (tf_updated_at_unix_ms f).

Definition fact_fields (f : TeamFact) : list (string * option Value) :=
  [("run_id", Some (to_value (tf_run_id f)));
   ("team_id", Some (to_value (tf_team_id f)));
   ("key", Some (to_value (tf_key f)));
   ("value", Some (to_value (tf_value f)));
   ("updated_by", Some (to_value (tf_updated_by f)));
   ("updated_at_unix_ms", Some (i64_to_value (tf_updated_at_unix_ms f)))].

Definition fact_from (v : Value) : option TeamFact :=
  l ← as_object v;
  run_id ← read from_value "run_id" l;
  team_id ← read from_value "team_id" l;
  key ← read from_value "key" l;
  value ← read from_value "value" l;
  by_agent ← read from_value "updated_by" l;
  at_ms ← read as_i64 "updated_at_unix_ms" l;
  Some {| tf_run_id := run_id; tf_team_id := team_id; tf_key := key; tf_value := value;
          tf_updated_by := by_agent; tf_updated_at_unix_ms := at_ms |}.

#[export] Program Instance serde_fact : Serde TeamFact := {|
  to_value f := VObject (fields_of (fact_fields f));
  from_value := fact_from;
  serde_ok := fact_ok;
|}.
Next Obligation.
  intros f [Hv Ht]. assert (NoDup (fact_fields f).*1) as Hnd by serde_keys.
  eapply bind_Some_intro; [reflexivity|].
  repeat serde_step; [by apply i64_roundtrip|]. by destruct f.
Qed.
Next Obligation.
  intros f [Hv Ht]. serde_wf. unfold i64_to_value. by case_decide.
Qed.

(** [metadata] has [#[serde(default)]]: a missing member is [null]. *)
Definition artifact_ok (a : ArtifactRef) : Prop :=
  value_wf (af_metadata a) ∧ is_i64 (af_created_at_unix_ms a).

Definition artifact_fields (a : ArtifactRef) : list (string * option Value) :=
  [("artifact_id", Some (to_value (af_artifact_id a)));
   ("run_id", Some (to_value (af_run_id a)));
   ("team_id", field_opt (af_team_id a));
   ("agent_id", Some (to_value (af_agent_id a)));
   ("uri", Some (to_value (af_uri a)));
   ("kind", Some (to_value (af_kind a)));
   ("metadata", Some (to_value (af_metadata a)));
   ("created_at_unix_ms", Some (i64_to_value (af_created_at_unix_ms a)))].

Definition artifact_from (v : Value) : option ArtifactRef :=
  l ← as_object v;
  id ← read from_value "artifact_id" l;
  run_id ← read from_value "run_id" l;
  team_id ← read_opt from_value "team_id" l;
  agent_id ← read from_value "agent_id" l;
  uri ← read from_value "uri" l;
  kind ← read from_value "kind" l;
  metadata ← read_default from_value VNull "metadata" l;
  at_ms ← read as_i64 "created_at_unix_ms" l;
  Some {| af_artifact_id := id; af_run_id := run_id; af_team_id := team_id; af_agent_id := agent_id;
          af_uri := uri; af_kind := kind; af_metadata := metadata; af_created_at_unix_ms := at_ms |}.

#[export] Program Instance serde_artifact : Serde ArtifactRef := {|
  to_value a := VObject (fields_of (artifact_fields a));
  from_value := artifact_from;
  serde_ok := artifact_ok;
|}.
Next Obligation.
  intros a [Hv Ht]. assert (NoDup (artifact_fields a).*1) as Hnd by serde_keys.
  eapply bind_Some_intro; [reflexivity|].
  repeat serde_step; [by apply i64_roundtrip|]. by destruct a.
Qed.
Next Obligation.
  intros a [Hv Ht]. serde_wf. unfold i64_to_value. by case_decide.
Qed.

(** ** Outcomes of child Agents *)

Inductive AgentOutcomeStatus : Type :=
  | OutCompleted | OutFailed | OutCancelled | OutUnknown | OutReconciliationRequired.

#[export] Instance AgentOutcomeStatus_eq_dec : EqDecision AgentOutcomeStatus.
Proof. solve_decision. Defined.

Definition outcome_status_str (s : AgentOutcomeStatus) : string :=
  match s with
  | OutCompleted => "completed" | OutFailed => "failed" | OutCancelled => "cancelled"
  | OutUnknown => "outcome_unknown" | OutReconciliationRequired => "reconciliation_required"
  end.

#[export] Program Instance serde_outcome_status : Serde AgentOutcomeStatus := {|
  to_value s := VString (outcome_status_str s);
  from_value := enum_from_value outcome_status_str
    [OutCompleted; OutFailed; OutCancelled; OutUnknown; OutReconciliationRequired];
  serde_ok _ := True;
|}.
Next Obligation. by intros []. Qed.
Next Obligation. done. Qed.

Definition token_usage_fields (u : TokenUsage) : list (string * option Value) :=
  [("input_tokens", Some (uint_to_value (tu_input_tokens u)));
   ("output_tokens", Some (uint_to_value (tu_output_tokens u)));
   ("cache_creation_tokens", Some (uint_to_value (tu_cache_creation_tokens u)));
   ("cache_read_tokens", Some (uint_to_value (tu_cache_read_tokens u)))].

Definition token_usage_from (v : Value) : option TokenUsage :=
  l ← as_object v;
  input ← read (uint_from_value u64_max) "input_tokens" l;
  output ← read (uint_from_value u64_max) "output_tokens" l;
  creation ← read_default (uint_from_value u64_max) 0%Z "cache_creation_tokens" l;
  cached ← read_default (uint_from_value u64_max) 0%Z "cache_read_tokens" l;
  Some {| tu_input_tokens := input; tu_output_tokens := output;
          tu_cache_creation_tokens := creation; tu_cache_read_tokens := cached |}.

#[export] Program Instance serde_token_usage : Serde TokenUsage := {|
  to_value u := VObject (fields_of (token_usage_fields u));
  from_value := token_usage_from;
  serde_ok := token_usage_ok;
|}.
Next Obligation.
  intros u (H1 & H2 & H3 & H4). assert (NoDup (token_usage_fields u).*1) as Hnd by serde_keys.
  eapply bind_Some_intro; [reflexivity|].
  repeat serde_step; [by apply uint_roundtrip..|]. by destruct u.
Qed.
Next Obligation. intros u Hu. serde_wf. Qed.

Definition token_usage_default : TokenUsage :=
  {| tu_input_tokens := 0; tu_output_tokens := 0; tu_cache_creation_tokens := 0;
     tu_cache_read_tokens := 0 |}.

Record SubAgentResult : Type := {
  sr_name : string;
  sr_agent_id : option AgentId;
  sr_task_id : option TaskId;
  sr_status : AgentOutcomeStatus;
  sr_failure_class : option TaskFailureClass;
  sr_output : option Value;
  sr_text : string;
  sr_usage : TokenUsage;
  sr_turns : Z;
  sr_is_error : bool;
}.

Definition result_ok (r : SubAgentResult) : Prop :=
  match sr_output r with Some v => value_wf v ∧ v ≠ VNull | None => True end ∧
  token_usage_ok (sr_usage r) ∧ is_u64 (sr_turns r).

Definition result_fields (r : SubAgentResult) : list (string * option Value) :=
  [("name", Some (to_value (sr_name r)));
   ("agent_id", field_opt (sr_agent_id r));
   ("task_id", field_opt (sr_task_id r));
   ("status", Some (to_value (sr_status r)));
   ("failure_class", field_opt (sr_failure_class r));
   ("output", field_opt (sr_output r));
   ("text", Some (to_value (sr_text r)));
   ("usage", Some (to_value (sr_usage r)));
   ("turns", Some (uint_to_value (sr_turns r)));
   ("is_error", Some (to_value (sr_is_error r)))].

Definition result_from (v : Value) : option SubAgentResult :=
  l ← as_object v;
  name ← read from_value "name" l;
  agent_id ← read_opt from_value "agent_id" l;
  task_id ← read_opt from_value "task_id" l;
  status ← read_default from_value OutFailed "status" l;
  failure ← read_opt from_value "failure_class" l;
  output ← read_opt from_value "output" l;
  text ← read from_value "text" l;
  usage ← read from_value "usage" l;
  turns ← read (uint_from_value u64_max) "turns" l;
  is_error ← read from_value "is_error" l;
  Some {| sr_name := name; sr_agent_id := agent_id; sr_task_id := task_id; sr_status := status;
          sr_failure_class := failure; sr_output := output; sr_text := text; sr_usage := usage;
          sr_turns := turns; sr_is_error := is_error |}.

#[export] Program Instance serde_result : Serde SubAgentResult := {|
  to_value r := VObject (fields_of (result_fields r));
  from_value := result_from;
  serde_ok := result_ok;
|}.
Next Obligation.
  intros r (Ho & Hu & Ht). assert (NoDup (result_fields r).*1) as Hnd by serde_keys.
  eapply bind_Some_intro; [reflexivity|].
  repeat serde_step; try by apply uint_roundtrip.
  - by destruct (sr_output r).
  - by destruct r.
Qed.
Next Obligation.
  intros r (Ho & Hu & Ht). serde_wf. intros w Hw. rewrite Hw in Ho. by destruct Ho.
Qed.

Record OutcomeBlobRef : Type := {
  ob_reference : string;
  ob_bytes : Z;
  ob_digest : string;
  ob_run_id : option RunId;
  ob_status : option AgentOutcomeStatus;
}.

Definition blob_ref_fields (b : OutcomeBlobRef) : list (string * option Value) :=
  [("reference", Some (to_value (ob_reference b)));
   ("bytes", Some (uint_to_value (ob_bytes b)));
   ("digest", Some (to_value (ob_digest b)));
   ("run_id", field_opt (ob_run_id b));
   ("status", field_opt (ob_status b))].

Definition blob_ref_from (v : Value) : option OutcomeBlobRef :=
  l ← as_object v;
  reference ← read from_value "reference" l;
  bytes ← read (uint_from_value u64_max) "bytes" l;
  digest ← read from_value "digest" l;
  run_id ← read_opt from_value "run_id" l;
  status ← read_opt from_value "status" l;
  Some {| ob_reference := reference; ob_bytes := bytes; ob_digest := digest; ob_run_id := run_id;
          ob_status := status |}.

#[export] Program Instance serde_blob_ref : Serde OutcomeBlobRef := {|
  to_value b := VObject (fields_of (blob_ref_fields b));
  from_value := blob_ref_from;
  serde_ok b := is_u64 (ob_bytes b);
|}.
Next Obligation.
  intros b Hb. assert (NoDup (blob_ref_fields b).*1) as Hnd by serde_keys.
  eapply bind_Some_intro; [reflexivity|].
  repeat serde_step; [by apply uint_roundtrip|]. by destruct b.
Qed.
Next Obligation. intros b Hb. serde_wf. Qed.

Record DurableAgentOutcomeRecord : Type := {
  do_spawn_operation_id : OperationId;
  do_child_agent_id : AgentId;
  do_status : option AgentOutcomeStatus;
  do_outcome_ref : option OutcomeBlobRef;
  do_result : option SubAgentResult;
}.

Definition outcome_record_ok (d : DurableAgentOutcomeRecord) : Prop :=
  (∀ b, do_outcome_ref d = Some b → is_u64 (ob_bytes b)) ∧
  (∀ r, do_result d = Some r → result_ok r).

Definition outcome_record_fields (d : DurableAgentOutcomeRecord) : list (string * option Value) :=
  [("spawn_operation_id", Some (to_value (do_spawn_operation_id d)));
   ("child_agent_id", Some (to_value (do_child_agent_id d)));
   ("status", field_opt (do_status d));
   ("outcome_ref", field_opt (do_outcome_ref d));
   ("result", field_opt (do_result d))].

Definition outcome_record_from (v : Value) : option DurableAgentOutcomeRecord :=
  l ← as_object v;
  op ← read from_value "spawn_operation_id" l;
  child ← read from_value "child_agent_id" l;
  status ← read_opt from_value "status" l;
  outcome_ref ← read_opt from_value "outcome_ref" l;
  result ← read_opt from_value "result" l;
  Some {| do_spawn_operation_id := op; do_child_agent_id := child; do_status := status;
          do_outcome_ref := outcome_ref; do_result := result |}.

#[export] Program Instance serde_outcome_record : Serde DurableAgentOutcomeRecord := {|
  to_value d := VObject (fields_of (outcome_record_fields d));
  from_value := outcome_record_from;
  serde_ok := outcome_record_ok;
|}.
Next Obligation.
  intros d [Hb Hr]. assert (NoDup (outcome_record_fields d).*1) as Hnd by serde_keys.
  eapply bind_Some_intro; [reflexivity|].
  repeat serde_step.
  - destruct (do_outcome_ref d); [split; [by apply Hb|done]|done].
  - destruct (do_result d); [split; [by apply Hr|done]|done].
  - by destruct d.
Qed.
Next Obligation. intros d [Hb Hr]. serde_wf; assumption. Qed.

Inductive DurableAgentOutcomeTextSource : Type := Inline | OutputText | OutputError.

Definition text_source_str (s : DurableAgentOutcomeTextSource) : string :=
  match s with Inline => "inline" | OutputText => "output_text" | OutputError => "output_error" end.

#[export] Program Instance serde_text_source : Serde DurableAgentOutcomeTextSource := {|
  to_value s := VString (text_source_str s);
  from_value := enum_from_value text_source_str [Inline; OutputText; OutputError];
  serde_ok _ := True;
|}.
Next Obligation. by intros []. Qed.
Next Obligation. done. Qed.

Record DurableAgentOutcomeBody : Type := {
  dy_result : SubAgentResult;
  dy_text_source : DurableAgentOutcomeTextSource;
}.

Definition outcome_body_fields (b : DurableAgentOutcomeBody) : list (string * option Value) :=
  [("result", Some (to_value (dy_result b)));
   ("text_source", Some (to_value (dy_text_source b)))].

Definition outcome_body_from (v : Value) : option DurableAgentOutcomeBody :=
  l ← as_object v;
  result ← read from_value "result" l;
  source ← read from_value "text_source" l;
  Some {| dy_result := result; dy_text_source := source |}.

#[export] Program Instance serde_outcome_body : Serde DurableAgentOutcomeBody := {|
  to_value b := VObject (fields_of (outcome_body_fields b));
  from_value := outcome_body_from;
  serde_ok b := result_ok (dy_result b);
|}.
Next Obligation.
  intros b Hb. assert (NoDup (outcome_body_fields b).*1) as Hnd by serde_keys.
  eapply bind_Some_intro; [reflexivity|].
  repeat serde_step. by destruct b.
Qed.
Next Obligation. intros b Hb. serde_wf. Qed.

(** ** Handles of a spawn batch

    The members of [AgentHandle] and of its [AgentSpawnSpec] that the runtime
    reads. *)
Record AgentCollaborationContext : Type := {
  cc_team_id : TeamId;
  cc_strategy : CollaborationStrategy;
  cc_coordinator_agent_id : AgentId;
  cc_max_pending_messages : Z;
  cc_max_message_bytes : Z;
}.

Record AgentHandle : Type := {
  ah_run_id : RunId;
  ah_agent_id : AgentId;
  ah_task_id : TaskId;
  ah_role_key : string;
  ah_stable_task_key : string;
  ah_spec_run_id : RunId;
  ah_collaboration : option AgentCollaborationContext;
  ah_workflow : option string;
}.

Record AgentSpawnReservation : Type := {
  re_key : ChildAgentKey;
  re_child_agent_id : AgentId;
  re_permission_ceiling : PermissionCeiling;
  re_reattached : bool;
}.
