(* ===== verification/CollaborationRuntime.v ===== *)
(** * The collaboration runtime: Teams and messages

    crates/solaris-agent/src/collaboration_runtime.rs and
    collaboration_runtime/messages.rs: the component that owns the registries of
    a process (Agents, Teams, tasks, messages, Team state, relationships) and
    the ledger, and changes them together.  An operation holds the mutation line
    of its Run, so it is a function on the whole runtime; the reads some
    operations make before they take the line are part of the same step.  Live
    events to subscribers change nothing here and are left out.  The ledger is
    the in-memory one. *)
From S2P Require Import Prelude Json Types TaskRegistry RuntimeLedger WorkflowTypes Identity Registries LedgerInterface MessageBus CollaborationTypes.

Record Runtime : Type := {
  rt_agents : AgentRegistry;
  rt_teams : TeamRegistry;
  rt_tasks : TaskRegistryState;
  rt_box : Mailbox;
  rt_team_state : TeamStateStore;
  rt_relationships : RelationshipStore;
  rt_ledger : InMemoryLedgerState;
}.

Definition runtime_with_ledger (l : InMemoryLedgerState) : Runtime :=
  {| rt_agents := ∅; rt_teams := ∅; rt_tasks := registry_default; rt_box := mailbox_empty;
     rt_team_state := team_state_default; rt_relationships := ∅; rt_ledger := l |}.

(** Errors are the ones of the components, or a message of the runtime. *)
Inductive RuntimeError : Type :=
  | RtOther (message : string)
  | RtLedger (e : LedgerError)
  | RtTask (e : TaskError)
  | RtBus (e : BusError LedgerError)
  | RtLimits (e : TeamLimitError).

Definition set_agents (s : Runtime) (a : AgentRegistry) : Runtime :=
  {| rt_agents := a; rt_teams := rt_teams s; rt_tasks := rt_tasks s; rt_box := rt_box s;
     rt_team_state := rt_team_state s; rt_relationships := rt_relationships s;
     rt_ledger := rt_ledger s |}.
Definition set_teams (s : Runtime) (t : TeamRegistry) : Runtime :=
  {| rt_agents := rt_agents s; rt_teams := t; rt_tasks := rt_tasks s; rt_box := rt_box s;
     rt_team_state := rt_team_state s; rt_relationships := rt_relationships s;
     rt_ledger := rt_ledger s |}.
Definition set_tasks (s : Runtime) (t : TaskRegistryState) : Runtime :=
  {| rt_agents := rt_agents s; rt_teams := rt_teams s; rt_tasks := t; rt_box := rt_box s;
     rt_team_state := rt_team_state s; rt_relationships := rt_relationships s;
     rt_ledger := rt_ledger s |}.
Definition set_box (s : Runtime) (b : Mailbox) : Runtime :=
  {| rt_agents := rt_agents s; rt_teams := rt_teams s; rt_tasks := rt_tasks s; rt_box := b;
     rt_team_state := rt_team_state s; rt_relationships := rt_relationships s;
     rt_ledger := rt_ledger s |}.
Definition set_team_state (s : Runtime) (t : TeamStateStore) : Runtime :=
  {| rt_agents := rt_agents s; rt_teams := rt_teams s; rt_tasks := rt_tasks s; rt_box := rt_box s;
     rt_team_state := t; rt_relationships := rt_relationships s; rt_ledger := rt_ledger s |}.
Definition set_relationships (s : Runtime) (r : RelationshipStore) : Runtime :=
  {| rt_agents := rt_agents s; rt_teams := rt_teams s; rt_tasks := rt_tasks s; rt_box := rt_box s;
     rt_team_state := rt_team_state s; rt_relationships := r; rt_ledger := rt_ledger s |}.
Definition set_ledger (s : Runtime) (l : InMemoryLedgerState) : Runtime :=
  {| rt_agents := rt_agents s; rt_teams := rt_teams s; rt_tasks := rt_tasks s; rt_box := rt_box s;
     rt_team_state := rt_team_state s; rt_relationships := rt_relationships s; rt_ledger := l |}.

(** The result of an operation, with the runtime it leaves. *)
Abbreviation outcome A := (Runtime * result A RuntimeError)%type (only parsing).

Definition lift_limits (t : TeamRecord) : result unit RuntimeError :=
  match validate_message_limits t with Ok _ => Ok tt | Err e => Err (RtLimits e) end.

(** [self.ledger.append(run, SyncCritical, ty, payload)?] at the clock [now]. *)
Definition rt_append (s : Runtime) (now : Z) (run : RunId) (ty : string) (payload : Value) :
    outcome LedgerRecord :=
  match append (rt_ledger s) now run SyncCritical ty payload with
  | (l, Ok r) => (set_ledger s l, Ok r)
  | (l, Err e) => (set_ledger s l, Err (RtLedger e))
  end.

(** [self.ledger.admit_tasks_and_append(run, run, max, tasks, records)?]. *)
Definition rt_admit (s : Runtime) (now : Z) (run : RunId) (max : Z) (tasks : list TaskRecord)
    (records : list PendingRecord) : outcome (list LedgerRecord) :=
  match admit_tasks_and_append (rt_ledger s) now run run max tasks records with
  | (l, Ok rs) => (set_ledger s l, Ok rs)
  | (l, Err e) => (set_ledger s l, Err (RtLedger e))
  end.

(** The message bus shares the ledger and reads the registries. *)
Definition rt_bus (s : Runtime) : BusState InMemoryLedgerState :=
  {| bs_box := rt_box s; bs_ledger := rt_ledger s |}.
Definition rt_registry (s : Runtime) : Registry :=
  {| rg_agents := rt_agents s; rg_teams := rt_teams s |}.
Definition with_bus {A} (s : Runtime)
    (c : BusState InMemoryLedgerState * result A (BusError LedgerError)) : outcome A :=
  (set_ledger (set_box s (bs_box c.1)) (bs_ledger c.1),
   match c.2 with Ok a => Ok a | Err e => Err (RtBus e) end).

Definition commit_record (s : Runtime) (now : Z) (run : RunId) (d : DurabilityClass) (ty : string)
    (payload : Value) : outcome LedgerRecord :=
  match append (rt_ledger s) now run d ty payload with
  | (l, Ok r) => (set_ledger s l, Ok r)
  | (l, Err e) => (set_ledger s l, Err (RtLedger e))
  end.

(** ** Teams *)

Definition is_team (s : CollaborationStrategy) : bool := bool_decide (s = Team).

Definition create_collaboration_team (s : Runtime) (now : Z) (run : RunId) (team_id : TeamId)
    (name : string) (strategy : CollaborationStrategy) (coordinator : option AgentId) :
    outcome bool :=
  let record :=
    {| tm_run_id := run; tm_team_id := team_id; tm_name := name; tm_strategy := strategy;
       tm_coordinator := coordinator; tm_direct_peer_messaging := is_team strategy;
       tm_max_pending_messages := DEFAULT_MAX_PENDING_MESSAGES;
       tm_max_message_bytes := DEFAULT_MAX_MESSAGE_BYTES; tm_members := ∅ |} in
  if bool_decide (team_get (rt_teams s) team_id ≠ None) then (s, Ok false)
  else
    sbind (rt_append s now run "team_created" (to_value record)) (λ s _,
    (set_teams s (team_create (rt_teams s) record).1, Ok true)).

Definition create_team (s : Runtime) (now : Z) (run : RunId) (team_id : TeamId) (name : string) :=
  create_collaboration_team s now run team_id name Team None.

(** The metadata [ensure_collaboration_team] compares. *)
Definition compatible_team (existing record : TeamRecord) : bool :=
  bool_decide (tm_run_id existing = tm_run_id record) &&
  bool_decide (tm_strategy existing = tm_strategy record) &&
  bool_decide (tm_coordinator existing = tm_coordinator record) &&
  bool_decide (tm_max_pending_messages existing = tm_max_pending_messages record) &&
  bool_decide (tm_max_message_bytes existing = tm_max_message_bytes record).

Definition incompatible (team_id : TeamId) : RuntimeError :=
  RtOther ("team " +:+ team_id +:+ " already exists with incompatible collaboration metadata").

(** The Team a collaboration context asks for. *)
Definition context_team (run : RunId) (name : string) (c : AgentCollaborationContext) : TeamRecord :=
  {| tm_run_id := run; tm_team_id := cc_team_id c; tm_name := name; tm_strategy := cc_strategy c;
     tm_coordinator := Some (cc_coordinator_agent_id c);
     tm_direct_peer_messaging := is_team (cc_strategy c);
     tm_max_pending_messages := cc_max_pending_messages c;
     tm_max_message_bytes := cc_max_message_bytes c; tm_members := ∅ |}.

Definition expected_team (run : RunId) (c : AgentCollaborationContext) : TeamRecord :=
  context_team run (strategy_as_str (cc_strategy c)) c.

(** The Team is looked up before and again under the lock; both reads are the
    same here. *)
Definition ensure_collaboration_team (s : Runtime) (now : Z) (run : RunId) (name : string)
    (c : AgentCollaborationContext) : outcome unit :=
  let record := context_team run name c in
  slift s (lift_limits record) (λ _,
  match team_get (rt_teams s) (cc_team_id c) with
  | Some existing =>
      if compatible_team existing record then (s, Ok tt) else (s, Err (incompatible (cc_team_id c)))
  | None =>
      sbind (rt_append s now run "team_created" (to_value record)) (λ s _,
      (set_teams s (team_create (rt_teams s) record).1, Ok tt))
  end).

(** [existing.as_ref().is_some_and(|t| differs(t, expected))]. *)
Definition team_matches (existing : option TeamRecord) (expected : TeamRecord) : bool :=
  match existing with Some t => same_team_metadata t expected | None => true end.

Definition batch_payload (teams : list TeamRecord) (memberships : list (TeamId * AgentId))
    (tasks : list TaskRecord) : Value :=
  VObject [("teams", to_value teams); ("memberships", to_value memberships);
           ("tasks", to_value tasks)].

(** [if self.teams.get(id).is_none() { self.teams.create(team) }]. *)
Definition create_missing (s : Runtime) (team : TeamRecord) : Runtime :=
  set_teams s (team_create (rt_teams s) team).1.

(** [self.teams.join(team, agent); self.agents.set_team(agent, Some(team))]. *)
Definition join_member (s : Runtime) (m : TeamId * AgentId) : Runtime :=
  set_agents (set_teams s (team_join (rt_teams s) m.1 m.2).1)
    (agent_set_team (rt_agents s) m.2 (Some m.1)).1.

Definition upsert_missing (s : Runtime) (t : TaskRecord) : Runtime :=
  match get_task (rt_tasks s) (tr_task_id t) with
  | None => set_tasks s (upsert (rt_tasks s) t)
  | Some _ => s
  end.

(** [agent.team_id.as_ref().is_some_and(|t| t != team)]. *)
Definition in_other_team (a : AgentRecord) (team_id : TeamId) : bool :=
  match ar_team_id a with Some t => bool_decide (t ≠ team_id) | None => false end.

Definition has_member (t : option TeamRecord) (a : AgentId) : bool :=
  match t with Some t => bool_decide (a ∈ tm_members t) | None => false end.

Definition prepare_collaboration_team (s : Runtime) (now : Z) (run : RunId) (child : AgentId)
    (c : AgentCollaborationContext) : outcome unit :=
  let expected := expected_team run c in
  let coordinator_id := cc_coordinator_agent_id c in
  let existing := team_get (rt_teams s) (cc_team_id c) in
  slift s (lift_limits expected) (λ _,
  slift s (ensure (team_matches existing expected) (incompatible (cc_team_id c))) (λ _,
  let coordinator := agent_get (rt_agents s) coordinator_id in
  slift s (ensure (bool_decide (coordinator ≠ None ∨ coordinator_id = child))
             (RtOther ("unknown collaboration coordinator Agent: " +:+ coordinator_id))) (λ _,
  slift s
    (match coordinator with
     | Some agent =>
         ensure (bool_decide (ar_run_id agent = run))
           (RtOther "collaboration coordinator belongs to a different Run") ;;?
         ensure (negb (in_other_team agent (cc_team_id c)))
           (RtOther "collaboration coordinator already belongs to another Team")
     | None => Ok tt
     end) (λ _,
  if bool_decide (existing ≠ None) &&
     (bool_decide (coordinator = None) || has_member existing coordinator_id)
  then (s, Ok tt)
  else
    let memberships :=
      match coordinator with Some _ => [(cc_team_id c, coordinator_id)] | None => [] end in
    sbind (rt_admit s now run usize_max []
             [(SyncCritical, "collaboration_team_prepared", batch_payload [expected] memberships [])])
      (λ s _, (fold_left join_member memberships (create_missing s expected), Ok tt)))))).

Definition task_id_le (a b : TaskRecord) : Prop := String.le (tr_task_id a) (tr_task_id b).
Definition team_id_le (a b : TeamRecord) : Prop := String.le (tm_team_id a) (tm_team_id b).
Definition membership_le (a b : TeamId * AgentId) : Prop :=
  (a.1 ≠ b.1 ∧ String.le a.1 b.1) ∨ (a.1 = b.1 ∧ String.le a.2 b.2).

#[export] Instance task_id_le_dec : RelDecision task_id_le.
Proof. intros a b. unfold task_id_le. apply _. Defined.
#[export] Instance team_id_le_dec : RelDecision team_id_le.
Proof. intros a b. unfold team_id_le. apply _. Defined.
#[export] Instance membership_le_dec : RelDecision membership_le.
Proof. intros a b. unfold membership_le. apply _. Defined.

(** [windows(2).any(|pair| pair[0].task_id == pair[1].task_id)]. *)
Fixpoint adjacent_duplicate (l : list TaskRecord) : bool :=
  match l with
  | a :: (b :: _) as l' => bool_decide (tr_task_id a = tr_task_id b) || adjacent_duplicate l'
  | _ => false
  end.

(** [Vec::dedup]. *)
Fixpoint dedup (l : list (TeamId * AgentId)) : list (TeamId * AgentId) :=
  match l with
  | a :: (b :: _) as l' => if decide (a = b) then dedup l' else a :: dedup l'
  | _ => l
  end.

Definition different_metadata (id : TaskId) : RuntimeError :=
  RtOther ("runtime task " +:+ id +:+ " already exists with different metadata").

(** A task the batch names is new or registered as it is. *)
Definition registered_as_is (s : Runtime) (t : TaskRecord) : result unit RuntimeError :=
  match get_task (rt_tasks s) (tr_task_id t) with
  | Some existing => ensure (task_record_eqb existing t) (different_metadata (tr_task_id t))
  | None => Ok tt
  end.

(** The final updates of the three preparations of a batch. *)
Definition commit_batch (s : Runtime) (teams : list TeamRecord)
    (memberships : list (TeamId * AgentId)) (tasks : list TaskRecord) : Runtime :=
  fold_left upsert_missing tasks
    (fold_left join_member memberships (fold_left create_missing teams s)).

Definition prepare_collaboration_task_batch (s : Runtime) (now : Z) (run : RunId)
    (c : AgentCollaborationContext) (max_tasks : Z) (tasks : list TaskRecord) : outcome unit :=
  let coordinator_id := cc_coordinator_agent_id c in
  slift s (ok_or (agent_get (rt_agents s) coordinator_id)
             (RtOther "collaboration coordinator is missing before Task admission")) (λ coordinator,
  slift s (ensure (bool_decide (ar_run_id coordinator = run))
             (RtOther "collaboration coordinator belongs to a different Run")) (λ _,
  slift s (ensure (negb (in_other_team coordinator (cc_team_id c)))
             (RtOther "collaboration coordinator already belongs to another Team")) (λ _,
  let expected := expected_team run c in
  slift s (lift_limits expected) (λ _,
  slift s (ensure (team_matches (team_get (rt_teams s) (cc_team_id c)) expected)
             (incompatible (cc_team_id c))) (λ _,
  slift s (for_each (λ t,
      ensure (bool_decide (tr_run_id t = run ∧ tr_team_id t = Some (cc_team_id c)))
        (RtOther ("collaboration Task " +:+ tr_task_id t +:+
                  " does not belong to the prepared Team/Run")) ;;?
      ensure (bool_decide (tr_state t = Queued ∧ tr_owner_agent_id t = None))
        (RtOther ("initial collaboration Task " +:+ tr_task_id t +:+
                  " must be Queued without an owner")) ;;?
      registered_as_is s t) tasks) (λ _,
  let tasks := merge_sort task_id_le tasks in
  slift s (ensure (negb (adjacent_duplicate tasks))
             (RtOther "collaboration Task batch contains duplicate task IDs")) (λ _,
  let memberships := [(cc_team_id c, coordinator_id)] in
  sbind (rt_admit s now run max_tasks tasks
           [(SyncCritical, "collaboration_batch_prepared",
             batch_payload [expected] memberships tasks)]) (λ s _,
  (commit_batch s [expected] memberships tasks, Ok tt))))))))).

Definition prepare_collaboration_membership (s : Runtime) (now : Z) (run : RunId) (child : AgentId)
    (c : AgentCollaborationContext) : outcome unit :=
  let expected := expected_team run c in
  let coordinator_id := cc_coordinator_agent_id c in
  slift s (lift_limits expected) (λ _,
  slift s (for_each (λ id,
      let? agent := ok_or (agent_get (rt_agents s) id)
                      (RtOther ("unknown collaboration Agent: " +:+ id)) in
      ensure (bool_decide (ar_run_id agent = run))
        (RtOther "collaboration Agent belongs to a different Run") ;;?
      ensure (negb (in_other_team agent (cc_team_id c)))
        (RtOther ("collaboration Agent " +:+ id +:+ " already belongs to another Team")))
      [coordinator_id; child]) (λ _,
  let existing := team_get (rt_teams s) (cc_team_id c) in
  slift s (ensure (team_matches existing expected) (incompatible (cc_team_id c))) (λ _,
  if has_member existing coordinator_id && has_member existing child then (s, Ok tt)
  else
    let memberships :=
      dedup (merge_sort membership_le [(cc_team_id c, coordinator_id); (cc_team_id c, child)]) in
    sbind (rt_admit s now run usize_max []
             [(SyncCritical, "collaboration_batch_prepared",
               batch_payload [expected] memberships [])]) (λ s _,
    (commit_batch s [expected] memberships [], Ok tt))))).

(** The task a handle asks for. *)
Definition handle_task (h : AgentHandle) : TaskRecord := {|
  tr_run_id := ah_run_id h; tr_task_id := ah_task_id h; tr_revision := 0;
  tr_task_key := Some (ah_stable_task_key h);
  tr_team_id := cc_team_id <$> ah_collaboration h; tr_workflow_id := ah_workflow h;
  tr_node_id := None; tr_role := Some (ah_role_key h); tr_depends_on := []; tr_content := None;
  tr_expected_write_scope := []; tr_owner_agent_id := Some (ah_agent_id h);
  tr_state := Assigned; tr_outcome_ref := None; tr_failure_class := None |}.

(** What the loop of [prepare_spawn_batch] collects. *)
Definition BatchPlan : Type :=
  gmap TeamId TeamRecord * list (TeamId * AgentId) * list TaskRecord.

Definition push_membership (l : list (TeamId * AgentId)) (m : TeamId * AgentId) :
    list (TeamId * AgentId) := if decide (m ∈ l) then l else l ++ [m].

Definition plan_team (s : Runtime) (run : RunId) (h : AgentHandle) (plan : BatchPlan) :
    result BatchPlan RuntimeError :=
  let '(teams, memberships, tasks) := plan in
  match ah_collaboration h with
  | None => Ok plan
  | Some c =>
      let expected := expected_team run c in
      let coordinator_id := cc_coordinator_agent_id c in
      lift_limits expected ;;?
      let? coordinator := ok_or (agent_get (rt_agents s) coordinator_id)
                            (RtOther ("unknown collaboration coordinator: " +:+ coordinator_id)) in
      ensure (bool_decide (ar_run_id coordinator = run))
        (RtOther "collaboration coordinator belongs to a different run") ;;?
      let existing := match teams !! cc_team_id c with
                      | Some t => Some t
                      | None => team_get (rt_teams s) (cc_team_id c)
                      end in
      ensure (team_matches existing expected) (incompatible (cc_team_id c)) ;;?
      Ok (<[cc_team_id c := expected]> teams,
          fold_left push_membership
            [(cc_team_id c, coordinator_id); (cc_team_id c, ah_agent_id h)] memberships,
          tasks)
  end.

Definition plan_task (s : Runtime) (h : AgentHandle) (create_task : bool) (plan : BatchPlan) :
    result BatchPlan RuntimeError :=
  let '(teams, memberships, tasks) := plan in
  if create_task then
    let task := handle_task h in
    registered_as_is s task ;;?
    ensure (negb (existsb (λ t, bool_decide (tr_task_id t = tr_task_id task)) tasks))
      (RtOther ("spawn batch contains duplicate task " +:+ tr_task_id task)) ;;?
    Ok (teams, memberships, tasks ++ [task])
  else Ok plan.

Definition plan_handle (s : Runtime) (run : RunId) (plan : BatchPlan) (hc : AgentHandle * bool) :
    result BatchPlan RuntimeError :=
  let h := hc.1 in
  ensure (bool_decide (ah_run_id h = run ∧ ah_spec_run_id h = run))
    (RtOther "spawn batch handle belongs to a different run") ;;?
  let? child := ok_or (agent_get (rt_agents s) (ah_agent_id h))
                  (RtOther ("unknown spawn batch Agent: " +:+ ah_agent_id h)) in
  ensure (bool_decide (ar_run_id child = run))
    (RtOther "spawn batch Agent belongs to a different run") ;;?
  let? plan := plan_team s run h plan in
  plan_task s h hc.2 plan.

Definition prepare_spawn_batch (s : Runtime) (now : Z) (run : RunId)
    (handles : list (AgentHandle * bool)) (max_tasks : Z) : outcome unit :=
  slift s (fold_result (plan_handle s run) (∅, [], []) handles) (λ '(teams, memberships, tasks),
  if bool_decide (teams = ∅) && bool_decide (memberships = []) && bool_decide (length tasks = 0)
  then (s, Ok tt)
  else
    let teams := merge_sort team_id_le (map_to_list teams).*2 in
    let memberships := merge_sort membership_le memberships in
    let tasks := merge_sort task_id_le tasks in
    sbind (rt_admit s now run max_tasks tasks
             [(SyncCritical, "collaboration_batch_prepared", batch_payload teams memberships tasks)])
      (λ s _, (commit_batch s teams memberships tasks, Ok tt))).

Definition join_payload (team_id : TeamId) (agent_id : AgentId) : Value :=
  VObject [("team_id", VString team_id); ("agent_id", VString agent_id)].

Definition join_team (s : Runtime) (now : Z) (run : RunId) (team_id : TeamId) (agent_id : AgentId) :
    outcome bool :=
  slift s (ok_or (team_get (rt_teams s) team_id) (RtOther ("unknown team: " +:+ team_id))) (λ team,
  slift s (ok_or (agent_get (rt_agents s) agent_id) (RtOther ("unknown agent: " +:+ agent_id)))
    (λ agent,
  slift s (ensure (bool_decide (tm_run_id team = run ∧ ar_run_id agent = run))
             (RtOther "team member belongs to a different run")) (λ _,
  if decide (agent_id ∈ tm_members team) then (s, Ok false)
  else
    sbind (rt_append s now run "team_member_joined" (join_payload team_id agent_id)) (λ s _,
    (join_member s (team_id, agent_id), Ok true))))).

(** ** Team state *)

Definition set_team_fact (s : Runtime) (now : Z) (run : RunId) (team_id : TeamId)
    (updated_by : AgentId) (key : string) (value : Value) : outcome TeamFact :=
  slift s (ok_or (team_get (rt_teams s) team_id) (RtOther ("unknown team: " +:+ team_id))) (λ team,
  slift s (ensure (bool_decide (tm_run_id team = run ∧ updated_by ∈ tm_members team))
             (RtOther "fact writer must belong to the target team/run")) (λ _,
  slift s (ensure (negb (trim_is_empty key)) (RtOther "team fact key cannot be empty")) (λ _,
  let fact := {| tf_run_id := run; tf_team_id := team_id; tf_key := key; tf_value := value;
                 tf_updated_by := updated_by; tf_updated_at_unix_ms := now |} in
  sbind (rt_append s now run "team_fact_set" (to_value fact)) (λ s _,
  (set_team_state s (set_fact (rt_team_state s) fact).1, Ok fact))))).

Definition register_team_artifact (s : Runtime) (now : Z) (uuid : string) (run : RunId)
    (team_id : option TeamId) (agent_id : AgentId) (uri kind : string) (metadata : Value) :
    outcome ArtifactRef :=
  slift s (ok_or (agent_get (rt_agents s) agent_id) (RtOther ("unknown agent: " +:+ agent_id)))
    (λ agent,
  slift s (ensure (bool_decide (ar_run_id agent = run))
             (RtOther "artifact agent belongs to a different run")) (λ _,
  slift s
    (match team_id with
     | Some id =>
         let? team := ok_or (team_get (rt_teams s) id) (RtOther ("unknown team: " +:+ id)) in
         ensure (bool_decide (tm_run_id team = run ∧ agent_id ∈ tm_members team))
           (RtOther "artifact writer must belong to the target team/run")
     | None => Ok tt
     end) (λ _,
  let artifact :=
    {| af_artifact_id := "artifact-" +:+ uuid; af_run_id := run; af_team_id := team_id;
       af_agent_id := agent_id; af_uri := uri; af_kind := kind; af_metadata := metadata;
       af_created_at_unix_ms := now |} in
  slift s (ensure (negb (trim_is_empty uri || trim_is_empty kind))
             (RtOther "artifact uri/kind cannot be empty")) (λ _,
  sbind (rt_append s now run "artifact_registered" (to_value artifact)) (λ s _,
  (set_team_state s (put_artifact (rt_team_state s) artifact), Ok artifact)))))).

(** ** Messages *)

Section messages.
(** [serde_json::to_vec]. *)
Context (to_vec : Value → string).

(** The Team a message is sent in: the requested one, or the one both Agents
    are in. *)
Definition effective_team (requested : option TeamId) (from to : AgentRecord) :
    result (option TeamId) RuntimeError :=
  match requested, ar_team_id from, ar_team_id to with
  | Some requested, _, _ => Ok (Some requested)
  | None, None, None => Ok None
  | None, Some from_team, Some to_team =>
      if decide (from_team = to_team) then Ok (Some from_team)
      else Err (RtOther "team-scoped messages must name the shared collaboration team")
  | None, _, _ => Err (RtOther "team-scoped messages must name the shared collaboration team")
  end.

(** Who may write to whom in a Team. *)
Definition check_message_team (s : Runtime) (run : RunId) (team : option TeamId)
    (from to : AgentId) : result unit RuntimeError :=
  match team with
  | None => Ok tt
  | Some team_id =>
      let? team := ok_or (team_get (rt_teams s) team_id) (RtOther ("unknown team: " +:+ team_id)) in
      ensure (bool_decide (tm_run_id team = run ∧ from ∈ tm_members team ∧ to ∈ tm_members team))
        (RtOther "sender, receiver, and team must belong to the requested run") ;;?
      if tm_direct_peer_messaging team then Ok tt
      else
        let? coordinator := ok_or (tm_coordinator team)
                              (RtOther "collaboration team has no coordinator") in
        ensure (bool_decide (from = coordinator ∨ to = coordinator))
          (RtOther "direct peer messaging is disabled for this collaboration strategy")
  end.

Definition check_message (s : Runtime) (run : RunId) (requested : option TeamId)
    (from to : AgentId) : result (option TeamId) RuntimeError :=
  let? from_agent := ok_or (agent_get (rt_agents s) from)
                       (RtOther ("unknown message agent: " +:+ from)) in
  let? to_agent := ok_or (agent_get (rt_agents s) to) (RtOther ("unknown message agent: " +:+ to)) in
  ensure (bool_decide (ar_run_id from_agent = run ∧ ar_run_id to_agent = run))
    (RtOther "message agents must belong to the requested run") ;;?
  let? effective := effective_team requested from_agent to_agent in
  check_message_team s run effective from to ;;?
  Ok effective.

Definition send_message (s : Runtime) (now : Z) (uuid : string) (run : RunId)
    (team_id : option TeamId) (from to : AgentId) (kind : string) (body : Value) :
    outcome AgentMessage :=
  slift s (check_message s run team_id from to) (λ effective,
  sbind (with_bus s (send to_vec (rt_bus s) (rt_registry s) now uuid run effective from to kind body))
    (λ s '(m, _), (s, Ok m))).

Definition send_message_with_id (s : Runtime) (now : Z) (message_id : string) (run : RunId)
    (requested : option TeamId) (from to : AgentId) (kind : string) (body : Value) :
    outcome AgentMessage :=
  sbind (with_bus s (replay_send (rt_bus s) message_id run requested from to kind body))
    (λ s replayed,
  match replayed with
  | Some m => (s, Ok m)
  | None =>
      slift s (check_message s run requested from to) (λ effective,
      sbind (with_bus s (send_with_requested_team_id to_vec (rt_bus s) (rt_registry s) now message_id
                           run requested effective from to kind body))
        (λ s '(m, _), (s, Ok m)))
  end).

(** Who may broadcast, and to whom: the other members, in order. *)
Definition check_broadcast (s : Runtime) (run : RunId) (team_id : TeamId) (from : AgentId) :
    result (list AgentId) RuntimeError :=
  let? team := ok_or (team_get (rt_teams s) team_id) (RtOther ("unknown team: " +:+ team_id)) in
  ensure (bool_decide (tm_run_id team = run ∧ from ∈ tm_members team))
    (RtOther "broadcast sender must belong to the requested team/run") ;;?
  ensure (bool_decide (tm_strategy team ≠ Supervisor ∨ tm_coordinator team = Some from))
    (RtOther "only the Supervisor coordinator may broadcast to the Team") ;;?
  Ok (merge_sort String.le (filter (λ a, a ≠ from) (elements (tm_members team)))).

Definition broadcast_team_message (s : Runtime) (now : Z) (uuid : string) (run : RunId)
    (team_id : TeamId) (from : AgentId) (kind : string) (body : Value) :
    outcome (list AgentMessage) :=
  slift s (check_broadcast s run team_id from) (λ recipients,
  sbind (with_bus s (broadcast to_vec (rt_bus s) (rt_registry s) now uuid run team_id from recipients
                       kind body)) (λ s '(ms, _), (s, Ok ms))).

Definition broadcast_message_with_id (s : Runtime) (now : Z) (broadcast_id : string) (run : RunId)
    (team_id : TeamId) (from : AgentId) (kind : string) (body : Value) :
    outcome (list AgentMessage) :=
  sbind (with_bus s (replay_broadcast_with_id (rt_bus s) broadcast_id run team_id from kind body))
    (λ s replayed,
  match replayed with
  | Some ms => (s, Ok ms)
  | None =>
      slift s (check_broadcast s run team_id from) (λ recipients,
      sbind (with_bus s (broadcast_with_id to_vec (rt_bus s) (rt_registry s) now broadcast_id run
                           team_id from recipients kind body)) (λ s '(ms, _), (s, Ok ms)))
  end).
End messages.

(** [acknowledge_message] (collaboration_runtime/tasks.rs).  The message found
    is among the pending ones. *)
Definition acknowledge_message (s : Runtime) (now : Z) (run : RunId) (agent_id : AgentId)
    (message_id : string) : outcome bool :=
  slift s (ok_or (agent_get (rt_agents s) agent_id)
             (RtOther ("unknown message agent: " +:+ agent_id))) (λ agent,
  slift s (ensure (bool_decide (ar_run_id agent = run))
             (RtOther "message acknowledgement agent does not belong to the requested run")) (λ _,
  slift s
    (match List.find (has_id message_id) (inbox (rt_bus s) agent_id) with
     | Some m => ensure (bool_decide (am_run_id m = run ∧ am_to m = agent_id))
                   (RtOther "message acknowledgement does not belong to the requested run/agent")
     | None => Ok tt
     end) (λ _,
  sbind (with_bus s (acknowledge (rt_bus s) (rt_registry s) now run agent_id message_id))
    (λ s '(acknowledged, _), (s, Ok acknowledged))))).
