(* ===== verification/CollaborationTasks.v ===== *)
(** * The collaboration runtime: tasks

    crates/solaris-agent/src/collaboration_runtime/tasks.rs: who may create,
    assign, hand over, settle, skip, requeue and cancel a task, and the
    compare-and-swap under which each change is written to the ledger before the
    registry shows it. *)
From S2P Require Import Prelude Json Types TaskRegistry RuntimeLedger WorkflowTypes Identity Registries LedgerInterface MessageBus CollaborationTypes CollaborationRuntime.

Definition as_u64 (v : Value) : option Z :=
  match v with VNumber (PosInt n) => Some n | _ => None end.

Definition get_u64 (k : string) (v : Value) : option Z :=
  match get k v with Some w => as_u64 w | None => None end.

Definition unknown_task (id : TaskId) : RuntimeError := RtOther ("unknown task: " +:+ id).

(** ** Registration *)

Definition scoped_team_task_id (team_id : TeamId) (task_id : string) : TaskId :=
  let prefix := "team:" +:+ team_id +:+ ":" in
  if starts_with task_id prefix then task_id else prefix +:+ task_id.

(** The state and the owner a registered Team task may have. *)
Definition check_team_task_state (team : TeamRecord) (task : TaskRecord) :
    result unit RuntimeError :=
  match tr_state task with
  | Created => Err (RtOther "Team task cannot be durably registered in Created state")
  | Queued =>
      ensure (bool_decide (tr_owner_agent_id task = None))
        (RtOther "Queued Team task must not have an owner")
  | Assigned | Running =>
      let? owner := ok_or (tr_owner_agent_id task)
                      (RtOther (task_state_debug (tr_state task) +:+ " Team task must have an owner")) in
      ensure (bool_decide (owner ∈ tm_members team))
        (RtOther "runtime Team task owner is not a Team member")
  | Completed | Failed | Cancelled | Skipped =>
      ensure (match tr_owner_agent_id task with
              | Some owner => bool_decide (owner ∈ tm_members team) | None => true end)
        (RtOther "runtime Team task historical owner is not a Team member")
  end.

(** The first half of the validation reads the owner, the second the Team. *)
Definition validate_task_owner (s : Runtime) (run : RunId) (task : TaskRecord) :
    result unit RuntimeError :=
  ensure (bool_decide (tr_run_id task = run)) (RtOther "runtime task belongs to a different run") ;;?
  ensure (negb (trim_is_empty (tr_task_id task))) (RtOther "runtime task id cannot be empty") ;;?
  match tr_owner_agent_id task with
  | Some owner =>
      let? agent := ok_or (agent_get (rt_agents s) owner)
                      (RtOther ("unknown task owner: " +:+ owner)) in
      ensure (same_line (ar_run_id agent) run)
        (RtOther "runtime task owner belongs to a different Run lineage")
  | None => Ok tt
  end.

Definition validate_task_team (s : Runtime) (run : RunId) (task : TaskRecord) :
    result unit RuntimeError :=
  match tr_team_id task with
  | Some team_id =>
      let? team := ok_or (team_get (rt_teams s) team_id)
                     (RtOther ("unknown task Team: " +:+ team_id)) in
      ensure (same_line (tm_run_id team) run)
        (RtOther "runtime task Team belongs to a different Run lineage") ;;?
      let? coordinator := ok_or (tm_coordinator team)
                            (RtOther "runtime Team task has no coordinator") in
      ensure (bool_decide (coordinator ∈ tm_members team))
        (RtOther "runtime Team task coordinator is not a Team member") ;;?
      check_team_task_state team task
  | None =>
      ensure (negb (is_assigned_or_running (tr_state task) &&
                    bool_decide (tr_owner_agent_id task = None)))
        (RtOther (task_state_debug (tr_state task) +:+ " task must have an owner"))
  end.

Definition validate_runtime_task (s : Runtime) (run : RunId) (task : TaskRecord) :
    result unit RuntimeError :=
  validate_task_owner s run task ;;? validate_task_team s run task.

(** [durable_task_created_map_locked]: records that do not decode are skipped,
    and one identity has one record. *)
Definition durable_created (acc : gmap TaskId TaskRecord) (r : LedgerRecord) :
    result (gmap TaskId TaskRecord) RuntimeError :=
  if decide (lr_record_type r ≠ "task_created") then Ok acc
  else
    match from_value (A := TaskRecord) (lr_payload r) with
    | None => Ok acc
    | Some task =>
        match acc !! tr_task_id task with
        | Some previous =>
            if task_record_eqb previous task then Ok acc
            else Err (RtOther ("runtime task " +:+ tr_task_id task +:+
                               " is bound to multiple durable task_created records"))
        | None => Ok (<[tr_task_id task := task]> acc)
        end
    end.

Definition durable_task_created_map (s : Runtime) (run : RunId) :
    result (gmap TaskId TaskRecord) RuntimeError :=
  fold_result durable_created ∅ (run_records (rt_ledger s) run).

Definition persist_new_task_created (s : Runtime) (now : Z) (run : RunId) (task : TaskRecord) :
    outcome unit :=
  sbind (rt_append s now run "task_created" (to_value task)) (λ s _,
  (set_tasks s (upsert (rt_tasks s) task), Ok tt)).

Definition register_runtime_task (s : Runtime) (now : Z) (run : RunId) (task : TaskRecord) :
    outcome bool :=
  slift s (validate_runtime_task s run task) (λ _,
  slift s (durable_task_created_map s run) (λ durable,
  match durable !! tr_task_id task with
  | Some created =>
      if task_record_eqb created task then (upsert_missing s created, Ok false)
      else (s, Err (RtOther ("runtime task " +:+ tr_task_id task +:+
                             " was durably created with different metadata")))
  | None =>
      match get_task (rt_tasks s) (tr_task_id task) with
      | Some existing =>
          if task_record_eqb existing task then (s, Ok false)
          else (s, Err (different_metadata (tr_task_id task)))
      | None => sbind (persist_new_task_created s now run task) (λ s _, (s, Ok true))
      end
  end)).

(** ** Admission

    [admit_collaboration_tasks] takes no mutation line.  Each task is validated,
    the ledger admits the batch in one transaction, and the registry is written,
    every access under the lock of what it reads or writes and no longer: other
    calls on the Run may come between any two of them.  [AdmissionStage] is what
    an admission in flight has still to do, [admission_step] its next access. *)
Inductive TaskCheck : Type :=
  | CheckOwner (t : TaskRecord)
  | CheckTeam (t : TaskRecord).

Definition task_checks (t : TaskRecord) : list TaskCheck := [CheckOwner t; CheckTeam t].

Definition run_check (s : Runtime) (run : RunId) (c : TaskCheck) : result unit RuntimeError :=
  match c with
  | CheckOwner t => validate_task_owner s run t
  | CheckTeam t => validate_task_team s run t
  end.

(** Validations that remain, records that remain to be projected, tasks that
    remain to be looked up, and a task found missing with those after it. *)
Inductive AdmissionStage : Type :=
  | AdChecks (cs : list TaskCheck)
  | AdProject (rs : list LedgerRecord)
  | AdLook (ts : list TaskRecord)
  | AdInsert (t : TaskRecord) (ts : list TaskRecord)
  | AdDone (r : result unit RuntimeError).

(** The task of an admitted record goes into the registry. *)
Definition project_admitted (s : Runtime) (r : LedgerRecord) : outcome unit :=
  slift s (ok_or (from_value (lr_payload r)) (RtOther "invalid task_created payload")) (λ task,
  (set_tasks s (upsert (rt_tasks s) task), Ok tt)).

Definition next_stage {A} (c : outcome A) (k : A → AdmissionStage) : Runtime * AdmissionStage :=
  match c with
  | (s, Ok a) => (s, k a)
  | (s, Err e) => (s, AdDone (Err e))
  end.

Definition admission_step (s : Runtime) (now : Z) (run : RunId) (max_tasks : Z)
    (tasks : list TaskRecord) (a : AdmissionStage) : Runtime * AdmissionStage :=
  match a with
  | AdChecks (c :: cs) => next_stage (s, run_check s run c) (λ _, AdChecks cs)
  | AdChecks [] => next_stage (rt_admit s now run max_tasks tasks []) AdProject
  | AdProject (r :: rs) => next_stage (project_admitted s r) (λ _, AdProject rs)
  | AdProject [] => (s, AdLook tasks)
  | AdLook (t :: ts) =>
      match get_task (rt_tasks s) (tr_task_id t) with
      | None => (s, AdInsert t ts)
      | Some _ => (s, AdLook ts)
      end
  | AdInsert t ts => (set_tasks s (upsert (rt_tasks s) t), AdLook ts)
  | AdLook [] => (s, AdDone (Ok tt))
  | AdDone r => (s, AdDone r)
  end.

(** How many accesses a stage leaves at most: those of the validation up to the
    ledger, or those of the registry up to the end. *)
Definition stage_fuel (tasks : list TaskRecord) (a : AdmissionStage) : nat :=
  match a with
  | AdChecks cs => S (length cs)
  | AdProject rs => S (length rs) + S (2 * length tasks)
  | AdLook ts => S (2 * length ts)
  | AdInsert _ ts => S (S (2 * length ts))
  | AdDone _ => 0
  end.

Definition admission_run (now : Z) (run : RunId) (max_tasks : Z) (tasks : list TaskRecord)
    (c : Runtime * AdmissionStage) : Runtime * AdmissionStage :=
  Nat.iter (stage_fuel tasks c.2) (λ c, admission_step c.1 now run max_tasks tasks c.2) c.

Definition admission_begun (tasks : list TaskRecord) : AdmissionStage :=
  AdChecks (tasks ≫= task_checks).

Definition admission_result (a : AdmissionStage) : result unit RuntimeError :=
  match a with AdDone r => r | _ => Err (RtOther "admission in flight") end.

(** The admission when no other call comes between its accesses. *)
Definition admit_runtime_tasks (s : Runtime) (now : Z) (run : RunId) (max_tasks : Z)
    (tasks : list TaskRecord) : outcome unit :=
  let c := admission_run now run max_tasks tasks (s, admission_begun tasks) in
  let c := admission_run now run max_tasks tasks c in
  (c.1, admission_result c.2).

(** What that comes to: the validations, the ledger, the records projected one
    after the other, the tasks registered that are not. *)
Fixpoint project_all (s : Runtime) (rs : list LedgerRecord) : outcome unit :=
  match rs with
  | [] => (s, Ok tt)
  | r :: rs => sbind (project_admitted s r) (λ s _, project_all s rs)
  end.

(** The task a Team member asks for, in its initial state. *)
Definition initial_task (t : TaskRecord) : TaskRecord :=
  task_with t (tr_owner_agent_id t)
    (match tr_owner_agent_id t with Some _ => Assigned | None => Queued end) None None 0.

Definition create_collaboration_task (s : Runtime) (now : Z) (run : RunId) (team_id : TeamId)
    (created_by : AgentId) (max_tasks : Z) (task : TaskRecord) : outcome bool :=
  slift s (ok_or (team_get (rt_teams s) team_id) (RtOther ("unknown team: " +:+ team_id))) (λ team,
  slift s (ensure (bool_decide (tm_run_id team = run ∧ created_by ∈ tm_members team))
             (RtOther "collaboration task creator must belong to the requested team/run")) (λ _,
  slift s (ensure (bool_decide (tm_strategy team ≠ Supervisor ∨ tm_coordinator team = Some created_by))
             (RtOther "only the Supervisor coordinator may create Team tasks")) (λ _,
  slift s (ensure (bool_decide (tr_team_id task = Some team_id))
             (RtOther "collaboration task must carry the requested Team identity")) (λ _,
  slift s (ensure (match tr_owner_agent_id task with
                   | Some owner => bool_decide (owner ∈ tm_members team) | None => true end)
             (RtOther "collaboration task owner is not a team member")) (λ _,
  let created := bool_decide (get_task (rt_tasks s) (tr_task_id task) = None) in
  sbind (admit_runtime_tasks s now run max_tasks [initial_task task]) (λ s _, (s, Ok created))))))).

(** ** Changes *)

Section cas.
Context (sha256 : string → list Byte.byte) (to_vec : Value → string).

Definition mutation_digest (m : TaskCasMutation) : string :=
  stable_digest_value sha256 to_vec (to_value m).

Definition cas_payload (task_id : TaskId) (op : OperationId) (m : TaskCasMutation)
    (expected_revision : Z) (expected_task next : TaskRecord) : Value :=
  VObject [("task_id", VString task_id); ("operation_id", VString op);
           ("transition", VString (mutation_name m)); ("mutation", to_value m);
           ("mutation_digest", VString (mutation_digest m));
           ("expected_revision", uint_to_value expected_revision);
           ("new_revision", uint_to_value (tr_revision next));
           ("expected_task", to_value expected_task); ("task", to_value next)].

(** A durable change that speaks of the operation, or of the same revision of
    the task. *)
Definition binds_change (task_id : TaskId) (op : OperationId) (expected_revision : Z)
    (r : LedgerRecord) : bool :=
  bool_decide (lr_record_type r = "task_cas") &&
  (bool_decide (get_str "operation_id" (lr_payload r) = Some op) ||
   (bool_decide (get_str "task_id" (lr_payload r) = Some task_id) &&
    bool_decide (get_u64 "expected_revision" (lr_payload r) = Some expected_revision))).

(** The closure that makes a change durable.  The error of a failed append is
    its message. *)
Definition persist_cas (now : Z) (run : RunId) (task_id : TaskId) (op : OperationId)
    (m : TaskCasMutation) (expected_revision : Z) (expected_task : TaskRecord)
    (l : InMemoryLedgerState) (next : TaskRecord) : InMemoryLedgerState * result unit TaskError :=
  let payload := cas_payload task_id op m expected_revision expected_task next in
  match List.find (binds_change task_id op expected_revision) (run_records l run) with
  | Some existing =>
      if value_eqb (lr_payload existing) payload then (l, Ok tt)
      else (l, Err (PersistFailed ("task revision " +:+ decimal expected_revision +:+
                                   " is already bound to a different mutation")))
  | None =>
      match append l now run SyncCritical "task_cas" payload with
      | (l, Ok _) => (l, Ok tt)
      | (l, Err _) => (l, Err (PersistFailed "runtime ledger append"))
      end
  end.

(** [apply_task_cas_locked]. *)
Definition apply_task_cas (s : Runtime) (now : Z) (run : RunId) (task_id : TaskId)
    (expected_revision : Z) (op : OperationId) (m : TaskCasMutation) : outcome TaskRecord :=
  slift s (ok_or (get_task (rt_tasks s) task_id) (unknown_task task_id)) (λ expected_task,
  match cas_durable (persist_cas now run task_id op m expected_revision expected_task)
          (rt_ledger s, rt_tasks s) task_id expected_revision op (mutation_digest m) m with
  | ((l, t), Ok next) => (set_tasks (set_ledger s l) t, Ok next)
  | ((l, t), Err e) => (set_tasks (set_ledger s l) t, Err (RtTask e))
  end).

(** The revision a successful change reports. *)
Definition cas_revision (s : Runtime) (now : Z) (run : RunId) (task_id : TaskId)
    (expected_revision : Z) (op : OperationId) (m : TaskCasMutation) : outcome Z :=
  sbind (apply_task_cas s now run task_id expected_revision op m)
    (λ s updated, (s, Ok (tr_revision updated))).

Definition settle_collaboration_task (s : Runtime) (now : Z) (run : RunId) (task_id : TaskId)
    (agent_id : AgentId) (expected_revision : Z) (op : OperationId) (state : TaskState)
    (outcome_ref : option string) (failure_class : option TaskFailureClass) : outcome Z :=
  slift s (ensure (is_settled state)
             (RtOther "collaboration task settlement must be terminal")) (λ _,
  slift s (ok_or (get_task (rt_tasks s) task_id) (unknown_task task_id)) (λ task,
  slift s (ensure (bool_decide (tr_run_id task = run ∧ tr_owner_agent_id task = Some agent_id))
             (RtOther "only the assigned task owner may settle a collaboration task")) (λ _,
  slift s
    (match tr_team_id task with
     | Some team_id =>
         let? team := ok_or (team_get (rt_teams s) team_id)
                        (RtOther ("unknown task team: " +:+ team_id)) in
         ensure (bool_decide (agent_id ∈ tm_members team))
           (RtOther "collaboration task owner is no longer a member of its Team")
     | None => Ok tt
     end) (λ _,
  cas_revision s now run task_id expected_revision op
    (Settle agent_id state outcome_ref failure_class))))).

Definition skip_collaboration_task (s : Runtime) (now : Z) (run : RunId) (task_id : TaskId)
    (expected_revision : Z) (op : OperationId) (reason : string) : outcome Z :=
  slift s (ok_or (get_task (rt_tasks s) task_id) (unknown_task task_id)) (λ task,
  slift s (ensure (bool_decide (tr_run_id task = run))
             (RtOther "collaboration task belongs to a different run")) (λ _,
  cas_revision s now run task_id expected_revision op (Skip (Some reason)))).

Definition requeue_supervisor_task (s : Runtime) (now : Z) (run : RunId) (task_id : TaskId)
    (coordinator : AgentId) (expected_revision : Z) (op : OperationId) (reason : string) :
    outcome Z :=
  slift s (ok_or (get_task (rt_tasks s) task_id) (unknown_task task_id)) (λ task,
  slift s (ensure (bool_decide (tr_run_id task = run ∧ tr_state task = Failed ∧
                                tr_failure_class task = Some Retryable))
             (RtOther "Supervisor retry requires a failed task with a Retryable failure")) (λ _,
  slift s (ok_or (tr_team_id task) (RtOther "Supervisor retry task has no Team")) (λ team_id,
  slift s (ok_or (team_get (rt_teams s) team_id) (RtOther ("unknown task team: " +:+ team_id)))
    (λ team,
  slift s (ensure (bool_decide (tm_strategy team = Supervisor ∧
                                tm_coordinator team = Some coordinator))
             (RtOther "only the Supervisor coordinator may requeue this task")) (λ _,
  cas_revision s now run task_id expected_revision op (SupervisorRetry (Some reason))))))).

Definition cancel_supervisor_workflow_task (s : Runtime) (now : Z) (run : RunId) (task_id : TaskId)
    (coordinator : AgentId) (expected_revision : Z) (op : OperationId) : outcome Z :=
  slift s (ok_or (get_task (rt_tasks s) task_id) (unknown_task task_id)) (λ task,
  slift s (ok_or (tr_team_id task) (RtOther "Supervisor workflow task has no Team")) (λ team_id,
  slift s (ok_or (team_get (rt_teams s) team_id) (RtOther ("unknown task team: " +:+ team_id)))
    (λ team,
  slift s (ensure (bool_decide (tr_run_id task = run ∧ tr_workflow_id task ≠ None ∧
                                tm_strategy team = Supervisor ∧
                                tm_coordinator team = Some coordinator))
             (RtOther "only the Supervisor coordinator may cancel its workflow Task")) (λ _,
  cas_revision s now run task_id expected_revision op
    (WorkflowState Cancelled false (Some ("supervisor-cancel:" +:+ op)) None))))).

(** Whose task a handover takes away. *)
Definition handoff_source (s : Runtime) (task : TaskRecord) (from to : AgentId) :
    result AgentId RuntimeError :=
  match tr_team_id task with
  | None => Ok from
  | Some team_id =>
      let? team := ok_or (team_get (rt_teams s) team_id)
                     (RtOther ("unknown task team: " +:+ team_id)) in
      ensure (bool_decide (from ∈ tm_members team ∧ to ∈ tm_members team))
        (RtOther "task handoff agents must belong to the task Team") ;;?
      if decide (tm_strategy team = Supervisor) then
        ensure (bool_decide (tm_coordinator team = Some from))
          (RtOther "only the Supervisor coordinator may reassign Team tasks") ;;?
        ok_or (tr_owner_agent_id task) (RtOther "Supervisor task has no current owner")
      else Ok from
  end.

Definition handoff_task (s : Runtime) (now : Z) (run : RunId) (task_id : TaskId) (from to : AgentId)
    (expected_revision : Z) (op : OperationId) : outcome Z :=
  slift s (for_each (λ id,
      let? agent := ok_or (agent_get (rt_agents s) id)
                      (RtOther ("unknown handoff agent: " +:+ id)) in
      ensure (same_line (ar_run_id agent) run)
        (RtOther "task handoff agents must belong to the requested run")) [from; to]) (λ _,
  slift s (ok_or (get_task (rt_tasks s) task_id) (unknown_task task_id)) (λ task,
  slift s (ensure (same_line run (tr_run_id task))
             (RtOther "task does not belong to the requested run lineage")) (λ _,
  slift s (handoff_source s task from to) (λ durable_from,
  cas_revision s now (tr_run_id task) task_id expected_revision op (Handoff durable_from to))))).

Definition validate_task_agent (s : Runtime) (run : RunId) (task_id : TaskId) (agent_id : AgentId) :
    result unit RuntimeError :=
  let? task := ok_or (get_task (rt_tasks s) task_id) (unknown_task task_id) in
  let? agent := ok_or (agent_get (rt_agents s) agent_id) (RtOther ("unknown Agent: " +:+ agent_id)) in
  ensure (same_line run (tr_run_id task) && same_line run (ar_run_id agent))
    (RtOther "task and Agent must belong to the requested Run lineage") ;;?
  match tr_team_id task with
  | Some team_id =>
      let? team := ok_or (team_get (rt_teams s) team_id)
                     (RtOther ("unknown task Team: " +:+ team_id)) in
      ensure (same_line run (tm_run_id team) && bool_decide (agent_id ∈ tm_members team))
        (RtOther "task owner must belong to the task Team in the requested Run")
  | None => Ok tt
  end.

Definition assign_task_owner (s : Runtime) (now : Z) (run : RunId) (task_id : TaskId)
    (agent_id : AgentId) (expected_revision : Z) (op : OperationId) : outcome Z :=
  slift s (validate_task_agent s run task_id agent_id) (λ _,
  cas_revision s now run task_id expected_revision op (Assign agent_id)).

Definition mark_task_running (s : Runtime) (now : Z) (run : RunId) (task_id : TaskId)
    (agent_id : AgentId) (expected_revision : Z) (op : OperationId) : outcome Z :=
  slift s (validate_task_agent s run task_id agent_id) (λ _,
  cas_revision s now run task_id expected_revision op (MarkRunning agent_id)).
End cas.

(** ** An admission on its own *)

Section alone.
Context (now : Z) (run : RunId) (max_tasks : Z) (tasks : list TaskRecord).

Abbreviation step := (λ c : Runtime * AdmissionStage, admission_step c.1 now run max_tasks tasks c.2).

Lemma step_done n s r : Nat.iter n step (s, AdDone r) = (s, AdDone r).
Proof. induction n as [|n IH]; [done|]. by rewrite Nat.iter_succ, IH. Qed.

Lemma checks_alone ts s :
  Nat.iter (S (length (ts ≫= task_checks))) step (s, AdChecks (ts ≫= task_checks)) =
  match for_each (validate_runtime_task s run) ts with
  | Ok _ => next_stage (rt_admit s now run max_tasks tasks []) AdProject
  | Err e => (s, AdDone (Err e))
  end.
Proof.
  induction ts as [|t ts IH]; [done|].
  change (for_each (validate_runtime_task s run) (t :: ts)) with
    (rbind (validate_runtime_task s run t) (λ u, fold_result (λ _ x, validate_runtime_task s run x) u ts)).
  change ((t :: ts) ≫= task_checks) with (CheckOwner t :: CheckTeam t :: (ts ≫= task_checks)).
  cbn [length]. rewrite !Nat.iter_succ_r. unfold validate_runtime_task at 1.
  cbn [admission_step fst snd run_check next_stage].
  destruct (validate_task_owner s run t) as [u|e]; cbn [rbind next_stage];
    [|cbn [fst snd admission_step next_stage]; apply step_done].
  cbn [fst snd admission_step run_check next_stage].
  destruct (validate_task_team s run t) as [[]|e]; cbn [rbind next_stage];
    [|cbn [fst snd admission_step next_stage]; apply step_done].
  rewrite Nat.iter_succ_r in IH. exact IH.
Qed.

Lemma looks_alone ts s :
  Nat.iter (S (2 * length ts)) step (s, AdLook ts) = (fold_left upsert_missing ts s, AdDone (Ok tt)).
Proof.
  revert s. induction ts as [|t ts IH]; intros s; [done|]. cbn [length fold_left].
  replace (S (2 * S (length ts))) with (S (S (S (2 * length ts)))) by lia. rewrite Nat.iter_succ_r.
  cbn [fst snd admission_step]. unfold upsert_missing at 2.
  destruct (get_task (rt_tasks s) (tr_task_id t)).
  - rewrite Nat.iter_succ, IH. done.
  - rewrite Nat.iter_succ_r. apply IH.
Qed.

Lemma projects_alone rs s :
  Nat.iter (S (length rs) + S (2 * length tasks)) step (s, AdProject rs) =
  match project_all s rs with
  | (s, Ok _) => (fold_left upsert_missing tasks s, AdDone (Ok tt))
  | (s, Err e) => (s, AdDone (Err e))
  end.
Proof.
  revert s. induction rs as [|r rs IH]; intros s; cbn [length project_all plus]; rewrite Nat.iter_succ_r.
  - apply looks_alone.
  - cbn [fst snd admission_step]. destruct (project_admitted s r) as [s' [u|e]]; cbn [next_stage sbind].
    + apply IH.
    + by rewrite step_done.
Qed.

Lemma admission_alone s :
  admit_runtime_tasks s now run max_tasks tasks =
  slift s (for_each (validate_runtime_task s run) tasks) (λ _,
  sbind (rt_admit s now run max_tasks tasks []) (λ s records,
  sbind (project_all s records) (λ s _, (fold_left upsert_missing tasks s, Ok tt)))).
Proof.
  unfold admit_runtime_tasks, admission_begun.
  assert (admission_run now run max_tasks tasks (s, AdChecks (tasks ≫= task_checks)) = _) as -> by apply checks_alone.
  destruct (for_each _ _) as [u|e]; [|done]. cbn [slift].
  destruct (rt_admit s now run max_tasks tasks []) as [s1 [rs|e]]; [|done]. cbn [next_stage sbind].
  unfold admission_run. cbn [fst snd stage_fuel]. rewrite projects_alone.
  by destruct (project_all s1 rs) as [s2 [[]|e]].
Qed.
End alone.
