(* ===== verification/CollaborationSpawn.v ===== *)
(** * The collaboration runtime: the life of child Agents

    crates/solaris-agent/src/collaboration_runtime/spawn.rs: a spawn is
    reserved, committed, and ends with an outcome, an abort or a cancellation;
    each step is written to the ledger before the registries show it.  The store
    of outcome bodies is a directory of files and a parameter, as are SHA-256
    and the text of JSON. *)
From S2P Require Import Prelude Json Types TaskRegistry RuntimeLedger WorkflowTypes Identity Registries LedgerInterface MessageBus CollaborationTypes CollaborationRuntime ResourceTypes.

Definition agent_state_is_terminal (st : AgentLifecycleState) : bool :=
  match st with AgCompleted | AgFailed | AgCancelled => true | _ => false end.

Definition outcome_agent_state (r : SubAgentResult) : AgentLifecycleState :=
  match sr_status r with
  | OutCompleted => AgCompleted
  | OutCancelled => AgCancelled
  | OutFailed | OutUnknown | OutReconciliationRequired => AgFailed
  end.

(** [self.agents.set_state(id, state)]. *)
Definition set_state (s : Runtime) (id : AgentId) (st : AgentLifecycleState) : Runtime :=
  set_agents s (agent_set_state (rt_agents s) id st).1.

Definition put_relationship (s : Runtime) (r : AgentRelationship) : Runtime :=
  set_relationships s (put (rt_relationships s) r).

Definition known_version (v : Z) : Z := if decide (v = 0%Z) then LEGACY_IDENTITY_VERSION else v.

Definition existing_child_identity (s : Runtime) (k : ChildAgentKey) : option (AgentId * Z) :=
  (λ r, (rl_child_agent_id r, known_version (rl_child_identity_version r))) <$>
  relationship_for_key (rt_relationships s) k.

(** ** Reservation and commit *)

Section spawn.
Context (sha256 : string → list Byte.byte).

Definition spawn_key (run : RunId) (parent : AgentId) (role task_key : string) (op : OperationId) :
    ChildAgentKey :=
  {| ck_run_id := run; ck_parent_agent_id := parent; ck_role_key := role;
     ck_stable_task_key := task_key; ck_spawn_operation_id := op |}.

Definition intent_payload (k : ChildAgentKey) (child : AgentId) : Value :=
  VObject [("parent_agent_id", VString (ck_parent_agent_id k)); ("child_agent_id", VString child);
           ("role_key", VString (ck_role_key k));
           ("stable_task_key", VString (ck_stable_task_key k));
           ("spawn_operation_id", VString (ck_spawn_operation_id k))].

(** The Agent a reservation creates. *)
Definition reserved_agent (run : RunId) (parent child : AgentId) : AgentRecord :=
  {| ar_run_id := run; ar_agent_id := child; ar_team_id := None; ar_parent_agent_id := Some parent;
     ar_state := AgReserved |}.

(** The relationship is known: the child is reattached, and a failed one is
    started again under the new operation. *)
Definition reattach_spawn (s : Runtime) (now : Z) (k : ChildAgentKey) (child : AgentId) :
    outcome unit :=
  let run := ck_run_id k in
  let parent := ck_parent_agent_id k in
  let op := ck_spawn_operation_id k in
  slift s (ok_or (agent_get (rt_agents s) child)
             (RtOther ("spawn relationship for " +:+ child +:+
                       " has no Agent projection; reconciliation is required"))) (λ existing,
  slift s (ensure (bool_decide (ar_run_id existing = run ∧ ar_parent_agent_id existing = Some parent))
             (RtOther "spawn relationship points to an Agent from another run or parent")) (λ _,
  slift s (ok_or (List.find (λ r, bool_decide (rl_child_agent_id r = child))
                    (relationships (rt_relationships s)))
             (RtOther "spawn relationship projection is missing")) (λ existing_relationship,
  if decide (rl_spawn_operation_id existing_relationship = op) then (s, Ok tt)
  else if decide (ar_state existing ≠ AgFailed)
  then (s, Err (RtOther ("stable child task is already bound to operation " +:+
                         rl_spawn_operation_id existing_relationship +:+ " with state " +:+
                         agent_state_debug (ar_state existing))))
  else
    let retry := {|
      rl_run_id := run; rl_parent_agent_id := parent; rl_child_agent_id := child;
      rl_child_identity_version := known_version (rl_child_identity_version existing_relationship);
      rl_role_key := ck_role_key k; rl_stable_task_key := ck_stable_task_key k;
      rl_spawn_operation_id := op |} in
    sbind (rt_append s now run "agent_spawn_retry_started" (to_value retry)) (λ s _,
    (set_state (put_relationship s retry) child AgActive, Ok tt))))).

(** [reserve_spawn_typed]; [parent_ceiling] is the ceiling of the caller's
    permission context. *)
Definition reserve_spawn_typed (s : Runtime) (now : Z) (run : RunId) (parent : AgentId)
    (role task_key : string) (op : OperationId) (parent_ceiling requested : PermissionCeiling) :
    outcome AgentSpawnReservation :=
  let key := spawn_key run parent role task_key op in
  let ceiling := ceiling_intersect parent_ceiling requested in
  let reservation child reattached :=
    {| re_key := key; re_child_agent_id := child; re_permission_ceiling := ceiling;
       re_reattached := reattached |} in
  match child_for_key (rt_relationships s) key with
  | Some child => sbind (reattach_spawn s now key child) (λ s _, (s, Ok (reservation child true)))
  | None =>
      let child := agent_id sha256 key in
      match agent_get (rt_agents s) child with
      | Some existing =>
          slift s (ensure (bool_decide (ar_run_id existing = run ∧
                                        ar_parent_agent_id existing = Some parent))
                     (RtOther "stable child identity collides with another run or parent")) (λ _,
          (s, Ok (reservation child false)))
      | None =>
          sbind (rt_append s now run "agent_spawn_intent" (intent_payload key child)) (λ s _,
          (set_agents s (agent_upsert (rt_agents s) (reserved_agent run parent child)),
           Ok (reservation child false)))
      end
  end.

(** [reserve_spawn]: the operation is the role and the task key. *)
Definition reserve_spawn (s : Runtime) (now : Z) (run : RunId) (parent : AgentId)
    (op : OperationId) (parent_ceiling requested : PermissionCeiling) :=
  reserve_spawn_typed s now run parent op op op parent_ceiling requested.

Definition commit_spawn (s : Runtime) (now : Z) (re : AgentSpawnReservation) : outcome unit :=
  if re_reattached re then (s, Ok tt)
  else
  let k := re_key re in
  let child := re_child_agent_id re in
  match child_for_key (rt_relationships s) k with
  | Some existing_child =>
      slift s (ensure (bool_decide (existing_child = child))
                 (RtOther "spawn relationship is bound to a different child Agent")) (λ _,
      slift s (ok_or (agent_get (rt_agents s) child)
                 (RtOther "committed spawn relationship has no Agent projection")) (λ agent,
      if decide (ar_state agent = AgActive) then (s, Ok tt)
      else (s, Err (RtOther ("spawn is already terminal and cannot be committed again: " +:+
                             agent_state_debug (ar_state agent))))))
  | None =>
      slift s (ok_or (agent_get (rt_agents s) child)
                 (RtOther ("reserved child agent " +:+ child +:+ " is missing"))) (λ agent,
      slift s (ensure (bool_decide (ar_state agent = AgReserved))
                 (RtOther ("spawn commit requires a Reserved Agent, found " +:+
                           agent_state_debug (ar_state agent)))) (λ _,
      slift s (ok_or (identity_version_for_agent_id sha256 k child)
                 (RtOther "spawn reservation has an unknown child identity version")) (λ version,
      let relationship := {|
        rl_run_id := ck_run_id k; rl_parent_agent_id := ck_parent_agent_id k;
        rl_child_agent_id := child; rl_child_identity_version := version;
        rl_role_key := ck_role_key k; rl_stable_task_key := ck_stable_task_key k;
        rl_spawn_operation_id := ck_spawn_operation_id k |} in
      sbind (rt_append s now (ck_run_id k) "agent_spawn_committed" (to_value relationship)) (λ s _,
      (set_state (put_relationship s relationship) child AgActive, Ok tt)))))
  end.
End spawn.

(** [record_agent_handle]; [handle] is the JSON form of the handle. *)
Definition handle_issued (op : OperationId) (r : LedgerRecord) : bool :=
  bool_decide (lr_record_type r = "agent_handle_issued") &&
  bool_decide (get_str "operation_id" (lr_payload r) = Some op).

Definition record_agent_handle (s : Runtime) (now : Z) (run : RunId) (op : OperationId)
    (spec_digest : string) (handle : Value) : outcome unit :=
  match List.find (handle_issued op) (reverse (run_records (rt_ledger s) run)) with
  | Some r =>
      if decide (default "" (get_str "spec_digest" (lr_payload r)) = spec_digest) then (s, Ok tt)
      else (s, Err (RtOther ("spawn operation " +:+ op +:+
                             " was already issued for a different AgentSpawnSpec")))
  | None => sbind (rt_append s now run "agent_handle_issued" handle) (λ s _, (s, Ok tt))
  end.

(** ** States, aborts and cancellations *)

Definition state_payload (id : AgentId) (st : AgentLifecycleState) : Value :=
  VObject [("agent_id", VString id); ("state", to_value st)].

Definition set_agent_state (s : Runtime) (now : Z) (run : RunId) (id : AgentId)
    (st : AgentLifecycleState) : outcome bool :=
  slift s (ok_or (agent_get (rt_agents s) id) (RtOther ("unknown agent: " +:+ id))) (λ current,
  slift s (ensure (bool_decide (ar_run_id current = run))
             (RtOther "agent belongs to a different run")) (λ _,
  if decide (ar_state current = st) then (s, Ok false)
  else
    slift s (ensure (negb (agent_state_is_terminal (ar_state current)))
               (RtOther ("Agent already has terminal state " +:+
                         agent_state_debug (ar_state current)))) (λ _,
    sbind (rt_append s now run "agent_state_changed" (state_payload id st)) (λ s _,
    (set_state s id st, Ok true))))).

(** [self.teams.leave(team, child)], when the Agent has a Team. *)
Definition leave_team (s : Runtime) (team : option TeamId) (child : AgentId) : Runtime :=
  match team with
  | Some team_id => set_teams s (team_leave (rt_teams s) team_id child).1
  | None => s
  end.

(** [if let Some(team) { self.teams.leave(..); self.agents.set_team(child, None) }]. *)
Definition leave_own_team (s : Runtime) (team : option TeamId) (child : AgentId) : Runtime :=
  match team with
  | Some team_id =>
      let s := leave_team s team child in
      set_agents s (agent_set_team (rt_agents s) child None).1
  | None => s
  end.

Definition end_payload (re : AgentSpawnReservation) (team : option TeamId) (reason : string) :
    list (string * Value) :=
  [("child_agent_id", VString (re_child_agent_id re));
   ("spawn_operation_id", VString (ck_spawn_operation_id (re_key re)));
   ("team_id", opt_value team); ("reason", VString reason)].

(** A reservation that was not committed also records its disposition. *)
Definition cancel_payload (re : AgentSpawnReservation) (team : option TeamId) (reason : string)
    (uncommitted : bool) : Value :=
  VObject (end_payload re team reason ++
           if uncommitted
           then [("disposition", VString "cancelled"); ("reattached", VBool (re_reattached re))]
           else []).

Definition cancel_spawn (s : Runtime) (now : Z) (re : AgentSpawnReservation) (reason : string) :
    outcome unit :=
  let child := re_child_agent_id re in
  slift s (ok_or (agent_get (rt_agents s) child)
             (RtOther "spawn cancellation Agent projection is missing")) (λ current,
  if decide (ar_state current = AgCancelled) then (s, Ok tt)
  else
    slift s (ensure (bool_decide (ar_state current ≠ AgCompleted ∧ ar_state current ≠ AgFailed))
               (RtOther ("spawn already has terminal state " +:+
                         agent_state_debug (ar_state current)))) (λ _,
    let uncommitted :=
      bool_decide (ar_state current = AgReserved) &&
      bool_decide (child_for_key (rt_relationships s) (re_key re) = None) in
    sbind (rt_append s now (ck_run_id (re_key re)) "agent_spawn_cancelled"
             (cancel_payload re (ar_team_id current) reason uncommitted)) (λ s _,
    (set_state (leave_own_team s (ar_team_id current) child) child AgCancelled, Ok tt)))).

(** A record of the Run that names the operation of the reservation. *)
Definition recorded_for (ty : string) (re : AgentSpawnReservation) (s : Runtime) : bool :=
  existsb (λ r, bool_decide (lr_record_type r = ty) &&
                bool_decide (get_str "spawn_operation_id" (lr_payload r) =
                             Some (ck_spawn_operation_id (re_key re))))
    (run_records (rt_ledger s) (ck_run_id (re_key re))).

Definition reattach_payload (re : AgentSpawnReservation) (reason : string) : Value :=
  VObject [("child_agent_id", VString (re_child_agent_id re));
           ("spawn_operation_id", VString (ck_spawn_operation_id (re_key re)));
           ("reason", VString reason)].

Definition abort_payload (re : AgentSpawnReservation) (team : option TeamId) (reason : string) :
    Value :=
  VObject (end_payload re team reason ++
           [("disposition", VString "removed"); ("reattached", VBool false)]).

Definition abort_spawn (s : Runtime) (now : Z) (re : AgentSpawnReservation) (reason : string) :
    outcome unit :=
  let run := ck_run_id (re_key re) in
  let child := re_child_agent_id re in
  if re_reattached re then
    if recorded_for "agent_reattach_failed" re s then (s, Ok tt)
    else sbind (rt_append s now run "agent_reattach_failed" (reattach_payload re reason))
           (λ s _, (s, Ok tt))
  else if bool_decide (child_for_key (rt_relationships s) (re_key re) ≠ None)
  then cancel_spawn s now re reason
  else
    match agent_get (rt_agents s) child with
    | None =>
        if recorded_for "agent_spawn_aborted" re s then (s, Ok tt)
        else (s, Err (RtOther "spawn reservation Agent is missing before abort"))
    | Some agent =>
        sbind (rt_append s now run "agent_spawn_aborted" (abort_payload re (ar_team_id agent) reason))
          (λ s _,
        let s := leave_team s (ar_team_id agent) child in
        (set_agents s (agent_remove (rt_agents s) child).1, Ok tt))
    end.

(** ** Outcomes *)

(** A member of the output that repeats the text. *)
Definition output_names (r : SubAgentResult) (member : string) : bool :=
  match sr_output r with
  | Some output => bool_decide (get_str member output = Some (sr_text r))
  | None => false
  end.

Definition with_text (r : SubAgentResult) (text : string) : SubAgentResult :=
  {| sr_name := sr_name r; sr_agent_id := sr_agent_id r; sr_task_id := sr_task_id r;
     sr_status := sr_status r; sr_failure_class := sr_failure_class r; sr_output := sr_output r;
     sr_text := text; sr_usage := sr_usage r; sr_turns := sr_turns r; sr_is_error := sr_is_error r |}.

(** A text the output already holds is stored once. *)
Definition outcome_body (r : SubAgentResult) : DurableAgentOutcomeBody :=
  if output_names r "text" then {| dy_result := with_text r ""; dy_text_source := OutputText |}
  else if output_names r "error"
  then {| dy_result := with_text r ""; dy_text_source := OutputError |}
  else {| dy_result := r; dy_text_source := Inline |}.

Definition agent_outcome_projection (r : SubAgentResult) : SubAgentResult :=
  {| sr_name := sr_name r; sr_agent_id := sr_agent_id r; sr_task_id := sr_task_id r;
     sr_status := sr_status r; sr_failure_class := sr_failure_class r; sr_output := None;
     sr_text := ""; sr_usage := token_usage_default; sr_turns := 0; sr_is_error := sr_is_error r |}.

Section outcomes.
Context (sha256 : string → list Byte.byte).
(** [serde_json::to_string] and [serde_json::from_str]. *)
Context (to_string : Value → string) (from_str : string → option Value).
(** [EffectOutputStore::write_named] and [read] of a Run. *)
Context {O : Type} (write_named : O → RunId → string → O * result string string).
Context (read_named : O → RunId → string → result string string).

Definition encode_agent_outcome_body (r : SubAgentResult) : string :=
  to_string (to_value (outcome_body r)).

Definition decode_agent_outcome_body (serialized : string) : result SubAgentResult RuntimeError :=
  let? body := ok_or (v ← from_str serialized; from_value (A := DurableAgentOutcomeBody) v)
                 (RtOther "invalid Agent outcome body") in
  let r := dy_result body in
  match dy_text_source body with
  | Inline => Ok r
  | OutputText =>
      let? text := ok_or (o ← sr_output r; get_str "text" o)
                     (RtOther "Agent outcome blob is missing output.text") in
      Ok (with_text r text)
  | OutputError =>
      let? text := ok_or (o ← sr_output r; get_str "error" o)
                     (RtOther "Agent outcome blob is missing output.error") in
      Ok (with_text r text)
  end.

(** [value.is_some_and(|v| v != expected)]. *)
Definition conflicts {A} `{EqDecision A} (o : option A) (expected : A) : bool :=
  match o with Some a => bool_decide (a ≠ expected) | None => false end.

Definition lift_store {A} (r : result A string) : result A RuntimeError :=
  match r with Ok a => Ok a | Err e => Err (RtOther e) end.

Definition read_agent_outcome_blob (o : O) (run : RunId) (b : OutcomeBlobRef) :
    result SubAgentResult RuntimeError :=
  ensure (negb (conflicts (ob_run_id b) run))
    (RtOther "durable Agent outcome blob belongs to a different Run") ;;?
  let? serialized := lift_store (read_named o (default run (ob_run_id b)) (ob_reference b)) in
  ensure (bool_decide (byte_len serialized = ob_bytes b ∧
                       stable_digest_bytes sha256 serialized = ob_digest b))
    (RtOther "durable Agent outcome blob identity changed") ;;?
  let? r := decode_agent_outcome_body serialized in
  ensure (negb (conflicts (ob_status b) (sr_status r)))
    (RtOther "durable Agent outcome status conflicts with its blob reference") ;;?
  Ok r.

Definition read_agent_outcome_record (o : O) (run : RunId) (payload : Value) :
    result (SubAgentResult * option OutcomeBlobRef) RuntimeError :=
  let? d := ok_or (from_value (A := DurableAgentOutcomeRecord) payload)
              (RtOther "invalid agent_outcome record") in
  match do_outcome_ref d with
  | Some b =>
      let? r := read_agent_outcome_blob o run b in
      ensure (negb (conflicts (do_status d) (sr_status r)))
        (RtOther "durable Agent outcome status conflicts with its blob") ;;?
      Ok (r, Some b)
  | None =>
      let? r := ok_or (do_result d)
                  (RtOther "agent_outcome record missing result or outcome_ref") in
      Ok (r, None)
  end.

(** The newest [agent_outcome] record of an operation. *)
Definition outcome_of (op : OperationId) (r : LedgerRecord) : bool :=
  bool_decide (lr_record_type r = "agent_outcome") &&
  bool_decide (get_str "spawn_operation_id" (lr_payload r) = Some op).

Definition record_agent_outcome (s : Runtime) (o : O) (now : Z) (re : AgentSpawnReservation)
    (res : SubAgentResult) : Runtime * O * result unit RuntimeError :=
  let run := ck_run_id (re_key re) in
  let op := ck_spawn_operation_id (re_key re) in
  let child := re_child_agent_id re in
  match List.find (outcome_of op) (reverse (run_records (rt_ledger s) run)) with
  | Some record =>
      match read_agent_outcome_record o run (lr_payload record) with
      | Err e => (s, o, Err e)
      | Ok (existing, _) =>
          if value_eqb (to_value existing) (to_value res) then (s, o, Ok tt)
          else (s, o, Err (RtOther "spawn already has a different terminal Agent outcome"))
      end
  | None =>
      let serialized := encode_agent_outcome_body res in
      match write_named o run serialized with
      | (o, Err e) => (s, o, Err (RtOther e))
      | (o, Ok reference) =>
          let payload := to_value {|
            do_spawn_operation_id := op; do_child_agent_id := child;
            do_status := Some (sr_status res);
            do_outcome_ref := Some {|
              ob_reference := reference; ob_bytes := byte_len serialized;
              ob_digest := stable_digest_bytes sha256 serialized; ob_run_id := Some run;
              ob_status := Some (sr_status res) |};
            do_result := Some (agent_outcome_projection res) |} in
          match agent_get (rt_agents s) child with
          | None => (s, o, Err (RtOther "spawn outcome Agent projection is missing"))
          | Some current =>
              let target := outcome_agent_state res in
              if agent_state_is_terminal (ar_state current) &&
                 bool_decide (ar_state current ≠ target)
              then (s, o, Err (RtOther ("spawn Agent already has a different terminal state: " +:+
                                        agent_state_debug (ar_state current))))
              else
                match rt_append s now run "agent_outcome" payload with
                | (s, Err e) => (s, o, Err e)
                | (s, Ok _) => (set_state s child target, o, Ok tt)
                end
          end
      end
  end.

Definition agent_outcome_by_identity (s : Runtime) (o : O) (run : RunId) (op : OperationId)
    (child : AgentId) : result (option (SubAgentResult * option OutcomeBlobRef)) RuntimeError :=
  match List.find (λ r, outcome_of op r &&
                        bool_decide (get_str "child_agent_id" (lr_payload r) = Some child))
          (reverse (run_records (rt_ledger s) run)) with
  | Some record => rmap Some (read_agent_outcome_record o run (lr_payload record))
  | None => Ok None
  end.

Definition agent_outcome (s : Runtime) (o : O) (re : AgentSpawnReservation) :
    result (option SubAgentResult) RuntimeError :=
  rmap (fmap fst) (agent_outcome_by_identity s o (ck_run_id (re_key re))
                     (ck_spawn_operation_id (re_key re)) (re_child_agent_id re)).
End outcomes.
