(* ===== verification/CollaborationRestore.v ===== *)
(** * The collaboration runtime: recovery

    crates/solaris-agent/src/collaboration_runtime/restore.rs: replaying the
    records of a Run into the registries.  A record that a replay refuses stops
    it; what was restored before stays. *)
From S2P Require Import Prelude Json Types TaskRegistry RuntimeLedger WorkflowTypes Identity Registries LedgerInterface MessageBus CollaborationTypes CollaborationRuntime CollaborationTasks CollaborationSpawn.

(** Tasks of Teams that the records have not completed yet. *)
Definition Deferred : Type := gmap TaskId TaskRecord.

(** The loop keeps the runtime and the deferred tasks. *)
Abbreviation progress := (Runtime * Deferred)%type (only parsing).
Abbreviation replay A := (Runtime * Deferred * result A RuntimeError)%type (only parsing).

Definition unit_ok (s : Runtime) (d : Deferred) : replay unit := (s, d, Ok tt).

(** ** Agents *)

Definition restore_spawn_intent (s : Runtime) (run : RunId) (p : Value) : Runtime :=
  match get_str "parent_agent_id" p, get_str "child_agent_id" p with
  | Some parent, Some child =>
      set_agents s (agent_upsert (rt_agents s) (reserved_agent run parent child))
  | _, _ => s
  end.

(** The Agent of a relationship whose intent is missing. *)
Definition active_agent (r : AgentRelationship) : AgentRecord :=
  {| ar_run_id := rl_run_id r; ar_agent_id := rl_child_agent_id r; ar_team_id := None;
     ar_parent_agent_id := Some (rl_parent_agent_id r); ar_state := AgActive |}.

Definition restore_spawn_committed (s : Runtime) (p : Value) : Runtime :=
  match from_value (A := AgentRelationship) p with
  | None => s
  | Some r =>
      let s := put_relationship s r in
      match agent_get (rt_agents s) (rl_child_agent_id r) with
      | None => set_agents s (agent_upsert (rt_agents s) (active_agent r))
      | Some agent =>
          if agent_state_is_terminal (ar_state agent) then s
          else set_state s (rl_child_agent_id r) AgActive
      end
  end.

Definition restore_spawn_retry (s : Runtime) (p : Value) : Runtime :=
  match from_value (A := AgentRelationship) p with
  | None => s
  | Some r => set_state (put_relationship s r) (rl_child_agent_id r) AgActive
  end.

Definition restore_spawn_cancelled (s : Runtime) (p : Value) : Runtime :=
  match get_str "child_agent_id" p with
  | None => s
  | Some child => set_state (leave_own_team s (get_str "team_id" p) child) child AgCancelled
  end.

Definition restore_outcome (s : Runtime) (p : Value) : Runtime :=
  match get_str "child_agent_id" p, (v ← get "result" p; from_value (A := SubAgentResult) v) with
  | Some child, Some r => set_state s child (outcome_agent_state r)
  | _, _ => s
  end.

Definition restore_state_changed (s : Runtime) (p : Value) : Runtime :=
  match get_str "agent_id" p, (v ← get "state" p; from_value (A := AgentLifecycleState) v) with
  | Some id, Some st => set_state s id st
  | _, _ => s
  end.

(** The Agent is removed unless the record gives another disposition. *)
Definition restore_spawn_aborted (s : Runtime) (p : Value) : Runtime :=
  let removed := match get_str "disposition" p with
                 | Some v => bool_decide (v = "removed") | None => true end in
  let s := match get_str "child_agent_id" p with
           | Some child => if removed then set_agents s (agent_remove (rt_agents s) child).1 else s
           | None => s
           end in
  match get_str "team_id" p, get_str "child_agent_id" p with
  | Some team_id, Some child => leave_team s (Some team_id) child
  | _, _ => s
  end.

(** ** Teams *)

Definition restored_incompatible (team_id : TeamId) : RuntimeError :=
  RtOther ("team " +:+ team_id +:+ " has incompatible restored collaboration metadata").

Definition restore_team_created (s : Runtime) (p : Value) : outcome unit :=
  match from_value (A := TeamRecord) p with
  | None => (s, Ok tt)
  | Some team =>
      slift s (lift_limits team) (λ _,
      slift s (ensure (match team_get (rt_teams s) (tm_team_id team) with
                       | Some existing => compatible_team existing team | None => true end)
                 (restored_incompatible (tm_team_id team))) (λ _,
      (create_missing s team, Ok tt)))
  end.

Definition payload_part {A} `{Serde A} (p : Value) (part error : string) :
    result (list A) RuntimeError :=
  ok_or (list_from_value from_value (default (VArray []) (get part p))) (RtOther error).

(** The Teams of a preparation, checked one by one; [subject] and [what] begin
    the messages. *)
Definition restore_batch_team (s : Runtime) (run : RunId) (subject what : string)
    (acc : gmap TeamId TeamRecord) (team : TeamRecord) :
    result (gmap TeamId TeamRecord) RuntimeError :=
  lift_limits team ;;?
  ensure (bool_decide (tm_run_id team = run)) (RtOther (subject +:+ " belongs to a different Run")) ;;?
  ensure (team_matches (team_get (rt_teams s) (tm_team_id team)) team)
    (restored_incompatible (tm_team_id team)) ;;?
  ensure (match acc !! tm_team_id team with
          | Some previous => bool_decide (previous = team) | None => true end)
    (RtOther (what +:+ " contains conflicting Team " +:+ tm_team_id team +:+ " metadata")) ;;?
  Ok (<[tm_team_id team := team]> acc).

Definition restore_batch_member (s : Runtime) (run : RunId) (what : string)
    (batch_teams : gmap TeamId TeamRecord) (m : TeamId * AgentId) : result unit RuntimeError :=
  ensure (bool_decide (team_get (rt_teams s) m.1 ≠ None ∨ batch_teams !! m.1 ≠ None))
    (RtOther (what +:+ " membership references unknown Team " +:+ m.1)) ;;?
  let? agent := ok_or (agent_get (rt_agents s) m.2)
                  (RtOther (what +:+ " membership references unknown Agent " +:+ m.2)) in
  ensure (bool_decide (ar_run_id agent = run))
    (RtOther (what +:+ " membership Agent belongs to a different Run")).

Definition restore_team_prepared (s : Runtime) (run : RunId) (p : Value) : outcome unit :=
  slift s (payload_part p "teams" "invalid collaboration Team preparation") (λ teams,
  slift s (payload_part p "memberships" "invalid collaboration Team memberships") (λ memberships,
  slift s (ensure (match (v ← get "tasks" p; as_array v) with
                   | Some (_ :: _) => false | _ => true end)
             (RtOther "collaboration Team preparation cannot contain Tasks")) (λ _,
  slift s (fold_result (restore_batch_team s run "collaboration Team preparation"
                          "collaboration Team preparation") ∅ teams) (λ batch_teams,
  slift s (for_each (restore_batch_member s run "collaboration Team" batch_teams) memberships) (λ _,
  (fold_left join_member memberships (fold_left create_missing teams s), Ok tt)))))).

(** Whether [a] is in the Team, already or through the batch. *)
Definition batch_membership (s : Runtime) (memberships : list (TeamId * AgentId)) (team_id : TeamId)
    (a : AgentId) : bool :=
  has_member (team_get (rt_teams s) team_id) a || bool_decide ((team_id, a) ∈ memberships).

(** The owner of a Team task of a batch. *)
Definition restore_batch_owner (s : Runtime) (run : RunId) (memberships : list (TeamId * AgentId))
    (team_id : TeamId) (task : TaskRecord) (what : string) (owner : AgentId) :
    result unit RuntimeError :=
  let prefix := "collaboration batch Task " +:+ tr_task_id task in
  let? agent := ok_or (agent_get (rt_agents s) owner)
                  (RtOther (prefix +:+ what +:+ " " +:+ owner +:+ " is unknown")) in
  ensure (bool_decide (ar_run_id agent = run) && batch_membership s memberships team_id owner)
    (RtOther (prefix +:+ what +:+ " is not a Team member in the Run")).

Definition restore_batch_team_task (s : Runtime) (run : RunId) (batch_teams : gmap TeamId TeamRecord)
    (memberships : list (TeamId * AgentId)) (task : TaskRecord) (team_id : TeamId) :
    result unit RuntimeError :=
  let id := tr_task_id task in
  let? team := ok_or (match team_get (rt_teams s) team_id with
                      | Some t => Some t | None => batch_teams !! team_id end)
                 (RtOther ("collaboration batch Task " +:+ id +:+ " references unknown Team " +:+
                           team_id)) in
  let? coordinator := ok_or (tm_coordinator team)
                        (RtOther ("collaboration batch Team Task " +:+ id +:+ " has no coordinator")) in
  ensure (batch_membership s memberships team_id coordinator)
    (RtOther ("collaboration batch Task " +:+ id +:+ " Team coordinator is not a member")) ;;?
  match tr_state task with
  | Created =>
      Err (RtOther ("collaboration batch Team Task " +:+ id +:+ " cannot remain in Created state"))
  | Queued =>
      ensure (bool_decide (tr_owner_agent_id task = None))
        (RtOther ("collaboration batch Queued Team Task " +:+ id +:+ " must not have an owner"))
  | Assigned | Running =>
      let? owner := ok_or (tr_owner_agent_id task)
                      (RtOther ("collaboration batch " +:+ task_state_debug (tr_state task) +:+
                                " Team Task " +:+ id +:+ " has no owner")) in
      restore_batch_owner s run memberships team_id task " owner" owner
  | Completed | Failed | Cancelled | Skipped =>
      match tr_owner_agent_id task with
      | Some owner => restore_batch_owner s run memberships team_id task " historical owner" owner
      | None => Ok tt
      end
  end.

Definition restore_batch_task (s : Runtime) (d : Deferred) (run : RunId)
    (batch_teams : gmap TeamId TeamRecord) (memberships : list (TeamId * AgentId))
    (task : TaskRecord) : result unit RuntimeError :=
  let id := tr_task_id task in
  ensure (bool_decide (tr_run_id task = run))
    (RtOther "collaboration batch Task belongs to a different Run") ;;?
  let? durable := ok_or (match d !! id with Some t => Some t | None => get_task (rt_tasks s) id end)
                    (RtOther ("collaboration batch Task " +:+ id +:+
                              " has no matching durable task_created record")) in
  ensure (task_record_eqb durable task)
    (RtOther ("collaboration batch Task " +:+ id +:+ " metadata does not match task_created")) ;;?
  match tr_team_id task with
  | Some team_id => restore_batch_team_task s run batch_teams memberships task team_id
  | None => Ok tt
  end.

(** [deferred_team_tasks.remove(id); self.tasks.upsert(task)]. *)
Definition restore_task (sd : progress) (task : TaskRecord) : progress :=
  (set_tasks sd.1 (upsert (rt_tasks sd.1) task), delete (tr_task_id task) sd.2).

Definition restore_batch_prepared (s : Runtime) (d : Deferred) (run : RunId) (p : Value) :
    replay unit :=
  slift (s, d) (payload_part p "teams" "invalid collaboration batch teams") (λ teams,
  slift (s, d) (payload_part p "memberships" "invalid collaboration batch memberships")
    (λ memberships,
  slift (s, d) (payload_part p "tasks" "invalid collaboration batch tasks") (λ tasks,
  slift (s, d) (fold_result (restore_batch_team s run "collaboration batch Team"
                               "collaboration batch") ∅ teams) (λ batch_teams,
  slift (s, d) (for_each (restore_batch_member s run "collaboration batch" batch_teams) memberships) (λ _,
  slift (s, d) (for_each (restore_batch_task s d run batch_teams memberships) tasks) (λ _,
  let s := fold_left join_member memberships (fold_left create_missing teams s) in
  (fold_left restore_task tasks (s, d), Ok tt))))))).

Definition restore_member_joined (s : Runtime) (p : Value) : Runtime :=
  match get_str "team_id" p, get_str "agent_id" p with
  | Some team_id, Some agent => join_member s (team_id, agent)
  | _, _ => s
  end.

(** ** Tasks *)

(** The members of a task that no change touches. *)
Definition task_immutable_metadata_matches (a b : TaskRecord) : bool :=
  bool_decide (tr_run_id a = tr_run_id b) && bool_decide (tr_task_id a = tr_task_id b) &&
  bool_decide (tr_task_key a = tr_task_key b) && bool_decide (tr_team_id a = tr_team_id b) &&
  bool_decide (tr_workflow_id a = tr_workflow_id b) && bool_decide (tr_node_id a = tr_node_id b) &&
  bool_decide (tr_role a = tr_role b) && bool_decide (tr_depends_on a = tr_depends_on b) &&
  option_eqb value_eqb (tr_content a) (tr_content b) &&
  bool_decide (tr_expected_write_scope a = tr_expected_write_scope b).

Definition validate_intrinsic_task_identity (t : TaskRecord) : result unit RuntimeError :=
  match tr_workflow_id t, tr_node_id t with
  | Some workflow, Some node =>
      ensure (bool_decide (tr_task_id t = "workflow:" +:+ tr_run_id t +:+ ":" +:+ node))
        (RtOther "durable workflow task identity does not match its Run and node") ;;?
      ensure (match tr_task_key t with
              | Some key => bool_decide (key = "workflow:" +:+ workflow +:+ ":" +:+ node)
              | None => true
              end) (RtOther "durable workflow task_key does not match workflow identity")
  | Some _, None | None, None => Ok tt
  | None, Some _ => Err (RtOther "durable task_cas record has incomplete workflow identity")
  end.

Definition validate_projected_team_task (s : Runtime) (run : RunId) (t : TaskRecord) :
    result unit RuntimeError :=
  match tr_team_id t with
  | None => Ok tt
  | Some team_id =>
      let? team := ok_or (team_get (rt_teams s) team_id)
                     (RtOther ("restored task references unknown Team " +:+ team_id)) in
      ensure (same_line run (tm_run_id team))
        (RtOther "restored task Team belongs to a different Run lineage") ;;?
      let? coordinator := ok_or (tm_coordinator team)
                            (RtOther "restored Team task has no coordinator") in
      ensure (bool_decide (coordinator ∈ tm_members team))
        (RtOther "restored Team task coordinator is not a Team member") ;;?
      (match tr_owner_agent_id t with
       | Some owner =>
           let? agent := ok_or (agent_get (rt_agents s) owner)
                           (RtOther ("restored Team task owner " +:+ owner +:+ " is unknown")) in
           ensure (same_line run (ar_run_id agent) && bool_decide (owner ∈ tm_members team))
             (RtOther "restored Team task owner does not belong to the task Team/Run")
       | None => Ok tt
       end) ;;?
      match tr_state t with
      | Created => Err (RtOther "restored Team task cannot remain in Created state")
      | Queued => ensure (bool_decide (tr_owner_agent_id t = None))
                    (RtOther "restored Queued Team task must not have an owner")
      | Assigned | Running =>
          ensure (bool_decide (tr_owner_agent_id t ≠ None))
            (RtOther ("restored " +:+ task_state_debug (tr_state t) +:+ " Team task has no owner"))
      | _ => Ok tt
      end
  end.

(** [body.get(k).cloned().map(from_value).transpose()?.flatten()] at an
    [Option]. *)
Definition body_opt {A} `{Serde A} (k : string) (body : list (string * Value)) :
    result (option A) RuntimeError :=
  ok_or (read_opt from_value k body) (RtOther "invalid durable task_cas mutation member").

Definition body_state (body : list (string * Value)) (missing : string) :
    result TaskState RuntimeError :=
  let? v := ok_or (assoc "state" body) (RtOther missing) in
  ok_or (from_value v) (RtOther "invalid durable task_cas mutation state").

Definition mutation_body (transition : string) (mutation : Value) :
    result (list (string * Value)) RuntimeError :=
  let? object := ok_or (match as_object mutation with Some [kv] => Some [kv] | _ => None end)
                   (RtOther "durable task_cas mutation must contain exactly one transition") in
  ok_or (v ← assoc transition object; as_object v)
    (RtOther "durable task_cas transition does not match mutation payload").

Definition mutation_agent (body : list (string * Value)) (field : string) :
    result AgentId RuntimeError :=
  ok_or (v ← assoc field body; as_str v)
    (RtOther ("durable task_cas mutation is missing " +:+ field)).

(** [prior.is_some_and(|record| !p(record))] is an error. *)
Definition follows (prior : option TaskRecord) (p : TaskRecord → bool) (error : string) :
    result unit RuntimeError :=
  ensure (match prior with Some t => p t | None => true end) (RtOther error).

Definition owned_by (t : TaskRecord) (owner : AgentId) : bool :=
  bool_decide (tr_owner_agent_id t = Some owner).

(** The transitions of records written before [expected_task] was. *)
Definition validate_assign (body : list (string * Value)) (prior : option TaskRecord)
    (task : TaskRecord) : result unit RuntimeError :=
  let? owner := mutation_agent body "owner" in
  ensure (bool_decide (tr_state task = Assigned) && owned_by task owner)
    (RtOther "durable assign mutation does not match restored owner and state") ;;?
  follows prior (λ r, bool_decide (tr_state r = Queued ∧ tr_owner_agent_id r = None))
    "durable assign mutation does not follow a Queued unowned task".

Definition validate_mark_running (body : list (string * Value)) (prior : option TaskRecord)
    (task : TaskRecord) : result unit RuntimeError :=
  let? owner := mutation_agent body "owner" in
  ensure (bool_decide (tr_state task = Running) && owned_by task owner)
    (RtOther "durable mark_running mutation does not match restored owner and state") ;;?
  follows prior (λ r, bool_decide (tr_state r = Assigned) && owned_by r owner)
    "durable mark_running mutation does not follow the Assigned owner".

Definition validate_handoff (body : list (string * Value)) (prior : option TaskRecord)
    (task : TaskRecord) : result unit RuntimeError :=
  let? from := mutation_agent body "from" in
  let? to := mutation_agent body "to" in
  ensure (bool_decide (tr_state task = Assigned) && owned_by task to)
    (RtOther "durable handoff mutation does not match restored owner and state") ;;?
  follows prior (λ r, is_assigned_or_running (tr_state r) && owned_by r from)
    "durable handoff mutation does not follow the current owner".

Definition validate_settle (body : list (string * Value)) (prior : option TaskRecord)
    (task : TaskRecord) : result unit RuntimeError :=
  let? owner := mutation_agent body "owner" in
  let? state := body_state body "durable settle mutation is missing state" in
  let? outcome_ref := body_opt "outcome_ref" body in
  let? failure_class := body_opt "failure_class" body in
  ensure (owned_by task owner &&
          bool_decide (tr_state task = state ∧ tr_outcome_ref task = outcome_ref ∧
                       tr_failure_class task = failure_class))
    (RtOther "durable settle mutation does not match restored task outcome") ;;?
  follows prior (λ r, is_assigned_or_running (tr_state r) && owned_by r owner)
    "durable settle mutation does not follow the current owner".

Definition validate_supervisor_retry (body : list (string * Value)) (prior : option TaskRecord)
    (task : TaskRecord) : result unit RuntimeError :=
  let? reason := body_opt "reason" body in
  ensure (bool_decide (tr_workflow_id task = None ∧ tr_state task = Queued ∧
                       tr_owner_agent_id task = None ∧ tr_outcome_ref task = reason ∧
                       tr_failure_class task = None))
    (RtOther "durable supervisor_retry mutation does not match restored direct task state") ;;?
  follows prior (λ r, bool_decide (tr_workflow_id r = None ∧ tr_state r = Failed ∧
                                   tr_owner_agent_id r ≠ None ∧
                                   tr_failure_class r = Some Retryable))
    "durable supervisor_retry mutation does not follow a direct Retryable failure".

Definition validate_workflow_state (body : list (string * Value)) (prior : option TaskRecord)
    (task : TaskRecord) : result unit RuntimeError :=
  let? state := body_state body "durable workflow_state mutation is missing state" in
  let? clear_owner := ok_or (v ← assoc "clear_owner" body; as_bool v)
                        (RtOther "durable workflow_state mutation is missing clear_owner") in
  let? outcome_ref := body_opt "outcome_ref" body in
  let? failure_class := body_opt "failure_class" body in
  ensure (bool_decide (tr_workflow_id task ≠ None ∧ tr_state task = state ∧
                       tr_outcome_ref task = outcome_ref ∧ tr_failure_class task = failure_class) &&
          negb (clear_owner && bool_decide (tr_owner_agent_id task ≠ None)))
    (RtOther "durable workflow_state mutation does not match restored task state") ;;?
  follows prior (λ r, workflow_transition_allowed (tr_state r) state &&
                      negb (bool_decide (tr_state r = Failed) && negb clear_owner))
    "durable workflow_state mutation contains an illegal transition" ;;?
  follows prior (λ r, clear_owner || bool_decide (tr_owner_agent_id task = tr_owner_agent_id r))
    "durable workflow_state mutation changes owner without clear_owner".

Definition validate_task_cas_mutation (transition : string) (mutation : Value)
    (prior : option TaskRecord) (task : TaskRecord) : result unit RuntimeError :=
  let? body := mutation_body transition mutation in
  if decide (transition = "assign") then validate_assign body prior task
  else if decide (transition = "mark_running") then validate_mark_running body prior task
  else if decide (transition = "handoff") then validate_handoff body prior task
  else if decide (transition = "settle") then validate_settle body prior task
  else if decide (transition = "supervisor_retry") then validate_supervisor_retry body prior task
  else if decide (transition = "workflow_state") then validate_workflow_state body prior task
  else Err (RtOther "durable task_cas record has an unknown transition").

Definition tagged (transition : string) (body : list (string * Value)) : Value :=
  VObject [(transition, VObject body)].

Section replay.
Context (sha256 : string → list Byte.byte) (to_vec : Value → string).

Definition digest_of (v : Value) : string := stable_digest_value sha256 to_vec v.

(** The mutation of a record that does not carry one. *)
Definition reconstruct_legacy_mutation (transition digest : string) (prior : option TaskRecord)
    (task : TaskRecord) : result Value RuntimeError :=
  let owner := opt_value (tr_owner_agent_id task) in
  let ends := [("outcome_ref", opt_value (tr_outcome_ref task));
               ("failure_class", opt_value (tr_failure_class task))] in
  let candidate clear_owner :=
    tagged "workflow_state" ([("state", to_value (tr_state task)); ("clear_owner", VBool clear_owner)]
                             ++ ends) in
  if decide (transition = "assign") then Ok (tagged "assign" [("owner", owner)])
  else if decide (transition = "mark_running") then Ok (tagged "mark_running" [("owner", owner)])
  else if decide (transition = "handoff") then
    let? from := ok_or (r ← prior; tr_owner_agent_id r)
                   (RtOther "legacy handoff CAS requires its prior owner projection") in
    Ok (tagged "handoff" [("from", VString from); ("to", owner)])
  else if decide (transition = "settle") then
    Ok (tagged "settle" ([("owner", owner); ("state", to_value (tr_state task))] ++ ends))
  else if decide (transition = "workflow_state") then
    ok_or (List.find (λ c, bool_decide (digest_of c = digest)) [candidate false; candidate true])
      (RtOther "legacy workflow_state CAS mutation digest is invalid")
  else Err (RtOther "legacy task_cas record has an unknown transition").

(** The task a record claims to have been changed, when it has one. *)
Definition check_expected_task (existing : option TaskRecord) (expected_revision : Z)
    (task expected : TaskRecord) : result unit RuntimeError :=
  ensure (bool_decide (tr_revision expected = expected_revision ∧
                       tr_task_id expected = tr_task_id task) &&
          task_immutable_metadata_matches expected task)
    (RtOther "durable task_cas expected_task does not match its revision and immutable identity") ;;?
  validate_intrinsic_task_identity expected ;;?
  ensure (match existing with
          | Some current => negb (bool_decide (tr_revision current = expected_revision) &&
                                  negb (task_record_eqb current expected))
          | None => true
          end)
    (RtOther "durable task_cas expected_task conflicts with the current projection").

Definition at_revision (revision : Z) (t : option TaskRecord) : option TaskRecord :=
  match t with
  | Some t => if decide (tr_revision t = revision) then Some t else None
  | None => None
  end.

Definition lift_task {A} (r : result A TaskError) : result A RuntimeError :=
  match r with Ok a => Ok a | Err e => Err (RtTask e) end.

(** Whether the mutation turns the expected task into the recorded one. *)
Definition check_mutation (transition digest : string) (mutation : Value)
    (expected prior : option TaskRecord) (task : TaskRecord) (new_revision : Z) :
    result unit RuntimeError :=
  ensure (bool_decide (digest_of mutation = digest))
    (RtOther "durable task_cas mutation digest does not match mutation payload") ;;?
  match expected with
  | Some expected =>
      let? typed := ok_or (from_value (A := TaskCasMutation) mutation)
                      (RtOther "invalid durable task_cas mutation") in
      ensure (bool_decide (mutation_name typed = transition))
        (RtOther "durable task_cas transition does not match typed mutation") ;;?
      let? next := lift_task (apply typed expected new_revision) in
      ensure (task_record_eqb next task)
        (RtOther "durable task_cas task does not match mutation applied to expected_task")
  | None => validate_task_cas_mutation transition mutation prior task
  end.

(** The members of a [task_cas] record that identify the change. *)
Record CasHeader : Type := {
  ch_task : TaskRecord;
  ch_operation_id : OperationId;
  ch_transition : string;
  ch_digest : string;
  ch_expected_revision : Z;
  ch_new_revision : Z;
}.

Definition cas_header (r : LedgerRecord) : result CasHeader RuntimeError :=
  let p := lr_payload r in
  let? v := ok_or (get "task" p) (RtOther "durable task_cas record is missing task payload") in
  let? task := ok_or (from_value (A := TaskRecord) v) (RtOther "invalid task_cas task") in
  let? outer := ok_or (get_str "task_id" p)
                  (RtOther "durable task_cas record is missing task_id") in
  ensure (bool_decide (outer = tr_task_id task))
    (RtOther "durable task_cas outer task_id does not match task payload") ;;?
  let? op := ok_or (o ← get_str "operation_id" p; if trim_is_empty o then None else Some o)
               (RtOther "durable task_cas record has invalid operation_id") in
  let? transition := ok_or (get_str "transition" p)
                       (RtOther "durable task_cas record is missing transition") in
  let? digest := ok_or (d ← get_str "mutation_digest" p; if decide (d = "") then None else Some d)
                   (RtOther "durable task_cas record has invalid mutation_digest") in
  let? expected := ok_or (get_u64 "expected_revision" p)
                     (RtOther "durable task_cas record is missing expected_revision") in
  let? new := ok_or (get_u64 "new_revision" p)
                (RtOther "durable task_cas record is missing new_revision") in
  Ok {| ch_task := task; ch_operation_id := op; ch_transition := transition; ch_digest := digest;
        ch_expected_revision := expected; ch_new_revision := new |}.

Definition restore_task_cas_record (s : Runtime) (r : LedgerRecord) : outcome TaskRecord :=
  let p := lr_payload r in
  slift s (cas_header r) (λ h,
  let task := ch_task h in
  slift s (ensure (bool_decide (tr_revision task = ch_new_revision h ∧
                                checked_add (ch_expected_revision h) 1 = Some (ch_new_revision h)))
             (RtOther "invalid durable task CAS revision pair")) (λ _,
  slift s (ensure (same_line (lr_run_id r) (tr_run_id task))
             (RtOther "durable task_cas record belongs to a different mutation lineage")) (λ _,
  slift s (validate_intrinsic_task_identity task) (λ _,
  let existing := get_task (rt_tasks s) (tr_task_id task) in
  slift s (ensure (match existing with
                   | Some t => task_immutable_metadata_matches t task | None => true end)
             (RtOther "durable task_cas record changes immutable task identity")) (λ _,
  slift s (match get "expected_task" p with
           | Some v => rmap Some (ok_or (from_value (A := TaskRecord) v)
                                    (RtOther "invalid task_cas expected_task"))
           | None => Ok None
           end) (λ expected,
  let durable_mutation := get "mutation" p in
  slift s (ensure (bool_decide (expected = None ↔ durable_mutation = None))
             (RtOther "durable task_cas expected_task and mutation must appear together")) (λ _,
  slift s (match expected with
           | Some e => check_expected_task existing (ch_expected_revision h) task e
           | None => Ok tt
           end) (λ _,
  let prior := match expected with
               | Some e => Some e
               | None => at_revision (ch_expected_revision h) existing
               end in
  slift s (match durable_mutation with
           | Some m => Ok m
           | None => reconstruct_legacy_mutation (ch_transition h) (ch_digest h) prior task
           end) (λ mutation,
  slift s (check_mutation (ch_transition h) (ch_digest h) mutation expected prior task
             (ch_new_revision h)) (λ _,
  slift s (validate_projected_team_task s (tr_run_id task) task) (λ _,
  match restore_cas (rt_tasks s) task (ch_operation_id h) (ch_digest h) (ch_expected_revision h)
          (ch_new_revision h) with
  | (t, Ok _) => (set_tasks s t, Ok task)
  | (t, Err e) => (set_tasks s t, Err (RtTask e))
  end))))))))))).

(** Whether the Team of a created task is complete: its coordinator and the
    owner of the task are members of the lineage. *)
Definition team_ready (s : Runtime) (run : RunId) (team_id : TeamId) (task : TaskRecord) : bool :=
  match team_get (rt_teams s) team_id with
  | None => false
  | Some team =>
      same_line (tm_run_id team) run &&
      match tm_coordinator team with
      | Some coordinator => bool_decide (coordinator ∈ tm_members team) | None => false end &&
      match tr_owner_agent_id task with
      | None => true
      | Some owner =>
          match agent_get (rt_agents s) owner with
          | Some agent =>
              same_line (ar_run_id agent) run && bool_decide (owner ∈ tm_members team)
          | None => false
          end
      end
  end.

Definition restore_task_created (s : Runtime) (d : Deferred) (run : RunId) (p : Value) :
    replay unit :=
  slift (s, d) (ok_or (from_value (A := TaskRecord) p) (RtOther "invalid task_created payload"))
    (λ task,
  let id := tr_task_id task in
  let owner := tr_owner_agent_id task in
  match tr_team_id task with
  | None => (set_tasks s (upsert (rt_tasks s) task), d, Ok tt)
  | Some team_id =>
      slift (s, d)
        (match tr_state task with
         | Created =>
             Err (RtOther ("team Task " +:+ id +:+ " cannot be restored in Created state"))
         | Queued => ensure (bool_decide (owner = None))
                       (RtOther ("Queued team Task " +:+ id +:+ " cannot carry an owner"))
         | Assigned | Running =>
             ensure (bool_decide (owner ≠ None))
               (RtOther (task_state_debug (tr_state task) +:+ " team Task " +:+ id +:+
                         " has no owner"))
         | _ => Ok tt
         end) (λ _,
      if team_ready s run team_id task then (set_tasks s (upsert (rt_tasks s) task), d, Ok tt)
      else
        let d' := <[id := task]> d in
        match d !! id with
        | Some previous =>
            if task_record_eqb previous task then (s, d', Ok tt)
            else (s, d', Err (RtOther ("team Task " +:+ id +:+
                                       " has conflicting durable task_created metadata")))
        | None => (s, d', Ok tt)
        end)
  end).

Definition restore_legacy_assignment_record (s : Runtime) (r : LedgerRecord) : outcome unit :=
  let p := lr_payload r in
  let assigned := bool_decide (lr_record_type r = "task_assigned") in
  slift s (ok_or (get_str "task_id" p) (RtOther "legacy task assignment is missing task_id"))
    (λ task_id,
  slift s (ok_or (get_str (if assigned then "agent_id" else "to") p)
             (RtOther "legacy task assignment is missing owner")) (λ owner,
  slift s (ok_or (get_task (rt_tasks s) task_id)
             (RtOther ("legacy task assignment references unknown task: " +:+ task_id))) (λ current,
  slift s (ensure (same_line (lr_run_id r) (tr_run_id current))
             (RtOther "legacy task assignment belongs to a different mutation lineage")) (λ _,
  if decide (tr_state current = Assigned ∧ tr_owner_agent_id current = Some owner) then (s, Ok tt)
  else
    slift s
      (if assigned then
         ensure (bool_decide (tr_state current = Queued ∧ tr_owner_agent_id current = None))
           (RtOther "legacy task assignment cannot overwrite an existing owner")
       else
         let? from := ok_or (get_str "from" p)
                        (RtOther "legacy task handoff is missing prior owner") in
         ensure (is_assigned_or_running (tr_state current) && owned_by current from)
           (RtOther "legacy task handoff does not match the current owner")) (λ _,
    (set_tasks s (restore_legacy_assign (rt_tasks s) task_id owner), Ok tt)))))).

Definition restore_task_settled (s : Runtime) (p : Value) : Runtime :=
  match get_str "task_id" p, (v ← get "state" p; from_value (A := TaskState) v) with
  | Some id, Some st => set_tasks s (restore_legacy_state (rt_tasks s) id st)
  | _, _ => s
  end.

(** ** The loop *)

Definition keeps (d : Deferred) (c : outcome unit) : replay unit := (c.1, d, c.2).

Definition is_message_record (ty : string) : bool :=
  bool_decide (ty ∈ ["message_delivered"; "messages_broadcast"; "message_acknowledged";
                     "messages_claimed"; "messages_dequeued"]).

(** One record of [restore_projection_locked].  The arms for messages are
    [restore_record] of the bus. *)
Definition restore_one (s : Runtime) (d : Deferred) (run : RunId) (r : LedgerRecord) : replay unit :=
  let ty := lr_record_type r in
  let p := lr_payload r in
  if decide (ty = "agent_spawn_intent") then unit_ok (restore_spawn_intent s run p) d
  else if decide (ty = "agent_spawn_committed") then unit_ok (restore_spawn_committed s p) d
  else if decide (ty = "agent_spawn_retry_started") then unit_ok (restore_spawn_retry s p) d
  else if decide (ty = "agent_spawn_cancelled") then unit_ok (restore_spawn_cancelled s p) d
  else if decide (ty = "agent_outcome") then unit_ok (restore_outcome s p) d
  else if decide (ty = "agent_state_changed") then unit_ok (restore_state_changed s p) d
  else if decide (ty = "agent_spawn_aborted") then unit_ok (restore_spawn_aborted s p) d
  else if decide (ty = "team_created") then keeps d (restore_team_created s p)
  else if decide (ty = "collaboration_team_prepared") then keeps d (restore_team_prepared s run p)
  else if decide (ty = "collaboration_batch_prepared") then restore_batch_prepared s d run p
  else if decide (ty = "team_member_joined") then unit_ok (restore_member_joined s p) d
  else if decide (ty = "team_fact_set") then
    unit_ok (match from_value (A := TeamFact) p with
             | Some f => set_team_state s (set_fact (rt_team_state s) f).1 | None => s end) d
  else if decide (ty = "artifact_registered") then
    unit_ok (match from_value (A := ArtifactRef) p with
             | Some a => set_team_state s (put_artifact (rt_team_state s) a) | None => s end) d
  else if is_message_record ty then
    match restore_record (rt_box s) r with
    | Some b => unit_ok (set_box s b) d
    | None => (s, d, Err (RtOther "invalid durable broadcast"))
    end
  else if decide (ty = "task_created") then restore_task_created s d run p
  else if decide (ty = "task_assigned" ∨ ty = "task_handoff") then
    keeps d (restore_legacy_assignment_record s r)
  else if decide (ty = "task_settled") then unit_ok (restore_task_settled s p) d
  else if decide (ty = "task_cas") then
    match restore_task_cas_record s r with
    | (s, Ok _) => unit_ok s d
    | (s, Err e) => (s, d, Err e)
    end
  else unit_ok s d.

Fixpoint restore_all (s : Runtime) (d : Deferred) (run : RunId) (rs : list LedgerRecord) :
    replay unit :=
  match rs with
  | [] => unit_ok s d
  | r :: rs =>
      match restore_one s d run r with
      | (s, d, Ok _) => restore_all s d run rs
      | (s, d, Err e) => (s, d, Err e)
      end
  end.

(** [restore_projection].  The deferred task an error names is any one of
    them. *)
Definition restore_projection (s : Runtime) (run : RunId) : outcome unit :=
  match restore_all s ∅ run (run_records (rt_ledger s) run) with
  | (s, d, Ok _) =>
      match map_to_list d with
      | [] => (s, Ok tt)
      | (id, task) :: _ =>
          (s, Err (RtOther ("team Task " +:+ id +:+ " references Team " +:+
                            default "<missing>" (tr_team_id task) +:+
                            " without an atomic collaboration batch")))
      end
  | (s, _, Err e) => (s, Err e)
  end.

(** ** One task across the Runs of a lineage *)

Definition names_task (task_id : TaskId) (r : LedgerRecord) : bool :=
  bool_decide (lr_record_type r = "task_cas") &&
  bool_decide (get_str "task_id" (lr_payload r) = Some task_id).

Definition lineage_records (l : InMemoryLedgerState) (run : RunId) (task_id : TaskId) :
    list LedgerRecord :=
  merge_sort seq_le
    (concat ((λ id, List.filter (names_task task_id) (run_records l id)) <$>
             List.filter (same_line run) (merge_sort String.le (map_to_list (ls_records l)).*1))).

Fixpoint replay_operation (s : Runtime) (op : option OperationId) (found : option TaskRecord)
    (rs : list LedgerRecord) : outcome (option TaskRecord) :=
  match rs with
  | [] => (s, Ok found)
  | r :: rs =>
      sbind (restore_task_cas_record s r) (λ s restored,
      let matches := bool_decide (op ≠ None ∧ get_str "operation_id" (lr_payload r) = op) in
      if matches && match found with
                    | Some existing => negb (task_record_eqb existing restored) | None => false end
      then (s, Err (RtOther "durable task operation has conflicting task results"))
      else replay_operation s op (if matches then Some restored else found) rs)
  end.

(** [restore_task_projection_and_operation_across_lineage_locked]. *)
Definition restore_task_across_lineage (s : Runtime) (task_id : TaskId) (op : option OperationId) :
    outcome (bool * option TaskRecord) :=
  slift s (ok_or (get_task (rt_tasks s) task_id) (unknown_task task_id)) (λ task,
  let records := lineage_records (rt_ledger s) (tr_run_id task) task_id in
  sbind (replay_operation s op None records) (λ s found,
  (s, Ok (bool_decide (records ≠ []), found)))).

Definition restore_task_projection_across_lineage (s : Runtime) (task_id : TaskId) : outcome bool :=
  sbind (restore_task_across_lineage s task_id None) (λ s '(found, _), (s, Ok found)).

Definition restore_task_operation_across_lineage (s : Runtime) (task_id : TaskId)
    (op : OperationId) : outcome (bool * option TaskRecord) :=
  restore_task_across_lineage s task_id (Some op).
End replay.
