(* ===== verification/CollaborationHistory.v ===== *)
(** * Histories of a collaboration runtime, and their invariant

    The operations of the collaboration runtime on one Run as one type, what
    each does to the runtime, and the histories they make; then what holds
    between the registries and the records of a Run along every history, and how
    the updates of the operations keep it. *)
From S2P Require Import ResourceTypes Prelude Json Types TaskRegistry RuntimeLedger LedgerFacts Identity WorkflowTypes Registries LedgerInterface MessageBus BusFacts CollaborationTypes CollaborationRuntime CollaborationTasks CollaborationSpawn CollaborationRestore.

(** ** Operations *)

(** One constructor per operation that changes state, with its arguments; the
    Run and the clock are those of the call.  [OpRecord] is a record of another
    component, [OpClaim] and [OpDrain] are calls on the message bus itself. *)
Inductive runtime_op (O : Type) : Type :=
  | OpCreateTeam (team : TeamId) (name : string) (strategy : CollaborationStrategy)
      (coordinator : option AgentId)
  | OpEnsureTeam (name : string) (c : AgentCollaborationContext)
  | OpPrepareTeam (child : AgentId) (c : AgentCollaborationContext)
  | OpPrepareTasks (c : AgentCollaborationContext) (max : Z) (tasks : list TaskRecord)
  | OpPrepareMembership (child : AgentId) (c : AgentCollaborationContext)
  | OpPrepareSpawn (handles : list (AgentHandle * bool)) (max : Z)
  | OpJoinTeam (team : TeamId) (agent : AgentId)
  | OpSetFact (team : TeamId) (by_agent : AgentId) (key : string) (value : Value)
  | OpRegisterArtifact (uuid : string) (team : option TeamId) (agent : AgentId) (uri kind : string)
      (metadata : Value)
  | OpSend (uuid : string) (team : option TeamId) (from to : AgentId) (kind : string) (body : Value)
  | OpSendWithId (id : string) (team : option TeamId) (from to : AgentId) (kind : string)
      (body : Value)
  | OpBroadcast (uuid : string) (team : TeamId) (from : AgentId) (kind : string) (body : Value)
  | OpBroadcastWithId (id : string) (team : TeamId) (from : AgentId) (kind : string) (body : Value)
  | OpAcknowledge (agent : AgentId) (id : string)
  | OpClaim (agent : AgentId) (claim_id : string)
  | OpDrain (agent : AgentId)
  | OpRegisterTask (task : TaskRecord)
  | OpAdmitTasks (max : Z) (tasks : list TaskRecord)
  | OpCreateTask (team : TeamId) (by_agent : AgentId) (max : Z) (task : TaskRecord)
  | OpSettle (task : TaskId) (agent : AgentId) (revision : Z) (op : OperationId) (state : TaskState)
      (outcome_ref : option string) (failure : option TaskFailureClass)
  | OpSkip (task : TaskId) (revision : Z) (op : OperationId) (reason : string)
  | OpRequeue (task : TaskId) (coordinator : AgentId) (revision : Z) (op : OperationId)
      (reason : string)
  | OpCancelTask (task : TaskId) (coordinator : AgentId) (revision : Z) (op : OperationId)
  | OpHandoff (task : TaskId) (from to : AgentId) (revision : Z) (op : OperationId)
  | OpAssign (task : TaskId) (agent : AgentId) (revision : Z) (op : OperationId)
  | OpMarkRunning (task : TaskId) (agent : AgentId) (revision : Z) (op : OperationId)
  | OpReserve (parent : AgentId) (role key : string) (op : OperationId)
      (ceiling requested : PermissionCeiling)
  | OpCommit (re : AgentSpawnReservation)
  | OpSetState (agent : AgentId) (state : AgentLifecycleState)
  | OpCancelSpawn (re : AgentSpawnReservation) (reason : string)
  | OpAbortSpawn (re : AgentSpawnReservation) (reason : string)
  | OpOutcome (store : O) (re : AgentSpawnReservation) (res : SubAgentResult)
  | OpHandle (op : OperationId) (spec_digest : string) (handle : Value)
  | OpRecord (other : RunId) (durability : DurabilityClass) (ty : string) (payload : Value).
Arguments OpCreateTeam {O} _ _ _ _.
Arguments OpEnsureTeam {O} _ _.
Arguments OpPrepareTeam {O} _ _.
Arguments OpPrepareTasks {O} _ _ _.
Arguments OpPrepareMembership {O} _ _.
Arguments OpPrepareSpawn {O} _ _.
Arguments OpJoinTeam {O} _ _.
Arguments OpSetFact {O} _ _ _ _.
Arguments OpRegisterArtifact {O} _ _ _ _ _ _.
Arguments OpSend {O} _ _ _ _ _ _.
Arguments OpSendWithId {O} _ _ _ _ _ _.
Arguments OpBroadcast {O} _ _ _ _ _.
Arguments OpBroadcastWithId {O} _ _ _ _ _.
Arguments OpAcknowledge {O} _ _.
Arguments OpClaim {O} _ _.
Arguments OpDrain {O} _.
Arguments OpRegisterTask {O} _.
Arguments OpAdmitTasks {O} _ _.
Arguments OpCreateTask {O} _ _ _ _.
Arguments OpSettle {O} _ _ _ _ _ _ _.
Arguments OpSkip {O} _ _ _ _.
Arguments OpRequeue {O} _ _ _ _ _.
Arguments OpCancelTask {O} _ _ _ _.
Arguments OpHandoff {O} _ _ _ _ _.
Arguments OpAssign {O} _ _ _ _.
Arguments OpMarkRunning {O} _ _ _ _.
Arguments OpReserve {O} _ _ _ _ _ _.
Arguments OpCommit {O} _.
Arguments OpSetState {O} _ _.
Arguments OpCancelSpawn {O} _ _.
Arguments OpAbortSpawn {O} _ _.
Arguments OpOutcome {O} _ _ _.
Arguments OpHandle {O} _ _ _.
Arguments OpRecord {O} _ _ _ _.

(** The state a call leaves and whether it succeeded. *)
Definition done_as {A} (c : outcome A) : Runtime * bool := (c.1, is_ok c.2).

Section history.
Context (sha256 : string → list Byte.byte) (to_vec to_string : Value → string).
Context (from_str : string → option Value).
Context {O : Type} (write_named : O → RunId → string → O * result string string).
Context (read_named : O → RunId → string → result string string).
Context (run : RunId).

Definition run_op (now : Z) (op : runtime_op O) (s : Runtime) : Runtime * bool :=
  match op with
  | OpCreateTeam team name strategy coordinator =>
      done_as (create_collaboration_team s now run team name strategy coordinator)
  | OpEnsureTeam name c => done_as (ensure_collaboration_team s now run name c)
  | OpPrepareTeam child c => done_as (prepare_collaboration_team s now run child c)
  | OpPrepareTasks c max tasks => done_as (prepare_collaboration_task_batch s now run c max tasks)
  | OpPrepareMembership child c => done_as (prepare_collaboration_membership s now run child c)
  | OpPrepareSpawn handles max => done_as (prepare_spawn_batch s now run handles max)
  | OpJoinTeam team agent => done_as (join_team s now run team agent)
  | OpSetFact team by_agent key value => done_as (set_team_fact s now run team by_agent key value)
  | OpRegisterArtifact uuid team agent uri kind metadata =>
      done_as (register_team_artifact s now uuid run team agent uri kind metadata)
  | OpSend uuid team from to kind body =>
      done_as (send_message to_vec s now uuid run team from to kind body)
  | OpSendWithId id team from to kind body =>
      done_as (send_message_with_id to_vec s now id run team from to kind body)
  | OpBroadcast uuid team from kind body =>
      done_as (broadcast_team_message to_vec s now uuid run team from kind body)
  | OpBroadcastWithId id team from kind body =>
      done_as (broadcast_message_with_id to_vec s now id run team from kind body)
  | OpAcknowledge agent id => done_as (acknowledge_message s now run agent id)
  | OpClaim agent claim_id => done_as (with_bus s (claim (rt_bus s) (rt_registry s) now run agent claim_id))
  | OpDrain agent => done_as (with_bus s (drain (rt_bus s) (rt_registry s) now run agent))
  | OpRegisterTask task => done_as (register_runtime_task s now run task)
  | OpAdmitTasks max tasks => done_as (admit_runtime_tasks s now run max tasks)
  | OpCreateTask team by_agent max task =>
      done_as (create_collaboration_task s now run team by_agent max task)
  | OpSettle task agent revision op state outcome_ref failure =>
      done_as (settle_collaboration_task sha256 to_vec s now run task agent revision op state
                 outcome_ref failure)
  | OpSkip task revision op reason =>
      done_as (skip_collaboration_task sha256 to_vec s now run task revision op reason)
  | OpRequeue task coordinator revision op reason =>
      done_as (requeue_supervisor_task sha256 to_vec s now run task coordinator revision op reason)
  | OpCancelTask task coordinator revision op =>
      done_as (cancel_supervisor_workflow_task sha256 to_vec s now run task coordinator revision op)
  | OpHandoff task from to revision op =>
      done_as (handoff_task sha256 to_vec s now run task from to revision op)
  | OpAssign task agent revision op =>
      done_as (assign_task_owner sha256 to_vec s now run task agent revision op)
  | OpMarkRunning task agent revision op =>
      done_as (mark_task_running sha256 to_vec s now run task agent revision op)
  | OpReserve parent role key op ceiling requested =>
      done_as (reserve_spawn_typed sha256 s now run parent role key op ceiling requested)
  | OpCommit re => done_as (commit_spawn sha256 s now re)
  | OpSetState agent state => done_as (set_agent_state s now run agent state)
  | OpCancelSpawn re reason => done_as (cancel_spawn s now re reason)
  | OpAbortSpawn re reason => done_as (abort_spawn s now re reason)
  | OpOutcome store re res =>
      let c := record_agent_outcome sha256 to_string from_str write_named read_named s store now re res in
      (c.1.1, is_ok c.2)
  | OpHandle op spec_digest handle => done_as (record_agent_handle s now run op spec_digest handle)
  | OpRecord other durability ty payload => done_as (commit_record s now other durability ty payload)
  end.

(** ** Histories *)

(** The record types a recovery reads. *)
Definition replay_types : list string :=
  ["agent_spawn_intent"; "agent_spawn_committed"; "agent_spawn_retry_started";
   "agent_spawn_cancelled"; "agent_outcome"; "agent_state_changed"; "agent_spawn_aborted";
   "team_created"; "collaboration_team_prepared"; "collaboration_batch_prepared";
   "team_member_joined"; "team_fact_set"; "artifact_registered"; "message_delivered";
   "messages_broadcast"; "message_acknowledged"; "messages_claimed"; "messages_dequeued";
   "task_created"; "task_assigned"; "task_handoff"; "task_settled"; "task_cas"].

(** What the types of the arguments guarantee. *)
Definition context_ok (c : AgentCollaborationContext) : Prop :=
  (0 ≤ cc_max_pending_messages c ∧ 0 ≤ cc_max_message_bytes c)%Z.

Definition reservation_ok (re : AgentSpawnReservation) : Prop := ck_run_id (re_key re) = run.

(** A task a caller asks for: a well-formed record with a complete workflow
    identity.  A task asked for again has its JSON content written in the same
    order. *)
Definition task_input_ok (s : Runtime) (t : TaskRecord) : Prop :=
  task_record_ok t ∧ is_ok (validate_intrinsic_task_identity t) = true ∧
  ∀ e, get_task (rt_tasks s) (tr_task_id t) = Some e → task_record_eqb e t = true → e = t.

Definition broadcast_input_ok (s : Runtime) (id : string) (team : TeamId) (from : AgentId)
    (body : Value) : Prop :=
  value_wf body ∧
  ∀ recipients, check_broadcast s run team from = Ok recipients →
    (Z.of_nat (length recipients) ≤ u64_max)%Z ∧ broadcast_id_ok run (rt_bus s) id recipients.

Definition op_ok (s : Runtime) (op : runtime_op O) : Prop :=
  match op with
  | OpCreateTeam _ _ _ _ | OpJoinTeam _ _ | OpAcknowledge _ _ | OpClaim _ _ | OpDrain _
  | OpReserve _ _ _ _ _ _ | OpSetState _ _ | OpHandle _ _ _ => True
  | OpEnsureTeam _ c | OpPrepareTeam _ c | OpPrepareMembership _ c => context_ok c
  | OpPrepareTasks c _ tasks => context_ok c ∧ Forall (task_input_ok s) tasks
  | OpPrepareSpawn handles _ =>
      Forall (λ h, ∀ c, ah_collaboration h.1 = Some c → context_ok c) handles
  | OpSetFact _ _ _ value => value_wf value
  | OpRegisterArtifact _ _ _ _ _ metadata => value_wf metadata
  | OpSend uuid _ _ _ _ body => value_wf body ∧ direct_id_ok run (rt_bus s) ("msg-" +:+ uuid)
  | OpSendWithId id _ _ _ _ body => value_wf body ∧ direct_id_ok run (rt_bus s) id
  | OpBroadcast uuid team from _ body =>
      broadcast_input_ok s ("broadcast-" +:+ uuid) team from body
  | OpBroadcastWithId id team from _ body => broadcast_input_ok s id team from body
  | OpRegisterTask task => task_input_ok s task
  | OpAdmitTasks _ tasks => Forall (task_input_ok s) tasks
  | OpCreateTask _ _ _ task => task_input_ok s (initial_task task)
  | OpSettle _ _ _ op _ _ _ | OpSkip _ _ op _ | OpRequeue _ _ _ op _ | OpCancelTask _ _ _ op
  | OpHandoff _ _ _ _ op | OpAssign _ _ _ op | OpMarkRunning _ _ _ op => trim_is_empty op = false
  | OpCommit re | OpCancelSpawn re _ | OpAbortSpawn re _ | OpOutcome _ re _ => reservation_ok re
  | OpRecord _ _ ty _ => ty ∉ replay_types
  end.

(** ** Memberships

    An Agent has one Team, and the members of a Team are the Agents that have
    it.  Four operations do not look at the Team an Agent has: [join_team] and
    [prepare_spawn_batch], which put an Agent into a Team, and [cancel_spawn] and
    [abort_spawn], which take it out of its Team.  The histories leave out the
    successful calls of these that move an Agent from one Team to another or take
    it out: the condition speaks of the arguments of the call and of the state
    before it. *)

(** No Agent of the memberships has another Team already, or is put in two. *)
Definition memberships_ok (s : Runtime) (ms : list (TeamId * AgentId)) : Prop :=
  (∀ m r team_id, m ∈ ms → rt_agents s !! m.2 = Some r → ar_team_id r = Some team_id → team_id = m.1) ∧
  (∀ m m', m ∈ ms → m' ∈ ms → m.2 = m'.2 → m.1 = m'.1).

Definition handle_memberships (h : AgentHandle) : list (TeamId * AgentId) :=
  match ah_collaboration h with
  | Some c => [(cc_team_id c, cc_coordinator_agent_id c); (cc_team_id c, ah_agent_id h)]
  | None => []
  end.

(** The child has no Team, or its cancellation has nothing left to do. *)
Definition cancel_keeps (s : Runtime) (re : AgentSpawnReservation) : Prop :=
  ∀ r, rt_agents s !! re_child_agent_id re = Some r → ar_state r = AgCancelled ∨ ar_team_id r = None.

Definition keeps_teams (s : Runtime) (op : runtime_op O) : Prop :=
  match op with
  | OpJoinTeam team agent => memberships_ok s [(team, agent)]
  | OpPrepareSpawn handles _ => memberships_ok s (handles ≫= λ h, handle_memberships h.1)
  | OpCancelSpawn re _ => cancel_keeps s re
  | OpAbortSpawn re _ =>
      re_reattached re = true ∨
      match child_for_key (rt_relationships s) (re_key re) with
      | Some _ => cancel_keeps s re
      | None => ∀ r, rt_agents s !! re_child_agent_id re = Some r → ar_team_id r = None
      end
  | _ => True
  end.

(** One call, while the ledger has sequence numbers.  A call is made when the
    one before it has returned. *)
Definition run_step (s s' : Runtime) : Prop :=
  ∃ now op, (ls_next_sequence (rt_ledger s) < u64_max)%Z ∧ is_i64 now ∧ op_ok s op ∧
    ((run_op now op s).2 = true → keeps_teams s op) ∧ s' = (run_op now op s).1.

(** A runtime before the first record of the Run: the Agents that exist
    without a spawn, and nothing else. *)
Definition run_initial (s : Runtime) : Prop :=
  rt_teams s = ∅ ∧ rt_tasks s = registry_default ∧ rt_box s = mailbox_empty ∧
  rt_team_state s = team_state_default ∧ rt_relationships s = ∅ ∧
  ledger_inv (rt_ledger s) ∧ run_records (rt_ledger s) run = [] ∧
  ∀ other r t, r ∈ run_records (rt_ledger s) other → lr_record_type r = "task_created" →
    from_value (A := TaskRecord) (lr_payload r) = Some t → tr_run_id t ≠ run.
End history.

(** ** The invariant *)

(** The record types the invariant speaks of. *)
Definition core_types : list string := ["task_created"; "task_cas"; "collaboration_batch_prepared"].
Definition tracked_types : list string := bus_types ++ core_types.

Section invariant.
Context (run : RunId).

#[local] Ltac bare := unfold TeamRegistry, AgentRegistry in *.

Abbreviation records s := (run_records (rt_ledger s) run).
Abbreviation coherent := (coherent (L := InMemoryLedgerState) (E := LedgerError) run).

(** Each member of a Team is an Agent that has this Team. *)
Definition members_agree (s : Runtime) : Prop :=
  ∀ team_id team a, rt_teams s !! team_id = Some team → a ∈ tm_members team →
    ∃ r, rt_agents s !! a = Some r ∧ ar_team_id r = Some team_id.

(** An Agent that has a Team keeps it. *)
Definition teams_kept (s s' : Runtime) : Prop :=
  ∀ a r team_id, rt_agents s !! a = Some r → ar_team_id r = Some team_id →
    ∃ r', rt_agents s' !! a = Some r' ∧ ar_team_id r' = Some team_id.

(** A task of a Team: the coordinator and the owner are members. *)
Definition team_task_ok (teams : TeamRegistry) (t : TaskRecord) : Prop :=
  ∀ team_id, tr_team_id t = Some team_id →
    ownership_ok t ∧ tr_state t ≠ Created ∧
    ∃ team c, teams !! team_id = Some team ∧ tm_coordinator team = Some c ∧ c ∈ tm_members team ∧
      ∀ o, tr_owner_agent_id t = Some o → o ∈ tm_members team.

Definition task_inv (teams : TeamRegistry) (t : TaskRecord) : Prop :=
  tr_run_id t = run ∧ is_ok (validate_intrinsic_task_identity t) = true ∧ team_task_ok teams t.

(** The task a [task_created] record holds. *)
Definition creates (r : LedgerRecord) (t : TaskRecord) : Prop :=
  lr_record_type r = "task_created" ∧ from_value (lr_payload r) = Some t.

(** A recorded change is applied and lies in the past of its task. *)
Definition cas_applied (tasks : TaskRegistryState) (r : LedgerRecord) : Prop :=
  ∃ op id n t, get_str "operation_id" (lr_payload r) = Some op ∧ is_Some (rg_applied tasks !! op) ∧
    get_str "task_id" (lr_payload r) = Some id ∧
    get_u64 "expected_revision" (lr_payload r) = Some n ∧
    rg_tasks tasks !! id = Some t ∧ (n < tr_revision t)%Z.

(** The memberships of a recorded batch are in the Teams. *)
Definition marker_applied (teams : TeamRegistry) (r : LedgerRecord) : Prop :=
  ∃ ms : list (TeamId * AgentId), get "memberships" (lr_payload r) = Some (to_value ms) ∧
    ∀ m, m ∈ ms → ∃ team, teams !! m.1 = Some team ∧ m.2 ∈ tm_members team.

Record run_inv (s : Runtime) : Prop := {
  ri_ledger : ledger_inv (rt_ledger s);
  ri_bus : coherent (rt_bus s);
  ri_registry : registry_inv (rt_tasks s);
  ri_tasks : ∀ id t, rg_tasks (rt_tasks s) !! id = Some t → task_inv (rt_teams s) t;
  ri_created : ∀ id, is_Some (rg_tasks (rt_tasks s) !! id) ↔
    ∃ r t, r ∈ records s ∧ creates r t ∧ tr_task_id t = id;
  ri_elsewhere : ∀ other r t, other ≠ run → r ∈ run_records (rt_ledger s) other →
    creates r t → tr_run_id t ≠ run;
  ri_cas : ∀ r, r ∈ records s → lr_record_type r = "task_cas" → cas_applied (rt_tasks s) r;
  ri_markers : ∀ r, r ∈ records s → lr_record_type r = "collaboration_batch_prepared" →
    marker_applied (rt_teams s) r;
  ri_teams : ∀ id team, rt_teams s !! id = Some team → tm_team_id team = id ∧ tm_run_id team = run;
  ri_members : ∀ id team a r, rt_teams s !! id = Some team → a ∈ tm_members team →
    rt_agents s !! a = Some r → ar_run_id r = run;
  ri_relationships : ∀ k r, rt_relationships s !! k = Some r → relationship_ok r;
}.

Lemma run_inv_initial s : run_initial run s → run_inv s.
Proof.
  intros (Ht & Hk & Hb & _ & Hr & Hl & Hrun & Hother).
  split; rewrite ?Ht, ?Hk, ?Hr, ?Hrun; try done; try (by intros *; rewrite ?lookup_empty).
  - by apply coherent_initial.
  - intros id. simpl. rewrite lookup_empty. split; [by intros [? ?]|by intros (? & ? & ?%elem_of_nil & _)].
  - intros other r t _ Hin [Hty Hd]. by eapply Hother.
  - by intros r ?%elem_of_nil.
  - by intros r ?%elem_of_nil.
Qed.

(** ** Updates *)

Lemma history_others rs es b rs' :
  history rs es b → Forall (λ r, lr_record_type r ∉ bus_types) rs' →
  ∃ es', history (rs ++ rs') es' b.
Proof.
  intros Hh. induction rs' as [|r rs' IH] using rev_ind; intros Hrs.
  - exists es. by rewrite app_nil_r.
  - apply Forall_app in Hrs as [Hrs Hr]. apply Forall_cons in Hr as [Hr _]. destruct (IH Hrs) as [es' Hh']. exists (es' ++ [EvOther]). rewrite app_assoc.
    apply (history_snoc _ _ b r EvOther); [done| |exact I]. exact Hr.
Qed.

Lemma coherent_others s s' rs :
  coherent s → ledger_inv (bs_ledger s') → bs_box s' = bs_box s →
  run_records (bs_ledger s') run = run_records (bs_ledger s) run ++ rs →
  Forall (λ r, lr_record_type r ∉ bus_types) rs → coherent s'.
Proof.
  intros [_ [es Hh]] Hl Hb Hr Hrs. split; [apply (li_sorted _ Hl)|].
  destruct (history_others _ _ _ rs Hh Hrs) as [es' Hh']. exists es'.
  unfold contents. simpl. by rewrite Hb, Hr.
Qed.

Lemma untracked_core ty : ty ∉ tracked_types → ty ∉ core_types.
Proof. unfold tracked_types. rewrite elem_of_app. tauto. Qed.

Lemma untracked_bus ty : ty ∉ tracked_types → ty ∉ bus_types.
Proof. unfold tracked_types. rewrite elem_of_app. tauto. Qed.

(** Records that are neither tasks, changes nor batches. *)
Lemma inv_ledger_box s b l rs :
  run_inv s → ledger_inv l → coherent {| bs_box := b; bs_ledger := l |} →
  run_records l run = records s ++ rs → Forall (λ r, lr_record_type r ∉ core_types) rs →
  (∀ other r, other ≠ run → r ∈ run_records l other →
     r ∈ run_records (rt_ledger s) other ∨ lr_record_type r ∉ core_types) →
  run_inv (set_ledger (set_box s b) l).
Proof.
  intros Hinv Hl Hc Hr Hrs Hother.
  assert (∀ r ty, r ∈ run_records l run → lr_record_type r = ty → ty ∈ core_types → r ∈ records s) as Hold.
  { intros r ty. rewrite Hr, elem_of_app. intros [H|H] <-; [done|]. rewrite Forall_forall in Hrs.
    intros Hin. by apply Hrs in H. }
  assert ("task_created" ∈ core_types ∧ "task_cas" ∈ core_types ∧
          "collaboration_batch_prepared" ∈ core_types) as (T1 & T2 & T3)
    by (split_and!; unfold core_types; set_solver).
  destruct Hinv as [I1 I2 I3 I4 I5 I6 I7 I8 I9 I10 I11]. split; try done; simpl.
  - intros id. rewrite I5. split; intros (r & t & Hin & Hcr & Hid); exists r, t; (split; [|done]).
    + rewrite Hr. apply elem_of_app. by left.
    + destruct Hcr as [Hty _]. by eapply Hold.
  - intros other r t Hne Hin Hcr. destruct (Hother other r Hne Hin) as [Hin'|Hn]; [by eapply I6|].
    destruct Hcr as [Hty _]. by rewrite Hty in Hn.
  - intros r Hin Hty. apply I7; [|done]. by eapply Hold.
  - intros r Hin Hty. apply I8; [|done]. by eapply Hold.
Qed.

(** Records of other types, of any Run. *)
Lemma inv_records s l rs :
  run_inv s → ledger_inv l → run_records l run = records s ++ rs →
  Forall (λ r, lr_record_type r ∉ tracked_types) rs →
  (∀ other r, other ≠ run → r ∈ run_records l other →
     r ∈ run_records (rt_ledger s) other ∨ lr_record_type r ∉ tracked_types) →
  run_inv (set_ledger s l).
Proof.
  intros Hinv Hl Hr Hrs Hother. apply (inv_ledger_box s (rt_box s) l rs); [done|done| |done| |].
  - eapply (coherent_others (rt_bus s)); [apply Hinv|done|done|exact Hr|].
    eapply Forall_impl; [exact Hrs|]. intros r. apply untracked_bus.
  - eapply Forall_impl; [exact Hrs|]. intros r. apply untracked_core.
  - intros other r Hne Hin. destruct (Hother other r Hne Hin); [by left|right; by apply untracked_core].
Qed.

(** A change of the bus. *)
Lemma inv_bus s c rs :
  run_inv s → coherent c → ledger_inv (bs_ledger c) → run_records (bs_ledger c) run = records s ++ rs →
  Forall (λ r, lr_record_type r ∈ bus_types) rs →
  (∀ other, other ≠ run → run_records (bs_ledger c) other = run_records (rt_ledger s) other) →
  run_inv (set_ledger (set_box s (bs_box c)) (bs_ledger c)).
Proof.
  intros Hinv Hc Hl Hr Hrs Hother. apply (inv_ledger_box s (bs_box c) _ rs); [done|done|by destruct c|done| |].
  - assert (Forall (λ x, x ∉ core_types) bus_types) as Hdis by by apply (bool_decide_unpack _).
    rewrite Forall_forall in Hdis. eapply Forall_impl; [exact Hrs|]. intros r. apply Hdis.
  - intros other r Hne Hin. left. by rewrite <-Hother.
Qed.

(** The record a call appends, and the runtime with it. *)
Definition new_record (s : Runtime) (now : Z) (ty : string) (p : Value) : LedgerRecord :=
  make_record (saturating_add (ls_next_sequence (rt_ledger s)) 1) run now SyncCritical ty p.

Definition logged (s : Runtime) (now : Z) (ty : string) (p : Value) : Runtime :=
  set_ledger s (push_record (rt_ledger s) (new_record s now ty p)).

Lemma rt_append_eq s now ty p :
  rt_append s now run ty p = (logged s now ty p, Ok (new_record s now ty p)).
Proof. reflexivity. Qed.

Definition ready (s : Runtime) : Prop := (ls_next_sequence (rt_ledger s) < u64_max)%Z.

Lemma ledger_inv_logged s now ty p :
  ledger_inv (rt_ledger s) → ready s → ledger_inv (rt_ledger (logged s now ty p)).
Proof.
  intros Hl Hr. pose proof (li_counter _ Hl) as [? ?]. unfold ready in Hr. apply ledger_inv_push; [done..|].
  simpl. rewrite saturating_add_small by lia. lia.
Qed.

Lemma records_logged s now ty p : records (logged s now ty p) = records s ++ [new_record s now ty p].
Proof. simpl. rewrite run_records_push. by rewrite decide_True. Qed.

Lemma records_logged_other s now ty p other :
  other ≠ run → run_records (rt_ledger (logged s now ty p)) other = run_records (rt_ledger s) other.
Proof. intros Hne. simpl. rewrite run_records_push. by rewrite decide_False. Qed.

Lemma inv_logged s now ty p :
  run_inv s → ready s → ty ∉ tracked_types → run_inv (logged s now ty p).
Proof.
  intros Hinv Hr Hty. eapply inv_records; [done| |apply records_logged| |].
  - apply ledger_inv_logged; [apply Hinv|done].
  - by constructor.
  - intros other r Hne Hin. left. by rewrite <-(records_logged_other s now ty p).
Qed.

Lemma inv_agents s a :
  run_inv s →
  (∀ id team x r, rt_teams s !! id = Some team → x ∈ tm_members team → a !! x = Some r →
     ar_run_id r = run) →
  run_inv (set_agents s a).
Proof. intros [] H. by split. Qed.

Lemma inv_team_state s t : run_inv s → run_inv (set_team_state s t).
Proof. intros []. by split. Qed.

Lemma inv_relationship s r : run_inv s → relationship_ok r → run_inv (put_relationship s r).
Proof.
  intros [] H. split; try done. intros k r'. simpl.
  change (put ?m ?x) with (<[logical_key (relationship_key x) := x]> m).
  intros [[<- <-]|[_ Hk]]%lookup_insert_Some; [done|by eauto].
Qed.

(** Teams only gain members. *)
Definition teams_grow (ts ts' : TeamRegistry) : Prop :=
  ∀ id team, ts !! id = Some team → ∃ team', ts' !! id = Some team' ∧
    tm_coordinator team' = tm_coordinator team ∧ tm_members team ⊆ tm_members team'.

#[export] Instance teams_grow_preorder : PreOrder teams_grow.
Proof.
  split; [by intros ts id team ?; exists team|].
  intros t1 t2 t3 H1 H2 id team Hid. destruct (H1 _ _ Hid) as (team2 & Hid2 & E2 & S2).
  destruct (H2 _ _ Hid2) as (team3 & Hid3 & E3 & S3). exists team3. split_and!; [done|congruence|set_solver].
Qed.

Lemma team_task_ok_grow ts ts' t : teams_grow ts ts' → team_task_ok ts t → team_task_ok ts' t.
Proof.
  intros Hg H team_id Ht. destruct (H team_id Ht) as (Ho & Hc & team & c & Hid & Hco & Hin & Hown).
  destruct (Hg _ _ Hid) as (team' & Hid' & E & Hsub). split_and!; [done..|].
  exists team', c. split_and!; [done|congruence|set_solver|]. intros o Hto. apply Hsub. by apply Hown.
Qed.

Lemma task_inv_grow ts ts' t : teams_grow ts ts' → task_inv ts t → task_inv ts' t.
Proof. intros Hg (H1 & H2 & H3). split_and!; [done..|]. by eapply team_task_ok_grow. Qed.

Lemma marker_applied_grow ts ts' r : teams_grow ts ts' → marker_applied ts r → marker_applied ts' r.
Proof.
  intros Hg (ms & Hms & H). exists ms. split; [done|]. intros m Hm.
  destruct (H m Hm) as (team & Hid & Hin). destruct (Hg _ _ Hid) as (team' & ? & _ & ?).
  exists team'. split; [done|set_solver].
Qed.

Lemma inv_teams s ts :
  run_inv s → teams_grow (rt_teams s) ts →
  (∀ id team, ts !! id = Some team → tm_team_id team = id ∧ tm_run_id team = run ∧
     ∀ a r, a ∈ tm_members team → rt_agents s !! a = Some r → ar_run_id r = run) →
  run_inv (set_teams s ts).
Proof.
  intros [I1 I2 I3 I4 I5 I6 I7 I8 I9 I10 I11] Hg Hts. split; try done; simpl.
  - intros id t Hid. eapply task_inv_grow; [done|by eapply I4].
  - intros r Hr Hty. eapply marker_applied_grow; [done|by apply I8].
  - intros id team Hid. by destruct (Hts _ _ Hid) as (? & ? & _).
  - intros id team a r Hid. destruct (Hts _ _ Hid) as (_ & _ & H). apply H.
Qed.

Lemma create_grow ts team : teams_grow ts (team_create ts team).1.
Proof.
  intros id t Hid. unfold team_create. destruct (ts !! tm_team_id team) eqn:E; simpl; [by exists t|].
  exists t. bare. rewrite lookup_insert_ne by congruence. done.
Qed.

Lemma join_grow ts id a : teams_grow ts (team_join ts id a).1.
Proof.
  intros id' t Hid. unfold team_join. destruct (ts !! id) eqn:E; simpl; [|by exists t].
  bare. rewrite lookup_insert. case_decide; [|by exists t]. simplify_eq. eexists. split; [done|].
  split; [done|]. simpl. set_solver.
Qed.

Lemma inv_create_missing s team :
  run_inv s → tm_run_id team = run → tm_members team = ∅ → run_inv (create_missing s team).
Proof.
  intros Hinv Hrun Hm. apply inv_teams; [done|apply create_grow|].
  intros id t. unfold team_create. destruct (rt_teams s !! tm_team_id team) eqn:E; simpl.
  - intros Hid. destruct (ri_teams _ Hinv _ _ Hid). split_and!; [done..|].
    intros a r Ha. by eapply ri_members.
  - bare. rewrite lookup_insert_Some. intros [[<- <-]|[_ Hid]].
    + split_and!; [done..|]. rewrite Hm. set_solver.
    + destruct (ri_teams _ Hinv _ _ Hid). split_and!; [done..|]. intros a r Ha. by eapply ri_members.
Qed.

Lemma set_team_run m a t x r :
  (agent_set_team m a t).1 !! x = Some r → ∃ r', m !! x = Some r' ∧ ar_run_id r = ar_run_id r'.
Proof.
  unfold agent_set_team. destruct (m !! a) eqn:E; simpl; [|by eauto].
  bare. rewrite lookup_insert_Some. intros [[<- <-]|[_ H]]; eauto.
Qed.

Lemma set_state_run m a t x r :
  (agent_set_state m a t).1 !! x = Some r → ∃ r', m !! x = Some r' ∧ ar_run_id r = ar_run_id r'.
Proof.
  unfold agent_set_state. destruct (m !! a) eqn:E; simpl; [|by eauto].
  bare. rewrite lookup_insert_Some. intros [[<- <-]|[_ H]]; eauto.
Qed.

Lemma inv_set_team s a t : run_inv s → run_inv (set_agents s (agent_set_team (rt_agents s) a t).1).
Proof.
  intros Hinv. apply inv_agents; [done|]. intros id team x r Hid Hx Hr.
  apply set_team_run in Hr as (r' & Hr' & ->). by eapply ri_members.
Qed.

Lemma inv_set_state s a st : run_inv s → run_inv (set_state s a st).
Proof.
  intros Hinv. apply inv_agents; [done|]. intros id team x r Hid Hx Hr.
  apply set_state_run in Hr as (r' & Hr' & ->). by eapply ri_members.
Qed.

(** The Agent that joins belongs to the Run. *)
Definition of_run (s : Runtime) (a : AgentId) : Prop :=
  ∀ r, rt_agents s !! a = Some r → ar_run_id r = run.

Lemma inv_join s m : run_inv s → of_run s m.2 → run_inv (join_member s m).
Proof.
  intros Hinv Ha. unfold join_member.
  apply (inv_set_team (set_teams s (team_join (rt_teams s) m.1 m.2).1)).
  apply inv_teams; [done|apply join_grow|]. intros id t. unfold team_join.
  destruct (rt_teams s !! m.1) as [t0|] eqn:E; simpl.
  - bare. rewrite lookup_insert_Some. intros [[<- <-]|[_ Hid]].
    + destruct (ri_teams _ Hinv _ _ E). split_and!; [done..|]. simpl.
      intros a r [->%elem_of_singleton|Hin]%elem_of_union Hr; [by apply Ha|by eapply ri_members].
    + destruct (ri_teams _ Hinv _ _ Hid). split_and!; [done..|]. intros a r Hin. by eapply ri_members.
  - intros Hid. destruct (ri_teams _ Hinv _ _ Hid). split_and!; [done..|]. intros a r Hin. by eapply ri_members.
Qed.

Lemma of_run_join s m a : of_run s a → of_run (join_member s m) a.
Proof. intros H r. simpl. intros (r' & Hr' & ->)%set_team_run. by apply H. Qed.

Lemma inv_joins s ms :
  run_inv s → (∀ m, m ∈ ms → of_run s m.2) → run_inv (fold_left join_member ms s).
Proof.
  revert s. induction ms as [|m ms IH]; intros s Hinv Hms; [done|]. cbn [fold_left]. apply IH.
  - apply inv_join; [done|]. apply Hms. by left.
  - intros m' Hm'. apply of_run_join, Hms. by right.
Qed.

Lemma inv_creates s teams :
  run_inv s → (∀ t, t ∈ teams → tm_run_id t = run ∧ tm_members t = ∅) →
  run_inv (fold_left create_missing teams s).
Proof.
  revert s. induction teams as [|t teams IH]; intros s Hinv Ht; [done|]. cbn [fold_left]. apply IH.
  - destruct (Ht t); [by left|]. by apply inv_create_missing.
  - intros t' Ht'. apply Ht. by right.
Qed.
End invariant.
