(* ===== verification/CollaborationReplay.v ===== *)
(** * Replaying what the runtime recorded

    For each operation of the collaboration runtime: the records it appends,
    replayed on the registries before the call, give the registries after it,
    and the invariant holds again. *)
From S2P Require Import ResourceTypes Prelude Json Types TaskRegistry RuntimeLedger LedgerFacts LedgerAdmission WorkflowTypes Identity Registries LedgerInterface MessageBus BusFacts CollaborationTypes CollaborationRuntime CollaborationTasks CollaborationSpawn CollaborationRestore CollaborationHistory.

Section replay.
Context (sha256 : string → list Byte.byte) (to_vec : Value → string).
Context (run : RunId).

Abbreviation records s := (run_records (rt_ledger s) run).
Abbreviation restore_one := (restore_one sha256 to_vec).
Abbreviation restore_all := (restore_all sha256 to_vec).
Abbreviation run_inv := (run_inv run).
Abbreviation new_record := (new_record run).
Abbreviation logged := (logged run).

(** [s'] follows from [s] by records whose replay leads from one to the other,
    whatever ledger the restored runtime has. *)
Definition replays (s s' : Runtime) : Prop :=
  ∃ rs, records s' = records s ++ rs ∧
    ∀ l, restore_all (set_ledger s l) ∅ run rs = (set_ledger s' l, ∅, Ok tt).

Definition follows (s s' : Runtime) : Prop := run_inv s' ∧ replays s s'.

Lemma restore_all_app s d rs rs' :
  restore_all s d run (rs ++ rs') =
  match restore_all s d run rs with
  | (s, d, Ok _) => restore_all s d run rs'
  | (s, d, Err e) => (s, d, Err e)
  end.
Proof.
  revert s d. induction rs as [|r rs IH]; intros s d; [done|]. cbn [app CollaborationRestore.restore_all].
  destruct (restore_one s d run r) as [[s1 d1] [u|e]]; [apply IH|done].
Qed.

Lemma replays_refl s : replays s s.
Proof. exists []. split; [by rewrite app_nil_r|done]. Qed.

Lemma replays_trans s1 s2 s3 : replays s1 s2 → replays s2 s3 → replays s1 s3.
Proof.
  intros (rs1 & H1 & R1) (rs2 & H2 & R2). exists (rs1 ++ rs2). split.
  - by rewrite H2, H1, app_assoc.
  - intros l. rewrite restore_all_app, R1. apply R2.
Qed.

Lemma follows_refl s : run_inv s → follows s s.
Proof. intros H. split; [done|apply replays_refl]. Qed.

Lemma replays_one s s' now ty p :
  rt_ledger s' = rt_ledger (logged s now ty p) →
  (∀ l, restore_one (set_ledger s l) ∅ run (new_record s now ty p) = (set_ledger s' l, ∅, Ok tt)) →
  replays s s'.
Proof.
  intros Hl Hr. exists [new_record s now ty p]. split; [by rewrite Hl, records_logged|].
  intros l. cbn [CollaborationRestore.restore_all]. by rewrite Hr.
Qed.

Lemma slift_follows {A B} s0 s (r : result A RuntimeError) (k : A → outcome B) :
  follows s0 s → (∀ a, r = Ok a → follows s0 (k a).1) → follows s0 (slift s r k).1.
Proof. apply slift_state. Qed.

(** ** Records of other components *)

Lemma restore_one_other s d r : lr_record_type r ∉ replay_types → restore_one s d run r = (s, d, Ok tt).
Proof.
  intros H. unfold CollaborationRestore.restore_one.
  repeat (rewrite decide_False by (intros E; apply H; rewrite E; repeat constructor)).
  unfold is_message_record. rewrite bool_decide_false.
  2:{ intros E. apply H. set_unfold in E. unfold replay_types.
      destruct E as [E|[E|[E|[E|[E|[]]]]]]; rewrite E; repeat constructor. }
  repeat (rewrite decide_False by (intros E; apply H; rewrite E; repeat constructor)).
  rewrite decide_False by (intros [E|E]; apply H; rewrite E; repeat constructor).
  repeat (rewrite decide_False by (intros E; apply H; rewrite E; repeat constructor)).
  done.
Qed.

Lemma tracked_replay ty : ty ∉ replay_types → ty ∉ tracked_types.
Proof.
  assert (Forall (λ x, x ∈ replay_types) tracked_types) as Hsub by by apply (bool_decide_unpack _).
  intros H Hin. rewrite Forall_forall in Hsub. by apply H, Hsub.
Qed.

Lemma set_ledger_id s : set_ledger s (rt_ledger s) = s.
Proof. by destruct s. Qed.

Lemma follows_untouched s now ty p :
  run_inv s → ready s → ty ∉ replay_types → follows s (logged s now ty p).
Proof.
  intros Hi Hr Hty. split; [apply inv_logged; [done|done|by apply tracked_replay]|].
  apply (replays_one _ _ now ty p); [done|]. intros l. by rewrite restore_one_other.
Qed.

Lemma follows_record s now other d ty p :
  run_inv s → ready s → ty ∉ replay_types → follows s (commit_record s now other d ty p).1.
Proof.
  intros Hi Hr Hty. unfold commit_record, append. case_decide as Hd; simpl;
    [|rewrite set_ledger_id; by apply follows_refl].
  set (r := make_record _ other now d ty p).
  assert (ledger_inv (push_record (rt_ledger s) r)) as Hl.
  { pose proof (ri_ledger _ _ Hi) as Hl. pose proof (li_counter _ Hl) as [? ?].
    apply ledger_inv_push; [done..|]. unfold ready in Hr. simpl. rewrite saturating_add_small by lia. lia. }
  destruct (decide (other = run)) as [->|Hne].
  - split.
    + eapply inv_records; [done|done| | |].
      * rewrite run_records_push. by rewrite decide_True.
      * constructor; [by apply tracked_replay|constructor].
      * intros other r' Hne Hin. left. rewrite run_records_push in Hin. by rewrite decide_False in Hin.
    + exists [r]. simpl. rewrite run_records_push, decide_True by done. split; [done|]. intros l.
      by rewrite restore_one_other.
  - split.
    + eapply (inv_records _ _ _ []); [done|done| |constructor|].
      * rewrite run_records_push, app_nil_r. by rewrite decide_False by done.
      * intros other' r' Hne' Hin. rewrite run_records_push in Hin. case_decide; [|by left].
        apply elem_of_app in Hin as [?| ->%list_elem_of_singleton]; [by left|]. right. by apply tracked_replay.
    + exists []. simpl. rewrite run_records_push, app_nil_r. split; [by rewrite decide_False|done].
Qed.

(** ** Teams and Team state *)

Lemma untracked_team_types :
  "team_created" ∉ tracked_types ∧ "team_member_joined" ∉ tracked_types ∧
  "team_fact_set" ∉ tracked_types ∧ "artifact_registered" ∉ tracked_types ∧
  "collaboration_team_prepared" ∉ tracked_types.
Proof. split_and!; by apply (bool_decide_unpack _). Qed.

Lemma lift_limits_ok t u : lift_limits t = Ok u ↔ is_ok (validate_message_limits t) = true.
Proof. unfold lift_limits. destruct (validate_message_limits t), u; done. Qed.

Lemma limits_team_ok t u :
  (0 ≤ tm_max_pending_messages t)%Z → (0 ≤ tm_max_message_bytes t)%Z → lift_limits t = Ok u →
  team_record_ok t.
Proof.
  intros H1 H2 H. apply lift_limits_ok in H. destruct (validate_message_limits t) eqn:E; [|done].
  apply validate_message_limits_ok in E. unfold team_record_ok, DEFAULT_MAX_PENDING_MESSAGES,
    DEFAULT_MAX_MESSAGE_BYTES, u32_max in *. lia.
Qed.

Lemma follows_new_team s now team :
  run_inv s → ready s → tm_run_id team = run → tm_members team = ∅ →
  lift_limits team = Ok tt → team_record_ok team → team_get (rt_teams s) (tm_team_id team) = None →
  follows s (create_missing (logged s now "team_created" (to_value team)) team).
Proof.
  intros Hi Hr Hrun Hm Hlim Hok Hnone. destruct untracked_team_types as (T & _). split.
  - apply inv_create_missing; [by apply inv_logged|done|done].
  - apply (replays_one _ _ now "team_created" (to_value team)); [done|]. intros l.
    change (keeps ∅ (restore_team_created (set_ledger s l) (to_value team)) =
            (set_ledger (create_missing (logged s now "team_created" (to_value team)) team) l, ∅, Ok tt)).
    unfold restore_team_created. rewrite from_to_value by done. rewrite Hlim. cbn [slift].
    change (rt_teams (set_ledger s l)) with (rt_teams s). rewrite Hnone. done.
Qed.

Lemma follows_create_team s now team name strategy coordinator :
  run_inv s → ready s →
  follows s (create_collaboration_team s now run team name strategy coordinator).1.
Proof.
  intros Hi Hr. unfold create_collaboration_team. case_bool_decide as Hn; [by apply follows_refl|].
  rewrite rt_append_eq. cbn [sbind].
  refine (follows_new_team s now {| tm_run_id := run; tm_team_id := team |} Hi Hr _ _ _ _ Hn); try done.
Qed.

Lemma context_team_ok name c u :
  context_ok c → lift_limits (context_team run name c) = Ok u → team_record_ok (context_team run name c).
Proof. intros [H1 H2]. by apply limits_team_ok. Qed.

Lemma follows_ensure_team s now name c :
  run_inv s → ready s → context_ok c → follows s (ensure_collaboration_team s now run name c).1.
Proof.
  intros Hi Hr Hc. unfold ensure_collaboration_team. apply slift_follows; [by apply follows_refl|].
  intros [] Hlim. destruct (team_get (rt_teams s) (cc_team_id c)) as [t|] eqn:E.
  - by case_match; apply follows_refl.
  - rewrite rt_append_eq. cbn [sbind].
    refine (follows_new_team s now (context_team run name c) Hi Hr _ _ _ _ E); try done.
    by eapply context_team_ok.
Qed.

(** One record of a type the invariant does not speak of, replayed by [arm]. *)
Lemma follows_one s now ty p (f : Runtime → Runtime) :
  run_inv s → ready s → ty ∉ tracked_types →
  (∀ l, restore_one (set_ledger s l) ∅ run (new_record s now ty p) =
        (set_ledger (f (logged s now ty p)) l, ∅, Ok tt)) →
  rt_ledger (f (logged s now ty p)) = rt_ledger (logged s now ty p) →
  (run_inv (logged s now ty p) → run_inv (f (logged s now ty p))) →
  follows s (f (logged s now ty p)).
Proof.
  intros Hi Hr Hty Hrep Hl Hf. split; [by apply Hf, inv_logged|].
  by apply (replays_one _ _ now ty p).
Qed.

Lemma follows_join_team s now team agent :
  run_inv s → ready s → follows s (join_team s now run team agent).1.
Proof.
  intros Hi Hr. unfold join_team. apply slift_follows; [by apply follows_refl|]. intros t Ht%ok_or_ok.
  apply slift_follows; [by apply follows_refl|]. intros r Hg%ok_or_ok.
  apply slift_follows; [by apply follows_refl|]. intros _ [_ Hrun]%ensure_ok%bool_decide_eq_true.
  case_decide; [by apply follows_refl|]. rewrite rt_append_eq. cbn [sbind].
  destruct untracked_team_types as (_ & T & _).
  apply (follows_one s now "team_member_joined" (join_payload team agent)
           (λ s, join_member s (team, agent))); [done|done|done|reflexivity|done|].
  intros Hi'. apply inv_join; [done|]. intros r'. simpl. unfold agent_get in Hg. rewrite Hg.
  by intros [= <-].
Qed.

Lemma follows_set_fact s now team by_agent key value :
  run_inv s → ready s → is_i64 now → value_wf value →
  follows s (set_team_fact s now run team by_agent key value).1.
Proof.
  intros Hi Hr Hnow Hv. unfold set_team_fact.
  do 3 (apply slift_follows; [by apply follows_refl|intros ? _]). rewrite rt_append_eq. cbn [sbind].
  destruct untracked_team_types as (_ & _ & T & _). set (fact := {| tf_run_id := run |}).
  apply (follows_one s now "team_fact_set" (to_value fact)
           (λ s, set_team_state s (set_fact (rt_team_state s) fact).1)); [done|done|done| |done|].
  - intros l. change (unit_ok (match from_value (A := TeamFact) (to_value fact) with
      | Some f => set_team_state (set_ledger s l) (set_fact (rt_team_state s) f).1
      | None => set_ledger s l end) (∅ : Deferred) =
      (set_ledger (set_team_state (logged s now "team_fact_set" (to_value fact))
         (set_fact (rt_team_state s) fact).1) l, ∅, Ok tt)).
    by rewrite from_to_value.
  - apply inv_team_state.
Qed.

Lemma follows_register_artifact s now uuid team agent uri kind metadata :
  run_inv s → ready s → is_i64 now → value_wf metadata →
  follows s (register_team_artifact s now uuid run team agent uri kind metadata).1.
Proof.
  intros Hi Hr Hnow Hv. unfold register_team_artifact.
  do 3 (apply slift_follows; [by apply follows_refl|intros ? _]).
  apply slift_follows; [by apply follows_refl|intros ? _]. rewrite rt_append_eq. cbn [sbind].
  destruct untracked_team_types as (_ & _ & _ & T & _). set (artifact := {| af_artifact_id := _ |}).
  apply (follows_one s now "artifact_registered" (to_value artifact)
           (λ s, set_team_state s (put_artifact (rt_team_state s) artifact))); [done|done|done| |done|].
  - intros l. change (unit_ok (match from_value (A := ArtifactRef) (to_value artifact) with
      | Some a => set_team_state (set_ledger s l) (put_artifact (rt_team_state s) a)
      | None => set_ledger s l end) (∅ : Deferred) =
      (set_ledger (set_team_state (logged s now "artifact_registered" (to_value artifact))
         (put_artifact (rt_team_state s) artifact)) l, ∅, Ok tt)).
    by rewrite from_to_value.
  - apply inv_team_state.
Qed.

(** ** Child Agents *)

Lemma untracked_agent_types :
  "agent_spawn_intent" ∉ tracked_types ∧ "agent_spawn_committed" ∉ tracked_types ∧
  "agent_spawn_retry_started" ∉ tracked_types ∧ "agent_spawn_cancelled" ∉ tracked_types ∧
  "agent_outcome" ∉ tracked_types ∧ "agent_state_changed" ∉ tracked_types ∧
  "agent_spawn_aborted" ∉ tracked_types.
Proof. split_and!; by apply (bool_decide_unpack _). Qed.

Lemma untouched_agent_types :
  "agent_reattach_failed" ∉ replay_types ∧ "agent_handle_issued" ∉ replay_types.
Proof. split; by apply (bool_decide_unpack _). Qed.

Lemma inv_upsert_agent s r :
  run_inv s → ar_run_id r = run → run_inv (set_agents s (agent_upsert (rt_agents s) r)).
Proof.
  intros Hi Hrun. apply inv_agents; [done|]. intros id team x r' Hid Hx. unfold agent_upsert.
  unfold AgentRegistry. intros [[_ <-]|[_ H]]%lookup_insert_Some; [done|]. by eapply ri_members.
Qed.

Lemma follows_reserved s now parent child p :
  run_inv s → ready s → get_str "parent_agent_id" p = Some parent → get_str "child_agent_id" p = Some child →
  follows s (set_agents (logged s now "agent_spawn_intent" p)
               (agent_upsert (rt_agents s) (reserved_agent run parent child))).
Proof.
  intros Hi Hr Hp Hc. destruct untracked_agent_types as (T & _).
  apply (follows_one s now "agent_spawn_intent" p
           (λ s, set_agents s (agent_upsert (rt_agents s) (reserved_agent run parent child))));
    [done|done|done| |done|].
  - intros l. change (unit_ok (restore_spawn_intent (set_ledger s l) run p) (∅ : Deferred) =
      (set_ledger (set_agents (logged s now "agent_spawn_intent" p)
         (agent_upsert (rt_agents s) (reserved_agent run parent child))) l, ∅, Ok tt)).
    unfold restore_spawn_intent. by rewrite Hp, Hc.
  - intros Hi'. by apply inv_upsert_agent.
Qed.

Lemma known_version_ok v : (0 ≤ v ≤ 255)%Z → (0 ≤ known_version v ≤ 255)%Z.
Proof. unfold known_version, LEGACY_IDENTITY_VERSION. case_decide; lia. Qed.

Lemma find_relationship m p r :
  List.find p (relationships m) = Some r → ∃ k, m !! k = Some r.
Proof.
  intros [Hin _]%List.find_some. apply list_elem_of_In, list_elem_of_fmap in Hin as ([k r'] & -> & Hin).
  exists k. by apply elem_of_map_to_list in Hin.
Qed.

Lemma follows_retry s now r :
  run_inv s → ready s → relationship_ok r →
  follows s (set_state (put_relationship (logged s now "agent_spawn_retry_started" (to_value r)) r)
               (rl_child_agent_id r) AgActive).
Proof.
  intros Hi Hr Hok. destruct untracked_agent_types as (_ & _ & T & _).
  apply (follows_one s now "agent_spawn_retry_started" (to_value r)
           (λ s, set_state (put_relationship s r) (rl_child_agent_id r) AgActive));
    [done|done|done| |done|].
  - intros l. change (unit_ok (restore_spawn_retry (set_ledger s l) (to_value r)) (∅ : Deferred) =
      (set_ledger (set_state (put_relationship (logged s now "agent_spawn_retry_started" (to_value r)) r)
               (rl_child_agent_id r) AgActive) l, ∅, Ok tt)).
    unfold restore_spawn_retry. by rewrite from_to_value.
  - intros Hi'. by apply inv_set_state, inv_relationship.
Qed.

Lemma follows_reserve s now parent role key op ceiling requested :
  run_inv s → ready s →
  follows s (reserve_spawn_typed sha256 s now run parent role key op ceiling requested).1.
Proof.
  intros Hi Hr. unfold reserve_spawn_typed. destruct (child_for_key _ _) as [child|].
  - unfold reattach_spawn.
    destruct (agent_get (rt_agents s) child) as [a|]; cbn [ok_or slift sbind]; [|by apply follows_refl].
    destruct (ensure _ _); cbn [slift sbind]; [|by apply follows_refl].
    destruct (List.find _ _) as [r|] eqn:Hf; cbn [ok_or slift sbind]; [|by apply follows_refl].
    case_decide; [by apply follows_refl|]. case_decide; [by apply follows_refl|].
    rewrite rt_append_eq. cbn [sbind fst].
    apply (follows_retry s now {| rl_run_id := run; rl_child_agent_id := child |}); [done|done|].
    apply find_relationship in Hf as [k Hk]. apply known_version_ok. by apply (ri_relationships _ _ Hi k).
  - destruct (agent_get _ _) as [a|].
    + apply slift_follows; [by apply follows_refl|]. intros _ _. by apply follows_refl.
    + rewrite rt_append_eq. cbn [sbind fst]. by apply (follows_reserved s now).
Qed.

Lemma identity_version_ok k id v :
  identity_version_for_agent_id sha256 k id = Some v → (0 ≤ v ≤ 255)%Z.
Proof.
  unfold identity_version_for_agent_id, CURRENT_IDENTITY_VERSION, LEGACY_IDENTITY_VERSION.
  repeat case_decide; intros [= <-]; lia.
Qed.

Lemma follows_commit s now re :
  run_inv s → ready s → reservation_ok run re → follows s (commit_spawn sha256 s now re).1.
Proof.
  intros Hi Hr Hre. unfold commit_spawn. destruct (re_reattached re); [by apply follows_refl|].
  destruct (child_for_key _ _) as [child|].
  { do 2 (apply slift_follows; [by apply follows_refl|intros ? _]). by case_decide; apply follows_refl. }
  apply slift_follows; [by apply follows_refl|]. intros a Ha%ok_or_ok.
  apply slift_follows; [by apply follows_refl|]. intros _ Hst%ensure_ok%bool_decide_eq_true.
  apply slift_follows; [by apply follows_refl|]. intros v Hv%ok_or_ok%identity_version_ok.
  unfold reservation_ok in Hre. set (r := {| rl_run_id := ck_run_id (re_key re) |}). rewrite Hre.
  rewrite rt_append_eq. cbn [sbind fst]. destruct untracked_agent_types as (_ & T & _).
  apply (follows_one s now "agent_spawn_committed" (to_value r)
           (λ s, set_state (put_relationship s r) (re_child_agent_id re) AgActive));
    [done|done|done| |done|].
  - intros l. change (unit_ok (restore_spawn_committed (set_ledger s l) (to_value r)) (∅ : Deferred) =
      (set_ledger (set_state (put_relationship (logged s now "agent_spawn_committed" (to_value r)) r)
               (re_child_agent_id re) AgActive) l, ∅, Ok tt)).
    unfold restore_spawn_committed. rewrite from_to_value by done.
    change (rt_agents (put_relationship (set_ledger s l) r)) with (rt_agents s).
    change (rl_child_agent_id r) with (re_child_agent_id re). rewrite Ha. by rewrite Hst.
  - intros Hi'. by apply inv_set_state, inv_relationship.
Qed.

Lemma follows_set_state s now agent st :
  run_inv s → ready s → follows s (set_agent_state s now run agent st).1.
Proof.
  intros Hi Hr. unfold set_agent_state. do 2 (apply slift_follows; [by apply follows_refl|intros ? _]).
  case_decide; [by apply follows_refl|]. apply slift_follows; [by apply follows_refl|intros _ _].
  rewrite rt_append_eq. cbn [sbind fst]. destruct untracked_agent_types as (_ & _ & _ & _ & _ & T & _).
  apply (follows_one s now "agent_state_changed" (state_payload agent st)
           (λ s, set_state s agent st)); [done|done|done| |done|apply inv_set_state].
  intros l. by destruct st.
Qed.

(** A call that would take an Agent out of its Team is not part of a history. *)
Lemma kept_out s s' a r :
  teams_kept s s' → rt_agents s !! a = Some r →
  (∀ r', rt_agents s' !! a = Some r' → ar_team_id r' = None) → ar_team_id r = None.
Proof.
  intros Hk Ha H. destruct (ar_team_id r) as [t|] eqn:E; [|done].
  destruct (Hk a r t Ha E) as (r' & Hr' & Ht'). apply H in Hr'. congruence.
Qed.

Lemma left_agent s team child st r :
  rt_agents (set_state (leave_own_team s (Some team) child) child st) !! child = Some r →
  ar_team_id r = None.
Proof.
  simpl. unfold agent_set_state, agent_set_team. destruct (rt_agents s !! child) as [a|] eqn:E; simpl.
  - unfold AgentRegistry. rewrite lookup_insert_eq. simpl. rewrite lookup_insert_eq. by intros [= <-].
  - rewrite E. simpl. by rewrite E.
Qed.

Lemma follows_cancel_spawn s now re reason :
  run_inv s → ready s → reservation_ok run re → teams_kept s (cancel_spawn s now re reason).1 →
  follows s (cancel_spawn s now re reason).1.
Proof.
  intros Hi Hr Hre. unfold cancel_spawn.
  destruct (agent_get (rt_agents s) (re_child_agent_id re)) as [a|] eqn:Ha; cbn [ok_or slift];
    [|intros _; by apply follows_refl].
  case_decide; [intros _; by apply follows_refl|].
  destruct (ensure _ _); cbn [slift]; [|intros _; by apply follows_refl].
  unfold reservation_ok in Hre. rewrite Hre, rt_append_eq. cbn [sbind fst]. intros Hk.
  apply (kept_out _ _ (re_child_agent_id re) a) in Hk; [|done|].
  2:{ intros r'. destruct (ar_team_id a) eqn:Et; [apply left_agent|]. simpl. unfold agent_set_state.
      unfold agent_get in Ha. rewrite Ha. simpl. unfold AgentRegistry. rewrite lookup_insert_eq.
      by intros [= <-]. }
  rewrite Hk. destruct untracked_agent_types as (_ & _ & _ & T & _).
  match goal with |- context [logged s now _ ?q] => set (p := q) end.
  apply (follows_one s now "agent_spawn_cancelled" p
           (λ s, set_state s (re_child_agent_id re) AgCancelled));
    [done|done|done|reflexivity|done|apply inv_set_state].
Qed.

Lemma follows_abort_spawn s now re reason :
  run_inv s → ready s → members_agree s → reservation_ok run re →
  teams_kept s (abort_spawn s now re reason).1 → follows s (abort_spawn s now re reason).1.
Proof.
  intros Hi Hr Hag Hre. unfold abort_spawn. unfold reservation_ok in Hre. rewrite Hre.
  destruct untouched_agent_types as [U _]. destruct (re_reattached re).
  { intros _. destruct (recorded_for _ _ _); [by apply follows_refl|]. rewrite rt_append_eq. cbn [sbind fst].
    by apply follows_untouched. }
  case_bool_decide; [by apply follows_cancel_spawn|].
  destruct (agent_get _ _) as [a|] eqn:Ha; [|intros _; by case_match; apply follows_refl].
  rewrite rt_append_eq. cbn [sbind fst]. intros Hk.
  apply (kept_out _ _ (re_child_agent_id re) a) in Hk; [|done|].
  2:{ intros r'. destruct (ar_team_id a); simpl; unfold AgentRegistry; by rewrite lookup_delete_eq. }
  rewrite Hk. cbn [leave_team]. destruct untracked_agent_types as (_ & _ & _ & _ & _ & _ & T).
  apply (follows_one s now "agent_spawn_aborted" (abort_payload re None reason)
           (λ s, set_agents s (agent_remove (rt_agents s) (re_child_agent_id re)).1));
    [done|done|done|reflexivity|done|].
  intros Hi'. apply inv_agents; [done|]. intros id team x r' Hid Hx. simpl. unfold AgentRegistry.
  intros [_ H']%lookup_delete_Some. by eapply (ri_members _ _ Hi).
Qed.

Lemma follows_handle s now op digest handle :
  run_inv s → ready s → follows s (record_agent_handle s now run op digest handle).1.
Proof.
  intros Hi Hr. unfold record_agent_handle. destruct (List.find _ _).
  - by case_decide; apply follows_refl.
  - rewrite rt_append_eq. cbn [sbind fst]. apply follows_untouched; [done|done|apply untouched_agent_types].
Qed.

Lemma projection_ok r : result_ok (agent_outcome_projection r).
Proof. split_and!; [done|..]; repeat split; simpl; unfold u64_max; lia. Qed.

Lemma follows_outcome to_string from_str {O} (write_named : O → RunId → string → O * result string string)
    read_named s (o : O) now re res :
  run_inv s → ready s → reservation_ok run re →
  follows s (record_agent_outcome sha256 to_string from_str write_named read_named s o now re res).1.1.
Proof.
  intros Hi Hr Hre. unfold record_agent_outcome, reservation_ok in *. rewrite Hre.
  destruct (List.find _ _).
  { destruct (read_agent_outcome_record _ _ _ _ _ _) as [[? ?]|]; [|by apply follows_refl].
    by case_match; apply follows_refl. }
  destruct (write_named _ _ _) as [o' [reference|e]]; [|by apply follows_refl].
  destruct (agent_get _ _) as [a|]; [|by apply follows_refl]. case_match; [by apply follows_refl|].
  rewrite rt_append_eq. cbn [fst].
  match goal with |- context [logged s now _ (to_value ?q)] => set (d := q) end.
  destruct untracked_agent_types as (_ & _ & _ & _ & T & _).
  apply (follows_one s now "agent_outcome" (to_value d)
           (λ s, set_state s (re_child_agent_id re) (outcome_agent_state res)));
    [done|done|done| |done|apply inv_set_state].
  intros l. change (unit_ok (restore_outcome (set_ledger s l) (to_value d)) (∅ : Deferred) =
      (set_ledger (set_state (logged s now "agent_outcome" (to_value d)) (re_child_agent_id re)
         (outcome_agent_state res)) l, ∅, Ok tt)).
  unfold restore_outcome.
  assert (get "result" (to_value d) = Some (to_value (agent_outcome_projection res))) as -> by done.
  assert (get_str "child_agent_id" (to_value d) = Some (re_child_agent_id re)) as -> by done.
  cbn [mbind option_bind]. rewrite from_to_value by apply projection_ok. done.
Qed.
End replay.
