(* ===== verification/CollaborationReplayTasks.v ===== *)
(** * Replaying messages and tasks

    The operations that go through the message bus, the registration of tasks
    and their changes: the records each operation appends, replayed, give the
    mailbox and the registry of tasks after the call. *)
From S2P Require Import ResourceTypes Prelude Json Types TaskRegistry RuntimeLedger LedgerFacts LedgerAdmission Identity WorkflowTypes Registries LedgerInterface MessageBus BusFacts CollaborationTypes CollaborationRuntime CollaborationTasks CollaborationSpawn CollaborationRestore CollaborationHistory CollaborationReplay.

(** * Messages *)
(** What a bus operation does to the ledger: nothing, or one record of the Run. *)
Definition bus_appends (run : RunId) (l l' : InMemoryLedgerState) : Prop :=
  l' = l ∨ ∃ now ty p, ty ∈ bus_types ∧ l' = (append l now run SyncCritical ty p).1.

Section appends.
Context (to_vec : Value → string) (run : RunId).

Abbreviation bus := (BusState InMemoryLedgerState).

Lemma bus_appends_one {A} (s : bus) now ty p (k : bus → LedgerRecord → bus * result A (BusError LedgerError)) :
  ty ∈ bus_types → (∀ s r, bs_ledger (k s r).1 = bs_ledger s) →
  bus_appends run (bs_ledger s) (bs_ledger (sbind (bus_append s now run ty p) k).1).
Proof. intros Hty Hk. right. exists now, ty, p. split; [done|]. simpl. by rewrite Hk. Qed.

Lemma slift_appends {A B} l (s : bus) (r : result A (BusError LedgerError))
    (k : A → bus * result B (BusError LedgerError)) :
  bus_appends run l (bs_ledger s) → (∀ a, bus_appends run l (bs_ledger (k a).1)) →
  bus_appends run l (bs_ledger (slift s r k).1).
Proof. intros Hs Hk. by apply (slift_state (λ s, bus_appends run l (bs_ledger s))). Qed.

Lemma replay_send_ledger (s : bus) id requested from to kind body :
  bs_ledger (replay_send s id run requested from to kind body).1 = bs_ledger s.
Proof.
  unfold replay_send. cbn [lg_records in_memory_ledger records_for_run lift_ledger slift].
  destruct (List.find _ _); [|done]. destruct (from_value _); cbn [slift ok_or]; [|done].
  case_match; [done|]. unfold repair. destruct (repair_durable_messages _ _ _ _) as [b [u|e]]; done.
Qed.

Lemma replay_broadcast_ledger (s : bus) id team from recipients kind body :
  bs_ledger (replay_broadcast s id run team from recipients kind body).1 = bs_ledger s.
Proof.
  unfold replay_broadcast. cbn [lg_records in_memory_ledger records_for_run lift_ledger slift].
  destruct (List.find _ _); [|done]. destruct (from_value _); cbn [slift ok_or]; [|done].
  case_match; [done|]. unfold repair. destruct (repair_durable_messages _ _ _ _) as [b [u|e]]; done.
Qed.

Lemma send_appends (s : bus) g now id requested effective from to kind body :
  bus_appends run (bs_ledger s)
    (bs_ledger (send_with_requested_team_id to_vec s g now id run requested effective from to kind body).1).
Proof.
  unfold send_with_requested_team_id. pose proof (replay_send_ledger s id requested from to kind body) as Hl.
  destruct (replay_send s id run requested from to kind body) as [s0 [[m|]|e]]; cbn [sbind fst] in *;
    [by left| |by left].
  assert (bus_appends run (bs_ledger s) (bs_ledger s0)) as H0 by (left; done).
  do 2 (apply slift_appends; [done|intros]). apply slift_appends; [done|intros [max bytes]].
  do 2 (apply slift_appends; [done|intros]).
  rewrite <-Hl. apply bus_appends_one; [left|done].
Qed.

Lemma broadcast_appends (s : bus) g now id team from recipients kind body :
  bus_appends run (bs_ledger s)
    (bs_ledger (broadcast_with_id to_vec s g now id run team from recipients kind body).1).
Proof.
  unfold broadcast_with_id.
  pose proof (replay_broadcast_ledger s id team from (Some recipients) kind body) as Hl.
  destruct (replay_broadcast s id run team from (Some recipients) kind body) as [s0 [[m|]|e]];
    cbn [sbind fst] in *; [by left| |by left].
  assert (bus_appends run (bs_ledger s) (bs_ledger s0)) as H0 by (left; done).
  do 7 (apply slift_appends; [done|intros]).
  rewrite <-Hl. apply bus_appends_one; [right; left|done].
Qed.

Lemma claim_appends (s : bus) g now a c :
  bus_appends run (bs_ledger s) (bs_ledger (claim s g now run a c).1).
Proof.
  unfold claim. do 2 (apply slift_appends; [by left|intros]). destruct (List.find _ _); [by left|].
  case_decide; [by left|]. apply bus_appends_one; [|done]. do 3 right. left.
Qed.

Lemma acknowledge_appends (s : bus) g now a id :
  bus_appends run (bs_ledger s) (bs_ledger (acknowledge s g now run a id).1).
Proof.
  unfold acknowledge. apply slift_appends; [by left|intros]. destruct (List.find _ _) as [m|]; [|by left].
  case_decide; [by left|]. destruct (negb _); [by left|].
  apply bus_appends_one; [|done]. do 2 right. left.
Qed.

Lemma drain_appends (s : bus) g now a :
  bus_appends run (bs_ledger s) (bs_ledger (drain s g now run a).1).
Proof.
  unfold drain. apply slift_appends; [by left|intros]. case_decide; [by left|].
  apply bus_appends_one; [|done]. do 4 right. left.
Qed.
End appends.

Section replay_bus.
Context (sha256 : string → list Byte.byte) (to_vec : Value → string).
Context (run : RunId).

Abbreviation records s := (run_records (rt_ledger s) run).
Abbreviation run_inv := (run_inv run).
Abbreviation follows := (follows sha256 to_vec run).
Abbreviation coherent := (coherent (L := InMemoryLedgerState) (E := LedgerError) run).
Abbreviation advances := (advances (L := InMemoryLedgerState) (E := LedgerError) run).

Lemma coherent_box_eq c : coherent c → restore_records mailbox_empty (run_records (bs_ledger c) run) = Some (bs_box c).
Proof. intros [_ [es Hh]]. by eapply history_restores. Qed.

Lemma restore_one_message s d r b :
  lr_record_type r ∈ bus_types → restore_record (rt_box s) r = Some b →
  restore_one sha256 to_vec s d run r = (set_box s b, d, Ok tt).
Proof.
  intros Hty Hb. unfold restore_one.
  assert (is_message_record (lr_record_type r) = true) as Hm by by apply bool_decide_eq_true.
  set_unfold in Hty. rewrite Hm, Hb.
  destruct Hty as [E|[E|[E|[E|[E|[]]]]]]; rewrite E; reflexivity.
Qed.

Lemma append_shape l now ty p :
  append l now run SyncCritical ty p =
  (push_record l (make_record (saturating_add (ls_next_sequence l) 1) run now SyncCritical ty p),
   Ok (make_record (saturating_add (ls_next_sequence l) 1) run now SyncCritical ty p)).
Proof. reflexivity. Qed.

(** A bus operation that keeps the bus coherent. *)
Lemma follows_bus s c :
  run_inv s → ready s → coherent c → bus_appends run (rt_ledger s) (bs_ledger c) →
  follows s (set_ledger (set_box s (bs_box c)) (bs_ledger c)).
Proof.
  intros Hi Hr Hc Happ. pose proof (coherent_box_eq _ (ri_bus _ _ Hi)) as Hb.
  pose proof (coherent_box_eq _ Hc) as Hb'. change (restore_records mailbox_empty (records s) = Some (rt_box s)) in Hb.
  destruct Happ as [E|(now & ty & p & Hty & E)].
  - rewrite E in Hb' |- *. assert (bs_box c = rt_box s) as -> by congruence.
    change (set_ledger (set_box s (rt_box s)) (rt_ledger s)) with (set_ledger s (rt_ledger s)).
    rewrite set_ledger_id. by apply follows_refl.
  - rewrite append_shape in E. cbn [fst] in E. set (r := make_record _ _ _ _ _ _) in E.
    assert (run_records (bs_ledger c) run = records s ++ [r]) as Hrec
      by (rewrite E, run_records_push; by rewrite decide_True).
    split.
    + apply (inv_bus run s c [r]); [done|done| |done|by constructor; [|constructor]|].
      * rewrite E. pose proof (ri_ledger _ _ Hi) as Hl. pose proof (li_counter _ Hl) as [? ?].
        apply ledger_inv_push; [done..|]. unfold ready in Hr. simpl. rewrite saturating_add_small by lia. lia.
      * intros other Hne. rewrite E, run_records_push. by rewrite decide_False.
    + exists [r]. split; [done|]. intros l. cbn [CollaborationRestore.restore_all].
      rewrite (restore_one_message _ _ _ (bs_box c)); [done|done|].
      rewrite Hrec, restore_records_app, Hb in Hb'. done.
Qed.

Lemma follows_with_bus {A} s (c : BusState InMemoryLedgerState * result A (BusError LedgerError)) :
  run_inv s → ready s → advances (rt_bus s) c.1 → bus_appends run (rt_ledger s) (bs_ledger c.1) →
  follows s (with_bus s c).1.
Proof. intros Hi Hr [Hc _] Happ. by apply follows_bus. Qed.

Lemma bus_ready s : run_inv s → ready s → lg_ready (bs_ledger (rt_bus s)).
Proof. intros Hi Hr. split; [apply Hi|done]. Qed.

Lemma sbind_keeps {S A B E} (c : S * result A E) (k : S → A → S * result B E) :
  (∀ s a, (k s a).1 = s) → (sbind c k).1 = c.1.
Proof. destruct c as [s [a|e]]; simpl; [|done]. intros H. apply H. Qed.

Lemma send_advances s now id requested effective from to kind body :
  run_inv s → ready s → is_i64 now → value_wf body → direct_id_ok run (rt_bus s) id →
  follows s (with_bus s (send_with_requested_team_id to_vec (rt_bus s) (rt_registry s) now id run
                           requested effective from to kind body)).1.
Proof.
  intros Hi Hr Hnow Hb Hid. apply follows_with_bus; [done|done| |apply send_appends].
  apply coherent_send; [apply Hi|by apply bus_ready|done..].
Qed.

Lemma with_bus_sbind {A B} s (c : BusState InMemoryLedgerState * result A (BusError LedgerError))
    (k : BusState InMemoryLedgerState → A → BusState InMemoryLedgerState * result B (BusError LedgerError)) :
  (∀ s a, (k s a).1 = s) → (with_bus s (sbind c k)).1 = (with_bus s c).1.
Proof. intros Hk. unfold with_bus. simpl. by rewrite sbind_keeps. Qed.

Lemma follows_send s now uuid team from to kind body :
  run_inv s → ready s → is_i64 now → value_wf body → direct_id_ok run (rt_bus s) ("msg-" +:+ uuid) →
  follows s (send_message to_vec s now uuid run team from to kind body).1.
Proof.
  intros Hi Hr Hnow Hb Hid. unfold send_message. apply slift_follows; [by apply follows_refl|].
  intros effective _. rewrite sbind_keeps by by intros ? [].
  unfold send, send_with_id. rewrite with_bus_sbind; [by apply send_advances|].
  intros ? [m [r|]]; done.
Qed.

Lemma with_bus_id {A} s (c : BusState InMemoryLedgerState * result A (BusError LedgerError)) :
  c.1 = rt_bus s → (with_bus s c).1 = s.
Proof. intros E. unfold with_bus. rewrite E. by destruct s. Qed.

Lemma follows_send_with_id s now id team from to kind body :
  run_inv s → ready s → is_i64 now → value_wf body → direct_id_ok run (rt_bus s) id →
  follows s (send_message_with_id to_vec s now id run team from to kind body).1.
Proof.
  intros Hi Hr Hnow Hb Hid. unfold send_message_with_id.
  destruct (replay_send_spec run (rt_bus s) id team from to kind body (ri_bus _ _ Hi)) as [Hs _].
  set (c := replay_send (rt_bus s) id run team from to kind body) in *.
  pose proof (with_bus_id s c Hs) as E. destruct (with_bus s c) as [s0 [[m|]|e]]; cbn [sbind fst] in *; subst s0;
    [by apply follows_refl| |by apply follows_refl].
  apply slift_follows; [by apply follows_refl|]. intros effective _.
  rewrite sbind_keeps by by intros ? []. by apply send_advances.
Qed.

Lemma broadcast_advances s now id team from recipients kind body :
  run_inv s → ready s → is_i64 now → value_wf body →
  (Z.of_nat (length recipients) ≤ u64_max)%Z → broadcast_id_ok run (rt_bus s) id recipients →
  follows s (with_bus s (broadcast_with_id to_vec (rt_bus s) (rt_registry s) now id run team from
                           recipients kind body)).1.
Proof.
  intros Hi Hr Hnow Hb Hlen Hid. apply follows_with_bus; [done|done| |apply broadcast_appends].
  apply coherent_broadcast; [apply Hi|by apply bus_ready|done..].
Qed.

Lemma follows_broadcast s now uuid team from kind body :
  run_inv s → ready s → is_i64 now → broadcast_input_ok run s ("broadcast-" +:+ uuid) team from body →
  follows s (broadcast_team_message to_vec s now uuid run team from kind body).1.
Proof.
  intros Hi Hr Hnow [Hb Hid]. unfold broadcast_team_message. apply slift_follows; [by apply follows_refl|].
  intros recipients Hrec. destruct (Hid _ Hrec). rewrite sbind_keeps by by intros ? [].
  unfold broadcast. rewrite with_bus_sbind; [by apply broadcast_advances|].
  intros ? [m [r|]]; done.
Qed.

Lemma follows_broadcast_with_id s now id team from kind body :
  run_inv s → ready s → is_i64 now → broadcast_input_ok run s id team from body →
  follows s (broadcast_message_with_id to_vec s now id run team from kind body).1.
Proof.
  intros Hi Hr Hnow [Hb Hid]. unfold broadcast_message_with_id, replay_broadcast_with_id.
  pose proof (replay_broadcast_spec run (rt_bus s) id team from None kind body (ri_bus _ _ Hi)) as Hs.
  set (c := replay_broadcast (rt_bus s) id run team from None kind body) in *.
  pose proof (with_bus_id s c Hs) as E. destruct (with_bus s c) as [s0 [[m|]|e]]; cbn [sbind fst] in *; subst s0;
    [by apply follows_refl| |by apply follows_refl].
  apply slift_follows; [by apply follows_refl|]. intros recipients Hrec. destruct (Hid _ Hrec).
  rewrite sbind_keeps by by intros ? []. by apply broadcast_advances.
Qed.

Lemma follows_acknowledge s now agent id :
  run_inv s → ready s → is_i64 now → follows s (acknowledge_message s now run agent id).1.
Proof.
  intros Hi Hr Hnow. unfold acknowledge_message. do 3 (apply slift_follows; [by apply follows_refl|intros ? _]).
  rewrite sbind_keeps by by intros ? []. apply follows_with_bus; [done|done| |apply acknowledge_appends].
  apply coherent_acknowledge; [apply Hi|by apply bus_ready|done].
Qed.

Lemma follows_claim s now agent c :
  run_inv s → ready s → follows s (with_bus s (claim (rt_bus s) (rt_registry s) now run agent c)).1.
Proof.
  intros Hi Hr. apply follows_with_bus; [done|done| |apply claim_appends].
  apply coherent_claim; [apply Hi|by apply bus_ready].
Qed.

Lemma follows_drain s now agent :
  run_inv s → ready s → follows s (with_bus s (drain (rt_bus s) (rt_registry s) now run agent)).1.
Proof.
  intros Hi Hr. apply follows_with_bus; [done|done| |apply drain_appends].
  apply coherent_drain; [apply Hi|by apply bus_ready].
Qed.
End replay_bus.

(** * Tasks *)
Section replay_cas.
Context (sha256 : string → list Byte.byte) (to_vec : Value → string).
Context (Hsha : ∀ x, sha256 x ≠ []).
Context (run : RunId).

Abbreviation records s := (run_records (rt_ledger s) run).
Abbreviation run_inv := (run_inv run).
Abbreviation follows := (follows sha256 to_vec run).
Abbreviation digest := (mutation_digest sha256 to_vec).
Abbreviation payload := (cas_payload sha256 to_vec).

Lemma digest_not_empty m : digest m ≠ "".
Proof.
  unfold mutation_digest, stable_digest_value, stable_digest_bytes.
  destruct (sha256 _) as [|b l] eqn:E; [by apply Hsha in E|done].
Qed.

Lemma same_line_refl r : same_line r r = true.
Proof. by apply bool_decide_eq_true. Qed.

(** ** The owner after a change *)

Definition new_owner (m : TaskCasMutation) : option AgentId :=
  match m with Assign o | Handoff _ o => Some o | _ => None end.

Lemma apply_owner m cur rev next o :
  apply m cur rev = Ok next → tr_owner_agent_id next = Some o →
  tr_owner_agent_id cur = Some o ∨ new_owner m = Some o.
Proof.
  destruct m; simpl; intros; apply_cases; simpl in *; auto; try done.
  destruct clear_owner; simpl in *; auto.
Qed.

Lemma apply_not_created m cur rev next : apply m cur rev = Ok next → tr_state next ≠ Created.
Proof.
  intros H%apply_step. inversion H as [| |? H1|? s' H1 H2|s' H2|]; try done.
  - by intros E; rewrite E in H2.
  - intros E. rewrite E in H2. by destruct H2.
Qed.

Lemma intrinsic_same a b :
  same_identity a b → validate_intrinsic_task_identity a = validate_intrinsic_task_identity b.
Proof.
  intros (E1 & E2 & E3 & E4 & E5 & E6 & _). unfold validate_intrinsic_task_identity.
  by rewrite E1, E2, E3, E5, E6.
Qed.

Lemma immutable_matches a b :
  task_record_ok a → same_identity a b → task_immutable_metadata_matches a b = true.
Proof.
  intros [_ Hc] (E1 & E2 & E3 & E4 & E5 & E6 & E7 & E8 & E9 & E10).
  unfold task_immutable_metadata_matches. rewrite E1, E2, E3, E4, E5, E6, E7, E8, <-E9, E10.
  rewrite !bool_decide_eq_true_2 by done. simpl. rewrite andb_true_r.
  destruct (tr_content a); simpl; [|done]. apply value_eqb_refl. by destruct Hc.
Qed.

(** A change that keeps the owner in the Team keeps the task in order. *)
Lemma apply_task_inv teams m cur rev next :
  task_inv run teams cur → apply m cur rev = Ok next →
  (∀ id team o, tr_team_id cur = Some id → teams !! id = Some team → new_owner m = Some o →
     o ∈ tm_members team) →
  task_inv run teams next.
Proof.
  intros (Hrun & Hint & Hteam) Hap Hnew. pose proof (apply_identity _ _ _ _ Hap) as [Hsame _].
  split_and!.
  - by destruct Hsame as (<- & _).
  - by rewrite <-(intrinsic_same cur).
  - intros id Hid. assert (tr_team_id cur = Some id) as Hid'
      by (destruct Hsame as (_ & _ & _ & -> & _); done).
    destruct (Hteam id Hid') as (Ho & _ & team & c & Ht & Hc & Hin & Hown).
    split_and!; [by eapply apply_ownership|by eapply apply_not_created|].
    exists team, c. split_and!; [done..|]. intros o Hno.
    destruct (apply_owner _ _ _ _ _ Hap Hno) as [|H]; [by apply Hown|by eapply Hnew].
Qed.

(** A task in order passes the check a replay makes. *)
Lemma projected_ok s t :
  (∀ id team, rt_teams s !! id = Some team → tm_run_id team = run) →
  (∀ id team a r, rt_teams s !! id = Some team → a ∈ tm_members team →
     rt_agents s !! a = Some r → ar_run_id r = run) →
  members_agree s → task_inv run (rt_teams s) t → validate_projected_team_task s run t = Ok tt.
Proof.
  intros Hteams Hmem Hag (_ & _ & Ht). unfold validate_projected_team_task.
  destruct (tr_team_id t) as [id|] eqn:Hid; [|done].
  destruct (Ht id Hid) as ([Hq Ha] & Hcr & team & c & Hteam & Hc & Hin & Hown).
  unfold team_get. rewrite Hteam. cbn [ok_or rbind]. rewrite (Hteams _ _ Hteam), same_line_refl. cbn [ensure rbind].
  rewrite Hc. cbn [ok_or rbind]. rewrite bool_decide_true by done. cbn [ensure rbind].
  assert (match tr_owner_agent_id t with
          | Some owner => let? agent := ok_or (agent_get (rt_agents s) owner)
                 (RtOther ("restored Team task owner " +:+ owner +:+ " is unknown")) in
               ensure (same_line run (ar_run_id agent) && bool_decide (owner ∈ tm_members team))
                 (RtOther "restored Team task owner does not belong to the task Team/Run")
          | None => Ok tt end = Ok tt) as ->.
  { destruct (tr_owner_agent_id t) as [o|] eqn:Ho; [|done]. specialize (Hown o eq_refl).
    destruct (Hag _ _ _ Hteam Hown) as (r & Hr & _). unfold agent_get. rewrite Hr. cbn [ok_or rbind].
    rewrite (Hmem _ _ _ _ Hteam Hown Hr), same_line_refl, bool_decide_true by done. done. }
  cbn [rbind]. destruct (tr_state t) eqn:Hst; try done.
  - by rewrite Hq.
  - rewrite bool_decide_true; [done|]. destruct Ha as [o ->]; [done|]. done.
  - rewrite bool_decide_true; [done|]. destruct Ha as [o ->]; [done|]. done.
Qed.

(** ** One change *)

(** The registry after a change. *)
Definition changed (tasks : TaskRegistryState) (id : TaskId) (op : OperationId) (m : TaskCasMutation)
    (expected : Z) (next : TaskRecord) : TaskRegistryState :=
  {| rg_tasks := <[id := next]> (rg_tasks tasks);
     rg_applied := <[op := {| ap_task_id := id; ap_mutation_digest := digest m;
                              ap_expected_revision := expected; ap_new_revision := (expected + 1)%Z;
                              ap_result := next |}]> (rg_applied tasks) |}.

(** What a call that changes a task finds and computes. *)
Record change (s : Runtime) (id : TaskId) (op : OperationId) (m : TaskCasMutation) (expected : Z)
    (cur next : TaskRecord) : Prop := {
  ch_cur : rg_tasks (rt_tasks s) !! id = Some cur;
  ch_fresh : rg_applied (rt_tasks s) !! op = None;
  ch_revision : tr_revision cur = expected;
  ch_bound : (expected + 1 ≤ u64_max)%Z;
  ch_apply : apply m cur (expected + 1)%Z = Ok next;
  ch_op : trim_is_empty op = false;
  ch_next : task_inv run (rt_teams s) next;
}.

Lemma change_task_ok s id op m expected cur next :
  run_inv s → change s id op m expected cur next →
  task_record_ok cur ∧ tr_task_id cur = id ∧ task_record_ok next ∧ tr_task_id next = id ∧
  tr_revision next = (expected + 1)%Z ∧ same_identity cur next.
Proof.
  intros Hi [Hcur _ Hrev Hb Hap _ _]. destruct (inv_keyed _ (ri_registry _ _ Hi) _ _ Hcur) as [Hid Hok].
  pose proof (apply_identity _ _ _ _ Hap) as [Hsame Hnr].
  assert (task_record_ok next) as Hnok.
  { apply apply_ok in Hap as (? & ? & ? & ? & ->). apply task_with_ok; [done|].
    destruct Hok as [[? ?] _]. unfold is_u64. lia. }
  split_and!; [done..| |done|done]. by destruct Hsame as (_ & <- & _).
Qed.

Lemma cas_header_ok s r id op m expected cur next :
  run_inv s → change s id op m expected cur next → lr_payload r = payload id op m expected cur next →
  cas_header r = Ok {| ch_task := next; ch_operation_id := op; ch_transition := mutation_name m;
                       ch_digest := digest m; ch_expected_revision := expected;
                       ch_new_revision := tr_revision next |}.
Proof.
  intros Hi Hch Hp. destruct (change_task_ok _ _ _ _ _ _ _ Hi Hch) as (_ & _ & Hok & Hid & _).
  unfold cas_header. rewrite Hp. set (p := payload id op m expected cur next).
  assert (get "task" p = Some (to_value next)) as -> by done.
  assert (get_str "task_id" p = Some id) as -> by done.
  assert (get_str "operation_id" p = Some op) as -> by done.
  assert (get_str "transition" p = Some (mutation_name m)) as -> by done.
  assert (get_str "mutation_digest" p = Some (digest m)) as -> by done.
  assert (get_u64 "expected_revision" p = Some expected) as -> by done.
  assert (get_u64 "new_revision" p = Some (tr_revision next)) as -> by done.
  cbn [ok_or rbind]. rewrite from_to_value by done. cbn [ok_or rbind].
  rewrite Hid, bool_decide_true by done. cbn [ensure rbind mbind option_bind].
  rewrite (ch_op _ _ _ _ _ _ _ Hch). cbn [ok_or rbind].
  by rewrite decide_False by apply digest_not_empty.
Qed.

Lemma check_expected_ok s id op m expected cur next :
  run_inv s → change s id op m expected cur next →
  check_expected_task (Some cur) expected next cur = Ok tt.
Proof.
  intros Hi Hch. destruct (change_task_ok _ _ _ _ _ _ _ Hi Hch) as (Hok & Hid & Hnok & Hnid & _ & Hsame).
  unfold check_expected_task. rewrite (immutable_matches cur next) by done.
  rewrite bool_decide_true by (split; [apply Hch|congruence]). cbn [ensure andb rbind].
  destruct (ri_tasks _ _ Hi _ _ (ch_cur _ _ _ _ _ _ _ Hch)) as (_ & Hint & _).
  destruct (validate_intrinsic_task_identity cur) as [[]|]; [|done]. cbn [rbind].
  rewrite task_record_eqb_refl by done. by rewrite andb_false_r.
Qed.

Lemma check_mutation_ok s id op m expected cur next :
  run_inv s → change s id op m expected cur next →
  check_mutation sha256 to_vec (mutation_name m) (digest m) (to_value m) (Some cur) (Some cur) next
    (tr_revision next) = Ok tt.
Proof.
  intros Hi Hch. destruct (change_task_ok _ _ _ _ _ _ _ Hi Hch) as (_ & _ & Hnok & _ & Hnr & _).
  unfold check_mutation. rewrite bool_decide_true by done. cbn [ensure rbind].
  rewrite from_to_value by done. cbn [ok_or rbind]. rewrite bool_decide_true by done. cbn [ensure rbind].
  rewrite Hnr, (ch_apply _ _ _ _ _ _ _ Hch). cbn [lift_task rbind]. by rewrite task_record_eqb_refl.
Qed.

Lemma restore_cas_record s l r id op m expected cur next :
  run_inv s → members_agree s → change s id op m expected cur next →
  lr_run_id r = run → lr_payload r = payload id op m expected cur next →
  restore_task_cas_record sha256 to_vec (set_ledger s l) r =
  (set_tasks (set_ledger s l) (changed (rt_tasks s) id op m expected next), Ok next).
Proof.
  intros Hi Hag Hch Hrun Hp.
  destruct (change_task_ok _ _ _ _ _ _ _ Hi Hch) as (Hok & Hid & Hnok & Hnid & Hnr & Hsame).
  pose proof (ch_next _ _ _ _ _ _ _ Hch) as (Hnrun & Hnint & Hnteam).
  unfold restore_task_cas_record. rewrite (cas_header_ok s r id op m expected cur next) by done.
  cbn [slift ch_task ch_operation_id ch_transition ch_digest ch_expected_revision ch_new_revision].
  rewrite bool_decide_true.
  2:{ split; [done|]. rewrite Hnr. apply checked_add_Some. split; [done|apply Hch]. }
  cbn [ensure slift]. rewrite Hrun, Hnrun, same_line_refl. cbn [ensure slift].
  destruct (validate_intrinsic_task_identity next) as [[]|] eqn:Hv; [|done]. cbn [slift].
  change (rt_tasks (set_ledger s l)) with (rt_tasks s).
  unfold get_task. rewrite Hnid, (ch_cur _ _ _ _ _ _ _ Hch), (immutable_matches cur next) by done.
  cbn [ensure slift]. rewrite Hp.
  set (p := payload id op m expected cur next).
  assert (get "expected_task" p = Some (to_value cur)) as -> by done.
  assert (get "mutation" p = Some (to_value m)) as -> by done.
  rewrite from_to_value by done. cbn [ok_or rmap rbind slift]. rewrite bool_decide_true by done.
  cbn [ensure slift]. rewrite (check_expected_ok s id op m) by done. cbn [slift].
  rewrite (check_mutation_ok s id op m expected) by done. cbn [slift].
  rewrite (projected_ok (set_ledger s l) next); [|intros; by eapply (ri_teams _ _ Hi)|intros *; by eapply (ri_members _ _ Hi)|done|by apply (ch_next _ _ _ _ _ _ _ Hch)].
  cbn [slift]. rewrite restore_cas_fresh; [by rewrite Hnid, Hnr|apply Hch|done|apply Hch|].
  rewrite Hnid, (ch_cur _ _ _ _ _ _ _ Hch). intros ? [= <-]. rewrite (ch_revision _ _ _ _ _ _ _ Hch). lia.
Qed.

Lemma cas_applied_changed tasks id op m expected cur next r :
  rg_tasks tasks !! id = Some cur → tr_revision next = (tr_revision cur + 1)%Z →
  cas_applied tasks r → cas_applied (changed tasks id op m expected next) r.
Proof.
  intros Hcur Hrev (op' & id' & n & t & H1 & H2 & H3 & H4 & H5 & H6).
  exists op', id', n. destruct (decide (id' = id)) as [->|Hne].
  - exists next. simpl. rewrite lookup_insert_eq. split_and!; [done| |done..|].
    + rewrite lookup_insert. by case_decide.
    + rewrite Hcur in H5. injection H5 as <-. lia.
  - exists t. simpl. rewrite (lookup_insert_ne _ id id') by done. split_and!; [done| |done..].
    rewrite lookup_insert. by case_decide.
Qed.

Lemma inv_change s now id op m expected cur next :
  run_inv s → ready s → change s id op m expected cur next →
  run_inv (set_tasks (logged run s now "task_cas" (payload id op m expected cur next))
             (changed (rt_tasks s) id op m expected next)).
Proof.
  intros Hi Hr Hch. destruct (change_task_ok _ _ _ _ _ _ _ Hi Hch) as (_ & _ & Hnok & Hnid & Hnr & _).
  set (p := payload id op m expected cur next). pose proof (ch_cur _ _ _ _ _ _ _ Hch) as Hcur.
  pose proof (records_logged run s now "task_cas" p) as Hrec.
  destruct Hi as [I1 I2 I3 I4 I5 I6 I7 I8 I9 I10 I11].
  pose proof (ledger_inv_logged run s now "task_cas" p I1 Hr) as Hl. split; try done.
  - eapply (coherent_others run (rt_bus s)); [done|done|done|exact Hrec|].
    constructor; [by apply (bool_decide_unpack _)|constructor].
  - simpl. eapply registry_inv_cas; [done|apply Hch|done|apply Hch|apply Hch|apply Hch].
  - intros id' t. simpl. rewrite lookup_insert_Some. intros [[<- <-]|[_ H]]; [apply Hch|by eapply I4].
  - intros id'. change (rt_tasks (set_tasks ?a ?b)) with b. cbn [rg_tasks changed].
    rewrite lookup_insert. etrans; [|etrans; [apply (I5 id')|]].
    + case_decide; [|done]. subst id'. rewrite Hcur. split; by eexists.
    + change (rt_ledger (set_tasks ?a _)) with (rt_ledger a). rewrite Hrec. split.
      * intros (r & t & Hin & Hc). exists r, t. split; [|done]. apply elem_of_app. by left.
      * intros (r & t & Hin & [Hty Hd] & Hid). exists r, t. split; [|done].
        apply elem_of_app in Hin as [Hin|Hin%list_elem_of_singleton]; [done|]. by subst r.
  - intros other r t Hne. change (rt_ledger (set_tasks ?a _)) with (rt_ledger a).
    rewrite records_logged_other by done. by apply I6.
  - intros r. change (rt_ledger (set_tasks ?a _)) with (rt_ledger a). rewrite Hrec.
    intros [Hin|Hin%list_elem_of_singleton]%elem_of_app Hty.
    + eapply cas_applied_changed; [done| |by apply I7]. rewrite Hnr. by rewrite (ch_revision _ _ _ _ _ _ _ Hch).
    + subst r. exists op, id, expected, next. simpl. rewrite !lookup_insert_eq. split_and!; [done|by eexists|done..|lia].
  - intros r. change (rt_ledger (set_tasks ?a _)) with (rt_ledger a). rewrite Hrec.
    intros [Hin|Hin%list_elem_of_singleton]%elem_of_app Hty; [by apply I8|]. by subst r.
Qed.

Lemma follows_change s now id op m expected cur next :
  run_inv s → ready s → members_agree s → change s id op m expected cur next →
  follows s (set_tasks (logged run s now "task_cas" (payload id op m expected cur next))
               (changed (rt_tasks s) id op m expected next)).
Proof.
  intros Hi Hr Hag Hch. split; [by apply inv_change|].
  eapply (replays_one _ _ _ _ _ now "task_cas"); [done|]. intros l.
  set (r := new_record run s now "task_cas" (payload id op m expected cur next)).
  change (match restore_task_cas_record sha256 to_vec (set_ledger s l) r with
          | (s, Ok _) => unit_ok s (∅ : Deferred)
          | (s, Err e) => (s, ∅, Err e)
          end = (set_ledger (set_tasks (logged run s now "task_cas" (payload id op m expected cur next))
                   (changed (rt_tasks s) id op m expected next)) l, ∅, Ok tt)).
  by rewrite (restore_cas_record s l r id op m expected cur next).
Qed.

(** ** The calls that change a task *)

Lemma persist_fresh s now id op m expected cur next :
  run_inv s → rg_tasks (rt_tasks s) !! id = Some cur → rg_applied (rt_tasks s) !! op = None →
  tr_revision cur = expected →
  persist_cas sha256 to_vec now run id op m expected cur (rt_ledger s) next =
  (rt_ledger (logged run s now "task_cas" (payload id op m expected cur next)), Ok tt).
Proof.
  intros Hi Hcur Hop Hrev. unfold persist_cas.
  destruct (List.find _ _) as [r|] eqn:Hf; [|reflexivity]. exfalso.
  apply List.find_some in Hf as [Hin%list_elem_of_In Hb]. unfold binds_change in Hb.
  rewrite andb_true_iff, orb_true_iff, andb_true_iff, !bool_decide_eq_true in Hb. destruct Hb as [Hty Hb].
  destruct (ri_cas _ _ Hi r Hin Hty) as (op' & id' & n & t & H1 & [a Ha] & H3 & H4 & H5 & H6).
  destruct Hb as [Hb|[Hb1 Hb2]]; [congruence|].
  assert (id' = id) as -> by congruence. assert (n = expected) as -> by congruence.
  rewrite Hcur in H5. injection H5 as <-. lia.
Qed.

Lemma set_same s : set_tasks (set_ledger s (rt_ledger s)) (rt_tasks s) = s.
Proof. by destruct s. Qed.

Lemma follows_apply s now id expected op m :
  run_inv s → ready s → members_agree s → trim_is_empty op = false →
  (∀ cur team_id team o, rg_tasks (rt_tasks s) !! id = Some cur → tr_team_id cur = Some team_id →
     rt_teams s !! team_id = Some team → new_owner m = Some o → o ∈ tm_members team) →
  follows s (apply_task_cas sha256 to_vec s now run id expected op m).1.
Proof.
  intros Hi Hr Hag Hop Hown. unfold apply_task_cas. apply slift_follows; [by apply follows_refl|].
  intros cur Hcur%ok_or_ok.
  destruct (cas_durable _ _ _ _ _ _ _) as [[l t] [next|e]] eqn:Hcas; cbn [fst].
  - apply cas_durable_ok in Hcas as [(a & _ & -> & -> & _)|(cur' & Hfresh & Hcur' & Hrev & Hmax & Hap & Hp & ->)].
    { rewrite set_same. by apply follows_refl. }
    unfold get_task in Hcur. rewrite Hcur in Hcur'. injection Hcur' as <-.
    rewrite (persist_fresh s) in Hp by done. injection Hp as <-.
    apply checked_add_Some in Hmax as [_ Hmax].
    apply (follows_change s now id op m expected cur next); [done..|].
    split; try done. eapply apply_task_inv; [by eapply ri_tasks|done|].
    intros team_id team o H1 H2 H3. by eapply Hown.
  - apply cas_durable_err in Hcas as [-> [->|(next & Hp)]]; [rewrite set_same; by apply follows_refl|].
    unfold persist_cas in Hp. destruct (List.find _ _).
    + case_match; [done|]. injection Hp as <- _. rewrite set_same. by apply follows_refl.
    + done.
Qed.

Lemma follows_cas_revision s now id expected op m :
  run_inv s → ready s → members_agree s → trim_is_empty op = false →
  (∀ cur team_id team o, rg_tasks (rt_tasks s) !! id = Some cur → tr_team_id cur = Some team_id →
     rt_teams s !! team_id = Some team → new_owner m = Some o → o ∈ tm_members team) →
  follows s (cas_revision sha256 to_vec s now run id expected op m).1.
Proof.
  intros Hi Hr Hag Hop Hown. unfold cas_revision.
  assert ((sbind (apply_task_cas sha256 to_vec s now run id expected op m)
    (λ s updated, (s, Ok (tr_revision updated)))).1 = (apply_task_cas sha256 to_vec s now run id expected op m).1) as ->
    by by destruct (apply_task_cas _ _ _ _ _ _ _ _ _) as [? []].
  by apply follows_apply.
Qed.

Lemma follows_settle s now id agent rev op st outcome failure :
  run_inv s → ready s → members_agree s → trim_is_empty op = false →
  follows s (settle_collaboration_task sha256 to_vec s now run id agent rev op st outcome failure).1.
Proof.
  intros Hi Hr Hag Hop. unfold settle_collaboration_task.
  do 4 (apply slift_follows; [by apply follows_refl|intros ? _]). by apply follows_cas_revision.
Qed.

Lemma follows_skip s now id rev op reason :
  run_inv s → ready s → members_agree s → trim_is_empty op = false →
  follows s (skip_collaboration_task sha256 to_vec s now run id rev op reason).1.
Proof.
  intros Hi Hr Hag Hop. unfold skip_collaboration_task.
  do 2 (apply slift_follows; [by apply follows_refl|intros ? _]). by apply follows_cas_revision.
Qed.

Lemma follows_requeue s now id coordinator rev op reason :
  run_inv s → ready s → members_agree s → trim_is_empty op = false →
  follows s (requeue_supervisor_task sha256 to_vec s now run id coordinator rev op reason).1.
Proof.
  intros Hi Hr Hag Hop. unfold requeue_supervisor_task.
  do 5 (apply slift_follows; [by apply follows_refl|intros ? _]). by apply follows_cas_revision.
Qed.

Lemma follows_cancel_task s now id coordinator rev op :
  run_inv s → ready s → members_agree s → trim_is_empty op = false →
  follows s (cancel_supervisor_workflow_task sha256 to_vec s now run id coordinator rev op).1.
Proof.
  intros Hi Hr Hag Hop. unfold cancel_supervisor_workflow_task.
  do 4 (apply slift_follows; [by apply follows_refl|intros ? _]). by apply follows_cas_revision.
Qed.

Lemma follows_handoff s now id from to rev op :
  run_inv s → ready s → members_agree s → trim_is_empty op = false →
  follows s (handoff_task sha256 to_vec s now run id from to rev op).1.
Proof.
  intros Hi Hr Hag Hop. unfold handoff_task. apply slift_follows; [by apply follows_refl|intros _ _].
  apply slift_follows; [by apply follows_refl|]. intros task Ht%ok_or_ok.
  apply slift_follows; [by apply follows_refl|intros _ _].
  apply slift_follows; [by apply follows_refl|]. intros source Hsrc.
  destruct (ri_tasks _ _ Hi _ _ Ht) as (-> & _). apply follows_cas_revision; [done..|].
  intros cur team_id team o Hcur Hid Hteam [= <-]. unfold get_task in Ht. simplify_eq.
  unfold handoff_source in Hsrc. rewrite Hid in Hsrc. unfold team_get in Hsrc. rewrite Hteam in Hsrc.
  cbn [ok_or rbind] in Hsrc. apply rbind_ok in Hsrc as (_ & [_ H]%ensure_ok%bool_decide_eq_true & _). done.
Qed.

Lemma validate_agent_member s id agent cur team_id team :
  validate_task_agent s run id agent = Ok tt → rg_tasks (rt_tasks s) !! id = Some cur →
  tr_team_id cur = Some team_id → rt_teams s !! team_id = Some team → agent ∈ tm_members team.
Proof.
  unfold validate_task_agent, get_task, team_get. intros H Hcur Hid Hteam. rewrite Hcur in H.
  cbn [ok_or rbind] in H. apply rbind_ok in H as (a & _ & H). apply rbind_ok in H as (_ & _ & H).
  rewrite Hid, Hteam in H. cbn [ok_or rbind] in H. apply ensure_ok, andb_true_iff in H as [_ H].
  by apply bool_decide_eq_true in H.
Qed.

Lemma follows_assign s now id agent rev op :
  run_inv s → ready s → members_agree s → trim_is_empty op = false →
  follows s (assign_task_owner sha256 to_vec s now run id agent rev op).1.
Proof.
  intros Hi Hr Hag Hop. unfold assign_task_owner. apply slift_follows; [by apply follows_refl|].
  intros [] Hv. apply follows_cas_revision; [done..|].
  intros cur team_id team o Hcur Hid Hteam [= <-]. by eapply validate_agent_member.
Qed.

Lemma follows_mark_running s now id agent rev op :
  run_inv s → ready s → members_agree s → trim_is_empty op = false →
  follows s (mark_task_running sha256 to_vec s now run id agent rev op).1.
Proof.
  intros Hi Hr Hag Hop. unfold mark_task_running. apply slift_follows; [by apply follows_refl|].
  intros [] Hv. by apply follows_cas_revision.
Qed.
End replay_cas.
