(* ===== verification/CollaborationReplayBatch.v ===== *)
(** * Replaying admissions

    The operations that admit tasks, alone or together with a Team and its
    members in one batch: their [task_created] records and the marker of the
    batch, replayed, give the registries after the call.  A task whose Team is
    not complete waits until the marker of its batch is replayed. *)
From S2P Require Import ResourceTypes Prelude Json Types TaskRegistry RuntimeLedger LedgerFacts LedgerAdmission WorkflowTypes Identity Registries LedgerInterface MessageBus BusFacts CollaborationTypes CollaborationRuntime CollaborationTasks CollaborationSpawn CollaborationRestore CollaborationHistory CollaborationReplay CollaborationReplayTasks.

(** ** Several tasks at once *)

Abbreviation ids l := (tr_task_id <$> l).
Abbreviation upserts l m := (fold_left upsert l m).
Abbreviation defer l d := (fold_left (λ (m : Deferred) t, <[tr_task_id t := t]> m) l d).

Lemma upserts_out l m id : id ∉ ids l → rg_tasks (upserts l m) !! id = rg_tasks m !! id.
Proof.
  revert m. induction l as [|t l IH]; intros m; [done|]. rewrite fmap_cons, not_elem_of_cons. intros [Hne H].
  cbn [fold_left]. rewrite IH by done. simpl. by rewrite lookup_insert_ne.
Qed.

Lemma upserts_in l m t : NoDup (ids l) → t ∈ l → rg_tasks (upserts l m) !! tr_task_id t = Some t.
Proof.
  revert m. induction l as [|t' l IH]; intros m; [by intros _ ?%elem_of_nil|].
  rewrite fmap_cons, NoDup_cons. intros [Hn Hnd] [->|H]%elem_of_cons; cbn [fold_left].
  - rewrite upserts_out by done. simpl. by rewrite lookup_insert_eq.
  - by apply IH.
Qed.

Lemma upserts_applied l m : rg_applied (upserts l m) = rg_applied m.
Proof. revert m. induction l as [|t l IH]; intros m; [done|]. cbn [fold_left]. by rewrite IH. Qed.

Lemma upserts_cases l m id t :
  NoDup (ids l) → rg_tasks (upserts l m) !! id = Some t →
  (t ∈ l ∧ tr_task_id t = id) ∨ (id ∉ ids l ∧ rg_tasks m !! id = Some t).
Proof.
  intros Hnd H. destruct (decide (id ∈ ids l)) as [Hin|Hout].
  - apply list_elem_of_fmap in Hin as (t' & -> & Hin). rewrite (upserts_in l m t') in H by done.
    injection H as <-. by left.
  - right. by rewrite upserts_out in H.
Qed.

Lemma registry_eq m m' : rg_tasks m = rg_tasks m' → rg_applied m = rg_applied m' → m = m'.
Proof. destruct m, m'. simpl. by intros -> ->. Qed.

(** Tasks that are registered as they are, or among [new]: upserting all of
    them is upserting the new ones, whichever of these were upserted before. *)
Lemma upserts_known l some new m :
  NoDup (ids l) → NoDup (ids new) → NoDup (ids some) → some ⊆ new → new ⊆ l →
  (∀ t, t ∈ l → t ∈ new ∨ rg_tasks m !! tr_task_id t = Some t) →
  upserts l (upserts some m) = upserts new m.
Proof.
  intros Hl Hn Hs Hsn Hnl Hall. apply registry_eq; [|by rewrite !upserts_applied].
  apply map_eq. intros id. destruct (decide (id ∈ ids l)) as [Hin|Hout].
  - apply list_elem_of_fmap in Hin as (t & -> & Hin). rewrite upserts_in by done.
    destruct (Hall t Hin) as [Hnew|Hm]; [by rewrite upserts_in|].
    destruct (decide (tr_task_id t ∈ ids new)) as [H|H]; [|by rewrite upserts_out].
    apply list_elem_of_fmap in H as (t' & E & Ht'). rewrite E, upserts_in by done.
    f_equal. destruct (list_elem_of_lookup_1 _ _ Hin) as [i Hi].
    destruct (list_elem_of_lookup_1 _ _ (Hnl _ Ht')) as [j Hj].
    assert (i = j) as <-; [|congruence].
    apply (NoDup_lookup (ids l) i j (tr_task_id t)); [done|by rewrite list_lookup_fmap, Hi|].
    by rewrite list_lookup_fmap, Hj, E.
  - assert (∀ k, k ⊆ l → id ∉ ids k) as Hsub.
    { intros k Hk (t & -> & Ht)%list_elem_of_fmap. apply Hout, list_elem_of_fmap. eauto. }
    rewrite !upserts_out; [done|apply Hsub..|done]; [done|by etrans].
Qed.

Lemma registry_inv_upserts l m :
  registry_inv m → Forall task_record_ok l → NoDup (ids l) →
  (∀ t, t ∈ l → rg_tasks m !! tr_task_id t = None) → registry_inv (upserts l m).
Proof.
  revert m. induction l as [|t l IH]; intros m Hm Hok Hnd Hnone; [done|].
  apply Forall_cons in Hok as [Ht Hok]. rewrite fmap_cons, NoDup_cons in Hnd. destruct Hnd as [Hn Hnd].
  cbn [fold_left]. apply IH; [|done|done|].
  - apply registry_inv_create; [done|done|]. apply Hnone. by left.
  - intros t' Ht'. simpl. rewrite lookup_insert_ne; [apply Hnone; by right|].
    intros E. apply Hn. rewrite E. by apply list_elem_of_fmap_2.
Qed.

(** Tasks a replay keeps aside until their Team is complete. *)
Lemma nodup_filter (P : TaskRecord → Prop) `{!∀ t, Decision (P t)} l :
  NoDup (ids l) → NoDup (ids (filter P l)).
Proof.
  induction l as [|t l IH]; [done|]. rewrite fmap_cons, NoDup_cons. intros [Hn Hnd]. rewrite filter_cons.
  case_decide; [|by apply IH]. rewrite fmap_cons, NoDup_cons. split; [|by apply IH].
  intros (t' & E & Ht')%list_elem_of_fmap. apply list_elem_of_filter in Ht' as [_ Ht']. apply Hn.
  rewrite E. by apply list_elem_of_fmap_2.
Qed.

Lemma filter_true {A} (P : A → Prop) `{HP : !∀ x, Decision (P x)} (l : list A) :
  (∀ x, x ∈ l → P x) → filter P l = l ∧ filter (λ x, ¬ P x) l = [].
Proof.
  induction l as [|x l IH]; intros Hl; [done|]. destruct IH as [E1 E2]; [intros; apply Hl; by right|].
  assert (P x) by (apply Hl; by left). rewrite !filter_cons, decide_True, decide_False, E1, E2 by tauto. done.
Qed.

Lemma defer_lookup l d id t :
  defer l d !! id = Some t → (t ∈ l ∧ tr_task_id t = id) ∨ (d !! id = Some t ∧ id ∉ ids l).
Proof.
  revert d. induction l as [|t' l IH]; intros d; cbn [fold_left].
  { intros H. right. split; [done|]. apply not_elem_of_nil. }
  intros [[? ?]|[H Hn]]%IH; [left; split; [by right|done]|].
  apply lookup_insert_Some in H as [[<- <-]|[Hne H]]; [left; split; [by left|done]|].
  right. split; [done|]. rewrite fmap_cons, not_elem_of_cons. naive_solver.
Qed.

Lemma defer_keep l d id : is_Some (d !! id) → is_Some (defer l d !! id).
Proof.
  revert d. induction l as [|t l IH]; intros d H; [done|]. cbn [fold_left]. apply IH. unfold Deferred.
  rewrite lookup_insert. by case_decide.
Qed.

Lemma defer_in l d t : t ∈ l → is_Some (defer l d !! tr_task_id t).
Proof.
  revert d. induction l as [|t' l IH]; intros d; [by intros ?%elem_of_nil|].
  intros [->|Ht]%elem_of_cons; cbn [fold_left]; [|by apply IH].
  apply defer_keep. unfold Deferred. rewrite lookup_insert_eq. by eexists.
Qed.

Lemma deletes_lookup (l : list TaskRecord) (d : Deferred) id t :
  fold_left (λ (d : Deferred) t, delete (tr_task_id t) d) l d !! id = Some t → d !! id = Some t ∧ id ∉ ids l.
Proof.
  revert d. induction l as [|t' l IH]; intros d; cbn [fold_left].
  { intros H. split; [done|]. apply not_elem_of_nil. }
  intros [H Hn]%IH. apply lookup_delete_Some in H as [Hne H]. split; [done|].
  rewrite fmap_cons, not_elem_of_cons. naive_solver.
Qed.

Lemma restore_tasks s d l :
  fold_left restore_task l (s, d) =
  (set_tasks s (upserts l (rt_tasks s)), fold_left (λ d t, delete (tr_task_id t) d) l d).
Proof.
  revert s d. induction l as [|t l IH]; intros s d; cbn [fold_left]; [by destruct s|]. apply IH.
Qed.

(** ** What an admission writes *)

Lemma admit_fold_filter existing tasks acc acc' :
  fold_result (admit_task existing) acc tasks = Ok acc' →
  acc'.2 = acc.2 ++ filter (λ t, existing !! tr_task_id t = None) tasks.
Proof.
  revert acc. induction tasks as [|t tasks IH]; intros acc; cbn [fold_result].
  - intros [= <-]. by rewrite filter_nil, app_nil_r.
  - rewrite rbind_ok. intros (acc1 & H1 & H2). apply IH in H2. rewrite H2. unfold admit_task in H1.
    rewrite filter_cons. destruct (existing !! tr_task_id t) as [t'|] eqn:E.
    + rewrite decide_False by done. case_match; [|done]. by injection H1 as <-.
    + rewrite decide_True by done. case_decide; [done|]. injection H1 as <-. simpl.
      by rewrite <-(assoc_L (++)).
Qed.

Lemma validate_batch_filter existing max tasks admitted :
  validate_collaboration_batch existing max tasks = Ok admitted →
  admitted = filter (λ t, existing !! tr_task_id t = None) tasks.
Proof.
  unfold validate_collaboration_batch. rewrite rbind_ok. intros ([i acc] & Hf & H).
  case_decide; [done|]. injection H as <-. by apply admit_fold_filter in Hf.
Qed.

(** The record of an admitted task. *)
Definition created_by (run : RunId) (t : TaskRecord) (r : LedgerRecord) : Prop :=
  lr_record_type r = "task_created" ∧ lr_payload r = to_value t ∧ lr_run_id r = run.

Section replay_admission.
Context (sha256 : string → list Byte.byte) (to_vec : Value → string).
Context (run : RunId).

Abbreviation records s := (run_records (rt_ledger s) run).
Abbreviation run_inv := (run_inv run).
Abbreviation follows := (follows sha256 to_vec run).
Abbreviation restore_all := (restore_all sha256 to_vec).

Lemma in_tree_refl : in_tree run run = true.
Proof. unfold in_tree. by rewrite bool_decide_true. Qed.

(** The tasks of the tree that an admission sees are the registered ones, as
    far as this Run is concerned. *)
Lemma existing_registered s existing :
  run_inv s → existing_root_tasks (rt_ledger s) run = Ok existing →
  (∀ id, existing !! id = None → rg_tasks (rt_tasks s) !! id = None) ∧
  (∀ t t', tr_run_id t = run → existing !! tr_task_id t = Some t' → task_record_eqb t' t = true →
     is_Some (rg_tasks (rt_tasks s) !! tr_task_id t)).
Proof.
  intros Hi He. pose proof (existing_root_tasks_all _ _ _ He) as Hall.
  destruct (existing_root_tasks_spec _ _ Hall) as (m & Hm & H1 & H2).
  rewrite He in Hm. injection Hm as <-. split.
  - intros id Hid. destruct (rg_tasks (rt_tasks s) !! id) as [t|] eqn:E; [|done].
    destruct (proj1 (ri_created _ _ Hi id)) as (r & t' & Hr & [Hty Hd] & <-); [by eexists|].
    destruct (H2 t') as [x Hx]; [|congruence]. exists r. split; [|done].
    apply elem_of_root_task_records. split; [done|]. exists run. split; [apply in_tree_refl|done].
  - intros t t' Hrun Hex Heq. apply H1 in Hex as [(r & Hr & Hd) Hid].
    apply elem_of_root_task_records in Hr as [Hty (other & _ & Hr)].
    apply (ri_created _ _ Hi). exists r, t'. split_and!; [|done..].
    destruct (decide (other = run)) as [->|Hne]; [done|]. exfalso.
    apply (ri_elsewhere _ _ Hi other r t' Hne Hr); [done|].
    unfold task_record_eqb in Heq. rewrite !andb_true_iff, !bool_decide_eq_true in Heq.
    destruct Heq as [[[[[[[[[[[[[[E _] _] _] _] _] _] _] _] _] _] _] _] _] _]. congruence.
Qed.

Record admission (s : Runtime) (max : Z) (tasks : list TaskRecord) (additional : list PendingRecord)
    (admitted : list TaskRecord) (l : InMemoryLedgerState) (rs_c rs_x : list LedgerRecord) : Prop := {
  ad_ledger : ledger_inv l;
  ad_records : run_records l run = records s ++ rs_c ++ rs_x;
  ad_other : ∀ other, other ≠ run → run_records l other = run_records (rt_ledger s) other;
  ad_created : Forall2 (created_by run) admitted rs_c;
  ad_extra : ∃ extra,
    prepare_additional_records run (existing_metadata (rt_ledger s) run) tasks additional = Ok extra ∧
    Forall2 (λ p r, lr_record_type r = p.1.2 ∧ lr_payload r = p.2) extra rs_x;
  ad_nodup : NoDup (ids admitted);
  ad_filter : ∃ existing : gmap TaskId TaskRecord,
    admitted = filter (λ t, existing !! tr_task_id t = None) tasks ∧
    (∀ id, existing !! id = None → rg_tasks (rt_tasks s) !! id = None) ∧
    (∀ t, t ∈ tasks → tr_run_id t = run → is_Some (existing !! tr_task_id t) →
       is_Some (rg_tasks (rt_tasks s) !! tr_task_id t));
}.

Lemma rt_admit_cases s now max tasks additional :
  run_inv s →
  (∃ e, rt_admit s now run max tasks additional = (s, Err e)) ∨
  ∃ admitted l rs_c rs_x,
    rt_admit s now run max tasks additional = (set_ledger s l, Ok (rs_c ++ rs_x)) ∧
    admission s max tasks additional admitted l rs_c rs_x.
Proof.
  intros Hi. unfold rt_admit, admit_tasks_and_append.
  destruct (admit_inner_cases (rt_ledger s) now run run max tasks additional None)
    as [[e ->]|(existing & admitted & extra & l & rs & _ & He & Hv & Hx & Hmax & Hp & ->)].
  { left. exists (RtLedger e). by rewrite set_ledger_id. }
  right. apply push_pending_shape in Hp as (Hpush & _ & Hrun & Hother & Hf);
    [|intros p; by eapply admitted_durable|done].
  apply Forall2_app_inv_l in Hf as (rs_c & rs_x & Hc & Hxs & ->). exists admitted, l, rs_c, rs_x.
  split; [done|]. pose proof (validate_batch_ok _ _ _ _ Hv) as (Hnd & _ & _ & Hcov & _).
  destruct (existing_registered s existing Hi He) as [H1 H2]. split; [| | | | |done|].
  - eapply pushes_inv; [done|apply Hi].
  - done.
  - intros other Hne. unfold run_records. by rewrite Hother.
  - apply Forall2_fmap_l in Hc. eapply Forall2_impl; [exact Hc|]. by intros t r (_ & ? & ? & ?).
  - exists extra. split; [done|]. eapply Forall2_impl; [exact Hxs|]. by intros p r (_ & ? & ? & _).
  - exists existing. split_and!; [by eapply validate_batch_filter|done|].
    intros t Ht Hr [t' Ht']. eapply H2; [done|done|].
    destruct (Hcov t Ht) as [(t'' & Ht'' & E)|Hadm]; [congruence|].
    apply validate_batch_filter in Hv. rewrite Hv in Hadm. apply list_elem_of_filter in Hadm as [Hn _]. congruence.
Qed.

(** ** Replaying the records of an admission *)

(** The state and the owner of a Team task a replay accepts. *)
Definition well_placed (t : TaskRecord) : Prop :=
  task_record_ok t ∧ (tr_team_id t ≠ None → tr_state t ≠ Created ∧ ownership_ok t).

(** A task a replay registers at once: it has no Team or its Team is complete. *)
Definition in_place (s : Runtime) (t : TaskRecord) : Prop :=
  match tr_team_id t with Some id => team_ready s run id t = true | None => True end.

#[export] Instance in_place_dec s t : Decision (in_place s t).
Proof. unfold in_place. destruct (tr_team_id t); apply _. Defined.

Lemma restore_created_one s d t r :
  well_placed t → created_by run t r → d !! tr_task_id t = None →
  restore_one sha256 to_vec s d run r =
  if decide (in_place s t) then (set_tasks s (upsert (rt_tasks s) t), d, Ok tt)
  else (s, <[tr_task_id t := t]> d, Ok tt).
Proof.
  intros [Hok Hwp] (Hty & Hp & _) Hd.
  assert (restore_one sha256 to_vec s d run r = restore_task_created s d run (to_value t)) as ->.
  { unfold restore_one. by rewrite Hty, Hp. }
  unfold restore_task_created. rewrite from_to_value by done. cbn [ok_or slift].
  destruct (tr_team_id t) as [id|] eqn:Ht; [|by rewrite decide_True by (by unfold in_place; rewrite Ht)].
  destruct Hwp as (Hc & Hq & Ha); [done|].
  assert (match tr_state t with
          | Created => Err (RtOther ("team Task " +:+ tr_task_id t +:+ " cannot be restored in Created state"))
          | Queued => ensure (bool_decide (tr_owner_agent_id t = None))
              (RtOther ("Queued team Task " +:+ tr_task_id t +:+ " cannot carry an owner"))
          | Assigned | Running => ensure (bool_decide (tr_owner_agent_id t ≠ None))
              (RtOther (task_state_debug (tr_state t) +:+ " team Task " +:+ tr_task_id t +:+ " has no owner"))
          | _ => Ok tt end = Ok tt) as ->.
  { destruct (tr_state t) eqn:E; try done; rewrite bool_decide_true; auto;
      destruct Ha as [? ->]; done. }
  cbn [slift]. rewrite Hd. destruct (team_ready s run id t) eqn:E.
  - by rewrite decide_True by (by unfold in_place; rewrite Ht).
  - by rewrite decide_False by (unfold in_place; rewrite Ht; congruence).
Qed.

Lemma restore_created s d ts rs :
  Forall2 (created_by run) ts rs → Forall well_placed ts → NoDup (ids ts) →
  (∀ t, t ∈ ts → d !! tr_task_id t = None) →
  restore_all s d run rs =
  (set_tasks s (upserts (filter (in_place s) ts) (rt_tasks s)),
   defer (filter (λ t, ¬ in_place s t) ts) d, Ok tt).
Proof.
  intros H. revert s d. induction H as [|t r ts rs Hr _ IH]; intros s d Hw Hnd Hd.
  { by destruct s. }
  apply Forall_cons in Hw as [Hw Hws]. rewrite fmap_cons, NoDup_cons in Hnd. destruct Hnd as [Hn Hnd].
  assert (∀ t', t' ∈ ts → tr_task_id t' ≠ tr_task_id t) as Hne.
  { intros t' Ht' E. apply Hn. rewrite <-E. by apply list_elem_of_fmap_2. }
  cbn [CollaborationRestore.restore_all]. rewrite (restore_created_one s d t r);
    [|done|done|apply Hd; by left].
  rewrite !filter_cons. destruct (decide (in_place s t)) as [Hin|Hout].
  - rewrite decide_False by tauto. rewrite IH; [done..|]. intros t' Ht'. apply Hd. by right.
  - rewrite decide_True by done. rewrite IH; [done..|]. intros t' Ht'.
    unfold Deferred. rewrite lookup_insert_ne by (intros E; by eapply Hne). apply Hd. by right.
Qed.

(** ** The invariant after an admission *)

Lemma admission_ext s s' max tasks additional admitted l rs_c rs_x :
  rt_ledger s' = rt_ledger s → rt_tasks s' = rt_tasks s →
  admission s max tasks additional admitted l rs_c rs_x →
  admission s' max tasks additional admitted l rs_c rs_x.
Proof. intros E1 E2 []. split; rewrite ?E1, ?E2; done. Qed.

Lemma admitted_fresh s max tasks additional admitted l rs_c rs_x t :
  admission s max tasks additional admitted l rs_c rs_x → t ∈ admitted →
  t ∈ tasks ∧ rg_tasks (rt_tasks s) !! tr_task_id t = None.
Proof.
  intros Had Ht. destruct (ad_filter _ _ _ _ _ _ _ _ Had) as (ex & E & H & _).
  rewrite E in Ht. apply list_elem_of_filter in Ht as [H1 H2]. auto.
Qed.

Lemma created_of t r : task_record_ok t → created_by run t r → creates r t.
Proof. intros Hok (Hty & Hp & _). split; [done|]. by rewrite Hp, from_to_value. Qed.

Lemma created_records s max tasks additional admitted l rs_c rs_x r :
  admission s max tasks additional admitted l rs_c rs_x → r ∈ rs_c →
  lr_record_type r = "task_created" ∧ ∃ t, t ∈ admitted ∧ created_by run t r.
Proof.
  intros Had Hr. destruct (Forall2_flip (created_by run) admitted rs_c) as [_ Hf].
  specialize (Hf (ad_created _ _ _ _ _ _ _ _ Had)).
  apply list_elem_of_lookup_1 in Hr as [i Hi]. destruct (Forall2_lookup_l _ _ _ _ _ Hf Hi) as (t & Ht & Hc).
  split; [by destruct Hc|]. exists t. split; [by eapply list_elem_of_lookup_2|done].
Qed.

Definition extra_ok (s : Runtime) (r : LedgerRecord) : Prop :=
  lr_record_type r ∉ bus_types ∧ lr_record_type r ≠ "task_created" ∧ lr_record_type r ≠ "task_cas" ∧
  (lr_record_type r = "collaboration_batch_prepared" → marker_applied (rt_teams s) r).

Lemma inv_admit s max tasks additional admitted l rs_c rs_x :
  run_inv s → admission s max tasks additional admitted l rs_c rs_x →
  Forall (extra_ok s) rs_x → Forall task_record_ok tasks → (∀ t, t ∈ admitted → task_inv run (rt_teams s) t) →
  run_inv (set_ledger (set_tasks s (upserts admitted (rt_tasks s))) l).
Proof.
  intros Hi Had Hx Hok Hti. pose proof (ad_records _ _ _ _ _ _ _ _ Had) as Hrec.
  pose proof (ad_nodup _ _ _ _ _ _ _ _ Had) as Hnd. rewrite Forall_forall in Hok. rewrite Forall_forall in Hx.
  assert (∀ t, t ∈ admitted → task_record_ok t ∧ rg_tasks (rt_tasks s) !! tr_task_id t = None) as Hfr.
  { intros t Ht. destruct (admitted_fresh _ _ _ _ _ _ _ _ _ Had Ht). auto. }
  assert (∀ r, r ∈ run_records l run → r ∈ records s ∨ (∃ t, t ∈ admitted ∧ created_by run t r) ∨ extra_ok s r) as Hin.
  { intros r. rewrite Hrec, !elem_of_app. intros [?|[H|?]]; [by left| |right; right; auto].
    right. left. by eapply created_records. }
  destruct Hi as [I1 I2 I3 I4 I5 I6 I7 I8 I9 I10 I11]. split; try done; simpl.
  - apply Had.
  - eapply (coherent_others run (rt_bus s)); [done|apply Had|done|exact Hrec|].
    apply Forall_app. split; apply Forall_forall; intros r Hr.
    + apply (created_records _ _ _ _ _ _ _ _ _ Had) in Hr as [-> _]. by apply (bool_decide_unpack _).
    + by destruct (Hx r Hr).
  - apply registry_inv_upserts; [done| |done|by intros t [_ ?]%Hfr]. apply Forall_forall. by intros t [? _]%Hfr.
  - intros id t Hl. apply upserts_cases in Hl as [[Ht _]|[_ Hl]]; [by apply Hti|by eapply I4|done].
  - intros id. split.
    + intros [t Hl]. apply upserts_cases in Hl as [[Ht <-]|[_ Hl]]; [| |done].
      * destruct (list_elem_of_lookup_1 _ _ Ht) as [i Hi].
        destruct (Forall2_lookup_l _ _ _ _ _ (ad_created _ _ _ _ _ _ _ _ Had) Hi) as (r & Hr & Hc).
        exists r, t. split_and!; [|by apply created_of; [apply Hfr|]|done].
        rewrite Hrec, !elem_of_app. right. left. by eapply list_elem_of_lookup_2.
      * destruct (proj1 (I5 id)) as (r & t' & Hr & H); [by eexists|]. exists r, t'. split; [|done].
        rewrite Hrec, elem_of_app. by left.
    + intros (r & t & Hr & [Hty Hd] & <-). destruct (decide (tr_task_id t ∈ ids admitted)) as [H|H].
      * apply list_elem_of_fmap in H as (t' & -> & Ht'). rewrite upserts_in by done. by eexists.
      * rewrite upserts_out by done. apply I5. destruct (Hin r Hr) as [?|[(t' & Ht' & Hc)|(_ & ? & _)]]; [|exfalso|done].
        -- by exists r, t.
        -- apply created_of in Hc as [_ Hc]; [|by apply Hfr]. apply H. replace t with t' by congruence.
           by apply list_elem_of_fmap_2.
  - intros other r t Hne. rewrite (ad_other _ _ _ _ _ _ _ _ Had) by done. by apply I6.
  - intros r Hr Hty. destruct (Hin r Hr) as [Ho|[(t & _ & (E & _))|(_ & _ & ? & _)]]; [|congruence|done].
    destruct (I7 r Ho Hty) as (op & id & n & t & H1 & H2 & H3 & H4 & H5 & H6). exists op, id, n, t.
    rewrite upserts_applied, upserts_out; [done|]. intros (t' & -> & Ht')%list_elem_of_fmap.
    apply Hfr in Ht' as [_ ?]. congruence.
  - intros r Hr Hty. destruct (Hin r Hr) as [Ho|[(t & _ & (E & _))|(_ & _ & _ & H)]]; [by apply I8|congruence|auto].
Qed.

(** ** Tasks on their own *)

Lemma follows_admission s max tasks additional admitted l rs_c :
  run_inv s → admission s max tasks additional admitted l rs_c [] → Forall task_record_ok tasks →
  (∀ t, t ∈ tasks → in_place s t ∧ well_placed t ∧ task_inv run (rt_teams s) t) →
  follows s (set_ledger (set_tasks s (upserts admitted (rt_tasks s))) l).
Proof.
  intros Hi Had Hok Hall.
  assert (∀ t, t ∈ admitted → in_place s t ∧ well_placed t ∧ task_inv run (rt_teams s) t) as Hadm.
  { intros t Ht. by apply Hall, (admitted_fresh _ _ _ _ _ _ _ _ _ Had). }
  split; [eapply inv_admit; [done|done|constructor|done|by intros t (_ & _ & ?)%Hadm]|].
  exists rs_c. split; [simpl; by rewrite (ad_records _ _ _ _ _ _ _ _ Had), app_nil_r|]. intros l'.
  rewrite (restore_created _ _ admitted); [|apply Had| |apply Had|done].
  2:{ apply Forall_forall. by intros t (_ & ? & _)%Hadm. }
  destruct (filter_true (in_place (set_ledger s l')) admitted) as [-> ->]; [by intros t (? & _)%Hadm|].
  done.
Qed.

Lemma no_extra s max tasks admitted l rs_c rs_x :
  admission s max tasks [] admitted l rs_c rs_x → rs_x = [].
Proof.
  intros Had. destruct (ad_extra _ _ _ _ _ _ _ _ Had) as (extra & Hx & Hf). injection Hx as <-.
  by apply Forall2_nil_inv_l in Hf.
Qed.

(** A task the runtime accepts is one a replay registers. *)
Lemma validated_placed s t :
  validate_runtime_task s run t = Ok tt → task_input_ok s t →
  in_place s t ∧ well_placed t ∧ task_inv run (rt_teams s) t.
Proof.
  unfold validate_runtime_task, validate_task_owner, validate_task_team. rewrite rbind_ok.
  intros ([] & Hval & H) (Hok & Hint & _). rewrite rbind_ok in Hval.
  destruct Hval as (_ & Hrun%ensure_ok%bool_decide_eq_true & Hval). rewrite rbind_ok in Hval.
  destruct Hval as (_ & _ & Hown). unfold in_place, well_placed, task_inv, team_task_ok. destruct (tr_team_id t) as [id|] eqn:Ht.
  2:{ split_and!; done. }
  rewrite rbind_ok in H. destruct H as (team & Hteam%ok_or_ok & H).
  rewrite rbind_ok in H. destruct H as (_ & Hline%ensure_ok & H).
  rewrite rbind_ok in H. destruct H as (c & Hc%ok_or_ok & H).
  rewrite rbind_ok in H. destruct H as (_ & Hcm%ensure_ok & Hst).
  assert (∀ o, tr_owner_agent_id t = Some o → o ∈ tm_members team) as Hmem.
  { intros o Ho. unfold check_team_task_state in Hst. rewrite Ho in Hst. cbn [ok_or rbind] in Hst.
    destruct (tr_state t); try done; apply ensure_ok, bool_decide_eq_true in Hst; done. }
  assert (tr_state t ≠ Created ∧ ownership_ok t) as Hown'.
  { unfold check_team_task_state in Hst. destruct (tr_state t) eqn:E; try done;
      (split; [done|]; split; rewrite E; try done); intros _.
    - by apply ensure_ok, bool_decide_eq_true in Hst.
    - apply rbind_ok in Hst as (o & Ho%ok_or_ok & _). rewrite Ho. by eexists.
    - apply rbind_ok in Hst as (o & Ho%ok_or_ok & _). rewrite Ho. by eexists. }
  split_and!; [|done|done|done|done|].
  - unfold team_ready. rewrite Hteam, Hline, Hc, Hcm. simpl. destruct (tr_owner_agent_id t) as [o|]; [|done].
    apply rbind_ok in Hown as (a & ->%ok_or_ok & ->%ensure_ok). simpl. by rewrite bool_decide_true by auto.
  - intros id' [= <-]. destruct Hown' as [? ?]. split_and!; [done..|]. exists team, c.
    split_and!; [done..|by apply bool_decide_eq_true in Hcm|done].
Qed.

Lemma validated_all s tasks :
  for_each (validate_runtime_task s run) tasks = Ok tt → Forall (task_input_ok s) tasks →
  Forall task_record_ok tasks ∧
  ∀ t, t ∈ tasks → in_place s t ∧ well_placed t ∧ task_inv run (rt_teams s) t.
Proof.
  intros Hv%for_each_ok Hin. split; [eapply Forall_impl; [exact Hin|by intros t [? _]]|].
  rewrite Forall_forall in Hv. rewrite Forall_forall in Hin. intros t Ht. apply validated_placed; auto.
Qed.

Lemma project_created s ts rs :
  Forall2 (created_by run) ts rs → Forall task_record_ok ts →
  project_all s rs = (set_tasks s (upserts ts (rt_tasks s)), Ok tt).
Proof.
  intros H. revert s. induction H as [|t r ts rs (_ & Hp & _) _ IH]; intros s Hok; [by destruct s|].
  apply Forall_cons in Hok as [Hok Hoks]. cbn [project_all]. unfold project_admitted.
  rewrite Hp, from_to_value by done. cbn [ok_or slift sbind]. by rewrite IH.
Qed.

Lemma upsert_registered s tasks :
  (∀ t, t ∈ tasks → is_Some (rg_tasks (rt_tasks s) !! tr_task_id t)) →
  fold_left upsert_missing tasks s = s.
Proof.
  induction tasks as [|t tasks IH]; intros H; [done|]. cbn [fold_left].
  assert (upsert_missing s t = s) as ->.
  { unfold upsert_missing, get_task. destruct (H t) as [t' ->]; [by left|done]. }
  apply IH. intros t' Ht'. apply H. by right.
Qed.

(** Each task of an admission is registered afterwards. *)
Lemma admission_covers s max tasks additional admitted l rs_c rs_x t :
  admission s max tasks additional admitted l rs_c rs_x → t ∈ tasks → tr_run_id t = run →
  is_Some (rg_tasks (upserts admitted (rt_tasks s)) !! tr_task_id t).
Proof.
  intros Had Ht Hrun. destruct (ad_filter _ _ _ _ _ _ _ _ Had) as (ex & E & _ & H).
  pose proof (ad_nodup _ _ _ _ _ _ _ _ Had) as Hnd.
  destruct (ex !! tr_task_id t) eqn:Hex.
  - rewrite upserts_out; [by apply H|]. intros (t' & Hid & Ht')%list_elem_of_fmap.
    rewrite E in Ht'. apply list_elem_of_filter in Ht' as [Hn _]. congruence.
  - assert (t ∈ admitted) by (rewrite E; by apply list_elem_of_filter).
    rewrite upserts_in by done. by eexists.
Qed.

Lemma follows_admit_tasks s now max tasks :
  run_inv s → Forall (task_input_ok s) tasks → follows s (admit_runtime_tasks s now run max tasks).1.
Proof.
  intros Hi Hin. rewrite admission_alone. apply slift_follows; [by apply follows_refl|]. intros [] Hv.
  destruct (validated_all s tasks Hv Hin) as [Hok Hall].
  destruct (rt_admit_cases s now max tasks [] Hi) as [[e ->]|(admitted & l & rs_c & rs_x & -> & Had)];
    [by apply follows_refl|]. cbn [sbind].
  pose proof (no_extra _ _ _ _ _ _ _ Had) as ->. rewrite app_nil_r, (project_created _ admitted); [|apply Had|].
  2:{ apply Forall_forall. intros t Ht. rewrite Forall_forall in Hok.
      by apply Hok, (admitted_fresh _ _ _ _ _ _ _ _ _ Had). }
  cbn [sbind fst]. rewrite upsert_registered.
  - by apply (follows_admission s max tasks [] admitted l rs_c).
  - intros t Ht. apply (admission_covers s max tasks [] admitted l rs_c [] t Had Ht). by destruct (Hall t Ht) as (_ & _ & ? & _).
Qed.

Lemma follows_create_task s now team by_agent max task :
  run_inv s → task_input_ok s (initial_task task) →
  follows s (create_collaboration_task s now run team by_agent max task).1.
Proof.
  intros Hi Hin. unfold create_collaboration_task.
  do 5 (apply slift_follows; [by apply follows_refl|intros ? _]).
  assert (follows s (admit_runtime_tasks s now run max [initial_task task]).1) as H
    by (apply follows_admit_tasks; [done|by constructor]).
  by destruct (admit_runtime_tasks _ _ _ _ _) as [s' []].
Qed.

Lemma durable_created_from rs acc acc' id t :
  fold_result durable_created acc rs = Ok acc' → acc' !! id = Some t →
  acc !! id = Some t ∨ ∃ r, r ∈ rs ∧ creates r t ∧ tr_task_id t = id.
Proof.
  revert acc. induction rs as [|r rs IH]; intros acc; cbn [fold_result].
  { intros [= <-]. by left. }
  rewrite rbind_ok. intros (acc1 & H1 & H2) Hid.
  destruct (IH acc1 H2 Hid) as [H|(r' & ? & ?)]; [|right; exists r'; split; [by right|done]].
  unfold durable_created in H1. case_decide as Hty; [injection H1 as <-; by left|].
  destruct (from_value (lr_payload r)) as [t'|] eqn:Hd; [|injection H1 as <-; by left].
  destruct (acc !! tr_task_id t'); [case_match; [injection H1 as <-; by left|done]|].
  injection H1 as <-. apply lookup_insert_Some in H as [[<- <-]|[_ H]]; [|by left].
  right. exists r. by split_and!; [left| |].
Qed.

Lemma follows_register_task s now task :
  run_inv s → ready s → task_input_ok s task → follows s (register_runtime_task s now run task).1.
Proof.
  intros Hi Hr Hin. unfold register_runtime_task. apply slift_follows; [by apply follows_refl|]. intros [] Hv.
  apply slift_follows; [by apply follows_refl|]. intros durable Hd.
  destruct (durable !! tr_task_id task) as [created|] eqn:E.
  - case_match; [|by apply follows_refl]. cbn [fst].
    destruct (durable_created_from _ _ _ _ _ Hd E) as [?|(r & Hin' & Hc & Hid)]; [by rewrite lookup_empty in *|].
    change (upsert_missing s created) with (fold_left upsert_missing [created] s).
    rewrite upsert_registered; [by apply follows_refl|].
    intros t ->%list_elem_of_singleton. apply (ri_created _ _ Hi). eauto.
  - destruct (get_task (rt_tasks s) (tr_task_id task)) eqn:Hg; [by case_match; apply follows_refl|].
    unfold persist_new_task_created. rewrite rt_append_eq. cbn [sbind fst].
    destruct (validated_placed s task Hv Hin) as (H1 & H2 & H3).
    apply (follows_admission s usize_max [task] [] [task]
             (rt_ledger (logged run s now "task_created" (to_value task)))
             [new_record run s now "task_created" (to_value task)]);
      [done| |by constructor; [apply Hin|constructor]|by intros t ->%list_elem_of_singleton].
    split.
    + apply ledger_inv_logged; [apply Hi|done].
    + apply records_logged.
    + intros other. apply records_logged_other.
    + by repeat constructor.
    + exists []. by split.
    + apply NoDup_singleton.
    + exists (rg_tasks (rt_tasks s)). split_and!; [by rewrite filter_cons, decide_True|done|].
      by intros t _ _.
Qed.
End replay_admission.
