(* ===== verification/CollaborationReplayTeams.v ===== *)
(** * Replaying batches

    The preparations that create Teams, join members and admit tasks in one
    batch: the marker of the batch, replayed after the tasks it admits, gives
    the registries after the call.  A batch whose marker is in the ledger
    already has nothing left to create or to join. *)
From S2P Require Import ResourceTypes Prelude Json Types TaskRegistry RuntimeLedger LedgerFacts LedgerAdmission WorkflowTypes Identity Registries LedgerInterface MessageBus BusFacts CollaborationTypes CollaborationRuntime CollaborationTasks CollaborationSpawn CollaborationRestore CollaborationHistory CollaborationReplay CollaborationReplayTasks CollaborationReplayBatch.

Abbreviation team_ids l := (tm_team_id <$> l).

(** ** Teams and members of a batch *)

Abbreviation creates_of l s := (fold_left create_missing l s).
Abbreviation joins_of l s := (fold_left join_member l s).

Lemma creates_grow l s : teams_grow (rt_teams s) (rt_teams (creates_of l s)).
Proof.
  revert s. induction l as [|t l IH]; intros s; cbn [fold_left]; [done|].
  etrans; [apply (create_grow _ t)|apply (IH (create_missing s t))].
Qed.

Lemma joins_grow l s : teams_grow (rt_teams s) (rt_teams (joins_of l s)).
Proof.
  revert s. induction l as [|m l IH]; intros s; cbn [fold_left]; [done|].
  etrans; [apply (join_grow _ m.1 m.2)|apply (IH (join_member s m))].
Qed.

Lemma creates_ledger l s x : creates_of l (set_ledger s x) = set_ledger (creates_of l s) x.
Proof. revert s. induction l as [|t l IH]; intros s; [done|]. apply (IH (create_missing s t)). Qed.

Lemma joins_ledger l s x : joins_of l (set_ledger s x) = set_ledger (joins_of l s) x.
Proof. revert s. induction l as [|m l IH]; intros s; [done|]. apply (IH (join_member s m)). Qed.

Lemma creates_tasks l s x : creates_of l (set_tasks s x) = set_tasks (creates_of l s) x.
Proof. revert s. induction l as [|t l IH]; intros s; [done|]. apply (IH (create_missing s t)). Qed.

Lemma joins_tasks l s x : joins_of l (set_tasks s x) = set_tasks (joins_of l s) x.
Proof. revert s. induction l as [|m l IH]; intros s; [done|]. apply (IH (join_member s m)). Qed.

Lemma batch_keeps teams ms s :
  rt_ledger (joins_of ms (creates_of teams s)) = rt_ledger s ∧
  rt_tasks (joins_of ms (creates_of teams s)) = rt_tasks s.
Proof.
  assert (∀ s, rt_ledger (joins_of ms s) = rt_ledger s ∧ rt_tasks (joins_of ms s) = rt_tasks s) as Hj.
  { induction ms as [|m ms IH]; intros x; [done|]. apply (IH (join_member x m)). }
  assert (rt_ledger (creates_of teams s) = rt_ledger s ∧ rt_tasks (creates_of teams s) = rt_tasks s) as [E1 E2].
  { revert s. induction teams as [|t teams IH]; intros x; [done|]. apply (IH (create_missing x t)). }
  destruct (Hj (creates_of teams s)) as [-> ->]. done.
Qed.

Lemma matches_coordinator t t' : team_matches (Some t) t' = true → tm_coordinator t = tm_coordinator t'.
Proof.
  simpl. unfold same_team_metadata. rewrite !andb_true_iff, !bool_decide_eq_true. tauto.
Qed.

Lemma create_missing_lookup s t :
  team_matches (team_get (rt_teams s) (tm_team_id t)) t = true →
  ∃ t', rt_teams (create_missing s t) !! tm_team_id t = Some t' ∧ tm_coordinator t' = tm_coordinator t.
Proof.
  unfold create_missing, team_create, team_get. intros Hm. simpl.
  destruct (rt_teams s !! tm_team_id t) as [t'|] eqn:E; simpl.
  - exists t'. split; [done|by apply matches_coordinator].
  - exists t. unfold TeamRegistry. by rewrite lookup_insert_eq.
Qed.

Lemma creates_lookup l s t :
  NoDup (team_ids l) → t ∈ l → team_matches (team_get (rt_teams s) (tm_team_id t)) t = true →
  ∃ t', rt_teams (creates_of l s) !! tm_team_id t = Some t' ∧ tm_coordinator t' = tm_coordinator t.
Proof.
  revert s. induction l as [|t0 l IH]; intros s; [by intros _ ?%elem_of_nil|].
  rewrite fmap_cons, NoDup_cons. intros [Hn Hnd] [->|Ht]%elem_of_cons Hm; cbn [fold_left].
  - destruct (create_missing_lookup s t0 Hm) as (t' & H1 & H2).
    destruct (creates_grow l _ _ _ H1) as (t'' & ? & ? & _). exists t''. split; [done|congruence].
  - apply IH; [done..|]. unfold team_get, create_missing, team_create in *. simpl.
    destruct (rt_teams s !! tm_team_id t0) eqn:E; simpl; [done|].
    unfold TeamRegistry. rewrite lookup_insert_ne; [done|]. intros E'. apply Hn. rewrite E'.
    by apply list_elem_of_fmap_2.
Qed.

Lemma joins_lookup l s id a :
  (id, a) ∈ l → is_Some (rt_teams s !! id) →
  ∃ t', rt_teams (joins_of l s) !! id = Some t' ∧ a ∈ tm_members t'.
Proof.
  revert s. induction l as [|m l IH]; intros s; [by intros ?%elem_of_nil|].
  intros [<-|Hin]%elem_of_cons [t Ht]; cbn [fold_left].
  - destruct (joins_grow l (join_member s (id, a)) id (with_members t ({[a]} ∪ tm_members t)))
      as (t' & Ht' & _ & Hsub); [|exists t'; split; [done|apply Hsub; simpl; set_solver]].
    simpl. unfold team_join. rewrite Ht. simpl. unfold TeamRegistry. by rewrite lookup_insert_eq.
  - apply IH; [done|]. destruct (join_grow (rt_teams s) m.1 m.2 _ _ Ht) as (t' & H & _). by eexists.
Qed.

(** Nothing is left to create or to join. *)
Lemma creates_present l s : (∀ t, t ∈ l → is_Some (rt_teams s !! tm_team_id t)) → creates_of l s = s.
Proof.
  induction l as [|t l IH]; intros H; [done|]. cbn [fold_left].
  assert (create_missing s t = s) as ->.
  { unfold create_missing, team_create. destruct (H t) as [t' ->]; [by left|]. by destruct s. }
  apply IH. intros t' Ht'. apply H. by right.
Qed.

Lemma join_present s id a team :
  members_agree s → rt_teams s !! id = Some team → a ∈ tm_members team → join_member s (id, a) = s.
Proof.
  intros Hag Ht Ha. destruct (Hag _ _ _ Ht Ha) as (r & Hr & Hrt). unfold join_member, team_join, agent_set_team.
  simpl. rewrite Ht, Hr. simpl. unfold TeamRegistry, AgentRegistry.
  assert (with_members team ({[a]} ∪ tm_members team) = team) as ->.
  { replace ({[a]} ∪ tm_members team) with (tm_members team) by set_solver. by destruct team. }
  assert ({| ar_run_id := ar_run_id r; ar_agent_id := ar_agent_id r; ar_team_id := Some id;
             ar_parent_agent_id := ar_parent_agent_id r; ar_state := ar_state r |} = r) as ->.
  { destruct r. simpl in *. by subst. }
  rewrite !insert_id by done. by destruct s.
Qed.

Lemma joins_present l s :
  members_agree s → (∀ m, m ∈ l → ∃ team, rt_teams s !! m.1 = Some team ∧ m.2 ∈ tm_members team) →
  joins_of l s = s.
Proof.
  intros Hag. induction l as [|[id a] l IH]; intros H; [done|]. cbn [fold_left].
  destruct (H (id, a)) as (team & H1 & H2); [by left|]. rewrite (join_present s id a team) by done.
  apply IH. intros m Hm. apply H. by right.
Qed.

(** ** What a batch is *)

Section replay_batches.
Context (sha256 : string → list Byte.byte) (to_vec : Value → string).
Context (run : RunId).

Abbreviation records s := (run_records (rt_ledger s) run).
Abbreviation run_inv := (run_inv run).
Abbreviation follows := (follows sha256 to_vec run).
Abbreviation restore_all := (restore_all sha256 to_vec).
Abbreviation restore_one := (restore_one sha256 to_vec).
Abbreviation admission := (admission run).

(** Teams as they are or to create, and Agents of the Run to join them. *)
Record plan_ok (s : Runtime) (teams : list TeamRecord) (ms : list (TeamId * AgentId)) : Prop := {
  po_teams : ∀ t, t ∈ teams → tm_run_id t = run ∧ tm_members t = ∅ ∧ lift_limits t = Ok tt ∧
    team_record_ok t ∧ team_matches (team_get (rt_teams s) (tm_team_id t)) t = true;
  po_nodup : NoDup (team_ids teams);
  po_members : ∀ m, m ∈ ms → m.1 ∈ team_ids teams ∧
    ∃ a, rt_agents s !! m.2 = Some a ∧ ar_run_id a = run;
}.

Definition coordinated (teams : list TeamRecord) (ms : list (TeamId * AgentId)) : Prop :=
  ∀ t, t ∈ teams → ∃ c, tm_coordinator t = Some c ∧ (tm_team_id t, c) ∈ ms.

(** The tasks of a batch are Queued without an owner or Assigned to a member. *)
Definition batch_task_ok (s : Runtime) (teams : list TeamRecord) (ms : list (TeamId * AgentId))
    (t : TaskRecord) : Prop :=
  tr_run_id t = run ∧ task_input_ok s t ∧ registered_as_is s t = Ok tt ∧
  ∀ id, tr_team_id t = Some id → id ∈ team_ids teams ∧
    ((tr_state t = Queued ∧ tr_owner_agent_id t = None) ∨
     (tr_state t = Assigned ∧ ∃ o, tr_owner_agent_id t = Some o ∧ (id, o) ∈ ms)).

Record batch_ok (s : Runtime) (teams : list TeamRecord) (ms : list (TeamId * AgentId))
    (tasks : list TaskRecord) : Prop := {
  bo_plan : plan_ok s teams ms;
  bo_coordinated : coordinated teams ms;
  bo_tasks : ∀ t, t ∈ tasks → batch_task_ok s teams ms t;
  bo_nodup : NoDup (ids tasks);
}.

Lemma inv_plan s teams ms :
  run_inv s → plan_ok s teams ms → run_inv (joins_of ms (creates_of teams s)).
Proof.
  intros Hi Hp. apply inv_joins.
  - apply inv_creates; [done|]. intros t Ht. by destruct (po_teams _ _ _ Hp t Ht) as (? & ? & _).
  - intros m Hm r. assert (rt_agents (creates_of teams s) = rt_agents s) as ->.
    { clear. revert s. induction teams as [|t l IH]; intros s; [done|]. apply (IH (create_missing s t)). }
    destruct (po_members _ _ _ Hp m Hm) as (_ & a & -> & ?). by intros [= <-].
Qed.

Lemma plan_team_after s teams ms t :
  plan_ok s teams ms → t ∈ teams →
  ∃ t', rt_teams (joins_of ms (creates_of teams s)) !! tm_team_id t = Some t' ∧
    tm_coordinator t' = tm_coordinator t ∧ ∀ a, (tm_team_id t, a) ∈ ms → a ∈ tm_members t'.
Proof.
  intros Hp Ht. destruct (creates_lookup teams s t) as (t1 & H1 & E1);
    [apply Hp|done|by apply (po_teams _ _ _ Hp)|].
  destruct (joins_grow ms _ _ _ H1) as (t2 & H2 & E2 & _). exists t2. split_and!; [done|congruence|].
  intros a Ha. destruct (joins_lookup ms (creates_of teams s) _ a Ha) as (t3 & H3 & Hin); [by eexists|].
  congruence.
Qed.

Lemma plan_marker s teams ms tasks r :
  plan_ok s teams ms → lr_payload r = batch_payload teams ms tasks →
  marker_applied (rt_teams (joins_of ms (creates_of teams s))) r.
Proof.
  intros Hp Hr. exists ms. rewrite Hr. split; [done|]. intros [id a] Hm.
  destruct (po_members _ _ _ Hp _ Hm) as [(t & E & Ht)%list_elem_of_fmap _]. simpl in *. subst id.
  destruct (plan_team_after s teams ms t Hp Ht) as (t' & H1 & _ & H3). eauto.
Qed.

Lemma batch_task_placed s teams ms t : batch_task_ok s teams ms t → well_placed t.
Proof.
  intros (_ & [Hok _] & _ & Ht). split; [done|]. destruct (tr_team_id t) as [id|] eqn:E; [|done]. intros _.
  destruct (Ht id eq_refl) as [_ [[H1 H2]|[H1 (o & H2 & _)]]]; (split; [by rewrite H1|]); split; rewrite H1;
    done.
Qed.

Lemma batch_task_inv s teams ms t :
  plan_ok s teams ms → coordinated teams ms → batch_task_ok s teams ms t →
  task_inv run (rt_teams (joins_of ms (creates_of teams s))) t.
Proof.
  intros Hp Hc Hbt. pose proof (batch_task_placed _ _ _ _ Hbt) as [_ Hw].
  destruct Hbt as (Hrun & (_ & Hint & _) & _ & Ht). split_and!; [done..|]. intros id Hid.
  rewrite Hid in Hw. destruct Hw as [Hcr Hown]; [done|]. destruct (Ht id Hid) as [(team & -> & Hteam)%list_elem_of_fmap Hst].
  split_and!; [done..|]. destruct (plan_team_after s teams ms team Hp Hteam) as (t' & H1 & H2 & H3).
  destruct (Hc team Hteam) as (c & Hc1 & Hc2). exists t', c. split_and!; [done|congruence|auto|].
  intros o Ho. destruct Hst as [[_ E]|[_ (o' & E & Hin)]]; [congruence|].
  rewrite E in Ho. injection Ho as <-. auto.
Qed.

(** A task in order is one a replay registers at once. *)
Lemma task_inv_in_place s t :
  run_inv s → members_agree s → task_inv run (rt_teams s) t → in_place run s t.
Proof.
  intros Hi Hag (_ & _ & Ht). unfold in_place. destruct (tr_team_id t) as [id|] eqn:Hid; [|done].
  destruct (Ht id Hid) as (_ & _ & team & c & H1 & H2 & H3 & H4). unfold team_ready, team_get, agent_get.
  rewrite H1, H2. destruct (ri_teams _ _ Hi _ _ H1) as [_ ->]. rewrite same_line_refl, bool_decide_true by done.
  simpl. destruct (tr_owner_agent_id t) as [o|]; [|done]. specialize (H4 o eq_refl).
  destruct (Hag _ _ _ H1 H4) as (r & Hr & _). rewrite Hr. rewrite (ri_members _ _ Hi _ _ _ _ H1 H4 Hr).
  by rewrite same_line_refl, bool_decide_true.
Qed.

(** ** Replaying the marker *)

Lemma payload_part_ok {A} `{Serde A} p part error (l : list A) :
  get part p = Some (to_value l) → Forall serde_ok l → payload_part p part error = Ok l.
Proof.
  intros E Hl. unfold payload_part. rewrite E. cbn [default from_option id].
  pose proof (from_to_value l Hl) as Hf. cbn [from_value serde_list] in Hf. by rewrite Hf.
Qed.

Lemma payload_parts teams ms tasks e1 e2 e3 :
  Forall team_record_ok teams → Forall task_record_ok tasks →
  let p := batch_payload teams ms tasks in
  payload_part p "teams" e1 = Ok teams ∧ payload_part p "memberships" e2 = Ok ms ∧
  payload_part p "tasks" e3 = Ok tasks.
Proof.
  intros H1 H2. split_and!; apply payload_part_ok; try done. by apply Forall_forall.
Qed.

Lemma restore_teams_ok s what1 what2 teams acc :
  (∀ t, t ∈ teams → tm_run_id t = run ∧ lift_limits t = Ok tt ∧
     team_matches (team_get (rt_teams s) (tm_team_id t)) t = true ∧ acc !! tm_team_id t = None) →
  NoDup (team_ids teams) →
  ∃ bt, fold_result (restore_batch_team s run what1 what2) acc teams = Ok bt ∧
    (∀ t, t ∈ teams → bt !! tm_team_id t = Some t) ∧
    (∀ id, id ∉ team_ids teams → bt !! id = acc !! id).
Proof.
  revert acc. induction teams as [|t teams IH]; intros acc Ht Hnd.
  { exists acc. split_and!; [done|by intros t ?%elem_of_nil|done]. }
  rewrite fmap_cons, NoDup_cons in Hnd. destruct Hnd as [Hn Hnd].
  destruct (Ht t) as (H1 & H2 & H3 & H4); [by left|].
  destruct (IH (<[tm_team_id t := t]> acc)) as (bt & Hbt & Hin & Hout); [|done|].
  { intros t' Ht'. destruct (Ht t') as (? & ? & ? & ?); [by right|]. split_and!; [done..|].
    rewrite lookup_insert_ne; [done|]. intros E. apply Hn. rewrite E. by apply list_elem_of_fmap_2. }
  exists bt. split_and!.
  - cbn [fold_result]. unfold restore_batch_team at 1. rewrite H2, H3, H4, bool_decide_true by done. done.
  - intros t' [->|?]%elem_of_cons; [|auto]. rewrite Hout by done. by rewrite lookup_insert_eq.
  - intros id. rewrite fmap_cons, not_elem_of_cons. intros [? ?]. rewrite Hout by done.
    by rewrite lookup_insert_ne.
Qed.

Lemma restore_plan s s0 what1 what2 what3 teams ms :
  plan_ok s0 teams ms → rt_teams s = rt_teams s0 → rt_agents s = rt_agents s0 →
  ∃ bt, fold_result (restore_batch_team s run what1 what2) ∅ teams = Ok bt ∧
    (∀ t, t ∈ teams → bt !! tm_team_id t = Some t) ∧
    for_each (restore_batch_member s run what3 bt) ms = Ok tt.
Proof.
  intros Hp Et Ea. destruct (restore_teams_ok s what1 what2 teams ∅) as (bt & H1 & H2 & _);
    [|apply Hp|exists bt; split_and!; [done..|]].
  { intros t Ht. rewrite Et. by destruct (po_teams _ _ _ Hp t Ht) as (? & ? & ? & ? & ?). }
  apply for_each_ok, Forall_forall. intros m Hm.
  destruct (po_members _ _ _ Hp m Hm) as ((t & E & Ht)%list_elem_of_fmap & a & Ha & Hrun).
  unfold restore_batch_member, agent_get. rewrite Ea, Ha. rewrite bool_decide_true.
  - cbn [ensure ok_or rbind]. by rewrite bool_decide_true.
  - right. rewrite E, H2 by done. done.
Qed.

(** A task of the batch, registered or deferred as it is. *)
Lemma restore_batch_task_ok s s0 d bt teams ms t :
  plan_ok s0 teams ms → coordinated teams ms → batch_task_ok s0 teams ms t →
  rt_teams s = rt_teams s0 → rt_agents s = rt_agents s0 →
  (∀ t, t ∈ teams → bt !! tm_team_id t = Some t) →
  (match d !! tr_task_id t with Some t => Some t | None => get_task (rt_tasks s) (tr_task_id t) end) = Some t →
  restore_batch_task s d run bt ms t = Ok tt.
Proof.
  intros Hp Hc (Hrun & [Hok _] & _ & Ht) Et Ea Hbt Hd. unfold restore_batch_task.
  rewrite bool_decide_true by done. cbn [ensure rbind]. rewrite Hd. cbn [ok_or rbind].
  rewrite task_record_eqb_refl by done. cbn [ensure rbind]. destruct (tr_team_id t) as [id|]; [|done].
  destruct (Ht id eq_refl) as [(team & -> & Hteam)%list_elem_of_fmap Hst].
  destruct (po_teams _ _ _ Hp team Hteam) as (_ & _ & _ & _ & Hm). destruct (Hc team Hteam) as (c & Hco & Hcin).
  unfold restore_batch_team_task. rewrite Et, (Hbt team Hteam).
  assert (∃ team', match team_get (rt_teams s0) (tm_team_id team) with
                   | Some t => Some t | None => Some team end = Some team' ∧ tm_coordinator team' = Some c)
    as (team' & -> & Hco').
  { destruct (team_get _ _) as [t'|] eqn:E; [|by eauto]. apply matches_coordinator in Hm.
    exists t'. split; [done|congruence]. }
  cbn [ok_or rbind]. rewrite Hco'. cbn [ok_or rbind]. unfold batch_membership.
  rewrite (bool_decide_true ((tm_team_id team, c) ∈ ms)), orb_true_r by done. cbn [ensure rbind].
  destruct Hst as [[-> ->]|[-> (o & -> & Ho)]]; [done|]. cbn [ok_or rbind]. unfold restore_batch_owner.
  destruct (po_members _ _ _ Hp _ Ho) as (_ & a & Ha & Har). simpl in Ha. unfold agent_get. rewrite Ea, Ha.
  cbn [ok_or rbind]. unfold batch_membership. rewrite bool_decide_true by done.
  by rewrite (bool_decide_true ((tm_team_id team, o) ∈ ms)), orb_true_r by done.
Qed.

Lemma restore_marker s d r teams ms tasks bt :
  lr_record_type r = "collaboration_batch_prepared" → lr_payload r = batch_payload teams ms tasks →
  Forall team_record_ok teams → Forall task_record_ok tasks →
  fold_result (restore_batch_team s run "collaboration batch Team" "collaboration batch") ∅ teams = Ok bt →
  for_each (restore_batch_member s run "collaboration batch" bt) ms = Ok tt →
  for_each (restore_batch_task s d run bt ms) tasks = Ok tt →
  restore_one s d run r = (fold_left restore_task tasks (joins_of ms (creates_of teams s), d), Ok tt).
Proof.
  intros Hty Hp Hok1 Hok2 H1 H2 H3.
  assert (restore_one s d run r = restore_batch_prepared s d run (batch_payload teams ms tasks)) as ->.
  { unfold CollaborationRestore.restore_one. by rewrite Hty, Hp. }
  destruct (payload_parts teams ms tasks "invalid collaboration batch teams"
    "invalid collaboration batch memberships" "invalid collaboration batch tasks" Hok1 Hok2) as (P1 & P2 & P3).
  unfold restore_batch_prepared. rewrite P1, P2, P3. cbn [slift]. rewrite H1. cbn [slift].
  rewrite H2. cbn [slift]. rewrite H3. done.
Qed.

(** ** The call *)

Lemma memberships_eqb (ms ms' : list (TeamId * AgentId)) :
  value_eqb (to_value ms') (to_value ms) = true → ms' = ms.
Proof.
  intros H. apply value_eqb_array in H. apply Forall2_fmap in H. apply list_eq_Forall2.
  eapply Forall2_impl; [exact H|]. intros [a b] [a' b']. simpl.
  rewrite !andb_true_iff, !bool_decide_eq_true. naive_solver.
Qed.

Abbreviation marker teams ms tasks :=
  (SyncCritical, "collaboration_batch_prepared", batch_payload teams ms tasks).

Lemma marker_extra existing tasks p extra :
  prepare_additional_records run existing tasks [(SyncCritical, "collaboration_batch_prepared", p)] = Ok extra →
  extra = [(SyncCritical, "collaboration_batch_prepared", p)] ∨
  (extra = [] ∧ already_recorded existing (SyncCritical, "collaboration_batch_prepared", p) = true).
Proof.
  unfold prepare_additional_records. simpl. rewrite rbind_ok. intros (acc & _ & H).
  rewrite rbind_ok in H. destruct H as ([teams ms] & _ & H). rewrite rbind_ok in H. destruct H as (_ & _ & H).
  destruct (already_recorded existing (SyncCritical, "collaboration_batch_prepared", p));
    simpl in H; injection H as <-; auto.
Qed.

(** The members of a batch that is recorded are in their Teams. *)
Lemma recorded_marker s teams ms tasks :
  run_inv s → already_recorded (existing_metadata (rt_ledger s) run) (marker teams ms tasks) = true →
  ∀ m, m ∈ ms → ∃ team, rt_teams s !! m.1 = Some team ∧ m.2 ∈ tm_members team.
Proof.
  intros Hi H. apply existsb_exists in H as ([ty v] & Hin & Heq). simpl in Heq.
  rewrite andb_true_iff, bool_decide_eq_true in Heq. destruct Heq as [-> Heq].
  apply list_elem_of_In in Hin. unfold existing_metadata in Hin.
  apply list_elem_of_fmap in Hin as (r & [= Hty ->] & Hr).
  destruct (ri_markers _ _ Hi r Hr) as (ms' & Hms & Happ); [done|].
  destruct (lr_payload r) as [| | | | |xs] eqn:E; try done. apply value_eqb_object in Heq as [_ Heq].
  rewrite Forall_forall in Heq. simpl in Hms. apply assoc_elem_of in Hms. destruct (Heq _ Hms) as (y & Hy & Hv).
  simpl in Hy. injection Hy as <-. by apply memberships_eqb in Hv as ->.
Qed.

Lemma upsert_missings (ex : gmap TaskId TaskRecord) tasks s :
  NoDup (ids tasks) →
  (∀ t, t ∈ tasks → ex !! tr_task_id t = None ↔ rg_tasks (rt_tasks s) !! tr_task_id t = None) →
  fold_left upsert_missing tasks s =
  set_tasks s (upserts (filter (λ t, ex !! tr_task_id t = None) tasks) (rt_tasks s)).
Proof.
  revert s. induction tasks as [|t tasks IH]; intros s Hnd Hex; [by destruct s|].
  rewrite fmap_cons, NoDup_cons in Hnd. destruct Hnd as [Hn Hnd]. cbn [fold_left].
  assert (∀ t', t' ∈ tasks → tr_task_id t ≠ tr_task_id t') as Hne.
  { intros t' Ht' E. apply Hn. rewrite E. by apply list_elem_of_fmap_2. }
  pose proof (Hex t (list_elem_of_here _ _)) as Ht. rewrite filter_cons. unfold upsert_missing at 2, get_task.
  destruct (rg_tasks (rt_tasks s) !! tr_task_id t) eqn:E.
  - rewrite decide_False by (intros H; by apply Ht in H). apply IH; [done|]. intros t' Ht'. apply Hex. by right.
  - rewrite decide_True by by apply Ht. rewrite IH; [done|done|]. intros t' Ht'. simpl.
    rewrite lookup_insert_ne by by apply Hne. apply Hex. by right.
Qed.

Lemma commit_batch_eq s max teams ms tasks additional admitted l rs_c rs_x :
  admission s max tasks additional admitted l rs_c rs_x → NoDup (ids tasks) →
  (∀ t, t ∈ tasks → tr_run_id t = run) →
  commit_batch (set_ledger s l) teams ms tasks =
  set_ledger (set_tasks (joins_of ms (creates_of teams s)) (upserts admitted (rt_tasks s))) l.
Proof.
  intros Had Hnd Hrun. destruct (ad_filter _ _ _ _ _ _ _ _ _ Had) as (ex & -> & H1 & H2).
  unfold commit_batch. rewrite creates_ledger, joins_ledger.
  destruct (batch_keeps teams ms s) as [_ Et].
  rewrite (upsert_missings ex); [simpl; by rewrite Et|done|].
  intros t Ht. simpl. rewrite Et. split; [apply H1|]. intros Hnone.
  destruct (ex !! tr_task_id t) eqn:E; [|done]. destruct (H2 t Ht) as [? ?]; [auto|by eexists|congruence].
Qed.

(** What is registered or deferred once the created tasks are replayed. *)
Lemma batch_found s max teams ms tasks additional admitted l rs_c rs_x (s1 : Runtime) t :
  admission s max tasks additional admitted l rs_c rs_x → batch_ok s teams ms tasks → t ∈ tasks →
  (match defer (filter (λ t, ¬ in_place run s1 t) admitted) (∅ : Deferred) !! tr_task_id t with
   | Some t => Some t
   | None => get_task (upserts (filter (in_place run s1) admitted) (rt_tasks s)) (tr_task_id t)
   end) = Some t.
Proof.
  intros Had Hb Ht. pose proof (bo_nodup _ _ _ _ Hb) as Hnd.
  assert (∀ t', t' ∈ admitted → tr_task_id t' = tr_task_id t → t' = t) as Huniq.
  { intros t' Ht' E. apply (admitted_fresh _ _ _ _ _ _ _ _ _ _ Had) in Ht' as [Ht' _].
    destruct (list_elem_of_lookup_1 _ _ Ht) as [i Hi]. destruct (list_elem_of_lookup_1 _ _ Ht') as [j Hj].
    assert (i = j) as <-; [|congruence]. apply (NoDup_lookup (ids tasks) i j (tr_task_id t)); [done| |].
    - by rewrite list_lookup_fmap, Hi.
    - by rewrite list_lookup_fmap, Hj, <-E. }
  destruct (defer _ _ !! _) as [t'|] eqn:Hd.
  { apply defer_lookup in Hd as [[Ht' E]|[Hd _]]; [|done]. apply list_elem_of_filter in Ht' as [_ Ht'].
    f_equal. by apply Huniq. }
  destruct (ad_filter _ _ _ _ _ _ _ _ _ Had) as (ex & Eadm & H1 & H2).
  pose proof (ad_nodup _ _ _ _ _ _ _ _ _ Had) as Hnda. unfold get_task.
  destruct (ex !! tr_task_id t) eqn:Hex.
  - destruct (bo_tasks _ _ _ _ Hb t Ht) as (Hrun & (_ & _ & Hsame) & Hreg & _). rewrite upserts_out.
    + destruct (H2 t Ht Hrun) as [t' Ht']; [by eexists|]. unfold registered_as_is, get_task in Hreg.
      rewrite Ht' in Hreg. apply ensure_ok in Hreg. rewrite Ht'. f_equal. by apply Hsame.
    + intros (t' & E & Ht')%list_elem_of_fmap. apply list_elem_of_filter in Ht' as [_ Ht'].
      rewrite Eadm in Ht'. apply list_elem_of_filter in Ht' as [Hn _]. congruence.
  - assert (t ∈ admitted) as Hin by (rewrite Eadm; by apply list_elem_of_filter).
    destruct (decide (in_place run s1 t)) as [Hp|Hp].
    + apply upserts_in; [|by apply list_elem_of_filter]. by apply nodup_filter.
    + exfalso. destruct (defer_in (filter (λ t, ¬ in_place run s1 t) admitted) ∅ t) as [? ?]; [|congruence].
      by apply list_elem_of_filter.
Qed.

Abbreviation batch_step s now max teams ms tasks :=
  (sbind (rt_admit s now run max tasks [marker teams ms tasks])
     (λ s _, (commit_batch s teams ms tasks, Ok tt))).

(** The marker was written: the replay registers what it deferred. *)
Lemma replays_batch s max teams ms tasks additional admitted l rs_c r :
  batch_ok s teams ms tasks → admission s max tasks additional admitted l rs_c [r] →
  lr_record_type r = "collaboration_batch_prepared" → lr_payload r = batch_payload teams ms tasks →
  replays sha256 to_vec run s
    (set_ledger (set_tasks (joins_of ms (creates_of teams s)) (upserts admitted (rt_tasks s))) l).
Proof.
  intros Hb Had Hty Hp. pose proof (bo_plan _ _ _ _ Hb) as Hplan.
  assert (Forall well_placed admitted) as Hw.
  { apply Forall_forall. intros t Ht. eapply batch_task_placed, (bo_tasks _ _ _ _ Hb).
    by apply (admitted_fresh _ _ _ _ _ _ _ _ _ _ Had). }
  assert (Forall task_record_ok tasks) as Hok.
  { apply Forall_forall. intros t Ht. by destruct (bo_tasks _ _ _ _ Hb t Ht) as (_ & [? _] & _). }
  exists (rs_c ++ [r]). split; [apply (ad_records _ _ _ _ _ _ _ _ _ Had)|]. intros l'.
  rewrite restore_all_app, (restore_created sha256 to_vec run (set_ledger s l') ∅ admitted rs_c);
    [|apply Had|done|apply Had|done].
  set (s1 := set_tasks _ _). set (d := defer _ _).
  destruct (restore_plan s1 s "collaboration batch Team" "collaboration batch" "collaboration batch" teams ms)
    as (bt & Hbt & Hin & Hms); [done..|].
  cbn [CollaborationRestore.restore_all]. rewrite (restore_marker s1 d r teams ms tasks bt); [|done|done| |done|done|done|].
  - rewrite restore_tasks. cbn [unit_ok]. unfold s1. rewrite creates_tasks, joins_tasks.
    change (rt_tasks (set_tasks ?a ?b)) with b. rewrite (upserts_known tasks _ admitted).
    + rewrite creates_ledger, joins_ledger. unfold unit_ok. f_equal. f_equal. apply map_empty. intros id.
      match goal with |- ?x = None => destruct x as [t|] eqn:E end; [|done]. exfalso.
      apply deletes_lookup in E as [E Hn]. apply defer_lookup in E as [[Ht <-]|[E _]]; [|done].
      apply list_elem_of_filter in Ht as [_ Ht]. apply Hn, list_elem_of_fmap_2.
      by apply (admitted_fresh _ _ _ _ _ _ _ _ _ _ Had).
    + apply Hb.
    + apply Had.
    + apply nodup_filter, Had.
    + by intros t [_ ?]%list_elem_of_filter.
    + intros t Ht. by apply (admitted_fresh _ _ _ _ _ _ _ _ _ _ Had).
    + intros t Ht. destruct (ad_filter _ _ _ _ _ _ _ _ _ Had) as (ex & -> & H1 & H2).
      destruct (ex !! tr_task_id t) eqn:E; [right|left; by apply list_elem_of_filter].
      destruct (bo_tasks _ _ _ _ Hb t Ht) as (Hrun & (_ & _ & Hsame) & Hreg & _).
      destruct (H2 t Ht Hrun) as [t' Ht']; [by eexists|]. unfold registered_as_is, get_task in Hreg.
      change (rt_tasks (set_ledger s l')) with (rt_tasks s).
      rewrite Ht' in Hreg. apply ensure_ok in Hreg. rewrite Ht'. f_equal. by apply Hsame.
  - apply Forall_forall. intros t Ht. by destruct (po_teams _ _ _ Hplan t Ht) as (_ & _ & _ & ? & _).
  - apply for_each_ok, Forall_forall. intros t Ht.
    eapply (restore_batch_task_ok s1 s); [done|apply Hb|by apply (bo_tasks _ _ _ _ Hb)|done..|].
    exact (batch_found s max teams ms tasks additional admitted l rs_c [r] (set_ledger s l') t Had Hb Ht).
Qed.

(** The marker is recorded already: there is nothing to create or to join. *)
Lemma recorded_batch s teams ms tasks :
  run_inv s → members_agree s → batch_ok s teams ms tasks →
  already_recorded (existing_metadata (rt_ledger s) run) (marker teams ms tasks) = true →
  joins_of ms (creates_of teams s) = s.
Proof.
  intros Hi Hag Hb Hrec. pose proof (recorded_marker s teams ms tasks Hi Hrec) as Hin.
  rewrite creates_present; [by apply joins_present|]. intros t Ht.
  destruct (bo_coordinated _ _ _ _ Hb t Ht) as (c & _ & Hc). destruct (Hin _ Hc) as (team & Hteam & _).
  by eexists.
Qed.

Lemma follows_batch s now max teams ms tasks :
  run_inv s → members_agree s → batch_ok s teams ms tasks →
  follows s (batch_step s now max teams ms tasks).1.
Proof.
  intros Hi Hag Hb. pose proof (bo_plan _ _ _ _ Hb) as Hplan.
  destruct (rt_admit_cases run s now max tasks [marker teams ms tasks] Hi)
    as [[e ->]|(admitted & l & rs_c & rs_x & -> & Had)]; [by apply follows_refl|]. cbn [sbind fst].
  assert (∀ t, t ∈ tasks → tr_run_id t = run) as Hrun by (intros t Ht; by destruct (bo_tasks _ _ _ _ Hb t Ht)).
  assert (Forall task_record_ok tasks) as Hok.
  { apply Forall_forall. intros t Ht. by destruct (bo_tasks _ _ _ _ Hb t Ht) as (_ & [? _] & _). }
  assert (∀ t, t ∈ tasks → task_inv run (rt_teams (joins_of ms (creates_of teams s))) t) as Hti.
  { intros t Ht. apply batch_task_inv; [done|apply Hb|by apply (bo_tasks _ _ _ _ Hb)]. }
  rewrite (commit_batch_eq s max teams ms tasks _ admitted l rs_c rs_x) by (done || apply Hb).
  destruct (ad_extra _ _ _ _ _ _ _ _ _ Had) as (extra & Hx & Hf).
  apply marker_extra in Hx as [->|[-> Hrec]].
  - apply Forall2_cons_inv_l in Hf as (r & rs' & [Hty Hp] & Hf & ->). apply Forall2_nil_inv_l in Hf as ->.
    simpl in Hty, Hp. split; [|by eapply replays_batch].
    destruct (batch_keeps teams ms s) as [E1 E2]. rewrite <-E2. eapply (inv_admit run _ max tasks).
    + by apply inv_plan.
    + by eapply admission_ext.
    + constructor; [|constructor]. unfold extra_ok. rewrite Hty. split_and!; try done; [by apply (bool_decide_unpack _)|].
      intros _. by eapply plan_marker.
    + done.
    + intros t Ht. by apply Hti, (admitted_fresh _ _ _ _ _ _ _ _ _ _ Had).
  - apply Forall2_nil_inv_l in Hf as ->. rewrite (recorded_batch s teams ms tasks) in * by done.
    eapply (follows_admission _ _ _ s max tasks); [done|done|done|]. intros t Ht. split_and!.
    + apply task_inv_in_place; [done|done|by apply Hti].
    + by eapply batch_task_placed, (bo_tasks _ _ _ _ Hb).
    + by apply Hti.
Qed.

(** ** The preparations *)

Lemma expected_ok s c u :
  context_ok c → lift_limits (expected_team run c) = Ok u →
  team_matches (team_get (rt_teams s) (cc_team_id c)) (expected_team run c) = true →
  let t := expected_team run c in
  tm_run_id t = run ∧ tm_members t = ∅ ∧ lift_limits t = Ok tt ∧ team_record_ok t ∧
  team_matches (team_get (rt_teams s) (tm_team_id t)) t = true.
Proof. intros Hc Hl Hm. destruct u. split_and!; [done..|by eapply context_team_ok|done]. Qed.

(** One Team of a context, and members of the Run for it. *)
Lemma expected_plan s c u ms :
  context_ok c → lift_limits (expected_team run c) = Ok u →
  team_matches (team_get (rt_teams s) (cc_team_id c)) (expected_team run c) = true →
  (∀ m, m ∈ ms → m.1 = cc_team_id c ∧ ∃ a, rt_agents s !! m.2 = Some a ∧ ar_run_id a = run) →
  plan_ok s [expected_team run c] ms.
Proof.
  intros Hc Hl Hm Hms. split.
  - intros t ->%list_elem_of_singleton. by eapply expected_ok.
  - apply NoDup_singleton.
  - intros m Hin. destruct (Hms m Hin) as [-> H]. split; [|done]. by apply list_elem_of_singleton.
Qed.

Lemma sorted_nodup tasks :
  adjacent_duplicate (merge_sort task_id_le tasks) = false → NoDup (ids (merge_sort task_id_le tasks)).
Proof.
  assert (Total task_id_le) by (intros a b; apply (total String.le)).
  assert (Transitive task_id_le) by (intros a b c; unfold task_id_le; apply (transitivity (R := String.le))).
  pose proof (StronglySorted_merge_sort task_id_le tasks) as Hs. revert Hs.
  induction (merge_sort task_id_le tasks) as [|a l IH]; intros Hs Hadj; [constructor|].
  apply StronglySorted_inv in Hs as [Hs Ha]. rewrite fmap_cons, NoDup_cons. split.
  - destruct l as [|b l]; [apply not_elem_of_nil|]. simpl in Hadj.
    apply orb_false_iff in Hadj as [Hab%bool_decide_eq_false _].
    apply StronglySorted_inv in Hs as [_ Hb]. apply Forall_cons in Ha as [Hle _]. rewrite Forall_forall in Hb.
    rewrite fmap_cons. intros [E|(t & E & Ht)%list_elem_of_fmap]%elem_of_cons; [done|].
    apply Hab, (anti_symm String.le); [done|]. rewrite E. by apply Hb.
  - apply IH; [done|]. destruct l; [done|]. simpl in Hadj. by apply orb_false_iff in Hadj as [_ ?].
Qed.

Lemma follows_prepare_tasks s now c max tasks :
  run_inv s → members_agree s → context_ok c → Forall (task_input_ok s) tasks →
  follows s (prepare_collaboration_task_batch s now run c max tasks).1.
Proof.
  intros Hi Hag Hc Hin. unfold prepare_collaboration_task_batch.
  apply slift_follows; [by apply follows_refl|]. intros coord Hco%ok_or_ok.
  apply slift_follows; [by apply follows_refl|]. intros _ Hrun%ensure_ok%bool_decide_eq_true.
  apply slift_follows; [by apply follows_refl|]. intros _ _.
  apply slift_follows; [by apply follows_refl|]. intros u Hlim.
  apply slift_follows; [by apply follows_refl|]. intros _ Hm%ensure_ok.
  apply slift_follows; [by apply follows_refl|]. intros u' Hts%for_each_ok.
  apply slift_follows; [by apply follows_refl|]. intros _ Hdup%ensure_ok%negb_true_iff.
  apply follows_batch; [done|done|]. split.
  - eapply expected_plan; [done..|]. intros m ->%list_elem_of_singleton. by eauto.
  - intros t ->%list_elem_of_singleton. eexists. split; [done|]. by apply list_elem_of_singleton.
  - intros t Ht. rewrite (merge_sort_Permutation task_id_le tasks) in Ht. rewrite Forall_forall in Hts.
    rewrite Forall_forall in Hin. specialize (Hts t Ht). simpl in Hts.
    rewrite rbind_ok in Hts. destruct Hts as (_ & [H1 H2]%ensure_ok%bool_decide_eq_true & Hts).
    rewrite rbind_ok in Hts. destruct Hts as (_ & [H3 H4]%ensure_ok%bool_decide_eq_true & H5).
    split_and!; [done|by apply Hin|done|]. intros id Hid. split; [|by left].
    rewrite H2 in Hid. injection Hid as <-. by apply list_elem_of_singleton.
  - by apply sorted_nodup.
Qed.

Lemma dedup_elem m l : m ∈ dedup l → m ∈ l.
Proof.
  induction l as [|a l IH]; [done|]. destruct l as [|b l]; [done|]. cbn [dedup].
  case_decide; [intros ?; right; by apply IH|]. intros [->|?]%elem_of_cons; [by left|right; by apply IH].
Qed.

Lemma elem_dedup m l : m ∈ l → m ∈ dedup l.
Proof.
  induction l as [|a l IH]; [done|]. destruct l as [|b l]; [done|]. cbn [dedup].
  intros [->|?]%elem_of_cons; case_decide as E; [|by left|by apply IH|right; by apply IH].
  apply IH. rewrite E. by left.
Qed.

Lemma follows_prepare_membership s now child c :
  run_inv s → members_agree s → context_ok c →
  follows s (prepare_collaboration_membership s now run child c).1.
Proof.
  intros Hi Hag Hc. unfold prepare_collaboration_membership.
  apply slift_follows; [by apply follows_refl|]. intros u Hlim.
  apply slift_follows; [by apply follows_refl|]. intros u' Hms%for_each_ok.
  apply slift_follows; [by apply follows_refl|]. intros _ Hm%ensure_ok.
  case_match; [by apply follows_refl|]. set (ms := dedup _).
  assert (∀ m, m ∈ ms ↔ m ∈ [(cc_team_id c, cc_coordinator_agent_id c); (cc_team_id c, child)]) as Hin.
  { intros m. unfold ms. rewrite <-(merge_sort_Permutation membership_le [_; _]) at 2.
    split; [apply dedup_elem|apply elem_dedup]. }
  apply (follows_batch s now usize_max [expected_team run c] ms []); [done|done|]. split.
  - eapply expected_plan; [done..|]. intros m Hm'%Hin. rewrite Forall_forall in Hms.
    assert (m.1 = cc_team_id c ∧ m.2 ∈ [cc_coordinator_agent_id c; child]) as [-> Ha]
      by (set_unfold; naive_solver).
    split; [done|]. apply Hms in Ha. rewrite rbind_ok in Ha. destruct Ha as (a & Ha%ok_or_ok & H').
    rewrite rbind_ok in H'. destruct H' as (_ & ?%ensure_ok%bool_decide_eq_true & _). by eauto.
  - intros t ->%list_elem_of_singleton. eexists. split; [done|]. apply Hin. by left.
  - by intros t ?%elem_of_nil.
  - constructor.
Qed.

(** *** A batch of handles *)

Lemma task_eqb_eq e t : tr_content t = None → task_record_eqb e t = true → e = t.
Proof.
  intros Hc. unfold task_record_eqb. rewrite Hc, !andb_true_iff, !bool_decide_eq_true.
  destruct e as [? ? ? ? ? ? ? ? ? [] ? ? ? ? ?], t; simpl in *; intros; destruct_and!; by subst.
Qed.

Lemma matches_trans o t t' :
  team_matches o t = true → same_team_metadata t t' = true → team_matches o t' = true.
Proof.
  destruct o as [t0|]; [|done]. unfold team_matches, same_team_metadata.
  rewrite !andb_true_iff, !bool_decide_eq_true. intros. destruct_and!. split_and!; congruence.
Qed.

(** What the loop over the handles has collected. *)
Record collected (s : Runtime) (plan : BatchPlan) : Prop := {
  cp_teams : ∀ id t, plan.1.1 !! id = Some t → tm_team_id t = id ∧
    (tm_run_id t = run ∧ tm_members t = ∅ ∧ lift_limits t = Ok tt ∧ team_record_ok t ∧
     team_matches (team_get (rt_teams s) (tm_team_id t)) t = true) ∧
    ∃ c, tm_coordinator t = Some c ∧ (id, c) ∈ plan.1.2;
  cp_members : ∀ m, m ∈ plan.1.2 → is_Some (plan.1.1 !! m.1) ∧
    ∃ a, rt_agents s !! m.2 = Some a ∧ ar_run_id a = run;
  cp_tasks : ∀ t, t ∈ plan.2 → tr_run_id t = run ∧ task_input_ok s t ∧ registered_as_is s t = Ok tt ∧
    ∀ id, tr_team_id t = Some id → is_Some (plan.1.1 !! id) ∧ tr_state t = Assigned ∧
      ∃ o, tr_owner_agent_id t = Some o ∧ (id, o) ∈ plan.1.2;
  cp_nodup : NoDup (ids plan.2);
}.

Lemma elem_push m m' l : m ∈ push_membership l m' ↔ m ∈ l ∨ m = m'.
Proof. unfold push_membership. case_decide; [naive_solver|]. rewrite elem_of_app, list_elem_of_singleton. done. Qed.

Lemma collected_team s h a plan plan' :
  (∀ c, ah_collaboration h = Some c → context_ok c) →
  rt_agents s !! ah_agent_id h = Some a → ar_run_id a = run →
  collected s plan → plan_team s run h plan = Ok plan' →
  collected s plan' ∧ plan'.2 = plan.2 ∧
  ∀ c, ah_collaboration h = Some c →
    is_Some (plan'.1.1 !! cc_team_id c) ∧ (cc_team_id c, ah_agent_id h) ∈ plan'.1.2.
Proof.
  intros Hctx Ha Hrun Hp. destruct plan as [[teams ms] tasks]. unfold plan_team.
  destruct (ah_collaboration h) as [c|]; [|intros [= <-]; by split_and!].
  rewrite rbind_ok. intros (u & Hlim & H). rewrite rbind_ok in H. destruct H as (co & Hco%ok_or_ok & H).
  rewrite rbind_ok in H. destruct H as (_ & Hcr%ensure_ok%bool_decide_eq_true & H).
  rewrite rbind_ok in H. destruct H as (_ & Hm%ensure_ok & H). injection H as <-.
  assert (team_matches (team_get (rt_teams s) (cc_team_id c)) (expected_team run c) = true) as Hm'.
  { destruct (teams !! cc_team_id c) as [t|] eqn:E; [|done].
    destruct (cp_teams _ _ Hp _ _ E) as (<- & (_ & _ & _ & _ & H') & _). by eapply matches_trans. }
  destruct Hp as [P1 P2 P3 P4]. simpl in *. split_and!.
  - split; simpl.
    + intros id t [[<- <-]|[Hne H]]%lookup_insert_Some.
      * split; [done|]. split; [eapply expected_ok; [by apply Hctx|done|done]|]. eexists. split; [done|].
        rewrite !elem_push. by left; right.
      * destruct (P1 _ _ H) as (? & ? & c' & ? & ?). split; [done|]. split; [done|]. exists c'. split; [done|].
        rewrite !elem_push. by left; left.
    + intros m. rewrite !elem_push. intros [[H|E]|E].
      * destruct (P2 m H) as [? ?]. split; [|done]. rewrite lookup_insert. by case_decide.
      * subst m. simpl. rewrite lookup_insert_eq. eauto.
      * subst m. simpl. rewrite lookup_insert_eq. eauto.
    + intros t Ht. destruct (P3 t Ht) as (? & ? & ? & H). split_and!; [done..|]. intros id Hid.
      destruct (H id Hid) as (? & ? & o & ? & ?). split_and!; [|done|].
      * rewrite lookup_insert. by case_decide.
      * exists o. split; [done|]. rewrite !elem_push. by left; left.
    + done.
  - done.
  - intros c' [= <-]. rewrite lookup_insert_eq, !elem_push. split; [by eexists|by right].
Qed.

Lemma handle_input_ok s h : task_input_ok s (handle_task h).
Proof.
  split_and!; [done| |].
  - unfold validate_intrinsic_task_identity. simpl. by destruct (ah_workflow h).
  - intros e _. by apply task_eqb_eq.
Qed.

Lemma collected_handle s plan hc plan' :
  (∀ c, ah_collaboration hc.1 = Some c → context_ok c) →
  collected s plan → plan_handle s run plan hc = Ok plan' → collected s plan'.
Proof.
  intros Hctx Hp. destruct hc as [h create]. unfold plan_handle. simpl.
  rewrite rbind_ok. intros (_ & [Hr _]%ensure_ok%bool_decide_eq_true & H).
  rewrite rbind_ok in H. destruct H as (a & Ha%ok_or_ok & H).
  rewrite rbind_ok in H. destruct H as (_ & Har%ensure_ok%bool_decide_eq_true & H).
  rewrite rbind_ok in H. destruct H as (plan1 & H1 & H2).
  destruct (collected_team s h a plan plan1) as (Hp1 & Et & Hteam); [done..|].
  unfold plan_task in H2. destruct plan1 as [[teams ms] tasks]. destruct create; [|by injection H2 as <-].
  rewrite rbind_ok in H2. destruct H2 as ([] & Hreg & H2).
  rewrite rbind_ok in H2. destruct H2 as (_ & Hdup%ensure_ok%negb_true_iff & H2). injection H2 as <-.
  destruct Hp1 as [P1 P2 P3 P4]. simpl in *. split; simpl; [done|done| |].
  - intros t [Ht| ->%list_elem_of_singleton]%elem_of_app; [by apply P3|].
    split_and!; [done|apply handle_input_ok|done|]. intros id Hid. simpl in Hid.
    destruct (ah_collaboration h) as [c|]; [|done]. injection Hid as <-. destruct (Hteam c) as [? ?]; [done|].
    split_and!; [done..|]. by eauto.
  - rewrite fmap_app. apply NoDup_app. split_and!; [done| |apply NoDup_singleton].
    intros id (t & -> & Ht)%list_elem_of_fmap E%list_elem_of_singleton.
    apply not_true_iff_false in Hdup. apply Hdup, existsb_exists. exists t. split; [by apply list_elem_of_In|].
    by apply bool_decide_eq_true.
Qed.

Lemma collected_batch s teams ms tasks :
  collected s (teams, ms, tasks) →
  batch_ok s (merge_sort team_id_le (map_to_list teams).*2) (merge_sort membership_le ms)
    (merge_sort task_id_le tasks).
Proof.
  intros [P1 P2 P3 P4]. simpl in *.
  assert (∀ t, t ∈ merge_sort team_id_le (map_to_list teams).*2 → ∃ id, teams !! id = Some t) as Hin.
  { intros t. rewrite merge_sort_Permutation. intros ([id t'] & -> & H)%list_elem_of_fmap.
    exists id. by apply elem_of_map_to_list. }
  assert (∀ id, is_Some (teams !! id) → id ∈ team_ids (merge_sort team_id_le (map_to_list teams).*2)) as Hids.
  { intros id [t Ht]. destruct (P1 _ _ Ht) as [<- _]. apply list_elem_of_fmap_2.
    rewrite (merge_sort_Permutation team_id_le _). apply list_elem_of_fmap. exists (tm_team_id t, t). split; [done|].
    apply elem_of_map_to_list. done. }
  assert (∀ m, m ∈ merge_sort membership_le ms ↔ m ∈ ms) as Hms by (intros m; by rewrite merge_sort_Permutation).
  split; [split| | |].
  - intros t (id & H)%Hin. by destruct (P1 _ _ H) as (_ & ? & _).
  - rewrite (merge_sort_Permutation team_id_le). rewrite <-list_fmap_compose.
    rewrite (list_fmap_ext _ fst); [apply NoDup_fst_map_to_list|].
    intros i [id t] H. simpl. apply list_elem_of_lookup_2, elem_of_map_to_list in H. by destruct (P1 _ _ H).
  - intros m [H1 H2]%Hms%P2. auto.
  - intros t (id & H)%Hin. destruct (P1 _ _ H) as (-> & _ & c & ? & ?). exists c. split; [done|]. by apply Hms.
  - intros t. rewrite merge_sort_Permutation. intros (H1 & H2 & H3 & H4)%P3. split_and!; [done..|].
    intros id Hid. destruct (H4 id Hid) as (? & ? & o & ? & ?). split; [auto|]. right. split; [done|].
    exists o. split; [done|]. by apply Hms.
  - by rewrite merge_sort_Permutation.
Qed.

Lemma follows_prepare_spawn s now handles max :
  run_inv s → members_agree s →
  Forall (λ h, ∀ c, ah_collaboration h.1 = Some c → context_ok c) handles →
  follows s (prepare_spawn_batch s now run handles max).1.
Proof.
  intros Hi Hag Hctx. unfold prepare_spawn_batch. apply slift_follows; [by apply follows_refl|].
  intros [[teams ms] tasks] Hplan. case_match; [by apply follows_refl|].
  apply follows_batch; [done|done|]. apply collected_batch.
  eapply (fold_result_inv (collected s)); [| |exact Hplan].
  - split; simpl; [done|by intros m ?%elem_of_nil|by intros m ?%elem_of_nil|constructor].
  - rewrite Forall_forall in Hctx. intros plan hc plan' Hin Hp Hh. eapply collected_handle; [|done|done]. by apply Hctx.
Qed.

(** *** A Team and its coordinator *)

Lemma restore_team_marker s d r teams ms bt :
  lr_record_type r = "collaboration_team_prepared" → lr_payload r = batch_payload teams ms [] →
  Forall team_record_ok teams →
  fold_result (restore_batch_team s run "collaboration Team preparation"
                 "collaboration Team preparation") ∅ teams = Ok bt →
  for_each (restore_batch_member s run "collaboration Team" bt) ms = Ok tt →
  restore_one s d run r = (joins_of ms (creates_of teams s), d, Ok tt).
Proof.
  intros Hty Hp Hok H1 H2.
  assert (restore_one s d run r = keeps d (restore_team_prepared s run (batch_payload teams ms []))) as ->.
  { unfold CollaborationRestore.restore_one. by rewrite Hty, Hp. }
  destruct (payload_parts teams ms [] "invalid collaboration Team preparation"
    "invalid collaboration Team memberships" "" Hok (Forall_nil_2 _)) as (P1 & P2 & _).
  unfold restore_team_prepared. rewrite P1, P2. cbn [slift].
  assert ((v ← get "tasks" (batch_payload teams ms []); as_array v) = Some []) as -> by done.
  cbn [ensure slift]. rewrite H1. cbn [slift]. rewrite H2. done.
Qed.

Lemma follows_team_batch s now teams ms :
  run_inv s → plan_ok s teams ms →
  follows s (sbind (rt_admit s now run usize_max []
                      [(SyncCritical, "collaboration_team_prepared", batch_payload teams ms [])])
               (λ s _, (joins_of ms (creates_of teams s), Ok tt))).1.
Proof.
  intros Hi Hplan. set (rec := (SyncCritical, "collaboration_team_prepared", batch_payload teams ms [])).
  destruct (rt_admit_cases run s now usize_max [] [rec] Hi)
    as [[e ->]|(admitted & l & rs_c & rs_x & -> & Had)]; [by apply follows_refl|]. cbn [sbind fst].
  destruct (ad_filter _ _ _ _ _ _ _ _ _ Had) as (ex & -> & _). rewrite filter_nil in Had.
  pose proof (Forall2_nil_inv_l _ _ (ad_created _ _ _ _ _ _ _ _ _ Had)) as ->.
  destruct (ad_extra _ _ _ _ _ _ _ _ _ Had) as (extra & Hx & Hf).
  assert (extra = [rec]) as -> by by injection Hx.
  apply Forall2_cons_inv_l in Hf as (r & rs' & [Hty Hp] & Hf & ->). apply Forall2_nil_inv_l in Hf as ->.
  simpl in Hty, Hp. rewrite creates_ledger, joins_ledger. split.
  - destruct (batch_keeps teams ms s) as [E1 E2].
    assert (run_inv (set_ledger (set_tasks (joins_of ms (creates_of teams s))
              (upserts [] (rt_tasks (joins_of ms (creates_of teams s))))) l)) as H; [|done].
    eapply (inv_admit run _ usize_max []); [by apply inv_plan|by eapply admission_ext| |constructor|by intros ? ?%elem_of_nil].
    constructor; [|constructor]. unfold extra_ok. rewrite Hty. by split_and!; try done; apply (bool_decide_unpack _).
  - exists [r]. split; [apply (ad_records _ _ _ _ _ _ _ _ _ Had)|]. intros l'.
    destruct (restore_plan (set_ledger s l') s "collaboration Team preparation" "collaboration Team preparation"
                "collaboration Team" teams ms) as (bt & Hbt & _ & Hms); [done..|].
    cbn [CollaborationRestore.restore_all]. rewrite (restore_team_marker _ _ _ teams ms bt); [|done|done| |done|done].
    + by rewrite creates_ledger, joins_ledger.
    + apply Forall_forall. intros t Ht. by destruct (po_teams _ _ _ Hplan t Ht) as (_ & _ & _ & ? & _).
Qed.

Lemma follows_prepare_team s now child c :
  run_inv s → context_ok c → follows s (prepare_collaboration_team s now run child c).1.
Proof.
  intros Hi Hc. unfold prepare_collaboration_team.
  apply slift_follows; [by apply follows_refl|]. intros u Hlim.
  apply slift_follows; [by apply follows_refl|]. intros _ Hm%ensure_ok.
  apply slift_follows; [by apply follows_refl|]. intros _ _.
  apply slift_follows; [by apply follows_refl|]. intros u' Hco.
  destruct (bool_decide (team_get _ _ ≠ None) && _); [by apply follows_refl|].
  apply (follows_team_batch s now [expected_team run c]); [done|]. eapply expected_plan; [done..|].
  intros m Hin. destruct (agent_get _ _) as [a|] eqn:Ha; [|by apply elem_of_nil in Hin].
  apply list_elem_of_singleton in Hin as ->. rewrite rbind_ok in Hco.
  destruct Hco as (_ & ?%ensure_ok%bool_decide_eq_true & _). by eauto.
Qed.
End replay_batches.
