(* ===== verification/CollaborationRecovery.v ===== *)
(** * Recovery of a Run

    Every call of a history keeps the Agents in their Teams and the members of
    the Teams in agreement with them, and leaves records that replay what it
    did.  So a runtime that starts again from the ledger of a Run gets the
    registries the Run had. *)
From S2P Require Import ResourceTypes Prelude Json Types TaskRegistry RuntimeLedger LedgerFacts WorkflowTypes Identity Registries LedgerInterface MessageBus BusFacts CollaborationTypes CollaborationRuntime CollaborationTasks CollaborationSpawn CollaborationRestore CollaborationHistory CollaborationReplay CollaborationReplayTasks CollaborationReplayBatch CollaborationReplayTeams.

(** ** Calls on messages *)

Section messages.
Context (to_vec : Value → string) (run : RunId).

(** The calls on messages change the mailbox and the ledger only. *)
Section message_frame.
Context {X : Type} (f : Runtime → X) (Hf : ∀ s b l, f (set_ledger (set_box s b) l) = f s).

Lemma frame_bus {A} s (c : BusState InMemoryLedgerState * result A (BusError LedgerError)) :
  f (with_bus s c).1 = f s.
Proof. apply Hf. Qed.

Lemma frame_send s now uuid team from to kind body :
  f (send_message to_vec s now uuid run team from to kind body).1 = f s.
Proof.
  unfold send_message. apply (slift_state (λ x, f x = f s)); [done|]. intros ? _.
  rewrite sbind_keeps by by intros ? []. apply frame_bus.
Qed.

Lemma frame_send_with_id s now id team from to kind body :
  f (send_message_with_id to_vec s now id run team from to kind body).1 = f s.
Proof.
  unfold send_message_with_id. set (c := with_bus s _). assert (f c.1 = f s) as Hc by apply frame_bus.
  destruct c as [s' [[m|]|e]]; [done| |done]. cbn [sbind]. apply (slift_state (λ x, f x = f s)); [done|]. intros ? _.
  rewrite sbind_keeps by by intros ? []. by rewrite frame_bus.
Qed.

Lemma frame_broadcast s now uuid team from kind body :
  f (broadcast_team_message to_vec s now uuid run team from kind body).1 = f s.
Proof.
  unfold broadcast_team_message. apply (slift_state (λ x, f x = f s)); [done|]. intros ? _.
  rewrite sbind_keeps by by intros ? []. apply frame_bus.
Qed.

Lemma frame_broadcast_with_id s now id team from kind body :
  f (broadcast_message_with_id to_vec s now id run team from kind body).1 = f s.
Proof.
  unfold broadcast_message_with_id. set (c := with_bus s _). assert (f c.1 = f s) as Hc by apply frame_bus.
  destruct c as [s' [[m|]|e]]; [done| |done]. cbn [sbind]. apply (slift_state (λ x, f x = f s)); [done|]. intros ? _.
  rewrite sbind_keeps by by intros ? []. by rewrite frame_bus.
Qed.

Lemma frame_acknowledge s now agent id : f (acknowledge_message s now run agent id).1 = f s.
Proof.
  unfold acknowledge_message. do 3 (apply (slift_state (λ x, f x = f s)); [done|intros ? _]).
  rewrite sbind_keeps by by intros ? []. apply frame_bus.
Qed.
End message_frame.
End messages.

(** ** What a call leaves of the memberships *)

Section memberships.
Context (sha256 : string → list Byte.byte) (to_vec to_string : Value → string).
Context (from_str : string → option Value).
Context {O : Type} (write_named : O → RunId → string → O * result string string).
Context (read_named : O → RunId → string → result string string).
Context (run : RunId).

Abbreviation run_op := (run_op sha256 to_vec to_string from_str write_named read_named run).

(** The call keeps the Teams of the Agents and the members of the Teams agree
    with them. *)
Definition agrees (s s' : Runtime) : Prop := members_agree s → teams_kept s s' ∧ members_agree s'.

Lemma teams_kept_trans s1 s2 s3 : teams_kept s1 s2 → teams_kept s2 s3 → teams_kept s1 s3.
Proof. intros H1 H2 a r id Ha Hid. destruct (H1 a r id Ha Hid) as (r' & Hr' & Hid'). by eapply H2. Qed.

#[local] Instance agrees_preorder : PreOrder agrees.
Proof.
  split.
  - intros s Hag. split; [|done]. intros a r id Ha Hid. by exists r.
  - intros s1 s2 s3 H1 H2 Hag. destruct (H1 Hag) as [K1 A1]. destruct (H2 A1) as [K2 A2].
    split; [by eapply teams_kept_trans|done].
Qed.

(** Agents keep their Team and no Team gains a member. *)
Lemma agrees_steady s s' :
  (∀ a r, rt_agents s !! a = Some r → ∃ r', rt_agents s' !! a = Some r' ∧ ar_team_id r' = ar_team_id r) →
  (∀ id team a, rt_teams s' !! id = Some team → a ∈ tm_members team →
     ∃ team', rt_teams s !! id = Some team' ∧ a ∈ tm_members team') →
  agrees s s'.
Proof.
  intros Ha Ht Hag. split.
  - intros a r id H Hid. destruct (Ha a r H) as (r' & Hr' & E). exists r'. by rewrite E.
  - intros id team a H Hin. destruct (Ht id team a H Hin) as (team' & H' & Hin').
    destruct (Hag id team' a H' Hin') as (r & Hr & Hid). destruct (Ha a r Hr) as (r' & Hr' & E).
    exists r'. by rewrite E.
Qed.

Definition registries (s : Runtime) : AgentRegistry * TeamRegistry := (rt_agents s, rt_teams s).

Lemma agrees_same s s' : registries s' = registries s → agrees s s'.
Proof.
  unfold registries. intros [= E1 E2]. apply agrees_steady.
  - intros a r H. exists r. by rewrite E1.
  - intros id team a H Hin. exists team. by rewrite E2 in H.
Qed.

Lemma agrees_slift {A B} s (r : result A RuntimeError) (k : A → outcome B) :
  (∀ a, r = Ok a → agrees s (k a).1) → agrees s (slift s r k).1.
Proof. intros H. apply slift_state; [done|done]. Qed.

Lemma agrees_state s s' a st :
  rt_agents s' = (agent_set_state (rt_agents s) a st).1 → rt_teams s' = rt_teams s → agrees s s'.
Proof.
  intros E1 E2. apply agrees_steady; [|intros id team x H ?; exists team; by rewrite E2 in H].
  intros x r H. rewrite E1. unfold agent_set_state. destruct (rt_agents s !! a) as [r0|] eqn:Ea; simpl; [|by exists r].
  unfold AgentRegistry in *. rewrite lookup_insert. case_decide; [|by exists r]. simplify_eq. by eexists.
Qed.

Lemma agrees_create s team : tm_members team = ∅ → agrees s (create_missing s team).
Proof.
  intros Hm. apply agrees_steady; [intros a r H; by exists r|]. intros id t a. simpl. unfold team_create.
  destruct (rt_teams s !! tm_team_id team); simpl; [by eauto|]. unfold TeamRegistry.
  intros [[<- <-]|[_ H]]%lookup_insert_Some Ha; [rewrite Hm in Ha; set_solver|by exists t].
Qed.

Lemma agrees_creates ts s : (∀ t, t ∈ ts → tm_members t = ∅) → agrees s (fold_left create_missing ts s).
Proof.
  revert s. induction ts as [|t ts IH]; intros s H; [done|]. cbn [fold_left].
  etrans; [apply (agrees_create s t), H; by left|]. apply IH. intros t' Ht'. apply H. by right.
Qed.

(** Where the Agents are after a membership. *)
Lemma join_agents s m r x :
  rt_agents s !! m.2 = Some r →
  rt_agents (join_member s m) !! x =
    if decide (x = m.2)
    then Some {| ar_run_id := ar_run_id r; ar_agent_id := ar_agent_id r; ar_team_id := Some m.1;
                 ar_parent_agent_id := ar_parent_agent_id r; ar_state := ar_state r |}
    else rt_agents s !! x.
Proof.
  intros Hr. simpl. unfold agent_set_team. rewrite Hr. simpl. unfold AgentRegistry in *.
  rewrite lookup_insert. repeat case_decide; congruence.
Qed.

Lemma memberships_sub s ms ms' : (∀ m, m ∈ ms' → m ∈ ms) → memberships_ok s ms → memberships_ok s ms'.
Proof. intros H [H1 H2]. split; [intros m r t Hm; by apply H1, H|intros m m' Hm Hm'; by apply H2; apply H]. Qed.

Lemma agrees_join s m :
  memberships_ok s [m] → is_Some (rt_agents s !! m.2) → agrees s (join_member s m).
Proof.
  intros [Hok _] [r Hr] Hag.
  assert (∀ t, ar_team_id r = Some t → t = m.1) as Hone.
  { intros t Ht. apply (Hok m r t); [by apply list_elem_of_singleton|done|done]. }
  split.
  - intros x r' t Hr' Ht. rewrite (join_agents s m r) by done. case_decide; [|by exists r'].
    subst x. eexists. split; [done|]. simpl. rewrite Hr in Hr'. injection Hr' as <-. by rewrite (Hone t Ht).
  - intros t team x Ht Hin. rewrite (join_agents s m r) by done.
    assert (x = m.2 ∧ t = m.1 ∨ ∃ r', rt_agents s !! x = Some r' ∧ ar_team_id r' = Some t) as [[-> ->]|(r' & Hr' & Ht')].
    { simpl in Ht. unfold team_join in Ht. destruct (rt_teams s !! m.1) as [team0|] eqn:E; simpl in Ht; [|by eauto].
      unfold TeamRegistry in *. apply lookup_insert_Some in Ht as [[<- <-]|[_ Ht]]; [|by eauto].
      simpl in Hin. rewrite elem_of_union, elem_of_singleton in Hin. destruct Hin as [->|Hin]; [by left|right; by eauto]. }
    + rewrite decide_True by done. by eexists.
    + case_decide; [|by exists r']. subst x. eexists. split; [done|]. simpl. rewrite Hr in Hr'.
      injection Hr' as <-. by rewrite (Hone t Ht').
Qed.

Lemma agrees_joins ms s :
  memberships_ok s ms → (∀ m, m ∈ ms → is_Some (rt_agents s !! m.2)) →
  agrees s (fold_left join_member ms s).
Proof.
  revert s. induction ms as [|m ms IH]; intros s Hok Ha; [done|]. cbn [fold_left].
  destruct (Ha m) as [r Hr]; [by left|]. etrans.
  { apply (agrees_join s m); [|by exists r]. apply (memberships_sub s (m :: ms)); [|done].
    intros m' ->%list_elem_of_singleton. by left. }
  destruct Hok as [H1 H2]. apply IH; [split|].
  - intros m' r' t Hm'. rewrite (join_agents s m r) by done. case_decide as E.
    + intros [= <-]. simpl. intros [= <-]. apply H2; [by left|by right|done].
    + apply H1. by right.
  - intros m1 m2 Hm1 Hm2. apply H2; by right.
  - intros m' Hm'. rewrite (join_agents s m r) by done. case_decide; [by eexists|]. apply Ha. by right.
Qed.

Lemma creates_agents ts s : rt_agents (fold_left create_missing ts s) = rt_agents s.
Proof. revert s. induction ts as [|t ts IH]; intros s; [done|]. apply (IH (create_missing s t)). Qed.

Lemma upsert_missings_registries ts s : registries (fold_left upsert_missing ts s) = registries s.
Proof.
  revert s. induction ts as [|t ts IH]; intros s; [done|]. cbn [fold_left]. rewrite IH.
  unfold upsert_missing. by destruct (get_task _ _).
Qed.

Lemma agrees_plan s l teams ms :
  (∀ t, t ∈ teams → tm_members t = ∅) → memberships_ok s ms →
  (∀ m, m ∈ ms → is_Some (rt_agents s !! m.2)) →
  agrees s (fold_left join_member ms (fold_left create_missing teams (set_ledger s l))).
Proof.
  intros Ht Hok Ha. transitivity (set_ledger s l); [by apply agrees_same|].
  transitivity (fold_left create_missing teams (set_ledger s l)); [by apply agrees_creates|].
  apply agrees_joins; [|by rewrite creates_agents]. unfold memberships_ok. by rewrite creates_agents.
Qed.

(** What follows an admission that succeeds. *)
Lemma agrees_admitted {A} s now max tasks additional (k : Runtime → Runtime) (a : A) :
  (is_ok (rt_admit s now run max tasks additional).2 = true → ∀ l, agrees s (k (set_ledger s l))) →
  agrees s (sbind (rt_admit s now run max tasks additional) (λ s _, (k s, Ok a))).1.
Proof.
  unfold rt_admit. destruct (admit_tasks_and_append _ _ _ _ _ _ _) as [l [rs|e]]; intros H; [by apply H|].
  by apply agrees_same.
Qed.

Lemma agrees_batch s l teams ms tasks :
  (∀ t, t ∈ teams → tm_members t = ∅) → memberships_ok s ms →
  (∀ m, m ∈ ms → is_Some (rt_agents s !! m.2)) → agrees s (commit_batch (set_ledger s l) teams ms tasks).
Proof.
  intros Ht Hok Ha. etrans; [by apply (agrees_plan s l teams ms)|].
  apply agrees_same. apply upsert_missings_registries.
Qed.

Ltac checked := repeat (apply agrees_slift; intros ? _).

(** An Agent that was checked to be in no other Team. *)
Lemma not_elsewhere r team : negb (in_other_team r team) = true → ∀ t, ar_team_id r = Some t → t = team.
Proof.
  unfold in_other_team. intros H t Ht. rewrite Ht, negb_true_iff, bool_decide_eq_false in H. by apply dec_stable.
Qed.

Lemma memberships_same_team s team ms :
  (∀ m, m ∈ ms → m.1 = team ∧ ∃ r, rt_agents s !! m.2 = Some r ∧ ∀ t, ar_team_id r = Some t → t = team) →
  memberships_ok s ms ∧ ∀ m, m ∈ ms → is_Some (rt_agents s !! m.2).
Proof.
  intros H. split; [split|].
  - intros m r t Hm Hr Ht. destruct (H m Hm) as (-> & r' & Hr' & Hone). rewrite Hr in Hr'. injection Hr' as <-. by apply Hone.
  - intros m m' Hm Hm' _. destruct (H m Hm) as [-> _]. by destruct (H m' Hm') as [-> _].
  - intros m Hm. destruct (H m Hm) as (_ & r & Hr & _). by exists r.
Qed.

Ltac same := intros; by apply agrees_same.

Lemma agrees_prepare_team s now child c : agrees s (prepare_collaboration_team s now run child c).1.
Proof.
  unfold prepare_collaboration_team. do 3 (apply agrees_slift; intros ? _). apply agrees_slift. intros u Hc.
  destruct (bool_decide (team_get _ _ ≠ None) && _); [same|].
  apply (agrees_admitted s now usize_max [] _ (λ x, fold_left join_member _ (create_missing x _))).
  intros _ l. apply (agrees_plan s l [expected_team run c]); [by intros t ->%list_elem_of_singleton|..];
    apply (memberships_same_team s (cc_team_id c)); destruct (agent_get _ _) as [r|] eqn:Ha;
    intros m Hm; (apply list_elem_of_singleton in Hm || by apply elem_of_nil in Hm); subst m;
    (split; [done|]); exists r; (split; [done|]); apply not_elsewhere;
    rewrite rbind_ok in Hc; by destruct Hc as (_ & _ & ?%ensure_ok).
Qed.

Lemma planned_members s plan hc plan' :
  plan_handle s run plan hc = Ok plan' →
  ∀ m, m ∈ plan'.1.2 → m ∈ plan.1.2 ∨ m ∈ handle_memberships hc.1 ∧ is_Some (rt_agents s !! m.2).
Proof.
  destruct hc as [h create], plan as [[teams ms] tasks]. unfold plan_handle. simpl.
  rewrite rbind_ok. intros (_ & _ & H).
  rewrite rbind_ok in H. destruct H as (a & Ha%ok_or_ok & H).
  rewrite rbind_ok in H. destruct H as (_ & _ & H).
  rewrite rbind_ok in H. destruct H as (plan1 & H1 & H2).
  assert (plan'.1.2 = plan1.1.2) as ->.
  { unfold plan_task in H2. destruct plan1 as [[teams1 ms1] tasks1]. destruct create; [|by injection H2 as <-].
    rewrite rbind_ok in H2. destruct H2 as (_ & _ & H2). rewrite rbind_ok in H2. destruct H2 as (_ & _ & H2).
    by injection H2 as <-. }
  unfold plan_team in H1. unfold handle_memberships. destruct (ah_collaboration h) as [c|]; [|injection H1 as <-; by left].
  rewrite rbind_ok in H1. destruct H1 as (_ & _ & H1).
  rewrite rbind_ok in H1. destruct H1 as (co & Hco%ok_or_ok & H1).
  rewrite rbind_ok in H1. destruct H1 as (_ & _ & H1).
  rewrite rbind_ok in H1. destruct H1 as (_ & _ & H1). injection H1 as <-. simpl.
  intros m. rewrite !(elem_push sha256 run). intros [[H| ->]| ->]; [by left|right..]; (split; [set_solver|by eexists]).
Qed.

Lemma planned_all s handles plan :
  fold_result (plan_handle s run) (∅, [], []) handles = Ok plan →
  ∀ m, m ∈ plan.1.2 → m ∈ (handles ≫= λ h, handle_memberships h.1) ∧ is_Some (rt_agents s !! m.2).
Proof.
  intros H. eapply (fold_result_inv (λ plan : BatchPlan, ∀ m, m ∈ plan.1.2 →
    m ∈ (handles ≫= λ h, handle_memberships h.1) ∧ is_Some (rt_agents s !! m.2))); [| |exact H].
  - by intros m ?%elem_of_nil.
  - intros plan1 hc plan2 Hin IH Hp m Hm. destruct (planned_members s plan1 hc plan2 Hp m Hm) as [Hm'|[Hm' Ha]]; [by apply IH|].
    split; [|done]. apply list_elem_of_bind. by exists hc.
Qed.

(** The Teams of a plan have no members yet. *)
Lemma planned_teams s handles plan id t :
  fold_result (plan_handle s run) (∅, [], []) handles = Ok plan → plan.1.1 !! id = Some t → tm_members t = ∅.
Proof.
  intros H. revert id t. eapply (fold_result_inv (λ plan : BatchPlan, ∀ id t, plan.1.1 !! id = Some t → tm_members t = ∅));
    [| |exact H]; [by intros id t|]. intros [[teams ms] tasks] [h create] plan' _ IH Hp.
  unfold plan_handle in Hp. simpl in Hp. rewrite rbind_ok in Hp. destruct Hp as (? & _ & Hp).
  rewrite rbind_ok in Hp. destruct Hp as (? & _ & Hp). rewrite rbind_ok in Hp. destruct Hp as (? & _ & Hp).
  rewrite rbind_ok in Hp. destruct Hp as ([[teams1 ms1] tasks1] & H1 & H2).
  assert (plan'.1.1 = teams1) as ->.
  { unfold plan_task in H2. destruct create; [|by injection H2 as <-].
    rewrite rbind_ok in H2. destruct H2 as (_ & _ & H2). rewrite rbind_ok in H2. destruct H2 as (_ & _ & H2).
    by injection H2 as <-. }
  unfold plan_team in H1. destruct (ah_collaboration h) as [c|]; [|by injection H1 as <- _ _].
  do 3 (rewrite rbind_ok in H1; destruct H1 as (? & _ & H1)). rewrite rbind_ok in H1. destruct H1 as (? & _ & H1).
  injection H1 as <- _ _. intros id t [[_ <-]|[_ Ht]]%lookup_insert_Some; [done|by eapply IH].
Qed.

Lemma agrees_prepare_tasks s now c max tasks :
  agrees s (prepare_collaboration_task_batch s now run c max tasks).1.
Proof.
  unfold prepare_collaboration_task_batch. apply agrees_slift. intros r Hr%ok_or_ok.
  apply agrees_slift. intros _ _. apply agrees_slift. intros _ Ht%ensure_ok. checked.
  apply (agrees_admitted s now max _ _ (λ x, commit_batch x _ _ _)). intros _ l.
  apply agrees_batch; [by intros t ->%list_elem_of_singleton|..]; apply (memberships_same_team s (cc_team_id c));
    intros m ->%list_elem_of_singleton; (split; [done|]); exists r; (split; [done|]); by apply not_elsewhere.
Qed.

Lemma agrees_prepare_membership s now child c :
  agrees s (prepare_collaboration_membership s now run child c).1.
Proof.
  unfold prepare_collaboration_membership. apply agrees_slift. intros _ _.
  apply agrees_slift. intros u Hms%for_each_ok. checked. case_match; [same|].
  apply (agrees_admitted s now usize_max _ _ (λ x, commit_batch x _ _ _)). intros _ l.
  rewrite Forall_forall in Hms.
  apply agrees_batch; [by intros t ->%list_elem_of_singleton|..]; apply (memberships_same_team s (cc_team_id c));
    intros m Hm%dedup_elem; rewrite merge_sort_Permutation in Hm;
    (assert (m.1 = cc_team_id c ∧ m.2 ∈ [cc_coordinator_agent_id c; child]) as [-> Ha] by (set_unfold; naive_solver));
    (split; [done|]); apply Hms in Ha; rewrite rbind_ok in Ha; destruct Ha as (r & Hr%ok_or_ok & Ha);
    exists r; (split; [done|]); apply not_elsewhere; rewrite rbind_ok in Ha; by destruct Ha as (_ & _ & ?%ensure_ok).
Qed.

Lemma agrees_prepare_spawn s now handles max :
  (is_ok (prepare_spawn_batch s now run handles max).2 = true →
     memberships_ok s (handles ≫= λ h, handle_memberships h.1)) →
  agrees s (prepare_spawn_batch s now run handles max).1.
Proof.
  unfold prepare_spawn_batch. destruct (fold_result _ _ _) as [[[teams ms] tasks]|e] eqn:Hplan; [|same]. cbn [slift].
  destruct (bool_decide (teams = ∅) && _ && _); [same|]. intros H. pose proof (planned_all s handles _ Hplan) as Hms. simpl in Hms.
  apply (agrees_admitted s now max _ _ (λ x, commit_batch x _ _ _)). intros Hok l. apply agrees_batch.
  - intros t. rewrite merge_sort_Permutation. intros ([id t'] & -> & Ht%elem_of_map_to_list)%list_elem_of_fmap.
    simpl. by eapply planned_teams.
  - eapply memberships_sub; [|apply H]; [intros m; rewrite merge_sort_Permutation; by intros [? _]%Hms|].
    by destruct (rt_admit _ _ _ _ _ _) as [x [rs|e]].
  - intros m. rewrite merge_sort_Permutation. by intros [_ ?]%Hms.
Qed.

Lemma agrees_join_team s now team agent :
  (is_ok (join_team s now run team agent).2 = true → memberships_ok s [(team, agent)]) →
  agrees s (join_team s now run team agent).1.
Proof.
  unfold join_team. destruct (ok_or (team_get _ _) _) as [t|e]; [|same]. cbn [slift].
  destruct (ok_or (agent_get _ _) _) as [r|e] eqn:Hr; [|same]. apply ok_or_ok in Hr. cbn [slift].
  destruct (ensure _ _) as [[]|e]; [|same]. cbn [slift]. case_decide as Hin; [same|]. rewrite rt_append_eq. cbn [sbind fst snd is_ok].
  intros H. etrans; [by apply (agrees_same s (logged run s now "team_member_joined" (join_payload team agent)))|].
  apply agrees_join; [by apply H|by exists r].
Qed.

(** *** Spawns *)

Lemma agrees_cancel_spawn s now re reason :
  (is_ok (cancel_spawn s now re reason).2 = true → cancel_keeps s re) → agrees s (cancel_spawn s now re reason).1.
Proof.
  unfold cancel_spawn. destruct (ok_or _ _) as [r|e] eqn:Hr; [|same]. apply ok_or_ok in Hr. cbn [slift].
  case_decide as Hst; [same|]. destruct (ensure _ _) as [[]|e]; [|same]. cbn [slift]. intros H.
  destruct (H eq_refl r Hr) as [?| ->]; [done|]. by eapply (agrees_state s _ (re_child_agent_id re) AgCancelled).
Qed.

Lemma agrees_abort_spawn s now re reason :
  (is_ok (abort_spawn s now re reason).2 = true → keeps_teams s (OpAbortSpawn (O := O) re reason)) →
  agrees s (abort_spawn s now re reason).1.
Proof.
  unfold abort_spawn, keeps_teams. destruct (re_reattached re); [case_match; same|].
  destruct (child_for_key _ _) as [x|]; simpl.
  { intros H. apply agrees_cancel_spawn. intros Hok. by destruct (H Hok). }
  destruct (agent_get _ _) as [r|] eqn:Hr; [|case_match; same].
  intros H. destruct (H eq_refl) as [?|Hno]; [done|]. specialize (Hno r Hr). rewrite Hno. simpl. intros Hag. split.
  - intros a r' id Ha Hid. exists r'. split; [|done]. simpl. unfold AgentRegistry in *. rewrite lookup_delete_ne; [done|].
    intros <-. unfold agent_get, AgentRegistry in *. congruence.
  - intros id team a Ht Hin. destruct (Hag id team a Ht Hin) as (r' & Hr' & Hid). exists r'. split; [|done].
    simpl. unfold AgentRegistry in *. rewrite lookup_delete_ne; [done|].
    intros <-. unfold agent_get, AgentRegistry in *. congruence.
Qed.

Lemma agrees_reserve s now parent role key op ceiling requested :
  agrees s (reserve_spawn_typed sha256 s now run parent role key op ceiling requested).1.
Proof.
  unfold reserve_spawn_typed. destruct (child_for_key _ _) as [child|].
  - rewrite sbind_keeps by done. unfold reattach_spawn. checked.
    case_decide; [same|]. case_decide; [same|].
    by eapply (agrees_state s _ child AgActive).
  - destruct (agent_get _ _) as [r|] eqn:Hg; [checked; same|].
    apply agrees_steady; [|by eauto]. intros a r Ha. simpl. unfold agent_upsert, agent_get, AgentRegistry in *. simpl.
    exists r. rewrite lookup_insert_ne by congruence. done.
Qed.

Lemma agrees_commit s now re : agrees s (commit_spawn sha256 s now re).1.
Proof.
  unfold commit_spawn. case_match; [same|]. destruct (child_for_key _ _).
  { checked. case_decide; same. }
  checked. by eapply (agrees_state s _ (re_child_agent_id re) AgActive).
Qed.

Lemma agrees_set_state s now agent st : agrees s (set_agent_state s now run agent st).1.
Proof.
  unfold set_agent_state. checked. case_decide; [same|]. checked. by eapply (agrees_state s _ agent st).
Qed.

Lemma agrees_outcome s (o : O) now re res :
  agrees s (record_agent_outcome sha256 to_string from_str write_named read_named s o now re res).1.1.
Proof.
  unfold record_agent_outcome. destruct (List.find _ _).
  { destruct (read_agent_outcome_record _ _ _ _ _ _) as [[? ?]|]; [case_match|]; same. }
  destruct (write_named _ _ _) as [o' [reference|e]]; [|same]. destruct (agent_get _ _); [|same].
  case_match; [same|]. by eapply (agrees_state s _ (re_child_agent_id re) (outcome_agent_state res)).
Qed.

Lemma agrees_admit_tasks s now max tasks : agrees s (admit_runtime_tasks s now run max tasks).1.
Proof.
  rewrite admission_alone. checked. apply agrees_same. unfold rt_admit.
  destruct (admit_tasks_and_append _ _ _ _ _ _ _) as [l [rs|e]]; [|done]. cbn [sbind].
  assert (∀ x, registries (project_all x rs).1 = registries x) as Hp.
  { induction rs as [|r rs IH]; intros x; [done|]. cbn [project_all]. unfold project_admitted.
    destruct (ok_or _ _); [|done]. cbn [slift sbind]. by rewrite IH. }
  specialize (Hp (set_ledger s l)). destruct (project_all _ _) as [s' [[]|e]]; [|done].
  cbn [sbind fst] in *. by rewrite upsert_missings_registries.
Qed.

Lemma agrees_cas s now r id expected op m : agrees s (cas_revision sha256 to_vec s now r id expected op m).1.
Proof.
  apply agrees_same. unfold cas_revision. rewrite sbind_keeps by done. unfold apply_task_cas.
  apply (slift_state (λ x, registries x = registries s)); [done|]. intros ? _.
  by destruct (cas_durable _ _ _ _ _ _ _) as [[l ts] [next|e]].
Qed.

Lemma agrees_created s l team : tm_members team = ∅ → agrees s (create_missing (set_ledger s l) team).
Proof. intros H. transitivity (set_ledger s l); [by apply agrees_same|by apply agrees_create]. Qed.

(** Along the calls of a history the Teams of the Agents stay and agree with
    the members. *)
Lemma run_op_agrees s now op :
  ((run_op now op s).2 = true → keeps_teams s op) → agrees s (run_op now op s).1.
Proof.
  destruct op; cbn [CollaborationHistory.run_op done_as fst snd]; intros H.
  - unfold create_collaboration_team. case_match; [same|]. by eapply agrees_created.
  - unfold ensure_collaboration_team. checked. case_match; [case_match; same|]. by eapply agrees_created.
  - apply agrees_prepare_team.
  - apply agrees_prepare_tasks.
  - apply agrees_prepare_membership.
  - by apply agrees_prepare_spawn.
  - by apply agrees_join_team.
  - unfold set_team_fact. checked. by apply agrees_same.
  - unfold register_team_artifact. checked. by apply agrees_same.
  - by apply agrees_same, (frame_send to_vec run registries).
  - by apply agrees_same, (frame_send_with_id to_vec run registries).
  - by apply agrees_same, (frame_broadcast to_vec run registries).
  - by apply agrees_same, (frame_broadcast_with_id to_vec run registries).
  - by apply agrees_same, (frame_acknowledge run registries).
  - by apply agrees_same.
  - by apply agrees_same.
  - unfold register_runtime_task. checked. apply agrees_same. repeat case_match; try done.
    unfold upsert_missing. by case_match.
  - apply agrees_admit_tasks.
  - unfold create_collaboration_task. checked. rewrite sbind_keeps by done. apply agrees_admit_tasks.
  - unfold settle_collaboration_task. checked. apply agrees_cas.
  - unfold skip_collaboration_task. checked. apply agrees_cas.
  - unfold requeue_supervisor_task. checked. apply agrees_cas.
  - unfold cancel_supervisor_workflow_task. checked. apply agrees_cas.
  - unfold handoff_task. checked. apply agrees_cas.
  - unfold assign_task_owner. checked. apply agrees_cas.
  - unfold mark_task_running. checked. apply agrees_cas.
  - apply agrees_reserve.
  - apply agrees_commit.
  - apply agrees_set_state.
  - by apply agrees_cancel_spawn.
  - by apply agrees_abort_spawn.
  - apply agrees_outcome.
  - unfold record_agent_handle. repeat case_match; by apply agrees_same.
  - unfold commit_record. case_match. case_match; by apply agrees_same.
Qed.
End memberships.

Section recovery.
Context (sha256 : string → list Byte.byte) (to_vec to_string : Value → string).
Context (from_str : string → option Value).
Context {O : Type} (write_named : O → RunId → string → O * result string string).
Context (read_named : O → RunId → string → result string string).
Context (run : RunId).

Abbreviation run_op := (run_op sha256 to_vec to_string from_str write_named read_named run).
Abbreviation run_step := (run_step sha256 to_vec to_string from_str write_named read_named run).
Abbreviation follows := (follows sha256 to_vec run).

Context (Hsha : ∀ x, sha256 x ≠ []).

(** Every operation leaves records that replay what it did. *)
Lemma follows_op s now op :
  run_inv run s → ready s → members_agree s → is_i64 now → op_ok run s op →
  teams_kept s (run_op now op s).1 → follows s (run_op now op s).1.
Proof.
  intros Hi Hr Hag Hnow Hop Hk. destruct op; cbn [CollaborationHistory.run_op done_as fst op_ok] in *.
  - by apply follows_create_team.
  - by apply follows_ensure_team.
  - by apply follows_prepare_team.
  - destruct Hop. by apply follows_prepare_tasks.
  - by apply follows_prepare_membership.
  - by apply follows_prepare_spawn.
  - by apply follows_join_team.
  - by apply follows_set_fact.
  - by apply follows_register_artifact.
  - destruct Hop. by apply follows_send.
  - destruct Hop. by apply follows_send_with_id.
  - by apply follows_broadcast.
  - by apply follows_broadcast_with_id.
  - by apply follows_acknowledge.
  - by apply follows_claim.
  - by apply follows_drain.
  - by apply follows_register_task.
  - by apply follows_admit_tasks.
  - by apply follows_create_task.
  - by apply follows_settle.
  - by apply follows_skip.
  - by apply follows_requeue.
  - by apply follows_cancel_task.
  - by apply follows_handoff.
  - by apply follows_assign.
  - by apply follows_mark_running.
  - by apply follows_reserve.
  - by apply follows_commit.
  - by apply follows_set_state.
  - by apply follows_cancel_spawn.
  - by apply follows_abort_spawn.
  - by apply follows_outcome.
  - by apply follows_handle.
  - by apply follows_record.
Qed.

Lemma initial_agree s : run_initial run s → members_agree s.
Proof. intros (Ht & _) id team a. by rewrite Ht. Qed.

(** Along a history the invariant holds, and the records replay it. *)
Lemma history_follows s0 s :
  run_initial run s0 → rtc run_step s0 s → follows s0 s ∧ members_agree s.
Proof.
  intros H0. revert s. apply (rtc_ind_r (λ s, follows s0 s ∧ members_agree s)).
  - split; [|by apply initial_agree]. apply follows_refl. by apply run_inv_initial.
  - intros s1 s2 _ (now & op & Hr & Hnow & Hop & Hkeeps & ->) [[Hi Hrep] Hag].
    destruct (run_op_agrees sha256 to_vec to_string from_str write_named read_named run s1 now op Hkeeps Hag) as [Hk Hag'].
    split; [|done]. destruct (follows_op s1 now op) as [Hi' Hrep']; [done..|].
    split; [done|]. by eapply replays_trans.
Qed.

(** C1: After a history of calls on a Run that do not overlap - Teams, tasks and
    their changes, messages, child Agents - a runtime that knows the Agents it
    was started with and the ledger, and nothing else, is restored by
    [restore_projection]: the call succeeds and gives back every registry as it
    was, the Agents with their states and Teams, the tasks with their revisions
    and the operations applied to them, the mailboxes, the Team state and the
    relationships.  The histories are those in which no successful call puts an
    Agent of one Team into another or cancels or aborts the spawn of a member of
    a Team ([keeps_teams]), with arguments as [op_ok] has them. *)
Theorem runtime_recovery s0 s :
  run_initial run s0 → rtc run_step s0 s →
  restore_projection sha256 to_vec (set_ledger s0 (rt_ledger s)) run = (s, Ok tt).
Proof.
  intros H0 Hsteps. destruct (history_follows s0 s H0 Hsteps) as [[_ (rs & Hrec & Hrep)] _].
  destruct H0 as (_ & _ & _ & _ & _ & _ & Hnone & _). rewrite Hnone in Hrec. simpl in Hrec.
  unfold restore_projection. cbn [rt_ledger set_ledger]. rewrite Hrec, Hrep.
  rewrite set_ledger_id. reflexivity.
Qed.

(** C27: Along the same histories each registered task is in order: it belongs
    to the Run and has a complete workflow identity, and when it has a Team, the
    Team exists and belongs to the Run, its coordinator and the owner of the
    task, if it has one, are members, the task is not in its initial state, a
    queued task has no owner and an assigned or running one has an owner; and the
    members of a Team are Agents of the Run that have this Team. *)
Theorem team_tasks_in_order s0 s :
  run_initial run s0 → rtc run_step s0 s →
  (∀ id t, get_task (rt_tasks s) id = Some t →
     tr_run_id t = run ∧ is_ok (validate_intrinsic_task_identity t) = true ∧
     ∀ team_id, tr_team_id t = Some team_id →
       ownership_ok t ∧ tr_state t ≠ Created ∧
       ∃ team c, rt_teams s !! team_id = Some team ∧ tm_run_id team = run ∧
         tm_coordinator team = Some c ∧ c ∈ tm_members team ∧
         ∀ o, tr_owner_agent_id t = Some o → o ∈ tm_members team) ∧
  (∀ team_id team a, rt_teams s !! team_id = Some team → a ∈ tm_members team →
     ∃ r, rt_agents s !! a = Some r ∧ ar_team_id r = Some team_id ∧ ar_run_id r = run).
Proof.
  intros H0 Hsteps. destruct (history_follows s0 s H0 Hsteps) as [[Hi _] Hag]. split.
  - intros id t Ht. destruct (ri_tasks _ _ Hi _ _ Ht) as (H1 & H2 & H3). split_and!; [done..|].
    intros team_id Hid. destruct (H3 team_id Hid) as (Ho & Hc & team & c & Hteam & E1 & E2 & E3).
    split; [done|]. split; [done|]. exists team, c. split_and!; [done|by eapply ri_teams|done..].
  - intros team_id team a Ht Ha. destruct (Hag _ _ _ Ht Ha) as (r & Hr & ?). exists r.
    split_and!; [done..|by eapply ri_members].
Qed.
End recovery.
