(* ===== verification/CollaborationErrors.v ===== *)
(** * Errors of the collaboration runtime

    A call that fails changes nothing: neither a registry nor a stored record. *)
From S2P Require Import ResourceTypes Prelude Json Types TaskRegistry RuntimeLedger LedgerFacts LedgerAdmission WorkflowTypes Identity Registries LedgerInterface MessageBus BusFacts BusGuarantees CollaborationTypes CollaborationRuntime CollaborationTasks CollaborationSpawn CollaborationRestore CollaborationHistory CollaborationReplay CollaborationReplayTasks CollaborationReplayBatch CollaborationReplayTeams CollaborationRecovery.

(** Every registry and every record is as it was. *)
Definition undisturbed (s s' : Runtime) : Prop :=
  s' = set_ledger s (rt_ledger s') ∧
  ∀ r, run_records (rt_ledger s') r = run_records (rt_ledger s) r.

Definition quiet {A} (s : Runtime) (c : outcome A) : Prop := is_ok c.2 = false → undisturbed s c.1.

Lemma undisturbed_refl s : undisturbed s s.
Proof. split; [by rewrite set_ledger_id|done]. Qed.

Lemma quiet_ok {A} s s' (a : A) : quiet s (s', Ok a).
Proof. done. Qed.

Lemma quiet_err {A} s e : quiet (A := A) s (s, Err e).
Proof. intros _. apply undisturbed_refl. Qed.

Lemma quiet_slift {A B} s (r : result A RuntimeError) (k : A → outcome B) :
  (∀ a, r = Ok a → quiet s (k a)) → quiet s (slift s r k).
Proof. destruct r as [a|e]; intros H; [by apply H|apply quiet_err]. Qed.

Lemma quiet_append {B} s now run ty p (k : Runtime → LedgerRecord → Runtime * B) :
  quiet s (sbind (rt_append s now run ty p) (λ s r, ((k s r).1, Ok (k s r).2))).
Proof. done. Qed.

Lemma quiet_then {A B} s (c : outcome A) (k : Runtime → A → Runtime * B) :
  quiet s c → quiet s (sbind c (λ s a, ((k s a).1, Ok (k s a).2))).
Proof. intros H. by destruct c as [s' [a|e]]. Qed.

Lemma quiet_admit s now run max tasks additional : quiet s (rt_admit s now run max tasks additional).
Proof.
  unfold rt_admit, admit_tasks_and_append.
  destruct (admit_inner_cases (rt_ledger s) now run run max tasks additional None)
    as [[e ->]|(? & ? & ? & ? & ? & _ & _ & _ & _ & _ & _ & ->)]; [|done].
  intros _. simpl. rewrite set_ledger_id. apply undisturbed_refl.
Qed.

Create HintDb quiet.
#[export] Hint Resolve quiet_ok quiet_err : quiet.

(** The checks of a call, then its last step. *)
Ltac checks := repeat (apply quiet_slift; intros ? _).

Section errors.
Context (sha256 : string → list Byte.byte) (to_vec to_string : Value → string).
Context (from_str : string → option Value).
Context {O : Type} (write_named : O → RunId → string → O * result string string).
Context (read_named : O → RunId → string → result string string).
Context (run : RunId).

Abbreviation run_op := (run_op sha256 to_vec to_string from_str write_named read_named run).
Abbreviation run_step := (run_step sha256 to_vec to_string from_str write_named read_named run).

(** *** Teams and admissions *)

Lemma quiet_prepare_team s now child c : quiet s (prepare_collaboration_team s now run child c).
Proof.
  unfold prepare_collaboration_team. checks. match goal with |- context [if ?b then _ else _] => destruct b end;
    [apply quiet_ok|]. apply (quiet_then s _ (λ s _, (_, tt))), quiet_admit.
Qed.

Lemma quiet_prepare_tasks s now c max tasks :
  quiet s (prepare_collaboration_task_batch s now run c max tasks).
Proof.
  unfold prepare_collaboration_task_batch. checks. apply (quiet_then s _ (λ s _, (_, tt))), quiet_admit.
Qed.

Lemma quiet_prepare_membership s now child c : quiet s (prepare_collaboration_membership s now run child c).
Proof.
  unfold prepare_collaboration_membership. checks. case_match; [apply quiet_ok|].
  apply (quiet_then s _ (λ s _, (_, tt))), quiet_admit.
Qed.

Lemma quiet_prepare_spawn s now handles max : quiet s (prepare_spawn_batch s now run handles max).
Proof.
  unfold prepare_spawn_batch. checks. destruct a as [[teams ms] tasks]. case_match; [apply quiet_ok|].
  apply (quiet_then s _ (λ s _, (_, tt))), quiet_admit.
Qed.

(** Tasks that were written can be read back, so the projection of an admission
    does not fail. *)
Lemma quiet_admit_tasks s now max tasks :
  run_inv run s → Forall task_record_ok tasks → quiet s (admit_runtime_tasks s now run max tasks).
Proof.
  intros Hi Hok. rewrite admission_alone. checks. pose proof (quiet_admit s now run max tasks []) as Hq.
  destruct (rt_admit_cases run s now max tasks [] Hi) as [[e E]|(admitted & l & rs_c & rs_x & E & Had)];
    rewrite E in *; cbn [sbind]; [apply quiet_err|].
  pose proof (no_extra _ _ _ _ _ _ _ _ Had) as ->. rewrite app_nil_r, (project_created run _ admitted); [done|apply Had|].
  apply Forall_forall. intros t Ht. rewrite Forall_forall in Hok.
  by apply Hok, (admitted_fresh _ _ _ _ _ _ _ _ _ _ Had).
Qed.

Lemma quiet_create_task s now team by_agent max task :
  run_inv run s → task_record_ok (initial_task task) →
  quiet s (create_collaboration_task s now run team by_agent max task).
Proof.
  intros Hi Hok. unfold create_collaboration_task. checks.
  apply (quiet_then s _ (λ s _, (s, _))), quiet_admit_tasks; [done|by constructor].
Qed.

Lemma quiet_register_task s now task : quiet s (register_runtime_task s now run task).
Proof.
  unfold register_runtime_task. checks. destruct (_ !! _).
  - case_match; auto with quiet.
  - destruct (get_task _ _); [case_match; auto with quiet|]. done.
Qed.

(** *** Messages *)

Lemma quiet_bus {A} s (c : BusState InMemoryLedgerState * result A (BusError LedgerError)) :
  atomic (rt_bus s) c → quiet s (with_bus s c).
Proof.
  intros H He. destruct c as [b [a|e]]; [done|]. destruct (H eq_refl) as [Hb Hl]. simpl in *. split; [|done].
  rewrite Hb. by destruct s.
Qed.

(** A result without a new record is the answer to a repeated call. *)
Lemma send_replayed (s : BusState InMemoryLedgerState) g now id requested effective from to kind body b m :
  coherent (E := LedgerError) run s →
  send_with_requested_team_id (E := LedgerError) to_vec s g now id run requested effective from to kind body =
    (b, Ok (m, None)) → b = s.
Proof.
  intros Hc. unfold send_with_requested_team_id.
  destruct (replay_send_spec run s id requested from to kind body Hc) as [Hs _].
  destruct (replay_send s id run requested from to kind body) as [s0 [[m0|]|e]]; cbn [sbind fst snd] in *;
    subst s0; [by intros [= <- _]| |done].
  intros H. repeat (apply slift_ok in H as (? & _ & H)). case_match. repeat (apply slift_ok in H as (? & _ & H)).
  by apply sbind_ok in H as (? & ? & _ & [=]).
Qed.

Lemma broadcast_replayed (s : BusState InMemoryLedgerState) g now id team from recipients kind body b ms :
  coherent (E := LedgerError) run s →
  broadcast_with_id (E := LedgerError) to_vec s g now id run team from recipients kind body =
    (b, Ok (ms, None)) → b = s.
Proof.
  intros Hc. unfold broadcast_with_id.
  pose proof (replay_broadcast_spec run s id team from (Some recipients) kind body Hc) as Hs.
  destruct (replay_broadcast s id run team from (Some recipients) kind body) as [s0 [[m0|]|e]]; cbn [sbind fst snd] in *;
    subst s0; [by intros [= <- _]| |done].
  intros H. repeat (apply slift_ok in H as (? & _ & H)). by apply sbind_ok in H as (? & ? & _ & [=]).
Qed.

(** A call that insists on a new record. *)
Lemma atomic_fresh {A} s
    (c : BusState InMemoryLedgerState * result (A * option LedgerRecord) (BusError LedgerError)) e :
  atomic (rt_bus s) c → (∀ b m, c = (b, Ok (m, None)) → b = rt_bus s) →
  atomic (rt_bus s) (sbind c (λ b '(m, r), slift b (ok_or r e) (λ r, (b, Ok (m, r))))).
Proof. intros H Hr. destruct c as [b [[m [r|]]|e']]; [done| |done]. intros _. by rewrite (Hr b m). Qed.

Lemma quiet_send s now uuid team from to kind body :
  run_inv run s → quiet s (send_message to_vec s now uuid run team from to kind body).
Proof.
  intros Hi. unfold send_message. checks.
  assert (quiet s (with_bus s (send to_vec (rt_bus s) (rt_registry s) now uuid run a from to kind body))) as Hq.
  { apply quiet_bus, atomic_fresh; [by apply atomic_send, Hi|]. intros b m. apply send_replayed, Hi. }
  by destruct (with_bus _ _) as [s' [[m r]|e]].
Qed.

Lemma quiet_send_with_id s now id team from to kind body :
  run_inv run s → quiet s (send_message_with_id to_vec s now id run team from to kind body).
Proof.
  intros Hi. unfold send_message_with_id.
  destruct (replay_send_spec run (rt_bus s) id team from to kind body (ri_bus _ _ Hi)) as [Hs _].
  set (c := replay_send (rt_bus s) id run team from to kind body) in *.
  pose proof (with_bus_id s c Hs) as Hid. destruct (with_bus s c) as [s' [[m|]|e]]; simpl in Hid; subst s';
    cbn [sbind]; [apply quiet_ok| |apply quiet_err].
  checks. assert (quiet s (with_bus s (send_with_requested_team_id to_vec (rt_bus s) (rt_registry s) now id run
    team a from to kind body))) as Hq by by apply quiet_bus, atomic_send, Hi.
  by destruct (with_bus _ _) as [s' [[m r]|e]].
Qed.

Lemma quiet_broadcast s now uuid team from kind body :
  run_inv run s → quiet s (broadcast_team_message to_vec s now uuid run team from kind body).
Proof.
  intros Hi. unfold broadcast_team_message. checks.
  assert (quiet s (with_bus s (broadcast to_vec (rt_bus s) (rt_registry s) now uuid run team from a kind body))) as Hq.
  { apply quiet_bus, atomic_fresh; [by apply atomic_broadcast, Hi|]. intros b m. apply broadcast_replayed, Hi. }
  by destruct (with_bus _ _) as [s' [[m r]|e]].
Qed.

Lemma quiet_broadcast_with_id s now id team from kind body :
  run_inv run s → quiet s (broadcast_message_with_id to_vec s now id run team from kind body).
Proof.
  intros Hi. unfold broadcast_message_with_id, replay_broadcast_with_id.
  pose proof (replay_broadcast_spec run (rt_bus s) id team from None kind body (ri_bus _ _ Hi)) as Hs.
  set (c := replay_broadcast (rt_bus s) id run team from None kind body) in *.
  pose proof (with_bus_id s c Hs) as Hid. destruct (with_bus s c) as [s' [[m|]|e]]; simpl in Hid; subst s';
    cbn [sbind]; [apply quiet_ok| |apply quiet_err].
  checks. assert (quiet s (with_bus s (broadcast_with_id to_vec (rt_bus s) (rt_registry s) now id run
    team from a kind body))) as Hq by by apply quiet_bus, atomic_broadcast, Hi.
  by destruct (with_bus _ _) as [s' [[m r]|e]].
Qed.

Lemma quiet_acknowledge s now agent id : quiet s (acknowledge_message s now run agent id).
Proof.
  unfold acknowledge_message. checks.
  assert (quiet s (with_bus s (acknowledge (rt_bus s) (rt_registry s) now run agent id))) as Hq
    by apply quiet_bus, atomic_acknowledge.
  by destruct (with_bus _ _) as [s' [[m r]|e]].
Qed.

(** *** Changes of tasks *)

Lemma quiet_cas s now r id expected op m : quiet s (cas_revision sha256 to_vec s now r id expected op m).
Proof.
  apply (quiet_then s _ (λ s t, (s, tr_revision t))). unfold apply_task_cas. checks.
  destruct (cas_durable _ _ _ _ _ _ _) as [[l t] [next|e]] eqn:Hcas; [apply quiet_ok|]. intros _.
  apply cas_durable_err in Hcas as [-> [->|(next & Hp)]]; [simpl; rewrite set_same; apply undisturbed_refl|].
  unfold persist_cas in Hp. destruct (List.find _ _); [case_match; [done|]|done].
  injection Hp as <- _. simpl. rewrite set_same. apply undisturbed_refl.
Qed.

(** *** Child Agents *)

Lemma quiet_cancel_spawn s now re reason : quiet s (cancel_spawn s now re reason).
Proof. unfold cancel_spawn. checks. case_decide; [apply quiet_ok|]. checks. apply (quiet_append _ _ _ _ _ (λ s r, (_, tt))). Qed.

Lemma quiet_abort_spawn s now re reason : quiet s (abort_spawn s now re reason).
Proof.
  unfold abort_spawn. destruct (re_reattached re); [by case_match|]. case_match; [apply quiet_cancel_spawn|].
  destruct (agent_get _ _); [done|]. case_match; auto with quiet.
Qed.

Lemma quiet_reserve s now parent role key op ceiling requested :
  quiet s (reserve_spawn_typed sha256 s now run parent role key op ceiling requested).
Proof.
  unfold reserve_spawn_typed. destruct (child_for_key _ _).
  - apply (quiet_then s _ (λ s _, (s, _))). unfold reattach_spawn. checks. case_decide; [apply quiet_ok|].
    case_decide; [apply quiet_err|done].
  - destruct (agent_get _ _); [|done]. checks. apply quiet_ok.
Qed.

Lemma quiet_commit s now re : quiet s (commit_spawn sha256 s now re).
Proof.
  unfold commit_spawn. case_match; [apply quiet_ok|]. destruct (child_for_key _ _); checks; [|done].
  case_decide; auto with quiet.
Qed.

Lemma quiet_outcome s (o : O) now re res :
  let c := record_agent_outcome sha256 to_string from_str write_named read_named s o now re res in
  quiet s (c.1.1, c.2).
Proof.
  unfold record_agent_outcome. destruct (List.find _ _).
  { destruct (read_agent_outcome_record _ _ _ _ _ _) as [[? ?]|]; [|apply quiet_err]. case_match; [apply quiet_ok|apply quiet_err]. }
  destruct (write_named _ _ _) as [o' [reference|e]]; [|apply quiet_err].
  destruct (agent_get _ _); [|apply quiet_err]. case_match; [apply quiet_err|done].
Qed.

Lemma quiet_handle s now op digest handle : quiet s (record_agent_handle s now run op digest handle).
Proof. unfold record_agent_handle. destruct (List.find _ _); [case_decide; auto with quiet|done]. Qed.

Lemma quiet_record s now other d ty p : quiet s (commit_record s now other d ty p).
Proof.
  unfold commit_record, append. case_decide; [done|]. intros _. simpl. rewrite set_ledger_id. apply undisturbed_refl.
Qed.

(** *** Every operation *)

Lemma quiet_op s now op :
  run_inv run s → op_ok run s op → (run_op now op s).2 = false → undisturbed s (run_op now op s).1.
Proof.
  intros Hi Hop. destruct op; cbn [CollaborationHistory.run_op done_as fst snd op_ok] in *.
  - unfold create_collaboration_team. by case_match.
  - change (quiet s (ensure_collaboration_team s now run name c)). unfold ensure_collaboration_team. checks.
    destruct (team_get _ _); [case_match; auto with quiet|done].
  - apply quiet_prepare_team.
  - apply quiet_prepare_tasks.
  - apply quiet_prepare_membership.
  - apply quiet_prepare_spawn.
  - change (quiet s (join_team s now run team agent)). unfold join_team. checks. by case_decide.
  - change (quiet s (set_team_fact s now run team by_agent key value)). unfold set_team_fact. by checks.
  - change (quiet s (register_team_artifact s now uuid run team agent uri kind metadata)).
    unfold register_team_artifact. by checks.
  - by apply quiet_send.
  - by apply quiet_send_with_id.
  - by apply quiet_broadcast.
  - by apply quiet_broadcast_with_id.
  - apply quiet_acknowledge.
  - apply quiet_bus, atomic_claim.
  - apply quiet_bus, atomic_drain.
  - apply quiet_register_task.
  - apply quiet_admit_tasks; [done|]. eapply Forall_impl; [exact Hop|]. by intros t [? _].
  - apply quiet_create_task; [done|apply Hop].
  - change (quiet s (settle_collaboration_task sha256 to_vec s now run task agent revision op state outcome_ref failure)).
    unfold settle_collaboration_task. checks. apply quiet_cas.
  - change (quiet s (skip_collaboration_task sha256 to_vec s now run task revision op reason)).
    unfold skip_collaboration_task. checks. apply quiet_cas.
  - change (quiet s (requeue_supervisor_task sha256 to_vec s now run task coordinator revision op reason)).
    unfold requeue_supervisor_task. checks. apply quiet_cas.
  - change (quiet s (cancel_supervisor_workflow_task sha256 to_vec s now run task coordinator revision op)).
    unfold cancel_supervisor_workflow_task. checks. apply quiet_cas.
  - change (quiet s (handoff_task sha256 to_vec s now run task from to revision op)).
    unfold handoff_task. checks. apply quiet_cas.
  - change (quiet s (assign_task_owner sha256 to_vec s now run task agent revision op)).
    unfold assign_task_owner. checks. apply quiet_cas.
  - change (quiet s (mark_task_running sha256 to_vec s now run task agent revision op)).
    unfold mark_task_running. checks. apply quiet_cas.
  - apply quiet_reserve.
  - apply quiet_commit.
  - change (quiet s (set_agent_state s now run agent state)). unfold set_agent_state. checks.
    case_decide; [apply quiet_ok|]. by checks.
  - apply quiet_cancel_spawn.
  - apply quiet_abort_spawn.
  - apply quiet_outcome.
  - apply quiet_handle.
  - apply quiet_record.
Qed.

(** C26: A call of the collaboration runtime that returns an error has changed
    nothing.  On every history and for every operation - Teams, batches, tasks
    and their changes, messages, spawns, outcomes - a call that fails leaves
    each registry and the records of each Run as they were, so the caller can
    repeat it. *)
Theorem runtime_errors_atomic s0 s now op :
  (∀ x, sha256 x ≠ []) → run_initial run s0 → rtc run_step s0 s → op_ok run s op →
  (run_op now op s).2 = false → undisturbed s (run_op now op s).1.
Proof.
  intros Hsha H0 Hsteps Hop. apply quiet_op; [|done].
  by destruct (history_follows sha256 to_vec to_string from_str write_named read_named run Hsha s0 s H0 Hsteps)
    as [[? _] _].
Qed.
End errors.
