(* ===== verification/WorkflowRuns.v ===== *)
(** * Workflow Runs: data

    The records of crates/solaris-agent/src/workflow_controller.rs that a Run of
    a Workflow consists of, with the JSON forms in which the ledger holds them,
    and the JSON form of a definition (crates/solaris-types/src/workflow.rs),
    whose digest a Run is bound to.  A [BTreeMap] is a [gmap], iterated in key
    order. *)
From S2P Require Import ResourceTypes Prelude Json Types WorkflowTypes CollaborationTypes.

(** ** Ordered maps *)

Definition key_le {A} (a b : string * A) : Prop := String.le a.1 b.1.

#[export] Instance key_le_dec {A} : RelDecision (@key_le A).
Proof. intros a b. unfold key_le. apply _. Defined.

(** [BTreeMap::iter]. *)
Definition btree_iter {A} (m : gmap string A) : list (string * A) :=
  merge_sort key_le (map_to_list m).

Lemma btree_iter_perm {A} (m : gmap string A) : btree_iter m ≡ₚ map_to_list m.
Proof. apply merge_sort_Permutation. Qed.

Lemma elem_of_btree_iter {A} (m : gmap string A) k a : (k, a) ∈ btree_iter m ↔ m !! k = Some a.
Proof. by rewrite btree_iter_perm, elem_of_map_to_list. Qed.

Lemma btree_iter_NoDup {A} (m : gmap string A) : NoDup (btree_iter m).*1.
Proof. rewrite btree_iter_perm. apply NoDup_fst_map_to_list. Qed.

Lemma list_to_map_btree_iter {A} (m : gmap string A) : list_to_map (btree_iter m) = m.
Proof.
  rewrite <-(list_to_map_to_list m) at 2. apply list_to_map_proper; [apply btree_iter_NoDup|].
  apply btree_iter_perm.
Qed.

(** A map with string keys is an object. *)
Definition map_to_value `{Serde A} (m : gmap string A) : Value :=
  VObject ((λ kv, (kv.1, to_value kv.2)) <$> btree_iter m).

Definition entry_from_value `{Serde A} (kv : string * Value) : option (string * A) :=
  a ← from_value kv.2; Some (kv.1, a).

Definition map_from_value `{Serde A} (v : Value) : option (gmap string A) :=
  l ← as_object v; entries ← mapM entry_from_value l; Some (list_to_map entries).

#[export] Program Instance serde_map `{Serde A} : Serde (gmap string A) := {|
  to_value := map_to_value;
  from_value := map_from_value;
  serde_ok m := map_Forall (λ _, serde_ok) m;
|}.
Next Obligation.
  intros A ? m Hm. unfold map_from_value, map_to_value. cbn [as_object mbind option_bind].
  rewrite (proj2 (mapM_Some (entry_from_value (A := A)) _ (btree_iter m))).
  - simpl. by rewrite list_to_map_btree_iter.
  - apply Forall2_fmap_l, Forall_Forall2_diag, Forall_forall. intros [k a] Hin. simpl.
    unfold entry_from_value. simpl. rewrite from_to_value; [done|].
    by eapply Hm, elem_of_btree_iter.
Qed.
Next Obligation.
  intros A ? m Hm. apply value_wf_object. split.
  - rewrite <-list_fmap_compose. apply (btree_iter_NoDup m).
  - apply Forall_fmap, Forall_forall. intros [k a] Hin. apply to_value_wf.
    by eapply Hm, elem_of_btree_iter.
Qed.

(** ** Runs *)

Inductive WorkflowNodeStatus : Type :=
  | NPending | NRunning | NCompleted | NFailed | NSkipped | NCancelled.

Inductive WorkflowRunStatus : Type := RRunning | RCompleted | RFailed | RCancelled.

#[export] Instance WorkflowNodeStatus_eq_dec : EqDecision WorkflowNodeStatus.
Proof. solve_decision. Defined.
#[export] Instance WorkflowRunStatus_eq_dec : EqDecision WorkflowRunStatus.
Proof. solve_decision. Defined.

Definition node_status_str (s : WorkflowNodeStatus) : string :=
  match s with
  | NPending => "pending" | NRunning => "running" | NCompleted => "completed"
  | NFailed => "failed" | NSkipped => "skipped" | NCancelled => "cancelled"
  end.

Definition run_status_str (s : WorkflowRunStatus) : string :=
  match s with
  | RRunning => "running" | RCompleted => "completed" | RFailed => "failed"
  | RCancelled => "cancelled"
  end.

(** [{:?}]. *)
Definition node_status_debug (s : WorkflowNodeStatus) : string :=
  match s with
  | NPending => "Pending" | NRunning => "Running" | NCompleted => "Completed"
  | NFailed => "Failed" | NSkipped => "Skipped" | NCancelled => "Cancelled"
  end.

Definition run_status_debug (s : WorkflowRunStatus) : string :=
  match s with
  | RRunning => "Running" | RCompleted => "Completed" | RFailed => "Failed"
  | RCancelled => "Cancelled"
  end.

#[export] Program Instance serde_node_status : Serde WorkflowNodeStatus := {|
  to_value s := VString (node_status_str s);
  from_value := enum_from_value node_status_str
    [NPending; NRunning; NCompleted; NFailed; NSkipped; NCancelled];
  serde_ok _ := True;
|}.
Next Obligation. by intros []. Qed.
Next Obligation. done. Qed.

#[export] Program Instance serde_run_status : Serde WorkflowRunStatus := {|
  to_value s := VString (run_status_str s);
  from_value := enum_from_value run_status_str [RRunning; RCompleted; RFailed; RCancelled];
  serde_ok _ := True;
|}.
Next Obligation. by intros []. Qed.
Next Obligation. done. Qed.

Record DeferredTaskTerminalWrite : Type := {
  dt_state : TaskState;
  dt_clear_owner : bool;
  dt_outcome_ref : option string;
  dt_failure_class : TaskFailureClass;
  dt_operation_id : OperationId;
}.

#[export] Instance DeferredTaskTerminalWrite_eq_dec : EqDecision DeferredTaskTerminalWrite.
Proof. solve_decision. Defined.

Definition deferred_fields (d : DeferredTaskTerminalWrite) : list (string * option Value) :=
  [("state", Some (to_value (dt_state d))); ("clear_owner", Some (to_value (dt_clear_owner d)));
   ("outcome_ref", field_opt (dt_outcome_ref d));
   ("failure_class", Some (to_value (dt_failure_class d)));
   ("operation_id", Some (to_value (dt_operation_id d)))].

Definition deferred_from (v : Value) : option DeferredTaskTerminalWrite :=
  l ← as_object v;
  state ← read from_value "state" l;
  clear_owner ← read from_value "clear_owner" l;
  outcome_ref ← read_opt from_value "outcome_ref" l;
  failure_class ← read from_value "failure_class" l;
  operation_id ← read from_value "operation_id" l;
  Some {| dt_state := state; dt_clear_owner := clear_owner; dt_outcome_ref := outcome_ref;
          dt_failure_class := failure_class; dt_operation_id := operation_id |}.

#[export] Program Instance serde_deferred : Serde DeferredTaskTerminalWrite := {|
  to_value d := VObject (fields_of (deferred_fields d));
  from_value := deferred_from;
  serde_ok _ := True;
|}.
Next Obligation.
  intros d _. assert (NoDup (deferred_fields d).*1) as Hnd by serde_keys.
  eapply bind_Some_intro; [reflexivity|]. repeat serde_step. by destruct d.
Qed.
Next Obligation. intros d _. serde_wf. Qed.

Record WorkflowNodeAttempt : Type := {
  na_node_id : string;
  na_attempt_id : AttemptId;
  na_attempt_number : Z;
  na_status : WorkflowNodeStatus;
  na_input_digest : option string;
  na_output : option Value;
  na_output_ref : option string;
  na_committed_at_unix_ms : option Z;
  na_error : option string;
  na_failure_class : option TaskFailureClass;
  na_resume_existing_attempt : bool;
  na_deferred : option DeferredTaskTerminalWrite;
}.

(** [output] is not written ([skip_serializing]). *)
Definition attempt_fields (a : WorkflowNodeAttempt) : list (string * option Value) :=
  [("node_id", Some (to_value (na_node_id a))); ("attempt_id", Some (to_value (na_attempt_id a)));
   ("attempt_number", Some (uint_to_value (na_attempt_number a)));
   ("status", Some (to_value (na_status a)));
   ("input_digest", field_opt (na_input_digest a));
   ("output_ref", field_opt (na_output_ref a));
   ("committed_at_unix_ms", i64_to_value <$> na_committed_at_unix_ms a);
   ("error", field_opt (na_error a));
   ("failure_class", field_opt (na_failure_class a));
   ("resume_existing_attempt", field_if (na_resume_existing_attempt a)
                                 (to_value (na_resume_existing_attempt a)));
   ("deferred_task_terminal_write", field_opt (na_deferred a))].

Definition attempt_from (v : Value) : option WorkflowNodeAttempt :=
  l ← as_object v;
  node_id ← read from_value "node_id" l;
  attempt_id ← read from_value "attempt_id" l;
  attempt_number ← read (uint_from_value u32_max) "attempt_number" l;
  status ← read from_value "status" l;
  input_digest ← read_opt from_value "input_digest" l;
  output ← read_opt from_value "output" l;
  output_ref ← read_opt from_value "output_ref" l;
  committed ← read_opt as_i64 "committed_at_unix_ms" l;
  error ← read_opt from_value "error" l;
  failure_class ← read_opt from_value "failure_class" l;
  resume ← read_default from_value false "resume_existing_attempt" l;
  deferred ← read_opt from_value "deferred_task_terminal_write" l;
  Some {| na_node_id := node_id; na_attempt_id := attempt_id; na_attempt_number := attempt_number;
          na_status := status; na_input_digest := input_digest; na_output := output;
          na_output_ref := output_ref; na_committed_at_unix_ms := committed; na_error := error;
          na_failure_class := failure_class; na_resume_existing_attempt := resume;
          na_deferred := deferred |}.

(** What a written attempt reads back from: it carries no output. *)
Definition attempt_ok (a : WorkflowNodeAttempt) : Prop :=
  (0 ≤ na_attempt_number a ≤ u32_max)%Z ∧ na_output a = None ∧
  match na_committed_at_unix_ms a with Some n => is_i64 n | None => True end.

Lemma read_opt_i64 l k o :
  NoDup l.*1 → assoc k l = Some (i64_to_value <$> o) →
  match o with Some n => is_i64 n | None => True end →
  read_opt as_i64 k (fields_of l) = Some o.
Proof.
  intros Hnd Hk Ho. unfold read_opt. rewrite assoc_fields_of, Hk by done.
  destruct o as [n|]; [|done]. simpl. pose proof (i64_roundtrip n Ho) as Hr.
  unfold i64_to_value in *. by case_decide; rewrite Hr.
Qed.

#[export] Program Instance serde_attempt : Serde WorkflowNodeAttempt := {|
  to_value a := VObject (fields_of (attempt_fields a));
  from_value := attempt_from;
  serde_ok := attempt_ok;
|}.
Next Obligation.
  intros a (Hn & Ho & Hc). assert (NoDup (attempt_fields a).*1) as Hnd by serde_keys.
  eapply bind_Some_intro; [reflexivity|].
  do 3 serde_step; [by apply uint_roundtrip|]. do 2 serde_step.
  eapply bind_Some_intro; [unfold read_opt; rewrite assoc_fields_of by done; reflexivity|].
  serde_step. eapply bind_Some_intro; [by apply read_opt_i64|].
  repeat serde_step.
  - intros _. by apply (from_to_value (na_resume_existing_attempt a)).
  - intros H. by rewrite H.
  - destruct a. simpl in *. by subst.
Qed.
Next Obligation.
  intros a (Hn & Ho & Hc). serde_wf. apply Forall_cons_2;
    [|repeat (apply Forall_cons_2; [serde_wf_member|]); apply Forall_nil_2]. intros v Hv. cbn [snd] in Hv.
  destruct (na_committed_at_unix_ms a) as [n|]; [|done].
  injection Hv as <-. unfold i64_to_value. by case_decide.
Qed.

Record WorkflowFailureSummary : Type := {
  fs_primary_failure_class : TaskFailureClass;
  fs_failures : gmap string TaskFailureClass;
}.

#[export] Instance WorkflowFailureSummary_eq_dec : EqDecision WorkflowFailureSummary.
Proof. solve_decision. Defined.

Definition summary_fields (s : WorkflowFailureSummary) : list (string * option Value) :=
  [("primary_failure_class", Some (to_value (fs_primary_failure_class s)));
   ("failures", Some (to_value (fs_failures s)))].

Definition summary_from (v : Value) : option WorkflowFailureSummary :=
  l ← as_object v;
  primary ← read from_value "primary_failure_class" l;
  failures ← read from_value "failures" l;
  Some {| fs_primary_failure_class := primary; fs_failures := failures |}.

#[export] Program Instance serde_summary : Serde WorkflowFailureSummary := {|
  to_value s := VObject (fields_of (summary_fields s));
  from_value := summary_from;
  serde_ok _ := True;
|}.
Next Obligation.
  intros s _. assert (NoDup (summary_fields s).*1) as Hnd by serde_keys.
  eapply bind_Some_intro; [reflexivity|]. repeat serde_step. by destruct s.
Qed.
Next Obligation. intros s _. serde_wf. Qed.

Record WorkflowRuntimeIdentity : Type := {
  ri_provider : string;
  ri_model : string;
}.

#[export] Instance WorkflowRuntimeIdentity_eq_dec : EqDecision WorkflowRuntimeIdentity.
Proof. solve_decision. Defined.

Definition identity_fields (i : WorkflowRuntimeIdentity) : list (string * option Value) :=
  [("provider", Some (to_value (ri_provider i))); ("model", Some (to_value (ri_model i)))].

Definition identity_from (v : Value) : option WorkflowRuntimeIdentity :=
  l ← as_object v;
  provider ← read from_value "provider" l;
  model ← read from_value "model" l;
  Some {| ri_provider := provider; ri_model := model |}.

#[export] Program Instance serde_identity : Serde WorkflowRuntimeIdentity := {|
  to_value i := VObject (fields_of (identity_fields i));
  from_value := identity_from;
  serde_ok _ := True;
|}.
Next Obligation.
  intros i _. assert (NoDup (identity_fields i).*1) as Hnd by serde_keys.
  eapply bind_Some_intro; [reflexivity|]. repeat serde_step. by destruct i.
Qed.
Next Obligation. intros i _. serde_wf. Qed.

Record WorkflowRunSnapshot : Type := {
  wr_run_id : RunId;
  wr_workflow_id : string;
  wr_workflow_version : string;
  wr_workflow_definition_digest : option string;
  wr_input_digest : option string;
  wr_runtime_identity : option WorkflowRuntimeIdentity;
  wr_parent_run_id : option RunId;
  wr_status : WorkflowRunStatus;
  wr_reconciliation_reason : option string;
  wr_failure_summary : option WorkflowFailureSummary;
  wr_nodes : gmap string WorkflowNodeAttempt;
  wr_parameters : Value;
}.

Definition snapshot_fields (s : WorkflowRunSnapshot) : list (string * option Value) :=
  [("run_id", Some (to_value (wr_run_id s))); ("workflow_id", Some (to_value (wr_workflow_id s)));
   ("workflow_version", Some (to_value (wr_workflow_version s)));
   ("workflow_definition_digest", field_opt (wr_workflow_definition_digest s));
   ("input_digest", field_opt (wr_input_digest s));
   ("runtime_identity", field_opt (wr_runtime_identity s));
   ("parent_run_id", field_opt (wr_parent_run_id s));
   ("status", Some (to_value (wr_status s)));
   ("reconciliation_reason", field_opt (wr_reconciliation_reason s));
   ("failure_summary", field_opt (wr_failure_summary s));
   ("nodes", Some (to_value (wr_nodes s)));
   ("parameters", Some (to_value (wr_parameters s)))].

Definition snapshot_from (v : Value) : option WorkflowRunSnapshot :=
  l ← as_object v;
  run_id ← read from_value "run_id" l;
  workflow_id ← read from_value "workflow_id" l;
  version ← read from_value "workflow_version" l;
  digest ← read_opt from_value "workflow_definition_digest" l;
  input_digest ← read_opt from_value "input_digest" l;
  identity ← read_opt from_value "runtime_identity" l;
  parent ← read_opt from_value "parent_run_id" l;
  status ← read from_value "status" l;
  reason ← read_opt from_value "reconciliation_reason" l;
  summary ← read_opt from_value "failure_summary" l;
  nodes ← read from_value "nodes" l;
  parameters ← read_default from_value VNull "parameters" l;
  Some {| wr_run_id := run_id; wr_workflow_id := workflow_id; wr_workflow_version := version;
          wr_workflow_definition_digest := digest; wr_input_digest := input_digest;
          wr_runtime_identity := identity; wr_parent_run_id := parent; wr_status := status;
          wr_reconciliation_reason := reason; wr_failure_summary := summary; wr_nodes := nodes;
          wr_parameters := parameters |}.

#[export] Program Instance serde_snapshot : Serde WorkflowRunSnapshot := {|
  to_value s := VObject (fields_of (snapshot_fields s));
  from_value := snapshot_from;
  serde_ok s := map_Forall (λ _, attempt_ok) (wr_nodes s) ∧ value_wf (wr_parameters s);
|}.
Next Obligation.
  intros s [Hn Hp]. assert (NoDup (snapshot_fields s).*1) as Hnd by serde_keys.
  eapply bind_Some_intro; [reflexivity|]. repeat serde_step.
  by destruct s.
Qed.
Next Obligation. intros s [Hn Hp]. serde_wf. Qed.

Record WorkflowProjection : Type := {
  pj_snapshot : WorkflowRunSnapshot;
  pj_durable_sequence : Z;
}.

Record WorkflowStartOutcome : Type := {
  so_snapshot : WorkflowRunSnapshot;
  so_started : bool;
}.

Record ImplementationIdentity : Type := {
  im_implementation_id : string;
  im_version : option string;
  im_digest : option string;
}.

Record WorkflowExecutionContext : Type := {
  xc_run_id : RunId;
  xc_workflow : ImplementationIdentity;
  xc_node : WorkflowNode;
  xc_attempt_id : AttemptId;
  xc_parameters : Value;
  xc_dependency_outputs : gmap string Value;
  xc_bound_inputs : Value;
}.

Record WorkflowTaskHandle : Type := {
  th_task_id : TaskId;
  th_operation_id : OperationId;
  th_node_id : string;
  th_state : WorkflowNodeStatus;
  th_output_ref : option string;
}.

(** [==] on maps, attempts, snapshots and projections. *)
Definition map_eqb {A} (eqb : A → A → bool) (a b : gmap string A) : bool :=
  bool_decide (dom a = dom b) &&
  forallb (λ kv, match b !! kv.1 with Some y => eqb kv.2 y | None => false end) (map_to_list a).

Definition attempt_eqb (a b : WorkflowNodeAttempt) : bool :=
  bool_decide (na_node_id a = na_node_id b) &&
  bool_decide (na_attempt_id a = na_attempt_id b) &&
  bool_decide (na_attempt_number a = na_attempt_number b) &&
  bool_decide (na_status a = na_status b) &&
  bool_decide (na_input_digest a = na_input_digest b) &&
  option_eqb value_eqb (na_output a) (na_output b) &&
  bool_decide (na_output_ref a = na_output_ref b) &&
  bool_decide (na_committed_at_unix_ms a = na_committed_at_unix_ms b) &&
  bool_decide (na_error a = na_error b) &&
  bool_decide (na_failure_class a = na_failure_class b) &&
  bool_decide (na_resume_existing_attempt a = na_resume_existing_attempt b) &&
  bool_decide (na_deferred a = na_deferred b).

Definition snapshot_eqb (a b : WorkflowRunSnapshot) : bool :=
  bool_decide (wr_run_id a = wr_run_id b) &&
  bool_decide (wr_workflow_id a = wr_workflow_id b) &&
  bool_decide (wr_workflow_version a = wr_workflow_version b) &&
  bool_decide (wr_workflow_definition_digest a = wr_workflow_definition_digest b) &&
  bool_decide (wr_input_digest a = wr_input_digest b) &&
  bool_decide (wr_runtime_identity a = wr_runtime_identity b) &&
  bool_decide (wr_parent_run_id a = wr_parent_run_id b) &&
  bool_decide (wr_status a = wr_status b) &&
  bool_decide (wr_reconciliation_reason a = wr_reconciliation_reason b) &&
  bool_decide (wr_failure_summary a = wr_failure_summary b) &&
  map_eqb attempt_eqb (wr_nodes a) (wr_nodes b) &&
  value_eqb (wr_parameters a) (wr_parameters b).

Definition projection_eqb (a b : WorkflowProjection) : bool :=
  snapshot_eqb (pj_snapshot a) (pj_snapshot b) &&
  bool_decide (pj_durable_sequence a = pj_durable_sequence b).

(** Functional updates of the members the controller writes. *)
Definition with_nodes (s : WorkflowRunSnapshot) (nodes : gmap string WorkflowNodeAttempt) :
    WorkflowRunSnapshot :=
  {| wr_run_id := wr_run_id s; wr_workflow_id := wr_workflow_id s;
     wr_workflow_version := wr_workflow_version s;
     wr_workflow_definition_digest := wr_workflow_definition_digest s;
     wr_input_digest := wr_input_digest s; wr_runtime_identity := wr_runtime_identity s;
     wr_parent_run_id := wr_parent_run_id s; wr_status := wr_status s;
     wr_reconciliation_reason := wr_reconciliation_reason s;
     wr_failure_summary := wr_failure_summary s; wr_nodes := nodes;
     wr_parameters := wr_parameters s |}.

Definition set_node (s : WorkflowRunSnapshot) (id : string) (a : WorkflowNodeAttempt) :
    WorkflowRunSnapshot := with_nodes s (<[id := a]> (wr_nodes s)).

Definition with_status (s : WorkflowRunSnapshot) (status : WorkflowRunStatus)
    (summary : option WorkflowFailureSummary) : WorkflowRunSnapshot :=
  {| wr_run_id := wr_run_id s; wr_workflow_id := wr_workflow_id s;
     wr_workflow_version := wr_workflow_version s;
     wr_workflow_definition_digest := wr_workflow_definition_digest s;
     wr_input_digest := wr_input_digest s; wr_runtime_identity := wr_runtime_identity s;
     wr_parent_run_id := wr_parent_run_id s; wr_status := status;
     wr_reconciliation_reason := wr_reconciliation_reason s;
     wr_failure_summary := summary; wr_nodes := wr_nodes s;
     wr_parameters := wr_parameters s |}.

Definition workflow_task_id (run_id : RunId) (node_id : string) : TaskId :=
  "workflow:" +:+ run_id +:+ ":" +:+ node_id.

(** ** Failures *)

Record WorkflowNodeError : Type := {
  ne_failure_class : TaskFailureClass;
  ne_message : string;
}.

Definition node_error (class : TaskFailureClass) (message : string) : WorkflowNodeError :=
  {| ne_failure_class := class; ne_message := message |}.

Definition failure_priority (class : TaskFailureClass) : Z :=
  match class with
  | ReconciliationRequired => 9 | SideEffectUnknown => 8 | OutcomeUnknown => 7
  | FCancelled => 6 | PermissionDenied => 5 | NonConvergent => 4 | MaxTurns => 3
  | NonRetryable => 2 | Retryable => 1
  end.

(** [max_by_key]: the last of the greatest elements. *)
Definition max_by_key {A} (key : A → Z) (l : list A) : option A :=
  fold_left (λ best a,
    match best with
    | Some b => if decide (key b ≤ key a)%Z then Some a else Some b
    | None => Some a
    end) l None.

Definition failed_class (a : WorkflowNodeAttempt) : option TaskFailureClass :=
  if decide (na_status a = NFailed) then Some (default NonRetryable (na_failure_class a)) else None.

Definition aggregate_workflow_failures (nodes : gmap string WorkflowNodeAttempt) :
    option WorkflowFailureSummary :=
  let failures := omap failed_class nodes in
  primary ← max_by_key failure_priority (btree_iter failures).*2;
  Some {| fs_primary_failure_class := primary; fs_failures := failures |}.

Definition primary_for_parent (s : WorkflowFailureSummary) : TaskFailureClass :=
  if forallb (λ kv, bool_decide (kv.2 = Retryable)) (btree_iter (fs_failures s)) then Retryable
  else if decide (fs_primary_failure_class s = Retryable) then NonRetryable
  else fs_primary_failure_class s.

(** ** Digests of inputs *)

Fixpoint normalize_workflow_parameters (v : Value) : Value :=
  match v with
  | VArray l => VArray (List.map normalize_workflow_parameters l)
  | VObject l =>
      VObject (merge_sort key_le
        (List.map (λ kv, match kv with (k, w) => (k, normalize_workflow_parameters w) end) l))
  | _ => v
  end.

Definition workflow_input_digest (sha256 : string → list Byte.byte) (to_vec : Value → string)
    (parameters : Value) : string :=
  stable_digest_value sha256 to_vec (normalize_workflow_parameters parameters).

(** ** The JSON form of a definition *)

Definition opt_field `{Serde A} (k : string) (o : option A) : string * option Value :=
  (k, field_opt o).

Definition model_policy_value (m : ModelPolicy) : Value :=
  VObject (fields_of [opt_field "model" (mp_model m);
                      opt_field "reasoning_effort" (mp_reasoning_effort m)]).

Definition ceiling_value (c : PermissionCeiling) : Value :=
  VObject [("agent_lifecycle", VBool (pc_agent_lifecycle c));
           ("mesh_state_mutation", VBool (pc_mesh_state_mutation c));
           ("workspace_mutation", VBool (pc_workspace_mutation c));
           ("process", VBool (pc_process c)); ("network", VBool (pc_network c));
           ("external_side_effect", VBool (pc_external_side_effect c))].

Definition worker_role_value (p : WorkerRolePolicy) : Value :=
  VObject [("role", VString (wp_role p)); ("max_concurrent", uint_to_value (wp_max_concurrent p));
           ("max_total", uint_to_value (wp_max_total p))].

Definition runtime_config_value (c : CollaborationRuntimeConfig) : Value :=
  VObject (fields_of
    [("strategy", Some (to_value (WorkflowTypes.cc_strategy c)));
     ("worker_roles", Some (VArray (worker_role_value <$> cc_worker_roles c)));
     ("max_concurrent_workers", Some (uint_to_value (cc_max_concurrent_workers c)));
     ("max_tasks", Some (uint_to_value (cc_max_tasks c)));
     ("max_coordinator_rounds", Some (uint_to_value (cc_max_coordinator_rounds c)));
     ("max_pending_messages", Some (uint_to_value (WorkflowTypes.cc_max_pending_messages c)));
     ("max_message_bytes", Some (uint_to_value (WorkflowTypes.cc_max_message_bytes c)));
     opt_field "primary_role" (cc_primary_role c);
     opt_field "reviewer_role" (cc_reviewer_role c)]).

(** [tag = "mode", content = "strategy"]. *)
Definition selection_value (s : CollaborationSelection) : Value :=
  match s with
  | Auto => VObject [("mode", VString "auto")]
  | Fixed strategy => VObject [("mode", VString "fixed"); ("strategy", to_value strategy)]
  | Configured config =>
      VObject [("mode", VString "configured"); ("strategy", runtime_config_value config)]
  | Inherit => VObject [("mode", VString "inherit")]
  end.

Definition binding_value (b : OutputBinding) : Value :=
  VObject [("from", VString (ob_from b)); ("to", VString (ob_to b))].

Definition node_value (n : WorkflowNode) : Value :=
  VObject (fields_of
    [("id", Some (VString (wn_id n))); ("depends_on", Some (to_value (wn_depends_on n)));
     opt_field "when" (wn_when n); opt_field "role" (wn_role n);
     ("collaboration", Some (selection_value (wn_collaboration n)));
     ("model_policy", Some (model_policy_value (wn_model_policy n)));
     ("capability_scope", Some (to_value (wn_capability_scope n)));
     ("permission_ceiling", Some (ceiling_value (wn_permission_ceiling n)));
     ("retry", Some (VObject [("max_attempts", uint_to_value (wn_retry_max_attempts n))]));
     ("timeout_ms", uint_to_value <$> wn_timeout_ms n);
     ("output_bindings", Some (VArray (binding_value <$> wn_output_bindings n)));
     opt_field "workflow_ref" (wn_workflow_ref n)]).

Definition role_value (r : AgentRoleDefinition) : Value :=
  VObject (fields_of
    [("id", Some (VString (rd_id r))); ("description", Some (VString (rd_description r)));
     opt_field "input_schema" (rd_input_schema r); opt_field "output_schema" (rd_output_schema r);
     ("model_policy", Some (model_policy_value (rd_model_policy r)));
     ("capability_scope", Some (to_value (rd_capability_scope r)));
     ("permission_ceiling", Some (ceiling_value (rd_permission_ceiling r)));
     opt_field "context_policy" (rd_context_policy r);
     opt_field "recursion_policy" (rd_recursion_policy r);
     ("budget", Some (budget_to_value (rd_budget r)))]).

(** [serde_json::to_value(definition)]. *)
Definition definition_value (d : WorkflowDefinition) : Value :=
  VObject (fields_of
    [("id", Some (VString (wd_id d))); ("schema_version", Some (uint_to_value (wd_schema_version d)));
     ("version", Some (VString (wd_version d)));
     ("description", Some (VString (wd_description d)));
     ("roles", Some (VArray (role_value <$> wd_roles d)));
     opt_field "parameters_schema" (wd_parameters_schema d);
     ("nodes", Some (VArray (node_value <$> wd_nodes d)));
     ("outputs", Some (VObject ((λ o, (o.1, VString o.2)) <$> wd_outputs d)))]).

(** [==] on definitions. *)
#[export] Instance WorkerRolePolicy_eq_dec : EqDecision WorkerRolePolicy.
Proof. solve_decision. Defined.
#[export] Instance CollaborationRuntimeConfig_eq_dec : EqDecision CollaborationRuntimeConfig.
Proof. solve_decision. Defined.
#[export] Instance CollaborationSelection_eq_dec : EqDecision CollaborationSelection.
Proof. solve_decision. Defined.
#[export] Instance OutputBinding_eq_dec : EqDecision OutputBinding.
Proof. solve_decision. Defined.

Fixpoint list_eqb {A} (eqb : A → A → bool) (a b : list A) : bool :=
  match a, b with
  | [], [] => true
  | x :: a, y :: b => eqb x y && list_eqb eqb a b
  | _, _ => false
  end.

Definition node_eqb (a b : WorkflowNode) : bool :=
  bool_decide (wn_id a = wn_id b) &&
  bool_decide (wn_depends_on a = wn_depends_on b) &&
  option_eqb value_eqb (wn_when a) (wn_when b) &&
  bool_decide (wn_role a = wn_role b) &&
  bool_decide (wn_collaboration a = wn_collaboration b) &&
  bool_decide (wn_model_policy a = wn_model_policy b) &&
  bool_decide (wn_capability_scope a = wn_capability_scope b) &&
  bool_decide (wn_permission_ceiling a = wn_permission_ceiling b) &&
  bool_decide (wn_retry_max_attempts a = wn_retry_max_attempts b) &&
  bool_decide (wn_timeout_ms a = wn_timeout_ms b) &&
  bool_decide (wn_output_bindings a = wn_output_bindings b) &&
  bool_decide (wn_workflow_ref a = wn_workflow_ref b).

Definition definition_eqb (a b : WorkflowDefinition) : bool :=
  bool_decide (wd_id a = wd_id b) &&
  bool_decide (wd_schema_version a = wd_schema_version b) &&
  bool_decide (wd_version a = wd_version b) &&
  bool_decide (wd_description a = wd_description b) &&
  list_eqb role_eqb (wd_roles a) (wd_roles b) &&
  option_eqb value_eqb (wd_parameters_schema a) (wd_parameters_schema b) &&
  list_eqb node_eqb (wd_nodes a) (wd_nodes b) &&
  bool_decide (wd_outputs a = wd_outputs b).
