(* ===== verification/WorkflowInputs.v ===== *)
(** * Conditions, inputs and checkpoints of Workflow nodes

    crates/solaris-agent/src/workflow_controller/validation.rs (less the
    reference graph, which has its own file) and
    crates/solaris-agent/src/schema_validation.rs: when a node may run, what it
    is given, when a Run may be reused, and which checkpoints of a restored Run
    are still valid. *)
From S2P Require Import Prelude Json Types WorkflowTypes WorkflowValidation CollaborationTypes WorkflowRuns.

(** ** Conditions *)

(** The non-empty parts of a dotted path. *)
Definition path_parts (path : string) : list string :=
  List.filter (λ p, negb (is_empty_string p)) (split_dot path).

Definition json_path (v : Value) (path : string) : option Value :=
  fold_left (λ current segment, current ≫= get segment) (path_parts path) (Some v).

Definition dependency_done (nodes : gmap string WorkflowNodeAttempt) (dependency : string) : bool :=
  match nodes !! dependency with
  | Some a => bool_decide (na_status a = NCompleted ∨ na_status a = NSkipped)
  | None => false
  end.

Definition dependencies_complete (node : WorkflowNode) (nodes : gmap string WorkflowNodeAttempt) :
    bool := forallb (dependency_done nodes) (wn_depends_on node).

(** The [field] and [value] of a comparison. *)
Definition comparison (rule : Value) : option (string * Value) :=
  field ← get_str "field" rule; expected ← get "value" rule; Some (field, expected).

Section condition.
Context (nodes : gmap string WorkflowNodeAttempt) (parameters : Value).

Definition equals_at (source : option Value) (field : string) (expected : Value) : bool :=
  match source ≫= (λ v, json_path v field) with
  | Some v => value_eqb v expected
  | None => false
  end.

(** The three comparisons, tried in order. *)
Definition comparison_matches (condition : Value) : bool :=
  match get "parameter_equals" condition with
  | Some rule =>
      match comparison rule with
      | Some (field, expected) => equals_at (Some parameters) field expected
      | None => false
      end
  | None =>
  match get "parameter_not_equals" condition with
  | Some rule =>
      match comparison rule with
      | Some (field, expected) => negb (equals_at (Some parameters) field expected)
      | None => false
      end
  | None =>
  match get "node_output_equals" condition with
  | Some rule =>
      match get_str "node" rule, comparison rule with
      | Some node_id, Some (field, expected) =>
          equals_at (nodes !! node_id ≫= na_output) field expected
      | _, _ => false
      end
  | None => false
  end
  end
  end.

(** A condition that is present.  The children of every array member are
    evaluated first, so that the recursion is structural. *)
Fixpoint condition_holds (condition : Value) : bool :=
  let children :=
    match condition with
    | VObject l =>
        List.map (λ kv, match kv with
          | (k, VArray cs) => (k, Some (List.map condition_holds cs))
          | (k, _) => (k, None)
          end) l
    | _ => []
    end in
  match get "always" condition ≫= as_bool with
  | Some b => b
  | None =>
  match default None (assoc "all" children) with
  | Some results => forallb id results
  | None =>
  match default None (assoc "any" children) with
  | Some results => existsb id results
  | None => comparison_matches condition
  end
  end
  end.

Definition condition_matches (condition : option Value) : bool :=
  match condition with Some c => condition_holds c | None => true end.
End condition.

(** ** Inputs *)

(** The entries of an object; anything else is replaced by an empty object. *)
Definition entries_of (v : Value) : list (string * Value) := default [] (as_object v).

Fixpoint set_parts (parts : list string) (value root : Value) : Value :=
  match parts with
  | [] => root
  | [last] => VObject (obj_insert last value (entries_of root))
  | part :: parts =>
      let l := entries_of root in
      VObject (obj_insert part (set_parts parts value (default (VObject []) (assoc part l))) l)
  end.

Definition set_json_path (root : Value) (path : string) (value : Value) : result Value string :=
  match path_parts path with
  | [] => Err "output binding destination cannot be empty"
  | parts => Ok (set_parts parts value root)
  end.

Definition bound_value (node : WorkflowNode) (outputs : gmap string Value) (b : OutputBinding) :
    result Value string :=
  let parts := split_dot (ob_from b) in
  let? source := ok_or (binding_source b)
    ("workflow node " +:+ wn_id node +:+ " has empty output binding source") in
  let? value := ok_or (outputs !! source)
    ("workflow node " +:+ wn_id node +:+ " binding source " +:+ source +:+ " is unavailable") in
  fold_result (λ v part, ok_or (get part v)
    ("workflow node " +:+ wn_id node +:+ " binding path " +:+ ob_from b +:+ " is unavailable"))
    value (tail parts).

Definition build_bound_inputs (node : WorkflowNode) (outputs : gmap string Value) :
    result Value string :=
  fold_result (λ root b,
    let? value := bound_value node outputs b in set_json_path root (ob_to b) value)
    (VObject []) (wn_output_bindings node).

(** The outputs of the dependencies that have one. *)
Definition dependency_outputs (node : WorkflowNode) (nodes : gmap string WorkflowNodeAttempt) :
    gmap string Value :=
  list_to_map (omap (λ d, (λ o, (d, o)) <$> (nodes !! d ≫= na_output)) (wn_depends_on node)).

(** ** Schemas *)

Definition is_integer (v : Value) : bool :=
  match v with VNumber (PosInt _) | VNumber (NegInt _) => true | _ => false end.

Definition type_matches (expected : string) (v : Value) : bool :=
  if decide (expected = "object") then match v with VObject _ => true | _ => false end
  else if decide (expected = "array") then match v with VArray _ => true | _ => false end
  else if decide (expected = "string") then match v with VString _ => true | _ => false end
  else if decide (expected = "number") then match v with VNumber _ => true | _ => false end
  else if decide (expected = "integer") then is_integer v
  else if decide (expected = "boolean") then is_boolean v
  else if decide (expected = "null") then match v with VNull => true | _ => false end
  else true.

(** The checks of one level. *)
Definition validate_enum (schema value : Value) (path : string) : result unit string :=
  match get "enum" schema ≫= as_array with
  | Some values =>
      ensure (existsb (λ candidate, value_eqb candidate value) values)
        (path +:+ ": value is not in enum")
  | None => Ok tt
  end.

Definition validate_type (schema value : Value) (path : string) : result unit string :=
  match get_str "type" schema with
  | Some expected => ensure (type_matches expected value) (path +:+ ": expected " +:+ expected)
  | None => Ok tt
  end.

Definition validate_required (schema : Value) (object : list (string * Value)) (path : string) :
    result unit string :=
  match get "required" schema ≫= as_array with
  | Some required =>
      for_each (λ key, ensure (bool_decide (is_Some (assoc key object)))
                         (path +:+ ": missing required property " +:+ key)) (omap as_str required)
  | None => Ok tt
  end.

(** Items are checked with their position. *)
Fixpoint for_each_index {A} (f : nat → A → result unit string) (i : nat) (l : list A) :
    result unit string :=
  match l with
  | [] => Ok tt
  | a :: l => f i a ;;? for_each_index f (S i) l
  end.

(** The recursion follows the schema: the checkers of its members are built
    first. *)
Fixpoint validate_at (schema : Value) : Value → string → result unit string :=
  let members :=
    match schema with
    | VObject l =>
        List.map (λ kv, match kv with (k, w) =>
          (k, (match w with
               | VObject ps =>
                   Some (List.map (λ kv, match kv with (key, child) => (key, validate_at child) end) ps)
               | _ => None
               end, validate_at w)) end) l
    | _ => []
    end in
  λ value path,
    validate_enum schema value path ;;?
    validate_type schema value path ;;?
    match value with
    | VObject object =>
        validate_required schema object path ;;?
        match assoc "properties" members ≫= fst with
        | Some properties =>
            for_each (λ '(key, check),
              match assoc key object with
              | Some child => check child (path +:+ "." +:+ key)
              | None => Ok tt
              end) properties
        | None => Ok tt
        end
    | _ => Ok tt
    end ;;?
    match value with
    | VArray items =>
        match assoc "items" members with
        | Some (_, check) =>
            for_each_index (λ i item,
              check item (path +:+ "[" +:+ decimal (Z.of_nat i) +:+ "]")) 0 items
        | None => Ok tt
        end
    | _ => Ok tt
    end.

Definition validate_value (value schema : Value) : result unit string := validate_at schema value "$".

(** ** Reuse of a Run and restored checkpoints *)

Section digests.
Context (sha256 : string → list Byte.byte) (to_vec : Value → string).

(** The digest of what a node is given. *)
Definition node_input_digest (parameters : Value) (outputs : gmap string Value)
    (bound_inputs : Value) : string :=
  stable_digest_value sha256 to_vec
    (VObject [("parameters", parameters); ("dependency_outputs", to_value outputs);
              ("bound_inputs", bound_inputs)]).

Definition definition_digest (d : WorkflowDefinition) : string :=
  stable_digest_value sha256 to_vec (definition_value d).

Definition validate_workflow_run_reuse (existing : WorkflowRunSnapshot) (workflow_id : string)
    (definition_digest input_digest : string) (parent_run_id : option RunId)
    (identity : option WorkflowRuntimeIdentity) : result WorkflowRunSnapshot string :=
  let subject := "workflow run " +:+ wr_run_id existing in
  ensure (bool_decide (wr_workflow_id existing = workflow_id))
    (subject +:+ " already belongs to " +:+ wr_workflow_id existing) ;;?
  ensure (bool_decide (wr_parent_run_id existing = parent_run_id))
    (subject +:+ " already belongs to a different parent") ;;?
  ensure (bool_decide (wr_workflow_definition_digest existing = Some definition_digest))
    (subject +:+ " definition digest is missing or does not match the current definition") ;;?
  ensure (bool_decide (identity = None ∨ wr_runtime_identity existing = identity))
    (subject +:+ " belongs to a different provider or model") ;;?
  let persisted := workflow_input_digest sha256 to_vec (wr_parameters existing) in
  ensure (bool_decide (wr_input_digest existing = None ∨ wr_input_digest existing = Some persisted))
    (subject +:+ " has an invalid persisted input digest") ;;?
  ensure (bool_decide (persisted = input_digest))
    (subject +:+ " already exists with different input") ;;?
  Ok existing.

(** A checkpoint that is no longer valid is run again, and so is its Run. *)
Definition reset_attempt (a : WorkflowNodeAttempt) : WorkflowNodeAttempt :=
  {| na_node_id := na_node_id a; na_attempt_id := na_attempt_id a;
     na_attempt_number := na_attempt_number a; na_status := NPending;
     na_input_digest := na_input_digest a; na_output := None; na_output_ref := None;
     na_committed_at_unix_ms := None; na_error := na_error a;
     na_failure_class := na_failure_class a; na_resume_existing_attempt := false;
     na_deferred := na_deferred a |}.

Definition reset_restored_node (s : WorkflowRunSnapshot) (id : string) (a : WorkflowNodeAttempt) :
    WorkflowRunSnapshot :=
  with_status (set_node s id (reset_attempt a)) RRunning (wr_failure_summary s).

(** What the input digest of a completed node must be. *)
Definition expected_digest (node : WorkflowNode) (s : WorkflowRunSnapshot) :
    result (option string) string :=
  let outputs := dependency_outputs node (wr_nodes s) in
  if dependencies_complete node (wr_nodes s) then
    let? bound := build_bound_inputs node outputs in
    Ok (Some (node_input_digest (wr_parameters s) outputs bound))
  else Ok None.

(** One node of one round; the flag says whether something changed. *)
Definition check_restored_node (s : WorkflowRunSnapshot) (node : WorkflowNode) :
    result (WorkflowRunSnapshot * bool) string :=
  match wr_nodes s !! wn_id node with
  | None => Ok (s, false)
  | Some a =>
      match na_status a with
      | NSkipped =>
          if dependencies_complete node (wr_nodes s) then Ok (s, false)
          else Ok (reset_restored_node s (wn_id node) a, true)
      | NCompleted =>
          let? expected := expected_digest node s in
          if bool_decide (na_input_digest a = expected) && bool_decide (is_Some (na_output_ref a))
          then Ok (s, false)
          else Ok (reset_restored_node s (wn_id node) a, true)
      | _ => Ok (s, false)
      end
  end.

(** One round.  An error leaves the resets made before it. *)
Fixpoint check_restored_nodes (nodes : list WorkflowNode) (s : WorkflowRunSnapshot) (changed : bool) :
    WorkflowRunSnapshot * result bool string :=
  match nodes with
  | [] => (s, Ok changed)
  | node :: nodes =>
      match check_restored_node s node with
      | Ok (s', c) => check_restored_nodes nodes s' (changed || c)
      | Err e => (s, Err e)
      end
  end.

(** Every round that changes something resets a node; [None] means that the
    fuel was too little. *)
Fixpoint check_restored_rounds (fuel : nat) (nodes : list WorkflowNode) (s : WorkflowRunSnapshot) :
    option (WorkflowRunSnapshot * result unit string) :=
  match fuel with
  | O => None
  | S fuel =>
      match check_restored_nodes nodes s false with
      | (s', Err e) => Some (s', Err e)
      | (s', Ok false) => Some (s', Ok tt)
      | (s', Ok true) => check_restored_rounds fuel nodes s'
      end
  end.

Definition checkpoint_fuel (s : WorkflowRunSnapshot) : nat := S (size (wr_nodes s)).

Definition validate_restored_checkpoints (d : WorkflowDefinition) (s : WorkflowRunSnapshot) :
    option (WorkflowRunSnapshot * result unit string) :=
  if bool_decide (wr_workflow_version s = wd_version d) then
    if bool_decide (wr_workflow_definition_digest s = Some (definition_digest d)) then
      check_restored_rounds (checkpoint_fuel s) (wd_nodes d) s
    else Some (s, Err ("workflow " +:+ wd_id d +:+
           " definition digest changed or is missing; explicit reconciliation is required"))
  else Some (s, Err ("workflow " +:+ wd_id d +:+ " version changed from " +:+
           wr_workflow_version s +:+ " to " +:+ wd_version d +:+
           "; explicit migration is required")).
End digests.
