(* ===== verification/WorkflowController.v ===== *)
(** * The Workflow controller: definitions, mutations of a Run, start

    crates/solaris-agent/src/workflow_controller.rs and
    workflow_controller/projection.rs.  The controller keeps the registered
    definitions and a projection of every Run it knows; the ledger and the task
    registry are those of the collaboration runtime.  A change of a Run is made
    by [mutate_projection]: it takes the lease of the Run, refuses when the
    ledger has records the projection does not know, writes its records under
    the lease, and publishes the new projection at the sequence it reached.

    The code is written in a state monad over the controller.  Every read of
    the clock and every new identifier takes the next element of a sequence of
    the environment [Env], which also holds what lies outside of the crate:
    SHA-256, the text of JSON, the files of node outputs, the iteration order of
    hash maps, and the texts of the errors of other components.  The lock of the
    mutation line makes a mutation one step. *)
From S2P Require Import ResourceTypes Prelude Json Types TaskRegistry RuntimeLedger WorkflowTypes WorkflowValidation WorkflowReferences Identity Registries LedgerInterface MessageBus CollaborationTypes CollaborationRuntime CollaborationTasks CollaborationRestore WorkflowRuns WorkflowInputs.

(** ** The environment and the state *)

Record Env (O : Type) : Type := {
  ev_sha256 : string → list Byte.byte;
  ev_to_vec : Value → string;
  ev_to_string : Value → string;
  ev_from_str : string → result Value string;
  ev_clock : nat → Z;
  ev_uuid : nat → string;
  ev_patience : nat;
  ev_write_named : O → RunId → string → O * result string string;
  ev_read : O → RunId → string → result string string;
  ev_ledger_text : LedgerError → string;
  ev_task_text : TaskError → string;
  ev_runtime_text : RuntimeError → string;
  ev_validation_text : ValidationError → string;
  ev_role_text : RoleError → string;
  ev_decode_text : Value → string;
  ev_hash_order : ∀ A : Type, gmap string A → list (string * A);
}.
Arguments ev_sha256 {O} _ _.
Arguments ev_to_vec {O} _ _.
Arguments ev_to_string {O} _ _.
Arguments ev_from_str {O} _ _.
Arguments ev_clock {O} _ _.
Arguments ev_uuid {O} _ _.
Arguments ev_patience {O} _.
Arguments ev_write_named {O} _ _ _ _.
Arguments ev_read {O} _ _ _ _.
Arguments ev_ledger_text {O} _ _.
Arguments ev_task_text {O} _ _.
Arguments ev_runtime_text {O} _ _.
Arguments ev_validation_text {O} _ _.
Arguments ev_role_text {O} _ _.
Arguments ev_decode_text {O} _ _.
Arguments ev_hash_order {O} _ {A} _.

(** [ct_runtime] holds the ledger and the task registry; [ct_with_runtime] says
    whether the controller was given a collaboration runtime. *)
Record Controller (O : Type) : Type := {
  ct_definitions : gmap string WorkflowDefinition;
  ct_definition_owners : gmap string (gset string);
  ct_disabled_definitions : gset string;
  ct_runs : gmap RunId WorkflowProjection;
  ct_runtime : Runtime;
  ct_with_runtime : bool;
  ct_roles : option RoleRegistryState;
  ct_mutation_owner_id : string;
  ct_max_tasks_per_run : Z;
  ct_quota_root_run_id : option RunId;
  ct_files : O;
  ct_ticks : nat;
  ct_uuids : nat;
}.
Arguments ct_definitions {O} _.
Arguments ct_definition_owners {O} _.
Arguments ct_disabled_definitions {O} _.
Arguments ct_runs {O} _.
Arguments ct_runtime {O} _.
Arguments ct_with_runtime {O} _.
Arguments ct_roles {O} _.
Arguments ct_mutation_owner_id {O} _.
Arguments ct_max_tasks_per_run {O} _.
Arguments ct_quota_root_run_id {O} _.
Arguments ct_files {O} _.
Arguments ct_ticks {O} _.
Arguments ct_uuids {O} _.

(** An error is its message; [CtWaiting] is a call that still waits for the
    lease of another owner, [CtFuel] a loop that was given too little fuel. *)
Inductive CtError : Type :=
  | CtMessage (message : string)
  | CtWaiting
  | CtFuel.

Definition M (O A : Type) : Type := Controller O → Controller O * result A CtError.

Section monad.
Context {O : Type}.

Definition cret {A} (a : A) : M O A := λ c, (c, Ok a).
Definition cbind {A B} (m : M O A) (k : A → M O B) : M O B := λ c, sbind (m c) (λ c a, k a c).
Definition cfail {A} (e : CtError) : M O A := λ c, (c, Err e).
Definition gets {A} (f : Controller O → A) : M O A := λ c, (c, Ok (f c)).
Definition modify (f : Controller O → Controller O) : M O unit := λ c, (f c, Ok tt).

(** The result as a value, for code that goes on after an error. *)
Definition attempt {A} (m : M O A) : M O (result A CtError) :=
  λ c, match m c with (c, r) => (c, Ok r) end.

Definition of_result {A} (r : result A string) : M O A :=
  λ c, (c, match r with Ok a => Ok a | Err e => Err (CtMessage e) end).

Definition some_or {A} (o : option A) (message : string) : M O A := of_result (ok_or o message).
Definition require (b : bool) (message : string) : M O unit := of_result (ensure b message).
End monad.

Notation "'let!' x ':=' m 'in' k" := (cbind m (λ x, k))
  (at level 10, x name, m at level 100, k at level 200) : mesh_scope.
Notation "'let!' ' p ':=' m 'in' k" := (cbind m (λ x, match x with p => k end))
  (at level 10, p pattern, m at level 100, k at level 200) : mesh_scope.
Notation "m ';;!' k" := (cbind m (λ _, k))
  (at level 100, k at level 200, right associativity) : mesh_scope.

(** [for x in xs { f(x)? }]. *)
Fixpoint cfor {O A} (f : A → M O unit) (xs : list A) : M O unit :=
  match xs with
  | [] => cret tt
  | x :: xs => f x ;;! cfor f xs
  end.

Fixpoint cmap {O A B} (f : A → M O B) (xs : list A) : M O (list B) :=
  match xs with
  | [] => cret []
  | x :: xs => let! y := f x in let! ys := cmap f xs in cret (y :: ys)
  end.

Section state.
Context {O : Type}.

Definition set_runs (runs : gmap RunId WorkflowProjection) (c : Controller O) : Controller O :=
  {| ct_definitions := ct_definitions c; ct_definition_owners := ct_definition_owners c;
     ct_disabled_definitions := ct_disabled_definitions c; ct_runs := runs;
     ct_runtime := ct_runtime c; ct_with_runtime := ct_with_runtime c; ct_roles := ct_roles c;
     ct_mutation_owner_id := ct_mutation_owner_id c;
     ct_max_tasks_per_run := ct_max_tasks_per_run c;
     ct_quota_root_run_id := ct_quota_root_run_id c; ct_files := ct_files c;
     ct_ticks := ct_ticks c; ct_uuids := ct_uuids c |}.

Definition set_runtime (rt : Runtime) (c : Controller O) : Controller O :=
  {| ct_definitions := ct_definitions c; ct_definition_owners := ct_definition_owners c;
     ct_disabled_definitions := ct_disabled_definitions c; ct_runs := ct_runs c;
     ct_runtime := rt; ct_with_runtime := ct_with_runtime c; ct_roles := ct_roles c;
     ct_mutation_owner_id := ct_mutation_owner_id c;
     ct_max_tasks_per_run := ct_max_tasks_per_run c;
     ct_quota_root_run_id := ct_quota_root_run_id c; ct_files := ct_files c;
     ct_ticks := ct_ticks c; ct_uuids := ct_uuids c |}.

Definition set_files (files : O) (c : Controller O) : Controller O :=
  {| ct_definitions := ct_definitions c; ct_definition_owners := ct_definition_owners c;
     ct_disabled_definitions := ct_disabled_definitions c; ct_runs := ct_runs c;
     ct_runtime := ct_runtime c; ct_with_runtime := ct_with_runtime c; ct_roles := ct_roles c;
     ct_mutation_owner_id := ct_mutation_owner_id c;
     ct_max_tasks_per_run := ct_max_tasks_per_run c;
     ct_quota_root_run_id := ct_quota_root_run_id c; ct_files := files;
     ct_ticks := ct_ticks c; ct_uuids := ct_uuids c |}.

Definition set_counters (ticks uuids : nat) (c : Controller O) : Controller O :=
  {| ct_definitions := ct_definitions c; ct_definition_owners := ct_definition_owners c;
     ct_disabled_definitions := ct_disabled_definitions c; ct_runs := ct_runs c;
     ct_runtime := ct_runtime c; ct_with_runtime := ct_with_runtime c; ct_roles := ct_roles c;
     ct_mutation_owner_id := ct_mutation_owner_id c;
     ct_max_tasks_per_run := ct_max_tasks_per_run c;
     ct_quota_root_run_id := ct_quota_root_run_id c; ct_files := ct_files c;
     ct_ticks := ticks; ct_uuids := uuids |}.

Definition set_registry (definitions : gmap string WorkflowDefinition)
    (owners : gmap string (gset string)) (disabled : gset string)
    (roles : option RoleRegistryState) (c : Controller O) : Controller O :=
  {| ct_definitions := definitions; ct_definition_owners := owners;
     ct_disabled_definitions := disabled; ct_runs := ct_runs c;
     ct_runtime := ct_runtime c; ct_with_runtime := ct_with_runtime c; ct_roles := roles;
     ct_mutation_owner_id := ct_mutation_owner_id c;
     ct_max_tasks_per_run := ct_max_tasks_per_run c;
     ct_quota_root_run_id := ct_quota_root_run_id c; ct_files := ct_files c;
     ct_ticks := ct_ticks c; ct_uuids := ct_uuids c |}.

Definition ct_ledger (c : Controller O) : InMemoryLedgerState := rt_ledger (ct_runtime c).
Definition ct_tasks (c : Controller O) : TaskRegistryState := rt_tasks (ct_runtime c).
Definition set_ct_ledger (l : InMemoryLedgerState) (c : Controller O) : Controller O :=
  set_runtime (set_ledger (ct_runtime c) l) c.
Definition set_ct_tasks (t : TaskRegistryState) (c : Controller O) : Controller O :=
  set_runtime (set_tasks (ct_runtime c) t) c.

Definition definition (c : Controller O) (workflow_id : string) : option WorkflowDefinition :=
  ct_definitions c !! workflow_id.

(** [snapshot(run_id)]. *)
Definition run_snapshot (c : Controller O) (run_id : RunId) : option WorkflowRunSnapshot :=
  pj_snapshot <$> ct_runs c !! run_id.
End state.

(** ** Mutations of a Run (projection.rs) *)

Inductive LogicalAppendCapability : Type := CapUnsupported | CapProcessLocal | CapCrossProcess.

#[export] Instance LogicalAppendCapability_eq_dec : EqDecision LogicalAppendCapability.
Proof. solve_decision. Defined.

(** Of the in-memory ledger. *)
Definition logical_append_capability : LogicalAppendCapability := CapProcessLocal.

Definition DEFAULT_HEARTBEAT_SECONDS : Z := 15.
Definition WORKFLOW_MUTATION_HEARTBEAT_MILLIS : Z := DEFAULT_HEARTBEAT_SECONDS * 1000.

Record WorkflowMutationGuard : Type := {
  gd_run_id : RunId;
  gd_owner_id : string;
  gd_lease : option WorkflowMutationLease;
  gd_last_renewed_unix_ms : Z;
}.

Definition with_lease (g : WorkflowMutationGuard) (lease : WorkflowMutationLease) (now : Z) :
    WorkflowMutationGuard :=
  {| gd_run_id := gd_run_id g; gd_owner_id := gd_owner_id g; gd_lease := Some lease;
     gd_last_renewed_unix_ms := now |}.

Section projection.
Context {O : Type} (E : Env O).

(** [chrono::Utc::now().timestamp_millis()] and [Uuid::now_v7()]. *)
Definition now : M O Z :=
  λ c, (set_counters (S (ct_ticks c)) (ct_uuids c) c, Ok (ev_clock E (ct_ticks c))).
Definition new_uuid : M O string :=
  λ c, (set_counters (ct_ticks c) (S (ct_uuids c)) c, Ok (ev_uuid E (ct_uuids c))).

(** A call of the ledger, its error as a value. *)
Definition on_ledger {A} (f : InMemoryLedgerState → InMemoryLedgerState * result A LedgerError) :
    M O (result A LedgerError) :=
  λ c, match f (ct_ledger c) with (l, r) => (set_ct_ledger l c, Ok r) end.

(** [self.ledger.call().map_err(|error| format!("{prefix}{error}"))?]. *)
Definition ledger_call {A} (prefix : string)
    (f : InMemoryLedgerState → InMemoryLedgerState * result A LedgerError) : M O A :=
  let! r := on_ledger f in
  match r with
  | Ok a => cret a
  | Err e => cfail (CtMessage (prefix +:+ ev_ledger_text E e))
  end.

(** A contended lease is asked for again; after [fuel] tries the call is seen
    waiting. *)
Fixpoint acquire_loop (fuel : nat) (run_id : RunId) : M O WorkflowMutationLease :=
  match fuel with
  | 0 => cfail CtWaiting
  | S fuel =>
      let! at_ms := now in
      let! owner := gets ct_mutation_owner_id in
      let! r := on_ledger (λ l, acquire_lease l run_id owner at_ms) in
      match r with
      | Ok lease => cret lease
      | Err e =>
          match error_kind e with
          | KWouldBlock => acquire_loop fuel run_id
          | _ => cfail (CtMessage ("failed to acquire Workflow mutation lease: " +:+
                                   ev_ledger_text E e))
          end
      end
  end.

Definition acquire_workflow_mutation_guard (run_id : RunId) : M O WorkflowMutationGuard :=
  let! lease :=
    (if decide (logical_append_capability ≠ CapUnsupported)
     then let! lease := acquire_loop (S (ev_patience E)) run_id in cret (Some lease)
     else cret None) in
  let! at_ms := now in
  let! owner := gets ct_mutation_owner_id in
  cret {| gd_run_id := run_id; gd_owner_id := owner; gd_lease := lease;
          gd_last_renewed_unix_ms := at_ms |}.

(** The guard is one this controller made. *)
Definition own_guard (g : WorkflowMutationGuard) : M O unit :=
  let! owner := gets ct_mutation_owner_id in
  require (negb (is_empty_string (gd_run_id g)) && bool_decide (gd_owner_id g = owner))
    "Workflow mutation guard does not belong to this Controller".

Definition renew_workflow_mutation_guard (g : WorkflowMutationGuard) : M O WorkflowMutationGuard :=
  own_guard g ;;!
  let! at_ms := now in
  if decide (i64_saturating_sub at_ms (gd_last_renewed_unix_ms g) <
             WORKFLOW_MUTATION_HEARTBEAT_MILLIS)%Z then cret g
  else
    match gd_lease g with
    | Some lease =>
        let! lease := ledger_call "failed to renew Workflow mutation lease: "
                        (λ l, renew_lease l lease at_ms) in
        cret (with_lease g lease at_ms)
    | None => cret {| gd_run_id := gd_run_id g; gd_owner_id := gd_owner_id g; gd_lease := None;
                      gd_last_renewed_unix_ms := at_ms |}
    end.

Definition validate_workflow_mutation_guard (g : WorkflowMutationGuard) :
    M O WorkflowMutationGuard :=
  own_guard g ;;!
  let! at_ms := now in
  let! lease := some_or (gd_lease g) "runtime ledger cannot fence Workflow mutations" in
  let! lease := ledger_call "failed to validate Workflow mutation lease: "
                  (λ l, renew_lease l lease at_ms) in
  cret (with_lease g lease at_ms).

Definition release_workflow_mutation_guard (g : WorkflowMutationGuard) : M O unit :=
  own_guard g ;;!
  match gd_lease g with
  | Some lease => ledger_call "" (λ l, release_lease l lease)
  | None => cret tt
  end.

Definition append_record (g : WorkflowMutationGuard) (run_id : RunId) (record_type : string)
    (payload : Value) : M O LedgerRecord :=
  let! owner := gets ct_mutation_owner_id in
  require (bool_decide (gd_run_id g = run_id) && bool_decide (gd_owner_id g = owner))
    "Workflow mutation guard does not cover durable append" ;;!
  let! lease := some_or (gd_lease g) "runtime ledger cannot fence Workflow durable append" in
  let! at_ms := now in
  ledger_call "" (λ l, append_under_lease l lease at_ms SyncCritical record_type payload).

Definition require_current_projection (g : WorkflowMutationGuard)
    (projection : option WorkflowProjection) : M O unit :=
  let! lease := some_or (gd_lease g) "runtime ledger cannot fence Workflow projection mutation" in
  let sequence := match projection with Some p => pj_durable_sequence p | None => 0%Z end in
  require (bool_decide (sequence = wl_observed_sequence lease))
    ("Workflow Run " +:+ gd_run_id g +:+ " projection high-water " +:+ decimal sequence +:+
     " is stale; durable high-water is " +:+ decimal (wl_observed_sequence lease) +:+
     "; restore is required").

Definition commit_projection_high_water (g : WorkflowMutationGuard) (durable_sequence : Z) :
    M O unit :=
  let! lease := some_or (gd_lease g) "runtime ledger cannot commit Workflow projection high-water" in
  let! at_ms := now in
  let! commit := ledger_call "failed to commit Workflow projection high-water: "
                   (λ l, commit_workflow_restore l lease durable_sequence at_ms) in
  match commit with
  | CommitCurrent => cret tt
  | CommitStale current =>
      cfail (CtMessage ("Workflow Run " +:+ gd_run_id g +:+ " projection high-water " +:+
                        decimal durable_sequence +:+ " became stale; durable high-water is " +:+
                        decimal current))
  end.

(** [runs.insert(run, p)] or [runs.remove(run)]. *)
Definition set_projection (run_id : RunId) (p : option WorkflowProjection) : M O unit :=
  modify (λ c, set_runs (partial_alter (λ _, p) run_id (ct_runs c)) c).

(** An error and what releasing the lease gave. *)
Definition and_release (e : CtError) (release : result unit CtError) : CtError :=
  match e, release with
  | CtMessage m, Err (CtMessage r) =>
      CtMessage (m +:+ "; failed to release Workflow mutation lease: " +:+ r)
  | _, _ => e
  end.

Definition after_release {A} (r : result A CtError) (release : result unit CtError) : M O A :=
  match r, release with
  | Ok a, Ok _ => cret a
  | Ok _, Err e => cfail e
  | Err e, _ => cfail (and_release e release)
  end.

(** An action sees the guard and the snapshot, and returns the snapshot to
    publish with its value. *)
Definition action (R : Type) : Type :=
  WorkflowMutationGuard → option WorkflowRunSnapshot → M O (option WorkflowRunSnapshot * R).

Definition publish {R} (run_id : RunId) (g : WorkflowMutationGuard)
    (original : option WorkflowProjection) (act : action R) : M O R :=
  let! '(prepared, value) := act g (pj_snapshot <$> original) in
  let! g := validate_workflow_mutation_guard g in
  let! lease := some_or (gd_lease g) "runtime ledger cannot fence Workflow projection publication" in
  let sequence := wl_observed_sequence lease in
  let! current := gets (λ c, ct_runs c !! run_id) in
  require (option_eqb projection_eqb current original)
    ("Workflow Run " +:+ run_id +:+ " projection changed during mutation") ;;!
  set_projection run_id
    ((λ s, {| pj_snapshot := s; pj_durable_sequence := sequence |}) <$> prepared) ;;!
  let! committed := attempt (commit_projection_high_water g sequence) in
  match committed with
  | Ok _ => cret value
  | Err e => set_projection run_id original ;;! cfail e
  end.

(** The lease that is released is the one that was acquired: a renewal keeps
    its Run, owner and epoch, and [release_lease] reads nothing else. *)
Definition mutate_projection {R} (run_id : RunId) (act : action R) : M O R :=
  let! g := acquire_workflow_mutation_guard run_id in
  let! original := gets (λ c, ct_runs c !! run_id) in
  let! current := attempt (require_current_projection g original) in
  let! r := match current with
            | Err e => cret (Err e)
            | Ok _ => attempt (publish run_id g original act)
            end in
  let! release := attempt (release_workflow_mutation_guard g) in
  after_release r release.
End projection.
