(* ===== verification/WorkflowRegistration.v ===== *)
(** * The Workflow controller: registration of definitions and start of a Run

    crates/solaris-agent/src/workflow_controller.rs, from
    [preflight_register_batch] to [start_internal].  Definitions are held by
    owners: a definition is registered while somebody holds it, a batch is
    checked as a whole, and a definition that runs or that another one refers to
    cannot be dropped. *)
From S2P Require Import ResourceTypes Prelude Json Types TaskRegistry RuntimeLedger WorkflowTypes WorkflowValidation WorkflowReferences Identity Registries LedgerInterface MessageBus CollaborationTypes CollaborationRuntime CollaborationTasks WorkflowRuns WorkflowInputs WorkflowController.

Section registration.
Context {O : Type} (E : Env O).

Definition of_check (r : check) : M O unit :=
  of_result (match r with Ok u => Ok u | Err e => Err (ev_validation_text E e) end).

Definition ids_of (batch : list WorkflowDefinition) : gset string := list_to_set (wd_id <$> batch).

Definition references_of (d : WorkflowDefinition) : list string := omap wn_workflow_ref (wd_nodes d).

Definition role_known (roles : option RoleRegistryState) (role : string) : bool :=
  match roles with Some r => bool_decide (is_Some (role_get r role)) | None => false end.

(** The checks on one definition of a batch. *)
Definition preflight_definition (existing : gmap string WorkflowDefinition)
    (roles : option RoleRegistryState) (batch_ids : gset string) (d : WorkflowDefinition) :
    M O unit :=
  of_check (validate_definition (λ m, ev_hash_order E m) d) ;;!
  let embedded : gset string := list_to_set (rd_id <$> wd_roles d) in
  require (bool_decide (size embedded = length (wd_roles d)))
    ("workflow " +:+ wd_id d +:+ " contains duplicate role ids") ;;!
  cfor (λ role, of_check (validate_role role)) (wd_roles d) ;;!
  of_check (validate_definition_role_references
              (λ role, bool_decide (role ∈ embedded) || role_known roles role) d) ;;!
  cfor (λ node,
    match wn_workflow_ref node with
    | Some r =>
        require (bool_decide (r ∈ batch_ids) || bool_decide (is_Some (existing !! r)))
          ("workflow node " +:+ wn_id node +:+ " references unknown workflow " +:+ r)
    | None => cret tt
    end) (wd_nodes d) ;;!
  match existing !! wd_id d with
  | Some registered =>
      require (definition_eqb registered d)
        ("workflow " +:+ wd_id d +:+ " is already registered with a different definition")
  | None => cret tt
  end.

Definition add_references (graph : ReferenceGraph) (d : WorkflowDefinition) : ReferenceGraph :=
  <[wd_id d := references_of d]> graph.

Definition reference_graph (existing : gmap string WorkflowDefinition)
    (batch : list WorkflowDefinition) : ReferenceGraph :=
  fold_left add_references batch (fold_left add_references (ev_hash_order E existing).*2 ∅).

(** The last case does not occur: the fuel of the search is enough. *)
Definition reference_error (e : VisitError) : string :=
  match e with
  | ReferenceCycle id => "workflow reference graph contains a cycle at " +:+ id
  | VisitFuel => "workflow reference graph search does not end"
  end.

Definition check_references (graph : ReferenceGraph) : result unit string :=
  match validate_workflow_reference_graph graph (ev_hash_order E graph).*1 with
  | Ok u => Ok u
  | Err e => Err (reference_error e)
  end.

Definition preflight_register_batch (batch : list WorkflowDefinition) : M O unit :=
  require (bool_decide (size (ids_of batch) = length batch))
    "workflow registration batch contains duplicate ids" ;;!
  let! existing := gets ct_definitions in
  let! roles := gets ct_roles in
  cfor (preflight_definition existing roles (ids_of batch)) batch ;;!
  of_result (check_references (reference_graph existing batch)).

(** ** Roles of a batch *)

Definition role_owner (workflow_id owner : string) : string :=
  "workflow:" +:+ workflow_id +:+ ":" +:+ owner.

Definition roles_compatible (roles : RoleRegistryState) (batch : list WorkflowDefinition) :
    result unit string :=
  for_each (λ d, for_each (λ role,
    match role_get roles (rd_id role) with
    | Some existing =>
        ensure (role_eqb existing role)
          ("agent role " +:+ rd_id role +:+ " is already registered with a different definition")
    | None => Ok tt
    end) (wd_roles d)) batch.

(** The roles to register, with the owner each is registered for. *)
Definition roles_to_register (owners : gmap string (gset string)) (owner : string)
    (batch : list WorkflowDefinition) : list (string * AgentRoleDefinition) :=
  concat ((λ d, (λ role, (role_owner (wd_id d) owner, role)) <$> wd_roles d) <$>
    List.filter (λ d, negb (bool_decide (owner ∈ default ∅ (owners !! wd_id d)))) batch).

Definition unregister_all (roles : RoleRegistryState) (registered : list (string * string)) :
    RoleRegistryState :=
  fold_left (λ roles '(owner, id), (role_unregister_owned roles owner id).1) registered roles.

(** The roles registered so far are taken back when one is refused. *)
Fixpoint register_roles (roles : RoleRegistryState) (registered : list (string * string))
    (l : list (string * AgentRoleDefinition)) : RoleRegistryState * result unit string :=
  match l with
  | [] => (roles, Ok tt)
  | (owner, role) :: l =>
      match role_register_owned roles owner role with
      | (roles, Ok _) => register_roles roles (registered ++ [(owner, rd_id role)]) l
      | (roles, Err e) => (unregister_all roles registered, Err (ev_role_text E e))
      end
  end.

Definition register_batch_roles (owner : string) (batch : list WorkflowDefinition) : M O unit :=
  let! roles := gets ct_roles in
  match roles with
  | None => cret tt
  | Some roles =>
      of_result (roles_compatible roles batch) ;;!
      λ c,
        match register_roles roles []
                (roles_to_register (ct_definition_owners c) owner batch) with
        | (roles, r) =>
            (set_registry (ct_definitions c) (ct_definition_owners c)
               (ct_disabled_definitions c) (Some roles) c,
             match r with Ok u => Ok u | Err e => Err (CtMessage e) end)
        end
  end.

Definition insert_missing (m : gmap string WorkflowDefinition) (d : WorkflowDefinition) :
    gmap string WorkflowDefinition :=
  match m !! wd_id d with Some _ => m | None => <[wd_id d := d]> m end.

Definition add_owner (owner : string) (m : gmap string (gset string)) (d : WorkflowDefinition) :
    gmap string (gset string) := <[wd_id d := {[owner]} ∪ default ∅ (m !! wd_id d)]> m.

Definition register_owned_batch (owner : string) (batch : list WorkflowDefinition) : M O unit :=
  require (negb (trim_is_empty owner)) "workflow definition owner must not be empty" ;;!
  preflight_register_batch batch ;;!
  register_batch_roles owner batch ;;!
  modify (λ c, set_registry (fold_left insert_missing batch (ct_definitions c))
                 (fold_left (add_owner owner) batch (ct_definition_owners c))
                 (ct_disabled_definitions c ∖ ids_of batch) (ct_roles c) c).

Definition register_owned (owner : string) (d : WorkflowDefinition) : M O unit :=
  register_owned_batch owner [d].

Definition register (d : WorkflowDefinition) : M O unit := register_owned "core" d.

(** ** Removal, disabling *)

Definition running_run (p : WorkflowProjection) : bool :=
  bool_decide (wr_status (pj_snapshot p) = RRunning).

Definition has_running_runs (c : Controller O) : bool :=
  existsb (λ kv, running_run kv.2) (ev_hash_order E (ct_runs c)).

Definition runs_workflow (c : Controller O) (workflow_id : string) : bool :=
  existsb (λ kv, bool_decide (wr_workflow_id (pj_snapshot kv.2) = workflow_id) && running_run kv.2)
    (ev_hash_order E (ct_runs c)).

Definition referenced_by (c : Controller O) (workflow_id : string) : option string :=
  fst <$> List.find (λ kv, bool_decide (kv.1 ≠ workflow_id) &&
                           bool_decide (workflow_id ∈ references_of kv.2))
            (ev_hash_order E (ct_definitions c)).

Definition is_owner (c : Controller O) (owner workflow_id : string) : bool :=
  bool_decide (owner ∈ default ∅ (ct_definition_owners c !! workflow_id)).

(** The owner is taken out; a set of owners that becomes empty is dropped. *)
Definition remove_owner (owner workflow_id : string) (m : gmap string (gset string)) :
    gmap string (gset string) :=
  match m !! workflow_id with
  | Some owners =>
      if decide (owners ∖ {[owner]} = ∅) then delete workflow_id m
      else <[workflow_id := owners ∖ {[owner]}]> m
  | None => m
  end.

Definition unregister_owned (owner workflow_id : string) : M O bool :=
  let! running := gets (λ c, runs_workflow c workflow_id) in
  require (negb running) ("workflow " +:+ workflow_id +:+ " still has a running Run") ;;!
  let! owned := gets (λ c, is_owner c owner workflow_id) in
  if negb owned then cret false
  else
    let! last := gets (λ c, bool_decide
                   (size (default ∅ (ct_definition_owners c !! workflow_id)) = 1)) in
    let! referenced := gets (λ c, referenced_by c workflow_id) in
    match last, referenced with
    | true, Some r =>
        cfail (CtMessage ("workflow " +:+ workflow_id +:+ " is still referenced by workflow " +:+ r))
    | _, _ =>
        modify (λ c,
          let roles :=
            match ct_roles c, definition c workflow_id with
            | Some roles, Some d =>
                Some (unregister_all roles
                        ((λ role, (role_owner workflow_id owner, rd_id role)) <$> wd_roles d))
            | roles, _ => roles
            end in
          set_registry
            (if last then delete workflow_id (ct_definitions c) else ct_definitions c)
            (remove_owner owner workflow_id (ct_definition_owners c))
            (if last then ct_disabled_definitions c ∖ {[workflow_id]} else ct_disabled_definitions c)
            roles c) ;;!
        cret last
    end.

Definition known_definition (workflow_id : string) : M O WorkflowDefinition :=
  let! d := gets (λ c, definition c workflow_id) in
  some_or d ("unknown workflow: " +:+ workflow_id).

Definition disable (workflow_id : string) : M O bool :=
  let! _ := known_definition workflow_id in
  let! disabled := gets ct_disabled_definitions in
  modify (λ c, set_registry (ct_definitions c) (ct_definition_owners c)
                 ({[workflow_id]} ∪ ct_disabled_definitions c) (ct_roles c) c) ;;!
  cret (bool_decide (workflow_id ∉ disabled)).

Definition enable (workflow_id : string) : M O bool :=
  let! _ := known_definition workflow_id in
  let! disabled := gets ct_disabled_definitions in
  modify (λ c, set_registry (ct_definitions c) (ct_definition_owners c)
                 (ct_disabled_definitions c ∖ {[workflow_id]}) (ct_roles c) c) ;;!
  cret (bool_decide (workflow_id ∈ disabled)).

Definition is_enabled (c : Controller O) (workflow_id : string) : bool :=
  bool_decide (is_Some (definition c workflow_id)) &&
  bool_decide (workflow_id ∉ ct_disabled_definitions c).

(** [definitions] and [snapshots], sorted by identifier. *)
Definition definitions (c : Controller O) : list WorkflowDefinition :=
  (btree_iter (ct_definitions c)).*2.

Definition run_snapshots (c : Controller O) : list WorkflowRunSnapshot :=
  pj_snapshot <$> (btree_iter (ct_runs c)).*2.

Definition task_handle (c : Controller O) (run_id : RunId) (node_id : string) :
    option WorkflowTaskHandle :=
  s ← run_snapshot c run_id;
  a ← wr_nodes s !! node_id;
  Some {| th_task_id := workflow_task_id run_id node_id;
          th_operation_id := "workflow:" +:+ run_id +:+ ":" +:+ node_id +:+ ":" +:+ na_attempt_id a;
          th_node_id := node_id; th_state := na_status a; th_output_ref := na_output_ref a |}.
End registration.

(** ** Start *)

Section start.
Context {O : Type} (E : Env O).

Definition initial_attempt (node_id uuid : string) : WorkflowNodeAttempt :=
  {| na_node_id := node_id; na_attempt_id := "attempt-" +:+ uuid; na_attempt_number := 0;
     na_status := NPending; na_input_digest := None; na_output := None; na_output_ref := None;
     na_committed_at_unix_ms := None; na_error := None; na_failure_class := None;
     na_resume_existing_attempt := false; na_deferred := None |}.

Definition initial_nodes (nodes : list WorkflowNode) : M O (gmap string WorkflowNodeAttempt) :=
  let! attempts := cmap (λ node, let! u := new_uuid E in
                                 cret (wn_id node, initial_attempt (wn_id node) u)) nodes in
  cret (fold_left (λ m '(id, a), <[id := a]> m) attempts ∅).

(** The task of a node. *)
Definition node_task (run_id : RunId) (d : WorkflowDefinition) (node : WorkflowNode)
    (state : TaskState) : TaskRecord :=
  {| tr_run_id := run_id; tr_task_id := workflow_task_id run_id (wn_id node); tr_revision := 0;
     tr_task_key := Some ("workflow:" +:+ wd_id d +:+ ":" +:+ wn_id node); tr_team_id := None;
     tr_workflow_id := Some (wd_id d); tr_node_id := Some (wn_id node); tr_role := wn_role node;
     tr_depends_on := workflow_task_id run_id <$> wn_depends_on node; tr_content := None;
     tr_expected_write_scope := []; tr_owner_agent_id := None; tr_state := state;
     tr_outcome_ref := None; tr_failure_class := None |}.

Definition started_payload (d : WorkflowDefinition) (s : WorkflowRunSnapshot) : Value :=
  VObject [("workflow_id", VString (wd_id d)); ("workflow_version", VString (wd_version d));
           ("snapshot", to_value s)].

Definition require_running_parent (parent_run_id : option RunId) : M O unit :=
  match parent_run_id with
  | None => cret tt
  | Some parent =>
      let! snapshot := gets (λ c, run_snapshot c parent) in
      let! snapshot := some_or snapshot ("unknown parent workflow run: " +:+ parent) in
      require (bool_decide (wr_status snapshot = RRunning))
        ("parent workflow run " +:+ parent +:+ " is not running")
  end.

(** The closure of [start_internal]. *)
Definition start_action (d : WorkflowDefinition) (snapshot : WorkflowRunSnapshot)
    (workflow_id : string) (quota_root : RunId) (tasks : list TaskRecord) :
    action (O := O) (WorkflowStartOutcome * list LedgerRecord) := λ g prepared,
  require_running_parent (wr_parent_run_id snapshot) ;;!
  match prepared with
  | Some existing =>
      let! existing := of_result (validate_workflow_run_reuse (ev_sha256 E) (ev_to_vec E) existing
        workflow_id (default "" (wr_workflow_definition_digest snapshot))
        (default "" (wr_input_digest snapshot)) (wr_parent_run_id snapshot)
        (wr_runtime_identity snapshot)) in
      cret (prepared, ({| so_snapshot := existing; so_started := false |}, []))
  | None =>
      let! lease := some_or (gd_lease g) "runtime ledger cannot fence Workflow task admission" in
      let! at_ms := now E in
      let! max_tasks := gets ct_max_tasks_per_run in
      let! admitted := ledger_call E "" (λ l,
        admit_tasks_and_append_under_lease l lease at_ms quota_root max_tasks tasks
          [(SyncCritical, "workflow_started", started_payload d snapshot)]) in
      cret (Some snapshot, ({| so_snapshot := snapshot; so_started := true |}, admitted))
  end.

Definition upsert_task (t : TaskRecord) : M O unit :=
  modify (λ c, set_ct_tasks (upsert (ct_tasks c) t) c).

(** The admitted tasks are registered as the ledger holds them. *)
Definition register_admitted (r : LedgerRecord) : M O unit :=
  if decide (lr_record_type r = "task_created") then
    let! t := some_or (from_value (lr_payload r)) (ev_decode_text E (lr_payload r)) in
    upsert_task t
  else cret tt.

Definition register_missing (t : TaskRecord) : M O unit :=
  let! existing := gets (λ c, get_task (ct_tasks c) (tr_task_id t)) in
  match existing with Some _ => cret tt | None => upsert_task t end.

Definition start_internal (run_id : RunId) (workflow_id : string) (parameters : Value)
    (parent_run_id : option RunId) (identity : option WorkflowRuntimeIdentity) :
    M O WorkflowStartOutcome :=
  let input_digest := workflow_input_digest (ev_sha256 E) (ev_to_vec E) parameters in
  let! d := known_definition workflow_id in
  let! disabled := gets (λ c, bool_decide (workflow_id ∈ ct_disabled_definitions c)) in
  require (negb disabled) ("workflow " +:+ workflow_id +:+ " is disabled") ;;!
  match wd_parameters_schema d with
  | Some schema =>
      of_result (match validate_value parameters schema with
                 | Ok u => Ok u
                 | Err e => Err ("workflow " +:+ workflow_id +:+ " parameters invalid: " +:+ e)
                 end)
  | None => cret tt
  end ;;!
  let digest := definition_digest (ev_sha256 E) (ev_to_vec E) d in
  let! identity :=
    (match identity with
     | Some i => cret (Some i)
     | None => gets (λ c, parent ← parent_run_id; s ← run_snapshot c parent; wr_runtime_identity s)
     end) in
  let! nodes := initial_nodes (wd_nodes d) in
  let snapshot :=
    {| wr_run_id := run_id; wr_workflow_id := wd_id d; wr_workflow_version := wd_version d;
       wr_workflow_definition_digest := Some digest; wr_input_digest := Some input_digest;
       wr_runtime_identity := identity; wr_parent_run_id := parent_run_id; wr_status := RRunning;
       wr_reconciliation_reason := None; wr_failure_summary := None; wr_nodes := nodes;
       wr_parameters := parameters |} in
  let tasks := (λ node, node_task run_id d node Queued) <$> wd_nodes d in
  let! root := gets (λ c, default (line_for run_id) (ct_quota_root_run_id c)) in
  let! '(outcome, admitted) :=
    mutate_projection E run_id (start_action d snapshot workflow_id root tasks) in
  (if so_started outcome
   then cfor register_admitted admitted ;;! cfor register_missing tasks
   else cret tt) ;;!
  cret outcome.

Definition start (run_id : RunId) (workflow_id : string) (parameters : Value) :
    M O WorkflowRunSnapshot :=
  let! o := start_internal run_id workflow_id parameters None None in cret (so_snapshot o).

Definition start_with_runtime (run_id : RunId) (workflow_id : string) (parameters : Value)
    (identity : WorkflowRuntimeIdentity) : M O WorkflowStartOutcome :=
  start_internal run_id workflow_id parameters None (Some identity).

Definition start_child (run_id : RunId) (workflow_id : string) (parameters : Value)
    (parent_run_id : RunId) : M O WorkflowRunSnapshot :=
  let! o := start_internal run_id workflow_id parameters (Some parent_run_id) None in
  cret (so_snapshot o).
End start.
