(* ===== verification/WorkflowCompletion.v ===== *)
(** * Supervisor decisions behind the completion of a node

    crates/solaris-agent/src/workflow_supervisor_turn_chain.rs and
    workflow_controller/completion_source.rs.  A node run by a configured
    Supervisor completes only with the output of the one durable [finalize]
    decision of its attempt, which in turn must name the durable conversation
    turn of the coordinator it comes from.  Everything here only reads the
    ledger and the files of outputs. *)
From S2P Require Import ResourceTypes Prelude Json Types TaskRegistry RuntimeLedger WorkflowTypes Identity Registries CollaborationTypes CollaborationRuntime CollaborationTasks WorkflowRuns WorkflowController.

(** ** Turns of a conversation *)

Inductive AgentTurnOutputProjection : Type := JsonTextPointer (pointer : string).

Definition output_projection_from (v : Value) : option AgentTurnOutputProjection :=
  l ← as_object v;
  format ← read from_value "format" l;
  if decide (format = "json_text_pointer") then
    pointer ← read from_value "pointer" l; Some (JsonTextPointer pointer)
  else None.

Record AgentTurnOutcome : Type := {
  ao_schema_version : Z;
  ao_run_id : RunId;
  ao_parent_agent_id : AgentId;
  ao_conversation_id : string;
  ao_task_id : TaskId;
  ao_open_operation_id : OperationId;
  ao_spec_digest : string;
  ao_turn_id : string;
  ao_agent_id : AgentId;
  ao_session_id : string;
  ao_operation_id : OperationId;
  ao_message_id : string;
  ao_status : AgentOutcomeStatus;
  ao_output : Value;
  ao_outcome_ref : option OutcomeBlobRef;
  ao_output_projection : option AgentTurnOutputProjection;
  ao_usage : TokenUsage;
  ao_turns : Z;
  ao_failure_class : option TaskFailureClass;
  ao_error : option string;
}.

Definition u8_max : Z := 255.

Definition turn_outcome_from (v : Value) : option AgentTurnOutcome :=
  l ← as_object v;
  schema_version ← read (uint_from_value u8_max) "schema_version" l;
  run_id ← read from_value "run_id" l;
  parent ← read from_value "parent_agent_id" l;
  conversation ← read from_value "conversation_id" l;
  task_id ← read from_value "task_id" l;
  open_operation ← read from_value "open_operation_id" l;
  spec_digest ← read from_value "spec_digest" l;
  turn_id ← read from_value "turn_id" l;
  agent_id ← read from_value "agent_id" l;
  session_id ← read from_value "session_id" l;
  operation_id ← read from_value "operation_id" l;
  message_id ← read from_value "message_id" l;
  status ← read from_value "status" l;
  output ← read from_value "output" l;
  outcome_ref ← read_opt from_value "outcome_ref" l;
  projection ← read_opt output_projection_from "output_projection" l;
  usage ← read from_value "usage" l;
  turns ← read (uint_from_value u64_max) "turns" l;
  failure_class ← read_opt from_value "failure_class" l;
  error ← read_opt from_value "error" l;
  Some {| ao_schema_version := schema_version; ao_run_id := run_id; ao_parent_agent_id := parent;
          ao_conversation_id := conversation; ao_task_id := task_id;
          ao_open_operation_id := open_operation; ao_spec_digest := spec_digest;
          ao_turn_id := turn_id; ao_agent_id := agent_id; ao_session_id := session_id;
          ao_operation_id := operation_id; ao_message_id := message_id; ao_status := status;
          ao_output := output; ao_outcome_ref := outcome_ref; ao_output_projection := projection;
          ao_usage := usage; ao_turns := turns; ao_failure_class := failure_class;
          ao_error := error |}.

Record SupervisorCoordinatorTurnBinding : Type := {
  sb_ledger_run_id : RunId;
  sb_conversation_id : string;
  sb_turn_id : string;
  sb_operation_id : OperationId;
  sb_message_id : string;
  sb_outcome_record_seq : Z;
  sb_outcome_payload_digest : string;
  sb_status : AgentOutcomeStatus;
  sb_turns : Z;
  sb_usage : TokenUsage;
  sb_outcome_ref : option OutcomeBlobRef;
}.

Definition binding_to_value (b : SupervisorCoordinatorTurnBinding) : Value :=
  VObject [("ledger_run_id", VString (sb_ledger_run_id b));
           ("conversation_id", VString (sb_conversation_id b));
           ("turn_id", VString (sb_turn_id b)); ("operation_id", VString (sb_operation_id b));
           ("message_id", VString (sb_message_id b));
           ("outcome_record_seq", uint_to_value (sb_outcome_record_seq b));
           ("outcome_payload_digest", VString (sb_outcome_payload_digest b));
           ("status", to_value (sb_status b)); ("turns", uint_to_value (sb_turns b));
           ("usage", to_value (sb_usage b)); ("outcome_ref", opt_value (sb_outcome_ref b))].

Definition turn_binding_from (v : Value) : option SupervisorCoordinatorTurnBinding :=
  l ← as_object v;
  run_id ← read from_value "ledger_run_id" l;
  conversation ← read from_value "conversation_id" l;
  turn_id ← read from_value "turn_id" l;
  operation_id ← read from_value "operation_id" l;
  message_id ← read from_value "message_id" l;
  seq ← read (uint_from_value u64_max) "outcome_record_seq" l;
  digest ← read from_value "outcome_payload_digest" l;
  status ← read from_value "status" l;
  turns ← read (uint_from_value u64_max) "turns" l;
  usage ← read from_value "usage" l;
  outcome_ref ← read_opt from_value "outcome_ref" l;
  Some {| sb_ledger_run_id := run_id; sb_conversation_id := conversation; sb_turn_id := turn_id;
          sb_operation_id := operation_id; sb_message_id := message_id;
          sb_outcome_record_seq := seq; sb_outcome_payload_digest := digest; sb_status := status;
          sb_turns := turns; sb_usage := usage; sb_outcome_ref := outcome_ref |}.

Definition supervisor_conversation_identity (workflow_run_id : RunId) (node_id : string)
    (attempt_id : AttemptId) : string :=
  "workflow-supervisor:" +:+ workflow_run_id +:+ ":" +:+ node_id +:+ ":" +:+ attempt_id.

Definition supervisor_turn_identity (conversation_id : string) (round : Z) : string :=
  conversation_id +:+ ":round:" +:+ decimal round.

Definition str_member (k s : string) (v : Value) : bool := bool_decide (get_str k v = Some s).

(** [payload.get(k) == Some(&json!(s))] for a string [s]. *)
Definition is_string_member (k s : string) (v : Value) : bool :=
  option_eqb value_eqb (get k v) (Some (VString s)).

Definition turn_records (ty conversation_id turn_id : string) (records : list LedgerRecord) :
    list LedgerRecord :=
  List.filter (λ r, bool_decide (lr_record_type r = ty) &&
                    str_member "conversation_id" conversation_id (lr_payload r) &&
                    str_member "turn_id" turn_id (lr_payload r)) records.

Definition open_records (conversation_id : string) (records : list LedgerRecord) :
    list LedgerRecord :=
  List.filter (λ r, bool_decide (lr_record_type r = "agent_conversation_opened") &&
                    str_member "conversation_id" conversation_id (lr_payload r)) records.

(** The members an opened conversation and a turn intent share with the outcome. *)
Definition names_agent (o : AgentTurnOutcome) (operation_key : string) (v : Value) : bool :=
  is_string_member "run_id" (ao_run_id o) v && is_string_member "agent_id" (ao_agent_id o) v &&
  is_string_member "session_id" (ao_session_id o) v && is_string_member "task_id" (ao_task_id o) v &&
  is_string_member operation_key (ao_open_operation_id o) v &&
  is_string_member "spec_digest" (ao_spec_digest o) v.

(** [pointer("/a/b")] of string keys. *)
Definition pointer2 (a b : string) (v : Value) : option Value := get a v ≫= get b.

Definition turn_chain_valid (ledger_run_id : RunId) (conversation_id turn_id : string)
    (decision_seq : Z) (opened intent outcome : LedgerRecord) (o : AgentTurnOutcome) : bool :=
  bool_decide (lr_seq opened < lr_seq intent)%Z && bool_decide (lr_seq intent < lr_seq outcome)%Z &&
  bool_decide (lr_seq outcome < decision_seq)%Z &&
  bool_decide (lr_run_id opened = ledger_run_id) && bool_decide (lr_run_id intent = ledger_run_id) &&
  bool_decide (lr_run_id outcome = ledger_run_id) && bool_decide (ao_run_id o = ledger_run_id) &&
  bool_decide (ao_conversation_id o = conversation_id) && bool_decide (ao_turn_id o = turn_id) &&
  bool_decide (ao_status o = OutCompleted) &&
  names_agent o "operation_id" (lr_payload opened) &&
  names_agent o "open_operation_id" (lr_payload intent) &&
  option_eqb value_eqb (pointer2 "identity" "operation_id" (lr_payload intent))
    (Some (VString (ao_operation_id o))) &&
  option_eqb value_eqb (pointer2 "identity" "message_id" (lr_payload intent))
    (Some (VString (ao_message_id o))).

(** The decision a completion comes from. *)
Record SupervisorCompletionSource : Type := {
  cs_decision_ledger_run_id : RunId;
  cs_workflow_run_id : RunId;
  cs_node_id : string;
  cs_attempt_id : AttemptId;
  cs_round : Z;
  cs_decision_record_seq : Z;
  cs_decision_digest : string;
  cs_final_output_ref : OutcomeBlobRef;
}.

#[export] Instance OutcomeBlobRef_eq_dec : EqDecision OutcomeBlobRef.
Proof. solve_decision. Defined.
#[export] Instance SupervisorCompletionSource_eq_dec : EqDecision SupervisorCompletionSource.
Proof. solve_decision. Defined.

Definition source_fields (s : SupervisorCompletionSource) : list (string * option Value) :=
  [("decision_ledger_run_id", Some (to_value (cs_decision_ledger_run_id s)));
   ("workflow_run_id", Some (to_value (cs_workflow_run_id s)));
   ("node_id", Some (to_value (cs_node_id s))); ("attempt_id", Some (to_value (cs_attempt_id s)));
   ("round", Some (uint_to_value (cs_round s)));
   ("decision_record_seq", Some (uint_to_value (cs_decision_record_seq s)));
   ("decision_digest", Some (to_value (cs_decision_digest s)));
   ("final_output_ref", Some (to_value (cs_final_output_ref s)))].

Definition source_from (v : Value) : option SupervisorCompletionSource :=
  l ← as_object v;
  ledger_run ← read from_value "decision_ledger_run_id" l;
  workflow_run ← read from_value "workflow_run_id" l;
  node_id ← read from_value "node_id" l;
  attempt_id ← read from_value "attempt_id" l;
  round ← read (uint_from_value u32_max) "round" l;
  seq ← read (uint_from_value u64_max) "decision_record_seq" l;
  digest ← read from_value "decision_digest" l;
  ref ← read from_value "final_output_ref" l;
  Some {| cs_decision_ledger_run_id := ledger_run; cs_workflow_run_id := workflow_run;
          cs_node_id := node_id; cs_attempt_id := attempt_id; cs_round := round;
          cs_decision_record_seq := seq; cs_decision_digest := digest;
          cs_final_output_ref := ref |}.

#[export] Program Instance serde_source : Serde SupervisorCompletionSource := {|
  to_value s := VObject (fields_of (source_fields s));
  from_value := source_from;
  serde_ok s := (0 ≤ cs_round s ≤ u32_max)%Z ∧ is_u64 (cs_decision_record_seq s) ∧
                is_u64 (ob_bytes (cs_final_output_ref s));
|}.
Next Obligation.
  intros s (Hr & Hs & Hb). assert (NoDup (source_fields s).*1) as Hnd by serde_keys.
  eapply bind_Some_intro; [reflexivity|].
  repeat serde_step; [by apply uint_roundtrip..|]. by destruct s.
Qed.
Next Obligation. intros s (Hr & Hs & Hb). serde_wf. Qed.

Section completion.
Context {O : Type} (E : Env O).

Definition digest (v : Value) : string := stable_digest_value (ev_sha256 E) (ev_to_vec E) v.

Definition validate_supervisor_coordinator_turn_chain (records : list LedgerRecord)
    (ledger_run_id : RunId) (conversation_id turn_id : string) (decision_seq : Z) :
    result (SupervisorCoordinatorTurnBinding * AgentTurnOutcome) string :=
  match turn_records "agent_conversation_turn_outcome" conversation_id turn_id records,
        turn_records "agent_conversation_turn_intent" conversation_id turn_id records,
        open_records conversation_id records with
  | [outcome], [intent], [opened] =>
      let? o := ok_or (turn_outcome_from (lr_payload outcome))
        ("malformed Supervisor coordinator turn outcome: " +:+
         ev_decode_text E (lr_payload outcome)) in
      ensure (turn_chain_valid ledger_run_id conversation_id turn_id decision_seq opened intent
                outcome o)
        "Supervisor coordinator turn outcome does not match its durable intent and conversation" ;;?
      Ok ({| sb_ledger_run_id := lr_run_id outcome; sb_conversation_id := ao_conversation_id o;
             sb_turn_id := ao_turn_id o; sb_operation_id := ao_operation_id o;
             sb_message_id := ao_message_id o; sb_outcome_record_seq := lr_seq outcome;
             sb_outcome_payload_digest := digest (lr_payload outcome); sb_status := ao_status o;
             sb_turns := ao_turns o; sb_usage := ao_usage o; sb_outcome_ref := ao_outcome_ref o |},
          o)
  | _, _, _ => Err "Supervisor decision has no unique durable coordinator turn chain"
  end.

(** ** Decisions *)

Definition WORKFLOW_COMPLETION_SCHEMA_VERSION : Z := 2.
Definition LEGACY_WORKFLOW_COMPLETION_SCHEMA_VERSION : Z := 1.
Definition SUPERVISOR_DECISION_SCHEMA_VERSION : Z := 2.

Definition is_configured_supervisor (node : WorkflowNode) : bool :=
  match wn_collaboration node with
  | Configured config => bool_decide (WorkflowTypes.cc_strategy config = Supervisor)
  | _ => false
  end.

(** [payload[k]]: a missing member is [null]. *)
Definition member (k : string) (v : Value) : Value := default VNull (get k v).

(** [decision[k] = v] on an object. *)
Definition set_member (k : string) (v w : Value) : Value :=
  match w with VObject l => VObject (obj_insert k v l) | _ => w end.

Definition get_u8 (k : string) (v : Value) : option Z :=
  n ← get_u64 k v; if decide (n ≤ u8_max)%Z then Some n else None.

(** What the digest of a decision is taken over: the inline output is put back
    in the place of its reference. *)
Definition decision_digest_payload (payload decision : Value) (schema_version : Z) : Value :=
  VObject
    ([("schema_version", member "schema_version" payload);
      ("workflow_run_id", member "workflow_run_id" payload);
      ("workflow_id", member "workflow_id" payload); ("node_id", member "node_id" payload);
      ("attempt_id", member "attempt_id" payload); ("round", member "round" payload);
      ("input_message_ids", member "input_message_ids" payload);
      ("input_deliveries", member "input_deliveries" payload); ("turns", member "turns" payload);
      ("usage", member "usage" payload); ("final_output_ref", member "final_output_ref" payload);
      ("decision", decision)] ++
     (if decide (schema_version = SUPERVISOR_DECISION_SCHEMA_VERSION)
      then [("coordinator_turn", member "coordinator_turn" payload)] else [])).

Record ValidatedFinalizeDecision : Type := {
  vd_schema_version : Z;
  vd_source : SupervisorCompletionSource;
}.

(** The checks on the reference of the output, and the output. *)
Definition finalize_output (o : O) (workflow_run_id : RunId) (payload : Value) :
    result (OutcomeBlobRef * Value) string :=
  let? ref := ok_or (from_value (A := OutcomeBlobRef) (member "final_output_ref" payload))
    ("invalid Supervisor Finalize output reference: " +:+
     ev_decode_text E (member "final_output_ref" payload)) in
  ensure (bool_decide (ob_run_id ref = Some workflow_run_id) &&
          bool_decide (ob_status ref = Some OutCompleted))
    "Supervisor Finalize output reference has an invalid Run or status" ;;?
  let? serialized :=
    match ev_read E o workflow_run_id (ob_reference ref) with
    | Ok s => Ok s
    | Err e => Err ("failed to read Supervisor Finalize output: " +:+ e)
    end in
  ensure (bool_decide (byte_len serialized = ob_bytes ref) &&
          bool_decide (stable_digest_bytes (ev_sha256 E) serialized = ob_digest ref))
    "Supervisor Finalize output reference failed integrity validation" ;;?
  let? output :=
    match ev_from_str E serialized with
    | Ok v => Ok v
    | Err e => Err ("invalid Supervisor Finalize output JSON: " +:+ e)
    end in
  Ok (ref, output).

(** The binding a decision names is the one its durable chain gives. *)
Definition check_turn_binding (l : InMemoryLedgerState) (ledger_run_id workflow_run_id : RunId)
    (node_id : string) (attempt_id : AttemptId) (round : Z) (r : LedgerRecord) :
    result unit string :=
  let? value := ok_or (get "coordinator_turn" (lr_payload r))
    "Supervisor Finalize decision has no coordinator turn binding" in
  let? binding := ok_or (turn_binding_from value)
    ("invalid Supervisor Finalize coordinator turn binding: " +:+ ev_decode_text E value) in
  let conversation_id := supervisor_conversation_identity workflow_run_id node_id attempt_id in
  let? validated := validate_supervisor_coordinator_turn_chain (run_records l ledger_run_id)
    ledger_run_id conversation_id (supervisor_turn_identity conversation_id round) (lr_seq r) in
  ensure (value_eqb (binding_to_value binding) (binding_to_value validated.1))
    "Supervisor Finalize coordinator turn binding does not match its durable chain".

Definition is_null (o : option Value) : bool :=
  match o with Some VNull => true | _ => false end.
Definition is_present (o : option Value) : bool :=
  match o with Some _ => true | None => false end.
Definition is_object (o : option Value) : bool :=
  match o with Some (VObject _) => true | _ => false end.

Definition validate_finalize_decision (l : InMemoryLedgerState) (o : O)
    (ledger_run_id workflow_run_id : RunId) (r : LedgerRecord) :
    result ValidatedFinalizeDecision string :=
  let payload := lr_payload r in
  ensure (bool_decide (lr_run_id r = ledger_run_id))
    "Supervisor Finalize decision has a forged ledger Run identity" ;;?
  let? schema_version := ok_or (get_u8 "schema_version" payload)
    "Supervisor Finalize decision is missing its schema version" in
  ensure (bool_decide (schema_version = LEGACY_WORKFLOW_COMPLETION_SCHEMA_VERSION ∨
                       schema_version = SUPERVISOR_DECISION_SCHEMA_VERSION))
    ("unsupported Supervisor decision schema version " +:+ decimal schema_version) ;;?
  let v2 := bool_decide (schema_version = SUPERVISOR_DECISION_SCHEMA_VERSION) in
  ensure (Bool.eqb v2 (is_object (get "coordinator_turn" payload)))
    "Supervisor Finalize decision schema does not match its coordinator binding" ;;?
  let? '(ref, output) := finalize_output o workflow_run_id payload in
  let decision := member "decision" payload in
  ensure (is_null (get "output" decision))
    "Supervisor Finalize output is not uniquely stored by reference" ;;?
  let? stored_digest := ok_or (get_str "decision_digest" payload)
    "Supervisor Finalize decision has no digest" in
  ensure (bool_decide (digest (decision_digest_payload payload (set_member "output" output decision)
                                 schema_version) = stored_digest))
    "Supervisor Finalize decision digest failed validation" ;;?
  let? round := ok_or (n ← get_u64 "round" payload; if decide (n ≤ u32_max)%Z then Some n else None)
    "Supervisor Finalize decision has an invalid round" in
  let? node_id := ok_or (as_str (member "node_id" payload))
    "Supervisor Finalize decision has no node identity" in
  let? attempt_id := ok_or (as_str (member "attempt_id" payload))
    "Supervisor Finalize decision has no attempt identity" in
  (if v2 then check_turn_binding l ledger_run_id workflow_run_id node_id attempt_id round r
   else Ok tt) ;;?
  Ok {| vd_schema_version := schema_version;
        vd_source := {| cs_decision_ledger_run_id := ledger_run_id;
                        cs_workflow_run_id := workflow_run_id; cs_node_id := node_id;
                        cs_attempt_id := attempt_id; cs_round := round;
                        cs_decision_record_seq := lr_seq r; cs_decision_digest := stored_digest;
                        cs_final_output_ref := ref |} |}.

Definition is_finalize (workflow_run_id : RunId) (node_id : string) (attempt_id : AttemptId)
    (r : LedgerRecord) : bool :=
  bool_decide (lr_record_type r = "workflow_supervisor_decision") &&
  str_member "workflow_run_id" workflow_run_id (lr_payload r) &&
  str_member "node_id" node_id (lr_payload r) && str_member "attempt_id" attempt_id (lr_payload r) &&
  bool_decide (pointer2 "decision" "decision" (lr_payload r) ≫= as_str = Some "finalize").

Definition validated_finalize_decisions (l : InMemoryLedgerState) (o : O) (workflow_run_id : RunId)
    (node_id : string) (attempt_id : AttemptId) : result (list ValidatedFinalizeDecision) string :=
  rmap (@concat _) (map_result (λ ledger_run_id,
    map_result (validate_finalize_decision l o ledger_run_id workflow_run_id)
      (List.filter (is_finalize workflow_run_id node_id attempt_id) (run_records l ledger_run_id)))
    (merge_sort String.le (map_to_list (ls_records l)).*1)).

(** ** The source of a completion *)

Definition build_supervisor_completion_source (l : InMemoryLedgerState) (o : O)
    (node : WorkflowNode) (workflow_run_id : RunId) (attempt_id : AttemptId) (output_ref : string)
    (output_bytes : Z) (output_digest : string) :
    result (option SupervisorCompletionSource) string :=
  if negb (is_configured_supervisor node) then Ok None
  else
    let? decisions := validated_finalize_decisions l o workflow_run_id (wn_id node) attempt_id in
    let no_unique := "Supervisor completion has no unique v2 Finalize decision for node " +:+
                     wn_id node in
    match decisions with
    | [d] =>
        ensure (bool_decide (vd_schema_version d = SUPERVISOR_DECISION_SCHEMA_VERSION)) no_unique ;;?
        let ref := cs_final_output_ref (vd_source d) in
        ensure (bool_decide (ob_reference ref = output_ref) &&
                bool_decide (ob_bytes ref = output_bytes) &&
                bool_decide (ob_digest ref = output_digest) &&
                bool_decide (ob_run_id ref = Some workflow_run_id) &&
                bool_decide (ob_status ref = Some OutCompleted))
          ("Supervisor completion output does not match its Finalize decision for node " +:+
           wn_id node) ;;?
        Ok (Some (vd_source d))
    | _ => Err no_unique
    end.

Definition validate_completion_output_identity (payload : Value) (source : SupervisorCompletionSource) :
    result unit string :=
  let ref := cs_final_output_ref source in
  ensure (bool_decide (get_u64 "output_bytes" payload = Some (ob_bytes ref)) &&
          str_member "output_digest" (ob_digest ref) payload &&
          str_member "output_ref" (ob_reference ref) payload &&
          str_member "output_status" "completed" payload)
    ("Supervisor completion for node " +:+ cs_node_id source +:+
     " has an output identity different from its Finalize decision").

(** The schema version of a completion; [1] when it has none. *)
Definition completion_schema_version (payload : Value) : result Z string :=
  match get_u64 "completion_schema_version" payload with
  | Some n => ensure (bool_decide (n ≤ u8_max)%Z) "invalid Workflow completion schema version" ;;? Ok n
  | None => Ok LEGACY_WORKFLOW_COMPLETION_SCHEMA_VERSION
  end.

Definition unsupported_completion (schema_version : Z) : string :=
  "unsupported Workflow completion schema version " +:+ decimal schema_version.

Definition non_null (o : option Value) : bool :=
  match o with Some VNull | None => false | Some _ => true end.

(** A completion of a node that no Supervisor runs. *)
Definition validate_plain_completion (node_id : string) (schema_version : Z) (payload : Value) :
    result unit string :=
  ensure (negb (bool_decide (schema_version = WORKFLOW_COMPLETION_SCHEMA_VERSION) &&
                non_null (get "source_supervisor_decision" payload)))
    ("non-Supervisor Workflow completion for node " +:+ node_id +:+ " has a Supervisor source") ;;?
  ensure (bool_decide (schema_version = LEGACY_WORKFLOW_COMPLETION_SCHEMA_VERSION ∨
                       schema_version = WORKFLOW_COMPLETION_SCHEMA_VERSION))
    (unsupported_completion schema_version).

(** A completion by a Supervisor, against the unique decision of its attempt. *)
Definition validate_decided_completion (node_id : string) (schema_version : Z) (r : LedgerRecord)
    (d : ValidatedFinalizeDecision) : result unit string :=
  let payload := lr_payload r in
  let subject := "Supervisor completion for node " +:+ node_id in
  if decide (schema_version = LEGACY_WORKFLOW_COMPLETION_SCHEMA_VERSION) then
    ensure (bool_decide (vd_schema_version d = LEGACY_WORKFLOW_COMPLETION_SCHEMA_VERSION) &&
            negb (is_present (get "source_supervisor_decision" payload)))
      ("legacy " +:+ subject +:+ " cannot omit a v2 decision source")
  else if decide (schema_version = WORKFLOW_COMPLETION_SCHEMA_VERSION) then
    ensure (bool_decide (vd_schema_version d = SUPERVISOR_DECISION_SCHEMA_VERSION))
      (subject +:+ " does not refer to a v2 Finalize decision") ;;?
    let? value := ok_or (get "source_supervisor_decision" payload)
      (subject +:+ " is missing its decision source") in
    let? source := ok_or (from_value value)
      ("invalid Supervisor completion decision source for node " +:+ node_id +:+ ": " +:+
       ev_decode_text E value) in
    ensure (bool_decide (source = vd_source d) &&
            bool_decide (cs_decision_record_seq source < lr_seq r)%Z)
      (subject +:+ " does not match its earlier Finalize decision") ;;?
    validate_completion_output_identity payload source
  else Err (unsupported_completion schema_version).

Definition validate_completion_source (l : InMemoryLedgerState) (o : O) (d : WorkflowDefinition)
    (workflow_run_id : RunId) (r : LedgerRecord) : result unit string :=
  let payload := lr_payload r in
  let? node_id := ok_or (get_str "node_id" payload)
    "Workflow completion is missing its node identity" in
  let? node := ok_or (List.find (λ n, bool_decide (wn_id n = node_id)) (wd_nodes d))
    ("Workflow completion refers to unknown node " +:+ node_id) in
  let? schema_version := completion_schema_version payload in
  if negb (is_configured_supervisor node)
  then validate_plain_completion node_id schema_version payload
  else
    let? attempt_id := ok_or (get_str "attempt_id" payload)
      ("Supervisor completion for node " +:+ node_id +:+ " is missing its attempt identity") in
    let? decisions := validated_finalize_decisions l o workflow_run_id node_id attempt_id in
    match decisions with
    | [decision] => validate_decided_completion node_id schema_version r decision
    | _ => Err ("Supervisor completion for node " +:+ node_id +:+ " has no unique Finalize decision")
    end.
End completion.
