(* ===== verification/WorkflowNodes.v ===== *)
(** * The Workflow controller: the life of a node

    crates/solaris-agent/src/workflow_controller/node_state.rs, with
    [ready_nodes] and the change made by [cancel] from workflow_controller.rs:
    an attempt of a node begins, completes or fails, a node is skipped, a Run is
    settled or cancelled.  Every change is written to the ledger under the lease
    of the Run and followed by the compare-and-swap of the node's task. *)
From S2P Require Import ResourceTypes Prelude Json Types TaskRegistry RuntimeLedger WorkflowTypes Identity Registries LedgerInterface MessageBus CollaborationTypes CollaborationRuntime CollaborationTasks CollaborationRestore WorkflowRuns WorkflowInputs WorkflowController WorkflowRegistration WorkflowCompletion.

Record WorkflowTaskUpdate : Type := {
  tu_state : TaskState;
  tu_clear_owner : bool;
  tu_outcome_ref : option string;
  tu_failure_class : option TaskFailureClass;
  tu_operation_id : OperationId;
}.

Definition workflow_status_to_task_state (s : WorkflowNodeStatus) : TaskState :=
  match s with
  | NPending => Queued | NRunning => Running | NCompleted => Completed | NFailed => Failed
  | NSkipped => Skipped | NCancelled => Cancelled
  end.

(** [workflow:{run}:{node}:{rest}], the operation that names a change of a task. *)
Definition node_operation (run_id : RunId) (node_id rest : string) : OperationId :=
  "workflow:" +:+ run_id +:+ ":" +:+ node_id +:+ ":" +:+ rest.

Section nodes.
Context {O : Type} (E : Env O).

(** ** The task of a node *)

(** The closure that makes the change durable, over the ledger and the clock. *)
Definition persist_workflow_cas (g : WorkflowMutationGuard) (run_id : RunId) (task_id : TaskId)
    (op : OperationId) (m : TaskCasMutation) (task : TaskRecord)
    (w : InMemoryLedgerState * nat) (next : TaskRecord) :
    (InMemoryLedgerState * nat) * result unit TaskError :=
  let '(l, ticks) := w in
  let expected_revision := tr_revision task in
  let payload := cas_payload (ev_sha256 E) (ev_to_vec E) task_id op m expected_revision task next in
  match List.find (binds_change task_id op expected_revision) (run_records l run_id) with
  | Some existing =>
      if value_eqb (lr_payload existing) payload then (w, Ok tt)
      else (w, Err (PersistFailed ("task revision " +:+ decimal expected_revision +:+
                                   " is already bound to a different mutation")))
  | None =>
      match gd_lease g with
      | None => (w, Err (PersistFailed "runtime ledger cannot fence Workflow task mutation"))
      | Some lease =>
          match append_under_lease l lease (ev_clock E ticks) SyncCritical "task_cas" payload with
          | (l, Ok _) => ((l, S ticks), Ok tt)
          | (l, Err e) => ((l, S ticks), Err (PersistFailed (ev_ledger_text E e)))
          end
      end
  end.

Definition update_workflow_task (g : WorkflowMutationGuard) (run_id : RunId) (node_id : string)
    (u : WorkflowTaskUpdate) : M O Z :=
  let task_id := workflow_task_id run_id node_id in
  let! task := gets (λ c, get_task (ct_tasks c) task_id) in
  let! task := some_or task ("unknown workflow task: " +:+ task_id) in
  let m := WorkflowState (tu_state u) (tu_clear_owner u) (tu_outcome_ref u) (tu_failure_class u) in
  λ c,
    match cas_durable (persist_workflow_cas g run_id task_id (tu_operation_id u) m task)
            ((ct_ledger c, ct_ticks c), ct_tasks c) task_id (tr_revision task) (tu_operation_id u)
            (mutation_digest (ev_sha256 E) (ev_to_vec E) m) m with
    | (((l, ticks), tasks), r) =>
        (set_counters ticks (ct_uuids c) (set_ct_tasks tasks (set_ct_ledger l c)),
         match r with
         | Ok next => Ok (tr_revision next)
         | Err e => Err (CtMessage (ev_task_text E e))
         end)
    end.

(** ** Attempts *)

Definition known_run (run_id : RunId) (s : option WorkflowRunSnapshot) : M O WorkflowRunSnapshot :=
  some_or s ("unknown workflow run: " +:+ run_id).

Definition known_node (s : WorkflowRunSnapshot) (node_id : string) : M O WorkflowNodeAttempt :=
  some_or (wr_nodes s !! node_id) ("unknown workflow node: " +:+ node_id).

Definition binding_failed (e : string) : string := "workflow input binding failed: " +:+ e.

(** The attempt that begins. *)
Definition running_attempt (a : WorkflowNodeAttempt) (attempt_id : AttemptId) (number : Z)
    (input_digest : string) : WorkflowNodeAttempt :=
  {| na_node_id := na_node_id a; na_attempt_id := attempt_id; na_attempt_number := number;
     na_status := NRunning; na_input_digest := Some input_digest; na_output := None;
     na_output_ref := None; na_committed_at_unix_ms := None; na_error := None;
     na_failure_class := None; na_resume_existing_attempt := false; na_deferred := na_deferred a |}.

(** A resumed attempt keeps its identifier and number.  The number is a [u32];
    its increment is checked in the debug build and wraps in the release build. *)
Definition next_attempt (a : WorkflowNodeAttempt) : M O (AttemptId * Z) :=
  if na_resume_existing_attempt a then cret (na_attempt_id a, na_attempt_number a)
  else
    let! u := new_uuid E in
    cret ("attempt-" +:+ u, ((na_attempt_number a + 1) mod (u32_max + 1))%Z).

Definition node_started_payload (node_id : string) (attempt_id : AttemptId) (input_digest : string) :
    Value :=
  VObject [("node_id", VString node_id); ("attempt_id", VString attempt_id);
           ("input_digest", VString input_digest)].

Definition begin_action (run_id : RunId) (node : WorkflowNode) :
    action (O := O) WorkflowExecutionContext := λ g prepared,
  let! s := known_run run_id prepared in
  require (bool_decide (wr_status s = RRunning)) ("workflow run " +:+ run_id +:+ " is not running") ;;!
  let outputs := dependency_outputs node (wr_nodes s) in
  let! bound := of_result (match build_bound_inputs node outputs with
                           | Ok v => Ok v
                           | Err e => Err (binding_failed e)
                           end) in
  let input_digest := node_input_digest (ev_sha256 E) (ev_to_vec E) (wr_parameters s) outputs bound in
  let! a := known_node s (wn_id node) in
  require (bool_decide (na_status a = NPending))
    ("workflow node " +:+ wn_id node +:+ " is not pending; current state is " +:+
     node_status_debug (na_status a)) ;;!
  let! '(attempt_id, number) := next_attempt a in
  append_record E g run_id "workflow_node_started"
    (node_started_payload (wn_id node) attempt_id input_digest) ;;!
  cret (Some (set_node s (wn_id node) (running_attempt a attempt_id number input_digest)),
        {| xc_run_id := run_id;
           xc_workflow := {| im_implementation_id := "workflow:" +:+ wr_workflow_id s;
                             im_version := Some (wr_workflow_version s);
                             im_digest := wr_workflow_definition_digest s |};
           xc_node := node; xc_attempt_id := attempt_id; xc_parameters := wr_parameters s;
           xc_dependency_outputs := outputs; xc_bound_inputs := bound |}).

Definition begin_attempt (run_id : RunId) (node : WorkflowNode) : M O WorkflowExecutionContext :=
  mutate_projection E run_id (begin_action run_id node).

(** A node whose inputs cannot be bound. *)
Definition failed_before (a : WorkflowNodeAttempt) (error : string) : WorkflowNodeAttempt :=
  {| na_node_id := na_node_id a; na_attempt_id := na_attempt_id a;
     na_attempt_number := na_attempt_number a; na_status := NFailed;
     na_input_digest := na_input_digest a; na_output := na_output a;
     na_output_ref := na_output_ref a; na_committed_at_unix_ms := na_committed_at_unix_ms a;
     na_error := Some error; na_failure_class := Some NonRetryable;
     na_resume_existing_attempt := false; na_deferred := na_deferred a |}.

Definition failed_before_payload (node_id : string) (attempt_id : AttemptId) (error : string) : Value :=
  VObject [("node_id", VString node_id); ("attempt_id", VString attempt_id);
           ("error", VString error); ("state", to_value NFailed); ("pre_dispatch", VBool true)].

Definition fail_before_action (run_id : RunId) (node : WorkflowNode) (error : string) :
    action (O := O) unit := λ g prepared,
  let! s := known_run run_id prepared in
  if decide (wr_status s ≠ RRunning) then cret (prepared, tt)
  else
    let! a := known_node s (wn_id node) in
    if decide (na_status a ≠ NPending) then cret (prepared, tt)
    else
      append_record E g run_id "workflow_node_failed"
        (failed_before_payload (wn_id node) (na_attempt_id a) error) ;;!
      update_workflow_task g run_id (wn_id node)
        {| tu_state := Failed; tu_clear_owner := false; tu_outcome_ref := None;
           tu_failure_class := Some NonRetryable;
           tu_operation_id := node_operation run_id (wn_id node)
                                (na_attempt_id a +:+ ":pre-dispatch-failed") |} ;;!
      cret (Some (set_node s (wn_id node) (failed_before a error)), tt).

Definition fail_before_attempt (run_id : RunId) (node : WorkflowNode) (error : string) : M O unit :=
  mutate_projection E run_id (fail_before_action run_id node error).

(** ** Completion *)

Definition completed_attempt (a : WorkflowNodeAttempt) (output : Value) (output_ref : string)
    (committed : Z) : WorkflowNodeAttempt :=
  {| na_node_id := na_node_id a; na_attempt_id := na_attempt_id a;
     na_attempt_number := na_attempt_number a; na_status := NCompleted;
     na_input_digest := na_input_digest a; na_output := Some output;
     na_output_ref := Some output_ref; na_committed_at_unix_ms := Some committed;
     na_error := None; na_failure_class := None;
     na_resume_existing_attempt := na_resume_existing_attempt a; na_deferred := na_deferred a |}.

Definition completed_payload (a : WorkflowNodeAttempt) (node_id output_ref output_digest : string)
    (output_bytes : Z) (source : option SupervisorCompletionSource) (committed : Z) : Value :=
  VObject [("completion_schema_version", uint_to_value WORKFLOW_COMPLETION_SCHEMA_VERSION);
           ("node_id", VString node_id); ("attempt_id", VString (na_attempt_id a));
           ("input_digest", opt_value (na_input_digest a)); ("output_ref", VString output_ref);
           ("output_digest", VString output_digest); ("output_bytes", uint_to_value output_bytes);
           ("output_status", VString "completed"); ("output_redacted", VBool true);
           ("source_supervisor_decision", opt_value source);
           ("committed_at_unix_ms", i64_to_value committed)].

Definition find_node (d : WorkflowDefinition) (node_id : string) : option WorkflowNode :=
  List.find (λ n, bool_decide (wn_id n = node_id)) (wd_nodes d).

(** [EffectOutputStore::for_run_with_ledger(run).write_named(..)]. *)
Definition write_output (run_id : RunId) (serialized : string) : M O string :=
  λ c, match ev_write_named E (ct_files c) run_id serialized with
       | (o, Ok ref) => (set_files o c, Ok ref)
       | (o, Err e) =>
           (set_files o c, Err (CtMessage ("failed to protect workflow output: " +:+ e)))
       end.

Definition complete_action (run_id : RunId) (node_id : string) (attempt_id : AttemptId)
    (output : Value) : action (O := O) bool := λ g prepared,
  let! s := known_run run_id prepared in
  if decide (wr_status s ≠ RRunning) then cret (prepared, false)
  else
    let! d := gets (λ c, definition c (wr_workflow_id s)) in
    let! node := some_or (d ≫= λ d, find_node d node_id)
                   ("unknown workflow node definition: " +:+ node_id) in
    let! a := known_node s node_id in
    if decide (na_status a ≠ NRunning ∨ na_attempt_id a ≠ attempt_id) then cret (prepared, false)
    else
      let serialized := ev_to_string E output in
      let! output_ref := write_output run_id serialized in
      let! committed := now E in
      let! bytes := some_or (if decide (byte_len serialized ≤ u64_max)%Z
                             then Some (byte_len serialized) else None)
                      "workflow output length does not fit its durable identity" in
      let output_digest := stable_digest_bytes (ev_sha256 E) serialized in
      let! ledger := gets ct_ledger in
      let! files := gets ct_files in
      let! source := of_result (build_supervisor_completion_source E ledger files node run_id
                                  (na_attempt_id a) output_ref bytes output_digest) in
      append_record E g run_id "workflow_node_completed"
        (completed_payload a node_id output_ref output_digest bytes source committed) ;;!
      update_workflow_task g run_id node_id
        {| tu_state := Completed; tu_clear_owner := false; tu_outcome_ref := Some output_ref;
           tu_failure_class := None;
           tu_operation_id := node_operation run_id node_id (attempt_id +:+ ":completed") |} ;;!
      cret (Some (set_node s node_id (completed_attempt a output output_ref committed)), true).

Definition complete_node (run_id : RunId) (node_id : string) (attempt_id : AttemptId)
    (output : Value) : M O bool :=
  mutate_projection E run_id (complete_action run_id node_id attempt_id output).

(** ** Failure *)

Definition failed_attempt (a : WorkflowNodeAttempt) (e : WorkflowNodeError)
    (status : WorkflowNodeStatus) (deferred : option DeferredTaskTerminalWrite) :
    WorkflowNodeAttempt :=
  {| na_node_id := na_node_id a; na_attempt_id := na_attempt_id a;
     na_attempt_number := na_attempt_number a; na_status := status;
     na_input_digest := na_input_digest a; na_output := na_output a;
     na_output_ref := na_output_ref a; na_committed_at_unix_ms := na_committed_at_unix_ms a;
     na_error := Some (ne_message e); na_failure_class := Some (ne_failure_class e);
     na_resume_existing_attempt := na_resume_existing_attempt a; na_deferred := deferred |}.

Definition failed_payload (node_id : string) (e : WorkflowNodeError) (status : WorkflowNodeStatus)
    (deferred : option DeferredTaskTerminalWrite) : Value :=
  VObject [("node_id", VString node_id); ("error", VString (ne_message e));
           ("failure_class", to_value (ne_failure_class e)); ("state", to_value status);
           ("task_terminal_write_deferred", VBool (bool_decide (is_Some deferred)));
           ("deferred_task_terminal_write", opt_value deferred)].

(** A call of the collaboration runtime, its error as its text. *)
Definition runtime_call {A} (f : Runtime → Runtime * result A RuntimeError) : M O A :=
  λ c, match f (ct_runtime c) with
       | (rt, Ok a) => (set_runtime rt c, Ok a)
       | (rt, Err e) => (set_runtime rt c, Err (CtMessage (ev_runtime_text E e)))
       end.

Definition require_runtime : M O unit :=
  let! b := gets ct_with_runtime in
  require b "Workflow task recovery requires a CollaborationRuntime".

Definition restore_durable_task_projection (task_id : TaskId) : M O bool :=
  require_runtime ;;!
  runtime_call (λ rt, restore_task_projection_across_lineage (ev_sha256 E) (ev_to_vec E) rt task_id).

Definition restore_durable_task_operation (task_id : TaskId) (op : OperationId) :
    M O (bool * option TaskRecord) :=
  require_runtime ;;!
  runtime_call (λ rt, restore_task_operation_across_lineage (ev_sha256 E) (ev_to_vec E) rt task_id op).

(** Before a failure that needs reconciliation is written, the task is brought
    up to date; when that fails its terminal change is left for later. *)
Definition deferred_write (run_id : RunId) (node_id : string) (op : OperationId)
    (e : WorkflowNodeError) : M O (option DeferredTaskTerminalWrite) :=
  if decide (ne_failure_class e = ReconciliationRequired) then
    let! r := attempt (restore_durable_task_projection (workflow_task_id run_id node_id)) in
    match r with
    | Ok _ => cret None
    | Err _ =>
        cret (Some {| dt_state := Failed; dt_clear_owner := false; dt_outcome_ref := None;
                      dt_failure_class := ne_failure_class e; dt_operation_id := op |})
    end
  else cret None.

Definition allowed_attempts (node : WorkflowNode) : Z := Z.max (wn_retry_max_attempts node) 1.

(** The state of a node after a failed attempt. *)
Definition retry_status (node : WorkflowNode) (a : WorkflowNodeAttempt) (e : WorkflowNodeError) :
    WorkflowNodeStatus :=
  if decide (ne_failure_class e = Retryable ∧ na_attempt_number a < allowed_attempts node)%Z
  then NPending else NFailed.

Definition fail_action (run_id : RunId) (node : WorkflowNode) (node_id : string)
    (attempt_id : AttemptId) (e : WorkflowNodeError) : action (O := O) bool := λ g prepared,
  let op := node_operation run_id node_id (attempt_id +:+ ":failed") in
  let! deferred := deferred_write run_id node_id op e in
  let! s := known_run run_id prepared in
  if decide (wr_status s ≠ RRunning) then cret (prepared, false)
  else
    let! a := known_node s node_id in
    if decide (na_status a ≠ NRunning ∨ na_attempt_id a ≠ attempt_id) then cret (prepared, false)
    else
      let status := retry_status node a e in
      append_record E g run_id "workflow_node_failed" (failed_payload node_id e status deferred) ;;!
      (if decide (deferred = None) then
         update_workflow_task g run_id node_id
           {| tu_state := Failed; tu_clear_owner := false; tu_outcome_ref := None;
              tu_failure_class := Some (ne_failure_class e); tu_operation_id := op |} ;;!
         if decide (status = NPending) then
           update_workflow_task g run_id node_id
             {| tu_state := Queued; tu_clear_owner := true; tu_outcome_ref := None;
                tu_failure_class := None;
                tu_operation_id := node_operation run_id node_id (attempt_id +:+ ":retry-queued") |} ;;!
           cret tt
         else cret tt
       else cret tt) ;;!
      cret (Some (set_node s node_id (failed_attempt a e status deferred)), true).

(** The definition of a Run that is known. *)
Definition run_definition (run_id : RunId) (missing : string) :
    M O (WorkflowRunSnapshot * WorkflowDefinition) :=
  let! s := gets (λ c, run_snapshot c run_id) in
  let! s := some_or s ("unknown workflow run: " +:+ run_id) in
  let! d := gets (λ c, definition c (wr_workflow_id s)) in
  let! d := some_or d (missing +:+ wr_workflow_id s) in
  cret (s, d).

Definition fail_node (run_id : RunId) (node_id : string) (attempt_id : AttemptId)
    (e : WorkflowNodeError) : M O bool :=
  let! '(_, d) := run_definition run_id "unknown workflow: " in
  let! node := some_or (find_node d node_id) ("unknown workflow node: " +:+ node_id) in
  mutate_projection E run_id (fail_action run_id node node_id attempt_id e).

(** ** Readiness and skipping *)

Definition is_pending (s : WorkflowRunSnapshot) (node : WorkflowNode) : bool :=
  match wr_nodes s !! wn_id node with
  | Some a => bool_decide (na_status a = NPending)
  | None => false
  end.

Definition condition_true (s : WorkflowRunSnapshot) (node : WorkflowNode) : bool :=
  condition_matches (wr_nodes s) (wr_parameters s) (wn_when node).

Definition node_ready (s : WorkflowRunSnapshot) (node : WorkflowNode) : bool :=
  is_pending s node && dependencies_complete node (wr_nodes s) && condition_true s node.

Definition node_skippable (s : WorkflowRunSnapshot) (node : WorkflowNode) : bool :=
  is_pending s node && dependencies_complete node (wr_nodes s) &&
  is_present (wn_when node) && negb (condition_true s node).

Definition ready_nodes (run_id : RunId) : M O (list WorkflowNode) :=
  let! '(s, d) := run_definition run_id "workflow definition disappeared: " in
  cret (List.filter (node_ready s) (wd_nodes d)).

Definition skipped_attempt (a : WorkflowNodeAttempt) : WorkflowNodeAttempt :=
  {| na_node_id := na_node_id a; na_attempt_id := na_attempt_id a;
     na_attempt_number := na_attempt_number a; na_status := NSkipped;
     na_input_digest := na_input_digest a; na_output := na_output a;
     na_output_ref := na_output_ref a; na_committed_at_unix_ms := na_committed_at_unix_ms a;
     na_error := na_error a; na_failure_class := na_failure_class a;
     na_resume_existing_attempt := na_resume_existing_attempt a; na_deferred := na_deferred a |}.

(** The closure of [skip_false_conditions]; the state of the node is not looked
    at again. *)
Definition skip_action (run_id : RunId) (node_id : string) : action (O := O) unit := λ g prepared,
  append_record E g run_id "workflow_node_skipped" (VObject [("node_id", VString node_id)]) ;;!
  let! s := known_run run_id prepared in
  update_workflow_task g run_id node_id
    {| tu_state := Skipped; tu_clear_owner := false; tu_outcome_ref := None;
       tu_failure_class := None; tu_operation_id := node_operation run_id node_id "skipped" |} ;;!
  cret (Some (with_nodes s (alter skipped_attempt node_id (wr_nodes s))), tt).

Definition skip_node (run_id : RunId) (node_id : string) : M O unit :=
  mutate_projection E run_id (skip_action run_id node_id).

(** Rounds go on until no node is to be skipped. *)
Fixpoint skip_rounds (fuel : nat) (run_id : RunId) : M O unit :=
  match fuel with
  | 0 => cfail CtFuel
  | S fuel =>
      let! '(s, d) := run_definition run_id "unknown workflow: " in
      match wn_id <$> List.filter (node_skippable s) (wd_nodes d) with
      | [] => cret tt
      | skipped => cfor (skip_node run_id) skipped ;;! skip_rounds fuel run_id
      end
  end.

(** Every round but the last skips a node that was pending. *)
Definition skip_fuel (c : Controller O) (run_id : RunId) : nat :=
  match run_snapshot c run_id with Some s => S (size (wr_nodes s)) | None => 1 end.

Definition skip_false_conditions (run_id : RunId) : M O unit :=
  let! fuel := gets (λ c, skip_fuel c run_id) in skip_rounds fuel run_id.
End nodes.
