(* ===== verification/CollaborationSafety.v ===== *)
(** * Who may change what, and the outcomes of child Agents

    An outcome that was recorded is read back as it was, recording it again
    changes nothing, and another outcome of the same operation is refused.  Only
    an entitled caller changes a task, one revision at a time; an admission in
    flight, which takes no lock of the Run, can put back a task it was asked for;
    the Workflow controller moves the tasks of its nodes.  An Agent moves through
    its life cycle and nowhere else. *)
From S2P Require Import ResourceTypes Prelude Json Types TaskRegistry RuntimeLedger LedgerFacts LedgerAdmission Identity WorkflowTypes Registries LedgerInterface MessageBus BusFacts CollaborationTypes CollaborationRuntime CollaborationTasks CollaborationSpawn CollaborationRestore CollaborationHistory CollaborationReplay CollaborationReplayTasks CollaborationReplayBatch CollaborationReplayTeams CollaborationRecovery WorkflowRuns WorkflowInputs WorkflowController WorkflowRegistration WorkflowCompletion WorkflowNodes.

(** * Outcomes of child Agents *)
Lemma with_text_text r text : sr_text r = text → with_text (with_text r "") text = r.
Proof. intros <-. by destruct r. Qed.

Lemma output_names_text r member :
  output_names r member = true → (o ← sr_output r; get_str member o) = Some (sr_text r).
Proof. unfold output_names. destruct (sr_output r); [|done]. by intros ?%bool_decide_eq_true. Qed.

Lemma outcome_body_ok r : result_ok r → serde_ok (outcome_body r).
Proof. intros H. unfold outcome_body. by repeat case_match. Qed.

Section outcomes.
Context (sha256 : string → list Byte.byte) (to_string : Value → string) (from_str : string → option Value).
Context {O : Type} (write_named : O → RunId → string → O * result string string).
Context (read_named : O → RunId → string → result string string).
(** What was written under a name is read under it. *)
Context (Hstore : ∀ o run text o' reference,
  write_named o run text = (o', Ok reference) → read_named o' run reference = Ok text).

Abbreviation encode := (encode_agent_outcome_body to_string).
Abbreviation decode := (decode_agent_outcome_body from_str).
Abbreviation record := (record_agent_outcome sha256 to_string from_str write_named read_named).

(** The body of an outcome is parsed back to the value it was written from. *)
Definition text_ok (r : SubAgentResult) : Prop :=
  from_str (encode r) = Some (to_value (outcome_body r)) ∧ is_u64 (byte_len (encode r)).

Lemma decode_encode r : result_ok r → text_ok r → decode (encode r) = Ok r.
Proof.
  intros Hr [Ht _]. unfold decode_agent_outcome_body. rewrite Ht. cbn [mbind option_bind].
  rewrite from_to_value by by apply outcome_body_ok. cbn [ok_or rbind]. unfold outcome_body.
  destruct (output_names r "text") eqn:H1; [|destruct (output_names r "error") eqn:H2]; cbn [dy_text_source dy_result].
  - apply output_names_text in H1. simpl. rewrite H1. simpl. by rewrite with_text_text.
  - apply output_names_text in H2. simpl. rewrite H2. simpl. by rewrite with_text_text.
  - done.
Qed.

(** The record an outcome leaves. *)
Definition outcome_record (re : AgentSpawnReservation) (reference : string) (res : SubAgentResult) :
    DurableAgentOutcomeRecord :=
  let run := ck_run_id (re_key re) in
  {| do_spawn_operation_id := ck_spawn_operation_id (re_key re);
     do_child_agent_id := re_child_agent_id re; do_status := Some (sr_status res);
     do_outcome_ref := Some {|
       ob_reference := reference; ob_bytes := byte_len (encode res);
       ob_digest := stable_digest_bytes sha256 (encode res); ob_run_id := Some run;
       ob_status := Some (sr_status res) |};
     do_result := Some (agent_outcome_projection res) |}.

Lemma read_recorded o re reference res :
  result_ok res → text_ok res → read_named o (ck_run_id (re_key re)) reference = Ok (encode res) →
  ∃ b, read_agent_outcome_record sha256 from_str read_named o (ck_run_id (re_key re))
         (to_value (outcome_record re reference res)) = Ok (res, Some b).
Proof.
  intros Hr Ht Hread. eexists. unfold read_agent_outcome_record. rewrite from_to_value.
  2:{ split; [intros b [= <-]; apply Ht|intros r [= <-]; apply projection_ok]. }
  cbn [ok_or rbind outcome_record do_outcome_ref do_status]. unfold read_agent_outcome_blob.
  cbn [ob_run_id ob_reference ob_bytes ob_digest ob_status conflicts default from_option id].
  rewrite bool_decide_false by tauto. cbn [negb ensure rbind]. rewrite Hread. cbn [lift_store rbind].
  rewrite bool_decide_true by done. cbn [ensure rbind]. rewrite decode_encode by done. cbn [rbind].
  rewrite bool_decide_false by tauto. cbn [negb ensure rbind].
  rewrite bool_decide_false by tauto. reflexivity.
Qed.

(** What a first outcome does. *)
Lemma record_first s o now re res s' o' :
  List.find (outcome_of (ck_spawn_operation_id (re_key re)))
    (reverse (run_records (rt_ledger s) (ck_run_id (re_key re)))) = None →
  record s o now re res = (s', o', Ok tt) →
  ∃ reference, write_named o (ck_run_id (re_key re)) (encode res) = (o', Ok reference) ∧
    s' = set_state (logged (ck_run_id (re_key re)) s now "agent_outcome"
           (to_value (outcome_record re reference res))) (re_child_agent_id re) (outcome_agent_state res).
Proof.
  intros Hnone. unfold record_agent_outcome. rewrite Hnone.
  destruct (write_named _ _ _) as [o1 [reference|e]] eqn:Hw; [|done].
  destruct (agent_get _ _) as [a|]; [|done]. case_match; [done|]. intros [= <- <-].
  by exists reference.
Qed.

Lemma find_outcome s now re reference res :
  let run := ck_run_id (re_key re) in
  let p := to_value (outcome_record re reference res) in
  let s' := set_state (logged run s now "agent_outcome" p) (re_child_agent_id re) (outcome_agent_state res) in
  ∀ f : LedgerRecord → bool,
  f (new_record run s now "agent_outcome" p) = true →
  List.find f (reverse (run_records (rt_ledger s') run)) = Some (new_record run s now "agent_outcome" p).
Proof.
  intros run p s' f Hf. change (rt_ledger s') with (rt_ledger (logged run s now "agent_outcome" p)).
  rewrite records_logged, reverse_snoc. simpl. by rewrite Hf.
Qed.

(** C28: The outcome of a child Agent is read back as it was reported.  Once
    [record_agent_outcome] succeeds - with the text of the result written once,
    its body in the store and a reference with length and digest in the ledger
    - [agent_outcome] returns the result itself; reporting it again succeeds and
    changes nothing; a different outcome of the operation is refused and changes
    nothing. *)
Theorem outcome_roundtrip s o now re res s' o' :
  List.find (outcome_of (ck_spawn_operation_id (re_key re)))
    (reverse (run_records (rt_ledger s) (ck_run_id (re_key re)))) = None →
  result_ok res → text_ok res → record s o now re res = (s', o', Ok tt) →
  agent_outcome sha256 from_str read_named s' o' re = Ok (Some res) ∧
  (∀ later, record s' o' later re res = (s', o', Ok tt)) ∧
  (∀ later other, value_eqb (to_value res) (to_value other) = false →
     record s' o' later re other =
       (s', o', Err (RtOther "spawn already has a different terminal Agent outcome"))).
Proof.
  intros Hnone Hr Ht Hrec. destruct (record_first _ _ _ _ _ _ _ Hnone Hrec) as (reference & Hw & ->).
  apply Hstore in Hw. destruct (read_recorded o' re reference res Hr Ht Hw) as [b Hb].
  assert (∀ (r : LedgerRecord), lr_record_type r = "agent_outcome" →
    lr_payload r = to_value (outcome_record re reference res) →
    outcome_of (ck_spawn_operation_id (re_key re)) r = true) as Hof.
  { intros r E1 E2. unfold outcome_of. rewrite E1, E2. apply andb_true_iff. split; [done|]. by apply bool_decide_eq_true. }
  split_and!.
  - unfold agent_outcome, agent_outcome_by_identity. rewrite find_outcome.
    + cbn [lr_payload new_record make_record]. unfold new_record, make_record. cbn [lr_payload]. rewrite Hb. done.
    + rewrite Hof by done. simpl. by apply bool_decide_eq_true.
  - intros later. unfold record_agent_outcome at 1. rewrite find_outcome by by apply Hof.
    unfold new_record, make_record. cbn [lr_payload]. rewrite Hb. by rewrite value_eqb_refl by by apply to_value_wf.
  - intros later other Hne. unfold record_agent_outcome at 1. rewrite find_outcome by by apply Hof.
    unfold new_record, make_record. cbn [lr_payload]. rewrite Hb. by rewrite Hne.
Qed.
End outcomes.

(** * Changes of tasks and Agents *)
(** ** Tasks *)

(** The Agent is a member of the Team of the task, when it has one. *)
Definition in_team (s : Runtime) (t : TaskRecord) (a : AgentId) : Prop :=
  ∀ id, tr_team_id t = Some id → ∃ team, rt_teams s !! id = Some team ∧ a ∈ tm_members team.

(** The Agent coordinates the Supervisor Team of the task. *)
Definition supervises (s : Runtime) (t : TaskRecord) (a : AgentId) : Prop :=
  ∃ id team, tr_team_id t = Some id ∧ rt_teams s !! id = Some team ∧ tm_strategy team = Supervisor ∧
    tm_coordinator team = Some a.

Definition owns (t : TaskRecord) (a : AgentId) : Prop := tr_owner_agent_id t = Some a.

(** Which call may change the task, and under what condition; every such call
    names the revision it expects. *)
Definition entitled {O} (s : Runtime) (op : runtime_op O) (id : TaskId) (t : TaskRecord) : Prop :=
  match op with
  | OpAssign task agent revision _ =>
      task = id ∧ revision = tr_revision t ∧ tr_state t = Queued ∧ tr_owner_agent_id t = None ∧
      in_team s t agent
  | OpMarkRunning task agent revision _ =>
      task = id ∧ revision = tr_revision t ∧ tr_state t = Assigned ∧ owns t agent ∧ in_team s t agent
  | OpSettle task agent revision _ state _ _ =>
      task = id ∧ revision = tr_revision t ∧ is_settled state = true ∧
      is_assigned_or_running (tr_state t) = true ∧ owns t agent ∧ in_team s t agent
  | OpHandoff task from to revision _ =>
      task = id ∧ revision = tr_revision t ∧ is_assigned_or_running (tr_state t) = true ∧
      in_team s t from ∧ in_team s t to ∧ (owns t from ∨ supervises s t from)
  | OpSkip task revision _ _ =>
      task = id ∧ revision = tr_revision t ∧ tr_state t = Queued ∧ tr_owner_agent_id t = None
  | OpRequeue task coordinator revision _ _ =>
      task = id ∧ revision = tr_revision t ∧ tr_state t = Failed ∧
      tr_failure_class t = Some Retryable ∧ supervises s t coordinator
  | OpCancelTask task coordinator revision _ =>
      task = id ∧ revision = tr_revision t ∧ tr_workflow_id t ≠ None ∧ supervises s t coordinator
  | _ => False
  end.

(** What happens to the registered tasks: each stays, or [E] holds of it and
    its revision goes up by one. *)
Definition registry_effect (E : TaskId → TaskRecord → Prop) (ts ts' : TaskRegistryState) : Prop :=
  ∀ id t, rg_tasks ts !! id = Some t →
    rg_tasks ts' !! id = Some t ∨
    (E id t ∧ ∃ t', rg_tasks ts' !! id = Some t' ∧ tr_revision t' = (tr_revision t + 1)%Z).

Definition task_effect (E : TaskId → TaskRecord → Prop) (s s' : Runtime) : Prop :=
  registry_effect E (rt_tasks s) (rt_tasks s').

(** A change at the expected revision. *)
Lemma effect_cas_durable {W} (persist : W → TaskRecord → W * result unit TaskError) w ts id expected op digest m :
  registry_effect (λ id' t, id' = id ∧ expected = tr_revision t ∧ is_ok (apply m t (expected + 1)) = true) ts
    (cas_durable persist (w, ts) id expected op digest m).1.2.
Proof.
  destruct (cas_durable _ _ _ _ _ _ _) as [[w' ts'] [next|e]] eqn:Hcas; simpl.
  - apply cas_durable_ok in Hcas as [(a & _ & _ & -> & _)|(cur & _ & Hcur & Hrev & _ & Hap & _ & ->)];
      [by left|].
    intros id' t Hid. simpl. rewrite lookup_insert. case_decide as Heq; [|by left]. subst id'.
    rewrite Hcur in Hid. injection Hid as <-. right. split; [split_and!; [done..|by rewrite Hap]|].
    exists next. split; [done|]. apply apply_identity in Hap as [_ ->]. lia.
  - apply cas_durable_err in Hcas as [-> _]. by left.
Qed.

Lemma effect_same E s s' : rt_tasks s' = rt_tasks s → task_effect E s s'.
Proof. intros Eq id t H. left. by rewrite Eq. Qed.

Lemma effect_weaken (E E' : TaskId → TaskRecord → Prop) s s' :
  (∀ id t, rg_tasks (rt_tasks s) !! id = Some t → E id t → E' id t) → task_effect E s s' → task_effect E' s s'.
Proof. intros HE H id t Hid. destruct (H id t Hid) as [?|[? ?]]; [by left|right; auto]. Qed.

Lemma effect_slift {A B} E s (r : result A RuntimeError) (k : A → outcome B) :
  (∀ a, r = Ok a → task_effect E s (k a).1) → task_effect E s (slift s r k).1.
Proof. intros H. apply slift_state; [by apply effect_same|done]. Qed.

Lemma upsert_missing_keeps s t id t0 :
  rg_tasks (rt_tasks s) !! id = Some t0 → rg_tasks (rt_tasks (upsert_missing s t)) !! id = Some t0.
Proof.
  intros H. unfold upsert_missing, get_task. destruct (rg_tasks (rt_tasks s) !! tr_task_id t) eqn:E; [done|].
  simpl. rewrite lookup_insert_ne; [done|]. congruence.
Qed.

Lemma upsert_missings_keep l s id t0 :
  rg_tasks (rt_tasks s) !! id = Some t0 →
  rg_tasks (rt_tasks (fold_left upsert_missing l s)) !! id = Some t0.
Proof.
  revert s. induction l as [|t l IH]; intros s H; [done|]. cbn [fold_left]. by apply IH, upsert_missing_keeps.
Qed.

Lemma rt_admit_state s now run max tasks additional :
  ∃ l, (rt_admit s now run max tasks additional).1 = set_ledger s l.
Proof. unfold rt_admit. destruct (admit_tasks_and_append _ _ _ _ _ _ _) as [l [rs|e]]; by exists l. Qed.

Lemma effect_batch {A} E s now run max tasks additional teams ms (a : A) :
  task_effect E s (sbind (rt_admit s now run max tasks additional)
                     (λ s _, (commit_batch s teams ms tasks, Ok a))).1.
Proof.
  destruct (rt_admit_state s now run max tasks additional) as [l Hl].
  destruct (rt_admit s now run max tasks additional) as [s' [rs|e]]; simpl in *; subst s';
    [|by apply effect_same]. intros id t Hid. left. unfold commit_batch. apply upsert_missings_keep.
  destruct (batch_keeps teams ms (set_ledger s l)) as [_ ->]. done.
Qed.

Section safety.
Context (sha256 : string → list Byte.byte) (to_vec to_string : Value → string).
Context (from_str : string → option Value).
Context {O : Type} (write_named : O → RunId → string → O * result string string).
Context (read_named : O → RunId → string → result string string).
Context (run : RunId).

Abbreviation run_op := (run_op sha256 to_vec to_string from_str write_named read_named run).
Abbreviation run_step := (run_step sha256 to_vec to_string from_str write_named read_named run).

Lemma effect_cas s now r id expected op m :
  task_effect (λ id' t, id' = id ∧ expected = tr_revision t ∧ is_ok (apply m t (expected + 1)) = true) s
    (cas_revision sha256 to_vec s now r id expected op m).1.
Proof.
  assert (∀ c : outcome TaskRecord, (sbind c (λ s updated, (s, Ok (tr_revision updated)))).1 = c.1) as Hc
    by by intros [? []].
  unfold cas_revision. rewrite Hc. unfold apply_task_cas. apply effect_slift. intros expected_task _.
  pose proof (effect_cas_durable (persist_cas sha256 to_vec now r id op m expected expected_task) (rt_ledger s)
    (rt_tasks s) id expected op (mutation_digest sha256 to_vec m) m) as H.
  by destruct (cas_durable _ _ _ _ _ _ _) as [[l ts] [next|e]].
Qed.

Lemma effect_admit_tasks E s now max tasks :
  run_inv run s → Forall (task_input_ok s) tasks → task_effect E s (admit_runtime_tasks s now run max tasks).1.
Proof.
  intros Hi Hin. rewrite admission_alone. apply effect_slift. intros [] _.
  destruct (rt_admit_cases run s now max tasks [] Hi) as [[e ->]|(admitted & l & rs_c & rs_x & -> & Had)];
    [by apply effect_same|]. cbn [sbind].
  pose proof (no_extra _ _ _ _ _ _ _ _ Had) as ->. rewrite app_nil_r, (project_created run _ admitted); [|apply Had|].
  2:{ apply Forall_forall. intros t Ht. rewrite Forall_forall in Hin.
      by apply Hin, (admitted_fresh _ _ _ _ _ _ _ _ _ _ Had). }
  cbn [sbind fst]. intros id t Hid. left. apply upsert_missings_keep. simpl. rewrite upserts_out; [done|].
  intros (t' & -> & Ht')%list_elem_of_fmap. apply (admitted_fresh _ _ _ _ _ _ _ _ _ _ Had) in Ht' as [_ ?].
  congruence.
Qed.

Lemma effect_register E s now task : task_effect E s (register_runtime_task s now run task).1.
Proof.
  unfold register_runtime_task. do 2 (apply effect_slift; intros ? _). destruct (_ !! _) as [created|].
  - case_match; [|by apply effect_same]. intros id t Hid. left. by apply upsert_missing_keeps.
  - destruct (get_task _ _) eqn:Hg; [by case_match; apply effect_same|].
    intros id t Hid. left. simpl. rewrite lookup_insert_ne; [done|]. unfold get_task in Hg. congruence.
Qed.

Lemma agent_in_team s t id a u :
  rg_tasks (rt_tasks s) !! id = Some t → validate_task_agent s run id a = Ok u → in_team s t a.
Proof.
  intros Hid. unfold validate_task_agent, get_task. rewrite Hid. cbn [ok_or rbind]. rewrite rbind_ok.
  intros (r & _ & H). rewrite rbind_ok in H. destruct H as (_ & _ & H). intros team_id Ht. rewrite Ht in H.
  rewrite rbind_ok in H. destruct H as (team & Hteam%ok_or_ok & H%ensure_ok).
  rewrite andb_true_iff, bool_decide_eq_true in H. exists team. by destruct H.
Qed.

Lemma effect_assign s now id a rev op :
  task_effect (entitled (O := O) s (OpAssign id a rev op)) s (assign_task_owner sha256 to_vec s now run id a rev op).1.
Proof.
  apply effect_slift. intros u Hv. eapply effect_weaken; [|apply effect_cas].
  intros id' t Hid (-> & -> & Hap). simpl in Hap. case_decide as Hst; [done|].
  split_and!; [done..| | |by eapply agent_in_team]; apply dec_stable; tauto.
Qed.

Lemma effect_mark_running s now id a rev op :
  task_effect (entitled (O := O) s (OpMarkRunning id a rev op)) s (mark_task_running sha256 to_vec s now run id a rev op).1.
Proof.
  apply effect_slift. intros u Hv. eapply effect_weaken; [|apply effect_cas].
  intros id' t Hid (-> & -> & Hap). simpl in Hap. case_decide as Hst; [done|].
  split_and!; [done..| | |by eapply agent_in_team]; unfold owns; apply dec_stable; tauto.
Qed.

Lemma effect_settle s now id a rev op st outcome_ref failure :
  task_effect (entitled (O := O) s (OpSettle id a rev op st outcome_ref failure)) s
    (settle_collaboration_task sha256 to_vec s now run id a rev op st outcome_ref failure).1.
Proof.
  unfold settle_collaboration_task. apply effect_slift. intros _ Hst%ensure_ok.
  apply effect_slift. intros task Htask%ok_or_ok. apply effect_slift. intros _ [_ Hown]%ensure_ok%bool_decide_eq_true.
  apply effect_slift. intros u Hteam. eapply effect_weaken; [|apply effect_cas].
  intros id' t Hid (-> & -> & Hap). unfold get_task in Htask. rewrite Hid in Htask. injection Htask as <-.
  simpl in Hap. rewrite Hst in Hap. simpl in Hap. case_decide as Hc; [done|].
  split_and!; [done..| |done|].
  - destruct (is_assigned_or_running (tr_state t)); [done|]. exfalso. tauto.
  - intros team_id Ht. rewrite Ht, rbind_ok in Hteam.
    destruct Hteam as (team & ?%ok_or_ok & ?%ensure_ok%bool_decide_eq_true). by exists team.
Qed.

Lemma effect_skip_task s now id rev op reason :
  task_effect (entitled (O := O) s (OpSkip id rev op reason)) s
    (skip_collaboration_task sha256 to_vec s now run id rev op reason).1.
Proof.
  unfold skip_collaboration_task. do 2 (apply effect_slift; intros ? _).
  eapply effect_weaken; [|apply effect_cas]. intros id' t Hid (-> & -> & Hap). simpl in Hap. case_decide as Hst; [done|].
  split_and!; [done..| |]; apply dec_stable; tauto.
Qed.

Lemma effect_requeue s now id c rev op reason :
  task_effect (entitled (O := O) s (OpRequeue id c rev op reason)) s
    (requeue_supervisor_task sha256 to_vec s now run id c rev op reason).1.
Proof.
  unfold requeue_supervisor_task. apply effect_slift. intros task Htask%ok_or_ok.
  apply effect_slift. intros _ (_ & Hst & Hf)%ensure_ok%bool_decide_eq_true.
  apply effect_slift. intros team_id Hid'%ok_or_ok. apply effect_slift. intros team Hteam%ok_or_ok.
  apply effect_slift. intros _ [Hs Hc]%ensure_ok%bool_decide_eq_true.
  eapply effect_weaken; [|apply effect_cas]. intros id' t Hid (-> & -> & _).
  unfold get_task in Htask. rewrite Hid in Htask. injection Htask as <-.
  split_and!; [done..|]. by exists team_id, team.
Qed.

Lemma effect_cancel s now id c rev op :
  task_effect (entitled (O := O) s (OpCancelTask id c rev op)) s
    (cancel_supervisor_workflow_task sha256 to_vec s now run id c rev op).1.
Proof.
  unfold cancel_supervisor_workflow_task. apply effect_slift. intros task Htask%ok_or_ok.
  apply effect_slift. intros team_id Hid'%ok_or_ok. apply effect_slift. intros team Hteam%ok_or_ok.
  apply effect_slift. intros _ (_ & Hw & Hs & Hc)%ensure_ok%bool_decide_eq_true.
  eapply effect_weaken; [|apply effect_cas]. intros id' t Hid (-> & -> & _).
  unfold get_task in Htask. rewrite Hid in Htask. injection Htask as <-.
  split_and!; [done..|]. by exists team_id, team.
Qed.

Lemma effect_handoff s now id from to rev op :
  task_effect (entitled (O := O) s (OpHandoff id from to rev op)) s
    (handoff_task sha256 to_vec s now run id from to rev op).1.
Proof.
  unfold handoff_task. apply effect_slift. intros _ _. apply effect_slift. intros task Htask%ok_or_ok.
  apply effect_slift. intros _ _. apply effect_slift. intros source Hsrc.
  eapply effect_weaken; [|apply effect_cas]. intros id' t Hid (-> & -> & Hap).
  unfold get_task in Htask. rewrite Hid in Htask. injection Htask as <-.
  simpl in Hap. case_decide as Hc; [done|].
  assert (is_assigned_or_running (tr_state t) = true) as Hst
    by (destruct (is_assigned_or_running (tr_state t)); [done|exfalso; tauto]).
  assert (tr_owner_agent_id t = Some source) as Hown by (apply dec_stable; tauto).
  unfold handoff_source in Hsrc. destruct (tr_team_id t) as [team_id|] eqn:Ht.
  - rewrite rbind_ok in Hsrc. destruct Hsrc as (team & Hteam%ok_or_ok & H).
    rewrite rbind_ok in H. destruct H as (_ & [H1 H2]%ensure_ok%bool_decide_eq_true & H).
    assert (∀ a, a ∈ tm_members team → in_team s t a) as Hmem
      by (intros a Ha ? Eq; rewrite Ht in Eq; injection Eq as <-; by exists team).
    split_and!; [done..|by apply Hmem|by apply Hmem|].
    case_decide as Hs; [|left; by injection H as ->]. right. rewrite rbind_ok in H.
    destruct H as (_ & Hco%ensure_ok%bool_decide_eq_true & _). by exists team_id, team.
  - injection Hsrc as <-. assert (∀ a, in_team s t a) by (intros a ? Eq; congruence).
    split_and!; [done..|by left].
Qed.

(** *** Calls that leave the tasks alone *)

Ltac checked := repeat (apply effect_slift; intros ? _).

Lemma effect_prepare_team E s now child c : task_effect E s (prepare_collaboration_team s now run child c).1.
Proof.
  unfold prepare_collaboration_team. checked.
  destruct (bool_decide (team_get _ _ ≠ None) && _); [by apply effect_same|].
  destruct (rt_admit_state s now run usize_max []
    [(SyncCritical, "collaboration_team_prepared", batch_payload [expected_team run c]
       match agent_get (rt_agents s) (cc_coordinator_agent_id c) with
       | Some _ => [(cc_team_id c, cc_coordinator_agent_id c)] | None => [] end [])]) as [l Hl].
  destruct (rt_admit _ _ _ _ _ _) as [s' [rs|e]]; simpl in Hl; subst s'; apply effect_same; [|done]. cbn [sbind fst].
  by destruct (agent_get _ _).
Qed.

Lemma tasks_reserve s now parent role key op ceiling requested :
  rt_tasks (reserve_spawn_typed sha256 s now run parent role key op ceiling requested).1 = rt_tasks s.
Proof.
  unfold reserve_spawn_typed. destruct (child_for_key _ _).
  - rewrite sbind_keeps by done. unfold reattach_spawn.
    do 3 (apply (slift_state (λ x, rt_tasks x = rt_tasks s)); [done|intros ? _]).
    do 2 (case_decide; [done|]). done.
  - destruct (agent_get _ _); [|done]. by apply (slift_state (λ x, rt_tasks x = rt_tasks s)).
Qed.

Lemma tasks_commit s now re : rt_tasks (commit_spawn sha256 s now re).1 = rt_tasks s.
Proof.
  unfold commit_spawn. case_match; [done|]. destruct (child_for_key _ _).
  - do 2 (apply (slift_state (λ x, rt_tasks x = rt_tasks s)); [done|intros ? _]). by case_decide.
  - by do 3 (apply (slift_state (λ x, rt_tasks x = rt_tasks s)); [done|intros ? _]).
Qed.

Lemma tasks_cancel_spawn s now re reason : rt_tasks (cancel_spawn s now re reason).1 = rt_tasks s.
Proof.
  unfold cancel_spawn. apply (slift_state (λ x, rt_tasks x = rt_tasks s)); [done|intros a _]. case_decide; [done|].
  apply (slift_state (λ x, rt_tasks x = rt_tasks s)); [done|intros ? _]. simpl. by destruct (ar_team_id a).
Qed.

Lemma tasks_abort_spawn s now re reason : rt_tasks (abort_spawn s now re reason).1 = rt_tasks s.
Proof.
  unfold abort_spawn. destruct (re_reattached re); [by case_match|]. case_match; [apply tasks_cancel_spawn|].
  destruct (agent_get _ _) as [a|]; [simpl; by destruct (ar_team_id a)|by case_match].
Qed.

Lemma tasks_outcome s (o : O) now re res :
  rt_tasks (record_agent_outcome sha256 to_string from_str write_named read_named s o now re res).1.1 = rt_tasks s.
Proof.
  unfold record_agent_outcome. destruct (List.find _ _).
  { destruct (read_agent_outcome_record _ _ _ _ _ _) as [[? ?]|]; [by case_match|done]. }
  destruct (write_named _ _ _) as [o' [reference|e]]; [|done]. destruct (agent_get _ _); [|done]. by case_match.
Qed.

(** The calls of the runtime that admit tasks without the mutation line. *)
Definition admits (op : runtime_op O) : bool :=
  match op with OpAdmitTasks _ _ | OpCreateTask _ _ _ _ => true | _ => false end.

(** Any other call, in whatever state it is made. *)
Lemma call_effect s now op : admits op = false → task_effect (entitled s op) s (run_op now op s).1.
Proof.
  intros Had. destruct op; try discriminate Had; clear Had; cbn [CollaborationHistory.run_op done_as fst].
  - unfold create_collaboration_team. case_match; by apply effect_same.
  - unfold ensure_collaboration_team. checked. case_match; [case_match|]; by apply effect_same.
  - apply effect_prepare_team.
  - unfold prepare_collaboration_task_batch. checked. apply effect_batch.
  - unfold prepare_collaboration_membership. checked. case_match; [by apply effect_same|].
    apply (effect_batch _ s now run usize_max []).
  - unfold prepare_spawn_batch. apply effect_slift. intros [[teams ms] tasks] _.
    case_match; [by apply effect_same|apply effect_batch].
  - unfold join_team. checked. case_decide; by apply effect_same.
  - unfold set_team_fact. checked. by apply effect_same.
  - unfold register_team_artifact. checked. by apply effect_same.
  - by apply effect_same, (frame_send to_vec run rt_tasks).
  - by apply effect_same, (frame_send_with_id to_vec run rt_tasks).
  - by apply effect_same, (frame_broadcast to_vec run rt_tasks).
  - by apply effect_same, (frame_broadcast_with_id to_vec run rt_tasks).
  - by apply effect_same, (frame_acknowledge run rt_tasks).
  - by apply effect_same.
  - by apply effect_same.
  - apply effect_register.
  - apply effect_settle.
  - apply effect_skip_task.
  - apply effect_requeue.
  - apply effect_cancel.
  - apply effect_handoff.
  - apply effect_assign.
  - apply effect_mark_running.
  - by apply effect_same, tasks_reserve.
  - by apply effect_same, tasks_commit.
  - unfold set_agent_state. checked. case_decide; [by apply effect_same|]. checked. by apply effect_same.
  - by apply effect_same, tasks_cancel_spawn.
  - by apply effect_same, tasks_abort_spawn.
  - by apply effect_same, tasks_outcome.
  - unfold record_agent_handle. repeat case_match; by apply effect_same.
  - unfold commit_record. case_match. case_match; by apply effect_same.
Qed.

(** An admission on its own, after calls that did not overlap with it. *)
Lemma admission_effect s now op :
  run_inv run s → op_ok run s op → admits op = true → task_effect (entitled s op) s (run_op now op s).1.
Proof.
  intros Hi Hop Had. destruct op; try done; cbn [CollaborationHistory.run_op done_as fst op_ok] in *.
  - by apply effect_admit_tasks.
  - unfold create_collaboration_task. checked.
    rewrite sbind_keeps by done. apply effect_admit_tasks; [done|by constructor].
Qed.

(** *** Admissions in flight *)

(** What an admission has still to do at some point: other calls may have come
    between any two of its accesses, so that each is made in a state and at a
    time of its own. *)
Inductive in_flight (max : Z) (tasks : list TaskRecord) : AdmissionStage → Prop :=
  | flight_begins : in_flight max tasks (admission_begun tasks)
  | flight_goes s now a :
      in_flight max tasks a → in_flight max tasks (admission_step s now run max tasks a).2.

Lemma flight_run max tasks n s now a :
  in_flight max tasks a →
  in_flight max tasks (Nat.iter n (λ c, admission_step c.1 now run max tasks c.2) (s, a)).2.
Proof. intros Ha. induction n as [|n IH]; [done|]. rewrite Nat.iter_succ. by apply flight_goes. Qed.

(** It holds tasks it was asked for, as they were asked for. *)
Definition stage_ok (tasks : list TaskRecord) (a : AdmissionStage) : Prop :=
  match a with
  | AdProject rs => ∀ r, r ∈ rs → ∃ t, t ∈ tasks ∧ from_value (lr_payload r) = Some t
  | AdLook ts => ∀ t, t ∈ ts → t ∈ tasks
  | AdInsert t ts => t ∈ tasks ∧ ∀ t, t ∈ ts → t ∈ tasks
  | AdChecks _ | AdDone _ => True
  end.

Lemma admitted_asked s now max tasks s' rs :
  Forall task_record_ok tasks → rt_admit s now run max tasks [] = (s', Ok rs) → stage_ok tasks (AdProject rs).
Proof.
  rewrite Forall_forall. intros Hok. unfold rt_admit, admit_tasks_and_append.
  destruct (admit_inner_cases (rt_ledger s) now run run max tasks [] None)
    as [[e ->]|(existing & admitted & extra & l & rs' & _ & _ & Hv & Hx & Hmax & Hp & ->)]; [done|].
  intros [= _ <-]. injection Hx as <-. rewrite app_nil_r in Hp, Hmax.
  apply push_pending_shape in Hp as (_ & _ & _ & _ & Hf);
    [|by intros p (t & -> & _)%list_elem_of_fmap|done].
  intros r Hr. apply list_elem_of_lookup in Hr as [i Hi].
  eapply Forall2_lookup_r in Hf as (p & Hpi & _ & _ & Hpp & _); [|done].
  apply list_elem_of_lookup_2, list_elem_of_fmap in Hpi as (t & -> & Ht).
  destruct (validate_batch_ok _ _ _ _ Hv) as (_ & _ & Hin & _). exists t. split; [by apply Hin|].
  rewrite Hpp. apply from_to_value, Hok. by apply Hin.
Qed.

Lemma flight_ok max tasks a : Forall task_record_ok tasks → in_flight max tasks a → stage_ok tasks a.
Proof.
  intros Hok. induction 1 as [|s now a _ IH]; [done|].
  destruct a as [[|c cs]|[|r rs]|[|t ts]|t ts|r]; cbn [admission_step].
  - destruct (rt_admit s now run max tasks []) as [s' [rs|e]] eqn:E; [|done]. by eapply admitted_asked.
  - by destruct (run_check s run c).
  - by intros t Ht.
  - unfold project_admitted. destruct (ok_or _ _); [|done]. intros r' Hr'. apply IH. by right.
  - done.
  - destruct (get_task _ _); simpl; [intros t' Ht'; apply IH; by right|].
    split; [apply IH; by left|]. intros t' Ht'. apply IH. by right.
  - by destruct IH.
  - done.
Qed.

(** One access leaves a registered task, or puts back one that was asked for. *)
Lemma flight_effect max tasks a s now id t :
  stage_ok tasks a → rg_tasks (rt_tasks s) !! id = Some t →
  let s' := (admission_step s now run max tasks a).1 in
  rg_tasks (rt_tasks s') !! id = Some t ∨
  ∃ t', t' ∈ tasks ∧ tr_task_id t' = id ∧ rg_tasks (rt_tasks s') !! id = Some t'.
Proof.
  intros Hok Hid.
  assert (∀ t', t' ∈ tasks →
    rg_tasks (upsert (rt_tasks s) t') !! id = Some t ∨
    ∃ t'', t'' ∈ tasks ∧ tr_task_id t'' = id ∧ rg_tasks (upsert (rt_tasks s) t') !! id = Some t'') as Hup.
  { intros t' Ht'. simpl. destruct (decide (tr_task_id t' = id)) as [<-|E]; [right|left; by rewrite lookup_insert_ne].
    exists t'. by rewrite lookup_insert_eq. }
  destruct a as [[|c cs]|[|r rs]|[|t0 ts]|t0 ts|r]; cbn [admission_step].
  - left. destruct (rt_admit_state s now run max tasks []) as [l Hl].
    destruct (rt_admit s now run max tasks []) as [s' [rs|e]]; simpl in *; by subst s'.
  - left. by destruct (run_check s run c).
  - by left.
  - unfold project_admitted. destruct (Hok r) as (t' & Ht' & E); [by left|]. rewrite E. by apply Hup.
  - by left.
  - left. by destruct (get_task _ _).
  - apply Hup. by destruct Hok.
  - by left.
Qed.

(** *** The task of a Workflow node *)

(** The controller changes the task of its node, which is a Workflow task, at
    the revision it read and by an allowed move. *)
Definition node_move (id : TaskId) (u : WorkflowTaskUpdate) (id' : TaskId) (t : TaskRecord) : Prop :=
  id' = id ∧ tr_workflow_id t ≠ None ∧ workflow_transition_allowed (tr_state t) (tu_state u) = true.

Lemma node_effect {W} (env : Env W) g node_run node u c :
  registry_effect (node_move (workflow_task_id node_run node) u) (ct_tasks c)
    (ct_tasks (update_workflow_task env g node_run node u c).1).
Proof.
  unfold update_workflow_task, cbind, gets. cbn [fst snd].
  destruct (get_task (ct_tasks c) (workflow_task_id node_run node)) as [task|]; [|by left].
  unfold some_or, of_result. cbn [sbind ok_or]. set (m := WorkflowState _ _ _ _).
  pose proof (effect_cas_durable (persist_workflow_cas env g node_run (workflow_task_id node_run node)
    (tu_operation_id u) m task) (ct_ledger c, ct_ticks c) (ct_tasks c) (workflow_task_id node_run node)
    (tr_revision task) (tu_operation_id u) (mutation_digest (ev_sha256 env) (ev_to_vec env) m) m) as H.
  destruct (cas_durable _ _ _ _ _ _ _) as [[[l n] ts] r]. cbn [fst snd] in *.
  intros id t Hid. destruct (H id t Hid) as [?|[(-> & _ & Hap) ?]]; [by left|right]. split; [|done].
  simpl in Hap. case_decide as Hw; [done|]. split_and!; [done|done|].
  by destruct (workflow_transition_allowed _ _).
Qed.


(** ** Agents *)

(** The moves of an Agent each operation may make. *)
Definition lifecycle (op : runtime_op O) (st st' : AgentLifecycleState) : Prop :=
  match op with
  | OpCommit _ => st = AgReserved ∧ st' = AgActive
  | OpReserve _ _ _ _ _ _ => st = AgFailed ∧ st' = AgActive
  | OpSetState _ state => agent_state_is_terminal st = false ∧ st' = state
  | OpCancelSpawn _ _ | OpAbortSpawn _ _ => agent_state_is_terminal st = false ∧ st' = AgCancelled
  | OpOutcome _ _ res => agent_state_is_terminal st = false ∧ st' = outcome_agent_state res
  | _ => False
  end.

Definition same_agent (r r' : AgentRecord) : Prop :=
  ar_run_id r' = ar_run_id r ∧ ar_agent_id r' = ar_agent_id r ∧
  ar_parent_agent_id r' = ar_parent_agent_id r.

(** The Agent of an aborted reservation that was never committed is removed. *)
Definition removed (op : runtime_op O) (s : Runtime) (a : AgentId) : Prop :=
  match op with
  | OpAbortSpawn re _ => a = re_child_agent_id re ∧ re_reattached re = false ∧
      child_for_key (rt_relationships s) (re_key re) = None
  | _ => False
  end.

Definition agent_effect (op : runtime_op O) (s s' : Runtime) : Prop :=
  ∀ a r, rt_agents s !! a = Some r →
    match rt_agents s' !! a with
    | Some r' => same_agent r r' ∧ (ar_state r' = ar_state r ∨ lifecycle op (ar_state r) (ar_state r'))
    | None => removed op s a
    end.

Lemma agents_same op s s' : rt_agents s' = rt_agents s → agent_effect op s s'.
Proof. intros E a r H. rewrite E, H. by split; [|left]. Qed.

Lemma agents_slift {A B} op s (r : result A RuntimeError) (k : A → outcome B) :
  (∀ a, r = Ok a → agent_effect op s (k a).1) → agent_effect op s (slift s r k).1.
Proof. intros H. apply slift_state; [by apply agents_same|done]. Qed.

(** Agents that change their Team and nothing else. *)
Definition reteamed (m m' : AgentRegistry) : Prop :=
  ∀ a r, m !! a = Some r → ∃ r', m' !! a = Some r' ∧ same_agent r r' ∧ ar_state r' = ar_state r.

#[local] Instance reteamed_preorder : PreOrder reteamed.
Proof.
  split; [by intros m a r H; exists r|]. intros m1 m2 m3 H1 H2 a r H.
  destruct (H1 a r H) as (r1 & Hr1 & (E1 & E2 & E3) & E4). destruct (H2 a r1 Hr1) as (r2 & Hr2 & (F1 & F2 & F3) & F4).
  exists r2. split; [done|]. split; [split_and!|]; congruence.
Qed.

Lemma reteamed_set_team m a t : reteamed m (agent_set_team m a t).1.
Proof.
  intros x r H. unfold agent_set_team. destruct (m !! a) as [r0|] eqn:E; simpl; [|by exists r].
  unfold AgentRegistry. rewrite lookup_insert. case_decide; [|by exists r]. simplify_eq. by eexists.
Qed.

Lemma reteamed_joins ms s : reteamed (rt_agents s) (rt_agents (fold_left join_member ms s)).
Proof.
  revert s. induction ms as [|m ms IH]; intros s; cbn [fold_left]; [done|].
  etrans; [apply (reteamed_set_team _ m.2 (Some m.1))|apply (IH (join_member s m))].
Qed.

Lemma agents_reteamed op s s' : reteamed (rt_agents s) (rt_agents s') → agent_effect op s s'.
Proof. intros H a r Ha. destruct (H a r Ha) as (r' & -> & ? & ?). by split; [|left]. Qed.

Lemma reteamed_plan teams ms s :
  reteamed (rt_agents s) (rt_agents (fold_left join_member ms (fold_left create_missing teams s))).
Proof.
  assert (rt_agents (fold_left create_missing teams s) = rt_agents s) as <-; [|apply reteamed_joins].
  revert s. induction teams as [|t l IH]; intros s; [done|]. apply (IH (create_missing s t)).
Qed.

Lemma upsert_missings_agents l s : rt_agents (fold_left upsert_missing l s) = rt_agents s.
Proof.
  revert s. induction l as [|t l IH]; intros s; [done|]. cbn [fold_left]. rewrite IH.
  unfold upsert_missing. by destruct (get_task _ _).
Qed.

Lemma agents_batch {A} op s now max tasks tasks' additional teams ms (a : A) :
  agent_effect op s (sbind (rt_admit s now run max tasks additional)
                       (λ s _, (commit_batch s teams ms tasks', Ok a))).1.
Proof.
  destruct (rt_admit_state s now run max tasks additional) as [l Hl].
  destruct (rt_admit s now run max tasks additional) as [s' [rs|e]]; simpl in *; subst s';
    [|by apply agents_same]. apply agents_reteamed. unfold commit_batch. rewrite upsert_missings_agents.
  apply (reteamed_plan teams ms (set_ledger s l)).
Qed.

(** A move of one Agent, after which its Team may differ. *)
Lemma agents_state op s s' m a r st :
  rt_agents s !! a = Some r → reteamed (rt_agents s) m → rt_agents s' = (agent_set_state m a st).1 →
  (ar_state r = st ∨ lifecycle op (ar_state r) st) → agent_effect op s s'.
Proof.
  intros Ha Hm E Hl x r' Hx. rewrite E. destruct (Hm x r' Hx) as (r1 & Hr1 & (E1 & E2 & E3) & E4).
  destruct (Hm a r Ha) as (r2 & Hr2 & _ & E5). unfold agent_set_state. rewrite Hr2. simpl. unfold AgentRegistry in *.
  rewrite lookup_insert. case_decide as Hd.
  - subst x. assert (r1 = r2) as -> by congruence. assert (r' = r) as -> by congruence. split; [by split_and!|].
    simpl. destruct Hl; [left; done|by right].
  - rewrite Hr1. split; [by split_and!|by left].
Qed.

Ltac agents := repeat (apply agents_slift; intros ? _).

Lemma agents_prepare_team op s now child c : agent_effect op s (prepare_collaboration_team s now run child c).1.
Proof.
  unfold prepare_collaboration_team. agents.
  destruct (bool_decide (team_get _ _ ≠ None) && _); [by apply agents_same|].
  destruct (rt_admit_state s now run usize_max []
    [(SyncCritical, "collaboration_team_prepared", batch_payload [expected_team run c]
       match agent_get (rt_agents s) (cc_coordinator_agent_id c) with
       | Some _ => [(cc_team_id c, cc_coordinator_agent_id c)] | None => [] end [])]) as [l Hl].
  destruct (rt_admit _ _ _ _ _ _) as [s' [rs|e]]; simpl in Hl; subst s'; [|by apply agents_same].
  apply agents_reteamed. cbn [sbind fst]. apply (reteamed_plan [expected_team run c] _ (set_ledger s l)).
Qed.

Lemma agents_reserve s now parent role key op ceiling requested :
  agent_effect (OpReserve parent role key op ceiling requested) s
    (reserve_spawn_typed sha256 s now run parent role key op ceiling requested).1.
Proof.
  unfold reserve_spawn_typed. destruct (child_for_key _ _) as [child|].
  - rewrite sbind_keeps by done. unfold reattach_spawn. apply agents_slift. intros r Hr%ok_or_ok. agents.
    case_decide; [by apply agents_same|]. case_decide as Hf; [by apply agents_same|].
    eapply (agents_state _ s _ (rt_agents s) child r AgActive); [done|done|done|]. by right.
  - destruct (agent_get _ _) as [r|] eqn:Hg; [agents; by apply agents_same|].
    intros a r Ha. simpl. unfold agent_upsert, agent_get, AgentRegistry in *. simpl.
    rewrite lookup_insert_ne by congruence. rewrite Ha. by split; [|left].
Qed.

Lemma agents_commit s now re : agent_effect (OpCommit re) s (commit_spawn sha256 s now re).1.
Proof.
  unfold commit_spawn. case_match; [by apply agents_same|]. destruct (child_for_key _ _).
  { agents. case_decide; by apply agents_same. }
  apply agents_slift. intros r Hr%ok_or_ok. apply agents_slift. intros _ Hst%ensure_ok%bool_decide_eq_true. agents.
  eapply (agents_state _ s _ (rt_agents s) (re_child_agent_id re) r AgActive); [done|done|done|]. by right.
Qed.

Lemma agents_set_state s now agent st :
  agent_effect (OpSetState agent st) s (set_agent_state s now run agent st).1.
Proof.
  unfold set_agent_state. apply agents_slift. intros r Hr%ok_or_ok. apply agents_slift. intros _ _.
  case_decide; [by apply agents_same|]. apply agents_slift. intros _ Ht%ensure_ok%negb_true_iff.
  eapply (agents_state _ s _ (rt_agents s) agent r st); [done|done|done|]. by right.
Qed.

Lemma agents_cancel op s now re reason :
  (∀ st, agent_state_is_terminal st = false → lifecycle op st AgCancelled) →
  agent_effect op s (cancel_spawn s now re reason).1.
Proof.
  intros Hop. unfold cancel_spawn. apply agents_slift. intros r Hr%ok_or_ok.
  case_decide as Hc; [by apply agents_same|]. apply agents_slift. intros _ Ht%ensure_ok%bool_decide_eq_true.
  eapply (agents_state _ s _ (match ar_team_id r with
    | Some _ => (agent_set_team (rt_agents s) (re_child_agent_id re) None).1 | None => rt_agents s end)
    (re_child_agent_id re) r AgCancelled); [done| | |].
  - destruct (ar_team_id r); [apply reteamed_set_team|done].
  - simpl. by destruct (ar_team_id r).
  - right. apply Hop. destruct (ar_state r); simpl; try done; destruct Ht; done.
Qed.

Lemma agents_abort s now re reason : agent_effect (OpAbortSpawn re reason) s (abort_spawn s now re reason).1.
Proof.
  unfold abort_spawn. destruct (re_reattached re) eqn:Hre; [case_match; by apply agents_same|].
  case_bool_decide as Hk; [by apply agents_cancel|].
  destruct (agent_get _ _) as [r|] eqn:Hg; [|case_match; by apply agents_same].
  intros a r' Ha.
  assert (∀ x, rt_agents (leave_team x (ar_team_id r) (re_child_agent_id re)) = rt_agents x) as Hl
    by by intros x; destruct (ar_team_id r).
  cbn [sbind rt_append append decide fst]. simpl. rewrite Hl. simpl. unfold AgentRegistry in *.
  rewrite lookup_delete. case_decide as Hd; [by subst a|]. rewrite Ha. by split; [|left].
Qed.

Lemma agents_outcome s (o : O) now re res :
  agent_effect (OpOutcome o re res) s
    (record_agent_outcome sha256 to_string from_str write_named read_named s o now re res).1.1.
Proof.
  unfold record_agent_outcome. destruct (List.find _ _).
  { destruct (read_agent_outcome_record _ _ _ _ _ _) as [[? ?]|]; [case_match|]; by apply agents_same. }
  destruct (write_named _ _ _) as [o' [reference|e]]; [|by apply agents_same].
  destruct (agent_get _ _) as [r|] eqn:Hr; [|by apply agents_same]. case_match eqn:Ht; [by apply agents_same|].
  eapply (agents_state _ s _ (rt_agents s) (re_child_agent_id re) r (outcome_agent_state res)); [done|done|done|].
  simpl. rewrite andb_false_iff, bool_decide_eq_false in Ht. destruct Ht as [Ht|Ht]; [by right|left].
  by apply dec_stable.
Qed.

Lemma agents_admit op s now max tasks : agent_effect op s (admit_runtime_tasks s now run max tasks).1.
Proof.
  rewrite admission_alone. agents. destruct (rt_admit_state s now run max tasks []) as [l Hl].
  destruct (rt_admit s now run max tasks []) as [s' [rs|e]]; simpl in Hl; subst s'; [|by apply agents_same].
  cbn [sbind]. apply agents_same.
  assert (∀ x, rt_agents (project_all x rs).1 = rt_agents x) as Hp.
  { induction rs as [|r rs IH]; intros x; [done|]. cbn [project_all]. unfold project_admitted.
    destruct (ok_or _ _); [|done]. cbn [slift sbind]. by rewrite IH. }
  specialize (Hp (set_ledger s l)). destruct (project_all _ _) as [s' [[]|e]]; [|done].
  cbn [sbind fst] in *. by rewrite upsert_missings_agents.
Qed.

Lemma agents_cas o s now r id expected op m :
  agent_effect o s (cas_revision sha256 to_vec s now r id expected op m).1.
Proof.
  apply agents_same. unfold cas_revision. rewrite sbind_keeps by done. unfold apply_task_cas.
  apply (slift_state (λ x, rt_agents x = rt_agents s)); [done|]. intros ? _.
  by destruct (cas_durable _ _ _ _ _ _ _) as [[l ts] [next|e]].
Qed.

End safety.
