(* ===== verification/CollaborationExamples.v ===== *)
(** * Concrete collaboration histories

    A Run with one Supervisor Team, a child Agent and a workflow task: the
    histories on which the theorems about the collaboration runtime are
    evaluated, two that a recovery does not bring back, and two admissions that
    overlap. *)
From S2P Require Import ResourceTypes Prelude Json Types TaskRegistry RuntimeLedger LedgerFacts LedgerAdmission WorkflowTypes Identity Registries LedgerInterface MessageBus BusFacts CollaborationTypes CollaborationRuntime CollaborationTasks CollaborationSpawn CollaborationRestore CollaborationHistory CollaborationRecovery CollaborationErrors CollaborationSafety.

(** ** The Run *)

Definition sample_root : AgentRecord :=
  {| ar_run_id := "run"; ar_agent_id := "root"; ar_team_id := None; ar_parent_agent_id := None;
     ar_state := AgActive |}.
Definition sample_runtime : Runtime :=
  set_agents (runtime_with_ledger ledger_default) {["root" := sample_root]}.
Definition sample_context : AgentCollaborationContext :=
  {| cc_team_id := "team"; cc_strategy := Supervisor; cc_coordinator_agent_id := "root";
     cc_max_pending_messages := 8; cc_max_message_bytes := 1000 |}.
Definition sample_to_vec (v : Value) : string := "{}".
Definition sample_reserve (s : Runtime) :=
  reserve_spawn_typed sample_sha256 s 1 "run" "root" "worker" "t1" "op-1" ceiling_unrestricted
    ceiling_unrestricted.
Definition sample_reservation : AgentSpawnReservation :=
  match (sample_reserve sample_runtime).2 with
  | Ok re => re
  | Err _ => {| re_key := sample_key ""; re_child_agent_id := ""; re_permission_ceiling := ceiling_plan;
                re_reattached := false |}
  end.
Definition sample_child : AgentId := re_child_agent_id sample_reservation.
Definition sample_handle : AgentHandle :=
  {| ah_run_id := "run"; ah_agent_id := sample_child; ah_task_id := "t1"; ah_role_key := "worker";
     ah_stable_task_key := "t1"; ah_spec_run_id := "run"; ah_collaboration := Some sample_context;
     ah_workflow := Some "wf" |}.

Abbreviation sample_op := (run_op sample_sha256 sample_to_vec sample_to_vec (λ _, None)
  (λ (o : unit) _ _, (o, Err "")) (λ _ _ _, Err "") "run").
Abbreviation sample_step := (run_step sample_sha256 sample_to_vec sample_to_vec (λ _, None)
  (λ (o : unit) _ _, (o, Err "")) (λ _ _ _, Err "") "run").

Lemma sample_sha256_not_empty x : sample_sha256 x ≠ [].
Proof.
  unfold sample_sha256. destruct (Byte.of_N _) eqn:E; [done|]. apply Byte.of_N_None_iff in E.
  pose proof (N.mod_lt (N.of_nat (String.length x)) 256). lia.
Qed.

Lemma sample_initial : run_initial "run" sample_runtime.
Proof.
  split_and!; try reflexivity; [apply ledger_inv_default|]. intros other r t H.
  by apply elem_of_nil in H.
Qed.

(** The calls of a history, and what they leave. *)
Definition sample_calls : list (runtime_op unit) :=
  [OpReserve "root" "worker" "t1" "op-1" ceiling_unrestricted ceiling_unrestricted;
   OpCommit sample_reservation; OpPrepareSpawn [(sample_handle, true)] 10;
   OpMarkRunning "t1" sample_child 0 "op-run"; OpSetFact "team" "root" "plan" (VString "ready");
   OpSettle "t1" sample_child 1 "op-done" Completed (Some "ref") None;
   OpSetState sample_child AgCompleted].
Definition sample_state (n : nat) : Runtime :=
  fold_left (λ s op, (sample_op 1 op s).1) (take n sample_calls) sample_runtime.

Lemma sample_call n op :
  sample_calls !! n = Some op → op_ok "run" (sample_state n) op → keeps_teams (sample_state n) op →
  bool_decide (ls_next_sequence (rt_ledger (sample_state n)) < u64_max)%Z = true →
  sample_step (sample_state n) (sample_state (S n)).
Proof.
  intros Hn Hop Hk Hs%bool_decide_eq_true. exists 1%Z, op. split_and!; [done..|]. unfold sample_state.
  rewrite (take_S_r _ _ _ Hn), fold_left_app. done.
Qed.

(** The root and the child have no Team when the child is placed. *)
Lemma sample_placed : keeps_teams (sample_state 2) (OpPrepareSpawn (O := unit) [(sample_handle, true)] 10).
Proof.
  assert (∀ m, m ∈ [("team", "root"); ("team", sample_child)] →
    m.1 = "team" ∧ (ar_team_id <$> rt_agents (sample_state 2) !! m.2) = Some None) as H.
  { intros m [->|[->|[]%elem_of_nil]%elem_of_cons]%elem_of_cons; (split; [done|]); vm_compute; reflexivity. }
  split.
  - intros m r t Hm Hr Ht. destruct (H m Hm) as [_ Hn]. rewrite Hr in Hn. injection Hn as Hn. congruence.
  - intros m m' Hm Hm' _. destruct (H m Hm) as [-> _]. by destruct (H m' Hm') as [-> _].
Qed.

Lemma sample_history_3 : rtc sample_step sample_runtime (sample_state 3).
Proof.
  change sample_runtime with (sample_state 0).
  eapply rtc_l; [eapply sample_call; [reflexivity|exact I|exact I|vm_compute; reflexivity]|].
  eapply rtc_l; [eapply sample_call; [reflexivity|reflexivity|exact I|vm_compute; reflexivity]|].
  eapply rtc_l; [eapply sample_call; [reflexivity| |exact sample_placed|vm_compute; reflexivity]|apply rtc_refl].
  constructor; [|constructor]. by intros c [= <-].
Qed.

Lemma sample_history : rtc sample_step sample_runtime (sample_state 7).
Proof.
  etrans; [exact sample_history_3|].
  eapply rtc_l; [eapply sample_call; [reflexivity|reflexivity|exact I|vm_compute; reflexivity]|].
  eapply rtc_l; [eapply sample_call; [reflexivity|exact I|exact I|vm_compute; reflexivity]|].
  eapply rtc_l; [eapply sample_call; [reflexivity|reflexivity|exact I|vm_compute; reflexivity]|].
  eapply rtc_l; [eapply sample_call; [reflexivity|exact I|exact I|vm_compute; reflexivity]|].
  apply rtc_refl.
Qed.

Definition sample_fresh (s : Runtime) : Runtime := set_ledger sample_runtime (rt_ledger s).

Lemma runtime_recovery_witness :
  restore_projection sample_sha256 sample_to_vec (sample_fresh (sample_state 7)) "run" =
  (sample_state 7, Ok tt).
Proof.
  apply (runtime_recovery sample_sha256 sample_to_vec sample_to_vec (λ _, None)
           (λ (o : unit) _ _, (o, Err "")) (λ _ _ _, Err "") "run" sample_sha256_not_empty);
    [exact sample_initial|exact sample_history].
Defined.

Lemma team_tasks_in_order_witness :
  ∃ r, rt_agents (sample_state 7) !! sample_child = Some r ∧ ar_team_id r = Some "team" ∧ ar_run_id r = "run".
Proof.
  destruct (team_tasks_in_order sample_sha256 sample_to_vec sample_to_vec (λ _, None)
              (λ (o : unit) _ _, (o, Err "")) (λ _ _ _, Err "") "run" sample_sha256_not_empty
              sample_runtime (sample_state 7) sample_initial sample_history) as [_ H].
  apply (H "team" (default (expected_team "" sample_context) (team_get (rt_teams (sample_state 7)) "team")));
    [vm_compute; reflexivity|]. apply (bool_decide_unpack _). vm_compute. exact I.
Defined.

(** A call refused by the runtime: the coordinator is no owner of the task. *)
Definition sample_refused : runtime_op unit := OpSettle "t1" "root" 2 "op-x" Failed None None.

Lemma runtime_errors_atomic_witness :
  undisturbed (sample_state 7) (sample_op 9 sample_refused (sample_state 7)).1.
Proof.
  apply (runtime_errors_atomic sample_sha256 sample_to_vec sample_to_vec (λ _, None)
           (λ (o : unit) _ _, (o, Err "")) (λ _ _ _, Err "") "run" sample_runtime (sample_state 7) 9 sample_refused
           sample_sha256_not_empty sample_initial sample_history); [reflexivity|vm_compute; reflexivity].
Defined.

(** Two admissions of one task that overlap.  The first has the record in the
    ledger; the second finds it there, and no task in the registry; the first
    registers the task, which the root is then assigned to; the second puts the
    task back without its owner. *)
Definition shared_task : TaskRecord := sample_admitted "shared".
Definition admission_moves (n : nat) (c : Runtime * AdmissionStage) : Runtime * AdmissionStage :=
  Nat.iter n (λ c, admission_step c.1 1 "run" 10 [shared_task] c.2) c.
Definition first_recorded : Runtime * AdmissionStage :=
  admission_moves 3 (sample_runtime, admission_begun [shared_task]).
Definition second_looked : Runtime * AdmissionStage :=
  admission_moves 5 (first_recorded.1, admission_begun [shared_task]).
Definition first_done : Runtime * AdmissionStage :=
  admission_moves 4 (second_looked.1, first_recorded.2).
Definition shared_assigned : Runtime * bool :=
  sample_op 2 (OpAssign "shared" "root" 0 "op-assign") first_done.1.
Definition second_written : Runtime * AdmissionStage := admission_moves 1 (shared_assigned.1, second_looked.2).

Definition shared_owner (s : Runtime) : option (Z * option AgentId) :=
  (λ t, (tr_revision t, tr_owner_agent_id t)) <$> get_task (rt_tasks s) "shared".

(** The change that was made is lost in the running registry, and a recovery
    brings it back. *)
Example overlapping_admissions_lose_assignment :
  shared_owner shared_assigned.1 = Some (1, Some "root")%Z ∧
  shared_owner second_written.1 = Some (0, None)%Z ∧
  shared_owner (restore_projection sample_sha256 sample_to_vec (sample_fresh second_written.1) "run").1 =
    Some (1, Some "root")%Z.
Proof. vm_compute. by split_and!. Qed.


(** An outcome whose text repeats a member of its output, and a store that keeps
    the last text. *)
Definition sample_result : SubAgentResult :=
  {| sr_name := "worker"; sr_agent_id := Some sample_child; sr_task_id := Some "t1";
     sr_status := OutCompleted; sr_failure_class := None;
     sr_output := Some (VObject [("text", VString "done")]); sr_text := "done";
     sr_usage := token_usage_default; sr_turns := 1; sr_is_error := false |}.
Definition sample_write (o : string) (run : RunId) (text : string) : string * result string string :=
  (text, Ok "last").
Definition sample_read (o : string) (run : RunId) (reference : string) : result string string := Ok o.
Definition sample_parse (text : string) : option Value := Some (to_value (outcome_body sample_result)).
Definition sample_recorded : Runtime * string * result unit RuntimeError :=
  record_agent_outcome sample_sha256 sample_to_vec sample_parse sample_write sample_read (sample_state 2)
    "" 5 sample_reservation sample_result.

Lemma outcome_roundtrip_witness :
  agent_outcome sample_sha256 sample_parse sample_read sample_recorded.1.1 sample_recorded.1.2
    sample_reservation = Ok (Some sample_result).
Proof.
  apply (outcome_roundtrip sample_sha256 sample_to_vec sample_parse sample_write sample_read
           (λ o r t o' ref H, f_equal (λ p, Ok (fst p)) (eq_sym H))
           (sample_state 2) "" 5 sample_reservation sample_result).
  - vm_compute. reflexivity.
  - split; [split; [split; [apply NoDup_singleton|done]|done]|]. split; [|done]. repeat split; done.
  - split; [reflexivity|]. split; done.
  - vm_compute. reflexivity.
Defined.

(** The history ends with the task completed at its second revision and the
    child completed. *)
Example sample_outcome :
  (tr_state <$> get_task (rt_tasks (sample_state 7)) "t1") = Some Completed ∧
  (tr_revision <$> get_task (rt_tasks (sample_state 7)) "t1") = Some 2%Z ∧
  (ar_state <$> agent_get (rt_agents (sample_state 7)) sample_child) = Some AgCompleted.
Proof. vm_compute. by split_and!. Qed.

(** ** Histories a recovery does not bring back *)

(** The child is committed and has the task of a Team; its spawn is cancelled,
    which takes it out of the Team; then the coordinator cancels the task. *)
Definition cancelled_spawn : Runtime :=
  (cancel_spawn (sample_state 3) 4 sample_reservation "stop").1.
Definition cancelled_task : Runtime * result Z RuntimeError :=
  cancel_supervisor_workflow_task sample_sha256 sample_to_vec cancelled_spawn 5 "run" "t1" "root" 0
    "op-cancel".

(** When the spawn of a child is cancelled while it owns a Team task, and
    the Supervisor then cancels the task, both calls succeed and the change is
    in the ledger, but this Run is not recovered any more: the change of the task
    has an owner that has left the Team, and [restore_projection] stops there.
    Before the last call the Run could be restored. *)
Example cancelled_owner_blocks_recovery :
  restore_projection sample_sha256 sample_to_vec (sample_fresh cancelled_spawn) "run" =
    (cancelled_spawn, Ok tt) ∧
  cancelled_task.2 = Ok 1%Z ∧
  (restore_projection sample_sha256 sample_to_vec (sample_fresh cancelled_task.1) "run").2 =
    Err (RtOther "restored Team task owner does not belong to the task Team/Run").
Proof. split_and!; vm_compute; reflexivity. Qed.

(** A child that is reserved gets its task and its place in the Team; the spawn
    is aborted, which takes both the Agent and its membership away; the same
    child is reserved again and the same batch prepared again. *)
Definition first_batch : Runtime :=
  (prepare_spawn_batch (sample_state 1) 3 "run" [(sample_handle, true)] 10).1.
Definition aborted_spawn : Runtime := (abort_spawn first_batch 4 sample_reservation "retry").1.
Definition second_batch : Runtime * result unit RuntimeError :=
  prepare_spawn_batch (sample_reserve aborted_spawn).1 5 "run" [(sample_handle, true)] 10.
Definition restored_batch : Runtime * result unit RuntimeError :=
  restore_projection sample_sha256 sample_to_vec (sample_fresh second_batch.1) "run".
Definition started_task : Runtime * result Z RuntimeError :=
  mark_task_running sample_sha256 sample_to_vec second_batch.1 6 "run" "t1" sample_child 0 "op-run".

(** A batch prepared again after its spawn was aborted joins the child to
    the Team, but its marker equals the one in the ledger and is not written
    again: the running Team has the child as a member, the restored Team does
    not, and once the child starts its task the Run cannot be restored. *)
Example repeated_batch_not_restored :
  second_batch.2 = Ok tt ∧
  has_member (team_get (rt_teams second_batch.1) "team") sample_child = true ∧
  restored_batch.2 = Ok tt ∧
  has_member (team_get (rt_teams restored_batch.1) "team") sample_child = false ∧
  started_task.2 = Ok 1%Z ∧
  (restore_projection sample_sha256 sample_to_vec (sample_fresh started_task.1) "run").2 =
    Err (RtOther "restored Team task owner does not belong to the task Team/Run").
Proof. split_and!; vm_compute; reflexivity. Qed.
