(* ===== verification/WorkflowExecution.v ===== *)
(** * The Workflow controller: settling, cancelling and running a Run

    crates/solaris-agent/src/workflow_controller/node_state.rs ([settle] and the
    terminal changes of tasks that were left for later) and
    workflow_controller.rs ([cancel], [execute_until_settled] and
    [execute_context]).

    The executor of a node is code outside of the controller that runs for a
    while, during which other callers use the controller.  It is a parameter
    ([Executor]) that says, for the state in which a node is executed, how it
    changes the collaboration runtime and the files, which changes of Runs
    others make in the meantime, whether the time limit of the node runs out,
    and what it returns.  The nodes of a round are executed one after the other;
    what the others do meanwhile is among those changes. *)
From S2P Require Import ResourceTypes Prelude Json Types TaskRegistry RuntimeLedger WorkflowTypes Identity Registries LedgerInterface MessageBus CollaborationTypes CollaborationRuntime CollaborationTasks CollaborationRestore WorkflowRuns WorkflowInputs WorkflowController WorkflowRegistration WorkflowCompletion WorkflowNodes.

Section settle.
Context {O : Type} (E : Env O).

(** ** Terminal changes that were left for later *)

Definition validate_deferred_terminal_task (t : TaskRecord) (d : DeferredTaskTerminalWrite) :
    result unit string :=
  ensure (negb (bool_decide (tr_state t ≠ dt_state d) ||
                bool_decide (tr_outcome_ref t ≠ dt_outcome_ref d) ||
                bool_decide (tr_failure_class t ≠ Some (dt_failure_class d)) ||
                (dt_clear_owner d && bool_decide (is_Some (tr_owner_agent_id t)))))
    ("durable task operation " +:+ dt_operation_id d +:+
     " does not match the deferred terminal mutation").

Definition terminal_reconciled_payload (node_id : string) (attempt_id : AttemptId)
    (d : DeferredTaskTerminalWrite) (new_revision : Z) : Value :=
  VObject [("node_id", VString node_id); ("attempt_id", VString attempt_id);
           ("operation_id", VString (dt_operation_id d));
           ("new_revision", uint_to_value new_revision)].

(** One record of the search for the marker. *)
Definition check_marker (node_id : string) (attempt_id : AttemptId) (d : DeferredTaskTerminalWrite)
    (expected : Value) (found : bool) (r : LedgerRecord) : result bool string :=
  if decide (lr_record_type r ≠ "workflow_task_terminal_reconciled") then Ok found
  else
    let same_operation := str_member "operation_id" (dt_operation_id d) (lr_payload r) in
    let same_attempt := str_member "node_id" node_id (lr_payload r) &&
                        str_member "attempt_id" attempt_id (lr_payload r) in
    if negb same_operation && negb same_attempt then Ok found
    else
      ensure (same_operation && same_attempt && value_eqb (lr_payload r) expected)
        ("Workflow task terminal marker for node " +:+ node_id +:+
         " conflicts with deferred operation") ;;?
      Ok true.

Definition terminal_reconciled_marker_exists (run_id : RunId) (node_id : string)
    (attempt_id : AttemptId) (d : DeferredTaskTerminalWrite) (expected : Value) : M O bool :=
  let! records := gets (λ c, run_records (ct_ledger c) run_id) in
  of_result (fold_result (check_marker node_id attempt_id d expected) false records).

Definition error_text (e : CtError) : string := match e with CtMessage m => m | _ => "" end.

Definition append_terminal_reconciled_marker (g : WorkflowMutationGuard) (run_id : RunId)
    (node_id : string) (attempt_id : AttemptId) (d : DeferredTaskTerminalWrite) (new_revision : Z) :
    M O unit :=
  let payload := terminal_reconciled_payload node_id attempt_id d new_revision in
  let exists_marker := terminal_reconciled_marker_exists run_id node_id attempt_id d payload in
  let! found := exists_marker in
  if (found : bool) then cret tt
  else
    let! r := attempt (append_record E g run_id "workflow_task_terminal_reconciled" payload) in
    match r with
    | Ok _ => cret tt
    | Err append_error =>
        let! r := attempt exists_marker in
        match r with
        | Ok true => cret tt
        | Ok false => cfail append_error
        | Err lookup_error =>
            cfail (CtMessage ("terminal reconciliation marker append failed: " +:+
                              error_text append_error +:+ "; durable replay failed: " +:+
                              error_text lookup_error))
        end
    end.

(** The revision at which the terminal change is or becomes durable. *)
Definition recover_terminal (g : WorkflowMutationGuard) (run_id : RunId) (node_id : string)
    (d : DeferredTaskTerminalWrite) : M O Z :=
  let task_id := workflow_task_id run_id node_id in
  let! r := attempt (restore_durable_task_operation E task_id (dt_operation_id d)) in
  match r with
  | Err e => cfail (CtMessage ("deferred Workflow task " +:+ task_id +:+ " recovery failed: " +:+
                               error_text e))
  | Ok (found, existing) =>
      require found ("deferred Workflow task " +:+ task_id +:+ " has no durable CAS history") ;;!
      match existing with
      | Some task => of_result (validate_deferred_terminal_task task d) ;;! cret (tr_revision task)
      | None =>
          let! r := attempt (update_workflow_task E g run_id node_id
            {| tu_state := dt_state d; tu_clear_owner := dt_clear_owner d;
               tu_outcome_ref := dt_outcome_ref d; tu_failure_class := Some (dt_failure_class d);
               tu_operation_id := dt_operation_id d |}) in
          match r with
          | Ok revision => cret revision
          | Err append_error =>
              let! r := attempt (restore_durable_task_operation E task_id (dt_operation_id d)) in
              match r with
              | Err lookup_error =>
                  cfail (CtMessage ("deferred Workflow task " +:+ task_id +:+
                           " terminal CAS failed: " +:+ error_text append_error +:+
                           "; durable replay failed: " +:+ error_text lookup_error))
              | Ok (_, None) => cfail append_error
              | Ok (_, Some recovered) =>
                  of_result (validate_deferred_terminal_task recovered d) ;;!
                  cret (tr_revision recovered)
              end
          end
      end
  end.

Definition clear_deferred (a : WorkflowNodeAttempt) : WorkflowNodeAttempt :=
  {| na_node_id := na_node_id a; na_attempt_id := na_attempt_id a;
     na_attempt_number := na_attempt_number a; na_status := na_status a;
     na_input_digest := na_input_digest a; na_output := na_output a;
     na_output_ref := na_output_ref a; na_committed_at_unix_ms := na_committed_at_unix_ms a;
     na_error := na_error a; na_failure_class := na_failure_class a;
     na_resume_existing_attempt := na_resume_existing_attempt a; na_deferred := None |}.

(** The nodes with a terminal change left, in key order. *)
Definition deferred_nodes (s : WorkflowRunSnapshot) :
    list (string * (AttemptId * DeferredTaskTerminalWrite)) :=
  omap (λ kv, (λ d, (kv.1, (na_attempt_id kv.2, d))) <$> na_deferred kv.2) (btree_iter (wr_nodes s)).

Fixpoint recover_deferred (g : WorkflowMutationGuard) (run_id : RunId)
    (pending : list (string * (AttemptId * DeferredTaskTerminalWrite))) (s : WorkflowRunSnapshot) :
    M O WorkflowRunSnapshot :=
  match pending with
  | [] => cret s
  | (node_id, (attempt_id, d)) :: pending =>
      let! revision := recover_terminal g run_id node_id d in
      append_terminal_reconciled_marker g run_id node_id attempt_id d revision ;;!
      let! a := known_node s node_id in
      recover_deferred g run_id pending
        (if decide (na_deferred a = Some d) then set_node s node_id (clear_deferred a) else s)
  end.

(** ** Settling *)

Definition some_node (s : WorkflowRunSnapshot) (p : WorkflowNodeStatus → bool) : bool :=
  existsb (λ kv, p (na_status kv.2)) (btree_iter (wr_nodes s)).

(** The status a Run without running nodes settles in. *)
Definition settled_status (s : WorkflowRunSnapshot) : WorkflowRunStatus :=
  if some_node s (λ st, bool_decide (st = NFailed)) then RFailed
  else if some_node s (λ st, negb (bool_decide (st = NCompleted ∨ st = NSkipped)))
  then wr_status s else RCompleted.

Definition settled_summary (s : WorkflowRunSnapshot) : option WorkflowFailureSummary :=
  if decide (settled_status s = RFailed) then aggregate_workflow_failures (wr_nodes s) else None.

Definition settled_payload (s : WorkflowRunSnapshot) : Value :=
  VObject [("status", to_value (settled_status s)); ("failure_summary", opt_value (settled_summary s))].

Definition settle_action (run_id : RunId) : action (O := O) WorkflowRunSnapshot := λ g prepared,
  let! s := known_run run_id prepared in
  let! s := recover_deferred g run_id (deferred_nodes s) s in
  if some_node s (λ st, bool_decide (st = NRunning)) then cret (Some s, s)
  else
    append_record E g run_id "workflow_settled" (settled_payload s) ;;!
    let s := with_status s (settled_status s) (settled_summary s) in
    cret (Some s, s).

Definition settle (run_id : RunId) : M O WorkflowRunSnapshot :=
  mutate_projection E run_id (settle_action run_id).
End settle.

(** ** Cancelling *)

Section cancel.
Context {O : Type} (E : Env O).

Definition is_terminal_run (s : WorkflowRunStatus) : bool :=
  match s with RRunning => false | _ => true end.

Definition cancelled_attempt (reason : string) (a : WorkflowNodeAttempt) : WorkflowNodeAttempt :=
  if decide (na_status a = NPending ∨ na_status a = NRunning) then
    {| na_node_id := na_node_id a; na_attempt_id := na_attempt_id a;
       na_attempt_number := na_attempt_number a; na_status := NCancelled;
       na_input_digest := na_input_digest a; na_output := na_output a;
       na_output_ref := na_output_ref a; na_committed_at_unix_ms := na_committed_at_unix_ms a;
       na_error := Some reason; na_failure_class := Some FCancelled;
       na_resume_existing_attempt := na_resume_existing_attempt a; na_deferred := na_deferred a |}
  else a.

Definition cancelled_snapshot (s : WorkflowRunSnapshot) (reason : string) : WorkflowRunSnapshot :=
  with_status (with_nodes s (cancelled_attempt reason <$> wr_nodes s)) RCancelled
    (wr_failure_summary s).

Definition cancelled_payload (reason : string) (s : WorkflowRunSnapshot) : Value :=
  VObject [("reason", VString reason); ("snapshot", to_value s)].

(** The tasks of the nodes that are cancelled, in key order. *)
Definition cancel_task (g : WorkflowMutationGuard) (run_id : RunId)
    (kv : string * WorkflowNodeAttempt) : M O unit :=
  if decide (na_status kv.2 = NCancelled) then
    update_workflow_task E g run_id kv.1
      {| tu_state := Cancelled; tu_clear_owner := false; tu_outcome_ref := None;
         tu_failure_class := None; tu_operation_id := node_operation run_id kv.1 "cancelled" |} ;;!
    cret tt
  else cret tt.

Definition cancel_action (run_id : RunId) (reason : string) : action (O := O) WorkflowRunSnapshot :=
  λ g prepared,
  let! s := known_run run_id prepared in
  if is_terminal_run (wr_status s) then cret (prepared, s)
  else
    let cancelled := cancelled_snapshot s reason in
    append_record E g run_id "workflow_cancelled" (cancelled_payload reason cancelled) ;;!
    cfor (cancel_task g run_id) (btree_iter (wr_nodes cancelled)) ;;!
    cret (Some cancelled, cancelled).

Definition cancel_run (run_id : RunId) (reason : string) : M O WorkflowRunSnapshot :=
  mutate_projection E run_id (cancel_action run_id reason).

(** The running children of a Run. *)
Definition running_children (c : Controller O) (run_id : RunId) : list RunId :=
  (λ p, wr_run_id (pj_snapshot p)) <$>
  List.filter (λ p, bool_decide (wr_parent_run_id (pj_snapshot p) = Some run_id) && running_run p)
    (ev_hash_order E (ct_runs c)).*2.

Fixpoint cancel_tree (fuel : nat) (run_id : RunId) (reason : string) : M O WorkflowRunSnapshot :=
  match fuel with
  | 0 => cfail CtFuel
  | S fuel =>
      let! cancelled := cancel_run run_id reason in
      let! children := gets (λ c, running_children c run_id) in
      cfor (λ child, cancel_tree fuel child reason ;;! cret tt) children ;;!
      cret cancelled
  end.

(** Every call below the first one cancels a Run that was running. *)
Definition cancel (run_id : RunId) (reason : string) : M O WorkflowRunSnapshot :=
  let! fuel := gets (λ c, S (size (ct_runs c))) in cancel_tree fuel run_id reason.
End cancel.

(** ** Changes of Runs, one mutation each *)

Inductive RunOp : Type :=
  | OpStart (run_id : RunId) (workflow_id : string) (parameters : Value)
      (parent : option RunId) (identity : option WorkflowRuntimeIdentity)
  | OpBegin (run_id : RunId) (node : WorkflowNode)
  | OpFailBefore (run_id : RunId) (node : WorkflowNode) (error : string)
  | OpComplete (run_id : RunId) (node_id : string) (attempt_id : AttemptId) (output : Value)
  | OpFail (run_id : RunId) (node_id : string) (attempt_id : AttemptId) (e : WorkflowNodeError)
  | OpSkip (run_id : RunId) (node_id : string)
  | OpSettle (run_id : RunId)
  | OpCancel (run_id : RunId) (reason : string).

Definition ignore {O A} (m : M O A) (c : Controller O) : Controller O := (m c).1.

Definition run_op {O} (E : Env O) (op : RunOp) : Controller O → Controller O :=
  match op with
  | OpStart run workflow parameters parent identity =>
      ignore (start_internal E run workflow parameters parent identity)
  | OpBegin run node => ignore (begin_attempt E run node)
  | OpFailBefore run node error => ignore (fail_before_attempt E run node error)
  | OpComplete run node_id attempt_id output => ignore (complete_node E run node_id attempt_id output)
  | OpFail run node_id attempt_id e => ignore (fail_node E run node_id attempt_id e)
  | OpSkip run node_id => ignore (skip_node E run node_id)
  | OpSettle run => ignore (settle E run)
  | OpCancel run reason => ignore (cancel_run E run reason)
  end.

(** ** Running *)

Record Execution (O : Type) : Type := {
  ex_runtime : Runtime;
  ex_files : O;
  ex_meanwhile : list RunOp;
  ex_late : bool;
  ex_result : result Value WorkflowNodeError;
}.
Arguments ex_runtime {O} _.
Arguments ex_files {O} _.
Arguments ex_meanwhile {O} _.
Arguments ex_late {O} _.
Arguments ex_result {O} _.

Definition Executor (O : Type) : Type := Controller O → WorkflowExecutionContext → Execution O.

Section execute.
Context {O : Type} (E : Env O) (executor : Executor O).

(** What happens while a node is executed. *)
Definition meanwhile (x : Execution O) : M O unit :=
  modify (λ c, fold_left (λ c op, run_op E op c) (ex_meanwhile x)
                 (set_files (ex_files x) (set_runtime (ex_runtime x) c))).

(** An error of a call as its message; a call that does not return stays one. *)
Definition catch {A} (m : M O A) : M O (result A string) :=
  let! r := attempt m in
  match r with
  | Ok a => cret (Ok a)
  | Err (CtMessage e) => cret (Err e)
  | Err e => cfail e
  end.

Definition timed_out (x : Execution O) (node : WorkflowNode) : option Z :=
  if ex_late x then wn_timeout_ms node else None.

Definition timeout_error (ms : Z) (rest : string) : WorkflowNodeError :=
  node_error OutcomeUnknown
    ("workflow node timed out after " +:+ decimal ms +:+ "ms; " +:+ rest).

(** A node that an executor runs. *)
Definition execute_leaf (ctx : WorkflowExecutionContext) : M O (result Value WorkflowNodeError) :=
  let! x := gets (λ c, executor c ctx) in
  meanwhile x ;;!
  match timed_out x (xc_node ctx) with
  | Some ms => cret (Err (timeout_error ms "execution outcome is unknown"))
  | None => cret (ex_result x)
  end.

Definition child_run_id (ctx : WorkflowExecutionContext) : RunId :=
  xc_run_id ctx +:+ ":subworkflow:" +:+ wn_id (xc_node ctx) +:+ ":" +:+ xc_attempt_id ctx.

Definition child_parameters (ctx : WorkflowExecutionContext) : Value :=
  VObject [("parent_parameters", xc_parameters ctx);
           ("dependency_outputs", to_value (xc_dependency_outputs ctx));
           ("bound_inputs", xc_bound_inputs ctx)].

(** The failure class a parent sees. *)
Definition parent_failure_class (s : option WorkflowRunSnapshot) : TaskFailureClass :=
  default NonRetryable
    (s ← s; summary ← wr_failure_summary s ∪ aggregate_workflow_failures (wr_nodes s);
     Some (primary_for_parent summary)).

Definition settled_failure_class (s : WorkflowRunSnapshot) : TaskFailureClass :=
  match wr_status s with
  | RCancelled => FCancelled
  | RFailed => parent_failure_class (Some s)
  | RRunning | RCompleted => NonRetryable
  end.

(** The output of a completed sub-Workflow. *)
Definition child_outputs (d : WorkflowDefinition) (s : WorkflowRunSnapshot) : Value :=
  let all := omap (λ kv, (λ o, (kv.1, o)) <$> na_output kv.2) (btree_iter (wr_nodes s)) in
  let named := omap (λ '(name, node_id), (λ o, (name, o)) <$> (wr_nodes s !! node_id ≫= na_output))
                 (wd_outputs d) in
  VObject (if decide (wd_outputs d = []) then all else named).

(** [execute_child], with the call that runs the child. *)
Definition execute_child (run_child : RunId → M O WorkflowRunSnapshot) (child : RunId)
    (workflow_ref : string) : M O (result Value WorkflowNodeError) :=
  let! r := catch (run_child child) in
  match r with
  | Err message =>
      let! s := gets (λ c, run_snapshot c child) in
      cret (Err (node_error (parent_failure_class s) message))
  | Ok settled =>
      if decide (wr_status settled ≠ RCompleted) then
        cret (Err (node_error (settled_failure_class settled)
          ("subworkflow " +:+ workflow_ref +:+ " settled as " +:+
           run_status_debug (wr_status settled))))
      else
        let! d := gets (λ c, definition c workflow_ref) in
        match d with
        | None => cret (Err (node_error NonRetryable
                               ("subworkflow definition disappeared: " +:+ workflow_ref)))
        | Some d => cret (Ok (child_outputs d settled))
        end
  end.

Definition cancel_child (child : RunId) (reason : string) : M O unit :=
  let! _ := catch (cancel E child reason) in cret tt.

(** A child that is still running after a failure is cancelled. *)
Definition finish_child (child : RunId) (r : result Value WorkflowNodeError) : M O unit :=
  let! s := gets (λ c, run_snapshot c child) in
  match r, s with
  | Err _, Some s =>
      if decide (wr_status s = RRunning)
      then cancel_child child "parent workflow node did not complete" else cret tt
  | _, _ => cret tt
  end.

Definition execute_context (run_child : RunId → M O WorkflowRunSnapshot)
    (ctx : WorkflowExecutionContext) : M O (result Value WorkflowNodeError) :=
  match wn_workflow_ref (xc_node ctx) with
  | None => execute_leaf ctx
  | Some workflow_ref =>
      let child := child_run_id ctx in
      let! started := catch (start_child E child workflow_ref (child_parameters ctx)
                               (xc_run_id ctx)) in
      match started with
      | Err e => cret (Err (node_error NonRetryable e))
      | Ok _ =>
          let! x := gets (λ c, executor c ctx) in
          match timed_out x (xc_node ctx) with
          | Some ms =>
              meanwhile x ;;!
              cancel_child child "parent workflow node timed out" ;;!
              cret (Err (timeout_error ms "child execution outcome is unknown"))
          | None =>
              let! r := execute_child run_child child workflow_ref in
              finish_child child r ;;!
              cret r
          end
      end
  end.

(** The attempts of the ready nodes begin; a node whose inputs cannot be bound
    fails. *)
Fixpoint begin_all (run_id : RunId) (nodes : list WorkflowNode) :
    M O (list WorkflowExecutionContext) :=
  match nodes with
  | [] => cret []
  | node :: nodes =>
      let! r := catch (begin_attempt E run_id node) in
      match r with
      | Ok ctx => let! ctxs := begin_all run_id nodes in cret (ctx :: ctxs)
      | Err e =>
          if starts_with e "workflow input binding failed:" then
            fail_before_attempt E run_id node e ;;! begin_all run_id nodes
          else cfail (CtMessage e)
      end
  end.

Definition finish_node (run_id : RunId)
    (x : WorkflowExecutionContext * result Value WorkflowNodeError) : M O unit :=
  let node_id := wn_id (xc_node x.1) in
  let attempt_id := xc_attempt_id x.1 in
  match x.2 with
  | Ok output => complete_node E run_id node_id attempt_id output ;;! cret tt
  | Err e => fail_node E run_id node_id attempt_id e ;;! cret tt
  end.

Fixpoint execute_until_settled (fuel : nat) (run_id : RunId) : M O WorkflowRunSnapshot :=
  match fuel with
  | 0 => cfail CtFuel
  | S fuel =>
      skip_false_conditions E run_id ;;!
      let! ready := ready_nodes run_id in
      match ready with
      | [] => settle E run_id
      | _ =>
          let! contexts := begin_all run_id ready in
          let! results := cmap (λ ctx,
            let! r := execute_context (execute_until_settled fuel) ctx in cret (ctx, r)) contexts in
          cfor (finish_node run_id) results ;;!
          execute_until_settled fuel run_id
      end
  end.
End execute.
