(* ===== verification/WorkflowRestore.v ===== *)
(** * The Workflow controller: recovery of a Run

    crates/solaris-agent/src/workflow_controller/restore.rs.  A Run is rebuilt
    from its records: the snapshot of [workflow_started] and then one step per
    record.  What cannot be trusted - an unknown definition, an output that does
    not match its digest, a checkpoint of another version - turns the Run into
    one that needs reconciliation.  The projection is published only when the
    ledger has not moved in the meantime.  The observers of the code exist for
    tests and are left out. *)
From S2P Require Import ResourceTypes Prelude Json Types TaskRegistry RuntimeLedger WorkflowTypes Identity Registries LedgerInterface MessageBus CollaborationTypes CollaborationRuntime CollaborationTasks CollaborationRestore WorkflowRuns WorkflowInputs WorkflowController WorkflowRegistration WorkflowCompletion WorkflowNodes WorkflowExecution.

(** ** Steps of the replay *)

(** The state of the replay: the snapshot, the markers of terminal changes and
    the status of a settlement that waits for them. *)
Record Replay : Type := {
  rp_snapshot : WorkflowRunSnapshot;
  rp_markers : list Value;
  rp_settled : option WorkflowRunStatus;
}.

(** A record is applied, or the Run needs reconciliation with a reason, or the
    recovery fails. *)
Inductive ReplayStep : Type :=
  | Applied (r : Replay)
  | Reconcile (reason : string)
  | ReplayError (message : string).

Definition with_snapshot (r : Replay) (s : WorkflowRunSnapshot) : Replay :=
  {| rp_snapshot := s; rp_markers := rp_markers r; rp_settled := rp_settled r |}.

Definition update_node (r : Replay) (node_id : string) (f : WorkflowNodeAttempt → WorkflowNodeAttempt) :
    Replay :=
  with_snapshot r (with_nodes (rp_snapshot r) (alter f node_id (wr_nodes (rp_snapshot r)))).

Definition replay_started (p : Value) (a : WorkflowNodeAttempt) : WorkflowNodeAttempt :=
  {| na_node_id := na_node_id a;
     na_attempt_id := default (na_attempt_id a) (get_str "attempt_id" p);
     na_attempt_number := Z.min u32_max (na_attempt_number a + 1); na_status := NRunning;
     na_input_digest := get_str "input_digest" p; na_output := na_output a;
     na_output_ref := na_output_ref a; na_committed_at_unix_ms := na_committed_at_unix_ms a;
     na_error := None; na_failure_class := None; na_resume_existing_attempt := false;
     na_deferred := na_deferred a |}.

Definition replay_completed (p output : Value) (output_ref : string) (a : WorkflowNodeAttempt) :
    WorkflowNodeAttempt :=
  {| na_node_id := na_node_id a; na_attempt_id := na_attempt_id a;
     na_attempt_number := na_attempt_number a; na_status := NCompleted;
     na_input_digest := na_input_digest a; na_output := Some output;
     na_output_ref := Some output_ref;
     na_committed_at_unix_ms := get "committed_at_unix_ms" p ≫= as_i64; na_error := None;
     na_failure_class := na_failure_class a; na_resume_existing_attempt := false;
     na_deferred := na_deferred a |}.

Definition replay_failed (p : Value) (status : WorkflowNodeStatus)
    (deferred : option DeferredTaskTerminalWrite) (a : WorkflowNodeAttempt) : WorkflowNodeAttempt :=
  {| na_node_id := na_node_id a; na_attempt_id := na_attempt_id a;
     na_attempt_number := na_attempt_number a; na_status := status;
     na_input_digest := na_input_digest a; na_output := na_output a;
     na_output_ref := na_output_ref a; na_committed_at_unix_ms := na_committed_at_unix_ms a;
     na_error := get_str "error" p;
     na_failure_class := Some (default NonRetryable (get "failure_class" p ≫= from_value));
     na_resume_existing_attempt := false; na_deferred := deferred |}.

Definition replay_skipped (a : WorkflowNodeAttempt) : WorkflowNodeAttempt :=
  {| na_node_id := na_node_id a; na_attempt_id := na_attempt_id a;
     na_attempt_number := na_attempt_number a; na_status := NSkipped;
     na_input_digest := na_input_digest a; na_output := na_output a;
     na_output_ref := na_output_ref a; na_committed_at_unix_ms := na_committed_at_unix_ms a;
     na_error := na_error a; na_failure_class := na_failure_class a;
     na_resume_existing_attempt := false; na_deferred := na_deferred a |}.

Section replay.
Context {O : Type} (E : Env O).

Definition decoded {A} `{Serde A} (prefix : string) (v : Value) : result A string :=
  ok_or (from_value v) (prefix +:+ ev_decode_text E v).

(** [restore_deferred_task_terminal_write]. *)
Definition restore_deferred_task_terminal_write (run_id : RunId) (node_id : string)
    (attempt_id : AttemptId) (status : WorkflowNodeStatus) (p : Value) :
    result (option DeferredTaskTerminalWrite) string :=
  let legacy_deferred := bool_decide (get "task_terminal_write_deferred" p ≫= as_bool = Some true) in
  let canonical := node_operation run_id node_id (attempt_id +:+ ":failed") in
  match get "deferred_task_terminal_write" p with
  | None | Some VNull =>
      if legacy_deferred then
        Ok (Some {| dt_state := Failed; dt_clear_owner := false; dt_outcome_ref := None;
                    dt_failure_class := default ReconciliationRequired
                                          (get "failure_class" p ≫= from_value);
                    dt_operation_id := canonical |})
      else Ok None
  | Some typed =>
      let? d := decoded "invalid typed deferred Workflow task terminal write: " typed in
      let? outer := ok_or (get "failure_class" p)
        "typed deferred Workflow task terminal write is missing failure_class" in
      let? outer := decoded "invalid typed deferred Workflow failure_class: " outer in
      ensure legacy_deferred
        "typed deferred Workflow task terminal write conflicts with its legacy flag" ;;?
      ensure (bool_decide (status = NFailed))
        "typed deferred Workflow task terminal write requires a Failed node" ;;?
      ensure (bool_decide (outer = ReconciliationRequired) &&
              bool_decide (dt_failure_class d = outer))
        "typed deferred Workflow task terminal write has inconsistent failure_class" ;;?
      ensure (bool_decide (dt_operation_id d = canonical))
        "typed deferred Workflow task terminal write has a non-canonical operation_id" ;;?
      ensure (bool_decide (dt_state d = Failed) && negb (dt_clear_owner d) &&
              bool_decide (dt_outcome_ref d = None))
        "typed deferred Workflow task terminal write has invalid mutation semantics" ;;?
      Ok (Some d)
  end.

(** The state a failure record gives the node. *)
Definition failed_state (p : Value) : result WorkflowNodeStatus string :=
  if is_present (get "deferred_task_terminal_write" p) then
    let? v := ok_or (get "state" p)
      "typed deferred Workflow task terminal write is missing node state" in
    decoded "invalid typed deferred Workflow node state: " v
  else Ok (default NFailed (get "state" p ≫= from_value)).

(** The output a completion refers to, read back and checked.  [Err] is the
    reason for a reconciliation. *)
Definition completed_output (o : O) (run_id : RunId) (node_id : string) (p : Value) :
    result (string * Value) string :=
  let subject := "workflow node " +:+ node_id in
  ensure (negb (is_present (get "output_status" p)) || str_member "output_status" "completed" p)
    (subject +:+ " protected output has an invalid status") ;;?
  let? output_ref := ok_or (get_str "output_ref" p)
    (subject +:+ " completed without a protected output reference") in
  let? serialized :=
    match ev_read E o run_id output_ref with
    | Ok s => Ok s
    | Err e => Err (subject +:+ " protected output could not be read: " +:+ e)
    end in
  ensure (bool_decide (get_u64 "output_bytes" p = Some (byte_len serialized)) &&
          str_member "output_digest" (stable_digest_bytes (ev_sha256 E) serialized) p)
    (subject +:+ " protected output failed integrity validation") ;;?
  let? output :=
    match ev_from_str E serialized with
    | Ok v => Ok v
    | Err e => Err (subject +:+ " protected output is invalid JSON: " +:+ e)
    end in
  Ok (output_ref, output).

Definition has_deferred (s : WorkflowRunSnapshot) : bool :=
  existsb (λ kv, bool_decide (is_Some (na_deferred kv.2))) (btree_iter (wr_nodes s)).

Definition replay_node_completed (l : InMemoryLedgerState) (o : O) (d : WorkflowDefinition)
    (run_id : RunId) (r : Replay) (record : LedgerRecord) (node_id : string) : ReplayStep :=
  match validate_completion_source E l o d run_id record with
  | Err e => ReplayError e
  | Ok _ =>
      match completed_output o run_id node_id (lr_payload record) with
      | Err reason => Reconcile reason
      | Ok (output_ref, output) =>
          Applied (update_node r node_id (replay_completed (lr_payload record) output output_ref))
      end
  end.

Definition replay_node_failed (run_id : RunId) (r : Replay) (p : Value) (node_id : string) :
    ReplayStep :=
  match wr_nodes (rp_snapshot r) !! node_id with
  | None => Applied r
  | Some a =>
      match (let? status := failed_state p in
             let? deferred := restore_deferred_task_terminal_write run_id node_id
                                (na_attempt_id a) status p in
             Ok (status, deferred)) with
      | Ok (status, deferred) => Applied (update_node r node_id (replay_failed p status deferred))
      | Err e => ReplayError e
      end
  end.

Definition replay_cancelled (r : Replay) (p : Value) : Replay :=
  with_snapshot r
    (match get "snapshot" p ≫= from_value with
     | Some cancelled => cancelled
     | None => with_status (rp_snapshot r) RCancelled (wr_failure_summary (rp_snapshot r))
     end).

Definition replay_settled (r : Replay) (p : Value) : Replay :=
  match get "status" p ≫= from_value with
  | None => r
  | Some status =>
      let s := rp_snapshot r in
      let summary := get "failure_summary" p ≫= from_value in
      if has_deferred s then
        {| rp_snapshot := with_status s (wr_status s) summary; rp_markers := rp_markers r;
           rp_settled := Some status |}
      else with_snapshot r (with_status s status summary)
  end.

(** One record. *)
Definition replay_record (l : InMemoryLedgerState) (o : O) (d : WorkflowDefinition) (run_id : RunId)
    (r : Replay) (record : LedgerRecord) : ReplayStep :=
  let p := lr_payload record in
  let on_node (f : string → ReplayStep) :=
    match get_str "node_id" p with Some node_id => f node_id | None => Applied r end in
  let ty := lr_record_type record in
  if decide (ty = "workflow_node_started") then
    on_node (λ node_id, Applied (update_node r node_id (replay_started p)))
  else if decide (ty = "workflow_node_completed") then
    on_node (replay_node_completed l o d run_id r record)
  else if decide (ty = "workflow_node_failed") then on_node (replay_node_failed run_id r p)
  else if decide (ty = "workflow_task_terminal_reconciled") then
    Applied {| rp_snapshot := rp_snapshot r; rp_markers := rp_markers r ++ [p];
               rp_settled := rp_settled r |}
  else if decide (ty = "workflow_node_skipped") then
    on_node (λ node_id, Applied (update_node r node_id replay_skipped))
  else if decide (ty = "workflow_cancelled") then Applied (replay_cancelled r p)
  else if decide (ty = "workflow_settled") then Applied (replay_settled r p)
  else Applied r.

(** All records; a stop keeps the snapshot reached so far. *)
Fixpoint replay_records (l : InMemoryLedgerState) (o : O) (d : WorkflowDefinition) (run_id : RunId)
    (r : Replay) (records : list LedgerRecord) : Replay * option (string + string) :=
  match records with
  | [] => (r, None)
  | record :: records =>
      match replay_record l o d run_id r record with
      | Applied r => replay_records l o d run_id r records
      | Reconcile reason => (r, Some (inl reason))
      | ReplayError e => (r, Some (inr e))
      end
  end.
End replay.

(** ** Recovery *)

Definition WORKFLOW_RESTORE_STALE : string := "Workflow restore high-water changed during recovery".

Section restore.
Context {O : Type} (E : Env O).

Definition commit_restore_high_water (g : WorkflowMutationGuard) (high_watermark : Z) :
    M O WorkflowMutationGuard :=
  let! g := renew_workflow_mutation_guard E g in
  match gd_lease g with
  | None => cret g
  | Some lease =>
      let! at_ms := now E in
      let! commit := ledger_call E "failed to commit Workflow restore high-water: "
                       (λ l, commit_workflow_restore l lease high_watermark at_ms) in
      match commit with
      | CommitCurrent => cret g
      | CommitStale _ => cfail (CtMessage WORKFLOW_RESTORE_STALE)
      end
  end.

Definition publish_restored_projection (run_id : RunId) (s : WorkflowRunSnapshot)
    (g : WorkflowMutationGuard) : M O unit :=
  let! lease := some_or (gd_lease g) "runtime ledger cannot fence Workflow restore publication" in
  let sequence := wl_observed_sequence lease in
  let! previous := gets (λ c, ct_runs c !! run_id) in
  set_projection run_id (Some {| pj_snapshot := s; pj_durable_sequence := sequence |}) ;;!
  let! committed := attempt (commit_projection_high_water E g sequence) in
  match committed with
  | Ok _ => cret tt
  | Err e => set_projection run_id previous ;;! cfail e
  end.

(** What is open fails, with the reason. *)
Definition reconciled_attempt (reason : string) (a : WorkflowNodeAttempt) : WorkflowNodeAttempt :=
  if decide (na_status a = NPending ∨ na_status a = NRunning) then
    {| na_node_id := na_node_id a; na_attempt_id := na_attempt_id a;
       na_attempt_number := na_attempt_number a; na_status := NFailed;
       na_input_digest := na_input_digest a; na_output := na_output a;
       na_output_ref := na_output_ref a; na_committed_at_unix_ms := na_committed_at_unix_ms a;
       na_error := Some reason; na_failure_class := Some ReconciliationRequired;
       na_resume_existing_attempt := false; na_deferred := na_deferred a |}
  else a.

Definition reconciled_snapshot (s : WorkflowRunSnapshot) (reason : string) : WorkflowRunSnapshot :=
  let nodes := reconciled_attempt reason <$> wr_nodes s in
  {| wr_run_id := wr_run_id s; wr_workflow_id := wr_workflow_id s;
     wr_workflow_version := wr_workflow_version s;
     wr_workflow_definition_digest := wr_workflow_definition_digest s;
     wr_input_digest := wr_input_digest s; wr_runtime_identity := wr_runtime_identity s;
     wr_parent_run_id := wr_parent_run_id s; wr_status := RFailed;
     wr_reconciliation_reason := Some reason;
     wr_failure_summary := aggregate_workflow_failures nodes; wr_nodes := nodes;
     wr_parameters := wr_parameters s |}.

Definition reconciliation_payload (run_id : RunId) (reason : string) (s : WorkflowRunSnapshot) :
    Value :=
  VObject [("workflow_run_id", VString run_id); ("reason", VString reason);
           ("snapshot", to_value s)].

Definition restore_as_reconciliation_required (run_id : RunId) (s : WorkflowRunSnapshot)
    (reason : string) (g : WorkflowMutationGuard) (high_watermark : Z) : M O bool :=
  let s := reconciled_snapshot s reason in
  let! g := commit_restore_high_water g high_watermark in
  let! lease := some_or (gd_lease g) "runtime ledger cannot fence Workflow reconciliation" in
  let! at_ms := now E in
  let! clock := now E in
  ledger_call E "" (λ l,
    compare_and_append_under_lease (ev_to_vec E) l lease at_ms clock SyncCritical
      "workflow_reconciliation_required" ["workflow_run_id"]
      (reconciliation_payload run_id reason s)) ;;!
  let! g := validate_workflow_mutation_guard E g in
  publish_restored_projection run_id s g ;;!
  cret true.

(** A task that is registered keeps its state when its identity is the same. *)
Definition restore_node_task (d : WorkflowDefinition) (s : WorkflowRunSnapshot) (node : WorkflowNode) :
    M O unit :=
  let state :=
    match wr_nodes s !! wn_id node with
    | Some a => if decide (is_Some (na_deferred a)) then Queued
                else workflow_status_to_task_state (na_status a)
    | None => Queued
    end in
  let restored := node_task (wr_run_id s) d node state in
  let! existing := gets (λ c, get_task (ct_tasks c) (tr_task_id restored)) in
  match existing with
  | Some existing =>
      require (task_immutable_metadata_matches existing restored)
        ("workflow task " +:+ tr_task_id restored +:+ " has incompatible immutable metadata")
  | None => upsert_task restored
  end.

Fixpoint restore_tasks_for_snapshot (d : WorkflowDefinition) (s : WorkflowRunSnapshot)
    (g : WorkflowMutationGuard) (nodes : list WorkflowNode) : M O WorkflowMutationGuard :=
  match nodes with
  | [] => cret g
  | node :: nodes =>
      let! g := validate_workflow_mutation_guard E g in
      restore_node_task d s node ;;!
      restore_tasks_for_snapshot d s g nodes
  end.

Definition validate_terminal_reconciled_marker (run_id : RunId) (s : WorkflowRunSnapshot)
    (marker : Value) (g : WorkflowMutationGuard) : M O WorkflowRunSnapshot :=
  let! owner := gets ct_mutation_owner_id in
  require (bool_decide (gd_run_id g = run_id) && bool_decide (gd_owner_id g = owner))
    "Workflow mutation guard does not cover terminal marker recovery" ;;!
  let! node_id := some_or (get_str "node_id" marker)
    "Workflow task terminal marker is missing node_id" in
  let! a := some_or (wr_nodes s !! node_id)
    ("Workflow task terminal marker references unknown node: " +:+ node_id) in
  let! d := some_or (na_deferred a)
    ("Workflow task terminal marker for node " +:+ node_id +:+ " has no deferred terminal mutation") in
  let! '(_, terminal) := restore_durable_task_operation E (workflow_task_id run_id node_id)
                           (dt_operation_id d) in
  let! terminal := some_or terminal
    ("Workflow task terminal marker for node " +:+ node_id +:+ " has no durable operation " +:+
     dt_operation_id d) in
  of_result (validate_deferred_terminal_task terminal d) ;;!
  require (value_eqb marker (terminal_reconciled_payload node_id (na_attempt_id a) d
                               (tr_revision terminal)))
    ("Workflow task terminal marker for node " +:+ node_id +:+
     " does not match its durable operation") ;;!
  cret (set_node s node_id (clear_deferred a)).

Fixpoint validate_markers (run_id : RunId) (s : WorkflowRunSnapshot) (markers : list Value)
    (g : WorkflowMutationGuard) : M O WorkflowRunSnapshot :=
  match markers with
  | [] => cret s
  | marker :: markers =>
      let! s := validate_terminal_reconciled_marker run_id s marker g in
      validate_markers run_id s markers g
  end.

(** A node that was running is run again under its attempt. *)
Definition resume_attempt (a : WorkflowNodeAttempt) : WorkflowNodeAttempt :=
  if decide (na_status a = NRunning) then
    {| na_node_id := na_node_id a; na_attempt_id := na_attempt_id a;
       na_attempt_number := na_attempt_number a; na_status := NPending;
       na_input_digest := na_input_digest a; na_output := na_output a;
       na_output_ref := na_output_ref a; na_committed_at_unix_ms := na_committed_at_unix_ms a;
       na_error := na_error a; na_failure_class := na_failure_class a;
       na_resume_existing_attempt := true; na_deferred := na_deferred a |}
  else a.

Definition resume_snapshot (s : WorkflowRunSnapshot) : WorkflowRunSnapshot :=
  if decide (wr_status s = RRunning) then with_nodes s (resume_attempt <$> wr_nodes s) else s.

(** The failure summary is recomputed; [None] when it contradicts the nodes. *)
Definition restored_summary (s : WorkflowRunSnapshot) (settled : option WorkflowRunStatus) :
    option WorkflowRunSnapshot :=
  if decide (default (wr_status s) settled = RFailed) then
    let recomputed := aggregate_workflow_failures (wr_nodes s) in
    if decide (is_Some (wr_failure_summary s) ∧ wr_failure_summary s ≠ recomputed) then None
    else Some (with_status s (wr_status s) recomputed)
  else Some (with_status s (wr_status s) None).

(** The snapshot the replay of a Run ends with, or the reason for a
    reconciliation with the snapshot it applies to, or an error. *)
Inductive Rebuilt : Type :=
  | RebuiltOk (s : WorkflowRunSnapshot) (markers : list Value) (settled : option WorkflowRunStatus)
  | RebuiltReconcile (s : WorkflowRunSnapshot) (reason : string)
  | RebuiltError (message : string)
  | RebuiltFuel.

Definition rebuild (l : InMemoryLedgerState) (o : O) (d : WorkflowDefinition) (run_id : RunId)
    (s : WorkflowRunSnapshot) (records : list LedgerRecord) : Rebuilt :=
  match replay_records E l o d run_id
          {| rp_snapshot := s; rp_markers := []; rp_settled := None |} records with
  | (r, Some (inl reason)) => RebuiltReconcile (rp_snapshot r) reason
  | (_, Some (inr e)) => RebuiltError e
  | (r, None) =>
      match validate_restored_checkpoints (ev_sha256 E) (ev_to_vec E) d (rp_snapshot r) with
      | None => RebuiltFuel
      | Some (s, Err reason) => RebuiltReconcile s reason
      | Some (s, Ok _) =>
          match restored_summary s (rp_settled r) with
          | None =>
              RebuiltReconcile s "durable Workflow failure summary does not match restored failed nodes"
          | Some s => RebuiltOk (resume_snapshot s) (rp_markers r) (rp_settled r)
          end
      end
  end.

(** The rest of the recovery of a Run that was rebuilt. *)
Definition publish_rebuilt (run_id : RunId) (d : WorkflowDefinition) (s : WorkflowRunSnapshot)
    (markers : list Value) (settled : option WorkflowRunStatus) (g : WorkflowMutationGuard)
    (high_watermark : Z) : M O bool :=
  let! g := commit_restore_high_water g high_watermark in
  let! g := validate_workflow_mutation_guard E g in
  let! previous := gets (λ c, pj_durable_sequence <$> ct_runs c !! run_id) in
  if match previous with Some p => bool_decide (high_watermark ≤ p)%Z | None => false end
  then cret false
  else
    let! g := restore_tasks_for_snapshot d s g (wd_nodes d) in
    let! s := validate_markers run_id s markers g in
    let s := match settled with
             | Some status => if has_deferred s then s
                              else with_status s status (wr_failure_summary s)
             | None => s
             end in
    let! g := validate_workflow_mutation_guard E g in
    publish_restored_projection run_id s g ;;!
    cret true.

Definition after_started (seq : Z) (records : list LedgerRecord) : list LedgerRecord :=
  (fix go l := match l with
               | r :: l' => if decide (lr_seq r ≤ seq)%Z then go l' else l
               | [] => []
               end) records.

Definition restore_started (run_id : RunId) (started : LedgerRecord) (s : WorkflowRunSnapshot)
    (g : WorkflowMutationGuard) (records : list LedgerRecord) : M O bool :=
  let high_watermark := last_seq records in
  let! d := gets (λ c, definition c (wr_workflow_id s)) in
  match d with
  | None =>
      restore_as_reconciliation_required run_id s
        ("cannot restore unknown workflow definition: " +:+
         default "unknown" (get_str "workflow_id" (lr_payload started))) g high_watermark
  | Some d =>
      let input_digest := workflow_input_digest (ev_sha256 E) (ev_to_vec E) (wr_parameters s) in
      if decide (wr_input_digest s ≠ None ∧ wr_input_digest s ≠ Some input_digest) then
        restore_as_reconciliation_required run_id s
          "workflow snapshot input digest does not match its parameters" g high_watermark
      else
        let s := {| wr_run_id := wr_run_id s; wr_workflow_id := wr_workflow_id s;
                    wr_workflow_version := wr_workflow_version s;
                    wr_workflow_definition_digest := wr_workflow_definition_digest s;
                    wr_input_digest := Some input_digest;
                    wr_runtime_identity := wr_runtime_identity s;
                    wr_parent_run_id := wr_parent_run_id s; wr_status := wr_status s;
                    wr_reconciliation_reason := wr_reconciliation_reason s;
                    wr_failure_summary := wr_failure_summary s; wr_nodes := wr_nodes s;
                    wr_parameters := wr_parameters s |} in
        let! l := gets ct_ledger in
        let! o := gets ct_files in
        match rebuild l o d run_id s (after_started (lr_seq started) records) with
        | RebuiltOk s markers settled => publish_rebuilt run_id d s markers settled g high_watermark
        | RebuiltReconcile s reason =>
            restore_as_reconciliation_required run_id s reason g high_watermark
        | RebuiltError e => cfail (CtMessage e)
        | RebuiltFuel => cfail CtFuel
        end
  end.

Definition restore_workflow_run_locked (run_id : RunId) (g : WorkflowMutationGuard) : M O bool :=
  let! records := gets (λ c, run_records (ct_ledger c) run_id) in
  match List.find (λ r, bool_decide (lr_record_type r = "workflow_started")) records with
  | None => cret false
  | Some started =>
      match get "snapshot" (lr_payload started) with
      | None => cret false
      | Some v =>
          let! s := of_result (decoded E "invalid workflow snapshot in ledger: " v) in
          restore_started run_id started s g records
      end
  end.

(** A recovery overtaken by a write starts again.  Here a recovery is one step,
    so nothing is written between its reading and its commit. *)
Fixpoint restore_loop (fuel : nat) (run_id : RunId) (g : WorkflowMutationGuard) : M O bool :=
  match fuel with
  | 0 => cfail CtFuel
  | S fuel =>
      let! r := attempt (restore_workflow_run_locked run_id g) in
      match r with
      | Ok b => cret b
      | Err (CtMessage e) =>
          if decide (e = WORKFLOW_RESTORE_STALE) then restore_loop fuel run_id g
          else cfail (CtMessage e)
      | Err e => cfail e
      end
  end.

Definition restore_workflow_run (fuel : nat) (run_id : RunId) : M O bool :=
  let! g := acquire_workflow_mutation_guard E run_id in
  let! r := attempt (restore_loop fuel run_id g) in
  let! release := attempt (release_workflow_mutation_guard E g) in
  after_release r release.

Definition restore_from_ledger (fuel : nat) (root : RunId) : M O nat :=
  let! ids := gets (λ c, merge_sort String.le (map_to_list (ls_records (ct_ledger c))).*1) in
  let! restored := cmap (restore_workflow_run fuel)
    (List.filter (λ id, negb (bool_decide (id = root)) && starts_with id (root +:+ ":")) ids) in
  cret (length (List.filter id restored)).
End restore.
