(* ===== verification/WorkflowCheckpoints.v ===== *)
(** * Checkpoints and failures

    What [validate_restored_checkpoints] of workflow_controller/validation.rs
    establishes: its loop ends, it resets nothing but checkpoints, and the
    checkpoints it leaves are valid together.  Then how the failures of the
    nodes of a Run are summed up (workflow_controller.rs,
    [aggregate_workflow_failures] and [primary_for_parent]), and when the node
    of the parent that ran it is tried again. *)
From S2P Require Import ResourceTypes Prelude Json Types TaskRegistry RuntimeLedger Identity WorkflowTypes WorkflowValidation Registries LedgerInterface MessageBus CollaborationTypes CollaborationRuntime CollaborationTasks CollaborationRestore WorkflowRuns WorkflowInputs WorkflowController WorkflowRegistration WorkflowCompletion WorkflowNodes WorkflowExecution.

(** * Restored checkpoints *)
(** ** The specification *)

Definition checkpointed (st : WorkflowNodeStatus) : Prop := st = NCompleted ∨ st = NSkipped.
#[export] Instance checkpointed_dec st : Decision (checkpointed st).
Proof. unfold checkpointed. apply _. Defined.

(** What may differ after resets: checkpoints are set back, and then the Run is
    running; everything else is kept. *)
Record reset_only (s s' : WorkflowRunSnapshot) : Prop := {
  ro_nodes id : wr_nodes s' !! id = wr_nodes s !! id ∨
    ∃ a, wr_nodes s !! id = Some a ∧ checkpointed (na_status a) ∧
         wr_nodes s' !! id = Some (reset_attempt a);
  ro_status : s' = s ∨ wr_status s' = RRunning;
  ro_rest : s' = with_status (with_nodes s (wr_nodes s')) (wr_status s') (wr_failure_summary s);
}.

Section checkpoints.
Context (sha256 : string → list Byte.byte) (to_vec : Value → string).

(** A skipped node has its dependencies done; a completed one has its output
    and the digest of the inputs it would be given now. *)
Definition checkpoint_valid (s : WorkflowRunSnapshot) (node : WorkflowNode) : Prop :=
  ∀ a, wr_nodes s !! wn_id node = Some a →
    (na_status a = NSkipped → dependencies_complete node (wr_nodes s) = true) ∧
    (na_status a = NCompleted →
       expected_digest sha256 to_vec node s = Ok (na_input_digest a) ∧ is_Some (na_output_ref a)).

(** ** Resets *)

Lemma reset_only_refl s : reset_only s s.
Proof. split; [by left|by left|]. by destruct s. Qed.

Lemma with_nodes_eq s s' :
  s' = with_status (with_nodes s (wr_nodes s')) (wr_status s') (wr_failure_summary s) →
  wr_failure_summary s' = wr_failure_summary s.
Proof. intros ->. done. Qed.

Lemma reset_only_trans s1 s2 s3 : reset_only s1 s2 → reset_only s2 s3 → reset_only s1 s3.
Proof.
  intros [Hn Hs Hr] [Hn' Hs' Hr']. split.
  - intros id. destruct (Hn' id) as [->|(a & Ha & Hc & ->)]; [done|].
    destruct (Hn id) as [Heq|(b & _ & _ & Hb)]; [right; rewrite <- Heq; eauto|].
    rewrite Hb in Ha. injection Ha as <-. by destruct Hc.
  - destruct Hs' as [->|?]; [done|by right].
  - rewrite Hr', Hr. done.
Qed.

Lemma reset_one s id a :
  wr_nodes s !! id = Some a → checkpointed (na_status a) → reset_only s (reset_restored_node s id a).
Proof.
  intros Ha Hc. split; [|by right|done]. intros id'. simpl.
  destruct (decide (id' = id)) as [->|Hne]; [right|left]; rewrite ?lookup_insert_eq, ?lookup_insert_ne by done; eauto.
Qed.

(** The checkpoints that are left. *)
Definition checkpoints_left (s : WorkflowRunSnapshot) : nat :=
  size (filter (λ kv : string * WorkflowNodeAttempt, checkpointed (na_status kv.2)) (wr_nodes s)).

Lemma checkpoints_left_reset s id a :
  wr_nodes s !! id = Some a → checkpointed (na_status a) →
  checkpoints_left s = S (checkpoints_left (reset_restored_node s id a)).
Proof.
  intros Ha Hc. unfold checkpoints_left. simpl. rewrite map_filter_insert_False by (by intros [|]).
  rewrite <- (insert_delete_id (wr_nodes s) id a Ha) at 1.
  rewrite map_filter_insert_True by done. rewrite map_size_insert_None; [done|].
  apply map_lookup_filter_None. left. apply lookup_delete_eq.
Qed.

(** ** One round *)

Lemma check_node_spec s node s' c :
  check_restored_node sha256 to_vec s node = Ok (s', c) →
  (c = false ∧ s' = s ∧ checkpoint_valid s node) ∨
  (c = true ∧ reset_only s s' ∧ ¬ checkpoint_valid s node ∧ checkpoints_left s = S (checkpoints_left s')).
Proof.
  unfold check_restored_node. destruct (wr_nodes s !! wn_id node) as [a|] eqn:Ha.
  2:{ intros [= <- <-]. left. split_and!; try done. intros a. by rewrite Ha. }
  assert (na_status a ≠ NSkipped → na_status a ≠ NCompleted → checkpoint_valid s node) as Hother
    by (intros ?? b Hb; rewrite Ha in Hb; injection Hb as <-; done).
  assert (checkpointed (na_status a) → reset_only s (reset_restored_node s (wn_id node) a) ∧
          checkpoints_left s = S (checkpoints_left (reset_restored_node s (wn_id node) a))) as Hreset
    by (intros; split; [by apply reset_one|by apply checkpoints_left_reset]).
  destruct (na_status a) eqn:Hst; try (intros [= <- <-]; left; split_and!; try done; by apply Hother).
  - destruct (expected_digest sha256 to_vec node s) as [x|] eqn:He; [|done]. simpl.
    destruct (_ && _) eqn:Hb; intros [= <- <-]; [left|right].
    + apply andb_true_iff in Hb as [Hx%bool_decide_eq_true Ho%bool_decide_eq_true].
      split_and!; try done. intros b. rewrite Ha. intros [= <-]. by rewrite Hst, He, Hx.
    + destruct Hreset; [by left|]. split_and!; try done. intros Hv. destruct (Hv a Ha) as [_ Hv'].
      rewrite He in Hv'. destruct (Hv' Hst) as [[= Hx] Ho].
      rewrite !bool_decide_eq_true_2 in Hb; done.
  - destruct (dependencies_complete _ _) eqn:Hd; intros [= <- <-]; [left|right].
    + split_and!; try done. intros b. rewrite Ha. intros [= <-]. by rewrite Hst, Hd.
    + destruct Hreset; [by right|]. split_and!; try done. intros Hv. destruct (Hv a Ha) as [Hv' _].
      rewrite Hd in Hv'. by specialize (Hv' Hst).
Qed.

Lemma check_nodes_spec nodes s c s' r :
  check_restored_nodes sha256 to_vec nodes s c = (s', r) →
  reset_only s s' ∧ checkpoints_left s' ≤ checkpoints_left s ∧
  match r with
  | Ok c' => (c' = c ∧ s' = s ∧ Forall (checkpoint_valid s) nodes) ∨ (c' = true ∧ checkpoints_left s' < checkpoints_left s)
  | Err _ => True
  end.
Proof.
  revert s c. induction nodes as [|node nodes IH]; intros s c; simpl.
  { intros [= <- <-]. split_and!; [apply reset_only_refl|done|by left]. }
  destruct (check_restored_node _ _ s node) as [[s1 b]|e] eqn:Hn.
  2:{ intros [= <- <-]. split_and!; [apply reset_only_refl|done|done]. }
  intros (Hro & Hle & Hr)%IH. apply check_node_spec in Hn as [(-> & -> & Hv)|(-> & Hro1 & _ & Hlt)].
  - rewrite orb_false_r in Hr. split_and!; [done..|]. destruct r; naive_solver.
  - rewrite orb_true_r in Hr. split_and!; [by eapply reset_only_trans|lia|].
    destruct r; [|done]. right. destruct Hr as [(-> & -> & _)|[-> ?]]; (split; [done|lia]).
Qed.

Lemma check_rounds_spec fuel nodes s :
  checkpoints_left s < fuel →
  ∃ s' r, check_restored_rounds sha256 to_vec fuel nodes s = Some (s', r) ∧ reset_only s s' ∧
    (r = Ok tt → Forall (checkpoint_valid s') nodes).
Proof.
  revert s. induction fuel as [|fuel IH]; intros s Hlt; [lia|]. simpl.
  destruct (check_restored_nodes _ _ nodes s false) as [s1 [c|e]] eqn:Hr;
    apply check_nodes_spec in Hr as (Hro & Hle & Hr).
  2:{ exists s1, (Err e). split_and!; done. }
  destruct Hr as [(-> & -> & Hv)|[-> Hlt1]]; [by exists s, (Ok tt)|].
  destruct (IH s1) as (s' & r & -> & Hro' & Hv); [lia|]. exists s', r.
  split_and!; [done|by eapply reset_only_trans|done].
Qed.

Lemma check_nodes_valid nodes s c :
  Forall (checkpoint_valid s) nodes → check_restored_nodes sha256 to_vec nodes s c = (s, Ok c).
Proof.
  induction 1 as [|node nodes Hv _ IH]; simpl; [done|].
  assert (check_restored_node sha256 to_vec s node = Ok (s, false)) as ->; [|by rewrite orb_false_r].
  unfold check_restored_node. destruct (wr_nodes s !! wn_id node) as [a|] eqn:Ha; [|done].
  destruct (Hv a Ha) as [Hs Hc]. destruct (na_status a); try done.
  - destruct Hc as [-> Ho]; [done|]. simpl. by rewrite !bool_decide_eq_true_2.
  - by rewrite Hs.
Qed.

Lemma valid_checkpoints_kept d s :
  wr_workflow_version s = wd_version d →
  wr_workflow_definition_digest s = Some (definition_digest sha256 to_vec d) →
  Forall (checkpoint_valid s) (wd_nodes d) →
  validate_restored_checkpoints sha256 to_vec d s = Some (s, Ok tt).
Proof.
  intros Hv Hd Hc. unfold validate_restored_checkpoints. rewrite !bool_decide_eq_true_2 by done.
  unfold checkpoint_fuel. simpl. by rewrite check_nodes_valid.
Qed.

Lemma checkpoints_left_size s : checkpoints_left s ≤ size (wr_nodes s).
Proof. apply map_subseteq_size, map_filter_subseteq. Qed.
End checkpoints.

(** C11: the checkpoints of a restored Run.  For every snapshot the validation
    ends; it sets back completed and skipped nodes only, keeps everything else
    of the snapshot, and makes the Run running when it sets back a node; when it
    accepts the snapshot, it has the version and the digest of the definition,
    every skipped node that is left has its dependencies done, and every
    completed one has its output and the digest of the inputs it would be given
    now; and a snapshot of which all this holds already is accepted as it is. *)
Theorem restored_checkpoints_valid (sha256 : string → list Byte.byte) (to_vec : Value → string)
    (d : WorkflowDefinition) (s : WorkflowRunSnapshot) :
  let valid s :=
    wr_workflow_version s = wd_version d ∧
    wr_workflow_definition_digest s = Some (definition_digest sha256 to_vec d) ∧
    Forall (checkpoint_valid sha256 to_vec s) (wd_nodes d) in
  ∃ s' r, validate_restored_checkpoints sha256 to_vec d s = Some (s', r) ∧ reset_only s s' ∧
    (r = Ok tt → valid s') ∧ (valid s → s' = s ∧ r = Ok tt).
Proof.
  intros valid. destruct (decide (wr_workflow_version s = wd_version d ∧
    wr_workflow_definition_digest s = Some (definition_digest sha256 to_vec d))) as [[Hv Hd]|Hn].
  - destruct (check_rounds_spec sha256 to_vec (checkpoint_fuel s) (wd_nodes d) s) as (s' & r & Hr & Hro & Hok).
    { pose proof (checkpoints_left_size s). unfold checkpoint_fuel. lia. }
    exists s', r. split_and!; [|done| |].
    + unfold validate_restored_checkpoints. by rewrite !bool_decide_eq_true_2.
    + intros ->. split_and!; [by rewrite (ro_rest _ _ Hro)..|]. by apply Hok.
    + intros (_ & _ & Hc). unfold checkpoint_fuel in Hr. simpl in Hr. rewrite check_nodes_valid in Hr by done.
      naive_solver.
  - assert (∃ e, validate_restored_checkpoints sha256 to_vec d s = Some (s, Err e)) as [e ->].
    { unfold validate_restored_checkpoints. repeat case_bool_decide; [tauto|eauto..]. }
    exists s, (Err e). split_and!; [done|apply reset_only_refl|done|]. intros (? & ? & _). tauto.
Qed.

(** * Failures of sub-Workflows *)
Lemma max_by_key_in {A} (key : A → Z) l x : max_by_key key l = Some x → x ∈ l ∧ ∀ y, y ∈ l → (key y ≤ key x)%Z.
Proof.
  unfold max_by_key.
  assert (∀ best x, fold_left (λ best a, match best with
      | Some b => if decide (key b ≤ key a)%Z then Some a else Some b | None => Some a end) l best = Some x →
    (x ∈ l ∨ best = Some x) ∧ (∀ y, y ∈ l ∨ best = Some y → (key y ≤ key x)%Z)) as H.
  { clear x. induction l as [|a l IH]; intros best x; simpl.
    - intros ->. split; [by right|]. intros y [Hy|[= ->]]; [by apply elem_of_nil in Hy|lia].
    - intros [H1 H2]%IH. setoid_rewrite elem_of_cons. destruct best as [b|].
      + case_decide as Hd.
        * split; [naive_solver|]. pose proof (H2 a (or_intror eq_refl)).
          intros y [[->|Hy]|[= ->]]; [lia|by apply H2; left|lia].
        * split; [naive_solver|]. pose proof (H2 b (or_intror eq_refl)).
          intros y [[->|Hy]|[= ->]]; [lia|by apply H2; left|lia].
      + split; [naive_solver|]. pose proof (H2 a (or_intror eq_refl)).
        intros y [[->|Hy]|[=]]; [lia|by apply H2; left]. }
  intros Hx. destruct (H None x Hx) as [[Hin|[=]] Hmax]. split; [done|]. intros y Hy. apply Hmax. by left.
Qed.

Lemma max_by_key_none {A} (key : A → Z) l : max_by_key key l = None → l = [].
Proof.
  unfold max_by_key. destruct l as [|a l]; [done|]. simpl.
  assert (∀ b, fold_left (λ best a, match best with
      | Some b => if decide (key b ≤ key a)%Z then Some a else Some b | None => Some a end) l (Some b) ≠ None) as H.
  { induction l as [|x l IH]; intros b; simpl; [done|]. by case_decide. }
  intros Hx. by apply H in Hx.
Qed.

(** The class of a node that failed. *)
Definition failed_with (nodes : gmap string WorkflowNodeAttempt) (id : string) (class : TaskFailureClass) : Prop :=
  ∃ a, nodes !! id = Some a ∧ na_status a = NFailed ∧ class = default NonRetryable (na_failure_class a).

Lemma failures_lookup nodes id class :
  (omap failed_class nodes : gmap string TaskFailureClass) !! id = Some class ↔ failed_with nodes id class.
Proof.
  rewrite lookup_omap. unfold failed_with, failed_class. destruct (nodes !! id) as [a|]; simpl; [|naive_solver].
  case_decide; naive_solver.
Qed.

Lemma failures_elem nodes class :
  class ∈ (btree_iter (omap failed_class nodes : gmap string TaskFailureClass)).*2 ↔
  ∃ id, failed_with nodes id class.
Proof.
  rewrite list_elem_of_fmap. split.
  - intros ([id cl] & -> & Hin). apply elem_of_btree_iter, failures_lookup in Hin. eauto.
  - intros [id Hid]. exists (id, class). split; [done|]. by apply elem_of_btree_iter, failures_lookup.
Qed.

Lemma aggregate_some nodes summary :
  aggregate_workflow_failures nodes = Some summary →
  fs_failures summary = omap failed_class nodes ∧
  (∃ id, failed_with nodes id (fs_primary_failure_class summary)) ∧
  ∀ id class, failed_with nodes id class →
    (failure_priority class ≤ failure_priority (fs_primary_failure_class summary))%Z.
Proof.
  unfold aggregate_workflow_failures. intros (primary & Hmax & [= <-])%bind_Some. simpl.
  apply max_by_key_in in Hmax as [Hin Hle]. apply failures_elem in Hin. split_and!; [done|done|].
  intros id class Hid. apply Hle, failures_elem. eauto.
Qed.

Lemma aggregate_none nodes : aggregate_workflow_failures nodes = None ↔ ∀ id class, ¬ failed_with nodes id class.
Proof.
  unfold aggregate_workflow_failures. split.
  - intros H id class Hid. apply bind_None in H as [H|(x & _ & H)]; [|done]. apply max_by_key_none in H.
    assert (class ∈ (btree_iter (omap failed_class nodes : gmap string TaskFailureClass)).*2) as Hin
      by (apply failures_elem; eauto). rewrite H in Hin. by apply elem_of_nil in Hin.
  - intros H. destruct (max_by_key _ _) as [x|] eqn:Hx; [|done]. exfalso.
    apply max_by_key_in in Hx as [[id Hid]%failures_elem _]. by apply (H id x).
Qed.

Lemma retryable_lowest class : (failure_priority class ≤ failure_priority Retryable)%Z → class = Retryable.
Proof. by destruct class. Qed.

Lemma parent_class nodes summary :
  aggregate_workflow_failures nodes = Some summary →
  (primary_for_parent summary = Retryable ↔ ∀ id class, failed_with nodes id class → class = Retryable) ∧
  (primary_for_parent summary = fs_primary_failure_class summary).
Proof.
  intros H. apply aggregate_some in H as (Hf & [id Hid] & Hmax).
  assert (forallb (λ kv, bool_decide (kv.2 = Retryable)) (btree_iter (fs_failures summary)) = true ↔
    ∀ id class, failed_with nodes id class → class = Retryable) as Hall.
  { rewrite Hf, forallb_forall. split.
    - intros Hx i cl Hi. specialize (Hx (i, cl)). simpl in Hx. eapply bool_decide_eq_true, Hx.
      by apply list_elem_of_In, elem_of_btree_iter, failures_lookup.
    - intros Hx [i cl] Hin. apply list_elem_of_In, elem_of_btree_iter, failures_lookup in Hin.
      apply bool_decide_eq_true. by eapply Hx. }
  assert (fs_primary_failure_class summary = Retryable → ∀ id class, failed_with nodes id class → class = Retryable) as Hp.
  { intros He i cl Hi. apply retryable_lowest. rewrite <-He. by eapply Hmax. }
  unfold primary_for_parent. destruct (forallb _ _) eqn:Hb.
  - split; [split; [by intros _; apply Hall|done]|]. symmetry. by eapply (proj1 Hall).
  - assert (¬ ∀ id class, failed_with nodes id class → class = Retryable) as Hn by (rewrite <-Hall; done).
    case_decide as Hd; [by destruct Hn; apply Hp|]. split; [|done]. split; [done|]. tauto.
Qed.

(** what a parent sees of a sub-Workflow that failed: the most serious
    class among its failed nodes, which is the one that may be retried exactly
    when all of them may; so the node of the parent is tried again exactly when
    every failed node of the child may be retried and the node has an attempt
    left. *)
Theorem subworkflow_retried (s : WorkflowRunSnapshot) (node : WorkflowNode) (a : WorkflowNodeAttempt)
    (message : string) :
  wr_status s = RFailed → wr_failure_summary s = aggregate_workflow_failures (wr_nodes s) →
  (∃ id class, failed_with (wr_nodes s) id class) →
  let class := settled_failure_class s in
  (∃ id, failed_with (wr_nodes s) id class) ∧
  (∀ id class', failed_with (wr_nodes s) id class' → failure_priority class' ≤ failure_priority class)%Z ∧
  (retry_status node a (node_error class message) = NPending ↔
     (∀ id class', failed_with (wr_nodes s) id class' → class' = Retryable) ∧
     (na_attempt_number a < allowed_attempts node)%Z).
Proof.
  intros Hst Hsum (id0 & class0 & H0) class.
  destruct (aggregate_workflow_failures (wr_nodes s)) as [summary|] eqn:Hagg.
  2:{ by destruct (proj1 (aggregate_none _) Hagg id0 class0). }
  assert (class = primary_for_parent summary) as ->.
  { unfold class, settled_failure_class, parent_failure_class. rewrite Hst. cbn [mbind option_bind]. by rewrite Hsum, Hagg. }
  destruct (parent_class _ _ Hagg) as [Hret Hprim]. destruct (aggregate_some _ _ Hagg) as (_ & Hin & Hmax).
  rewrite Hprim in *. split_and!; [done|done|]. rewrite <-Hret. unfold retry_status. simpl.
  case_decide; naive_solver.
Qed.

Lemma subworkflow_retried_witness :
  let failed class := {| na_node_id := "n"; na_attempt_id := "a"; na_attempt_number := 1; na_status := NFailed;
    na_input_digest := None; na_output := None; na_output_ref := None; na_committed_at_unix_ms := None;
    na_error := None; na_failure_class := Some class; na_resume_existing_attempt := false;
    na_deferred := None |} in
  let nodes := <["x" := failed Retryable]> (<["y" := failed OutcomeUnknown]> ∅) in
  let s := {| wr_run_id := "r"; wr_workflow_id := "w"; wr_workflow_version := "1";
    wr_workflow_definition_digest := None; wr_input_digest := None; wr_runtime_identity := None;
    wr_parent_run_id := None; wr_status := RFailed; wr_reconciliation_reason := None;
    wr_failure_summary := aggregate_workflow_failures nodes; wr_nodes := nodes; wr_parameters := VNull |} in
  settled_failure_class s = OutcomeUnknown ∧ ∃ id, failed_with nodes id OutcomeUnknown.
Proof.
  intros failed nodes s. assert (settled_failure_class s = OutcomeUnknown) as Hc by (vm_compute; reflexivity).
  split; [exact Hc|]. rewrite <-Hc.
  refine (proj1 (subworkflow_retried s
    {| wn_id := "p"; wn_depends_on := []; wn_when := None; wn_role := None; wn_collaboration := Inherit;
       wn_model_policy := {| mp_model := None; mp_reasoning_effort := None |}; wn_capability_scope := [];
       wn_permission_ceiling := ceiling_plan; wn_retry_max_attempts := 3; wn_timeout_ms := None;
       wn_output_bindings := []; wn_workflow_ref := Some "w" |} (failed Retryable) "" eq_refl eq_refl _)).
  exists "x", Retryable, (failed Retryable). split; [reflexivity|]. split; reflexivity.
Defined.
