(* ===== verification/WorkflowFrames.v ===== *)
(** * What a call of the Workflow controller leaves alone

    A mutation of a Run touches the ledger, the tasks, the files and the
    counters while it works, and at its end at most the projection of its Run.
    [framed] says that a computation keeps the definitions and the projections;
    the lemmas about the parts of a mutation are hints, and
    [mutate_cases] gives the two ways a mutation ends.  When nobody interferes, a
    call that has the lease of its Run, on a clock that is [steady], keeps it
    through every validation, renewal and commit of projection.rs and
    restore.rs, and releases it at the end. *)
From S2P Require Import ResourceTypes Prelude Json Types TaskRegistry RuntimeLedger LedgerFacts Identity WorkflowTypes WorkflowValidation WorkflowReferences Registries LedgerInterface MessageBus CollaborationTypes CollaborationRuntime CollaborationTasks CollaborationRestore WorkflowRuns WorkflowInputs WorkflowController WorkflowRegistration WorkflowCompletion WorkflowNodes WorkflowExecution WorkflowRestore.

Section frames.
Context {O : Type}.

(** The members a mutation never changes. *)
Record same_registry (c c' : Controller O) : Prop := {
  sr_definitions : ct_definitions c' = ct_definitions c;
  sr_owners : ct_definition_owners c' = ct_definition_owners c;
  sr_disabled : ct_disabled_definitions c' = ct_disabled_definitions c;
  sr_roles : ct_roles c' = ct_roles c;
  sr_with_runtime : ct_with_runtime c' = ct_with_runtime c;
  sr_owner_id : ct_mutation_owner_id c' = ct_mutation_owner_id c;
  sr_max_tasks : ct_max_tasks_per_run c' = ct_max_tasks_per_run c;
  sr_quota_root : ct_quota_root_run_id c' = ct_quota_root_run_id c;
}.

#[export] Instance same_registry_preorder : PreOrder same_registry.
Proof.
  split; [by intros c; split|]. intros c1 c2 c3 [] []. split; congruence.
Qed.

Record frame (c c' : Controller O) : Prop := {
  fr_registry : same_registry c c';
  fr_runs : ct_runs c' = ct_runs c;
}.

#[export] Instance frame_preorder : PreOrder frame.
Proof. split; [by intros c; split|]. intros c1 c2 c3 [] []. split; [by etrans|congruence]. Qed.

Record framed {A} (m : M O A) : Prop := framed_intro {
  framed_at : ∀ c, frame c (m c).1;
}.

Lemma framed_eq {A} (m : M O A) c c' r : framed m → m c = (c', r) → frame c c'.
Proof. intros [H] E. specialize (H c). by rewrite E in H. Qed.

Lemma framed_ret {A} (a : A) : framed (cret (O := O) a).
Proof. by split. Qed.
Lemma framed_fail {A} e : framed (cfail (O := O) (A := A) e).
Proof. by split. Qed.
Lemma framed_gets {A} (f : Controller O → A) : framed (gets f).
Proof. by split. Qed.
Lemma framed_of_result {A} (r : result A string) : framed (of_result (O := O) r).
Proof. by split. Qed.
Lemma framed_some_or {A} (o : option A) e : framed (some_or (O := O) o e).
Proof. by split. Qed.
Lemma framed_require b e : framed (require (O := O) b e).
Proof. by split. Qed.

Lemma framed_bind {A B} (m : M O A) (k : A → M O B) :
  framed m → (∀ a, framed (k a)) → framed (cbind m k).
Proof.
  intros [Hm] Hk. split. intros c. unfold cbind. specialize (Hm c).
  destruct (m c) as [c' [a|e]]; simpl in *; [|done]. etrans; [done|apply Hk].
Qed.

Lemma framed_attempt {A} (m : M O A) : framed m → framed (attempt m).
Proof. intros [Hm]. split. intros c. unfold attempt. specialize (Hm c). by destruct (m c). Qed.

Lemma framed_for {A} (f : A → M O unit) xs : (∀ x, framed (f x)) → framed (cfor f xs).
Proof.
  intros Hf. induction xs as [|x xs IH]; simpl; [apply framed_ret|]. by apply framed_bind.
Qed.

Lemma framed_map {A B} (f : A → M O B) xs : (∀ x, framed (f x)) → framed (cmap f xs).
Proof.
  intros Hf. induction xs as [|x xs IH]; simpl; [apply framed_ret|].
  apply framed_bind; [done|]. intros y. apply framed_bind; [done|]. intros ys. apply framed_ret.
Qed.

Lemma framed_modify (f : Controller O → Controller O) : (∀ c, frame c (f c)) → framed (modify f).
Proof. intros Hf. split. intros c. apply Hf. Qed.

Lemma frame_runtime rt (c : Controller O) : frame c (set_runtime rt c).
Proof. by repeat split. Qed.
Lemma frame_files o (c : Controller O) : frame c (set_files o c).
Proof. by repeat split. Qed.
Lemma frame_counters n m (c : Controller O) : frame c (set_counters n m c).
Proof. by repeat split. Qed.
Lemma frame_ledger l (c : Controller O) : frame c (set_ct_ledger l c).
Proof. apply frame_runtime. Qed.
Lemma frame_tasks t (c : Controller O) : frame c (set_ct_tasks t c).
Proof. apply frame_runtime. Qed.
End frames.

Create HintDb framed.
#[export] Hint Resolve framed_ret framed_fail framed_gets framed_of_result framed_some_or
  framed_require framed_modify frame_runtime frame_files frame_counters frame_ledger
  frame_tasks : framed.

(** Into the structure of a computation, down to the hints. *)
Ltac framed :=
  intros;
  first
    [ solve [eauto 3 with framed]
    | lazymatch goal with
      | |- framed (cbind _ _) => apply framed_bind; framed
      | |- framed (attempt _) => apply framed_attempt; framed
      | |- framed (cfor _ _) => apply framed_for; framed
      | |- framed (cmap _ _) => apply framed_map; framed
      | |- framed (match ?x with _ => _ end) => destruct x; framed
      | |- framed (let _ := _ in _) => cbv zeta; framed
      end
    | idtac ].

Section parts.
Context {O : Type} (E : Env O).

Lemma framed_now : framed (now E).
Proof. split. intros c. apply frame_counters. Qed.
Lemma framed_new_uuid : framed (new_uuid E).
Proof. split. intros c. apply frame_counters. Qed.
Lemma framed_on_ledger {A} (f : InMemoryLedgerState → InMemoryLedgerState * result A LedgerError) :
  framed (O := O) (on_ledger f).
Proof. split. intros c. unfold on_ledger. destruct (f (ct_ledger c)). apply frame_ledger. Qed.
Hint Resolve framed_now framed_new_uuid framed_on_ledger : framed.

Lemma framed_ledger_call {A} prefix
    (f : InMemoryLedgerState → InMemoryLedgerState * result A LedgerError) :
  framed (ledger_call E prefix f).
Proof. unfold ledger_call. framed. Qed.
Hint Resolve framed_ledger_call : framed.

Lemma framed_acquire_loop fuel run : framed (acquire_loop E fuel run).
Proof. induction fuel as [|fuel IH]; cbn [acquire_loop]; framed. Qed.
Hint Resolve framed_acquire_loop : framed.

Lemma framed_acquire run : framed (acquire_workflow_mutation_guard E run).
Proof. unfold acquire_workflow_mutation_guard. framed. Qed.

Lemma framed_own_guard g : framed (O := O) (own_guard g).
Proof. unfold own_guard. framed. Qed.
Hint Resolve framed_own_guard : framed.

Lemma framed_renew g : framed (renew_workflow_mutation_guard E g).
Proof. unfold renew_workflow_mutation_guard. framed. Qed.
Lemma framed_validate g : framed (validate_workflow_mutation_guard E g).
Proof. unfold validate_workflow_mutation_guard. framed. Qed.
Lemma framed_release g : framed (release_workflow_mutation_guard E g).
Proof. unfold release_workflow_mutation_guard. framed. Qed.
Lemma framed_append g run ty p : framed (append_record E g run ty p).
Proof. unfold append_record. framed. Qed.
Lemma framed_require_current g p : framed (O := O) (require_current_projection g p).
Proof. unfold require_current_projection. framed. Qed.
Lemma framed_commit g n : framed (commit_projection_high_water E g n).
Proof. unfold commit_projection_high_water. framed. Qed.
Lemma framed_after_release {A} (r : result A CtError) release : framed (O := O) (after_release r release).
Proof. unfold after_release. framed. Qed.

Lemma framed_update_task g run node u : framed (update_workflow_task E g run node u).
Proof.
  unfold update_workflow_task. do 2 (apply framed_bind; [framed|intros]). split. intros c.
  destruct (cas_durable _ _ _ _ _ _ _) as [[[l n] t] r]. simpl.
  etrans; [apply frame_ledger|]. etrans; [apply frame_tasks|]. apply frame_counters.
Qed.

Lemma framed_runtime_call {A} (f : Runtime → Runtime * result A RuntimeError) :
  framed (runtime_call E f).
Proof. split. intros c. unfold runtime_call. destruct (f (ct_runtime c)) as [rt []]; apply frame_runtime. Qed.
Hint Resolve framed_runtime_call : framed.

Lemma framed_restore_projection id : framed (restore_durable_task_projection E id).
Proof. unfold restore_durable_task_projection, require_runtime. framed. Qed.
Lemma framed_restore_operation id op : framed (restore_durable_task_operation E id op).
Proof. unfold restore_durable_task_operation, require_runtime. framed. Qed.
Lemma framed_write_output run s : framed (write_output E run s).
Proof.
  split. intros c. unfold write_output. destruct (ev_write_named _ _ _ _) as [o []]; apply frame_files.
Qed.
End parts.
#[export] Hint Resolve framed_now framed_new_uuid framed_on_ledger framed_ledger_call
  framed_acquire framed_own_guard framed_renew framed_validate framed_release framed_append
  framed_require_current framed_commit framed_after_release framed_update_task framed_runtime_call
  framed_restore_projection framed_restore_operation framed_write_output : framed.

(** ** The actions *)

Section actions.
Context {O : Type} (E : Env O).

Lemma framed_next_attempt a : framed (next_attempt E a).
Proof. unfold next_attempt. framed. Qed.
Lemma framed_known_run run s : framed (O := O) (known_run run s).
Proof. unfold known_run. framed. Qed.
Lemma framed_known_node s id : framed (O := O) (known_node s id).
Proof. unfold known_node. framed. Qed.
Hint Resolve framed_next_attempt framed_known_run framed_known_node : framed.

Lemma framed_begin run node g p : framed (begin_action E run node g p).
Proof. unfold begin_action. framed. Qed.
Lemma framed_fail_before run node e g p : framed (fail_before_action E run node e g p).
Proof. unfold fail_before_action. framed. Qed.
Lemma framed_complete run id a o g p : framed (complete_action E run id a o g p).
Proof. unfold complete_action. framed. Qed.
Lemma framed_deferred run id op e : framed (deferred_write E run id op e).
Proof. unfold deferred_write. framed. Qed.
Hint Resolve framed_deferred : framed.
Lemma framed_fail_action run node id a e g p : framed (fail_action E run node id a e g p).
Proof. unfold fail_action. framed. Qed.
Lemma framed_skip run id g p : framed (skip_action E run id g p).
Proof. unfold skip_action. framed. Qed.

Lemma framed_recover_terminal g run id d : framed (recover_terminal E g run id d).
Proof. unfold recover_terminal. framed. Qed.
Lemma framed_marker g run id a d n : framed (append_terminal_reconciled_marker E g run id a d n).
Proof. unfold append_terminal_reconciled_marker, terminal_reconciled_marker_exists. framed. Qed.
Hint Resolve framed_recover_terminal framed_marker : framed.
Lemma framed_recover_deferred g run pending s : framed (recover_deferred E g run pending s).
Proof. revert s. induction pending as [|[id [a d]] l IH]; intros s; cbn [recover_deferred]; framed. Qed.
Hint Resolve framed_recover_deferred : framed.
Lemma framed_settle run g p : framed (settle_action E run g p).
Proof. unfold settle_action. framed. Qed.
Lemma framed_cancel_task g run kv : framed (cancel_task E g run kv).
Proof. unfold cancel_task. framed. Qed.
Hint Resolve framed_cancel_task : framed.
Lemma framed_cancel run reason g p : framed (cancel_action E run reason g p).
Proof. unfold cancel_action. framed. Qed.
Lemma framed_parent p : framed (O := O) (require_running_parent p).
Proof. unfold require_running_parent. framed. Qed.
Hint Resolve framed_parent : framed.
Lemma framed_start d s w root tasks g p : framed (start_action E d s w root tasks g p).
Proof. unfold start_action. framed. Qed.
End actions.
#[export] Hint Resolve framed_next_attempt framed_known_run framed_known_node framed_begin
  framed_fail_before framed_complete framed_fail_action framed_skip framed_settle framed_cancel
  framed_start : framed.

(** ** The two ways a mutation ends *)

Section mutation.
Context {O : Type} (E : Env O).

(** Only leases and the clock moved. *)
Record near (c c' : Controller O) : Prop := {
  nr_frame : frame c c';
  nr_runtime : ∃ l, ct_runtime c' = set_ledger (ct_runtime c) l;
  nr_records : ls_records (ct_ledger c') = ls_records (ct_ledger c);
  nr_sequence : ls_next_sequence (ct_ledger c') = ls_next_sequence (ct_ledger c);
  nr_files : ct_files c' = ct_files c;
  nr_uuids : ct_uuids c' = ct_uuids c;
}.

#[export] Instance near_preorder : PreOrder near.
Proof.
  split.
  - intros c. split; try done. exists (ct_ledger c). by destruct c as [? ? ? ? []].
  - intros c1 c2 c3 [? [l1 H1]] [? [l2 H2]]. split; [by etrans| |congruence..].
    exists l2. by rewrite H2, H1.
Qed.

Lemma near_tasks c c' : near c c' → ct_tasks c' = ct_tasks c.
Proof. intros [_ [l H]]. unfold ct_tasks. by rewrite H. Qed.

Lemma near_run_records c c' run :
  near c c' → run_records (ct_ledger c') run = run_records (ct_ledger c) run.
Proof. intros []. unfold run_records. by rewrite nr_records0. Qed.

(** A call of the ledger that moves leases only. *)
Definition lease_only {A} (f : InMemoryLedgerState → InMemoryLedgerState * result A LedgerError) :=
  ∀ l, ls_records (f l).1 = ls_records l ∧ ls_next_sequence (f l).1 = ls_next_sequence l.

Lemma lease_only_acquire run owner at_ms : lease_only (λ l, acquire_lease l run owner at_ms).
Proof.
  intros l. unfold acquire_lease, slift. destruct (require_owner owner); [|done].
  destruct (match ls_leases l !! run with Some _ => _ | None => _ end); [|done].
  by destruct (ok_or _ _).
Qed.
Lemma lease_only_renew lease at_ms : lease_only (λ l, renew_lease l lease at_ms).
Proof. intros l. unfold renew_lease, slift. by destruct (validate_lease _ _ _). Qed.
Lemma lease_only_release lease : lease_only (λ l, release_lease l lease).
Proof.
  intros l. unfold release_lease, slift. destruct (ok_or _ _); [|done]. by case_decide.
Qed.
Lemma lease_only_commit lease n at_ms : lease_only (λ l, commit_workflow_restore l lease n at_ms).
Proof.
  intros l. unfold commit_workflow_restore, slift. destruct (validate_lease _ _ _); [|done].
  by case_decide.
Qed.

Record nearby {A} (m : M O A) : Prop := nearby_intro { nearby_at : ∀ c, near c (m c).1 }.

Lemma nearby_eq {A} (m : M O A) c c' r : nearby m → m c = (c', r) → near c c'.
Proof. intros [H] Hm. specialize (H c). by rewrite Hm in H. Qed.

Lemma nearby_pure {A} (m : M O A) : (∀ c, (m c).1 = c) → nearby m.
Proof. intros H. split. intros c. by rewrite H. Qed.

Lemma nearby_bind {A B} (m : M O A) (k : A → M O B) :
  nearby m → (∀ a, nearby (k a)) → nearby (cbind m k).
Proof.
  intros [Hm] Hk. split. intros c. unfold cbind. specialize (Hm c).
  destruct (m c) as [c' [a|e]]; simpl in *; [|done]. etrans; [done|apply Hk].
Qed.

Lemma nearby_now : nearby (now E).
Proof. split. intros c. split; try done.
  exists (ct_ledger c). by destruct c as [? ? ? ? []].
Qed.

Lemma nearby_on_ledger {A} (f : InMemoryLedgerState → InMemoryLedgerState * result A LedgerError) :
  lease_only f → nearby (on_ledger f).
Proof.
  intros Hf. split. intros c. unfold on_ledger. specialize (Hf (ct_ledger c)).
  destruct (f (ct_ledger c)) as [l r]. destruct Hf as [H1 H2].
  split; try done. by exists l.
Qed.
End mutation.

Create HintDb nearby.
#[export] Hint Resolve nearby_now nearby_on_ledger lease_only_acquire lease_only_renew
  lease_only_release lease_only_commit : nearby.
#[export] Hint Extern 1 (nearby (cret _)) => by apply nearby_pure : nearby.
#[export] Hint Extern 1 (nearby (cfail _)) => by apply nearby_pure : nearby.
#[export] Hint Extern 1 (nearby (gets _)) => by apply nearby_pure : nearby.
#[export] Hint Extern 1 (nearby (some_or _ _)) => by apply nearby_pure : nearby.
#[export] Hint Extern 1 (nearby (require _ _)) => by apply nearby_pure : nearby.

Ltac nearby :=
  intros;
  first
    [ solve [eauto 3 with nearby]
    | lazymatch goal with
      | |- nearby (cbind _ _) => apply nearby_bind; nearby
      | |- nearby (match ?x with _ => _ end) => destruct x; nearby
      end
    | idtac ].

Section mutation_parts.
Context {O : Type} (E : Env O).

Lemma nearby_ledger_call {A} prefix
    (f : InMemoryLedgerState → InMemoryLedgerState * result A LedgerError) :
  lease_only f → nearby (ledger_call E prefix f).
Proof. intros. unfold ledger_call. nearby. Qed.
Hint Resolve nearby_ledger_call : nearby.

Lemma nearby_acquire_loop fuel run : nearby (acquire_loop E fuel run).
Proof. induction fuel as [|fuel IH]; cbn [acquire_loop]; nearby. Qed.
Hint Resolve nearby_acquire_loop : nearby.
Lemma nearby_acquire run : nearby (acquire_workflow_mutation_guard E run).
Proof. unfold acquire_workflow_mutation_guard. nearby. Qed.
Lemma nearby_own g : nearby (O := O) (own_guard g).
Proof. unfold own_guard. nearby. Qed.
Hint Resolve nearby_own : nearby.
Lemma nearby_validate g : nearby (validate_workflow_mutation_guard E g).
Proof. unfold validate_workflow_mutation_guard. nearby. Qed.
Lemma nearby_release g : nearby (release_workflow_mutation_guard E g).
Proof. unfold release_workflow_mutation_guard. nearby. Qed.
Lemma nearby_commit g n : nearby (commit_projection_high_water E g n).
Proof. unfold commit_projection_high_water. nearby. Qed.
Lemma nearby_renew g : nearby (renew_workflow_mutation_guard E g).
Proof. unfold renew_workflow_mutation_guard. nearby. Qed.
End mutation_parts.
#[export] Hint Resolve nearby_ledger_call nearby_acquire nearby_own nearby_validate nearby_release
  nearby_commit nearby_renew : nearby.

(** ** Inversion of computations *)

Section inversion.
Context {O : Type}.

Lemma cbind_inv {A B} (m : M O A) (k : A → M O B) c c' r :
  cbind m k c = (c', r) →
  (∃ c1 a, m c = (c1, Ok a) ∧ k a c1 = (c', r)) ∨ (∃ e, m c = (c', Err e) ∧ r = Err e).
Proof. unfold cbind, sbind. destruct (m c) as [c1 [a|e]]; [by left; eauto|]. intros [= -> <-]. eauto. Qed.

Lemma cbind_ok {A B} (m : M O A) (k : A → M O B) c c' b :
  cbind m k c = (c', Ok b) ↔ ∃ c1 a, m c = (c1, Ok a) ∧ k a c1 = (c', Ok b).
Proof.
  split; [by intros [?|(e & _ & ?)]%cbind_inv|]. intros (c1 & a & H1 & H2). unfold cbind. by rewrite H1.
Qed.

Lemma gets_inv {A} (f : Controller O → A) c c' r : gets f c = (c', r) → c' = c ∧ r = Ok (f c).
Proof. by intros [= <- <-]. Qed.

Lemma cret_inv {A} (a : A) (c c' : Controller O) r : cret a c = (c', r) → c' = c ∧ r = Ok a.
Proof. by intros [= <- <-]. Qed.

Lemma require_ok b e (c c' : Controller O) u : require b e c = (c', Ok u) → c' = c ∧ b = true.
Proof. unfold require, of_result. destruct b; [by intros [= <-]|done]. Qed.

Lemma some_or_ok {A} (o : option A) e (c c' : Controller O) a :
  some_or o e c = (c', Ok a) → c' = c ∧ o = Some a.
Proof. unfold some_or, of_result. destruct o; [by intros [= <- <-]|done]. Qed.

Lemma of_result_ok {A} (r : result A string) (c c' : Controller O) a :
  of_result r c = (c', Ok a) → c' = c ∧ r = Ok a.
Proof. unfold of_result. destruct r; [by intros [= <- <-]|done]. Qed.

Lemma attempt_inv {A} (m : M O A) c c' r :
  attempt m c = (c', r) → ∃ r0, m c = (c', r0) ∧ r = Ok r0.
Proof. unfold attempt. destruct (m c) as [c1 r0]. intros [= <- <-]. eauto. Qed.
End inversion.

(** Takes the successful computation of a hypothesis apart. *)
Ltac cstep H :=
  lazymatch type of H with
  | cbind _ _ _ = (_, Ok _) =>
      let c := fresh "c" in let a := fresh "a" in let H1 := fresh "H" in
      apply cbind_ok in H as (c & a & H1 & H)
  end.
Ltac csame Hc :=
  lazymatch type of Hc with
  | ?x = ?x => clear Hc
  | ?x = _ => first [subst x | rewrite Hc in *; clear Hc]
  end.
Ltac cok H :=
  let Hc := fresh in
  lazymatch type of H with
  | gets _ _ = (_, _) => apply gets_inv in H as [Hc H]; csame Hc; injection H as ->
  | cret _ _ = (_, _) => apply cret_inv in H as [Hc H]; csame Hc; injection H as ->
  | require _ _ _ = (_, Ok _) => apply require_ok in H as [Hc H]; csame Hc
  | some_or _ _ _ = (_, Ok _) => apply some_or_ok in H as [Hc H]; csame Hc
  | of_result _ _ = (_, Ok _) => apply of_result_ok in H as [Hc H]; csame Hc
  end.

Section mutate.
Context {O : Type} (E : Env O).

Lemma ledger_call_ok {A} prefix (f : InMemoryLedgerState → InMemoryLedgerState * result A LedgerError)
    c c' a :
  ledger_call E prefix f c = (c', Ok a) →
  ∃ l, f (ct_ledger c) = (l, Ok a) ∧ c' = set_ct_ledger l c.
Proof.
  unfold ledger_call, on_ledger. intros H. cstep H.
  destruct (f (ct_ledger c)) as [l r]. injection H0 as <- <-.
  destruct r; [|done]. apply cret_inv in H as [-> [= ->]]. eauto.
Qed.

(** The lease of a guard covers its Run and observed the last record. *)
Definition guards (g : WorkflowMutationGuard) (run : RunId) (owner : string) (seq : Z) : Prop :=
  gd_run_id g = run ∧ gd_owner_id g = owner ∧
  ∃ lease, gd_lease g = Some lease ∧ wl_run_id lease = run ∧ wl_observed_sequence lease = seq.

Lemma acquired_lease l run owner at_ms l' lease :
  acquire_lease l run owner at_ms = (l', Ok lease) →
  wl_run_id lease = run ∧ wl_observed_sequence lease = last_seq (run_records l run).
Proof.
  unfold acquire_lease. intros (? & _ & H)%slift_ok. apply slift_ok in H as (? & _ & H).
  apply slift_ok in H as (? & _ & H). by injection H as <- <-.
Qed.

Lemma acquire_loop_ok fuel run c c' lease :
  acquire_loop E fuel run c = (c', Ok lease) →
  wl_run_id lease = run ∧ wl_observed_sequence lease = last_seq (run_records (ct_ledger c) run).
Proof.
  revert c. induction fuel as [|fuel IH]; intros c H; cbn [acquire_loop] in H; [done|].
  cstep H. injection H0 as <- <-. cstep H. cok H0. cstep H.
  unfold on_ledger in H0. destruct (acquire_lease _ _ _ _) as [l r] eqn:Ha.
  injection H0 as <- <-. destruct r as [lease'|e].
  - cok H. by apply acquired_lease in Ha.
  - destruct (error_kind e) eqn:Hk; try done. apply IH in H as [H1 H2]. split; [done|].
    rewrite H2. unfold run_records.
    destruct (lease_only_acquire run (ct_mutation_owner_id c) (ev_clock E (ct_ticks c))
      (ct_ledger (set_counters (S (ct_ticks c)) (ct_uuids c) c))) as [Hr _].
    cbv beta in Hr. rewrite Ha in Hr. cbn [fst] in Hr.
    change (ls_records (ct_ledger (set_ct_ledger l _))) with (ls_records l). by rewrite Hr.
Qed.

Lemma acquire_ok run c c' g :
  acquire_workflow_mutation_guard E run c = (c', Ok g) →
  near c c' ∧ guards g run (ct_mutation_owner_id c) (last_seq (run_records (ct_ledger c) run)).
Proof.
  intros H. split; [eapply nearby_eq; [apply nearby_acquire|done]|].
  unfold acquire_workflow_mutation_guard in H. cstep H.
  destruct (decide (logical_append_capability ≠ CapUnsupported)) as [_|n]; [|by destruct n].
  cstep H0. cok H0. pose proof H1 as Hn. apply acquire_loop_ok in H1 as [Hr Ho].
  eapply nearby_eq in Hn; [|eauto using nearby_acquire_loop].
  cstep H. injection H0 as <- <-. cstep H. cok H0. cok H.
  split_and!; [done|simpl; by destruct Hn as [[[] _]]|eauto].
Qed.

Lemma validate_guard_ok g c c' g' run owner seq :
  validate_workflow_mutation_guard E g c = (c', Ok g') → guards g run owner seq →
  ∃ lease, gd_lease g' = Some lease ∧ wl_run_id lease = run ∧ gd_run_id g' = run.
Proof.
  intros H (Hg1 & Hg2 & lease & Hl & Hlr & Hls). unfold validate_workflow_mutation_guard in H.
  do 4 (cstep H). cok H. cok H2. rewrite Hl in H2. injection H2 as <-.
  apply ledger_call_ok in H3 as (l & H3 & ->).
  unfold renew_lease in H3. apply slift_ok in H3 as (cur & _ & H3). injection H3 as <- <-.
  by eexists.
Qed.

Lemma commit_ok g n c c' u lease run :
  commit_projection_high_water E g n c = (c', Ok u) → gd_lease g = Some lease →
  wl_run_id lease = run → last_seq (run_records (ct_ledger c) run) = n.
Proof.
  intros H Hl Hr. unfold commit_projection_high_water in H. cstep H. cok H0.
  rewrite Hl in H0. injection H0 as <-. cstep H. injection H0 as <- <-. cstep H.
  apply ledger_call_ok in H0 as (l & H0 & ->). destruct a; [|done].
  unfold commit_workflow_restore in H0. apply slift_ok in H0 as (cur & _ & H0).
  case_decide as Hd; [done|]. by rewrite <-Hr.
Qed.

Lemma near_set_runs (c c' : Controller O) runs : near c c' → near (set_runs runs c) (set_runs runs c').
Proof. intros [[[] ?] ? ? ? ? ?]. by repeat split. Qed.

Lemma set_runs_set_runs (c : Controller O) runs runs' : set_runs runs (set_runs runs' c) = set_runs runs c.
Proof. done. Qed.

Lemma set_runs_id (c : Controller O) : set_runs (ct_runs c) c = c.
Proof. by destruct c. Qed.

(** What [publish] leaves behind. *)
Inductive published {R} (run : RunId) (g : WorkflowMutationGuard) (act : action R)
    (c c' : Controller O) : result R CtError → Prop :=
  | published_not c2 res e :
      act g (pj_snapshot <$> ct_runs c !! run) c = (c2, res) → near c2 c' →
      published run g act c c' (Err e)
  | published_new c2 prepared v p :
      act g (pj_snapshot <$> ct_runs c !! run) c = (c2, Ok (prepared, v)) →
      p = (λ s, {| pj_snapshot := s;
                   pj_durable_sequence := last_seq (run_records (ct_ledger c2) run) |}) <$> prepared →
      near (set_runs (partial_alter (λ _, p) run (ct_runs c)) c2) c' →
      published run g act c c' (Ok v).

Lemma near_set_projection run p (c c' : Controller O) u :
  set_projection run p c = (c', Ok u) → c' = set_runs (partial_alter (λ _, p) run (ct_runs c)) c.
Proof. by intros [= <-]. Qed.

Lemma publish_cases {R} run g (act : action R) c c' r owner seq :
  (∀ g p, framed (act g p)) → guards g run owner seq →
  publish E run g (ct_runs c !! run) act c = (c', r) →
  published run g act c c' r.
Proof.
  intros Hact Hg H. unfold publish in H.
  apply cbind_inv in H as [(c2 & [prepared v] & Ha & H)|(e & Ha & ->)]; [|by econstructor].
  pose proof (framed_eq _ _ _ _ (Hact _ _) Ha) as [_ Hruns].
  apply cbind_inv in H as [(c3 & g' & Hv & H)|(e & Hv & ->)];
    [|by econstructor; [|eapply nearby_eq, Hv; auto with nearby]].
  pose proof Hv as Hn3. eapply nearby_eq in Hn3; [|auto with nearby].
  eapply validate_guard_ok in Hv as (lease & Hl & Hlr & Hgr); [|done].
  apply cbind_inv in H as [(c4 & lease' & H4 & H)|(e & H4 & ->)]; [|by rewrite Hl in H4].
  cok H4. rewrite Hl in H4. injection H4 as <-.
  apply cbind_inv in H as [(c5 & cur & H5 & H)|(e & H5 & ->)]; [|done]. cok H5.
  apply cbind_inv in H as [(c6 & [] & H6 & H)|(e & H6 & ->)].
  2:{ unfold require, of_result in H6. injection H6 as <- _. by econstructor. }
  cok H6. apply cbind_inv in H as [(c7 & [] & H7 & H)|(e & H7 & ->)]; [|done].
  apply near_set_projection in H7. subst c7.
  apply cbind_inv in H as [(c8 & res & H8 & H)|(e & (? & _ & ?)%attempt_inv & ->)]; [|done].
  apply attempt_inv in H8 as (r0 & H8 & [= ->]).
  pose proof H8 as Hn8. eapply nearby_eq in Hn8; [|auto with nearby].
  assert (ct_runs c3 = ct_runs c) as Hr3 by (rewrite <-Hruns; apply Hn3). rewrite Hr3 in Hn8, H8.
  destruct r0 as [[]|e].
  - apply cret_inv in H as [-> ->]. apply commit_ok with (lease := lease) (run := run) in H8; [|done..].
    change (ct_ledger (set_runs _ c3)) with (ct_ledger c3) in H8.
    rewrite (near_run_records _ _ run Hn3) in H8.
    eapply published_new; [done|done|]. rewrite H8. etrans; [|exact Hn8]. by apply near_set_runs.
  - apply cbind_inv in H as [(c9 & [] & H9 & H)|(e' & H9 & ->)]; [|done].
    apply near_set_projection in H9. subst c9. injection H as <- <-.
    assert (partial_alter (λ _, ct_runs c !! run) run (ct_runs c8) = ct_runs c) as ->.
    { rewrite (fr_runs _ _ (nr_frame _ _ Hn8)). simpl.
      apply map_eq. intros i. destruct (decide (i = run)) as [->|Hi];
        [by rewrite lookup_partial_alter_eq|by rewrite !lookup_partial_alter_ne]. }
    econstructor; [done|]. rewrite <-(set_runs_id c2), Hruns.
    apply near_set_runs with (runs := ct_runs c) in Hn8.
    etrans; [|exact Hn8]. rewrite set_runs_set_runs. by apply near_set_runs.
Qed.

Definition projection_sequence (p : option WorkflowProjection) : Z :=
  match p with Some p => pj_durable_sequence p | None => 0 end.

(** A mutation that did not start its action moved leases only; one that did
    found its projection current. *)
Inductive mutated {R} (run : RunId) (act : action R) (c c' : Controller O) : result R CtError → Prop :=
  | mutated_refused e : near c c' → mutated run act c c' (Err e)
  | mutated_failed g c1 c2 res e :
      near c c1 → guards g run (ct_mutation_owner_id c) (last_seq (run_records (ct_ledger c) run)) →
      projection_sequence (ct_runs c !! run) = last_seq (run_records (ct_ledger c) run) →
      act g (pj_snapshot <$> ct_runs c !! run) c1 = (c2, res) → near c2 c' →
      mutated run act c c' (Err e)
  | mutated_new g c1 c2 prepared v p r :
      near c c1 → guards g run (ct_mutation_owner_id c) (last_seq (run_records (ct_ledger c) run)) →
      projection_sequence (ct_runs c !! run) = last_seq (run_records (ct_ledger c) run) →
      act g (pj_snapshot <$> ct_runs c !! run) c1 = (c2, Ok (prepared, v)) →
      p = (λ s, {| pj_snapshot := s;
                   pj_durable_sequence := last_seq (run_records (ct_ledger c2) run) |}) <$> prepared →
      near (set_runs (partial_alter (λ _, p) run (ct_runs c)) c2) c' →
      (r = Ok v ∨ ∃ e, r = Err e) →
      mutated run act c c' r.

Lemma mutate_cases {R} run (act : action R) c c' r :
  (∀ g p, framed (act g p)) → mutate_projection E run act c = (c', r) → mutated run act c c' r.
Proof.
  intros Hact H. unfold mutate_projection in H.
  apply cbind_inv in H as [(c1 & g & Hg & H)|(e & He & ->)];
    [|apply mutated_refused; eapply nearby_eq, He; auto with nearby].
  apply acquire_ok in Hg as [Hn1 Hg].
  apply cbind_inv in H as [(c2 & orig & H2 & H)|(e & H2 & ->)]; [|done]. cok H2.
  apply cbind_inv in H as [(c3 & cur & H3 & H)|(e & (? & _ & ?)%attempt_inv & ->)]; [|done].
  apply attempt_inv in H3 as (r3 & H3 & [= ->]).
  apply cbind_inv in H as [(c4 & res & H4 & H)|(e & H4 & ->)];
    [|destruct r3; [apply attempt_inv in H4 as (? & _ & ?)|]; done].
  apply cbind_inv in H as [(c5 & rel & H5 & H)|(e & (? & _ & ?)%attempt_inv & ->)]; [|done].
  apply attempt_inv in H5 as (r5 & H5 & [= ->]).
  eapply nearby_eq in H5; [|auto with nearby].
  assert (c' = c5 ∧ (r = res ∨ ∃ e, r = Err e)) as [-> Hr].
  { unfold after_release in H. destruct res, r5; injection H as <- <-; eauto. }
  assert (c3 = c1) as ->.
  { unfold require_current_projection in H3. destruct (gd_lease g); [|by injection H3].
    unfold cbind, some_or, of_result, require in H3. simpl in H3.
    by destruct (bool_decide _); injection H3. }
  destruct r3 as [[]|e3].
  2:{ injection H4 as <- <-. assert (∃ e, r = Err e) as [e ->] by naive_solver.
      apply mutated_refused. by etrans. }
  apply attempt_inv in H4 as (r4 & H4 & [= ->]).
  eapply publish_cases in H4; [|done..].
  assert (ct_runs c1 = ct_runs c) as Hr1 by apply Hn1.
  assert (projection_sequence (ct_runs c !! run) = last_seq (run_records (ct_ledger c) run)) as Hs.
  { destruct Hg as (_ & _ & lease & Hl & _ & <-). unfold require_current_projection in H3.
    cstep H3. cok H0. rewrite Hl in H0. injection H0 as <-. apply require_ok in H3 as [_ H3].
    apply bool_decide_eq_true in H3. by rewrite Hr1 in H3. }
  destruct H4 as [c2 res e Ha Hn|c2 prepared v p Ha -> Hn]; rewrite Hr1 in *.
  - assert (∃ e, r = Err e) as [e' ->] by naive_solver.
    eapply mutated_failed; [done..|by etrans].
  - eapply mutated_new; [done..|by etrans|]. destruct Hr as [->|]; eauto.
Qed.
End mutate.

(** * The lease of a Run, when nobody interferes *)
(** ** Computations that succeed *)

Section ends.
Context {O : Type}.

(** The computation returns a value, with [Q]. *)
Definition ends {A} (m : M O A) (c : Controller O) (Q : A → Controller O → Prop) : Prop :=
  match m c with (c', Ok a) => Q a c' | (_, Err _) => False end.

Lemma ends_mono {A} (m : M O A) c (Q Q' : A → Controller O → Prop) :
  ends m c Q → (∀ a c', Q a c' → Q' a c') → ends m c Q'.
Proof. unfold ends. destruct (m c) as [c' [a|e]]; auto. Qed.

Lemma ends_bind {A B} (m : M O A) (k : A → M O B) c Q :
  ends m c (λ a c', ends (k a) c' Q) → ends (cbind m k) c Q.
Proof. unfold ends, cbind. by destruct (m c) as [c' [a|e]]. Qed.

Lemma ends_attempt {A} (m : M O A) c Q : ends m c (λ a c', Q (Ok a) c') → ends (attempt m) c Q.
Proof. unfold ends, attempt. by destruct (m c) as [c' [a|e]]. Qed.

Lemma ends_require b e (c : Controller O) Q : b = true → Q tt c → ends (require b e) c Q.
Proof. by intros ->. Qed.

Lemma ends_some {A} (o : option A) e a (c : Controller O) Q : o = Some a → Q a c → ends (some_or o e) c Q.
Proof. by intros ->. Qed.

Lemma ends_ledger {A} (E : Env O) prefix (f : InMemoryLedgerState → InMemoryLedgerState * result A LedgerError)
    c l a Q :
  f (ct_ledger c) = (l, Ok a) → Q a (set_ct_ledger l c) → ends (ledger_call E prefix f) c Q.
Proof. intros H HQ. unfold ends, ledger_call, cbind, on_ledger. by rewrite H. Qed.

Lemma ends_now (E : Env O) c Q :
  Q (ev_clock E (ct_ticks c)) (set_counters (S (ct_ticks c)) (ct_uuids c) c) → ends (now E) c Q.
Proof. done. Qed.
End ends.

(** The clock does not go back, and a lease does not expire between four
    readings. *)
Definition steady {O} (E : Env O) : Prop :=
  ∀ i j, i ≤ j → j ≤ i + 3 →
    (ev_clock E i ≤ ev_clock E j)%Z ∧ (ev_clock E j < lease_expiry (ev_clock E i))%Z.

Section leases.
Context {O : Type} (E : Env O).
Hypothesis clock : steady E.
Context (run : RunId) (owner : string) (epoch : Z).
Hypothesis Hrun : run ≠ "".

Record guards_epoch (g : WorkflowMutationGuard) (lease : WorkflowMutationLease) : Prop := {
  ge_run : gd_run_id g = run;
  ge_owner : gd_owner_id g = owner;
  ge_lease : gd_lease g = Some lease;
  ge_lease_run : wl_run_id lease = run;
  ge_lease_owner : wl_owner_id lease = owner;
  ge_lease_epoch : wl_epoch lease = epoch;
}.

Definition guard_ok (g : WorkflowMutationGuard) : Prop := ∃ lease, guards_epoch g lease.

(** The ledger holds the lease, last touched [k] readings of the clock ago or
    less. *)
Record leased (k : nat) (c : Controller O) : Prop := {
  le_owner : ct_mutation_owner_id c = owner;
  le_lease : ∃ t cur, t < ct_ticks c ∧ ct_ticks c ≤ t + k ∧
    ls_leases (ct_ledger c) !! run = Some cur ∧ il_owner_id cur = Some owner ∧ il_epoch cur = epoch ∧
    il_heartbeat_at_unix_ms cur = ev_clock E t ∧ il_expires_at_unix_ms cur = lease_expiry (ev_clock E t) ∧
    il_observed_sequence cur = last_seq (run_records (ct_ledger c) run);
}.

Lemma leased_weaken k k' c : leased k c → k ≤ k' → leased k' c.
Proof. intros [Ho (t & cur & H1 & H2 & H)] Hk. split; [done|]. exists t, cur. split; [done|]. split; [lia|done]. Qed.

Lemma ends_own k g c Q : guard_ok g → leased k c → Q tt c → ends (own_guard g) c Q.
Proof.
  intros [lease Hg] Hl HQ. unfold own_guard. apply ends_bind. change (ends _ _ _) with
    (ends (require (negb (is_empty_string (gd_run_id g)) && bool_decide (gd_owner_id g = ct_mutation_owner_id c))
       "Workflow mutation guard does not belong to this Controller") c Q).
  apply ends_require; [|done]. rewrite (ge_run _ _ Hg), (ge_owner _ _ Hg), (le_owner _ _ Hl).
  rewrite (bool_decide_eq_true_2 (owner = owner)) by done. unfold is_empty_string.
  by rewrite bool_decide_eq_false_2.
Qed.

(** A call of the ledger with the lease, at the next reading of the clock. *)
Lemma leased_valid k c lease g :
  guards_epoch g lease → leased k c → k ≤ 3 →
  ∃ cur, validate_lease (ct_ledger c) lease (ev_clock E (ct_ticks c)) = Ok cur ∧
    il_owner_id cur = Some owner ∧ il_epoch cur = epoch ∧
    il_observed_sequence cur = last_seq (run_records (ct_ledger c) run).
Proof.
  intros Hg [_ (t & cur & H1 & H2 & Hcur & Ho & He & Hh & Hx & Hs)] Hk. exists cur. split; [|done].
  destruct (clock t (ct_ticks c)) as [Hle Hlt]; [lia..|].
  unfold validate_lease. rewrite (ge_lease_run _ _ Hg), Hcur. cbn [ok_or rbind].
  unfold require_current, reject_clock_rollback. rewrite Hh, decide_False by lia. cbn [rbind].
  rewrite decide_False; [done|]. rewrite (ge_lease_owner _ _ Hg), (ge_lease_epoch _ _ Hg).
  intros [?|[?|?]]; [done..|lia].
Qed.

(** The lease is touched at that reading. *)
Lemma leased_set k c cur :
  leased k c → il_owner_id cur = Some owner → il_epoch cur = epoch →
  il_heartbeat_at_unix_ms cur = ev_clock E (ct_ticks c) →
  il_expires_at_unix_ms cur = lease_expiry (ev_clock E (ct_ticks c)) →
  il_observed_sequence cur = last_seq (run_records (ct_ledger c) run) →
  leased 1 (set_ct_ledger (set_lease (ct_ledger c) run cur) (set_counters (S (ct_ticks c)) (ct_uuids c) c)).
Proof.
  intros Hl Ho He Hh Hx Hs. split; [apply Hl|]. exists (ct_ticks c), cur. simpl. rewrite lookup_insert_eq.
  split_and!; try done; lia.
Qed.

Lemma ends_validate k g c :
  guard_ok g → leased k c → k ≤ 3 →
  ends (validate_workflow_mutation_guard E g) c (λ g' c', guard_ok g' ∧ leased 1 c' ∧ near c c' ∧
    ∃ lease, gd_lease g' = Some lease ∧
             wl_observed_sequence lease = last_seq (run_records (ct_ledger c) run)).
Proof.
  intros [lease Hg] Hl Hk. destruct (leased_valid k c lease g Hg Hl Hk) as (cur & Hv & Ho & He & Hs).
  pose proof (nearby_eq (validate_workflow_mutation_guard E g) c) as Hnear.
  enough (ends (validate_workflow_mutation_guard E g) c (λ g' c', guard_ok g' ∧ leased 1 c' ∧
    ∃ lease, gd_lease g' = Some lease ∧ wl_observed_sequence lease = last_seq (run_records (ct_ledger c) run))) as He'.
  { unfold ends in *. destruct (validate_workflow_mutation_guard E g c) as [c' [g'|]]; [|done].
    destruct He' as (? & ? & ?). split_and!; try done. eapply Hnear; [|done]. apply nearby_validate. }
  unfold validate_workflow_mutation_guard. apply ends_bind. eapply ends_own; [by eexists|done|].
  apply ends_bind, ends_now, ends_bind. eapply ends_some; [apply Hg|]. apply ends_bind.
  eapply ends_ledger.
  { unfold renew_lease. change (ct_ledger (set_counters _ _ c)) with (ct_ledger c). rewrite Hv. cbn [slift]. reflexivity. }
  rewrite (ge_lease_run _ _ Hg). split_and!.
  - eexists. split; simpl; try done; apply Hg.
  - by eapply leased_set.
  - eexists. split; [reflexivity|]. done.
Qed.

(** A commit of the sequence the ledger has reached. *)
Lemma commit_current k g c lease :
  guards_epoch g lease → leased k c → k ≤ 3 →
  ∃ cur, commit_workflow_restore (ct_ledger c) lease (last_seq (run_records (ct_ledger c) run))
      (ev_clock E (ct_ticks c)) = (set_lease (ct_ledger c) run cur, Ok CommitCurrent) ∧
    leased 1 (set_ct_ledger (set_lease (ct_ledger c) run cur) (set_counters (S (ct_ticks c)) (ct_uuids c) c)).
Proof.
  intros Hg Hl Hk. destruct (leased_valid k c lease g Hg Hl Hk) as (cur & Hv & Ho & He & Hs).
  eexists. split.
  - unfold commit_workflow_restore. rewrite Hv. cbn [slift]. rewrite (ge_lease_run _ _ Hg).
    rewrite decide_False by (intros H; by apply H). reflexivity.
  - by eapply leased_set.
Qed.

Lemma ends_commit k g c :
  guard_ok g → leased k c → k ≤ 3 →
  ends (commit_projection_high_water E g (last_seq (run_records (ct_ledger c) run))) c
    (λ _ c', leased 1 c' ∧ near c c').
Proof.
  intros [lease Hg] Hl Hk. destruct (commit_current k g c lease Hg Hl Hk) as (cur & Hc & Hl').
  pose proof (nearby_eq (commit_projection_high_water E g (last_seq (run_records (ct_ledger c) run))) c) as Hnear.
  enough (ends (commit_projection_high_water E g (last_seq (run_records (ct_ledger c) run))) c (λ _ c', leased 1 c')) as He'.
  { unfold ends in *. destruct (commit_projection_high_water _ _ _ c) as [c' [u|]]; [|done]. split; [done|].
    eapply Hnear; [|done]. apply nearby_commit. }
  unfold commit_projection_high_water. apply ends_bind. eapply ends_some; [apply Hg|].
  apply ends_bind, ends_now, ends_bind. eapply ends_ledger; [exact Hc|]. exact Hl'.
Qed.

Lemma ends_renew k g c :
  guard_ok g → leased k c → k ≤ 2 →
  ends (renew_workflow_mutation_guard E g) c (λ g' c', guard_ok g' ∧ leased (S k) c' ∧ near c c').
Proof.
  intros [lease Hg] Hl Hk. destruct (leased_valid k c lease g Hg Hl) as (cur & Hv & Ho & He & Hs); [lia|].
  pose proof (nearby_eq (renew_workflow_mutation_guard E g) c) as Hnear.
  enough (ends (renew_workflow_mutation_guard E g) c (λ g' c', guard_ok g' ∧ leased (S k) c')) as He'.
  { unfold ends in *. destruct (renew_workflow_mutation_guard E g c) as [c' [g'|]]; [|done].
    destruct He'. split_and!; try done. eapply Hnear; [|done]. apply nearby_renew. }
  unfold renew_workflow_mutation_guard. apply ends_bind. eapply ends_own; [by eexists|done|].
  apply ends_bind, ends_now. case_decide.
  - split; [by eexists|]. destruct Hl as [Hlo (t & cur' & H1 & H2 & Hrest)]. split; [done|].
    exists t, cur'. split; [simpl; lia|]. split; [simpl; lia|done].
  - rewrite (ge_lease _ _ Hg). apply ends_bind. eapply ends_ledger.
    { unfold renew_lease. change (ct_ledger (set_counters _ _ c)) with (ct_ledger c). rewrite Hv. cbn [slift]. reflexivity. }
    rewrite (ge_lease_run _ _ Hg). split.
    + eexists. split; simpl; try done; apply Hg.
    + eapply leased_weaken; [by eapply leased_set|lia].
Qed.

Lemma ends_commit_restore k g c :
  guard_ok g → leased k c → k ≤ 2 →
  ends (commit_restore_high_water E g (last_seq (run_records (ct_ledger c) run))) c
    (λ g' c', guard_ok g' ∧ leased 1 c' ∧ near c c').
Proof.
  intros Hg Hl Hk. unfold commit_restore_high_water. apply ends_bind.
  eapply ends_mono; [by eapply ends_renew|]. intros g1 c1 ([lease Hg1] & Hl1 & Hn).
  rewrite (ge_lease _ _ Hg1). apply ends_bind, ends_now, ends_bind.
  destruct (commit_current (S k) g1 c1 lease Hg1 Hl1) as (cur & Hc & Hl'); [lia|].
  rewrite (near_run_records _ _ run Hn) in Hc. eapply ends_ledger; [exact Hc|]. simpl. split_and!; [by eexists|exact Hl'|].
  etrans; [exact Hn|]. split; done || by eexists.
Qed.

Lemma ends_release k g c :
  guard_ok g → leased k c → ends (release_workflow_mutation_guard E g) c (λ _ c', near c c').
Proof.
  intros [lease Hg] Hl. pose proof (nearby_eq (release_workflow_mutation_guard E g) c) as Hnear.
  enough (ends (release_workflow_mutation_guard E g) c (λ _ _, True)) as He'.
  { unfold ends in *. destruct (release_workflow_mutation_guard E g c) as [c' [u|]]; [|done].
    eapply Hnear; [|done]. apply nearby_release. }
  unfold release_workflow_mutation_guard. apply ends_bind. eapply ends_own; [by eexists|done|].
  rewrite (ge_lease _ _ Hg). destruct Hl as [_ (t & cur & _ & _ & Hc & Ho & He & _)].
  eapply ends_ledger; [|exact I]. unfold release_lease. rewrite (ge_lease_run _ _ Hg), Hc. cbn [ok_or slift].
  rewrite decide_False; [reflexivity|]. rewrite (ge_lease_owner _ _ Hg), (ge_lease_epoch _ _ Hg). intros [?|?]; done.
Qed.
End leases.

(** ** Acquisition *)

Lemma ends_acquire {O} (E : Env O) (run : RunId) c l lease :
  acquire_lease (ct_ledger c) run (ct_mutation_owner_id c) (ev_clock E (ct_ticks c)) = (l, Ok lease) →
  ends (acquire_workflow_mutation_guard E run) c (λ g c', near c c' ∧
    guard_ok run (ct_mutation_owner_id c) (wl_epoch lease) g ∧
    leased E run (ct_mutation_owner_id c) (wl_epoch lease) 2 c').
Proof.
  intros Ha. pose proof (nearby_eq (acquire_workflow_mutation_guard E run) c) as Hnear.
  enough (ends (acquire_workflow_mutation_guard E run) c (λ g c',
    guard_ok run (ct_mutation_owner_id c) (wl_epoch lease) g ∧
    leased E run (ct_mutation_owner_id c) (wl_epoch lease) 2 c')) as He.
  { unfold ends in *. destruct (acquire_workflow_mutation_guard E run c) as [c' [g|]]; [|done].
    destruct He. split_and!; try done. eapply Hnear; [|done]. apply nearby_acquire. }
  unfold acquire_workflow_mutation_guard. apply ends_bind.
  destruct (decide (logical_append_capability ≠ CapUnsupported)) as [_|n]; [|by destruct n].
  apply ends_bind. cbn [acquire_loop]. apply ends_bind, ends_now, ends_bind.
  change (ends (gets ct_mutation_owner_id) ?c ?Q) with (Q (ct_mutation_owner_id c) c). cbv beta.
  apply ends_bind. unfold ends at 1, on_ledger.
  change (ct_ledger (set_counters _ _ c)) with (ct_ledger c).
  change (ct_mutation_owner_id (set_counters _ _ c)) with (ct_mutation_owner_id c). rewrite Ha.
  unfold acquire_lease in Ha. apply slift_ok in Ha as (? & _ & Ha). apply slift_ok in Ha as (? & _ & Ha).
  apply slift_ok in Ha as (e & _ & Ha). injection Ha as <- <-.
  split.
  - eexists. split; reflexivity.
  - split; [done|]. exists (ct_ticks c). eexists. simpl. rewrite lookup_insert_eq. split_and!; try done; lia.
Qed.
