(* ===== verification/WorkflowMoves.v ===== *)
(** * The moves of a Workflow Run

    An abstract machine of one Run: [run_move] lists what can happen to the
    snapshot of a Run whose definition is among [defs], and [run_started] how a
    Run comes to be.  [run_op_moves] shows that every change the controller
    makes ([run_op], success or error, at any point of the way) is made of such
    moves, for the changed Run and for all the others; [ctl_step] of
    WorkflowRegistry adds the registry and what other components do, so that an
    invariant of the machine is one of the controller. *)
From S2P Require Import ResourceTypes Prelude Json Types TaskRegistry RuntimeLedger WorkflowTypes WorkflowValidation WorkflowReferences Identity Registries LedgerInterface MessageBus CollaborationTypes CollaborationRuntime CollaborationTasks CollaborationRestore WorkflowRuns WorkflowInputs WorkflowController WorkflowRegistration WorkflowCompletion WorkflowNodes WorkflowExecution WorkflowRestore WorkflowFrames.

Definition next_number (a : WorkflowNodeAttempt) : Z :=
  if na_resume_existing_attempt a then na_attempt_number a
  else ((na_attempt_number a + 1) mod (u32_max + 1))%Z.

Section moves.
Context (sha256 : string → list Byte.byte) (to_vec : Value → string).
Context (defs : gmap string WorkflowDefinition).

(** The node is one of the definition of the Run. *)
Definition defined_node (s : WorkflowRunSnapshot) (node : WorkflowNode) : Prop :=
  ∃ d, defs !! wr_workflow_id s = Some d ∧ node ∈ wd_nodes d.

Inductive run_move (s : WorkflowRunSnapshot) : WorkflowRunSnapshot → Prop :=
  | move_begin node a attempt_id bound :
      wr_status s = RRunning → defined_node s node → node_ready s node = true →
      wr_nodes s !! wn_id node = Some a →
      build_bound_inputs node (dependency_outputs node (wr_nodes s)) = Ok bound →
      run_move s (set_node s (wn_id node) (running_attempt a attempt_id (next_number a)
        (node_input_digest sha256 to_vec (wr_parameters s)
           (dependency_outputs node (wr_nodes s)) bound)))
  | move_fail_before node a error :
      wr_status s = RRunning → defined_node s node → node_ready s node = true →
      wr_nodes s !! wn_id node = Some a →
      run_move s (set_node s (wn_id node) (failed_before a error))
  | move_complete node a output output_ref committed :
      wr_status s = RRunning → defined_node s node →
      wr_nodes s !! wn_id node = Some a → na_status a = NRunning →
      run_move s (set_node s (wn_id node) (completed_attempt a output output_ref committed))
  | move_fail node a e deferred :
      wr_status s = RRunning → defined_node s node →
      wr_nodes s !! wn_id node = Some a → na_status a = NRunning →
      run_move s (set_node s (wn_id node) (failed_attempt a e (retry_status node a e) deferred))
  | move_skip node a :
      defined_node s node → node_skippable s node = true →
      wr_nodes s !! wn_id node = Some a →
      run_move s (set_node s (wn_id node) (skipped_attempt a))
  | move_clear id a :
      wr_nodes s !! id = Some a → run_move s (set_node s id (clear_deferred a))
  | move_settle :
      some_node s (λ st, bool_decide (st = NRunning)) = false →
      run_move s (with_status s (settled_status s) (settled_summary s))
  | move_cancel reason :
      wr_status s = RRunning → run_move s (cancelled_snapshot s reason).

(** The snapshot a Run starts with. *)
Record run_started (run : RunId) (s : WorkflowRunSnapshot) : Prop := {
  rs_run_id : wr_run_id s = run;
  rs_status : wr_status s = RRunning;
  rs_definition : ∃ d, defs !! wr_workflow_id s = Some d ∧
    wr_workflow_definition_digest s = Some (definition_digest sha256 to_vec d) ∧
    dom (wr_nodes s) = list_to_set (wn_id <$> wd_nodes d);
  rs_nodes : ∀ id a, wr_nodes s !! id = Some a → ∃ u, a = initial_attempt id u;
}.

(** What happens to every Run. *)
Definition runs_move (before after : gmap RunId WorkflowProjection) : Prop :=
  ∀ run,
    match before !! run, after !! run with
    | Some p, Some p' => rtc run_move (pj_snapshot p) (pj_snapshot p')
    | None, Some p' => run_started run (pj_snapshot p')
    | Some _, None => False
    | None, None => True
    end.

Lemma runs_move_refl m : runs_move m m.
Proof. intros run. by destruct (m !! run). Qed.

Lemma runs_move_one m run (p : option WorkflowProjection) :
  match m !! run, p with
  | Some p, Some p' => rtc run_move (pj_snapshot p) (pj_snapshot p')
  | None, Some p' => run_started run (pj_snapshot p')
  | Some _, None => False
  | None, None => True
  end → runs_move m (partial_alter (λ _, p) run m).
Proof.
  intros H i. destruct (decide (i = run)) as [->|Hi];
    [by rewrite lookup_partial_alter_eq|rewrite lookup_partial_alter_ne by done].
  by destruct (m !! i).
Qed.
End moves.

(** The end of an action: the snapshot to publish and its value. *)
Ltac cdone H := apply cret_inv in H as [-> [= -> ->]].

Section simulation.
Context {O : Type} (E : Env O).
Notation moves c := (run_move (ev_sha256 E) (ev_to_vec E) (ct_definitions c)).
Notation all_move c := (runs_move (ev_sha256 E) (ev_to_vec E) (ct_definitions c)).

(** ** When a change is made *)

(** A node that waits is ready. *)
Definition ready_if_pending (s : WorkflowRunSnapshot) (node : WorkflowNode) : bool :=
  negb (is_pending s node) || node_ready s node.

(** The executor begins the nodes that are ready, fails those whose inputs
    cannot be bound and skips those whose condition is false. *)
Definition in_run (c : Controller O) (run : RunId) (node : WorkflowNode)
    (P : WorkflowRunSnapshot → WorkflowNode → bool) : Prop :=
  ∃ s, run_snapshot c run = Some s ∧ defined_node (ct_definitions c) s node ∧ P s node = true.

Definition op_allowed (c : Controller O) (op : RunOp) : Prop :=
  match op with
  | OpBegin run node => in_run c run node node_ready
  | OpFailBefore run node _ => in_run c run node ready_if_pending
  | OpSkip run node_id => ∃ node, wn_id node = node_id ∧ in_run c run node node_skippable
  | _ => True
  end.

(** The part of [c] an action reads is the one of the state before. *)
Definition action_moves {R} (run : RunId) (act : action R) (c : Controller O) : Prop :=
  ∀ g c1 c2 prepared v,
    frame c c1 → act g (run_snapshot c run) c1 = (c2, Ok (prepared, v)) →
    match run_snapshot c run, prepared with
    | Some s, Some s' => rtc (moves c) s s'
    | None, Some s' => run_started (ev_sha256 E) (ev_to_vec E) (ct_definitions c) run s'
    | Some _, None => False
    | None, None => True
    end.

Lemma mutate_moves {R} run (act : action R) c c' r :
  (∀ g p, framed (act g p)) → action_moves run act c →
  mutate_projection E run act c = (c', r) →
  same_registry c c' ∧ all_move c (ct_runs c) (ct_runs c').
Proof.
  intros Hf Hact H. apply mutate_cases in H; [|done].
  destruct H as [e Hn|g c1 c2 res e Hn _ _ Ha Hn'|g c1 c2 prepared v p r Hn _ _ Ha -> Hn' Hr].
  - destruct Hn as [[? ->]]. auto using runs_move_refl.
  - pose proof (framed_eq _ _ _ _ (Hf _ _) Ha) as [].
    destruct Hn as [[]], Hn' as [[]]. split; [by do 2 (etrans; [done|])|].
    assert (ct_runs c' = ct_runs c) as -> by congruence. apply runs_move_refl.
  - pose proof (framed_eq _ _ _ _ (Hf _ _) Ha) as [].
    assert (frame c c1) as Hc1 by apply Hn. destruct Hn as [[]], Hn' as [[Hr' Hruns]]. split.
    + do 2 (etrans; [done|]). etrans; [|exact Hr']. by destruct Hr'.
    + rewrite Hruns. simpl. apply runs_move_one.
      specialize (Hact g c1 c2 prepared v Hc1 Ha). unfold run_snapshot in Hact.
      by destruct (ct_runs c !! run), prepared.
Qed.

(** ** The actions *)

Lemma in_run_snapshot c run node P s :
  in_run c run node P → run_snapshot c run = Some s →
  defined_node (ct_definitions c) s node ∧ P s node = true.
Proof. intros (s' & Hs & Hd & HP) Hs'. rewrite Hs in Hs'. by injection Hs' as <-. Qed.

Lemma known_run_ok run o (c c' : Controller O) s : known_run run o c = (c', Ok s) → c' = c ∧ o = Some s.
Proof. apply some_or_ok. Qed.
Lemma known_node_ok s id (c c' : Controller O) a :
  known_node s id c = (c', Ok a) → c' = c ∧ wr_nodes s !! id = Some a.
Proof. apply some_or_ok. Qed.

Lemma next_attempt_ok a c c' id n :
  next_attempt E a c = (c', Ok (id, n)) → n = next_number a.
Proof.
  unfold next_attempt, next_number. destruct (na_resume_existing_attempt a); intros H; [by cok H|].
  cstep H. by cok H.
Qed.

Lemma begin_moves run node c :
  in_run c run node node_ready → action_moves run (begin_action E run node) c.
Proof.
  intros Hin g c1 c2 prepared v Hc1 H. unfold begin_action in H.
  cstep H. apply known_run_ok in H0 as [-> Hs]. cstep H. cok H0.
  apply bool_decide_eq_true in H0 as Hst. cstep H. cok H1.
  destruct (build_bound_inputs _ _) as [bound|] eqn:Hb; [|done]. injection H1 as <-.
  cstep H. apply known_node_ok in H1 as [-> Ha]. cstep H. cok H1. cstep H.
  destruct a3 as [id n]. apply next_attempt_ok in H2 as ->. cstep H. cdone H. rewrite Hs. destruct (in_run_snapshot _ _ _ _ _ Hin Hs).
  apply rtc_once. by apply move_begin.
Qed.

Lemma unchanged_moves {R} (run : RunId) (c : Controller O) (prepared : option WorkflowRunSnapshot) 
    (v v' : R) (c1 c2 : Controller O) :
  cret (run_snapshot c run, v) c1 = (c2, Ok (prepared, v')) →
  match run_snapshot c run, prepared with
  | Some s, Some s' => rtc (moves c) s s'
  | None, Some s' => run_started (ev_sha256 E) (ev_to_vec E) (ct_definitions c) run s'
  | Some _, None => False
  | None, None => True
  end.
Proof. intros H. cdone H. by destruct (run_snapshot c run). Qed.

Lemma fail_before_moves run node e c :
  in_run c run node ready_if_pending → action_moves run (fail_before_action E run node e) c.
Proof.
  intros Hin g c1 c2 prepared v Hc1 H. unfold fail_before_action in H.
  cstep H. apply known_run_ok in H0 as [-> Hs]. case_decide as Hst; [by apply unchanged_moves in H|].
  cstep H. apply known_node_ok in H0 as [-> Ha]. case_decide as Hp; [by apply unchanged_moves in H|].
  cstep H. cstep H. cdone H. rewrite Hs.
  destruct (in_run_snapshot _ _ _ _ _ Hin Hs) as [Hd Hr].
  unfold ready_if_pending, is_pending in Hr. rewrite Ha, bool_decide_eq_true_2 in Hr by done.
  apply rtc_once. by apply move_fail_before.
Qed.

Lemma find_node_elem d id node : find_node d id = Some node → node ∈ wd_nodes d ∧ wn_id node = id.
Proof.
  unfold find_node. intros [Hin Hid]%find_some. split; [by apply list_elem_of_In|].
  by apply bool_decide_eq_true in Hid.
Qed.

Lemma complete_moves run id attempt_id output c :
  action_moves run (complete_action E run id attempt_id output) c.
Proof.
  intros g c1 c2 prepared v Hc1 H. unfold complete_action in H.
  cstep H. apply known_run_ok in H0 as [-> Hs]. case_decide as Hst; [by apply unchanged_moves in H|].
  cstep H. cok H0. cstep H. cok H0. destruct (definition c1 _) as [d|] eqn:Hd; [|done].
  apply find_node_elem in H0 as [Hin <-]. cstep H. apply known_node_ok in H0 as [-> Ha].
  case_decide as Hr; [by apply unchanged_moves in H|]. do 8 (cstep H). cdone H.
  rewrite Hs. apply rtc_once. apply move_complete; [done| |done|apply dec_stable; tauto].
  exists d. split; [|done]. unfold definition in Hd. by rewrite (sr_definitions _ _ (fr_registry _ _ Hc1)) in Hd.
Qed.

Lemma fail_moves run node attempt_id e c s :
  run_snapshot c run = Some s → defined_node (ct_definitions c) s node →
  action_moves run (fail_action E run node (wn_id node) attempt_id e) c.
Proof.
  intros Hs Hd g c1 c2 prepared v Hc1 H. unfold fail_action in H. rewrite Hs in H |- *.
  cstep H. cstep H. apply known_run_ok in H1 as [-> [= <-]].
  case_decide as Hst; [by cdone H|].
  cstep H. apply known_node_ok in H1 as [-> Ha].
  case_decide as Hr; [by cdone H|].
  cstep H. cstep H. cdone H. apply rtc_once. apply move_fail; [done..|apply dec_stable; tauto].
Qed.

Lemma skip_moves run node c :
  in_run c run node node_skippable → action_moves run (skip_action E run (wn_id node)) c.
Proof.
  intros Hin g c1 c2 prepared v Hc1 H. unfold skip_action in H.
  cstep H. cstep H. rename a0 into s. apply known_run_ok in H1 as [-> Hs]. cstep H. cdone H.
  rewrite Hs. destruct (in_run_snapshot _ _ _ _ _ Hin Hs) as [Hd Hk]. apply rtc_once.
  assert (∃ a, wr_nodes s !! wn_id node = Some a) as [b Hb].
  { unfold node_skippable, is_pending in Hk. destruct (wr_nodes s !! wn_id node); [by eexists|done]. }
  replace (with_nodes s _) with (set_node s (wn_id node) (skipped_attempt b));
    [by apply move_skip|].
  unfold set_node. f_equal. apply map_eq. intros i. destruct (decide (i = wn_id node)) as [->|Hi];
    [by rewrite lookup_insert_eq, lookup_alter_eq, Hb|by rewrite lookup_insert_ne, lookup_alter_ne].
Qed.

Lemma recover_deferred_moves g run pending (c c1 c2 : Controller O) s s' :
  recover_deferred E g run pending s c1 = (c2, Ok s') → rtc (moves c) s s'.
Proof.
  revert s c1. induction pending as [|[id [aid d]] l IH]; intros s c1 H; cbn [recover_deferred] in H;
    [by cok H|].
  cstep H. cstep H. cstep H. apply known_node_ok in H2 as [-> Ha]. apply IH in H.
  case_decide; [|done]. eapply rtc_l; [|done]. by apply move_clear.
Qed.

Lemma settle_moves run c : action_moves run (settle_action E run) c.
Proof.
  intros g c1 c2 prepared v Hc1 H. unfold settle_action in H.
  cstep H. apply known_run_ok in H0 as [-> Hs]. rewrite Hs. cstep H.
  eapply recover_deferred_moves in H0. destruct (some_node _ _) eqn:Hr.
  - by cdone H.
  - cstep H. cdone H. eapply rtc_r; [done|]. by apply move_settle.
Qed.

Lemma cancel_moves run reason c : action_moves run (cancel_action E run reason) c.
Proof.
  intros g c1 c2 prepared v Hc1 H. unfold cancel_action in H.
  cstep H. apply known_run_ok in H0 as [-> Hs]. destruct (is_terminal_run _) eqn:Ht;
    [by apply unchanged_moves in H|].
  cstep H. cstep H. cdone H. rewrite Hs. apply rtc_once, move_cancel.
  by destruct (wr_status a).
Qed.

(** ** Starting *)

(** A definition is registered under its identifier. *)
Definition definitions_keyed (c : Controller O) : Prop :=
  ∀ id d, ct_definitions c !! id = Some d → wd_id d = id.

Lemma initial_attempts_ok nodes c c' l :
  cmap (λ node, let! u := new_uuid E in cret (wn_id node, initial_attempt (wn_id node) u)) nodes c
    = (c', Ok l) →
  l.*1 = wn_id <$> nodes ∧ Forall (λ ia, ∃ u, ia.2 = initial_attempt ia.1 u) l.
Proof.
  revert c l. induction nodes as [|node nodes IH]; intros c l H; cbn [cmap] in H; [by cok H|].
  cstep H. cstep H0. cok H0. cstep H. cok H. apply IH in H0 as [H2 H3].
  split; [by rewrite !fmap_cons, H2|]. constructor; [by eexists|done].
Qed.

Lemma initial_nodes_ok nodes c c' m :
  initial_nodes E nodes c = (c', Ok m) →
  dom m = list_to_set (wn_id <$> nodes) ∧
  ∀ id a, m !! id = Some a → ∃ u, a = initial_attempt id u.
Proof.
  unfold initial_nodes. intros H. cstep H. cok H. apply initial_attempts_ok in H0 as [<- Hl].
  assert (∀ m : gmap string WorkflowNodeAttempt,
    (∀ id b, m !! id = Some b → ∃ u, b = initial_attempt id u) →
    dom (fold_left (λ m '(id, b), <[id:=b]> m) a m) = list_to_set a.*1 ∪ dom m ∧
    ∀ id b, fold_left (λ m '(id, b), <[id:=b]> m) a m !! id = Some b →
            ∃ u, b = initial_attempt id u) as Hgen.
  { induction Hl as [|[id b] l [u Hb] Hl IH]; intros m Hm; simpl; [split; [set_solver|done]|].
    simpl in Hb. subst b. destruct (IH (<[id:=initial_attempt id u]> m)) as [H1 H2].
    { intros id' b' [[<- <-]|[_ ?]]%lookup_insert_Some; [by eexists|eauto]. }
    split; [|done]. rewrite H1, dom_insert_L. set_solver. }
  destruct (Hgen ∅) as [H1 H2]; [done|]. split; [|done]. rewrite H1. set_solver.
Qed.

Lemma start_moves run workflow_id d s root tasks c :
  run_started (ev_sha256 E) (ev_to_vec E) (ct_definitions c) run s →
  action_moves run (start_action E d s workflow_id root tasks) c.
Proof.
  intros Hs g c1 c2 prepared v Hc1 H. unfold start_action in H. cstep H.
  destruct (run_snapshot c run) as [s'|].
  - cstep H. by cdone H.
  - do 4 (cstep H). by cdone H.
Qed.

Lemma framed_initial_nodes nodes : framed (initial_nodes E nodes).
Proof. unfold initial_nodes. framed. Qed.

Lemma framed_upsert t : framed (O := O) (upsert_task t).
Proof. unfold upsert_task. framed. Qed.
Hint Resolve framed_initial_nodes framed_upsert : framed.
Lemma framed_register_admitted r : framed (register_admitted E r).
Proof. unfold register_admitted. framed. Qed.
Lemma framed_register_missing t : framed (O := O) (register_missing t).
Proof. unfold register_missing. framed. Qed.
Lemma framed_known_definition id : framed (O := O) (known_definition id).
Proof. unfold known_definition. framed. Qed.
Hint Resolve framed_register_admitted framed_register_missing framed_known_definition : framed.

Definition step_ok (c c' : Controller O) : Prop :=
  same_registry c c' ∧ all_move c (ct_runs c) (ct_runs c').

Lemma step_ok_frame c c' : frame c c' → step_ok c c'.
Proof. intros [? H]. split; [done|]. rewrite H. apply runs_move_refl. Qed.

Lemma step_ok_frame_l c c1 c' : frame c c1 → step_ok c1 c' → step_ok c c'.
Proof.
  intros [H1 H2] [H3 H4]. split; [by etrans|]. by rewrite (sr_definitions _ _ H1), H2 in H4.
Qed.

Lemma step_ok_frame_r c c1 c' : step_ok c c1 → frame c1 c' → step_ok c c'.
Proof. intros [H1 H2] [H3 H4]. split; [by etrans|]. by rewrite H4. Qed.

(** A computation that only reads before [m]. *)
Lemma step_ok_bind {A B} (m : M O A) (k : A → M O B) c c' r :
  cbind m k c = (c', r) → framed m →
  (∀ c1 a, m c = (c1, Ok a) → frame c c1 → k a c1 = (c', r) → step_ok c1 c') → step_ok c c'.
Proof.
  intros H Hm Hk. apply cbind_inv in H as [(c1 & a & H1 & H)|(e & H1 & ->)].
  - assert (frame c c1) as Hf by by eapply framed_eq. eapply step_ok_frame_l; [done|eauto].
  - apply step_ok_frame. by eapply framed_eq.
Qed.

Lemma start_mutation_moves run workflow_id d s root tasks c c' r :
  mutate_projection E run (start_action E d s workflow_id root tasks) c = (c', r) →
  run_started (ev_sha256 E) (ev_to_vec E) (ct_definitions c) run s → step_ok c c'.
Proof.
  intros H Hs. eapply mutate_moves in H; [exact H|intros; apply framed_start|]. by apply start_moves.
Qed.

Lemma start_internal_moves run workflow_id parameters parent identity c c' r :
  definitions_keyed c →
  start_internal E run workflow_id parameters parent identity c = (c', r) → step_ok c c'.
Proof.
  intros Hkey H. unfold start_internal in H.
  eapply step_ok_bind; [exact H|framed|]. intros c1 d Hd Hf1 H1. unfold known_definition in Hd.
  cstep Hd. cok H0. cok Hd. unfold definition in Hd.
  assert (wd_id d = workflow_id) as Hid by by eapply Hkey.
  eapply step_ok_bind; [exact H1|framed|]. intros c2 dis H2 Hf2 H2'.
  eapply step_ok_bind; [exact H2'|framed|]. intros c3 [] H3 Hf3 H3'.
  eapply step_ok_bind; [exact H3'|framed|]. intros c4 [] H4 Hf4 H4'.
  eapply step_ok_bind; [exact H4'|framed|]. intros c5 ident H5 Hf5 H5'.
  eapply step_ok_bind; [exact H5'|framed|]. intros c6 nodes H6 Hf6 H6'.
  eapply step_ok_bind; [exact H6'|framed|]. intros c7 rt H7 Hf7 H7'.
  assert (ct_definitions c7 = ct_definitions c) as Hdefs.
  { destruct Hf2 as [[]], Hf3 as [[]], Hf4 as [[]], Hf5 as [[]], Hf6 as [[]], Hf7 as [[]]. congruence. }
  apply initial_nodes_ok in H6 as [Hdom Hnodes].
  apply cbind_inv in H7' as [(c8 & [o adm] & H8 & H')|(e & H8 & ->)];
    (eapply start_mutation_moves in H8; [|split; simpl; [done|done| |done]; exists d; by rewrite Hdefs, Hid]);
    [|done].
  eapply step_ok_frame_r; [done|]. eapply framed_eq; [|exact H']. framed.
Qed.

(** ** Every change is made of moves *)

Lemma run_op_moves op c :
  definitions_keyed c → op_allowed c op → step_ok c (run_op E op c).
Proof.
  intros Hkey Hop.
  assert (∀ R run (act : action R), (∀ g p, framed (act g p)) → action_moves run act c →
    step_ok c (mutate_projection E run act c).1) as Hmut.
  { intros R run act Hf Ha. destruct (mutate_projection E run act c) as [c' r] eqn:Hm.
    by eapply mutate_moves in Hm. }
  destruct op; unfold run_op, ignore; simpl in Hop.
  - destruct (start_internal _ _ _ _ _ _ _) eqn:H. by eapply start_internal_moves.
  - apply Hmut; [framed|by apply begin_moves].
  - apply Hmut; [framed|by apply fail_before_moves].
  - apply Hmut; [framed|apply complete_moves].
  - destruct (fail_node _ _ _ _ _ _) as [c' r] eqn:H. unfold fail_node in H.
    eapply step_ok_bind; [exact H|unfold run_definition; framed|]. intros c1 [s d] H1 Hf1 H1'.
    assert (run_snapshot c run_id = Some s ∧ definition c (wr_workflow_id s) = Some d ∧ c1 = c)
      as (Hs & Hd & ->).
    { unfold run_definition in H1. cstep H1. cok H0. cstep H1. cok H0. cstep H1. cok H2.
      cstep H1. cok H2. by cdone H1. }
    eapply step_ok_bind; [exact H1'|framed|]. intros c2 node Hn _ H2. cok Hn.
    apply find_node_elem in Hn as [Hin <-]. eapply mutate_moves in H2; [exact H2|framed|].
    eapply fail_moves; [done|]. by exists d.
  - destruct Hop as (node & <- & Hin). apply Hmut; [framed|by apply skip_moves].
  - apply Hmut; [framed|apply settle_moves].
  - apply Hmut; [framed|apply cancel_moves].
Qed.
End simulation.
