(* ===== verification/WorkflowRegistry.v ===== *)
(** * The registry of Workflow definitions

    What registration, removal, disabling and enabling keep: every registered
    definition passes [validate_definition], is found under its identifier, is
    held by an owner, and refers only to registered definitions, without
    circles.  A batch that is refused leaves the definitions as they were. *)
From S2P Require Import ResourceTypes Prelude Json Types TaskRegistry RuntimeLedger WorkflowTypes WorkflowValidation WorkflowGraph WorkflowFacts WorkflowReferences Identity Registries LedgerInterface MessageBus CollaborationTypes CollaborationRuntime CollaborationTasks CollaborationRestore WorkflowRuns WorkflowInputs WorkflowController WorkflowRegistration WorkflowCompletion WorkflowNodes WorkflowExecution WorkflowRestore WorkflowFrames WorkflowMoves.

(** The iteration of a hash map yields its entries, in some order. *)
Definition hash_order_law {O} (E : Env O) : Prop :=
  ∀ A (m : gmap string A), ev_hash_order E m ≡ₚ map_to_list m.

(** ** Definitions by identifier *)

Definition with_id (id : string) (l : list WorkflowDefinition) : option WorkflowDefinition :=
  List.find (λ d, bool_decide (wd_id d = id)) l.

Lemma with_id_some id l d : with_id id l = Some d → d ∈ l ∧ wd_id d = id.
Proof.
  intros [Hin Hid]%find_some. apply list_elem_of_In in Hin. by apply bool_decide_eq_true in Hid.
Qed.

Lemma with_id_none id l : with_id id l = None → ∀ d, d ∈ l → wd_id d ≠ id.
Proof.
  intros H d Hin%list_elem_of_In Hid. by eapply find_none in H as ?%bool_decide_eq_false; [|done].
Qed.

Lemma with_id_unique id l d : NoDup (wd_id <$> l) → d ∈ l → wd_id d = id → with_id id l = Some d.
Proof.
  intros Hnd Hin Hid. destruct (with_id id l) as [d'|] eqn:H; [|by eapply with_id_none in H].
  apply with_id_some in H as [Hin' Hid']. f_equal. subst id.
  induction l as [|x l IH]; [by apply elem_of_nil in Hin|].
  rewrite fmap_cons, NoDup_cons, list_elem_of_fmap in Hnd. destruct Hnd as [Hx Hnd].
  apply elem_of_cons in Hin as [->|Hin], Hin' as [->|Hin']; [done| | |by apply IH]; destruct Hx; eauto.
Qed.

Lemma with_id_cons id d l : with_id id (d :: l) = if decide (wd_id d = id) then Some d else with_id id l.
Proof.
  unfold with_id. simpl. destruct (decide (wd_id d = id)) as [He|He];
    [by rewrite bool_decide_eq_true_2|by rewrite bool_decide_eq_false_2].
Qed.

Lemma lookup_add_references l graph id :
  NoDup (wd_id <$> l) →
  fold_left add_references l graph !! id =
    match with_id id l with Some d => Some (references_of d) | None => graph !! id end.
Proof.
  revert graph. induction l as [|d l IH]; intros graph; [done|].
  rewrite fmap_cons, NoDup_cons. intros [Hd Hnd]. cbn [fold_left]. rewrite IH by done. rewrite with_id_cons.
  unfold add_references, ReferenceGraph. case_decide as He; [|by destruct (with_id id l); [|rewrite lookup_insert_ne]].
  subst id. destruct (with_id (wd_id d) l) as [d'|] eqn:Hw; [|by rewrite lookup_insert_eq].
  apply with_id_some in Hw as [Hin Hid]. destruct Hd. apply list_elem_of_fmap. eauto.
Qed.

Lemma lookup_insert_missing l m id :
  NoDup (wd_id <$> l) →
  fold_left insert_missing l m !! id = match m !! id with Some d => Some d | None => with_id id l end.
Proof.
  revert m. induction l as [|d l IH]; intros m; [by intros _; simpl; destruct (m !! id)|].
  rewrite fmap_cons, NoDup_cons. intros [Hd Hnd]. cbn [fold_left]. rewrite IH by done. rewrite with_id_cons.
  unfold insert_missing. case_decide as He.
  - subst id. destruct (m !! wd_id d) as [d'|] eqn:Hm; [by rewrite Hm|by rewrite lookup_insert_eq].
  - destruct (m !! wd_id d); [done|]. by rewrite lookup_insert_ne.
Qed.

Lemma references_eqb a b : definition_eqb a b = true → references_of a = references_of b.
Proof.
  unfold definition_eqb. rewrite !andb_true_iff. intros [[_ H] _]. unfold references_of.
  apply list_omap_ext. revert H. generalize (wd_nodes a), (wd_nodes b). intros l.
  induction l as [|x l IH]; intros [|y k]; try done. cbn [list_eqb]. rewrite andb_true_iff.
  intros [Hxy H%IH]. constructor; [|done].
  unfold node_eqb in Hxy. rewrite !andb_true_iff in Hxy. destruct Hxy as [_ Hr].
  by apply bool_decide_eq_true in Hr.
Qed.

(** ** The invariant *)

Section registry.
Context {O : Type} (E : Env O).

Record registry_inv (c : Controller O) : Prop := {
  rg_keyed : definitions_keyed c;
  rg_valid : ∀ id d, ct_definitions c !! id = Some d → definition_ok d;
  rg_closed : ∀ id d r, ct_definitions c !! id = Some d → r ∈ references_of d →
    is_Some (ct_definitions c !! r);
  rg_acyclic : acyclic_references (references_of <$> ct_definitions c);
  rg_owners : dom (ct_definition_owners c) = dom (ct_definitions c);
  rg_owned : ∀ id owners, ct_definition_owners c !! id = Some owners → owners ≠ ∅;
  rg_disabled : ct_disabled_definitions c ⊆ dom (ct_definitions c);
}.

(** The checks of a batch. *)
Record batch_ok (c : Controller O) (batch : list WorkflowDefinition) : Prop := {
  bk_distinct : NoDup (wd_id <$> batch);
  bk_valid : ∀ d, d ∈ batch → definition_ok d;
  bk_known : ∀ d r, d ∈ batch → r ∈ references_of d → r ∈ wd_id <$> batch ∨ is_Some (ct_definitions c !! r);
  bk_same : ∀ d d', d ∈ batch → ct_definitions c !! wd_id d = Some d' → definition_eqb d' d = true;
  bk_acyclic : acyclic_references (reference_graph E (ct_definitions c) batch);
}.

Hypothesis order : hash_order_law E.

Lemma cfor_pure {A} (f : A → M O unit) l c c' u :
  (∀ x c c' u, f x c = (c', Ok u) → c' = c) →
  cfor f l c = (c', Ok u) → c' = c ∧ ∀ x, x ∈ l → f x c = (c, Ok tt).
Proof.
  intros Hf. revert c. induction l as [|x l IH]; intros c H; cbn [cfor] in H.
  - cok H. split; [done|by intros ? ?%elem_of_nil].
  - cstep H. destruct a. pose proof (Hf _ _ _ _ H0) as ->. apply IH in H as [-> H].
    split; [done|]. intros y [->|Hy]%elem_of_cons; auto.
Qed.

Lemma of_check_ok r (c c' : Controller O) u : of_check E r c = (c', Ok u) → c' = c ∧ r = Ok tt.
Proof. unfold of_check, of_result. destruct r as [[]|]; [by intros [= <-]|done]. Qed.

Lemma preflight_definition_ok existing roles ids d (c c' : Controller O) u :
  preflight_definition E existing roles ids d c = (c', Ok u) →
  c' = c ∧ definition_ok d ∧
  (∀ r, r ∈ references_of d → r ∈ ids ∨ is_Some (existing !! r)) ∧
  ∀ d', existing !! wd_id d = Some d' → definition_eqb d' d = true.
Proof.
  intros H. unfold preflight_definition in H.
  cstep H. apply of_check_ok in H0 as [-> Hv]. cstep H. cok H0. cstep H.
  apply cfor_pure in H1 as [-> _]; [|by intros ? ? ? ? [-> _]%of_check_ok].
  cstep H. apply of_check_ok in H1 as [-> _]. cstep H.
  apply cfor_pure in H1 as [-> Hr];
    [|by intros n ? ? ? Hn; destruct (wn_workflow_ref n); [cok Hn|injection Hn]].
  assert (c' = c ∧ ∀ d', existing !! wd_id d = Some d' → definition_eqb d' d = true) as [-> Hs].
  { destruct (existing !! wd_id d); [|by injection H]. cok H. split; [done|]. by intros d' [= <-]. }
  split_and!; [done| | |done].
  - apply (validate_definition_ok (λ m, ev_hash_order E m)) in Hv; [done|]. intros m. apply order.
  - intros r (node & Hin & Href)%list_elem_of_omap. apply Hr in Hin. rewrite Href in Hin. cok Hin.
    apply orb_true_iff in Hin as [Hin|Hin]; apply bool_decide_eq_true in Hin; auto.
Qed.

Lemma preflight_ok batch (c c' : Controller O) u :
  preflight_register_batch E batch c = (c', Ok u) → c' = c ∧ batch_ok c batch.
Proof.
  intros H. unfold preflight_register_batch in H. cstep H. cok H0.
  apply bool_decide_eq_true in H0. cstep H. cok H1. cstep H. cok H1. cstep H.
  apply cfor_pure in H1 as [-> Hd]; [|by intros ? ? ? ? (-> & _)%preflight_definition_ok].
  cok H. split; [done|].
  unfold ids_of in H0. rewrite <-(length_fmap wd_id) in H0. apply size_distinct in H0.
  split; [done| | | |].
  - intros d Hin. by apply Hd, preflight_definition_ok in Hin as (_ & ? & _).
  - intros d r Hin Hr. apply Hd, preflight_definition_ok in Hin as (_ & _ & Hk & _).
    apply Hk in Hr as [Hr|]; [|by right]. left. unfold ids_of in Hr. by apply elem_of_list_to_set in Hr.
  - intros d d' Hin. apply Hd, preflight_definition_ok in Hin as (_ & _ & _ & Hs). apply Hs.
  - unfold check_references, validate_workflow_reference_graph in H.
    destruct (fold_result _ _ _) as [st|e] eqn:Hf; [|done]. eapply all_visited; [done|].
    intros id [l Hl]%elem_of_dom. rewrite (order _ _). apply list_elem_of_fmap.
    exists (id, l). split; [done|]. by apply elem_of_map_to_list.
Qed.

(** The graph that is checked is the one of the definitions after. *)
Lemma reference_graph_after c batch :
  definitions_keyed c → batch_ok c batch →
  reference_graph E (ct_definitions c) batch =
  references_of <$> fold_left insert_missing batch (ct_definitions c).
Proof.
  intros Hkey [Hnd _ _ Hsame _]. unfold reference_graph, ReferenceGraph. apply map_eq. intros id.
  assert (NoDup (wd_id <$> (ev_hash_order E (ct_definitions c)).*2)) as Hnd'.
  { rewrite (order _ (ct_definitions c)), <-list_fmap_compose.
    replace (wd_id ∘ snd <$> map_to_list (ct_definitions c)) with (map_to_list (ct_definitions c)).*1;
      [apply NoDup_fst_map_to_list|].
    apply list_fmap_ext. intros i [k d] Hk. apply list_elem_of_lookup_2, elem_of_map_to_list in Hk.
    symmetry. by apply Hkey in Hk. }
  rewrite lookup_add_references, lookup_fmap, lookup_insert_missing by done.
  rewrite lookup_add_references by done.
  destruct (with_id id batch) as [d|] eqn:Hb.
  - apply with_id_some in Hb as [Hin <-]. destruct (ct_definitions c !! wd_id d) as [d'|] eqn:Hd; [|done].
    simpl. f_equal. symmetry. apply references_eqb. by eapply Hsame.
  - destruct (ct_definitions c !! id) as [d|] eqn:Hd.
    + erewrite with_id_unique; [done|done| |by eapply Hkey]. rewrite (order _ (ct_definitions c)).
      apply list_elem_of_fmap. exists (id, d). split; [done|]. by apply elem_of_map_to_list.
    + destruct (with_id id (ev_hash_order E (ct_definitions c)).*2) as [d|] eqn:Hw; [|exact (lookup_empty (M := gmap string) id)].
      apply with_id_some in Hw as [Hin Hid].
      rewrite (order _ (ct_definitions c)) in Hin. apply list_elem_of_fmap in Hin as ([k d'] & -> & Hin).
      apply elem_of_map_to_list in Hin. simpl in Hid. rewrite (Hkey _ _ Hin) in Hid. congruence.
Qed.

Lemma lookup_add_owner owner l m id :
  fold_left (add_owner owner) l m !! id =
    if decide (id ∈ wd_id <$> l) then Some ({[owner]} ∪ default ∅ (m !! id)) else m !! id.
Proof.
  revert m. induction l as [|d l IH]; intros m; [done|]. cbn [fold_left]. rewrite IH. unfold add_owner.
  destruct (decide (id = wd_id d)) as [->|Hid].
  - rewrite lookup_insert_eq, (decide_True (P := wd_id d ∈ wd_id <$> d :: l)) by (by left).
    case_decide; [|done]. simpl. f_equal. set_solver.
  - rewrite lookup_insert_ne by done. assert (id ∈ wd_id <$> d :: l ↔ id ∈ wd_id <$> l) as Hiff
      by (rewrite fmap_cons, elem_of_cons; tauto).
    by rewrite (decide_ext _ _ _ _ Hiff).
Qed.

(** The state after the batch is accepted, less the roles. *)
Lemma register_inv c batch owner roles :
  registry_inv c → batch_ok c batch →
  registry_inv (set_registry (fold_left insert_missing batch (ct_definitions c))
                 (fold_left (add_owner owner) batch (ct_definition_owners c))
                 (ct_disabled_definitions c ∖ ids_of batch) roles c).
Proof.
  intros [Hkey Hval Hcl Hac Hown Howned Hdis] Hb. pose proof Hb as [Hnd Hbval Hbk Hbs Hbac].
  assert (∀ id d, fold_left insert_missing batch (ct_definitions c) !! id = Some d →
    ct_definitions c !! id = Some d ∨ (d ∈ batch ∧ wd_id d = id)) as Hcase.
  { intros id d. rewrite lookup_insert_missing by done. destruct (ct_definitions c !! id); [by left|].
    intros H%with_id_some. by right. }
  assert (∀ id, is_Some (fold_left insert_missing batch (ct_definitions c) !! id) ↔
    is_Some (ct_definitions c !! id) ∨ id ∈ wd_id <$> batch) as Hdom.
  { intros id. rewrite lookup_insert_missing by done. destruct (ct_definitions c !! id) eqn:Hd;
      [split; [by left; eexists|by eexists]|]. split.
    - intros [d Hw]. apply with_id_some in Hw as [Hin <-]. right. apply list_elem_of_fmap. eauto.
    - intros [[? ?]|(d & -> & Hin)%list_elem_of_fmap]; [done|]. exists d. by apply with_id_unique. }
  split; unfold definitions_keyed; simpl.
  - intros id d [H|[_ ?]]%Hcase; [by apply Hkey|done].
  - intros id d [H|[? _]]%Hcase; [by eapply Hval|by apply Hbval].
  - intros id d r Hd Hr. apply Hdom. apply Hcase in Hd as [Hd|[Hd _]]; [left; by eapply Hcl|].
    eapply Hbk in Hr; [|done]. tauto.
  - by rewrite <-reference_graph_after.
  - apply set_eq. intros id. rewrite !elem_of_dom, Hdom, lookup_add_owner.
    rewrite <-(elem_of_dom (ct_definitions c)), <-Hown, elem_of_dom.
    case_decide; split; eauto; tauto.
  - intros id owners. rewrite lookup_add_owner. case_decide; [|apply Howned].
    intros [= <-]. set_solver.
  - intros id [Hid _]%elem_of_difference. apply elem_of_dom, Hdom. left. by apply elem_of_dom, Hdis.
Qed.

(** Less definitions keep the rest, when nobody refers to the one removed. *)
Lemma unregister_inv c owner id roles :
  registry_inv c → owner ∈ default ∅ (ct_definition_owners c !! id) →
  let last := bool_decide (size (default ∅ (ct_definition_owners c !! id)) = 1) in
  (last = true → referenced_by E c id = None) →
  registry_inv (set_registry (if last then delete id (ct_definitions c) else ct_definitions c)
    (remove_owner owner id (ct_definition_owners c))
    (if last then ct_disabled_definitions c ∖ {[id]} else ct_disabled_definitions c) roles c).
Proof.
  intros [Hkey Hval Hcl Hac Hown Howned Hdis] Hin last Href.
  destruct (ct_definition_owners c !! id) as [owners|] eqn:Ho; [|set_solver]. simpl in *.
  assert (last = bool_decide (owners ∖ {[owner]} = ∅)) as Hlast.
  { unfold last. apply bool_decide_ext.
    rewrite <-leibniz_equiv_iff, <-size_empty_iff, size_difference, size_singleton by set_solver.
    assert (size owners ≠ 0) by (rewrite size_empty_iff; set_solver). lia. }
  unfold remove_owner. rewrite Ho. clearbody last.
  destruct (decide (owners ∖ {[owner]} = ∅)) as [He|He];
    [rewrite bool_decide_eq_true_2 in Hlast by done|rewrite bool_decide_eq_false_2 in Hlast by done];
    subst last.
  - specialize (Href eq_refl). split; unfold definitions_keyed; simpl.
    + intros i d [_ H]%lookup_delete_Some. by apply Hkey.
    + intros i d [_ H]%lookup_delete_Some. by eapply Hval.
    + intros i d r [Hi H]%lookup_delete_Some Hr. rewrite lookup_delete_ne; [by eapply Hcl|].
      intros <-. unfold referenced_by in Href. destruct (List.find _ _) eqn:Hf; [done|].
      eapply find_none with (x := (i, d)) in Hf.
      * simpl in Hf. rewrite !bool_decide_eq_true_2 in Hf by done. done.
      * apply list_elem_of_In. rewrite (order _ _). by apply elem_of_map_to_list.
    + intros a Ha. apply (Hac a). revert Ha.  generalize a at 2 4. intros b Hab. induction Hab as [x y H|x y z H _ IH];
        [apply tc_once|eapply tc_l; [|done]];
        destruct H as (l & Hl & Hy); rewrite fmap_delete in Hl; apply lookup_delete_Some in Hl as [_ Hl];
        by exists l.
    + by rewrite !dom_delete_L, Hown.
    + intros i os [_ H]%lookup_delete_Some. by eapply Howned.
    + set_solver.
  - split; unfold definitions_keyed; simpl; try done.
    + rewrite dom_insert_L, <-Hown. apply set_eq. intros i. rewrite elem_of_union, elem_of_singleton.
      split; [intros [->|]; [by eapply elem_of_dom_2|done]|by right].
    + intros i os [[<- <-]|[_ H]]%lookup_insert_Some; [done|by eapply Howned].
Qed.

(** ** Changes of the registry *)

Inductive RegistryOp : Type :=
  | OpRegister (owner : string) (batch : list WorkflowDefinition)
  | OpUnregister (owner workflow_id : string)
  | OpDisable (workflow_id : string)
  | OpEnable (workflow_id : string).

Definition registry_op (op : RegistryOp) : Controller O → Controller O :=
  match op with
  | OpRegister owner batch => ignore (register_owned_batch E owner batch)
  | OpUnregister owner id => ignore (unregister_owned E owner id)
  | OpDisable id => ignore (disable id)
  | OpEnable id => ignore (enable id)
  end.

(** Everything but the roles. *)
Record same_definitions (c c' : Controller O) : Prop := {
  sd_definitions : ct_definitions c' = ct_definitions c;
  sd_owners : ct_definition_owners c' = ct_definition_owners c;
  sd_disabled : ct_disabled_definitions c' = ct_disabled_definitions c;
  sd_runs : ct_runs c' = ct_runs c;
}.

Lemma same_definitions_refl c : same_definitions c c.
Proof. by split. Qed.

Lemma registry_inv_eq (c c' : Controller O) :
  ct_definitions c' = ct_definitions c → ct_definition_owners c' = ct_definition_owners c →
  ct_disabled_definitions c' = ct_disabled_definitions c → registry_inv c → registry_inv c'.
Proof. intros Hd Ho Hs []. split; unfold definitions_keyed in *; rewrite ?Hd, ?Ho, ?Hs; done. Qed.

Lemma registry_inv_same c c' : same_definitions c c' → registry_inv c → registry_inv c'.
Proof. intros []. by apply registry_inv_eq. Qed.

Lemma register_batch_roles_same owner batch c c' r :
  register_batch_roles E owner batch c = (c', r) → same_definitions c c'.
Proof.
  intros H. unfold register_batch_roles in H.
  apply cbind_inv in H as [(c1 & roles & H1 & H)|(e & H1 & ->)]; [|done]. cok H1.
  destruct (ct_roles c) as [roles|]; [|injection H as <- _; by split].
  apply cbind_inv in H as [(c1 & [] & H1 & H)|(e & H1 & ->)]; [|injection H1 as <- _; by split].
  cok H1. destruct (register_roles _ _ _) as [roles' r']. injection H as <- _. by split.
Qed.

(** A batch is registered as a whole or not at all. *)
Lemma register_cases owner batch c c' r :
  register_owned_batch E owner batch c = (c', r) →
  (same_definitions c c' ∧ ∃ e, r = Err e) ∨
  (r = Ok tt ∧ batch_ok c batch ∧ ∃ c1, same_definitions c c1 ∧
   c' = set_registry (fold_left insert_missing batch (ct_definitions c1))
          (fold_left (add_owner owner) batch (ct_definition_owners c1))
          (ct_disabled_definitions c1 ∖ ids_of batch) (ct_roles c1) c1).
Proof.
  intros H. unfold register_owned_batch in H.
  apply cbind_inv in H as [(c1 & [] & H1 & H)|(e & H1 & ->)]; [|injection H1 as <- _; left; by eauto using same_definitions_refl].
  cok H1. apply cbind_inv in H as [(c1 & [] & H2 & H)|(e & H2 & ->)].
  - apply preflight_ok in H2 as [-> Hb].
    apply cbind_inv in H as [(c1 & [] & H2 & H)|(e & H2 & ->)]; [|left; eauto using register_batch_roles_same].
    injection H as <- <-. right. split_and!; [done|done|]. eauto using register_batch_roles_same.
  - left. split; [|by eexists]. eapply framed_eq in H2 as [[] ?]; [by split|].
    unfold preflight_register_batch, preflight_definition, of_check. framed.
Qed.

Lemma unregister_cases owner id c c' r :
  unregister_owned E owner id c = (c', r) →
  c' = c ∨
  (runs_workflow E c id = false ∧ owner ∈ default ∅ (ct_definition_owners c !! id) ∧
   let last := bool_decide (size (default ∅ (ct_definition_owners c !! id)) = 1) in
   (last = true → referenced_by E c id = None) ∧
   ∃ roles, c' = set_registry (if last then delete id (ct_definitions c) else ct_definitions c)
     (remove_owner owner id (ct_definition_owners c))
     (if last then ct_disabled_definitions c ∖ {[id]} else ct_disabled_definitions c) roles c).
Proof.
  intros H. unfold unregister_owned in H.
  apply cbind_inv in H as [(c1 & run & H1 & H)|(e & H1 & ->)]; [|done]. cok H1.
  apply cbind_inv in H as [(c1 & [] & H1 & H)|(e & H1 & ->)]; [|injection H1 as <- _; by left].
  cok H1. apply negb_true_iff in H1.
  apply cbind_inv in H as [(c1 & own & H2 & H)|(e & H2 & ->)]; [|done]. cok H2.
  unfold is_owner in H. destruct (decide (owner ∈ default ∅ (ct_definition_owners c !! id))) as [Ho|Ho];
    [rewrite bool_decide_eq_true_2 in H by done|rewrite bool_decide_eq_false_2 in H by done; injection H as <- _; by left].
  cbn [negb] in H.
  apply cbind_inv in H as [(c1 & last & H2 & H)|(e & H2 & ->)]; [|done]. cok H2.
  apply cbind_inv in H as [(c1 & ref & H2 & H)|(e & H2 & ->)]; [|done]. cok H2.
  destruct (bool_decide (size _ = 1)) eqn:Hlast, (referenced_by E c id) eqn:Href;
    [injection H as <- _; by left|..]; injection H as <- _; right; cbv zeta; split_and!; eauto; done.
Qed.

Lemma registry_op_inv op c : registry_inv c → registry_inv (registry_op op c).
Proof.
  intros Hinv. destruct op as [owner batch|owner id|id|id]; unfold registry_op, ignore.
  - destruct (register_owned_batch _ _ _ _) as [c' r] eqn:H.
    apply register_cases in H as [[Hs _]|(_ & Hb & c1 & Hs & ->)]; [by eapply registry_inv_same|].
    pose proof Hs as [Hd Ho Hdis _]. apply register_inv; [by eapply registry_inv_same|].
    destruct Hb. split; rewrite ?Hd; done.
  - destruct (unregister_owned _ _ _ _) as [c' r] eqn:H.
    apply unregister_cases in H as [->|(_ & Ho & Href & roles & ->)]; [done|].
    by apply unregister_inv.
  - unfold disable. destruct (cbind _ _ _) as [c' r] eqn:H.
    apply cbind_inv in H as [(c1 & d & H1 & H)|(e & H1 & ->)].
    + unfold known_definition in H1. cstep H1. cok H0. cok H1. injection H as <- _.
      destruct Hinv. split; try done. simpl. unfold definition in H1. apply elem_of_dom_2 in H1. set_solver.
    + eapply framed_eq in H1 as [[] ?]; [|unfold known_definition; framed].
      by eapply registry_inv_same; [by split|].
  - unfold enable. destruct (cbind _ _ _) as [c' r] eqn:H.
    apply cbind_inv in H as [(c1 & d & H1 & H)|(e & H1 & ->)].
    + unfold known_definition in H1. cstep H1. cok H0. cok H1. injection H as <- _.
      destruct Hinv. split; try done. simpl. set_solver.
    + eapply framed_eq in H1 as [[] ?]; [|unfold known_definition; framed].
      by eapply registry_inv_same; [by split|].
Qed.

(** ** The steps of a controller *)

(** Numbers of a definition are [u32]s. *)
Definition definition_typed (d : WorkflowDefinition) : Prop :=
  ∀ n, n ∈ wd_nodes d → (0 ≤ wn_retry_max_attempts n ≤ u32_max)%Z.

Definition registry_op_typed (op : RegistryOp) : Prop :=
  match op with OpRegister _ batch => Forall definition_typed batch | _ => True end.

(** A change of a Run, a change of the registry, or what everybody else does
    to the ledger, the tasks and the files. *)
Inductive ctl_step (c c' : Controller O) : Prop :=
  | step_run op : op_allowed c op → c' = run_op E op c → ctl_step c c'
  | step_registry op : registry_op_typed op → c' = registry_op op c → ctl_step c c'
  | step_outside runtime files : c' = set_files files (set_runtime runtime c) → ctl_step c c'.

Record initial_controller (c : Controller O) : Prop := {
  ic_definitions : ct_definitions c = ∅;
  ic_owners : ct_definition_owners c = ∅;
  ic_disabled : ct_disabled_definitions c = ∅;
  ic_runs : ct_runs c = ∅;
}.

Lemma initial_registry c : initial_controller c → registry_inv c.
Proof.
  intros [Hd Ho Hs Hr]. split; unfold definitions_keyed; rewrite ?Hd, ?Ho, ?Hs; try done; try set_solver.
  intros a Ha. apply circle_key in Ha. rewrite fmap_empty in Ha. set_solver.
Qed.

Lemma ctl_step_registry c c' : ctl_step c c' → registry_inv c → registry_inv c'.
Proof.
  intros [op Hop ->|op _ ->|rt files ->] Hinv; [|by apply registry_op_inv|].
  - pose proof Hinv as [Hkey]. destruct (run_op_moves E op c Hkey Hop) as [[] _].
    by apply (registry_inv_eq c).
  - by apply (registry_inv_eq c).
Qed.

Lemma reachable_registry c0 c : initial_controller c0 → rtc ctl_step c0 c → registry_inv c.
Proof.
  intros H0 H. apply initial_registry in H0. induction H as [|c1 c2 c3 H _ IH]; [done|].
  eauto using ctl_step_registry.
Qed.
End registry.

(** C9: whatever is registered, removed, disabled, enabled, started, executed or
    cancelled, in any order and with any errors on the way, the registered
    definitions stay valid: each passes the checks of [validate_definition] and
    is held by an owner, every sub-Workflow it refers to is registered, and no
    definition reaches itself through references; a batch that is refused
    changes no definition, no owner and no Run. *)
Theorem registry_stays_closed {O} (E : Env O) (c0 c : Controller O) :
  hash_order_law E → initial_controller c0 → rtc (ctl_step E) c0 c →
  registry_inv c ∧
  ∀ owner batch c' e, register_owned_batch E owner batch c = (c', Err e) → same_definitions c c'.
Proof.
  intros Ho H0 Hr. split; [by eapply reachable_registry|]. intros owner batch c' e H.
  by apply register_cases in H as [[? _]|[? _]].
Qed.
