(* ===== verification/WorkflowSafety.v ===== *)
(** * Invariants of Workflow Runs

    Invariants of the abstract machine of WorkflowMoves.v, by cases on its
    moves, and what they say of every controller that is reached: the order in
    which nodes run, what they are given, how often they are tried, and which
    states of nodes and Runs are final. *)
From S2P Require Import ResourceTypes Prelude Json Types TaskRegistry RuntimeLedger WorkflowTypes WorkflowValidation WorkflowGraph WorkflowFacts WorkflowReferences Identity Registries LedgerInterface MessageBus CollaborationTypes CollaborationRuntime CollaborationTasks CollaborationRestore WorkflowRuns WorkflowInputs WorkflowController WorkflowRegistration WorkflowCompletion WorkflowNodes WorkflowExecution WorkflowRestore WorkflowFrames WorkflowMoves WorkflowRegistry.

(** ** What does not change *)

Definition node_done (a : WorkflowNodeAttempt) : Prop := na_status a = NCompleted ∨ na_status a = NSkipped.

(** A node that is done keeps its state and output; the identity of the Run
    and the set of its nodes never change. *)
Record stable (s s' : WorkflowRunSnapshot) : Prop := {
  st_run_id : wr_run_id s' = wr_run_id s;
  st_workflow : wr_workflow_id s' = wr_workflow_id s;
  st_definition : wr_workflow_definition_digest s' = wr_workflow_definition_digest s;
  st_parent : wr_parent_run_id s' = wr_parent_run_id s;
  st_parameters : wr_parameters s' = wr_parameters s;
  st_dom : dom (wr_nodes s') = dom (wr_nodes s);
  st_done : ∀ id a, wr_nodes s !! id = Some a → node_done a →
    ∃ a', wr_nodes s' !! id = Some a' ∧ na_status a' = na_status a ∧ na_output a' = na_output a;
}.

#[export] Instance stable_preorder : PreOrder stable.
Proof.
  split.
  - intros s. split; eauto.
  - intros s1 s2 s3 [] []. split; try congruence. intros id a Ha Hd.
    destruct (st_done0 _ _ Ha Hd) as (a' & Ha' & Hs & Ho).
    destruct (st_done1 _ _ Ha') as (a'' & Ha'' & Hs' & Ho'); [by unfold node_done in *; rewrite Hs|].
    exists a''. split_and!; congruence.
Qed.

Lemma set_node_stable s id a a' :
  wr_nodes s !! id = Some a →
  (node_done a → na_status a' = na_status a ∧ na_output a' = na_output a) →
  stable s (set_node s id a').
Proof.
  intros Ha Hd. split; try done; simpl.
  - rewrite dom_insert_L. apply elem_of_dom_2 in Ha. set_solver.
  - intros i b Hb Hdone. destruct (decide (i = id)) as [->|Hi].
    + rewrite Ha in Hb. injection Hb as <-. exists a'. rewrite lookup_insert_eq. naive_solver.
    + exists b. by rewrite lookup_insert_ne.
Qed.

Lemma ready_pending s node a :
  node_ready s node = true → wr_nodes s !! wn_id node = Some a → na_status a = NPending.
Proof.
  unfold node_ready, is_pending. rewrite !andb_true_iff. intros [[H _] _] Ha. rewrite Ha in H.
  by apply bool_decide_eq_true in H.
Qed.

Lemma skippable_pending s node a :
  node_skippable s node = true → wr_nodes s !! wn_id node = Some a → na_status a = NPending.
Proof.
  unfold node_skippable, is_pending. rewrite !andb_true_iff. intros [[[H _] _] _] Ha. rewrite Ha in H.
  by apply bool_decide_eq_true in H.
Qed.

Lemma settled_running s : settled_status s = RRunning → wr_status s = RRunning.
Proof. unfold settled_status. by repeat case_match. Qed.

Section machine.
Context (sha256 : string → list Byte.byte) (to_vec : Value → string).
Context (defs : gmap string WorkflowDefinition).
Notation run_move := (run_move sha256 to_vec defs).

Lemma run_move_stable s s' : run_move s s' → stable s s'.
Proof.
  unfold node_done. intros [node a aid bound Hst Hdef Hr Ha Hb|node a e Hst Hdef Hr Ha|
    node a out ref n Hst Hdef Ha Hr|node a e def Hst Hdef Ha Hr|node a Hdef Hk Ha|id a Ha|Hnr|reason Hst].
  - apply (set_node_stable _ _ _ _ Ha). intros Hd. pose proof (ready_pending _ _ _ Hr Ha). destruct Hd; congruence.
  - apply (set_node_stable _ _ _ _ Ha). intros Hd. pose proof (ready_pending _ _ _ Hr Ha). destruct Hd; congruence.
  - apply (set_node_stable _ _ _ _ Ha). intros Hd. destruct Hd; congruence.
  - apply (set_node_stable _ _ _ _ Ha). intros Hd. destruct Hd; congruence.
  - apply (set_node_stable _ _ _ _ Ha). intros Hd. pose proof (skippable_pending _ _ _ Hk Ha). destruct Hd; congruence.
  - by apply (set_node_stable _ _ _ _ Ha).
  - split; eauto.
  - split; try done; simpl; [by rewrite dom_fmap_L|]. intros id a Ha Hd.
    exists (cancelled_attempt reason a). rewrite lookup_fmap, Ha. split; [done|].
    unfold cancelled_attempt. rewrite decide_False; [done|]. unfold node_done in Hd.
    destruct Hd as [->| ->]; naive_solver.
Qed.

Lemma run_moves_stable s s' : rtc run_move s s' → stable s s'.
Proof. induction 1 as [|s1 s2 s3 H _ IH]; [done|]. etrans; [by apply run_move_stable|done]. Qed.
End machine.

(** ** What depends on dependencies only *)

Definition deps_complete (s : WorkflowRunSnapshot) (node : WorkflowNode) : Prop :=
  dependencies_complete node (wr_nodes s) = true.

Lemma dependency_done_iff nodes id :
  dependency_done nodes id = true ↔ ∃ a, nodes !! id = Some a ∧ node_done a.
Proof.
  unfold dependency_done, node_done. destruct (nodes !! id) as [a|]; [rewrite bool_decide_eq_true|];
    naive_solver.
Qed.

Lemma deps_complete_iff s node :
  deps_complete s node ↔ ∀ id, id ∈ wn_depends_on node → ∃ a, wr_nodes s !! id = Some a ∧ node_done a.
Proof.
  unfold deps_complete, dependencies_complete. rewrite forallb_forall.
  split; intros H id Hin; [apply dependency_done_iff, H; by apply list_elem_of_In|].
  apply dependency_done_iff, H. by apply list_elem_of_In.
Qed.

(** The outputs a node reads. *)
Definition same_outputs (s s' : WorkflowRunSnapshot) (node : WorkflowNode) : Prop :=
  ∀ id, id ∈ wn_depends_on node → wr_nodes s' !! id ≫= na_output = wr_nodes s !! id ≫= na_output.

Lemma stable_deps s s' node : stable s s' → deps_complete s node → deps_complete s' node ∧ same_outputs s s' node.
Proof.
  intros Hs Hd. rewrite deps_complete_iff in Hd. split.
  - apply deps_complete_iff. intros id Hin. destruct (Hd id Hin) as (a & Ha & Hdone).
    destruct (st_done _ _ Hs _ _ Ha Hdone) as (a' & Ha' & Hst & _). exists a'. split; [done|].
    unfold node_done in *. by rewrite Hst.
  - intros id Hin. destruct (Hd id Hin) as (a & Ha & Hdone).
    destruct (st_done _ _ Hs _ _ Ha Hdone) as (a' & Ha' & _ & Ho). by rewrite Ha, Ha'.
Qed.

Lemma dependency_outputs_same s s' node :
  same_outputs s s' node → dependency_outputs node (wr_nodes s') = dependency_outputs node (wr_nodes s).
Proof.
  intros Ho. unfold dependency_outputs. f_equal. apply list_omap_ext, Forall_Forall2_diag, Forall_forall.
  intros id Hin. by rewrite Ho.
Qed.

Lemma condition_holds_same s s' node v :
  condition_ok node v → wr_parameters s' = wr_parameters s → same_outputs s s' node →
  condition_holds (wr_nodes s') (wr_parameters s') v = condition_holds (wr_nodes s) (wr_parameters s) v.
Proof.
  intros Hc Hp Ho. induction Hc as [b|op l Hop Hl IH|op rule Hop Hr|rule source Hr Hs Hin]; rewrite Hp in *.
  - done.
  - assert (List.map (condition_holds (wr_nodes s') (wr_parameters s)) l =
            List.map (condition_holds (wr_nodes s) (wr_parameters s)) l) as Hmap.
    { apply map_ext_in. intros v Hv. apply IH. by apply list_elem_of_In. }
    destruct Hop as [->| ->]; simpl; by rewrite Hmap.
  - destruct Hop as [->| ->]; reflexivity.
  - simpl. unfold comparison_matches. simpl. destruct Hs as [Hs _].
    unfold get_str, get. simpl. rewrite Hs. simpl. destruct (WorkflowInputs.comparison _) as [[f e]|]; [|done].
    unfold equals_at. by rewrite Ho.
Qed.

Lemma condition_true_same s s' node version nodes :
  node_ok version nodes node → wr_parameters s' = wr_parameters s → same_outputs s s' node →
  condition_true s' node = condition_true s node.
Proof.
  intros Hn Hp Ho. unfold condition_true, condition_matches. destruct (wn_when node) as [v|] eqn:Hw; [|done].
  eapply condition_holds_same; [|done..]. by eapply no_condition.
Qed.

(** ** The invariant of a Run *)

Section invariant.
Context (sha256 : string → list Byte.byte) (to_vec : Value → string).

(** The node was begun when its dependencies were done and its condition true,
    and the digest it carries is the one of what it was given. *)
Record begun (s : WorkflowRunSnapshot) (node : WorkflowNode) (a : WorkflowNodeAttempt) : Prop := {
  bg_dependencies : deps_complete s node;
  bg_condition : condition_true s node = true;
  bg_input : ∃ bound,
    build_bound_inputs node (dependency_outputs node (wr_nodes s)) = Ok bound ∧
    na_input_digest a = Some (node_input_digest sha256 to_vec (wr_parameters s)
                                (dependency_outputs node (wr_nodes s)) bound);
}.

Record skipped (s : WorkflowRunSnapshot) (node : WorkflowNode) : Prop := {
  sk_dependencies : deps_complete s node;
  sk_condition : condition_true s node = false;
}.

Record node_inv (s : WorkflowRunSnapshot) (node : WorkflowNode) (a : WorkflowNodeAttempt) : Prop := {
  ni_id : na_node_id a = wn_id node;
  ni_number : (0 ≤ na_attempt_number a ≤ allowed_attempts node)%Z;
  ni_not_resumed : na_resume_existing_attempt a = false;
  ni_pending : na_status a = NPending → (na_attempt_number a < allowed_attempts node)%Z;
  ni_begun : na_status a = NRunning ∨ na_status a = NCompleted →
    (1 ≤ na_attempt_number a)%Z ∧ begun s node a;
  ni_skipped : wr_status s = RRunning → na_status a = NSkipped → skipped s node;
  ni_output : is_Some (na_output a) ↔ na_status a = NCompleted;
}.

(** [d] is the definition the Run was started with. *)
Record run_inv (d : WorkflowDefinition) (s : WorkflowRunSnapshot) : Prop := {
  rv_valid : definition_ok d;
  rv_typed : definition_typed d;
  rv_digest : wr_workflow_definition_digest s = Some (definition_digest sha256 to_vec d);
  rv_dom : dom (wr_nodes s) = list_to_set (wn_id <$> wd_nodes d);
  rv_nodes : ∀ node a, node ∈ wd_nodes d → wr_nodes s !! wn_id node = Some a → node_inv s node a;
}.

Lemma same_node d node node' :
  definition_ok d → node ∈ wd_nodes d → node' ∈ wd_nodes d → wn_id node = wn_id node' → node = node'.
Proof.
  intros Hd H H' Hid. pose proof (do_distinct _ Hd) as Hnd. revert H H' Hnd.
  induction (wd_nodes d) as [|x l IH]; [by intros ?%elem_of_nil|].
  rewrite fmap_cons, NoDup_cons, list_elem_of_fmap, !elem_of_cons. naive_solver.
Qed.

Lemma begun_stable d s s' node a a' :
  definition_ok d → node ∈ wd_nodes d → stable s s' → na_input_digest a' = na_input_digest a →
  begun s node a → begun s' node a'.
Proof.
  intros Hd Hin Hs Ha [Hdeps Hc (b & Hb & Hi)]. destruct (stable_deps _ _ _ Hs Hdeps) as [Hdeps' Ho].
  pose proof (st_parameters _ _ Hs) as Hp. split; [done| |].
  - by erewrite condition_true_same; [| |done..]; [done|eapply do_nodes; done].
  - exists b. rewrite (dependency_outputs_same _ _ _ Ho), Hp, Ha. done.
Qed.

Lemma skipped_stable d s s' node :
  definition_ok d → node ∈ wd_nodes d → stable s s' → skipped s node → skipped s' node.
Proof.
  intros Hd Hin Hs [Hdeps Hc]. destruct (stable_deps _ _ _ Hs Hdeps) as [Hdeps' Ho].
  split; [done|]. by erewrite condition_true_same; [| |by apply Hs|done]; [done|eapply do_nodes; done].
Qed.

(** A node that is left alone. *)
Record same_attempt (a a' : WorkflowNodeAttempt) : Prop := {
  sm_id : na_node_id a' = na_node_id a;
  sm_number : na_attempt_number a' = na_attempt_number a;
  sm_resume : na_resume_existing_attempt a' = na_resume_existing_attempt a;
  sm_status : na_status a' = na_status a;
  sm_digest : na_input_digest a' = na_input_digest a;
  sm_output : na_output a' = na_output a;
}.

Lemma node_inv_stable d s s' node a a' :
  definition_ok d → node ∈ wd_nodes d → stable s s' →
  (wr_status s' = RRunning → wr_status s = RRunning) → same_attempt a a' →
  node_inv s node a → node_inv s' node a'.
Proof.
  intros Hd Hin Hs Hst [E1 E2 E3 E4 E5 E6] [H1 H2 H3 H4 H5 H6 H7].
  split; rewrite ?E1, ?E2, ?E3, ?E4, ?E6; try done.
  - intros H. destruct (H5 H) as [? Hb]. split; [done|]. by eapply begun_stable.
  - intros Hr Hk. eapply skipped_stable; [done..|]. auto.
Qed.

(** One node changed, and the new attempt keeps the invariant. *)
Lemma set_node_inv d s node a a' :
  run_inv d s → node ∈ wd_nodes d → wr_nodes s !! wn_id node = Some a →
  stable s (set_node s (wn_id node) a') →
  node_inv (set_node s (wn_id node) a') node a' → run_inv d (set_node s (wn_id node) a').
Proof.
  intros [Hd Ht Hdig Hdom Hn] Hin Ha Hst Hnew. split; [done|done|done| |].
  - rewrite <-Hdom. apply Hst.
  - intros node' b Hin' Hb. simpl in Hb. destruct (decide (wn_id node = wn_id node')) as [He|He].
    + assert (node' = node) as -> by (symmetry; by eapply same_node). rewrite lookup_insert_eq in Hb.
      by injection Hb as <-.
    + rewrite lookup_insert_ne in Hb by done.
      eapply (node_inv_stable d s _ node' b b); [done|done|done|done|by split|by apply Hn].
Qed.
End invariant.

Section preservation.
Context (sha256 : string → list Byte.byte) (to_vec : Value → string).
Context (defs : gmap string WorkflowDefinition).
Notation run_move := (run_move sha256 to_vec defs).
Notation node_inv := (node_inv sha256 to_vec).
Notation run_inv := (run_inv sha256 to_vec).

(** A Run that is not settled finds its definition. *)
Definition linked (d : WorkflowDefinition) (s : WorkflowRunSnapshot) : Prop :=
  wr_status s = RRunning → defs !! wr_workflow_id s = Some d.

Lemma linked_node d s node :
  linked d s → wr_status s = RRunning → defined_node defs s node → node ∈ wd_nodes d.
Proof. intros Hl Hr (d' & Hd & Hin). rewrite (Hl Hr) in Hd. by injection Hd as <-. Qed.

Lemma known_node_of d s id a :
  run_inv d s → wr_nodes s !! id = Some a → ∃ node, node ∈ wd_nodes d ∧ wn_id node = id.
Proof.
  intros Hi Ha%elem_of_dom_2. rewrite (rv_dom _ _ _ _ Hi), elem_of_list_to_set, list_elem_of_fmap in Ha.
  naive_solver.
Qed.

Lemma allowed_u32 d node :
  definition_typed d → node ∈ wd_nodes d → (1 ≤ allowed_attempts node ≤ u32_max)%Z.
Proof. intros Ht Hin. specialize (Ht node Hin). unfold allowed_attempts, u32_max in *. lia. Qed.

Lemma begin_inv d s node a aid bound :
  run_inv d s → node ∈ wd_nodes d → node_ready s node = true → wr_nodes s !! wn_id node = Some a →
  build_bound_inputs node (dependency_outputs node (wr_nodes s)) = Ok bound →
  let a' := running_attempt a aid (next_number a)
    (node_input_digest sha256 to_vec (wr_parameters s) (dependency_outputs node (wr_nodes s)) bound) in
  stable s (set_node s (wn_id node) a') → run_inv d (set_node s (wn_id node) a').
Proof.
  intros Hi Hin Hr Ha Hb a' Hst. pose proof (ready_pending _ _ _ Hr Ha) as Hp.
  pose proof (rv_nodes _ _ _ _ Hi _ _ Hin Ha) as [H1 H2 H3 H4 H5 H6 H7]. specialize (H4 Hp).
  pose proof (allowed_u32 _ _ (rv_typed _ _ _ _ Hi) Hin) as Hall.
  assert (next_number a = na_attempt_number a + 1)%Z as Hn.
  { unfold next_number. rewrite H3. apply Z.mod_small. lia. }
  eapply set_node_inv; [done..|]. split; simpl; rewrite ?Hn; try done; try lia.
  - intros _. split; [lia|]. eapply (begun_stable _ _ d s); [apply Hi|done|done|reflexivity|].
    unfold node_ready in Hr. apply andb_true_iff in Hr as [[_ Hd]%andb_true_iff Hc].
    split; [done|done|]. exists bound. done.
Qed.

Lemma end_inv d s node a a' :
  run_inv d s → node ∈ wd_nodes d → wr_nodes s !! wn_id node = Some a →
  na_status a = NRunning → stable s (set_node s (wn_id node) a') →
  na_node_id a' = na_node_id a → na_attempt_number a' = na_attempt_number a →
  na_resume_existing_attempt a' = na_resume_existing_attempt a → na_input_digest a' = na_input_digest a →
  (na_status a' = NPending → (na_attempt_number a < allowed_attempts node)%Z) →
  na_status a' ≠ NRunning → na_status a' ≠ NSkipped →
  (is_Some (na_output a') ↔ na_status a' = NCompleted) →
  run_inv d (set_node s (wn_id node) a').
Proof.
  intros Hi Hin Ha Hr Hst E1 E2 E3 E4 Hp Hnr Hns Ho.
  pose proof (rv_nodes _ _ _ _ Hi _ _ Hin Ha) as [H1 H2 H3 H4 H5 H6 H7].
  destruct (H5 (or_introl Hr)) as [Hone Hbeg].
  eapply set_node_inv; [done..|]. split; rewrite ?E1, ?E2, ?E3; try done.
  intros _. split; [done|]. eapply (begun_stable _ _ d s _ _ a); [apply Hi|done..].
Qed.

Lemma stop_inv d s node a a' :
  run_inv d s → node ∈ wd_nodes d → wr_nodes s !! wn_id node = Some a → na_status a = NPending →
  stable s (set_node s (wn_id node) a') →
  na_node_id a' = na_node_id a → na_attempt_number a' = na_attempt_number a →
  na_resume_existing_attempt a' = false → na_output a' = na_output a →
  na_status a' = NFailed ∨ (na_status a' = NSkipped ∧ (wr_status s = RRunning → skipped s node)) →
  run_inv d (set_node s (wn_id node) a').
Proof.
  intros Hi Hin Ha Hp Hst E1 E2 E3 E4 Hs'.
  pose proof (rv_nodes _ _ _ _ Hi _ _ Hin Ha) as [H1 H2 H3 H4 H5 H6 H7].
  eapply set_node_inv; [done..|]. split; rewrite ?E1, ?E2, ?E3, ?E4; try done.
  - destruct Hs' as [->|[-> _]]; done.
  - destruct Hs' as [->|[-> _]]; naive_solver.
  - intros Hr Hk. destruct Hs' as [Hs'|[_ Hs']]; [congruence|]. eapply (skipped_stable d s); [apply Hi|done..|]. auto.
  - rewrite H7, Hp. destruct Hs' as [->|[-> _]]; done.
Qed.

Lemma status_inv d s s' :
  run_inv d s → stable s s' → (wr_status s' = RRunning → wr_status s = RRunning) →
  (∀ id a', wr_nodes s' !! id = Some a' → ∃ a, wr_nodes s !! id = Some a ∧
     (same_attempt a a' ∨
      (na_node_id a' = na_node_id a ∧ na_attempt_number a' = na_attempt_number a ∧
       na_resume_existing_attempt a' = na_resume_existing_attempt a ∧ na_output a' = na_output a ∧
       na_status a' = NCancelled ∧ na_status a ≠ NCompleted))) →
  run_inv d s'.
Proof.
  intros Hi Hst Hr Hn. split; [apply Hi|apply Hi|rewrite (st_definition _ _ Hst); apply Hi| |].
  - rewrite (st_dom _ _ Hst). apply Hi.
  - intros node a' Hin Ha'. destruct (Hn _ _ Ha') as (a & Ha & Hcase).
    pose proof (rv_nodes _ _ _ _ Hi _ _ Hin Ha) as Hna.
    destruct Hcase as [Hs|(E1 & E2 & E3 & E4 & E5 & E6)];
      [by eapply node_inv_stable; [apply Hi|..]|].
    destruct Hna as [H1 H2 H3 H4 H5 H6 H7]. split; rewrite ?E1, ?E2, ?E3, ?E4, ?E5; try done.
    + naive_solver.
    + rewrite H7. naive_solver.
Qed.

Lemma run_move_inv d s s' : linked d s → run_inv d s → run_move s s' → run_inv d s'.
Proof.
  intros Hl Hi Hm. pose proof (run_move_stable _ _ _ _ _ Hm) as Hst.
  destruct Hm as [node a aid bound Hrun Hdef Hr Ha Hb|node a e Hrun Hdef Hr Ha|
    node a out ref n Hrun Hdef Ha Hr|node a e def Hrun Hdef Ha Hr|node a Hdef Hk Ha|id a Ha|Hnr|reason Hrun].
  - eapply begin_inv; [done|by eapply linked_node|done..].
  - eapply stop_inv; [done|by eapply linked_node|done|by eapply ready_pending|done..|by left].
  - pose proof (linked_node _ _ _ Hl Hrun Hdef) as Hin. by eapply end_inv.
  - pose proof (linked_node _ _ _ Hl Hrun Hdef) as Hin.
    pose proof (rv_nodes _ _ _ _ Hi _ _ Hin Ha) as Hna.
    assert (na_output a = None) as Ho.
    { destruct (na_output a) eqn:Ho; [|done]. pose proof (ni_output _ _ _ _ _ Hna) as H.
      rewrite Ho, Hr in H. by destruct H as [H _]; discriminate H. }
    eapply end_inv; [done|done|done|done|done|done..| | | |]; simpl; unfold retry_status;
      case_decide; try done; [tauto|rewrite Ho..]; split; intros Hx; try done; by destruct Hx.
  - destruct (known_node_of _ _ _ _ Hi Ha) as (node' & Hin & Hid).
    pose proof (skippable_pending s node a Hk Ha) as Hp.
    pose proof (ni_not_resumed _ _ _ _ _ (rv_nodes _ _ _ _ Hi _ _ Hin ltac:(by rewrite Hid))) as Hres.
    rewrite <-Hid in Ha, Hst |- *. eapply stop_inv; [done..|]. right. split; [done|]. intros Hrun.
    assert (node' = node) as -> by (eapply same_node; [apply Hi|done|by eapply linked_node|done]).
    unfold node_skippable in Hk. rewrite !andb_true_iff, negb_true_iff in Hk. by split; tauto.
  - apply (status_inv _ _ _ Hi Hst); [done|]. intros i b Hb. simpl in Hb.
    apply lookup_insert_Some in Hb as [[<- <-]|[_ Hb]]; [exists a|exists b]; (split; [done|]); left; by split.
  - apply (status_inv _ _ _ Hi Hst); [|intros i b Hb; exists b; split; [done|]; left; by split].
   
    apply settled_running.
  - apply (status_inv _ _ _ Hi Hst); [done|]. simpl. intros i b Hb.
    rewrite lookup_fmap in Hb. destruct (wr_nodes s !! i) as [a|] eqn:Ha; [|done]. injection Hb as <-.
    exists a. split; [done|]. unfold cancelled_attempt. case_decide as Hd; [right|left; by split].
    split_and!; try done. destruct Hd; congruence.
Qed.

Lemma run_move_status s s' :
  run_move s s' → wr_status s' = RRunning → wr_status s = RRunning.
Proof.
  intros Hm. destruct Hm as [| | | | | | |]; try done. apply settled_running.
Qed.

Lemma linked_move d s s' : run_move s s' → linked d s → linked d s'.
Proof.
  intros Hm Hl Hr. rewrite (st_workflow _ _ (run_move_stable _ _ _ _ _ Hm)).
  apply Hl. by eapply run_move_status.
Qed.

Lemma run_moves_inv d s s' :
  rtc run_move s s' → linked d s → run_inv d s → linked d s' ∧ run_inv d s'.
Proof.
  induction 1 as [|s1 s2 s3 H _ IH]; [done|]. intros Hl Hi.
  apply IH; [by eapply linked_move|by eapply run_move_inv].
Qed.

Lemma run_started_inv d run s :
  definition_ok d → definition_typed d → defs !! wr_workflow_id s = Some d →
  run_started sha256 to_vec defs run s → linked d s ∧ run_inv d s.
Proof.
  intros Hd Ht Hdef [Hid Hst (d' & Hd' & Hdig & Hdom) Hn]. rewrite Hdef in Hd'. injection Hd' as <-.
  split; [by intros _|]. split; [done|done|done|done|]. intros node a Hin Ha.
  destruct (Hn _ _ Ha) as [u ->]. pose proof (allowed_u32 _ _ Ht Hin).
  split; simpl; try done; try lia; naive_solver.
Qed.
End preservation.

(** ** Controllers *)

Section controllers.
Context {O : Type} (E : Env O).
Hypothesis order : hash_order_law E.
Notation run_inv := (run_inv (ev_sha256 E) (ev_to_vec E)).
Notation moves c := (run_move (ev_sha256 E) (ev_to_vec E) (ct_definitions c)).

Record controller_inv (c : Controller O) : Prop := {
  ci_registry : registry_inv c;
  ci_typed : ∀ id d, ct_definitions c !! id = Some d → definition_typed d;
  ci_runs : ∀ run p, ct_runs c !! run = Some p →
    wr_run_id (pj_snapshot p) = run ∧
    ∃ d, linked (ct_definitions c) d (pj_snapshot p) ∧ run_inv d (pj_snapshot p);
}.

Lemma initial_controller_inv c : initial_controller c → controller_inv c.
Proof.
  intros H. split; [by apply (initial_registry E)|..].
  - intros id d. by rewrite (ic_definitions _ H).
  - intros run p. by rewrite (ic_runs _ H).
Qed.

Lemma run_op_inv op c : op_allowed c op → controller_inv c → controller_inv (run_op E op c).
Proof.
  intros Hop Hinv. pose proof Hinv as [Hreg Htyp Hruns].
  destruct (run_op_moves E op c (rg_keyed _ Hreg) Hop) as [Hsame Hmove].
  pose proof (sr_definitions _ _ Hsame) as Hdefs. split.
  - eapply ctl_step_registry; [done|by eapply step_run|done].
  - rewrite Hdefs. done.
  - intros run p' Hp'. specialize (Hmove run). rewrite Hp' in Hmove. rewrite Hdefs.
    destruct (ct_runs c !! run) as [p|] eqn:Hp.
    + destruct (Hruns _ _ Hp) as (Hid & d & Hl & Hi). split.
      * rewrite (st_run_id _ _ (run_moves_stable _ _ _ _ _ Hmove)). done.
      * exists d. by eapply run_moves_inv.
    + pose proof Hmove as [Hid _ (d & Hd & _) _]. split; [done|]. exists d.
      eapply run_started_inv; [by eapply rg_valid|by eapply Htyp|done|done].
Qed.

(** The definition of a Run that is not settled stays registered. *)
Lemma registry_op_linked op c run p d :
  ct_runs c !! run = Some p → linked (ct_definitions c) d (pj_snapshot p) →
  linked (ct_definitions (registry_op E op c)) d (pj_snapshot p).
Proof.
  intros Hp Hl Hr. specialize (Hl Hr).
  destruct op as [owner batch|owner id|id|id]; unfold registry_op, ignore.
  - destruct (register_owned_batch _ _ _ _) as [c' r] eqn:H.
    apply register_cases in H as [[Hs _]|(_ & Hb & c1 & Hs & ->)]; [| |done].
    + cbn [fst]. by rewrite (sd_definitions _ _ Hs).
    + simpl. rewrite lookup_insert_missing by apply Hb. by rewrite (sd_definitions _ _ Hs), Hl.
  - destruct (unregister_owned _ _ _ _) as [c' r] eqn:H.
    apply unregister_cases in H as [->|(Hrun & _ & _ & roles & ->)]; [done|]. simpl.
    case_match; [|done]. rewrite lookup_delete_ne; [done|]. intros ->.
    unfold runs_workflow in Hrun. rewrite existsb_false in Hrun.
    specialize (Hrun (run, p)). simpl in Hrun. unfold running_run in Hrun.
    rewrite !bool_decide_eq_true_2 in Hrun by done. discriminate Hrun.
    rewrite (order _ (ct_runs c)). by apply elem_of_map_to_list.
  - unfold disable, known_definition, cbind, gets, some_or, of_result, modify. simpl.
    by destruct (definition c id).
  - unfold enable, known_definition, cbind, gets, some_or, of_result, modify. simpl.
    by destruct (definition c id).
Qed.

Lemma registry_op_runs op c : ct_runs (registry_op E op c) = ct_runs c.
Proof.
  destruct op as [owner batch|owner id|id|id]; unfold registry_op, ignore.
  - destruct (register_owned_batch _ _ _ _) as [c' r] eqn:H.
    apply register_cases in H as [[Hs _]|(_ & Hb & c1 & Hs & ->)]; [apply Hs|apply Hs|done].
  - destruct (unregister_owned _ _ _ _) as [c' r] eqn:H.
    by apply unregister_cases in H as [->|(Hrun & _ & _ & roles & ->)].
  - unfold disable, known_definition, cbind, gets, some_or, of_result, modify. simpl.
    by destruct (definition c id).
  - unfold enable, known_definition, cbind, gets, some_or, of_result, modify. simpl.
    by destruct (definition c id).
Qed.

Lemma registry_op_keeps_typed op c :
  registry_op_typed op → (∀ id d, ct_definitions c !! id = Some d → definition_typed d) →
  ∀ id d, ct_definitions (registry_op E op c) !! id = Some d → definition_typed d.
Proof.
  intros Hop Ht id0 d. destruct op as [owner batch|owner id|id|id]; unfold registry_op, ignore.
  - destruct (register_owned_batch _ _ _ _) as [c' r] eqn:H.
    apply register_cases in H as [[Hs _]|(_ & Hb & c1 & Hs & ->)]; [| |done].
    + cbn [fst]. rewrite (sd_definitions _ _ Hs). apply Ht.
    + simpl. rewrite lookup_insert_missing, (sd_definitions _ _ Hs) by apply Hb.
      destruct (ct_definitions c !! id0) eqn:Hd; [intros [= <-]; by eapply Ht|].
      intros [Hin _]%with_id_some. simpl in Hop. rewrite Forall_forall in Hop. by apply Hop.
  - destruct (unregister_owned _ _ _ _) as [c' r] eqn:H.
    apply unregister_cases in H as [->|(Hrun & _ & _ & roles & ->)]; [apply Ht|]. simpl.
    case_match; [|apply Ht]. intros [_ ?]%lookup_delete_Some. by eapply Ht.
  - unfold disable, known_definition, cbind, gets, some_or, of_result, modify. simpl.
    destruct (definition c id); apply Ht.
  - unfold enable, known_definition, cbind, gets, some_or, of_result, modify. simpl.
    destruct (definition c id); apply Ht.
Qed.

Lemma ctl_step_inv c c' : ctl_step E c c' → controller_inv c → controller_inv c'.
Proof.
  intros [op Hop ->|op Hop ->|rt files ->] Hinv; [by apply run_op_inv| |].
  - destruct Hinv as [Hreg Htyp Hruns]. split; [by apply registry_op_inv|by apply registry_op_keeps_typed|].
    intros run p. rewrite registry_op_runs. intros Hp. destruct (Hruns _ _ Hp) as (Hid & d & Hl & Hi).
    split; [done|]. exists d. split; [by eapply registry_op_linked|done].
  - destruct Hinv as [Hreg Htyp Hruns]. split; [by apply (registry_inv_eq c)|done|done].
Qed.

Lemma reachable_inv c0 c : initial_controller c0 → rtc (ctl_step E) c0 c → controller_inv c.
Proof.
  intros H0%initial_controller_inv H. induction H as [|c1 c2 c3 H _ IH]; [done|]. eauto using ctl_step_inv.
Qed.
End controllers.

(** ** Final states *)

Definition final_status (st : WorkflowNodeStatus) : Prop := st ≠ NPending ∧ st ≠ NRunning.

Lemma some_node_true s p :
  some_node s p = true ↔ ∃ id a, wr_nodes s !! id = Some a ∧ p (na_status a) = true.
Proof.
  unfold some_node. rewrite existsb_exists. split.
  - intros ([id a] & Hin & Hp). apply list_elem_of_In, elem_of_btree_iter in Hin. eauto.
  - intros (id & a & Ha & Hp). exists (id, a). split; [|done]. by apply list_elem_of_In, elem_of_btree_iter.
Qed.

Lemma some_node_false s p :
  some_node s p = false ↔ ∀ id a, wr_nodes s !! id = Some a → p (na_status a) = false.
Proof.
  rewrite <-not_true_iff_false, some_node_true. split.
  - intros H id a Ha. apply not_true_iff_false. naive_solver.
  - intros H (id & a & Ha & Hp). rewrite (H _ _ Ha) in Hp. done.
Qed.

(** What the settled states mean. *)
Record settled_inv (s : WorkflowRunSnapshot) : Prop := {
  sv_completed : wr_status s = RCompleted → ∀ id a, wr_nodes s !! id = Some a → node_done a;
  sv_failed : wr_status s = RFailed → ∃ id a, wr_nodes s !! id = Some a ∧ na_status a = NFailed;
  sv_running : wr_status s = RRunning → ∀ id a, wr_nodes s !! id = Some a → na_status a ≠ NCancelled;
}.

Section final.
Context (sha256 : string → list Byte.byte) (to_vec : Value → string).
Context (defs : gmap string WorkflowDefinition).
Notation run_move := (run_move sha256 to_vec defs).

Lemma set_node_final s id a a' i b :
  wr_nodes s !! id = Some a → (final_status (na_status a) → na_status a' = na_status a) →
  wr_nodes s !! i = Some b → final_status (na_status b) →
  ∃ b', wr_nodes (set_node s id a') !! i = Some b' ∧ na_status b' = na_status b.
Proof.
  intros Ha Hf Hb Hfin. simpl. destruct (decide (i = id)) as [->|Hi].
  - rewrite Ha in Hb. injection Hb as <-. exists a'. rewrite lookup_insert_eq. auto.
  - exists b. by rewrite lookup_insert_ne.
Qed.

Lemma run_move_final s s' id a :
  run_move s s' → wr_nodes s !! id = Some a → final_status (na_status a) →
  ∃ a', wr_nodes s' !! id = Some a' ∧ na_status a' = na_status a.
Proof.
  intros Hm Hb Hfin. destruct Hm as [node a0 aid bound Hrun Hdef Hr Ha|node a0 e Hrun Hdef Hr Ha|
    node a0 out ref n Hrun Hdef Ha Hr|node a0 e def Hrun Hdef Ha Hr|node a0 Hdef Hk Ha|i a0 Ha|Hnr|reason Hrun].
  - eapply set_node_final; [done| |done..]. rewrite (ready_pending _ _ _ Hr Ha). by intros [].
  - eapply set_node_final; [done| |done..]. rewrite (ready_pending _ _ _ Hr Ha). by intros [].
  - eapply set_node_final; [done| |done..]. rewrite Hr. by intros [].
  - eapply set_node_final; [done| |done..]. rewrite Hr. by intros [].
  - eapply set_node_final; [done| |done..]. rewrite (skippable_pending _ _ _ Hk Ha). by intros [].
  - by eapply set_node_final.
  - by exists a.
  - exists (cancelled_attempt reason a). simpl. rewrite lookup_fmap, Hb. split; [done|].
    unfold cancelled_attempt. rewrite decide_False; [done|]. destruct Hfin. tauto.
Qed.

Lemma run_move_cancelled s s' id a' :
  run_move s s' → wr_status s' = RRunning → wr_nodes s' !! id = Some a' → na_status a' = NCancelled →
  ∃ a, wr_nodes s !! id = Some a ∧ na_status a = NCancelled.
Proof.
  intros Hm Hr Ha' Hc.
  destruct Hm as [node a|node a|node a|node a e|node a|i a| |]; simpl in Hr, Ha';
    try (apply lookup_insert_Some in Ha' as [[<- <-]|[_ Ha']]; [|by eauto]); try done; eauto.
  unfold failed_attempt, retry_status in Hc. simpl in Hc. by case_decide.
Qed.

Lemma settled_status_completed s :
  settled_inv s → settled_status s = RCompleted → ∀ id a, wr_nodes s !! id = Some a → node_done a.
Proof.
  intros [Hc _ _] H id a Ha. unfold settled_status in H. case_match; [done|]. case_match eqn:H2; [by eapply Hc|].
  rewrite some_node_false in H2. specialize (H2 _ _ Ha). apply negb_false_iff, bool_decide_eq_true in H2. done.
Qed.

Lemma settled_status_failed s :
  settled_inv s → settled_status s = RFailed → ∃ id a, wr_nodes s !! id = Some a ∧ na_status a = NFailed.
Proof.
  intros [_ Hf _] H. unfold settled_status in H. case_match eqn:H1.
  - apply some_node_true in H1 as (id & a & Ha & Hp). apply bool_decide_eq_true in Hp. eauto.
  - case_match; [by apply Hf|done].
Qed.

Lemma run_move_settled s s' : settled_inv s → run_move s s' → settled_inv s'.
Proof.
  intros Hinv Hm. pose proof Hinv as [Hc Hf Hr].
  assert (wr_status s' = wr_status s → settled_inv s') as Hsame.
  { intros He. split; rewrite He.
    - intros Hs id a' Ha'. specialize (Hc Hs). pose proof (run_move_stable _ _ _ _ _ Hm) as Hst.
      destruct (wr_nodes s !! id) as [a|] eqn:Ha.
      + destruct (st_done _ _ Hst _ _ Ha (Hc _ _ Ha)) as (b & Hb & Hb' & _). rewrite Ha' in Hb.
        injection Hb as <-. unfold node_done. rewrite Hb'. by eapply Hc.
      + apply not_elem_of_dom in Ha. apply elem_of_dom_2 in Ha'. rewrite (st_dom _ _ Hst) in Ha'. done.
    - intros Hs. destruct (Hf Hs) as (id & a & Ha & Hfail).
      destruct (run_move_final _ _ _ _ Hm Ha) as (a' & Ha' & He'); [by rewrite Hfail|].
      exists id, a'. split; [done|congruence].
    - intros Hs id a' Ha' Hcan. destruct (run_move_cancelled _ _ _ _ Hm ltac:(congruence) Ha' Hcan) as (a & Ha & ?).
      by eapply Hr. }
  destruct Hm; try (apply Hsame; done).
  - split; simpl; [by apply settled_status_completed|by apply settled_status_failed|].
    intros Hrun. apply Hr, settled_running, Hrun.
  - by split.
Qed.

(** A Run leaves the states of success and failure never, and no other settled
    state for the running one. *)
Lemma run_move_run_status s s' :
  settled_inv s → run_move s s' →
  wr_status s' = wr_status s ∨ wr_status s = RRunning ∨ wr_status s = RCancelled.
Proof.
  intros [Hc Hf _] Hm. destruct Hm; try (by left); [|by right; left].
  destruct (wr_status s) eqn:Hs; [by right; left|left|left|by right; right]; simpl; unfold settled_status.
  - specialize (Hc eq_refl).
    assert (some_node s (λ st, bool_decide (st = NFailed)) = false) as ->.
    { apply some_node_false. intros id a Ha. apply bool_decide_eq_false. destruct (Hc _ _ Ha); congruence. }
    assert (some_node s (λ st, negb (bool_decide (st = NCompleted ∨ st = NSkipped))) = false) as ->; [|done].
    apply some_node_false. intros id a Ha. apply negb_false_iff, bool_decide_eq_true. by eapply Hc.
  - assert (some_node s (λ st, bool_decide (st = NFailed)) = true) as ->; [|done].
    apply some_node_true. destruct (Hf eq_refl) as (id & a & Ha & He). exists id, a.
    split; [done|]. by apply bool_decide_eq_true.
Qed.

Lemma run_started_settled run s : run_started sha256 to_vec defs run s → settled_inv s.
Proof.
  intros [_ Hst _ Hn]. split; [congruence..|]. intros _ id a Ha. by destruct (Hn _ _ Ha) as [u ->].
Qed.

(** What a sequence of moves keeps. *)
Record moved (s s' : WorkflowRunSnapshot) : Prop := {
  mo_stable : stable s s';
  mo_settled : settled_inv s';
  mo_final : ∀ id a, wr_nodes s !! id = Some a → final_status (na_status a) →
    ∃ a', wr_nodes s' !! id = Some a' ∧ na_status a' = na_status a;
  mo_status : wr_status s = RCompleted ∨ wr_status s = RFailed → wr_status s' = wr_status s;
  mo_running : wr_status s' = RRunning → wr_status s = RRunning;
}.

Lemma run_moves_moved s s' : rtc run_move s s' → settled_inv s → moved s s'.
Proof.
  induction 1 as [s|s1 s2 s3 H _ IH]; intros Hinv; [by split; eauto|].
  pose proof (run_move_settled _ _ Hinv H) as Hinv2. destruct (IH Hinv2) as [H1 H2 H3 H4 H5]. split; [|done|..].
  - etrans; [by eapply run_move_stable|done].
  - intros id a Ha Hfin. destruct (run_move_final _ _ _ _ H Ha Hfin) as (a' & Ha' & He).
    destruct (H3 _ _ Ha') as (a'' & ? & ?); [by rewrite He|]. exists a''. split; congruence.
  - intros Hs. destruct (run_move_run_status _ _ Hinv H) as [He|[He|He]];
      [rewrite <-He; apply H4; by rewrite He|destruct Hs; congruence..].
  - intros Hs. eapply run_move_status; [done|]. by apply H5.
Qed.
End final.

Section settled_controllers.
Context {O : Type} (E : Env O).
Hypothesis order : hash_order_law E.

Definition all_settled_inv (c : Controller O) : Prop :=
  ∀ run p, ct_runs c !! run = Some p → settled_inv (pj_snapshot p).

(** The Runs before and after a step. *)
Lemma ctl_step_moved c c' run p :
  controller_inv E c → all_settled_inv c → ctl_step E c c' → ct_runs c !! run = Some p →
  ∃ p', ct_runs c' !! run = Some p' ∧ moved (pj_snapshot p) (pj_snapshot p').
Proof.
  intros Hci Hset Hstep Hp.
  assert (ct_runs c' = ct_runs c → ∃ p', ct_runs c' !! run = Some p' ∧
    moved (pj_snapshot p) (pj_snapshot p')) as Hsame.
  { intros ->. exists p. split; [done|]. apply (run_moves_moved (ev_sha256 E) (ev_to_vec E) ∅); [done|by eapply Hset]. }
  destruct Hstep as [op Hop ->|op Hop ->|rt files ->]; [|by apply Hsame, registry_op_runs|by apply Hsame].
  destruct (run_op_moves E op c (rg_keyed _ (ci_registry _ _ Hci)) Hop) as [_ Hm]. specialize (Hm run).
  rewrite Hp in Hm. destruct (ct_runs (run_op E op c) !! run) as [p'|]; [|done].
  exists p'. split; [done|]. eapply run_moves_moved; [done|by eapply Hset].
Qed.

Lemma ctl_step_settled c c' :
  controller_inv E c → ctl_step E c c' → all_settled_inv c → all_settled_inv c'.
Proof.
  intros Hci Hstep Hset run p' Hp'. destruct (ct_runs c !! run) as [p|] eqn:Hp.
  - destruct (ctl_step_moved _ _ _ _ Hci Hset Hstep Hp) as (p'' & Hp'' & Hm).
    rewrite Hp' in Hp''. injection Hp'' as <-. apply Hm.
  - destruct Hstep as [op Hop ->|op Hop ->|rt files ->].
    + destruct (run_op_moves E op c (rg_keyed _ (ci_registry _ _ Hci)) Hop) as [_ Hm].
      specialize (Hm run). rewrite Hp, Hp' in Hm. by eapply run_started_settled.
    + rewrite registry_op_runs in Hp' by done. congruence.
    + simpl in Hp'. congruence.
Qed.

Lemma reachable_settled c0 c :
  initial_controller c0 → rtc (ctl_step E) c0 c → controller_inv E c ∧ all_settled_inv c.
Proof.
  intros H0 H. assert (controller_inv E c0 ∧ all_settled_inv c0) as Hc0.
  { split; [by apply initial_controller_inv|]. intros run p. by rewrite (ic_runs _ H0). }
  clear H0. induction H as [|c1 c2 c3 H _ IH]; [done|]. destruct Hc0.
  apply IH. split; [by eapply ctl_step_inv|by eapply ctl_step_settled].
Qed.
End settled_controllers.

(** C7: a node of a Run that was never restored is tried at most
    [max(retry.max_attempts, 1)] times, and one that waits for another attempt
    has one left, so that its counter, a [u32], does not wrap around. *)
Theorem attempts_bounded {O} (E : Env O) (c0 c : Controller O) run p id a :
  hash_order_law E → initial_controller c0 → rtc (ctl_step E) c0 c →
  ct_runs c !! run = Some p → wr_nodes (pj_snapshot p) !! id = Some a →
  ∃ d node, wr_workflow_definition_digest (pj_snapshot p) =
              Some (definition_digest (ev_sha256 E) (ev_to_vec E) d) ∧
    node ∈ wd_nodes d ∧ wn_id node = id ∧
    (0 ≤ na_attempt_number a ≤ allowed_attempts node ≤ u32_max)%Z ∧
    (na_status a = NPending → na_attempt_number a < allowed_attempts node)%Z ∧
    (na_status a = NRunning ∨ na_status a = NCompleted → 1 ≤ na_attempt_number a)%Z.
Proof.
  intros Ho H0 Hr Hp Ha. pose proof (reachable_inv E Ho _ _ H0 Hr) as [_ _ Hruns].
  destruct (Hruns _ _ Hp) as (Hid & d & Hl & Hi). destruct (known_node_of _ _ _ _ _ _ Hi Ha) as (node & Hin & Hn).
  subst id. exists d, node. destruct (rv_nodes _ _ _ _ Hi _ _ Hin Ha) as [_ H2 _ H4 H5 _ _].
  pose proof (allowed_u32 _ _ (rv_typed _ _ _ _ Hi) Hin). split_and!; try done; try lia; try tauto; apply Hi.
Qed.

(** what a settled Run says of its nodes: all the nodes of a completed Run
    are completed or skipped, and a failed Run has a failed node. *)
Theorem settled_states_mean {O} (E : Env O) (c0 c : Controller O) run p :
  hash_order_law E → initial_controller c0 → rtc (ctl_step E) c0 c → ct_runs c !! run = Some p →
  (wr_status (pj_snapshot p) = RCompleted →
     ∀ id a, wr_nodes (pj_snapshot p) !! id = Some a → na_status a = NCompleted ∨ na_status a = NSkipped) ∧
  (wr_status (pj_snapshot p) = RFailed →
     ∃ id a, wr_nodes (pj_snapshot p) !! id = Some a ∧ na_status a = NFailed).
Proof.
  intros Ho H0 Hr Hp. destruct (reachable_settled E Ho _ _ H0 Hr) as [_ Hset].
  destruct (Hset _ _ Hp). done.
Qed.
