(* ===== verification/WorkflowInterleaving.v ===== *)
(** * Execution loops side by side

    [execute_until_settled] decides which nodes to begin and which to skip from a
    snapshot, and begins and skips them later, each under the lock of the Run;
    between the two anything may happen, another loop on the same Run included.
    [loop_step] is that: one access to a Run, to the registry or to what other
    components own, by any number of loops and callers.  Nothing is assumed of the
    node that is begun or skipped but that a loop once found it ready, or its
    condition false. *)
From S2P Require Import ResourceTypes Prelude Json Types TaskRegistry RuntimeLedger WorkflowTypes WorkflowValidation WorkflowGraph WorkflowFacts WorkflowReferences Identity Registries LedgerInterface MessageBus CollaborationTypes CollaborationRuntime CollaborationTasks CollaborationRestore WorkflowRuns WorkflowInputs WorkflowController WorkflowRegistration WorkflowCompletion WorkflowNodes WorkflowExecution WorkflowRestore WorkflowFrames WorkflowMoves WorkflowRegistry WorkflowSafety.

(** What the loops have found: nodes that were ready, nodes to be skipped. *)
Record Found : Type := {
  fd_ready : list (RunId * WorkflowNode);
  fd_skippable : list (RunId * string);
}.

Definition nothing_found : Found := {| fd_ready := []; fd_skippable := [] |}.
Definition found_ready (run : RunId) (nodes : list WorkflowNode) (f : Found) : Found :=
  {| fd_ready := fd_ready f ++ ((λ n, (run, n)) <$> nodes); fd_skippable := fd_skippable f |}.
Definition found_skippable (run : RunId) (ids : list string) (f : Found) : Found :=
  {| fd_ready := fd_ready f; fd_skippable := fd_skippable f ++ ((λ id, (run, id)) <$> ids) |}.

(** Calls that do not come from a loop's decision.  ([ls_call] also takes a decided
    call that is allowed at that moment, so that a whole execution, which
    [execution_takes_allowed_steps] is about, is among the steps.) *)
Definition undecided (op : RunOp) : Prop :=
  match op with OpBegin _ _ | OpFailBefore _ _ _ | OpSkip _ _ => False | _ => True end.

Section loops.
Context {O : Type} (E : Env O).

Inductive loop_step : Controller O * Found → Controller O * Found → Prop :=
  | ls_ready c f run nodes :
      (ready_nodes run c).2 = Ok nodes → loop_step (c, f) (c, found_ready run nodes f)
  | ls_skippable c f run s d :
      run_definition run "unknown workflow: " c = (c, Ok (s, d)) →
      loop_step (c, f) (c, found_skippable run (wn_id <$> List.filter (node_skippable s) (wd_nodes d)) f)
  | ls_begin c f run node :
      (run, node) ∈ fd_ready f → loop_step (c, f) (run_op E (OpBegin run node) c, f)
  | ls_fail_before c f run node error :
      (run, node) ∈ fd_ready f → loop_step (c, f) (run_op E (OpFailBefore run node error) c, f)
  | ls_skip c f run id :
      (run, id) ∈ fd_skippable f → loop_step (c, f) (run_op E (OpSkip run id) c, f)
  | ls_call c f op : undecided op ∨ op_allowed c op → loop_step (c, f) (run_op E op c, f)
  | ls_registry c f op : registry_op_typed op → loop_step (c, f) (registry_op E op c, f)
  | ls_outside c f runtime files : loop_step (c, f) (set_files files (set_runtime runtime c), f).

(** ** What the found nodes are *)

(** While the Run is not settled, what was found ready has its dependencies done
    and its condition true, and what was to be skipped has a false one. *)
Record ready_still (defs : gmap string WorkflowDefinition) (s : WorkflowRunSnapshot) (node : WorkflowNode) : Prop := {
  ry_node : ∃ d, defs !! wr_workflow_id s = Some d ∧ node ∈ wd_nodes d;
  ry_deps : deps_complete s node;
  ry_condition : condition_true s node = true;
}.

Record skip_still (defs : gmap string WorkflowDefinition) (s : WorkflowRunSnapshot) (node : WorkflowNode) : Prop := {
  sk_node : ∃ d, defs !! wr_workflow_id s = Some d ∧ node ∈ wd_nodes d;
  sk_deps : deps_complete s node;
  sk_when : is_present (wn_when node) = true;
  sk_condition : condition_true s node = false;
}.

Definition skip_status (st : WorkflowNodeStatus) : Prop := st = NPending ∨ st = NSkipped ∨ st = NCancelled.

Definition ready_found (c : Controller O) (x : RunId * WorkflowNode) : Prop :=
  ∃ p, ct_runs c !! x.1 = Some p ∧
    (wr_status (pj_snapshot p) = RRunning → ready_still (ct_definitions c) (pj_snapshot p) x.2).

Definition skip_found (c : Controller O) (x : RunId * string) : Prop :=
  ∃ p a, ct_runs c !! x.1 = Some p ∧ wr_nodes (pj_snapshot p) !! x.2 = Some a ∧ skip_status (na_status a) ∧
    (wr_status (pj_snapshot p) = RRunning →
       ∃ node, wn_id node = x.2 ∧ skip_still (ct_definitions c) (pj_snapshot p) node).

(** ** Skipping late *)

(** A node that was to be skipped is skipped whatever it is by then: again, or in
    a Run that is settled. *)
Inductive late_skip (s : WorkflowRunSnapshot) : WorkflowRunSnapshot → Prop :=
  | late_skip_node id a :
      wr_nodes s !! id = Some a →
      na_status a = NSkipped ∨ wr_status s ≠ RRunning ∧ skip_status (na_status a) →
      late_skip s (set_node s id (skipped_attempt a)).

Lemma late_skip_stable s s' : late_skip s s' → stable s s'.
Proof.
  intros [id a Ha Hs]. apply (set_node_stable _ _ _ _ Ha). intros [Hd|Hd]; [|done].
  destruct Hs as [Hs|[_ [Hs|[Hs|Hs]]]]; congruence.
Qed.

Lemma late_skip_settled s s' : settled_inv s → late_skip s s' → settled_inv s'.
Proof.
  intros [Hc Hf Hr] [id a Ha Hs]. split; simpl.
  - intros Hst i b [[<- <-]|[_ Hb]]%lookup_insert_Some; [by right|by eapply Hc].
  - intros Hst. destruct (Hf Hst) as (i & b & Hb & Hfail). exists i, b. split; [|done].
    rewrite lookup_insert_ne; [done|]. intros ->. rewrite Ha in Hb. injection Hb as ->.
    destruct Hs as [Hs|[_ [Hs|[Hs|Hs]]]]; congruence.
  - intros Hst i b [[<- <-]|[_ Hb]]%lookup_insert_Some; [done|by eapply Hr].
Qed.

Lemma late_skip_inv d s s' :
  WorkflowSafety.run_inv (ev_sha256 E) (ev_to_vec E) d s → late_skip s s' →
  WorkflowSafety.run_inv (ev_sha256 E) (ev_to_vec E) d s'.
Proof.
  intros Hi Hl. pose proof (late_skip_stable _ _ Hl) as Hst. destruct Hl as [id a Ha Hs].
  destruct (known_node_of _ _ _ _ _ _ Hi Ha) as (node & Hin & <-).
  pose proof (rv_nodes _ _ _ _ Hi _ _ Hin Ha) as [H1 H2 H3 H4 H5 H6 H7].
  eapply set_node_inv; [done..|]. split; simpl; try done; [naive_solver| |].
  - intros Hr _. eapply (skipped_stable d s); [apply Hi|done..|].
    destruct Hs as [Hs|[Hn _]]; [by apply H6|done].
  - rewrite H7. destruct Hs as [->|[_ [->|[->| ->]]]]; done.
Qed.

(** ** What was found stays true *)

Section still.
Context (defs : gmap string WorkflowDefinition) (d : WorkflowDefinition) (s s' : WorkflowRunSnapshot).
Context (Hi : WorkflowSafety.run_inv (ev_sha256 E) (ev_to_vec E) d s).
Context (Hl : linked defs d s) (Hrun : wr_status s = RRunning) (Hst : stable s s').

Lemma still_node node : (∃ d, defs !! wr_workflow_id s = Some d ∧ node ∈ wd_nodes d) → node ∈ wd_nodes d.
Proof. intros (d' & Hd & Hin). rewrite (Hl Hrun) in Hd. by injection Hd as <-. Qed.

Lemma still_condition node :
  node ∈ wd_nodes d → deps_complete s node →
  deps_complete s' node ∧ condition_true s' node = condition_true s node.
Proof.
  intros Hin Hd. destruct (stable_deps _ _ _ Hst Hd) as [Hd' Ho]. split; [done|].
  eapply condition_true_same; [eapply do_nodes; [apply Hi|done]|apply Hst|done].
Qed.

Lemma ready_still_stable node : ready_still defs s node → ready_still defs s' node.
Proof.
  intros [Hn Hd Hc]. destruct (still_condition node (still_node _ Hn) Hd) as [Hd' Hc'].
  split; [by rewrite (st_workflow _ _ Hst)|done|congruence].
Qed.

Lemma skip_still_stable node : skip_still defs s node → skip_still defs s' node.
Proof.
  intros [Hn Hd Hw Hc]. destruct (still_condition node (still_node _ Hn) Hd) as [Hd' Hc'].
  split; [by rewrite (st_workflow _ _ Hst)|done..|congruence].
Qed.
End still.

Notation run_move defs := (run_move (ev_sha256 E) (ev_to_vec E) defs).
Notation run_inv := (WorkflowSafety.run_inv (ev_sha256 E) (ev_to_vec E)).

Definition loop_move (defs : gmap string WorkflowDefinition) (s s' : WorkflowRunSnapshot) : Prop :=
  run_move defs s s' ∨ late_skip s s'.

Lemma loop_move_stable defs s s' : loop_move defs s s' → stable s s'.
Proof. intros [H|H]; [by eapply run_move_stable|by apply late_skip_stable]. Qed.

Lemma loop_move_running defs s s' : loop_move defs s s' → wr_status s' = RRunning → wr_status s = RRunning.
Proof. intros [H|[]]; [by eapply run_move_status|done]. Qed.

(** A node that is to be skipped is neither begun nor failed. *)
Lemma skip_status_set s id0 a0 a0' id a :
  wr_nodes s !! id0 = Some a0 → wr_nodes s !! id = Some a → skip_status (na_status a) →
  (id0 = id → skip_status (na_status a0') ∨ False) →
  ∃ a', wr_nodes (set_node s id0 a0') !! id = Some a' ∧ skip_status (na_status a').
Proof.
  intros H0 Ha Hs Hid. simpl. destruct (decide (id0 = id)) as [->|Hne].
  - exists a0'. rewrite lookup_insert_eq. split; [done|]. by destruct (Hid eq_refl).
  - exists a. by rewrite lookup_insert_ne.
Qed.

Lemma skip_status_move defs d s s' id a :
  linked defs d s → run_inv d s → loop_move defs s s' →
  wr_nodes s !! id = Some a → skip_status (na_status a) →
  (wr_status s = RRunning → ∃ node, wn_id node = id ∧ skip_still defs s node) →
  ∃ a', wr_nodes s' !! id = Some a' ∧ skip_status (na_status a').
Proof.
  intros Hl Hi Hm Ha Hs Hsk.
  assert (∀ node0, wr_status s = RRunning → defined_node defs s node0 → condition_true s node0 = true →
    wn_id node0 ≠ id) as Hother.
  { intros node0 Hrun Hdef Hc Hid. destruct (Hsk Hrun) as (node & Hid' & [Hn _ _ Hf]).
    assert (node0 = node) as ->; [|congruence].
    eapply (same_node d); [apply Hi|by eapply still_node|by eapply still_node|congruence]. }
  destruct Hm as [Hm|[id0 a0 Ha0 _]]; [|eapply skip_status_set; [done..|]; intros _; left; by right; left].
  destruct Hm as [node a0 aid bound Hrun Hdef Hr Ha0|node a0 e Hrun Hdef Hr Ha0|
    node a0 out ref n Hrun Hdef Ha0 Hr|node a0 e def Hrun Hdef Ha0 Hr|node a0 Hdef Hk Ha0|i a0 Ha0|Hnr|reason Hrun].
  - eapply skip_status_set; [done..|]. intros He. exfalso. apply (Hother node); [done..| |done].
    unfold node_ready in Hr. by apply andb_true_iff in Hr as [_ ?].
  - eapply skip_status_set; [done..|]. intros He. exfalso. apply (Hother node); [done..| |done].
    unfold node_ready in Hr. by apply andb_true_iff in Hr as [_ ?].
  - eapply skip_status_set; [done..|]. intros <-. rewrite Ha in Ha0. injection Ha0 as <-.
    destruct Hs as [Hs|[Hs|Hs]]; congruence.
  - eapply skip_status_set; [done..|]. intros <-. rewrite Ha in Ha0. injection Ha0 as <-.
    destruct Hs as [Hs|[Hs|Hs]]; congruence.
  - eapply skip_status_set; [done..|]. intros _. left. by right; left.
  - eapply skip_status_set; [done..|]. intros <-. rewrite Ha in Ha0. injection Ha0 as <-. by left.
  - by exists a.
  - exists (cancelled_attempt reason a). simpl. rewrite lookup_fmap, Ha. split; [done|].
    unfold cancelled_attempt. case_decide; [by right; right|done].
Qed.

(** ** The accesses *)

Definition late_runs (before after : gmap RunId WorkflowProjection) : Prop :=
  ∀ run, match before !! run, after !! run with
         | Some p, Some p' => rtc late_skip (pj_snapshot p) (pj_snapshot p')
         | None, None => True
         | _, _ => False
         end.

Lemma late_runs_refl m : late_runs m m.
Proof. intros run. by destruct (m !! run). Qed.

(** An access that changes no Run but by late skips. *)
Record quiet (c c' : Controller O) : Prop := {
  qt_registry : same_registry c c';
  qt_runs : late_runs (ct_runs c) (ct_runs c');
}.

Definition quiet_action {R} (run : RunId) (act : action R) (c : Controller O) : Prop :=
  ∀ g c1 c2 prepared v,
    frame c c1 → act g (run_snapshot c run) c1 = (c2, Ok (prepared, v)) →
    match run_snapshot c run, prepared with
    | Some s, Some s' => rtc late_skip s s'
    | None, None => True
    | _, _ => False
    end.

Lemma mutate_quiet {R} run (act : action R) c :
  (∀ g p, framed (act g p)) → quiet_action run act c → quiet c (mutate_projection E run act c).1.
Proof.
  intros Hf Hact. destruct (mutate_projection E run act c) as [c' r] eqn:H.
  apply mutate_cases in H; [|done]. simpl.
  destruct H as [e Hn|g c1 c2 res e Hn _ _ Ha Hn'|g c1 c2 prepared v p r Hn _ _ Ha -> Hn' Hr].
  - destruct Hn as [[? Hruns]]. split; [done|]. rewrite Hruns. apply late_runs_refl.
  - pose proof (framed_eq _ _ _ _ (Hf _ _) Ha) as [].
    destruct Hn as [[]], Hn' as [[]]. split; [by do 2 (etrans; [done|])|].
    assert (ct_runs c' = ct_runs c) as -> by congruence. apply late_runs_refl.
  - pose proof (framed_eq _ _ _ _ (Hf _ _) Ha) as [].
    assert (frame c c1) as Hc1 by apply Hn. destruct Hn as [[]], Hn' as [[Hr' Hruns]]. split.
    + do 2 (etrans; [done|]). etrans; [|exact Hr']. by destruct Hr'.
    + rewrite Hruns. simpl. specialize (Hact g c1 c2 prepared v Hc1 Ha). unfold run_snapshot in Hact.
      intros i. destruct (decide (i = run)) as [->|Hi];
        [rewrite lookup_partial_alter_eq|rewrite lookup_partial_alter_ne by done; by destruct (ct_runs c !! i)].
      by destruct (ct_runs c !! run), prepared.
Qed.

(** An access is a step of the controller that is allowed, or quiet. *)
Definition loop_effect (c c' : Controller O) : Prop := ctl_step E c c' ∨ quiet c c'.

Lemma run_snapshot_some (c : Controller O) run p : ct_runs c !! run = Some p → run_snapshot c run = Some (pj_snapshot p).
Proof. unfold run_snapshot. by intros ->. Qed.

Lemma begin_effect c run node : ready_found c (run, node) → loop_effect c (run_op E (OpBegin run node) c).
Proof.
  intros (p & Hp%run_snapshot_some & Hst). simpl in Hp, Hst. set (s := pj_snapshot p) in *.
  destruct (decide (wr_status s = RRunning)) as [Hrun|Hrun];
    [destruct (is_pending s node) eqn:Hpend|].
  - left. apply (step_run E _ _ (OpBegin run node)); [|done]. exists s. destruct (Hst Hrun) as [Hn Hd Hc].
    split_and!; [done..|]. unfold node_ready. by rewrite Hpend, Hc, Hd.
  - right. apply mutate_quiet; [framed|]. intros g c1 c2 prepared v Hc1 H. exfalso. unfold begin_action in H.
    rewrite Hp in H. cstep H. apply known_run_ok in H0 as [-> [= <-]]. do 2 (cstep H). cstep H.
    apply known_node_ok in H2 as [-> Ha]. cstep H. cok H2. unfold is_pending in Hpend.
    rewrite Ha in Hpend. apply bool_decide_eq_true in H2. by apply bool_decide_eq_false in Hpend.
  - right. apply mutate_quiet; [framed|]. intros g c1 c2 prepared v Hc1 H. exfalso. unfold begin_action in H.
    rewrite Hp in H. cstep H. apply known_run_ok in H0 as [-> [= <-]]. cstep H. cok H0. by apply bool_decide_eq_true in H0.
Qed.

Lemma fail_before_effect c run node e :
  ready_found c (run, node) → loop_effect c (run_op E (OpFailBefore run node e) c).
Proof.
  intros (p & Hp%run_snapshot_some & Hst). simpl in Hp, Hst. set (s := pj_snapshot p) in *.
  destruct (decide (wr_status s = RRunning)) as [Hrun|Hrun].
  - left. apply (step_run E _ _ (OpFailBefore run node e)); [|done]. exists s. destruct (Hst Hrun) as [Hn Hd Hc].
    split_and!; [done..|]. unfold ready_if_pending, node_ready. destruct (is_pending s node); [|done]. by rewrite Hc, Hd.
  - right. apply mutate_quiet; [framed|]. intros g c1 c2 prepared v Hc1 H. unfold fail_before_action in H.
    rewrite Hp in H |- *. cstep H. apply known_run_ok in H0 as [-> [= <-]]. rewrite decide_True in H by done. by cdone H.
Qed.

Lemma skip_effect c run id :
  all_settled_inv c → skip_found c (run, id) → loop_effect c (run_op E (OpSkip run id) c).
Proof.
  intros Hset (p & a & Hp & Ha & Hs & Hst). simpl in Hp, Ha, Hst. pose proof (Hset _ _ Hp) as Hsv.
  apply run_snapshot_some in Hp. set (s := pj_snapshot p) in *.
  destruct (decide (wr_status s = RRunning ∧ na_status a = NPending)) as [[Hrun Hpend]|Hlate].
  - left. apply (step_run E _ _ (OpSkip run id)); [|done]. destruct (Hst Hrun) as (node & Hid & [Hn Hd Hw Hc]).
    exists node. split; [done|]. exists s. split_and!; [done..|]. unfold node_skippable, is_pending.
    by rewrite Hid, Ha, Hpend, bool_decide_eq_true_2, Hd, Hw, Hc.
  - right. apply mutate_quiet; [framed|]. intros g c1 c2 prepared v Hc1 H. unfold skip_action in H.
    rewrite Hp in H |- *. cstep H. cstep H. apply known_run_ok in H1 as [-> [= <-]]. cstep H. cdone H.
    apply rtc_once. replace (with_nodes s _) with (set_node s id (skipped_attempt a)).
    + apply late_skip_node; [done|]. destruct (decide (wr_status s = RRunning)) as [Hrun|]; [left|by right].
      destruct Hs as [Hs|[Hs|Hs]]; [tauto|done|]. by destruct (sv_running _ Hsv Hrun _ _ Ha).
    + unfold set_node. f_equal. apply map_eq. intros i. destruct (decide (i = id)) as [->|Hi];
        [by rewrite lookup_insert_eq, lookup_alter_eq, Ha|by rewrite lookup_insert_ne, lookup_alter_ne].
Qed.

(** ** What the accesses keep *)

(** The state of a node after a while: a final one stays, but for a cancelled node
    that a loop had decided to skip before. *)
Definition final_after (st st' : WorkflowNodeStatus) : Prop :=
  st' = st ∨ st = NCancelled ∧ st' = NSkipped.

Record loop_moved (s s' : WorkflowRunSnapshot) : Prop := {
  lm_stable : stable s s';
  lm_settled : settled_inv s';
  lm_final : ∀ id a, wr_nodes s !! id = Some a → final_status (na_status a) →
    ∃ a', wr_nodes s' !! id = Some a' ∧ final_after (na_status a) (na_status a');
  lm_status : wr_status s = RCompleted ∨ wr_status s = RFailed → wr_status s' = wr_status s;
  lm_running : wr_status s' = RRunning → wr_status s = RRunning;
}.

Lemma loop_move_moved defs s s' : settled_inv s → loop_move defs s s' → loop_moved s s'.
Proof.
  intros Hs [Hm|Hm].
  - destruct (run_moves_moved (ev_sha256 E) (ev_to_vec E) defs s s' (rtc_once _ _ Hm) Hs) as [H1 H2 H3 H4 H5].
    split; [done..| |done|done]. intros id a Ha Hf. destruct (H3 _ _ Ha Hf) as (a' & ? & ?). exists a'. split; [done|by left].
  - pose proof (late_skip_stable _ _ Hm) as Hst. pose proof (late_skip_settled _ _ Hs Hm) as Hset.
    split; [done|done| |by destruct Hm|by destruct Hm].
    destruct Hm as [id a Ha Hcase]. intros i b Hb Hf. simpl. destruct (decide (i = id)) as [->|Hi].
    + rewrite Ha in Hb. injection Hb as <-. eexists. rewrite lookup_insert_eq. split; [done|]. simpl.
      destruct Hcase as [Hk|[Hn [Hk|[Hk|Hk]]]]; [by left|by destruct Hf|by left|by right].
    + exists b. rewrite lookup_insert_ne by done. split; [done|by left].
Qed.

Lemma loop_moved_trans s1 s2 s3 : loop_moved s1 s2 → loop_moved s2 s3 → loop_moved s1 s3.
Proof.
  intros [A1 A2 A3 A4 A5] [B1 B2 B3 B4 B5]. split; [by etrans|done| | |auto].
  - intros id a Ha Hf. destruct (A3 _ _ Ha Hf) as (a' & Ha' & Hc).
    destruct (B3 _ _ Ha') as (a'' & Ha'' & Hc'); [by destruct Hc as [->|[_ ->]]|].
    exists a''. split; [done|]. unfold final_after in *.
    destruct Hc as [Hc|[Hc Hc2]], Hc' as [Hc'|[Hd Hc']]; [left|right; split|right; split|]; congruence.
  - intros Hs. rewrite B4; [auto|]. by rewrite A4.
Qed.

Lemma loop_moves_moved defs s s' : rtc (loop_move defs) s s' → settled_inv s → loop_moved s s'.
Proof.
  induction 1 as [s|s1 s2 s3 H _ IH]; intros Hs.
  - split; [done|done| |done|done]. intros id a Ha _. exists a. split; [done|by left].
  - pose proof (loop_move_moved _ _ _ Hs H) as Hm. eapply loop_moved_trans; [done|]. apply IH, Hm.
Qed.

Lemma loop_move_linked defs d s s' : loop_move defs s s' → linked defs d s → linked defs d s'.
Proof.
  intros Hm Hl Hr. rewrite (st_workflow _ _ (loop_move_stable _ _ _ Hm)). apply Hl. by eapply loop_move_running.
Qed.

Lemma loop_move_inv defs d s s' : linked defs d s → run_inv d s → loop_move defs s s' → run_inv d s'.
Proof. intros Hl Hi [H|H]; [by eapply run_move_inv|by eapply late_skip_inv]. Qed.

Lemma loop_moves_inv defs d s s' :
  rtc (loop_move defs) s s' → linked defs d s → run_inv d s → linked defs d s' ∧ run_inv d s'.
Proof.
  induction 1 as [|s1 s2 s3 H _ IH]; [done|]. intros Hl Hi.
  apply IH; [by eapply loop_move_linked|by eapply loop_move_inv].
Qed.

Lemma loop_moves_ready defs d s s' node :
  rtc (loop_move defs) s s' → linked defs d s → run_inv d s →
  (wr_status s = RRunning → ready_still defs s node) → wr_status s' = RRunning → ready_still defs s' node.
Proof.
  induction 1 as [|s1 s2 s3 H _ IH]; [auto|]. intros Hl Hi Hr. apply IH; [by eapply loop_move_linked|by eapply loop_move_inv|].
  intros Hrun. pose proof (loop_move_running _ _ _ H Hrun) as Hrun1. eapply ready_still_stable; [done..| |auto].
  by eapply loop_move_stable.
Qed.

Definition to_skip (defs : gmap string WorkflowDefinition) (s : WorkflowRunSnapshot) (id : string) : Prop :=
  (∃ a, wr_nodes s !! id = Some a ∧ skip_status (na_status a)) ∧
  (wr_status s = RRunning → ∃ node, wn_id node = id ∧ skip_still defs s node).

Lemma loop_moves_skip defs d s s' id :
  rtc (loop_move defs) s s' → linked defs d s → run_inv d s → to_skip defs s id → to_skip defs s' id.
Proof.
  induction 1 as [|s1 s2 s3 H _ IH]; [auto|]. intros Hl Hi [(a & Ha & Hs) Hsk].
  apply IH; [by eapply loop_move_linked|by eapply loop_move_inv|]. split; [by eapply skip_status_move|].
  intros Hrun. pose proof (loop_move_running _ _ _ H Hrun) as Hrun1. destruct (Hsk Hrun1) as (node & Hid & Hn).
  exists node. split; [done|]. eapply skip_still_stable; [done..| |done]. by eapply loop_move_stable.
Qed.

(** ** Loops and steps of the controller *)

(** A loop finds what is there. *)
Lemma run_definition_eq run missing (c : Controller O) s d :
  run_snapshot c run = Some s → ct_definitions c !! wr_workflow_id s = Some d →
  run_definition run missing c = (c, Ok (s, d)).
Proof. intros Hs Hd. unfold run_definition, cbind, gets, some_or, of_result, definition. rewrite Hs. simpl. by rewrite Hd. Qed.

Lemma find_ready c f run node :
  in_run c run node node_ready → ∃ f', loop_step (c, f) (c, f') ∧ (run, node) ∈ fd_ready f' ∧ fd_ready f ⊆ fd_ready f'.
Proof.
  intros (s & Hs & (d & Hd & Hin) & Hr). eexists. split; [apply (ls_ready c f run)|split].
  - unfold ready_nodes, cbind. by rewrite (run_definition_eq _ _ _ _ _ Hs Hd).
  - apply elem_of_app. right. apply list_elem_of_fmap. exists node. split; [done|].
    apply list_elem_of_In, filter_In. split; [by apply list_elem_of_In|done].
  - simpl. set_solver.
Qed.

Lemma find_skippable c f run node :
  in_run c run node node_skippable →
  ∃ f', loop_step (c, f) (c, f') ∧ (run, wn_id node) ∈ fd_skippable f' ∧ fd_ready f ⊆ fd_ready f'.
Proof.
  intros (s & Hs & (d & Hd & Hin) & Hk). eexists. split; [eapply (ls_skippable c f run), run_definition_eq; done|split; [|done]].
  apply elem_of_app. right. apply list_elem_of_fmap. exists (wn_id node). split; [done|]. apply list_elem_of_fmap.
  exists node. split; [done|]. apply list_elem_of_In, filter_In. split; [by apply list_elem_of_In|done].
Qed.

Lemma ctl_steps_loop c c' f : rtc (ctl_step E) c c' → rtc loop_step (c, f) (c', f).
Proof.
  induction 1 as [|c1 c2 c3 H _ IH]; [done|]. eapply rtc_l; [|exact IH].
  destruct H as [op Hop ->|op Hop ->|rt files ->]; constructor; auto.
Qed.

(** ** The invariant of the loops *)

Context (order : hash_order_law E).

Definition runs_loop (defs : gmap string WorkflowDefinition) (before after : gmap RunId WorkflowProjection) : Prop :=
  ∀ run, match before !! run, after !! run with
         | Some p, Some p' => rtc (loop_move defs) (pj_snapshot p) (pj_snapshot p')
         | None, Some p' => run_started (ev_sha256 E) (ev_to_vec E) defs run (pj_snapshot p')
         | Some _, None => False
         | None, None => True
         end.

Lemma runs_loop_refl defs m : runs_loop defs m m.
Proof. intros run. by destruct (m !! run). Qed.

Lemma effect_runs c c' : controller_inv E c → loop_effect c c' → runs_loop (ct_definitions c) (ct_runs c) (ct_runs c').
Proof.
  intros Hci [[op Hop ->|op _ ->|rt files ->]|[_ Hq]].
  - destruct (run_op_moves E op c (rg_keyed _ (ci_registry _ _ Hci)) Hop) as [_ Hm]. intros run. specialize (Hm run).
    destruct (ct_runs c !! run), (ct_runs (run_op E op c) !! run); try done.
    eapply rtc_subrel; [|exact Hm]. by left.
  - rewrite registry_op_runs by done. apply runs_loop_refl.
  - apply runs_loop_refl.
  - intros run. specialize (Hq run). destruct (ct_runs c !! run), (ct_runs c' !! run); try done.
    eapply rtc_subrel; [|exact Hq]. by right.
Qed.

Lemma effect_linked c c' run p d :
  controller_inv E c → loop_effect c c' → ct_runs c !! run = Some p →
  linked (ct_definitions c) d (pj_snapshot p) → linked (ct_definitions c') d (pj_snapshot p).
Proof.
  intros Hci [[op Hop ->|op _ ->|rt files ->]|[Hs _]] Hp Hl.
  - destruct (run_op_moves E op c (rg_keyed _ (ci_registry _ _ Hci)) Hop) as [[Hd] _]. by rewrite Hd.
  - by eapply registry_op_linked.
  - done.
  - by rewrite (sr_definitions _ _ Hs).
Qed.

Lemma effect_inv c c' : loop_effect c c' → controller_inv E c → controller_inv E c'.
Proof.
  intros He Hci. pose proof He as [Hstep|[Hs Hq]]; [by eapply ctl_step_inv|]. pose proof Hci as [Hreg Htyp Hruns].
  pose proof (sr_definitions _ _ Hs) as Hd. split.
  - destruct Hs. by apply (registry_inv_eq c).
  - by rewrite Hd.
  - intros run p' Hp'. pose proof (effect_runs _ _ Hci He run) as Hr. specialize (Hq run). rewrite Hp' in Hr, Hq.
    destruct (ct_runs c !! run) as [p|] eqn:Hp; [|done]. destruct (Hruns _ _ Hp) as (Hid & d & Hl & Hi).
    destruct (loop_moves_inv _ d _ _ Hr Hl Hi) as [Hl' Hi']. split; [|exists d; by rewrite Hd].
    clear -Hid Hr. induction Hr as [|s1 s2 s3 H _ IH]; [done|]. apply IH.
    by rewrite (st_run_id _ _ (loop_move_stable _ _ _ H)).
Qed.

Lemma effect_moved c c' run p :
  controller_inv E c → all_settled_inv c → loop_effect c c' → ct_runs c !! run = Some p →
  ∃ p', ct_runs c' !! run = Some p' ∧ rtc (loop_move (ct_definitions c)) (pj_snapshot p) (pj_snapshot p') ∧
    loop_moved (pj_snapshot p) (pj_snapshot p').
Proof.
  intros Hci Hset He Hp. pose proof (effect_runs _ _ Hci He run) as Hr. rewrite Hp in Hr.
  destruct (ct_runs c' !! run) as [p'|]; [|done]. exists p'. split_and!; [done..|].
  eapply loop_moves_moved; [done|by eapply Hset].
Qed.

Lemma effect_settled c c' : controller_inv E c → loop_effect c c' → all_settled_inv c → all_settled_inv c'.
Proof.
  intros Hci He Hset. pose proof He as [Hstep|[_ Hq]]; [by eapply ctl_step_settled|]. intros run p' Hp'.
  specialize (Hq run). rewrite Hp' in Hq. destruct (ct_runs c !! run) as [p|] eqn:Hp; [|done].
  destruct (effect_moved _ _ _ _ Hci Hset He Hp) as (p'' & Hp'' & _ & Hm). rewrite Hp' in Hp''. injection Hp'' as <-.
  apply Hm.
Qed.

Lemma effect_ready c c' x : controller_inv E c → all_settled_inv c → loop_effect c c' → ready_found c x → ready_found c' x.
Proof.
  intros Hci Hset He (p & Hp & Hr). destruct (effect_moved _ _ _ _ Hci Hset He Hp) as (p' & Hp' & Hm & Hmv).
  destruct (ci_runs _ _ Hci _ _ Hp) as (_ & d & Hl & Hi). exists p'. split; [done|]. intros Hrun.
  destruct (loop_moves_ready _ d _ _ x.2 Hm Hl Hi Hr Hrun) as [(d0 & Hd0 & Hin) Hdeps Hc]. split; [|done..].
  exists d0. split; [|done]. rewrite (st_workflow _ _ (lm_stable _ _ Hmv)) in Hd0 |- *.
  apply (effect_linked c c' x.1 p d0 Hci He Hp); [by intros _|]. by apply (lm_running _ _ Hmv).
Qed.

Lemma effect_skip c c' x : controller_inv E c → all_settled_inv c → loop_effect c c' → skip_found c x → skip_found c' x.
Proof.
  intros Hci Hset He (p & a & Hp & Ha & Hs & Hk). destruct (effect_moved _ _ _ _ Hci Hset He Hp) as (p' & Hp' & Hm & Hmv).
  destruct (ci_runs _ _ Hci _ _ Hp) as (_ & d & Hl & Hi).
  destruct (loop_moves_skip _ d _ _ x.2 Hm Hl Hi) as [(a' & Ha' & Hs') Hk']; [split; eauto|].
  exists p', a'. split_and!; [done..|]. intros Hrun. destruct (Hk' Hrun) as (node & Hid & [(d0 & Hd0 & Hin) Hdeps Hw Hc]).
  exists node. split; [done|]. split; [|done..]. exists d0. split; [|done].
  rewrite (st_workflow _ _ (lm_stable _ _ Hmv)) in Hd0 |- *.
  apply (effect_linked c c' x.1 p d0 Hci He Hp); [by intros _|]. by apply (lm_running _ _ Hmv).
Qed.

Record loop_inv (cf : Controller O * Found) : Prop := {
  lv_controller : controller_inv E cf.1;
  lv_settled : all_settled_inv cf.1;
  lv_ready : ∀ x, x ∈ fd_ready cf.2 → ready_found cf.1 x;
  lv_skippable : ∀ x, x ∈ fd_skippable cf.2 → skip_found cf.1 x;
}.

Lemma run_definition_ok run missing (c c' : Controller O) s d :
  run_definition run missing c = (c', Ok (s, d)) →
  c' = c ∧ run_snapshot c run = Some s ∧ ct_definitions c !! wr_workflow_id s = Some d.
Proof.
  intros H. unfold run_definition in H. cstep H. cok H0. cstep H. cok H0. cstep H. cok H1. cstep H. cok H1. by cdone H.
Qed.

Lemma run_snapshot_inv (c : Controller O) run s :
  run_snapshot c run = Some s → ∃ p, ct_runs c !! run = Some p ∧ pj_snapshot p = s.
Proof. unfold run_snapshot. destruct (ct_runs c !! run) as [p|]; [|done]. intros [= <-]. by exists p. Qed.

(** Every access is an effect, or only finds something. *)
Lemma loop_step_effect cf cf' :
  loop_inv cf → loop_step cf cf' → loop_effect cf.1 cf'.1 ∧
  (∀ x, x ∈ fd_ready cf'.2 → x ∈ fd_ready cf.2 ∨ ready_found cf'.1 x) ∧
  (∀ x, x ∈ fd_skippable cf'.2 → x ∈ fd_skippable cf.2 ∨ skip_found cf'.1 x).
Proof.
  intros [Hci Hset Hrd Hsk] Hstep.
  assert (∀ c : Controller O, loop_effect c c) as Hrefl
    by (intros c; right; split; [done|apply late_runs_refl]).
  destruct Hstep as [c f run nodes H|c f run s d H|c f run node H|c f run node e H|c f run id H|c f op H|c f op H|c f rt files];
    simpl in *; (split; [|split; intros x Hx; auto]).
  - apply Hrefl.
  - apply elem_of_app in Hx as [Hx|(node & -> & Hin)%list_elem_of_fmap]; [by left|right].
    unfold ready_nodes in H. destruct (run_definition run "workflow definition disappeared: " c) as [c1 [[s d]|e]] eqn:Hd.
    2:{ unfold cbind in H. by rewrite Hd in H. }
    unfold cbind in H. rewrite Hd in H. injection H as <-. apply run_definition_ok in Hd as (-> & (p & Hp & <-)%run_snapshot_inv & Hd).
    apply list_elem_of_In, filter_In in Hin as [Hin Hr]. exists p. split; [done|]. intros _. unfold node_ready in Hr.
    apply andb_true_iff in Hr as [[_ Hr]%andb_true_iff Hc]. split; [|done..]. exists d. split; [done|]. by apply list_elem_of_In.
  - apply Hrefl.
  - apply elem_of_app in Hx as [Hx|(id & -> & Hin)%list_elem_of_fmap]; [by left|right].
    apply run_definition_ok in H as (_ & (p & Hp & <-)%run_snapshot_inv & Hd).
    apply list_elem_of_fmap in Hin as (node & -> & [Hin Hk]%list_elem_of_In%filter_In).
    unfold node_skippable in Hk. rewrite !andb_true_iff, negb_true_iff in Hk. destruct Hk as [[[Hp' Hdp] Hw] Hc].
    unfold is_pending in Hp'. destruct (wr_nodes (pj_snapshot p) !! wn_id node) as [a|] eqn:Ha; [|done].
    apply bool_decide_eq_true in Hp'. exists p, a. split_and!; [done..|by left|]. intros _. exists node. split; [done|].
    split; [|done..]. exists d. split; [done|]. by apply list_elem_of_In.
  - by apply begin_effect, Hrd.
  - by apply fail_before_effect, Hrd.
  - by apply skip_effect, Hsk.
  - left. apply (step_run E _ _ op); [|done]. destruct H as [H|H]; [by destruct op|done].
  - left. by apply (step_registry E _ _ op).
  - left. by apply (step_outside E _ _ rt files).
Qed.

Lemma loop_step_inv cf cf' : loop_step cf cf' → loop_inv cf → loop_inv cf'.
Proof.
  intros Hstep Hi. destruct (loop_step_effect _ _ Hi Hstep) as (He & Hr & Hk). destruct Hi as [Hci Hset Hrd Hsk].
  split; [by eapply effect_inv|by eapply effect_settled|intros x [Hx|Hx]%Hr|intros x [Hx|Hx]%Hk]; try done.
  - eapply effect_ready; [done..|by apply Hrd].
  - eapply effect_skip; [done..|by apply Hsk].
Qed.

Lemma loops_inv c0 cf : initial_controller c0 → rtc loop_step (c0, nothing_found) cf → loop_inv cf.
Proof.
  intros H0 H. assert (loop_inv (c0, nothing_found)) as Hi.
  { split; simpl; [by apply initial_controller_inv| |by intros x ?%elem_of_nil..].
    intros run p. by rewrite (ic_runs _ H0). }
  clear H0. induction H as [|c1 c2 c3 H _ IH]; [done|]. by eapply IH, loop_step_inv.
Qed.

End loops.

(** C6: nodes run in the order of the graph and on the right inputs, in a
    controller that has restored no Run.  However many execution loops and other
    callers share it, and whatever happens between a loop's decision and what it
    does about it, a Run belongs to the definition its digest names (the registered
    one while it is not settled) and has its nodes; a node that runs or has
    completed has all its dependencies completed or skipped, its condition holds,
    and the digest it carries is the digest of the parameters, of the outputs its
    dependencies have now and of the inputs bound from them; a node of a running
    Run is skipped only when its dependencies are done and its condition is false;
    exactly the completed nodes have an output. *)
Theorem nodes_run_in_order {O} (E : Env O) (c0 c : Controller O) f run p :
  hash_order_law E → initial_controller c0 → rtc (loop_step E) (c0, nothing_found) (c, f) →
  ct_runs c !! run = Some p →
  let s := pj_snapshot p in
  wr_run_id s = run ∧
  ∃ d, wr_workflow_definition_digest s = Some (definition_digest (ev_sha256 E) (ev_to_vec E) d) ∧
    (wr_status s = RRunning → ct_definitions c !! wr_workflow_id s = Some d) ∧
    dom (wr_nodes s) = list_to_set (wn_id <$> wd_nodes d) ∧
    ∀ node a, node ∈ wd_nodes d → wr_nodes s !! wn_id node = Some a →
      let outputs := dependency_outputs node (wr_nodes s) in
      (na_status a = NRunning ∨ na_status a = NCompleted →
         dependencies_complete node (wr_nodes s) = true ∧ condition_true s node = true ∧
         ∃ bound, build_bound_inputs node outputs = Ok bound ∧
           na_input_digest a =
             Some (node_input_digest (ev_sha256 E) (ev_to_vec E) (wr_parameters s) outputs bound)) ∧
      (wr_status s = RRunning → na_status a = NSkipped →
         dependencies_complete node (wr_nodes s) = true ∧ condition_true s node = false) ∧
      (is_Some (na_output a) ↔ na_status a = NCompleted).
Proof.
  intros Ho H0 Hr Hp s. destruct (loops_inv E Ho _ _ H0 Hr) as [[_ _ Hruns] _ _ _].
  destruct (Hruns _ _ Hp) as (Hid & d & Hl & Hi). split; [done|]. exists d.
  split_and!; [apply Hi|done|apply Hi|]. intros node a Hin Ha.
  destruct (rv_nodes _ _ _ _ Hi _ _ Hin Ha) as [_ _ _ _ Hb Hk Hout]. split_and!; [..|done].
  - intros Hs. destruct (Hb Hs) as [_ [H1 H2 H3]]. done.
  - intros Hrun Hs. destruct (Hk Hrun Hs). done.
Qed.

(** C8: what a step of a loop or of another caller leaves final, in a controller
    that has restored no Run.  Whether the step succeeds or fails on the way, a Run
    stays in the controller with its identity, parameters and nodes; a node that
    has completed, failed or been skipped stays so, a completed one with its
    output; a cancelled node stays cancelled, or is marked as skipped by a loop that
    had decided so before the cancellation; a Run that has completed or failed
    stays so, and none that is settled runs again. *)
Theorem final_states_final {O} (E : Env O) (c0 c c' : Controller O) f f' run p :
  hash_order_law E → initial_controller c0 → rtc (loop_step E) (c0, nothing_found) (c, f) →
  loop_step E (c, f) (c', f') → ct_runs c !! run = Some p →
  ∃ p', ct_runs c' !! run = Some p' ∧ loop_moved (pj_snapshot p) (pj_snapshot p').
Proof.
  intros Ho H0 Hr Hstep Hp. pose proof (loops_inv E Ho _ _ H0 Hr) as Hi.
  destruct (loop_step_effect E _ _ Hi Hstep) as [He _]. destruct Hi as [Hci Hset _ _].
  destruct (effect_moved E Ho _ _ _ _ Hci Hset He Hp) as (p' & Hp' & _ & Hm). by exists p'.
Qed.
