(* ===== verification/WorkflowHistory.v ===== *)
(** * Records and snapshots of a Run

    Every call of the controller only adds records to the ledger and keeps the
    files it finds readable ([growing]); and for each change of a Run the records
    it adds, replayed by restore.rs on the snapshot before, give the snapshot
    after.  [history_inv] is what the replay relies on, an invariant of Runs
    that were never restored, cancelled or left with a deferred change. *)
From S2P Require Import ResourceTypes Prelude Json Types TaskRegistry RuntimeLedger LedgerFacts Identity WorkflowTypes WorkflowValidation WorkflowFacts WorkflowReferences Registries LedgerInterface MessageBus CollaborationTypes CollaborationRuntime CollaborationTasks CollaborationRestore WorkflowRuns WorkflowInputs WorkflowController WorkflowRegistration WorkflowCompletion WorkflowNodes WorkflowExecution WorkflowRestore WorkflowCheckpoints WorkflowFrames WorkflowMoves WorkflowRegistry WorkflowSafety.

(** * The records a call writes *)
(** ** Records are added *)

Lemma pushes_trans s1 s2 s3 : pushes s1 s2 → pushes s2 s3 → pushes s1 s3.
Proof.
  induction 1 as [s s' H1 H2|s s1 s' r H1 H2 H3 H4 H5 Hp IH]; intros H.
  - destruct H as [s' s2 H3 H4|s' s1 s2 r H3 H4 H5 H6 H7 Hp].
    + apply pushes_none; congruence.
    + eapply (pushes_one _ s1 _ r); [done|done|rewrite H2 in *; lia| |done|done].
      rewrite H6. unfold push_record, run_records. simpl. by rewrite H1.
  - eapply pushes_one; eauto.
Qed.

#[export] Instance pushes_preorder : PreOrder pushes.
Proof. split; [intros s; by apply pushes_none|intros ???; apply pushes_trans]. Qed.

(** What the output store promises: an output is read back, writing keeps what
    was readable (references name contents by their digest); and the clock gives
    an [i64]. *)
Section growth.
Context {O : Type} (E : Env O).

Definition files_kept (o o' : O) : Prop :=
  ∀ run ref text, ev_read E o run ref = Ok text → ev_read E o' run ref = Ok text.

#[export] Instance files_kept_preorder : PreOrder files_kept.
Proof. split; [by intros o run ref text|]. intros o1 o2 o3 H1 H2 run ref text H. auto. Qed.

Record store_law : Prop := {
  sl_read o run text o' ref :
    ev_write_named E o run text = (o', Ok ref) → ev_read E o' run ref = Ok text;
  sl_kept o run text : files_kept o (ev_write_named E o run text).1;
  sl_clock n : is_i64 (ev_clock E n);
}.
Hypothesis store : store_law.

Record grown (c c' : Controller O) : Prop := {
  gw_ledger : pushes (ct_ledger c) (ct_ledger c');
  gw_files : files_kept (ct_files c) (ct_files c');
}.

#[export] Instance grown_preorder : PreOrder grown.
Proof.
  split; [by intros c|]. intros c1 c2 c3 [] []. split; by etrans.
Qed.

Record growing {A} (m : M O A) : Prop := growing_intro { growing_at : ∀ c, grown c (m c).1 }.

Lemma growing_eq {A} (m : M O A) c c' r : growing m → m c = (c', r) → grown c c'.
Proof. intros [H] Hm. specialize (H c). by rewrite Hm in H. Qed.

Lemma growing_pure {A} (m : M O A) : (∀ c, (m c).1 = c) → growing m.
Proof. intros H. split. intros c. by rewrite H. Qed.

Lemma growing_bind {A B} (m : M O A) (k : A → M O B) :
  growing m → (∀ a, growing (k a)) → growing (cbind m k).
Proof.
  intros [Hm] Hk. split. intros c. unfold cbind. specialize (Hm c).
  destruct (m c) as [c' [a|e]]; simpl in *; [|done]. etrans; [done|apply Hk].
Qed.

Lemma growing_attempt {A} (m : M O A) : growing m → growing (attempt m).
Proof. intros [Hm]. split. intros c. unfold attempt. specialize (Hm c). by destruct (m c). Qed.

Lemma growing_for {A} (f : A → M O unit) xs : (∀ x, growing (f x)) → growing (cfor f xs).
Proof.
  intros Hf. induction xs as [|x xs IH]; simpl; [by apply growing_pure|]. by apply growing_bind.
Qed.

Lemma growing_map {A B} (f : A → M O B) xs : (∀ x, growing (f x)) → growing (cmap f xs).
Proof.
  intros Hf. induction xs as [|x xs IH]; simpl; [by apply growing_pure|].
  apply growing_bind; [done|]. intros y. apply growing_bind; [done|]. intros ys. by apply growing_pure.
Qed.

Lemma near_grown c c' : near c c' → grown c c'.
Proof. intros [_ _ Hr Hn Hf _]. split; [by apply pushes_none|by rewrite Hf]. Qed.

Lemma nearby_growing {A} (m : M O A) : nearby m → growing m.
Proof. intros [H]. split. intros c. by apply near_grown. Qed.

Lemma growing_on_ledger {A} (f : InMemoryLedgerState → InMemoryLedgerState * result A LedgerError) :
  (∀ l, pushes l (f l).1) → growing (on_ledger f).
Proof.
  intros Hf. split. intros c. unfold on_ledger. specialize (Hf (ct_ledger c)).
  destruct (f (ct_ledger c)) as [l r]. by split.
Qed.

Lemma append_pushes lease at_ms d ty p l : pushes l (append_under_lease l lease at_ms d ty p).1.
Proof. apply (ledger_step_shape _ _ (st_append_lease l lease at_ms d ty p)). Qed.

Lemma growing_new_uuid : growing (new_uuid E).
Proof. by split. Qed.
Lemma growing_set_projection run p : growing (set_projection run p).
Proof. by split. Qed.
Lemma growing_upsert t : growing (upsert_task t).
Proof. by split. Qed.

Lemma growing_write_output run text : growing (write_output E run text).
Proof.
  split. intros c. unfold write_output. pose proof (sl_kept store (ct_files c) run text) as Hk.
  destruct (ev_write_named _ _ _ _) as [o [ref|e]]; by split.
Qed.
End growth.

Create HintDb growing.
#[export] Hint Resolve growing_on_ledger append_pushes growing_new_uuid growing_set_projection growing_upsert
  growing_write_output : growing.
#[export] Hint Extern 1 (growing _ (cret _)) => by apply growing_pure : growing.
#[export] Hint Extern 1 (growing _ (cfail _)) => by apply growing_pure : growing.
#[export] Hint Extern 1 (growing _ (gets _)) => by apply growing_pure : growing.
#[export] Hint Extern 1 (growing _ (some_or _ _)) => by apply growing_pure : growing.
#[export] Hint Extern 1 (growing _ (of_result _)) => by apply growing_pure : growing.
#[export] Hint Extern 1 (growing _ (require _ _)) => by apply growing_pure : growing.
#[export] Hint Extern 2 (growing _ _) => apply nearby_growing; solve [eauto 3 with nearby] : growing.

(** Into the structure of a computation, down to the hints. *)
Ltac growing :=
  intros;
  first
    [ solve [eauto 3 with growing]
    | lazymatch goal with
      | |- growing _ (cbind _ _) => apply growing_bind; growing
      | |- growing _ (attempt _) => apply growing_attempt; growing
      | |- growing _ (cfor _ _) => apply growing_for; growing
      | |- growing _ (cmap _ _) => apply growing_map; growing
      | |- growing _ (match ?x with _ => _ end) => destruct x; growing
      | |- growing _ (let _ := _ in _) => cbv zeta; growing
      end
    | idtac ].

Section growing_parts.
Context {O : Type} (E : Env O).
Hypothesis store : store_law E.
Hint Resolve store : growing.

Lemma growing_ledger_call {A} prefix
    (f : InMemoryLedgerState → InMemoryLedgerState * result A LedgerError) :
  (∀ l, pushes l (f l).1) → growing E (ledger_call E prefix f).
Proof. intros. unfold ledger_call. growing. Qed.
Hint Resolve growing_ledger_call : growing.

Lemma growing_append g run ty p : growing E (append_record E g run ty p).
Proof. unfold append_record. growing. Qed.

Lemma persist_pushes g run id op m task w next :
  pushes w.1 (persist_workflow_cas E g run id op m task w next).1.1.
Proof.
  destruct w as [l n]. unfold persist_workflow_cas. destruct (List.find _ _); [by destruct (value_eqb _ _)|].
  destruct (gd_lease g) as [lease|]; [|done].
  pose proof (append_pushes lease (ev_clock E n) SyncCritical "task_cas"
    (cas_payload (ev_sha256 E) (ev_to_vec E) id op m (tr_revision task) task next) l) as H.
  by destruct (append_under_lease _ _ _ _ _ _) as [l' []].
Qed.

Lemma growing_update_task g run node u : growing E (update_workflow_task E g run node u).
Proof.
  unfold update_workflow_task. do 2 (apply growing_bind; [growing|intros]). split. intros c.
  destruct (cas_durable _ _ _ _ _ _ _) as [[[l n] t] [next|e]] eqn:H; (split; [|done]).
  - apply cas_durable_ok in H as [(? & _ & [= -> ->] & _)|(cur & _ & _ & _ & _ & _ & H & _)]; [done|].
    match type of H with persist_workflow_cas _ ?g ?r ?i ?o ?m ?t ?w ?n = _ =>
      pose proof (persist_pushes g r i o m t w n) as Hp end. by rewrite H in Hp.
  - apply cas_durable_err in H as [_ [[= -> ->]|(next & H)]]; [done|].
    match type of H with persist_workflow_cas _ ?g ?r ?i ?o ?m ?t ?w ?n = _ =>
      pose proof (persist_pushes g r i o m t w n) as Hp end. by rewrite H in Hp.
Qed.
Hint Resolve growing_append growing_update_task : growing.

(** Recovery of a task changes tasks only. *)
Lemma restore_cas_record_ledger sha to_vec s r : rt_ledger (restore_task_cas_record sha to_vec s r).1 = rt_ledger s.
Proof.
  unfold restore_task_cas_record.
  repeat (apply (slift_cases _ _ _ (λ s', rt_ledger s' = rt_ledger s)); [done|intros]).
  by destruct (restore_cas _ _ _ _ _ _) as [t []].
Qed.

Lemma replay_operation_ledger sha to_vec op rs s found :
  rt_ledger (replay_operation sha to_vec s op found rs).1 = rt_ledger s.
Proof.
  revert s found. induction rs as [|r rs IH]; intros s found; [done|]. cbn [replay_operation].
  pose proof (restore_cas_record_ledger sha to_vec s r) as H.
  destruct (restore_task_cas_record _ _ s r) as [s' [t|e]]; cbn [sbind]; [|done].
  destruct (_ && _); [done|]. by rewrite IH.
Qed.

Lemma restore_lineage_ledger sha to_vec s id op :
  rt_ledger (restore_task_across_lineage sha to_vec s id op).1 = rt_ledger s.
Proof.
  unfold restore_task_across_lineage. apply (slift_cases _ _ _ (λ s', rt_ledger s' = rt_ledger s)); [done|].
  intros task _. match goal with |- context [replay_operation _ _ _ _ _ ?rs] =>
    pose proof (replay_operation_ledger sha to_vec op rs s None) as H end.
  by destruct (replay_operation _ _ _ _ _ _) as [s' []].
Qed.

Lemma growing_runtime_call {A} (f : Runtime → Runtime * result A RuntimeError) :
  (∀ rt, rt_ledger (f rt).1 = rt_ledger rt) → growing E (runtime_call E f).
Proof.
  intros Hf. split. intros c. unfold runtime_call. specialize (Hf (ct_runtime c)).
  destruct (f (ct_runtime c)) as [rt [a|e]]; (split; [|done]); unfold ct_ledger; simpl in *; by rewrite Hf.
Qed.

Lemma growing_restore_projection id : growing E (restore_durable_task_projection E id).
Proof.
  unfold restore_durable_task_projection, require_runtime. growing. apply growing_runtime_call. intros rt.
  unfold restore_task_projection_across_lineage.
  pose proof (restore_lineage_ledger (ev_sha256 E) (ev_to_vec E) rt id None) as H.
  by destruct (restore_task_across_lineage _ _ _ _ _) as [s' [[]|]].
Qed.
Lemma growing_restore_operation id op : growing E (restore_durable_task_operation E id op).
Proof.
  unfold restore_durable_task_operation, require_runtime. growing. apply growing_runtime_call. intros rt.
  apply restore_lineage_ledger.
Qed.
Hint Resolve growing_restore_projection growing_restore_operation : growing.

(** ** The actions *)

Lemma growing_begin run node g p : growing E (begin_action E run node g p).
Proof. unfold begin_action, known_run, known_node, next_attempt. growing. Qed.
Lemma growing_fail_before run node e g p : growing E (fail_before_action E run node e g p).
Proof. unfold fail_before_action, known_run, known_node. growing. Qed.
Lemma growing_complete run id a o g p : growing E (complete_action E run id a o g p).
Proof. unfold complete_action, known_run, known_node. growing. Qed.
Lemma growing_fail_action run node id a e g p : growing E (fail_action E run node id a e g p).
Proof. unfold fail_action, known_run, known_node, deferred_write. growing. Qed.
Lemma growing_skip run id g p : growing E (skip_action E run id g p).
Proof. unfold skip_action, known_run. growing. Qed.
Lemma growing_recover g run pending s : growing E (recover_deferred E g run pending s).
Proof.
  revert s. induction pending as [|[id [a d]] l IH]; intros s; cbn [recover_deferred]; [growing|].
  unfold recover_terminal, append_terminal_reconciled_marker, terminal_reconciled_marker_exists, known_node.
  growing.
Qed.
Hint Resolve growing_recover : growing.
Lemma growing_settle run g p : growing E (settle_action E run g p).
Proof. unfold settle_action, known_run. growing. Qed.
Lemma growing_cancel run reason g p : growing E (cancel_action E run reason g p).
Proof. unfold cancel_action, known_run, cancel_task. growing. Qed.
Lemma growing_start d s w root tasks g p : growing E (start_action E d s w root tasks g p).
Proof.
  unfold start_action, require_running_parent. growing. apply growing_ledger_call.
  intros l. apply admit_inner_shape.
Qed.

Lemma growing_mutate {R} run (act : action R) :
  (∀ g p, growing E (act g p)) → growing E (mutate_projection E run act).
Proof.
  intros Hact. unfold mutate_projection, publish, after_release, require_current_projection. growing.
Qed.
Hint Resolve growing_mutate growing_begin growing_fail_before growing_complete growing_fail_action
  growing_skip growing_settle growing_cancel growing_start : growing.

Lemma run_op_grown op c : grown E c (run_op E op c).
Proof.
  destruct op; apply growing_at.
  - unfold start_internal, known_definition, initial_nodes, register_admitted, register_missing. growing.
  - unfold begin_attempt. growing.
  - unfold fail_before_attempt. growing.
  - unfold complete_node. growing.
  - unfold fail_node, run_definition. growing.
  - unfold skip_node. growing.
  - unfold settle. growing.
  - unfold cancel_run. growing.
Qed.
End growing_parts.

(** * Their replay *)
(** No node is run by a Supervisor. *)
Definition unsupervised (d : WorkflowDefinition) : Prop :=
  Forall (λ node, is_configured_supervisor node = false) (wd_nodes d).

Section replays.
Context {O : Type} (E : Env O).

Definition replay_of (s : WorkflowRunSnapshot) : Replay :=
  {| rp_snapshot := s; rp_markers := []; rp_settled := None |}.

(** The records turn [s] into [s'], whatever else the ledger holds. *)
Definition replays (o : O) (d : WorkflowDefinition) (run : RunId) (recs : list LedgerRecord)
    (s s' : WorkflowRunSnapshot) : Prop :=
  ∀ l, replay_records E l o d run (replay_of s) recs = (replay_of s', None).

Lemma replays_nil o d run s : replays o d run [] s s.
Proof. by intros l. Qed.

Lemma replays_cons o d run r recs s s1 s2 :
  (∀ l, replay_record E l o d run (replay_of s) r = Applied (replay_of s1)) →
  replays o d run recs s1 s2 → replays o d run (r :: recs) s s2.
Proof. intros H1 H2 l. cbn [replay_records]. rewrite H1. apply H2. Qed.

Lemma replays_app o d run recs1 recs2 s s1 s2 :
  replays o d run recs1 s s1 → replays o d run recs2 s1 s2 → replays o d run (recs1 ++ recs2) s s2.
Proof.
  intros H1 H2 l. specialize (H1 l). specialize (H2 l). revert H1.
  generalize (replay_of s). induction recs1 as [|r recs1 IH]; intros r0; cbn [replay_records app].
  - intros [= ->]. done.
  - destruct (replay_record _ _ _ _ _ _ _); [apply IH|done|done].
Qed.

(** Records of other components. *)
Definition foreign (r : LedgerRecord) : Prop :=
  lr_record_type r ∉ ["workflow_node_started"; "workflow_node_completed"; "workflow_node_failed";
                      "workflow_task_terminal_reconciled"; "workflow_node_skipped";
                      "workflow_cancelled"; "workflow_settled"].

Lemma replay_foreign l o d run r record :
  foreign record → replay_record E l o d run r record = Applied r.
Proof.
  unfold foreign. rewrite !not_elem_of_cons. intros (? & ? & ? & ? & ? & ? & ? & _).
  unfold replay_record. by rewrite !decide_False by done.
Qed.

Lemma replays_foreign o d run recs s : Forall foreign recs → replays o d run recs s s.
Proof. induction 1; [apply replays_nil|]. eapply replays_cons; [by intros; apply replay_foreign|done]. Qed.

Lemma task_cas_foreign recs :
  Forall (λ r, lr_record_type r = "task_cas") recs → Forall foreign recs.
Proof.
  intros H. eapply Forall_impl; [exact H|]. intros r Hr. unfold foreign. rewrite Hr, !not_elem_of_cons.
  split_and!; [discriminate..|apply not_elem_of_nil].
Qed.

(** What is replayed stays so when files are added. *)
Lemma completion_source_plain l l' o o' d run r :
  unsupervised d →
  validate_completion_source E l o d run r = validate_completion_source E l' o' d run r.
Proof.
  intros Hd. unfold validate_completion_source. destruct (get_str _ _) as [id|]; [|done]. cbn [ok_or rbind].
  destruct (List.find _ _) as [node|] eqn:Hf; [|done]. cbn [ok_or rbind].
  destruct (completion_schema_version _); [|done]. cbn [rbind].
  apply find_some in Hf as [Hin%list_elem_of_In _]. unfold unsupervised in Hd. rewrite Forall_forall in Hd.
  by rewrite (Hd _ Hin).
Qed.

Lemma completed_output_kept o o' run id p x :
  files_kept E o o' → completed_output E o run id p = Ok x → completed_output E o' run id p = Ok x.
Proof.
  intros Hk. unfold completed_output. cbv zeta. destruct (ensure _ _); [|done]. cbn [rbind].
  destruct (ok_or _ _) as [ref|]; [|done]. cbn [rbind].
  destruct (ev_read E o run ref) as [text|e] eqn:Hr; [|done]. by rewrite (Hk _ _ _ Hr).
Qed.

Lemma replays_kept o o' d run recs s s' :
  unsupervised d → files_kept E o o' → replays o d run recs s s' → replays o' d run recs s s'.
Proof.
  intros Hd Hk H l. specialize (H l). revert H. generalize (replay_of s).
  induction recs as [|r recs IH]; intros r0; cbn [replay_records]; [done|].
  intros H. assert (∀ r1, replay_record E l o d run r0 r = Applied r1 →
    replay_record E l o' d run r0 r = Applied r1) as Hone.
  { intros r1. unfold replay_record. cbv zeta. case_decide; [done|]. case_decide; [|done].
    destruct (get_str _ _) as [id|]; [|done]. unfold replay_node_completed.
    rewrite (completion_source_plain l l o o') by done. destruct (validate_completion_source _ _ _ _ _ _); [|done].
    destruct (completed_output E o run id _) as [[ref out]|] eqn:Ho; [|done].
    by rewrite (completed_output_kept _ _ _ _ _ _ Hk Ho). }
  destruct (replay_record E l o d run r0 r) as [r1| |]; [|done|done]. rewrite (Hone _ eq_refl). by apply IH.
Qed.

(** ** What is written *)

Record wrote (run : RunId) (c c' : Controller O) (recs : list LedgerRecord) : Prop := {
  wt_records : run_records (ct_ledger c') run = run_records (ct_ledger c) run ++ recs;
  wt_files : ct_files c' = ct_files c;
}.

Lemma wrote_nil run c c' : near c c' → wrote run c c' [].
Proof. intros H. split; [|apply H]. by rewrite app_nil_r, (near_run_records _ _ run H). Qed.

Lemma wrote_app run c1 c2 c3 r1 r2 : wrote run c1 c2 r1 → wrote run c2 c3 r2 → wrote run c1 c3 (r1 ++ r2).
Proof. intros [H1 H1'] [H2 H2']. split; [by rewrite H2, H1, app_assoc|congruence]. Qed.

Lemma append_under_lease_ok l lease at_ms d ty p l' r :
  append_under_lease l lease at_ms d ty p = (l', Ok r) →
  lr_record_type r = ty ∧ lr_payload r = p ∧ run_records l' (wl_run_id lease) = run_records l (wl_run_id lease) ++ [r].
Proof.
  unfold append_under_lease. intros (? & _ & H)%slift_ok. apply slift_ok in H as (? & _ & H).
  apply slift_ok in H as (seq & _ & H). injection H as <- <-. split_and!; try done.
  change (run_records (observe_lease ?s _ _) ?run) with (run_records s run).
  rewrite run_records_push. by rewrite decide_True.
Qed.

Lemma append_record_wrote g run ty p c c' r owner seq :
  guards g run owner seq → append_record E g run ty p c = (c', Ok r) →
  lr_record_type r = ty ∧ lr_payload r = p ∧ wrote run c c' [r].
Proof.
  intros (Hg & Ho & lease & Hl & Hlr & _) H. unfold append_record in H.
  cstep H. cok H0. cstep H. cok H0. cstep H. cok H1. rewrite Hl in H1. injection H1 as <-.
  cstep H. injection H1 as <- <-. apply ledger_call_ok in H as (l & H & ->).
  apply append_under_lease_ok in H as (H1 & H2 & H3). rewrite Hlr in H3. split_and!; [done|done|]. by split.
Qed.

Lemma update_task_wrote g run node u c c' r owner seq :
  guards g run owner seq → update_workflow_task E g run node u c = (c', r) →
  ∃ recs, Forall foreign recs ∧ wrote run c c' recs.
Proof.
  intros (Hg & Ho & lease & Hl & Hlr & _) H.
  assert (wrote run c c []) as Hnil by by apply wrote_nil.
  unfold update_workflow_task in H.
  apply cbind_inv in H as [(c1 & t & H1 & H)|(e & H1 & _)]; [|done]. cok H1.
  apply cbind_inv in H as [(c1 & t & H1 & H)|(e & H1 & _)].
  2:{ unfold some_or, of_result in H1. injection H1 as <- _. by exists []. }
  cok H1. match type of H with context [persist_workflow_cas _ _ _ ?i ?o ?m ?t] =>
    set (persist := persist_workflow_cas E g run i o m t) in H end.
  assert (∀ w next w' x, persist w next = (w', x) →
    ∃ recs, Forall foreign recs ∧ run_records w'.1 run = run_records w.1 run ++ recs) as Hp.
  { intros [l n] next w' x. unfold persist, persist_workflow_cas.
    destruct (List.find _ _); [destruct (value_eqb _ _); intros [= <- <-]; exists []; by rewrite app_nil_r|].
    rewrite Hl. destruct (append_under_lease _ _ _ _ _ _) as [l' [rec|e]] eqn:Ha; intros [= <- <-].
    - apply append_under_lease_ok in Ha as (H2 & _ & H3). rewrite Hlr in H3. exists [rec].
      split; [apply task_cas_foreign; by constructor|done].
    - exists []. split; [constructor|]. rewrite app_nil_r.
      unfold append_under_lease, slift in Ha. by repeat case_match; simplify_eq. }
  destruct (cas_durable _ _ _ _ _ _ _) as [[[l n] ts] [next|e]] eqn:Hc; injection H as <- <-.
  - apply cas_durable_ok in Hc as [(? & _ & [= -> ->] & _)|(cur & _ & _ & _ & _ & _ & Hc & _)];
      [exists []; repeat split; [constructor|by rewrite app_nil_r]|].
    apply Hp in Hc as (recs & Hf & Hr). exists recs. split; [done|by split].
  - apply cas_durable_err in Hc as [_ [[= -> ->]|(next & Hc)]];
      [exists []; repeat split; [constructor|by rewrite app_nil_r]|].
    apply Hp in Hc as (recs & Hf & Hr). exists recs. split; [done|by split].
Qed.
End replays.

(** ** The invariant of a history *)

Record attempt_history (a : WorkflowNodeAttempt) : Prop := {
  ah_deferred : na_deferred a = None;
  ah_resume : na_resume_existing_attempt a = false;
  ah_blank : na_status a ≠ NCompleted →
    na_output a = None ∧ na_output_ref a = None ∧ na_committed_at_unix_ms a = None;
  ah_clean : na_status a = NRunning → na_error a = None ∧ na_failure_class a = None;
  ah_reference : na_status a = NCompleted → is_Some (na_output_ref a);
}.

Section history.
Context (sha256 : string → list Byte.byte) (to_vec : Value → string).

Record history_inv (d : WorkflowDefinition) (s : WorkflowRunSnapshot) : Prop := {
  hi_attempts id a : wr_nodes s !! id = Some a → attempt_history a;
  hi_skipped node a : node ∈ wd_nodes d → wr_nodes s !! wn_id node = Some a →
    na_status a = NSkipped → deps_complete s node;
  hi_summary : wr_failure_summary s =
    if decide (wr_status s = RFailed) then aggregate_workflow_failures (wr_nodes s) else None;
  hi_settled : wr_status s ≠ RRunning → ∀ id a, wr_nodes s !! id = Some a → na_status a ≠ NRunning;
  hi_version : wr_workflow_version s = wd_version d;
  hi_input : wr_input_digest s = Some (workflow_input_digest sha256 to_vec (wr_parameters s));
}.

Lemma aggregate_set nodes id a a' :
  nodes !! id = Some a → failed_class a' = failed_class a →
  aggregate_workflow_failures (<[id:=a']> nodes) = aggregate_workflow_failures nodes.
Proof.
  intros Ha Hf. unfold aggregate_workflow_failures.
  assert (omap failed_class (<[id:=a']> nodes) = omap failed_class nodes) as ->; [|done].
  apply map_eq. intros i. rewrite !lookup_omap. destruct (decide (i = id)) as [->|Hi];
    [by rewrite lookup_insert_eq, Ha|by rewrite lookup_insert_ne].
Qed.

Lemma set_node_history d s id a a' :
  history_inv d s → wr_nodes s !! id = Some a → stable s (set_node s id a') → attempt_history a' →
  (na_status a' = NSkipped → ∀ node, node ∈ wd_nodes d → wn_id node = id → deps_complete s node) →
  (wr_status s ≠ RRunning → na_status a' ≠ NRunning ∧ failed_class a' = failed_class a) →
  history_inv d (set_node s id a').
Proof.
  intros [H1 H2 H3 H4 H5 H6] Ha Hst Ha' Hsk Hset.
  assert (∀ i b, wr_nodes (set_node s id a') !! i = Some b →
    (i = id ∧ b = a') ∨ (i ≠ id ∧ wr_nodes s !! i = Some b)) as Hcase.
  { intros i b. simpl. intros [[<- <-]|[? ?]]%lookup_insert_Some; auto. }
  split; try done.
  - intros i b [[-> ->]|[_ Hb]]%Hcase; eauto.
  - intros node b Hin Hb Hs. eapply stable_deps; [exact Hst|]. destruct (Hcase _ _ Hb) as [[<- ->]|[_ Hb']]; eauto.
  - simpl. rewrite H3. case_decide as Hf; [|done]. symmetry. eapply aggregate_set; [done|].
    apply Hset. by rewrite Hf.
  - intros Hr i b [[-> ->]|[_ Hb]]%Hcase; [by apply Hset|by eapply H4].
Qed.

Lemma settle_history d s :
  history_inv d s → some_node s (λ st, bool_decide (st = NRunning)) = false →
  history_inv d (with_status s (settled_status s) (settled_summary s)).
Proof.
  intros [H1 H2 H3 H4 H5 H6] Hn. split; try done.
  intros _ id a Ha Hr. rewrite some_node_false in Hn. apply Hn in Ha. by rewrite bool_decide_eq_true_2 in Ha.
Qed.

Lemma started_history d s :
  wr_status s = RRunning → wr_failure_summary s = None → wr_workflow_version s = wd_version d →
  wr_input_digest s = Some (workflow_input_digest sha256 to_vec (wr_parameters s)) →
  (∀ id a, wr_nodes s !! id = Some a → ∃ u, a = initial_attempt id u) → history_inv d s.
Proof.
  intros Hr Hf Hv Hi Hn. split; [| | |by rewrite Hr|done|done].
  - intros id a [u ->]%Hn. by split.
  - intros node a _ [u ->]%Hn. done.
  - rewrite Hf. by rewrite decide_False by (by rewrite Hr).
Qed.
End history.

(** ** Each change replays *)

Section changes.
Context {O : Type} (E : Env O).
Hypothesis store : store_law E.
Notation run_inv := (run_inv (ev_sha256 E) (ev_to_vec E)).
Notation history_inv := (history_inv (ev_sha256 E) (ev_to_vec E)).

Lemma update_node_set s id f a a' :
  wr_nodes s !! id = Some a → f a = a' → update_node (replay_of s) id f = replay_of (set_node s id a').
Proof.
  intros Ha <-. unfold update_node, with_snapshot, replay_of, set_node. simpl. do 2 f_equal.
  apply map_eq. intros i. destruct (decide (i = id)) as [->|Hi];
    [by rewrite lookup_alter_eq, lookup_insert_eq, Ha|by rewrite lookup_alter_ne, lookup_insert_ne].
Qed.

(** The record of the type is applied to its node. *)
Ltac replay_on Ht Hp :=
  unfold replay_record; cbv zeta; rewrite Ht, ?Hp;
  repeat (rewrite decide_False by discriminate); rewrite decide_True by reflexivity.

Lemma replay_begin l o d run s r id a attempt_id number digest :
  lr_record_type r = "workflow_node_started" → lr_payload r = node_started_payload id attempt_id digest →
  wr_nodes s !! id = Some a → attempt_history a → na_status a = NPending →
  number = Z.min u32_max (na_attempt_number a + 1) →
  replay_record E l o d run (replay_of s) r = Applied (replay_of (set_node s id (running_attempt a attempt_id number digest))).
Proof.
  intros Ht Hp Ha [Hd Hr Hb _ _] Hs ->. replay_on Ht Hp. cbn -[u32_max]. f_equal.
  apply (update_node_set _ _ _ a); [done|]. unfold replay_started, running_attempt.
  destruct Hb as (-> & -> & ->); [by rewrite Hs|]. done.
Qed.

Lemma replay_fail_before l o d run s r id a error :
  lr_record_type r = "workflow_node_failed" → lr_payload r = failed_before_payload id (na_attempt_id a) error →
  wr_nodes s !! id = Some a → attempt_history a →
  replay_record E l o d run (replay_of s) r = Applied (replay_of (set_node s id (failed_before a error))).
Proof.
  intros Ht Hp Ha [Hd Hr _ _ _]. replay_on Ht Hp.
  change (get_str "node_id" _) with (Some id). cbv iota beta. unfold replay_node_failed.
  change (rp_snapshot (replay_of s)) with s. rewrite Ha.
  change (failed_state E _) with (Ok (A := WorkflowNodeStatus) (E := string) NFailed). cbn [rbind].
  change (restore_deferred_task_terminal_write E _ _ _ _ _) with
    (Ok (A := option DeferredTaskTerminalWrite) (E := string) None). cbn [rbind]. f_equal.
  apply (update_node_set _ _ _ a); [done|]. unfold replay_failed, failed_before. by rewrite Hd.
Qed.

Lemma replay_fail l o d run s r id a e status :
  lr_record_type r = "workflow_node_failed" → lr_payload r = failed_payload id e status None →
  wr_nodes s !! id = Some a → attempt_history a →
  replay_record E l o d run (replay_of s) r = Applied (replay_of (set_node s id (failed_attempt a e status None))).
Proof.
  intros Ht Hp Ha [Hd Hr _ _ _]. replay_on Ht Hp.
  change (get_str "node_id" _) with (Some id). cbv iota beta. unfold replay_node_failed.
  change (rp_snapshot (replay_of s)) with s. rewrite Ha.
  assert (failed_state E (failed_payload id e status None) = Ok status) as ->.
  { change (failed_state E _) with (decoded (A := WorkflowNodeStatus) E
      "invalid typed deferred Workflow node state: " (to_value status)).
    unfold decoded. by rewrite from_to_value. }
  cbn [rbind]. change (restore_deferred_task_terminal_write E _ _ _ _ _) with
    (Ok (A := option DeferredTaskTerminalWrite) (E := string) None). cbn [rbind]. f_equal.
  apply (update_node_set _ _ _ a); [done|]. unfold replay_failed, failed_attempt. rewrite Hr. f_equal.
  change (get "failure_class" _) with (Some (to_value (ne_failure_class e))). cbn [mbind option_bind].
  by rewrite from_to_value.
Qed.

Lemma replay_skip l o d run s r id a :
  lr_record_type r = "workflow_node_skipped" → lr_payload r = VObject [("node_id", VString id)] →
  wr_nodes s !! id = Some a → attempt_history a →
  replay_record E l o d run (replay_of s) r = Applied (replay_of (set_node s id (skipped_attempt a))).
Proof.
  intros Ht Hp Ha [Hd Hr _ _ _]. replay_on Ht Hp. cbn. f_equal.
  apply (update_node_set _ _ _ a); [done|]. unfold replay_skipped, skipped_attempt. by rewrite Hr.
Qed.

Lemma replay_settle l o d run s r :
  lr_record_type r = "workflow_settled" → lr_payload r = settled_payload s →
  (∀ id a, wr_nodes s !! id = Some a → attempt_history a) →
  replay_record E l o d run (replay_of s) r =
    Applied (replay_of (with_status s (settled_status s) (settled_summary s))).
Proof.
  intros Ht Hp Ha. replay_on Ht Hp. unfold replay_settled.
  change (get "status" _) with (Some (to_value (settled_status s))). cbn [mbind option_bind].
  rewrite from_to_value by done. change (rp_snapshot (replay_of s)) with s. cbv zeta. assert (has_deferred s = false) as ->.
  { unfold has_deferred. apply existsb_false. intros [id a] Hin. simpl. apply bool_decide_eq_false_2.
    assert (wr_nodes s !! id = Some a) as Hl by (by apply elem_of_btree_iter in Hin).
    rewrite (ah_deferred _ (Ha _ _ Hl)). by intros [? ?]. }
  unfold with_snapshot, replay_of. cbn [rp_markers rp_settled]. do 3 f_equal.
  change (get "failure_summary" _) with (Some (opt_value (settled_summary s))). cbn [mbind option_bind].
  destruct (settled_summary s) as [x|]; [|done]. cbn [opt_value]. by rewrite from_to_value.
Qed.

Lemma plain_completion l o d run r id a ref digest bytes committed :
  unsupervised d → id ∈ wn_id <$> wd_nodes d →
  lr_payload r = completed_payload a id ref digest bytes None committed →
  validate_completion_source E l o d run r = Ok tt.
Proof.
  intros Hd (node & -> & Hin)%list_elem_of_fmap Hp. unfold validate_completion_source. cbv zeta. rewrite Hp.
  change (get_str "node_id" _) with (Some (wn_id node)). cbn [ok_or rbind].
  destruct (List.find _ _) as [node'|] eqn:Hf.
  2:{ eapply find_none in Hf; [|by apply list_elem_of_In]. by rewrite bool_decide_eq_true_2 in Hf. }
  cbn [ok_or rbind]. apply find_some in Hf as [Hin'%list_elem_of_In _].
  change (completion_schema_version _) with (Ok (A := Z) (E := string) WORKFLOW_COMPLETION_SCHEMA_VERSION).
  cbn [rbind]. unfold unsupervised in Hd. rewrite Forall_forall in Hd. by rewrite (Hd _ Hin').
Qed.

Lemma replay_complete l o d run s r id a text output ref committed :
  lr_record_type r = "workflow_node_completed" →
  lr_payload r = completed_payload a id ref (stable_digest_bytes (ev_sha256 E) text) (byte_len text) None committed →
  unsupervised d → id ∈ wn_id <$> wd_nodes d → ev_read E o run ref = Ok text → ev_from_str E text = Ok output →
  is_i64 committed →
  wr_nodes s !! id = Some a → attempt_history a → na_status a = NRunning →
  replay_record E l o d run (replay_of s) r =
    Applied (replay_of (set_node s id (completed_attempt a output ref committed))).
Proof.
  intros Ht Hp Hd Hin Hread Hparse Hi Ha [Hdef Hr _ Hcl _] Hst. pose proof Hp as Hp'. replay_on Ht Hp.
  change (get_str "node_id" _) with (Some id). cbv iota beta. unfold replay_node_completed.
  rewrite (plain_completion l o d run r id a ref _ _ committed Hd Hin Hp'), Hp.
  assert (completed_output E o run id (completed_payload a id ref
    (stable_digest_bytes (ev_sha256 E) text) (byte_len text) None committed) = Ok (ref, output)) as ->.
  { unfold completed_output. cbv zeta.
    change (is_present (get "output_status" _)) with true.
    change (str_member "output_status" _ _) with true. cbn [negb orb ensure rbind].
    change (get_str "output_ref" _) with (Some ref). cbn [ok_or rbind]. rewrite Hread. cbn [rbind].
    change (get_u64 "output_bytes" _) with (Some (byte_len text)).
    rewrite bool_decide_eq_true_2 by done. unfold str_member.
    change (get_str "output_digest" _) with (Some (stable_digest_bytes (ev_sha256 E) text)).
    rewrite bool_decide_eq_true_2 by done. cbn [andb ensure rbind]. by rewrite Hparse. }
  f_equal. apply (update_node_set _ _ _ a); [done|]. unfold replay_completed, completed_attempt.
  change (get "committed_at_unix_ms" _) with (Some (i64_to_value committed)). cbn [mbind option_bind].
  rewrite i64_roundtrip by done. destruct (Hcl Hst) as [_ ->]. by rewrite Hr.
Qed.

(** ** The actions *)

(** The records an action adds to its Run turn the snapshot it is given into the
    one it returns. *)
Definition action_replays {R} (run : RunId) (act : action R) (d : WorkflowDefinition)
    (s : WorkflowRunSnapshot) (c1 : Controller O) : Prop :=
  ∀ g c2 prepared v owner seq,
    guards g run owner seq → act g (Some s) c1 = (c2, Ok (prepared, v)) →
    ∃ s' recs, prepared = Some s' ∧
      run_records (ct_ledger c2) run = run_records (ct_ledger c1) run ++ recs ∧
      (stable s s' → history_inv d s' ∧ (unsupervised d → replays E (ct_files c2) d run recs s s')).

Context (run : RunId) (d : WorkflowDefinition) (s : WorkflowRunSnapshot) (c1 : Controller O).
Hypothesis Hlinked : linked (ct_definitions c1) d s.
Hypothesis Hinv : run_inv d s.
Hypothesis Hhist : history_inv d s.

Lemma unchanged_replays (c2 : Controller O) :
  near c1 c2 →
  ∃ s' recs, Some s = Some s' ∧
    run_records (ct_ledger c2) run = run_records (ct_ledger c1) run ++ recs ∧
    (stable s s' → history_inv d s' ∧ (unsupervised d → replays E (ct_files c2) d run recs s s')).
Proof.
  intros Hn. exists s, []. split_and!; [done|by rewrite app_nil_r, (near_run_records _ _ run Hn)|].
  intros _. split; [done|]. intros _. apply replays_nil.
Qed.

Lemma node_of id a : wr_nodes s !! id = Some a → ∃ node, node ∈ wd_nodes d ∧ wn_id node = id ∧
  node_inv (ev_sha256 E) (ev_to_vec E) s node a.
Proof.
  intros Ha. destruct (known_node_of _ _ _ _ _ _ Hinv Ha) as (node & Hin & Hid). exists node.
  split_and!; [done|done|]. subst id. by apply (rv_nodes _ _ _ _ Hinv).
Qed.

Lemma begin_replays node :
  defined_node (ct_definitions c1) s node → action_replays run (begin_action E run node) d s c1.
Proof.
  intros Hdef g c2 prepared v owner seq Hg H. unfold begin_action in H.
  cstep H. apply known_run_ok in H0 as [-> [= <-]]. cstep H. cok H0. apply bool_decide_eq_true in H0 as Hst.
  cstep H. cok H1. destruct (build_bound_inputs _ _) as [bound|] eqn:Hb; [|done]. injection H1 as <-.
  cstep H. apply known_node_ok in H1 as [-> Ha]. cstep H. cok H1. apply bool_decide_eq_true in H1 as Hp.
  apply cbind_ok in H as (cn & [aid number] & Hc & H).
  assert (ct_ledger cn = ct_ledger c1) as Hnear.
  { clear H. unfold next_attempt in Hc. destruct (na_resume_existing_attempt a0); [by cok Hc|]. cstep Hc. cok Hc.
    by injection H as <- <-. }
  apply next_attempt_ok in Hc as ->.
  cstep H. eapply append_record_wrote in H2 as (Ht & Hpl & Hw); [|done]. cdone H.
  eexists _, [_]. split; [done|]. split; [by rewrite (wt_records _ _ _ _ Hw), Hnear|].
  destruct (node_of _ _ Ha) as (node' & Hin' & Hid & Hni). pose proof (hi_attempts _ _ _ _ Hhist _ _ Ha) as Hah.
  assert (next_number a0 = Z.min u32_max (na_attempt_number a0 + 1)) as Hnum.
  { pose proof (ni_pending _ _ _ _ _ Hni Hp). pose proof (ni_number _ _ _ _ _ Hni).
    pose proof (allowed_u32 _ _ (rv_typed _ _ _ _ Hinv) Hin'). unfold next_number.
    rewrite (ah_resume _ Hah). rewrite Z.mod_small; unfold u32_max in *; lia. }
  intros Hstable. split.
  - eapply set_node_history; [done|done|done| |done|by rewrite Hst]. split; try done; simpl; try congruence; auto.
    apply Hah.
  - intros Hu. eapply replays_cons; [|apply replays_nil]. intros l. by eapply replay_begin.
Qed.

(** A record of the change, then records of tasks. *)
Lemma replays_change o r recs s' :
  (∀ l, replay_record E l o d run (replay_of s) r = Applied (replay_of s')) → Forall foreign recs →
  replays E o d run (r :: recs) s s'.
Proof. intros Hr Hf. eapply replays_cons; [done|by apply replays_foreign]. Qed.

Lemma wrote_change (c2 c3 c4 : Controller O) r recs :
  wrote run c2 c3 [r] → wrote run c3 c4 recs → ct_ledger c2 = ct_ledger c1 →
  run_records (ct_ledger c4) run = run_records (ct_ledger c1) run ++ r :: recs ∧ ct_files c4 = ct_files c2.
Proof.
  intros [H1 H1'] [H2 H2'] Hl. split; [by rewrite H2, H1, Hl, <-app_assoc|congruence].
Qed.

Lemma fail_before_replays node error : action_replays run (fail_before_action E run node error) d s c1.
Proof.
  intros g c2 prepared v owner seq Hg H. unfold fail_before_action in H.
  cstep H. apply known_run_ok in H0 as [-> [= <-]].
  case_decide as Hst; [cdone H; by apply unchanged_replays|].
  cstep H. apply known_node_ok in H0 as [-> Ha]. case_decide as Hp; [cdone H; by apply unchanged_replays|].
  pose proof (hi_attempts _ _ _ _ Hhist _ _ Ha) as Hah.
  cstep H. eapply append_record_wrote in H0 as (Ht & Hpl & Hw); [|done].
  cstep H. eapply update_task_wrote in H0 as (recs & Hf & Hw'); [|done]. cdone H.
  destruct (wrote_change _ _ _ _ _ Hw Hw' eq_refl) as [Hr Ho]. eexists _, (_ :: recs). split_and!; [done|exact Hr|].
  intros Hstable. split.
  - eapply set_node_history; [done|done|done| |done|by rewrite Hst].
    destruct Hah as [? ? Hb]. destruct Hb as (? & ? & ?); [by rewrite Hp|]. by split.
  - intros Hu. apply replays_change; [|done]. intros l. by eapply replay_fail_before.
Qed.

Lemma complete_replays id attempt_id output :
  ev_from_str E (ev_to_string E output) = Ok output →
  action_replays run (complete_action E run id attempt_id output) d s c1.
Proof.
  intros Hparse g c2 prepared v owner seq Hg H. unfold complete_action in H.
  cstep H. apply known_run_ok in H0 as [-> [= <-]].
  case_decide as Hst; [cdone H; by apply unchanged_replays|].
  cstep H. cok H0. cstep H. cok H0. cstep H. apply known_node_ok in H1 as [-> Ha].
  case_decide as Hr; [cdone H; by apply unchanged_replays|]. cbv zeta in H.
  unfold definition in H0. rewrite (Hlinked Hst) in H0. cbn [mbind option_bind] in H0.
  apply find_node_elem in H0 as [Hin <-]. pose proof (hi_attempts _ _ _ _ Hhist _ _ Ha) as Hah.
  assert (na_status a0 = NRunning) as Hrun by (apply dec_stable; tauto).
  apply cbind_ok in H as (cw & ref & Hwr & H). unfold write_output in Hwr.
  destruct (ev_write_named _ _ _ _) as [o [ref'|e]] eqn:Hwn; [|done]. injection Hwr as <- <-.
  pose proof (sl_read _ store _ _ _ _ _ Hwn) as Hread.
  cstep H. injection H0 as <- <-. cstep H. cok H0. case_decide as Hlen; [|done]. injection H0 as <-.
  cstep H. cok H0. cstep H. cok H0. apply cbind_ok in H as (cs & source & Hsrc & H). cok Hsrc.
  cstep H. eapply append_record_wrote in H0 as (Ht & Hpl & Hw); [|done].
  cstep H. eapply update_task_wrote in H0 as (recs & Hf & Hw'); [|done]. cdone H.
  destruct (wrote_change _ _ _ _ _ Hw Hw' eq_refl) as [Hrec Ho]. eexists _, (_ :: recs).
  split_and!; [done|exact Hrec|]. intros Hstable. split.
  - eapply set_node_history; [done|done|done| |done|by rewrite Hst]. destruct Hah as [? ? ? ? ?]. by split.
  - intros Hu. apply replays_change; [|done]. intros l. unfold unsupervised in Hu. pose proof Hu as Hu'.
    rewrite Forall_forall in Hu'. unfold build_supervisor_completion_source in Hsrc.
    rewrite (Hu' _ Hin) in Hsrc. injection Hsrc as <-.
    eapply replay_complete; try done; [apply list_elem_of_fmap; eauto|by rewrite Ho|apply (sl_clock _ store)].
Qed.

Lemma fail_replays node attempt_id e :
  ne_failure_class e ≠ ReconciliationRequired →
  action_replays run (fail_action E run node (wn_id node) attempt_id e) d s c1.
Proof.
  intros Hclass g c2 prepared v owner seq Hg H. unfold fail_action in H. cbv zeta in H.
  cstep H. unfold deferred_write in H0. rewrite decide_False in H0 by done. cok H0.
  cstep H. apply known_run_ok in H0 as [-> [= <-]].
  case_decide as Hst; [cdone H; by apply unchanged_replays|].
  cstep H. apply known_node_ok in H0 as [-> Ha]. case_decide as Hr; [cdone H; by apply unchanged_replays|].
  pose proof (hi_attempts _ _ _ _ Hhist _ _ Ha) as Hah.
  assert (na_status a = NRunning) as Hrun by (apply dec_stable; tauto).
  cstep H. eapply append_record_wrote in H0 as (Ht & Hpl & Hw); [|done].
  apply cbind_ok in H as (c3 & [] & H0 & H).
  match type of Hw with wrote _ _ ?c _ =>
    assert (∃ recs, Forall foreign recs ∧ wrote run c c3 recs) as (recs & Hf & Hw') end.
  { clear H. rewrite decide_True in H0 by done. cstep H0.
    eapply update_task_wrote in H as (recs & Hf & Hw'); [|done].
    case_decide as Hq; [|apply cret_inv in H0 as [-> _]; eauto]. cstep H0. eapply update_task_wrote in H as (recs' & Hf' & Hw''); [|done].
    apply cret_inv in H0 as [-> _]. exists (recs ++ recs'). split; [by apply Forall_app|by eapply wrote_app]. }
  cdone H.
  destruct (wrote_change _ _ _ _ _ Hw Hw' eq_refl) as [Hrec Ho]. eexists _, (_ :: recs).
  split_and!; [done|exact Hrec|]. intros Hstable. split.
  - eapply set_node_history; [done|done|done| | |by rewrite Hst].
    + destruct Hah as [? ? Hb]. destruct Hb as (? & ? & ?); [by rewrite Hrun|].
      assert (retry_status node a e = NPending ∨ retry_status node a e = NFailed) as Hrs
        by (unfold retry_status; destruct (decide (_ ∧ _)); auto).
      split; simpl; try done; destruct Hrs as [-> | ->]; done || auto.
    + simpl. unfold retry_status. by destruct (decide (_ ∧ _)).
  - intros Hu. apply replays_change; [|done]. intros l. by eapply replay_fail.
Qed.

Lemma skip_replays node :
  node_skippable s node = true → node ∈ wd_nodes d → action_replays run (skip_action E run (wn_id node)) d s c1.
Proof.
  intros Hk Hin g c2 prepared v owner seq Hg H. unfold skip_action in H.
  cstep H. eapply append_record_wrote in H0 as (Ht & Hpl & Hw); [|done].
  cstep H. apply known_run_ok in H0 as [-> [= <-]].
  cstep H. eapply update_task_wrote in H0 as (recs & Hf & Hw'); [|done]. cdone H.
  destruct (wrote_change _ _ _ _ _ Hw Hw' eq_refl) as [Hrec Ho].
  destruct (wr_nodes s !! wn_id node) as [a'|] eqn:Ha; [|unfold node_skippable, is_pending in Hk; by rewrite Ha in Hk].
  pose proof (skippable_pending _ _ _ Hk Ha) as Hp. pose proof (hi_attempts _ _ _ _ Hhist _ _ Ha) as Hah.
  assert (with_nodes s (alter skipped_attempt (wn_id node) (wr_nodes s)) =
          set_node s (wn_id node) (skipped_attempt a')) as ->.
  { unfold set_node. f_equal. apply map_eq. intros i. destruct (decide (i = wn_id node)) as [->|Hi];
      [by rewrite lookup_insert_eq, lookup_alter_eq, Ha|by rewrite lookup_insert_ne, lookup_alter_ne]. }
  eexists _, (_ :: recs). split_and!; [done|exact Hrec|]. intros Hstable. split.
  - eapply set_node_history; [done|done|done| | |].
    + destruct Hah as [? ? Hb]. destruct Hb as (? & ? & ?); [by rewrite Hp|]. by split.
    + intros _ node' Hin' Hid. replace node' with node by (by eapply same_node; [apply Hinv|..]).
      unfold node_skippable in Hk. rewrite !andb_true_iff in Hk. apply Hk.
    + intros _. split; [done|]. unfold failed_class. simpl. by rewrite !decide_False by congruence.
  - intros Hu. apply replays_change; [|done]. intros l. by eapply replay_skip.
Qed.

Lemma settle_replays : action_replays run (settle_action E run) d s c1.
Proof.
  intros g c2 prepared v owner seq Hg H. unfold settle_action in H.
  cstep H. apply known_run_ok in H0 as [-> [= <-]].
  assert (deferred_nodes s = []) as Hdn.
  { unfold deferred_nodes. apply list.elem_of_nil_inv. intros x (y & Hy & Hx)%list_elem_of_omap.
    destruct y as [id a']. apply elem_of_btree_iter in Hy. simpl in Hx.
    by rewrite (ah_deferred _ (hi_attempts _ _ _ _ Hhist _ _ Hy)) in Hx. }
  rewrite Hdn in H. cbn [recover_deferred] in H. cstep H. cok H0.
  destruct (some_node _ _) eqn:Hn; [cdone H; by apply unchanged_replays|].
  cstep H. eapply append_record_wrote in H0 as (Ht & Hpl & Hw); [|done]. cdone H.
  eexists _, [_]. split_and!; [done|apply (wt_records _ _ _ _ Hw)|]. intros _. split.
  - by apply settle_history.
  - intros Hu. apply replays_change; [|constructor]. intros l. apply replay_settle; [done|done|]. apply Hhist.
Qed.
End changes.
