(* ===== verification/WorkflowProjection.v ===== *)
(** * Projections and the ledger

    The projection of a Run is a cache of what the ledger holds: it carries the
    sequence number of the last record it knows, and a change is made only on a
    projection that is current.  After a change that failed between its record
    and its publication, or a record of another process, every change of the
    Run is refused until it is restored. *)
From S2P Require Import ResourceTypes Prelude Json Types TaskRegistry RuntimeLedger WorkflowTypes WorkflowValidation WorkflowReferences Identity Registries LedgerInterface MessageBus CollaborationTypes CollaborationRuntime CollaborationTasks CollaborationRestore WorkflowRuns WorkflowInputs WorkflowController WorkflowRegistration WorkflowCompletion WorkflowNodes WorkflowExecution WorkflowRestore WorkflowFrames WorkflowMoves.

Definition op_run (op : RunOp) : RunId :=
  match op with
  | OpStart run _ _ _ _ | OpBegin run _ | OpFailBefore run _ _ | OpComplete run _ _ _
  | OpFail run _ _ _ | OpSkip run _ | OpSettle run | OpCancel run _ => run
  end.

Section projections.
Context {O : Type} (E : Env O).

Definition projection_current (c : Controller O) (run : RunId) : Prop :=
  projection_sequence (ct_runs c !! run) = last_seq (run_records (ct_ledger c) run).

(** Nothing but leases, the clock and identifiers. *)
Record quiet (c c' : Controller O) : Prop := {
  qu_registry : same_registry c c';
  qu_runs : ct_runs c' = ct_runs c;
  qu_tasks : ct_tasks c' = ct_tasks c;
  qu_records : ls_records (ct_ledger c') = ls_records (ct_ledger c);
  qu_files : ct_files c' = ct_files c;
}.

#[export] Instance quiet_preorder : PreOrder quiet.
Proof. split; [by intros c; split|]. intros c1 c2 c3 [] []. split; [by etrans|congruence..]. Qed.

Lemma near_quiet c c' : near c c' → quiet c c'.
Proof. intros H. pose proof (near_tasks _ _ H). by destruct H as [[] ? ? ? ?]. Qed.

Definition quietly {A} (m : M O A) : Prop := ∀ c, quiet c (m c).1.

Lemma quietly_bind {A B} (m : M O A) (k : A → M O B) :
  quietly m → (∀ a, quietly (k a)) → quietly (cbind m k).
Proof.
  intros Hm Hk c. unfold cbind. specialize (Hm c). destruct (m c) as [c' [a|e]]; simpl in *; [|done].
  etrans; [done|apply Hk].
Qed.

Lemma quietly_pure {A} (m : M O A) : (∀ c, (m c).1 = c) → quietly m.
Proof. intros H c. by rewrite H. Qed.

Lemma quietly_initial_nodes nodes : quietly (initial_nodes E nodes).
Proof.
  apply quietly_bind; [|intros; by apply quietly_pure].
  induction nodes as [|node nodes IH]; cbn [cmap]; [by apply quietly_pure|].
  apply quietly_bind; [apply quietly_bind; [intros c; by split|intros; by apply quietly_pure]|].
  intros. apply quietly_bind; [done|]. intros. by apply quietly_pure.
Qed.

(** The outcome of a change of [run]. *)
Record guarded (run : RunId) (c c' : Controller O) : Prop := {
  gu_stale : ¬ projection_current c run → quiet c c';
  gu_changed : ct_runs c' ≠ ct_runs c → ∀ p', ct_runs c' !! run = Some p' →
    pj_durable_sequence p' = last_seq (run_records (ct_ledger c') run);
}.

Lemma quiet_guarded run c c' : quiet c c' → guarded run c c'.
Proof. intros H. split; [done|]. intros Hne. by destruct (Hne (qu_runs _ _ H)). Qed.

Lemma quiet_current run c c' : quiet c c' → projection_current c run → projection_current c' run.
Proof. intros [_ Hr _ Hl _] H. unfold projection_current, run_records in *. by rewrite Hr, Hl. Qed.

(** A quiet beginning, and an end that leaves the Runs and the records alone. *)
Lemma guarded_quiet_l run c c1 c' : quiet c c1 → guarded run c1 c' → guarded run c c'.
Proof.
  intros Hq [H1 H2]. split.
  - intros Hn. etrans; [done|]. apply H1. intros Hc. apply Hn.
    destruct Hq as [_ Hr _ Hl _]. unfold projection_current, run_records in *. by rewrite <-Hr, <-Hl.
  - intros Hne. apply H2. by rewrite (qu_runs _ _ Hq).
Qed.

Lemma mutate_guarded {R} run (act : action R) c c' r :
  (∀ g p, framed (act g p)) → mutate_projection E run act c = (c', r) → guarded run c c'.
Proof.
  intros Hf H. apply mutate_cases in H; [|done].
  destruct H as [e Hn|g c1 c2 res e Hn _ Hcur Ha Hn'|g c1 c2 prepared v p r Hn _ Hcur Ha -> Hn' Hr].
  - by apply quiet_guarded, near_quiet.
  - split; [done|]. intros Hne. destruct Hne. pose proof (framed_eq _ _ _ _ (Hf _ _) Ha) as [].
    destruct Hn as [[]], Hn' as [[]]. congruence.
  - split; [done|]. intros _ p' Hp'. rewrite (fr_runs _ _ (nr_frame _ _ Hn')) in Hp'. simpl in Hp'.
    rewrite lookup_partial_alter_eq in Hp'. destruct prepared as [s|]; [|done]. injection Hp' as <-. simpl.
    unfold run_records. by rewrite (nr_records _ _ Hn').
Qed.

Lemma guarded_bind {A B} (m : M O A) (k : A → M O B) run c c' r :
  cbind m k c = (c', r) → quietly m →
  (∀ c1 a, m c = (c1, Ok a) → k a c1 = (c', r) → guarded run c1 c') → guarded run c c'.
Proof.
  intros H Hm Hk. specialize (Hm c). apply cbind_inv in H as [(c1 & a & H1 & H)|(e & H1 & ->)];
    rewrite H1 in Hm; simpl in Hm; [|by apply quiet_guarded]. eapply guarded_quiet_l; [done|]. by eapply Hk.
Qed.

Lemma mutate_ok_current {R} run (act : action R) c c' v :
  (∀ g p, framed (act g p)) → mutate_projection E run act c = (c', Ok v) → projection_current c run.
Proof. intros Hf H. apply mutate_cases in H; [|done]. by inversion H. Qed.

(** Tasks may change, Runs and records do not. *)
Definition tasks_only {A} (m : M O A) : Prop :=
  ∀ c, ct_runs (m c).1 = ct_runs c ∧ ct_ledger (m c).1 = ct_ledger c.

Lemma tasks_only_bind {A B} (m : M O A) (k : A → M O B) :
  tasks_only m → (∀ a, tasks_only (k a)) → tasks_only (cbind m k).
Proof.
  intros Hm Hk c. unfold cbind. specialize (Hm c). destruct (m c) as [c' [a|e]]; simpl in *; [|done].
  destruct (Hk a c') as [-> ->]. done.
Qed.

Lemma tasks_only_for {A} (f : A → M O unit) xs : (∀ x, tasks_only (f x)) → tasks_only (cfor f xs).
Proof. intros Hf. induction xs; cbn [cfor]; [done|]. by apply tasks_only_bind. Qed.

Lemma tasks_only_admitted r : tasks_only (register_admitted E r).
Proof.
  unfold register_admitted. case_decide; [|done]. by apply tasks_only_bind.
Qed.

Lemma tasks_only_missing t : tasks_only (register_missing t).
Proof. unfold register_missing. apply tasks_only_bind; [done|]. intros []; done. Qed.

Lemma start_guarded run workflow_id parameters parent identity c c' r :
  start_internal E run workflow_id parameters parent identity c = (c', r) → guarded run c c'.
Proof.
  intros H. unfold start_internal in H.
  eapply guarded_bind; [exact H|by apply quietly_bind; [|intros]; apply quietly_pure|].
  intros c1 d _ H1. eapply guarded_bind; [exact H1|by apply quietly_pure|].
  intros c2 dis _ H2. eapply guarded_bind; [exact H2|by apply quietly_pure|].
  intros c3 [] _ H3. eapply guarded_bind; [exact H3|destruct (wd_parameters_schema d); by apply quietly_pure|].
  intros c4 [] _ H4. eapply guarded_bind; [exact H4|destruct identity; by apply quietly_pure|].
  intros c5 ident _ H5. eapply guarded_bind; [exact H5|apply quietly_initial_nodes|].
  intros c6 nodes _ H6. eapply guarded_bind; [exact H6|by apply quietly_pure|]. intros c7 rt _ H7.
  apply cbind_inv in H7 as [(c8 & [o adm] & H8 & H')|(e & H8 & ->)];
    [|eapply mutate_guarded; [|exact H8]; intros; apply framed_start].
  pose proof H8 as Hcur. apply mutate_ok_current in Hcur; [|intros; apply framed_start].
  apply mutate_guarded in H8 as [_ Hch]; [|intros; apply framed_start].
  assert (ct_runs c' = ct_runs c8 ∧ ct_ledger c' = ct_ledger c8) as [Hr Hl].
  { match type of H' with ?m c8 = _ => assert (tasks_only m) as Ht end.
    - apply tasks_only_bind; [|done]. destruct (so_started o); [|done].
      apply tasks_only_bind; [|intros _]; apply tasks_only_for; auto using tasks_only_admitted, tasks_only_missing.
    - specialize (Ht c8). by rewrite H' in Ht. }
  split; [done|]. rewrite Hr, Hl. done.
Qed.

Lemma run_op_guarded op c : guarded (op_run op) c (run_op E op c).
Proof.
  assert (∀ R run (act : action R), (∀ g p, framed (act g p)) →
    guarded run c (mutate_projection E run act c).1) as Hmut.
  { intros R run act Hf. destruct (mutate_projection E run act c) as [c' r] eqn:Hm. by eapply mutate_guarded. }
  destruct op; cbn [op_run run_op]; unfold ignore; try (apply Hmut; framed).
  - destruct (start_internal _ _ _ _ _ _ _) eqn:H. by eapply start_guarded.
  - destruct (fail_node _ _ _ _ _ _) as [c' r] eqn:H. unfold fail_node in H.
    eapply guarded_bind; [exact H| |].
    { unfold run_definition. repeat (apply quietly_bind; [by apply quietly_pure|intros]). by apply quietly_pure. }
    intros c1 [s d] _ H1. eapply guarded_bind; [exact H1|by apply quietly_pure|].
    intros c2 node _ H2. eapply mutate_guarded; [|exact H2]. framed.
Qed.
End projections.

