(* ===== verification/WorkflowTermination.v ===== *)
(** * Executing a Run: only allowed steps, and it ends

    [execute_until_settled] and [cancel] are made of the steps of the machine of
    WorkflowMoves.v, taken only when they are allowed, whatever the executors do
    and whatever others change in the meantime; and they end, with an amount of
    fuel that depends on the registered definitions alone: every round uses up
    an attempt of a node, a sub-Workflow is an earlier definition of the acyclic
    graph of references, every round of skipping skips a pending node, and every
    call of the recursion of [cancel] cancels a running Run.

    [wp F m Q c] says that [m] run in [c] takes steps only, ends in a state of
    [Q], and reports a lack of fuel only if [F]. *)
From S2P Require Import ResourceTypes Prelude Json Types TaskRegistry RuntimeLedger WorkflowTypes WorkflowValidation WorkflowGraph WorkflowFacts WorkflowReferences Identity Registries LedgerInterface MessageBus CollaborationTypes CollaborationRuntime CollaborationTasks CollaborationRestore WorkflowRuns WorkflowInputs WorkflowController WorkflowRegistration WorkflowCompletion WorkflowNodes WorkflowExecution WorkflowRestore WorkflowFrames WorkflowMoves WorkflowRegistry WorkflowSafety.

(** ** Computations that need no fuel *)

Section no_fuel.
Context {O : Type}.

Record no_fuel {A} (m : M O A) : Prop := no_fuel_intro { no_fuel_at : ∀ c, (m c).2 ≠ Err CtFuel }.

Lemma no_fuel_bind {A B} (m : M O A) (k : A → M O B) :
  no_fuel m → (∀ a, no_fuel (k a)) → no_fuel (cbind m k).
Proof.
  intros [Hm] Hk. split. intros c. unfold cbind. specialize (Hm c).
  destruct (m c) as [c' [a|e]]; simpl in *; [apply Hk|congruence].
Qed.
Lemma no_fuel_ret {A} (a : A) : no_fuel (cret (O := O) a).
Proof. by split. Qed.
Lemma no_fuel_message {A} e : no_fuel (cfail (O := O) (A := A) (CtMessage e)).
Proof. by split. Qed.
Lemma no_fuel_gets {A} (f : Controller O → A) : no_fuel (gets f).
Proof. by split. Qed.
Lemma no_fuel_modify (f : Controller O → Controller O) : no_fuel (modify f).
Proof. by split. Qed.
Lemma no_fuel_of_result {A} (r : result A string) : no_fuel (of_result (O := O) r).
Proof. split. intros c. by destruct r. Qed.
Lemma no_fuel_some_or {A} (o : option A) e : no_fuel (some_or (O := O) o e).
Proof. apply no_fuel_of_result. Qed.
Lemma no_fuel_require b e : no_fuel (require (O := O) b e).
Proof. apply no_fuel_of_result. Qed.
Lemma no_fuel_attempt {A} (m : M O A) : no_fuel (attempt m).
Proof. split. intros c. unfold attempt. by destruct (m c). Qed.
Lemma no_fuel_for {A} (f : A → M O unit) xs : (∀ x, no_fuel (f x)) → no_fuel (cfor f xs).
Proof. intros Hf. induction xs; cbn [cfor]; [apply no_fuel_ret|]. by apply no_fuel_bind. Qed.
Lemma no_fuel_map {A B} (f : A → M O B) xs : (∀ x, no_fuel (f x)) → no_fuel (cmap f xs).
Proof.
  intros Hf. induction xs; cbn [cmap]; [apply no_fuel_ret|]. apply no_fuel_bind; [done|]. intros y.
  apply no_fuel_bind; [done|]. intros ys. apply no_fuel_ret.
Qed.
End no_fuel.

Create HintDb no_fuel.
#[export] Hint Resolve no_fuel_ret no_fuel_message no_fuel_gets no_fuel_modify no_fuel_of_result
  no_fuel_some_or no_fuel_require no_fuel_attempt : no_fuel.

Ltac no_fuel :=
  intros;
  first
    [ solve [eauto 3 with no_fuel]
    | lazymatch goal with
      | |- no_fuel (cbind _ _) => apply no_fuel_bind; no_fuel
      | |- no_fuel (cfor _ _) => apply no_fuel_for; no_fuel
      | |- no_fuel (cmap _ _) => apply no_fuel_map; no_fuel
      | |- no_fuel (match ?x with _ => _ end) => destruct x; no_fuel
      | |- no_fuel (let _ := _ in _) => cbv zeta; no_fuel
      end
    | idtac ].

Section no_fuel_parts.
Context {O : Type} (E : Env O).

Lemma no_fuel_now : no_fuel (now E).
Proof. by split. Qed.
Lemma no_fuel_new_uuid : no_fuel (new_uuid E).
Proof. by split. Qed.
Lemma no_fuel_on_ledger {A} (f : InMemoryLedgerState → InMemoryLedgerState * result A LedgerError) :
  no_fuel (O := O) (on_ledger f).
Proof. split. intros c. unfold on_ledger. by destruct (f (ct_ledger c)). Qed.
Hint Resolve no_fuel_now no_fuel_new_uuid no_fuel_on_ledger : no_fuel.
Lemma no_fuel_ledger_call {A} prefix
    (f : InMemoryLedgerState → InMemoryLedgerState * result A LedgerError) :
  no_fuel (ledger_call E prefix f).
Proof. unfold ledger_call. no_fuel. Qed.
Lemma no_fuel_acquire_loop fuel run : no_fuel (acquire_loop E fuel run).
Proof. induction fuel as [|fuel IH]; cbn [acquire_loop]; [by split|no_fuel]. Qed.
Hint Resolve no_fuel_ledger_call no_fuel_acquire_loop : no_fuel.
Lemma no_fuel_acquire run : no_fuel (acquire_workflow_mutation_guard E run).
Proof. unfold acquire_workflow_mutation_guard. no_fuel. Qed.
Lemma no_fuel_validate g : no_fuel (validate_workflow_mutation_guard E g).
Proof. unfold validate_workflow_mutation_guard, own_guard. no_fuel. Qed.
Lemma no_fuel_append g run ty p : no_fuel (append_record E g run ty p).
Proof. unfold append_record. no_fuel. Qed.
Lemma no_fuel_release g : no_fuel (release_workflow_mutation_guard E g).
Proof. unfold release_workflow_mutation_guard, own_guard. no_fuel. Qed.
Lemma no_fuel_require_current g p : no_fuel (O := O) (require_current_projection g p).
Proof. unfold require_current_projection. no_fuel. Qed.
Lemma no_fuel_commit g n : no_fuel (commit_projection_high_water E g n).
Proof. unfold commit_projection_high_water. no_fuel. Qed.
Lemma no_fuel_set_projection run p : no_fuel (O := O) (set_projection run p).
Proof. unfold set_projection. no_fuel. Qed.
Hint Resolve no_fuel_acquire no_fuel_validate no_fuel_append no_fuel_release no_fuel_require_current
  no_fuel_commit no_fuel_set_projection : no_fuel.

(** An error that was kept as a value is raised again. *)
Lemma raise_no_fuel {A} (m : M O A) c c' e : no_fuel m → m c = (c', Err e) → e ≠ CtFuel.
Proof. intros [H] Hm. specialize (H c). rewrite Hm in H. simpl in H. congruence. Qed.

Lemma no_fuel_publish {R} run g original (act : action R) :
  (∀ g p, no_fuel (act g p)) → no_fuel (publish E run g original act).
Proof.
  intros Hact. unfold publish. apply no_fuel_bind; [done|]. intros [prepared v].
  apply no_fuel_bind; [no_fuel|intros g']. apply no_fuel_bind; [no_fuel|intros lease]. cbv zeta.
  apply no_fuel_bind; [no_fuel|intros cur]. apply no_fuel_bind; [no_fuel|intros _].
  apply no_fuel_bind; [no_fuel|intros _]. split. intros c. unfold cbind at 1.
  destruct (attempt _ c) as [c1 [r|e]] eqn:H; apply attempt_inv in H as (r0 & H & [= ->]).
  simpl. destruct r0 as [[]|e]; [done|]. eapply raise_no_fuel in H; [|no_fuel]. simpl. congruence.
Qed.

Lemma no_fuel_mutate {R} run (act : action R) :
  (∀ g p, no_fuel (act g p)) → no_fuel (mutate_projection E run act).
Proof.
  intros Hact. split. intros c. destruct (mutate_projection E run act c) as [c' r] eqn:H. simpl. intros ->.
  unfold mutate_projection in H.
  apply cbind_inv in H as [(c1 & g & Hg & H)|(e & He & [= <-])];
    [|by eapply raise_no_fuel in He; [|no_fuel]].
  apply cbind_inv in H as [(c2 & orig & H2 & H)|(e & H2 & _)]; [|done]. cok H2.
  apply cbind_inv in H as [(c3 & cur & H3 & H)|(e & (? & _ & ?)%attempt_inv & _)]; [|done].
  apply attempt_inv in H3 as (r3 & H3 & [= ->]).
  apply cbind_inv in H as [(c4 & res & H4 & H)|(e & H4 & _)];
    [|destruct r3; [apply attempt_inv in H4 as (? & _ & ?)|]; done].
  apply cbind_inv in H as [(c5 & rel & H5 & H)|(e & (? & _ & ?)%attempt_inv & _)]; [|done].
  apply attempt_inv in H5 as (r5 & H5 & [= ->]).
  assert (res ≠ Err CtFuel) as Hr.
  { destruct r3 as [[]|e0].
    - apply attempt_inv in H4 as (r1 & H4 & [= ->]). destruct r1; [done|].
      eapply raise_no_fuel in H4; [congruence|by apply no_fuel_publish].
    - injection H4 as <- <-. eapply raise_no_fuel in H3; [congruence|no_fuel]. }
  unfold after_release in H. destruct res as [v|e], r5 as [[]|e5]; injection H as _ H; try done.
  - subst e5. eapply raise_no_fuel in H5; [done|no_fuel].
  - destruct e; simpl in H; congruence.
  - destruct e, e5; simpl in H; congruence.
Qed.
End no_fuel_parts.
#[export] Hint Resolve no_fuel_now no_fuel_new_uuid no_fuel_on_ledger no_fuel_ledger_call
  no_fuel_append no_fuel_mutate : no_fuel.

Section no_fuel_actions.
Context {O : Type} (E : Env O).

Lemma no_fuel_catch {A B} (m : M O A) (k : result A CtError → M O B) :
  no_fuel m → (∀ r, r ≠ Err CtFuel → no_fuel (k r)) → no_fuel (cbind (attempt m) k).
Proof.
  intros [Hm] Hk. split. intros c. unfold cbind, attempt. specialize (Hm c).
  destruct (m c) as [c' r]. simpl in *. by apply Hk.
Qed.

Lemma no_fuel_raise {A} e : Err (A := A) e ≠ Err CtFuel → no_fuel (cfail (O := O) (A := A) e).
Proof. intros H. split. intros c. simpl. congruence. Qed.

Lemma no_fuel_update_task g run node u : no_fuel (update_workflow_task E g run node u).
Proof.
  unfold update_workflow_task. do 2 (apply no_fuel_bind; [no_fuel|intros]). split. intros c.
  destruct (cas_durable _ _ _ _ _ _ _) as [[[l n] t] []]; done.
Qed.
Lemma no_fuel_runtime_call {A} (f : Runtime → Runtime * result A RuntimeError) :
  no_fuel (runtime_call E f).
Proof. split. intros c. unfold runtime_call. by destruct (f (ct_runtime c)) as [rt []]. Qed.
Lemma no_fuel_write_output run x : no_fuel (write_output E run x).
Proof. split. intros c. unfold write_output. by destruct (ev_write_named _ _ _ _) as [o []]. Qed.
Hint Resolve no_fuel_update_task no_fuel_runtime_call no_fuel_write_output : no_fuel.

Lemma no_fuel_restore_operation id op : no_fuel (restore_durable_task_operation E id op).
Proof. unfold restore_durable_task_operation, require_runtime. no_fuel. Qed.
Hint Resolve no_fuel_restore_operation : no_fuel.

Lemma no_fuel_begin run node : no_fuel (begin_attempt E run node).
Proof. apply no_fuel_mutate. intros. unfold begin_action, known_run, known_node, next_attempt. no_fuel. Qed.
Lemma no_fuel_fail_before run node e : no_fuel (fail_before_attempt E run node e).
Proof. apply no_fuel_mutate. intros. unfold fail_before_action, known_run, known_node. no_fuel. Qed.
Lemma no_fuel_complete run id a o : no_fuel (complete_node E run id a o).
Proof. apply no_fuel_mutate. intros. unfold complete_action, known_run, known_node. no_fuel. Qed.
Lemma no_fuel_run_definition run m : no_fuel (O := O) (run_definition run m).
Proof. unfold run_definition. no_fuel. Qed.
Lemma no_fuel_fail run id a e : no_fuel (fail_node E run id a e).
Proof.
  unfold fail_node. apply no_fuel_bind; [apply no_fuel_run_definition|]. intros [s d].
  apply no_fuel_bind; [no_fuel|]. intros node. apply no_fuel_mutate. intros.
  unfold fail_action, deferred_write, known_run, known_node. no_fuel.
Qed.
Lemma no_fuel_skip run id : no_fuel (skip_node E run id).
Proof. apply no_fuel_mutate. intros. unfold skip_action, known_run. no_fuel. Qed.
Lemma no_fuel_cancel_run run reason : no_fuel (cancel_run E run reason).
Proof. apply no_fuel_mutate. intros. unfold cancel_action, cancel_task, known_run. no_fuel. Qed.

Lemma no_fuel_recover g run id d : no_fuel (recover_terminal E g run id d).
Proof.
  unfold recover_terminal. apply no_fuel_catch; [no_fuel|]. intros [[found existing]|e] He; [|no_fuel].
  apply no_fuel_bind; [no_fuel|intros _]. destruct existing; [no_fuel|].
  apply no_fuel_catch; [no_fuel|]. intros [rev|e1] He1; [no_fuel|].
  apply no_fuel_catch; [no_fuel|]. intros [[? [t|]]|e2] He2; [no_fuel| |no_fuel].
  by apply no_fuel_raise; intros [= ->].
Qed.

Lemma no_fuel_marker g run id a d n : no_fuel (append_terminal_reconciled_marker E g run id a d n).
Proof.
  unfold append_terminal_reconciled_marker, terminal_reconciled_marker_exists. cbv zeta.
  apply no_fuel_bind; [no_fuel|]. intros []; [no_fuel|].
  apply no_fuel_catch; [no_fuel|]. intros [?|e] He; [no_fuel|].
  apply no_fuel_bind; [no_fuel|]. intros [[]|]; [no_fuel| |no_fuel]. apply no_fuel_raise. by intros [= ->].
Qed.

Lemma no_fuel_settle run : no_fuel (settle E run).
Proof.
  apply no_fuel_mutate. intros g p. unfold settle_action, known_run. apply no_fuel_bind; [no_fuel|]. intros s.
  apply no_fuel_bind; [|no_fuel]. generalize (deferred_nodes s). intros l. revert s.
  induction l as [|[id [a d]] l IH]; intros s; cbn [recover_deferred]; [no_fuel|].
  apply no_fuel_bind; [apply no_fuel_recover|]. intros n. apply no_fuel_bind; [apply no_fuel_marker|].
  intros _. apply no_fuel_bind; [unfold known_node; no_fuel|]. intros b. apply IH.
Qed.

Lemma no_fuel_start run workflow parameters parent identity :
  no_fuel (start_internal E run workflow parameters parent identity).
Proof.
  unfold start_internal, known_definition, initial_nodes. cbv zeta.
  do 6 (apply no_fuel_bind; [no_fuel|intros]). apply no_fuel_bind; [no_fuel|intros].
  apply no_fuel_bind.
  - apply no_fuel_mutate. intros. unfold start_action, require_running_parent. no_fuel.
  - intros [o adm]. apply no_fuel_bind; [|no_fuel]. unfold register_admitted, register_missing, upsert_task. no_fuel.
Qed.
End no_fuel_actions.

(** ** Steps and what a computation does *)

Section steps.
Context {O : Type} (E : Env O).
Hypothesis order : hash_order_law E.
Notation moves c := (run_move (ev_sha256 E) (ev_to_vec E) (ct_definitions c)).

(** The steps of an execution: the registry is left alone. *)
Inductive exec_step (c c' : Controller O) : Prop :=
  | exec_run op : op_allowed c op → c' = run_op E op c → exec_step c c'
  | exec_outside runtime files : c' = set_files files (set_runtime runtime c) → exec_step c c'.

Abbreviation steps := (rtc exec_step).

Lemma exec_ctl c c' : exec_step c c' → ctl_step E c c'.
Proof. intros [op Hop H|rt files H]; [by eapply step_run|by eapply step_outside]. Qed.

Lemma exec_step_inv c c' :
  exec_step c c' → controller_inv E c →
  controller_inv E c' ∧ same_registry c c' ∧
  runs_move (ev_sha256 E) (ev_to_vec E) (ct_definitions c) (ct_runs c) (ct_runs c').
Proof.
  intros H Hinv. split; [by eapply ctl_step_inv, Hinv; [|apply exec_ctl]|].
  destruct H as [op Hop ->|rt files ->].
  - apply run_op_moves; [apply Hinv|done].
  - split; [by split|apply runs_move_refl].
Qed.

Lemma steps_inv c c' :
  steps c c' → controller_inv E c → controller_inv E c' ∧ ct_definitions c' = ct_definitions c.
Proof.
  induction 1 as [|c1 c2 c3 H _ IH]; [done|]. intros Hinv.
  destruct (exec_step_inv _ _ H Hinv) as (H2 & [Hd _ _ _ _ _ _ _] & _). destruct (IH H2). split; congruence.
Qed.

(** The Run after some steps. *)
Lemma steps_run c c' run s :
  steps c c' → controller_inv E c → run_snapshot c run = Some s →
  ∃ s', run_snapshot c' run = Some s' ∧ rtc (moves c) s s'.
Proof.
  intros H. revert s. induction H as [|c1 c2 c3 H _ IH]; intros s Hinv Hs; [by exists s|].
  destruct (exec_step_inv _ _ H Hinv) as (H2 & [Hd _ _ _ _ _ _ _] & Hm). specialize (Hm run).
  unfold run_snapshot in Hs. destruct (ct_runs c1 !! run) as [p|] eqn:Hp; [|done]. injection Hs as <-.
  destruct (ct_runs c2 !! run) as [p2|] eqn:Hp2; [|done].
  destruct (IH (pj_snapshot p2) H2) as (s' & Hs' & Hm'); [by unfold run_snapshot; rewrite Hp2|].
  exists s'. split; [done|]. rewrite Hd in Hm'. by etrans.
Qed.

(** [F]: a lack of fuel may be reported. *)
Definition wp {A} (F : Prop) (m : M O A) (Q : A → Controller O → Prop) (c : Controller O) : Prop :=
  ∀ c' r, m c = (c', r) →
    steps c c' ∧ (r = Err CtFuel → F) ∧ ∀ a, r = Ok a → Q a c'.

Lemma wp_mono {A} F (m : M O A) (Q Q' : A → Controller O → Prop) c :
  wp F m Q c → (∀ a c', Q a c' → Q' a c') → wp F m Q' c.
Proof. intros H HQ c' r Hm. destruct (H _ _ Hm) as (H1 & H2 & H3). split_and!; auto. Qed.

(** The post-condition may use that steps were taken. *)
Lemma wp_steps {A} F (m : M O A) (Q : A → Controller O → Prop) c :
  wp F m (λ a c', steps c c' → Q a c') c → wp F m Q c.
Proof. intros H c' r Hm. destruct (H _ _ Hm) as (H1 & H2 & H3). split_and!; auto. Qed.

Lemma wp_bind {A B} F (m : M O A) (k : A → M O B) Q c :
  wp F m (λ a c', wp F (k a) Q c') c → wp F (cbind m k) Q c.
Proof.
  intros H c' r Hm. apply cbind_inv in Hm as [(c1 & a & H1 & H2)|(e & H1 & ->)].
  - destruct (H _ _ H1) as (Hs & _ & Hk). destruct (Hk a eq_refl _ _ H2) as (Hs' & Hf & HQ).
    split_and!; [by etrans|done|done].
  - destruct (H _ _ H1) as (Hs & Hf & _). split_and!; [done| |done]. intros [= ->]. auto.
Qed.

Lemma wp_pure {A} F (m : M O A) (Q : A → Controller O → Prop) c :
  (m c).1 = c → no_fuel m → (∀ a, (m c).2 = Ok a → Q a c) → wp F m Q c.
Proof.
  intros Hc [Hf] HQ c' r Hm. specialize (Hf c). rewrite Hm in Hc, Hf, HQ. simpl in *. subst c'.
  split_and!; [done|congruence|intros; subst; auto].
Qed.

Lemma wp_ret {A} F (a : A) (Q : A → Controller O → Prop) c : Q a c → wp F (cret a) Q c.
Proof. intros H. apply wp_pure; [done|apply no_fuel_ret|]. by intros a' [= <-]. Qed.

Lemma wp_gets {A} F (f : Controller O → A) (Q : A → Controller O → Prop) c :
  Q (f c) c → wp F (gets f) Q c.
Proof. intros H. apply wp_pure; [done|apply no_fuel_gets|]. by intros a' [= <-]. Qed.

(** A change of a Run. *)
Lemma wp_op {A} F (m : M O A) op (Q : A → Controller O → Prop) c :
  op_allowed c op → run_op E op c = (m c).1 → no_fuel m →
  (∀ a, (m c).2 = Ok a → Q a (run_op E op c)) → wp F m Q c.
Proof.
  intros Hop Hm [Hf] HQ c' r Hr. specialize (Hf c). rewrite Hr in Hm, Hf, HQ. simpl in *. subst c'.
  split_and!; [|congruence|intros; subst; auto]. apply rtc_once. by eapply exec_run.
Qed.

Lemma wp_catch {A B} F (m : M O A) (k : result A string → M O B) (Q : B → Controller O → Prop) c :
  wp F m (λ a c', wp F (k (Ok a)) Q c') c →
  (∀ c' e, m c = (c', Err (CtMessage e)) → steps c c' → wp F (k (Err e)) Q c') →
  wp F (cbind (catch m) k) Q c.
Proof.
  intros Hm Hk. apply wp_bind. intros c' r Hr. unfold catch in Hr.
  apply cbind_inv in Hr as [(c1 & r1 & H1 & H2)|(e & (? & _ & ?)%attempt_inv & ->)]; [|done].
  apply attempt_inv in H1 as (r0 & H1 & [= ->]). destruct (Hm _ _ H1) as (Hs & Hf & HQ).
  destruct r0 as [a|[e| |]]; injection H2 as <- <-; split_and!; try done; try auto.
  - intros a' [= <-]. by apply HQ.
  - intros a' [= <-]. by apply Hk.
Qed.
End steps.

Abbreviation steps E := (rtc (exec_step E)) (only parsing).

(** ** Skipping *)

(** The snapshot a mutation leaves. *)
Lemma mutate_snapshot {O R} (E : Env O) run (act : action R) c c' r :
  (∀ g p, framed (act g p)) → mutate_projection E run act c = (c', r) →
  (run_snapshot c' run = run_snapshot c run ∧ ∃ e, r = Err e) ∨
  ∃ g c1 c2 prepared v,
    frame c c1 ∧ act g (run_snapshot c run) c1 = (c2, Ok (prepared, v)) ∧
    run_snapshot c' run = prepared ∧ (r = Ok v ∨ ∃ e, r = Err e).
Proof.
  intros Hf H. apply mutate_cases in H; [|done]. unfold run_snapshot.
  destruct H as [e Hn|g c1 c2 res e Hn _ _ Ha Hn'|g c1 c2 prepared v p r Hn _ _ Ha -> Hn' Hr].
  - left. destruct Hn as [[_ ->]]. eauto.
  - left. pose proof (framed_eq _ _ _ _ (Hf _ _) Ha) as []. destruct Hn as [[]], Hn' as [[]].
    split; [|by eexists]. do 2 f_equal. congruence.
  - right. exists g, c1, c2, prepared, v. split_and!; [apply Hn|done| |done].
    rewrite (fr_runs _ _ (nr_frame _ _ Hn')). simpl. rewrite lookup_partial_alter_eq. by destruct prepared.
Qed.

Section skipping.
Context {O : Type} (E : Env O).
Hypothesis order : hash_order_law E.

(** A node whose state and dependencies are as before. *)
Lemma still_ready d s s' node :
  definition_ok d → node ∈ wd_nodes d → stable s s' →
  wr_nodes s' !! wn_id node = wr_nodes s !! wn_id node →
  (node_ready s node = true → node_ready s' node = true) ∧
  (node_skippable s node = true → node_skippable s' node = true).
Proof.
  intros Hd Hin Hst Hn. unfold node_ready, node_skippable, is_pending. rewrite Hn.
  assert (deps_complete s node → deps_complete s' node ∧ condition_true s' node = condition_true s node) as H.
  { intros Hdeps. destruct (stable_deps _ _ _ Hst Hdeps) as [? Ho]. split; [done|].
    eapply condition_true_same; [by eapply do_nodes|apply Hst|done]. }
  unfold deps_complete in H. rewrite !andb_true_iff. split.
  - intros [[H1 H2] H3]. destruct (H H2) as [-> ->]. done.
  - intros [[[H1 H2] H3] H4]. destruct (H H2) as [-> ->]. done.
Qed.

(** A change that touches one node leaves the others ready. *)
Lemma still_in_run c c' run node id P :
  P = node_ready ∨ P = node_skippable → controller_inv E c → steps E c c' →
  (∀ s s', run_snapshot c run = Some s → run_snapshot c' run = Some s' →
     ∀ i, i ≠ id → wr_nodes s' !! i = wr_nodes s !! i) →
  wn_id node ≠ id → in_run c run node P → in_run c' run node P.
Proof.
  intros HP Hinv Hsteps Htouch Hid (s & Hs & (d & Hd & Hin) & Hr).
  destruct (steps_run E order _ _ _ _ Hsteps Hinv Hs) as (s' & Hs' & Hm).
  destruct (steps_inv E order _ _ Hsteps Hinv) as [_ Hdefs].
  pose proof (run_moves_stable _ _ _ _ _ Hm) as Hst.
  exists s'. split; [done|]. split.
  - exists d. by rewrite Hdefs, (st_workflow _ _ Hst).
  - destruct (still_ready d s s' node) as [H1 H2];
      [by eapply rg_valid; [apply Hinv|]|done|done|by eapply Htouch|]. destruct HP; subst; auto.
Qed.

Definition pending_nodes (s : WorkflowRunSnapshot) : nat :=
  size (filter (λ kv, na_status kv.2 = NPending) (wr_nodes s)).

Lemma skip_node_ok run id c c' r :
  skip_node E run id c = (c', r) →
  (∀ s s', run_snapshot c run = Some s → run_snapshot c' run = Some s' →
     ∀ i, i ≠ id → wr_nodes s' !! i = wr_nodes s !! i) ∧
  ∀ u s, r = Ok u → run_snapshot c run = Some s →
    run_snapshot c' run = Some (with_nodes s (alter skipped_attempt id (wr_nodes s))).
Proof.
  intros H. apply mutate_snapshot in H; [|framed].
  destruct H as [[Heq [e ->]]|(g & c1 & c2 & prepared & v & Hf & Ha & Hs & Hr)].
  - split; [|done]. intros s s' Hs. rewrite Heq. congruence.
  - unfold skip_action in Ha. cstep Ha. cstep Ha. apply known_run_ok in H0 as [-> Hs0]. cstep Ha. cdone Ha.
    rewrite Hs0, Hs. split.
    + intros s s' [= <-] [= <-] i Hi. simpl. by rewrite lookup_alter_ne.
    + by intros u s _ [= <-].
Qed.

Lemma pending_skipped s id a :
  wr_nodes s !! id = Some a → na_status a = NPending →
  S (pending_nodes (with_nodes s (alter skipped_attempt id (wr_nodes s)))) = pending_nodes s.
Proof.
  intros Ha Hp. unfold pending_nodes. cbn [wr_nodes with_nodes].
  rewrite <-(insert_delete_id (wr_nodes s) id a Ha) at 2. rewrite map_filter_insert, decide_True by done.
  rewrite map_size_insert_None by (apply map_lookup_filter_None; left; apply lookup_delete_eq).
  do 2 f_equal. rewrite map_filter_delete. apply map_eq. intros i.
  destruct (decide (i = id)) as [->|Hi].
  - rewrite lookup_delete_eq. apply map_lookup_filter_None. right. intros b.
    rewrite lookup_alter_eq, Ha. by intros [= <-].
  - rewrite lookup_delete_ne by done. apply option_eq. intros b.
    by rewrite !map_lookup_filter_Some, lookup_alter_ne.
Qed.

Lemma skip_all F run nodes c s :
  controller_inv E c → run_snapshot c run = Some s → NoDup (wn_id <$> nodes) →
  Forall (λ node, in_run c run node node_skippable) nodes →
  wp E F (cfor (skip_node E run) (wn_id <$> nodes))
    (λ _ c', ∃ s', run_snapshot c' run = Some s' ∧ pending_nodes s' + length nodes = pending_nodes s) c.
Proof.
  intros Hinv Hs Hnd Hall. revert c s Hinv Hs Hall. induction nodes as [|node nodes IH]; intros c s Hinv Hs Hall.
  - apply wp_ret. exists s. split; [done|]. simpl. lia.
  - rewrite fmap_cons in Hnd |- *. apply NoDup_cons in Hnd as [Hnode Hnd].
    apply Forall_cons in Hall as [Hfirst Hall]. cbn [cfor]. apply wp_bind, wp_steps.
    apply (wp_op E F _ (OpSkip run (wn_id node))); [by exists node|done|apply no_fuel_skip|].
    intros u Hu Hsteps. destruct (skip_node E run (wn_id node) c) as [c' r] eqn:Hskip.
    cbn [run_op] in *. unfold ignore in *. rewrite Hskip in *. simpl in *. subst r.
    apply skip_node_ok in Hskip as [Htouch Hsnap]. specialize (Hsnap u s eq_refl Hs).
    eapply wp_mono; [apply IH; [done|by eapply steps_inv|done|]|].
    + apply Forall_forall. intros node' Hin'. rewrite Forall_forall in Hall.
      eapply (still_in_run c c' run node' (wn_id node)); [by right|done|done|done| |by apply Hall].
      intros He. apply Hnode. rewrite <-He. apply list_elem_of_fmap. eauto.
    + intros _ c'' (s'' & Hs'' & Hcount). exists s''. split; [done|]. simpl.
      destruct Hfirst as (s0 & Hs0 & _ & Hk). rewrite Hs in Hs0. injection Hs0 as <-.
      destruct (wr_nodes s !! wn_id node) as [a|] eqn:Ha;
        [|unfold node_skippable, is_pending in Hk; by rewrite Ha in Hk].
      pose proof (pending_skipped s _ _ Ha (skippable_pending _ _ _ Hk Ha)). lia.
Qed.

Lemma run_definition_wp {B} F run m (k : WorkflowRunSnapshot * WorkflowDefinition → M O B) Q c :
  (∀ s d, run_snapshot c run = Some s → ct_definitions c !! wr_workflow_id s = Some d →
     wp E F (k (s, d)) Q c) →
  wp E F (cbind (run_definition run m) k) Q c.
Proof.
  intros H. apply wp_bind. apply wp_pure; [|apply no_fuel_run_definition|].
  - unfold run_definition, cbind, gets, some_or, of_result, ok_or. simpl.
    destruct (run_snapshot c run) as [s|]; [|done]. simpl. by destruct (definition c _).
  - intros [s d] Hr. destruct (run_definition run m c) as [c' r] eqn:Hd. simpl in Hr. subst r.
    unfold run_definition in Hd. cstep Hd. cok H0. cstep Hd. cok H0. cstep Hd. cok H1. cstep Hd. cok H1. cdone Hd.
    by apply H.
Qed.

Lemma filter_defined (P : WorkflowRunSnapshot → WorkflowNode → bool) (c : Controller O) run s d :
  run_snapshot c run = Some s → ct_definitions c !! wr_workflow_id s = Some d →
  Forall (λ node, in_run c run node P) (List.filter (P s) (wd_nodes d)).
Proof.
  intros Hs Hd. apply Forall_forall. intros node Hin%list_elem_of_In.
  apply filter_In in Hin as [Hin%list_elem_of_In HP]. exists s. split; [done|]. split; [by exists d|done].
Qed.

Lemma filter_ids_NoDup (P : WorkflowNode → bool) (l : list WorkflowNode) :
  NoDup (wn_id <$> l) → NoDup (wn_id <$> List.filter P l).
Proof.
  induction l as [|x l IH]; [done|]. rewrite fmap_cons, NoDup_cons. intros [Hx Hl]. simpl.
  destruct (P x); [|by apply IH]. rewrite fmap_cons, NoDup_cons. split; [|by apply IH].
  intros (y & Hy & Hin)%list_elem_of_fmap. apply Hx, list_elem_of_fmap. exists y. split; [done|].
  apply list_elem_of_In, filter_In in Hin as [Hin _]. by apply list_elem_of_In.
Qed.

(** No node of the Run is left to skip. *)
Definition none_skippable (c : Controller O) (run : RunId) : Prop :=
  ∀ s d, run_snapshot c run = Some s → ct_definitions c !! wr_workflow_id s = Some d →
    List.filter (node_skippable s) (wd_nodes d) = [].

Lemma skip_rounds_wp F fuel run c :
  controller_inv E c → (F ∨ ∀ s, run_snapshot c run = Some s → pending_nodes s < fuel) → 0 < fuel →
  wp E F (skip_rounds E fuel run) 
    (λ _ c', is_Some (run_snapshot c run) ∧ none_skippable c' run) c.
Proof.
  revert c. induction fuel as [|fuel IH]; intros c Hinv Hfuel Hpos; [lia|]. cbn [skip_rounds].
  apply run_definition_wp. intros s d Hs Hd.
  assert (definition_ok d) as Hdok by (eapply rg_valid; [apply Hinv|done]).
  destruct (List.filter (node_skippable s) (wd_nodes d)) as [|node nodes] eqn:Hl.
  { apply wp_ret. split; [by eexists|]. intros s' d' Hs' Hd'. congruence. }
  rewrite fmap_cons. cbv iota. rewrite <-fmap_cons, <-Hl. apply wp_bind, wp_steps.
  eapply wp_mono; [eapply skip_all; [done|done| |by apply filter_defined]|].
  - by apply filter_ids_NoDup, do_distinct.
  - intros _ c' (s' & Hs' & Hcount) Hsteps. rewrite Hl in Hcount. simpl in Hcount.
    destruct (decide (fuel = 0)) as [->|Hz].
    + intros c'' r [= <- <-]. split_and!; [done| |done]. intros _. destruct Hfuel as [?|Hf]; [done|].
      specialize (Hf s Hs). lia.
    + eapply wp_mono; [apply IH; [by eapply steps_inv| |lia]|].
      * destruct Hfuel as [?|Hf]; [by left|right]. intros s'' Hs''. rewrite Hs' in Hs''. injection Hs'' as <-.
        specialize (Hf s Hs). lia.
      * intros u c2 [_ H]. split; [by eexists|done].
Qed.

Lemma skip_false_conditions_wp F run c :
  controller_inv E c → wp E F (skip_false_conditions E run) 
    (λ _ c', is_Some (run_snapshot c run) ∧ none_skippable c' run) c.
Proof.
  intros Hinv. apply wp_bind, wp_gets. unfold skip_fuel. apply skip_rounds_wp; [done| |].
  - right. intros s Hs. rewrite Hs. apply Nat.lt_succ_r. unfold pending_nodes.
    apply map_subseteq_size, map_filter_subseteq.
  - destruct (run_snapshot c run); lia.
Qed.
End skipping.

(** ** Cancelling *)

Lemma mutate_other {O R} (E : Env O) run (act : action R) c c' r run' :
  (∀ g p, framed (act g p)) → mutate_projection E run act c = (c', r) → run' ≠ run →
  ct_runs c' !! run' = ct_runs c !! run'.
Proof.
  intros Hf H Hne. apply mutate_cases in H; [|done].
  destruct H as [e Hn|g c1 c2 res e Hn _ _ Ha Hn'|g c1 c2 prepared v p r Hn _ _ Ha -> Hn' Hr].
  - by destruct Hn as [[_ ->]].
  - pose proof (framed_eq _ _ _ _ (Hf _ _) Ha) as []. destruct Hn as [[]], Hn' as [[]]. f_equal. congruence.
  - rewrite (fr_runs _ _ (nr_frame _ _ Hn')). simpl. by rewrite lookup_partial_alter_ne.
Qed.

Section cancelling.
Context {O : Type} (E : Env O).
Hypothesis order : hash_order_law E.

Definition running_set (c : Controller O) : gset RunId :=
  dom (filter (λ kv, wr_status (pj_snapshot kv.2) = RRunning) (ct_runs c)).

Lemma elem_running c run :
  run ∈ running_set c ↔ ∃ s, run_snapshot c run = Some s ∧ wr_status s = RRunning.
Proof.
  unfold running_set, run_snapshot. rewrite elem_of_dom. split.
  - intros [p [Hp Hr]%map_lookup_filter_Some]. rewrite Hp. eauto.
  - intros (s & Hs & Hr). destruct (ct_runs c !! run) as [p|] eqn:Hp; [|done]. injection Hs as <-.
    exists p. by apply map_lookup_filter_Some.
Qed.

Lemma cancel_run_running run reason c c' r :
  cancel_run E run reason c = (c', r) →
  running_set c' ⊆ running_set c ∧ (∀ s, r = Ok s → run ∉ running_set c').
Proof.
  intros H. pose proof H as Hsnap. apply mutate_snapshot in Hsnap; [|framed]. split.
  - intros run' Hrun'. apply elem_running. apply elem_running in Hrun' as (s' & Hs' & Hr').
    destruct (decide (run' = run)) as [->|Hne].
    + destruct Hsnap as [[Heq _]|(g & c1 & c2 & prepared & v & _ & Ha & Hp & _)];
        [rewrite Heq in Hs'; eauto|].
      rewrite Hs' in Hp. subst prepared. unfold cancel_action in Ha. cstep Ha.
      apply known_run_ok in H0 as [-> Hs0]. rewrite Hs0. exists a. split; [done|].
      destruct (is_terminal_run (wr_status a)) eqn:Ht; [|by destruct (wr_status a)].
      apply cret_inv in Ha as [_ [= Ha _]]. congruence.
    + exists s'. split; [|done]. unfold run_snapshot in *. erewrite <-mutate_other; [done| |done|done]. framed.
  - intros s ->. destruct Hsnap as [[_ [e ?]]|(g & c1 & c2 & prepared & v & _ & Ha & Hp & _)]; [done|].
    intros (s' & Hs' & Hr')%elem_running. rewrite Hs' in Hp. subst prepared. unfold cancel_action in Ha.
    cstep Ha. apply known_run_ok in H0 as [-> Hs0]. destruct (is_terminal_run (wr_status a)) eqn:Ht.
    + apply cret_inv in Ha as [_ [= Ha _]]. rewrite <-Ha in Hs0. injection Hs0 as <-. by rewrite Hr' in Ht.
    + cstep Ha. cstep Ha. apply cret_inv in Ha as [_ [= -> _]]. done.
Qed.

Definition cancel_need (c : Controller O) (run : RunId) : nat :=
  size (running_set c) + if decide (run ∈ running_set c) then 1 else 2.

Lemma cancel_need_less c c' run :
  run ∈ running_set c → running_set c' ⊆ running_set c → cancel_need c' run ≤ S (size (running_set c)).
Proof.
  intros Hin Hsub. unfold cancel_need. case_decide as Hd.
  - pose proof (subseteq_size _ _ Hsub). lia.
  - assert (running_set c' ⊂ running_set c) as Hss by set_solver. apply subset_size in Hss. lia.
Qed.

Lemma running_children_running c run child :
  controller_inv E c → child ∈ running_children E c run → child ∈ running_set c.
Proof.
  intros Hinv Hin. unfold running_children in Hin. apply list_elem_of_fmap in Hin as (p & -> & Hin).
  apply list_elem_of_In, filter_In in Hin as [Hin%list_elem_of_In Hp].
  rewrite (order _ (ct_runs c)) in Hin. apply list_elem_of_fmap in Hin as ([k p'] & -> & Hin).
  apply elem_of_map_to_list in Hin. simpl in *. destruct (ci_runs _ _ Hinv _ _ Hin) as [-> _].
  apply andb_true_iff in Hp as [_ Hr]. apply bool_decide_eq_true in Hr.
  apply elem_running. unfold run_snapshot. rewrite Hin. eauto.
Qed.

Lemma cancel_tree_wp F fuel run reason c :
  controller_inv E c → F ∨ cancel_need c run ≤ fuel →
  wp E F (cancel_tree E fuel run reason) (λ _ c', running_set c' ⊆ running_set c) c.
Proof.
  revert run c. induction fuel as [|fuel IH]; intros run c Hinv Hfuel; cbn [cancel_tree].
  { intros c' r [= <- <-]. split_and!; [done| |done]. intros _. destruct Hfuel as [?|Hf]; [done|].
    unfold cancel_need in Hf. case_decide; lia. }
  apply wp_bind, wp_steps. apply (wp_op E F _ (OpCancel run reason)); [done|done|apply no_fuel_cancel_run|].
  intros s Hs Hsteps. destruct (cancel_run E run reason c) as [c1 r] eqn:Hc.
  cbn [run_op] in *. unfold ignore in *. rewrite Hc in *. simpl in *. subst r.
  apply cancel_run_running in Hc as [Hsub Hnot]. specialize (Hnot s eq_refl).
  destruct (steps_inv E order _ _ Hsteps Hinv) as [Hinv1 _].
  apply wp_bind, wp_gets, wp_bind.
  assert (F ∨ S (size (running_set c1)) ≤ fuel) as Hfuel1.
  { destruct Hfuel as [?|Hf]; [by left|right]. unfold cancel_need in Hf. case_decide as Hd.
    - assert (running_set c1 ⊂ running_set c) as Hss by set_solver. apply subset_size in Hss. lia.
    - apply subseteq_size in Hsub. lia. }
  assert (∀ c2 l, controller_inv E c2 → running_set c2 ⊆ running_set c1 →
    (∀ x, x ∈ l → x ∈ running_set c1) →
    wp E F (cfor (λ child, cancel_tree E fuel child reason ;;! cret tt) l)
      (λ _ c', running_set c' ⊆ running_set c1) c2) as Hloop.
  { intros c2 l. revert c2. induction l as [|x l IHl]; intros c2 Hinv2 Hsub2 Hl; cbn [cfor]; [by apply wp_ret|].
    apply wp_bind, wp_bind, wp_steps. eapply wp_mono; [apply IH; [done|]|].
    - destruct Hfuel1 as [?|Hf]; [by left|right]. etrans; [|exact Hf].
      apply cancel_need_less; [apply Hl; by left|done].
    - intros u3 c3 Hsub3 Hst3. apply wp_ret. apply IHl; [by eapply steps_inv|set_solver|].
      intros y Hy. apply Hl. by right. }
  eapply wp_mono; [apply Hloop; [done|done|]|].
  - intros x. by apply running_children_running.
  - intros u3 c3 Hsub3. apply wp_ret. set_solver.
Qed.

Lemma cancel_wp F run reason c :
  controller_inv E c → wp E F (cancel E run reason) (λ _ _, True) c.
Proof.
  intros Hinv. apply wp_bind, wp_gets. destruct (run_snapshot c run) as [s|] eqn:Hs.
  - eapply wp_mono; [apply cancel_tree_wp; [done|]|done]. right. unfold cancel_need.
    assert (size (running_set c) ≤ size (ct_runs c)) as Hle.
    { unfold running_set. rewrite size_dom. apply map_subseteq_size, map_filter_subseteq. }
    case_decide as Hd; [lia|].
    assert (size (running_set c) ≠ size (ct_runs c)); [|lia]. intros Heq.
    assert (running_set c ⊂ dom (ct_runs c)) as Hss%subset_size.
    { split; [apply dom_filter_subseteq|]. intros Hall. apply Hd, Hall, elem_of_dom.
      unfold run_snapshot in Hs. destruct (ct_runs c !! run); [by eexists|done]. }
    rewrite size_dom in Hss. lia.
  - cbn [cancel_tree]. apply wp_bind.
    apply (wp_op E F _ (OpCancel run reason)); [done|done|apply no_fuel_cancel_run|]. intros s Hok.
    destruct (cancel_run E run reason c) as [c1 r] eqn:Hc. simpl in Hok. subst r.
    apply mutate_snapshot in Hc; [|framed]. rewrite Hs in Hc.
    destruct Hc as [[_ [e ?]]|(g & c2 & c3 & prepared & v & _ & Ha & _)]; [done|]. unfold cancel_action in Ha. by cstep Ha.
Qed.
End cancelling.
