(* ===== verification/WorkflowRecovery.v ===== *)
(** * Recovery of a Run

    Whatever happens to a Run between its start and a restart - every change of
    its nodes, changes of other Runs and definitions, records of other
    components, calls that fail half-way - as long as the projection knows all
    the records of the Run, another controller on the same ledger rebuilds it
    from the records: the same snapshot, with the attempts that were running
    ready to be resumed. *)
From S2P Require Import ResourceTypes Prelude Json Types TaskRegistry RuntimeLedger LedgerFacts WorkflowTypes WorkflowValidation WorkflowFacts WorkflowReferences Identity Registries LedgerInterface MessageBus CollaborationTypes CollaborationRuntime CollaborationTasks CollaborationRestore WorkflowRuns WorkflowInputs WorkflowController WorkflowRegistration WorkflowCompletion WorkflowNodes WorkflowExecution WorkflowRestore WorkflowCheckpoints WorkflowFrames WorkflowMoves WorkflowRegistry WorkflowSafety WorkflowProjection WorkflowTermination WorkflowHistory.

(** ** Sequences *)

Lemma last_seq_grows l l' run recs :
  ledger_inv l → ledger_inv l' → run_records l' run = run_records l run ++ recs → recs ≠ [] →
  (last_seq (run_records l run) < last_seq (run_records l' run))%Z.
Proof.
  intros Hl Hl' Hr Hne. destruct recs as [|x recs _] using rev_ind; [done|].
  assert (last_seq (run_records l' run) = lr_seq x) as ->.
  { rewrite Hr, app_assoc. unfold last_seq. by rewrite last_snoc. }
  pose proof (li_sorted _ Hl' run) as Hs. rewrite Hr in Hs.
  destruct (last (run_records l run)) as [y|] eqn:Hy; unfold last_seq; rewrite Hy.
  - apply last_Some_elem_of in Hy. apply StronglySorted_app in Hs as (Hs & _). apply Hs; [done|].
    apply elem_of_app. right. by apply list_elem_of_singleton.
  - destruct (li_records _ Hl' run x) as (_ & ? & _); [|lia].
    rewrite Hr, app_assoc. apply elem_of_app. right. by apply list_elem_of_singleton.
Qed.

Lemma last_seq_zero l run : ledger_inv l → last_seq (run_records l run) = 0%Z → run_records l run = [].
Proof.
  intros Hl H. unfold last_seq in H. destruct (last _) as [y|] eqn:Hy.
  - destruct (li_records _ Hl run y) as (_ & ? & _); [|lia]. by apply last_Some_elem_of.
  - by apply last_None in Hy.
Qed.

(** ** The invariant *)

Section invariant.
Context {O : Type} (E : Env O).
Hypothesis store : store_law E.
Context (run : RunId).
Notation run_inv := (run_inv (ev_sha256 E) (ev_to_vec E)).
Notation history_inv := (history_inv (ev_sha256 E) (ev_to_vec E)).

(** The records of the Run hold its history: the first [workflow_started] has
    the snapshot it started with, and what follows leads to [s]. *)
Definition recorded (d : WorkflowDefinition) (records : list LedgerRecord) (o : O)
    (s : WorkflowRunSnapshot) : Prop :=
  ∃ s0 started pre post,
    records = pre ++ started :: post ∧
    Forall (λ r, lr_record_type r ≠ "workflow_started") pre ∧
    lr_record_type started = "workflow_started" ∧ lr_payload started = started_payload d s0 ∧
    serde_ok s0 ∧ wr_workflow_id s0 = wr_workflow_id s ∧
    wr_input_digest s0 = Some (workflow_input_digest (ev_sha256 E) (ev_to_vec E) (wr_parameters s0)) ∧
    replays E o d run post s0 s.

Definition saved (c : Controller O) (s : WorkflowRunSnapshot) : Prop :=
  ∃ d, linked (ct_definitions c) d s ∧ run_inv d s ∧ history_inv d s ∧
    (unsupervised d → recorded d (run_records (ct_ledger c) run) (ct_files c) s).

Record kept (c : Controller O) : Prop := {
  kp_ledger : ledger_inv (ct_ledger c);
  kp_sequence p : ct_runs c !! run = Some p →
    (pj_durable_sequence p ≤ last_seq (run_records (ct_ledger c) run))%Z;
  kp_saved p : ct_runs c !! run = Some p →
    pj_durable_sequence p = last_seq (run_records (ct_ledger c) run) → saved c (pj_snapshot p);
}.

Lemma recorded_kept d records o o' s :
  files_kept E o o' → unsupervised d → recorded d records o s → recorded d records o' s.
Proof.
  intros Hk Hd (s0 & started & pre & post & H1 & H2 & H3 & H4 & H5 & H6 & H7 & H8).
  exists s0, started, pre, post. split_and!; try done. by eapply replays_kept.
Qed.

Lemma recorded_more d records recs o s s' :
  recorded d records o s → wr_workflow_id s' = wr_workflow_id s → replays E o d run recs s s' →
  recorded d (records ++ recs) o s'.
Proof.
  intros (s0 & started & pre & post & -> & H2 & H3 & H4 & H5 & H6 & H7 & H8) Hw Hr.
  exists s0, started, pre, (post ++ recs). split_and!; try done.
  - by rewrite <-app_assoc.
  - congruence.
  - by eapply replays_app.
Qed.

(** What leaves the Run alone keeps the invariant. *)
Lemma kept_grown c c' :
  grown E c c' → ct_runs c' !! run = ct_runs c !! run →
  (∀ p d, ct_runs c !! run = Some p → linked (ct_definitions c) d (pj_snapshot p) →
     linked (ct_definitions c') d (pj_snapshot p)) →
  kept c → kept c'.
Proof.
  intros [Hp Hf] Hr Hl [Hinv Hseq Hsaved]. pose proof (pushes_inv _ _ Hp Hinv) as Hinv'.
  destruct (pushes_prefix _ _ run Hp) as [recs Hrecs]. split; [done|..].
  - intros p Hp'. rewrite Hr in Hp'. specialize (Hseq p Hp'). destruct recs as [|x recs].
    + by rewrite Hrecs, app_nil_r.
    + pose proof (last_seq_grows _ _ _ _ Hinv Hinv' Hrecs). by etrans; [|apply Z.lt_le_incl; auto].
  - intros p Hp' Hcur. rewrite Hr in Hp'. specialize (Hseq p Hp'). destruct recs as [|x recs].
    + rewrite app_nil_r in Hrecs. rewrite Hrecs in Hcur.
      destruct (Hsaved p Hp' Hcur) as (d & Hld & Hri & Hhi & Hrec). exists d. split_and!; [by apply Hl|done|done|].
      intros Hu. rewrite Hrecs. eapply recorded_kept; [done..|]. by apply Hrec.
    + pose proof (last_seq_grows _ _ _ _ Hinv Hinv' Hrecs ltac:(done)). lia.
Qed.

Lemma kept_frame c c' : frame c c' → grown E c c' → kept c → kept c'.
Proof.
  intros [Hs Hr] Hg. apply kept_grown; [done|by rewrite Hr|]. intros p d _. by rewrite (sr_definitions _ _ Hs).
Qed.

(** A mutation of the Run. *)
Definition starts {R} (act : action R) (c1 : Controller O) : Prop :=
  ∀ g c2 prepared v owner seq,
    guards g run owner seq → act g None c1 = (c2, Ok (prepared, v)) →
    ∀ s', prepared = Some s' →
      ∃ d, history_inv d s' ∧ ct_definitions c1 !! wr_workflow_id s' = Some d ∧
        recorded d (run_records (ct_ledger c2) run) (ct_files c2) s'.

Lemma mutate_kept {R} (act : action R) c c' r :
  (∀ g p, framed (act g p)) → (∀ g p, growing E (act g p)) → action_moves E run act c →
  (∀ id d, ct_definitions c !! id = Some d → definition_ok d ∧ definition_typed d) →
  kept c → mutate_projection E run act c = (c', r) →
  (∀ p d c1, ct_runs c !! run = Some p → near c c1 → linked (ct_definitions c1) d (pj_snapshot p) →
     run_inv d (pj_snapshot p) → history_inv d (pj_snapshot p) →
     action_replays E run act d (pj_snapshot p) c1) →
  (∀ c1, ct_runs c !! run = None → near c c1 → run_records (ct_ledger c1) run = [] → starts act c1) →
  kept c'.
Proof.
  intros Hf Hg Hmoves Hdefs Hk H Hold Hnew.
  pose proof (growing_eq _ _ _ _ _ (growing_mutate E run act Hg) H) as Hgrown.
  pose proof (mutate_moves E run act c c' r Hf Hmoves H) as [Hsame Hmove]. specialize (Hmove run).
  apply mutate_cases in H; [|done].
  destruct H as [e Hn|g c1 c2 res e Hn _ _ Ha Hn'|g c1 c2 prepared v p r Hn Hgd Hcur Ha -> Hn' _].
  - by eapply kept_frame; [apply Hn|..].
  - eapply kept_frame; [|done..]. etrans; [apply Hn|]. etrans; [by eapply framed_eq|apply Hn'].
  - assert (ct_runs c' !! run = (λ s, {| pj_snapshot := s;
      pj_durable_sequence := last_seq (run_records (ct_ledger c2) run) |}) <$> prepared) as Hrun.
    { rewrite (fr_runs _ _ (nr_frame _ _ Hn')). simpl. apply lookup_partial_alter_eq. }
    assert (run_records (ct_ledger c') run = run_records (ct_ledger c2) run) as Hrecs
      by apply (near_run_records _ _ run Hn').
    assert (ct_files c' = ct_files c2) as Hfiles by apply (nr_files _ _ Hn').
    pose proof (pushes_inv _ _ (gw_ledger _ _ _ Hgrown) (kp_ledger _ Hk)) as Hli.
    split; [done|..]; intros p; rewrite Hrun; destruct prepared as [s'|]; try done; intros [= <-]; [by rewrite Hrecs|].
    intros _. simpl. rewrite Hrun in Hmove. cbn [fmap option_fmap option_map pj_snapshot] in Hmove.
    destruct (ct_runs c !! run) as [p|] eqn:Hp.
    + destruct (kp_saved _ Hk p Hp) as (d & Hl & Hri & Hhi & Hrec); [done|].
      destruct (run_moves_inv _ _ _ _ _ _ Hmove Hl Hri) as [Hl' Hri'].
      pose proof (run_moves_stable _ _ _ _ _ Hmove) as Hst.
      assert (linked (ct_definitions c1) d (pj_snapshot p)) as Hl1
        by (by rewrite (sr_definitions _ _ (fr_registry _ _ (nr_frame _ _ Hn)))).
      destruct (Hold p d c1 eq_refl Hn Hl1 Hri Hhi g c2 _ v _ _ Hgd Ha) as (s1 & recs & [= <-] & Hr & Hrep).
      destruct (Hrep Hst) as [Hhi' Hreplays]. exists d.
      split_and!; [by rewrite (sr_definitions _ _ Hsame)|done|done|]. intros Hu.
      rewrite Hrecs, Hr, (near_run_records _ _ run Hn), Hfiles.
      eapply recorded_more; [|apply Hst|by apply Hreplays].
      eapply recorded_kept; [|done|by apply Hrec]. rewrite <-Hfiles. apply Hgrown.
    + destruct (Hnew c1 eq_refl Hn) with (g := g) (c2 := c2) (prepared := Some s') (v := v)
        (owner := ct_mutation_owner_id c) (seq := last_seq (run_records (ct_ledger c) run)) (s' := s')
        as (d & Hhi & Hd & Hrec); [|done|done|done|].
      { rewrite (near_run_records _ _ run Hn). apply last_seq_zero; [apply Hk|]. symmetry. exact Hcur. }
      rewrite (sr_definitions _ _ (fr_registry _ _ (nr_frame _ _ Hn))) in Hd.
      destruct (Hdefs _ _ Hd) as [Hdok Hty].
      destruct (run_started_inv _ _ _ d run s' Hdok Hty Hd Hmove) as [Hl Hri].
      exists d. split_and!; [by rewrite (sr_definitions _ _ Hsame)|done|done|]. intros _.
      by rewrite Hrecs, Hfiles.
Qed.

(** ** Starting *)

Lemma start_starts d s0 workflow_id root tasks c1 :
  run_records (ct_ledger c1) run = [] → history_inv d s0 → serde_ok s0 →
  ct_definitions c1 !! wr_workflow_id s0 = Some d → starts (start_action E d s0 workflow_id root tasks) c1.
Proof.
  intros Hempty Hhi Hok Hd g c2 prepared v owner seq (Hg & _ & lease & Hl & Hlr & _) H s' ->.
  unfold start_action in H. cstep H.
  assert (ct_ledger c = ct_ledger c1) as Hc.
  { unfold require_running_parent in H0. destruct (wr_parent_run_id s0); [|by cok H0].
    cstep H0. cok H1. cstep H0. cok H1. by cok H0. }
  cstep H. cok H1. rewrite Hl in H1. injection H1 as <-. cstep H. injection H1 as <- <-. cstep H. cok H1.
  cstep H. apply ledger_call_ok in H1 as (l & H1 & ->). apply cret_inv in H as [-> [= -> ->]].
  exists d. split_and!; [done|done|].
  unfold admit_tasks_and_append_under_lease in H1.
  match type of H1 with admit_inner ?l0 ?a ?b ?c ?m ?t ?ad ?w = _ =>
    destruct (admit_inner_cases l0 a b c m t ad w)
      as [[e He]|(existing & admitted & extra & l1 & records & _ & _ & _ & Hx & Hmax & Hpush & He)] end;
    rewrite He in H1; [done|]. injection H1 as <- <-.
  apply push_pending_shape in Hpush as (_ & _ & Hr & _ & Hall);
    [|intros q Hq; by eapply admitted_durable|done].
  change (ct_ledger (set_ct_ledger ?l ?c)) with l. change (run_records (advance_lease ?s _ _ _) run) with (run_records s run).
  rewrite Hlr in Hr. rewrite Hr. change (ct_ledger (set_counters _ _ c)) with (ct_ledger c). rewrite Hc, Hempty. simpl.
  injection Hx as <-. apply Forall2_app_inv_l in Hall as (pre & post & Hpre & Hpost & ->).
  inversion Hpost as [|? started ? rest [_ [Ht [Hpl _]]] Hrest]; subst. inversion Hrest; subst.
  exists s0, started, pre, []. split; [done|]. split.
  2:{ split; [exact Ht|]. split; [exact Hpl|]. split; [exact Hok|]. split; [done|]. split; [apply Hhi|apply replays_nil]. }
  apply Forall2_fmap_l in Hpre. clear -Hpre. induction Hpre as [|t r l k (_ & Hr & _) _ IH]; constructor; [|done].
  by rewrite Hr.
Qed.

(** Actions that need the Run. *)
Lemma no_start {R} (act : action R) c1 :
  (∀ g c2 x, act g None c1 = (c2, Ok x) → False) → starts act c1.
Proof. intros H g c2 prepared v owner seq _ Ha. by apply H in Ha. Qed.

Lemma known_run_none (c c' : Controller O) s : known_run run None c = (c', Ok s) → False.
Proof. by intros [_ ?]%known_run_ok. Qed.

Lemma start_kept workflow_id parameters parent identity c c' r :
  value_wf parameters → definitions_keyed c →
  (∀ id d, ct_definitions c !! id = Some d → definition_ok d ∧ definition_typed d) → kept c →
  start_internal E run workflow_id parameters parent identity c = (c', r) → kept c'.
Proof.
  intros Hwf Hkey Hdok Hk H. unfold start_internal in H.
  assert (∀ A B (m : M O A) (k : A → M O B) c c' r, kept c → cbind m k c = (c', r) → framed m → growing E m →
    (∀ c1 a, m c = (c1, Ok a) → frame c c1 → kept c1 → k a c1 = (c', r) → kept c') → kept c') as Hbind.
  { intros A B m k c0 c0' r0 Hk0 H0 Hf Hg Hnext.
    apply cbind_inv in H0 as [(c1 & a & H1 & H0)|(e & H1 & ->)].
    - assert (frame c0 c1) as Hfr by by eapply framed_eq. eapply Hnext; [done|done| |done].
      eapply kept_frame; [done| |done]. by eapply growing_eq.
    - eapply kept_frame; [by eapply framed_eq|by eapply growing_eq|done]. }
  eapply Hbind; [exact Hk|exact H|apply framed_known_definition|unfold known_definition; growing|]. intros c1 d Hd Hf1 Hk1 H1.
  unfold known_definition in Hd. cstep Hd. cok H0. cok Hd. unfold definition in Hd.
  assert (wd_id d = workflow_id) as Hid by by eapply Hkey.
  eapply Hbind; [exact Hk1|exact H1|framed|growing|]. intros c2 dis _ Hf2 Hk2 H2.
  eapply Hbind; [exact Hk2|exact H2|framed|growing|]. intros c3 [] _ Hf3 Hk3 H3.
  eapply Hbind; [exact Hk3|exact H3|framed|growing|]. intros c4 [] _ Hf4 Hk4 H4.
  eapply Hbind; [exact Hk4|exact H4|framed|growing|]. intros c5 ident _ Hf5 Hk5 H5.
  eapply Hbind; [exact Hk5|exact H5|apply framed_initial_nodes|unfold initial_nodes; growing|].
  intros c6 nodes Hnodes Hf6 Hk6 H6. apply initial_nodes_ok in Hnodes as [Hdom Hnodes].
  eapply Hbind; [exact Hk6|exact H6|framed|growing|]. intros c7 root _ Hf7 Hk7 H7.
  assert (ct_definitions c7 = ct_definitions c) as Hdefs.
  { destruct Hf2 as [[]], Hf3 as [[]], Hf4 as [[]], Hf5 as [[]], Hf6 as [[]], Hf7 as [[]]. congruence. }
  cbv beta in H7. match type of H7 with context [start_action E d ?s _ _ _] => set (s0 := s) in H7 end.
  assert (run_started (ev_sha256 E) (ev_to_vec E) (ct_definitions c7) run s0) as Hs0.
  { split; [done|done| |done]. exists d. rewrite Hdefs. simpl. by rewrite Hid. }
  assert (∀ c8 r8, mutate_projection E run (start_action E d s0 workflow_id root
    ((λ node, node_task run d node Queued) <$> wd_nodes d)) c7 = (c8, r8) → kept c8) as Hmut.
  { intros c8 r8 H8. eapply mutate_kept; [..|exact H8| |]; [framed|intros; by apply growing_start|
      by apply start_moves|by rewrite Hdefs|done| |].
    - intros p d' c9 Hp Hn Hl Hri Hhi g c10 prepared v owner seq Hg Ha. unfold start_action in Ha.
      apply cbind_ok in Ha as (c11 & [] & Hpar & Ha). assert (c11 = c9) as ->.
      { unfold require_running_parent in Hpar. destruct (wr_parent_run_id s0); [|by apply cret_inv in Hpar as [-> _]].
        cstep Hpar. cok H0. cstep Hpar. cok H0. by apply require_ok in Hpar as [-> _]. }
      cstep Ha. cok H0. apply cret_inv in Ha as [-> [= -> ->]]. by apply unchanged_replays.
    - intros c9 Hp Hn Hempty. apply start_starts; [done| | |].
      + by apply started_history.
      + split; [|done]. intros id a [u ->]%Hnodes. by split.
      + rewrite (sr_definitions _ _ (fr_registry _ _ (nr_frame _ _ Hn))), Hdefs. simpl. by rewrite Hid. }
  apply cbind_inv in H7 as [(c8 & [o adm] & H8 & H')|(e & H8 & ->)]; [|by eapply Hmut].
  apply Hmut in H8. eapply kept_frame; [| |done].
  - eapply framed_eq; [|exact H']. apply framed_bind; [|framed]. destruct (so_started o); [|framed].
    apply framed_bind; intros; apply framed_for; intros; [apply framed_register_admitted|apply framed_register_missing].
  - eapply growing_eq; [|exact H']. unfold register_admitted, register_missing. growing.
Qed.

(** ** The other changes of the Run *)

(** The definitions are those the controller accepts. *)
Definition definitions_good (c : Controller O) : Prop :=
  ∀ id d, ct_definitions c !! id = Some d → definition_ok d ∧ definition_typed d.

(** A change of a Run that exists. *)
Lemma change_kept {R} (act : action R) c c' r :
  (∀ g p, framed (act g p)) → (∀ g p, growing E (act g p)) → action_moves E run act c →
  (∀ g c1 c2 x, act g None c1 = (c2, Ok x) → False) →
  (∀ d s c1, run_snapshot c run = Some s → near c c1 → linked (ct_definitions c1) d s → run_inv d s →
     history_inv d s → action_replays E run act d s c1) →
  definitions_good c → kept c → mutate_projection E run act c = (c', r) → kept c'.
Proof.
  intros Hf Hg Hm Hnone Hrep Hdefs Hk H. eapply mutate_kept; [done..| |].
  - intros p d c1 Hp Hn. apply Hrep; [|done]. unfold run_snapshot. by rewrite Hp.
  - intros c1 _ _ _. apply no_start. intros g c2 x. apply Hnone.
Qed.

Lemma fail_node_kept id attempt_id e c c' r :
  ne_failure_class e ≠ ReconciliationRequired → definitions_good c → kept c →
  fail_node E run id attempt_id e c = (c', r) → kept c'.
Proof.
  intros Hclass Hdefs Hk H. unfold fail_node in H.
  apply cbind_inv in H as [(c1 & [s d] & H1 & H)|(x & H1 & ->)].
  2:{ eapply kept_frame; [| |exact Hk]; [eapply framed_eq; [|exact H1]|eapply growing_eq; [|exact H1]];
      unfold run_definition; [framed|growing]. }
  assert (run_snapshot c run = Some s ∧ definition c (wr_workflow_id s) = Some d ∧ c1 = c) as (Hs & Hd & ->).
  { unfold run_definition in H1. cstep H1. cok H0. cstep H1. cok H0. cstep H1. cok H2. cstep H1. cok H2. by cdone H1. }
  apply cbind_inv in H as [(c1 & node & H2 & H)|(x & H2 & ->)].
  2:{ unfold some_or, of_result in H2. by injection H2 as <- _. }
  cok H2. apply find_node_elem in H2 as [Hin <-].
  eapply change_kept; [..|exact Hdefs|exact Hk|exact H]; [framed|by intros; apply growing_fail_action| | |].
  - eapply fail_moves; [done|]. by exists d.
  - intros g c2 c3 x Hx. unfold fail_action in Hx. cbv zeta in Hx. cstep Hx. cstep Hx. by apply known_run_none in H2.
  - intros d' s' c2 _ _ _ _ Hhi. by apply fail_replays.
Qed.
End invariant.

(** ** Steps that can be replayed *)

Section steps.
Context {O : Type} (E : Env O).
Hypothesis order : hash_order_law E.
Hypothesis store : store_law E.
Context (run : RunId).
Notation kept := (kept E run).

(** What a change of [run] is given: JSON that is read back as it was written;
    no change is left for later ([ReconciliationRequired]); nodes are skipped
    while the Run is running; it is not cancelled. *)
Definition op_kept (c : Controller O) (op : RunOp) : Prop :=
  match op with
  | OpStart _ _ parameters _ _ => value_wf parameters
  | OpComplete _ _ _ output => ev_from_str E (ev_to_string E output) = Ok output
  | OpFail _ _ _ e => ne_failure_class e ≠ ReconciliationRequired
  | OpSkip _ _ => ∀ s, run_snapshot c run = Some s → wr_status s = RRunning
  | OpCancel _ _ => False
  | _ => True
  end.

Inductive kept_step (c c' : Controller O) : Prop :=
  | kept_run op : op_allowed c op → (op_run op = run → op_kept c op) → c' = run_op E op c → kept_step c c'
  | kept_registry op : registry_op_typed op → c' = registry_op E op c → kept_step c c'
  | kept_outside runtime files :
      pushes (ct_ledger c) (rt_ledger runtime) → files_kept E (ct_files c) files →
      c' = set_files files (set_runtime runtime c) → kept_step c c'.

Lemma kept_step_ctl c c' : kept_step c c' → ctl_step E c c'.
Proof. intros [op ? _ ?|op ? ?|rt f _ _ ?]; [by eapply step_run|by eapply step_registry|by eapply step_outside]. Qed.

(** Changes of other Runs. *)
Lemma run_op_other op c : op_run op ≠ run → ct_runs (run_op E op c) !! run = ct_runs c !! run.
Proof.
  intros Hne.
  assert (∀ R r (act : action R) c, r ≠ run → (∀ g p, framed (act g p)) →
    ct_runs (mutate_projection E r act c).1 !! run = ct_runs c !! run) as Hmut.
  { intros R r act c1 Hr Hf. destruct (mutate_projection E r act c1) as [c' x] eqn:Hm.
    eapply mutate_other; [exact Hf|exact Hm|]. by intros ->. }
  assert (∀ A B (m : M O A) (k : A → M O B) c, framed m →
    (∀ a c1, ct_runs (k a c1).1 !! run = ct_runs c1 !! run) →
    ct_runs (cbind m k c).1 !! run = ct_runs c !! run) as Hbind.
  { intros A B m k c1 [Hm] Hk. specialize (Hm c1). unfold cbind. destruct (m c1) as [c2 [a|e]]; simpl in *;
      [rewrite Hk|]; by rewrite (fr_runs _ _ Hm). }
  assert (∀ A B (m : M O A) (k : A → M O B) c, (∀ a, framed (k a)) →
    (∀ c1, ct_runs (m c1).1 !! run = ct_runs c1 !! run) →
    ct_runs (cbind m k c).1 !! run = ct_runs c !! run) as Hbind'.
  { intros A B m k c1 Hk Hm. specialize (Hm c1). unfold cbind. destruct (m c1) as [c2 [a|e]]; simpl in *; [|done].
    destruct (Hk a) as [Hk']. by rewrite (fr_runs _ _ (Hk' c2)). }
  destruct op; unfold run_op, ignore; cbn [op_run] in Hne; try (apply Hmut; [done|framed]).
  - unfold start_internal. apply Hbind; [apply framed_known_definition|]. intros d c1.
    do 4 (apply Hbind; [framed|intros]). apply Hbind; [apply framed_initial_nodes|intros].
    apply Hbind; [framed|intros]. apply Hbind'; [|intros; apply Hmut; [done|framed]].
    intros [o adm]. apply framed_bind; [|framed]. destruct (so_started o); [|framed].
    apply framed_bind; intros; apply framed_for; intros; [apply framed_register_admitted|apply framed_register_missing].
  - unfold fail_node. apply Hbind; [unfold run_definition; framed|]. intros [s d] c1.
    apply Hbind; [framed|]. intros node c2. apply Hmut; [done|framed].
Qed.

Lemma run_op_kept op c :
  controller_inv E c → op_allowed c op → (op_run op = run → op_kept c op) → kept c → kept (run_op E op c).
Proof.
  intros Hinv Hop Hkept Hk. pose proof (rg_keyed _ (ci_registry _ _ Hinv)) as Hkey.
  assert (definitions_good c) as Hdefs.
  { intros id d Hd. split; [by eapply rg_valid; [apply Hinv|]|by eapply ci_typed]. }
  destruct (decide (op_run op = run)) as [Hr|Hr].
  2:{ eapply kept_grown; [by apply run_op_grown|by apply run_op_other| |done]. intros p d _.
      destruct (run_op_moves E op c Hkey Hop) as [Hs _]. by rewrite (sr_definitions _ _ Hs). }
  specialize (Hkept Hr).
  destruct op; cbn [op_run] in Hr; subst run_id; unfold run_op, ignore; cbn [op_kept op_allowed] in Hkept, Hop;
    [|..|done]; match goal with |- WorkflowRecovery.kept _ _ (?m c).1 => destruct (m c) as [c' r] eqn:H end.
  - by eapply start_kept.
  - eapply change_kept; [..|exact Hdefs|exact Hk|exact H]; [framed|intros; by apply growing_begin|by apply begin_moves| |].
    + intros g c1 c2 x Hx. unfold begin_action in Hx. cstep Hx. by apply known_run_none in H0.
    + intros d s c1 Hs Hn Hl Hri Hhi. apply begin_replays; [done..|].
      rewrite (sr_definitions _ _ (fr_registry _ _ (nr_frame _ _ Hn))). by destruct (in_run_snapshot _ _ _ _ _ Hop Hs).
  - eapply change_kept; [..|exact Hdefs|exact Hk|exact H]; [framed|intros; by apply growing_fail_before|by apply fail_before_moves| |].
    + intros g c1 c2 x Hx. unfold fail_before_action in Hx. cstep Hx. by apply known_run_none in H0.
    + intros d s c1 Hs Hn Hl Hri Hhi. by apply fail_before_replays.
  - eapply change_kept; [..|exact Hdefs|exact Hk|exact H]; [framed|intros; by apply growing_complete|by apply complete_moves| |].
    + intros g c1 c2 x Hx. unfold complete_action in Hx. cstep Hx. by apply known_run_none in H0.
    + intros d s c1 Hs Hn Hl Hri Hhi. by apply complete_replays.
  - by eapply fail_node_kept.
  - destruct Hop as (node & <- & Hin).
    eapply change_kept; [..|exact Hdefs|exact Hk|exact H]; [framed|intros; by apply growing_skip|by apply skip_moves| |].
    + intros g c1 c2 x Hx. unfold skip_action in Hx. cstep Hx. cstep Hx. by apply known_run_none in H1.
    + intros d s c1 Hs Hn Hl Hri Hhi. destruct (in_run_snapshot _ _ _ _ _ Hin Hs) as [Hdn Hsk].
      apply skip_replays; [done..|]. eapply linked_node; [exact Hl|by apply Hkept|].
      by rewrite (sr_definitions _ _ (fr_registry _ _ (nr_frame _ _ Hn))).
  - eapply change_kept; [..|exact Hdefs|exact Hk|exact H]; [framed|intros; by apply growing_settle|by apply settle_moves| |].
    + intros g c1 c2 x Hx. unfold settle_action in Hx. cstep Hx. by apply known_run_none in H0.
    + intros d s c1 Hs Hn Hl Hri Hhi. by apply settle_replays.
Qed.

(** The registry is not in the ledger. *)
Lemma growing_registry {A} (m : M O A) :
  (∀ c, ct_runtime (m c).1 = ct_runtime c ∧ ct_files (m c).1 = ct_files c) → growing E m.
Proof. intros H. split. intros c. destruct (H c) as [Hr Hf]. unfold ct_ledger. split; unfold ct_ledger; by rewrite ?Hr, ?Hf. Qed.

Lemma registry_op_grown op c : grown E c (registry_op E op c).
Proof.
  destruct op as [owner batch|owner id|id|id]; apply growing_at.
  - unfold register_owned_batch, preflight_register_batch, preflight_definition, of_check. growing.
    + unfold register_batch_roles. growing. apply growing_registry. intros c1. by destruct (register_roles _ _ _).
    + by apply growing_registry.
  - unfold unregister_owned. growing; by apply growing_registry.
  - unfold disable, known_definition. growing. by apply growing_registry.
  - unfold enable, known_definition. growing. by apply growing_registry.
Qed.

Lemma kept_step_kept c c' : controller_inv E c → kept_step c c' → kept c → kept c'.
Proof.
  intros Hinv [op Hop Hok ->|op Hop ->|rt files Hp Hf ->] Hk.
  - by apply run_op_kept.
  - eapply kept_grown; [by apply registry_op_grown|by rewrite registry_op_runs| |done].
    intros p d Hp Hl. by eapply registry_op_linked.
  - eapply kept_grown; [by split|done..].
Qed.

Lemma reachable_kept c0 c :
  initial_controller c0 → ledger_inv (ct_ledger c0) → rtc kept_step c0 c → controller_inv E c ∧ kept c.
Proof.
  intros H0 Hl. assert (controller_inv E c0 ∧ kept c0) as Hinit.
  { split; [by apply initial_controller_inv|]. split; [done|..]; intros p; by rewrite (ic_runs _ H0). }
  clear H0 Hl. induction 1 as [|c1 c2 c3 H _ IH]; [done|]. destruct Hinit as [Hi Hk]. apply IH. split.
  - eapply ctl_step_inv; [done|by apply kept_step_ctl|done].
  - by eapply kept_step_kept.
Qed.
End steps.

(** ** The snapshot is rebuilt *)

Section rebuilt.
Context {O : Type} (E : Env O).
Notation run_inv := (run_inv (ev_sha256 E) (ev_to_vec E)).
Notation history_inv := (history_inv (ev_sha256 E) (ev_to_vec E)).

(** Every checkpoint of the Run is valid. *)
Lemma checkpoints_hold d s :
  run_inv d s → history_inv d s → Forall (checkpoint_valid (ev_sha256 E) (ev_to_vec E) s) (wd_nodes d).
Proof.
  intros Hri Hhi. apply Forall_forall. intros node Hin a Ha. split.
  - intros Hs. by eapply hi_skipped.
  - intros Hc. pose proof (rv_nodes _ _ _ _ Hri _ _ Hin Ha) as Hni.
    destruct (ni_begun _ _ _ _ _ Hni) as (_ & [Hd _ (b & Hb & Hi)]); [by right|].
    split; [|by apply (ah_reference _ (hi_attempts _ _ _ _ Hhi _ _ Ha))].
    unfold expected_digest. unfold deps_complete in Hd. rewrite Hd, Hb. cbn [rbind]. by rewrite Hi.
Qed.

(** The summary is the one of the nodes. *)
Lemma summary_holds d s : history_inv d s → restored_summary s None = Some s.
Proof.
  intros Hhi. pose proof (hi_summary _ _ _ _ Hhi) as Hs. unfold restored_summary. cbn [default from_option].
  case_decide as Hf; [rewrite decide_False by (intros [_ H]; done)|]; rewrite <-Hs; by destruct s.
Qed.

Lemma rebuild_replayed d run l o s0 s post :
  run_inv d s → history_inv d s → replays E o d run post s0 s →
  rebuild E l o d run s0 post = RebuiltOk (resume_snapshot s) [] None.
Proof.
  intros Hri Hhi Hr. unfold rebuild. specialize (Hr l). unfold replay_of in Hr. rewrite Hr. cbn [rp_snapshot rp_settled rp_markers].
  rewrite valid_checkpoints_kept; [|apply Hhi|apply Hri|by apply checkpoints_hold].
  by erewrite summary_holds.
Qed.

(** The records after the start. *)
Lemma after_started_sorted pre r post :
  StronglySorted (λ a b, lr_seq a < lr_seq b)%Z (pre ++ r :: post) →
  after_started (lr_seq r) (pre ++ r :: post) = post.
Proof.
  unfold after_started. induction pre as [|x pre IH]; cbn [app]; intros Hs; inversion Hs as [|? ? Hs' Hall]; subst.
  - rewrite decide_True by done. destruct post as [|y post]; [done|]. rewrite Forall_cons in Hall.
    rewrite decide_False by (destruct Hall; lia). done.
  - rewrite Forall_app, Forall_cons in Hall. rewrite decide_True by (destruct Hall as (_ & ? & _); lia). by apply IH.
Qed.

Lemma find_started pre (r : LedgerRecord) post :
  Forall (λ r, lr_record_type r ≠ "workflow_started") pre → lr_record_type r = "workflow_started" →
  List.find (λ r, bool_decide (lr_record_type r = "workflow_started")) (pre ++ r :: post) = Some r.
Proof.
  intros Hpre Hr. induction Hpre as [|x pre Hx _ IH]; simpl.
  - by rewrite bool_decide_eq_true_2.
  - by rewrite bool_decide_eq_false_2.
Qed.
End rebuilt.

(** ** The snapshot is published *)

Section published.
Context {O : Type} (E : Env O).
Hypothesis clock : steady E.
Context (run : RunId) (d : WorkflowDefinition).
Hypothesis Hrun : run ≠ "".
Hypothesis Hd : definition_ok d.
Context (owner : string) (epoch : Z).
Notation guard_ok := (guard_ok run owner epoch).
Notation leased := (leased E run owner epoch).

(** The tasks of the Run that are registered are those of the definition. *)
Definition tasks_fit (c : Controller O) : Prop :=
  ∀ node t, node ∈ wd_nodes d → get_task (ct_tasks c) (workflow_task_id run (wn_id node)) = Some t →
    task_immutable_metadata_matches t (node_task run d node Queued) = true.

(** Tasks, leases and the clock moved. *)
Record restoring (c c' : Controller O) : Prop := {
  rt_frame : frame c c';
  rt_records : ls_records (ct_ledger c') = ls_records (ct_ledger c);
}.

#[export] Instance restoring_preorder : PreOrder restoring.
Proof. split; [by intros c|]. intros c1 c2 c3 [] []. split; [by etrans|congruence]. Qed.

Lemma near_restoring c c' : near c c' → restoring c c'.
Proof. intros []. by split. Qed.

Lemma restoring_last c c' :
  restoring c c' → last_seq (run_records (ct_ledger c') run) = last_seq (run_records (ct_ledger c) run).
Proof. intros [_ H]. unfold run_records. by rewrite H. Qed.

Lemma workflow_task_id_inj a b : workflow_task_id run a = workflow_task_id run b → a = b.
Proof. intros H. by do 3 apply (inj (String.append _)) in H. Qed.

Lemma tasks_fit_near c c' : near c c' → tasks_fit c → tasks_fit c'.
Proof. intros Hn. unfold tasks_fit. by rewrite (near_tasks _ _ Hn). Qed.

Lemma ends_restore_task s node k c :
  wr_run_id s = run → node ∈ wd_nodes d → tasks_fit c → leased k c →
  ends (restore_node_task d s node) c (λ _ c', tasks_fit c' ∧ leased k c' ∧ restoring c c').
Proof.
  intros Hid Hin Hfit Hl. unfold restore_node_task. cbv zeta. rewrite Hid.
  match goal with |- context [node_task run d node ?x] => generalize x; intros st end.
  apply ends_bind. unfold gets at 1, ends at 1. cbv beta. cbn [fst snd tr_task_id node_task].
  destruct (get_task _ _) as [t|] eqn:Ht.
  - apply ends_require; [exact (Hfit _ _ Hin Ht)|]. by split_and!.
  - change (ends (upsert_task ?t) ?c ?Q) with (Q tt (set_ct_tasks (upsert (ct_tasks c) t) c)). cbv beta. split_and!.
    + intros node' t' Hin' Ht'. unfold get_task, ct_tasks in Ht'. simpl in Ht'.
      apply lookup_insert_Some in Ht' as [[Heq <-]|[_ Ht']]; [|exact (Hfit _ _ Hin' Ht')].
      apply workflow_task_id_inj in Heq. replace node' with node by (by eapply same_node).
      unfold task_immutable_metadata_matches. simpl. by rewrite !bool_decide_eq_true_2.
    + destruct Hl as [? ?]. by split.
    + by split.
Qed.

Lemma ends_restore_tasks s nodes g c :
  wr_run_id s = run → nodes ⊆ wd_nodes d → guard_ok g → tasks_fit c → leased 1 c →
  ends (restore_tasks_for_snapshot E d s g nodes) c (λ g' c', guard_ok g' ∧ leased 1 c' ∧ restoring c c').
Proof.
  intros Hid. revert g c. induction nodes as [|node nodes IH]; intros g c Hsub Hg Hfit Hl; cbn [restore_tasks_for_snapshot].
  - by split_and!.
  - apply ends_bind. eapply ends_mono; [eapply ends_validate; [done..|lia]|]. intros g1 c1 (Hg1 & Hl1 & Hn & _).
    apply ends_bind. eapply ends_mono; [eapply ends_restore_task; [done| |by eapply tasks_fit_near|done]|].
    { apply Hsub. by left. }
    intros _ c2 (Hfit2 & Hl2 & Hr2). eapply ends_mono; [apply IH; try done|].
    { intros x Hx. apply Hsub. by right. }
    intros g3 c3 (Hg3 & Hl3 & Hr3). split_and!; [done|done|]. etrans; [by apply near_restoring|]. by etrans.
Qed.

Lemma ends_publish_restored s k g c lease :
  guard_ok g → leased k c → k ≤ 3 → gd_lease g = Some lease →
  wl_observed_sequence lease = last_seq (run_records (ct_ledger c) run) →
  ends (publish_restored_projection E run s g) c (λ _ c', leased 1 c' ∧
    ∃ c1, restoring c c1 ∧ c' = set_runs (<[run := {| pj_snapshot := s;
      pj_durable_sequence := last_seq (run_records (ct_ledger c) run) |}]> (ct_runs c)) c1).
Proof.
  intros Hg Hl Hk Hlease Hseq. unfold publish_restored_projection. apply ends_bind.
  eapply ends_some; [done|]. cbv zeta. rewrite Hseq. apply ends_bind. unfold gets at 1, ends at 1. cbv beta iota.
  apply ends_bind. unfold set_projection at 1, modify at 1, ends at 1. cbv beta iota.
  set (runs := partial_alter _ _ _).
  apply ends_bind, ends_attempt.
  assert (leased k (set_runs runs c)) as Hl' by (destruct Hl as [? ?]; by split).
  eapply ends_mono; [apply (ends_commit E clock run owner epoch k g (set_runs runs c)); done|].
  intros _ c' [Hl1 Hn]. split; [done|]. exists (set_runs (ct_runs c) c').
  pose proof (near_set_runs _ _ (ct_runs c) Hn) as Hn'. rewrite !set_runs_set_runs, set_runs_id in Hn'.
  split; [by apply near_restoring|]. rewrite set_runs_set_runs.
  change (<[run:=_]> (ct_runs c)) with runs. rewrite <-(set_runs_id c') at 1. f_equal.
  by rewrite (fr_runs _ _ (nr_frame _ _ Hn)).
Qed.

Lemma ends_publish_rebuilt s g c :
  wr_run_id s = run → ct_runs c !! run = None → tasks_fit c → guard_ok g → leased 2 c →
  ends (publish_rebuilt E run d s [] None g (last_seq (run_records (ct_ledger c) run))) c
    (λ b c', b = true ∧ leased 1 c' ∧ ∃ c1, restoring c c1 ∧
      c' = set_runs (<[run := {| pj_snapshot := s;
        pj_durable_sequence := last_seq (run_records (ct_ledger c) run) |}]> (ct_runs c)) c1).
Proof.
  intros Hid Hnone Hfit Hg Hl. unfold publish_rebuilt. apply ends_bind.
  eapply ends_mono; [eapply ends_commit_restore; [done..|lia]|]. intros g1 c1 (Hg1 & Hl1 & Hn1).
  apply ends_bind. eapply ends_mono; [eapply ends_validate; [done..|lia]|]. intros g2 c2 (Hg2 & Hl2 & Hn2 & _).
  assert (near c c2) as Hn by by etrans. assert (ct_runs c2 = ct_runs c) as Hruns by apply Hn.
  apply ends_bind. unfold gets at 1, ends at 1. cbv beta iota. rewrite Hruns, Hnone. cbn [fmap option_fmap option_map].
  apply ends_bind. eapply ends_mono; [eapply ends_restore_tasks; [done|done|done|by eapply tasks_fit_near|done]|].
  intros g3 c3 (Hg3 & Hl3 & Hr3). cbn [validate_markers]. apply ends_bind. unfold cret at 1, ends at 1. cbv beta iota zeta.
  apply ends_bind. eapply ends_mono; [eapply ends_validate; [done..|lia]|].
  intros g4 c4 (Hg4 & Hl4 & Hn4 & lease & Hlease & Hseq). apply ends_bind.
  assert (restoring c c4) as Hr4.
  { etrans; [by apply near_restoring|]. etrans; [done|]. by apply near_restoring. }
  eapply ends_mono; [eapply ends_publish_restored; [done|done| |done|]; [lia|]|].
  { by rewrite Hseq, (near_run_records _ _ run Hn4). }
  intros _ c5 (Hl5 & c6 & Hr6 & ->). split_and!; [done|done|]. exists c6. split; [by etrans|].
  by rewrite (restoring_last _ _ Hr4), (fr_runs _ _ (rt_frame _ _ Hr4)).
Qed.
End published.

(** ** Recovery *)

Lemma ends_restore_locked {O} (E : Env O) run d s g c owner epoch :
  steady E → run ≠ "" → wr_run_id s = run →
  run_inv (ev_sha256 E) (ev_to_vec E) d s → history_inv (ev_sha256 E) (ev_to_vec E) d s →
  StronglySorted (λ a b, lr_seq a < lr_seq b)%Z (run_records (ct_ledger c) run) →
  recorded E run d (run_records (ct_ledger c) run) (ct_files c) s →
  ct_definitions c !! wr_workflow_id s = Some d → ct_runs c !! run = None → tasks_fit run d c →
  guard_ok run owner epoch g → leased E run owner epoch 2 c →
  ends (restore_workflow_run_locked E run g) c
    (λ b c', b = true ∧ leased E run owner epoch 1 c' ∧ ∃ c1, restoring c c1 ∧
      c' = set_runs (<[run := {| pj_snapshot := resume_snapshot s;
        pj_durable_sequence := last_seq (run_records (ct_ledger c) run) |}]> (ct_runs c)) c1).
Proof.
  intros Hclock Hrun Hid Hri Hhi Hsorted (s0 & started & pre & post & Hrec & Hpre & Ht & Hp & Hok & Hw & Hi & Hrep)
    Hdef Hnone Hfit Hg Hl.
  unfold restore_workflow_run_locked. apply ends_bind. unfold gets at 1, ends at 1. cbv beta iota.
  rewrite Hrec, find_started by done. rewrite Hp.
  change (get "snapshot" (started_payload d s0)) with (Some (to_value s0)). cbv iota.
  apply ends_bind. unfold decoded. rewrite from_to_value by done. unfold of_result at 1, ends at 1. cbn [ok_or].
  unfold restore_started. apply ends_bind. unfold gets at 1, ends at 1, definition. cbv beta iota. rewrite Hw, Hdef.
  rewrite decide_False by (intros [_ H]; by apply H). cbv zeta. rewrite <-Hi.
  assert (∀ x : WorkflowRunSnapshot, {| wr_run_id := wr_run_id x; wr_workflow_id := wr_workflow_id x;
    wr_workflow_version := wr_workflow_version x; wr_workflow_definition_digest := wr_workflow_definition_digest x;
    wr_input_digest := wr_input_digest x; wr_runtime_identity := wr_runtime_identity x;
    wr_parent_run_id := wr_parent_run_id x; wr_status := wr_status x;
    wr_reconciliation_reason := wr_reconciliation_reason x; wr_failure_summary := wr_failure_summary x;
    wr_nodes := wr_nodes x; wr_parameters := wr_parameters x |} = x) as Heta by by intros [].
  rewrite <-Hw, Heta. do 2 (apply ends_bind; unfold gets at 1, ends at 1; cbv beta iota).
  rewrite <-Hrec. rewrite Hrec at 1. rewrite after_started_sorted by (by rewrite <-Hrec).
  erewrite rebuild_replayed by done. apply ends_publish_rebuilt; try done; [apply Hri|].
  unfold resume_snapshot. by case_decide.
Qed.

(** C2: a Run survives a restart.  After any sequence of changes of a Run
    whose nodes need no Supervisor - starts, attempts, completions, failures,
    retries, skips, settlement, calls that fail at any point, changes of other
    Runs and of the registry, records and files of other components; all but a
    cancellation or a failure that asks for reconciliation - if the projection
    knows all the records of the Run, then another controller that has the same
    records of the Run, the definition it was started with and the outputs, and
    can have the lease of the Run, restores it: the recovery succeeds and
    publishes exactly the snapshot of the first controller, with the attempts
    that were running waiting to be resumed, at the same sequence number; it
    changes no other Run and adds no record. *)
Theorem workflow_recovery {O} (E : Env O) (c0 c : Controller O) (run : RunId) (p : WorkflowProjection) :
  hash_order_law E → store_law E → steady E → initial_controller c0 → ledger_inv (ct_ledger c0) →
  rtc (kept_step E run) c0 c → run ≠ "" → ct_runs c !! run = Some p → projection_current c run →
  let s := pj_snapshot p in
  ∃ d, wr_workflow_definition_digest s = Some (definition_digest (ev_sha256 E) (ev_to_vec E) d) ∧
    (wr_status s = RRunning → ct_definitions c !! wr_workflow_id s = Some d) ∧
    ∀ c' fuel, unsupervised d → run_records (ct_ledger c') run = run_records (ct_ledger c) run →
      files_kept E (ct_files c) (ct_files c') → ct_definitions c' !! wr_workflow_id s = Some d →
      ct_runs c' !! run = None → tasks_fit run d c' →
      is_ok (acquire_lease (ct_ledger c') run (ct_mutation_owner_id c') (ev_clock E (ct_ticks c'))).2 = true →
      ∃ c'', restore_workflow_run E (S fuel) run c' = (c'', Ok true) ∧
        ct_runs c'' = <[run := {| pj_snapshot := resume_snapshot s;
                                  pj_durable_sequence := pj_durable_sequence p |}]> (ct_runs c') ∧
        ls_records (ct_ledger c'') = ls_records (ct_ledger c').
Proof.
  intros Horder Hstore Hclock H0 Hl0 Hr Hrun Hp Hcur s.
  destruct (reachable_kept E Horder Hstore run c0 c H0 Hl0 Hr) as [Hinv [Hli _ Hsaved]].
  unfold projection_current in Hcur. rewrite Hp in Hcur. cbn [projection_sequence] in Hcur.
  destruct (Hsaved p Hp Hcur) as (d & Hlk & Hri & Hhi & Hrec). destruct (ci_runs _ _ Hinv _ _ Hp) as [Hid _].
  exists d. split_and!; [apply Hri|exact Hlk|].
  intros c' fuel Hu Hrecs Hfiles Hdef Hnone Hfit Hacq.
  destruct (acquire_lease _ _ _ _) as [l [lease|e]] eqn:Ha in Hacq; [|done].
  assert (ends (restore_workflow_run E (S fuel) run) c' (λ b c'', b = true ∧
    ct_runs c'' = <[run := {| pj_snapshot := resume_snapshot s; pj_durable_sequence := pj_durable_sequence p |}]> (ct_runs c') ∧
    ls_records (ct_ledger c'') = ls_records (ct_ledger c'))) as He.
  2:{ unfold ends in He. destruct (restore_workflow_run E (S fuel) run c') as [c'' [b|]]; [|done].
      exists c''. destruct He as (-> & ? & ?). done. }
  unfold restore_workflow_run. apply ends_bind. eapply ends_mono; [by eapply ends_acquire|].
  intros g c1 (Hn & Hg & Hl). pose proof (near_run_records _ _ run Hn) as Hr1. apply ends_bind, ends_attempt. cbn [restore_loop].
  apply ends_bind, ends_attempt. eapply ends_mono.
  { apply (ends_restore_locked E run d s g c1 (ct_mutation_owner_id c') (wl_epoch lease) Hclock Hrun Hid Hri Hhi); [| | | | |exact Hg|exact Hl].
    - rewrite Hr1, Hrecs. apply Hli.
    - rewrite Hr1, Hrecs. eapply recorded_kept; [|exact Hu|by apply Hrec]. by rewrite (nr_files _ _ Hn).
    - by rewrite (sr_definitions _ _ (fr_registry _ _ (nr_frame _ _ Hn))).
    - by rewrite (fr_runs _ _ (nr_frame _ _ Hn)).
    - by eapply tasks_fit_near. }
  cbv beta. intros b c2 (Hb & Hl2 & c3 & Hr3 & Hc2). subst b. apply ends_bind, ends_attempt.
  eapply ends_mono; [by eapply ends_release|]. intros [] c4 Hn4. rewrite Hc2 in Hn4. split_and!; [done|..].
  - rewrite (fr_runs _ _ (nr_frame _ _ Hn4)). simpl. rewrite (fr_runs _ _ (nr_frame _ _ Hn)), Hr1, Hrecs, <-Hcur. done.
  - rewrite (nr_records _ _ Hn4). change (ls_records (ct_ledger (set_runs _ c3))) with (ls_records (ct_ledger c3)).
    rewrite (rt_records _ _ Hr3). apply (nr_records _ _ Hn).
Qed.
