(* ===== verification/WorkflowProgress.v ===== *)
(** * Executing a Run: progress

    The attempts a Run has left ([run_left]) never grow and shrink with every
    round of [execute_until_settled]; with the acyclic graph of references this
    bounds the rounds of a Run and of all its sub-Workflows.  The rounds of
    skipping and the recursion of [cancel] are in WorkflowTermination.v. *)
From S2P Require Import ResourceTypes Prelude Json Types TaskRegistry RuntimeLedger WorkflowTypes WorkflowValidation WorkflowGraph WorkflowFacts WorkflowReferences Identity Registries LedgerInterface MessageBus CollaborationTypes CollaborationRuntime CollaborationTasks CollaborationRestore WorkflowRuns WorkflowInputs WorkflowController WorkflowRegistration WorkflowCompletion WorkflowNodes WorkflowExecution WorkflowRestore WorkflowFrames WorkflowMoves WorkflowRegistry WorkflowSafety WorkflowTermination.

(** ** Attempts left *)

Definition node_left (node : WorkflowNode) (a : WorkflowNodeAttempt) : nat :=
  let left := Z.to_nat (allowed_attempts node - na_attempt_number a) in
  match na_status a with
  | NPending => 2 * left
  | NRunning => S (2 * left)
  | _ => 0
  end.

Definition node_left_in (s : WorkflowRunSnapshot) (node : WorkflowNode) : nat :=
  match wr_nodes s !! wn_id node with Some a => node_left node a | None => 0 end.

Definition run_left (d : WorkflowDefinition) (s : WorkflowRunSnapshot) : nat :=
  sum_list_with (node_left_in s) (wd_nodes d).

Definition max_left (d : WorkflowDefinition) : nat :=
  sum_list_with (λ node, S (2 * Z.to_nat (allowed_attempts node))) (wd_nodes d).

Lemma sum_list_with_le {A} (f g : A → nat) l :
  (∀ x, x ∈ l → f x ≤ g x) → sum_list_with f l ≤ sum_list_with g l.
Proof.
  induction l as [|x l IH]; intros H; [done|]. simpl.
  pose proof (H x (list_elem_of_here _ _)). assert (∀ y, y ∈ l → f y ≤ g y) by (intros; apply H; by right).
  specialize (IH H1). lia.
Qed.

Lemma sum_list_with_lt {A} (f g : A → nat) l x :
  (∀ y, y ∈ l → f y ≤ g y) → x ∈ l → f x < g x → sum_list_with f l < sum_list_with g l.
Proof.
  induction l as [|y l IH]; intros H Hin Hlt; [by apply elem_of_nil in Hin|]. simpl.
  assert (∀ z, z ∈ l → f z ≤ g z) as Hl by (intros; apply H; by right).
  pose proof (H y (list_elem_of_here _ _)). apply elem_of_cons in Hin as [->|Hin].
  - pose proof (sum_list_with_le _ _ _ Hl). lia.
  - specialize (IH Hl Hin Hlt). lia.
Qed.

Section left.
Context (sha256 : string → list Byte.byte) (to_vec : Value → string).
Context (defs : gmap string WorkflowDefinition).
Notation run_move := (run_move sha256 to_vec defs).
Notation run_inv := (run_inv sha256 to_vec).

(** Every node has at most as much left, and [node] less. *)
Lemma set_node_left d s node a a' :
  definition_ok d → node ∈ wd_nodes d → wr_nodes s !! wn_id node = Some a →
  node_left node a' ≤ node_left node a →
  run_left d (set_node s (wn_id node) a') ≤ run_left d s ∧
  (node_left node a' < node_left node a → run_left d (set_node s (wn_id node) a') < run_left d s).
Proof.
  intros Hd Hin Ha Hle.
  assert (∀ x, x ∈ wd_nodes d → node_left_in (set_node s (wn_id node) a') x ≤ node_left_in s x) as Hall.
  { intros x Hx. unfold node_left_in. simpl. destruct (decide (wn_id node = wn_id x)) as [He|He].
    - assert (x = node) as -> by (symmetry; by eapply same_node). by rewrite lookup_insert_eq, Ha.
    - by rewrite lookup_insert_ne. }
  split; [by apply sum_list_with_le|]. intros Hlt. eapply sum_list_with_lt; [done|done|].
  unfold node_left_in. simpl. by rewrite lookup_insert_eq, Ha.
Qed.

Lemma next_number_inv d s node a :
  run_inv d s → node ∈ wd_nodes d → wr_nodes s !! wn_id node = Some a → na_status a = NPending →
  next_number a = (na_attempt_number a + 1)%Z ∧ (na_attempt_number a < allowed_attempts node)%Z.
Proof.
  intros Hi Hin Ha Hp. destruct (rv_nodes _ _ _ _ Hi _ _ Hin Ha) as [_ H2 H3 H4 _ _ _]. specialize (H4 Hp).
  pose proof (allowed_u32 _ _ (rv_typed _ _ _ _ Hi) Hin). split; [|done].
  unfold next_number. rewrite H3. apply Z.mod_small. lia.
Qed.

Lemma begin_left d s node a aid digest :
  run_inv d s → node ∈ wd_nodes d → wr_nodes s !! wn_id node = Some a → na_status a = NPending →
  run_left d (set_node s (wn_id node) (running_attempt a aid (next_number a) digest)) < run_left d s.
Proof.
  intros Hi Hin Ha Hp. destruct (next_number_inv _ _ _ _ Hi Hin Ha Hp) as [Hn Hlt].
  assert (node_left node (running_attempt a aid (next_number a) digest) < node_left node a).
  { unfold node_left. simpl. rewrite Hn, Hp. lia. }
  eapply set_node_left; [apply Hi|done|done|lia|done].
Qed.

Lemma fail_before_left d s node a e :
  run_inv d s → node ∈ wd_nodes d → wr_nodes s !! wn_id node = Some a → na_status a = NPending →
  run_left d (set_node s (wn_id node) (failed_before a e)) < run_left d s.
Proof.
  intros Hi Hin Ha Hp. destruct (next_number_inv _ _ _ _ Hi Hin Ha Hp) as [Hn Hlt].
  assert (node_left node (failed_before a e) < node_left node a).
  { unfold node_left. simpl. rewrite Hp. lia. }
  eapply set_node_left; [apply Hi|done|done|lia|done].
Qed.

Lemma run_move_left d s s' : linked defs d s → run_inv d s → run_move s s' → run_left d s' ≤ run_left d s.
Proof.
  intros Hl Hi Hm. pose proof (rv_valid _ _ _ _ Hi) as Hd.
  destruct Hm as [node a aid bound Hrun Hdef Hr Ha Hb|node a e Hrun Hdef Hr Ha|
    node a out ref n Hrun Hdef Ha Hr|node a e def Hrun Hdef Ha Hr|node a Hdef Hk Ha|id a Ha|Hnr|reason Hrun].
  - apply Nat.lt_le_incl, begin_left; [done|by eapply linked_node|done|by eapply ready_pending].
  - apply Nat.lt_le_incl, fail_before_left; [done|by eapply linked_node|done|by eapply ready_pending].
  - eapply set_node_left; [done|by eapply linked_node|done|]. unfold node_left. simpl. lia.
  - eapply set_node_left; [done|by eapply linked_node|done|]. unfold node_left, retry_status. rewrite Hr.
    simpl. case_decide; lia.
  - destruct (known_node_of _ _ _ _ _ _ Hi Ha) as (node' & Hin & Hid). rewrite <-Hid in Ha |- *.
    eapply set_node_left; [done..|]. unfold node_left. simpl. lia.
  - destruct (known_node_of _ _ _ _ _ _ Hi Ha) as (node' & Hin & Hid). rewrite <-Hid in Ha |- *.
    by eapply set_node_left.
  - done.
  - apply sum_list_with_le. intros node _. unfold node_left_in. simpl. rewrite lookup_fmap.
    destruct (wr_nodes s !! wn_id node) as [a|]; [|done]. simpl. unfold cancelled_attempt.
    case_decide; [|done]. unfold node_left. simpl. lia.
Qed.

Lemma run_moves_left d s s' :
  rtc run_move s s' → linked defs d s → run_inv d s → run_left d s' ≤ run_left d s.
Proof.
  induction 1 as [|s1 s2 s3 H _ IH]; [done|]. intros Hl Hi. etrans; [|by eapply run_move_left].
  apply IH; [by eapply linked_move|by eapply run_move_inv].
Qed.

Lemma run_left_max d s : run_inv d s → run_left d s ≤ max_left d.
Proof.
  intros Hi. apply sum_list_with_le. intros node Hin. unfold node_left_in.
  destruct (wr_nodes s !! wn_id node) as [a|] eqn:Ha; [|lia].
  destruct (rv_nodes _ _ _ _ Hi _ _ Hin Ha) as [_ H2 _ _ _ _ _].
  unfold node_left. destruct (na_status a); lia.
Qed.
End left.

(** ** Fuel for a graph of definitions *)

Section fuel.
Context (defs : gmap string WorkflowDefinition).

(** [n] is enough for a Run of the definition [id] and for its sub-Workflows. *)
Inductive fuel_for : string → nat → Prop :=
  | fuel_for_intro id n :
      (∀ d, defs !! id = Some d →
         max_left d < n ∧
         ∀ ref, ref ∈ references_of d → ∃ m, fuel_for ref m ∧ max_left d + m < n) →
      fuel_for id n.

Lemma fuel_for_le id n n' : fuel_for id n → n ≤ n' → fuel_for id n'.
Proof.
  intros [id' n0 H] Hle. constructor. intros d Hd. destruct (H d Hd) as [H1 H2]. split; [lia|].
  intros ref Hr. destruct (H2 ref Hr) as (m & Hm & ?). exists m. split; [done|lia].
Qed.

Lemma fuel_for_list (l : list string) :
  (∀ id, id ∈ l → ∃ n, fuel_for id n) → ∃ n, ∀ id, id ∈ l → fuel_for id n.
Proof.
  induction l as [|id l IH]; intros H; [exists 0; by intros ? ?%elem_of_nil|].
  destruct (H id) as [n1 H1]; [by left|]. destruct IH as [n2 H2]; [intros; apply H; by right|].
  exists (n1 + n2). intros x [->|Hx]%elem_of_cons; eapply fuel_for_le; eauto; lia.
Qed.

Lemma refers_iff a b :
  refers (references_of <$> defs) a b ↔ ∃ d, defs !! a = Some d ∧ b ∈ references_of d.
Proof.
  unfold refers, ReferenceGraph. setoid_rewrite (lookup_fmap (M := gmap string)).
  destruct (defs !! a); simpl; naive_solver.
Qed.

Lemma fuel_exists id : acyclic_references (references_of <$> defs) → ∃ n, fuel_for id n.
Proof.
  intros Hac. assert (sn (refers (references_of <$> defs)) id) as Hsn.
  { apply tc_finite_sn; [exact Hac|]. exists (id :: mjoin (references_of <$> (map_to_list defs).*2)).
    intros x Hx. right. clear Hac. induction Hx as [a b (d & Hd & Hb)%refers_iff|a b c _ _ IH]; [|done].
    apply list_elem_of_join. exists (references_of d). split; [done|]. apply list_elem_of_fmap. exists d.
    split; [done|]. apply list_elem_of_fmap. exists (a, d). split; [done|]. by apply elem_of_map_to_list. }
  induction Hsn as [id _ IH]. destruct (defs !! id) as [d|] eqn:Hd.
  - destruct (fuel_for_list (references_of d)) as [n Hn].
    + intros ref Hr. apply IH, refers_iff. by exists d.
    + exists (S (max_left d + n)). constructor. intros d' Hd'. rewrite Hd in Hd'. injection Hd' as <-.
      split; [lia|]. intros ref Hr. exists n. split; [by apply Hn|lia].
  - exists 0. constructor. intros d' Hd'. congruence.
Qed.

Lemma fuel_for_all : acyclic_references (references_of <$> defs) → ∃ n, ∀ id, fuel_for id n.
Proof.
  intros Hac. destruct (fuel_for_list (map_to_list defs).*1) as [n Hn].
  - intros id _. by apply fuel_exists.
  - exists n. intros id. destruct (defs !! id) as [d|] eqn:Hd.
    + apply Hn, list_elem_of_fmap. exists (id, d). split; [done|]. by apply elem_of_map_to_list.
    + constructor. intros d' Hd'. congruence.
Qed.
End fuel.

(** ** Beginning nodes *)

Section begin.
Context {O : Type} (E : Env O).
Hypothesis order : hash_order_law E.

(** The other nodes of the Run are as before. *)
Definition touches (run : RunId) (id : string) (c c' : Controller O) : Prop :=
  ∀ s s', run_snapshot c run = Some s → run_snapshot c' run = Some s' →
    ∀ i, i ≠ id → wr_nodes s' !! i = wr_nodes s !! i.

(** The attempts of a Run that is known, by its definition. *)
Definition left_in (c : Controller O) (run : RunId) (n : nat) : Prop :=
  ∀ s d, run_snapshot c run = Some s → ct_definitions c !! wr_workflow_id s = Some d →
    wr_status s = RRunning → run_left d s ≤ n.

Lemma left_in_steps c c' run n :
  controller_inv E c → steps E c c' → is_Some (run_snapshot c run) → left_in c run n → left_in c' run n.
Proof.
  intros Hinv Hsteps [s Hs] Hl s' d' Hs' Hd' Hr'.
  destruct (steps_run E order _ _ _ _ Hsteps Hinv Hs) as (s1 & Hs1 & Hm).
  rewrite Hs' in Hs1. injection Hs1 as <-. destruct (steps_inv E order _ _ Hsteps Hinv) as [_ Hdefs].
  pose proof (run_moves_stable _ _ _ _ _ Hm) as Hst. rewrite Hdefs, (st_workflow _ _ Hst) in Hd'.
  assert (wr_status s = RRunning) as Hr.
  { clear -Hm Hr'. induction Hm as [|s1 s2 s3 H _ IH]; [done|]. eapply run_move_status; eauto. }
  unfold run_snapshot in Hs. destruct (ct_runs c !! run) as [p|] eqn:Hp; [|done]. injection Hs as <-.
  destruct (ci_runs _ _ Hinv _ _ Hp) as (_ & d & Hlk & Hi). rewrite (Hlk Hr) in Hd'. injection Hd' as <-.
  etrans; [by eapply run_moves_left|]. apply Hl; [by unfold run_snapshot; rewrite Hp|by apply Hlk|done].
Qed.

Lemma in_run_inv c run node P s :
  controller_inv E c → in_run c run node P → run_snapshot c run = Some s → wr_status s = RRunning →
  ∃ d, ct_definitions c !! wr_workflow_id s = Some d ∧ node ∈ wd_nodes d ∧
    run_inv (ev_sha256 E) (ev_to_vec E) d s.
Proof.
  intros Hinv Hin Hs Hr. destruct (in_run_snapshot _ _ _ _ _ Hin Hs) as [(d & Hd & Hnode) _].
  unfold run_snapshot in Hs. destruct (ct_runs c !! run) as [p|] eqn:Hp; [|done]. injection Hs as <-.
  destruct (ci_runs _ _ Hinv _ _ Hp) as (_ & d' & Hlk & Hi). rewrite (Hlk Hr) in Hd. injection Hd as <-. eauto.
Qed.

Lemma set_node_touches run id c c' s a :
  run_snapshot c run = Some s → run_snapshot c' run = Some (set_node s id a) → touches run id c c'.
Proof.
  intros Hs Hs' s1 s2 H1 H2 i Hi. rewrite Hs in H1. rewrite Hs' in H2. injection H1 as <-. injection H2 as <-.
  simpl. by rewrite lookup_insert_ne.
Qed.

Lemma same_touches run id c c' : run_snapshot c' run = run_snapshot c run → touches run id c c'.
Proof. intros He s s' Hs Hs'. rewrite He in Hs'. congruence. Qed.

(** One attempt less. *)
Definition left_less (c c' : Controller O) (run : RunId) : Prop :=
  ∀ n, left_in c run n → ∃ m, n = S m ∧ left_in c' run m.

Lemma set_node_less run node c c' s a P :
  controller_inv E c → in_run c run node P → run_snapshot c run = Some s → wr_status s = RRunning →
  ct_definitions c' = ct_definitions c → run_snapshot c' run = Some (set_node s (wn_id node) a) →
  (∀ d, node ∈ wd_nodes d → run_inv (ev_sha256 E) (ev_to_vec E) d s →
     run_left d (set_node s (wn_id node) a) < run_left d s) →
  left_less c c' run.
Proof.
  intros Hinv Hin Hs Hr Hdefs Hs' Hlt n Hl. destruct (in_run_inv _ _ _ _ _ Hinv Hin Hs Hr) as (d & Hd & Hnode & Hi).
  specialize (Hl _ _ Hs Hd Hr). specialize (Hlt d Hnode Hi). destruct n as [|n]; [lia|].
  exists n. split; [done|]. intros s' d' H1 H2 _. rewrite Hs' in H1. injection H1 as <-.
  rewrite Hdefs in H2. simpl in H2. rewrite Hd in H2. injection H2 as <-. lia.
Qed.

Lemma op_definitions op c : controller_inv E c → op_allowed c op → ct_definitions (run_op E op c) = ct_definitions c.
Proof. intros Hinv Hop. eapply steps_inv; [done|apply rtc_once; by eapply exec_run|done]. Qed.

Lemma begin_outcome run node c c' r s :
  in_run c run node node_ready → controller_inv E c → run_snapshot c run = Some s →
  begin_attempt E run node c = (c', r) →
  touches run (wn_id node) c c' ∧
  ((run_snapshot c' run = Some s ∧ ∃ e, r = Err e) ∨
   (wr_status s = RRunning ∧ left_less c c' run ∧ (∀ ctx, r = Ok ctx → xc_node ctx = node) ∧
    ∃ s', run_snapshot c' run = Some s' ∧ wr_workflow_id s' = wr_workflow_id s ∧
      is_pending s' node = false)).
Proof.
  intros Hin Hinv Hs H. assert (ct_definitions c' = ct_definitions c) as Hdefs.
  { pose proof (op_definitions (OpBegin run node) c Hinv Hin) as Hd. simpl in Hd. unfold ignore in Hd.
    by rewrite H in Hd. }
  apply mutate_snapshot in H; [|framed]. rewrite Hs in H.
  destruct H as [[Heq He]|(g & c1 & c2 & prepared & v & Hf & Ha & Hs' & Hr)].
  { split; [apply same_touches; congruence|]. by left. }
  unfold begin_action in Ha. cstep Ha. apply known_run_ok in H as [-> [= <-]]. cstep Ha. cok H.
  apply bool_decide_eq_true in H. cstep Ha. cok H0. cstep Ha. apply known_node_ok in H1 as [-> Hn].
  cstep Ha. cok H1. apply bool_decide_eq_true in H1. cstep Ha. destruct a3 as [id k].
  apply next_attempt_ok in H2 as ->. cstep Ha. apply cret_inv in Ha as [_ [= -> ->]].
  split; [by eapply set_node_touches|]. right. split_and!; [done| | |].
  - eapply set_node_less; [done..|]. intros d Hnode Hi. by eapply begin_left.
  - intros ctx ->. destruct Hr as [[= ->]|[e ?]]; done.
  - eexists. split; [done|]. split; [done|]. unfold is_pending. simpl. by rewrite lookup_insert_eq.
Qed.

Lemma fail_before_outcome run node e c c' r s :
  in_run c run node ready_if_pending → controller_inv E c → run_snapshot c run = Some s →
  fail_before_attempt E run node e c = (c', r) →
  touches run (wn_id node) c c' ∧ ∀ u, r = Ok u → wr_status s = RRunning → is_pending s node = false ∨ left_less c c' run.
Proof.
  intros Hin Hinv Hs H. assert (ct_definitions c' = ct_definitions c) as Hdefs.
  { pose proof (op_definitions (OpFailBefore run node e) c Hinv Hin) as Hd. simpl in Hd. unfold ignore in Hd.
    by rewrite H in Hd. }
  apply mutate_snapshot in H; [|framed]. rewrite Hs in H.
  destruct H as [[Heq [e' He]]|(g & c1 & c2 & prepared & v & Hf & Ha & Hs' & Hr)].
  { split; [apply same_touches; congruence|]. intros u ->. done. }
  unfold fail_before_action in Ha. cstep Ha. apply known_run_ok in H as [-> [= <-]].
  case_decide as Hst.
  { apply cret_inv in Ha as [_ [= -> ->]]. split; [apply same_touches; congruence|done]. }
  cstep Ha. apply known_node_ok in H as [-> Hn]. case_decide as Hp.
  { apply cret_inv in Ha as [_ [= -> ->]]. split; [apply same_touches; congruence|]. intros _ _ _. left.
    unfold is_pending. rewrite Hn. by apply bool_decide_eq_false. }
  cstep Ha. cstep Ha. apply cret_inv in Ha as [_ [= -> ->]].
  split; [by eapply set_node_touches|]. intros _ _ _. right. eapply set_node_less; [done..|].
  intros d Hnode Hi. by eapply fail_before_left.
Qed.

(** ** The message of a refused beginning *)

Lemma acquire_loop_error fuel run c c' e :
  acquire_loop E fuel run c = (c', Err e) →
  e = CtWaiting ∨ ∃ t, e = CtMessage ("failed to acquire Workflow mutation lease: " +:+ t).
Proof.
  revert c. induction fuel as [|fuel IH]; intros c H; cbn [acquire_loop] in H; [injection H as _ <-; by left|].
  apply cbind_inv in H as [(c1 & at_ms & _ & H)|(e' & H & _)]; [|done].
  apply cbind_inv in H as [(c2 & owner & _ & H)|(e' & H & _)]; [|done].
  apply cbind_inv in H as [(c3 & r & _ & H)|(e' & H & _)].
  - destruct r as [lease|le]; [done|]. destruct (error_kind le); first [by eapply IH|injection H as _ <-; by eauto].
  - unfold on_ledger in H. by destruct (acquire_lease _ _ _ _).
Qed.

Lemma acquire_error run c c' e :
  acquire_workflow_mutation_guard E run c = (c', Err e) →
  e = CtWaiting ∨ ∃ t, e = CtMessage ("failed to acquire Workflow mutation lease: " +:+ t).
Proof.
  intros H. unfold acquire_workflow_mutation_guard in H.
  apply cbind_inv in H as [(c1 & lease & _ & H)|(e' & H & [= ->])].
  - by apply cbind_inv in H as [(c2 & n & _ & H)|(e' & H & _)].
  - destruct (decide _) as [_|n]; [|by destruct n].
    apply cbind_inv in H as [(c2 & n & _ & H)|(e1 & H & [= ->])]; [done|]. by eapply acquire_loop_error.
Qed.

Definition binding_text (e : CtError) : bool :=
  match e with CtMessage m => starts_with m "workflow input binding failed:" | _ => false end.

Lemma begin_error_text run node c c' e s :
  run_snapshot c run = Some s → wr_status s ≠ RRunning →
  begin_attempt E run node c = (c', Err e) → binding_text e = false.
Proof.
  intros Hs Hst H. unfold begin_attempt, mutate_projection in H.
  apply cbind_inv in H as [(c1 & g & Hg & H)|(e' & He & [= ->])];
    [|by apply acquire_error in He as [->|[t ->]]].
  apply acquire_ok in Hg as [Hn1 Hg].
  apply cbind_inv in H as [(c2 & orig & H2 & H)|(e' & H2 & _)]; [|done]. cok H2.
  apply cbind_inv in H as [(c3 & cur & H3 & H)|(e' & (? & _ & ?)%attempt_inv & _)]; [|done].
  apply attempt_inv in H3 as (r3 & H3 & [= ->]).
  apply cbind_inv in H as [(c4 & res & H4 & H)|(e' & H4 & _)];
    [|destruct r3; [apply attempt_inv in H4 as (? & _ & ?)|]; done].
  apply cbind_inv in H as [(c5 & rel & H5 & H)|(e' & (? & _ & ?)%attempt_inv & _)]; [|done].
  apply attempt_inv in H5 as (r5 & H5 & [= ->]).
  assert (∃ m, res = Err (CtMessage m) ∧ ∀ t, starts_with (m +:+ t) "workflow input binding failed:" = false ∧
    starts_with m "workflow input binding failed:" = false) as (m & -> & Hm).
  { assert (pj_snapshot <$> ct_runs c1 !! run = Some s) as Hs1.
    { unfold run_snapshot in Hs. by rewrite (fr_runs _ _ (nr_frame _ _ Hn1)). }
    destruct r3 as [[]|e3].
    - apply attempt_inv in H4 as (r4 & H4 & [= ->]). unfold publish in H4. rewrite Hs1 in H4.
      apply cbind_inv in H4 as [(c6 & [pr v] & Ha & _)|(e' & Ha & ->)]; unfold begin_action in Ha.
      + cstep Ha. apply known_run_ok in H0 as [-> [= <-]]. cstep Ha. cok H0. by apply bool_decide_eq_true in H0.
      + unfold cbind at 1, known_run, some_or, of_result in Ha. simpl in Ha.
        rewrite bool_decide_eq_false_2 in Ha by done. injection Ha as <- <-. by eexists.
    - injection H4 as <- <-. unfold require_current_projection in H3.
      destruct (gd_lease g); unfold cbind, some_or, require, of_result in H3; simpl in H3;
        [destruct (bool_decide _); [done|]|]; injection H3 as <- <-; by eexists. }
  unfold after_release in H. injection H as _ <-.
  destruct r5 as [|[t| |]]; simpl; try apply (Hm ""); apply Hm.
Qed.

Lemma left_less_steps c c1 c2 run :
  controller_inv E c1 → is_Some (run_snapshot c1 run) → left_less c c1 run → steps E c1 c2 → left_less c c2 run.
Proof.
  intros Hinv Hs Hl Hst n Hn. destruct (Hl n Hn) as (m & -> & Hm). exists m. split; [done|].
  by eapply left_in_steps.
Qed.

Lemma steps_left_less c c1 c2 run :
  controller_inv E c → is_Some (run_snapshot c run) → steps E c c1 → left_less c1 c2 run → left_less c c2 run.
Proof. intros Hinv Hs Hst Hl n Hn. apply Hl. by eapply left_in_steps. Qed.

Lemma steps_some c c' run :
  controller_inv E c → steps E c c' → is_Some (run_snapshot c run) → is_Some (run_snapshot c' run).
Proof. intros Hinv Hst [s Hs]. destruct (steps_run E order _ _ _ _ Hst Hinv Hs) as (s' & -> & _). eauto. Qed.

(** The rest of the nodes is ready after the first. *)
Lemma others_ready run node nodes c c' :
  controller_inv E c → steps E c c' → touches run (wn_id node) c c' →
  wn_id node ∉ wn_id <$> nodes →
  Forall (λ n, in_run c run n node_ready) nodes → Forall (λ n, in_run c' run n node_ready) nodes.
Proof.
  intros Hinv Hst Ht Hnode Hall. apply Forall_forall. intros n Hn. rewrite Forall_forall in Hall.
  eapply (still_in_run E order c c' run n (wn_id node)); [by left|done|done|done| |by apply Hall].
  intros He. apply Hnode. rewrite <-He. apply list_elem_of_fmap. eauto.
Qed.

Lemma begin_all_wp F run nodes c :
  controller_inv E c → is_Some (run_snapshot c run) → NoDup (wn_id <$> nodes) →
  Forall (λ node, in_run c run node node_ready) nodes →
  wp E F (begin_all E run nodes)
    (λ ctxs c', Forall (λ ctx, xc_node ctx ∈ nodes) ctxs ∧ (nodes ≠ [] → left_less c c' run)) c.
Proof.
  revert c. induction nodes as [|node nodes IH]; intros c Hinv Hsome Hnd Hall; cbn [begin_all].
  { apply wp_ret. split; [constructor|done]. }
  rewrite fmap_cons in Hnd. apply NoDup_cons in Hnd as [Hnode Hnd]. apply Forall_cons in Hall as [Hfirst Hall].
  pose proof Hsome as [s Hs].
  assert (steps E c (run_op E (OpBegin run node) c)) as Hst1
    by (apply rtc_once; by apply (exec_run E c _ (OpBegin run node))).
  cbn [run_op] in Hst1. unfold ignore in Hst1.
  assert (∀ c1 r, begin_attempt E run node c = (c1, r) → steps E c c1) as Hst by (intros c1 r H; by rewrite H in Hst1).
  apply wp_catch.
  - apply (wp_op E F _ (OpBegin run node)); [done|done|apply no_fuel_begin|]. intros ctx Hok.
    destruct (begin_attempt E run node c) as [c1 r] eqn:Hb. cbn [run_op]. unfold ignore. rewrite Hb.
    simpl in *. subst r. destruct (begin_outcome _ _ _ _ _ _ Hfirst Hinv Hs Hb) as [Ht [[_ [e ?]]|(Hr & Hl & Hx & _)]]; [done|].
    specialize (Hst _ _ eq_refl). destruct (steps_inv E order _ _ Hst Hinv) as [Hinv1 _].
    apply wp_bind, wp_steps. eapply wp_mono; [apply IH; [done|by apply (steps_some c)|done|by apply (others_ready run node nodes c)]|].
    intros ctxs c2 [Hctx _] Hst2. apply wp_ret. split.
    + constructor; [rewrite (Hx _ eq_refl); by left|]. eapply Forall_impl; [done|]. intros y Hy. by right.
    + intros _. apply (left_less_steps c c1); [done|by apply (steps_some c)|done|done].
  - intros c1 e Hb _. destruct (begin_outcome _ _ _ _ _ _ Hfirst Hinv Hs Hb) as [Ht Hout].
    specialize (Hst _ _ Hb). destruct (steps_inv E order _ _ Hst Hinv) as [Hinv1 _].
    destruct (starts_with e _) eqn:Htext.
    2:{ apply wp_pure; [done|apply no_fuel_message|done]. }
    apply wp_bind, wp_steps.
    assert (wr_status s = RRunning) as Hr.
    { destruct (decide (wr_status s = RRunning)); [done|]. eapply begin_error_text in Hb; [|done..].
      simpl in Hb. congruence. }
    assert (in_run c1 run node ready_if_pending ∧
      (left_less c c1 run ∨ run_snapshot c1 run = Some s ∧ is_pending s node = true)) as [Hfr Hless].
    { destruct (steps_inv E order _ _ Hst Hinv) as [_ Hdefs].
      destruct Hfirst as (s0 & Hs0 & (d & Hd & Hin) & Hready). rewrite Hs in Hs0. injection Hs0 as <-.
      destruct Hout as [[Hs1 _]|(_ & Hl & _ & s1 & Hs1 & Hw & Hp)].
      - split; [|right; split; [done|]].
        + exists s. split; [done|]. split; [by exists d; rewrite Hdefs|]. unfold ready_if_pending.
          rewrite Hready. apply orb_true_r.
        + unfold node_ready in Hready. by destruct (is_pending s node).
      - split; [|by left]. exists s1. split; [done|]. split; [by exists d; rewrite Hdefs, Hw|].
        unfold ready_if_pending. by rewrite Hp. }
    apply (wp_op E F _ (OpFailBefore run node e)); [done|done|apply no_fuel_fail_before|]. intros u Hok Hst2.
    destruct (fail_before_attempt E run node e c1) as [c2 r] eqn:Hfb. cbn [run_op] in *. unfold ignore in *.
    rewrite Hfb in *. simpl in *. subst r.
    destruct (steps_inv E order _ _ Hst2 Hinv1) as [Hinv2 _].
    assert (is_Some (run_snapshot c1 run)) as Hsome1 by (by apply (steps_some c)).
    pose proof Hsome1 as [s1 Hs1].
    destruct (fail_before_outcome _ _ _ _ _ _ _ Hfr Hinv1 Hs1 Hfb) as [Ht2 Hl2].
    assert (left_less c c2 run) as Hless2.
    { destruct Hless as [Hl|[Hs1' Hp]]; [by apply (left_less_steps c c1)|].
      rewrite Hs1 in Hs1'. injection Hs1' as ->.
      destruct (Hl2 u eq_refl Hr) as [Hp'|Hl]; [congruence|]. by apply (steps_left_less c c1). }
    apply wp_steps. eapply wp_mono;
      [apply IH; [done|by apply (steps_some c1)|done|]|].
    { apply (others_ready run node nodes c1); [done..|]. by apply (others_ready run node nodes c). }
    intros ctxs c3 [Hctx _] Hst3. split.
    + eapply Forall_impl; [done|]. intros y Hy. by right.
    + intros _. apply (left_less_steps c c2); [done|by apply (steps_some c1)|done|done].
Qed.
End begin.

(** ** Executing *)

Section executing.
Context {O : Type} (E : Env O) (executor : Executor O).
Hypothesis order : hash_order_law E.

(** What others do while a node is executed is allowed when they do it. *)
Fixpoint ops_allowed (c : Controller O) (ops : list RunOp) : Prop :=
  match ops with
  | [] => True
  | op :: ops => op_allowed c op ∧ ops_allowed (run_op E op c) ops
  end.

Definition executor_allowed : Prop :=
  ∀ c ctx, let x := executor c ctx in
    ops_allowed (set_files (ex_files x) (set_runtime (ex_runtime x) c)) (ex_meanwhile x).

Hypothesis allowed : executor_allowed.

Lemma ops_steps ops c : ops_allowed c ops → steps E c (fold_left (λ c op, run_op E op c) ops c).
Proof.
  revert c. induction ops as [|op ops IH]; intros c H; [done|]. destruct H as [H1 H2]. simpl.
  eapply rtc_l; [|by apply IH]. by apply (exec_run E c _ op).
Qed.

Lemma meanwhile_wp F c ctx : wp E F (meanwhile E (executor c ctx)) (λ _ _, True) c.
Proof.
  intros c' r [= <- <-]. split_and!; [|done|done].
  eapply rtc_l; [by eapply exec_outside|]. apply ops_steps, allowed.
Qed.

Lemma start_known run workflow_id parameters parent identity c c' o :
  controller_inv E c → start_internal E run workflow_id parameters parent identity c = (c', Ok o) →
  ∃ s, run_snapshot c' run = Some s ∧ wr_workflow_id s = workflow_id.
Proof.
  intros Hinv H. unfold start_internal in H.
  cstep H. unfold known_definition in H0. cstep H0. cok H1. cok H0.
  pose proof (rg_keyed _ (ci_registry _ _ Hinv) _ _ H0) as Hid.
  do 6 (apply cbind_ok in H as (? & ? & _ & H)).
  apply cbind_ok in H as (c2 & [out adm] & Hmut & H). apply cbind_ok in H as (c3 & [] & Htail & H). cok H.
  assert (run_snapshot c3 run = run_snapshot c2 run) as ->.
  { unfold run_snapshot. do 2 f_equal. eapply fr_runs, framed_eq; [|exact Htail].
    destruct (so_started out); [|framed]. apply framed_bind; [|intros _]; apply framed_for; intros;
      [apply framed_register_admitted|apply framed_register_missing]. }
  apply mutate_snapshot in Hmut; [|intros; apply framed_start].
  destruct Hmut as [[_ [e ?]]|(g & d1 & d2 & prepared & v & _ & Ha & -> & _)]; [done|].
  unfold start_action in Ha. apply cbind_ok in Ha as (? & ? & _ & Ha).
  destruct (run_snapshot _ run) as [s|].
  - apply cbind_ok in Ha as (? & s' & Hreuse & Ha). cok Hreuse. apply cret_inv in Ha as [_ [= -> _]].
    exists s. split; [done|]. unfold validate_workflow_run_reuse in Hreuse.
    apply rbind_ok in Hreuse as ([] & Hreuse & _). by apply ensure_ok, bool_decide_eq_true in Hreuse.
  - do 4 (apply cbind_ok in Ha as (? & ? & _ & Ha)). apply cret_inv in Ha as [_ [= -> _]]. by eexists.
Qed.

(** [run_child] is the call that runs the child. *)
Definition child_runs F (run_child : RunId → M O WorkflowRunSnapshot) (ref : string) (c : Controller O) : Prop :=
  ∀ c' child s, steps E c c' → run_snapshot c' child = Some s → wr_workflow_id s = ref →
    wp E F (run_child child) (λ _ _, True) c'.

Lemma cancel_child_wp F child reason c :
  controller_inv E c → wp E F (cancel_child E child reason) (λ _ _, True) c.
Proof.
  intros Hinv. apply wp_catch.
  - eapply wp_mono; [by apply cancel_wp|]. intros. by apply wp_ret.
  - intros. by apply wp_ret.
Qed.

Lemma finish_child_wp F child r c :
  controller_inv E c → wp E F (finish_child E child r) (λ _ _, True) c.
Proof.
  intros Hinv. apply wp_bind, wp_gets. destruct r, (run_snapshot c child); try (by apply wp_ret).
  case_decide; [by apply cancel_child_wp|by apply wp_ret].
Qed.

Lemma execute_child_wp F run_child child ref c s :
  child_runs F run_child ref c → run_snapshot c child = Some s → wr_workflow_id s = ref →
  wp E F (execute_child run_child child ref) (λ _ _, True) c.
Proof.
  intros Hrun Hs Hw. apply wp_catch.
  - eapply wp_mono; [by eapply Hrun|]. intros settled c' _. case_decide; [by apply wp_ret|].
    apply wp_bind, wp_gets. destruct (definition c' ref); by apply wp_ret.
  - intros c' e _ _. apply wp_bind, wp_gets. by apply wp_ret.
Qed.

Lemma execute_context_wp F run_child ctx c :
  controller_inv E c →
  (∀ ref, wn_workflow_ref (xc_node ctx) = Some ref → child_runs F run_child ref c) →
  wp E F (execute_context E executor run_child ctx) (λ _ _, True) c.
Proof.
  intros Hinv Hchild. unfold execute_context. destruct (wn_workflow_ref (xc_node ctx)) as [ref|].
  - specialize (Hchild ref eq_refl). apply wp_catch.
    2:{ intros c' e _ _. by apply wp_ret. }
    apply wp_bind, wp_steps.
    apply (wp_op E F _ (OpStart (child_run_id ctx) ref (child_parameters ctx) (Some (xc_run_id ctx)) None));
      [done|done|apply no_fuel_start|].
    intros o Ho Hst. destruct (start_internal _ _ _ _ _ _ c) as [c1 r] eqn:Hstart.
    cbn [run_op] in *. unfold ignore in *. rewrite Hstart in *. simpl in *. subst r.
    destruct (start_known _ _ _ _ _ _ _ _ Hinv Hstart) as (s & Hs & Hw).
    destruct (steps_inv E order _ _ Hst Hinv) as [Hinv1 _]. apply wp_ret.
    apply wp_bind, wp_gets. destruct (timed_out _ _) as [ms|].
    + apply wp_bind, wp_steps. eapply wp_mono; [apply meanwhile_wp|]. intros _ c2 _ Hst2.
      apply wp_bind. eapply wp_mono; [apply cancel_child_wp; by eapply steps_inv|]. intros. by apply wp_ret.
    + apply wp_bind, wp_steps. eapply wp_mono;
        [eapply execute_child_wp; [|done|done]; intros c' child s' Hst' ?; apply Hchild; by etrans|].
      intros r c2 _ Hst2. apply wp_bind. eapply wp_mono; [apply finish_child_wp; by eapply steps_inv|].
      intros. by apply wp_ret.
  - apply wp_bind, wp_gets, wp_bind. eapply wp_mono; [apply meanwhile_wp|]. intros _ c' _.
    destruct (timed_out _ _); by apply wp_ret.
Qed.

Lemma finish_node_wp F run x c : wp E F (finish_node E run x) (λ _ _, True) c.
Proof.
  unfold finish_node. destruct x.2 as [output|e]; apply wp_bind.
  - apply (wp_op E F _ (OpComplete run (wn_id (xc_node x.1)) (xc_attempt_id x.1) output));
      [done|done|apply no_fuel_complete|]. intros. by apply wp_ret.
  - apply (wp_op E F _ (OpFail run (wn_id (xc_node x.1)) (xc_attempt_id x.1) e));
      [done|done|apply no_fuel_fail|]. intros. by apply wp_ret.
Qed.

Lemma wp_for_each F {A} (f : A → M O unit) l c :
  (∀ x c, wp E F (f x) (λ _ _, True) c) → wp E F (cfor f l) (λ _ _, True) c.
Proof.
  intros Hf. revert c. induction l as [|x l IH]; intros c; cbn [cfor]; [by apply wp_ret|].
  apply wp_bind. eapply wp_mono; [apply Hf|]. intros. apply IH.
Qed.

Lemma wp_map_each F {A B} (f : A → M O B) l c0 c :
  steps E c0 c → (∀ x c, x ∈ l → steps E c0 c → wp E F (f x) (λ _ _, True) c) →
  wp E F (cmap f l) (λ _ _, True) c.
Proof.
  revert c. induction l as [|x l IH]; intros c Hc Hf; cbn [cmap]; [by apply wp_ret|].
  apply wp_bind, wp_steps. eapply wp_mono; [apply Hf; [by left|done]|]. intros y c' _ Hst.
  apply wp_bind. eapply wp_mono; [apply IH; [by etrans|]|].
  - intros. apply Hf; [by right|done].
  - intros. by apply wp_ret.
Qed.

(** ** Settling *)

Lemma steps_settled c c' :
  steps E c c' → controller_inv E c → all_settled_inv c → all_settled_inv c'.
Proof.
  induction 1 as [|c1 c2 c3 H _ IH]; [done|]. intros Hinv Hset. apply exec_ctl in H.
  apply IH; [by eapply ctl_step_inv|by eapply ctl_step_settled].
Qed.

(** Settled, or some node is executed by another call. *)
Definition returned (s : WorkflowRunSnapshot) : Prop :=
  wr_status s ≠ RRunning ∨ some_node s (λ st, bool_decide (st = NRunning)) = true.

(** Without nodes that run, are ready or can be skipped, a Run is settled. *)
Lemma nothing_left d s :
  run_inv (ev_sha256 E) (ev_to_vec E) d s → settled_inv s →
  some_node s (λ st, bool_decide (st = NRunning)) = false →
  List.filter (node_ready s) (wd_nodes d) = [] → List.filter (node_skippable s) (wd_nodes d) = [] →
  settled_status s ≠ RRunning.
Proof.
  intros Hi Hset Hrun Hready Hskip Hst. pose proof (settled_running _ Hst) as Hr.
  unfold settled_status in Hst. case_match eqn:Hfail; [done|]. case_match eqn:Hdone; [|done].
  apply some_node_true in Hdone as (id & a & Ha & Hnot). apply negb_true_iff, bool_decide_eq_false in Hnot.
  apply Hnot. clear Hnot. rewrite some_node_false in Hrun, Hfail.
  assert (∀ node, node ∈ wd_nodes d → node_ready s node = false ∧ node_skippable s node = false) as Hnone.
  { intros node Hin%list_elem_of_In. split; apply not_true_iff_false; intros H.
    - assert (In node (List.filter (node_ready s) (wd_nodes d))) as Hx by by apply filter_In. by rewrite Hready in Hx.
    - assert (In node (List.filter (node_skippable s) (wd_nodes d))) as Hx by by apply filter_In. by rewrite Hskip in Hx. }
  pose proof (rv_valid _ _ _ _ Hi) as Hd.
  assert (closed_graph (wd_nodes d)) as Hcl.
  { split; [apply Hd|]. intros n x Hn Hx. by apply (no_known _ _ _ (do_nodes _ Hd n Hn)). }
  revert a Ha. induction (acyclic_sn _ Hcl id (do_acyclic _ Hd)) as [id _ IH]. intros a Ha.
  destruct (known_node_of _ _ _ _ _ _ Hi Ha) as (node & Hin & <-).
  assert (deps_complete s node) as Hdeps.
  { apply deps_complete_iff. intros x Hx. destruct (no_known _ _ _ (do_nodes _ Hd _ Hin) x Hx) as [Hknown _].
    assert (x ∈ dom (wr_nodes s)) as [b Hb]%elem_of_dom by (rewrite (rv_dom _ _ _ _ Hi); by apply elem_of_list_to_set).
    exists b. split; [done|]. apply (IH x); [|done]. exists node. done. }
  destruct (Hnone _ Hin) as [H1 H2]. specialize (Hrun _ _ Ha). specialize (Hfail _ _ Ha).
  apply bool_decide_eq_false in Hrun, Hfail. pose proof (sv_running _ Hset Hr _ _ Ha).
  destruct (na_status a) eqn:Hs; try tauto. exfalso. unfold node_ready, node_skippable, is_pending in *.
  unfold deps_complete in Hdeps. rewrite Ha, Hs, bool_decide_eq_true_2, Hdeps in H1, H2 by done. simpl in *.
  unfold condition_true, condition_matches, is_present in *. destruct (wn_when node); simpl in *; [|done].
  by rewrite H1 in H2.
Qed.

(** [n] is enough for the Run as it is. *)
Definition enough (c : Controller O) (run : RunId) (n : nat) : Prop :=
  0 < n ∧ ∀ s d, run_snapshot c run = Some s → wr_status s = RRunning →
    ct_definitions c !! wr_workflow_id s = Some d →
    ∃ k, (∀ ref, ref ∈ references_of d → ∃ m, fuel_for (ct_definitions c) ref m ∧ m ≤ k) ∧
         run_left d s + k < n.

Lemma snapshot_inv c run s :
  controller_inv E c → run_snapshot c run = Some s → wr_status s = RRunning →
  ∃ d, ct_definitions c !! wr_workflow_id s = Some d ∧ run_inv (ev_sha256 E) (ev_to_vec E) d s.
Proof.
  intros Hinv Hs Hr. unfold run_snapshot in Hs. destruct (ct_runs c !! run) as [p|] eqn:Hp; [|done].
  injection Hs as <-. destruct (ci_runs _ _ Hinv _ _ Hp) as (_ & d & Hl & Hi). eauto.
Qed.

(** Enough for a definition is enough for each of its Runs. *)
Lemma fuel_for_enough c run s m n :
  controller_inv E c → run_snapshot c run = Some s → fuel_for (ct_definitions c) (wr_workflow_id s) m →
  m ≤ n → 0 < n → enough c run n.
Proof.
  intros Hinv Hs Hf Hle Hpos. split; [done|]. intros s' d Hs' Hr Hd. rewrite Hs in Hs'. injection Hs' as <-.
  destruct (snapshot_inv _ _ _ Hinv Hs Hr) as (d' & Hd' & Hi). rewrite Hd in Hd'. injection Hd' as <-.
  pose proof (run_left_max _ _ _ _ Hi). inversion Hf as [? ? H1]; subst. destruct (H1 d Hd) as [Hmax Href].
  exists (m - max_left d - 1). split; [|lia]. intros ref Hr'. destruct (Href ref Hr') as (m' & ? & ?).
  exists m'. split; [done|lia].
Qed.

(** What is left after a round. *)
Lemma round_left c c1 c2 run s1 n :
  controller_inv E c → steps E c c1 → run_snapshot c1 run = Some s1 → is_Some (run_snapshot c run) →
  enough c run (S n) → left_less c1 c2 run →
  ∃ d k m, ct_definitions c !! wr_workflow_id s1 = Some d ∧
    (∀ ref, ref ∈ references_of d → ∃ m, fuel_for (ct_definitions c) ref m ∧ m ≤ k) ∧
    left_in c2 run m ∧ m + k < n.
Proof.
  intros Hinv Hst Hs1 [s Hs] [_ Hen] Hless.
  destruct (steps_run E order _ _ _ _ Hst Hinv Hs) as (s' & Hs' & Hm). rewrite Hs1 in Hs'. injection Hs' as <-.
  pose proof (run_moves_stable _ _ _ _ _ Hm) as Hstab.
  assert (wr_status s1 = RRunning) as Hr1.
  { destruct (decide (wr_status s1 = RRunning)); [done|]. destruct (Hless 0) as (m & ? & _); [|done].
    intros s2 d2 Hs2. rewrite Hs1 in Hs2. injection Hs2 as <-. done. }
  assert (wr_status s = RRunning) as Hr.
  { clear -Hm Hr1. induction Hm as [|x1 x2 x3 H _ IH]; [done|]. eapply run_move_status; eauto. }
  destruct (snapshot_inv _ _ _ Hinv Hs Hr) as (d & Hd & Hi).
  destruct (Hen _ _ Hs Hr Hd) as (k & Hk & Hlt).
  assert (left_in c run (run_left d s)) as Hleft.
  { intros s2 d2 Hs2 Hd2 _. rewrite Hs in Hs2. injection Hs2 as <-. rewrite Hd in Hd2. by injection Hd2 as <-. }
  apply (left_in_steps E order c c1) in Hleft; [|done|done|by eexists].
  destruct (Hless _ Hleft) as (m & Heq & Hm2). exists d, k, m. rewrite (st_workflow _ _ Hstab).
  split_and!; [done..|lia].
Qed.

Record same_states (s s' : WorkflowRunSnapshot) : Prop := {
  ss_status : wr_status s' = wr_status s;
  ss_nodes : ∀ id, na_status <$> wr_nodes s' !! id = na_status <$> wr_nodes s !! id;
}.

Lemma recover_states g run pending c1 c2 s s' :
  recover_deferred E g run pending s c1 = (c2, Ok s') → same_states s s'.
Proof.
  revert s c1. induction pending as [|[id [aid d]] l IH]; intros s c1 H; cbn [recover_deferred] in H;
    [by cok H|].
  cstep H. cstep H. cstep H. apply known_node_ok in H2 as [-> Ha]. apply IH in H as [Hst Hn].
  case_decide; [|done]. split; [done|]. intros i. rewrite Hn. simpl.
  destruct (decide (i = id)) as [->|Hi]; [by rewrite lookup_insert_eq, Ha|by rewrite lookup_insert_ne].
Qed.

Lemma some_node_states s s' p : same_states s s' → some_node s' p = some_node s p.
Proof.
  intros [_ Hn]. apply eq_true_iff_eq. rewrite !some_node_true.
  split; intros (id & a & Ha & Hp); specialize (Hn id); rewrite Ha in Hn; simpl in Hn.
  - destruct (wr_nodes s !! id) as [b|] eqn:Hb; [|done]. injection Hn as Hn. exists id, b. by rewrite <-Hn.
  - destruct (wr_nodes s' !! id) as [b|] eqn:Hb; [|done]. injection Hn as Hn. exists id, b. by rewrite Hn.
Qed.

Lemma settled_status_states s s' : same_states s s' → settled_status s' = settled_status s.
Proof. intros H. unfold settled_status. by rewrite !(some_node_states _ _ _ H), (ss_status _ _ H). Qed.

Lemma settle_returned run c c' s s1 d1 :
  controller_inv E c → all_settled_inv c → run_snapshot c run = Some s1 →
  ct_definitions c !! wr_workflow_id s1 = Some d1 →
  List.filter (node_ready s1) (wd_nodes d1) = [] → List.filter (node_skippable s1) (wd_nodes d1) = [] →
  settle E run c = (c', Ok s) → returned s.
Proof.
  intros Hinv Hset Hs1 Hd1 Hready Hskip H. apply mutate_snapshot in H; [|framed]. rewrite Hs1 in H.
  destruct H as [[_ [e ?]]|(g & e1 & e2 & prepared & v & _ & Ha & _ & Hr)]; [done|].
  destruct Hr as [[= ->]|[e ?]]; [|done]. unfold settle_action in Ha. cstep Ha.
  apply known_run_ok in H as [-> [= <-]]. cstep Ha. apply recover_states in H as Hss.
  destruct (some_node a _) eqn:Hrun; [apply cret_inv in Ha as [_ [= _ ->]]; by right|].
  cstep Ha. apply cret_inv in Ha as [_ [= _ ->]]. left. simpl. rewrite (settled_status_states _ _ Hss).
  intros Hst. pose proof (settled_running _ Hst) as Hrunning.
  destruct (snapshot_inv _ _ _ Hinv Hs1 Hrunning) as (d & Hd & Hi). rewrite Hd1 in Hd. injection Hd as <-.
  revert Hst. apply (nothing_left d1 s1); [done| |by rewrite <-(some_node_states _ _ _ Hss)|done|done].
  unfold run_snapshot in Hs1. destruct (ct_runs c !! run) as [p|] eqn:Hp; [|done]. injection Hs1 as <-.
  by eapply Hset.
Qed.

Lemma execute_wp F fuel run c :
  controller_inv E c → all_settled_inv c → F ∨ enough c run fuel →
  wp E F (execute_until_settled E executor fuel run) (λ s _, returned s) c.
Proof.
  revert run c. induction fuel as [|fuel IH]; intros run c Hinv Hset Hfuel; cbn [execute_until_settled].
  { intros c' r [= <- <-]. split_and!; [done| |done]. intros _. destruct Hfuel as [?|[? _]]; [done|lia]. }
  apply wp_bind, wp_steps. eapply wp_mono; [by apply skip_false_conditions_wp|]. intros u1 c1 [Hsome Hskip] Hst1.
  destruct (steps_inv E order _ _ Hst1 Hinv) as [Hinv1 Hdefs1].
  apply wp_bind. unfold ready_nodes. apply run_definition_wp. intros s1 d1 Hs1 Hd1. apply wp_ret.
  assert (definition_ok d1) as Hdok by (eapply rg_valid; [apply Hinv1|done]).
  destruct (List.filter (node_ready s1) (wd_nodes d1)) as [|node nodes] eqn:Hready.
  { apply (wp_op E F _ (OpSettle run)); [done|done|apply no_fuel_settle|]. intros s Hok.
    destruct (settle E run c1) as [c' r] eqn:Hsettle. simpl in Hok. subst r.
    eapply settle_returned; [exact Hinv1|by eapply steps_settled|done|done|done|by apply Hskip|done]. }
  rewrite <-Hready. apply wp_bind, wp_steps.
  eapply wp_mono; [apply begin_all_wp; [done|done|by eexists|by apply filter_ids_NoDup, do_distinct|by apply filter_defined]|].
  intros ctxs c2 [Hctx Hless] Hst2. destruct (steps_inv E order _ _ Hst2 Hinv1) as [Hinv2 Hdefs2].
  specialize (Hless ltac:(by rewrite Hready)).
  assert (F ∨ ∃ k m, (∀ ref, ref ∈ references_of d1 → ∃ m, fuel_for (ct_definitions c) ref m ∧ m ≤ k) ∧
    left_in c2 run m ∧ m + k < fuel) as Hround.
  { destruct Hfuel as [?|Hen]; [by left|right].
    destruct (round_left c c1 c2 run s1 fuel Hinv Hst1 Hs1 Hsome Hen Hless) as (d & k & m & Hd & Hk & Hm & Hlt).
    rewrite Hdefs1, Hd in Hd1. injection Hd1 as <-. eauto. }
  apply wp_bind, wp_steps. eapply wp_mono; [eapply (wp_map_each F _ _ c2 c2); [done|]|].
  - intros ctx c3 Hin Hst3. destruct (steps_inv E order _ _ Hst3 Hinv2) as [Hinv3 Hdefs3].
    apply wp_bind. eapply wp_mono; [apply execute_context_wp; [done|]|intros; by apply wp_ret].
    intros ref Href c4 child s4 Hst4 Hs4 Hw. destruct (steps_inv E order _ _ Hst4 Hinv3) as [Hinv4 Hdefs4].
    eapply wp_mono; [apply IH; [done|eapply steps_settled; [|exact Hinv|done]; by do 3 (etrans; [done|])|]|done].
    destruct Hround as [?|(k & m & Hk & _ & Hlt)]; [by left|right].
    rewrite Forall_forall in Hctx. specialize (Hctx _ Hin).
    apply list_elem_of_In, filter_In in Hctx as [Hnode%list_elem_of_In _].
    destruct (Hk ref) as (m' & Hf & Hle); [apply list_elem_of_omap; eauto|].
    eapply (fuel_for_enough c4 child s4 m'); [done|done| |lia|lia].
    rewrite Hw, Hdefs4, Hdefs3, Hdefs2, Hdefs1. done.
  - intros results c3 _ Hst3. destruct (steps_inv E order _ _ Hst3 Hinv2) as [Hinv3 Hdefs3].
    apply wp_bind, wp_steps. eapply wp_mono; [apply wp_for_each; intros; apply finish_node_wp|].
    intros _ c4 _ Hst4. destruct (steps_inv E order _ _ Hst4 Hinv3) as [Hinv4 Hdefs4].
    apply IH; [done|eapply steps_settled; [|exact Hinv|done]; by do 3 (etrans; [done|])|].
    destruct Hround as [?|(k & m & Hk & Hm & Hlt)]; [by left|right].
    split; [lia|]. intros s4 d4 Hs4 Hr4 Hd4.
    assert (steps E c1 c4) as Hst14 by (do 2 (etrans; [done|]); done).
    destruct (steps_run E order _ _ _ _ Hst14 Hinv1 Hs1) as (s4' & Hs4' & Hm4). rewrite Hs4 in Hs4'. injection Hs4' as <-.
    pose proof (run_moves_stable _ _ _ _ _ Hm4) as Hstab.
    rewrite Hdefs4, Hdefs3, Hdefs2, (st_workflow _ _ Hstab), Hd1 in Hd4. injection Hd4 as <-.
    exists k. rewrite Hdefs4, Hdefs3, Hdefs2, Hdefs1. split; [done|].
    assert (run_left d1 s4 ≤ m); [|lia].
    apply (left_in_steps E order c2 c4) in Hm; [|done|by etrans|by apply (steps_some E order c1)].
    apply (Hm s4 d1); [done| |done]. by rewrite Hdefs4, Hdefs3, Hdefs2, (st_workflow _ _ Hstab).
Qed.
End executing.

(** The rounds the registered definitions determine are enough for every Run. *)
Lemma execution_fuel {O} (E : Env O) (c : Controller O) :
  hash_order_law E → controller_inv E c → all_settled_inv c →
  ∃ n, ∀ executor fuel run, executor_allowed E executor → n ≤ fuel →
    wp E False (execute_until_settled E executor fuel run) (λ s _, returned s) c.
Proof.
  intros Ho Hinv Hset. destruct (fuel_for_all (ct_definitions c)) as [n Hn]; [apply Hinv|].
  exists (S n). intros executor fuel run Hex Hle.
  apply execute_wp; [done..|]. right. split; [lia|]. intros s d Hs.
  eapply (fuel_for_enough E c run s n fuel); [done..|apply Hn|lia|lia|done].
Qed.

(** C4: executing a Run ends.  For every controller that is reached there is a
    number of rounds, a bound on the attempts of the registered definitions,
    that is enough for every Run and all its sub-Workflows, whatever the
    executors return, whatever time limits run out, and whatever others do to
    the Runs meanwhile; and the loops that skip nodes and that cancel the
    children of a Run end with the fuel they are given. *)
Theorem execution_ends {O} (E : Env O) (c0 c : Controller O) :
  hash_order_law E → initial_controller c0 → rtc (ctl_step E) c0 c →
  ∃ n, ∀ executor fuel run reason, executor_allowed E executor → n ≤ fuel →
    (execute_until_settled E executor fuel run c).2 ≠ Err CtFuel ∧
    (cancel E run reason c).2 ≠ Err CtFuel ∧
    (skip_false_conditions E run c).2 ≠ Err CtFuel.
Proof.
  intros Ho H0 Hr. destruct (reachable_settled E Ho _ _ H0 Hr) as [Hinv Hset].
  destruct (execution_fuel E c Ho Hinv Hset) as [n Hn]. exists n. intros executor fuel run reason Hex Hle.
  assert (∀ A (m : M O A) Q, wp E False m Q c → (m c).2 ≠ Err CtFuel) as Hwp.
  { intros A m Q H. destruct (m c) as [c' r] eqn:Hm. by destruct (H _ _ Hm) as (_ & Hf & _). }
  split_and!; eapply Hwp; [by apply Hn|by apply cancel_wp|by apply skip_false_conditions_wp].
Qed.

(** C5: executing a Run takes allowed steps only: the state it leaves, after
    any number of rounds and also when it fails, is reached from the state before by changes
    that begin only nodes that are ready at that moment, fail before dispatch
    only nodes that wait and are ready, and skip only nodes whose condition is
    false; and so does cancelling a Run with its children.  Every invariant of
    the steps thus holds during an execution. *)
Theorem execution_takes_allowed_steps {O} (E : Env O) (executor : Executor O) (c0 c : Controller O)
    (fuel : nat) (run : RunId) (reason : string) :
  hash_order_law E → initial_controller c0 → rtc (ctl_step E) c0 c → executor_allowed E executor →
  rtc (ctl_step E) c (execute_until_settled E executor fuel run c).1 ∧
  rtc (ctl_step E) c (cancel E run reason c).1.
Proof.
  intros Ho H0 Hr Hex. destruct (reachable_settled E Ho _ _ H0 Hr) as [Hinv Hset].
  assert (∀ A (m : M O A) Q, wp E True m Q c → rtc (ctl_step E) c (m c).1) as Hwp.
  { intros A m Q H. destruct (m c) as [c' r] eqn:Hm. destruct (H _ _ Hm) as (Hst & _).
    simpl. clear -Hst. induction Hst as [|c1 c2 c3 H _ IH]; [done|]. by eapply rtc_l; [apply exec_ctl|]. }
  split; eapply Hwp; [apply execute_wp; auto|by apply cancel_wp].
Qed.

(** C3: an execution leaves no node behind.  With enough rounds, whatever the
    executors return and whatever others do meanwhile, it ends with the error of
    a call that failed, or it returns a snapshot that is settled, unless a node
    of the Run is just being executed by another call; it never returns a Run
    that is running with only waiting nodes. *)
Theorem execution_settles {O} (E : Env O) (c0 c : Controller O) :
  hash_order_law E → initial_controller c0 → rtc (ctl_step E) c0 c →
  ∃ n, ∀ executor fuel run, executor_allowed E executor → n ≤ fuel →
    match (execute_until_settled E executor fuel run c).2 with
    | Ok s => wr_status s ≠ RRunning ∨ ∃ id a, wr_nodes s !! id = Some a ∧ na_status a = NRunning
    | Err e => e ≠ CtFuel
    end.
Proof.
  intros Ho H0 Hr. destruct (reachable_settled E Ho _ _ H0 Hr) as [Hinv Hset].
  destruct (execution_fuel E c Ho Hinv Hset) as [n Hn]. exists n. intros executor fuel run Hex Hle.
  specialize (Hn executor fuel run Hex Hle).
  destruct (execute_until_settled E executor fuel run c) as [c' [s|e]] eqn:H; destruct (Hn _ _ H) as (_ & Hf & Hs).
  - destruct (Hs s eq_refl) as [?|Hrun]; [by left|right].
    apply some_node_true in Hrun as (id & a & Ha & Hp). apply bool_decide_eq_true in Hp. eauto.
  - simpl. intros ->. by apply Hf.
Qed.
