(* ===== verification/WorkflowExamples.v ===== *)
(** * A Workflow on concrete inputs

    An environment whose parameters are concrete functions, a definition of
    three nodes in a chain, one with a retry and one with a condition, and the theorems about
    the Workflow controller applied to Runs of it. *)
From S2P Require Import ResourceTypes Prelude Json Types TaskRegistry RuntimeLedger LedgerFacts WorkflowTypes WorkflowValidation WorkflowGraph WorkflowFacts WorkflowReferences Identity Registries LedgerInterface MessageBus CollaborationTypes CollaborationRuntime CollaborationTasks CollaborationRestore WorkflowRuns WorkflowInputs WorkflowController WorkflowRegistration WorkflowCompletion WorkflowNodes WorkflowExecution WorkflowRestore WorkflowFrames WorkflowMoves WorkflowRegistry WorkflowSafety WorkflowInterleaving WorkflowProjection WorkflowTermination WorkflowHistory WorkflowRecovery WorkflowProgress.

(** ** The environment *)

Fixpoint show (v : Value) : string :=
  match v with
  | VNull => "n" | VBool true => "t" | VBool false => "f"
  | VNumber (PosInt n) => decimal n | VNumber _ => "x"
  | VString s => "s" +:+ s +:+ ";"
  | VArray l => "[" +:+ fold_right (λ v acc, show v +:+ "," +:+ acc) "]" l
  | VObject l =>
      "{" +:+ fold_right (λ kv acc,
        match kv with (k, v) => k +:+ ":" +:+ show v +:+ "," +:+ acc end) "}" l
  end.

(** Reads back the text of a string. *)
Definition parse (s : string) : result Value string :=
  match s with
  | String _ s => Ok (VString (String.substring 0 (String.length s - 1) s))
  | EmptyString => Err "empty"
  end.

(** A file is named by its contents. *)
Definition Files : Type := gset (string * string).

Definition demo_env : Env Files := {|
  ev_sha256 := String.list_byte_of_string; ev_to_vec := show; ev_to_string := show;
  ev_from_str := parse; ev_clock := λ n, Z.min 1000000 (Z.of_nat n); ev_uuid := λ n, decimal (Z.of_nat n);
  ev_patience := 0;
  ev_write_named := λ o run s, ({[(run, s)]} ∪ o, Ok s);
  ev_read := λ o run r, if decide ((run, r) ∈ o) then Ok r else Err "missing";
  ev_ledger_text := λ _, "ledger"; ev_task_text := λ _, "task"; ev_runtime_text := λ _, "runtime";
  ev_validation_text := λ _, "invalid"; ev_role_text := λ _, "role"; ev_decode_text := λ _, "decode";
  ev_hash_order := λ A m, map_to_list m |}.

Lemma demo_order : hash_order_law demo_env.
Proof. intros A m. reflexivity. Qed.

Lemma demo_store : store_law demo_env.
Proof.
  split; simpl.
  - intros o run text o' ref [= <- <-]. by rewrite decide_True by set_solver.
  - intros o run text r ref t. simpl. case_decide; [|done]. intros [= <-]. by rewrite decide_True by set_solver.
  - intros n. unfold is_i64, i64_min, i64_max. lia.
Qed.

Lemma demo_steady : steady demo_env.
Proof.
  intros i j Hi Hj. simpl. unfold lease_expiry, i64_saturating_add, i64_saturating,
    WORKFLOW_MUTATION_LEASE_MILLIS, DEFAULT_LEASE_SECONDS, i64_max, i64_min. lia.
Qed.

(** ** The definition *)

Definition demo_node (id : string) (deps : list string) (attempts : Z) (cond : option Value) :
    WorkflowNode := {|
  wn_id := id; wn_depends_on := deps; wn_when := cond; wn_role := None; wn_collaboration := Inherit;
  wn_model_policy := {| mp_model := None; mp_reasoning_effort := None |}; wn_capability_scope := [];
  wn_permission_ceiling := ceiling_plan; wn_retry_max_attempts := attempts; wn_timeout_ms := None;
  wn_output_bindings := []; wn_workflow_ref := None |}.

(** [publish] runs when the Run was asked to publish. *)
Definition asked_to_publish : Value :=
  VObject [("parameter_equals", VObject [("field", VString "publish"); ("value", VBool true)])].

Definition plan_node : WorkflowNode := demo_node "plan" [] 1 None.
Definition build_node : WorkflowNode := demo_node "build" ["plan"] 2 None.
Definition publish_node : WorkflowNode := demo_node "publish" ["build"] 1 (Some asked_to_publish).

Definition release : WorkflowDefinition := {|
  wd_id := "release"; wd_schema_version := 2; wd_version := "1"; wd_description := "a release";
  wd_roles := []; wd_parameters_schema := None;
  wd_nodes := [plan_node; build_node; publish_node]; wd_outputs := [] |}.

Definition demo_initial : Controller Files := {|
  ct_definitions := ∅; ct_definition_owners := ∅; ct_disabled_definitions := ∅; ct_runs := ∅;
  ct_runtime := runtime_with_ledger ledger_default; ct_with_runtime := true; ct_roles := None;
  ct_mutation_owner_id := "controller-1"; ct_max_tasks_per_run := 100; ct_quota_root_run_id := None;
  ct_files := ∅; ct_ticks := 0; ct_uuids := 0 |}.

Lemma demo_initial_ok : initial_controller demo_initial.
Proof. by split. Qed.

(** ** Steps *)

Definition demo_run : RunId := "root:release-1".

Definition ready_here (c : Controller Files) (node : WorkflowNode)
    (P : WorkflowRunSnapshot → WorkflowNode → bool) : bool :=
  match run_snapshot c demo_run with
  | Some s => bool_decide (wr_workflow_id s = "release") && P s node
  | None => false
  end.

Lemma ready_in_run c node P :
  ready_here c node P = true → ct_definitions c !! "release" = Some release →
  node ∈ wd_nodes release → in_run c demo_run node P.
Proof.
  unfold ready_here. intros H Hd Hn. destruct (run_snapshot c demo_run) as [s|] eqn:Hs; [|done].
  apply andb_true_iff in H as [Hw HP]. apply bool_decide_eq_true in Hw.
  exists s. split; [done|]. split; [|done]. exists release. by rewrite Hw.
Qed.

Definition demo_parameters : Value := VObject [("publish", VBool false)].

(** Registered, started, [plan] done and [build] begun. *)
Definition demo_registered : Controller Files :=
  registry_op demo_env (OpRegister "core" [release]) demo_initial.
Definition demo_started : Controller Files :=
  run_op demo_env (OpStart demo_run "release" demo_parameters None None) demo_registered.
Definition demo_planning : Controller Files := run_op demo_env (OpBegin demo_run plan_node) demo_started.
Definition plan_attempt : AttemptId := "attempt-3".
Definition demo_planned : Controller Files :=
  run_op demo_env (OpComplete demo_run "plan" plan_attempt (VString "planned")) demo_planning.
Definition demo_building : Controller Files := run_op demo_env (OpBegin demo_run build_node) demo_planned.

Definition node_states (c : Controller Files) : option (WorkflowRunStatus * list (string * WorkflowNodeStatus)) :=
  s ← run_snapshot c demo_run;
  Some (wr_status s, (λ kv, (kv.1, na_status kv.2)) <$> btree_iter (wr_nodes s)).

Example demo_building_states :
  node_states demo_building =
    Some (RRunning, [("build", NRunning); ("plan", NCompleted); ("publish", NPending)]).
Proof. vm_compute. reflexivity. Qed.

Lemma release_typed : Forall definition_typed [release].
Proof.
  apply Forall_cons. split; [|apply Forall_nil_2]. intros n Hn. simpl in Hn.
  repeat (apply elem_of_cons in Hn as [->|Hn]; [vm_compute; split; discriminate|]). by apply elem_of_nil in Hn.
Qed.

(** A change that needs no readiness. *)
Lemma demo_op c c' op :
  rtc (ctl_step demo_env) demo_initial c → op_allowed c op → c' = run_op demo_env op c →
  rtc (ctl_step demo_env) demo_initial c'.
Proof. intros H Hop Hc. eapply rtc_r; [exact H|]. by eapply step_run. Qed.

Lemma demo_reach_started : rtc (ctl_step demo_env) demo_initial demo_started.
Proof.
  apply (demo_op demo_registered _ (OpStart demo_run "release" demo_parameters None None));
    [|exact I|reflexivity].
  apply rtc_once, (step_registry demo_env _ _ (OpRegister "core" [release])); [|reflexivity].
  exact release_typed.
Qed.

Lemma demo_reach_planned : rtc (ctl_step demo_env) demo_initial demo_planned.
Proof.
  apply (demo_op demo_planning _ (OpComplete demo_run "plan" plan_attempt (VString "planned")));
    [|exact I|reflexivity].
  apply (demo_op demo_started _ (OpBegin demo_run plan_node)); [exact demo_reach_started| |reflexivity].
  apply ready_in_run; [vm_compute; reflexivity|vm_compute; reflexivity|by left].
Qed.

Lemma demo_reach_building : rtc (ctl_step demo_env) demo_initial demo_building.
Proof.
  apply (demo_op demo_planned _ (OpBegin demo_run build_node)); [exact demo_reach_planned| |reflexivity].
  apply ready_in_run; [vm_compute; reflexivity|vm_compute; reflexivity|by right; left].
Qed.

(** ** The theorems at this Run *)

Lemma registry_stays_closed_witness :
  registry_inv demo_building ∧ ct_definitions demo_building !! "release" = Some release.
Proof.
  split; [|vm_compute; reflexivity].
  exact (proj1 (registry_stays_closed demo_env demo_initial demo_building demo_order demo_initial_ok
                  demo_reach_building)).
Defined.

(** Two loops share the Run: the second one finds [plan] ready too and tries to
    begin it after [build] has begun. *)
Lemma demo_loops :
  ∃ f, rtc (loop_step demo_env) (demo_initial, nothing_found) (run_op demo_env (OpBegin demo_run plan_node) demo_building, f).
Proof.
  destruct (find_ready demo_env demo_started nothing_found demo_run plan_node) as (f1 & Hf1 & Hin1 & _).
  { apply ready_in_run; [vm_compute; reflexivity|vm_compute; reflexivity|by left]. }
  destruct (find_ready demo_env demo_planned f1 demo_run build_node) as (f2 & Hf2 & Hin2 & Hsub).
  { apply ready_in_run; [vm_compute; reflexivity|vm_compute; reflexivity|by right; left]. }
  exists f2. etrans; [apply ctl_steps_loop, demo_reach_started|].
  eapply rtc_l; [exact Hf1|]. eapply rtc_l; [by eapply ls_begin|].
  eapply rtc_l; [apply (ls_call demo_env _ _ (OpComplete demo_run "plan" plan_attempt (VString "planned"))); left; exact I|].
  eapply rtc_l; [exact Hf2|]. eapply rtc_l; [by eapply ls_begin|]. apply rtc_once. apply ls_begin. by apply Hsub.
Qed.

Lemma nodes_run_in_order_witness :
  ∃ (c : Controller Files) p, ct_runs c !! demo_run = Some p ∧ wr_run_id (pj_snapshot p) = demo_run ∧
    ∃ d, wr_workflow_definition_digest (pj_snapshot p) =
           Some (definition_digest (ev_sha256 demo_env) (ev_to_vec demo_env) d).
Proof.
  destruct demo_loops as [f Hf]. set (c := run_op _ _ demo_building) in Hf.
  destruct (ct_runs c !! demo_run) as [p|] eqn:Hp; [|vm_compute in Hp; discriminate Hp].
  destruct (nodes_run_in_order demo_env demo_initial c f demo_run p demo_order demo_initial_ok Hf Hp)
    as (Hid & d & Hd & _).
  exists c, p. split; [exact Hp|]. split; [exact Hid|]. exists d. exact Hd.
Defined.

Lemma attempts_bounded_witness :
  ∃ p a, ct_runs demo_building !! demo_run = Some p ∧ wr_nodes (pj_snapshot p) !! "build" = Some a ∧
    na_status a = NRunning ∧ (1 ≤ na_attempt_number a)%Z.
Proof.
  destruct (ct_runs demo_building !! demo_run) as [p|] eqn:Hp; [|vm_compute in Hp; discriminate Hp].
  assert (na_status <$> (wr_nodes (pj_snapshot p) !! "build") = Some NRunning) as Hs.
  { transitivity (ct_runs demo_building !! demo_run ≫= λ p, na_status <$> (wr_nodes (pj_snapshot p) !! "build"));
      [rewrite Hp; reflexivity|vm_compute; reflexivity]. }
  destruct (wr_nodes (pj_snapshot p) !! "build") as [a|] eqn:Ha; [|discriminate Hs]. injection Hs as Hs.
  destruct (attempts_bounded demo_env demo_initial demo_building demo_run p "build" a demo_order
              demo_initial_ok demo_reach_building Hp Ha) as (d & node & _ & _ & _ & _ & _ & Hone).
  exists p, a. split; [reflexivity|]. split; [exact Ha|]. split; [exact Hs|]. apply Hone. left. exact Hs.
Defined.

(** The step completes [build]. *)
Definition demo_built : Controller Files :=
  run_op demo_env (OpComplete demo_run "build" "attempt-4" (VString "built")) demo_building.

(** A loop finds that [publish] is to be skipped; the Run is cancelled; then the
    loop skips the node.  The task of the node refuses, the node stays cancelled,
    but the record of the skip is in the ledger, and the Run can only be restored. *)
Definition demo_stopped : Controller Files := run_op demo_env (OpCancel demo_run "stop") demo_built.
Definition demo_late : Controller Files := run_op demo_env (OpSkip demo_run "publish") demo_stopped.

Example demo_late_states :
  node_states demo_stopped = Some (RCancelled, [("build", NCompleted); ("plan", NCompleted); ("publish", NCancelled)]) ∧
  node_states demo_late = node_states demo_stopped ∧
  lr_record_type <$> last (run_records (ct_ledger demo_late) demo_run) = Some "workflow_node_skipped" ∧
  is_ok (settle demo_env demo_run demo_stopped).2 = true ∧ is_ok (settle demo_env demo_run demo_late).2 = false.
Proof. split_and!; vm_compute; reflexivity. Qed.

Lemma demo_loops_stopped :
  ∃ f, rtc (loop_step demo_env) (demo_initial, nothing_found) (demo_stopped, f) ∧
    loop_step demo_env (demo_stopped, f) (demo_late, f).
Proof.
  destruct (find_skippable demo_env demo_built nothing_found demo_run publish_node) as (f & Hf & Hin & _).
  { apply ready_in_run; [vm_compute; reflexivity|vm_compute; reflexivity|by right; right; left]. }
  exists f. split; [|by apply ls_skip]. etrans; [apply ctl_steps_loop, demo_reach_building|].
  eapply rtc_l; [apply (ls_call demo_env _ _ (OpComplete demo_run "build" "attempt-4" (VString "built"))); left; exact I|].
  eapply rtc_l; [exact Hf|]. apply rtc_once.
  apply (ls_call demo_env _ _ (OpCancel demo_run "stop")). left. exact I.
Qed.

Lemma final_states_final_witness :
  ∃ p p', ct_runs demo_stopped !! demo_run = Some p ∧ ct_runs demo_late !! demo_run = Some p' ∧
    loop_moved (pj_snapshot p) (pj_snapshot p').
Proof.
  destruct demo_loops_stopped as (f & Hf & Hstep).
  destruct (ct_runs demo_stopped !! demo_run) as [p|] eqn:Hp; [|vm_compute in Hp; discriminate Hp].
  destruct (final_states_final demo_env demo_initial demo_stopped demo_late f f demo_run p demo_order
    demo_initial_ok Hf Hstep Hp) as (p' & Hp' & Hm).
  exists p, p'. split; [reflexivity|]. split; [exact Hp'|exact Hm].
Defined.

Lemma settled_states_mean_witness :
  ∃ p, ct_runs demo_building !! demo_run = Some p ∧
    (wr_status (pj_snapshot p) = RFailed →
       ∃ id a, wr_nodes (pj_snapshot p) !! id = Some a ∧ na_status a = NFailed).
Proof.
  destruct (ct_runs demo_building !! demo_run) as [p|] eqn:Hp; [|vm_compute in Hp; discriminate Hp].
  destruct (settled_states_mean demo_env demo_initial demo_building demo_run p demo_order demo_initial_ok
              demo_reach_building Hp) as [_ Hf].
  exists p. split; [reflexivity|exact Hf].
Defined.

(** An executor that returns the name of the node. *)
Definition demo_executor : Executor Files := λ c x, {|
  ex_runtime := ct_runtime c; ex_files := ct_files c; ex_meanwhile := []; ex_late := false;
  ex_result := Ok (VString (wn_id (xc_node x))) |}.

Lemma demo_executor_allowed : executor_allowed demo_env demo_executor.
Proof. intros c ctx. exact I. Qed.

Definition demo_execution : Controller Files * result WorkflowRunSnapshot CtError :=
  execute_until_settled demo_env demo_executor 20 demo_run demo_started.

Example demo_execution_states :
  node_states demo_execution.1 =
    Some (RCompleted, [("build", NCompleted); ("plan", NCompleted); ("publish", NSkipped)]).
Proof. vm_compute. reflexivity. Qed.

Lemma execution_ends_witness :
  ∃ n, ∀ fuel, n ≤ fuel →
    (execute_until_settled demo_env demo_executor fuel demo_run demo_started).2 ≠ Err CtFuel.
Proof.
  destruct (execution_ends demo_env demo_initial demo_started demo_order demo_initial_ok demo_reach_started)
    as [n Hn].
  exists n. intros fuel Hle. exact (proj1 (Hn demo_executor fuel demo_run "" demo_executor_allowed Hle)).
Defined.

Lemma execution_takes_allowed_steps_witness : rtc (ctl_step demo_env) demo_started demo_execution.1.
Proof.
  exact (proj1 (execution_takes_allowed_steps demo_env demo_executor demo_initial demo_started 20 demo_run
    "" demo_order demo_initial_ok demo_reach_started demo_executor_allowed)).
Defined.

Lemma execution_settles_witness :
  ∃ fuel,
    match (execute_until_settled demo_env demo_executor fuel demo_run demo_started).2 with
    | Ok s => wr_status s ≠ RRunning ∨ ∃ id a, wr_nodes s !! id = Some a ∧ na_status a = NRunning
    | Err e => e ≠ CtFuel
    end.
Proof.
  destruct (execution_settles demo_env demo_initial demo_started demo_order demo_initial_ok
    demo_reach_started) as [n H].
  exists n. exact (H demo_executor n demo_run demo_executor_allowed (le_n n)).
Defined.

(** The controller forgot the Run; the ledger did not. *)
Definition demo_forgot : Controller Files := set_runs ∅ demo_building.


(** ** Restored Runs *)

(** Another controller on the same ledger and files. *)
Definition other_controller (c : Controller Files) : Controller Files := {|
  ct_definitions := ct_definitions c; ct_definition_owners := ct_definition_owners c;
  ct_disabled_definitions := ct_disabled_definitions c; ct_runs := ∅;
  ct_runtime := runtime_with_ledger (ct_ledger c); ct_with_runtime := true; ct_roles := None;
  ct_mutation_owner_id := "controller-2"; ct_max_tasks_per_run := 100; ct_quota_root_run_id := None;
  ct_files := ct_files c; ct_ticks := ct_ticks c; ct_uuids := ct_uuids c |}.

Definition restored (c : Controller Files) : Controller Files :=
  (restore_workflow_run demo_env 1 demo_run (other_controller c)).1.

Lemma other_controller_same c run :
  run_records (ct_ledger (other_controller c)) run = run_records (ct_ledger c) run ∧
  files_kept demo_env (ct_files c) (ct_files (other_controller c)) ∧
  ct_definitions (other_controller c) = ct_definitions c ∧ ct_runs (other_controller c) !! run = None ∧
  tasks_fit run release (other_controller c).
Proof. split_and!; [reflexivity|by intros r ref text|reflexivity|reflexivity|]. intros node t _ Ht. discriminate Ht. Qed.

Lemma demo_kept c c' op :
  rtc (kept_step demo_env demo_run) demo_initial c → op_allowed c op → op_kept demo_env demo_run c op →
  c' = run_op demo_env op c → rtc (kept_step demo_env demo_run) demo_initial c'.
Proof. intros H Hop Hk Hc. eapply rtc_r; [exact H|]. eapply kept_run; [exact Hop|by intros _|exact Hc]. Qed.

Lemma demo_kept_building : rtc (kept_step demo_env demo_run) demo_initial demo_building.
Proof.
  apply (demo_kept demo_planned _ (OpBegin demo_run build_node)); [| |exact I|reflexivity].
  2:{ apply ready_in_run; [vm_compute; reflexivity|vm_compute; reflexivity|by right; left]. }
  apply (demo_kept demo_planning _ (OpComplete demo_run "plan" plan_attempt (VString "planned")));
    [|exact I|reflexivity|reflexivity].
  apply (demo_kept demo_started _ (OpBegin demo_run plan_node)); [| |exact I|reflexivity].
  2:{ apply ready_in_run; [vm_compute; reflexivity|vm_compute; reflexivity|by left]. }
  apply (demo_kept demo_registered _ (OpStart demo_run "release" demo_parameters None None)); [|exact I| |reflexivity].
  - apply rtc_once, (kept_registry demo_env demo_run _ _ (OpRegister "core" [release])); [|reflexivity].
    exact release_typed.
  - constructor; [apply NoDup_singleton|repeat constructor].
Qed.

Lemma release_unsupervised : unsupervised release.
Proof. repeat (apply Forall_cons; split; [reflexivity|]). constructor. Qed.

Lemma workflow_recovery_witness :
  ∃ p, ct_runs demo_building !! demo_run = Some p ∧
    ct_runs (restored demo_building) =
      <[demo_run := {| pj_snapshot := resume_snapshot (pj_snapshot p);
                       pj_durable_sequence := pj_durable_sequence p |}]> ∅.
Proof.
  destruct (ct_runs demo_building !! demo_run) as [p|] eqn:Hp; [|vm_compute in Hp; discriminate Hp].
  assert ((λ p, (wr_status (pj_snapshot p), wr_workflow_id (pj_snapshot p))) <$> (ct_runs demo_building !! demo_run) =
    Some (RRunning, "release")) as Hs by (vm_compute; reflexivity).
  rewrite Hp in Hs. injection Hs as Hs Hw.
  destruct (workflow_recovery demo_env demo_initial demo_building demo_run p demo_order demo_store demo_steady
    demo_initial_ok ledger_inv_default demo_kept_building ltac:(discriminate) Hp ltac:(vm_compute; reflexivity))
    as (d & _ & Hd & Hrestore).
  rewrite Hw in Hd, Hrestore. specialize (Hd Hs).
  assert (d = release) as ->.
  { assert (ct_definitions demo_building !! "release" = Some release) as Hr by (vm_compute; reflexivity). congruence. }
  destruct (other_controller_same demo_building demo_run) as (H1 & H2 & H3 & H4 & H5).
  destruct (Hrestore (other_controller demo_building) 0 release_unsupervised H1 H2) as (c'' & Hc & Hruns & _).
  - rewrite H3. exact Hd.
  - exact H4.
  - exact H5.
  - vm_compute. reflexivity.
  - exists p. split; [reflexivity|]. unfold restored. rewrite Hc. exact Hruns.
Defined.

Definition demo_cancelled : Controller Files := (cancel demo_env demo_run "stop" demo_built).1.

Definition attempt_numbers (c : Controller Files) : option (list (string * Z)) :=
  s ← run_snapshot c demo_run;
  Some ((λ kv, (kv.1, na_attempt_number kv.2)) <$> btree_iter (wr_nodes s)).

(** a Run that was cancelled after some of its nodes had completed runs
    again when it is restored: the record of the cancellation holds the
    snapshot without the outputs of its nodes, the checkpoint of [build] does
    not match the outputs it now sees as missing, and a checkpoint that is
    reset makes the Run running again; executing it begins a second attempt of
    the completed node [build]. *)
Example cancelled_run_runs_again :
  node_states demo_cancelled =
    Some (RCancelled, [("build", NCompleted); ("plan", NCompleted); ("publish", NCancelled)]) ∧
  node_states (restored demo_cancelled) =
    Some (RRunning, [("build", NPending); ("plan", NCompleted); ("publish", NCancelled)]) ∧
  attempt_numbers (execute_until_settled demo_env demo_executor 20 demo_run (restored demo_cancelled)).1 =
    Some [("build", 2); ("plan", 1); ("publish", 0)]%Z.
Proof. vm_compute. auto. Qed.

(** [build] fails for good while [publish] waits; then the Run is cancelled. *)
Definition demo_failed_cancelled : Controller Files :=
  (cancel demo_env demo_run "stop"
     (run_op demo_env (OpFail demo_run "build" "attempt-4" (node_error NonRetryable "compiler error"))
        demo_building)).1.

(** a cancelled Run does not stay cancelled: the executor that was running
    it settles it when its nodes are done, and a Run with a failed node is
    settled as failed, whatever its state was before. *)
Theorem cancelled_run_settles_failed :
  node_states demo_failed_cancelled =
    Some (RCancelled, [("build", NFailed); ("plan", NCompleted); ("publish", NCancelled)]) ∧
  node_states (settle demo_env demo_run demo_failed_cancelled).1 =
    Some (RFailed, [("build", NFailed); ("plan", NCompleted); ("publish", NCancelled)]).
Proof. vm_compute. auto. Qed.

(** [build] was running when the controller stopped; the next one resumes it
    under its attempt and stops too. *)
Definition demo_resumed : Controller Files :=
  run_op demo_env (OpBegin demo_run build_node) (restored demo_building).
Definition fail_build (c : Controller Files) : Controller Files :=
  run_op demo_env (OpFail demo_run "build" "attempt-4" (node_error Retryable "timeout")) c.

(** an attempt that is resumed is counted twice when the Run is restored
    again: the controller that resumed it keeps its number, the replay of its
    second record of a start adds one; so a node that is allowed two attempts
    and fails the first with an error that may be retried is tried again by the
    one, and has failed for the other. *)
Theorem resumed_attempt_counted_twice :
  attempt_numbers demo_resumed = Some [("build", 1); ("plan", 1); ("publish", 0)]%Z ∧
  node_states (fail_build demo_resumed) =
    Some (RRunning, [("build", NPending); ("plan", NCompleted); ("publish", NPending)]) ∧
  let c := run_op demo_env (OpBegin demo_run build_node) (restored demo_resumed) in
  attempt_numbers c = Some [("build", 2); ("plan", 1); ("publish", 0)]%Z ∧
  node_states (fail_build c) =
    Some (RRunning, [("build", NFailed); ("plan", NCompleted); ("publish", NPending)]).
Proof. vm_compute. auto. Qed.
