(* ===== verification/Paths.v ===== *)
(** * Texts and paths

    The methods of [str] that the permission engine and the network policy use, on
    UTF-8 bytes; then [std::path::Path] on Unix, and the resolution of paths in
    permission_engine/protected_paths.rs: the path that a permission speaks of is
    made absolute, [.] and [..] are taken out, and the part of it that exists is
    replaced by its canonical path.  What the operating system answers is a
    [FileSystem]. *)
From Stdlib Require Export Ascii.
From S2P Require Import Prelude Json Types.

(** [s.split(c)]. *)
Fixpoint split_on (c : ascii) (s : string) : list string :=
  match s with
  | EmptyString => [""]
  | String a s =>
      match split_on c s with
      | piece :: pieces =>
          if decide (a = c) then "" :: piece :: pieces else String a piece :: pieces
      | [] => []
      end
  end.

Definition nonempty_string (s : string) : bool := negb (bool_decide (s = "")).

(** The first [n] bytes, and the rest. *)
Fixpoint take_bytes (n : nat) (s : string) : string :=
  match n, s with
  | S n, String a s => String a (take_bytes n s)
  | _, _ => ""
  end.

Fixpoint drop_bytes (n : nat) (s : string) : string :=
  match n, s with
  | S n, String _ s => drop_bytes n s
  | _, _ => s
  end.

(** [s.strip_prefix(p)], [s.strip_suffix(p)] and [s.ends_with(p)]. *)
Definition strip_prefix (p s : string) : option string :=
  if starts_with s p then Some (drop_bytes (String.length p) s) else None.

Definition ends_with (s p : string) : bool :=
  (String.length p <=? String.length s) &&
  bool_decide (drop_bytes (String.length s - String.length p) s = p).

Definition strip_suffix (p s : string) : option string :=
  if ends_with s p then Some (take_bytes (String.length s - String.length p) s) else None.

(** Some byte, or two in a row, satisfy a test; for characters of one and two
    bytes. *)
Fixpoint any_byte (f : ascii → bool) (s : string) : bool :=
  match s with EmptyString => false | String a s => f a || any_byte f s end.

Definition all_bytes (f : ascii → bool) (s : string) : bool := negb (any_byte (λ a, negb (f a)) s).

(** [s.contains(p)]. *)
Fixpoint contains (s p : string) : bool :=
  starts_with s p || match s with EmptyString => false | String _ s => contains s p end.

(** [s.contains(c)] and [s.contains([...])]. *)
Definition contains_any (cs : list ascii) (s : string) : bool :=
  any_byte (λ a, existsb (λ c, bool_decide (a = c)) cs) s.

(** The part before the first byte of [cs]: [&value[..end]] with [end] found by
    [value.find(cs).unwrap_or(value.len())]. *)
Fixpoint before_any (cs : list ascii) (s : string) : string :=
  match s with
  | EmptyString => ""
  | String a s => if existsb (λ c, bool_decide (a = c)) cs then "" else String a (before_any cs s)
  end.

(** [s.rsplit_once(c)]. *)
Fixpoint rsplit_once (c : ascii) (s : string) : option (string * string) :=
  match s with
  | EmptyString => None
  | String a s =>
      match rsplit_once c s with
      | Some (l, r) => Some (String a l, r)
      | None => if decide (a = c) then Some ("", s) else None
      end
  end.

(** [s.split_once(p)]. *)
Fixpoint split_once (p s : string) : option (string * string) :=
  match strip_prefix p s with
  | Some rest => Some ("", rest)
  | None =>
      match s with
      | EmptyString => None
      | String a s =>
          match split_once p s with Some (l, r) => Some (String a l, r) | None => None end
      end
  end.

Definition ascii_lower (a : ascii) : ascii :=
  if decide (65 ≤ byte_of a ≤ 90)%N then ascii_of_N (byte_of a + 32) else a.

Fixpoint to_ascii_lowercase (s : string) : string :=
  match s with EmptyString => "" | String a s => String (ascii_lower a) (to_ascii_lowercase s) end.

Definition is_ascii_digit (a : ascii) : bool := bool_decide (48 ≤ byte_of a ≤ 57)%N.
Definition is_ascii_alphanumeric (a : ascii) : bool :=
  is_ascii_digit a || bool_decide (65 ≤ byte_of a ≤ 90)%N || bool_decide (97 ≤ byte_of a ≤ 122)%N.
Definition is_ascii_hexdigit (a : ascii) : bool :=
  is_ascii_digit a || bool_decide (65 ≤ byte_of a ≤ 70)%N || bool_decide (97 ≤ byte_of a ≤ 102)%N.

(** [s.is_ascii()]. *)
Definition is_ascii (s : string) : bool := all_bytes (λ a, bool_decide (byte_of a < 128)%N) s.

(** [s.chars().any(char::is_control)]: U+0000 to U+001F and U+007F to U+009F. *)
Fixpoint any_control (s : string) : bool :=
  match s with
  | EmptyString => false
  | String a rest =>
      bool_decide (byte_of a < 32 ∨ byte_of a = 127)%N ||
      match rest with
      | String b _ => bool_decide (byte_of a = 194 ∧ 128 ≤ byte_of b ≤ 159)%N
      | EmptyString => false
      end || any_control rest
  end.

(** [s.trim()]: white space is stripped from both ends.  The fuel is the byte
    length; each round strips a byte or more. *)
Fixpoint trim_start_fuel (fuel : nat) (s : string) : string :=
  match fuel, whitespace_prefix s with
  | S fuel, S n => trim_start_fuel fuel (drop_bytes (S n) s)
  | _, _ => s
  end.

Definition whitespace_suffix (s : string) : nat :=
  let suffix n := drop_bytes (String.length s - n) s in
  if bool_decide (whitespace_prefix (suffix 1) = 1) then 1
  else if bool_decide (whitespace_prefix (suffix 2) = 2) then 2
  else if bool_decide (whitespace_prefix (suffix 3) = 3) then 3
  else 0.

Fixpoint trim_end_fuel (fuel : nat) (s : string) : string :=
  match fuel, whitespace_suffix s with
  | S fuel, S n => trim_end_fuel fuel (take_bytes (String.length s - S n) s)
  | _, _ => s
  end.

Definition trim (s : string) : string :=
  let s := trim_start_fuel (String.length s) s in trim_end_fuel (String.length s) s.

Example trim_both : trim ("  a b " +:+ " ") = "a b".
Proof. reflexivity. Qed.
Example split_on_example : split_on "."%char "a..b" = ["a"; ""; "b"].
Proof. reflexivity. Qed.
Example rsplit_once_example : rsplit_once ":"%char "a:b:c" = Some ("a:b", "c").
Proof. reflexivity. Qed.

Lemma strip_prefix_app p s : strip_prefix p (p +:+ s) = Some s.
Proof.
  unfold strip_prefix, starts_with. assert (String.prefix p (p +:+ s) = true ∧ drop_bytes (String.length p) (p +:+ s) = s)
    as [-> ->]; [|done].
  induction p as [|c p [IHp IHd]]; [by destruct s|]. change (String c p +:+ s) with (String c (p +:+ s)).
  cbn [String.prefix drop_bytes String.length]. by destruct (Ascii.ascii_dec c c).
Qed.

(** ** Paths *)

Inductive Component : Type :=
  | RootDir
  | CurDir
  | ParentDir
  | Normal (name : string).

#[export] Instance Component_eq_dec : EqDecision Component.
Proof. solve_decision. Defined.

(** A path by its components. *)
Definition Path : Type := list Component.

Definition component_of (s : string) : Component :=
  if decide (s = "..") then ParentDir else Normal s.

Definition is_absolute_str (s : string) : bool := starts_with s "/".

(** [Path::components]: repeated separators count once, and [.] counts only at
    the beginning of a relative path. *)
Definition components (s : string) : Path :=
  let parts := List.filter nonempty_string (split_on "/"%char s) in
  let named := component_of <$> List.filter (λ p, negb (bool_decide (p = "."))) parts in
  if is_absolute_str s then RootDir :: named
  else match parts with
       | "." :: _ => CurDir :: named
       | _ => named
       end.

Definition is_absolute (p : Path) : bool :=
  match p with RootDir :: _ => true | _ => false end.

(** [self.join(path)]: an absolute path replaces. *)
Definition join (p q : Path) : Path := if is_absolute q then q else p ++ q.

(** [PathBuf::pop] on a path without [CurDir] and [ParentDir]: the root and the
    empty path have no parent. *)
Definition pop (p : Path) : option Path :=
  match reverse p with
  | Normal _ :: rest => Some (reverse rest)
  | CurDir :: rest | ParentDir :: rest => Some (reverse rest)
  | _ => None
  end.

(** [Path::starts_with]. *)
Fixpoint path_starts_with (p q : Path) {struct q} : bool :=
  match q, p with
  | [], _ => true
  | c :: q, d :: p => bool_decide (c = d) && path_starts_with p q
  | _ :: _, [] => false
  end.

(** ** The file system *)

Inductive RootKind : Type := KDirectory | KFile.
Inductive Opened (I : Type) : Type := OpenedAs (identity : I) | NotFound | OpenFailed.
Arguments OpenedAs {I} _.
Arguments NotFound {I}.
Arguments OpenFailed {I}.

(** What the operating system answers at one moment.  [I] are the identities of
    files and directories ([OpenedFileIdentity], compared by [same_object]); an
    open directory is known by its identity.  To open an object and to identify
    it is one answer; [fs_root_authority] is what [WorkspaceRootAuthority]
    captures of a directory, [fs_current_identity] what it compares it with, and
    [fs_object_identity] the identity a sandbox can be told about. *)
Record FileSystem (I : Type) : Type := {
  fs_current_dir : option Path;
  fs_exists : Path → bool;
  fs_canonicalize : Path → option Path;
  fs_kind : Path → option RootKind;
  fs_open_dir : Path → option I;
  fs_open_file : Path → option I;
  fs_open_in : I → string → Opened I;
  fs_root_authority : Path → option I;
  fs_current_identity : Path → option I;
  fs_symlink_metadata : Path → Opened unit;
  fs_object_identity : I → option I;
}.
Arguments fs_current_dir {I} _.
Arguments fs_exists {I} _ _.
Arguments fs_canonicalize {I} _ _.
Arguments fs_kind {I} _ _.
Arguments fs_open_dir {I} _ _.
Arguments fs_open_file {I} _ _.
Arguments fs_open_in {I} _ _ _.
Arguments fs_root_authority {I} _ _.
Arguments fs_current_identity {I} _ _.
Arguments fs_symlink_metadata {I} _ _.
Arguments fs_object_identity {I} _ _.

Section resolution.
Context {I : Type} (fs : FileSystem I).

(** One component of [normalize_absolute_path]. *)
Definition normalize_step (acc : option Path) (c : Component) : option Path :=
  p ← acc;
  match c with
  | RootDir => Some [RootDir]
  | CurDir => Some p
  | ParentDir => pop p
  | Normal n => Some (p ++ [Normal n])
  end.

Definition normalize_components (p : Path) : option Path := fold_left normalize_step p (Some []).

Definition normalize_absolute_path (path : Path) : option Path :=
  absolute ← (if is_absolute path then Some path
              else cwd ← fs_current_dir fs; Some (join cwd path));
  normalize_components absolute.

(** The loop of [resolve_existing_path], from the end of the path. *)
Fixpoint resolve_from (back : list Component) (missing : list string) : option Path :=
  if fs_exists fs (reverse back) then
    resolved ← fs_canonicalize fs (reverse back); Some (resolved ++ (Normal <$> missing))
  else
    match back with
    | Normal name :: back => resolve_from back (name :: missing)
    | _ => None
    end.

Definition resolve_existing_path (normalized : Path) : option Path :=
  resolve_from (reverse normalized) [].

Definition resolve_policy_path (path : Path) : option Path :=
  normalized ← normalize_absolute_path path; resolve_existing_path normalized.

Definition resolve_boundary_path (path : Path) : option Path :=
  if is_absolute path then
    normalized ← normalize_absolute_path path; resolve_existing_path normalized
  else None.

Definition path_within (resource root : string) : bool :=
  match resolve_boundary_path (components resource), resolve_boundary_path (components root) with
  | Some resource, Some root => path_starts_with resource root
  | _, _ => false
  end.

Definition lexical_step (acc : option Path) (c : Component) : option Path :=
  p ← acc;
  match c with
  | CurDir => Some p
  | Normal n => Some (p ++ [Normal n])
  | ParentDir | RootDir => None
  end.

Definition lexical_relative_path (path : Path) : option Path := fold_left lexical_step path (Some []).

Definition permission_path_matches (resource allowed : string) : bool :=
  let resource_path := components resource in
  let allowed_path := components allowed in
  if is_absolute resource_path || is_absolute allowed_path then
    is_absolute resource_path && is_absolute allowed_path && path_within resource allowed
  else
    match lexical_relative_path resource_path, lexical_relative_path allowed_path with
    | Some resource, Some allowed => path_starts_with resource allowed
    | _, _ => false
    end.
End resolution.

Example components_examples :
  components "/a//b/./../c/" = [RootDir; Normal "a"; Normal "b"; ParentDir; Normal "c"] ∧
  components "./a/." = [CurDir; Normal "a"] ∧ components "" = [] ∧ components "/" = [RootDir].
Proof. repeat split. Qed.

(** ** Facts *)

Lemma path_starts_with_spec p q : path_starts_with p q = true ↔ q `prefix_of` p.
Proof.
  revert p. induction q as [|c q IH]; intros p; [split; [intros _; apply prefix_nil|done]|].
  destruct p as [|d p]; cbn [path_starts_with].
  - split; [done|]. intros H. by apply prefix_nil_inv in H.
  - rewrite andb_true_iff, bool_decide_eq_true, IH. split.
    + intros [-> H]. by apply prefix_cons.
    + intros H. split; [by apply prefix_cons_inv_1 in H|by apply prefix_cons_inv_2 in H].
Qed.

(** A path below the root, by its names. *)
Definition rooted (names : list string) : Path := RootDir :: (Normal <$> names).

(** What [..] and [.] mean without symbolic links: [None] when the path climbs
    above the root. *)
Fixpoint lexical_names (p : Path) (back : list string) : option (list string) :=
  match p with
  | [] => Some (reverse back)
  | RootDir :: p => lexical_names p []
  | CurDir :: p => lexical_names p back
  | ParentDir :: p => match back with _ :: back => lexical_names p back | [] => None end
  | Normal n :: p => lexical_names p (n :: back)
  end.

Lemma rooted_snoc names n : rooted names ++ [Normal n] = rooted (names ++ [n]).
Proof. unfold rooted. by rewrite fmap_app. Qed.

Lemma pop_rooted names : pop (rooted names) =
  match reverse names with _ :: back => Some (rooted (reverse back)) | [] => None end.
Proof.
  unfold pop, rooted. rewrite reverse_cons, <-fmap_reverse.
  destruct (reverse names) as [|n back]; [done|]. simpl.
  by rewrite reverse_app, reverse_singleton, <-fmap_reverse.
Qed.

Lemma fold_none {A B} (f : option A → B → option A) l : (∀ c, f None c = None) → fold_left f l None = None.
Proof. intros H. induction l; simpl; [done|]. by rewrite H. Qed.

Lemma normalize_rooted p back :
  fold_left normalize_step p (Some (rooted (reverse back))) = rooted <$> lexical_names p back.
Proof.
  revert back. induction p as [|c p IH]; intros back; [done|]. cbn [fold_left lexical_names normalize_step mbind option_bind].
  destruct c as [| | |n].
  - exact (IH []).
  - apply IH.
  - rewrite pop_rooted, reverse_involutive. destruct back as [|n back]; [by apply fold_none|apply IH].
  - rewrite rooted_snoc, <-reverse_cons. apply IH.
Qed.

Lemma normalize_components_absolute p :
  normalize_components (RootDir :: p) = rooted <$> lexical_names p [].
Proof. unfold normalize_components. simpl. apply (normalize_rooted p []). Qed.

(** ** Containment *)

Section containment.
Context {I : Type} (fs : FileSystem I).

(** A file system without symbolic links: the root exists, and a path from the
    root that has no [.] and no [..] and exists is its own canonical path.
    Nothing is said of relative paths, nor of paths with [.] or [..]. *)
Record plain_paths : Prop := {
  pl_root : fs_exists fs (rooted []) = true;
  pl_canonical names : fs_exists fs (rooted names) = true → fs_canonicalize fs (rooted names) = Some (rooted names);
}.

Lemma resolve_from_plain back missing :
  plain_paths →
  resolve_from fs ((Normal <$> back) ++ [RootDir]) missing = Some (rooted (reverse back ++ missing)).
Proof.
  intros Hp. revert missing. induction back as [|n back IH]; intros missing; cbn [fmap list_fmap app resolve_from].
  - change (reverse [RootDir]) with (rooted []). by rewrite (pl_root Hp), (pl_canonical Hp) by apply (pl_root Hp).
  - assert (reverse (Normal n :: (Normal <$> back) ++ [RootDir]) = rooted (reverse back ++ [n])) as ->.
    { rewrite reverse_cons, reverse_app, <-fmap_reverse, <-rooted_snoc. done. }
    destruct (fs_exists fs _) eqn:He.
    + rewrite (pl_canonical Hp _ He). cbn [mbind option_bind]. f_equal. unfold rooted. cbn [app]. f_equal.
      by rewrite reverse_cons, <-fmap_app.
    + rewrite IH, reverse_cons. by rewrite <-app_assoc.
Qed.

Lemma resolve_boundary_plain p :
  plain_paths →
  resolve_boundary_path fs p =
    match p with RootDir :: q => rooted <$> lexical_names q [] | _ => None end.
Proof.
  intros Hp. unfold resolve_boundary_path. destruct p as [|[] q]; try done. cbn [is_absolute].
  unfold normalize_absolute_path. cbn [is_absolute mbind option_bind]. rewrite normalize_components_absolute.
  destruct (lexical_names q []) as [names|]; [|done]. simpl. unfold resolve_existing_path.
  assert (reverse (rooted names) = (Normal <$> reverse names) ++ [RootDir]) as ->
    by (unfold rooted; by rewrite reverse_cons, fmap_reverse).
  by rewrite resolve_from_plain, reverse_involutive, app_nil_r.
Qed.

Lemma rooted_prefix a b : rooted a `prefix_of` rooted b ↔ a `prefix_of` b.
Proof.
  unfold rooted. split.
  - intros H%prefix_cons_inv_2. revert b H. induction a as [|x a IH]; intros [|y b]; cbn [fmap list_fmap]; intros H.
    + done.
    + apply prefix_nil.
    + by apply prefix_nil_inv in H.
    + pose proof (prefix_cons_inv_1 _ _ _ _ H) as [= ->]. apply prefix_cons, IH. by apply prefix_cons_inv_2 in H.
  - intros [k ->]. rewrite fmap_app. apply prefix_cons. by eexists.
Qed.
End containment.

(** C22: on a file system without symbolic links a path of an effect lies within
    a root exactly when it does so after every [.] and [..] is taken out.  Without symbolic links both must be
    absolute, neither may climb above the root of the file system, and the names
    of the root must be the first names of the path: no combination of [..], [.]
    and repeated separators leads out of a root, and a directory does not contain
    another whose name merely begins like its own. *)
Theorem path_within_lexical {I} (fs : FileSystem I) (resource root : string) :
  plain_paths fs →
  path_within fs resource root = true ↔
  ∃ p q names above,
    components resource = RootDir :: p ∧ components root = RootDir :: q ∧
    lexical_names p [] = Some names ∧ lexical_names q [] = Some above ∧ above `prefix_of` names.
Proof.
  intros Hp. unfold path_within. rewrite !resolve_boundary_plain by done. split.
  - destruct (components resource) as [|[] p] eqn:Hr; try done. destruct (components root) as [|[] q] eqn:Hq;
      try (by destruct (rooted <$> _)).
    destruct (lexical_names p []) as [names|] eqn:Hn, (lexical_names q []) as [above|] eqn:Ha; try done.
    cbn [fmap option_fmap option_map]. intros H%path_starts_with_spec%rooted_prefix. by exists p, q, names, above.
  - intros (p & q & names & above & -> & -> & -> & -> & H).
    cbn [fmap option_fmap option_map]. by apply path_starts_with_spec, rooted_prefix.
Qed.

Lemma lexical_names_normal names back : lexical_names (Normal <$> names) back = Some (reverse back ++ names).
Proof.
  revert back. induction names as [|n names IH]; intros back; csimpl; [by rewrite app_nil_r|].
  by rewrite IH, reverse_cons, <-app_assoc.
Qed.

(** A file system in which every path exists and no name is a link: the
    canonical path of an absolute path is the one without [.] and [..]. *)
Definition everything_exists : FileSystem unit :=
  {| fs_current_dir := None; fs_exists := λ _, true;
     fs_canonicalize p := match p with RootDir :: q => rooted <$> lexical_names q [] | _ => None end;
     fs_kind := λ _, None; fs_open_dir := λ _, None; fs_open_file := λ _, None; fs_open_in := λ _ _, NotFound;
     fs_root_authority := λ _, None; fs_current_identity := λ _, None; fs_symlink_metadata := λ _, NotFound;
     fs_object_identity := Some |}.

Lemma everything_plain : plain_paths everything_exists.
Proof. split; [done|]. intros names _. simpl. by rewrite lexical_names_normal. Qed.

Lemma path_within_lexical_witness :
  path_within everything_exists "/work/src/../lib/./a.rs" "/work//lib/" = true ∧
  path_within everything_exists "/work/src/../../etc" "/work" = false ∧
  path_within everything_exists "/workspace" "/work" = false.
Proof.
  split.
  - apply (path_within_lexical everything_exists); [by apply everything_plain|].
    eexists _, _, ["work"; "lib"; "a.rs"], ["work"; "lib"]. repeat split. by eexists ["a.rs"].
  - split; reflexivity.
Defined.
