(* ===== verification/NetworkDomains.v ===== *)
(** * Network permissions

    crates/solaris-process/src/network_proxy.rs: a network permission names one
    host and one port; which permissions there are, when one covers another, and
    the endpoints a sandboxed process may reach. *)
From S2P Require Import Prelude Json Types Paths.

(** ** IP literals ([str::parse::<IpAddr>]) *)

(** The value of decimal digits. *)
Fixpoint decimal_value (s : string) (acc : Z) : Z :=
  match s with
  | EmptyString => acc
  | String a s => decimal_value s (acc * 10 + (Z.of_N (byte_of a) - 48))
  end.

(** One to three digits, no leading zero, at most 255. *)
Definition ipv4_octet (s : string) : bool :=
  all_bytes is_ascii_digit s && bool_decide (1 ≤ byte_len s ≤ 3)%Z &&
  (negb (starts_with s "0") || bool_decide (s = "0")) && bool_decide (decimal_value s 0 ≤ 255)%Z.

Definition is_ipv4 (s : string) : bool :=
  match split_on "."%char s with
  | [a; b; c; d] => ipv4_octet a && ipv4_octet b && ipv4_octet c && ipv4_octet d
  | _ => false
  end.

Definition ipv6_group (s : string) : bool :=
  all_bytes is_ascii_hexdigit s && bool_decide (1 ≤ byte_len s ≤ 4)%Z.

(** The number of groups of 16 bits; the last piece may be an IPv4 address,
    which counts as two. *)
Fixpoint ipv6_groups (pieces : list string) : option nat :=
  match pieces with
  | [] => Some 0
  | [piece] => if ipv6_group piece then Some 1 else if is_ipv4 piece then Some 2 else None
  | piece :: pieces =>
      if ipv6_group piece then n ← ipv6_groups pieces; Some (S n) else None
  end.

Definition pieces_of (s : string) : list string :=
  if decide (s = "") then [] else split_on ":"%char s.

(** Eight groups, or fewer around one [::] that stands for at least one. *)
Definition is_ipv6 (s : string) : bool :=
  match split_once "::" s with
  | None => bool_decide (ipv6_groups (pieces_of s) = Some 8)
  | Some (head, tail) =>
      forallb ipv6_group (pieces_of head) &&
      match ipv6_groups (pieces_of tail) with
      | Some n => length (pieces_of head) + n <=? 7
      | None => false
      end
  end.

Definition is_ip_literal (s : string) : bool := is_ipv4 s || is_ipv6 s.

Example ip_literals :
  (is_ip_literal "127.0.0.1" && is_ip_literal "::1" && is_ip_literal "1:2:3:4:5:6:1.2.3.4" &&
   is_ip_literal "1:2:3:4:5:6:7::") = true ∧
  (is_ip_literal "127.0.0.01" || is_ip_literal "1.2.3" || is_ip_literal "1:2:3:4:5:6:7:8::" ||
   is_ip_literal "example.test" || is_ip_literal "1::2::3") = false.
Proof. repeat split. Qed.

(** ** Permissions *)

Definition MAX_PERMISSION_VALUE_BYTES : Z := 2048.
Definition MAX_NETWORK_PROXY_ENDPOINTS : nat := 32.

Inductive NetworkProxyPolicyError : Type :=
  | InvalidDomain
  | IpLiteral
  | Wildcard
  | UserInfo
  | MetadataService
  | TooManyEndpoints.

(** [ApprovedNetworkEndpoint]: a host and a port. *)
Definition ApprovedNetworkEndpoint : Type := string * Z.

Definition metadata_hosts : list string :=
  ["metadata"; "instance-data"; "metadata.google.internal"; "metadata.azure.internal";
   "instance-data.ec2.internal"; "metadata.aws.internal"].

Definition names_metadata_service (host : string) : bool :=
  bool_decide (host = "localhost") || ends_with host ".localhost" || bool_decide (host ∈ metadata_hosts).

Definition last_byte (s : string) : option ascii := String.get (String.length s - 1) s.

Definition label_ok (label : string) : bool :=
  nonempty_string label && bool_decide (byte_len label ≤ 63)%Z &&
  from_option is_ascii_alphanumeric false (String.get 0 label) &&
  from_option is_ascii_alphanumeric false (last_byte label) &&
  all_bytes (λ b, is_ascii_alphanumeric b || bool_decide (b = "-"%char)) label.

Definition normalize_host (value : string) : result string NetworkProxyPolicyError :=
  let host := to_ascii_lowercase (default value (strip_suffix "." value)) in
  if is_ip_literal host then Err IpLiteral
  else if names_metadata_service host then Err MetadataService
  else if bool_decide (host = "") || bool_decide (253 < byte_len host)%Z || negb (is_ascii host)
  then Err InvalidDomain
  else if forallb label_ok (split_on "."%char host) then Ok host
  else Err InvalidDomain.

Definition authority (value : string) : result string NetworkProxyPolicyError :=
  let authority := before_any ["/"%char; "?"%char; "#"%char] value in
  if decide (authority = "") then Err InvalidDomain else Ok authority.

(** [port.parse::<u16>()], zero left out. *)
Definition parse_port (s : string) : result Z NetworkProxyPolicyError :=
  let digits := default s (strip_prefix "+" s) in
  let port := decimal_value digits 0 in
  if nonempty_string digits && all_bytes is_ascii_digit digits && bool_decide (port ≤ 65535)%Z &&
     negb (bool_decide (port = 0%Z))
  then Ok port else Err InvalidDomain.

(** The part of a permission that names host and port, and the port it stands
    for when it names none. *)
Definition split_scheme (value : string) : result (string * Z) NetworkProxyPolicyError :=
  match strip_prefix "https://" value with
  | Some rest => let? a := authority rest in Ok (a, 443%Z)
  | None =>
      match strip_prefix "http://" value with
      | Some rest => let? a := authority rest in Ok (a, 80%Z)
      | None =>
          if contains value "://" || contains_any ["/"%char; "?"%char; "#"%char] value
          then Err InvalidDomain else Ok (value, 443%Z)
      end
  end.

Definition parse_permission_domain (value : string) :
    result (list ApprovedNetworkEndpoint) NetworkProxyPolicyError :=
  if bool_decide (value = "") || bool_decide (MAX_PERMISSION_VALUE_BYTES < byte_len value)%Z ||
     negb (bool_decide (trim value = value)) || any_control value
  then Err InvalidDomain
  else if contains_any ["*"%char] value then Err Wildcard
  else
    let? '(authority, default_port) := split_scheme value in
    if contains_any ["@"%char] authority then Err UserInfo
    else if starts_with authority "[" || ends_with authority "]" then Err IpLiteral
    else
      let? '(host, port) :=
        match rsplit_once ":"%char authority with
        | Some (host, port) =>
            if negb (contains_any [":"%char] host) then
              let? port := parse_port port in Ok (host, port)
            else Err IpLiteral
        | None => Ok (authority, default_port)
        end in
      let? host := normalize_host host in
      Ok [(host, port)].

Definition permission_domain_is_covered (requested allowed : string) :
    result bool NetworkProxyPolicyError :=
  let? requested := parse_permission_domain requested in
  let? allowed := parse_permission_domain allowed in
  Ok (forallb (λ endpoint, bool_decide (endpoint ∈ allowed)) requested).

(** ** The policy of a process *)

(** The endpoints are kept sorted and without repetition; [permits] searches
    them. *)
Definition NetworkProxyPolicy : Type := gset ApprovedNetworkEndpoint.

Fixpoint add_endpoints (endpoints : list ApprovedNetworkEndpoint) (p : NetworkProxyPolicy) :
    result NetworkProxyPolicy NetworkProxyPolicyError :=
  match endpoints with
  | [] => Ok p
  | e :: endpoints =>
      let p := {[e]} ∪ p in
      if decide (MAX_NETWORK_PROXY_ENDPOINTS < size p) then Err TooManyEndpoints
      else add_endpoints endpoints p
  end.

Definition from_permission_domains (domains : list string) :
    result NetworkProxyPolicy NetworkProxyPolicyError :=
  fold_result (λ p domain,
    let? endpoints := parse_permission_domain domain in add_endpoints endpoints p) ∅ domains.

Definition permits (p : NetworkProxyPolicy) (host : string) (port : Z) : bool :=
  match normalize_host host with
  | Ok host => bool_decide ((host, port) ∈ p)
  | Err _ => false
  end.

Example domains_covered :
  permission_domain_is_covered "api.example.test" "https://API.example.test/v1" = Ok true ∧
  permission_domain_is_covered "http://api.example.test:8080/a" "http://api.example.test:8080/b" = Ok true ∧
  permission_domain_is_covered "v1.api.example.test" "api.example.test" = Ok false ∧
  permission_domain_is_covered "http://api.example.test" "https://api.example.test" = Ok false ∧
  permission_domain_is_covered "https://api.example.test:444" "api.example.test" = Ok false.
Proof. vm_compute. repeat split. Qed.

(** ** Facts *)

Lemma split_on_cons c s : ∃ piece pieces, split_on c s = piece :: pieces.
Proof.
  induction s as [|a s (piece & pieces & IH)]; simpl; [by eexists _, _|]. rewrite IH.
  case_decide; by eexists _, _.
Qed.

(** A string that ends with the separator has an empty last piece. *)
Lemma split_on_last c s :
  ends_with s (String c "") = true → ∃ l, l ≠ [] ∧ split_on c s = l ++ [""].
Proof.
  unfold ends_with. rewrite andb_true_iff, bool_decide_eq_true. simpl. intros [_ H].
  induction s as [|a s IH]; [done|]. destruct s as [|b s].
  - injection H as ->. exists [""]. simpl. by rewrite decide_True.
  - simpl in H. destruct IH as (l & Hl & He); [by simpl; rewrite Nat.sub_0_r|].
    revert He. generalize (String b s). intros t He. cbn [split_on]. rewrite He. destruct l as [|x l]; [done|].
    cbn [app]. case_decide; [exists ("" :: x :: l)|exists (String a x :: l)]; done.
Qed.

Lemma ascii_lower_idemp a : ascii_lower (ascii_lower a) = ascii_lower a.
Proof. destruct a as [[] [] [] [] [] [] [] []]; vm_compute; reflexivity. Qed.

Lemma to_ascii_lowercase_idemp s : to_ascii_lowercase (to_ascii_lowercase s) = to_ascii_lowercase s.
Proof. induction s; simpl; [done|]. by rewrite ascii_lower_idemp, IHs. Qed.

(** What [normalize_host] accepts. *)
Lemma normalize_host_ok value h :
  normalize_host value = Ok h →
  normalize_host h = Ok h ∧ is_ip_literal h = false ∧ names_metadata_service h = false ∧ h ≠ "".
Proof.
  unfold normalize_host. set (host := to_ascii_lowercase _).
  destruct (is_ip_literal host) eqn:Hip; [done|]. destruct (names_metadata_service host) eqn:Hm; [done|].
  destruct (bool_decide (host = "") || _ || _) eqn:Hl; [done|].
  destruct (forallb label_ok _) eqn:Hf; [|done]. intros [= <-].
  assert (strip_suffix "." host = None) as Hs.
  { unfold strip_suffix. destruct (ends_with host ".") eqn:He; [|done].
    apply split_on_last in He as (l & _ & He). rewrite He, forallb_app in Hf. simpl in Hf.
    by rewrite andb_false_r in Hf. }
  assert (to_ascii_lowercase host = host) as Hlow by apply to_ascii_lowercase_idemp.
  rewrite Hs. cbn [default from_option]. rewrite Hlow, Hip, Hm, Hl, Hf. split_and!; try done.
  intros He. rewrite He in Hl. done.
Qed.

Lemma decimal_value_pos s acc : all_bytes is_ascii_digit s = true → (0 ≤ acc)%Z → (0 ≤ decimal_value s acc)%Z.
Proof.
  unfold all_bytes. revert acc. induction s as [|a s IH]; intros acc; simpl; [done|].
  rewrite negb_orb, andb_true_iff, negb_involutive. unfold is_ascii_digit at 1. rewrite bool_decide_eq_true.
  intros [Ha Hs] Hacc. apply IH; [done|]. lia.
Qed.

Lemma parse_port_ok s port : parse_port s = Ok port → (1 ≤ port ≤ 65535)%Z.
Proof.
  unfold parse_port. destruct (_ && _) eqn:H; [|done]. intros [= <-].
  rewrite !andb_true_iff, negb_true_iff, bool_decide_eq_true, bool_decide_eq_false in H.
  destruct H as (((_ & Hd) & Hle) & Hne). pose proof (decimal_value_pos _ 0 Hd). lia.
Qed.

(** A permission names one endpoint. *)
Lemma parse_permission_ok d l :
  parse_permission_domain d = Ok l →
  ∃ h port, l = [(h, port)] ∧ normalize_host h = Ok h ∧ is_ip_literal h = false ∧
    names_metadata_service h = false ∧ (1 ≤ port ≤ 65535)%Z.
Proof.
  unfold parse_permission_domain. destruct (_ || _ || _ || _); [done|]. destruct (contains_any _ d); [done|].
  intros ([a dp] & Hs & H)%rbind_ok. destruct (contains_any _ a); [done|]. destruct (_ || _); [done|].
  apply rbind_ok in H as ([host port] & Hp & H). apply rbind_ok in H as (h & Hh & H). injection H as <-.
  apply normalize_host_ok in Hh as (? & ? & ? & _). exists h, port. do 4 (split; [done|]).
  - assert (1 ≤ dp ≤ 65535)%Z as Hdp.
    { unfold split_scheme in Hs. destruct (strip_prefix _ _);
        [apply rbind_ok in Hs as (? & _ & [= <- <-]); lia|].
      destruct (strip_prefix _ _); [apply rbind_ok in Hs as (? & _ & [= <- <-]); lia|].
      destruct (_ || _); [done|]. injection Hs as <- <-. lia. }
    destruct (rsplit_once _ a) as [[x y]|]; [|injection Hp as <- <-; lia].
    destruct (negb _); [|done]. apply rbind_ok in Hp as (q & Hq%parse_port_ok & [= <- <-]). lia.
Qed.

Lemma add_endpoints_ok l p p' : add_endpoints l p = Ok p' → size p ≤ MAX_NETWORK_PROXY_ENDPOINTS →
  p' = list_to_set l ∪ p ∧ size p' ≤ MAX_NETWORK_PROXY_ENDPOINTS.
Proof.
  revert p. induction l as [|e l IH]; intros p; cbn [add_endpoints].
  - intros [= <-] H. split; [set_solver|done].
  - case_decide; [done|]. intros Ha _. apply IH in Ha as [-> Hs]; [|lia]. split; [set_solver|done].
Qed.

Definition named_by (domains : list string) (e : ApprovedNetworkEndpoint) : Prop :=
  ∃ d, d ∈ domains ∧ parse_permission_domain d = Ok [e].

Lemma from_domains_ok domains p :
  from_permission_domains domains = Ok p →
  size p ≤ MAX_NETWORK_PROXY_ENDPOINTS ∧ ∀ e, e ∈ p ↔ named_by domains e.
Proof.
  unfold from_permission_domains.
  assert (∀ p0 p', fold_result (λ p domain, let? endpoints := parse_permission_domain domain in
      add_endpoints endpoints p) p0 domains = Ok p' → size p0 ≤ MAX_NETWORK_PROXY_ENDPOINTS →
    size p' ≤ MAX_NETWORK_PROXY_ENDPOINTS ∧ ∀ e, e ∈ p' ↔ e ∈ p0 ∨ named_by domains e) as Hgen.
  { induction domains as [|d ds IH]; intros p0 p'; cbn [fold_result].
    - intros [= <-] Hs. split; [done|]. intros e. split; [by left|]. intros [?|(d & ?%elem_of_nil & _)]; done.
    - intros H Hs. apply rbind_ok in H as (p1 & H1 & H). apply rbind_ok in H1 as (l & Hl & H1).
      apply add_endpoints_ok in H1 as [-> Hs1]; [|done]. apply IH in H as [Hs' Hin]; [|done]. split; [done|].
      intros e. rewrite Hin, elem_of_union, elem_of_list_to_set. unfold named_by. setoid_rewrite elem_of_cons.
      pose proof (parse_permission_ok _ _ Hl) as (h & port & -> & _). rewrite list_elem_of_singleton. split.
      + intros [[->|?]|(d' & ? & ?)]; [right; exists d; auto|by left|right; exists d'; auto].
      + intros [?|(d' & [->|?] & Hd')]; [auto| |right; eauto]. rewrite Hl in Hd'. injection Hd' as ->. auto. }
  intros H. destruct (Hgen ∅ p H) as [Hs Hin]; [by rewrite size_empty; unfold MAX_NETWORK_PROXY_ENDPOINTS; lia|].
  split; [done|]. intros e. rewrite Hin. set_solver.
Qed.

(** C23: a process that runs with network permissions reaches the endpoints they
    name and no others.  A policy that is accepted has at most 32 endpoints; it
    permits a host and a port exactly when one of the permissions names them, up
    to the case of the host and a final dot; none of its hosts is an IP address,
    [localhost] or a metadata service; and a permission covers another exactly
    when both name the same host and port. *)
Theorem network_policy_exact (domains : list string) (p : NetworkProxyPolicy) :
  from_permission_domains domains = Ok p →
  size p ≤ 32 ∧
  (∀ host port, permits p host port = true ↔
     ∃ h, normalize_host host = Ok h ∧ named_by domains (h, port)) ∧
  (∀ h port, (h, port) ∈ p →
     permits p h port = true ∧ is_ip_literal h = false ∧ names_metadata_service h = false ∧
     (1 ≤ port ≤ 65535)%Z) ∧
  (∀ requested allowed, permission_domain_is_covered requested allowed = Ok true ↔
     ∃ e, parse_permission_domain requested = Ok [e] ∧ parse_permission_domain allowed = Ok [e]).
Proof.
  intros H. apply from_domains_ok in H as [Hs Hin]. split_and!.
  - exact Hs.
  - intros host port. unfold permits. destruct (normalize_host host) as [h|e].
    + rewrite bool_decide_eq_true, Hin. split; [by eexists|]. by intros (h' & [= <-] & ?).
    + split; [done|]. by intros (h' & ? & _).
  - intros h port He. pose proof He as He'. apply Hin in He as (d & _ & Hd).
    apply parse_permission_ok in Hd as (h' & port' & [= <- <-] & Hn & ? & ? & ?). split; [|done].
    unfold permits. rewrite Hn. by apply bool_decide_eq_true.
  - intros r a. unfold permission_domain_is_covered. split.
    + intros (lr & Hr & H)%rbind_ok. apply rbind_ok in H as (la & Ha & H). injection H as H.
      pose proof (parse_permission_ok _ _ Hr) as (h & port & -> & _).
      pose proof (parse_permission_ok _ _ Ha) as (h' & port' & -> & _).
      exists (h, port). split; [done|]. simpl in H. rewrite andb_true_r, bool_decide_eq_true in H.
      apply list_elem_of_singleton in H as [= <- <-]. done.
    + intros (e & -> & ->). cbn [rbind forallb]. by rewrite bool_decide_eq_true_2 by (by left).
Qed.

Definition sample_domains : list string := ["https://API.example.test/v1"; "cdn.example.test:8443"].

Lemma network_policy_exact_witness :
  ∃ p, from_permission_domains sample_domains = Ok p ∧ size p ≤ 32 ∧
    permits p "api.example.test." 443 = true ∧ permits p "api.example.test" 80 = false.
Proof.
  assert (is_ok (from_permission_domains sample_domains) = true) as Hok by (vm_compute; reflexivity).
  destruct (from_permission_domains sample_domains) as [p|e] eqn:H; [|discriminate Hok].
  exists p. destruct (network_policy_exact sample_domains p H) as (Hs & Hp & _). split; [reflexivity|].
  split; [exact Hs|]. split.
  - apply Hp. exists "api.example.test". split; [vm_compute; reflexivity|].
    exists "https://API.example.test/v1". split; [by left|vm_compute; reflexivity].
  - apply not_true_iff_false. intros (h & Hn & d & Hd & Hpar)%Hp. vm_compute in Hn. injection Hn as <-.
    repeat (apply elem_of_cons in Hd as [->|Hd]; [vm_compute in Hpar; discriminate Hpar|]).
    by apply elem_of_nil in Hd.
Defined.
