(* ===== verification/PermissionTypes.v ===== *)
(** * Effects and permissions

    crates/solaris-types/src/{effect,permission}.rs: what an effect asks for, and
    the modes, rules, leases and boundaries that decide about it. *)
From S2P Require Import Prelude Json Types WorkflowTypes.

Abbreviation EffectId := string (only parsing).

Inductive PermissionMode : Type := Plan | Auto | Bypass.
#[export] Instance PermissionMode_eq_dec : EqDecision PermissionMode.
Proof. solve_decision. Defined.

Inductive PermissionDecision : Type := Allow | AutoReview | Ask | Deny.
#[export] Instance PermissionDecision_eq_dec : EqDecision PermissionDecision.
Proof. solve_decision. Defined.

(** The derived [Debug]. *)
Definition mode_debug (m : PermissionMode) : string :=
  match m with Plan => "Plan" | Auto => "Auto" | Bypass => "Bypass" end.

Inductive EffectReplayPolicy : Type := Never | Idempotent | ReplaySafe | ReconcileRequired | Compensatable.

Record ProcessInvocation : Type := { pi_executable : string; pi_argv : list string }.
#[export] Instance ProcessInvocation_eq_dec : EqDecision ProcessInvocation.
Proof. solve_decision. Defined.

Record ResourceFootprint : Type := {
  rf_unrestricted_file_reads : bool;
  rf_unrestricted_file_writes : bool;
  rf_unrestricted_network : bool;
  rf_unrestricted_process : bool;
  rf_file_reads : list string;
  rf_file_writes : list string;
  rf_network_domains : list string;
  rf_process_commands : list string;
  rf_process_invocations : list ProcessInvocation;
  rf_external_resources : list string;
  rf_mesh_resources : list string;
}.

Definition footprint_default : ResourceFootprint :=
  {| rf_unrestricted_file_reads := false; rf_unrestricted_file_writes := false;
     rf_unrestricted_network := false; rf_unrestricted_process := false; rf_file_reads := [];
     rf_file_writes := []; rf_network_domains := []; rf_process_commands := [];
     rf_process_invocations := []; rf_external_resources := []; rf_mesh_resources := [] |}.

Record EffectDescriptor : Type := {
  ed_class : EffectClass;
  ed_action : string;
  ed_resources : ResourceFootprint;
  ed_replay_policy : EffectReplayPolicy;
}.

Record EffectRequest : Type := {
  rq_effect_id : EffectId;
  rq_operation_id : OperationId;
  rq_capability : string;
  rq_descriptor : EffectDescriptor;
  rq_effective_input : Value;
  rq_input_digest : option string;
}.

Record PermissionRule : Type := {
  pr_capability : option string;
  pr_action : option string;
  pr_effect_class : option EffectClass;
  pr_resource_prefixes : list string;
  pr_decision : PermissionDecision;
}.

Inductive LeaseScope : Type :=
  | ScopeEffect (effect_id : EffectId)
  | ScopeOperation (operation_id : OperationId)
  | ScopeRun (run_id : RunId).

Record AdditionalPermissions : Type := {
  xp_unrestricted_file_reads : bool;
  xp_unrestricted_file_writes : bool;
  xp_unrestricted_network : bool;
  xp_unrestricted_process : bool;
  xp_file_reads : list string;
  xp_file_writes : list string;
  xp_network_domains : list string;
  xp_process_command_prefix : option string;
  xp_process_invocations : list ProcessInvocation;
}.

Record CapabilityLease : Type := {
  cl_lease_id : string;
  cl_capability : string;
  cl_action : option string;
  cl_scope : LeaseScope;
  cl_grants : AdditionalPermissions;
  cl_max_uses : option Z;
  cl_expires_at_unix_ms : option Z;
}.

Record ExecutionBoundary : Type := {
  eb_readable_roots : list string;
  eb_unrestricted_file_reads : bool;
  eb_writable_roots : list string;
  eb_unrestricted_file_writes : bool;
  eb_network_domains : list string;
  eb_process_command_prefixes : list string;
  eb_process_invocations : list ProcessInvocation;
  eb_unrestricted_process : bool;
  eb_external_resource_prefixes : list string;
  eb_unrestricted_external_side_effects : bool;
  eb_unrestricted_network : bool;
}.

Definition boundary_workspace (root : string) : ExecutionBoundary :=
  {| eb_readable_roots := [root]; eb_unrestricted_file_reads := false; eb_writable_roots := [root];
     eb_unrestricted_file_writes := false; eb_network_domains := [];
     eb_process_command_prefixes := []; eb_process_invocations := [];
     eb_unrestricted_process := false; eb_external_resource_prefixes := [];
     eb_unrestricted_external_side_effects := false; eb_unrestricted_network := false |}.

Definition boundary_unrestricted : ExecutionBoundary :=
  {| eb_readable_roots := []; eb_unrestricted_file_reads := true; eb_writable_roots := [];
     eb_unrestricted_file_writes := true; eb_network_domains := [];
     eb_process_command_prefixes := []; eb_process_invocations := [];
     eb_unrestricted_process := true; eb_external_resource_prefixes := [];
     eb_unrestricted_external_side_effects := true; eb_unrestricted_network := true |}.

(** ** Ceilings *)

Lemma ceiling_intersect_allows a b class :
  ceiling_allows (ceiling_intersect a b) class = ceiling_allows a class && ceiling_allows b class.
Proof. by destruct class. Qed.

Lemma ceiling_unrestricted_allows class : ceiling_allows ceiling_unrestricted class = true.
Proof. by destruct class. Qed.
