(* ===== verification/PermissionEngine.v ===== *)
(** * The permission engine: decisions

    crates/solaris-agent/src/permission_engine.rs and permission_engine/
    evaluation.rs: how rules, the preset of the mode and a ceiling decide about an
    effect, what a boundary allows, what a lease covers, the reviewer of the mode
    Auto, and the store of leases. *)
From S2P Require Import Prelude Json Types WorkflowTypes Paths NetworkDomains PermissionTypes.

(** ** Commands and resources *)

(** The characters a shell gives a meaning to. *)
Definition shell_characters : list ascii :=
  ["&"%char; "|"%char; ";"%char; ">"%char; "<"%char; "`"%char; "010"%char; "013"%char].

Definition command_is_structurally_safe (command : string) : bool :=
  let trimmed := trim command in
  nonempty_string trimmed && negb (contains_any shell_characters trimmed) &&
  negb (contains trimmed "$(").

Definition is_low_risk_introspection_command (command : string) : bool :=
  let command := to_ascii_lowercase (trim command) in
  if bool_decide (command = "") || contains_any shell_characters command || contains command "$("
  then false
  else bool_decide (command = "pwd") || bool_decide (command = "git status") ||
       starts_with command "git status " || bool_decide (command = "git log") ||
       starts_with command "git log " || bool_decide (command = "git rev-parse --show-toplevel") ||
       bool_decide (command = "git branch --show-current").

Definition namespaced_resource_matches (resource allowed : string) : bool :=
  bool_decide (resource = allowed) ||
  match strip_prefix allowed resource with
  | Some suffix => starts_with suffix ":" || starts_with suffix "/" || starts_with suffix "#"
  | None => false
  end.

Definition domain_matches (domain allowed : string) : bool :=
  bool_decide (allowed = "*") ||
  match permission_domain_is_covered domain allowed with Ok b => b | Err _ => false end.

(** ** The reviewer *)

Definition PermissionReviewer : Type := EffectRequest → PermissionDecision.

Definition deterministic_auto_reviewer : PermissionReviewer := λ request,
  match ed_class (rq_descriptor request) with
  | Process =>
      let commands := rf_process_commands (ed_resources (rq_descriptor request)) in
      if forallb is_low_risk_introspection_command commands && negb (bool_decide (commands = []))
      then Allow else Ask
  | _ => Ask
  end.

(** ** Rules *)

Definition runtime_rule (capability : string) : PermissionRule :=
  {| pr_capability := Some capability; pr_action := None; pr_effect_class := Some Network;
     pr_resource_prefixes := []; pr_decision := Allow |}.

Definition replace_runtime_rules (generated : gmap string (list PermissionRule)) :
    gmap string (list PermissionRule) :=
  <["runtime:permission-mode" := runtime_rule <$> ["ProviderRequest"; "AutoCompact"]]> generated.

Definition preset_default (mode : PermissionMode) (class : EffectClass) : PermissionDecision :=
  match mode with
  | Plan =>
      match class with
      | ReadOnly | AgentLifecycle | MeshStateMutation => Allow
      | WorkspaceMutation | Process | Network | ExternalSideEffect => Deny
      end
  | Auto =>
      match class with
      | ReadOnly | AgentLifecycle | MeshStateMutation | WorkspaceMutation => Allow
      | Process | Network => AutoReview
      | ExternalSideEffect => Ask
      end
  | Bypass => Allow
  end.

(** [option.is_some_and(|value| value != x)]. *)
Definition other_than {A} `{EqDecision A} (o : option A) (x : A) : bool :=
  match o with Some v => bool_decide (v ≠ x) | None => false end.

Section evaluation.
Context {I : Type} (fs : FileSystem I).

(** Which resources of the effect match a prefix of the rule. *)
Definition resource_matches (rule : PermissionRule) (d : EffectDescriptor) : list bool :=
  let prefixes := pr_resource_prefixes rule in
  let r := ed_resources d in
  ((λ resource, existsb (permission_path_matches fs resource) prefixes) <$> rf_file_reads r ++ rf_file_writes r) ++
  ((λ domain, existsb (domain_matches domain) prefixes) <$> rf_network_domains r) ++
  ((λ command, existsb (λ approved, bool_decide (command = approved) && command_is_structurally_safe command)
                 prefixes) <$> rf_process_commands r) ++
  ((λ resource, existsb (namespaced_resource_matches resource) prefixes) <$> rf_external_resources r) ++
  ((λ resource, existsb (namespaced_resource_matches resource) prefixes) <$> rf_mesh_resources r).

Definition rule_matches (rule : PermissionRule) (capability : string) (d : EffectDescriptor) : bool :=
  if other_than (pr_capability rule) capability then false
  else if other_than (pr_action rule) (ed_action d) then false
  else if other_than (pr_effect_class rule) (ed_class d) then false
  else if bool_decide (pr_resource_prefixes rule = []) then true
  else
    let matching := resource_matches rule d in
    if bool_decide (matching = []) then false
    else if decide (pr_decision rule = Deny) then existsb id matching
    else forallb id matching.

(** ** Leases *)

Record LeaseEntry : Type := { le_lease : CapabilityLease; le_uses : Z }.

Definition grants_cover (grants : AdditionalPermissions) (d : EffectDescriptor) : bool :=
  let r := ed_resources d in
  bool_decide (rf_external_resources r = []) &&
  (negb (rf_unrestricted_file_reads r) || xp_unrestricted_file_reads grants) &&
  (negb (rf_unrestricted_file_writes r) || xp_unrestricted_file_writes grants) &&
  (negb (rf_unrestricted_network r) || xp_unrestricted_network grants) &&
  (negb (rf_unrestricted_process r) || xp_unrestricted_process grants) &&
  forallb (λ resource, existsb (path_within fs resource) (xp_file_reads grants)) (rf_file_reads r) &&
  forallb (λ resource, existsb (path_within fs resource) (xp_file_writes grants)) (rf_file_writes r) &&
  forallb (λ domain, existsb (domain_matches domain) (xp_network_domains grants)) (rf_network_domains r) &&
  forallb (λ command,
    match xp_process_command_prefix grants with
    | Some approved =>
        bool_decide (command = approved) &&
        (negb (bool_decide (rf_process_invocations r = [])) || command_is_structurally_safe command)
    | None => false
    end) (rf_process_commands r) &&
  forallb (λ invocation, bool_decide (invocation ∈ xp_process_invocations grants))
    (rf_process_invocations r).

Definition lease_matches (entry : LeaseEntry) (run_id : RunId) (request : EffectRequest) (now : Z) : bool :=
  let lease := le_lease entry in
  if bool_decide (cl_capability lease ≠ rq_capability request) then false
  else if other_than (cl_action lease) (ed_action (rq_descriptor request)) then false
  else if match cl_expires_at_unix_ms lease with Some t => bool_decide (t ≤ now)%Z | None => false end
  then false
  else if match cl_max_uses lease with Some n => bool_decide (n ≤ le_uses entry)%Z | None => false end
  then false
  else
    match cl_scope lease with
    | ScopeEffect effect_id => bool_decide (effect_id = rq_effect_id request)
    | ScopeOperation operation_id =>
        bool_decide (operation_id = rq_operation_id request) && grants_cover (cl_grants lease) (rq_descriptor request)
    | ScopeRun lease_run => bool_decide (lease_run = run_id) && grants_cover (cl_grants lease) (rq_descriptor request)
    end.

(** [CapabilityLeaseStore]. *)
Definition restore_lease_entry (leases : list LeaseEntry) (lease : CapabilityLease) (uses : Z) :
    list LeaseEntry :=
  (if bool_decide (cl_lease_id lease = "") then leases
   else List.filter (λ entry, negb (bool_decide (cl_lease_id (le_lease entry) = cl_lease_id lease))) leases)
  ++ [{| le_lease := lease; le_uses := uses |}].

Definition issue_lease_entry (leases : list LeaseEntry) (lease : CapabilityLease) : list LeaseEntry :=
  restore_lease_entry leases lease 0.

Definition leases_cover (leases : list LeaseEntry) (run_id : RunId) (request : EffectRequest) (now : Z) : bool :=
  existsb (λ entry, lease_matches entry run_id request now) leases.

(** [consume_with]: the first lease that matches is used once more, after its
    use was made durable by [persist], which runs on a store [W] of its own. *)
Fixpoint consume_entry {W E} (persist : W → string → Z → W * result unit E) (w : W)
    (leases : list LeaseEntry) (run_id : RunId) (request : EffectRequest) (now : Z) :
    W * list LeaseEntry * result bool E :=
  match leases with
  | [] => (w, [], Ok false)
  | entry :: rest =>
      if lease_matches entry run_id request now then
        let next_use := Z.min u32_max (le_uses entry + 1) in
        match persist w (cl_lease_id (le_lease entry)) next_use with
        | (w, Ok _) => (w, {| le_lease := le_lease entry; le_uses := next_use |} :: rest, Ok true)
        | (w, Err e) => (w, leases, Err e)
        end
      else
        match consume_entry persist w rest run_id request now with
        | (w, rest, r) => (w, entry :: rest, r)
        end
  end.

(** ** Boundaries *)

Definition boundary_allows (b : ExecutionBoundary) (d : EffectDescriptor) : bool :=
  let r := ed_resources d in
  let reads_allowed :=
    (negb (rf_unrestricted_file_reads r) || eb_unrestricted_file_reads b) &&
    (bool_decide (rf_file_reads r = []) || eb_unrestricted_file_reads b ||
     forallb (λ resource, existsb (path_within fs resource) (eb_readable_roots b)) (rf_file_reads r)) in
  let writes_allowed :=
    if rf_unrestricted_file_writes r && negb (eb_unrestricted_file_writes b) then false
    else if bool_decide (rf_file_writes r = [])
    then negb (bool_decide (ed_class d = WorkspaceMutation)) || eb_unrestricted_file_writes b
    else eb_unrestricted_file_writes b ||
         forallb (λ resource, existsb (path_within fs resource) (eb_writable_roots b)) (rf_file_writes r) in
  let network_allowed :=
    if rf_unrestricted_network r && negb (eb_unrestricted_network b) then false
    else if bool_decide (rf_network_domains r = [])
    then negb (bool_decide (ed_class d = Network)) || eb_unrestricted_network b
    else eb_unrestricted_network b ||
         forallb (λ domain, existsb (domain_matches domain) (eb_network_domains b)) (rf_network_domains r) in
  let process_commands_allowed :=
    bool_decide (rf_process_commands r = []) || eb_unrestricted_process b ||
    forallb (λ command,
      existsb (λ approved, bool_decide (command = approved) &&
        (negb (bool_decide (rf_process_invocations r = [])) || command_is_structurally_safe command))
        (eb_process_command_prefixes b)) (rf_process_commands r) in
  let process_invocations_allowed :=
    bool_decide (rf_process_invocations r = []) || eb_unrestricted_process b ||
    forallb (λ invocation, bool_decide (invocation ∈ eb_process_invocations b)) (rf_process_invocations r) in
  let process_allowed :=
    if rf_unrestricted_process r && negb (eb_unrestricted_process b) then false
    else if bool_decide (rf_process_commands r = []) && bool_decide (rf_process_invocations r = [])
    then negb (bool_decide (ed_class d = Process)) || eb_unrestricted_process b
    else process_commands_allowed && process_invocations_allowed in
  let external_allowed :=
    if bool_decide (rf_external_resources r = [])
    then negb (bool_decide (ed_class d = ExternalSideEffect)) || eb_unrestricted_external_side_effects b
    else eb_unrestricted_external_side_effects b ||
         forallb (λ resource, existsb (namespaced_resource_matches resource) (eb_external_resource_prefixes b))
           (rf_external_resources r) in
  reads_allowed && writes_allowed && network_allowed && process_allowed && external_allowed.

(** ** Evaluation *)

Record PermissionEvaluation : Type := {
  pe_decision : PermissionDecision;
  pe_matched_rule_index : option nat;
  pe_matched_lease : bool;
  pe_reason : string;
}.

Definition denied (reason : string) : PermissionEvaluation :=
  {| pe_decision := Deny; pe_matched_rule_index := None; pe_matched_lease := false; pe_reason := reason |}.

(** The last rule that matches, and the last one that denies. *)
Fixpoint match_rules (index : nat) (rules : list PermissionRule) (capability : string) (d : EffectDescriptor)
    (latest latest_deny : option (nat * PermissionDecision)) : option (nat * PermissionDecision) :=
  match rules with
  | [] => match latest_deny with Some m => Some m | None => latest end
  | rule :: rules =>
      if rule_matches rule capability d then
        let m := Some (index, pr_decision rule) in
        match_rules (S index) rules capability d m
          (if decide (pr_decision rule = Deny) then m else latest_deny)
      else match_rules (S index) rules capability d latest latest_deny
  end.

Record PermissionEngine : Type := {
  en_mode : PermissionMode;
  en_hard_ceiling : PermissionCeiling;
  en_scope_ceiling : PermissionCeiling;
  en_role_ceiling : PermissionCeiling;
  en_rules : list PermissionRule;
}.

Definition effective_ceiling (e : PermissionEngine) : PermissionCeiling :=
  ceiling_intersect (ceiling_intersect (en_hard_ceiling e) (en_scope_ceiling e)) (en_role_ceiling e).

Definition engine_evaluate (e : PermissionEngine) (capability : string) (d : EffectDescriptor) :
    PermissionEvaluation :=
  let mode := en_mode e in
  let ceiling := if decide (mode = Plan) then ceiling_intersect (effective_ceiling e) ceiling_plan
                 else effective_ceiling e in
  if negb (ceiling_allows ceiling (ed_class d)) then denied "effect exceeds permission ceiling"
  else
    let matched := match_rules 0 (en_rules e) capability d None None in
    let base := default (preset_default mode (ed_class d)) (snd <$> matched) in
    {| pe_decision :=
         match mode, base with
         | _, Deny => Deny
         | Bypass, Ask | Bypass, AutoReview => Allow
         | _, _ => base
         end;
       pe_matched_rule_index := fst <$> matched;
       pe_matched_lease := false;
       pe_reason := if bool_decide (is_Some (fst <$> matched)) then "matched ordered permission rule"
                    else mode_debug mode +:+ " preset default" |}.
End evaluation.
