(* ===== verification/ProtectedPaths.v ===== *)
(** * Protected paths and the identities of boundaries

    crates/solaris-agent/src/permission_engine/{protected_paths,boundary_identity}.rs.
    The state of the runtime is protected by path, by the directory and name of
    its files, and by the identity of every object that was ever found there; what
    does not fit into the retained identities closes the policy for good.  The
    roots of a boundary are the directories they were when it was set. *)
From S2P Require Import Prelude Json Types WorkflowTypes Paths NetworkDomains PermissionTypes PermissionEngine.

Definition MAX_RETAINED_IDENTITIES : nat := 64.
Definition RETAINED_IDENTITY_CAPACITY_ERROR : string :=
  "protected runtime retained identity capacity exhausted".

(** ** Order of paths *)

Definition component_rank (c : Component) : nat :=
  match c with RootDir => 0 | CurDir => 1 | ParentDir => 2 | Normal _ => 3 end.

Definition component_compare (c d : Component) : comparison :=
  match c, d with
  | Normal a, Normal b => String.compare a b
  | _, _ => Nat.compare (component_rank c) (component_rank d)
  end.

Fixpoint path_compare (p q : Path) : comparison :=
  match p, q with
  | [], [] => Eq
  | [], _ :: _ => Lt
  | _ :: _, [] => Gt
  | c :: p, d :: q => match component_compare c d with Eq => path_compare p q | o => o end
  end.

Definition path_le (p q : Path) : Prop := path_compare p q ≠ Gt.
#[export] Instance path_le_dec p q : Decision (path_le p q).
Proof. unfold path_le. destruct (path_compare p q); [left|left|right]; congruence. Defined.

(** [dedup] of a sorted list. *)
Fixpoint dedup {A} `{EqDecision A} (l : list A) : list A :=
  match l with
  | x :: l =>
      match dedup l with
      | y :: l' => if decide (x = y) then y :: l' else x :: y :: l'
      | [] => [x]
      end
  | [] => []
  end.

Definition path_parent (p : Path) : option Path := pop p.
Definition path_file_name (p : Path) : option string :=
  match reverse p with Normal n :: _ => Some n | _ => None end.

(** ** Protected paths *)

Record ProtectedRoot (I : Type) : Type := { pt_path : Path; pt_identity : I }.
Arguments pt_path {I} _.
Arguments pt_identity {I} _.
Record ProtectedFileSlot (I : Type) : Type := { sl_parent_identity : I; sl_file_name : string }.
Arguments sl_parent_identity {I} _.
Arguments sl_file_name {I} _.

Record ProtectedPathPolicy (I : Type) : Type := {
  pp_roots : list (ProtectedRoot I);
  pp_files : list Path;
  pp_slots : list (ProtectedFileSlot I);
  pp_file_identities : list I;
  pp_retention_exhausted : bool;
}.
Arguments pp_roots {I} _.
Arguments pp_files {I} _.
Arguments pp_slots {I} _.
Arguments pp_file_identities {I} _.
Arguments pp_retention_exhausted {I} _.

Section policy.
Context {I : Type} `{EqDecision I}.
Notation Policy := (ProtectedPathPolicy I).

Definition policy_default : Policy :=
  {| pp_roots := []; pp_files := []; pp_slots := []; pp_file_identities := [];
     pp_retention_exhausted := false |}.

Definition policy_is_empty (p : Policy) : bool :=
  negb (pp_retention_exhausted p) && bool_decide (pp_roots p = []) && bool_decide (pp_files p = []).

Definition add_root (p : Policy) (r : ProtectedRoot I) : Policy :=
  {| pp_roots := pp_roots p ++ [r]; pp_files := pp_files p; pp_slots := pp_slots p;
     pp_file_identities := pp_file_identities p; pp_retention_exhausted := pp_retention_exhausted p |}.
Definition add_file (p : Policy) (f : Path) : Policy :=
  {| pp_roots := pp_roots p; pp_files := pp_files p ++ [f]; pp_slots := pp_slots p;
     pp_file_identities := pp_file_identities p; pp_retention_exhausted := pp_retention_exhausted p |}.
Definition add_slot (p : Policy) (s : ProtectedFileSlot I) : Policy :=
  {| pp_roots := pp_roots p; pp_files := pp_files p; pp_slots := pp_slots p ++ [s];
     pp_file_identities := pp_file_identities p; pp_retention_exhausted := pp_retention_exhausted p |}.
Definition add_identity (p : Policy) (i : I) : Policy :=
  {| pp_roots := pp_roots p; pp_files := pp_files p; pp_slots := pp_slots p;
     pp_file_identities := pp_file_identities p ++ [i];
     pp_retention_exhausted := pp_retention_exhausted p |}.
Definition exhaust (p : Policy) : Policy :=
  {| pp_roots := pp_roots p; pp_files := pp_files p; pp_slots := pp_slots p;
     pp_file_identities := pp_file_identities p; pp_retention_exhausted := true |}.
Definition sort_policy (p : Policy) : Policy :=
  {| pp_roots := merge_sort (λ a b, path_le (pt_path a) (pt_path b)) (pp_roots p);
     pp_files := merge_sort path_le (pp_files p); pp_slots := pp_slots p;
     pp_file_identities := pp_file_identities p; pp_retention_exhausted := pp_retention_exhausted p |}.

(** [registered.same_object(...)] of something that is retained. *)
Definition knows_root (p : Policy) (i : I) : bool :=
  existsb (λ r, bool_decide (pt_identity r = i)) (pp_roots p).
Definition same_slot (a b : ProtectedFileSlot I) : bool :=
  bool_decide (sl_file_name a = sl_file_name b) && bool_decide (sl_parent_identity a = sl_parent_identity b).
Definition knows_slot (p : Policy) (s : ProtectedFileSlot I) : bool := existsb (λ r, same_slot r s) (pp_slots p).
Definition knows_identity (p : Policy) (i : I) : bool :=
  existsb (λ r, bool_decide (r = i)) (pp_file_identities p).

Definition ensure_retention_available (p : Policy) : result unit string :=
  ensure (negb (pp_retention_exhausted p)) RETAINED_IDENTITY_CAPACITY_ERROR.

Definition ensure_capacity (p : Policy) (retained : nat) : Policy * result unit string :=
  if decide (retained < MAX_RETAINED_IDENTITIES) then (p, Ok tt)
  else (exhaust p, Err RETAINED_IDENTITY_CAPACITY_ERROR).

Definition remember_file_identity (p : Policy) (candidate : I) : Policy * result unit string :=
  if knows_identity p candidate then (p, Ok tt)
  else sbind (ensure_capacity p (length (pp_file_identities p))) (λ p _, (add_identity p candidate, Ok tt)).

Section filesystem.
Context (fs : FileSystem I).

Definition open_file_slot (path : Path) : result (ProtectedFileSlot I) string :=
  let? parent_path := ok_or (path_parent path) "protected runtime state path has no parent" in
  let? file_name := ok_or (path_file_name path) "protected runtime state path has no file name" in
  let? identity := ok_or (fs_open_dir fs parent_path) "failed to open protected runtime state parent" in
  Ok {| sl_parent_identity := identity; sl_file_name := file_name |}.

Definition open_slot_identity (s : ProtectedFileSlot I) : result (option I) string :=
  match fs_open_in fs (sl_parent_identity s) (sl_file_name s) with
  | OpenedAs i => Ok (Some i)
  | NotFound => Ok None
  | OpenFailed => Err "failed to refresh protected runtime state identity"
  end.

Definition new_identity (p : Policy) (identity : option I) : option I :=
  i ← identity; if knows_identity p i then None else Some i.

(** One state path of [register]. *)
Definition register_state_path (p : Policy) (requested : Path) : Policy * result unit string :=
  slift p (ok_or (resolve_policy_path fs requested) "failed to resolve protected runtime state path") (λ path,
  slift p (open_file_slot path) (λ slot,
  slift p (open_slot_identity slot) (λ identity,
  let new_path := negb (bool_decide (path ∈ pp_files p)) in
  let new_slot := negb (knows_slot p slot) in
  let identity := new_identity p identity in
  sbind (if new_path then ensure_capacity p (length (pp_files p)) else (p, Ok tt)) (λ p _,
  sbind (if new_slot then ensure_capacity p (length (pp_slots p)) else (p, Ok tt)) (λ p _,
  sbind (if bool_decide (is_Some identity) then ensure_capacity p (length (pp_file_identities p))
         else (p, Ok tt)) (λ p _,
  let p := if new_path then add_file p path else p in
  let p := if new_slot then add_slot p slot else p in
  (match identity with Some i => add_identity p i | None => p end, Ok tt))))))).

Fixpoint register_state_paths (p : Policy) (paths : list Path) : Policy * result unit string :=
  match paths with
  | [] => (p, Ok tt)
  | path :: paths => sbind (register_state_path p path) (λ p _, register_state_paths p paths)
  end.

Definition register_protected (p : Policy) (root : Path) (state_paths : list Path) :
    Policy * result unit string :=
  slift p (ensure_retention_available p) (λ _,
  slift p (ok_or (resolve_policy_path fs root) "failed to resolve protected runtime root") (λ root_path,
  slift p (ok_or (fs_open_dir fs root_path) "failed to open protected runtime root") (λ identity,
  sbind (if knows_root p identity then (p, Ok tt)
         else sbind (ensure_capacity p (length (pp_roots p))) (λ p _,
                (add_root p {| pt_path := root_path; pt_identity := identity |}, Ok tt))) (λ p _,
  sbind (register_state_paths p state_paths) (λ p _, (sort_policy p, Ok tt)))))).

Fixpoint refresh_slots (p : Policy) (slots : list (ProtectedFileSlot I)) : Policy * result unit string :=
  match slots with
  | [] => (p, Ok tt)
  | s :: slots =>
      slift p (open_slot_identity s) (λ identity,
      sbind (match identity with Some i => remember_file_identity p i | None => (p, Ok tt) end) (λ p _,
      refresh_slots p slots))
  end.

Definition refresh_file_identities (p : Policy) : Policy * result unit string :=
  slift p (ensure_retention_available p) (λ _, refresh_slots p (pp_slots p)).

(** One kind of thing to merge: what is not known is added while there is room;
    the first that does not fit ends the merge. *)
Fixpoint merge_all {A} (known : Policy → A → bool) (count : Policy → nat) (add : Policy → A → Policy)
    (p : Policy) (items : list A) : Policy * result unit string :=
  match items with
  | [] => (p, Ok tt)
  | a :: items =>
      if known p a then merge_all known count add p items
      else sbind (ensure_capacity p (count p)) (λ p _, merge_all known count add (add p a) items)
  end.

Definition merge_policy (p other : Policy) : Policy :=
  if pp_retention_exhausted p || pp_retention_exhausted other then exhaust p
  else
    (sbind (merge_all (λ p r, knows_root p (pt_identity r)) (λ p, length (pp_roots p)) add_root p (pp_roots other)) (λ p _,
     sbind (merge_all (λ p f, bool_decide (f ∈ pp_files p)) (λ p, length (pp_files p)) add_file p (pp_files other)) (λ p _,
     sbind (merge_all knows_slot (λ p, length (pp_slots p)) add_slot p (pp_slots other)) (λ p _,
     sbind (merge_all knows_identity (λ p, length (pp_file_identities p)) add_identity p (pp_file_identities other)) (λ p _,
     (sort_policy p, Ok tt)))))).1.

(** ** What is protected *)

Definition protects_resolved (p : Policy) (path : Path) : bool :=
  pp_retention_exhausted p || existsb (λ r, path_starts_with path (pt_path r)) (pp_roots p) ||
  bool_decide (path ∈ pp_files p).

Definition protects (p : Policy) (path : Path) : bool :=
  if pp_retention_exhausted p then true
  else match resolve_policy_path fs path with
       | Some path => protects_resolved p path
       | None => false
       end.

Definition protects_traversed_file (p : Policy) (path : Path) : bool :=
  if pp_retention_exhausted p then true
  else match normalize_absolute_path fs path with
       | Some path => protects_resolved p path
       | None => false
       end.

Definition protects_opened_directory (p : Policy) (path : Path) (identity : I) : bool :=
  pp_retention_exhausted p || protects_traversed_file p path || knows_root p identity.

Definition protects_file_slot (p : Policy) (path : Path) (parent_identity : I) (file_name : string) : bool :=
  pp_retention_exhausted p || protects_traversed_file p path ||
  knows_slot p {| sl_parent_identity := parent_identity; sl_file_name := file_name |}.

Definition protects_opened_file (p : Policy) (path : Path) (parent_identity : I) (file_name : string)
    (identity : I) : Policy * bool :=
  if pp_retention_exhausted p then (p, true)
  else
    let protected_slot := protects_file_slot p path parent_identity file_name in
    let protected_identity := knows_identity p identity in
    if protected_slot then
      match remember_file_identity p identity with
      | (p, Err _) => (p, true)
      | (p, Ok _) => (p, true)
      end
    else (p, protected_identity).

Definition protects_descriptor (p : Policy) (d : EffectDescriptor) : bool :=
  let paths := rf_file_reads (ed_resources d) ++ rf_file_writes (ed_resources d) in
  if pp_retention_exhausted p then negb (bool_decide (paths = []))
  else existsb (λ path, protects p (components path)) paths.

Definition policy_snapshot (p : Policy) : list Path :=
  dedup (merge_sort path_le ((pt_path <$> pp_roots p) ++ pp_files p)).

(** The identities of the objects, each once. *)
Fixpoint object_identities (l : list I) (identities : list I) : result (list I) string :=
  match l with
  | [] => Ok identities
  | retained :: l =>
      let? identity := ok_or (fs_object_identity fs retained) "protected runtime object identity is unavailable" in
      object_identities l (if bool_decide (identity ∈ identities) then identities else identities ++ [identity])
  end.

(** The paths and the identities a sandbox keeps a process away from. *)
Definition process_snapshot (p : Policy) : Policy * result (list Path * list I) string :=
  sbind (refresh_file_identities p) (λ p _,
  slift p (object_identities (pp_file_identities p) []) (λ identities, (p, Ok (policy_snapshot p, identities)))).

(** [path.display()] on Unix. *)
Definition component_text (c : Component) : string :=
  match c with RootDir => "" | CurDir => "." | ParentDir => ".." | Normal n => n end.
Fixpoint join_text (l : list string) : string :=
  match l with [] => "" | [s] => s | s :: l => s +:+ "/" +:+ join_text l end.
Definition path_display (p : Path) : string :=
  if decide (p = [RootDir]) then "/" else join_text (component_text <$> p).

Definition fingerprint_material (p : Policy) : list string :=
  ((λ r, "root:" +:+ path_display (pt_path r)) <$> pp_roots p) ++
  ((λ f, "file:" +:+ path_display f) <$> pp_files p) ++
  (if pp_retention_exhausted p then ["retained-identities:exhausted"] else []).
End filesystem.
End policy.

(** ** The identities of a boundary *)

Record BoundaryRoot (I : Type) : Type := {
  br_requested_path : Path;
  br_anchor_path : Path;
  br_anchor_identity : option I;
  br_directory_authority : option I;
  br_exact_kind : option RootKind;
}.
Arguments br_requested_path {I} _.
Arguments br_anchor_path {I} _.
Arguments br_anchor_identity {I} _.
Arguments br_directory_authority {I} _.
Arguments br_exact_kind {I} _.

Record BoundaryIdentityPolicy (I : Type) : Type := {
  bi_roots : list (BoundaryRoot I);
  bi_invalid : bool;
}.
Arguments bi_roots {I} _.
Arguments bi_invalid {I} _.

Section identities.
Context {I : Type} `{EqDecision I}.

Definition identities_default : BoundaryIdentityPolicy I := {| bi_roots := []; bi_invalid := false |}.

Section filesystem.
Context (fs : FileSystem I).

Definition open_identity (path : Path) (kind : option RootKind) : option I :=
  match kind with
  | Some KFile => fs_open_file fs path
  | Some KDirectory | None => fs_open_dir fs path
  end.

(** The identity of a directory, or the authority over it. *)
Definition capture_directory_root (path : Path) : option (option I * option I) :=
  match fs_root_authority fs path with
  | Some authority => Some (None, Some authority)
  | None => i ← open_identity path (Some KDirectory); Some (Some i, None)
  end.

(** The nearest ancestor that exists, from the end of the path. *)
Fixpoint existing_anchor (back : list Component) : option Path :=
  if fs_exists fs (reverse back) then Some (reverse back)
  else match back with
       | Normal _ :: rest => existing_anchor rest
       | _ => None
       end.

Definition capture_root (path : Path) : option (BoundaryRoot I) :=
  requested ← normalize_absolute_path fs path;
  if fs_exists fs requested then
    kind ← fs_kind fs requested;
    '(identity, authority) ←
      match kind with
      | KDirectory => capture_directory_root requested
      | KFile => i ← open_identity requested (Some kind); Some (Some i, None)
      end;
    Some {| br_requested_path := requested; br_anchor_path := requested; br_anchor_identity := identity;
            br_directory_authority := authority; br_exact_kind := Some kind |}
  else
    anchor ← existing_anchor (reverse requested);
    kind ← fs_kind fs anchor;
    match kind with
    | KFile => None
    | KDirectory =>
        '(identity, authority) ← capture_directory_root anchor;
        Some {| br_requested_path := requested; br_anchor_path := anchor; br_anchor_identity := identity;
                br_directory_authority := authority; br_exact_kind := None |}
    end.

Definition add_captured (p : BoundaryIdentityPolicy I) (root : string) : BoundaryIdentityPolicy I :=
  match capture_root (components root) with
  | Some captured => {| bi_roots := bi_roots p ++ [captured]; bi_invalid := bi_invalid p |}
  | None => {| bi_roots := bi_roots p; bi_invalid := true |}
  end.

Definition capture (b : ExecutionBoundary) : BoundaryIdentityPolicy I :=
  fold_left add_captured (dedup (merge_sort String.le (eb_readable_roots b ++ eb_writable_roots b)))
    identities_default.

(** The missing part of the path, one name after the other, stays below the
    anchor; the first that does not exist ends the check. *)
Fixpoint suffix_stays_beneath (anchor_resolved current : Path) (suffix : list Component) : bool :=
  match suffix with
  | [] => true
  | Normal name :: suffix =>
      let current := current ++ [Normal name] in
      match fs_symlink_metadata fs current with
      | OpenedAs _ =>
          match fs_canonicalize fs current with
          | Some resolved =>
              path_starts_with resolved anchor_resolved && suffix_stays_beneath anchor_resolved current suffix
          | None => false
          end
      | NotFound => true
      | OpenFailed => false
      end
  | _ :: _ => false
  end.

Definition missing_suffix_stays_beneath_anchor (root : BoundaryRoot I) : bool :=
  path_starts_with (br_requested_path root) (br_anchor_path root) &&
  match fs_canonicalize fs (br_anchor_path root) with
  | Some anchor_resolved =>
      suffix_stays_beneath anchor_resolved (br_anchor_path root)
        (drop (length (br_anchor_path root)) (br_requested_path root))
  | None => false
  end.

Definition root_validates_current_path (root : BoundaryRoot I) : bool :=
  match br_directory_authority root, br_anchor_identity root with
  | Some identity, _ => bool_decide (fs_current_identity fs (br_anchor_path root) = Some identity)
  | None, Some expected =>
      bool_decide (open_identity (br_anchor_path root) (br_exact_kind root) = Some expected)
  | None, None => false
  end &&
  (bool_decide (is_Some (br_exact_kind root)) || missing_suffix_stays_beneath_anchor root).

Definition validates_current_paths (p : BoundaryIdentityPolicy I) : bool :=
  negb (bi_invalid p) && forallb root_validates_current_path (bi_roots p).
End filesystem.

Definition identities_is_empty (p : BoundaryIdentityPolicy I) : bool :=
  negb (bi_invalid p) && match bi_roots p with [] => true | _ => false end.
End identities.
