(* ===== verification/PermissionContext.v ===== *)
(** * The permission engine: contexts

    [PermissionContext] of crates/solaris-agent/src/permission_engine.rs with
    permission_engine/{process_authorization,workspace_policy}.rs.  A context is
    a bundle of shared cells ([Arc<RwLock<_>>]): a child context has its own
    ceiling, and perhaps its own boundary, and shares everything else with its
    parent, so that a rule or a lease of one is a rule or a lease of the other.
    The cells live in a store, a context holds their addresses.  The spawn gate
    is a lock and makes each of these operations one step. *)
From S2P Require Import Prelude Json Types WorkflowTypes Paths NetworkDomains PermissionTypes PermissionEngine ProtectedPaths.

(** ** The store *)

Record PermissionPolicyState : Type := {
  ps_mode : PermissionMode;
  ps_rules : list PermissionRule;
  ps_generated_rules : gmap string (list PermissionRule);
}.

Record ConfiguredEffectGrant : Type := { cg_capability : string; cg_descriptor : EffectDescriptor }.

Definition Address : Type := nat.

Record Cells (I : Type) : Type := {
  ce_policies : gmap Address PermissionPolicyState;
  ce_ceilings : gmap Address PermissionCeiling;
  ce_leases : gmap Address (list LeaseEntry);
  ce_boundaries : gmap Address ExecutionBoundary;
  ce_identities : gmap Address (BoundaryIdentityPolicy I);
  ce_configured : gmap Address (gmap (string * string) ConfiguredEffectGrant);
  ce_reviewers : gmap Address PermissionReviewer;
  ce_protected : gmap Address (ProtectedPathPolicy I);
  ce_next : Address;
}.
Arguments ce_policies {I} _.
Arguments ce_ceilings {I} _.
Arguments ce_leases {I} _.
Arguments ce_boundaries {I} _.
Arguments ce_identities {I} _.
Arguments ce_configured {I} _.
Arguments ce_reviewers {I} _.
Arguments ce_protected {I} _.
Arguments ce_next {I} _.

Record PermissionContext : Type := {
  px_policy : Address;
  px_ceiling : Address;
  px_leases : Address;
  px_boundary : Address;
  px_boundary_ceilings : list ExecutionBoundary;
  px_boundary_identities : Address;
  px_boundary_identity_ceilings : list Address;
  px_configured_effects : Address;
  px_reviewer : Address;
  px_protected_paths : Address;
}.

(** The values of a [BTreeMap], in the order of its keys. *)
Definition pair_le (a b : string * string) : Prop :=
  match String.compare a.1 b.1 with Lt => True | Eq => String.compare a.2 b.2 ≠ Gt | Gt => False end.
#[export] Instance pair_le_dec a b : Decision (pair_le a b).
Proof. unfold pair_le. destruct (String.compare a.1 b.1); apply _. Defined.

Definition sorted_values {A} (m : gmap string A) : list A :=
  (merge_sort (λ a b, String.le a.1 b.1) (map_to_list m)).*2.
Definition sorted_pairs {A} (m : gmap (string * string) A) : list A :=
  (merge_sort (λ a b, pair_le a.1 b.1) (map_to_list m)).*2.

Section contexts.
Context {I : Type} `{EqDecision I}.
Notation Cells := (Cells I).

Definition empty_cells : Cells :=
  {| ce_policies := ∅; ce_ceilings := ∅; ce_leases := ∅; ce_boundaries := ∅; ce_identities := ∅;
     ce_configured := ∅; ce_reviewers := ∅; ce_protected := ∅; ce_next := 0 |}.

Definition set_policies (m : gmap Address PermissionPolicyState) (h : Cells) : Cells :=
  {| ce_policies := m; ce_ceilings := ce_ceilings h; ce_leases := ce_leases h;
     ce_boundaries := ce_boundaries h; ce_identities := ce_identities h; ce_configured := ce_configured h;
     ce_reviewers := ce_reviewers h; ce_protected := ce_protected h; ce_next := ce_next h |}.
Definition set_ceilings (m : gmap Address PermissionCeiling) (h : Cells) : Cells :=
  {| ce_policies := ce_policies h; ce_ceilings := m; ce_leases := ce_leases h;
     ce_boundaries := ce_boundaries h; ce_identities := ce_identities h; ce_configured := ce_configured h;
     ce_reviewers := ce_reviewers h; ce_protected := ce_protected h; ce_next := ce_next h |}.
Definition set_leases (m : gmap Address (list LeaseEntry)) (h : Cells) : Cells :=
  {| ce_policies := ce_policies h; ce_ceilings := ce_ceilings h; ce_leases := m;
     ce_boundaries := ce_boundaries h; ce_identities := ce_identities h; ce_configured := ce_configured h;
     ce_reviewers := ce_reviewers h; ce_protected := ce_protected h; ce_next := ce_next h |}.
Definition set_boundaries (m : gmap Address ExecutionBoundary) (i : gmap Address (BoundaryIdentityPolicy I))
    (h : Cells) : Cells :=
  {| ce_policies := ce_policies h; ce_ceilings := ce_ceilings h; ce_leases := ce_leases h;
     ce_boundaries := m; ce_identities := i; ce_configured := ce_configured h;
     ce_reviewers := ce_reviewers h; ce_protected := ce_protected h; ce_next := ce_next h |}.
Definition set_configured (m : gmap Address (gmap (string * string) ConfiguredEffectGrant)) (h : Cells) : Cells :=
  {| ce_policies := ce_policies h; ce_ceilings := ce_ceilings h; ce_leases := ce_leases h;
     ce_boundaries := ce_boundaries h; ce_identities := ce_identities h; ce_configured := m;
     ce_reviewers := ce_reviewers h; ce_protected := ce_protected h; ce_next := ce_next h |}.
Definition set_reviewers (m : gmap Address PermissionReviewer) (h : Cells) : Cells :=
  {| ce_policies := ce_policies h; ce_ceilings := ce_ceilings h; ce_leases := ce_leases h;
     ce_boundaries := ce_boundaries h; ce_identities := ce_identities h; ce_configured := ce_configured h;
     ce_reviewers := m; ce_protected := ce_protected h; ce_next := ce_next h |}.
Definition set_protected (m : gmap Address (ProtectedPathPolicy I)) (h : Cells) : Cells :=
  {| ce_policies := ce_policies h; ce_ceilings := ce_ceilings h; ce_leases := ce_leases h;
     ce_boundaries := ce_boundaries h; ce_identities := ce_identities h; ce_configured := ce_configured h;
     ce_reviewers := ce_reviewers h; ce_protected := m; ce_next := ce_next h |}.
Definition set_next (n : Address) (h : Cells) : Cells :=
  {| ce_policies := ce_policies h; ce_ceilings := ce_ceilings h; ce_leases := ce_leases h;
     ce_boundaries := ce_boundaries h; ce_identities := ce_identities h; ce_configured := ce_configured h;
     ce_reviewers := ce_reviewers h; ce_protected := ce_protected h; ce_next := n |}.

(** ** Reading *)

Definition policy_state_default : PermissionPolicyState :=
  {| ps_mode := Auto; ps_rules := []; ps_generated_rules := ∅ |}.

Definition policy_of (h : Cells) (x : PermissionContext) : PermissionPolicyState :=
  default policy_state_default (ce_policies h !! px_policy x).
Definition ceiling (h : Cells) (x : PermissionContext) : PermissionCeiling :=
  default ceiling_unrestricted (ce_ceilings h !! px_ceiling x).
Definition lease_entries (h : Cells) (x : PermissionContext) : list LeaseEntry :=
  default [] (ce_leases h !! px_leases x).
Definition boundary (h : Cells) (x : PermissionContext) : ExecutionBoundary :=
  default boundary_unrestricted (ce_boundaries h !! px_boundary x).
Definition identities_at (h : Cells) (a : Address) : BoundaryIdentityPolicy I :=
  default identities_default (ce_identities h !! a).
Definition configured_effects (h : Cells) (x : PermissionContext) : gmap (string * string) ConfiguredEffectGrant :=
  default ∅ (ce_configured h !! px_configured_effects x).
Definition reviewer (h : Cells) (x : PermissionContext) : PermissionReviewer :=
  default deterministic_auto_reviewer (ce_reviewers h !! px_reviewer x).
Definition protected_paths (h : Cells) (x : PermissionContext) : ProtectedPathPolicy I :=
  default policy_default (ce_protected h !! px_protected_paths x).

Definition mode (h : Cells) (x : PermissionContext) : PermissionMode := ps_mode (policy_of h x).
Definition rules (h : Cells) (x : PermissionContext) : list PermissionRule :=
  ps_rules (policy_of h x) ++ mjoin (sorted_values (ps_generated_rules (policy_of h x))).
Definition leases (h : Cells) (x : PermissionContext) : list CapabilityLease := le_lease <$> lease_entries h x.

(** ** Making contexts *)

Definition new_context (m : PermissionMode) (c : PermissionCeiling) (h : Cells) : Cells * PermissionContext :=
  let a := ce_next h in
  ({| ce_policies := <[a := {| ps_mode := m; ps_rules := [];
                              ps_generated_rules := replace_runtime_rules ∅ |}]> (ce_policies h);
      ce_ceilings := <[a := c]> (ce_ceilings h); ce_leases := <[a := []]> (ce_leases h);
      ce_boundaries := <[a := boundary_unrestricted]> (ce_boundaries h);
      ce_identities := <[a := identities_default]> (ce_identities h);
      ce_configured := <[a := ∅]> (ce_configured h);
      ce_reviewers := <[a := deterministic_auto_reviewer]> (ce_reviewers h);
      ce_protected := <[a := policy_default]> (ce_protected h); ce_next := S a |},
   {| px_policy := a; px_ceiling := a; px_leases := a; px_boundary := a; px_boundary_ceilings := [];
      px_boundary_identities := a; px_boundary_identity_ceilings := []; px_configured_effects := a;
      px_reviewer := a; px_protected_paths := a |}).

Definition narrowed (h : Cells) (x : PermissionContext) (requested : PermissionCeiling) :
    Cells * PermissionContext :=
  let a := ce_next h in
  (set_next (S a) (set_ceilings (<[a := ceiling_intersect (ceiling h x) requested]> (ce_ceilings h)) h),
   {| px_policy := px_policy x; px_ceiling := a; px_leases := px_leases x; px_boundary := px_boundary x;
      px_boundary_ceilings := px_boundary_ceilings x; px_boundary_identities := px_boundary_identities x;
      px_boundary_identity_ceilings := px_boundary_identity_ceilings x;
      px_configured_effects := px_configured_effects x; px_reviewer := px_reviewer x;
      px_protected_paths := px_protected_paths x |}).

Definition narrowed_with_boundary (fs : FileSystem I) (h : Cells) (x : PermissionContext)
    (requested : PermissionCeiling) (b : ExecutionBoundary) : Cells * PermissionContext :=
  let a := ce_next h in
  (set_next (S a)
     (set_ceilings (<[a := ceiling_intersect (ceiling h x) requested]> (ce_ceilings h))
        (set_boundaries (<[a := b]> (ce_boundaries h)) (<[a := capture fs b]> (ce_identities h)) h)),
   {| px_policy := px_policy x; px_ceiling := a; px_leases := px_leases x; px_boundary := a;
      px_boundary_ceilings := px_boundary_ceilings x ++ [b]; px_boundary_identities := a;
      px_boundary_identity_ceilings := px_boundary_identity_ceilings x ++ [px_boundary_identities x];
      px_configured_effects := px_configured_effects x; px_reviewer := px_reviewer x;
      px_protected_paths := px_protected_paths x |}).

(** ** Changing *)

Definition update_policy (f : PermissionPolicyState → PermissionPolicyState) (h : Cells) (x : PermissionContext) :
    Cells := set_policies (<[px_policy x := f (policy_of h x)]> (ce_policies h)) h.

Definition set_mode (m : PermissionMode) : Cells → PermissionContext → Cells :=
  update_policy (λ p, {| ps_mode := m; ps_rules := ps_rules p;
                         ps_generated_rules := replace_runtime_rules (ps_generated_rules p) |}).
Definition add_rule (rule : PermissionRule) : Cells → PermissionContext → Cells :=
  update_policy (λ p, {| ps_mode := ps_mode p; ps_rules := ps_rules p ++ [rule];
                         ps_generated_rules := ps_generated_rules p |}).
Definition replace_rules (l : list PermissionRule) : Cells → PermissionContext → Cells :=
  update_policy (λ p, {| ps_mode := ps_mode p; ps_rules := l; ps_generated_rules := ps_generated_rules p |}).
Definition set_generated_rules (source : string) (l : list PermissionRule) : Cells → PermissionContext → Cells :=
  update_policy (λ p, {| ps_mode := ps_mode p; ps_rules := ps_rules p;
                         ps_generated_rules := <[source := l]> (ps_generated_rules p) |}).
Definition remove_generated_rules (source : string) : Cells → PermissionContext → Cells :=
  update_policy (λ p, {| ps_mode := ps_mode p; ps_rules := ps_rules p;
                         ps_generated_rules := delete source (ps_generated_rules p) |}).

Definition set_ceiling (c : PermissionCeiling) (h : Cells) (x : PermissionContext) : Cells :=
  set_ceilings (<[px_ceiling x := c]> (ce_ceilings h)) h.

Definition restore_lease (lease : CapabilityLease) (uses : Z) (h : Cells) (x : PermissionContext) : Cells :=
  set_leases (<[px_leases x := restore_lease_entry (lease_entries h x) lease uses]> (ce_leases h)) h.
Definition issue_lease (lease : CapabilityLease) (h : Cells) (x : PermissionContext) : Cells :=
  restore_lease lease 0 h x.

Definition set_boundary (fs : FileSystem I) (b : ExecutionBoundary) (h : Cells) (x : PermissionContext) : Cells :=
  set_boundaries (<[px_boundary x := b]> (ce_boundaries h))
    (<[px_boundary_identities x := capture fs b]> (ce_identities h)) h.

Definition allow_configured_effect_for (source capability : string) (d : EffectDescriptor) (h : Cells)
    (x : PermissionContext) : Cells :=
  set_configured (<[px_configured_effects x :=
    <[(source, capability) := {| cg_capability := capability; cg_descriptor := d |}]> (configured_effects h x)]>
    (ce_configured h)) h.
Definition revoke_configured_effect_from (source : string) (h : Cells) (x : PermissionContext) : Cells :=
  set_configured (<[px_configured_effects x :=
    filter (λ kv : string * string * ConfiguredEffectGrant, kv.1.1 ≠ source) (configured_effects h x)]>
    (ce_configured h)) h.
Definition has_configured_effect_source (source : string) (h : Cells) (x : PermissionContext) : bool :=
  existsb (λ kv, bool_decide (kv.1.1 = source)) (map_to_list (configured_effects h x)).

Definition set_reviewer (r : PermissionReviewer) (h : Cells) (x : PermissionContext) : Cells :=
  set_reviewers (<[px_reviewer x := r]> (ce_reviewers h)) h.

Definition set_protected_paths (p : ProtectedPathPolicy I) (h : Cells) (x : PermissionContext) : Cells :=
  set_protected (<[px_protected_paths x := p]> (ce_protected h)) h.

Definition register_protected_paths (fs : FileSystem I) (root : Path) (state_paths : list Path) (h : Cells)
    (x : PermissionContext) : Cells * result unit string :=
  match register_protected fs (protected_paths h x) root state_paths with
  | (p, r) => (set_protected_paths p h x, r)
  end.

Definition protected_process_snapshot (fs : FileSystem I) (h : Cells) (x : PermissionContext) :
    Cells * result (list Path * list I) string :=
  match process_snapshot fs (protected_paths h x) with (p, r) => (set_protected_paths p h x, r) end.

Definition consume_lease_with {W E} (persist : W → string → Z → W * result unit E) (fs : FileSystem I) (now : Z)
    (run_id : RunId) (request : EffectRequest) (w : W) (h : Cells) (x : PermissionContext) :
    W * Cells * result bool E :=
  match consume_entry fs persist w (lease_entries h x) run_id request now with
  | (w, l, r) => (w, set_leases (<[px_leases x := l]> (ce_leases h)) h, r)
  end.

(** [replace_with]: everything but the protected paths, which are merged, and
    the ceilings of ancestors. *)
Definition replace_with (h : Cells) (x replacement : PermissionContext) : Cells :=
  set_protected (<[px_protected_paths x := merge_policy (protected_paths h x) (protected_paths h replacement)]> (ce_protected h))
  (set_leases (<[px_leases x := lease_entries h replacement]> (ce_leases h))
  (set_reviewers (<[px_reviewer x := reviewer h replacement]> (ce_reviewers h))
  (set_configured (<[px_configured_effects x := configured_effects h replacement]> (ce_configured h))
  (set_boundaries (<[px_boundary x := boundary h replacement]> (ce_boundaries h))
     (<[px_boundary_identities x := identities_at h (px_boundary_identities replacement)]> (ce_identities h))
  (set_ceilings (<[px_ceiling x := ceiling h replacement]> (ce_ceilings h))
  (set_policies (<[px_policy x := policy_of h replacement]> (ce_policies h)) h)))))).

(** ** Deciding *)

Definition push_missing {A} `{EqDecision A} (l items : list A) : list A :=
  fold_left (λ l a, if bool_decide (a ∈ l) then l else l ++ [a]) items l.

Definition extend_boundary (b : ExecutionBoundary) (d : EffectDescriptor) : ExecutionBoundary :=
  let r := ed_resources d in
  {| eb_readable_roots := push_missing (eb_readable_roots b) (rf_file_reads r);
     eb_unrestricted_file_reads := eb_unrestricted_file_reads b || rf_unrestricted_file_reads r;
     eb_writable_roots := push_missing (eb_writable_roots b) (rf_file_writes r);
     eb_unrestricted_file_writes := eb_unrestricted_file_writes b || rf_unrestricted_file_writes r;
     eb_network_domains := push_missing (eb_network_domains b) (rf_network_domains r);
     eb_process_command_prefixes := push_missing (eb_process_command_prefixes b) (rf_process_commands r);
     eb_process_invocations := push_missing (eb_process_invocations b) (rf_process_invocations r);
     eb_unrestricted_process := eb_unrestricted_process b || rf_unrestricted_process r;
     eb_external_resource_prefixes := push_missing (eb_external_resource_prefixes b) (rf_external_resources r);
     eb_unrestricted_external_side_effects := eb_unrestricted_external_side_effects b;
     eb_unrestricted_network := eb_unrestricted_network b || rf_unrestricted_network r |}.

Definition boundary_for_capability (h : Cells) (x : PermissionContext) (capability : string) : ExecutionBoundary :=
  fold_left (λ b grant, extend_boundary b (cg_descriptor grant))
    (List.filter (λ grant, bool_decide (cg_capability grant = capability)) (sorted_pairs (configured_effects h x)))
    (boundary h x).

Section deciding.
Context (fs : FileSystem I).

Definition boundary_identities_valid (h : Cells) (x : PermissionContext) : bool :=
  validates_current_paths fs (identities_at h (px_boundary_identities x)) &&
  forallb (λ a, validates_current_paths fs (identities_at h a)) (px_boundary_identity_ceilings x).

Definition boundary_allows_request (h : Cells) (x : PermissionContext) (capability : string) (d : EffectDescriptor) :
    bool :=
  boundary_allows fs (boundary_for_capability h x capability) d &&
  forallb (λ c, boundary_allows fs c d) (px_boundary_ceilings x).

Definition current_boundary_allows_request (h : Cells) (x : PermissionContext) (request : EffectRequest) : bool :=
  boundary_identities_valid h x && boundary_allows_request h x (rq_capability request) (rq_descriptor request).

Definition context_engine (h : Cells) (x : PermissionContext) (m : PermissionMode) (c : PermissionCeiling) :
    PermissionEngine :=
  {| en_mode := m; en_hard_ceiling := ceiling_unrestricted; en_scope_ceiling := c;
     en_role_ceiling := ceiling_unrestricted; en_rules := rules h x |}.

(** The evaluation with another decision and reason. *)
Definition decided (e : PermissionEvaluation) (d : PermissionDecision) (lease : bool) (reason : string) :
    PermissionEvaluation :=
  {| pe_decision := d; pe_matched_rule_index := pe_matched_rule_index e; pe_matched_lease := lease;
     pe_reason := reason |}.

Definition evaluate_effect_with_reviewer_policy (h : Cells) (x : PermissionContext) (now : Z) (run_id : RunId)
    (capability : string) (request : EffectRequest) (m : PermissionMode) (c : PermissionCeiling)
    (invoke_auto_reviewer : bool) : PermissionEvaluation :=
  let d := rq_descriptor request in
  let covered := leases_cover fs (lease_entries h x) run_id request now in
  if bool_decide (capability ≠ rq_capability request) then
    denied "effect capability does not match evaluation capability"
  else if decide (m = Bypass) then engine_evaluate fs (context_engine h x Bypass ceiling_unrestricted) capability d
  else if negb (boundary_identities_valid h x) then denied "execution boundary root identity changed"
  else
    let effective := ceiling_intersect (ceiling h x) c in
    let effective := if decide (m = Plan) then ceiling_intersect effective ceiling_plan else effective in
    let evaluation := engine_evaluate fs (context_engine h x m effective) capability d in
    if decide (pe_decision evaluation = Deny) then evaluation
    else if protects_descriptor fs (protected_paths h x) d then
      decided evaluation Deny false "effect targets protected runtime state"
    else if existsb (λ b, negb (boundary_allows fs b d)) (px_boundary_ceilings x) then
      decided evaluation Deny false "effect exceeds child execution boundary"
    else if negb (boundary_allows fs (boundary_for_capability h x capability) d) then
      if covered then decided evaluation Allow true "matched capability lease for execution boundary"
      else if bool_decide (m = Auto) && ceiling_allows effective (ed_class d) then
        decided evaluation Ask (pe_matched_lease evaluation)
          "effect requires a capability lease for execution boundary"
      else decided evaluation Deny (pe_matched_lease evaluation) "effect exceeds execution boundary"
    else if (bool_decide (pe_decision evaluation = Ask) || bool_decide (pe_decision evaluation = AutoReview)) && covered
    then decided evaluation Allow true "matched capability lease"
    else if bool_decide (pe_decision evaluation = AutoReview) && invoke_auto_reviewer then
      decided evaluation
        (match reviewer h x request with Allow => Allow | Deny => Deny | Ask | AutoReview => Ask end)
        (pe_matched_lease evaluation) "deterministic auto reviewer"
    else evaluation.

Definition evaluate_effect_with (h : Cells) (x : PermissionContext) (now : Z) (run_id : RunId)
    (capability : string) (request : EffectRequest) (m : PermissionMode) (c : PermissionCeiling) :
    PermissionEvaluation :=
  evaluate_effect_with_reviewer_policy h x now run_id capability request m c true.

Definition evaluate_effect (h : Cells) (x : PermissionContext) (now : Z) (run_id : RunId)
    (capability : string) (request : EffectRequest) : PermissionEvaluation :=
  evaluate_effect_with h x now run_id capability request (mode h x) (ceiling h x).

Definition evaluate_effect_for_final_process_spawn (h : Cells) (x : PermissionContext) (now : Z) (run_id : RunId)
    (capability : string) (request : EffectRequest) (m : PermissionMode) (c : PermissionCeiling) :
    PermissionEvaluation :=
  evaluate_effect_with_reviewer_policy h x now run_id capability request m c false.

(** ** The search policy of the workspace tools *)

(** [execution_mode] is the mode the policy is scoped to. *)
Definition search_mode (h : Cells) (x : PermissionContext) (execution_mode : option PermissionMode) :
    PermissionMode := default (mode h x) execution_mode.

Definition search_refresh (h : Cells) (x : PermissionContext) (em : option PermissionMode) :
    Cells * result unit string :=
  if decide (search_mode h x em = Bypass) then (h, Ok tt)
  else if negb (boundary_identities_valid h x) then (h, Err "execution boundary root identity changed")
  else match refresh_file_identities fs (protected_paths h x) with (p, r) => (set_protected_paths p h x, r) end.

Definition allows_read (h : Cells) (x : PermissionContext) (em : option PermissionMode) (path : Path) : bool :=
  bool_decide (search_mode h x em = Bypass) ||
  (boundary_identities_valid h x && negb (protects fs (protected_paths h x) path)).

Definition allows_file (h : Cells) (x : PermissionContext) (em : option PermissionMode) (path : Path) : bool :=
  bool_decide (search_mode h x em = Bypass) ||
  (boundary_identities_valid h x && negb (protects_traversed_file fs (protected_paths h x) path)).

Definition allows_opened_directory (h : Cells) (x : PermissionContext) (em : option PermissionMode) (path : Path)
    (identity : I) : bool :=
  bool_decide (search_mode h x em = Bypass) ||
  (boundary_identities_valid h x && negb (protects_opened_directory fs (protected_paths h x) path identity)).

Definition allows_file_slot (h : Cells) (x : PermissionContext) (em : option PermissionMode) (path : Path)
    (parent_identity : I) (file_name : string) : bool :=
  bool_decide (search_mode h x em = Bypass) ||
  (boundary_identities_valid h x && negb (protects_file_slot fs (protected_paths h x) path parent_identity file_name)).

Definition allows_opened_file (h : Cells) (x : PermissionContext) (em : option PermissionMode) (path : Path)
    (parent_identity : I) (file_name : string) (identity : I) : Cells * bool :=
  if decide (search_mode h x em = Bypass) then (h, true)
  else if boundary_identities_valid h x then
    match protects_opened_file fs (protected_paths h x) path parent_identity file_name identity with
    | (p, b) => (set_protected_paths p h x, negb b)
    end
  else (h, false).

Definition requires_opened_file_identity (h : Cells) (x : PermissionContext) (em : option PermissionMode) : bool :=
  negb (bool_decide (search_mode h x em = Bypass)) &&
  (negb (identities_is_empty (identities_at h (px_boundary_identities x))) ||
   existsb (λ a, negb (identities_is_empty (identities_at h a))) (px_boundary_identity_ceilings x) ||
   negb (policy_is_empty (protected_paths h x))).
End deciding.
End contexts.
