(* ===== verification/PermissionFacts.v ===== *)
(** * What the permission engine decides

    First, protection is permanent: what a policy of protected paths retains only
    grows, whatever is registered, refreshed, merged or opened, and stays within
    its capacity.  Then the specification of an evaluation: which effects are
    allowed, in terms of rules, modes, ceilings, boundaries, protected paths,
    leases and the reviewer; and how often a lease is used. *)
From S2P Require Import Prelude Json Types WorkflowTypes Paths NetworkDomains PermissionTypes PermissionEngine ProtectedPaths PermissionContext.

(** * Protection is permanent *)
Section growth.
Context {I : Type} `{EqDecision I}.
Notation Policy := (ProtectedPathPolicy I).

Implicit Types p q other : ProtectedPathPolicy I.

Record grown (p p' : Policy) : Prop := {
  gr_roots : pp_roots p ⊆ pp_roots p';
  gr_files : pp_files p ⊆ pp_files p';
  gr_slots : pp_slots p ⊆ pp_slots p';
  gr_identities : pp_file_identities p ⊆ pp_file_identities p';
  gr_exhausted : pp_retention_exhausted p = true → pp_retention_exhausted p' = true;
}.

(** The capacity of each list. *)
Record retained_bounded (p : Policy) : Prop := {
  rb_roots : length (pp_roots p) ≤ MAX_RETAINED_IDENTITIES;
  rb_files : length (pp_files p) ≤ MAX_RETAINED_IDENTITIES;
  rb_slots : length (pp_slots p) ≤ MAX_RETAINED_IDENTITIES;
  rb_identities : length (pp_file_identities p) ≤ MAX_RETAINED_IDENTITIES;
}.

(** The step of an operation. *)
Definition retains (p p' : Policy) : Prop := grown p p' ∧ (retained_bounded p → retained_bounded p').

#[export] Instance retains_po : PreOrder retains.
Proof.
  split.
  - intros p. split; [|done]. by split.
  - intros p q r [[] Hb] [[] Hb']. split; [|by auto]. split; try (by etransitivity); by auto.
Qed.

Lemma retains_sbind {A B} (p : Policy) (m : Policy * result A string) (k : Policy → A → Policy * result B string) :
  retains p m.1 → (∀ p' a, m = (p', Ok a) → retains p' (k p' a).1) → retains p (sbind m k).1.
Proof. destruct m as [p' [a|e]]; simpl; intros H Hk; [|done]. etransitivity; [done|by apply Hk]. Qed.

Lemma retains_slift {A B} (p : Policy) (r : result A string) (k : A → Policy * result B string) :
  (∀ a, r = Ok a → retains p (k a).1) → retains p (slift p r k).1.
Proof. destruct r; simpl; intros H; [by apply H|done]. Qed.

Ltac grow := split; [split; cbn; try done; intros ? ?; rewrite ?elem_of_app; auto
  |intros []; split; cbn; rewrite ?length_app; cbn; try done; unfold MAX_RETAINED_IDENTITIES in *; lia].

Lemma retains_exhaust p : retains p (exhaust p).
Proof. grow. Qed.
Lemma retains_add_root p r : length (pp_roots p) < MAX_RETAINED_IDENTITIES → retains p (add_root p r).
Proof. intros. grow. Qed.
Lemma retains_add_file p f : length (pp_files p) < MAX_RETAINED_IDENTITIES → retains p (add_file p f).
Proof. intros. grow. Qed.
Lemma retains_add_slot p s : length (pp_slots p) < MAX_RETAINED_IDENTITIES → retains p (add_slot p s).
Proof. intros. grow. Qed.
Lemma retains_add_identity p i :
  length (pp_file_identities p) < MAX_RETAINED_IDENTITIES → retains p (add_identity p i).
Proof. intros. grow. Qed.

Lemma retains_sort p : retains p (sort_policy p).
Proof.
  split; [split; cbn; try done; intros ? Hin; by rewrite merge_sort_Permutation|].
  intros []; split; cbn; try done; by rewrite merge_sort_Permutation.
Qed.

Lemma retains_capacity p n : retains p (ensure_capacity p n).1.
Proof. unfold ensure_capacity. case_decide; simpl; [done|apply retains_exhaust]. Qed.

Lemma capacity_ok p n p' u : ensure_capacity p n = (p', Ok u) → p' = p ∧ n < MAX_RETAINED_IDENTITIES.
Proof. unfold ensure_capacity. case_decide; by intros [= <-]. Qed.

(** Room is asked for only when there is something to add. *)
Lemma guarded_capacity (b : bool) p n p' u :
  (if b then ensure_capacity p n else (p, Ok ())) = (p', Ok u) → p' = p ∧ (b = true → n < MAX_RETAINED_IDENTITIES).
Proof. destruct b; [intros [-> ?]%capacity_ok; auto|by intros [= <-]]. Qed.
Lemma retains_guarded (b : bool) p n :
  retains p (if b then ensure_capacity p n else (p, Ok ())).1.
Proof. destruct b; [apply retains_capacity|done]. Qed.

Lemma retains_remember p i : retains p (remember_file_identity p i).1.
Proof.
  unfold remember_file_identity. destruct (knows_identity p i); [done|].
  apply retains_sbind; [apply retains_capacity|]. intros p' [] [-> ?]%capacity_ok. by apply retains_add_identity.
Qed.

Lemma retains_merge_all {A} (known : Policy → A → bool) count add p (items : list A) :
  (∀ p a, count p < MAX_RETAINED_IDENTITIES → retains p (add p a)) →
  retains p (merge_all known count add p items).1.
Proof.
  intros Hadd. revert p. induction items as [|a items IH]; intros p; simpl; [done|].
  destruct (known p a); [apply IH|]. apply retains_sbind; [apply retains_capacity|].
  intros p' [] [-> ?]%capacity_ok. etransitivity; [by apply Hadd|apply IH].
Qed.

Lemma retains_merge p other : retains p (merge_policy p other).
Proof.
  unfold merge_policy. destruct (_ || _); [apply retains_exhaust|].
  apply retains_sbind; [apply retains_merge_all, retains_add_root|intros p1 _ _].
  apply retains_sbind; [apply retains_merge_all, retains_add_file|intros p2 _ _].
  apply retains_sbind; [apply retains_merge_all, retains_add_slot|intros p3 _ _].
  apply retains_sbind; [apply retains_merge_all, retains_add_identity|intros p4 _ _]. apply retains_sort.
Qed.

Section filesystem.
Context (fs : FileSystem I).

Lemma retains_register_state_path p path : retains p (register_state_path fs p path).1.
Proof.
  unfold register_state_path. do 3 (apply retains_slift; intros ? _).
  set (np := negb (bool_decide _)). set (ns := negb (knows_slot _ _)). set (ni := new_identity _ _).
  apply retains_sbind; [apply retains_guarded|]. intros p1 [] [-> Hf]%guarded_capacity.
  apply retains_sbind; [apply retains_guarded|]. intros p1 [] [-> Hs]%guarded_capacity.
  apply retains_sbind; [apply retains_guarded|]. intros p1 [] [-> Hi]%guarded_capacity. cbn [fst].
  transitivity (if np then add_file p a else p); [destruct np; [by apply retains_add_file; auto|done]|].
  set (p1 := if np then _ else p).
  assert (pp_slots p1 = pp_slots p ∧ pp_file_identities p1 = pp_file_identities p) as [E1 E2] by (by destruct np).
  transitivity (if ns then add_slot p1 a0 else p1);
    [destruct ns; [apply retains_add_slot; rewrite E1; by auto|done]|].
  destruct ni as [i|]; [|done]. apply retains_add_identity.
  assert (pp_file_identities (if ns then add_slot p1 a0 else p1) = pp_file_identities p) as -> by (by destruct ns).
  by auto.
Qed.

Lemma retains_register_state_paths p paths : retains p (register_state_paths fs p paths).1.
Proof.
  revert p. induction paths as [|path paths IH]; intros p; simpl; [done|].
  apply retains_sbind; [apply retains_register_state_path|]. intros p' [] _. apply IH.
Qed.

Lemma retains_register p root paths : retains p (register_protected fs p root paths).1.
Proof.
  unfold register_protected. do 3 (apply retains_slift; intros ? _). apply retains_sbind.
  - destruct (knows_root p _); [done|]. apply retains_sbind; [apply retains_capacity|].
    intros p' [] [-> ?]%capacity_ok. by apply retains_add_root.
  - intros p' [] _. apply retains_sbind; [apply retains_register_state_paths|].
    intros p'' [] _. apply retains_sort.
Qed.

Lemma retains_refresh_slots p slots : retains p (refresh_slots fs p slots).1.
Proof.
  revert p. induction slots as [|s slots IH]; intros p; simpl; [done|].
  apply retains_slift. intros i _. apply retains_sbind; [destruct i; [apply retains_remember|done]|].
  intros p' [] _. apply IH.
Qed.

Lemma retains_refresh p : retains p (refresh_file_identities fs p).1.
Proof. apply retains_slift. intros ? _. apply retains_refresh_slots. Qed.

Lemma retains_snapshot p : retains p (process_snapshot fs p).1.
Proof. apply retains_sbind; [apply retains_refresh|]. intros p' [] _. by apply retains_slift. Qed.

Lemma retains_opened_file p path parent name i : retains p (protects_opened_file fs p path parent name i).1.
Proof.
  unfold protects_opened_file. destruct (pp_retention_exhausted p); [done|].
  destruct (protects_file_slot _ _ _ _ _); [|done].
  pose proof (retains_remember p i) as H. by destruct (remember_file_identity p i) as [p' []].
Qed.

(** ** What is protected stays protected *)

Lemma existsb_subset {A} (f : A → bool) (l l' : list A) : l ⊆ l' → existsb f l = true → existsb f l' = true.
Proof.
  intros Hs. rewrite !existsb_exists. intros (a & Hin%list_elem_of_In & Ha). exists a.
  split; [by apply list_elem_of_In, Hs|done].
Qed.

Context (p p' : Policy) (Hg : grown p p').

Lemma resolved_grown path : protects_resolved p path = true → protects_resolved p' path = true.
Proof.
  destruct Hg. unfold protects_resolved. rewrite !orb_true_iff, !bool_decide_eq_true.
  intros [[?|?]|?]; [left; left; by auto|left; right; by eapply existsb_subset|right; by auto].
Qed.

Lemma protects_grown path : protects fs p path = true → protects fs p' path = true.
Proof.
  unfold protects. destruct (pp_retention_exhausted p') eqn:He'; [done|].
  destruct (pp_retention_exhausted p) eqn:He; [by rewrite (gr_exhausted _ _ Hg He) in He'|].
  destruct (resolve_policy_path fs path); [apply resolved_grown|done].
Qed.

Lemma traversed_grown path : protects_traversed_file fs p path = true → protects_traversed_file fs p' path = true.
Proof.
  unfold protects_traversed_file. destruct (pp_retention_exhausted p') eqn:He'; [done|].
  destruct (pp_retention_exhausted p) eqn:He; [by rewrite (gr_exhausted _ _ Hg He) in He'|].
  destruct (normalize_absolute_path fs path); [apply resolved_grown|done].
Qed.

Lemma directory_grown path i :
  protects_opened_directory fs p path i = true → protects_opened_directory fs p' path i = true.
Proof.
  unfold protects_opened_directory. rewrite !orb_true_iff. destruct Hg.
  intros [[?|?]|?]; [by auto|left; right; by apply traversed_grown|right; by eapply existsb_subset].
Qed.

Lemma slot_grown path parent name :
  protects_file_slot fs p path parent name = true → protects_file_slot fs p' path parent name = true.
Proof.
  unfold protects_file_slot. rewrite !orb_true_iff. destruct Hg.
  intros [[?|?]|?]; [by auto|left; right; by apply traversed_grown|right; by eapply existsb_subset].
Qed.

Lemma opened_file_grown path parent name i :
  (protects_opened_file fs p path parent name i).2 = true →
  (protects_opened_file fs p' path parent name i).2 = true.
Proof.
  unfold protects_opened_file. destruct (pp_retention_exhausted p') eqn:He'; [done|].
  destruct (pp_retention_exhausted p) eqn:He; [by rewrite (gr_exhausted _ _ Hg He) in He'|].
  destruct (protects_file_slot fs p' _ _ _) eqn:Hs';
    [by destruct (remember_file_identity p' i) as [? []]|].
  destruct (protects_file_slot fs p _ _ _) eqn:Hs; [by apply slot_grown in Hs; congruence|].
  simpl. destruct Hg. by apply existsb_subset.
Qed.

Lemma descriptor_grown d : protects_descriptor fs p d = true → protects_descriptor fs p' d = true.
Proof.
  unfold protects_descriptor. set (paths := _ ++ _).
  destruct (pp_retention_exhausted p') eqn:He'.
  - destruct (pp_retention_exhausted p); [done|]. by destruct paths.
  - destruct (pp_retention_exhausted p) eqn:He; [by rewrite (gr_exhausted _ _ Hg He) in He'|].
    rewrite !existsb_exists. intros (path & Hin & H). exists path. split; [done|by apply protects_grown].
Qed.
End filesystem.
End growth.

#[export] Hint Resolve retains_merge retains_register retains_refresh retains_snapshot retains_opened_file : core.

(** * Evaluations *)
(** ** Rules *)

Section rules.
Context {I : Type} (fs : FileSystem I).

Definition denies (rule : PermissionRule) : bool := bool_decide (pr_decision rule = Deny).

(** The rules that apply. *)
Definition applicable (l : list PermissionRule) (capability : string) (d : EffectDescriptor) :
    list PermissionRule := List.filter (λ rule, rule_matches fs rule capability d) l.

(** A rule that denies wins; otherwise the last one decides. *)
Definition rules_say (l : list PermissionRule) (capability : string) (d : EffectDescriptor) :
    option PermissionDecision :=
  if existsb denies (applicable l capability d) then Some Deny
  else pr_decision <$> last (applicable l capability d).

Lemma match_rules_spec index l capability d latest latest_deny :
  snd <$> match_rules fs index l capability d latest latest_deny =
  if existsb denies (applicable l capability d) then Some Deny
  else match latest_deny with
       | Some m => Some m.2
       | None => match last (applicable l capability d) with
                 | Some rule => Some (pr_decision rule)
                 | None => snd <$> latest
                 end
       end.
Proof.
  revert index latest latest_deny. induction l as [|rule l IH]; intros index latest latest_deny.
  - simpl. by destruct latest_deny.
  - cbn [match_rules]. unfold applicable. cbn [List.filter]. fold (applicable l capability d).
    destruct (rule_matches fs rule capability d); rewrite IH; [|done]. cbn [existsb].
    destruct (existsb denies (applicable l capability d)) eqn:He; [by rewrite orb_true_r|]. rewrite orb_false_r.
    unfold denies at 1. destruct (decide (pr_decision rule = Deny)) as [Hd|Hd];
      [rewrite bool_decide_eq_true_2 by done; simpl; by rewrite Hd|rewrite bool_decide_eq_false_2 by done].
    destruct latest_deny; [done|]. rewrite last_cons. by destruct (last _).
Qed.

Lemma rules_say_matched l capability d :
  snd <$> match_rules fs 0 l capability d None None = rules_say l capability d.
Proof. rewrite match_rules_spec. unfold rules_say. destruct (existsb _ _); [done|]. by destruct (last _). Qed.

Lemma rules_say_deny l capability d :
  (∃ rule, rule ∈ l ∧ rule_matches fs rule capability d = true ∧ pr_decision rule = Deny) →
  rules_say l capability d = Some Deny.
Proof.
  intros (rule & Hin & Hm & Hd). unfold rules_say.
  assert (existsb denies (applicable l capability d) = true) as ->; [|done].
  apply existsb_exists. exists rule. split; [|by apply bool_decide_eq_true].
  apply filter_In. split; [by apply list_elem_of_In|done].
Qed.

Lemma rules_say_deny_inv l capability d :
  rules_say l capability d = Some Deny →
  ∃ rule, rule ∈ l ∧ rule_matches fs rule capability d = true ∧ pr_decision rule = Deny.
Proof.
  unfold rules_say. intros H.
  assert (∃ rule, rule ∈ applicable l capability d ∧ pr_decision rule = Deny) as (rule & Hin & Hd).
  { destruct (existsb _ _) eqn:He.
    - apply existsb_exists in He as (rule & Hin%list_elem_of_In & Hd%bool_decide_eq_true). by exists rule.
    - apply fmap_Some in H as (rule & Hl%last_Some_elem_of & Hd). by exists rule. }
  exists rule. apply list_elem_of_In, filter_In in Hin as [Hin%list_elem_of_In Hm]. done.
Qed.

Lemma rules_say_none l capability d :
  rules_say l capability d = None ↔ Forall (λ rule, rule_matches fs rule capability d = false) l.
Proof.
  unfold rules_say. transitivity (applicable l capability d = []).
  - destruct (applicable l capability d) as [|r rs] eqn:Ha; [done|]. split; [|done].
    destruct (existsb _ _); [done|]. intros H%fmap_None%last_None. done.
  - unfold applicable. induction l as [|r l IH]; [done|]. simpl. rewrite Forall_cons.
    destruct (rule_matches fs r capability d); [|naive_solver]. split; [done|]. by intros [? _].
Qed.
End rules.

(** ** The specification of an evaluation *)

Section specification.
Context {I : Type} `{EqDecision I} (fs : FileSystem I).
Context (h : Cells I) (x : PermissionContext) (now : Z) (run_id : RunId) (request : EffectRequest).
Context (m : PermissionMode) (c : PermissionCeiling).
Notation d := (rq_descriptor request).

(** What the rules and the preset of the mode say. *)
Definition base_decision : PermissionDecision :=
  default (preset_default m (ed_class d)) (rules_say fs (rules h x) (rq_capability request) d).

Definition within_ceiling : bool :=
  ceiling_allows (ceiling h x) (ed_class d) && ceiling_allows c (ed_class d) &&
  (negb (bool_decide (m = Plan)) || ceiling_allows ceiling_plan (ed_class d)).

(** Nothing forbids the effect, whatever anybody approves. *)
Record permissible : Prop := {
  pm_identities : boundary_identities_valid fs h x = true;
  pm_ceiling : within_ceiling = true;
  pm_unprotected : protects_descriptor fs (protected_paths h x) d = false;
  pm_ancestors : Forall (λ b, boundary_allows fs b d = true) (px_boundary_ceilings x);
}.

Definition leased_effect : bool := leases_cover fs (lease_entries h x) run_id request now.

(** Somebody approves it: a lease, or within the boundary the rules, the mode or
    the reviewer. *)
Definition approved (invoke_auto_reviewer : bool) : Prop :=
  leased_effect = true ∨
  boundary_allows fs (boundary_for_capability h x (rq_capability request)) d = true ∧
  (base_decision = Allow ∨
   base_decision = AutoReview ∧ invoke_auto_reviewer = true ∧ reviewer h x request = Allow).

Definition allowed (capability : string) (invoke_auto_reviewer : bool) : Prop :=
  capability = rq_capability request ∧ base_decision ≠ Deny ∧
  (m ≠ Bypass → permissible ∧ approved invoke_auto_reviewer).

Lemma base_denies :
  base_decision = Deny ↔
  (∃ rule, rule ∈ rules h x ∧ rule_matches fs rule (rq_capability request) d = true ∧ pr_decision rule = Deny) ∨
  Forall (λ rule, rule_matches fs rule (rq_capability request) d = false) (rules h x) ∧
  preset_default m (ed_class d) = Deny.
Proof.
  unfold base_decision. split.
  - destruct (rules_say _ _ _ _) as [b|] eqn:Hs; simpl; intros Hb.
    + left. subst b. by apply rules_say_deny_inv.
    + right. split; [by apply rules_say_none|done].
  - intros [Hd|[Hn Hp]]; [by rewrite (rules_say_deny _ _ _ _ Hd)|].
    by rewrite (proj2 (rules_say_none _ _ _ _) Hn).
Qed.

Lemma engine_decision e :
  pe_decision (engine_evaluate fs (context_engine h x m e) (rq_capability request) d) =
  if ceiling_allows e (ed_class d) && (negb (bool_decide (m = Plan)) || ceiling_allows ceiling_plan (ed_class d))
  then match m, base_decision with
       | _, Deny => Deny
       | Bypass, Ask | Bypass, AutoReview => Allow
       | _, b => b
       end
  else Deny.
Proof.
  unfold engine_evaluate. cbn [en_mode context_engine en_rules].
  assert (ceiling_allows (if decide (m = Plan) then ceiling_intersect (effective_ceiling (context_engine h x m e)) ceiling_plan
    else effective_ceiling (context_engine h x m e)) (ed_class d) =
    ceiling_allows e (ed_class d) && (negb (bool_decide (m = Plan)) || ceiling_allows ceiling_plan (ed_class d))) as ->.
  { assert (ceiling_allows (effective_ceiling (context_engine h x m e)) (ed_class d) = ceiling_allows e (ed_class d)) as He.
    { unfold effective_ceiling. cbn [context_engine en_hard_ceiling en_scope_ceiling en_role_ceiling].
      by rewrite !ceiling_intersect_allows, !ceiling_unrestricted_allows, andb_true_r. }
    case_decide as Hm; [rewrite ceiling_intersect_allows, bool_decide_eq_true_2 by done|
      rewrite bool_decide_eq_false_2 by done; simpl; rewrite andb_true_r]; by rewrite He. }
  destruct (_ && _); cbn [negb pe_decision]; [|done]. rewrite rules_say_matched.
  change (default (preset_default m (ed_class d)) (rules_say fs (rules h x) (rq_capability request) d)) with base_decision.
  generalize base_decision. intros b. by destruct m, b.
Qed.

(** The engine of a context with its ceilings. *)
Definition effective : PermissionCeiling :=
  if decide (m = Plan) then ceiling_intersect (ceiling_intersect (ceiling h x) c) ceiling_plan
  else ceiling_intersect (ceiling h x) c.

Lemma effective_decision :
  m ≠ Bypass →
  pe_decision (engine_evaluate fs (context_engine h x m effective) (rq_capability request) d) =
  if within_ceiling then base_decision else Deny.
Proof.
  intros Hm. rewrite engine_decision.
  assert (ceiling_allows effective (ed_class d) &&
    (negb (bool_decide (m = Plan)) || ceiling_allows ceiling_plan (ed_class d)) = within_ceiling) as ->.
  { unfold effective, within_ceiling. case_decide as Hp;
      [rewrite bool_decide_eq_true_2 by done|rewrite bool_decide_eq_false_2 by done];
      rewrite !ceiling_intersect_allows; simpl; [|by rewrite !andb_true_r].
    by destruct (ceiling_allows (ceiling h x) _), (ceiling_allows c _), (ceiling_allows ceiling_plan _). }
  destruct within_ceiling; [|done]. revert Hm. generalize base_decision. intros b Hm. destruct m, b; done.
Qed.

Lemma allowed_iff capability invoke :
  pe_decision (evaluate_effect_with_reviewer_policy fs h x now run_id capability request m c invoke) = Allow ↔
  allowed capability invoke.
Proof.
  unfold evaluate_effect_with_reviewer_policy, allowed. fold leased_effect effective.
  destruct (decide (capability = rq_capability request)) as [->|Hne];
    [rewrite bool_decide_eq_false_2 by (by intros ?)|rewrite bool_decide_eq_true_2 by done; naive_solver].
  destruct (decide (m = Bypass)) as [Hm|Hm].
  { pose proof (engine_decision ceiling_unrestricted) as He. rewrite Hm in He |- *. rewrite He, ceiling_unrestricted_allows.
    simpl. destruct base_decision; naive_solver. }
  assert (permissible → boundary_identities_valid fs h x = true ∧ within_ceiling = true ∧
    protects_descriptor fs (protected_paths h x) d = false ∧
    Forall (λ b, boundary_allows fs b d = true) (px_boundary_ceilings x)) as Hpm by (by intros []).
  destruct (boundary_identities_valid fs h x) eqn:Hid; cbn [negb].
  2:{ split; [done|]. intros (_ & _ & H). destruct (H Hm) as [Hp _]. by apply Hpm in Hp as [? _]. }
  pose proof (effective_decision Hm) as He. set (ev := engine_evaluate _ _ _ _) in *.
  destruct (decide (pe_decision ev = Deny)) as [Hd|Hd].
  { rewrite Hd. split; [done|]. intros (_ & Hb & H). destruct (H Hm) as [Hp _].
    apply Hpm in Hp as (_ & Hw & _). rewrite Hw in He. congruence. }
  destruct within_ceiling eqn:Hw; [|done]. rewrite He in Hd |- *.
  destruct (protects_descriptor fs _ d) eqn:Hpr.
  { split; [done|]. intros (_ & _ & H). destruct (H Hm) as [Hp _]. by apply Hpm in Hp as (_ & _ & ? & _). }
  destruct (existsb _ (px_boundary_ceilings x)) eqn:Hex.
  { simpl. split; [done|]. intros (_ & _ & H). destruct (H Hm) as [Hp _]. apply Hpm in Hp as (_ & _ & _ & Hall).
    apply existsb_exists in Hex as (b & Hin%list_elem_of_In & Hb'). rewrite Forall_forall in Hall.
    by rewrite (Hall _ Hin) in Hb'. }
  assert (permissible) as Hperm.
  { split; [done|done|done|]. apply Forall_forall. intros b Hin. destruct (boundary_allows fs b d) eqn:Hba; [done|].
    assert (existsb (λ b, negb (boundary_allows fs b d)) (px_boundary_ceilings x) = true) as Ht;
      [|by rewrite Ht in Hex]. apply existsb_exists. exists b. by rewrite Hba, <-list_elem_of_In. }
  transitivity (approved invoke); [|split; [by intros; split_and!|by intros (_ & _ & H); apply H]].
  unfold approved. clear Hpm Hex Hperm Hpr Hid.
  destruct (boundary_allows fs (boundary_for_capability _ _ _) d); cbn [negb].
  - revert He Hd. generalize base_decision. intros b He Hd.
    destruct b; repeat match goal with |- context [bool_decide ?P] =>
      first [rewrite (bool_decide_eq_true_2 P) by done|rewrite (bool_decide_eq_false_2 P) by done] end; cbn [orb andb].
    + rewrite He. split; [|done]. intros _. right. split; [done|by left].
    + destruct leased_effect; [split; [by left|done]|].
      destruct invoke; cbn [andb]; [|rewrite He; split; [done|]; by intros [?|(_ & [?|(_ & ? & _)])]].
      destruct (reviewer h x request); cbn [decided pe_decision]; (split; [|by intros [?|(_ & [?|(_ & _ & ?)])]]); try done.
      intros _. right. split; [done|]. by right.
    + destruct leased_effect; [split; [by left|done]|]. rewrite He. split; [done|]. by intros [?|(_ & [?|(? & _)])].
    + done.
  - destruct leased_effect; cbn; [split; [by left|done]|].
    destruct (_ && _); cbn; (split; [done|]); by intros [?|[? _]].
Qed.
End specification.

(** C12: the decision about an effect.  It is allowed exactly when it is evaluated
    under its own capability, the rules and the preset of the mode do not deny it
    and, unless the mode is Bypass, nothing forbids it (the roots of the boundaries
    are still the directories they were, every ceiling admits its class, it touches
    no protected path and it lies within the boundary of every ancestor) and
    somebody approves it: a lease, or inside the boundary a rule, the preset or the
    reviewer.  In every mode, Bypass included, a rule that matches and denies wins
    over all others; without a matching rule the preset decides. *)
Theorem effect_allowed_iff {I} `{EqDecision I} (fs : FileSystem I) (h : Cells I) (x : PermissionContext)
    (now : Z) (run_id : RunId) (capability : string) (request : EffectRequest) (m : PermissionMode)
    (c : PermissionCeiling) (invoke_auto_reviewer : bool) :
  let d := rq_descriptor request in
  (pe_decision (evaluate_effect_with_reviewer_policy fs h x now run_id capability request m c
     invoke_auto_reviewer) = Allow ↔
   allowed fs h x now run_id request m c capability invoke_auto_reviewer) ∧
  (base_decision fs h x request m = Deny ↔
   (∃ rule, rule ∈ rules h x ∧ rule_matches fs rule (rq_capability request) d = true ∧ pr_decision rule = Deny) ∨
   Forall (λ rule, rule_matches fs rule (rq_capability request) d = false) (rules h x) ∧
   preset_default m (ed_class d) = Deny).
Proof. intros d. split; [apply allowed_iff|apply base_denies]. Qed.
