(* ===== verification/PermissionLeases.v ===== *)
(** * Uses of leases

    [consume_lease_durably] of crates/solaris-agent/src/execution_context.rs: a
    lease is used only after the ledger has recorded its use.  Whatever contexts
    share the leases, and whatever appends fail, a lease is never used more often
    than it allows. *)
From S2P Require Import Prelude Json Types WorkflowTypes RuntimeLedger LedgerFacts LedgerInterface Paths NetworkDomains PermissionTypes PermissionEngine ProtectedPaths PermissionContext.

Section durable.
Context {L E I : Type} `{!Ledger L E} `{EqDecision I}.

(** The record of a use. *)
Definition consumption_payload (request : EffectRequest) (lease_id : string) (use_number : Z) : Value :=
  VObject [("lease_id", VString lease_id); ("effect_id", VString (rq_effect_id request));
           ("operation_id", VString (rq_operation_id request)); ("use_number", VNumber (PosInt use_number))].

Definition persist_consumption (now : Z) (run_id : RunId) (request : EffectRequest) (l : L) (lease_id : string)
    (use_number : Z) : L * result unit E :=
  match lg_append l now run_id SyncCritical "capability_lease_consumed"
          (consumption_payload request lease_id use_number) with
  | (l, r) => (l, match r with Ok _ => Ok tt | Err e => Err e end)
  end.

Definition consume_lease_durably (fs : FileSystem I) (now : Z) (run_id : RunId) (request : EffectRequest)
    (l : L) (h : Cells I) (x : PermissionContext) : L * Cells I * result bool E :=
  consume_lease_with (persist_consumption now run_id request) fs now run_id request l h x.

(** ** Histories *)

(** One call: its moment, its context and its effect. *)
Record Attempt : Type := {
  at_fs : FileSystem I;
  at_now : Z;
  at_run : RunId;
  at_request : EffectRequest;
  at_context : PermissionContext;
}.

(** The calls in their order, and those that used a lease. *)
Fixpoint consume_all (l : L) (h : Cells I) (attempts : list Attempt) : L * Cells I * list Attempt :=
  match attempts with
  | [] => (l, h, [])
  | t :: attempts =>
      match consume_lease_durably (at_fs t) (at_now t) (at_run t) (at_request t) l h (at_context t) with
      | (l, h, r) =>
          match consume_all l h attempts with
          | (l, h, used) => (l, h, match r with Ok true => t :: used | _ => used end)
          end
      end
  end.

Definition entries_at (h : Cells I) (a : Address) : list LeaseEntry := default [] (ce_leases h !! a).

(** The uses an entry has left, if it has a limit. *)
Definition limited (e : LeaseEntry) : Prop := ∃ n, cl_max_uses (le_lease e) = Some n ∧ (n ≤ u32_max)%Z.
Definition uses_left (e : LeaseEntry) : Z :=
  match cl_max_uses (le_lease e) with Some n => Z.max 0 (n - le_uses e) | None => 0 end.
Fixpoint budget (entries : list LeaseEntry) : Z :=
  match entries with [] => 0 | e :: entries => uses_left e + budget entries end.

Lemma budget_nonneg entries : (0 ≤ budget entries)%Z.
Proof. induction entries as [|e l IH]; simpl; [done|]. unfold uses_left. destruct (cl_max_uses _); lia. Qed.

(** What is kept of an entry: its lease, while its uses grow. *)
Definition entry_grows (e e' : LeaseEntry) : Prop := le_lease e' = le_lease e ∧ (le_uses e ≤ le_uses e')%Z.
#[export] Instance entry_grows_po : PreOrder entry_grows.
Proof. split; [done|]. intros a b c [] []. split; [congruence|lia]. Qed.

Lemma limited_grows l l' : Forall2 entry_grows l l' → Forall limited l → Forall limited l'.
Proof.
  induction 1 as [|e e' l l' [Hl _] _ IH]; [done|]. rewrite !Forall_cons. intros [H ?]. split; [|auto].
  unfold limited in *. by rewrite Hl.
Qed.

Lemma matches_uses (fs : FileSystem I) e run_id request now n :
  lease_matches fs e run_id request now = true → cl_max_uses (le_lease e) = Some n → (le_uses e < n)%Z.
Proof.
  unfold lease_matches. intros H Hn. rewrite Hn in H. repeat (case_match; [done|]).
  match goal with H : bool_decide (n ≤ _)%Z = false |- _ => apply bool_decide_eq_false in H end. lia.
Qed.

(** One use: recorded, and taken from the budget. *)
Lemma consume_entry_budget {W Er} (fs : FileSystem I) (persist : W → string → Z → W * result unit Er) w l run_id request now w' l' r :
  Forall limited l → consume_entry fs persist w l run_id request now = (w', l', r) →
  Forall2 entry_grows l l' ∧
  budget l = (budget l' + match r with Ok true => 1 | _ => 0 end)%Z ∧
  match r with
  | Ok true => ∃ id n, persist w id n = (w', Ok tt)
  | Ok false => w' = w
  | Err e => ∃ id n, persist w id n = (w', Err e)
  end.
Proof.
  revert w' l' r. induction l as [|e l IH]; intros w' l' r Hl H; simpl in H; [by simplify_eq|].
  apply Forall_cons in Hl as [(n & Hn & Hmax) Hl].
  destruct (lease_matches fs e run_id request now) eqn:Hm.
  - pose proof (matches_uses _ _ _ _ _ _ Hm Hn) as Hlt.
    destruct (persist w _ _) as [w1 [[]|er]] eqn:Hp; simplify_eq.
    + split_and!; [constructor; [split; simpl; [done|lia]|done]| |eauto].
      simpl. unfold uses_left. simpl. rewrite Hn. lia.
    + split_and!; [done|lia|eauto].
  - destruct (consume_entry _ _ _ l _ _ _) as [[w1 l1] r1] eqn:Hc; simplify_eq.
    destruct (IH _ _ _ Hl eq_refl) as (Hg & Hb & Hr). split_and!; [by constructor|simpl; lia|done].
Qed.

(** The calls that concern one list of leases, and one Run. *)
Definition uses_of (a : Address) (used : list Attempt) : nat :=
  length (List.filter (λ t, bool_decide (px_leases (at_context t) = a)) used).
Definition uses_in (run : RunId) (used : list Attempt) : nat :=
  length (List.filter (λ t, bool_decide (at_run t = run)) used).

Definition recorded (l l' : L) (run : RunId) (n : nat) : Prop :=
  ∃ rs, lg_contents l' run = lg_contents l run ++ rs ∧ length rs = n ∧
        Forall (λ r, lr_record_type r = "capability_lease_consumed") rs.

Lemma recorded_refl l run : recorded l l run 0.
Proof. exists []. by rewrite app_nil_r. Qed.

Lemma recorded_trans l1 l2 l3 run n m : recorded l1 l2 run n → recorded l2 l3 run m → recorded l1 l3 run (n + m).
Proof.
  intros (rs & H1 & H2 & H3) (rs' & H1' & H2' & H3'). exists (rs ++ rs').
  by rewrite H1', H1, app_assoc, length_app, H2, H2', Forall_app.
Qed.

Section laws.
Context `{!LedgerLaws L E}.

Lemma persist_recorded now run_id request l id n l' r run :
  persist_consumption now run_id request l id n = (l', r) →
  recorded l l' run (if decide (is_ok r = true ∧ run = run_id) then 1 else 0).
Proof.
  unfold persist_consumption. destruct (lg_append _ _ _ _ _ _) as [l1 [rec|e]] eqn:Ha; intros [= <- <-].
  - destruct (decide (run = run_id)) as [->|Hne].
    + rewrite decide_True by done. destruct (lg_append_stores _ _ _ _ SyncCritical _ _ _ ltac:(done) Ha) as (Hc & _ & Ht & _).
      exists [rec]. rewrite Hc. split_and!; [done|done|by repeat constructor].
    + rewrite decide_False by (by intros [_ ?]). exists []. rewrite app_nil_r.
      split_and!; [by eapply lg_append_other|done|done].
  - rewrite decide_False by (by intros [? _]). exists []. rewrite app_nil_r. split_and!; [by eapply lg_append_err|done|done].
Qed.

(** One call. *)
Lemma consume_durably_step fs now run_id request l h x l' h' r :
  Forall limited (lease_entries h x) →
  consume_lease_durably fs now run_id request l h x = (l', h', r) →
  let n := match r with Ok true => 1%nat | _ => 0%nat end in
  Forall2 entry_grows (lease_entries h x) (entries_at h' (px_leases x)) ∧
  budget (lease_entries h x) = (budget (entries_at h' (px_leases x)) + Z.of_nat n)%Z ∧
  (∀ a, a ≠ px_leases x → entries_at h' a = entries_at h a) ∧
  (∀ run, recorded l l' run (if decide (run = run_id) then n else 0)).
Proof.
  unfold consume_lease_durably, consume_lease_with. intros Hl H.
  destruct (consume_entry _ _ _ _ _ _ _) as [[l1 es] r1] eqn:Hc. simplify_eq.
  destruct (consume_entry_budget _ _ _ _ _ _ _ _ _ _ Hl Hc) as (Hg & Hb & Hr).
  unfold entries_at. cbn [ce_leases set_leases]. rewrite lookup_insert_eq. simpl.
  split_and!; [done|destruct r as [[]|]; simpl in *; lia| |].
  - intros a Ha. by rewrite lookup_insert_ne.
  - intros run. destruct r as [[]|e].
    + destruct Hr as (id & n & Hp). pose proof (persist_recorded _ _ _ _ _ _ _ _ run Hp) as Hrec.
      destruct (decide (run = run_id)); [rewrite decide_True in Hrec by done|rewrite decide_False in Hrec by (by intros [_ ?])]; done.
    + subst l'. case_decide; apply recorded_refl.
    + destruct Hr as (id & n & Hp). pose proof (persist_recorded _ _ _ _ _ _ _ _ run Hp) as Hrec.
      rewrite decide_False in Hrec by (by intros [? _]). by destruct (decide (run = run_id)).
Qed.
End laws.
End durable.

(** Every lease of the store is limited. *)
Definition all_limited {I} (h : Cells I) : Prop := ∀ a, Forall limited (entries_at h a).

Lemma consume_all_spec {L E I} `{!Ledger L E} `{!LedgerLaws L E} `{EqDecision I} (l : L) (h : Cells I) attempts l' h' used :
  all_limited h → consume_all l h attempts = (l', h', used) →
  (∀ a, Forall2 entry_grows (entries_at h a) (entries_at h' a) ∧
        budget (entries_at h a) = (budget (entries_at h' a) + Z.of_nat (uses_of a used))%Z) ∧
  (∀ run, recorded l l' run (uses_in run used)).
Proof.
  revert l h used. induction attempts as [|t attempts IH]; intros l h used Hl H; simpl in H.
  { simplify_eq. split; [|intros; apply recorded_refl]. intros a. split; [|unfold uses_of; simpl; lia].
    reflexivity. }
  destruct (consume_lease_durably _ _ _ _ _ _ _) as [[l1 h1] r] eqn:Hc.
  destruct (consume_all l1 h1 attempts) as [[l2 h2] used2] eqn:Ha. simplify_eq.
  destruct (consume_durably_step _ _ _ _ _ _ _ _ _ _ (Hl _) Hc) as (Hg & Hb & Ho & Hr).
  assert (∀ a, Forall2 entry_grows (entries_at h a) (entries_at h1 a) ∧
    budget (entries_at h a) = (budget (entries_at h1 a) + Z.of_nat (uses_of a (match r with Ok true => [t] | _ => [] end)))%Z) as Hstep.
  { intros a. destruct (decide (a = px_leases (at_context t))) as [->|Hne].
    - split; [done|]. unfold lease_entries in Hb. fold (entries_at h (px_leases (at_context t))) in Hb. rewrite Hb.
      f_equal. destruct r as [[]|]; unfold uses_of; simpl; [|done|done]. by rewrite bool_decide_eq_true_2.
    - rewrite (Ho _ Hne). split; [reflexivity|].
      destruct r as [[]|]; unfold uses_of; simpl; [|lia|lia]. rewrite bool_decide_eq_false_2 by congruence. simpl. lia. }
  assert (all_limited h1) as Hl1 by (intros a; eapply limited_grows; [apply Hstep|apply Hl]).
  destruct (IH _ _ _ Hl1 Ha) as [Hrest Hrec]. split.
  - intros a. destruct (Hstep a) as [Hg1 Hb1], (Hrest a) as [Hg2 Hb2]. split; [by etransitivity|].
    rewrite Hb1, Hb2. unfold uses_of. destruct r as [[]|]; simpl; [|lia|lia].
    case_bool_decide; simpl; lia.
  - intros run. specialize (Hr run). specialize (Hrec run).
    assert (uses_in run (match r with Ok true => t :: used2 | _ => used2 end) =
      (if decide (run = at_run t) then match r with Ok true => 1 | _ => 0 end else 0) + uses_in run used2)%nat as ->;
      [|by eapply recorded_trans].
    unfold uses_in. destruct r as [[]|]; simpl; [|by case_decide|by case_decide].
    case_decide; case_bool_decide; simplify_eq; done.
Qed.

(** C15: leases are not used beyond their limit.  Whatever effects ask for a lease,
    in whatever contexts (a child shares the leases of its parent), at whatever
    times, and whatever appends to the ledger fail: the calls that succeed on a
    list of limited leases are as many as the uses that were left in the beginning
    less those that are left in the end, so never more; the list keeps its leases;
    and the ledger of a Run has exactly one new record for each of its uses. *)
Theorem lease_uses_bounded {L E I} `{!Ledger L E} `{!LedgerLaws L E} `{EqDecision I} (l : L) (h : Cells I)
    (attempts : list (@Attempt I)) :
  all_limited h →
  let '(l', h', used) := consume_all l h attempts in
  (∀ a, (0 ≤ Z.of_nat (uses_of a used) ≤ budget (entries_at h a))%Z ∧
        Z.of_nat (uses_of a used) = (budget (entries_at h a) - budget (entries_at h' a))%Z ∧
        le_lease <$> entries_at h' a = le_lease <$> entries_at h a) ∧
  (∀ run, recorded l l' run (uses_in run used)).
Proof.
  intros Hl. destruct (consume_all l h attempts) as [[l' h'] used] eqn:Ha.
  destruct (consume_all_spec _ _ _ _ _ _ Hl Ha) as [Hs Hr]. split; [|done].
  intros a. destruct (Hs a) as [Hg Hb]. pose proof (budget_nonneg (entries_at h' a)).
  split_and!; [lia|lia|lia|]. clear -Hg. induction Hg as [|e e' es es' [Hle _] _ IH]; [done|]. rewrite !fmap_cons. by rewrite Hle, IH.
Qed.
