(* ===== verification/PermissionHistory.v ===== *)
(** * Histories of permission contexts

    Every operation that changes the cells of the contexts, as one step on the
    store and the contexts made so far; each step may see another file system.
    What holds along every history: the runtime state that was registered stays
    protected, and a child context never gets more than it was given. *)
From S2P Require Import Prelude Json Types WorkflowTypes Paths NetworkDomains PermissionTypes PermissionEngine ProtectedPaths PermissionContext PermissionFacts.

Section history.
Context {I : Type} `{EqDecision I}.

Inductive Change : Type :=
  | NewContext (m : PermissionMode) (c : PermissionCeiling)
  | Narrow (c : PermissionCeiling)
  | NarrowWithBoundary (c : PermissionCeiling) (b : ExecutionBoundary)
  | SetMode (m : PermissionMode)
  | AddRule (r : PermissionRule)
  | ReplaceRules (l : list PermissionRule)
  | SetGeneratedRules (source : string) (l : list PermissionRule)
  | RemoveGeneratedRules (source : string)
  | SetCeiling (c : PermissionCeiling)
  | RestoreLease (lease : CapabilityLease) (uses : Z)
  | ConsumeLease (persist : string → Z → result unit string) (now : Z) (run_id : RunId) (request : EffectRequest)
  | SetBoundary (b : ExecutionBoundary)
  | AllowConfigured (source capability : string) (d : EffectDescriptor)
  | RevokeConfigured (source : string)
  | SetReviewer (r : PermissionReviewer)
  | RegisterProtected (root : Path) (paths : list Path)
  | ProcessSnapshot
  | RefreshSearch (em : option PermissionMode)
  | OpenFile (em : option PermissionMode) (path : Path) (parent : I) (name : string) (i : I)
  | ReplaceWith (replacement : PermissionContext).

Record World : Type := { wd_cells : Cells I; wd_contexts : list PermissionContext }.
Definition world_empty : World := {| wd_cells := empty_cells; wd_contexts := [] |}.

(** The cells after an operation on a context. *)
Definition change_cells (fs : FileSystem I) (op : Change) (x : PermissionContext) (h : Cells I) : Cells I :=
  match op with
  | NewContext m c => (new_context m c h).1
  | Narrow c => (narrowed h x c).1
  | NarrowWithBoundary c b => (narrowed_with_boundary fs h x c b).1
  | SetMode m => set_mode m h x
  | AddRule r => add_rule r h x
  | ReplaceRules l => replace_rules l h x
  | SetGeneratedRules source l => set_generated_rules source l h x
  | RemoveGeneratedRules source => remove_generated_rules source h x
  | SetCeiling c => set_ceiling c h x
  | RestoreLease lease uses => restore_lease lease uses h x
  | ConsumeLease persist now run_id request =>
      (consume_lease_with (λ u id n, (u, persist id n)) fs now run_id request tt h x).1.2
  | SetBoundary b => set_boundary fs b h x
  | AllowConfigured source capability d => allow_configured_effect_for source capability d h x
  | RevokeConfigured source => revoke_configured_effect_from source h x
  | SetReviewer r => set_reviewer r h x
  | RegisterProtected root paths => (register_protected_paths fs root paths h x).1
  | ProcessSnapshot => (protected_process_snapshot fs h x).1
  | RefreshSearch em => (search_refresh fs h x em).1
  | OpenFile em path parent name i => (allows_opened_file fs h x em path parent name i).1
  | ReplaceWith y => replace_with h x y
  end.

(** The context it makes. *)
Definition made_context (fs : FileSystem I) (op : Change) (x : PermissionContext) (h : Cells I) :
    option PermissionContext :=
  match op with
  | NewContext m c => Some (new_context m c h).2
  | Narrow c => Some (narrowed h x c).2
  | NarrowWithBoundary c b => Some (narrowed_with_boundary fs h x c b).2
  | _ => None
  end.

Definition change (fs : FileSystem I) (op : Change) (x : PermissionContext) (w : World) : World :=
  {| wd_cells := change_cells fs op x (wd_cells w);
     wd_contexts := wd_contexts w ++ option_list (made_context fs op x (wd_cells w)) |}.

(** The contexts of an operation exist; the first has no parent. *)
Definition applicable_to (op : Change) (x : PermissionContext) (w : World) : Prop :=
  match op with
  | NewContext _ _ => True
  | ReplaceWith y => x ∈ wd_contexts w ∧ y ∈ wd_contexts w
  | _ => x ∈ wd_contexts w
  end.

(** The operation does not set the ceiling of [y]. *)
Definition leaves_ceiling (y : PermissionContext) (op : Change) (x : PermissionContext) : Prop :=
  match op with
  | SetCeiling _ | ReplaceWith _ => x ≠ y
  | _ => True
  end.

(** Steps under a condition on the operations. *)
Inductive changes (allowed_op : Change → PermissionContext → Prop) : World → World → Prop :=
  | changes_refl w : changes allowed_op w w
  | changes_step fs op x w w' :
      applicable_to op x w → allowed_op op x → changes allowed_op (change fs op x w) w' → changes allowed_op w w'.

Definition any_operation (_ : Change) (_ : PermissionContext) : Prop := True.

(** ** Addresses *)

Definition addresses_below (n : Address) (x : PermissionContext) : Prop :=
  px_ceiling x < n ∧ px_protected_paths x < n.

(** A ceiling belongs to one context, and new cells are new. *)
Record world_ok (w : World) : Prop := {
  wk_below : Forall (addresses_below (ce_next (wd_cells w))) (wd_contexts w);
  wk_own : ∀ x y, x ∈ wd_contexts w → y ∈ wd_contexts w → px_ceiling x = px_ceiling y → x = y;
}.

Lemma change_next fs op x h :
  ce_next (change_cells fs op x h) =
  match made_context fs op x h with Some _ => S (ce_next h) | None => ce_next h end.
Proof.
  destruct op; try done; cbn -[consume_entry].
  - unfold consume_lease_with. by destruct (consume_entry _ _ _ _ _ _ _) as [[? ?] ?].
  - unfold register_protected_paths. by destruct (register_protected _ _ _ _).
  - unfold protected_process_snapshot. by destruct (process_snapshot _ _).
  - unfold search_refresh. repeat case_match; done.
  - unfold allows_opened_file. repeat case_match; done.
Qed.

Lemma made_fresh fs op x w y :
  world_ok w → applicable_to op x w → made_context fs op x (wd_cells w) = Some y →
  px_ceiling y = ce_next (wd_cells w) ∧ addresses_below (S (ce_next (wd_cells w))) y.
Proof.
  intros [Hb _] Ha. rewrite Forall_forall in Hb.
  destruct op; intros [= <-]; cbn in *; (split; [done|]); (split; cbn; [lia|]); try lia;
    destruct (Hb _ Ha) as [_ ?]; lia.
Qed.

Lemma change_ok fs op x w : world_ok w → applicable_to op x w → world_ok (change fs op x w).
Proof.
  intros Hw Ha. pose proof (λ y, made_fresh fs op x w y Hw Ha) as Hf. destruct Hw as [Hb Ho].
  assert (∀ z, z ∈ wd_contexts w → px_ceiling z < ce_next (wd_cells w)) as Hlt.
  { intros z Hz. by apply (proj1 (Forall_forall _ _) Hb). }
  split; cbn; rewrite ?change_next; destruct (made_context fs op x (wd_cells w)) as [y|]; cbn;
    rewrite ?app_nil_r; [|done| |done].
  - destruct (Hf y eq_refl) as [_ Hy]. apply Forall_app. split; [|by apply Forall_singleton].
    eapply Forall_impl; [done|]. intros z [? ?]. split; lia.
  - destruct (Hf y eq_refl) as [Hy _]. intros z z'. rewrite !elem_of_app, !list_elem_of_singleton.
    intros [Hz| ->] [Hz'| ->] He; [by apply Ho| | |done]; [apply Hlt in Hz|apply Hlt in Hz']; lia.
Qed.

Lemma changes_ok P w w' : changes P w w' → world_ok w → world_ok w'.
Proof. induction 1; [done|]. eauto using change_ok. Qed.

Lemma world_empty_ok : world_ok world_empty.
Proof. split; cbn; [done|]. by intros x y ?%not_elem_of_nil. Qed.

Lemma contexts_grow P w w' x : changes P w w' → x ∈ wd_contexts w → x ∈ wd_contexts w'.
Proof. induction 1 as [|fs op z w w' _ _ _ IH]; [done|]. intros Hx. apply IH. cbn. rewrite elem_of_app. by left. Qed.

(** ** Protection *)

Definition policy_at (h : Cells I) (a : Address) : ProtectedPathPolicy I :=
  default policy_default (ce_protected h !! a).

Lemma set_protected_retains p h x a :
  retains (protected_paths h x) p → retains (policy_at h a) (policy_at (set_protected_paths p h x) a).
Proof.
  intros Hr. unfold policy_at, set_protected_paths. cbn [ce_protected set_protected].
  destruct (decide (a = px_protected_paths x)) as [->|Hne]; [by rewrite lookup_insert_eq|by rewrite lookup_insert_ne].
Qed.

Definition makes_root (op : Change) : bool := match op with NewContext _ _ => true | _ => false end.

Lemma change_retains fs op x w a :
  makes_root op = false ∨ a ≠ ce_next (wd_cells w) → retains (policy_at (wd_cells w) a) (policy_at (change_cells fs op x (wd_cells w)) a).
Proof.
  intros Ha. generalize dependent (wd_cells w). intros h Ha. destruct op; try reflexivity.
  - destruct Ha as [Ha|Ha]; [done|]. unfold policy_at. cbn. by rewrite lookup_insert_ne.
  - cbn. unfold consume_lease_with. by destruct (consume_entry _ _ _ _ _ _ _) as [[? ?] ?].
  - cbn. unfold register_protected_paths. pose proof (retains_register fs (protected_paths h x) root paths) as Hr.
    destruct (register_protected _ _ _ _). by apply set_protected_retains.
  - cbn. unfold protected_process_snapshot. pose proof (retains_snapshot fs (protected_paths h x)) as Hr.
    destruct (process_snapshot _ _). by apply set_protected_retains.
  - cbn. unfold search_refresh. case_decide; [done|]. destruct (negb _); [done|].
    pose proof (retains_refresh fs (protected_paths h x)) as Hr.
    destruct (refresh_file_identities _ _). by apply set_protected_retains.
  - cbn. unfold allows_opened_file. case_decide; [done|]. destruct (boundary_identities_valid _ _ _); [|done].
    pose proof (retains_opened_file fs (protected_paths h x) path parent name i) as Hr.
    destruct (protects_opened_file _ _ _ _ _ _). by apply set_protected_retains.
  - apply (set_protected_retains _ h x a), retains_merge.
Qed.

Lemma changes_retain P w w' a :
  changes P w w' → world_ok w → a < ce_next (wd_cells w) →
  retains (policy_at (wd_cells w) a) (policy_at (wd_cells w') a).
Proof.
  induction 1 as [|fs op x w w' Hap _ _ IH]; intros Hw Ha; [done|].
  etransitivity; [apply (change_retains fs op x); lia|]. apply IH; [by apply change_ok|].
  cbn. rewrite change_next. case_match; lia.
Qed.

Definition all_bounded (h : Cells I) : Prop := ∀ a, retained_bounded (policy_at h a).

Lemma default_bounded : retained_bounded (I:=I) policy_default.
Proof. split; cbn; unfold MAX_RETAINED_IDENTITIES; lia. Qed.

Lemma changes_bounded P w w' : changes P w w' → all_bounded (wd_cells w) → all_bounded (wd_cells w').
Proof.
  induction 1 as [|fs op x w w' _ _ _ IH]; [done|]. intros Hb. apply IH. intros a. cbn.
  destruct (decide (makes_root op = true ∧ a = ce_next (wd_cells w))) as [[Hr ->]|Hn].
  - destruct op; try done. unfold policy_at. cbn. rewrite lookup_insert_eq. apply default_bounded.
  - destruct (change_retains fs op x w a) as [_ Hr]; [|by apply Hr].
    destruct (makes_root op); [|by left]. right. intros ->. by apply Hn.
Qed.

(** What a policy protects, and so does the other. *)
Record protects_more (fs : FileSystem I) (p p' : ProtectedPathPolicy I) : Prop := {
  pm_path : ∀ path, protects fs p path = true → protects fs p' path = true;
  pm_traversed : ∀ path, protects_traversed_file fs p path = true → protects_traversed_file fs p' path = true;
  pm_directory : ∀ path i, protects_opened_directory fs p path i = true → protects_opened_directory fs p' path i = true;
  pm_slot : ∀ path parent name, protects_file_slot fs p path parent name = true → protects_file_slot fs p' path parent name = true;
  pm_file : ∀ path parent name i, (protects_opened_file fs p path parent name i).2 = true →
    (protects_opened_file fs p' path parent name i).2 = true;
  pm_descriptor : ∀ d, protects_descriptor fs p d = true → protects_descriptor fs p' d = true;
}.

(** ** Ceilings *)

Lemma change_ceiling fs op x y w :
  world_ok w → applicable_to op x w → y ∈ wd_contexts w → leaves_ceiling y op x →
  ceiling (change_cells fs op x (wd_cells w)) y = ceiling (wd_cells w) y.
Proof.
  intros [Hb Ho] Ha Hy Hl. pose proof (proj1 (Forall_forall _ _) Hb y Hy) as [Hlt _].
  destruct op; try reflexivity; unfold ceiling; cbn.
  - by rewrite lookup_insert_ne by lia.
  - by rewrite lookup_insert_ne by lia.
  - by rewrite lookup_insert_ne by lia.
  - rewrite lookup_insert_ne; [done|]. intros He. apply Hl, Ho; done.
  - unfold consume_lease_with. by destruct (consume_entry _ _ _ _ _ _ _) as [[? ?] ?].
  - unfold register_protected_paths. by destruct (register_protected _ _ _ _).
  - unfold protected_process_snapshot. by destruct (process_snapshot _ _).
  - unfold search_refresh. repeat case_match; done.
  - unfold allows_opened_file. repeat case_match; done.
  - rewrite lookup_insert_ne; [done|]. intros He. destruct Ha. apply Hl, Ho; done.
Qed.

Lemma changes_ceiling y w w' :
  changes (leaves_ceiling y) w w' → world_ok w → y ∈ wd_contexts w →
  ceiling (wd_cells w') y = ceiling (wd_cells w) y.
Proof.
  induction 1 as [|fs op x w w' Hap Hl _ IH]; intros Hw Hy; [done|].
  rewrite IH; [by apply change_ceiling|by apply change_ok|]. cbn. rewrite elem_of_app. by left.
Qed.

(** What a child is given: its ceiling and its boundary. *)
Definition narrowing (op : Change) : option (PermissionCeiling * list ExecutionBoundary) :=
  match op with
  | Narrow c => Some (c, [])
  | NarrowWithBoundary c b => Some (c, [b])
  | _ => None
  end.

Lemma narrowing_makes fs op x h c bs :
  narrowing op = Some (c, bs) →
  ∃ y, made_context fs op x h = Some y ∧
       ceiling (change_cells fs op x h) y = ceiling_intersect (ceiling h x) c ∧
       px_boundary_ceilings y = px_boundary_ceilings x ++ bs.
Proof.
  destruct op; intros [= <- <-]; eexists; (split; [done|]); unfold ceiling; cbn; rewrite lookup_insert_eq;
    rewrite ?app_nil_r; done.
Qed.
End history.

(** C14: protection is permanent.  Along every history of any contexts (their
    rules, modes, leases and boundaries may change and they may be replaced), what
    a context once kept away from paths, from the objects found there, from the
    slots of state files and from effects that name them, it keeps away for ever,
    in whatever the file system becomes; and no list of retained identities
    exceeds its capacity of 64. *)
Theorem protection_permanent {I} `{EqDecision I} (w w' : World (I:=I)) (x : PermissionContext) :
  changes any_operation world_empty w → changes any_operation w w' → x ∈ wd_contexts w →
  retained_bounded (protected_paths (wd_cells w') x) ∧
  ∀ fs, protects_more fs (protected_paths (wd_cells w) x) (protected_paths (wd_cells w') x).
Proof.
  intros Hw Hw' Hx. assert (world_ok w) as Hok by (by eapply changes_ok, world_empty_ok).
  assert (px_protected_paths x < ce_next (wd_cells w)) as Hlt
    by (by apply (proj1 (Forall_forall _ _) (wk_below _ Hok))).
  split.
  - apply (changes_bounded _ _ _ Hw'), (changes_bounded _ _ _ Hw). intros a. apply default_bounded.
  - intros fs. destruct (changes_retain _ _ _ _ Hw' Hok Hlt) as [Hg _].
    split; intros *; [by apply protects_grown|by apply traversed_grown|by apply directory_grown|
      by apply slot_grown|by apply opened_file_grown|by apply descriptor_grown].
Qed.

(** C13: a child has at most the authority it was given.  After any later history
    of all contexts in which nobody sets the ceiling of the child or replaces it,
    an effect that the child is allowed outside the mode Bypass is of a class that
    both the ceiling of its parent at the time and the ceiling it was asked for
    admit, and lies within the boundary it was given and those of all its
    ancestors, whatever rules, leases, reviewers or boundaries are set for the
    child, its parent or anybody else. *)
Theorem child_keeps_authority {I} `{EqDecision I} (w w' : World (I:=I)) (x : PermissionContext)
    (fs0 : FileSystem I) (op : Change) (c : PermissionCeiling) (bs : list ExecutionBoundary) :
  changes any_operation world_empty w → x ∈ wd_contexts w → narrowing op = Some (c, bs) →
  ∃ y, made_context fs0 op x (wd_cells w) = Some y ∧
    (changes (leaves_ceiling y) (change fs0 op x w) w' →
     ∀ fs now run_id capability request m c' invoke, m ≠ Bypass →
     pe_decision (evaluate_effect_with_reviewer_policy fs (wd_cells w') y now run_id capability request m c' invoke)
       = Allow →
     let d := rq_descriptor request in
     ceiling_allows (ceiling (wd_cells w) x) (ed_class d) = true ∧ ceiling_allows c (ed_class d) = true ∧
     Forall (λ b, boundary_allows fs b d = true) (px_boundary_ceilings x ++ bs)).
Proof.
  intros Hw Hx Hn. assert (world_ok w) as Hok by (by eapply changes_ok, world_empty_ok).
  destruct (narrowing_makes fs0 op x (wd_cells w) c bs Hn) as (y & Hy & Hc & Hb). exists y. split; [done|].
  intros Hch fs now run_id capability request m c' invoke Hm Hal d.
  assert (applicable_to op x w) as Hap by (by destruct op).
  assert (ceiling (wd_cells w') y = ceiling_intersect (ceiling (wd_cells w) x) c) as Hc'.
  { rewrite (changes_ceiling _ _ _ Hch); [done|by apply change_ok|].
    cbn. rewrite Hy, elem_of_app. right. by apply list_elem_of_singleton. }
  apply allowed_iff in Hal as (_ & _ & Hp). destruct (Hp Hm) as [[_ Hcl _ Han] _].
  unfold within_ceiling in Hcl. rewrite Hc', ceiling_intersect_allows, !andb_true_iff in Hcl.
  rewrite Hb in Han. by destruct Hcl as [[[? ?] _] _].
Qed.
