(* ===== verification/PermissionExamples.v ===== *)
(** * Examples of permissions

    A workspace with its runtime state, a child Agent and an approval for one use;
    the theorems of the other files at concrete inputs. *)
From S2P Require Import Prelude Json Types WorkflowTypes RuntimeLedger LedgerFacts LedgerInterface Paths NetworkDomains PermissionTypes PermissionEngine ProtectedPaths PermissionContext PermissionFacts PermissionLeases PermissionHistory.

(** Every path is a directory, known by its depth. *)
Definition demo_fs : FileSystem nat :=
  {| fs_current_dir := Some [RootDir; Normal "work"]; fs_exists := λ _, true; fs_canonicalize := Some;
     fs_kind := λ _, Some KDirectory; fs_open_dir := λ p, Some (length p); fs_open_file := λ _, None;
     fs_open_in := λ _ _, NotFound; fs_root_authority := λ p, Some (length p);
     fs_current_identity := λ p, Some (length p); fs_symlink_metadata := λ _, OpenedAs tt;
     fs_object_identity := Some |}.

Definition demo_descriptor (class : EffectClass) (reads commands : list string) : EffectDescriptor :=
  {| ed_class := class; ed_action := "run"; ed_replay_policy := Never;
     ed_resources := {| rf_unrestricted_file_reads := false; rf_unrestricted_file_writes := false;
       rf_unrestricted_network := false; rf_unrestricted_process := false; rf_file_reads := reads;
       rf_file_writes := []; rf_network_domains := []; rf_process_commands := commands;
       rf_process_invocations := []; rf_external_resources := []; rf_mesh_resources := [] |} |}.

Definition demo_request (d : EffectDescriptor) : EffectRequest :=
  {| rq_effect_id := "effect-1"; rq_operation_id := "operation-1"; rq_capability := "Shell"; rq_descriptor := d;
     rq_effective_input := VNull; rq_input_digest := None |}.

Definition read_request (path : string) : EffectRequest := demo_request (demo_descriptor ReadOnly [path] []).

(** ** A history *)

Definition demo_root : PermissionContext := (new_context Auto ceiling_unrestricted (empty_cells (I:=nat))).2.
Definition demo_w1 : World := change demo_fs (NewContext Auto ceiling_unrestricted) demo_root world_empty.
Definition demo_w2 : World :=
  change demo_fs (RegisterProtected (components "/state") [components "/state/runtime.db"]) demo_root demo_w1.
Definition child_ceiling : PermissionCeiling :=
  {| pc_agent_lifecycle := true; pc_mesh_state_mutation := true; pc_workspace_mutation := true;
     pc_process := false; pc_network := false; pc_external_side_effect := false |}.
Definition demo_child_op : Change (I:=nat) := NarrowWithBoundary child_ceiling (boundary_workspace "/work").
Definition demo_child : PermissionContext :=
  (narrowed_with_boundary demo_fs (wd_cells demo_w2) demo_root child_ceiling (boundary_workspace "/work")).2.
Definition demo_w3 : World := change demo_fs demo_child_op demo_root demo_w2.
Definition allow_everything : PermissionRule :=
  {| pr_capability := None; pr_action := None; pr_effect_class := None; pr_resource_prefixes := [];
     pr_decision := Allow |}.
Definition demo_w4 : World := change demo_fs (AddRule allow_everything) demo_child demo_w3.

Definition demo_decision (h : Cells nat) (x : PermissionContext) (request : EffectRequest) : PermissionDecision :=
  pe_decision (evaluate_effect demo_fs h x 0 "run" "Shell" request).

(** Decisions about the parent and its child. *)
Lemma demo_decisions :
  demo_decision (wd_cells demo_w2) demo_root (read_request "/work/a") = Allow ∧
  demo_decision (wd_cells demo_w2) demo_root (read_request "/work/../state/runtime.db") = Deny ∧
  demo_decision (wd_cells demo_w2) demo_root (demo_request (demo_descriptor Process [] ["git status"])) = Allow ∧
  demo_decision (wd_cells demo_w2) demo_root (demo_request (demo_descriptor Process [] ["git push"])) = Ask ∧
  demo_decision (wd_cells demo_w4) demo_child (read_request "/work/src/a.rs") = Allow ∧
  demo_decision (wd_cells demo_w4) demo_child (read_request "/etc/passwd") = Deny ∧
  demo_decision (wd_cells demo_w4) demo_child (demo_request (demo_descriptor Process [] ["git status"])) = Deny.
Proof. vm_compute. repeat split. Qed.

Lemma demo_root_in : demo_root ∈ wd_contexts demo_w2.
Proof. vm_compute. by apply list_elem_of_singleton. Qed.
Lemma demo_reachable : changes any_operation world_empty demo_w2.
Proof.
  eapply (changes_step _ demo_fs (NewContext Auto ceiling_unrestricted) demo_root); [done|done|].
  eapply (changes_step _ demo_fs (RegisterProtected (components "/state") [components "/state/runtime.db"]) demo_root);
    [|done|apply changes_refl].
  vm_compute. by apply list_elem_of_singleton.
Qed.
Lemma demo_child_reachable : changes (leaves_ceiling demo_child) demo_w3 demo_w4.
Proof.
  eapply (changes_step _ demo_fs (AddRule allow_everything) demo_child); [|done|apply changes_refl].
  apply elem_of_app. right. by apply list_elem_of_singleton.
Qed.
Lemma demo_later P :
  (∀ op x, leaves_ceiling demo_child op x → P op x) → P demo_child_op demo_root → changes P demo_w2 demo_w4.
Proof.
  intros HP H. eapply (changes_step _ demo_fs demo_child_op demo_root); [apply demo_root_in|done|].
  eapply (changes_step _ demo_fs (AddRule allow_everything) demo_child); [|by apply HP|apply changes_refl].
  apply elem_of_app. right. by apply list_elem_of_singleton.
Qed.

Lemma protection_permanent_witness :
  protects demo_fs (protected_paths (wd_cells demo_w2) demo_root) (components "/state/x/../runtime.db") = true ∧
  protects demo_fs (protected_paths (wd_cells demo_w4) demo_root) (components "/state/x/../runtime.db") = true.
Proof.
  assert (protects demo_fs (protected_paths (wd_cells demo_w2) demo_root) (components "/state/x/../runtime.db") = true)
    as H by reflexivity.
  split; [exact H|].
  destruct (protection_permanent demo_w2 demo_w4 demo_root demo_reachable (demo_later _ (λ _ _ _, Logic.I) Logic.I)
    demo_root_in) as [_ Hp].
  exact (pm_path _ _ _ (Hp demo_fs) _ H).
Defined.

Lemma child_keeps_authority_witness :
  demo_decision (wd_cells demo_w4) demo_child (read_request "/work/src/a.rs") = Allow ∧
  boundary_allows demo_fs (boundary_workspace "/work") (rq_descriptor (read_request "/work/src/a.rs")) = true.
Proof.
  assert (demo_decision (wd_cells demo_w4) demo_child (read_request "/work/src/a.rs") = Allow) as H by reflexivity.
  split; [exact H|].
  destruct (child_keeps_authority demo_w2 demo_w4 demo_root demo_fs demo_child_op child_ceiling [boundary_workspace "/work"]
    demo_reachable demo_root_in eq_refl) as (y & Hy & Hc).
  injection Hy as <-. specialize (Hc demo_child_reachable demo_fs 0%Z "run" "Shell" (read_request "/work/src/a.rs")
    Auto (ceiling (wd_cells demo_w4) demo_child) true ltac:(discriminate) H) as (_ & _ & Hb).
  exact (Forall_inv Hb).
Defined.

(** ** A lease for one use *)

Definition demo_lease : CapabilityLease :=
  {| cl_lease_id := "lease-1"; cl_capability := "Shell"; cl_action := Some "run"; cl_scope := ScopeEffect "effect-1";
     cl_grants := {| xp_unrestricted_file_reads := false; xp_unrestricted_file_writes := false;
       xp_unrestricted_network := false; xp_unrestricted_process := false; xp_file_reads := []; xp_file_writes := [];
       xp_network_domains := []; xp_process_command_prefix := None; xp_process_invocations := [] |};
     cl_max_uses := Some 1; cl_expires_at_unix_ms := None |}%Z.
Definition leased_cells : Cells nat := restore_lease demo_lease 0 (wd_cells demo_w4) demo_root.
Definition demo_attempt (x : PermissionContext) : Attempt :=
  {| at_fs := demo_fs; at_now := 5; at_run := "run"; at_context := x;
     at_request := demo_request (demo_descriptor Process [] ["git push"]) |}.

Lemma leased_limited : all_limited leased_cells.
Proof.
  intros a. unfold entries_at. cbn [leased_cells restore_lease set_leases ce_leases].
  destruct (decide (a = px_leases demo_root)) as [->|Hne].
  - rewrite lookup_insert_eq. cbn [default]. assert (lease_entries (wd_cells demo_w4) demo_root = []) as -> by reflexivity.
    unfold restore_lease_entry. cbn. constructor; [|constructor]. exists 1%Z. split; [reflexivity|]. done.
  - rewrite lookup_insert_ne by done. assert (ce_leases (wd_cells demo_w4) = {[px_leases demo_root := []]}) as ->
      by reflexivity. rewrite lookup_singleton_ne by done. constructor.
Qed.

(** The parent and its child ask for it, only one of them gets it. *)
Lemma lease_uses_bounded_witness :
  let used := (consume_all (ledger_default : InMemoryLedgerState) leased_cells
                 [demo_attempt demo_root; demo_attempt demo_child; demo_attempt demo_root]).2 in
  length used = 1 ∧ (Z.of_nat (uses_of (px_leases demo_root) used) ≤ 1)%Z.
Proof.
  split; [reflexivity|].
  pose proof (lease_uses_bounded (ledger_default : InMemoryLedgerState) leased_cells
    [demo_attempt demo_root; demo_attempt demo_child; demo_attempt demo_root] leased_limited) as H.
  destruct (consume_all _ _ _) as [[l h] used]. destruct H as [H _]. exact (proj2 (proj1 (H (px_leases demo_root)))).
Defined.
