(* ===== verification/EffectAudit.v ===== *)
(** * The audit projection of an effect

    [EffectAuditProjection] of crates/solaris-types/src/effect.rs: what the ledger
    and the Host may see of an effect.  It has fixed categories, counts and digests
    only, and its digest identifies the effect.  SHA-256 is a parameter; what is
    hashed, byte by byte, is not. *)
From S2P Require Import ResourceTypes Prelude Json Types WorkflowTypes Identity.
From S2P Require Import Paths NetworkDomains PermissionTypes PermissionEngine ProtectedPaths.

(** ** Data *)

Definition AUDIT_VERSION : string := "solaris.effect-audit/v1".

Record EffectActionAudit : Type := { ea_summary : string; ea_digest : string }.

Inductive EffectResourceKind : Type :=
  | FileRead | FileWrite | NetworkDomain | ProcessCommand | ProcessInvocationKind | ExternalResource
  | MeshResource.
#[export] Instance EffectResourceKind_eq_dec : EqDecision EffectResourceKind.
Proof. solve_decision. Defined.

Record EffectResourceAudit : Type := {
  er_kind : EffectResourceKind;
  er_count : Z;
  er_unrestricted : bool;
  er_digest : option string;
}.

Record ExecutableAuditIdentity : Type := {
  xi_executable_digest : string;
  xi_argv_count : Z;
  xi_invocation_digest : string;
}.

Record EffectAuditProjection : Type := {
  ap_version : string;
  ap_class : EffectClass;
  ap_action : EffectActionAudit;
  ap_resources : list EffectResourceAudit;
  ap_executables : list ExecutableAuditIdentity;
  ap_replay_policy : EffectReplayPolicy;
  ap_descriptor_digest : string;
}.

(** ** Labels *)

Definition effect_action_summary (class : EffectClass) : string :=
  match class with
  | ReadOnly => "read-only effect"
  | AgentLifecycle => "agent lifecycle effect"
  | MeshStateMutation => "mesh state mutation"
  | WorkspaceMutation => "workspace mutation"
  | Process => "process effect"
  | Network => "network effect"
  | ExternalSideEffect => "external side effect"
  end.

Definition effect_class_label (class : EffectClass) : string :=
  match class with
  | ReadOnly => "read_only" | AgentLifecycle => "agent_lifecycle"
  | MeshStateMutation => "mesh_state_mutation" | WorkspaceMutation => "workspace_mutation"
  | Process => "process" | Network => "network" | ExternalSideEffect => "external_side_effect"
  end.

Definition replay_policy_label (p : EffectReplayPolicy) : string :=
  match p with
  | Never => "never" | Idempotent => "idempotent" | ReplaySafe => "replay_safe"
  | ReconcileRequired => "reconcile_required" | Compensatable => "compensatable"
  end.

Definition resource_kind_label (k : EffectResourceKind) : string :=
  match k with
  | FileRead => "file_read" | FileWrite => "file_write" | NetworkDomain => "network_domain"
  | ProcessCommand => "process_command" | ProcessInvocationKind => "process_invocation"
  | ExternalResource => "external_resource" | MeshResource => "mesh_resource"
  end.

Definition resource_digest_domain (k : EffectResourceKind) : string := "resource/" +:+ resource_kind_label k.

Definition resource_kind_rank (k : EffectResourceKind) : nat :=
  match k with
  | FileRead => 0 | FileWrite => 1 | NetworkDomain => 2 | ProcessCommand => 3 | ProcessInvocationKind => 4
  | ExternalResource => 5 | MeshResource => 6
  end.

(** ** Bytes *)

Definition NUL : string := String "000"%char "".

(** The low byte, and [n] bytes of a number, the most significant first. *)
Definition byte_char (n : Z) : ascii := ascii_of_N (Z.to_N (n mod 256)).
Fixpoint be_bytes (count : nat) (n : Z) (acc : string) : string :=
  match count with
  | O => acc
  | S count => be_bytes count (n / 256) (String (byte_char n) acc)
  end.

(** [(n as u64).to_be_bytes()]. *)
Definition be64 (n : Z) : string := be_bytes 8 n "".

Fixpoint concat_all (l : list string) : string :=
  match l with [] => "" | s :: l => s +:+ concat_all l end.

(** What [audit_hasher] starts with, and [update_length_prefixed]. *)
Definition audit_prefix (domain : string) : string := AUDIT_VERSION +:+ NUL +:+ domain +:+ NUL.
Definition length_prefixed (s : string) : string := be64 (byte_len s) +:+ s.

(** [hasher.update(len)] and every element. *)
Definition counted {A} (encode : A → string) (l : list A) : string :=
  be64 (Z.of_nat (length l)) +:+ concat_all (encode <$> l).

(** [update_process_invocation]. *)
Definition invocation_bytes (i : ProcessInvocation) : string :=
  length_prefixed (pi_executable i) +:+ counted length_prefixed (pi_argv i).

Definition resource_bytes (r : EffectResourceAudit) : string :=
  length_prefixed (resource_kind_label (er_kind r)) +:+ be64 (er_count r) +:+
  String (byte_char (if er_unrestricted r then 1 else 0)%Z) "" +:+
  length_prefixed (default "" (er_digest r)).

Definition executable_bytes (x : ExecutableAuditIdentity) : string :=
  length_prefixed (xi_executable_digest x) +:+ be64 (xi_argv_count x) +:+
  length_prefixed (xi_invocation_digest x).

(** ** Canonical resources *)

Fixpoint strings_compare (a b : list string) : comparison :=
  match a, b with
  | [], [] => Eq
  | [], _ :: _ => Lt
  | _ :: _, [] => Gt
  | x :: a, y :: b => match String.compare x y with Eq => strings_compare a b | o => o end
  end.

Definition invocation_compare (a b : ProcessInvocation) : comparison :=
  match String.compare (pi_executable a) (pi_executable b) with
  | Eq => strings_compare (pi_argv a) (pi_argv b)
  | o => o
  end.
Definition invocation_le (a b : ProcessInvocation) : Prop := invocation_compare a b ≠ Gt.
#[export] Instance invocation_le_dec a b : Decision (invocation_le a b).
Proof. unfold invocation_le. destruct (invocation_compare a b); [left|left|right]; congruence. Defined.

Definition sorted_strings (l : list string) : list string := dedup (merge_sort String.le l).
Definition sorted_invocations (l : list ProcessInvocation) : list ProcessInvocation :=
  dedup (merge_sort invocation_le l).

Definition canonical_audit_resources (r : ResourceFootprint) : ResourceFootprint :=
  {| rf_unrestricted_file_reads := rf_unrestricted_file_reads r;
     rf_unrestricted_file_writes := rf_unrestricted_file_writes r;
     rf_unrestricted_network := rf_unrestricted_network r;
     rf_unrestricted_process := rf_unrestricted_process r;
     rf_file_reads := sorted_strings (rf_file_reads r);
     rf_file_writes := sorted_strings (rf_file_writes r);
     rf_network_domains := sorted_strings (rf_network_domains r);
     rf_process_commands := sorted_strings (rf_process_commands r);
     rf_process_invocations := sorted_invocations (rf_process_invocations r);
     rf_external_resources := sorted_strings (rf_external_resources r);
     rf_mesh_resources := sorted_strings (rf_mesh_resources r) |}.

(** [matches!(byte, b'0'..=b'9' | b'a'..=b'f')]. *)
Definition is_lower_hex (c : ascii) : bool :=
  is_ascii_digit c || ((97 <=? N_of_ascii c)%N && (N_of_ascii c <=? 102)%N).

Definition is_sha256_identity (value : string) : bool :=
  match strip_prefix "sha256:" value with
  | Some digest => bool_decide (byte_len digest = 64)%Z && all_bytes is_lower_hex digest
  | None => false
  end.

(** [windows(2)]: every neighbour has a greater rank. *)
Fixpoint ranks_increase (l : list EffectResourceAudit) : bool :=
  match l with
  | a :: (b :: _) as rest =>
      bool_decide (resource_kind_rank (er_kind a) < resource_kind_rank (er_kind b)) && ranks_increase rest
  | _ => true
  end.

Definition resources_are_canonical (l : list EffectResourceAudit) : bool :=
  forallb (λ r, match er_digest r with Some d => is_sha256_identity d | None => true end &&
                Bool.eqb (bool_decide (er_count r = 0)%Z) (negb (bool_decide (is_Some (er_digest r))))) l &&
  ranks_increase l.

Definition rank_le (a b : EffectResourceAudit) : Prop :=
  resource_kind_rank (er_kind a) ≤ resource_kind_rank (er_kind b).
#[export] Instance rank_le_dec a b : Decision (rank_le a b).
Proof. unfold rank_le. apply _. Defined.

(** ** The projection *)

Section projection.
Context (sha256 : string → list Byte.byte).

(** [format!("sha256:{:x}", hasher.finalize())]. *)
Definition audit_digest (domain content : string) : string :=
  "sha256:" +:+ lower_hex (sha256 (audit_prefix domain +:+ content)).

Definition sha256_text (domain value : string) : string := audit_digest domain (length_prefixed value).
Definition sha256_strings (domain : string) (values : list string) : string :=
  audit_digest domain (counted length_prefixed values).
Definition sha256_process_invocation (i : ProcessInvocation) : string :=
  audit_digest "process_invocation" (invocation_bytes i).
Definition sha256_process_invocations (l : list ProcessInvocation) : string :=
  audit_digest "process_invocations" (counted invocation_bytes l).

(** One kind: nothing is written of a kind the effect does not touch. *)
Definition audit_entry {A} (kind : EffectResourceKind) (values : list A) (unrestricted : bool)
    (digest : list A → string) : list EffectResourceAudit :=
  if unrestricted || negb (bool_decide (length values = 0)) then
    [{| er_kind := kind; er_count := Z.of_nat (length values); er_unrestricted := unrestricted;
        er_digest := if decide (length values = 0) then None else Some (digest values) |}]
  else [].

Definition audit_strings (kind : EffectResourceKind) (values : list string) (unrestricted : bool) :
    list EffectResourceAudit :=
  audit_entry kind values unrestricted (sha256_strings (resource_digest_domain kind)).

Definition audit_unsorted (r : ResourceFootprint) : list EffectResourceAudit :=
  audit_strings FileRead (rf_file_reads r) (rf_unrestricted_file_reads r) ++
  audit_strings FileWrite (rf_file_writes r) (rf_unrestricted_file_writes r) ++
  audit_strings NetworkDomain (rf_network_domains r) (rf_unrestricted_network r) ++
  audit_strings ProcessCommand (rf_process_commands r) (rf_unrestricted_process r) ++
  audit_strings ExternalResource (rf_external_resources r) false ++
  audit_strings MeshResource (rf_mesh_resources r) false ++
  audit_entry ProcessInvocationKind (rf_process_invocations r) (rf_unrestricted_process r)
    sha256_process_invocations.

Definition audit_resources (r : ResourceFootprint) : list EffectResourceAudit :=
  merge_sort rank_le (audit_unsorted r).

Definition projection_bytes (class : EffectClass) (action : EffectActionAudit) (resources : list EffectResourceAudit)
    (executables : list ExecutableAuditIdentity) (replay_policy : EffectReplayPolicy) : string :=
  length_prefixed (effect_class_label class) +:+ length_prefixed (ea_digest action) +:+
  counted resource_bytes resources +:+ counted executable_bytes executables +:+
  length_prefixed (replay_policy_label replay_policy).

Definition sha256_projection_identity (class : EffectClass) (action : EffectActionAudit)
    (resources : list EffectResourceAudit) (executables : list ExecutableAuditIdentity)
    (replay_policy : EffectReplayPolicy) : string :=
  audit_digest "descriptor" (projection_bytes class action resources executables replay_policy).

Definition executable_identity (i : ProcessInvocation) : ExecutableAuditIdentity :=
  {| xi_executable_digest := sha256_text "executable" (pi_executable i);
     xi_argv_count := Z.of_nat (length (pi_argv i)); xi_invocation_digest := sha256_process_invocation i |}.

Definition from_descriptor (d : EffectDescriptor) : EffectAuditProjection :=
  let canonical_resources := canonical_audit_resources (ed_resources d) in
  let resources := audit_resources canonical_resources in
  let executables := executable_identity <$> rf_process_invocations canonical_resources in
  let action := {| ea_summary := effect_action_summary (ed_class d); ea_digest := sha256_text "action" (ed_action d) |} in
  {| ap_version := AUDIT_VERSION; ap_class := ed_class d; ap_action := action; ap_resources := resources;
     ap_executables := executables; ap_replay_policy := ed_replay_policy d;
     ap_descriptor_digest :=
       sha256_projection_identity (ed_class d) action resources executables (ed_replay_policy d) |}.

Definition has_supported_version (p : EffectAuditProjection) : bool := bool_decide (ap_version p = AUDIT_VERSION).

Definition is_secret_safe (p : EffectAuditProjection) : bool :=
  has_supported_version p &&
  bool_decide (ea_summary (ap_action p) = effect_action_summary (ap_class p)) &&
  is_sha256_identity (ea_digest (ap_action p)) && is_sha256_identity (ap_descriptor_digest p) &&
  resources_are_canonical (ap_resources p) &&
  forallb (λ x, is_sha256_identity (xi_executable_digest x) && is_sha256_identity (xi_invocation_digest x))
    (ap_executables p) &&
  bool_decide (ap_descriptor_digest p =
    sha256_projection_identity (ap_class p) (ap_action p) (ap_resources p) (ap_executables p) (ap_replay_policy p)).
End projection.

(** ** What the Host sees *)

Definition bool_text (b : bool) : string := if b then "true" else "false".

Definition audit_resource_marker (r : EffectResourceAudit) : string :=
  "audit:" +:+ resource_kind_label (er_kind r) +:+ ":count=" +:+ decimal (er_count r) +:+ ":unrestricted=" +:+
  bool_text (er_unrestricted r) +:+ ":" +:+ default "digest=none" (er_digest r).

Definition host_resource (f : ResourceFootprint) (r : EffectResourceAudit) : ResourceFootprint :=
  let marker := audit_resource_marker r in
  let u := er_unrestricted r in
  let set reads writes network process fr fw nd ext mesh :=
    {| rf_unrestricted_file_reads := reads; rf_unrestricted_file_writes := writes;
       rf_unrestricted_network := network; rf_unrestricted_process := process; rf_file_reads := fr;
       rf_file_writes := fw; rf_network_domains := nd; rf_process_commands := rf_process_commands f;
       rf_process_invocations := rf_process_invocations f; rf_external_resources := ext;
       rf_mesh_resources := mesh |} in
  let fur := rf_unrestricted_file_reads f in let fuw := rf_unrestricted_file_writes f in
  let fun_ := rf_unrestricted_network f in let fup := rf_unrestricted_process f in
  let fr := rf_file_reads f in let fw := rf_file_writes f in let nd := rf_network_domains f in
  let ext := rf_external_resources f in let mesh := rf_mesh_resources f in
  match er_kind r with
  | FileRead => set u fuw fun_ fup (fr ++ [marker]) fw nd ext mesh
  | FileWrite => set fur u fun_ fup fr (fw ++ [marker]) nd ext mesh
  | NetworkDomain => set fur fuw u fup fr fw (nd ++ [marker]) ext mesh
  | ProcessCommand | ProcessInvocationKind => set fur fuw fun_ (fup || u) fr fw nd (ext ++ [marker]) mesh
  | ExternalResource => set fur fuw fun_ fup fr fw nd (ext ++ [marker]) mesh
  | MeshResource => set fur fuw fun_ fup fr fw nd ext (mesh ++ [marker])
  end.

Definition to_host_descriptor (p : EffectAuditProjection) : EffectDescriptor :=
  let f := fold_left host_resource (ap_resources p) footprint_default in
  {| ed_class := ap_class p;
     ed_action := ea_summary (ap_action p) +:+ " (" +:+ ea_digest (ap_action p) +:+ ")";
     ed_resources :=
       {| rf_unrestricted_file_reads := rf_unrestricted_file_reads f;
          rf_unrestricted_file_writes := rf_unrestricted_file_writes f;
          rf_unrestricted_network := rf_unrestricted_network f;
          rf_unrestricted_process := rf_unrestricted_process f; rf_file_reads := rf_file_reads f;
          rf_file_writes := rf_file_writes f; rf_network_domains := rf_network_domains f;
          rf_process_commands := rf_process_commands f;
          rf_process_invocations :=
            (λ x, {| pi_executable := xi_executable_digest x; pi_argv := [] |}) <$> ap_executables p;
          rf_external_resources := rf_external_resources f; rf_mesh_resources := rf_mesh_resources f |};
     ed_replay_policy := ap_replay_policy p |}.
