(* ===== verification/EffectAuditFacts.v ===== *)
(** * The audit projection identifies the effect

    Every encoding that is hashed can be read back in one way, so two effects with
    the same digest are the same effect, or the bytes hashed for them are a
    collision of SHA-256; and the projection shows digests only. *)
From S2P Require Import ResourceTypes Prelude Json Types WorkflowTypes Identity.
From S2P Require Import Paths NetworkDomains PermissionTypes PermissionEngine ProtectedPaths EffectAudit.

(** ** Encodings that end where they should *)

(** Whatever follows, an encoding has one reading. *)
Definition delimited {A} (ok : A → Prop) (encode : A → string) : Prop :=
  ∀ a b r r', ok a → ok b → encode a +:+ r = encode b +:+ r' → a = b ∧ r = r'.

Lemma byte_char_inj a b : byte_char a = byte_char b → (a mod 256 = b mod 256)%Z.
Proof.
  unfold byte_char. intros H. pose proof (Z.mod_pos_bound a 256). pose proof (Z.mod_pos_bound b 256).
  apply (f_equal N_of_ascii) in H. rewrite !N_ascii_embedding in H by lia. lia.
Qed.

Lemma be_bytes_inj count n m acc acc' :
  be_bytes count n acc = be_bytes count m acc' →
  acc = acc' ∧ (n mod 256 ^ Z.of_nat count = m mod 256 ^ Z.of_nat count)%Z.
Proof.
  revert n m acc acc'. induction count as [|count IH]; intros n m acc acc' H; simpl in H.
  { split; [done|]. by rewrite !Z.mod_1_r. }
  apply IH in H as [[= Hb ->] Hm]. apply byte_char_inj in Hb. split; [done|].
  rewrite Nat2Z.inj_succ, Z.pow_succ_r by lia. rewrite !Z.rem_mul_r by lia. by rewrite Hb, Hm.
Qed.

Lemma be_bytes_length count n acc : String.length (be_bytes count n acc) = count + String.length acc.
Proof. revert n acc. induction count as [|count IH]; intros n acc; simpl; [done|]. rewrite IH. simpl. lia. Qed.

Lemma be64_delimited : delimited is_u64 be64.
Proof.
  intros a b r r' Ha Hb H. apply string_app_inj_length in H as [H ->]; [|by unfold be64; rewrite !be_bytes_length].
  split; [|done]. apply be_bytes_inj in H as [_ H]. unfold is_u64, u64_max in *.
  rewrite !Z.mod_small in H by (simpl; lia). done.
Qed.

Definition text_ok (s : string) : Prop := is_u64 (byte_len s).

Lemma length_prefixed_delimited : delimited text_ok length_prefixed.
Proof.
  intros a b r r' Ha Hb H. unfold length_prefixed in H. rewrite !string_app_assoc in H.
  apply be64_delimited in H as [Hl H]; [|done..]. unfold byte_len in Hl. apply Nat2Z.inj in Hl.
  by apply string_app_inj_length.
Qed.

Definition list_ok {A} (ok : A → Prop) (l : list A) : Prop := is_u64 (Z.of_nat (length l)) ∧ Forall ok l.

Lemma concat_delimited {A} (ok : A → Prop) (encode : A → string) l l' r r' :
  delimited ok encode → length l = length l' → Forall ok l → Forall ok l' →
  concat_all (encode <$> l) +:+ r = concat_all (encode <$> l') +:+ r' → l = l' ∧ r = r'.
Proof.
  intros He. revert l'. induction l as [|a l IH]; intros [|b l'] Hlen Hl Hl' H; [done|done|done|].
  injection Hlen as Hlen. apply Forall_cons in Hl as [Ha Hl], Hl' as [Hb Hl'].
  rewrite !fmap_cons in H. cbn [concat_all] in H. rewrite !string_app_assoc in H.
  apply He in H as [-> H]; [|done..]. apply IH in H as [-> ->]; done.
Qed.

Lemma counted_delimited {A} (ok : A → Prop) (encode : A → string) :
  delimited ok encode → delimited (list_ok ok) (counted encode).
Proof.
  intros He l l' r r' [Hn Hl] [Hn' Hl'] H. unfold counted in H. rewrite !string_app_assoc in H.
  apply be64_delimited in H as [Hlen H]; [|done..]. apply Nat2Z.inj in Hlen.
  by eapply concat_delimited.
Qed.

(** Nothing follows the last encoding. *)
Lemma delimited_end {A} (ok : A → Prop) (encode : A → string) a b :
  delimited ok encode → ok a → ok b → encode a = encode b → a = b.
Proof. intros He Ha Hb H. apply (f_equal (λ s, s +:+ "")) in H. by apply He in H as [-> _]. Qed.

Definition invocation_ok (i : ProcessInvocation) : Prop := text_ok (pi_executable i) ∧ list_ok text_ok (pi_argv i).

Lemma invocation_delimited : delimited invocation_ok invocation_bytes.
Proof.
  intros [e a] [e' a'] r r' [He Ha] [He' Ha'] H. unfold invocation_bytes in H. cbn in H.
  rewrite !string_app_assoc in H. apply length_prefixed_delimited in H as [-> H]; [|done..].
  apply (counted_delimited _ _ length_prefixed_delimited) in H as [-> ->]; done.
Qed.

Definition audit_ok (r : EffectResourceAudit) : Prop :=
  is_u64 (er_count r) ∧ text_ok (default "" (er_digest r)) ∧ er_digest r ≠ Some "".

Lemma label_ok k : text_ok (resource_kind_label k).
Proof. by destruct k. Qed.
Lemma kind_label_inj k k' : resource_kind_label k = resource_kind_label k' → k = k'.
Proof. by destruct k, k'. Qed.

Lemma resource_delimited : delimited audit_ok resource_bytes.
Proof.
  intros [k n u d] [k' n' u' d'] r r' (Hn & Hd & Hne) (Hn' & Hd' & Hne') H. unfold resource_bytes in H. cbn in *.
  rewrite !string_app_assoc in H.
  apply length_prefixed_delimited in H as [->%kind_label_inj H]; [|apply label_ok..].
  apply be64_delimited in H as [-> H]; [|done..]. apply string_app_inj_length in H as [[= Hu] H]; [|done].
  apply length_prefixed_delimited in H as [Hdd ->]; [|done..].
  assert (u = u') as -> by (apply byte_char_inj in Hu; by destruct u, u').
  assert (d = d') as -> by (destruct d as [d|], d' as [d'|]; simpl in *; subst; congruence). done.
Qed.

Definition executable_ok (x : ExecutableAuditIdentity) : Prop :=
  text_ok (xi_executable_digest x) ∧ is_u64 (xi_argv_count x) ∧ text_ok (xi_invocation_digest x).

Lemma executable_delimited : delimited executable_ok executable_bytes.
Proof.
  intros [e n i] [e' n' i'] r r' (He & Hn & Hi) (He' & Hn' & Hi') H. unfold executable_bytes in H. cbn in *.
  rewrite !string_app_assoc in H. apply length_prefixed_delimited in H as [-> H]; [|done..].
  apply be64_delimited in H as [-> H]; [|done..]. by apply length_prefixed_delimited in H as [-> ->].
Qed.

(** ** Canonical lists *)

Lemma dedup_subset {A} `{EqDecision A} (l : list A) : dedup l ⊆ l.
Proof.
  induction l as [|a l IH]; [done|]. cbn [dedup]. destruct (dedup l) as [|b l'].
  - intros x. rewrite list_elem_of_singleton. intros ->. by left.
  - case_decide; subst; intros x Hx; [right; by apply IH|]. apply elem_of_cons in Hx as [->|Hx]; [by left|].
    right. by apply IH.
Qed.
Lemma dedup_length {A} `{EqDecision A} (l : list A) : length (dedup l) ≤ length l.
Proof.
  induction l as [|a l IH]; [done|]. cbn [dedup]. destruct (dedup l) as [|b l']; simpl in *; [lia|].
  case_decide; simpl; lia.
Qed.

Lemma list_ok_sorted {A} `{EqDecision A} (R : relation A) `{∀ a b, Decision (R a b)} ok (l : list A) :
  list_ok ok l → list_ok ok (dedup (merge_sort R l)).
Proof.
  intros [Hn Hl]. split.
  - pose proof (dedup_length (merge_sort R l)) as Hd.
    assert (length (merge_sort R l) = length l) as Hm by (apply Permutation_length, merge_sort_Permutation).
    unfold is_u64 in *. lia.
  - apply Forall_forall. intros a Ha%dedup_subset. rewrite merge_sort_Permutation in Ha.
    by apply (proj1 (Forall_forall _ _) Hl).
Qed.

Record footprint_ok (r : ResourceFootprint) : Prop := {
  fo_reads : list_ok text_ok (rf_file_reads r);
  fo_writes : list_ok text_ok (rf_file_writes r);
  fo_domains : list_ok text_ok (rf_network_domains r);
  fo_commands : list_ok text_ok (rf_process_commands r);
  fo_external : list_ok text_ok (rf_external_resources r);
  fo_mesh : list_ok text_ok (rf_mesh_resources r);
  fo_invocations : list_ok invocation_ok (rf_process_invocations r);
}.

(** Strings and lists of a descriptor have lengths of their machine type. *)
Definition descriptor_ok (d : EffectDescriptor) : Prop := text_ok (ed_action d) ∧ footprint_ok (ed_resources d).

Lemma canonical_ok r : footprint_ok r → footprint_ok (canonical_audit_resources r).
Proof. intros []. split; by apply list_ok_sorted. Qed.

(** ** Digests *)

Section digests.
Context (sha256 : string → list Byte.byte) (Hsha : ∀ x, length (sha256 x) = 32).

Lemma lower_hex_length l : String.length (lower_hex l) = 2 * length l.
Proof. induction l as [|b l IH]; [done|]. cbn [lower_hex String.length length]. rewrite IH. lia. Qed.

Lemma digest_length domain content : String.length (audit_digest sha256 domain content) = 71.
Proof.
  unfold audit_digest. change (String.length ("sha256:" +:+ ?x)) with (7 + String.length x).
  by rewrite lower_hex_length, Hsha.
Qed.
Lemma digest_ok domain content : text_ok (audit_digest sha256 domain content).
Proof. unfold text_ok, byte_len. rewrite digest_length. by split. Qed.
Lemma digest_nonempty domain content : audit_digest sha256 domain content ≠ "".
Proof. done. Qed.

(** Two strings out of two lists with one digest. *)
Definition collides (l l' : list string) : Prop := ∃ x y, x ∈ l ∧ y ∈ l' ∧ x ≠ y ∧ sha256 x = sha256 y.

Lemma collides_subset l l' k k' : collides l l' → l ⊆ k → l' ⊆ k' → collides k k'.
Proof. intros (x & y & Hx & Hy & H) Hl Hl'. exists x, y. split_and!; [by apply Hl|by apply Hl'|by apply H|by apply H]. Qed.

Lemma digest_inj domain content content' :
  audit_digest sha256 domain content = audit_digest sha256 domain content' →
  content = content' ∨ collides [audit_prefix domain +:+ content] [audit_prefix domain +:+ content'].
Proof.
  intros H. unfold audit_digest in H. apply string_app_inj_length in H as [_ H]; [|done]. apply lower_hex_inj in H.
  destruct (decide (content = content')) as [->|Hne]; [by left|right].
  eexists _, _. rewrite !list_elem_of_singleton. split_and!; [done|done| |done].
  intros He. apply string_app_inj_length in He as [_ ?]; done.
Qed.

(** One kind of resource. *)
Definition entry_bytes {A} (domain : string) (encode : A → string) (values : list A) : string :=
  audit_prefix domain +:+ counted encode values.

Lemma audit_entry_inj {A} ok (encode : A → string) kind domain (v v' : list A) u u' :
  delimited ok encode → list_ok ok v → list_ok ok v' →
  audit_entry kind v u (λ l, audit_digest sha256 domain (counted encode l)) =
  audit_entry kind v' u' (λ l, audit_digest sha256 domain (counted encode l)) →
  u = u' ∧ (v = v' ∨ collides [entry_bytes domain encode v] [entry_bytes domain encode v']).
Proof.
  intros He Hv Hv' H. unfold audit_entry in H.
  assert (∀ w : list A, length w = 0 → w = []) as Hnil by (by intros []).
  destruct (decide (length v = 0)) as [E|E], (decide (length v' = 0)) as [E'|E'];
    repeat match goal with
    | H : context [bool_decide ?P] |- _ =>
        first [rewrite (bool_decide_eq_true_2 P) in H by done|rewrite (bool_decide_eq_false_2 P) in H by done]
    end; cbn [negb] in H; rewrite ?orb_true_r, ?orb_false_r in H.
  - rewrite (Hnil v), (Hnil v') by done. split; [|by left]. by destruct u, u'.
  - destruct u; [by injection H|done].
  - destruct u'; [by injection H|done].
  - pose proof (f_equal (λ l, er_digest <$> head l) H) as Hd. pose proof (f_equal (λ l, er_unrestricted <$> head l) H) as Hu.
    cbn [head fmap option_fmap option_map er_digest er_unrestricted] in Hd, Hu.
    apply (inj Some) in Hd. apply (inj Some) in Hd. apply (inj Some) in Hu as ->. split; [done|].
    apply digest_inj in Hd as [Hd|Hd]; [left|by right].
    eapply delimited_end; [by apply counted_delimited|done|done|done].
Qed.

Lemma audit_entry_kind {A} k kind (v : list A) u digest :
  filter (λ e, er_kind e = k) (audit_entry kind v u digest) =
  if decide (kind = k) then audit_entry kind v u digest else [].
Proof.
  unfold audit_entry. destruct (u || _); [|by case_decide].
  rewrite filter_cons. cbn. by repeat case_decide.
Qed.

Lemma audit_entry_short {A} kind (v : list A) u digest : length (audit_entry kind v u digest) ≤ 1.
Proof. unfold audit_entry. destruct (u || _); simpl; lia. Qed.

Lemma short_permutation {A} (l l' : list A) : l ≡ₚ l' → length l ≤ 1 → l = l'.
Proof.
  intros Hp Hl. destruct l as [|a [|b l]]; simpl in Hl; [by apply Permutation_nil_l in Hp| |lia].
  symmetry in Hp. by apply Permutation_singleton_r in Hp.
Qed.

(** ** The digest of an effect *)

Notation audit_res r := (audit_resources sha256 (canonical_audit_resources r)).
Notation executables r := (executable_identity sha256 <$> rf_process_invocations (canonical_audit_resources r)).

(** The bytes of the projection of an effect. *)
Definition descriptor_bytes (d : EffectDescriptor) : string :=
  projection_bytes (ed_class d)
    {| ea_summary := effect_action_summary (ed_class d); ea_digest := sha256_text sha256 "action" (ed_action d) |}
    (audit_res (ed_resources d)) (executables (ed_resources d)) (ed_replay_policy d).

(** Everything that is hashed for an effect, but for the single invocations. *)
Definition hashed (d : EffectDescriptor) : list string :=
  let c := canonical_audit_resources (ed_resources d) in
  [audit_prefix "descriptor" +:+ descriptor_bytes d; audit_prefix "action" +:+ length_prefixed (ed_action d);
   entry_bytes (resource_digest_domain FileRead) length_prefixed (rf_file_reads c);
   entry_bytes (resource_digest_domain FileWrite) length_prefixed (rf_file_writes c);
   entry_bytes (resource_digest_domain NetworkDomain) length_prefixed (rf_network_domains c);
   entry_bytes (resource_digest_domain ProcessCommand) length_prefixed (rf_process_commands c);
   entry_bytes (resource_digest_domain ExternalResource) length_prefixed (rf_external_resources c);
   entry_bytes (resource_digest_domain MeshResource) length_prefixed (rf_mesh_resources c);
   entry_bytes "process_invocations" invocation_bytes (rf_process_invocations c)].

Lemma audit_entry_ok {A} ok kind (v : list A) u domain (encode : A → string) :
  list_ok ok v →
  Forall audit_ok (audit_entry kind v u (λ l, audit_digest sha256 domain (counted encode l))).
Proof.
  intros [Hn _]. unfold audit_entry. destruct (u || _); [|done]. apply Forall_singleton.
  split_and!; cbn [er_count er_digest]; [done|case_decide; [done|apply digest_ok]|case_decide; [done|]].
  intros Hs. apply (inj Some) in Hs. by apply digest_nonempty in Hs.
Qed.

Lemma audit_unsorted_ok r : footprint_ok r → Forall audit_ok (audit_unsorted sha256 r).
Proof. intros []. unfold audit_unsorted. rewrite !Forall_app. split_and!; by eapply audit_entry_ok. Qed.

Lemma audit_unsorted_length r : length (audit_unsorted sha256 r) ≤ 7.
Proof.
  unfold audit_unsorted, audit_strings. rewrite !length_app.
  repeat match goal with |- context [length (audit_entry ?k ?v ?u ?d)] =>
    pose proof (audit_entry_short k v u d); generalize dependent (length (audit_entry k v u d)); intros end. lia.
Qed.

Lemma audit_resources_ok r : footprint_ok r → list_ok audit_ok (audit_resources sha256 r).
Proof.
  intros Hr. unfold audit_resources. split.
  - pose proof (audit_unsorted_length r).
    rewrite (Permutation_length (merge_sort_Permutation rank_le (audit_unsorted sha256 r))). split; [lia|]. unfold u64_max. lia.
  - rewrite merge_sort_Permutation. by apply audit_unsorted_ok.
Qed.

Lemma executables_ok l : list_ok invocation_ok l → list_ok executable_ok (executable_identity sha256 <$> l).
Proof.
  intros [Hn Hl]. split; [by rewrite length_fmap|]. apply Forall_fmap. eapply Forall_impl; [done|].
  intros i [_ [Ha _]]. split_and!; [apply digest_ok|done|apply digest_ok].
Qed.

(** The entries of the audit, kind by kind. *)
Lemma audit_same_kind r r' k :
  audit_resources sha256 r = audit_resources sha256 r' →
  filter (λ e, er_kind e = k) (audit_unsorted sha256 r) ≡ₚ filter (λ e, er_kind e = k) (audit_unsorted sha256 r').
Proof.
  intros H. rewrite <-(merge_sort_Permutation rank_le (audit_unsorted sha256 r)).
  rewrite <-(merge_sort_Permutation rank_le (audit_unsorted sha256 r')). unfold audit_resources in H. by rewrite H.
Qed.

Ltac kind_entry H k :=
  let E := fresh "E" in
  pose proof (audit_same_kind _ _ k H) as E; unfold audit_unsorted, audit_strings in E;
  rewrite !filter_app, !audit_entry_kind in E;
  repeat (first [rewrite (decide_True (P := k = k)) in E by done | rewrite decide_False in E by done]);
  rewrite ?app_nil_l, ?app_nil_r in E;
  apply short_permutation in E; [|apply audit_entry_short].

Ltac kind_values E Hcol ok Hdel :=
  let Hu := fresh "Hu" in let Hv := fresh "Hv" in
  apply (audit_entry_inj ok) in E as [Hu [Hv|Hv]];
    [|right; eapply Hcol; [..|exact Hv]; unfold hashed; cbv zeta; rewrite !elem_of_cons; by auto 12
     |apply Hdel|assumption|assumption].

Lemma audit_resources_inj d d' :
  let c := canonical_audit_resources (ed_resources d) in let c' := canonical_audit_resources (ed_resources d') in
  footprint_ok c → footprint_ok c' → audit_resources sha256 c = audit_resources sha256 c' →
  c = c' ∨ collides (hashed d) (hashed d').
Proof.
  intros c c' Hc Hc' H.
  assert (∀ x y, x ∈ hashed d → y ∈ hashed d' → collides [x] [y] → collides (hashed d) (hashed d')) as Hcol.
  { intros x y Hx Hy Hk. eapply collides_subset; [exact Hk|..]; intros z ->%list_elem_of_singleton; done. }
  kind_entry H FileRead. kind_entry H FileWrite. kind_entry H NetworkDomain. kind_entry H ProcessCommand.
  kind_entry H ExternalResource. kind_entry H MeshResource. kind_entry H ProcessInvocationKind.
  destruct Hc, Hc'.
  kind_values E Hcol text_ok length_prefixed_delimited. kind_values E0 Hcol text_ok length_prefixed_delimited.
  kind_values E1 Hcol text_ok length_prefixed_delimited. kind_values E2 Hcol text_ok length_prefixed_delimited.
  kind_values E3 Hcol text_ok length_prefixed_delimited. kind_values E4 Hcol text_ok length_prefixed_delimited.
  kind_values E5 Hcol invocation_ok invocation_delimited.
  left. destruct c, c'; cbn in *; by subst.
Qed.

Lemma class_label_inj c c' : effect_class_label c = effect_class_label c' → c = c'.
Proof. by destruct c, c'. Qed.
Lemma policy_label_inj p p' : replay_policy_label p = replay_policy_label p' → p = p'.
Proof. by destruct p, p'. Qed.
Lemma class_label_ok c : text_ok (effect_class_label c).
Proof. by destruct c. Qed.
Lemma policy_label_ok p : text_ok (replay_policy_label p).
Proof. by destruct p. Qed.

(** What the digest stands for. *)
Definition audited (d : EffectDescriptor) : EffectClass * string * ResourceFootprint * EffectReplayPolicy :=
  (ed_class d, ed_action d, canonical_audit_resources (ed_resources d), ed_replay_policy d).

Lemma descriptor_digest_inj d d' :
  descriptor_ok d → descriptor_ok d' →
  ap_descriptor_digest (from_descriptor sha256 d) = ap_descriptor_digest (from_descriptor sha256 d') →
  audited d = audited d' ∨ collides (hashed d) (hashed d').
Proof.
  intros [Ha Hr%canonical_ok] [Ha' Hr'%canonical_ok] H.
  assert (∀ x y, x ∈ hashed d → y ∈ hashed d' → collides [x] [y] → collides (hashed d) (hashed d')) as Hcol.
  { intros x y Hx Hy Hk. eapply collides_subset; [exact Hk|..]; intros z ->%list_elem_of_singleton; done. }
  apply digest_inj in H as [H|H]; [|right; eapply Hcol; [..|exact H]; unfold hashed; rewrite !elem_of_cons; by auto].
  unfold projection_bytes in H. cbn [ea_digest] in H.
  apply length_prefixed_delimited in H as [Hc%class_label_inj H]; [|apply class_label_ok..].
  apply length_prefixed_delimited in H as [Hact H]; [|apply digest_ok..].
  apply (counted_delimited _ _ resource_delimited) in H as [Hres H]; [|by apply audit_resources_ok..].
  apply (counted_delimited _ _ executable_delimited) in H as [_ H]; [|by apply executables_ok; apply fo_invocations..].
  apply (delimited_end _ _ _ _ length_prefixed_delimited) in H; [|apply policy_label_ok..]. apply policy_label_inj in H as Hp.
  apply digest_inj in Hact as [Hact|Hk]; [|right; eapply Hcol; [..|exact Hk]; unfold hashed; rewrite !elem_of_cons; by auto].
  apply (delimited_end _ _ _ _ length_prefixed_delimited) in Hact; [|done..].
  apply audit_resources_inj in Hres as [Hres|Hk]; [|by right|done|done].
  left. unfold audited. by rewrite Hc, Hact, Hres, Hp.
Qed.

(** ** Nothing but digests *)

Lemma any_byte_lower_hex l : any_byte (λ a, negb (is_lower_hex a)) (lower_hex l) = false.
Proof.
  assert (∀ n, (n < 16)%N → is_lower_hex (hex_digit n) = true) as Hh by (apply hex_digit_cases; reflexivity).
  induction l as [|b l IH]; [done|]. cbn [lower_hex any_byte]. pose proof (Byte.to_N_bounded b).
  rewrite !Hh, IH; [done|apply N.mod_lt; lia|apply N.Div0.div_lt_upper_bound; lia].
Qed.

Lemma digest_is_identity domain content : is_sha256_identity (audit_digest sha256 domain content) = true.
Proof.
  unfold is_sha256_identity, audit_digest. set (hex := lower_hex _).
  assert (strip_prefix "sha256:" ("sha256:" +:+ hex) = Some hex) as -> by apply strip_prefix_app.
  apply andb_true_iff. split.
  - apply bool_decide_eq_true. unfold byte_len, hex. by rewrite lower_hex_length, Hsha.
  - unfold all_bytes, hex. by rewrite any_byte_lower_hex.
Qed.

Lemma kind_rank_inj k k' : resource_kind_rank k = resource_kind_rank k' → k = k'.
Proof. by destruct k, k'. Qed.

Lemma ranks_increase_sorted l : Sorted rank_le l → NoDup (er_kind <$> l) → ranks_increase l = true.
Proof.
  induction 1 as [|a l Hs IH Hh]; [done|]. rewrite fmap_cons, NoDup_cons. intros [Ha Hnd].
  destruct l as [|b l]; [done|].
  change (ranks_increase (a :: b :: l)) with
    (bool_decide (resource_kind_rank (er_kind a) < resource_kind_rank (er_kind b)) && ranks_increase (b :: l)).
  rewrite IH by done. rewrite andb_true_r.
  apply bool_decide_eq_true. inversion Hh as [|? ? Hr]; subst. unfold rank_le in Hr.
  destruct (decide (resource_kind_rank (er_kind a) = resource_kind_rank (er_kind b))) as [He%kind_rank_inj|]; [|lia].
  destruct Ha. rewrite He, fmap_cons. by left.
Qed.

Lemma audit_entry_kinds {A} kind (v : list A) u digest : (er_kind <$> audit_entry kind v u digest) `sublist_of` [kind].
Proof. unfold audit_entry. destruct (u || _); cbn; [done|]. apply sublist_nil_l. Qed.

Lemma audit_unsorted_kinds r : NoDup (er_kind <$> audit_unsorted sha256 r).
Proof.
  eapply (sublist_NoDup _ [FileRead; FileWrite; NetworkDomain; ProcessCommand; ExternalResource; MeshResource;
    ProcessInvocationKind]); [|].
  - apply (bool_decide_unpack _). reflexivity.
  - unfold audit_unsorted. rewrite !fmap_app.
    repeat (apply (sublist_app _ [_]); [apply audit_entry_kinds|]). apply audit_entry_kinds.
Qed.

Lemma rank_le_total : Total rank_le.
Proof. intros a b. unfold rank_le. lia. Qed.

Lemma audit_resources_canonical r : resources_are_canonical (audit_resources sha256 r) = true.
Proof.
  unfold resources_are_canonical. apply andb_true_iff. split.
  - apply forallb_forall. intros e He%list_elem_of_In. unfold audit_resources in He. rewrite merge_sort_Permutation in He.
    assert (∀ A kind (v : list A) u domain encode,
      e ∈ audit_entry kind v u (λ l, audit_digest sha256 domain (counted encode l)) →
      match er_digest e with Some d => is_sha256_identity d | None => true end &&
        Bool.eqb (bool_decide (er_count e = 0)%Z) (negb (bool_decide (is_Some (er_digest e)))) = true) as Hentry.
    { intros A kind v u domain encode Hin. unfold audit_entry in Hin. destruct (u || _); [|by apply not_elem_of_nil in Hin].
      apply list_elem_of_singleton in Hin as ->. cbn [er_digest er_count].
      case_decide as Hl; [by rewrite Hl|]. rewrite digest_is_identity. rewrite bool_decide_eq_false_2 by lia. done. }
    unfold audit_unsorted in He. rewrite !elem_of_app in He. intuition eauto.
  - apply ranks_increase_sorted; unfold audit_resources; [apply Sorted_merge_sort, rank_le_total|].
    rewrite merge_sort_Permutation. apply audit_unsorted_kinds.
Qed.

Lemma projection_secret_safe d : is_secret_safe sha256 (from_descriptor sha256 d) = true.
Proof.
  unfold is_secret_safe, from_descriptor. cbn [ap_version ap_class ap_action ap_resources ap_executables
    ap_replay_policy ap_descriptor_digest ea_summary ea_digest]. unfold has_supported_version. cbn [ap_version].
  rewrite !bool_decide_eq_true_2 by done. unfold sha256_text, sha256_projection_identity at 1.
  rewrite !digest_is_identity, audit_resources_canonical. cbn [andb]. rewrite andb_true_r.
  apply forallb_forall. intros x Hx%list_elem_of_In. apply list_elem_of_fmap in Hx as (i & -> & _).
  cbn. unfold sha256_text, sha256_process_invocation. by rewrite !digest_is_identity.
Qed.
End digests.

(** C21: the audit projection of an effect shows fixed categories, counts and
    SHA-256 digests only, and passes its own check; two effects that agree up to
    the order and repetition of their resources have the same projection; and two
    effects with the same descriptor digest agree in their class, action, resources
    and replay policy, unless two of the strings that are hashed for them are a
    collision of SHA-256. *)
Theorem audit_identifies_effect (sha256 : string → list Byte.byte) (d d' : EffectDescriptor) :
  (∀ x, length (sha256 x) = 32) → descriptor_ok d → descriptor_ok d' →
  is_secret_safe sha256 (from_descriptor sha256 d) = true ∧
  (audited d = audited d' → from_descriptor sha256 d = from_descriptor sha256 d') ∧
  (ap_descriptor_digest (from_descriptor sha256 d) = ap_descriptor_digest (from_descriptor sha256 d') →
   audited d = audited d' ∨ collides sha256 (hashed sha256 d) (hashed sha256 d')).
Proof.
  intros Hsha Hd Hd'. split_and!.
  - by apply projection_secret_safe.
  - intros H. pose proof (f_equal (λ t, t.1.1.1) H) as Hc. pose proof (f_equal (λ t, t.1.1.2) H) as Ha.
    pose proof (f_equal (λ t, t.1.2) H) as Hr. pose proof (f_equal (λ t, t.2) H) as Hp.
    unfold audited in Hc, Ha, Hr, Hp. cbn [fst snd] in Hc, Ha, Hr, Hp.
    unfold from_descriptor. by rewrite Hc, Ha, Hr, Hp.
  - by apply descriptor_digest_inj.
Qed.

(** A stand-in of 32 bytes. *)
Definition sample_sha32 (s : string) : list Byte.byte := replicate 31 Byte.x61 ++ take 1 (sample_sha256 s ++ [Byte.x00]).

Definition sample_descriptor (reads : list string) : EffectDescriptor :=
  {| ed_class := ReadOnly; ed_action := "read"; ed_replay_policy := ReplaySafe;
     ed_resources := {| rf_unrestricted_file_reads := false; rf_unrestricted_file_writes := false;
       rf_unrestricted_network := false; rf_unrestricted_process := false; rf_file_reads := reads;
       rf_file_writes := []; rf_network_domains := []; rf_process_commands := [];
       rf_process_invocations := []; rf_external_resources := []; rf_mesh_resources := [] |} |}.

Lemma audit_identifies_effect_witness :
  is_secret_safe sample_sha32 (from_descriptor sample_sha32 (sample_descriptor ["/b"; "/a"; "/b"])) = true ∧
  from_descriptor sample_sha32 (sample_descriptor ["/b"; "/a"; "/b"]) =
  from_descriptor sample_sha32 (sample_descriptor ["/a"; "/b"]).
Proof.
  destruct (audit_identifies_effect sample_sha32 (sample_descriptor ["/b"; "/a"; "/b"]) (sample_descriptor ["/a"; "/b"]))
    as (Hs & He & _).
  - intros x. unfold sample_sha32. rewrite length_app, length_replicate. by destruct (sample_sha256 x) as [|b []].
  - split; [by split|]. split; cbn; (split; [by split|repeat constructor; done]).
  - split; [by split|]. split; cbn; (split; [by split|repeat constructor; done]).
  - split; [exact Hs|]. apply He. reflexivity.
Defined.
