(* ===== verification/EffectTypes.v ===== *)
(** * Data of effects

    The JSON forms of descriptors and audit projections (crates/solaris-types/src/
    effect.rs), of permissions (permission.rs) and of the environment an operation
    runs in (runtime.rs, plugin.rs); and crates/solaris-agent/src/execution_context/
    environment.rs: when two environments are compatible. *)
From S2P Require Import ResourceTypes Prelude Json Types WorkflowTypes Identity TaskRegistry RuntimeLedger Registries.
From S2P Require Import LedgerInterface MessageBus CollaborationTypes WorkflowRuns.
From S2P Require Import Paths NetworkDomains PermissionTypes PermissionEngine ProtectedPaths PermissionContext EffectAudit.

(** ** Descriptors *)

#[export] Instance EffectReplayPolicy_eq_dec : EqDecision EffectReplayPolicy.
Proof. solve_decision. Defined.

#[export] Program Instance serde_effect_class : Serde EffectClass := {|
  to_value c := VString (effect_class_label c);
  from_value := enum_from_value effect_class_label
    [ReadOnly; AgentLifecycle; MeshStateMutation; WorkspaceMutation; Process; Network; ExternalSideEffect];
  serde_ok _ := True;
|}.
Next Obligation. by intros []. Qed.
Next Obligation. done. Qed.

#[export] Program Instance serde_replay_policy : Serde EffectReplayPolicy := {|
  to_value p := VString (replay_policy_label p);
  from_value := enum_from_value replay_policy_label [Never; Idempotent; ReplaySafe; ReconcileRequired; Compensatable];
  serde_ok _ := True;
|}.
Next Obligation. by intros []. Qed.
Next Obligation. done. Qed.

(** [skip_serializing_if = "Vec::is_empty"]. *)
Definition field_list `{Serde A} (l : list A) : option Value := field_if (negb (bool_decide (length l = 0))) (to_value l).

Definition invocation_fields (i : ProcessInvocation) : list (string * option Value) :=
  [("executable", Some (to_value (pi_executable i))); ("argv", field_list (pi_argv i))].
Definition invocation_from (v : Value) : option ProcessInvocation :=
  l ← as_object v;
  executable ← read from_value "executable" l;
  argv ← read_default from_value [] "argv" l;
  Some {| pi_executable := executable; pi_argv := argv |}.

(** Reading a list that is left out when it is empty. *)
Lemma read_list_fields `{Serde A} (fields : list (string * option Value)) k (l : list A) :
  NoDup fields.*1 → assoc k fields = Some (field_list l) → Forall serde_ok l →
  read_default from_value [] k (fields_of fields) = Some l.
Proof.
  intros Hnd Hk Hl. eapply read_default_fields; [done|exact Hk| |].
  - intros _. by apply from_to_value.
  - rewrite negb_false_iff, bool_decide_eq_true. by destruct l.
Qed.

Lemma field_list_wf `{Serde A} (l : list A) v : Forall serde_ok l → field_list l = Some v → value_wf v.
Proof. intros Hl. apply field_if_wf. by apply to_value_wf. Qed.

#[export] Program Instance serde_invocation : Serde ProcessInvocation := {|
  to_value i := VObject (fields_of (invocation_fields i));
  from_value := invocation_from;
  serde_ok _ := True;
|}.
Next Obligation.
  intros i _. assert (NoDup (invocation_fields i).*1) as Hnd by serde_keys.
  eapply bind_Some_intro; [reflexivity|]. serde_step.
  eapply bind_Some_intro; [eapply read_list_fields; [done|reflexivity|by apply Forall_true]|]. by destruct i.
Qed.
Next Obligation.
  intros i _. apply fields_of_wf; [serde_keys|]. repeat apply Forall_cons_2; try apply Forall_nil_2; cbn [snd].
  - by intros v [= <-].
  - intros v. apply field_list_wf. by apply Forall_true.
Qed.

Definition footprint_fields (r : ResourceFootprint) : list (string * option Value) :=
  [("unrestricted_file_reads", Some (to_value (rf_unrestricted_file_reads r)));
   ("unrestricted_file_writes", Some (to_value (rf_unrestricted_file_writes r)));
   ("unrestricted_network", Some (to_value (rf_unrestricted_network r)));
   ("unrestricted_process", Some (to_value (rf_unrestricted_process r)));
   ("file_reads", field_list (rf_file_reads r)); ("file_writes", field_list (rf_file_writes r));
   ("network_domains", field_list (rf_network_domains r)); ("process_commands", field_list (rf_process_commands r));
   ("process_invocations", field_list (rf_process_invocations r));
   ("external_resources", field_list (rf_external_resources r)); ("mesh_resources", field_list (rf_mesh_resources r))].

Definition footprint_from (v : Value) : option ResourceFootprint :=
  l ← as_object v;
  reads ← read_default from_value false "unrestricted_file_reads" l;
  writes ← read_default from_value false "unrestricted_file_writes" l;
  network ← read_default from_value false "unrestricted_network" l;
  process ← read_default from_value false "unrestricted_process" l;
  file_reads ← read_default from_value [] "file_reads" l;
  file_writes ← read_default from_value [] "file_writes" l;
  network_domains ← read_default from_value [] "network_domains" l;
  process_commands ← read_default from_value [] "process_commands" l;
  process_invocations ← read_default from_value [] "process_invocations" l;
  external_resources ← read_default from_value [] "external_resources" l;
  mesh_resources ← read_default from_value [] "mesh_resources" l;
  Some {| rf_unrestricted_file_reads := reads; rf_unrestricted_file_writes := writes;
          rf_unrestricted_network := network; rf_unrestricted_process := process;
          rf_file_reads := file_reads; rf_file_writes := file_writes; rf_network_domains := network_domains;
          rf_process_commands := process_commands; rf_process_invocations := process_invocations;
          rf_external_resources := external_resources; rf_mesh_resources := mesh_resources |}.

Ltac list_step := eapply bind_Some_intro; [eapply read_list_fields; [assumption|reflexivity|by apply Forall_true]|cbv beta].
Ltac field_wf_list := intros ?; apply field_list_wf; by apply Forall_true.

#[export] Program Instance serde_footprint : Serde ResourceFootprint := {|
  to_value r := VObject (fields_of (footprint_fields r));
  from_value := footprint_from;
  serde_ok _ := True;
|}.
Next Obligation.
  intros r _. assert (NoDup (footprint_fields r).*1) as Hnd by serde_keys.
  eapply bind_Some_intro; [reflexivity|].
  do 4 serde_step. do 7 list_step. by destruct r.
Qed.
Next Obligation.
  intros r _. apply fields_of_wf; [serde_keys|].
  do 4 (apply Forall_cons_2; [by intros v [= <-]|]). repeat apply Forall_cons_2; try apply Forall_nil_2; field_wf_list.
Qed.

Definition descriptor_fields (d : EffectDescriptor) : list (string * option Value) :=
  [("class", Some (to_value (ed_class d))); ("action", Some (to_value (ed_action d)));
   ("resources", Some (to_value (ed_resources d))); ("replay_policy", Some (to_value (ed_replay_policy d)))].
Definition descriptor_from (v : Value) : option EffectDescriptor :=
  l ← as_object v;
  class ← read from_value "class" l;
  action ← read from_value "action" l;
  resources ← read_default from_value footprint_default "resources" l;
  replay_policy ← read from_value "replay_policy" l;
  Some {| ed_class := class; ed_action := action; ed_resources := resources; ed_replay_policy := replay_policy |}.

#[export] Program Instance serde_descriptor : Serde EffectDescriptor := {|
  to_value d := VObject (fields_of (descriptor_fields d));
  from_value := descriptor_from;
  serde_ok _ := True;
|}.
Next Obligation.
  intros d _. assert (NoDup (descriptor_fields d).*1) as Hnd by serde_keys.
  eapply bind_Some_intro; [reflexivity|]. repeat serde_step. by destruct d.
Qed.
Next Obligation. intros d _. serde_wf. Qed.

(** ** Audit projections *)

(** [deny_unknown_fields]. *)
Definition only_fields (known : list string) (l : list (string * Value)) : option unit :=
  if forallb (λ kv, bool_decide (kv.1 ∈ known)) l then Some tt else None.

Lemma only_fields_of (fields : list (string * option Value)) : only_fields fields.*1 (fields_of fields) = Some tt.
Proof.
  unfold only_fields. assert (forallb (λ kv, bool_decide (kv.1 ∈ fields.*1)) (fields_of fields) = true) as ->; [|done].
  apply forallb_forall. intros kv Hin%list_elem_of_In. apply bool_decide_eq_true.
  apply fields_of_keys. by apply list_elem_of_fmap_2.
Qed.

#[export] Program Instance serde_resource_kind : Serde EffectResourceKind := {|
  to_value k := VString (resource_kind_label k);
  from_value := enum_from_value resource_kind_label
    [FileRead; FileWrite; NetworkDomain; ProcessCommand; ProcessInvocationKind; ExternalResource; MeshResource];
  serde_ok _ := True;
|}.
Next Obligation. by intros []. Qed.
Next Obligation. done. Qed.

Definition action_audit_fields (a : EffectActionAudit) : list (string * option Value) :=
  [("summary", Some (to_value (ea_summary a))); ("digest", Some (to_value (ea_digest a)))].
Definition action_audit_from (v : Value) : option EffectActionAudit :=
  l ← as_object v;
  _ ← only_fields ["summary"; "digest"] l;
  summary ← read from_value "summary" l;
  digest ← read from_value "digest" l;
  Some {| ea_summary := summary; ea_digest := digest |}.

Ltac deny_step :=
  eapply bind_Some_intro;
    [lazymatch goal with |- only_fields _ (fields_of ?f) = _ => exact (only_fields_of f) end|cbv beta].

#[export] Program Instance serde_action_audit : Serde EffectActionAudit := {|
  to_value a := VObject (fields_of (action_audit_fields a));
  from_value := action_audit_from;
  serde_ok _ := True;
|}.
Next Obligation.
  intros a _. assert (NoDup (action_audit_fields a).*1) as Hnd by serde_keys.
  eapply bind_Some_intro; [reflexivity|]. deny_step. repeat serde_step. by destruct a.
Qed.
Next Obligation. intros a _. serde_wf. Qed.

Definition resource_audit_fields (r : EffectResourceAudit) : list (string * option Value) :=
  [("kind", Some (to_value (er_kind r))); ("count", Some (uint_to_value (er_count r)));
   ("unrestricted", Some (to_value (er_unrestricted r))); ("digest", field_opt (er_digest r))].
Definition resource_audit_from (v : Value) : option EffectResourceAudit :=
  l ← as_object v;
  _ ← only_fields ["kind"; "count"; "unrestricted"; "digest"] l;
  kind ← read from_value "kind" l;
  count ← read (uint_from_value u64_max) "count" l;
  unrestricted ← read from_value "unrestricted" l;
  digest ← read_opt from_value "digest" l;
  Some {| er_kind := kind; er_count := count; er_unrestricted := unrestricted; er_digest := digest |}.

#[export] Program Instance serde_resource_audit : Serde EffectResourceAudit := {|
  to_value r := VObject (fields_of (resource_audit_fields r));
  from_value := resource_audit_from;
  serde_ok r := is_u64 (er_count r);
|}.
Next Obligation.
  intros r Hr. assert (NoDup (resource_audit_fields r).*1) as Hnd by serde_keys.
  eapply bind_Some_intro; [reflexivity|]. deny_step. repeat serde_step; [by apply uint_roundtrip|by destruct r].
Qed.
Next Obligation. intros r Hr. serde_wf. Qed.

Definition executable_audit_fields (x : ExecutableAuditIdentity) : list (string * option Value) :=
  [("executable_digest", Some (to_value (xi_executable_digest x))); ("argv_count", Some (uint_to_value (xi_argv_count x)));
   ("invocation_digest", Some (to_value (xi_invocation_digest x)))].
Definition executable_audit_from (v : Value) : option ExecutableAuditIdentity :=
  l ← as_object v;
  _ ← only_fields ["executable_digest"; "argv_count"; "invocation_digest"] l;
  executable ← read from_value "executable_digest" l;
  count ← read (uint_from_value u64_max) "argv_count" l;
  invocation ← read from_value "invocation_digest" l;
  Some {| xi_executable_digest := executable; xi_argv_count := count; xi_invocation_digest := invocation |}.

#[export] Program Instance serde_executable_audit : Serde ExecutableAuditIdentity := {|
  to_value x := VObject (fields_of (executable_audit_fields x));
  from_value := executable_audit_from;
  serde_ok x := is_u64 (xi_argv_count x);
|}.
Next Obligation.
  intros x Hx. assert (NoDup (executable_audit_fields x).*1) as Hnd by serde_keys.
  eapply bind_Some_intro; [reflexivity|]. deny_step. repeat serde_step; [by apply uint_roundtrip|by destruct x].
Qed.
Next Obligation. intros x Hx. serde_wf. Qed.

Definition projection_fields (p : EffectAuditProjection) : list (string * option Value) :=
  [("version", Some (to_value (ap_version p))); ("class", Some (to_value (ap_class p)));
   ("action", Some (to_value (ap_action p))); ("resources", Some (to_value (ap_resources p)));
   ("executables", Some (to_value (ap_executables p))); ("replay_policy", Some (to_value (ap_replay_policy p)));
   ("descriptor_digest", Some (to_value (ap_descriptor_digest p)))].
Definition projection_from (v : Value) : option EffectAuditProjection :=
  l ← as_object v;
  _ ← only_fields ["version"; "class"; "action"; "resources"; "executables"; "replay_policy"; "descriptor_digest"] l;
  version ← read_default from_value "" "version" l;
  class ← read from_value "class" l;
  action ← read from_value "action" l;
  resources ← read from_value "resources" l;
  executables ← read from_value "executables" l;
  replay_policy ← read from_value "replay_policy" l;
  descriptor_digest ← read from_value "descriptor_digest" l;
  Some {| ap_version := version; ap_class := class; ap_action := action; ap_resources := resources;
          ap_executables := executables; ap_replay_policy := replay_policy;
          ap_descriptor_digest := descriptor_digest |}.

#[export] Program Instance serde_projection : Serde EffectAuditProjection := {|
  to_value p := VObject (fields_of (projection_fields p));
  from_value := projection_from;
  serde_ok p := Forall serde_ok (ap_resources p) ∧ Forall serde_ok (ap_executables p);
|}.
Next Obligation.
  intros p [Hr Hx]. assert (NoDup (projection_fields p).*1) as Hnd by serde_keys.
  eapply bind_Some_intro; [reflexivity|]. deny_step.
  repeat serde_step. by destruct p.
Qed.
Next Obligation. intros p [Hr Hx]. serde_wf; by apply to_value_wf. Qed.

(** ** Environments *)

#[export] Instance ImplementationIdentity_eq_dec : EqDecision ImplementationIdentity.
Proof. solve_decision. Defined.

Definition implementation_fields (i : ImplementationIdentity) : list (string * option Value) :=
  [("implementation_id", Some (to_value (im_implementation_id i))); ("version", field_opt (im_version i));
   ("digest", field_opt (im_digest i))].
Definition implementation_from (v : Value) : option ImplementationIdentity :=
  l ← as_object v;
  id ← read from_value "implementation_id" l;
  version ← read_opt from_value "version" l;
  digest ← read_opt from_value "digest" l;
  Some {| im_implementation_id := id; im_version := version; im_digest := digest |}.

#[export] Program Instance serde_implementation : Serde ImplementationIdentity := {|
  to_value i := VObject (fields_of (implementation_fields i));
  from_value := implementation_from;
  serde_ok _ := True;
|}.
Next Obligation.
  intros i _. assert (NoDup (implementation_fields i).*1) as Hnd by serde_keys.
  eapply bind_Some_intro; [reflexivity|]. repeat serde_step. by destruct i.
Qed.
Next Obligation. intros i _. serde_wf. Qed.

Record ToolImplementationSnapshot : Type := {
  ti_name : string;
  ti_implementation : ImplementationIdentity;
  ti_schema_digest : option string;
  ti_replay_policy : EffectReplayPolicy;
}.
#[export] Instance ToolImplementationSnapshot_eq_dec : EqDecision ToolImplementationSnapshot.
Proof. solve_decision. Defined.

Definition tool_snapshot_fields (t : ToolImplementationSnapshot) : list (string * option Value) :=
  [("name", Some (to_value (ti_name t))); ("implementation", Some (to_value (ti_implementation t)));
   ("schema_digest", field_opt (ti_schema_digest t)); ("replay_policy", Some (to_value (ti_replay_policy t)))].
Definition tool_snapshot_from (v : Value) : option ToolImplementationSnapshot :=
  l ← as_object v;
  name ← read from_value "name" l;
  implementation ← read from_value "implementation" l;
  schema_digest ← read_opt from_value "schema_digest" l;
  replay_policy ← read from_value "replay_policy" l;
  Some {| ti_name := name; ti_implementation := implementation; ti_schema_digest := schema_digest;
          ti_replay_policy := replay_policy |}.

#[export] Program Instance serde_tool_snapshot : Serde ToolImplementationSnapshot := {|
  to_value t := VObject (fields_of (tool_snapshot_fields t));
  from_value := tool_snapshot_from;
  serde_ok _ := True;
|}.
Next Obligation.
  intros t _. assert (NoDup (tool_snapshot_fields t).*1) as Hnd by serde_keys.
  eapply bind_Some_intro; [reflexivity|]. repeat serde_step. by destruct t.
Qed.
Next Obligation. intros t _. serde_wf. Qed.

Record OperationEnvironmentSnapshot : Type := {
  oe_runtime_generation : Z;
  oe_config_generation : Z;
  oe_provider : option ImplementationIdentity;
  oe_plugins : list ImplementationIdentity;
  oe_tools : list ToolImplementationSnapshot;
  oe_hook_order : list ImplementationIdentity;
  oe_workflow : option ImplementationIdentity;
  oe_permission_fingerprint : option string;
}.
#[export] Instance OperationEnvironmentSnapshot_eq_dec : EqDecision OperationEnvironmentSnapshot.
Proof. solve_decision. Defined.

Definition environment_fields (e : OperationEnvironmentSnapshot) : list (string * option Value) :=
  [("runtime_generation", Some (uint_to_value (oe_runtime_generation e)));
   ("config_generation", Some (uint_to_value (oe_config_generation e)));
   ("provider", field_opt (oe_provider e)); ("plugins", Some (to_value (oe_plugins e)));
   ("tools", Some (to_value (oe_tools e))); ("hook_order", Some (to_value (oe_hook_order e)));
   ("workflow", field_opt (oe_workflow e)); ("permission_fingerprint", field_opt (oe_permission_fingerprint e))].
Definition environment_from (v : Value) : option OperationEnvironmentSnapshot :=
  l ← as_object v;
  runtime ← read (uint_from_value u64_max) "runtime_generation" l;
  config ← read (uint_from_value u64_max) "config_generation" l;
  provider ← read_opt from_value "provider" l;
  plugins ← read_default from_value [] "plugins" l;
  tools ← read_default from_value [] "tools" l;
  hook_order ← read_default from_value [] "hook_order" l;
  workflow ← read_opt from_value "workflow" l;
  fingerprint ← read_opt from_value "permission_fingerprint" l;
  Some {| oe_runtime_generation := runtime; oe_config_generation := config; oe_provider := provider;
          oe_plugins := plugins; oe_tools := tools; oe_hook_order := hook_order; oe_workflow := workflow;
          oe_permission_fingerprint := fingerprint |}.

Definition environment_ok (e : OperationEnvironmentSnapshot) : Prop :=
  is_u64 (oe_runtime_generation e) ∧ is_u64 (oe_config_generation e).

#[export] Program Instance serde_environment : Serde OperationEnvironmentSnapshot := {|
  to_value e := VObject (fields_of (environment_fields e));
  from_value := environment_from;
  serde_ok := environment_ok;
|}.
Next Obligation.
  intros e [Hr Hc]. assert (NoDup (environment_fields e).*1) as Hnd by serde_keys.
  eapply bind_Some_intro; [reflexivity|].
  repeat serde_step; [by apply uint_roundtrip..|by destruct e].
Qed.
Next Obligation. intros e _. serde_wf. Qed.
