(* ===== verification/EffectEnvironment.v ===== *)
(** * The environment of an operation

    crates/solaris-agent/src/execution_context/environment.rs (plugin identities,
    compatibility, fingerprints) and the normalisation and redaction of descriptors
    in execution_context/redaction.rs. *)
From S2P Require Import ResourceTypes Prelude Json Types WorkflowTypes Identity TaskRegistry RuntimeLedger Registries.
From S2P Require Import LedgerInterface MessageBus CollaborationTypes WorkflowRuns.
From S2P Require Import Paths NetworkDomains PermissionTypes PermissionEngine ProtectedPaths PermissionContext EffectAudit EffectTypes.

(** ** Plugin identities *)

(** [Option<String>] in its derived order. *)
Definition option_compare (a b : option string) : comparison :=
  match a, b with
  | None, None => Eq
  | None, Some _ => Lt
  | Some _, None => Gt
  | Some a, Some b => String.compare a b
  end.
Definition implementation_compare (a b : ImplementationIdentity) : comparison :=
  match String.compare (im_implementation_id a) (im_implementation_id b) with
  | Eq => match option_compare (im_version a) (im_version b) with
          | Eq => option_compare (im_digest a) (im_digest b)
          | o => o
          end
  | o => o
  end.
Definition implementation_le (a b : ImplementationIdentity) : Prop := implementation_compare a b ≠ Gt.
#[export] Instance implementation_le_dec a b : Decision (implementation_le a b).
Proof. unfold implementation_le. destruct (implementation_compare a b); [left|left|right]; congruence. Defined.

Definition normalize_plugin_identities (plugins : list ImplementationIdentity) : list ImplementationIdentity :=
  dedup (merge_sort implementation_le plugins).

Definition with_plugins (e : OperationEnvironmentSnapshot) (plugins : list ImplementationIdentity) :
    OperationEnvironmentSnapshot :=
  {| oe_runtime_generation := oe_runtime_generation e; oe_config_generation := oe_config_generation e;
     oe_provider := oe_provider e; oe_plugins := plugins; oe_tools := oe_tools e;
     oe_hook_order := oe_hook_order e; oe_workflow := oe_workflow e;
     oe_permission_fingerprint := oe_permission_fingerprint e |}.
Definition with_tools (e : OperationEnvironmentSnapshot) (tools : list ToolImplementationSnapshot) :
    OperationEnvironmentSnapshot :=
  {| oe_runtime_generation := oe_runtime_generation e; oe_config_generation := oe_config_generation e;
     oe_provider := oe_provider e; oe_plugins := oe_plugins e; oe_tools := tools;
     oe_hook_order := oe_hook_order e; oe_workflow := oe_workflow e;
     oe_permission_fingerprint := oe_permission_fingerprint e |}.
Definition with_fingerprint (e : OperationEnvironmentSnapshot) (fingerprint : option string) :
    OperationEnvironmentSnapshot :=
  {| oe_runtime_generation := oe_runtime_generation e; oe_config_generation := oe_config_generation e;
     oe_provider := oe_provider e; oe_plugins := oe_plugins e; oe_tools := oe_tools e;
     oe_hook_order := oe_hook_order e; oe_workflow := oe_workflow e;
     oe_permission_fingerprint := fingerprint |}.

Definition normalize_environment (e : OperationEnvironmentSnapshot) : OperationEnvironmentSnapshot :=
  with_plugins e (normalize_plugin_identities (oe_plugins e)).

(** ** Compatibility *)

Inductive CompatibilityDecision : Type := Compatible | CompatReconcileRequired | Incompatible.
#[export] Instance CompatibilityDecision_eq_dec : EqDecision CompatibilityDecision.
Proof. solve_decision. Defined.

Definition implementation_changed (recorded current : option ImplementationIdentity) : bool :=
  match recorded, current with
  | Some l, Some r => bool_decide (im_implementation_id l ≠ im_implementation_id r)
  | None, None => false
  | _, _ => true
  end.

(** [collect::<BTreeMap<_, _>>()]: the last tool of a name. *)
Definition tools_by_name (l : list ToolImplementationSnapshot) : gmap string ToolImplementationSnapshot :=
  fold_left (λ m t, <[ti_name t := t]> m) l ∅.

(** The loop over the recorded tools. *)
Definition tools_compatible (recorded current : gmap string ToolImplementationSnapshot) : bool :=
  forallb (λ kv,
    match current !! kv.1 with
    | Some t => bool_decide (im_implementation_id (ti_implementation kv.2) = im_implementation_id (ti_implementation t))
    | None => false
    end) (map_to_list recorded).

Definition compatibility_decision (recorded current : OperationEnvironmentSnapshot) : CompatibilityDecision :=
  if decide (recorded = current) then Compatible
  else if implementation_changed (oe_provider recorded) (oe_provider current) then Incompatible
  else if tools_compatible (tools_by_name (oe_tools recorded)) (tools_by_name (oe_tools current))
  then CompatReconcileRequired
  else Incompatible.

(** ** JSON of permissions *)

Definition mode_str (m : PermissionMode) : string := match m with Plan => "plan" | Auto => "auto" | Bypass => "bypass" end.
Definition decision_str (d : PermissionDecision) : string :=
  match d with Allow => "allow" | AutoReview => "auto_review" | Ask => "ask" | Deny => "deny" end.

Definition rule_value (r : PermissionRule) : Value :=
  VObject (fields_of
    [("capability", field_opt (pr_capability r)); ("action", field_opt (pr_action r));
     ("effect_class", field_opt (pr_effect_class r)); ("resource_prefixes", field_list (pr_resource_prefixes r));
     ("decision", Some (VString (decision_str (pr_decision r))))]).

Definition boundary_value (b : ExecutionBoundary) : Value :=
  VObject (fields_of
    [("readable_roots", field_list (eb_readable_roots b));
     ("unrestricted_file_reads", Some (VBool (eb_unrestricted_file_reads b)));
     ("writable_roots", field_list (eb_writable_roots b));
     ("unrestricted_file_writes", Some (VBool (eb_unrestricted_file_writes b)));
     ("network_domains", field_list (eb_network_domains b));
     ("process_command_prefixes", field_list (eb_process_command_prefixes b));
     ("process_invocations", field_list (eb_process_invocations b));
     ("unrestricted_process", Some (VBool (eb_unrestricted_process b)));
     ("external_resource_prefixes", field_list (eb_external_resource_prefixes b));
     ("unrestricted_external_side_effects", Some (VBool (eb_unrestricted_external_side_effects b)));
     ("unrestricted_network", Some (VBool (eb_unrestricted_network b)))]).

Section digests.
Context (sha256 : string → list Byte.byte) (to_vec : Value → string).
Notation digest_bytes := (stable_digest_bytes sha256).
Notation digest_value := (stable_digest_value sha256 to_vec).

(** The loop of [validate_environment_plugin_identities]. *)
Fixpoint check_plugins (seen : gmap string ImplementationIdentity) (l : list ImplementationIdentity) :
    result unit string :=
  match l with
  | [] => Ok tt
  | i :: l =>
      match seen !! im_implementation_id i with
      | Some existing =>
          if decide (existing ≠ i)
          then Err ("conflicting plugin implementation identity sha256:" +:+ digest_bytes (im_implementation_id i))
          else check_plugins (<[im_implementation_id i := i]> seen) l
      | None => check_plugins (<[im_implementation_id i := i]> seen) l
      end
  end.
Definition validate_environment_plugin_identities (e : OperationEnvironmentSnapshot) : result unit string :=
  check_plugins ∅ (oe_plugins e).

Definition permission_fingerprint {I} (h : Cells I) (x : PermissionContext) : string :=
  digest_value (VObject
    [("mode", VString (mode_str (mode h x))); ("ceiling", ceiling_value (ceiling h x));
     ("rules", VArray (rule_value <$> rules h x)); ("boundary", boundary_value (boundary h x));
     ("protected_paths", to_value (fingerprint_material (protected_paths h x)))]).

Definition read_only_evidence_environment_digest (e : OperationEnvironmentSnapshot) (tool_name : string) : string :=
  let tool := find (λ t, bool_decide (ti_name t = tool_name)) (oe_tools e) in
  digest_value (VObject
    [("runtime_generation", uint_to_value (oe_runtime_generation e));
     ("config_generation", uint_to_value (oe_config_generation e)); ("plugins", to_value (oe_plugins e));
     ("tool", opt_value tool); ("hook_order", to_value (oe_hook_order e)); ("workflow", opt_value (oe_workflow e))]).

Definition tool_call_scope_environment_digest (e : OperationEnvironmentSnapshot) : string :=
  digest_value (VObject
    [("provider", opt_value (oe_provider e)); ("plugins", to_value (oe_plugins e)); ("tools", to_value (oe_tools e));
     ("hook_order", to_value (oe_hook_order e)); ("workflow", opt_value (oe_workflow e))]).

(** ** Descriptors *)

Definition effect_descriptor_digest (v : Value) : option string :=
  p ← (from_value v : option EffectAuditProjection);
  if has_supported_version p then Some (ap_descriptor_digest p) else None.

Definition payload_effect_descriptor_digest (payload : Value) : option string :=
  match get "effect" payload ≫= effect_descriptor_digest with
  | Some d => Some d
  | None =>
      v ← get "descriptor" payload;
      d ← (from_value v : option EffectDescriptor);
      Some (ap_descriptor_digest (from_descriptor sha256 d))
  end.

Definition secret_safe_invocation (i : ProcessInvocation) : ProcessInvocation :=
  {| pi_executable := pi_executable i;
     pi_argv := match pi_argv i with
                | [] => []
                | argv => ["sha256:" +:+ digest_value (to_value argv);
                           "argc:" +:+ decimal (Z.of_nat (length argv))]
                end |}.

Definition has_process_details (r : ResourceFootprint) : bool :=
  negb (bool_decide (rf_process_commands r = [])) ||
  existsb (λ i, negb (bool_decide (pi_argv i = []))) (rf_process_invocations r).

Definition secret_safe_descriptor (d : EffectDescriptor) : EffectDescriptor :=
  let r := ed_resources d in
  {| ed_class := ed_class d;
     ed_action := if has_process_details r then "Process effect (sha256:" +:+ digest_bytes (ed_action d) +:+ ")"
                  else ed_action d;
     ed_resources :=
       {| rf_unrestricted_file_reads := rf_unrestricted_file_reads r;
          rf_unrestricted_file_writes := rf_unrestricted_file_writes r;
          rf_unrestricted_network := rf_unrestricted_network r;
          rf_unrestricted_process := rf_unrestricted_process r;
          rf_file_reads := rf_file_reads r; rf_file_writes := rf_file_writes r;
          rf_network_domains := rf_network_domains r;
          rf_process_commands := (λ c, "sha256:" +:+ digest_bytes c) <$> rf_process_commands r;
          rf_process_invocations := secret_safe_invocation <$> rf_process_invocations r;
          rf_external_resources := rf_external_resources r; rf_mesh_resources := rf_mesh_resources r |};
     ed_replay_policy := ed_replay_policy d |}.
End digests.

(** [value.trim_end_matches('.')]. *)
Fixpoint trim_dots (s : string) : string :=
  match s with
  | EmptyString => EmptyString
  | String a s =>
      match trim_dots s with
      | EmptyString => if Ascii.eqb a "."%char then EmptyString else String a EmptyString
      | s => String a s
      end
  end.

Section normalize.
Context {I : Type} (fs : FileSystem I).

(** [current_dir().unwrap_or(".").join(path)] as text. *)
Definition join_current (value : string) : string :=
  let cwd := match fs_current_dir fs with Some p => path_display p | None => "." end in
  if ends_with cwd "/" then cwd +:+ value else cwd +:+ "/" +:+ value.

Definition normalize_path (value : string) : string :=
  let path := components value in
  match fs_canonicalize fs path with
  | Some canonical => path_display canonical
  | None =>
      match (parent ← path_parent path; canonical ← fs_canonicalize fs parent;
             name ← path_file_name path; Some (canonical ++ [Normal name])) with
      | Some p => path_display p
      | None => if is_absolute_str value then value else join_current value
      end
  end.

Definition normalize_footprint (r : ResourceFootprint) : ResourceFootprint :=
  {| rf_unrestricted_file_reads := rf_unrestricted_file_reads r;
     rf_unrestricted_file_writes := rf_unrestricted_file_writes r;
     rf_unrestricted_network := rf_unrestricted_network r;
     rf_unrestricted_process := rf_unrestricted_process r;
     rf_file_reads := sorted_strings (normalize_path <$> rf_file_reads r);
     rf_file_writes := sorted_strings (normalize_path <$> rf_file_writes r);
     rf_network_domains := sorted_strings ((λ d, to_ascii_lowercase (trim_dots d)) <$> rf_network_domains r);
     rf_process_commands := sorted_strings (rf_process_commands r);
     rf_process_invocations := sorted_invocations (rf_process_invocations r);
     rf_external_resources := sorted_strings (rf_external_resources r);
     rf_mesh_resources := sorted_strings (rf_mesh_resources r) |}.

Definition normalize_descriptor (d : EffectDescriptor) : EffectDescriptor :=
  {| ed_class := ed_class d; ed_action := ed_action d; ed_resources := normalize_footprint (ed_resources d);
     ed_replay_policy := ed_replay_policy d |}.
End normalize.
