(* ===== verification/EffectJournal.v ===== *)
(** * The journal of effects

    crates/solaris-agent/src/execution_context/{recovery,output_store}.rs: the
    intent of an effect is in the ledger before it is executed, its outcome
    afterwards, with the output in a file that its digest names; what a later
    execution of the same effect does is decided by these records alone. *)
From S2P Require Import ResourceTypes Prelude Json Types WorkflowTypes Identity TaskRegistry RuntimeLedger Registries.
From S2P Require Import LedgerInterface MessageBus CollaborationTypes WorkflowRuns.
From S2P Require Import Paths NetworkDomains PermissionTypes PermissionEngine ProtectedPaths PermissionContext EffectAudit EffectTypes EffectEnvironment.

(** ** Output files *)

Inductive ReadAnswer : Type := ReadBytes (bytes : string) | ReadNotFound | ReadFailed (error : string).

(** A [SecureDirectory]: to write a file atomically and to read it. *)
Class Directory (D : Type) := {
  dir_write : D → string → string → D * result unit string;
  dir_read : D → string → ReadAnswer;
}.

(** A write that succeeds is read back, no write changes another file, and a write
    that fails leaves the old file or the new one. *)
Class DirectoryLaws (D : Type) `{!Directory D} : Prop := {
  dir_read_written : ∀ (d d' : D) name bytes, dir_write d name bytes = (d', Ok tt) → dir_read d' name = ReadBytes bytes;
  dir_read_other : ∀ (d d' : D) name other bytes r,
    dir_write d name bytes = (d', r) → other ≠ name → dir_read d' other = dir_read d other;
  dir_read_failed : ∀ (d d' : D) name bytes e,
    dir_write d name bytes = (d', Err e) → dir_read d' name = dir_read d name ∨ dir_read d' name = ReadBytes bytes;
}.

(** Well-formed UTF-8 ([String::from_utf8]). *)
Definition byte_in (lo hi : N) (c : ascii) : bool := (lo <=? N_of_ascii c)%N && (N_of_ascii c <=? hi)%N.
Definition cont (c : ascii) : bool := byte_in 128 191 c.
Fixpoint valid_utf8 (s : string) : bool :=
  match s with
  | EmptyString => true
  | String a rest =>
      if byte_in 0 127 a then valid_utf8 rest
      else match rest with
      | String b rest =>
          if byte_in 194 223 a then cont b && valid_utf8 rest
          else match rest with
          | String c rest =>
              if byte_in 224 239 a then
                (if byte_in 224 224 a then byte_in 160 191 b else if byte_in 237 237 a then byte_in 128 159 b else cont b) &&
                cont c && valid_utf8 rest
              else match rest with
              | String d rest =>
                  byte_in 240 244 a &&
                  (if byte_in 240 240 a then byte_in 144 191 b else if byte_in 244 244 a then byte_in 128 143 b else cont b) &&
                  cont c && cont d && valid_utf8 rest
              | EmptyString => false
              end
          | EmptyString => false
          end
      | EmptyString => false
      end
  end.

(** The directory of a Run, whether it lies in the old global directory, and that
    directory for reading old outputs. *)
Record EffectOutputStore (D : Type) : Type := {
  os_root : option D;
  os_global : result bool string;
  os_legacy_root : option D;
}.
Arguments os_root {D} _.
Arguments os_global {D} _.
Arguments os_legacy_root {D} _.

Definition is_sha256_hex (value : string) : bool :=
  bool_decide (byte_len value = 64)%Z && all_bytes is_ascii_hexdigit value.

Definition invalid_reference : string := "invalid effect output reference".

Definition validate_reference (reference : string) : result unit string :=
  match components reference with [Normal _] => Ok tt | _ => Err invalid_reference end.

Definition reference_digest (reference : string) : result string string :=
  validate_reference reference ;;?
  let? stem := ok_or (strip_suffix ".blob" reference) invalid_reference in
  let? digest :=
    match strip_prefix "sha256-" stem with
    | Some digest => Ok digest
    | None =>
        let? parts := ok_or (rsplit_once "-"%char stem) invalid_reference in
        if is_sha256_hex parts.1 then Ok parts.2 else Err invalid_reference
    end in
  if is_sha256_hex digest then Ok digest else Err invalid_reference.

Section outputs.
Context (sha256 : string → list Byte.byte).
Context {D : Type} `{!Directory D}.

Definition output_reference (output : string) : string := "sha256-" +:+ stable_digest_bytes sha256 output +:+ ".blob".

Definition write_named (s : EffectOutputStore D) (output : string) : EffectOutputStore D * result string string :=
  match os_root s with
  | None => (s, Err "runtime ledger has no local effect output directory")
  | Some root =>
      slift s (os_global s) (λ global,
      if global then (s, Err "legacy global effect output directory is read-only")
      else
        let reference := output_reference output in
        match dir_write root reference output with
        | (root, r) =>
            ({| os_root := Some root; os_global := os_global s; os_legacy_root := os_legacy_root s |},
             match r with Ok _ => Ok reference | Err e => Err e end)
        end)
  end.

Definition read_utf8 (root : D) (reference expected_digest : string) : ReadAnswer :=
  match dir_read root reference with
  | ReadBytes bytes =>
      if decide (stable_digest_bytes sha256 bytes ≠ expected_digest)
      then ReadFailed "effect output digest does not match its reference"
      else if valid_utf8 bytes then ReadBytes bytes else ReadFailed "invalid utf-8"
  | a => a
  end.

Definition read_output (s : EffectOutputStore D) (reference : string) : result string string :=
  let? expected_digest := reference_digest reference in
  let primary := match os_root s with
                 | Some root => read_utf8 root reference expected_digest
                 | None => ReadNotFound
                 end in
  let answer := match primary, os_legacy_root s with
                | ReadNotFound, Some root => read_utf8 root reference expected_digest
                | a, _ => a
                end in
  match answer with
  | ReadBytes output => Ok output
  | ReadNotFound => Err "effect output has no local directory"
  | ReadFailed e => Err e
  end.
End outputs.

(** ** The journal *)

Inductive ProcessRecoveryKind : Type := StartedChild | WindowsAcl.
Definition recovery_kind_str (k : ProcessRecoveryKind) : string :=
  match k with StartedChild => "started_child" | WindowsAcl => "windows_acl" end.
Record ProcessRecoveryRecord : Type := { pv_id : Z; pv_kind : ProcessRecoveryKind }.
Definition recovery_reference (r : ProcessRecoveryRecord) : string := "solaris://process-recovery/" +:+ decimal (pv_id r).

(** The ledger, the output directory of each Run, and the process recoveries that
    are remembered. *)
Record Journal (D : Type) : Type := {
  jo_ledger : InMemoryLedgerState;
  jo_outputs : RunId → EffectOutputStore D;
  jo_recoveries : gmap EffectId ProcessRecoveryRecord;
}.
Arguments jo_ledger {D} _.
Arguments jo_outputs {D} _.
Arguments jo_recoveries {D} _.

(** The part of [EffectExecutionContext] that is its own. *)
Record EffectContext : Type := {
  xe_run_id : RunId;
  xe_agent_id : AgentId;
  xe_environment : OperationEnvironmentSnapshot;
  xe_baseline : string;
  xe_permissions : PermissionContext;
}.

(** Where an error comes from. *)
Inductive JournalError : Type :=
  | JLedger (e : LedgerError)
  | JOutput (e : string)
  | JText (e : string).

Inductive EffectOutcomeCompletion : Type := Committed | OutcomeUnknownCompletion.
Inductive EffectRecoveryDecision : Type :=
  | Execute
  | Reuse (is_error : bool) (output : string)
  | Reconcile (reason : string).

Definition PREPARED_IMPLEMENTATION_SNAPSHOT_PREFIX : string := NUL +:+ "solaris/prepared-executable/".
Definition PROCESS_RECOVERY_SCHEMA_V1 : string := "solaris/process-recovery/v1".

Definition class_debug (c : EffectClass) : string :=
  match c with
  | ReadOnly => "ReadOnly" | AgentLifecycle => "AgentLifecycle" | MeshStateMutation => "MeshStateMutation"
  | WorkspaceMutation => "WorkspaceMutation" | Process => "Process" | Network => "Network"
  | ExternalSideEffect => "ExternalSideEffect"
  end.
Definition policy_debug (p : EffectReplayPolicy) : string :=
  match p with
  | Never => "Never" | Idempotent => "Idempotent" | ReplaySafe => "ReplaySafe"
  | ReconcileRequired => "ReconcileRequired" | Compensatable => "Compensatable"
  end.

(** [payload.get(k).and_then(Value::as_str) == Some(s)], and as an integer. *)
Definition payload_is (k : string) (s : string) (payload : Value) : bool := bool_decide (get_str k payload = Some s).
Definition payload_u64 (k : string) (payload : Value) : option Z :=
  match get k payload with Some (VNumber (PosInt n)) => Some n | _ => None end.
(** [payload.get(k) == Some(&json!(v))]. *)
Definition payload_eq (k : string) (v : Value) (payload : Value) : bool :=
  match get k payload with Some w => value_eqb w v | None => false end.

Definition is_intent (id : EffectId) (r : LedgerRecord) : bool :=
  bool_decide (lr_record_type r = "effect_intent") && payload_is "effect_id" id (lr_payload r).
Definition is_outcome (id : EffectId) (r : LedgerRecord) : bool :=
  bool_decide (lr_record_type r = "effect_outcome") && payload_is "effect_id" id (lr_payload r).

(** [iter().rev().find(p)]. *)
Definition find_last {A} (p : A → bool) (l : list A) : option A := find p (reverse l).

Definition process_recovery_metadata (r : ProcessRecoveryRecord) : Value :=
  VObject [("schema", VString PROCESS_RECOVERY_SCHEMA_V1); ("id", uint_to_value (pv_id r));
           ("kind", VString (recovery_kind_str (pv_kind r))); ("ref", VString (recovery_reference r))].

Section journal.
Context (sha256 : string → list Byte.byte) (to_vec : Value → string).
Context {D I : Type} `{!Directory D} `{EqDecision I}.
Notation Journal := (Journal D).

Definition journal_records (j : Journal) (x : EffectContext) : list LedgerRecord := run_records (jo_ledger j) (xe_run_id x).

Definition set_ledger (j : Journal) (l : InMemoryLedgerState) : Journal :=
  {| jo_ledger := l; jo_outputs := jo_outputs j; jo_recoveries := jo_recoveries j |}.
Definition set_outputs (j : Journal) (run : RunId) (o : EffectOutputStore D) : Journal :=
  {| jo_ledger := jo_ledger j; jo_outputs := λ r, if decide (r = run) then o else jo_outputs j r;
     jo_recoveries := jo_recoveries j |}.
Definition set_recoveries (j : Journal) (r : gmap EffectId ProcessRecoveryRecord) : Journal :=
  {| jo_ledger := jo_ledger j; jo_outputs := jo_outputs j; jo_recoveries := r |}.

Definition append_record (j : Journal) (x : EffectContext) (now : Z) (record_type : string) (payload : Value) :
    Journal * result LedgerRecord JournalError :=
  match append (jo_ledger j) now (xe_run_id x) SyncCritical record_type payload with
  | (l, r) => (set_ledger j l, match r with Ok a => Ok a | Err e => Err (JLedger e) end)
  end.

(** ** Identities of calls *)

Definition effect_id_for_call (x : EffectContext) (call_id : string) : EffectId :=
  "effect:" +:+ xe_run_id x +:+ ":" +:+ xe_agent_id x +:+ ":" +:+ call_id.

Definition effect_request (fs : FileSystem I) (x : EffectContext) (call_id capability : string) (input : Value)
    (d : EffectDescriptor) : EffectRequest :=
  {| rq_effect_id := effect_id_for_call x call_id;
     rq_operation_id := "tool:" +:+ xe_run_id x +:+ ":" +:+ xe_agent_id x +:+ ":" +:+ call_id;
     rq_capability := capability; rq_descriptor := normalize_descriptor fs d; rq_effective_input := input;
     rq_input_digest := Some (stable_digest_value sha256 to_vec input) |}.

(** ** Reading the history *)

Definition has_unresolved_effect_intent (j : Journal) (x : EffectContext) : bool :=
  let records := journal_records j x in
  let completed := omap (λ r, if decide (lr_record_type r = "effect_outcome") then get_str "effect_id" (lr_payload r)
                              else None) records in
  existsb (λ r, bool_decide (lr_record_type r = "effect_intent") &&
                match get_str "effect_id" (lr_payload r) with
                | Some id => negb (bool_decide (id ∈ completed))
                | None => false
                end) records.

(** The loop of [unresolved_other_effect_for_capability], the latest intent first. *)
Fixpoint unresolved_in (records : list LedgerRecord) (capability current : string) (intents : list LedgerRecord) :
    result (option string) string :=
  match intents with
  | [] => Ok None
  | intent :: intents =>
      let? id := ok_or (get_str "effect_id" (lr_payload intent))
                   ("pending " +:+ capability +:+ " intent is missing its effect identity") in
      if decide (id = current) then unresolved_in records capability current intents
      else
        let outcome := find_last (λ r, is_outcome id r && bool_decide (lr_seq intent < lr_seq r)%Z) records in
        match outcome with
        | None => Ok (Some id)
        | Some r => if payload_is "status" "outcome_unknown" (lr_payload r) then Ok (Some id)
                    else unresolved_in records capability current intents
        end
  end.

Definition unresolved_other_effect_for_capability (j : Journal) (x : EffectContext) (capability current : string) :
    result (option string) string :=
  let records := journal_records j x in
  unresolved_in records capability current
    (List.filter (λ r, bool_decide (lr_record_type r = "effect_intent") && payload_is "capability" capability (lr_payload r) &&
                       payload_is "agent_id" (xe_agent_id x) (lr_payload r)) (reverse records)).

Definition exact_effect_intent_exists (j : Journal) (x : EffectContext) (id : EffectId) : bool :=
  existsb (λ r, is_intent id r && payload_is "agent_id" (xe_agent_id x) (lr_payload r)) (journal_records j x).

(** The loop of [stable_effect_attempt_id]. *)
Fixpoint first_open_attempt (records : list LedgerRecord) (x : EffectContext) (base : string) (attempts : list nat) :
    result string string :=
  match attempts with
  | [] => Err "effect attempt history exceeded its durable record bound"
  | attempt :: attempts =>
      let call_id := base +:+ ":attempt:" +:+ decimal (Z.of_nat attempt) in
      let id := effect_id_for_call x call_id in
      match find_last (is_intent id) records with
      | None => Ok call_id
      | Some intent =>
          if existsb (λ r, is_outcome id r && bool_decide (lr_seq intent < lr_seq r)%Z) records
          then first_open_attempt records x base attempts
          else Ok call_id
      end
  end.

Definition stable_effect_attempt_id (j : Journal) (x : EffectContext) (base : string) : result string string :=
  let records := journal_records j x in
  first_open_attempt records x base (seq 1 (S (length records))).

(** ** Intents *)

(** What the permissions are at a moment. *)
Record Moment : Type := { mo_fs : FileSystem I; mo_cells : Cells I; mo_now : Z }.

Definition environment_with_current_permissions (mo : Moment) (x : EffectContext) (request : EffectRequest) :
    OperationEnvironmentSnapshot :=
  let e := xe_environment x in
  let evaluation := evaluate_effect (mo_fs mo) (mo_cells mo) (xe_permissions x) (mo_now mo) (xe_run_id x)
                      (rq_capability request) request in
  with_fingerprint e (Some (stable_digest_value sha256 to_vec (VObject
    [("schema", VString "solaris/permission-authorization/v1"); ("environment", opt_value (oe_permission_fingerprint e));
     ("baseline", VString (xe_baseline x));
     ("current", VString (permission_fingerprint sha256 to_vec (mo_cells mo) (xe_permissions x)));
     ("decision", VString (decision_str (pe_decision evaluation)));
     ("matched_lease", VBool (pe_matched_lease evaluation))]))).

(** The first tool of the name gets the implementation. *)
Fixpoint set_implementation (name : string) (i : ImplementationIdentity) (l : list ToolImplementationSnapshot) :
    option (list ToolImplementationSnapshot) :=
  match l with
  | [] => None
  | t :: l =>
      if decide (ti_name t = name) then
        Some ({| ti_name := ti_name t; ti_implementation := i; ti_schema_digest := ti_schema_digest t;
                 ti_replay_policy := ti_replay_policy t |} :: l)
      else cons t <$> set_implementation name i l
  end.

Definition environment_with_tool_implementation (mo : Moment) (x : EffectContext) (request : EffectRequest)
    (i : ImplementationIdentity) : OperationEnvironmentSnapshot :=
  let e := environment_with_current_permissions mo x request in
  let name := PREPARED_IMPLEMENTATION_SNAPSHOT_PREFIX +:+ rq_capability request in
  with_tools e
    (match set_implementation name i (oe_tools e) with
     | Some tools => tools
     | None =>
         merge_sort (λ a b, String.le (ti_name a) (ti_name b))
           (oe_tools e ++ [{| ti_name := name; ti_implementation := i; ti_schema_digest := None;
                              ti_replay_policy := ed_replay_policy (rq_descriptor request) |}])
     end).

Definition intent_payload (x : EffectContext) (request : EffectRequest) (e : OperationEnvironmentSnapshot) : Value :=
  VObject [("agent_id", VString (xe_agent_id x)); ("effect_id", VString (rq_effect_id request));
           ("operation_id", VString (rq_operation_id request)); ("capability", VString (rq_capability request));
           ("effect", to_value (from_descriptor sha256 (rq_descriptor request)));
           ("input_digest", opt_value (rq_input_digest request)); ("environment", to_value e)].

(** [ensure_session_fence]: every fence must still be current. *)
Fixpoint ensure_session_fence (fences : list (result unit string)) : result unit JournalError :=
  match fences with
  | [] => Ok tt
  | Ok _ :: fences => ensure_session_fence fences
  | Err e :: _ => Err (JText ("session lease fence rejected durable effect: " +:+ e))
  end.

Definition record_effect_intent_with_environment (j : Journal) (x : EffectContext) (now : Z)
    (fences : list (result unit string)) (request : EffectRequest) (e : OperationEnvironmentSnapshot) :
    Journal * result unit JournalError :=
  slift j (ensure_session_fence fences) (λ _,
  sbind (append_record j x now "effect_intent" (intent_payload x request e)) (λ j _, (j, Ok tt))).

Definition intent_environment (mo : Moment) (x : EffectContext) (request : EffectRequest)
    (implementation : option ImplementationIdentity) : OperationEnvironmentSnapshot :=
  match implementation with
  | None => environment_with_current_permissions mo x request
  | Some i => environment_with_tool_implementation mo x request i
  end.

(** [record_effect_intent], and with the implementation of a tool. *)
Definition record_effect_intent (j : Journal) (x : EffectContext) (mo : Moment) (fences : list (result unit string))
    (request : EffectRequest) (implementation : option ImplementationIdentity) : Journal * result unit JournalError :=
  record_effect_intent_with_environment j x (mo_now mo) fences request (intent_environment mo x request implementation).

(** ** Recovery *)

Definition same_descriptor_digest (audit : EffectAuditProjection) (payload : Value) : bool :=
  bool_decide (payload_effect_descriptor_digest sha256 payload = Some (ap_descriptor_digest audit)).

(** One outcome: [Err] ends with a reconciliation, [Ok None] has no known output. *)
Definition check_outcome (j : Journal) (x : EffectContext) (request : EffectRequest) (recorded_effect_digest : option string)
    (payload : Value) : result (option string) string :=
  let audit := from_descriptor sha256 (rq_descriptor request) in
  let digest := payload_effect_descriptor_digest sha256 payload in
  let id := rq_effect_id request in
  if negb (payload_eq "effect_id" (VString id) payload) ||
     negb (payload_eq "operation_id" (VString (rq_operation_id request)) payload) ||
     negb (payload_eq "input_digest" (opt_value (rq_input_digest request)) payload) ||
     negb (same_descriptor_digest audit payload) ||
     (bool_decide (is_Some recorded_effect_digest) && negb (bool_decide (digest = recorded_effect_digest)))
  then Err ("effect " +:+ id +:+ " durable outcome identity failed integrity validation")
  else if payload_is "status" "outcome_unknown" payload then Ok None
  else
    let? output_ref := ok_or (get_str "output_ref" payload) ("effect " +:+ id +:+ " completed without a reusable output") in
    match read_output sha256 (jo_outputs j (xe_run_id x)) output_ref with
    | Err e => Err ("effect " +:+ id +:+ " protected output failed integrity validation: " +:+ e)
    | Ok output =>
        if bool_decide (payload_u64 "output_bytes" payload = Some (byte_len output)) &&
           bool_decide (get_str "output_digest" payload = Some (stable_digest_bytes sha256 output))
        then Ok (Some output)
        else Err ("effect " +:+ id +:+ " durable output failed integrity validation")
    end.

Fixpoint check_outcomes (j : Journal) (x : EffectContext) (request : EffectRequest) (recorded_effect_digest : option string)
    (outcomes : list LedgerRecord) : result (list (option string)) string :=
  match outcomes with
  | [] => Ok []
  | r :: outcomes =>
      let? output := check_outcome j x request recorded_effect_digest (lr_payload r) in
      let? outputs := check_outcomes j x request recorded_effect_digest outcomes in
      Ok (output :: outputs)
  end.

(** What is decided from the outcomes of an effect. *)
Definition decide_from_outcomes (j : Journal) (x : EffectContext) (request : EffectRequest)
    (recorded_effect_digest : option string) (first : LedgerRecord) (others : list LedgerRecord) : EffectRecoveryDecision :=
  let id := rq_effect_id request in
  match check_outcomes j x request recorded_effect_digest (first :: others) with
  | Err reason => Reconcile reason
  | Ok outputs =>
      if existsb (λ r, negb (value_eqb (lr_payload r) (lr_payload first))) others
      then Reconcile ("effect " +:+ id +:+ " has conflicting durable outcome identity records")
      else if payload_is "status" "outcome_unknown" (lr_payload first)
      then Reconcile ("effect " +:+ id +:+ " started but its outcome is unknown")
      else match outputs with
           | Some output :: _ =>
               Reuse (default true (v ← get "is_error" (lr_payload first); as_bool v)) output
           | _ => Reconcile ("effect " +:+ id +:+ " completed without a reusable output")
           end
  end.

(** The intent speaks of this effect. *)
Definition intent_matches (request : EffectRequest) (payload : Value) : bool :=
  let d := rq_descriptor request in
  payload_eq "operation_id" (VString (rq_operation_id request)) payload &&
  payload_eq "input_digest" (opt_value (rq_input_digest request)) payload &&
  (same_descriptor_digest (from_descriptor sha256 d) payload ||
   payload_eq "descriptor" (to_value (secret_safe_descriptor sha256 to_vec d)) payload ||
   payload_eq "descriptor" (to_value d) payload).

Definition outcomes_after (intent : LedgerRecord) (request : EffectRequest) (records : list LedgerRecord) :
    list LedgerRecord :=
  List.filter (λ r, bool_decide (lr_record_type r = "effect_outcome") && bool_decide (lr_seq intent < lr_seq r)%Z &&
                    (payload_is "effect_id" (rq_effect_id request) (lr_payload r) ||
                     payload_is "operation_id" (rq_operation_id request) (lr_payload r))) records.

Definition recover_effect (j : Journal) (x : EffectContext) (mo : Moment) (request : EffectRequest)
    (implementation : option ImplementationIdentity) : result EffectRecoveryDecision JournalError :=
  let records := journal_records j x in
  let id := rq_effect_id request in
  match find_last (is_intent id) records with
  | None => Ok Execute
  | Some intent =>
      if negb (intent_matches request (lr_payload intent))
      then Ok (Reconcile ("effect " +:+ id +:+ " durable identity conflicts with current input or descriptor"))
      else
        let? value := ok_or (get "environment" (lr_payload intent))
                        (JText "effect intent is missing its operation environment") in
        let? recorded := ok_or (from_value value) (JText "effect intent has invalid operation environment") in
        let current := intent_environment mo x request implementation in
        if negb (is_ok (validate_environment_plugin_identities sha256 recorded)) ||
           negb (is_ok (validate_environment_plugin_identities sha256 current))
        then Ok (Reconcile ("effect " +:+ id +:+ " operation environment contains conflicting plugin identities"))
        else match compatibility_decision recorded current with
        | CompatReconcileRequired =>
            Ok (Reconcile ("effect " +:+ id +:+ " operation environment changed and requires reconciliation"))
        | Incompatible => Ok (Reconcile ("effect " +:+ id +:+ " operation environment is incompatible"))
        | Compatible =>
            match outcomes_after intent request records with
            | first :: others =>
                Ok (decide_from_outcomes j x request (payload_effect_descriptor_digest sha256 (lr_payload intent))
                      first others)
            | [] =>
                let d := rq_descriptor request in
                if bool_decide (ed_class d = ReadOnly) && bool_decide (ed_replay_policy d = ReplaySafe) then Ok Execute
                else Ok (Reconcile ("effect " +:+ id +:+
                  " has a durable intent without an outcome; its outcome is unknown and class " +:+
                  class_debug (ed_class d) +:+ " with replay policy " +:+ policy_debug (ed_replay_policy d) +:+
                  " requires reconciliation"))
            end
        end
  end.

(** ** Outcomes *)

(** [payload["process_recovery"] = ...]. *)
Definition with_recovery (recovery : option Value) (l : list (string * Value)) : Value :=
  match recovery with
  | Some v => VObject (obj_insert "process_recovery" v l)
  | None => VObject l
  end.

Definition outcome_fields (x : EffectContext) (request : EffectRequest) (status : string) (is_error : bool)
    (output output_ref : string) : list (string * Value) :=
  [("agent_id", VString (xe_agent_id x)); ("effect_id", VString (rq_effect_id request));
   ("operation_id", VString (rq_operation_id request));
   ("effect", to_value (from_descriptor sha256 (rq_descriptor request)));
   ("input_digest", opt_value (rq_input_digest request)); ("status", VString status); ("is_error", VBool is_error);
   ("output_digest", VString (stable_digest_bytes sha256 output)); ("output_bytes", uint_to_value (byte_len output));
   ("output_ref", VString output_ref); ("output_redacted", VBool true)].

Definition persist_canonical_effect_outcome (j : Journal) (x : EffectContext) (now : Z) (request : EffectRequest)
    (payload : Value) : Journal * result EffectOutcomeCompletion JournalError :=
  let unknown := payload_is "status" "outcome_unknown" in
  let requested := if unknown payload then OutcomeUnknownCompletion else Committed in
  match compare_and_append to_vec (jo_ledger j) now (xe_run_id x) SyncCritical "effect_outcome" ["effect_id"] payload with
  | (l, Ok _) => (set_ledger j l, Ok requested)
  | (l, Err append_error) =>
      let j := set_ledger j l in
      match List.filter (is_outcome (rq_effect_id request)) (journal_records j x) with
      | [] => (j, Err (JLedger append_error))
      | canonical :: others =>
          if existsb (λ r, negb (value_eqb (lr_payload r) (lr_payload canonical))) others
          then (j, Err (JText "effect has conflicting durable outcome identity records"))
          else if value_eqb (lr_payload canonical) payload then (j, Ok requested)
          else if unknown (lr_payload canonical) then (j, Ok OutcomeUnknownCompletion)
          else (j, Err (JLedger append_error))
      end
  end.

(** The output is written first. *)
Definition write_effect_output (j : Journal) (x : EffectContext) (output : string) : Journal * result string JournalError :=
  match write_named sha256 (jo_outputs j (xe_run_id x)) output with
  | (o, r) => (set_outputs j (xe_run_id x) o, match r with Ok a => Ok a | Err e => Err (JOutput e) end)
  end.

Definition record_effect_outcome_canonical (j : Journal) (x : EffectContext) (now : Z) (request : EffectRequest)
    (is_error : bool) (output : string) : Journal * result EffectOutcomeCompletion JournalError :=
  sbind (write_effect_output j x output) (λ j output_ref,
  let recovery := jo_recoveries j !! rq_effect_id request in
  let status := if bool_decide (is_Some recovery) then "outcome_unknown" else if is_error then "failed" else "executed" in
  persist_canonical_effect_outcome j x now request
    (with_recovery (process_recovery_metadata <$> recovery)
       (outcome_fields x request status (is_error || bool_decide (is_Some recovery)) output output_ref))).

Definition record_effect_outcome (j : Journal) (x : EffectContext) (now : Z) (request : EffectRequest)
    (is_error : bool) (output : string) : Journal * result unit JournalError :=
  sbind (record_effect_outcome_canonical j x now request is_error output) (λ j c,
  match c with
  | Committed => (j, Ok tt)
  | OutcomeUnknownCompletion => (j, Err (JText "the canonical effect outcome requires reconciliation"))
  end).

Definition record_effect_outcome_unknown_with_metadata (j : Journal) (x : EffectContext) (now : Z)
    (request : EffectRequest) (reason : string) (recovery : option Value) : Journal * result unit JournalError :=
  sbind (write_effect_output j x reason) (λ j output_ref,
  sbind (persist_canonical_effect_outcome j x now request
    (with_recovery recovery (outcome_fields x request "outcome_unknown" true reason output_ref))) (λ j _, (j, Ok tt))).

Definition record_effect_outcome_unknown (j : Journal) (x : EffectContext) (now : Z) (request : EffectRequest)
    (reason : string) : Journal * result unit JournalError :=
  record_effect_outcome_unknown_with_metadata j x now request reason
    (process_recovery_metadata <$> jo_recoveries j !! rq_effect_id request).

Definition record_process_recovery_outcome_unknown (j : Journal) (x : EffectContext) (now : Z)
    (request : EffectRequest) (reason : string) (recovery : ProcessRecoveryRecord) : Journal * result unit JournalError :=
  record_effect_outcome_unknown_with_metadata j x now request reason (Some (process_recovery_metadata recovery)).

Definition remember_process_recovery (j : Journal) (id : EffectId) (r : ProcessRecoveryRecord) : Journal :=
  set_recoveries j (<[id := r]> (jo_recoveries j)).
Definition clear_process_recovery (j : Journal) (id : EffectId) : Journal :=
  set_recoveries j (delete id (jo_recoveries j)).

(** ** The guard of an effect *)

(** [EffectOutcomeGuard]: its request, and whether an outcome was attempted. *)
Record EffectOutcomeGuard : Type := {
  og_request : EffectRequest;
  og_terminal_record_attempted : bool;
  og_cancellation_reason : string;
}.

Definition guard_new (request : EffectRequest) (reason : string) : EffectOutcomeGuard :=
  {| og_request := request; og_terminal_record_attempted := false; og_cancellation_reason := reason |}.

Definition attempted (g : EffectOutcomeGuard) : EffectOutcomeGuard :=
  {| og_request := og_request g; og_terminal_record_attempted := true;
     og_cancellation_reason := og_cancellation_reason g |}.

Definition complete_canonical (j : Journal) (x : EffectContext) (now : Z) (g : EffectOutcomeGuard) (is_error : bool)
    (output : string) : Journal * EffectOutcomeGuard * result EffectOutcomeCompletion JournalError :=
  match record_effect_outcome_canonical j x now (og_request g) is_error output with
  | (j, r) => (if is_ok r then clear_process_recovery j (rq_effect_id (og_request g)) else j, attempted g, r)
  end.

Definition leave_for_reconciliation : EffectOutcomeGuard → EffectOutcomeGuard := attempted.

(** [drop], on the journal: an effect whose execution was cancelled has an unknown
    outcome. *)
Definition drop_guard (j : Journal) (x : EffectContext) (mo : Moment) (g : EffectOutcomeGuard) : Journal :=
  let request := og_request g in
  let reused := match recover_effect j x mo request None with Ok (Reuse _ _) => true | _ => false end in
  let j := if negb (og_terminal_record_attempted g) && negb reused
           then (record_effect_outcome_unknown j x (mo_now mo) request (og_cancellation_reason g)).1
           else j in
  clear_process_recovery j (rq_effect_id request).
End journal.
