(* ===== verification/EffectFacts.v ===== *)
(** * Properties of the journal of effects

    Histories of the operations of EffectJournal.v: an effect that was started is
    not started again, it has at most one outcome, and what was recorded is what
    a later execution gets. *)
From S2P Require Import ResourceTypes Prelude Json Types TaskRegistry RuntimeLedger LedgerFacts LedgerAdmission Identity WorkflowTypes Registries LedgerInterface MessageBus CollaborationTypes WorkflowRuns Paths NetworkDomains PermissionTypes PermissionEngine ProtectedPaths PermissionContext EffectAudit EffectAuditFacts EffectTypes EffectEnvironment EffectJournal.

(** ** Generic facts *)

Lemma find_last_Some {A} (p : A → bool) l a :
  find_last p l = Some a → ∃ l1 l2, l = l1 ++ a :: l2 ∧ p a = true ∧ Forall (λ b, p b = false) l2.
Proof.
  unfold find_last. induction l as [|b l IH] using rev_ind; [done|].
  rewrite reverse_snoc. simpl. destruct (p b) eqn:Hb.
  - intros [= <-]. exists l, []. split_and!; [done|done|constructor].
  - intros (l1 & l2 & -> & Ha & Hl2)%IH. exists l1, (l2 ++ [b]).
    split_and!; [by rewrite <-app_assoc|done|]. apply Forall_app. auto.
Qed.

Lemma find_last_None {A} (p : A → bool) l : find_last p l = None → ∀ a, a ∈ l → p a = false.
Proof.
  unfold find_last. intros H a Ha. apply (find_none _ _ H). apply list_elem_of_In. by rewrite elem_of_reverse.
Qed.

Lemma find_last_is_Some {A} (p : A → bool) l a : a ∈ l → p a = true → is_Some (find_last p l).
Proof.
  intros Ha Hp. destruct (find_last p l) eqn:H; [done|]. by rewrite (find_last_None _ _ H a Ha) in Hp.
Qed.

(** The last element that satisfies [p], given the list split at it. *)
Lemma find_last_app {A} (p : A → bool) l1 a l2 :
  p a = true → Forall (λ b, p b = false) l2 → find_last p (l1 ++ a :: l2) = Some a.
Proof.
  unfold find_last. intros Ha. induction l2 as [|b l2 IH] using rev_ind.
  - intros _. rewrite reverse_snoc. simpl. by rewrite Ha.
  - rewrite Forall_app, Forall_singleton. intros [H2 Hb].
    replace (l1 ++ a :: l2 ++ [b]) with ((l1 ++ a :: l2) ++ [b]) by by rewrite <-app_assoc.
    rewrite reverse_snoc. simpl. rewrite Hb. auto.
Qed.

Lemma filter_none {A} (p : A → bool) l : Forall (λ a, p a = false) l → List.filter p l = [].
Proof. induction 1 as [|a l Ha _ IH]; simpl; [done|]. by rewrite Ha. Qed.

Lemma omap_short {A B} (f : A → option B) l : length (omap f l) ≤ length l.
Proof. induction l as [|a l IH]; [done|]. csimpl. destruct (f a); csimpl; lia. Qed.

(** ** Histories *)

(** The outcomes of effects in a Run. *)
Definition effect_outcomes (l : InMemoryLedgerState) (run : RunId) : list LedgerRecord :=
  List.filter (λ r, bool_decide (lr_record_type r = "effect_outcome")) (run_records l run).

Section history.
Context (sha256 : string → list Byte.byte) (to_vec : Value → string).
Context {D I : Type} `{!Directory D} `{EqDecision I}.
Notation Journal := (Journal D).
Notation Moment := (@Moment I).

(** One operation on the journal, by any context of the process; or an operation
    on the ledger by another component, which writes no outcome of an effect. *)
Inductive journal_step : Journal → Journal → Prop :=
  | js_intent j x (mo : Moment) fences request implementation :
      (ls_next_sequence (jo_ledger j) < u64_max)%Z →
      journal_step j (record_effect_intent sha256 to_vec j x mo fences request implementation).1
  | js_outcome j x now request is_error output :
      journal_step j (record_effect_outcome_canonical sha256 to_vec j x now request is_error output).1
  | js_unknown j x now request reason recovery :
      journal_step j (record_effect_outcome_unknown_with_metadata sha256 to_vec j x now request reason recovery).1
  | js_complete j x now g is_error output :
      journal_step j (complete_canonical sha256 to_vec j x now g is_error output).1.1
  | js_drop j x (mo : Moment) g : journal_step j (drop_guard sha256 to_vec j x mo g)
  | js_remember j id r : journal_step j (remember_process_recovery j id r)
  | js_clear j id : journal_step j (clear_process_recovery j id)
  | js_other j l :
      ledger_step (jo_ledger j) l → (∀ run, effect_outcomes l run = effect_outcomes (jo_ledger j) run) →
      journal_step j (set_ledger j l).

(** What a step does to the ledger: a plain record other than an outcome, or one
    logical append of the outcome of a request. *)
Inductive ledger_move : InMemoryLedgerState → InMemoryLedgerState → Prop :=
  | lm_none l : ledger_move l l
  | lm_other l l' : ledger_step l l' → (∀ run, effect_outcomes l' run = effect_outcomes l run) → ledger_move l l'
  | lm_outcome l run now id payload :
      get_str "effect_id" payload = Some id →
      ledger_move l (compare_and_append to_vec l now run SyncCritical "effect_outcome" ["effect_id"] payload).1.

Lemma intent_effect_outcomes l now run payload run' :
  effect_outcomes (append l now run SyncCritical "effect_intent" payload).1 run' = effect_outcomes l run'.
Proof.
  unfold append. rewrite decide_True by done. cbn [fst]. unfold effect_outcomes. rewrite run_records_push.
  case_decide; [|done]. rewrite List.filter_app. cbn. by rewrite app_nil_r.
Qed.

Lemma with_recovery_fields recovery x request status is_error output output_ref :
  get_str "effect_id" (with_recovery recovery (outcome_fields sha256 x request status is_error output output_ref)) =
  Some (rq_effect_id request).
Proof. by destruct recovery. Qed.

Lemma persist_ledger (j : Journal) x now request payload :
  jo_ledger (persist_canonical_effect_outcome to_vec j x now request payload).1 =
  (compare_and_append to_vec (jo_ledger j) now (xe_run_id x) SyncCritical "effect_outcome" ["effect_id"] payload).1.
Proof.
  unfold persist_canonical_effect_outcome. destruct (compare_and_append _ _ _ _ _ _ _ _) as [l [r|e]]; [done|].
  destruct (List.filter _ _) as [|r rs]; [done|]. destruct (existsb _ rs); [done|].
  destruct (value_eqb _ payload); [done|]. by destruct (payload_is _ _ (lr_payload r)).
Qed.

Lemma write_effect_output_ledger (j : Journal) x output : jo_ledger (write_effect_output sha256 j x output).1 = jo_ledger j.
Proof. unfold write_effect_output. by destruct (write_named _ _ _). Qed.

Lemma outcome_move (j : Journal) x now request is_error output :
  ledger_move (jo_ledger j) (jo_ledger (record_effect_outcome_canonical sha256 to_vec j x now request is_error output).1).
Proof.
  unfold record_effect_outcome_canonical. pose proof (write_effect_output_ledger j x output) as Hl.
  destruct (write_effect_output _ _ _ _) as [j1 [reference|e]]; cbn [sbind fst] in *; rewrite <-Hl; [|constructor].
  rewrite persist_ledger. eapply lm_outcome, with_recovery_fields.
Qed.

Lemma unknown_move (j : Journal) x now request reason recovery :
  ledger_move (jo_ledger j)
    (jo_ledger (record_effect_outcome_unknown_with_metadata sha256 to_vec j x now request reason recovery).1).
Proof.
  unfold record_effect_outcome_unknown_with_metadata. pose proof (write_effect_output_ledger j x reason) as Hl.
  destruct (write_effect_output _ _ _ _) as [j1 [reference|e]]; cbn [sbind fst] in *; rewrite <-Hl; [|constructor].
  match goal with |- context [persist_canonical_effect_outcome ?t ?j ?x ?n ?r ?p] =>
    pose proof (persist_ledger j x n r p) as Hp;
    destruct (persist_canonical_effect_outcome t j x n r p) as [j2 [c|e]] end;
  cbn [sbind fst] in *; rewrite Hp; eapply lm_outcome, with_recovery_fields.
Qed.

Lemma journal_step_move j j' : journal_step j j' → ledger_move (jo_ledger j) (jo_ledger j').
Proof.
  destruct 1 as [j x mo fences request implementation Hseq|j x now request is_error output| |j x now g is_error output
                |j x mo g| | |j l Hl Ho]; try solve [constructor].
  - unfold record_effect_intent, record_effect_intent_with_environment.
    destruct (ensure_session_fence fences); cbn [slift]; [|constructor].
    unfold append_record. pose proof (intent_effect_outcomes (jo_ledger j) (mo_now mo) (xe_run_id x)
      (intent_payload sha256 x request (intent_environment sha256 to_vec mo x request implementation))) as Ho.
    pose proof (st_append (jo_ledger j) (mo_now mo) (xe_run_id x) SyncCritical "effect_intent"
      (intent_payload sha256 x request (intent_environment sha256 to_vec mo x request implementation)) Hseq) as Hs.
    destruct (append _ _ _ _ _ _) as [l [r|e]]; cbn [sbind fst set_ledger jo_ledger] in *; by apply lm_other.
  - apply outcome_move.
  - apply unknown_move.
  - unfold complete_canonical. pose proof (outcome_move j x now (og_request g) is_error output) as H.
    destruct (record_effect_outcome_canonical _ _ _ _ _ _ _ _) as [j1 [c|e]]; exact H.
  - unfold drop_guard, record_effect_outcome_unknown. destruct (_ && _); [apply unknown_move|constructor].
  - by apply lm_other.
Qed.

Lemma ledger_move_steps l l' : ledger_move l l' → rtc ledger_step l l'.
Proof.
  destruct 1 as [l|l l' Hs Ho|l run now id payload Hp]; [constructor|by apply rtc_once|].
  apply rtc_once, st_compare.
Qed.

Lemma journal_steps_prefix j j' run :
  rtc journal_step j j' → run_records (jo_ledger j) run `prefix_of` run_records (jo_ledger j') run.
Proof.
  induction 1 as [j|j j1 j' Hs _ IH]; [done|]. etrans; [|exact IH].
  apply journal_step_move, ledger_move_steps in Hs. clear IH.
  induction Hs as [l|l l1 l' Hs _ IH]; [done|]. etrans; [|exact IH].
  apply ledger_step_shape in Hs as [Hp _]. by apply pushes_prefix.
Qed.

Lemma journal_steps_inv j j' : rtc journal_step j j' → ledger_inv (jo_ledger j) → ledger_inv (jo_ledger j').
Proof.
  induction 1 as [j|j j1 j' Hs _ IH]; [done|]. intros Hi. apply IH.
  apply journal_step_move, ledger_move_steps in Hs. clear IH. revert Hi.
  induction Hs as [l|l l1 l' Hs _ IH]; [done|]. intros Hi. apply IH.
  apply ledger_step_shape in Hs as [Hp _]. by eapply pushes_inv.
Qed.

(** ** One outcome *)

Lemma effect_identity payload id :
  get_str "effect_id" payload = Some id →
  canonical_identity to_vec payload ["effect_id"] = Ok (to_vec (VObject [("effect_id", VString id)])).
Proof.
  unfold get_str, get, canonical_identity. destruct payload as [| | | | |l]; try done.
  destruct (assoc "effect_id" l) as [v|] eqn:Ha; [|done]. destruct v; try done. intros [= ->].
  rewrite decide_True by (apply NoDup_singleton). cbn [ok_or as_object]. 
  change (merge_sort String.le ["effect_id"]) with ["effect_id"]. cbn. by rewrite Ha.
Qed.

(** An identity with no record bound to it. *)
Lemma matching_none ty fields identity l :
  matching_records to_vec ty fields identity l = Ok [] →
  ∀ r, r ∈ l → lr_record_type r = ty → canonical_identity to_vec (lr_payload r) fields ≠ Ok identity.
Proof.
  intros Hm%matching_records_ok r Hr Hty Hi.
  assert (r ∈ bound_records to_vec ty fields identity l) as Hin; [|by rewrite <-Hm in Hin; apply not_elem_of_nil in Hin].
  unfold bound_records. apply list_elem_of_In, List.filter_In. split; [by apply list_elem_of_In|].
  by rewrite Hi, !bool_decide_eq_true_2.
Qed.

(** A logical append of an outcome keeps the ledger, or pushes the first outcome
    of its effect. *)
Lemma outcome_append_cases l now run id payload :
  get_str "effect_id" payload = Some id →
  (compare_and_append to_vec l now run SyncCritical "effect_outcome" ["effect_id"] payload).1 = l ∨
  ∃ seq, compare_and_append to_vec l now run SyncCritical "effect_outcome" ["effect_id"] payload =
           (push_record l (make_record seq run now SyncCritical "effect_outcome" payload),
            Ok (make_record seq run now SyncCritical "effect_outcome" payload)) ∧
         checked_add (ls_next_sequence l) 1 = Some seq ∧
         Forall (λ r, is_outcome id r = false) (run_records l run).
Proof.
  intros Hp. unfold compare_and_append. change (require_durable SyncCritical) with (@Ok unit LedgerError tt).
  rewrite (effect_identity _ _ Hp). cbn [slift].
  destruct (matching_records _ _ _ _ _) as [[|r [|]]|] eqn:Hm; cbn [slift]; try by left.
  destruct (checked_add _ _) as [seq|] eqn:Hseq; cbn [slift ok_or]; [|by left]. right. exists seq. split_and!; [done..|].
  apply Forall_forall. intros r Hr. unfold is_outcome, payload_is.
  destruct (bool_decide (lr_record_type r = _)) eqn:Hty; [|done]. apply bool_decide_eq_true in Hty.
  apply bool_decide_eq_false. intros Hid%effect_identity. by apply (matching_none _ _ _ _ Hm r Hr Hty).
Qed.

Lemma is_outcome_payload id seq run now d payload :
  is_outcome id (make_record seq run now d "effect_outcome" payload) = bool_decide (get_str "effect_id" payload = Some id).
Proof. done. Qed.

(** The outcomes of one effect. *)
Definition outcomes_of (id : EffectId) (l : InMemoryLedgerState) (run : RunId) : list LedgerRecord :=
  List.filter (is_outcome id) (run_records l run).

Lemma outcomes_of_effects id l run : outcomes_of id l run = List.filter (is_outcome id) (effect_outcomes l run).
Proof.
  unfold outcomes_of, effect_outcomes. induction (run_records l run) as [|r rs IH]; [done|]. simpl.
  destruct (bool_decide (lr_record_type r = _)) eqn:Hty; simpl; [by rewrite IH|].
  assert (is_outcome id r = false) as -> by (unfold is_outcome; by rewrite Hty). done.
Qed.

Lemma ledger_move_single l l' :
  ledger_move l l' → (∀ run id, length (outcomes_of id l run) ≤ 1) → ∀ run id, length (outcomes_of id l' run) ≤ 1.
Proof.
  destruct 1 as [l|l l' Hs Ho|l run now id payload Hp]; intros Hi; [done| |].
  - intros run id. rewrite outcomes_of_effects, Ho, <-outcomes_of_effects. apply Hi.
  - destruct (outcome_append_cases l now run id payload Hp) as [->|(seq & -> & _ & Hf)]; [done|].
    intros run' id'. cbn [fst]. unfold outcomes_of. rewrite run_records_push. case_decide as Hrun; [|apply Hi].
    cbn [make_record lr_run_id] in Hrun. subst run'. rewrite List.filter_app. cbn [List.filter].
    rewrite is_outcome_payload. case_bool_decide as Hid; [|rewrite app_nil_r; apply Hi].
    assert (id' = id) as -> by congruence. by rewrite filter_none.
Qed.
End history.

(** C18: whatever contexts of a process record intents and outcomes, cancel effects
    and remember process recoveries, in any order and with failures of the store or of
    a session fence at any point, an effect of a Run has at most one outcome in the
    ledger: an outcome is appended only as the first of its effect. *)
Theorem single_effect_outcome sha256 to_vec {D I} `{!Directory D} `{EqDecision I} (j j' : Journal D) run id :
  jo_ledger j = ledger_default →
  rtc (journal_step sha256 to_vec (I:=I)) j j' →
  length (outcomes_of id (jo_ledger j') run) ≤ 1.
Proof.
  intros Hj Hs. revert run id.
  assert (∀ run id, length (outcomes_of id (jo_ledger j) run) ≤ 1) as Hi.
  { intros run id. rewrite Hj. unfold outcomes_of, run_records. simpl. rewrite lookup_empty. simpl. lia. }
  clear Hj. induction Hs as [j|j j1 j' Hs _ IH]; [done|]. apply IH. eapply ledger_move_single; [|done].
  by eapply journal_step_move.
Qed.

(** ** Effects that were started *)

Section started.
Context (sha256 : string → list Byte.byte) (to_vec : Value → string).
Context {D I : Type} `{!Directory D} `{EqDecision I}.
Notation Journal := (Journal D).
Notation Moment := (@Moment I).

(** An intent that succeeds is the last record of its Run. *)
Lemma intent_recorded (j j' : Journal) x (mo : Moment) fences request implementation :
  record_effect_intent sha256 to_vec j x mo fences request implementation = (j', Ok tt) →
  let payload := intent_payload sha256 x request (intent_environment sha256 to_vec mo x request implementation) in
  let r := make_record (saturating_add (ls_next_sequence (jo_ledger j)) 1) (xe_run_id x) (mo_now mo) SyncCritical
             "effect_intent" payload in
  j' = set_ledger j (push_record (jo_ledger j) r) ∧ journal_records j' x = journal_records j x ++ [r].
Proof.
  intros H payload r. revert H.
  unfold record_effect_intent, record_effect_intent_with_environment, append_record, append.
  rewrite decide_True by done. destruct (ensure_session_fence fences); cbn [slift sbind]; [|done].
  intros H. apply (f_equal fst) in H. cbn [fst] in H. subst j'. split; [done|].
  unfold journal_records. cbn [set_ledger jo_ledger]. rewrite run_records_push. by rewrite decide_True.
Qed.

Lemma intent_is_intent x request (e : OperationEnvironmentSnapshot) seq run now d :
  is_intent (rq_effect_id request) (make_record seq run now d "effect_intent" (intent_payload sha256 x request e)) = true.
Proof. unfold is_intent, payload_is. cbn [make_record lr_record_type lr_payload]. by rewrite !bool_decide_eq_true_2. Qed.

(** Environments are compatible only when they are equal. *)
Lemma compatible_eq recorded current : compatibility_decision recorded current = Compatible → recorded = current.
Proof.
  unfold compatibility_decision. destruct (decide (recorded = current)); [done|].
  destruct (implementation_changed _ _); [done|]. by destruct (tools_compatible _ _).
Qed.

Lemma from_outcomes_no_execute (j : Journal) x request digest first others :
  decide_from_outcomes sha256 j x request digest first others ≠ Execute.
Proof.
  unfold decide_from_outcomes. destruct (check_outcomes _ _ _ _ _ _) as [outputs|]; [|done].
  destruct (existsb _ _); [done|]. destruct (payload_is _ _ _); [done|]. by destruct outputs as [|[]].
Qed.

(** What it takes to execute an effect that has an intent. *)
Record repeatable (j : Journal) (x : EffectContext) (mo : Moment) (request : EffectRequest)
    (implementation : option ImplementationIdentity) (intent : LedgerRecord) : Prop := {
  rp_read_only : ed_class (rq_descriptor request) = ReadOnly;
  rp_replay_safe : ed_replay_policy (rq_descriptor request) = ReplaySafe;
  rp_same_effect : intent_matches sha256 to_vec request (lr_payload intent) = true;
  rp_same_environment : (get "environment" (lr_payload intent) ≫= from_value) =
    Some (intent_environment sha256 to_vec mo x request implementation);
  rp_no_outcome : outcomes_after intent request (journal_records j x) = [];
}.

Lemma recover_execute (j : Journal) x mo request implementation intent :
  find_last (is_intent (rq_effect_id request)) (journal_records j x) = Some intent →
  recover_effect sha256 to_vec j x mo request implementation = Ok Execute →
  repeatable j x mo request implementation intent.
Proof.
  intros Hf. unfold recover_effect. rewrite Hf.
  destruct (intent_matches _ _ _ _) eqn:Hm; cbn [negb]; [|done].
  destruct (get "environment" _) as [v|] eqn:Hv; cbn [ok_or rbind]; [|done].
  destruct (from_value v) as [recorded|] eqn:Hr; cbn [ok_or rbind]; [|done].
  destruct (_ || _); [done|]. destruct (compatibility_decision _ _) eqn:Hc; [|done..].
  apply compatible_eq in Hc. destruct (outcomes_after _ _ _) eqn:Ho.
  - destruct (bool_decide (ed_class _ = _)) eqn:H1; [|done]. destruct (bool_decide (ed_replay_policy _ = _)) eqn:H2; [|done].
    intros _. apply bool_decide_eq_true in H1, H2. split; [done..| |done]. rewrite Hv. rewrite <-Hc. exact Hr.
  - intros H. injection H as H. by apply from_outcomes_no_execute in H.
Qed.
End started.

(** C16: an effect that was started is not started again.  Once the intent of an
    effect is in the ledger, whatever operations follow, asking again for the
    same effect in the Run answers that it may be executed only for a read-only,
    replay-safe effect, whose latest intent names the same operation, input and
    descriptor and was made in exactly the current environment, and after which no
    outcome of the effect or of its operation was recorded. *)
Theorem started_effect_not_repeated sha256 to_vec {D I} `{!Directory D} `{EqDecision I} (j j1 j2 : Journal D)
    (x x' : EffectContext) (mo mo' : @Moment I) fences request request' implementation implementation' :
  record_effect_intent sha256 to_vec j x mo fences request implementation = (j1, Ok tt) →
  rtc (journal_step sha256 to_vec (I:=I)) j1 j2 →
  xe_run_id x' = xe_run_id x → rq_effect_id request' = rq_effect_id request →
  recover_effect sha256 to_vec j2 x' mo' request' implementation' = Ok Execute →
  ∃ before intent after, journal_records j2 x' = before ++ intent :: after ∧
    is_intent (rq_effect_id request) intent = true ∧
    Forall (λ r, is_intent (rq_effect_id request) r = false) after ∧
    repeatable sha256 to_vec j2 x' mo' request' implementation' intent.
Proof.
  intros (-> & Hrec)%intent_recorded Hs Hx Hid Hr.
  apply (journal_steps_prefix _ _ _ _ (xe_run_id x)) in Hs as [l Hl].
  set (r := make_record _ _ _ _ _ _) in *.
  assert (r ∈ journal_records j2 x') as Hin.
  { unfold journal_records in *. rewrite Hx, Hl, Hrec. set_solver. }
  destruct (find_last_is_Some (is_intent (rq_effect_id request)) _ r Hin) as [intent Hf]; [apply intent_is_intent|].
  apply find_last_Some in Hf as Hf'. destruct Hf' as (l1 & l2 & Hl' & Hi & Hlast). exists l1, intent, l2.
  split_and!; [done..|]. eapply recover_execute; [|done]. by rewrite Hid.
Qed.

(** ** Attempts *)

Section attempts.
Context {D : Type}.
Notation Journal := (Journal D).

(** An attempt is completed when an outcome follows its latest intent. *)
Definition attempt_completed (records : list LedgerRecord) (id : EffectId) : bool :=
  match find_last (is_intent id) records with
  | Some intent => existsb (λ r, is_outcome id r && bool_decide (lr_seq intent < lr_seq r)%Z) records
  | None => false
  end.
Definition attempt_call (base : string) (n : nat) : string := base +:+ ":attempt:" +:+ decimal (Z.of_nat n).
Definition attempt_effect (x : EffectContext) (base : string) (n : nat) : EffectId :=
  effect_id_for_call x (attempt_call base n).

Lemma first_open_spec records x base start count :
  match first_open_attempt records x base (seq start count) with
  | Ok call => ∃ n, start ≤ n < start + count ∧ call = attempt_call base n ∧
      attempt_completed records (attempt_effect x base n) = false ∧
      ∀ m, start ≤ m < n → attempt_completed records (attempt_effect x base m) = true
  | Err _ => ∀ m, start ≤ m < start + count → attempt_completed records (attempt_effect x base m) = true
  end.
Proof.
  revert start. induction count as [|count IH]; intros start; cbn [seq first_open_attempt]; [intros m; lia|].
  assert (attempt_completed records (attempt_effect x base start) = false →
    ∃ n, start ≤ n < start + S count ∧ attempt_call base start = attempt_call base n ∧
      attempt_completed records (attempt_effect x base n) = false ∧
      ∀ m, start ≤ m < n → attempt_completed records (attempt_effect x base m) = true) as Hopen.
  { intros H. exists start. split_and!; [lia|lia|done|done|]. intros m. lia. }
  revert Hopen. unfold attempt_completed at 1. change (effect_id_for_call x _) with (attempt_effect x base start).
  destruct (find_last _ records) as [intent|] eqn:Hf; [|auto].
  destruct (existsb _ records) eqn:He; [intros _|auto].
  assert (attempt_completed records (attempt_effect x base start) = true) as Hs by (unfold attempt_completed; by rewrite Hf).
  specialize (IH (S start)). destruct (first_open_attempt _ _ _ _).
  - destruct IH as (n & Hn & Hc & Ho & Hm). exists n. split_and!; [lia|lia|done|done|].
    intros m ?. destruct (decide (m = start)) as [->|]; [done|]. apply Hm. lia.
  - intros m ?. destruct (decide (m = start)) as [->|]; [done|]. apply IH. lia.
Qed.

Lemma completed_recorded records id :
  attempt_completed records id = true → id ∈ omap (λ r, get_str "effect_id" (lr_payload r)) records.
Proof.
  unfold attempt_completed. destruct (find_last _ records) as [intent|] eqn:Hf; [|done]. intros _.
  apply find_last_Some in Hf as (l1 & l2 & -> & Hi & _). unfold is_intent, payload_is in Hi.
  apply andb_true_iff in Hi as [_ Hi%bool_decide_eq_true]. apply list_elem_of_omap. exists intent. split; [set_solver|done].
Qed.

Lemma attempt_effect_inj x base n m :
  is_u64 (Z.of_nat n) → is_u64 (Z.of_nat m) → attempt_effect x base n = attempt_effect x base m → n = m.
Proof.
  intros Hn Hm. unfold attempt_effect, effect_id_for_call, attempt_call. intros H.
  repeat apply (inj (String.append _)) in H. apply decimal_inj in H; [|done..]. lia.
Qed.
End attempts.

(** C40: the search for an attempt number ends within its bound: on any journal there
    is a number at most one above the number of records whose attempt is not
    completed, the least such is returned, and every attempt before it is completed;
    the error of an exceeded bound never occurs. *)
Theorem attempt_id_found {D} (j : Journal D) (x : EffectContext) (base : string) :
  (Z.of_nat (length (journal_records j x)) < u64_max)%Z →
  ∃ n, 1 ≤ n ≤ S (length (journal_records j x)) ∧
    stable_effect_attempt_id j x base = Ok (attempt_call base n) ∧
    attempt_completed (journal_records j x) (attempt_effect x base n) = false ∧
    ∀ m, 1 ≤ m < n → attempt_completed (journal_records j x) (attempt_effect x base m) = true.
Proof.
  intros Hlen. unfold stable_effect_attempt_id. set (records := journal_records j x) in *.
  pose proof (first_open_spec records x base 1 (S (length records))) as H.
  destruct (first_open_attempt _ _ _ _) as [call|e].
  - destruct H as (n & Hn & -> & Ho & Hm). exists n. split_and!; [lia|lia|done..].
  - exfalso. set (ids := attempt_effect x base <$> seq 1 (S (length records))).
    assert (NoDup ids) as Hnd.
    { apply NoDup_fmap_2_strong; [|apply NoDup_seq]. intros a b Ha%elem_of_seq Hb%elem_of_seq.
      apply attempt_effect_inj; unfold is_u64; lia. }
    assert (ids ⊆ omap (λ r, get_str "effect_id" (lr_payload r)) records) as Hsub.
    { intros id (m & -> & Hm%elem_of_seq)%list_elem_of_fmap. apply completed_recorded, H. lia. }
    apply NoDup_submseteq, submseteq_length in Hsub; [|done]. unfold ids in Hsub.
    rewrite length_fmap, length_seq in Hsub.
    pose proof (omap_short (λ r, get_str "effect_id" (lr_payload r)) records). lia.
Qed.

(** * The outcome of an effect is reused

    An effect whose intent and outcome are recorded is not executed again in the
    same environment: recovery gives the recorded output, read back from its file. *)
(** ** References of outputs *)

Lemma any_byte_app f a b : any_byte f (a +:+ b) = any_byte f a || any_byte f b.
Proof. induction a as [|c a IH]; [done|]. change (String c a +:+ b) with (String c (a +:+ b)). cbn [any_byte].
  rewrite IH. by rewrite orb_assoc. Qed.

Lemma any_byte_impl f g s : (∀ c, f c = true → g c = true) → any_byte g s = false → any_byte f s = false.
Proof.
  intros Hfg. induction s as [|c s IH]; [done|]. cbn. rewrite !orb_false_iff. intros [Hc Hs]. split; [|auto].
  destruct (f c) eqn:Hf; [|done]. by rewrite Hfg in Hc.
Qed.

Lemma split_on_absent c s : any_byte (λ a, bool_decide (a = c)) s = false → split_on c s = [s].
Proof.
  induction s as [|a s IH]; [done|]. cbn. rewrite orb_false_iff. intros [Ha Hs]. rewrite IH by done.
  apply bool_decide_eq_false in Ha. by destruct (decide (a = c)).
Qed.

Lemma drop_bytes_app a b : drop_bytes (String.length a) (a +:+ b) = b.
Proof. induction a as [|c a IH]; [by destruct b|]. exact IH. Qed.
Lemma take_bytes_app a b : take_bytes (String.length a) (a +:+ b) = a.
Proof. induction a as [|c a IH]; [by destruct b|]. change (String c a +:+ b) with (String c (a +:+ b)). 
  cbn [take_bytes String.length]. by rewrite IH. Qed.
Lemma string_length_app a b : String.length (a +:+ b) = String.length a + String.length b.
Proof. induction a as [|c a IH]; [done|]. change (String c a +:+ b) with (String c (a +:+ b)). 
  cbn [String.length]. by rewrite IH. Qed.

Lemma strip_suffix_app p s : strip_suffix p (s +:+ p) = Some s.
Proof.
  unfold strip_suffix, ends_with. rewrite string_length_app.
  replace (String.length s + String.length p - String.length p) with (String.length s) by lia.
  rewrite drop_bytes_app, take_bytes_app, bool_decide_eq_true_2 by done.
  assert (String.length p <=? String.length s + String.length p = true) as -> by (apply Nat.leb_le; lia). done.
Qed.

(** A name of one component. *)
Lemma components_name a s :
  any_byte (λ c, bool_decide (c = "/"%char)) (String a s) = false → a ≠ "."%char →
  components (String a s) = [Normal (String a s)].
Proof.
  intros Hs Ha. unfold components. rewrite split_on_absent by done.
  assert (is_absolute_str (String a s) = false) as ->.
  { cbn [any_byte] in Hs. apply orb_false_iff in Hs as [Hs _]. apply bool_decide_eq_false in Hs.
    unfold is_absolute_str, starts_with. cbn [String.prefix]. by destruct (Ascii.ascii_dec "/" a). }
  assert (List.filter nonempty_string [String a s] = [String a s]) as -> by done.
  assert (String a s ≠ "." ∧ String a s ≠ "..") as [H1 H2] by (split; congruence).
  assert (List.filter (λ p, negb (bool_decide (p = "."))) [String a s] = [String a s]) as ->.
  { cbn [List.filter]. by rewrite bool_decide_eq_false_2. }
  cbn [fmap list_fmap]. unfold component_of. rewrite decide_False by done.
  destruct a as [[] [] [] [] [] [] [] []]; try done; by destruct s.
Qed.

Section reuse.
Context (sha256 : string → list Byte.byte) (to_vec : Value → string).
Context (Hsha : ∀ x, length (sha256 x) = 32).

Lemma hex_is_sha256 s : is_sha256_hex (stable_digest_bytes sha256 s) = true.
Proof.
  unfold is_sha256_hex, stable_digest_bytes. apply andb_true_iff. split.
  - apply bool_decide_eq_true. unfold byte_len. by rewrite lower_hex_length, Hsha.
  - unfold all_bytes. rewrite (any_byte_impl _ (λ a, negb (is_lower_hex a))); [done| |apply any_byte_lower_hex].
    intros c. by destruct c as [[] [] [] [] [] [] [] []].
Qed.

Lemma reference_digest_output output :
  reference_digest (output_reference sha256 output) = Ok (stable_digest_bytes sha256 output).
Proof.
  unfold reference_digest, validate_reference, output_reference. set (hex := stable_digest_bytes sha256 output).
  assert (components ("sha256-" +:+ hex +:+ ".blob") = [Normal ("sha256-" +:+ hex +:+ ".blob")]) as ->.
  { apply components_name; [|done]. change (any_byte ?f (String _ _)) with (any_byte f ("sha256-" +:+ hex +:+ ".blob")).
    rewrite !any_byte_app. apply orb_false_iff. split; [done|]. apply orb_false_iff. split; [|done].
    eapply any_byte_impl; [|apply any_byte_lower_hex]. intros c Hc%bool_decide_eq_true. by subst c. }
  cbn [rbind]. assert (strip_suffix ".blob" ("sha256-" +:+ hex +:+ ".blob") = Some ("sha256-" +:+ hex)) as ->
    by exact (strip_suffix_app ".blob" ("sha256-" +:+ hex)).
  cbn [ok_or rbind]. rewrite strip_prefix_app. cbn [rbind]. unfold hex. by rewrite hex_is_sha256.
Qed.

Lemma output_reference_inj a b : output_reference sha256 a = output_reference sha256 b → sha256 a = sha256 b.
Proof.
  unfold output_reference, stable_digest_bytes. intros H.
  apply string_app_inj_length in H as [_ H]; [|done].
  apply string_app_inj_length in H as [H _]; [by apply lower_hex_inj|]. by rewrite !lower_hex_length, !Hsha.
Qed.

(** ** What is recorded is read back *)

Lemma audit_projection_ok d : descriptor_ok d → serde_ok (from_descriptor sha256 d).
Proof.
  intros [_ Hr%canonical_ok]. split; cbn [from_descriptor ap_resources ap_executables].
  - destruct (audit_resources_ok sha256 Hsha _ Hr) as [_ H]. eapply Forall_impl; [exact H|]. by intros r (Hc & _).
  - destruct (executables_ok sha256 Hsha _ (fo_invocations _ Hr)) as [_ H]. eapply Forall_impl; [exact H|].
    by intros i (_ & Hc & _).
Qed.

Lemma recorded_descriptor_digest payload d :
  descriptor_ok d → get "effect" payload = Some (to_value (from_descriptor sha256 d)) →
  payload_effect_descriptor_digest sha256 payload = Some (ap_descriptor_digest (from_descriptor sha256 d)).
Proof.
  intros Hd Hg. unfold payload_effect_descriptor_digest. rewrite Hg.
  assert (effect_descriptor_digest (to_value (from_descriptor sha256 d)) =
    Some (ap_descriptor_digest (from_descriptor sha256 d))) as He.
  { unfold effect_descriptor_digest. rewrite from_to_value by by apply audit_projection_ok. done. }
  change (Some ?a ≫= effect_descriptor_digest) with (effect_descriptor_digest a). by rewrite He.
Qed.

Lemma payload_eq_get k v payload : value_wf v → get k payload = Some v → payload_eq k v payload = true.
Proof. intros Hv Hg. unfold payload_eq. rewrite Hg. by apply value_eqb_refl. Qed.

Lemma opt_string_wf (o : option string) : value_wf (opt_value o).
Proof. by destruct o. Qed.

Lemma intent_matches_recorded x request e :
  descriptor_ok (rq_descriptor request) → intent_matches sha256 to_vec request (intent_payload sha256 x request e) = true.
Proof.
  intros Hd. unfold intent_matches.
  rewrite (payload_eq_get "operation_id"); [|done|reflexivity].
  rewrite (payload_eq_get "input_digest"); [|apply opt_string_wf|reflexivity].
  unfold same_descriptor_digest. rewrite (recorded_descriptor_digest _ (rq_descriptor request)); [|done|reflexivity].
  by rewrite bool_decide_eq_true_2.
Qed.

Section store.
Context {D I : Type} `{!Directory D, !DirectoryLaws D} `{EqDecision I}.
Notation Journal := (Journal D).
Notation Moment := (@Moment I).
Context (output : string) (Hpre : ∀ s, sha256 s = sha256 output → s = output).

(** The output is in the directory of the Run. *)
Definition output_held (run : RunId) (j : Journal) : Prop :=
  ∃ d, os_root (jo_outputs j run) = Some d ∧ dir_read d (output_reference sha256 output) = ReadBytes output.

Lemma write_keeps (d d' : D) s r :
  dir_write d (output_reference sha256 s) s = (d', r) →
  dir_read d (output_reference sha256 output) = ReadBytes output →
  dir_read d' (output_reference sha256 output) = ReadBytes output.
Proof.
  intros Hw Hr. destruct (decide (output_reference sha256 output = output_reference sha256 s)) as [He|Hne].
  - assert (s = output) as -> by by eapply Hpre, output_reference_inj, eq_sym.
    destruct r as [[]|e]; [by apply dir_read_written in Hw|]. apply dir_read_failed in Hw as [->|]; done.
  - by rewrite (dir_read_other _ _ _ _ _ _ Hw).
Qed.

Lemma write_output_held run (j : Journal) x s :
  output_held run j → output_held run (write_effect_output sha256 j x s).1.
Proof.
  intros (d & Hd & Hr). unfold write_effect_output, write_named.
  destruct (os_root (jo_outputs j (xe_run_id x))) as [root|] eqn:Hroot.
  - destruct (os_global _) as [[]|]; cbn [slift]; [..|].
    + exists d. split; [|done]. cbn. by destruct (decide (run = xe_run_id x)) as [->|].
    + destruct (dir_write root _ s) as [root' r] eqn:Hw. unfold output_held. cbn.
      destruct (decide (run = xe_run_id x)) as [->|]; [|by exists d].
      exists root'. split; [done|]. eapply write_keeps; [done|]. congruence.
    + exists d. split; [|done]. cbn. by destruct (decide (run = xe_run_id x)) as [->|].
  - exists d. split; [|done]. cbn. by destruct (decide (run = xe_run_id x)) as [->|].
Qed.

Lemma persist_outputs (j : Journal) x now request payload :
  jo_outputs (persist_canonical_effect_outcome to_vec j x now request payload).1 = jo_outputs j.
Proof.
  unfold persist_canonical_effect_outcome. destruct (compare_and_append _ _ _ _ _ _ _ _) as [l [r|e]]; [done|].
  destruct (List.filter _ _) as [|r rs]; [done|]. destruct (existsb _ rs); [done|].
  destruct (value_eqb _ payload); [done|]. by destruct (payload_is _ _ (lr_payload r)).
Qed.

Lemma output_held_eq run (j j' : Journal) : jo_outputs j' = jo_outputs j → output_held run j → output_held run j'.
Proof. unfold output_held. by intros ->. Qed.

Lemma outcome_held run (j : Journal) x now request is_error s :
  output_held run j → output_held run (record_effect_outcome_canonical sha256 to_vec j x now request is_error s).1.
Proof.
  intros H. apply (write_output_held _ _ x s) in H. unfold record_effect_outcome_canonical.
  destruct (write_effect_output _ _ _ _) as [j1 [reference|e]]; cbn [sbind fst] in *; [|done].
  eapply output_held_eq; [apply persist_outputs|done].
Qed.

Lemma unknown_held run (j : Journal) x now request reason recovery :
  output_held run j →
  output_held run (record_effect_outcome_unknown_with_metadata sha256 to_vec j x now request reason recovery).1.
Proof.
  intros H. apply (write_output_held _ _ x reason) in H. unfold record_effect_outcome_unknown_with_metadata.
  destruct (write_effect_output _ _ _ _) as [j1 [reference|e]]; cbn [sbind fst] in *; [|done].
  match goal with |- context [persist_canonical_effect_outcome ?t ?j ?x ?n ?r ?p] =>
    pose proof (persist_outputs j x n r p) as Hp;
    destruct (persist_canonical_effect_outcome t j x n r p) as [j2 [c|e]] end;
  by eapply output_held_eq.
Qed.

Lemma journal_step_held run j j' : journal_step sha256 to_vec (I:=I) j j' → output_held run j → output_held run j'.
Proof.
  destruct 1 as [j x mo fences request implementation Hseq|j x now request is_error out| |j x now g is_error out
                |j x mo g| | |j l Hl Ho]; intros H; try done.
  - unfold record_effect_intent, record_effect_intent_with_environment, append_record.
    destruct (ensure_session_fence fences); cbn [slift]; [|done]. by destruct (append _ _ _ _ _ _) as [l [r|e]].
  - by apply outcome_held.
  - by apply unknown_held.
  - unfold complete_canonical. pose proof (outcome_held run j x now (og_request g) is_error out H) as H'.
    by destruct (record_effect_outcome_canonical _ _ _ _ _ _ _ _) as [j1 [c|e]].
  - unfold drop_guard, record_effect_outcome_unknown. destruct (_ && _); [|done].
    eapply output_held_eq; [|by apply unknown_held]. done.
Qed.

Lemma journal_steps_held run j j' :
  rtc (journal_step sha256 to_vec (I:=I)) j j' → output_held run j → output_held run j'.
Proof. induction 1 as [|j j1 j' Hs _ IH]; [done|]. intros H. apply IH. by eapply journal_step_held. Qed.

Lemma output_held_read run (j : Journal) :
  valid_utf8 output = true → output_held run j →
  read_output sha256 (jo_outputs j run) (output_reference sha256 output) = Ok output.
Proof.
  intros Hu (d & Hd & Hr). unfold read_output. rewrite reference_digest_output. cbn [rbind]. rewrite Hd.
  unfold read_utf8. rewrite Hr. rewrite decide_False by tauto. by rewrite Hu.
Qed.

(** ** The records of an effect *)

(** A payload equal to one that names an effect names it too. *)
Lemma same_payload_effect v payload id :
  is_Some (get "effect_id" v) → value_eqb v payload = true → get_str "effect_id" payload = Some id →
  get_str "effect_id" v = Some id.
Proof.
  intros [w Hw] He Hp. destruct v as [| | | | |xs]; try done. destruct payload as [| | | | |ys]; try done.
  apply value_eqb_object in He as [_ He]. cbn [get] in Hw. apply assoc_elem_of in Hw as Hin.
  apply (proj1 (Forall_forall _ _) He) in Hin as (y & Hy & Hwy). cbn [fst snd] in Hy, Hwy.
  unfold get_str in *. cbn [get] in *. rewrite Hy in Hp. rewrite Hw. destruct y; try done.
  injection Hp as ->. destruct w; try done. cbn in Hwy. apply bool_decide_eq_true in Hwy as ->. done.
Qed.

(** A record bound to an identity has the field. *)
Lemma identity_field v identity :
  canonical_identity to_vec v ["effect_id"] = Ok identity → is_Some (get "effect_id" v).
Proof.
  unfold canonical_identity, get. rewrite decide_True by apply NoDup_singleton.
  destruct v as [| | | | |l]; try done. change (merge_sort String.le ["effect_id"]) with ["effect_id"].
  cbn [ok_or as_object rbind fold_result]. by destruct (assoc "effect_id" l).
Qed.

Lemma bound_is_outcome identity l r payload id :
  r ∈ bound_records to_vec "effect_outcome" ["effect_id"] identity l →
  value_eqb (lr_payload r) payload = true → get_str "effect_id" payload = Some id →
  r ∈ List.filter (is_outcome id) l.
Proof.
  unfold bound_records. intros [Hr Hb]%list_elem_of_In%List.filter_In He Hp.
  apply andb_true_iff in Hb as [Hty%bool_decide_eq_true Hb].
  destruct (canonical_identity to_vec (lr_payload r) ["effect_id"]) as [i|] eqn:Hi; [|done].
  apply list_elem_of_In, List.filter_In. split; [done|]. unfold is_outcome, payload_is.
  rewrite bool_decide_eq_true_2 by done. apply bool_decide_eq_true.
  eapply same_payload_effect; [by eapply identity_field|done|done].
Qed.

(** Without an outcome of the effect, an outcome that is committed is appended. *)
Lemma persist_appends (j j' : Journal) x now request payload c :
  get_str "effect_id" payload = Some (rq_effect_id request) →
  outcomes_of (rq_effect_id request) (jo_ledger j) (xe_run_id x) = [] →
  persist_canonical_effect_outcome to_vec j x now request payload = (j', Ok c) →
  c = (if payload_is "status" "outcome_unknown" payload then OutcomeUnknownCompletion else Committed) ∧
  jo_outputs j' = jo_outputs j ∧
  ∃ seq, journal_records j' x =
    journal_records j x ++ [make_record seq (xe_run_id x) now SyncCritical "effect_outcome" payload].
Proof.
  intros Hp Ho. unfold persist_canonical_effect_outcome.
  pose proof (compare_and_append_shape to_vec (jo_ledger j) now (xe_run_id x) SyncCritical "effect_outcome" ["effect_id"]
    payload) as Hshape.
  destruct (compare_and_append _ _ _ _ _ _ _ _) as [l [r|e]] eqn:Hc.
  - intros H. injection H as <- <-. split_and!; [done..|].
    apply compare_and_append_ok in Hc as (identity & ms & _ & _ & Hm%matching_records_ok & Hc).
    destruct Hc as [(-> & _ & He)|(_ & seq & _ & -> & ->)].
    + exfalso. pose proof (bound_is_outcome identity (run_records (jo_ledger j) (xe_run_id x)) r _ _
        ltac:(rewrite <-Hm; by left) He Hp) as Hin.
      unfold outcomes_of in Ho. rewrite Ho in Hin. by apply not_elem_of_nil in Hin.
    + exists seq. unfold journal_records. cbn [set_ledger jo_ledger]. rewrite run_records_push. by rewrite decide_True.
  - destruct Hshape as [Hl|(r & _ & _ & _ & [=])]. cbn [fst] in Hl. subst l. unfold journal_records, outcomes_of in *. cbn [set_ledger jo_ledger].
    by rewrite Ho.
Qed.

(** The fields of an outcome that is not unknown. *)
Definition committed_payload (x : EffectContext) (request : EffectRequest) (is_error : bool) : Value :=
  VObject (outcome_fields sha256 x request (if is_error then "failed" else "executed") is_error output
             (output_reference sha256 output)).

Lemma outcome_recorded (j j' : Journal) x now request is_error :
  outcomes_of (rq_effect_id request) (jo_ledger j) (xe_run_id x) = [] →
  record_effect_outcome_canonical sha256 to_vec j x now request is_error output = (j', Ok Committed) →
  output_held (xe_run_id x) j' ∧
  ∃ seq, journal_records j' x = journal_records j x ++
    [make_record seq (xe_run_id x) now SyncCritical "effect_outcome" (committed_payload x request is_error)].
Proof.
  intros Ho. unfold record_effect_outcome_canonical, write_effect_output, write_named.
  destruct (os_root _) as [root|] eqn:Hroot; cbn [sbind]; [|done].
  destruct (os_global _) as [[]|] eqn:Hg; cbn [slift sbind]; [done| |done].
  destruct (dir_write root _ output) as [root' [[]|e]] eqn:Hw; cbn [sbind]; [|done].
  set (j1 := set_outputs j _ _). intros H.
  apply persist_appends in H as (Hc & Hout & seq & Hrec); [|by apply with_recovery_fields|done].
  destruct (jo_recoveries j1 !! rq_effect_id request) as [recovery|] eqn:Hrecov; [done|].
  split.
  - exists root'. split; [|by apply dir_read_written in Hw]. rewrite Hout. unfold j1. cbn. by rewrite decide_True.
  - exists seq. rewrite Hrec. unfold committed_payload. cbn [fmap option_fmap option_map with_recovery].
    rewrite bool_decide_eq_false_2 by (by intros []). by rewrite orb_false_r.
Qed.

(** Records about the effect of a request. *)
Definition concerns (request : EffectRequest) (r : LedgerRecord) : bool :=
  is_intent (rq_effect_id request) r ||
  bool_decide (lr_record_type r = "effect_outcome") &&
    (payload_is "effect_id" (rq_effect_id request) (lr_payload r) ||
     payload_is "operation_id" (rq_operation_id request) (lr_payload r)).

Lemma check_committed (j : Journal) x request is_error seq run now :
  valid_utf8 output = true → descriptor_ok (rq_descriptor request) → output_held (xe_run_id x) j →
  decide_from_outcomes sha256 j x request (Some (ap_descriptor_digest (from_descriptor sha256 (rq_descriptor request))))
    (make_record seq run now SyncCritical "effect_outcome" (committed_payload x request is_error)) [] = Reuse is_error output.
Proof.
  intros Hu Hd Hh. set (payload := committed_payload x request is_error).
  assert (check_outcome sha256 j x request (Some (ap_descriptor_digest (from_descriptor sha256 (rq_descriptor request))))
    payload = Ok (Some output)) as Hcheck.
  { unfold check_outcome, same_descriptor_digest.
    rewrite (recorded_descriptor_digest payload (rq_descriptor request)) by done.
    rewrite (payload_eq_get "effect_id") by done. rewrite (payload_eq_get "operation_id") by done.
    rewrite (payload_eq_get "input_digest"); [|apply opt_string_wf|reflexivity].
    rewrite !bool_decide_eq_true_2 by done. cbn [negb orb andb].
    assert (payload_is "status" "outcome_unknown" payload = false) as -> by by destruct is_error.
    assert (get_str "output_ref" payload = Some (output_reference sha256 output)) as -> by reflexivity. cbn [ok_or rbind].
    rewrite output_held_read by done.
    assert (payload_u64 "output_bytes" payload = Some (byte_len output)) as -> by reflexivity.
    assert (get_str "output_digest" payload = Some (stable_digest_bytes sha256 output)) as -> by reflexivity.
    by rewrite !bool_decide_eq_true_2. }
  unfold decide_from_outcomes. cbn [check_outcomes make_record lr_payload]. fold payload. rewrite Hcheck.
  cbn [rbind existsb]. assert (payload_is "status" "outcome_unknown" payload = false) as -> by by destruct is_error.
  assert (get "is_error" payload = Some (VBool is_error)) as -> by reflexivity. done.
Qed.

Lemma intent_environment_ok (mo : Moment) x request implementation :
  environment_ok (xe_environment x) → environment_ok (intent_environment sha256 to_vec mo x request implementation).
Proof. intros H. by destruct implementation. Qed.

Lemma filter_pair {A} (p : A → bool) l0 a l1 b l2 :
  p a = true → p b = true → length (List.filter p (l0 ++ a :: l1 ++ b :: l2)) ≤ 2 →
  Forall (λ c, p c = false) l0 ∧ Forall (λ c, p c = false) l1 ∧ Forall (λ c, p c = false) l2.
Proof.
  intros Ha Hb. rewrite List.filter_app. cbn [List.filter]. rewrite Ha, List.filter_app. cbn [List.filter]. rewrite Hb.
  rewrite length_app. cbn [length]. rewrite length_app. cbn [length]. intros Hlen.
  assert (∀ l, length (List.filter p l) = 0 → Forall (λ c, p c = false) l) as H.
  { clear. intros l Hl. apply Forall_forall. intros c Hc. destruct (p c) eqn:Hp; [|done].
    apply nil_length_inv in Hl. assert (c ∈ List.filter p l) as Hin; [|by rewrite Hl in Hin; apply not_elem_of_nil in Hin].
    apply list_elem_of_In, List.filter_In. split; [by apply list_elem_of_In|done]. }
  split_and!; apply H; lia.
Qed.

Lemma concerns_false request r :
  concerns request r = false →
  is_intent (rq_effect_id request) r = false ∧
  bool_decide (lr_record_type r = "effect_outcome") &&
    (payload_is "effect_id" (rq_effect_id request) (lr_payload r) ||
     payload_is "operation_id" (rq_operation_id request) (lr_payload r)) = false.
Proof. unfold concerns. by rewrite orb_false_iff. Qed.

(** With one intent and, later, one outcome, recovery decides from the outcome. *)
Lemma recover_committed (j : Journal) x (mo mo' : Moment) request implementation implementation' is_error l0 l1 l2 ri ro
    seq seq' now now' :
  descriptor_ok (rq_descriptor request) → environment_ok (xe_environment x) →
  validate_environment_plugin_identities sha256 (intent_environment sha256 to_vec mo x request implementation) = Ok tt →
  intent_environment sha256 to_vec mo' x request implementation' =
    intent_environment sha256 to_vec mo x request implementation →
  valid_utf8 output = true → output_held (xe_run_id x) j →
  ri = make_record seq (xe_run_id x) now SyncCritical "effect_intent"
    (intent_payload sha256 x request (intent_environment sha256 to_vec mo x request implementation)) →
  ro = make_record seq' (xe_run_id x) now' SyncCritical "effect_outcome" (committed_payload x request is_error) →
  (seq < seq')%Z →
  journal_records j x = l0 ++ ri :: l1 ++ ro :: l2 →
  Forall (λ r, concerns request r = false) l0 → Forall (λ r, concerns request r = false) l1 →
  Forall (λ r, concerns request r = false) l2 →
  recover_effect sha256 to_vec j x mo' request implementation' = Ok (Reuse is_error output).
Proof.
  intros Hd Henv Hplugins Hsame Hu Hh Hri Hro Hseq Hrec H0 H1 H2.
  set (e := intent_environment sha256 to_vec mo x request implementation) in *.
  assert (∀ l, Forall (λ r, concerns request r = false) l → Forall (λ r, is_intent (rq_effect_id request) r = false) l) as Hint.
  { intros l Hl. eapply Forall_impl; [exact Hl|]. by intros r [? _]%concerns_false. }
  assert (∀ l, Forall (λ r, concerns request r = false) l → outcomes_after ri request l = []) as Hout.
  { intros l Hl. apply filter_none. eapply Forall_impl; [exact Hl|]. intros r [_ Hr]%concerns_false. simpl.
    destruct (bool_decide (lr_record_type r = _)); [|done]. cbn [andb] in *. rewrite Hr. by rewrite andb_false_r. }
  assert (find_last (is_intent (rq_effect_id request)) (journal_records j x) = Some ri) as Hfind.
  { rewrite Hrec. apply find_last_app; [subst ri; apply intent_is_intent|]. apply Forall_app. split; [by apply Hint|].
    constructor; [by subst ro|by apply Hint]. }
  assert (outcomes_after ri request (journal_records j x) = [ro]) as Hafter.
  { rewrite Hrec. unfold outcomes_after in *. rewrite List.filter_app. cbn [List.filter]. rewrite (Hout l0) by done.
    rewrite List.filter_app. cbn [List.filter]. rewrite (Hout l1), (Hout l2) by done. subst ri ro.
    cbn [make_record lr_record_type lr_seq lr_payload app].
    rewrite (bool_decide_eq_false_2 ("effect_intent" = _)) by done. cbn [andb].
    rewrite (bool_decide_eq_true_2 ("effect_outcome" = _)), (bool_decide_eq_true_2 (seq < seq')%Z) by done. cbn [andb].
    assert (payload_is "effect_id" (rq_effect_id request) (committed_payload x request is_error) = true) as ->
      by by apply bool_decide_eq_true. done. }
  unfold recover_effect. rewrite Hfind, Hafter.
  assert (lr_payload ri = intent_payload sha256 x request e) as -> by by subst ri.
  rewrite intent_matches_recorded by done. cbn [negb].
  assert (get "environment" (intent_payload sha256 x request e) = Some (to_value e)) as -> by reflexivity. cbn [ok_or rbind].
  rewrite (from_to_value e) by by apply intent_environment_ok. cbn [ok_or rbind]. rewrite Hsame, Hplugins.
  cbn [is_ok negb orb]. unfold compatibility_decision. rewrite decide_True by done.
  rewrite (recorded_descriptor_digest (intent_payload sha256 x request e) (rq_descriptor request)) by done.
  subst ro. by rewrite check_committed.
Qed.
End store.
End reuse.

(** C17: an effect that completed is not executed again, and its result is the recorded
    one.  Once an intent was recorded and, after any operations that record no other
    outcome of the effect, an outcome was committed, then after any further
    operations, as long as no other record speaks of the effect or of its
    operation, recovery in an equal environment gives the very output and error
    flag that were recorded, read back from the directory of the Run.  The directory
    keeps its files, the output is UTF-8, as a Rust string is, and SHA-256 has no
    second preimage of it. *)
Theorem recorded_outcome_reused sha256 to_vec {D I} `{!Directory D, !DirectoryLaws D} `{EqDecision I}
    (j j1 j2 j3 j4 : Journal D) (x : EffectContext) (mo mo' : @Moment I) fences request implementation implementation'
    now is_error output :
  (∀ s, length (sha256 s) = 32) → (∀ s, sha256 s = sha256 output → s = output) → valid_utf8 output = true →
  descriptor_ok (rq_descriptor request) → environment_ok (xe_environment x) →
  validate_environment_plugin_identities sha256 (intent_environment sha256 to_vec mo x request implementation) = Ok tt →
  ledger_inv (jo_ledger j) → (ls_next_sequence (jo_ledger j) < u64_max)%Z →
  record_effect_intent sha256 to_vec j x mo fences request implementation = (j1, Ok tt) →
  rtc (journal_step sha256 to_vec (I:=I)) j1 j2 →
  outcomes_of (rq_effect_id request) (jo_ledger j2) (xe_run_id x) = [] →
  record_effect_outcome_canonical sha256 to_vec j2 x now request is_error output = (j3, Ok Committed) →
  rtc (journal_step sha256 to_vec (I:=I)) j3 j4 →
  length (List.filter (concerns request) (journal_records j4 x)) ≤ 2 →
  intent_environment sha256 to_vec mo' x request implementation' =
    intent_environment sha256 to_vec mo x request implementation →
  recover_effect sha256 to_vec j4 x mo' request implementation' = Ok (Reuse is_error output).
Proof.
  intros Hsha Hpre Hu Hd Henv Hplugins Hinv Hseq Hintent H12 Hnone Houtcome H34 Hconcern Hsame.
  assert (journal_step sha256 to_vec (I:=I) j j1) as H01.
  { replace j1 with (record_effect_intent sha256 to_vec j x mo fences request implementation).1 by by rewrite Hintent.
    by constructor. }
  assert (journal_step sha256 to_vec (I:=I) j2 j3) as H23.
  { replace j3 with (record_effect_outcome_canonical sha256 to_vec j2 x now request is_error output).1
      by by rewrite Houtcome. constructor. }
  apply intent_recorded in Hintent as [_ Hri]. set (ri := make_record _ _ _ _ _ _) in Hri.
  apply outcome_recorded in Houtcome as (Hheld & seq & Hro); [|done..]. set (ro := make_record _ _ _ _ _ _) in Hro.
  assert (output_held sha256 output (xe_run_id x) j4) as Hheld4.
  { by eapply journal_steps_held. }
  destruct (journal_steps_prefix _ _ _ _ (xe_run_id x) H12) as [l1 Hl1].
  destruct (journal_steps_prefix _ _ _ _ (xe_run_id x) H34) as [l2 Hl2].
  assert (journal_records j4 x = journal_records j x ++ ri :: l1 ++ ro :: l2) as Hrec.
  { unfold journal_records in *. rewrite Hl2, Hro, Hl1, Hri. by rewrite <-!app_assoc. }
  assert (ledger_inv (jo_ledger j4)) as Hinv4.
  { eapply journal_steps_inv; [|exact Hinv]. eapply rtc_l; [exact H01|]. etrans; [exact H12|]. by eapply rtc_l. }
  assert (concerns request ri = true) as Hci by (unfold concerns, ri; by rewrite intent_is_intent).
  assert (concerns request ro = true) as Hco.
  { unfold concerns. apply orb_true_iff. right. apply andb_true_iff. split; [by apply bool_decide_eq_true|].
    apply orb_true_iff. left. by apply bool_decide_eq_true. }
  rewrite Hrec in Hconcern. apply filter_pair in Hconcern as (Hc0 & Hc1 & Hc2); [|done..].
  eapply (recover_committed sha256 to_vec) with (ri := ri) (ro := ro); [done..| |exact Hrec|done|done|done].
  pose proof (li_sorted _ Hinv4 (xe_run_id x)) as Hsort. unfold journal_records in Hrec. rewrite Hrec in Hsort.
  clear -Hsort. induction (run_records (jo_ledger j) (xe_run_id x)) as [|r l IH]; cbn [app] in Hsort.
  - inversion Hsort as [|? ? _ Hall]. apply (proj1 (Forall_forall _ _) Hall ro). set_solver.
  - inversion Hsort. by apply IH.
Qed.
