(* ===== verification/EffectExamples.v ===== *)
(** * Examples of effects

    A Run that reads a file and runs a command: its journal, with a directory of
    outputs kept as a map, and the theorems of the other files at these inputs. *)
From S2P Require Import ResourceTypes Prelude Json Types WorkflowTypes Identity TaskRegistry RuntimeLedger LedgerFacts LedgerAdmission Registries.
From S2P Require Import LedgerInterface MessageBus CollaborationTypes WorkflowRuns.
From S2P Require Import Paths NetworkDomains PermissionTypes PermissionEngine ProtectedPaths PermissionContext PermissionFacts PermissionLeases PermissionHistory PermissionExamples EffectAudit EffectAuditFacts EffectTypes EffectEnvironment EffectJournal EffectFacts.

(** Files by name. *)
#[export] Instance files_directory : Directory (gmap string string) := {|
  dir_write d name bytes := (<[name := bytes]> d, Ok tt);
  dir_read d name := match d !! name with Some bytes => ReadBytes bytes | None => ReadNotFound end;
|}.

#[export] Instance files_laws : DirectoryLaws (gmap string string).
Proof.
  split.
  - intros d d' name bytes H. injection H as <-. cbn. by rewrite lookup_insert_eq.
  - intros d d' name other bytes r H Hne. injection H as <- _. cbn. by rewrite lookup_insert_ne.
  - intros d d' name bytes e H. discriminate.
Qed.

(** Stand-ins: a digest that only the output [done] has, and an encoding of identities. *)
Definition demo_output : string := "done".
Definition demo_sha (s : string) : list Byte.byte := replicate 32 (if decide (s = demo_output) then Byte.x61 else Byte.x62).
Definition demo_to_vec (v : Value) : string := default "" (get_str "effect_id" v).

Definition demo_environment : OperationEnvironmentSnapshot :=
  {| oe_runtime_generation := 1; oe_config_generation := 1; oe_provider := None; oe_plugins := []; oe_tools := [];
     oe_hook_order := []; oe_workflow := None; oe_permission_fingerprint := None |}.
Definition demo_context : EffectContext :=
  {| xe_run_id := "run"; xe_agent_id := "agent"; xe_environment := demo_environment; xe_baseline := "baseline";
     xe_permissions := demo_root |}.
Definition demo_moment : @Moment nat := {| mo_fs := demo_fs; mo_cells := wd_cells demo_w2; mo_now := 7 |}.

Definition demo_journal : Journal (gmap string string) :=
  {| jo_ledger := ledger_default;
     jo_outputs := λ _, {| os_root := Some ∅; os_global := Ok false; os_legacy_root := None |};
     jo_recoveries := ∅ |}.

Definition demo_effect (policy : EffectReplayPolicy) (class : EffectClass) : EffectRequest :=
  effect_request demo_sha demo_to_vec demo_fs demo_context "call:attempt:1" "Shell" VNull
    {| ed_class := class; ed_action := "run"; ed_replay_policy := policy;
       ed_resources := ed_resources (demo_descriptor class ["/work/a"] []) |}.

Definition demo_started (request : EffectRequest) : Journal (gmap string string) :=
  (record_effect_intent demo_sha demo_to_vec demo_journal demo_context demo_moment [Ok tt] request None).1.
Definition demo_completed (request : EffectRequest) : Journal (gmap string string) :=
  (record_effect_outcome_canonical demo_sha demo_to_vec (demo_started request) demo_context 8 request false demo_output).1.

(** A read may be repeated until it has an outcome; a command may not. *)
Example demo_recoveries :
  recover_effect demo_sha demo_to_vec (demo_started (demo_effect ReplaySafe ReadOnly)) demo_context demo_moment
    (demo_effect ReplaySafe ReadOnly) None = Ok Execute ∧
  recover_effect demo_sha demo_to_vec (demo_completed (demo_effect ReplaySafe ReadOnly)) demo_context demo_moment
    (demo_effect ReplaySafe ReadOnly) None = Ok (Reuse false "done") ∧
  is_ok (recover_effect demo_sha demo_to_vec (demo_started (demo_effect Never Process)) demo_context demo_moment
    (demo_effect Never Process) None) = true ∧
  recover_effect demo_sha demo_to_vec (demo_started (demo_effect Never Process)) demo_context demo_moment
    (demo_effect Never Process) None ≠ Ok Execute.
Proof.
  split_and!; [vm_compute; reflexivity..|].
  intros H%(f_equal (λ r, match r with Ok Execute => true | _ => false end)). vm_compute in H. discriminate.
Qed.

Notation read_effect := (demo_effect ReplaySafe ReadOnly).

Lemma demo_start_step request :
  journal_step demo_sha demo_to_vec (I:=nat) demo_journal (demo_started request).
Proof. by constructor. Defined.
Lemma demo_complete_step request :
  journal_step demo_sha demo_to_vec (I:=nat) (demo_started request) (demo_completed request).
Proof. constructor. Defined.

Lemma single_effect_outcome_witness :
  length (outcomes_of "effect:run:agent:call:attempt:1" (jo_ledger (demo_completed read_effect)) "run") = 1 ∧
  length (outcomes_of "effect:run:agent:call:attempt:1"
    (jo_ledger (drop_guard demo_sha demo_to_vec (demo_completed read_effect) demo_context demo_moment
       (guard_new read_effect "cancelled"))) "run") ≤ 1.
Proof.
  split; [vm_compute; reflexivity|].
  apply (single_effect_outcome demo_sha demo_to_vec (I:=nat) demo_journal); [reflexivity|].
  eapply rtc_l; [apply demo_start_step|]. eapply rtc_l; [apply demo_complete_step|]. apply rtc_once. constructor.
Defined.

Lemma started_effect_not_repeated_witness :
  recover_effect demo_sha demo_to_vec (demo_started read_effect) demo_context demo_moment read_effect None = Ok Execute ∧
  ed_class (rq_descriptor read_effect) = ReadOnly ∧ ed_replay_policy (rq_descriptor read_effect) = ReplaySafe.
Proof.
  assert (recover_effect demo_sha demo_to_vec (demo_started read_effect) demo_context demo_moment read_effect None =
    Ok Execute) as H by (vm_compute; reflexivity).
  split; [exact H|].
  destruct (started_effect_not_repeated demo_sha demo_to_vec demo_journal (demo_started read_effect) (demo_started read_effect)
    demo_context demo_context demo_moment demo_moment [Ok tt] read_effect read_effect None None
    eq_refl (rtc_refl _ _) eq_refl eq_refl H) as (? & intent & ? & _ & _ & _ & Hr).
  split; apply Hr.
Defined.

Lemma attempt_id_found_witness :
  attempt_completed (journal_records (demo_completed read_effect) demo_context) (attempt_effect demo_context "call" 1) = true ∧
  ∃ n, 1 ≤ n ≤ 3 ∧ stable_effect_attempt_id (demo_completed read_effect) demo_context "call" = Ok (attempt_call "call" n).
Proof.
  split; [vm_compute; reflexivity|].
  destruct (attempt_id_found (demo_completed read_effect) demo_context "call") as (n & Hn & Ha & _).
  - vm_compute. reflexivity.
  - exists n. split; [|exact Ha]. assert (length (journal_records (demo_completed read_effect) demo_context) = 2) as Hl
      by (vm_compute; reflexivity). rewrite Hl in Hn. exact Hn.
Defined.

Lemma recorded_outcome_reused_witness :
  recover_effect demo_sha demo_to_vec (demo_completed read_effect) demo_context demo_moment read_effect None =
  Ok (Reuse false "done").
Proof.
  apply (recorded_outcome_reused demo_sha demo_to_vec (I:=nat) demo_journal (demo_started read_effect)
    (demo_started read_effect) (demo_completed read_effect) (demo_completed read_effect) demo_context demo_moment
    demo_moment [Ok tt] read_effect None None 8 false demo_output).
  - intros s. apply length_replicate.
  - intros s. unfold demo_sha. rewrite (decide_True (P := demo_output = demo_output)) by done.
    destruct (decide (s = demo_output)); [done|discriminate].
  - reflexivity.
  - split; [by split|]. split; cbn; (split; [by split|repeat constructor; done]).
  - split; by split.
  - vm_compute. reflexivity.
  - apply ledger_inv_default.
  - reflexivity.
  - vm_compute. reflexivity.
  - apply rtc_refl.
  - vm_compute. reflexivity.
  - vm_compute. reflexivity.
  - apply rtc_refl.
  - vm_compute. lia.
  - reflexivity.
Defined.
