(* ===== verification/EffectAuthorization.v ===== *)
(** * Approved effects and their execution

    crates/solaris-agent/src/execution_context.rs and execution_context/
    process_authorization.rs: effects that were approved are remembered until they
    are taken, checked again before they are executed, and a process is created
    under an authorization that is spent before anything else happens. *)
From S2P Require Import ResourceTypes Prelude Json Types WorkflowTypes Identity TaskRegistry RuntimeLedger Registries.
From S2P Require Import LedgerInterface MessageBus CollaborationTypes WorkflowRuns.
From S2P Require Import Paths NetworkDomains PermissionTypes PermissionEngine ProtectedPaths PermissionContext PermissionLeases EffectAudit EffectTypes EffectEnvironment EffectJournal.

#[export] Instance ResourceFootprint_eq_dec : EqDecision ResourceFootprint.
Proof. solve_decision. Defined.
#[export] Instance EffectDescriptor_eq_dec : EqDecision EffectDescriptor.
Proof. solve_decision. Defined.

(** ** What a tool is executed with *)

(** [ProcessLaunchPolicy]; [K] are the capabilities of workspace roots. *)
Inductive ProcessLaunchPolicy (K I : Type) : Type :=
  | Ambient
  | WorkspaceSandbox (workspace_root : Path) (workspace_capability : option K) (protected_roots : list Path)
      (protected_object_identities : list I) (network_proxy : NetworkProxyPolicy).
Arguments Ambient {K I}.
Arguments WorkspaceSandbox {K I} _ _ _ _ _.

(** [EffectProcessSpawnAuthorizer], without the context. *)
Record SpawnAuthorizer : Type := {
  az_request : EffectRequest;
  az_approved_environment : OperationEnvironmentSnapshot;
  az_approved_mode : PermissionMode;
  az_approved_ceiling : PermissionCeiling;
  az_workspace_root : option Path;
  az_approved_by_lease : bool;
  az_required_plugin_implementation : option ImplementationIdentity;
  az_spawn_consumed : bool;
}.

Definition spend (a : SpawnAuthorizer) : SpawnAuthorizer :=
  {| az_request := az_request a; az_approved_environment := az_approved_environment a;
     az_approved_mode := az_approved_mode a; az_approved_ceiling := az_approved_ceiling a;
     az_workspace_root := az_workspace_root a; az_approved_by_lease := az_approved_by_lease a;
     az_required_plugin_implementation := az_required_plugin_implementation a; az_spawn_consumed := true |}.

(** [ToolExecutionContext]; [X] is the approved executable with its arguments. *)
Record ToolExecutionContext (K I X : Type) : Type := {
  te_effect_id : string;
  te_approved_process : option X;
  te_prepared_implementation : option ImplementationIdentity;
  te_sandbox_workspace_root : option Path;
  te_process_launch_policy : option (ProcessLaunchPolicy K I);
  te_process_spawn_authorization : option SpawnAuthorizer;
  te_permission_mode : option PermissionMode;
  te_read_only_evidence_scope : option (string * string);
}.
Arguments te_effect_id {K I X} _.
Arguments te_approved_process {K I X} _.
Arguments te_prepared_implementation {K I X} _.
Arguments te_sandbox_workspace_root {K I X} _.
Arguments te_process_launch_policy {K I X} _.
Arguments te_process_spawn_authorization {K I X} _.
Arguments te_permission_mode {K I X} _.
Arguments te_read_only_evidence_scope {K I X} _.

(** A registered tool, as far as an effect is checked again. *)
Record Tool (K I X : Type) : Type := {
  tl_revalidate_effect : Value → ToolExecutionContext K I X → EffectDescriptor;
  tl_implementation_identity : option ImplementationIdentity;
  tl_input_schema : Value;
}.
Arguments tl_revalidate_effect {K I X} _.
Arguments tl_implementation_identity {K I X} _.
Arguments tl_input_schema {K I X} _.

Record ApprovedEffectRequest (K I X : Type) : Type := {
  av_request : EffectRequest;
  av_registered_tool_name : string;
  av_tool_execution : ToolExecutionContext K I X;
  av_mode : PermissionMode;
  av_ceiling : PermissionCeiling;
  av_environment : OperationEnvironmentSnapshot;
  av_registration_id : Z;
}.
Arguments av_request {K I X} _.
Arguments av_registered_tool_name {K I X} _.
Arguments av_tool_execution {K I X} _.
Arguments av_mode {K I X} _.
Arguments av_ceiling {K I X} _.
Arguments av_environment {K I X} _.
Arguments av_registration_id {K I X} _.

(** ** The state *)

(** The journal, the cells of the permissions, the approved requests and the
    counter of registrations. *)
Record Execution (D K I X : Type) : Type := {
  xs_journal : Journal D;
  xs_cells : Cells I;
  xs_approved_requests : gmap EffectId (ApprovedEffectRequest K I X);
  xs_next_registration_id : Z;
}.
Arguments xs_journal {D K I X} _.
Arguments xs_cells {D K I X} _.
Arguments xs_approved_requests {D K I X} _.
Arguments xs_next_registration_id {D K I X} _.

(** How creating a process fails. *)
Inductive SpawnError : Type :=
  | SpawnRecoveryRequired (recovery : ProcessRecoveryRecord)
  | SpawnOutcomeUnknown
  | SpawnFailed.

Inductive ExecutionError : Type :=
  | XRefused (reason : string)
  | XLease (e : LedgerError)
  | XNetwork (e : NetworkProxyPolicyError)
  | XSpawn (e : SpawnError)
  | XSpawnUnrecorded (e : SpawnError) (record_error : JournalError).

Definition refuse {A} (r : result A string) : result A ExecutionError :=
  match r with Ok a => Ok a | Err e => Err (XRefused e) end.
Definition require (b : bool) (reason : string) : result unit ExecutionError := ensure b (XRefused reason).

Definition stricter_permission_mode (approved current : PermissionMode) : PermissionMode :=
  match approved, current with
  | Plan, _ | _, Plan => Plan
  | Auto, _ | _, Auto => Auto
  | Bypass, Bypass => Bypass
  end.

Definition grants_for_descriptor (d : EffectDescriptor) : AdditionalPermissions :=
  let r := ed_resources d in
  {| xp_unrestricted_file_reads := rf_unrestricted_file_reads r;
     xp_unrestricted_file_writes := rf_unrestricted_file_writes r;
     xp_unrestricted_network := rf_unrestricted_network r;
     xp_unrestricted_process := rf_unrestricted_process r;
     xp_file_reads := rf_file_reads r; xp_file_writes := rf_file_writes r;
     xp_network_domains := rf_network_domains r; xp_process_command_prefix := head (rf_process_commands r);
     xp_process_invocations := rf_process_invocations r |}.

(** [#[serde(tag = "scope")]]. *)
Definition scope_value (scope : LeaseScope) : Value :=
  match scope with
  | ScopeEffect id => VObject [("scope", VString "effect"); ("effect_id", VString id)]
  | ScopeOperation id => VObject [("scope", VString "operation"); ("operation_id", VString id)]
  | ScopeRun id => VObject [("scope", VString "run"); ("run_id", VString id)]
  end.

Definition opt_uint (o : option Z) : Value := match o with Some n => uint_to_value n | None => VNull end.
Definition opt_i64 (o : option Z) : Value := match o with Some n => i64_to_value n | None => VNull end.
Definition opt_index (o : option nat) : Value := opt_uint (Z.of_nat <$> o).

Definition stale_environment : string := "operation environment changed after approval; refusing stale authorization".
Definition lease_gone : string := "capability lease expired or was consumed before execution".
Definition no_longer_allowed (reason : string) : string :=
  "permission no longer allows effect before execution: " +:+ reason.
Definition plan_mode : string := "plan mode does not permit process execution".

Section execution.
Context (sha256 : string → list Byte.byte) (to_vec : Value → string) (package_version : string).
Context {D K I X : Type} `{!Directory D} `{EqDecision I}.
(** Sealing the authority of a workspace root for a launch, and its path. *)
Context (seal_authority : I → Path → result K string) (capability_path : K → Path).
(** [capture_workspace_capability]. *)
Context (capture_workspace_capability : Path → option K).

Notation Execution := (Execution D K I X).
Notation ToolExecution := (ToolExecutionContext K I X).
Notation Approved := (ApprovedEffectRequest K I X).
Notation LaunchPolicy := (ProcessLaunchPolicy K I).
Notation Journal := (Journal D).

Definition set_journal (s : Execution) (j : Journal) : Execution :=
  {| xs_journal := j; xs_cells := xs_cells s; xs_approved_requests := xs_approved_requests s;
     xs_next_registration_id := xs_next_registration_id s |}.
Definition set_cells (s : Execution) (h : Cells I) : Execution :=
  {| xs_journal := xs_journal s; xs_cells := h; xs_approved_requests := xs_approved_requests s;
     xs_next_registration_id := xs_next_registration_id s |}.
Definition set_approved (s : Execution) (m : gmap EffectId Approved) : Execution :=
  {| xs_journal := xs_journal s; xs_cells := xs_cells s; xs_approved_requests := m;
     xs_next_registration_id := xs_next_registration_id s |}.

(** ** Approved requests *)

Definition new_tool_execution (effect_id : string) : ToolExecution :=
  {| te_effect_id := effect_id; te_approved_process := None; te_prepared_implementation := None;
     te_sandbox_workspace_root := None; te_process_launch_policy := None; te_process_spawn_authorization := None;
     te_permission_mode := None; te_read_only_evidence_scope := None |}.

(** The counter is one [AtomicU64]: it wraps around. *)
Definition insert_approved_request (s : Execution) (x : EffectContext) (request : EffectRequest) (tool : string)
    (te : ToolExecution) (m : PermissionMode) (c : PermissionCeiling) : Execution * Z :=
  let id := xs_next_registration_id s in
  ({| xs_journal := xs_journal s; xs_cells := xs_cells s;
      xs_approved_requests := <[rq_effect_id request :=
        {| av_request := request; av_registered_tool_name := tool; av_tool_execution := te; av_mode := m;
           av_ceiling := c; av_environment := xe_environment x; av_registration_id := id |}]> (xs_approved_requests s);
      xs_next_registration_id := (id + 1) mod 2 ^ 64 |}, id).

Definition remember_approved_request (s : Execution) (x : EffectContext) (request : EffectRequest)
    (m : PermissionMode) (c : PermissionCeiling) : Execution :=
  (insert_approved_request s x request (rq_capability request) (new_tool_execution (rq_effect_id request)) m c).1.

(** [ApprovedRequestRegistration]: dropped, it takes its own request back. *)
Record ApprovedRequestRegistration : Type := { ar_effect_id : EffectId; ar_registration_id : Z; ar_armed : bool }.

Definition remember_registered (s : Execution) (x : EffectContext) (request : EffectRequest) (tool : string)
    (te : ToolExecution) (m : PermissionMode) (c : PermissionCeiling) : Execution * ApprovedRequestRegistration :=
  match insert_approved_request s x request tool te m c with
  | (s, id) => (s, {| ar_effect_id := rq_effect_id request; ar_registration_id := id; ar_armed := true |})
  end.

Definition disarm (r : ApprovedRequestRegistration) : ApprovedRequestRegistration :=
  {| ar_effect_id := ar_effect_id r; ar_registration_id := ar_registration_id r; ar_armed := false |}.

Definition clear_request (s : Execution) (id : EffectId) : Execution :=
  set_approved s (delete id (xs_approved_requests s)).

Definition drop_registration (s : Execution) (r : ApprovedRequestRegistration) : Execution :=
  if negb (ar_armed r) then s
  else match xs_approved_requests s !! ar_effect_id r with
       | Some a => if decide (av_registration_id a = ar_registration_id r) then clear_request s (ar_effect_id r) else s
       | None => s
       end.

Definition take_approved_request_for_call (s : Execution) (x : EffectContext) (call_id : string) :
    Execution * option Approved :=
  let id := effect_id_for_call x call_id in
  (clear_request s id, xs_approved_requests s !! id).

(** [EffectOutcomeGuard::drop]. *)
Definition drop_outcome_guard (s : Execution) (fs : FileSystem I) (now : Z) (x : EffectContext)
    (g : EffectOutcomeGuard) : Execution :=
  clear_request
    (set_journal s (drop_guard sha256 to_vec (xs_journal s) x
       {| mo_fs := fs; mo_cells := xs_cells s; mo_now := now |} g))
    (rq_effect_id (og_request g)).

(** ** Records of decisions *)

Definition append_to (s : Execution) (x : EffectContext) (now : Z) (record_type : string) (payload : Value) :
    Execution * result LedgerRecord JournalError :=
  match append_record (xs_journal s) x now record_type payload with (j, r) => (set_journal s j, r) end.

Definition approval_lease (x : EffectContext) (lease_id : string) (request : EffectRequest) (always : bool) :
    CapabilityLease :=
  let d := rq_descriptor request in
  let can_persist_run_scope := bool_decide (rf_external_resources (ed_resources d) = []) &&
                               bool_decide (length (rf_process_commands (ed_resources d)) ≤ 1) in
  {| cl_lease_id := lease_id; cl_capability := rq_capability request; cl_action := Some (ed_action d);
     cl_scope := if always && can_persist_run_scope then ScopeRun (xe_run_id x) else ScopeEffect (rq_effect_id request);
     cl_grants := grants_for_descriptor d;
     cl_max_uses := if always && can_persist_run_scope then None else Some 1%Z;
     cl_expires_at_unix_ms := None |}.

Definition lease_payload (request : EffectRequest) (lease : CapabilityLease) : Value :=
  VObject [("lease_id", VString (cl_lease_id lease)); ("capability", VString (cl_capability lease));
           ("scope", scope_value (cl_scope lease)); ("max_uses", opt_uint (cl_max_uses lease));
           ("expires_at_unix_ms", opt_i64 (cl_expires_at_unix_ms lease)); ("source_decision", VString "host_approval");
           ("effect", to_value (from_descriptor sha256 (rq_descriptor request)));
           ("input_digest", opt_value (rq_input_digest request)); ("restorable", VBool false)].

(** The lease is recorded before it is issued; its identifier is generated. *)
Definition issue_approval_lease (s : Execution) (x : EffectContext) (now : Z) (lease_id : string)
    (request : EffectRequest) (always : bool) : Execution * result CapabilityLease JournalError :=
  let lease := approval_lease x lease_id request always in
  sbind (append_to s x now "capability_lease_issued" (lease_payload request lease)) (λ s _,
  (set_cells s (issue_lease lease (xs_cells s) (xe_permissions x)), Ok lease)).

Definition record_permission_decision (s : Execution) (x : EffectContext) (now : Z) (request : EffectRequest)
    (e : PermissionEvaluation) (source : string) : Execution * result unit JournalError :=
  sbind (append_to s x now "permission_decision" (VObject
    [("agent_id", VString (xe_agent_id x)); ("effect_id", VString (rq_effect_id request));
     ("operation_id", VString (rq_operation_id request)); ("capability", VString (rq_capability request));
     ("decision", VString (decision_str (pe_decision e))); ("matched_rule_index", opt_index (pe_matched_rule_index e));
     ("matched_lease", VBool (pe_matched_lease e)); ("reason", VString "permission evaluation result");
     ("reason_digest", VString ("sha256:" +:+ stable_digest_bytes sha256 (pe_reason e))); ("source", VString source);
     ("effect", to_value (from_descriptor sha256 (rq_descriptor request)));
     ("input_digest", opt_value (rq_input_digest request))])) (λ s _, (s, Ok tt)).

Definition record_revalidation_failure (s : Execution) (x : EffectContext) (now : Z) (request : EffectRequest)
    (reason : string) : Execution * result unit JournalError :=
  sbind (append_to s x now "effect_revalidation_failed" (VObject
    [("agent_id", VString (xe_agent_id x)); ("effect_id", VString (rq_effect_id request));
     ("operation_id", VString (rq_operation_id request)); ("reason", VString "effect revalidation failed");
     ("reason_digest", VString ("sha256:" +:+ stable_digest_bytes sha256 reason));
     ("effect", to_value (from_descriptor sha256 (rq_descriptor request)));
     ("input_digest", opt_value (rq_input_digest request))])) (λ s _, (s, Ok tt)).

(** ** Contexts *)

(** [set_environment]: the environment and the baseline of a context. *)
Definition set_environment (h : Cells I) (x : EffectContext) (e : OperationEnvironmentSnapshot) : EffectContext :=
  let fingerprint := permission_fingerprint sha256 to_vec h (xe_permissions x) in
  {| xe_run_id := xe_run_id x; xe_agent_id := xe_agent_id x;
     xe_environment := with_fingerprint (normalize_environment e) (Some fingerprint); xe_baseline := fingerprint;
     xe_permissions := xe_permissions x |}.

(** ** Before an effect is executed *)

Definition use_lease (s : Execution) (fs : FileSystem I) (now : Z) (x : EffectContext) (request : EffectRequest) :
    Execution * result bool ExecutionError :=
  match consume_lease_durably fs now (xe_run_id x) request (jo_ledger (xs_journal s)) (xs_cells s) (xe_permissions x) with
  | (l, h, r) => (set_cells (set_journal s (set_ledger (xs_journal s) l)) h,
                  match r with Ok b => Ok b | Err e => Err (XLease e) end)
  end.

(** [if process || !matched_lease || consumed]: the lease that allows an effect
    that is no process is used now. *)
Definition use_matched_lease (s : Execution) (fs : FileSystem I) (now : Z) (x : EffectContext)
    (request : EffectRequest) (needed : bool) : Execution * result unit ExecutionError :=
  if needed then sbind (use_lease s fs now x request) (λ s used, (s, require used lease_gone)) else (s, Ok tt).

Definition evaluate_at (s : Execution) (fs : FileSystem I) (now : Z) (x : EffectContext) (request : EffectRequest) :
    PermissionEvaluation :=
  evaluate_effect fs (xs_cells s) (xe_permissions x) now (xe_run_id x) (rq_capability request) request.
Definition evaluate_at_with (s : Execution) (fs : FileSystem I) (now : Z) (x : EffectContext) (request : EffectRequest)
    (m : PermissionMode) (c : PermissionCeiling) : PermissionEvaluation :=
  evaluate_effect_with fs (xs_cells s) (xe_permissions x) now (xe_run_id x) (rq_capability request) request m c.

Definition is_process (request : EffectRequest) : bool := bool_decide (ed_class (rq_descriptor request) = Process).

Definition check_environments (x : EffectContext) (approved : OperationEnvironmentSnapshot) :
    result unit ExecutionError :=
  refuse (validate_environment_plugin_identities sha256 approved) ;;?
  refuse (validate_environment_plugin_identities sha256 (xe_environment x)).

(** The rest of [revalidate_external] and [revalidate_environment]. *)
Definition evaluate_and_use (s : Execution) (fs : FileSystem I) (now : Z) (x : EffectContext) (request : EffectRequest) :
    Execution * result PermissionEvaluation ExecutionError :=
  let e := evaluate_at s fs now x request in
  slift s (require (bool_decide (pe_decision e = Allow)) (no_longer_allowed (pe_reason e))) (λ _,
  sbind (use_matched_lease s fs now x request (negb (is_process request) && pe_matched_lease e)) (λ s _, (s, Ok e))).

Definition revalidate_environment (s : Execution) (fs : FileSystem I) (now : Z) (x : EffectContext)
    (request : EffectRequest) (approved : OperationEnvironmentSnapshot) :
    Execution * result PermissionEvaluation ExecutionError :=
  slift s (check_environments x approved) (λ _,
  slift s (require (bool_decide (xe_environment x = approved)) stale_environment) (λ _,
  evaluate_and_use s fs now x request)).

Definition revalidate_external (s : Execution) (fs : FileSystem I) (now : Z) (x : EffectContext)
    (request : EffectRequest) (approved : OperationEnvironmentSnapshot) (implementation : ImplementationIdentity) :
    Execution * result PermissionEvaluation ExecutionError :=
  slift s (check_environments x approved) (λ _,
  slift s (require (bool_decide (implementation ∈ oe_plugins (xe_environment x)))
             "approved plugin implementation disappeared before execution") (λ _,
  slift s (require (bool_decide (xe_environment x = approved)) stale_environment) (λ _,
  evaluate_and_use s fs now x request))).

Definition protected_snapshot (s : Execution) (fs : FileSystem I) (x : EffectContext) :
    Execution * result (list Path * list I) ExecutionError :=
  match protected_process_snapshot fs (xs_cells s) (xe_permissions x) with
  | (h, r) => (set_cells s h, refuse r)
  end.

Definition workspace_sandbox_with_identities (root : Path) (roots : list Path) (identities : list I) : LaunchPolicy :=
  WorkspaceSandbox root (capture_workspace_capability root) roots identities ∅.

Definition revalidate_configured_effect_before_execution (s : Execution) (fs : FileSystem I) (now : Z)
    (x : EffectContext) (request : EffectRequest) (approved : OperationEnvironmentSnapshot) (m : PermissionMode)
    (c : PermissionCeiling) (requires_process : bool) : Execution * result (option LaunchPolicy) ExecutionError :=
  slift s (check_environments x approved) (λ _,
  slift s (require (bool_decide (xe_environment x = approved)) stale_environment) (λ _,
  let em := stricter_permission_mode m (mode (xs_cells s) (xe_permissions x)) in
  let e := evaluate_at_with s fs now x request em c in
  slift s (require (bool_decide (pe_decision e = Allow)) (no_longer_allowed (pe_reason e))) (λ _,
  sbind (use_matched_lease s fs now x request (negb requires_process && pe_matched_lease e)) (λ s _,
  if negb requires_process then (s, Ok None)
  else match em with
  | Plan => (s, Err (XRefused plan_mode))
  | Auto =>
      match eb_writable_roots (boundary (xs_cells s) (xe_permissions x)) with
      | [root] =>
          sbind (protected_snapshot s fs x) (λ s snapshot,
          (s, Ok (Some (workspace_sandbox_with_identities (components root) snapshot.1 snapshot.2))))
      | _ => (s, Err (XRefused "Auto process execution requires exactly one workspace root"))
      end
  | Bypass => (s, Ok (Some Ambient))
  end)))).

Definition tool_execution_context_for_mode (s : Execution) (fs : FileSystem I) (x : EffectContext) (te : ToolExecution)
    (m : PermissionMode) : Execution * result ToolExecution ExecutionError :=
  let with_policy p :=
    {| te_effect_id := te_effect_id te; te_approved_process := te_approved_process te;
       te_prepared_implementation := te_prepared_implementation te;
       te_sandbox_workspace_root := te_sandbox_workspace_root te; te_process_launch_policy := p;
       te_process_spawn_authorization := te_process_spawn_authorization te; te_permission_mode := Some m;
       te_read_only_evidence_scope := te_read_only_evidence_scope te |} in
  match te_sandbox_workspace_root te with
  | None => (s, Ok (with_policy (te_process_launch_policy te)))
  | Some root =>
      match m with
      | Plan => (s, Err (XRefused plan_mode))
      | Auto =>
          sbind (protected_snapshot s fs x) (λ s snapshot,
          (s, Ok (with_policy (Some (workspace_sandbox_with_identities root snapshot.1 snapshot.2)))))
      | Bypass => (s, Ok (with_policy (Some Ambient)))
      end
  end.

Definition process_spawn_authorization (request : EffectRequest) (approved : OperationEnvironmentSnapshot)
    (m : PermissionMode) (c : PermissionCeiling) (workspace_root : option Path) (by_lease : bool)
    (required : option ImplementationIdentity) : result SpawnAuthorizer ExecutionError :=
  require (is_process request) "process spawn authorization requires a Process effect" ;;?
  refuse (validate_environment_plugin_identities sha256 approved) ;;?
  Ok {| az_request := request; az_approved_environment := approved; az_approved_mode := m; az_approved_ceiling := c;
        az_workspace_root := workspace_root; az_approved_by_lease := by_lease;
        az_required_plugin_implementation := required; az_spawn_consumed := false |}.

Definition set_evidence_scope (te : ToolExecution) (scope : string * string) : ToolExecution :=
  {| te_effect_id := te_effect_id te; te_approved_process := te_approved_process te;
     te_prepared_implementation := te_prepared_implementation te;
     te_sandbox_workspace_root := te_sandbox_workspace_root te;
     te_process_launch_policy := te_process_launch_policy te;
     te_process_spawn_authorization := te_process_spawn_authorization te; te_permission_mode := te_permission_mode te;
     te_read_only_evidence_scope := Some scope |}.
Definition set_spawn_authorization (te : ToolExecution) (a : SpawnAuthorizer) : ToolExecution :=
  {| te_effect_id := te_effect_id te; te_approved_process := te_approved_process te;
     te_prepared_implementation := te_prepared_implementation te;
     te_sandbox_workspace_root := te_sandbox_workspace_root te;
     te_process_launch_policy := te_process_launch_policy te; te_process_spawn_authorization := Some a;
     te_permission_mode := te_permission_mode te; te_read_only_evidence_scope := te_read_only_evidence_scope te |}.

Definition authorization_digest (x : EffectContext) (a : Approved) (em : PermissionMode) (e : PermissionEvaluation) :
    string :=
  stable_digest_value sha256 to_vec (VObject
    [("mode", VString (mode_str em)); ("ceiling", ceiling_value (av_ceiling a));
     ("permission_fingerprint", opt_value (oe_permission_fingerprint (xe_environment x)));
     ("matched_rule_index", opt_index (pe_matched_rule_index e)); ("matched_lease", VBool (pe_matched_lease e));
     ("descriptor", to_value (rq_descriptor (av_request a)))]).

(** The tool is what it was when its effect was approved. *)
Definition implementation_unchanged (a : Approved) (tool : Tool K I X) : bool :=
  match find (λ t, bool_decide (ti_name t = av_registered_tool_name a)) (oe_tools (av_environment a)) with
  | Some approved_tool =>
      bool_decide (default {| im_implementation_id := "tool:" +:+ av_registered_tool_name a;
                              im_version := Some package_version;
                              im_digest := Some (stable_digest_value sha256 to_vec (tl_input_schema tool)) |}
                     (tl_implementation_identity tool) = ti_implementation approved_tool)
  | None => true
  end.

Definition revalidate (s : Execution) (fs : FileSystem I) (now : Z) (x : EffectContext)
    (registry : gmap string (Tool K I X)) (a : Approved) : Execution * result ToolExecution ExecutionError :=
  let request := av_request a in
  slift s (refuse (validate_environment_plugin_identities sha256 (av_environment a))) (λ _,
  slift s (ok_or (registry !! av_registered_tool_name a)
             (XRefused ("tool " +:+ av_registered_tool_name a +:+ " disappeared before execution"))) (λ tool,
  slift s (require (bool_decide (normalize_descriptor fs (tl_revalidate_effect tool (rq_effective_input request)
                                   (av_tool_execution a)) = rq_descriptor request))
             "effect footprint changed after approval; refusing stale authorization") (λ _,
  slift s (refuse (validate_environment_plugin_identities sha256 (xe_environment x))) (λ _,
  slift s (require (implementation_unchanged a tool)
             "tool implementation changed after approval; refusing stale authorization") (λ _,
  slift s (require (bool_decide (oe_plugins (xe_environment x) = oe_plugins (av_environment a)))
             "plugin implementation set changed after approval; refusing stale authorization") (λ _,
  slift s (require (bool_decide (oe_provider (xe_environment x) = oe_provider (av_environment a)) &&
                    bool_decide (oe_hook_order (xe_environment x) = oe_hook_order (av_environment a)))
             stale_environment) (λ _,
  let em := stricter_permission_mode (av_mode a) (mode (xs_cells s) (xe_permissions x)) in
  let e := evaluate_at_with s fs now x request em (av_ceiling a) in
  slift s (require (bool_decide (pe_decision e = Allow)) (no_longer_allowed (pe_reason e))) (λ _,
  sbind (use_matched_lease s fs now x request (negb (is_process request) && pe_matched_lease e)) (λ s _,
  sbind (tool_execution_context_for_mode s fs x (av_tool_execution a) em) (λ s te,
  let te := if bool_decide (av_registered_tool_name a ∈ ["Read"; "Glob"; "Grep"])
            then set_evidence_scope te (authorization_digest x a em e,
                   read_only_evidence_environment_digest sha256 to_vec (xe_environment x) (av_registered_tool_name a))
            else te in
  if is_process request then
    slift s (process_spawn_authorization request (av_environment a) (av_mode a) (av_ceiling a)
               (te_sandbox_workspace_root te) (pe_matched_lease e) None) (λ authorizer,
    (s, Ok (set_spawn_authorization te authorizer)))
  else (s, Ok te))))))))))).

(** ** Creating a process *)

(** [BoundaryIdentityPolicy::seal_workspace_root]. *)
Definition seal_boundary_root (fs : FileSystem I) (p : BoundaryIdentityPolicy I) (path : Path) : result K string :=
  ensure (negb (bi_invalid p)) "execution boundary root identity is invalid" ;;?
  let? requested := ok_or (normalize_absolute_path fs path) "workspace root path is not a normalized absolute path" in
  let? root := ok_or (find (λ root, bool_decide (br_requested_path root = requested) &&
                                    match br_exact_kind root with Some KDirectory => true | _ => false end &&
                                    bool_decide (is_Some (br_directory_authority root))) (bi_roots p))
                 "workspace root is not an exact opened directory boundary" in
  let? authority := ok_or (br_directory_authority root) "workspace directory authority is unavailable" in
  seal_authority authority (br_anchor_path root).

Definition seal_workspace_root_for_process_spawn (fs : FileSystem I) (h : Cells I) (x : PermissionContext)
    (path : Path) : result K string :=
  ensure (boundary_identities_valid fs h x) "execution boundary root identity changed" ;;?
  let? capability := seal_boundary_root fs (identities_at h (px_boundary_identities x)) path in
  ensure (forallb (λ a, validates_current_paths fs (identities_at h a)) (px_boundary_identity_ceilings x))
    "execution boundary ceiling identity changed" ;;?
  Ok capability.

(** [workspace_sandbox_with_launch_capability_and_network]. *)
Definition sandbox_with_capability (capability : K) (snapshot : list Path * list I) (domains : list string) :
    result LaunchPolicy ExecutionError :=
  match from_permission_domains domains with
  | Ok proxy => Ok (WorkspaceSandbox (capability_path capability) (Some capability) snapshot.1 snapshot.2 proxy)
  | Err e => Err (XNetwork e)
  end.

(** Everything [authorize_and_spawn_guarded] does before it creates the process;
    the policy it is created with. *)
Definition authorize_spawn (s : Execution) (fs : FileSystem I) (now : Z) (x : EffectContext) (a : SpawnAuthorizer) :
    Execution * result LaunchPolicy ExecutionError :=
  let request := az_request a in
  let resources := ed_resources (rq_descriptor request) in
  if az_spawn_consumed a then (s, Err (XRefused "process spawn authorization was already consumed"))
  else
  sbind (if az_approved_by_lease a then use_lease s fs now x request else (s, Ok false)) (λ s credential,
  slift s (check_environments x (az_approved_environment a)) (λ _,
  slift s (require (bool_decide (xe_environment x = az_approved_environment a)) stale_environment) (λ _,
  slift s (require (match az_required_plugin_implementation a with
                    | Some i => bool_decide (i ∈ oe_plugins (xe_environment x)) | None => true end)
             "approved plugin implementation disappeared before process spawn") (λ _,
  let em := stricter_permission_mode (az_approved_mode a) (mode (xs_cells s) (xe_permissions x)) in
  let e := evaluate_effect_for_final_process_spawn fs (xs_cells s) (xe_permissions x) now (xe_run_id x)
             (rq_capability request) request em (az_approved_ceiling a) in
  let covers := if az_approved_by_lease a then credential
                else current_boundary_allows_request fs (xs_cells s) (xe_permissions x) request in
  let credential_allows := bool_decide (em = az_approved_mode a) && covers &&
                           (bool_decide (pe_decision e = Ask) || bool_decide (pe_decision e = AutoReview)) in
  slift s (require (bool_decide (pe_decision e = Allow) || credential_allows)
             ("permission no longer allows effect before process spawn: " +:+ pe_reason e)) (λ _,
  slift s (require (negb (az_approved_by_lease a) || credential)
             "capability lease expired or was consumed before process spawn") (λ _,
  match em with
  | Plan => (s, Err (XRefused plan_mode))
  | Auto =>
      slift s (require (negb (rf_unrestricted_network resources))
                 "Auto process execution requires exact approved network domains") (λ _,
      slift s (ok_or (az_workspace_root a) (XRefused "Auto process execution requires exactly one workspace root"))
        (λ root,
      slift s (refuse (seal_workspace_root_for_process_spawn fs (xs_cells s) (xe_permissions x) root)) (λ capability,
      sbind (protected_snapshot s fs x) (λ s snapshot,
      (s, sandbox_with_capability capability snapshot (rf_network_domains resources))))))
  | Bypass => (s, Ok Ambient)
  end)))))).

Definition cleanup_reason (r : ProcessRecoveryRecord) : string :=
  "process cleanup recovery " +:+ decimal (pv_id r) +:+ " (" +:+
  match pv_kind r with StartedChild => "StartedChild" | WindowsAcl => "WindowsAcl" end +:+ ") is required".

(** A launch that may have happened leaves an unknown outcome. *)
Definition classify_process_spawn_error (s : Execution) (now : Z) (x : EffectContext) (request : EffectRequest)
    (e : SpawnError) : Execution * ExecutionError :=
  match e with
  | SpawnRecoveryRequired recovery =>
      let j := remember_process_recovery (xs_journal s) (rq_effect_id request) recovery in
      match record_process_recovery_outcome_unknown sha256 to_vec j x now request (cleanup_reason recovery) recovery with
      | (j, Ok _) => (set_journal s j, XSpawn e)
      | (j, Err r) => (set_journal s j, XSpawnUnrecorded e r)
      end
  | SpawnOutcomeUnknown =>
      match record_effect_outcome_unknown sha256 to_vec (xs_journal s) x now request
              "released process launch outcome is unknown" with
      | (j, Ok _) => (set_journal s j, XSpawn e)
      | (j, Err r) => (set_journal s j, XSpawnUnrecorded e r)
      end
  | SpawnFailed => (s, XSpawn e)
  end.

(** The call with the process it may create; [spawn] is called for the policies
    of the list. *)
Definition authorize_and_spawn_guarded {C} (spawn : LaunchPolicy → result C SpawnError) (s : Execution)
    (fs : FileSystem I) (now : Z) (x : EffectContext) (a : SpawnAuthorizer) :
    Execution * SpawnAuthorizer * list LaunchPolicy * result C ExecutionError :=
  match authorize_spawn s fs now x a with
  | (s, Ok policy) =>
      match spawn policy with
      | Ok child => (s, spend a, [policy], Ok child)
      | Err e => match classify_process_spawn_error s now x (az_request a) e with
                 | (s, e) => (s, spend a, [policy], Err e)
                 end
      end
  | (s, Err e) => (s, spend a, [], Err e)
  end.
End execution.
