(* ===== verification/AuthorizationFacts.v ===== *)
(** * Processes are created as they were approved

    What is known when [authorize_and_spawn_guarded] creates a process, and that
    one authorization creates at most one. *)
From S2P Require Import ResourceTypes Prelude Json Types WorkflowTypes Identity TaskRegistry RuntimeLedger LedgerFacts Registries.
From S2P Require Import LedgerInterface MessageBus CollaborationTypes WorkflowRuns.
From S2P Require Import Paths NetworkDomains PermissionTypes PermissionEngine ProtectedPaths PermissionContext PermissionFacts PermissionLeases PermissionHistory PermissionExamples EffectAudit EffectTypes EffectEnvironment EffectJournal EffectFacts EffectExamples EffectAuthorization.

(** ** Evaluations that do not deny *)

Section evaluation.
Context {I : Type} `{EqDecision I} (fs : FileSystem I).
Context (h : Cells I) (x : PermissionContext) (now : Z) (run_id : RunId) (request : EffectRequest).
Context (m : PermissionMode) (c : PermissionCeiling) (invoke : bool).
Notation evaluation :=
  (evaluate_effect_with_reviewer_policy fs h x now run_id (rq_capability request) request m c invoke).

Lemma not_denied :
  pe_decision evaluation ≠ Deny →
  base_decision fs h x request m ≠ Deny ∧ (m ≠ Bypass → permissible fs h x request m c).
Proof.
  unfold evaluate_effect_with_reviewer_policy. rewrite bool_decide_eq_false_2 by (by intros ?). 
  destruct (decide (m = Bypass)) as [Hm|Hm].
  { intros Hd. split; [|done]. intros Hb. apply Hd. pose proof (engine_decision fs h x request m ceiling_unrestricted) as He.
    rewrite Hm in He, Hb. rewrite He, ceiling_unrestricted_allows, Hb. done. }
  fold (effective h x m c). destruct (boundary_identities_valid fs h x) eqn:Hid; cbn [negb]; [|done].
  pose proof (effective_decision fs h x request m c Hm) as He. set (ev := engine_evaluate _ _ _ _) in *.
  destruct (decide (pe_decision ev = Deny)) as [Hd|Hd]; [done|].
  destruct (within_ceiling h x request m c) eqn:Hw; [|congruence].
  destruct (protects_descriptor fs _ _) eqn:Hpr; [done|].
  destruct (existsb _ (px_boundary_ceilings x)) eqn:Hex; [done|]. intros _.
  split; [congruence|]. intros _. split; [done|done|done|]. apply Forall_forall. intros b Hin.
  destruct (boundary_allows fs b _) eqn:Hb; [done|].
  assert (existsb (λ b, negb (boundary_allows fs b (rq_descriptor request))) (px_boundary_ceilings x) = true) as Ht;
    [|by rewrite Ht in Hex]. apply existsb_exists. exists b. by rewrite Hb, <-list_elem_of_In.
Qed.
End evaluation.

(** ** Leases *)

(** A use of a lease was persisted. *)
Lemma consume_entry_persisted {I W E} (fs : FileSystem I) (persist : W → string → Z → W * result unit E) w l run request
    now w' l' :
  consume_entry fs persist w l run request now = (w', l', Ok true) → ∃ id n, persist w id n = (w', Ok tt).
Proof.
  revert w' l'. induction l as [|e l IH]; intros w' l'; cbn [consume_entry]; [done|].
  destruct (lease_matches fs e run request now).
  - destruct (persist w _ _) as [w1 [[]|er]] eqn:Hp; [|done]. intros H. injection H as <- <-. eauto.
  - destruct (consume_entry _ _ _ l _ _ _) as [[w1 l1] r1] eqn:Hc. intros H. injection H as <- <- ->. by eapply IH.
Qed.

Section spawn.
Context (sha256 : string → list Byte.byte) (to_vec : Value → string).
Context {D K I X : Type} `{!Directory D} `{EqDecision I}.
Context (seal_authority : I → Path → result K string) (capability_path : K → Path).
Notation Execution := (Execution D K I X).
Notation LaunchPolicy := (ProcessLaunchPolicy K I).

Lemma use_lease_recorded (s s' : Execution) fs now x request :
  use_lease s fs now x request = (s', Ok true) →
  ∃ r, journal_records (xs_journal s') x = journal_records (xs_journal s) x ++ [r] ∧
    lr_record_type r = "capability_lease_consumed" ∧ get_str "effect_id" (lr_payload r) = Some (rq_effect_id request).
Proof.
  unfold use_lease, consume_lease_durably, consume_lease_with.
  destruct (consume_entry _ _ _ _ _ _ _) as [[l h] [[]|e]] eqn:Hc; intros H; try (by apply (f_equal snd) in H).
  apply (f_equal fst) in H. cbn [fst] in H. subst s'. apply consume_entry_persisted in Hc as (id & n & Hp).
  unfold persist_consumption, lg_append in Hp. cbn [in_memory_ledger] in Hp. unfold append in Hp.
  rewrite decide_True in Hp by done. apply (f_equal fst) in Hp. cbn [fst] in Hp. subst l.
  eexists. unfold journal_records. cbn [set_cells set_journal set_ledger xs_journal jo_ledger].
  rewrite run_records_push. rewrite decide_True by done. split_and!; reflexivity.
Qed.

(** The mode a process is created in. *)
Definition execution_mode (s : Execution) (x : EffectContext) (a : SpawnAuthorizer) : PermissionMode :=
  stricter_permission_mode (az_approved_mode a) (mode (xs_cells s) (xe_permissions x)).

(** The sandbox is that of the workspace root, sealed by the boundary of the
    context; it protects the state of the program and its network is the approved one. *)
Definition sandboxed (s : Execution) (fs : FileSystem I) (x : EffectContext) (a : SpawnAuthorizer)
    (policy : LaunchPolicy) : Prop :=
  let resources := ed_resources (rq_descriptor (az_request a)) in
  rf_unrestricted_network resources = false ∧
  ∃ root capability identities proxy protected,
    az_workspace_root a = Some root ∧
    seal_workspace_root_for_process_spawn seal_authority fs (xs_cells s) (xe_permissions x) root = Ok capability ∧
    (process_snapshot fs (protected_paths (xs_cells s) (xe_permissions x))).2 = Ok (protected, identities) ∧
    from_permission_domains (rf_network_domains resources) = Ok proxy ∧
    policy = WorkspaceSandbox (capability_path capability) (Some capability) protected identities proxy.

(** What is known when a process is created under [policy]: [sl] is the state
    after the use of the lease. *)
Record launched (s sl : Execution) (fs : FileSystem I) (now : Z) (x : EffectContext) (a : SpawnAuthorizer)
    (policy : LaunchPolicy) : Prop := {
  la_unspent : az_spawn_consumed a = false;
  la_environment : xe_environment x = az_approved_environment a;
  la_plugin : ∀ i, az_required_plugin_implementation a = Some i → i ∈ oe_plugins (xe_environment x);
  la_lease : if az_approved_by_lease a then use_lease s fs now x (az_request a) = (sl, Ok true) else sl = s;
  la_rules : base_decision fs (xs_cells sl) (xe_permissions x) (az_request a) (execution_mode sl x a) ≠ Deny;
  la_permissible : execution_mode sl x a ≠ Bypass →
    permissible fs (xs_cells sl) (xe_permissions x) (az_request a) (execution_mode sl x a) (az_approved_ceiling a);
  la_approved : az_approved_by_lease a = true ∨
    pe_decision (evaluate_effect_for_final_process_spawn fs (xs_cells sl) (xe_permissions x) now (xe_run_id x)
      (rq_capability (az_request a)) (az_request a) (execution_mode sl x a) (az_approved_ceiling a)) = Allow ∨
    execution_mode sl x a = az_approved_mode a ∧
    current_boundary_allows_request fs (xs_cells sl) (xe_permissions x) (az_request a) = true;
  la_policy : match execution_mode sl x a with
              | Plan => False
              | Auto => sandboxed sl fs x a policy
              | Bypass => policy = Ambient ∧ az_approved_mode a = Bypass ∧ mode (xs_cells sl) (xe_permissions x) = Bypass
              end;
}.

Lemma require_true b reason u : require b reason = Ok u → b = true.
Proof. unfold require, ensure. by destruct b. Qed.
Lemma refuse_ok {A} (r : result A string) a : refuse r = Ok a → r = Ok a.
Proof. destruct r; cbn; [|done]. by intros [= ->]. Qed.

Lemma lease_credential (s : Execution) fs now x a sl credential :
  (if az_approved_by_lease a then use_lease s fs now x (az_request a) else (s, Ok false)) = (sl, Ok credential) →
  negb (az_approved_by_lease a) || credential = true →
  if az_approved_by_lease a then use_lease s fs now x (az_request a) = (sl, Ok true) else sl = s.
Proof. destruct (az_approved_by_lease a); cbn [negb orb]; [by intros H ->|]. by intros [= <- _]. Qed.

(** The policy for the mode. *)
Lemma launch_policy (sl s' : Execution) fs x a policy em :
  match em with
  | Plan => (sl, Err (XRefused plan_mode))
  | Auto =>
      slift sl (require (negb (rf_unrestricted_network (ed_resources (rq_descriptor (az_request a)))))
                 "Auto process execution requires exact approved network domains") (λ _,
      slift sl (ok_or (az_workspace_root a) (XRefused "Auto process execution requires exactly one workspace root"))
        (λ root,
      slift sl (refuse (seal_workspace_root_for_process_spawn seal_authority fs (xs_cells sl) (xe_permissions x) root))
        (λ capability,
      sbind (protected_snapshot sl fs x) (λ s snapshot,
      (s, sandbox_with_capability capability_path capability snapshot
            (rf_network_domains (ed_resources (rq_descriptor (az_request a)))))))))
  | Bypass => (sl, Ok Ambient)
  end = (s', Ok policy) →
  match em with Plan => False | Auto => sandboxed sl fs x a policy | Bypass => policy = Ambient end.
Proof.
  destruct em; [done| |by intros [= _ <-]].
  intros (u & Hn%require_true & H)%slift_ok. apply slift_ok in H as (root & Hroot & H).
  apply slift_ok in H as (capability & Hcap%refuse_ok & H). apply sbind_ok in H as (s1 & [protected identities] & Hsnap & H).
  split; [by apply negb_true_iff|].
  unfold protected_snapshot, protected_process_snapshot in Hsnap.
  destruct (process_snapshot fs _) as [p r] eqn:Hp. apply (f_equal snd) in Hsnap. cbn [snd] in Hsnap.
  apply refuse_ok in Hsnap as ->. apply (f_equal snd) in H. cbn [snd] in H. unfold sandbox_with_capability in H.
  destruct (from_permission_domains _) as [proxy|] eqn:Hd; [|done]. injection H as <-.
  exists root, capability, identities, proxy, protected. split_and!; [|done..].
  by destruct (az_workspace_root a); [injection Hroot as ->|].
Qed.

Lemma authorize_spawn_launched (s s' : Execution) fs now x a policy :
  authorize_spawn sha256 seal_authority capability_path s fs now x a = (s', Ok policy) →
  ∃ sl, launched s sl fs now x a policy.
Proof.
  unfold authorize_spawn. destruct (az_spawn_consumed a) eqn:Hun; [done|].
  intros (sl & credential & Hlease & H)%sbind_ok. apply slift_ok in H as (u1 & _ & H).
  apply slift_ok in H as (u2 & Henv%require_true%bool_decide_eq_true & H).
  apply slift_ok in H as (u3 & Hplug%require_true & H).
  apply slift_ok in H as (u4 & Hdec%require_true & H). apply slift_ok in H as (u5 & Hcred%require_true & H).
  fold (execution_mode sl x a) in H, Hdec. apply launch_policy in H.
  set (e := evaluate_effect_for_final_process_spawn _ _ _ _ _ _ _ _ _) in *.
  assert (pe_decision e ≠ Deny) as Hnd.
  { intros Hd. rewrite Hd in Hdec. rewrite !bool_decide_eq_false_2 in Hdec by done. cbn in Hdec. by rewrite andb_false_r in Hdec. }
  apply not_denied in Hnd as [Hrules Hperm].
  pose proof (lease_credential _ _ _ _ _ _ _ Hlease Hcred) as Hl.
  exists sl. split; [done|done| |done|done|done| |].
  - intros i Hi. rewrite Hi in Hplug. by apply bool_decide_eq_true in Hplug.
  - destruct (az_approved_by_lease a); [by left|]. right. apply orb_true_iff in Hdec as [Hd|Hd].
    + left. by apply bool_decide_eq_true in Hd.
    + right. apply andb_true_iff in Hd as [Hd _]. apply andb_true_iff in Hd as [Hm%bool_decide_eq_true Hb]. done.
  - destruct (execution_mode sl x a) eqn:Hem; [done|done|]. split; [done|]. unfold execution_mode in Hem.
    by destruct (az_approved_mode a), (mode _ _).
Qed.

(** Calls of one authorization, whatever happens between them. *)
Record SpawnCall : Type := {
  sp_change : Execution → Execution;
  sp_fs : FileSystem I;
  sp_now : Z;
  sp_context : EffectContext;
}.
Fixpoint spawn_all {C} (spawn : LaunchPolicy → result C SpawnError) (s : Execution) (a : SpawnAuthorizer)
    (calls : list SpawnCall) : list LaunchPolicy :=
  match calls with
  | [] => []
  | c :: calls =>
      match authorize_and_spawn_guarded sha256 to_vec seal_authority capability_path spawn (sp_change c s) (sp_fs c)
              (sp_now c) (sp_context c) a with
      | (s, a, policies, _) => policies ++ spawn_all spawn s a calls
      end
  end.

Lemma spawn_call {C} (spawn : LaunchPolicy → result C SpawnError) (s s' : Execution) fs now x a a' policies r :
  authorize_and_spawn_guarded sha256 to_vec seal_authority capability_path spawn s fs now x a = (s', a', policies, r) →
  a' = spend a ∧ length policies ≤ 1 ∧ ∀ policy, policy ∈ policies → ∃ sl, launched s sl fs now x a policy.
Proof.
  unfold authorize_and_spawn_guarded. destruct (authorize_spawn _ _ _ _ _ _ _ _) as [s1 [policy|e]] eqn:Ha.
  - apply authorize_spawn_launched in Ha.
    assert (∀ p, p ∈ [policy] → ∃ sl, launched s sl fs now x a p) as Hp by (by intros p ->%list_elem_of_singleton).
    destruct (spawn policy) as [child|e]; [|destruct (classify_process_spawn_error _ _ _ _ _ _ _)]; intros [= _ <- <- _];
      (split_and!; [done|done|exact Hp]).
  - intros [= _ <- <- _]. split_and!; [done|simpl; lia|]. intros p Hp. by apply not_elem_of_nil in Hp.
Qed.

Lemma spawn_all_spent {C} (spawn : LaunchPolicy → result C SpawnError) s a calls :
  az_spawn_consumed a = true → spawn_all spawn s a calls = [].
Proof.
  revert s a. induction calls as [|c calls IH]; intros s a Ha; cbn [spawn_all]; [done|].
  destruct (authorize_and_spawn_guarded _ _ _ _ _ _ _ _ _ _) as [[[s' a'] policies] r] eqn:Hc.
  apply spawn_call in Hc as (-> & _ & Hp). rewrite IH by done. rewrite app_nil_r.
  destruct policies as [|p policies]; [done|]. destruct (Hp p) as (sl & Hl); [by left|].
  pose proof (la_unspent _ _ _ _ _ _ _ Hl). congruence.
Qed.
End spawn.

(** C19: one authorization creates at most one process, whatever happens between the
    calls and however they end; and a process is created only when the environment
    is the approved one, the plugin it needs is still there, an approving lease
    was used and recorded for it just before, no rule denies the effect, and the
    mode is the stricter of the approved and the current one: never Plan; in Auto the
    effect is within every ceiling, the approved one included, touches no protected
    path, lies within the boundaries of all ancestors and runs in the sandbox of the
    sealed workspace root, with the protected paths and exactly the approved network;
    an unconfined process needs Bypass both times. *)
Theorem spawns_as_approved (sha256 : string → list Byte.byte) (to_vec : Value → string) {D K I X C}
    `{!Directory D} `{EqDecision I} (seal_authority : I → Path → result K string) (capability_path : K → Path)
    (spawn : ProcessLaunchPolicy K I → result C SpawnError) (s s' : Execution D K I X) fs now x a a' policies r calls :
  authorize_and_spawn_guarded sha256 to_vec seal_authority capability_path spawn s fs now x a = (s', a', policies, r) →
  length (policies ++ spawn_all sha256 to_vec seal_authority capability_path spawn s' a' calls) ≤ 1 ∧
  ∀ policy, policy ∈ policies →
    ∃ sl, launched seal_authority capability_path s sl fs now x a policy ∧
      (az_approved_by_lease a = true → ∃ use,
         journal_records (xs_journal sl) x = journal_records (xs_journal s) x ++ [use] ∧
         lr_record_type use = "capability_lease_consumed" ∧
         get_str "effect_id" (lr_payload use) = Some (rq_effect_id (az_request a))).
Proof.
  intros (-> & Hlen & Hp)%spawn_call. split.
  - rewrite spawn_all_spent by done. by rewrite app_nil_r.
  - intros policy (sl & Hl)%Hp. exists sl. split; [done|]. intros Hlease.
    pose proof (la_lease _ _ _ _ _ _ _ _ _ Hl) as Hu. rewrite Hlease in Hu. by apply use_lease_recorded in Hu.
Qed.

(** ** A command in a workspace *)

Definition demo_cells : Cells nat := set_boundary demo_fs (boundary_workspace "/work") (wd_cells demo_w2) demo_root.
Definition demo_command : EffectRequest := demo_request (demo_descriptor Process [] ["git push"]).
Definition demo_execution : Execution (gmap string string) nat nat unit :=
  {| xs_journal := demo_journal; xs_cells := demo_cells; xs_approved_requests := ∅; xs_next_registration_id := 1 |}.
Definition demo_leased : Execution (gmap string string) nat nat unit :=
  (issue_approval_lease demo_sha demo_execution demo_context 5 "lease-1" demo_command false).1.
Definition demo_authorizer : SpawnAuthorizer :=
  {| az_request := demo_command; az_approved_environment := demo_environment; az_approved_mode := Auto;
     az_approved_ceiling := ceiling_unrestricted; az_workspace_root := Some (components "/work");
     az_approved_by_lease := true; az_required_plugin_implementation := None; az_spawn_consumed := false |}.
Definition demo_seal (i : nat) (p : Path) : result nat string := Ok i.
Definition demo_spawned :=
  authorize_and_spawn_guarded demo_sha demo_to_vec demo_seal (λ _, components "/work") (λ _, Ok tt) demo_leased demo_fs 6
    demo_context demo_authorizer.

(** The command runs in the sandbox of the workspace, and the authorization is spent. *)
Lemma spawns_as_approved_witness :
  match demo_spawned.1.2 with
  | [WorkspaceSandbox root _ protected _ _] =>
      root = components "/work" ∧ protected = [components "/state"; components "/state/runtime.db"]
  | _ => False
  end ∧
  length (demo_spawned.1.2 ++
    spawn_all demo_sha demo_to_vec demo_seal (λ _, components "/work") (λ _, @Ok unit SpawnError tt) demo_spawned.1.1.1
      demo_spawned.1.1.2 [{| sp_change := id; sp_fs := demo_fs; sp_now := 7; sp_context := demo_context |}]) ≤ 1.
Proof.
  split; [vm_compute; done|].
  apply (spawns_as_approved demo_sha demo_to_vec demo_seal (λ _, components "/work") (λ _, Ok tt) demo_leased
    demo_spawned.1.1.1 demo_fs 6 demo_context demo_authorizer demo_spawned.1.1.2 demo_spawned.1.2 demo_spawned.2).
  unfold demo_spawned. by destruct (authorize_and_spawn_guarded _ _ _ _ _ _ _ _ _ _) as [[[? ?] ?] ?].
Defined.
