(* ===== verification/LedgerRedaction.v ===== *)
(** * Redaction of ledger payloads

    [secret_safe_ledger_payload] of crates/solaris-agent/src/execution_context/
    redaction.rs: what a Host sees of a record.  Whatever the payload is, nothing
    of a command, an argument or a credential is left of it but a digest. *)
From S2P Require Import ResourceTypes Prelude Json Types WorkflowTypes Identity TaskRegistry RuntimeLedger Registries.
From S2P Require Import LedgerInterface MessageBus CollaborationTypes WorkflowRuns.
From S2P Require Import Paths PermissionTypes EffectAudit EffectAuditFacts EffectTypes EffectEnvironment.

(** ** Objects *)

(** [Map::remove], which keeps no order: the last entry takes the place. *)
Fixpoint swap_remove {A} (k : string) (l : list (string * A)) : list (string * A) :=
  match l with
  | [] => []
  | (k', v) :: l =>
      if decide (k = k') then match last l with Some z => z :: removelast l | None => [] end
      else (k', v) :: swap_remove k l
  end.

(** [if let Some(v) = object.get_mut(k)]; keys are unique. *)
Definition obj_update {A} (k : string) (f : A → A) (l : list (string * A)) : list (string * A) :=
  (λ kv, if decide (k = kv.1) then (kv.1, f kv.2) else kv) <$> l.

Definition map_array (f : Value → Value) (v : Value) : Value :=
  match v with VArray l => VArray (f <$> l) | v => v end.
Definition nonempty_array (v : Value) : bool :=
  match v with VArray (_ :: _) => true | _ => false end.
Definition is_null (v : Value) : bool := match v with VNull => true | _ => false end.

(** ** Markers *)

Definition is_bare_sha256_marker (s : string) : bool :=
  match strip_prefix "sha256:" s with
  | Some digest => bool_decide (byte_len digest = 64)%Z && all_bytes is_lower_hex digest
  | None => false
  end.

Definition is_redaction_marker (s : string) : bool :=
  is_bare_sha256_marker s ||
  existsb (λ label, match (suffix ← strip_prefix label s; strip_prefix ":" suffix) with
                    | Some rest => is_bare_sha256_marker rest
                    | None => false
                    end) ["secret"; "command"; "Process effect"].

(** A number in its own decimal form ([parse] refuses an empty text). *)
Definition is_argc_marker (s : string) : bool :=
  match strip_prefix "argc:" s with
  | Some count =>
      let parsed := NetworkDomains.decimal_value count 0 in
      nonempty_string count && all_bytes is_ascii_digit count && bool_decide (parsed ≤ u64_max)%Z &&
      bool_decide (count = decimal parsed)
  | None => false
  end.

Definition is_sensitive_ledger_key (key : string) : bool :=
  let key := to_ascii_lowercase key in
  bool_decide (key ∈ ["authorization"; "api_key"; "api-key"; "access_token"; "refresh_token"; "password";
                      "client_secret"; "effective_input"; "user_input"; "headers"; "cmd"; "command"; "env"]) ||
  contains key "secret".

Definition is_argv_key (key : string) : bool := bool_decide (to_ascii_lowercase key = "argv").

Section redaction.
Context (sha256 : string → list Byte.byte) (to_vec : Value → string).

Definition redact_scalar (label : string) (v : Value) : Value :=
  if is_null v || match v with VString s => is_redaction_marker s | _ => false end then v
  else VString (label +:+ ":sha256:" +:+ stable_digest_value sha256 to_vec v).

Definition already_redacted (argv : Value) : bool :=
  match argv with
  | VArray [VString digest; VString count] => is_bare_sha256_marker digest && is_argc_marker count
  | _ => false
  end.

Definition redact_argv (argv : Value) : Value :=
  if already_redacted argv then argv
  else VArray [VString ("sha256:" +:+ stable_digest_value sha256 to_vec argv);
               VString ("argc:" +:+ decimal (Z.of_nat (match argv with VArray l => length l | _ => 0 end)))].

(** ** Descriptors *)

Definition fallback_projection (v : Value) : Value :=
  VObject [("version", VString AUDIT_VERSION); ("redacted", VBool true);
           ("descriptor_digest", VString ("sha256:" +:+ stable_digest_value sha256 to_vec v))].

Definition is_exact_fallback_projection (v : Value) : bool :=
  match v with
  | VObject l =>
      bool_decide (length l = 3) && bool_decide (get_str "version" v = Some AUDIT_VERSION) &&
      bool_decide ((w ← get "redacted" v; as_bool w) = Some true) &&
      match get_str "descriptor_digest" v with Some d => is_bare_sha256_marker d | None => false end
  | _ => false
  end.

Definition legacy_effect_projection (v : Value) : Value :=
  match (from_value v : option EffectDescriptor) with
  | Some d => to_value (from_descriptor sha256 d)
  | None => fallback_projection v
  end.

Definition is_safe_projection (v : Value) : bool :=
  match (from_value v : option EffectAuditProjection) with Some p => is_secret_safe sha256 p | None => false end.

(** The value it becomes, if it is one of an effect. *)
Definition normalize_effect_projection (v : Value) : option Value :=
  if is_exact_fallback_projection v then Some v
  else if is_safe_projection v then Some v
  else match (from_value v : option EffectDescriptor) with
       | Some d => Some (to_value (from_descriptor sha256 d))
       | None =>
           if bool_decide (is_Some (get "version" v)) || bool_decide (is_Some (get "descriptor_digest" v))
           then Some (fallback_projection v) else None
       end.

Definition project_descriptor (l : list (string * Value)) : list (string * Value) :=
  match assoc "descriptor" l with
  | Some raw => obj_insert "effect" (legacy_effect_projection raw) (swap_remove "descriptor" l)
  | None => l
  end.

(** ** The walk *)

Definition entry_is (k : string) (p : Value → bool) (l : list (string * Value)) : bool :=
  match assoc k l with Some v => p v | None => false end.

Definition is_process_object (l : list (string * Value)) : bool :=
  entry_is "process_commands" nonempty_array l || entry_is "process_command_prefix" (λ v, negb (is_null v)) l ||
  entry_is "process_invocations" nonempty_array l ||
  entry_is "class" (λ v, match v with VString s => bool_decide (s = "process") | _ => false end) l.

Definition redact_invocation (v : Value) : Value :=
  match v with VObject l => VObject (obj_update "argv" redact_argv l) | v => v end.

Definition redact_entry (walk : Value → Value) (k : string) (v : Value) : Value :=
  match (if bool_decide (k = "effect") then normalize_effect_projection v else None) with
  | Some v => v
  | None =>
      if is_argv_key k then redact_argv v
      else if is_sensitive_ledger_key k then redact_scalar "secret" v
      else walk v
  end.

Fixpoint redact_ledger_value (fuel : nat) (v : Value) : Value :=
  match fuel with
  | O => v
  | S fuel =>
      match v with
      | VArray l => VArray (redact_ledger_value fuel <$> l)
      | VObject l =>
          let l := project_descriptor l in
          let l := if is_process_object l then obj_update "action" (redact_scalar "Process effect") l else l in
          let l := obj_update "process_commands" (map_array (redact_scalar "command")) l in
          let l := obj_update "process_command_prefix" (redact_scalar "command") l in
          let l := obj_update "process_invocations" (map_array redact_invocation) l in
          VObject ((λ kv, (kv.1, redact_entry (redact_ledger_value fuel) kv.1 kv.2)) <$> l)
      | v => v
      end
  end.
End redaction.

(** How deep the walk goes: arguments are replaced, not walked. *)
Fixpoint depth (v : Value) : nat :=
  match v with
  | VArray l => S (list_max (List.map depth l))
  | VObject l => S (list_max (List.map (λ kv, match kv with (k, w) => if is_argv_key k then 0 else depth w end) l))
  | _ => 0
  end.

Definition secret_safe_ledger_payload (sha256 : string → list Byte.byte) (to_vec : Value → string) (v : Value) : Value :=
  redact_ledger_value sha256 to_vec (depth v) v.

(** ** What is left *)

Section redacted.
Context (sha256 : string → list Byte.byte).

Definition marked (v : Value) : Prop := v = VNull ∨ ∃ s, v = VString s ∧ is_redaction_marker s = true.
Definition argv_marked (v : Value) : Prop :=
  ∃ digest n, v = VArray [VString digest; VString ("argc:" +:+ decimal n)] ∧ is_bare_sha256_marker digest = true.
Definition projected (v : Value) : Prop :=
  is_exact_fallback_projection v = true ∨ is_safe_projection sha256 v = true ∨
  ∃ d, v = to_value (from_descriptor sha256 d).
Definition scalar (v : Value) : bool := match v with VArray _ | VObject _ => false | _ => true end.

(** The entries of an object that show nothing: [process] says that it describes
    a process. *)
Definition process_marked (process : bool) (k : string) (v : Value) : Prop :=
  k ≠ "descriptor" ∧
  (k = "action" → process = true → marked v) ∧
  (k = "process_commands" → ∀ l, v = VArray l → Forall marked l) ∧
  (k = "process_command_prefix" → marked v).

(** What is shown at every depth.  The commands of a process are markers where
    they are an array, as [EffectDescriptor] writes them; arguments and the values
    under credential keys are replaced whatever they are; and an effect that has a
    version or a descriptor digest is an audit projection. *)
Inductive redacted : Value → Prop :=
  | rd_scalar v : scalar v = true → redacted v
  | rd_array l : Forall redacted l → redacted (VArray l)
  | rd_object l :
      Forall (λ kv, process_marked (is_process_object l) kv.1 kv.2) l →
      Forall (λ kv, kv.1 = "effect" ∧ projected kv.2 ∨
                    is_argv_key kv.1 = true ∧ argv_marked kv.2 ∨
                    is_argv_key kv.1 = false ∧ is_sensitive_ledger_key kv.1 = true ∧ marked kv.2 ∨
                    is_argv_key kv.1 = false ∧ is_sensitive_ledger_key kv.1 = false ∧ redacted kv.2 ∧
                    (kv.1 = "effect" → get "version" kv.2 = None ∧ get "descriptor_digest" kv.2 = None)) l →
      redacted (VObject l).
End redacted.

(** ** Facts *)

Lemma swap_remove_subset {A} k (l : list (string * A)) kv : kv ∈ swap_remove k l → kv ∈ l.
Proof.
  induction l as [|[k' v] l IH]; cbn [swap_remove]; [done|]. case_decide as Hk.
  - destruct (last l) as [z|] eqn:Hz; [|by intros ?%not_elem_of_nil]. apply last_Some in Hz as [l' ->].
    rewrite removelast_last. intros [->|Hin]%elem_of_cons; set_solver.
  - intros [->|Hin]%elem_of_cons; [by left|]. right. auto.
Qed.

Lemma swap_remove_absent {A} k (l : list (string * A)) kv : NoDup l.*1 → kv ∈ swap_remove k l → kv.1 ≠ k.
Proof.
  induction l as [|[k' v] l IH]; cbn [swap_remove fmap list_fmap fst]; [by intros _ ?%not_elem_of_nil|].
  rewrite NoDup_cons. intros [Hk Hl]. case_decide as Hd.
  - subst k'. intros Hin He. apply Hk. rewrite <-He. destruct (last l) as [z|] eqn:Hz; [|by apply not_elem_of_nil in Hin].
    apply last_Some in Hz as [l' ->]. rewrite removelast_last in Hin. apply list_elem_of_fmap. exists kv. split; [done|].
    apply elem_of_cons in Hin as [->|Hin]; set_solver.
  - intros [->|Hin]%elem_of_cons; [by apply not_eq_sym|auto].
Qed.

Lemma obj_insert_elem {A} k (v : A) l kv : kv ∈ obj_insert k v l → kv = (k, v) ∨ kv ∈ l.
Proof.
  induction l as [|[k' v'] l IH]; cbn [obj_insert]; [set_solver|]. case_decide; [set_solver|].
  intros [->|[->|Hin]%IH]%elem_of_cons; set_solver.
Qed.

(** The entries before the walk: the old ones and the projection of a descriptor. *)
Lemma project_descriptor_elem sha256 to_vec l k v :
  NoDup l.*1 → (k, v) ∈ project_descriptor sha256 to_vec l →
  k ≠ "descriptor" ∧ ((k, v) ∈ l ∨ k = "effect" ∧ is_Some (get "version" v)).
Proof.
  intros Hl. unfold project_descriptor. destruct (assoc "descriptor" l) as [raw|] eqn:Hr.
  - intros [H|Hin]%obj_insert_elem.
    + injection H as -> ->. split; [done|]. right. split; [done|]. unfold legacy_effect_projection.
      destruct (from_value raw : option EffectDescriptor); by eexists.
    + pose proof (swap_remove_absent _ _ _ Hl Hin). apply swap_remove_subset in Hin. auto.
  - intros Hin. split; [|by left]. intros ->. assert (is_Some (assoc "descriptor" l)) as Hs; [|by rewrite Hr in Hs; destruct Hs].
    apply assoc_is_Some, list_elem_of_fmap. by exists ("descriptor", v).
Qed.


Lemma assoc_obj_insert {A} k (v : A) l : assoc k (obj_insert k v l) = Some v.
Proof.
  induction l as [|[k' v'] l IH]; cbn [obj_insert assoc]; [by rewrite decide_True|].
  case_decide as Hk; cbn [assoc]; [subst; by rewrite decide_True|by rewrite decide_False].
Qed.

Lemma assoc_fmap {A} k (f : string → A → A) (l : list (string * A)) :
  assoc k ((λ kv, (kv.1, f kv.1 kv.2)) <$> l) = f k <$> assoc k l.
Proof. induction l as [|[k' v] l IH]; [done|]. cbn. case_decide; [by subst|done]. Qed.

Lemma list_max_map_le {A} (f : A → nat) l n : list_max (List.map f l) ≤ n ↔ Forall (λ a, f a ≤ n) l.
Proof.
  induction l as [|a l IH]; [split; [constructor|cbn; lia]|].
  change (list_max (List.map f (a :: l))) with (f a `max` list_max (List.map f l)). rewrite Forall_cons, <-IH. lia.
Qed.

Lemma strip_prefix_Some p s s' : strip_prefix p s = Some s' → s = p +:+ s'.
Proof.
  unfold strip_prefix, starts_with. revert s.
  induction p as [|a p IH]; intros s; [by destruct s; intros [= <-]|]. destruct s as [|b s]; [done|].
  cbn [String.prefix drop_bytes String.length]. destruct (Ascii.ascii_dec a b) as [->|]; [|done].
  intros H%IH. by subst.
Qed.

Section facts.
Context (sha256 : string → list Byte.byte) (to_vec : Value → string) (Hsha : ∀ x, length (sha256 x) = 32).
Notation walk := (redact_ledger_value sha256 to_vec).
Notation redact_scalar := (redact_scalar sha256 to_vec).
Notation redact_argv := (redact_argv sha256 to_vec).
Notation redact_invocation := (redact_invocation sha256 to_vec).

Lemma bare_marker s : is_bare_sha256_marker ("sha256:" +:+ stable_digest_bytes sha256 s) = true.
Proof.
  unfold is_bare_sha256_marker. rewrite strip_prefix_app. unfold stable_digest_bytes. apply andb_true_iff. split.
  - apply bool_decide_eq_true. unfold byte_len. by rewrite lower_hex_length, Hsha.
  - unfold all_bytes. by rewrite any_byte_lower_hex.
Qed.

Lemma redact_scalar_marked label v : label ∈ ["secret"; "command"; "Process effect"] → marked (redact_scalar label v).
Proof.
  intros Hin. unfold LedgerRedaction.redact_scalar. destruct (is_null v) eqn:Hn; [left; by destruct v|]. cbn [orb].
  destruct (match v with VString s => is_redaction_marker s | _ => false end) eqn:Hm.
  - right. destruct v; try done. eauto.
  - right. eexists. split; [done|]. unfold is_redaction_marker. apply orb_true_iff. right. apply existsb_exists.
    exists label. split; [by apply list_elem_of_In|]. rewrite strip_prefix_app.
    assert (strip_prefix ":" (":sha256:" +:+ stable_digest_value sha256 to_vec v) =
            Some ("sha256:" +:+ stable_digest_value sha256 to_vec v)) as E by reflexivity.
    setoid_rewrite E. apply bare_marker.
Qed.
Lemma redact_argv_marked v : argv_marked (redact_argv v).
Proof.
  unfold LedgerRedaction.redact_argv. destruct (already_redacted v) eqn:Ha.
  - destruct v as [| | | |[|[] [|[] []]]|]; try done. cbn [already_redacted] in Ha. apply andb_true_iff in Ha as [Hd Hc].
    unfold is_argc_marker in Hc. destruct (strip_prefix "argc:" s0) as [count|] eqn:Hp; [|done].
    apply strip_prefix_Some in Hp as ->. apply andb_true_iff in Hc as [_ Hc%bool_decide_eq_true].
    exists s, (NetworkDomains.decimal_value count 0). by rewrite <-Hc.
  - eexists _, _. split; [done|]. apply bare_marker.
Qed.

Lemma walk_scalar n v : scalar v = true → walk n v = v.
Proof. destruct n; [done|]. by destruct v. Qed.
Lemma walk_marked n v : marked v → walk n v = v.
Proof. intros [->|(s & -> & _)]; by apply walk_scalar. Qed.
Lemma depth_scalar v : depth v ≤ 0 → scalar v = true.
Proof. destruct v; cbn; try done; lia. Qed.

(** The passes before the walk touch each its own key. *)
Definition pre (process : bool) (k : string) (v : Value) : Value :=
  if decide (k = "action") then (if process then redact_scalar "Process effect" v else v)
  else if decide (k = "process_commands") then map_array (redact_scalar "command") v
  else if decide (k = "process_command_prefix") then redact_scalar "command" v
  else if decide (k = "process_invocations") then map_array redact_invocation v
  else v.
Definition entry (n : nat) (process : bool) (k : string) (v : Value) : Value :=
  redact_entry sha256 to_vec (walk n) k (pre process k v).

Lemma entry_action n process v :
  entry n process "action" v = walk n (if process then redact_scalar "Process effect" v else v).
Proof. done. Qed.
Lemma entry_commands n process v : entry n process "process_commands" v = walk n (map_array (redact_scalar "command") v).
Proof. done. Qed.
Lemma entry_prefix n process v : entry n process "process_command_prefix" v = walk n (redact_scalar "command" v).
Proof. done. Qed.
Lemma entry_invocations n process v : entry n process "process_invocations" v = walk n (map_array redact_invocation v).
Proof. done. Qed.
Lemma entry_class n process v : entry n process "class" v = walk n v.
Proof. done. Qed.

Lemma walk_object n l :
  let l1 := project_descriptor sha256 to_vec l in
  walk (S n) (VObject l) = VObject ((λ kv, (kv.1, entry n (is_process_object l1) kv.1 kv.2)) <$> l1).
Proof.
  cbn [redact_ledger_value]. set (l1 := project_descriptor sha256 to_vec l). f_equal.
  assert (∀ b f, (if b : bool then obj_update "action" f l1 else l1) = obj_update "action" (λ v, if b then f v else v) l1) as E.
  { intros [] f; [done|]. unfold obj_update. symmetry. erewrite list_fmap_ext; [apply list_fmap_id|]. intros ? [k v] _. cbn. by case_decide. }
  rewrite E. unfold obj_update. rewrite <-!list_fmap_compose. apply list_fmap_ext. intros _ [k v] _.
  unfold compose, entry. cbn [fst snd]. unfold pre.
  repeat (case_decide; subst; cbn [fst snd]; try done).
Qed.

Lemma walk_scalar_inv n v : scalar (walk n v) = scalar v.
Proof. destruct n; [done|]. by destruct v. Qed.

(** What replaces a value is no deeper, and well formed. *)
Lemma redact_scalar_wf label v : value_wf v → value_wf (redact_scalar label v).
Proof. intros Hv. unfold LedgerRedaction.redact_scalar. by case_match. Qed.
Lemma redact_scalar_depth label v : depth (redact_scalar label v) ≤ depth v.
Proof. unfold LedgerRedaction.redact_scalar. case_match; cbn; lia. Qed.
Lemma redact_argv_wf v : value_wf v → value_wf (redact_argv v).
Proof. intros Hv. unfold LedgerRedaction.redact_argv. by case_match. Qed.

Lemma map_array_wf f v : (∀ w, value_wf w → value_wf (f w)) → value_wf v → value_wf (map_array f v).
Proof.
  intros Hf. destruct v; try done. cbn [map_array]. rewrite !value_wf_array, Forall_fmap. intros Hl.
  eapply Forall_impl; [exact Hl|exact Hf].
Qed.

Lemma map_array_depth f v : (∀ w, depth (f w) ≤ depth w) → depth (map_array f v) ≤ depth v.
Proof.
  intros Hf. destruct v as [| | | |l|]; cbn [map_array]; try done. cbn [depth]. apply le_n_S, list_max_map_le.
  apply Forall_fmap. assert (list_max (List.map depth l) ≤ list_max (List.map depth l)) as H by done.
  apply list_max_map_le in H. eapply Forall_impl; [exact H|]. cbn. intros w Hw. specialize (Hf w). lia.
Qed.

Lemma redact_invocation_wf v : value_wf v → value_wf (redact_invocation v).
Proof.
  destruct v as [| | | | |l]; try done. cbn [LedgerRedaction.redact_invocation]. rewrite !value_wf_object. intros [Hk Hl].
  unfold obj_update. split.
  - rewrite <-list_fmap_compose. erewrite list_fmap_ext; [exact Hk|]. intros ? [k v] _. unfold compose. cbn. by case_decide.
  - rewrite Forall_fmap. eapply Forall_impl; [exact Hl|]. intros [k v] Hv. unfold compose. cbn in *.
    case_decide; [by apply redact_argv_wf|done].
Qed.

Lemma redact_invocation_depth v : depth (redact_invocation v) ≤ depth v.
Proof.
  destruct v as [| | | | |l]; try done. cbn [LedgerRedaction.redact_invocation depth]. unfold obj_update. apply le_n_S.
  apply Nat.eq_le_incl. f_equal. change @List.map with @list_fmap. rewrite <-(list_fmap_compose _ _ l).
  apply list_fmap_ext. intros _ [k v] _. unfold compose. cbn [fst snd]. case_decide as Hk; [|done].
  cbn [fst snd]. by subst k.
Qed.

Lemma pre_wf process k v : value_wf v → value_wf (pre process k v).
Proof.
  intros Hv. unfold pre. repeat case_decide; [destruct process| | | |]; auto using redact_scalar_wf, map_array_wf, redact_invocation_wf.
Qed.
Lemma pre_depth process k v : depth (pre process k v) ≤ depth v.
Proof.
  unfold pre. repeat case_decide; [destruct process| | | |]; auto using redact_scalar_depth, map_array_depth, redact_invocation_depth.
Qed.

(** What the walk leaves describes a process only if it did before. *)
Lemma entry_is_fmap f k p l : entry_is k p ((λ kv, (kv.1, f kv.1 kv.2)) <$> l) = entry_is k (λ v, p (f k v)) l.
Proof. unfold entry_is. rewrite assoc_fmap. by destruct (assoc k l). Qed.
Lemma entry_is_impl k (p q : Value → bool) l : (∀ v, p v = true → q v = true) → entry_is k p l = true → entry_is k q l = true.
Proof. unfold entry_is. intros H. destruct (assoc k l); [apply H|done]. Qed.

Lemma walk_nonempty_array n v : nonempty_array (walk n v) = nonempty_array v.
Proof. destruct n; [done|]. by destruct v as [| | | |[]|]. Qed.
Lemma walk_is_null n v : is_null (walk n v) = is_null v.
Proof. destruct n; [done|]. by destruct v. Qed.
Lemma map_array_nonempty f v : nonempty_array (map_array f v) = nonempty_array v.
Proof. by destruct v as [| | | |[]|]. Qed.
Lemma redact_scalar_null label v : is_null (redact_scalar label v) = is_null v.
Proof. unfold LedgerRedaction.redact_scalar. by destruct v as [| | |s| |]; try done; cbn [is_null orb]; destruct (is_redaction_marker s). Qed.

Lemma is_process_object_entries n process l :
  is_process_object ((λ kv, (kv.1, entry n process kv.1 kv.2)) <$> l) = true → is_process_object l = true.
Proof.
  unfold is_process_object. rewrite !(entry_is_fmap (entry n process)), !orb_true_iff.
  intros [[[H|H]|H]|H]; [left; left; left|left; left; right|left; right|right]; revert H; apply entry_is_impl; intros v.
  - by rewrite entry_commands, walk_nonempty_array, map_array_nonempty.
  - by rewrite entry_prefix, walk_is_null, redact_scalar_null.
  - by rewrite entry_invocations, walk_nonempty_array, map_array_nonempty.
  - rewrite entry_class. destruct (scalar v) eqn:Hs; [by rewrite walk_scalar|].
    destruct n; [done|]. by destruct v.
Qed.

(** What one entry becomes. *)
Lemma entry_process_marked n process k v :
  k ≠ "descriptor" → process_marked process k (entry n process k v).
Proof.
  intros Hk. split_and!; [done|intros -> ->|intros -> l|intros ->].
  - rewrite entry_action.
    assert (marked (redact_scalar "Process effect" v)) as Hm by (apply redact_scalar_marked; set_solver). by rewrite walk_marked.
  - rewrite entry_commands.
    intros Hw. assert (∃ l', v = VArray l') as [l' ->].
    { destruct n, v; try done; eauto. }
    assert (Forall marked (redact_scalar "command" <$> l')) as Hm.
    { apply Forall_fmap, Forall_true. intros w. apply redact_scalar_marked. set_solver. }
    cbn [map_array] in Hw. destruct n as [|n]; cbn [redact_ledger_value] in Hw; injection Hw as <-; [done|].
    apply Forall_fmap. eapply Forall_impl; [exact Hm|]. intros w Hw. unfold compose. by rewrite walk_marked.
  - rewrite entry_prefix.
    assert (marked (redact_scalar "command" v)) as Hm by (apply redact_scalar_marked; set_solver). by rewrite walk_marked.
Qed.

Lemma normalize_projected v w : normalize_effect_projection sha256 to_vec v = Some w → projected sha256 w.
Proof.
  unfold normalize_effect_projection.
  destruct (is_exact_fallback_projection v) eqn:Hf; [intros [= <-]; by left|].
  destruct (is_safe_projection sha256 v) eqn:Hs; [intros [= <-]; by right; left|].
  destruct (from_value v) as [d|]; [intros [= <-]; right; right; by exists d|].
  case_match; [|done]. intros [= <-]. left. unfold is_exact_fallback_projection, fallback_projection.
  change (get_str "descriptor_digest" _) with (Some ("sha256:" +:+ stable_digest_value sha256 to_vec v)). cbv iota.
  unfold stable_digest_value. by rewrite bare_marker.
Qed.
Lemma normalize_version v : is_Some (get "version" v) → is_Some (normalize_effect_projection sha256 to_vec v).
Proof.
  intros Hv. unfold normalize_effect_projection. repeat case_match; try by eexists.
  by rewrite bool_decide_eq_true_2 in *.
Qed.

Definition shows_nothing (k : string) (v : Value) : Prop :=
  k = "effect" ∧ projected sha256 v ∨
  is_argv_key k = true ∧ argv_marked v ∨
  is_argv_key k = false ∧ is_sensitive_ledger_key k = true ∧ marked v ∨
  is_argv_key k = false ∧ is_sensitive_ledger_key k = false ∧ redacted sha256 v ∧
  (k = "effect" → get "version" v = None ∧ get "descriptor_digest" v = None).

(** The walk gives an object no key but [effect]. *)
Lemma walk_absent n k v : k ≠ "effect" → get k v = None → get k (walk n v) = None.
Proof.
  intros Hk Hv. destruct n as [|n]; [done|]. destruct v as [| | | | |l]; try done. rewrite walk_object.
  set (l1 := project_descriptor sha256 to_vec l). cbn [get]. rewrite (assoc_fmap k (entry n (is_process_object l1)) l1).
  destruct (assoc k l1) as [w|] eqn:Hw; [|done]. exfalso.
  assert (k ∈ l.*1) as Hin.
  { apply assoc_elem_of in Hw. subst l1. unfold project_descriptor in Hw.
    destruct (assoc "descriptor" l); [|by apply list_elem_of_fmap; exists (k, w)].
    apply obj_insert_elem in Hw as [[= -> _]|Hw%swap_remove_subset]; [done|]. apply list_elem_of_fmap. by exists (k, w). }
  apply assoc_is_Some in Hin as [x Hx]. cbn [get] in Hv. congruence.
Qed.

Lemma normalize_none v :
  normalize_effect_projection sha256 to_vec v = None → get "version" v = None ∧ get "descriptor_digest" v = None.
Proof.
  unfold normalize_effect_projection. do 2 (case_match; [done|]). destruct (from_value v : option EffectDescriptor); [done|].
  destruct (get "version" v), (get "descriptor_digest" v); done.
Qed.

(** The walk is only needed where no rule of its own replaces the value. *)
Lemma entry_redacted n process k v :
  (is_argv_key k = false → (k = "effect" → normalize_effect_projection sha256 to_vec v = None) →
   redacted sha256 (walk n (pre process k v))) →
  shows_nothing k (entry n process k v).
Proof.
  intros Hw. unfold shows_nothing, entry, redact_entry. case_bool_decide as Hk.
  - subst k. change (pre process "effect" v) with v in *.
    destruct (normalize_effect_projection sha256 to_vec v) as [w|] eqn:Hn.
    + left. split; [done|]. by eapply normalize_projected.
    + right. right. right. split_and!; [done..|by apply Hw|]. intros _.
      destruct (normalize_none _ Hn). split; by apply walk_absent.
  - right. destruct (is_argv_key k); [left; split; [done|apply redact_argv_marked]|]. right.
    destruct (is_sensitive_ledger_key k) eqn:Hs; [left; split_and!; [done..|apply redact_scalar_marked; set_solver]|].
    right. split_and!; [done..|by apply Hw|done].
Qed.

(** An entry that the walk reaches is one of the object itself. *)
Lemma walk_redacted n v : value_wf v → depth v ≤ n → redacted sha256 (walk n v).
Proof.
  revert v. induction n as [|n IH]; intros v Hv Hd; [by apply rd_scalar, depth_scalar|].
  destruct v as [| | | |l|l]; try by apply rd_scalar.
  - cbn [redact_ledger_value depth] in *. apply rd_array, Forall_fmap. apply le_S_n, list_max_map_le in Hd.
    apply value_wf_array in Hv. eapply Forall_impl; [apply Forall_and; split; [exact Hv|exact Hd]|].
    intros w [Hw Hwd]. by apply IH.
  - rewrite walk_object. set (l1 := project_descriptor sha256 to_vec l). set (b := is_process_object l1).
    apply value_wf_object in Hv as [Hk Hv]. cbn [depth] in Hd. apply le_S_n, list_max_map_le in Hd.
    assert (Hl : ∀ kv, kv ∈ l1 → kv.1 ≠ "descriptor" ∧ (kv ∈ l ∨ kv.1 = "effect" ∧ is_Some (get "version" kv.2))).
    { intros [k v]. by apply project_descriptor_elem. }
    apply rd_object; apply Forall_fmap, Forall_forall; intros [k v] [Hdesc Hin]%Hl; unfold compose; cbn [fst snd] in *.
    + destruct (is_process_object ((λ kv, (kv.1, entry n b kv.1 kv.2)) <$> l1)) eqn:Hp.
      * apply is_process_object_entries in Hp. fold b in Hp. rewrite Hp. by apply entry_process_marked.
      * destruct (entry_process_marked n b k v Hdesc) as (? & ? & ? & ?). by split_and!.
    + apply entry_redacted. intros Ha He. destruct Hin as [Hin|[-> Hver]].
      * rewrite Forall_forall in Hv, Hd. specialize (Hv _ Hin). specialize (Hd _ Hin). cbn in Hv, Hd. rewrite Ha in Hd.
        apply IH; [by apply pre_wf|]. pose proof (pre_depth b k v). lia.
      * destruct (normalize_version _ Hver) as [w Hw]. specialize (He eq_refl). by rewrite He in Hw.
Qed.

(** Once there is enough fuel for the depth, more of it changes nothing. *)
Lemma entry_fuel n m process k v :
  (is_argv_key k = false → (k = "effect" → normalize_effect_projection sha256 to_vec v = None) →
   walk n (pre process k v) = walk m (pre process k v)) →
  entry n process k v = entry m process k v.
Proof.
  intros Hw. unfold entry, redact_entry. case_bool_decide as Hk.
  - subst k. change (pre process "effect" v) with v in *.
    destruct (normalize_effect_projection sha256 to_vec v) as [w|] eqn:Hn; [done|]. by apply Hw.
  - destruct (is_argv_key k); [done|]. destruct (is_sensitive_ledger_key k); [done|]. by apply Hw.
Qed.

Lemma walk_fuel n m v : value_wf v → depth v ≤ n → depth v ≤ m → walk n v = walk m v.
Proof.
  revert m v. induction n as [|n IH]; intros [|m] v Hv Hn Hm; [done|symmetry; by apply walk_scalar, depth_scalar
    |by apply walk_scalar, depth_scalar|].
  destruct v as [| | | |l|l]; try done.
  - cbn [redact_ledger_value depth] in *. f_equal. apply le_S_n, list_max_map_le in Hn, Hm.
    apply value_wf_array in Hv. rewrite Forall_forall in Hn, Hm, Hv.
    apply list_fmap_ext. intros i w Hw%list_elem_of_lookup_2. auto.
  - rewrite !walk_object. set (l1 := project_descriptor sha256 to_vec l). set (b := is_process_object l1). f_equal.
    apply value_wf_object in Hv as [Hk Hv]. cbn [depth] in Hn, Hm. apply le_S_n, list_max_map_le in Hn, Hm.
    rewrite Forall_forall in Hn, Hm, Hv. apply list_fmap_ext. intros i [k v] Hin%list_elem_of_lookup_2.
    f_equal. cbn [fst snd]. apply entry_fuel. intros Ha He.
    apply project_descriptor_elem in Hin as [_ [Hin|[-> Hver]]]; [| |done].
    + specialize (Hn _ Hin). specialize (Hm _ Hin). specialize (Hv _ Hin). cbn in Hn, Hm, Hv. rewrite Ha in Hn, Hm.
      pose proof (pre_depth b k v). apply IH; [by apply pre_wf|lia..].
    + destruct (normalize_version _ Hver) as [w Hw]. specialize (He eq_refl). by rewrite He in Hw.
Qed.
(** A descriptor, and an effect that reads as one, become audit projections. *)
Lemma walk_effect n l e :
  assoc "descriptor" l = Some e ∨
    assoc "descriptor" l = None ∧ assoc "effect" l = Some e ∧ is_Some (from_value e : option EffectDescriptor) →
  ∃ w, get "effect" (walk (S n) (VObject l)) = Some w ∧ projected sha256 w.
Proof.
  intros H. rewrite walk_object. set (l1 := project_descriptor sha256 to_vec l). cbn [get].
  rewrite (assoc_fmap "effect" (entry n (is_process_object l1)) l1).
  assert (∃ v, assoc "effect" l1 = Some v ∧ is_Some (normalize_effect_projection sha256 to_vec v)) as (v & -> & w & Hw).
  { subst l1. unfold project_descriptor. destruct H as [->|(-> & He & d & Hd)].
    - eexists. split; [apply assoc_obj_insert|]. apply normalize_version. unfold legacy_effect_projection.
      destruct (from_value e : option EffectDescriptor); by eexists.
    - exists e. split; [done|]. unfold normalize_effect_projection. do 2 (case_match; [by eexists|]). rewrite Hd. by eexists. }
  exists w. split; [|by eapply normalize_projected]. cbn [fmap option_fmap option_map]. f_equal.
  change (match normalize_effect_projection sha256 to_vec v with Some v => v | None => walk n v end = w). by rewrite Hw.
Qed.
End facts.

(** C20: what a Host reads of a record.  Whatever JSON the durable payload is, in
    what [secret_safe_ledger_payload] returns, at every depth: no object has a
    descriptor; each command in an array of process commands, the command prefix
    of a process, and the action of an object that describes a process is null or
    a marker with a digest; arguments are a digest and their number; a value under
    a credential key is null or a marker; and an effect that has a version or a
    descriptor digest is an audit projection.  A descriptor, and an effect that
    reads as one, become audit projections.  A text under [process_commands], which
    is no array, and an effect of another shape are walked like any other value.
    The recursion ends: what it returns does not depend on the fuel, once that is
    the depth of the payload. *)
Theorem payload_redacted sha256 to_vec v :
  (∀ x, length (sha256 x) = 32) → value_wf v →
  redacted sha256 (secret_safe_ledger_payload sha256 to_vec v) ∧
  (∀ l e, v = VObject l →
     assoc "descriptor" l = Some e ∨
       assoc "descriptor" l = None ∧ assoc "effect" l = Some e ∧ is_Some (from_value e : option EffectDescriptor) →
     ∃ w, get "effect" (secret_safe_ledger_payload sha256 to_vec v) = Some w ∧ projected sha256 w) ∧
  ∀ n, depth v ≤ n → redact_ledger_value sha256 to_vec n v = secret_safe_ledger_payload sha256 to_vec v.
Proof.
  intros Hsha Hv. split_and!; [by apply walk_redacted|intros l e ->; by apply walk_effect|].
  intros n Hn. by apply walk_fuel.
Qed.

Definition sample_payload : Value :=
  VObject [("descriptor", VString "unreadable"); ("class", VString "process"); ("action", VString "rm -rf /");
           ("process_commands", VArray [VString "rm"; VNull]);
           ("process_invocations", VArray [VObject [("argv", VArray [VString "rm"; VString "-rf"])]]);
           ("nested", VObject [("X-Secret", VString "hunter2"); ("count", VBool true)])].

Lemma payload_redacted_witness :
  redacted sample_sha32 (secret_safe_ledger_payload sample_sha32 (λ _, "{}") sample_payload) ∧
  (v ← get "nested" (secret_safe_ledger_payload sample_sha32 (λ _, "{}") sample_payload); get "count" v) = Some (VBool true) ∧
  get "descriptor" (secret_safe_ledger_payload sample_sha32 (λ _, "{}") sample_payload) = None ∧
  redact_ledger_value sample_sha32 (λ _, "{}") 9 sample_payload =
  secret_safe_ledger_payload sample_sha32 (λ _, "{}") sample_payload.
Proof.
  assert (value_wf sample_payload) as Hv by (cbn; repeat split; by repeat (apply NoDup_cons_2; [set_solver|]); apply NoDup_nil_2).
  assert (∀ x, length (sample_sha32 x) = 32) as Hsha.
  { intros x. unfold sample_sha32. rewrite length_app, length_replicate. by destruct (sample_sha256 x) as [|b []]. }
  destruct (payload_redacted sample_sha32 (λ _, "{}") sample_payload Hsha Hv) as (Hr & _ & Hf).
  split_and!; [exact Hr|by vm_compute..|]. apply Hf. vm_compute. lia.
Defined.
